(* ===== verification/_CoqProject ===== *)
-Q . S2P
Prelude.v
Common.v
SocksFamily.v
Vless.v
Mux.v
Cidr.v
DomainMatch.v
Router.v
Lru.v
Dns.v
Limits.v
TunPacket.v
IpText.v
Hysteria2.v
FlowTables.v
Balancer.v
AsyncIo.v
Vision.v
Relay.v
Boxed.v
UploadQueue.v
ClientHello.v
Sniff.v
ShadowTls.v
Splice.v
RelayPaths.v
Stats.v
Accounting.v
Dispatch.v
ConnMgr.v
Profile.v
Aead.v
Ss2022.v
Vmess.v
VmessBody.v
Ss2022Udp.v
Inbounds.v
Tuic.v
Fec.v
Freedom.v
TunTcp.v
Reality.v
Tls13.v
Tls13Stream.v
Grpc.v
