(* ===== verification/Prelude.v ===== *)
(** * Blackwire: verification library

    Blackwire is a multi-protocol proxy in Rust.  Clients reach it through inbound
    protocols (SOCKS5, HTTP CONNECT, VLESS, VMess, Trojan, Shadowsocks-2022, Hysteria2,
    TUIC) or a TUN device; a dispatcher sniffs the first bytes, asks the router for an
    outbound tag, resolves names through the DNS module, admits connections under
    per-user limits, connects the outbound and relays bytes through stream adapters
    (Vision, ShadowTLS, AEAD chunk streams), while a connection manager and traffic
    counters look on.  This library models the parts that decide, parse, transform,
    relay and account, and proves them correct; sockets stay outside and the primitives
    of cryptography are interfaces.

    ** Files and the code they model (paths under [src/crates/])

    Foundations and codecs:

    - [Prelude]: bytes and machine words, [res] ([Result] with a panic outcome),
      stream readers, UTF-8 validation, automation and shared lemmas.
    - [Common]: [blackwire-common] [error.rs], [address.rs], [socks5_address.rs],
      [domain_wire_len] of [relay.rs].
    - [SocksFamily]: modules [SocksUdp] ([blackwire-protocol] [socks5_udp.rs]),
      [Trojan] ([trojan/codec.rs]), [SsHeader] ([ss2022/variable_header.rs]), all
      clients of the address codec of [Common].
    - [Vless]: [vless/codec.rs], the packet codec of [vless/udp.rs],
      [vless/registry.rs].  [Mux]: the frame codec of [vless/mux.rs].
    - [IpText]: [Display] and [FromStr] of [u16], [Ipv4Addr] and [Ipv6Addr].
      [Hysteria2]: [hysteria2/varint.rs], [proto.rs], [tcp.rs] and the datagram
      codec of [udp.rs].
    - [ClientHello]: [blackwire-tls] (fingerprints and the ClientHello builder) and
      [reality/parser.rs], its reader.

    Decisions and tables:

    - [Cidr] and [DomainMatch]: the matchers of [blackwire-app] [router.rs] and of
      [geo/geoip.rs], [geo/geosite.rs], [geo/proto.rs].
    - [Router]: [router.rs] (rules, [LiveRouter], route cache) and
      [pick_route_xray] of [dispatcher.rs], written against the class [RouterOps]
      that stands for the [Router] trait.
    - [Balancer]: modules [Balancer] ([balancer.rs]) and [Health] ([health.rs]).
    - [Lru]: interface of the [lru] crate.  [Dns]: [dns/fakeip.rs], [dns/cache.rs]
      and the decisions of [dns.rs].
    - [Limits]: modules [Replay] ([ss2022/replay.rs]) and [Limiter]
      ([user_limits.rs]).
    - [Stats]: [runtime_stats.rs].  [ConnMgr]: [blackwire-connmgr].
    - [Profile]: [blackwire-config] [schema/profile.rs].
    - [TunPacket]: [blackwire-transport] [tun/packet.rs].  [FlowTables]: modules
      [Session] ([tun/session.rs]) and [UdpNat] ([tun/nat.rs]), which use
      [TunPacket] for the packets they read and build.

    Streams and relays:

    - [AsyncIo]: the poll functions of [AsyncRead] and [AsyncWrite] as classes with
      their contract, and [PrependedStream].  [Vision]: [VisionStream] and its
      unpadder ([blackwire-common] [stream.rs]).  [Boxed]: erased streams.
    - [ShadowTls]: [shadowtls/v3.rs] and the record relay of [shadowtls/handshake.rs].
    - [UploadQueue]: [splithttp_packet_up.rs].
    - [Relay]: [blackwire-common] [relay.rs], [buf.rs].  [Splice]: [splice.rs].
      [RelayPaths]: the copy loops of [blackwire-app] [relay.rs].
    - [Sniff]: [sniff.rs] and the sniffing stage of the dispatcher.  [Accounting] and
      [Dispatch]: the other stages of [dispatch_with_early_payload]
      ([dispatcher.rs]), composed with the relays.

    Proxy protocols:

    - [Aead]: [aead.rs] over the interface of the AEAD libraries.
    - [Ss2022] and [Ss2022Udp]: Shadowsocks-2022 over TCP and UDP.
    - [Vmess] and [VmessBody]: the VMess handshake and its chunk stream.
    - [Inbounds]: the SOCKS5 and HTTP CONNECT conversations.
    - [Tuic]: [blackwire-transport] [tuic.rs], codec, admission and UDP sessions.
    - [Fec]: forward error correction of Hysteria2 datagrams ([hysteria2/udp.rs],
      feature [experimental-fec]).
    - [Freedom]: [freedom.rs], direct connections and their adaptive pool.
    - [TunTcp]: [tun/tcp.rs] with the packet loop of [tun/runtime.rs] that drives it and
      the batches for the device of [tun/batch.rs].
    - [Reality]: [reality/client.rs] up to its hello, the hello reader of
      [reality/tls13.rs] and [reality/server.rs].  [Tls13]: the TLS 1.3 handshakes of
      [reality/tls13.rs] and [reality/tls13_server.rs] with [reality/cert.rs].
      [Tls13Stream]: the stream of [reality/tls13.rs].
    - [Grpc]: the frames and the stream of [grpc.rs] over the interface of [h2].

    A Rust function becomes a definition of the same name; a method of [T] takes
    the state first and returns the new state with its result; a struct is a
    record and an enum an inductive type.  Where two types have a method of the
    same name the type's name is put in front ([LiveRouter_new]).

    ** Modelling conventions

    - A [uN] is a [Z] with its range as a predicate; casts and wrapping operations
      reduce modulo [2^N].  Arithmetic wraps where it can overflow, as in the
      release profile of [Cargo.toml], which does not enable overflow checks.  Where
      the two profiles differ otherwise ([debug_assert!] in [Fec]) the profile is an
      argument.
    - [res E A] has [Ok], [Err] and [Panic]; indexing and slicing out of range
      panic.  [Option] results that can panic are [res unit].
    - The reader of a codec is the bytes still to arrive; [read_exact] depends on them
      only, so a theorem covers every fragmentation.  A writer is the bytes it
      writes.  A handshake in both directions is a conversation ([talk] of [Inbounds]):
      a function of what the peer sends that also gives what is written.
    - A stream adapter is modelled poll by poll: [poll_read] and [poll_write] of the
      stream below are the operations of a class, with [Pending], partial results and
      errors at its choice, so that a theorem covers every schedule.  Loops over polls
      are bounded by fuel that the theorems leave arbitrary, except where they show
      that a loop ends.
    - Error messages are kept without the values that [format!] interpolates.
    - Instants and durations are nanoseconds, passed to the operation that reads
      them; random bytes are arguments.  Logging and metrics are left out, except the
      rule gauges.
    - A [DashMap], [ArcSwap] or atomic operation is one atomic step.  [Router],
      [Limits], [ConnMgr], [Ss2022Udp], [Tuic], [Freedom] and [TunTcp] also give the
      interleaved semantics as step relations; other components are serialised by [&mut self] or by a lock.
      Objects that several owners share ([Arc]) are cells of a store ([Stats],
      [ConnMgr], [Ss2022Udp], [Freedom]).
    - Loops with fuel: the VLESS addons loop (the fuel is a parameter, and
      exhaustion is [None]: it can diverge), the IPv6 extension walk (the total
      length, every round advances), checksum folding (two rounds for a [u32]),
      [put_varint] of [Vless] and [Grpc] (ten groups of seven bits), printed numbers (five digits).
    - Crates outside the repository are interfaces: classes of operations, and of
      the documented behaviour that the code relies on ([IpNet], [TextMatchers],
      [Lru], [Ipv4Net]), with an instance each; [f64] is a class of operations
      without laws ([Float64]); hashing ([RouteHash]), [HashMap]
      order ([HashOrder]), SHA-224, hex encoding and the upstream resolver are
      parameters.  Of cryptography only correctness is assumed (what was sealed
      opens again, lengths of digests, decryption inverts encryption), never secrecy
      or unforgeability.

    ** What is proved

    - Codecs: encode/decode round trips for SOCKS5 UDP, Trojan, Shadowsocks-2022,
      VLESS, Mux.Cool, Hysteria2, ClientHello and IP packets, with the conditions under
      which the encoder succeeds; agreement of the streaming and the slice decoders;
      absence of panics on every input, or the exact inputs that panic; checksums.
    - Routing: what each rule accepts, first match, transparency of the cache for
      sequences of picks and swaps, and what remains true of it (and what does not)
      when they interleave; the matchers against plain specifications.
    - Balancing: every strategy picks a usable member, dead members being those
      whose probes failed often enough since their last success; round robin is
      fair.
    - DNS: FakeIP is a bijection with least-recently-used eviction; the cache
      returns what was inserted until it expires.
    - Admission: the replay window, the exact cap of the per-user limiter one
      operation at a time, and per counter under interleaving; whom the REALITY server
      lets in, and what its cover site sees of the others.
    - TUN: bounded flow tables, eviction of a least recently seen flow, isolation of
      the flows that share the NAT, and in-order delivery of the TCP bridge.
    - Streams: whatever the partial and pending reads and writes, Vision, ShadowTLS, the
      TLS 1.3 stream of REALITY, the gRPC stream, the chunk streams of Shadowsocks-2022 and
      VMess and the SplitHTTP queue hand on the bytes they were given, in order and once.
    - Relays: relay v2 delivers prefixes in order with exact counters after every round;
      the copy loops and the splice relay do so too, unless a splice fails, and keep order
      without repetition even then; relay v2 ends on ready streams; the dispatcher
      composes them from the accepted connection to the booked bytes.
    - Sessions: Shadowsocks-2022, VMess and REALITY clients and servers understand each
      other;
      TUIC admits and relays as its users and associations say; the UDP relays, the
      connection pool and the connection manager keep their invariants under
      interleaving; the local inbounds answer as their protocols say; a lost Hysteria2
      datagram is recovered from parity; direct connections try every address that is
      resolved and allowed, and no other.
    - Configuration: what validation for the Fast Profile looks at, what it overlooks, and
      the cost of a configuration.
    - Defects that the proofs expose are theorems too: among them the looping VLESS
      addons, the panicking SOCKS5 datagram, long Mux payloads, the bounded backward
      scan of the CIDR matchers, the stale route after a reload, the ineffective
      negative DNS cache, the racy per-user cap, the shadowed compact Hysteria2
      addresses, the wedged upload queue, the head-of-line blocking of the copy loops,
      spliced traffic that is not booked, the bytes of a VMess chunk that failed to
      authenticate, Shadowsocks-2022 UDP sessions whose replies stop, parity datagrams
      of release builds that nobody recognises, pool slots lost in evictions, the
      packet loop of the TUN that waits for itself, the bytes that a failed splice loses,
      Shadowsocks-2022 UDP packets to IPv6 destinations that are never sent, the packets
      that a failed write to the TUN device drops, the gRPC message length that makes the
      reader panic, and the REALITY client that completes a
      handshake with anybody who leaves the certificate out.

    ** Not modelled

    Sockets, the TLS, QUIC and HTTP crates and the plumbing around them; the loops
    of the protocol handlers that only wait on sockets and timers; serde data types and
    their defaults; the store (MySQL), the command line and the web panel.

    ** Plan

    Left: the [io_uring] state machine of the splice relay and the Vision inbound loop. *)

From stdpp Require Export base tactics gmap strings numbers list.

#[global] Open Scope Z_scope.

(** ** Bytes and machine words

    A [u8], [u16], [u32] or [u64] is a [Z]; [in_uW] is the range of the type.
    A byte slice is a [list Z]; a Rust [String] is the list of its UTF-8 bytes. *)

Abbreviation bytes := (list Z).

Definition in_u8 (x : Z) : Prop := 0 <= x < 2 ^ 8.
Definition in_u16 (x : Z) : Prop := 0 <= x < 2 ^ 16.
Definition in_u32 (x : Z) : Prop := 0 <= x < 2 ^ 32.
Definition in_u64 (x : Z) : Prop := 0 <= x < 2 ^ 64.
Definition bytes_ok (l : bytes) : Prop := Forall in_u8 l.

(** Narrowing casts [x as u8], [x as u16], [x as u32]. *)
Definition as_u8 (x : Z) : Z := x mod 2 ^ 8.
Definition as_u16 (x : Z) : Z := x mod 2 ^ 16.
Definition as_u32 (x : Z) : Z := x mod 2 ^ 32.
Definition as_u64 (x : Z) : Z := x mod 2 ^ 64.

(** [len() as u64] and friends. *)
Definition zlen {A} (l : list A) : Z := Z.of_nat (length l).

(** A byte-string literal. *)
Definition str (s : string) : bytes :=
  (fun a => Z.of_N (Ascii.N_of_ascii a)) <$> String.list_ascii_of_string s.

(** ** Big-endian encoding ([to_be_bytes] / [from_be_bytes]) *)

Fixpoint be_bytes (n : nat) (x : Z) : bytes :=
  match n with
  | O => []
  | S n' => (x / 256 ^ Z.of_nat n') mod 256 :: be_bytes n' x
  end.

Definition be_val (l : bytes) : Z := foldl (fun acc b => acc * 256 + b) 0 l.

(** ** UTF-8 validation ([std::str::from_utf8]) *)

Definition utf8_cont (b : Z) : bool := (128 <=? b) && (b <=? 191).

Definition utf8_second3 (b0 b1 : Z) : bool :=
  if b0 =? 224 then (160 <=? b1) && (b1 <=? 191)
  else if b0 =? 237 then (128 <=? b1) && (b1 <=? 159)
  else (225 <=? b0) && (b0 <=? 239) && utf8_cont b1.

Definition utf8_second4 (b0 b1 : Z) : bool :=
  if b0 =? 240 then (144 <=? b1) && (b1 <=? 191)
  else if b0 =? 244 then (128 <=? b1) && (b1 <=? 143)
  else (241 <=? b0) && (b0 <=? 243) && utf8_cont b1.

Fixpoint utf8_valid (l : bytes) : bool :=
  match l with
  | [] => true
  | b0 :: l1 =>
      if b0 <? 128 then utf8_valid l1 else
      match l1 with
      | [] => false
      | b1 :: l2 =>
          if (194 <=? b0) && (b0 <=? 223) then utf8_cont b1 && utf8_valid l2 else
          match l2 with
          | [] => false
          | b2 :: l3 =>
              if (224 <=? b0) && (b0 <=? 239)
              then utf8_second3 b0 b1 && utf8_cont b2 && utf8_valid l3 else
              match l3 with
              | [] => false
              | b3 :: l4 =>
                  (240 <=? b0) && (b0 <=? 244) && utf8_second4 b0 b1 &&
                  utf8_cont b2 && utf8_cont b3 && utf8_valid l4
              end
          end
      end
  end.

(** ** Results with panics

    [res E A] is Rust's [Result<A, E>] with a third outcome, [Panic], for an
    out-of-range index, a bad slice or an arithmetic overflow. A function that
    returns [Option<A>] is [res unit A], with [None] as [Err tt]. *)

Inductive res (E A : Type) : Type :=
| Ok (a : A)
| Err (e : E)
| Panic.
Arguments Ok {E A} a.
Arguments Err {E A} e.
Arguments Panic {E A}.

#[export] Instance res_ret {E} : MRet (res E) := fun A a => Ok a.
#[export] Instance res_bind {E} : MBind (res E) := fun A B f m =>
  match m with Ok a => f a | Err e => Err e | Panic => Panic end.
#[export] Instance res_fmap {E} : FMap (res E) := fun A B f m =>
  match m with Ok a => Ok (f a) | Err e => Err e | Panic => Panic end.

Definition map_err {E F A} (f : E -> F) (m : res E A) : res F A :=
  match m with Ok a => Ok a | Err e => Err (f e) | Panic => Panic end.

Definition of_option {E A} (e : E) (o : option A) : res E A :=
  match o with Some a => Ok a | None => Err e end.

(** [if !cond { return Err(e) }] *)
Definition ensure {E} (c : bool) (e : E) : res E unit :=
  if c then Ok tt else Err e.

Definition is_ok {E A} (m : res E A) : bool :=
  match m with Ok _ => true | _ => false end.

(** [buf[i]] and [&buf[a..b]], which panic out of range. *)
Definition idx {E} (l : bytes) (i : nat) : res E Z :=
  match l !! i with Some b => Ok b | None => Panic end.

Definition slice {E A} (l : list A) (a b : nat) : res E (list A) :=
  if decide (a <= b <= length l)%nat then Ok (take (b - a) (drop a l)) else Panic.

(** [u16::from_be_bytes([buf[i], buf[i + 1]])] *)
Definition idx16 {E} (l : bytes) (i : nat) : res E Z :=
  a ← idx l i; b ← idx l (i + 1); Ok (be_val [a; b]).
Definition idx32 {E} (l : bytes) (i : nat) : res E Z :=
  a ← idx l i; b ← idx l (i + 1); c ← idx l (i + 2); d ← idx l (i + 3);
  Ok (be_val [a; b; c; d]).

(** ** Stream readers

    An async reader is the list of the bytes that will still arrive before end
    of stream. [read_exact] only depends on that list, not on how the transport
    fragments it; at end of stream it fails with the error type's
    [UnexpectedEof] value. *)

Class EofError (E : Type) := eof : E.

Definition reader (E A : Type) : Type := bytes -> res E (A * bytes).

#[export] Instance reader_ret {E} : MRet (reader E) := fun A a s => Ok (a, s).
#[export] Instance reader_bind {E} : MBind (reader E) := fun A B f m s =>
  match m s with
  | Ok (a, s') => f a s'
  | Err e => Err e
  | Panic => Panic
  end.

Definition lift {E A} (m : res E A) : reader E A := fun s =>
  match m with Ok a => Ok (a, s) | Err e => Err e | Panic => Panic end.

Definition read_exact {E} `{EofError E} (n : nat) : reader E bytes := fun s =>
  if decide (n <= length s)%nat then Ok (take n s, drop n s) else Err eof.

Definition read_u8 {E} `{EofError E} : reader E Z := fun s =>
  match s with b :: s' => Ok (b, s') | [] => Err eof end.

Definition read_u16 {E} `{EofError E} : reader E Z :=
  l ← read_exact 2; mret (be_val l).

Definition read_u32 {E} `{EofError E} : reader E Z :=
  l ← read_exact 4; mret (be_val l).

(** * Automation *)

Create HintDb blackwire.
Create Rewrite HintDb blackwire_len.

Ltac unfold_words :=
  unfold in_u8, in_u16, in_u32, in_u64, as_u8, as_u16, as_u32, as_u64 in *.

(** Case analysis on the head [if]/[match] of the goal, with the boolean tests
    turned into propositions. *)
Ltac bool_hyps :=
  repeat match goal with
  | H : (_ && _) = true |- _ => apply andb_true_iff in H as [? ?]
  | H : (_ || _) = false |- _ => apply orb_false_iff in H as [? ?]
  | H : (_ && _) = false |- _ => apply andb_false_iff in H
  | H : (_ || _) = true |- _ => apply orb_true_iff in H
  | H : negb _ = true |- _ => apply negb_true_iff in H
  | H : negb _ = false |- _ => apply negb_false_iff in H
  | H : (_ <? _) = true |- _ => apply Z.ltb_lt in H
  | H : (_ <? _) = false |- _ => apply Z.ltb_ge in H
  | H : (_ <=? _) = true |- _ => apply Z.leb_le in H
  | H : (_ <=? _) = false |- _ => apply Z.leb_gt in H
  | H : (_ =? _) = true |- _ => apply Z.eqb_eq in H
  | H : (_ =? _) = false |- _ => apply Z.eqb_neq in H
  | H : (_ <? _)%nat = true |- _ => apply Nat.ltb_lt in H
  | H : (_ <? _)%nat = false |- _ => apply Nat.ltb_ge in H
  | H : (_ <=? _)%nat = true |- _ => apply Nat.leb_le in H
  | H : (_ <=? _)%nat = false |- _ => apply Nat.leb_gt in H
  | H : (_ =? _)%nat = true |- _ => apply Nat.eqb_eq in H
  | H : (_ =? _)%nat = false |- _ => apply Nat.eqb_neq in H
  | H : bool_decide _ = true |- _ => apply bool_decide_eq_true in H
  | H : bool_decide _ = false |- _ => apply bool_decide_eq_false in H
  end.

Ltac cases := repeat (case_match; simplify_eq/=); bool_hyps.

(** Reduce a bind whose first computation is known, and nothing else. *)
Ltac mred := cbn [mbind res_bind mret res_ret fmap res_fmap reader_ret negb orb andb].
Tactic Notation "mred" "in" hyp(H) :=
  cbn [mbind res_bind mret res_ret fmap res_fmap reader_ret negb orb andb] in H.

(** Evaluate the comparisons of closed constants in the goal. *)
Ltac eval_eqb :=
  repeat match goal with
  | |- context [?a =? ?b] =>
      let v := eval vm_compute in (a =? b) in
      match v with true => idtac | false => idtac end;
      change (a =? b) with v
  end; cbv iota.

(** Arithmetic goals about the lengths of concatenations. *)
Ltac len_solve :=
  unfold zlen in *; cbn [length] in *;
  repeat progress (try autorewrite with blackwire_len in *; cbn [length] in *);
  lia.

(** Pass a guard whose [then] branch is impossible by the lengths involved. *)
Ltac skip_guard :=
  match goal with
  | |- context [if ?b then _ else _] => destruct b eqn:?
  end; bool_hyps;
  [ exfalso; len_solve | ].

Lemma Ok_inj {E A} (a b : A) : Ok (E:=E) a = Ok b -> a = b.
Proof. congruence. Qed.

(** A monadic computation that returned [Ok], decomposed step by step. *)
Ltac inv_res :=
  repeat match goal with
  | H : mbind _ ?m = Ok _ |- _ =>
      let E := fresh "E" in destruct m eqn:E; mred in H; try discriminate H
  | H : Ok _ = Ok _ |- _ => apply Ok_inj in H; subst
  | H : Err _ = Ok _ |- _ => discriminate H
  | H : Panic = Ok _ |- _ => discriminate H
  | H : Err _ = Panic |- _ => discriminate H
  | H : Ok _ = Panic |- _ => discriminate H
  end.

(** * Generic lemmas *)

(** ** Results *)

Definition no_panic {E A} (m : res E A) : Prop := m <> Panic.

Lemma no_panic_bind {E A B} (m : res E A) (f : A -> res E B) :
  no_panic m -> (forall a, m = Ok a -> no_panic (f a)) -> no_panic (m ≫= f).
Proof. unfold no_panic. intros Hm Hf. destruct m; cbn; auto; done. Qed.

Lemma no_panic_ok {E A} (a : A) : no_panic (E:=E) (Ok a).
Proof. done. Qed.

Lemma no_panic_err {E A} (e : E) : no_panic (A:=A) (Err e).
Proof. done. Qed.

Lemma no_panic_ensure {E} c (e : E) : no_panic (ensure c e).
Proof. by destruct c. Qed.

Lemma no_panic_of_option {E A} (e : E) (o : option A) : no_panic (of_option e o).
Proof. by destruct o. Qed.

Lemma ensure_ok {E} c (e : E) u : ensure c e = Ok u -> c = true.
Proof. by destruct c. Qed.

#[export] Hint Resolve no_panic_bind no_panic_ok no_panic_err no_panic_ensure
  no_panic_of_option : blackwire.

(** ** Indexing and slicing *)

Lemma idx_ok {E} (l : bytes) i :
  (i < length l)%nat -> exists b, idx (E:=E) l i = Ok b /\ l !! i = Some b.
Proof.
  intros Hi. unfold idx. destruct (lookup_lt_is_Some_2 l i Hi) as [b Hb].
  exists b. by rewrite Hb.
Qed.

Lemma idx_Ok_inv {E} (l : bytes) i b : idx (E:=E) l i = Ok b -> l !! i = Some b.
Proof. unfold idx. case_match; congruence. Qed.

Lemma idx_no_panic {E} (l : bytes) i : (i < length l)%nat -> no_panic (idx (E:=E) l i).
Proof. intros Hi. by destruct (idx_ok (E:=E) l i Hi) as (b & -> & _). Qed.

Lemma idx16_no_panic {E} (l : bytes) i :
  (i + 1 < length l)%nat -> no_panic (idx16 (E:=E) l i).
Proof.
  intros Hi. unfold idx16.
  destruct (idx_ok (E:=E) l i) as (a & -> & _); [lia|]. cbn.
  destruct (idx_ok (E:=E) l (i + 1)) as (b & -> & _); [lia|]. done.
Qed.

Lemma idx32_no_panic {E} (l : bytes) i :
  (i + 3 < length l)%nat -> no_panic (idx32 (E:=E) l i).
Proof.
  intros Hi. unfold idx32.
  destruct (idx_ok (E:=E) l i) as (a & -> & _); [lia|]. cbn.
  destruct (idx_ok (E:=E) l (i + 1)) as (b & -> & _); [lia|]. cbn.
  destruct (idx_ok (E:=E) l (i + 2)) as (c & -> & _); [lia|]. cbn.
  destruct (idx_ok (E:=E) l (i + 3)) as (d & -> & _); [lia|]. done.
Qed.

Lemma slice_ok {E A} (l : list A) a b :
  (a <= b <= length l)%nat -> slice (E:=E) l a b = Ok (take (b - a) (drop a l)).
Proof. intros H. unfold slice. by rewrite decide_True. Qed.

Lemma slice_no_panic {E A} (l : list A) a b :
  (a <= b <= length l)%nat -> no_panic (slice (E:=E) l a b).
Proof. intros H. by rewrite slice_ok. Qed.

Lemma slice_Ok_inv {E A} (l : list A) a b r :
  slice (E:=E) l a b = Ok r -> (a <= b <= length l)%nat /\ r = take (b - a) (drop a l).
Proof. unfold slice. case_decide; [|done]. by intros [= <-]. Qed.

Lemma idx_app_r {E} (l1 l2 : bytes) i n :
  n = length l1 -> idx (E:=E) (l1 ++ l2) (n + i) = idx l2 i.
Proof. intros ->. unfold idx. by rewrite lookup_app_r, Nat.add_comm, Nat.add_sub by lia. Qed.

Lemma slice_app_r {E A} (l1 l2 : list A) a b n :
  n = length l1 -> slice (E:=E) (l1 ++ l2) (n + a) (n + b) = slice l2 a b.
Proof.
  intros ->. unfold slice. rewrite length_app.
  destruct (decide (a <= b <= length l2)%nat).
  - rewrite decide_True by lia. rewrite drop_app_add. do 2 f_equal. lia.
  - rewrite decide_False by lia. done.
Qed.

Lemma slice_prefix {E A} (l1 l2 : list A) n :
  n = length l1 -> slice (E:=E) (l1 ++ l2) 0 n = Ok l1.
Proof.
  intros ->. rewrite slice_ok by (rewrite length_app; lia).
  by rewrite Nat.sub_0_r, drop_0, take_app_length.
Qed.

Lemma slice_tail {E A} (l1 l2 : list A) n :
  n = length l1 -> slice (E:=E) (l1 ++ l2) n (length (l1 ++ l2)) = Ok l2.
Proof.
  intros ->. rewrite slice_ok by (rewrite length_app; lia).
  rewrite drop_app_length, length_app, take_ge by lia. done.
Qed.

Lemma slice_mid {E A} (l1 l2 l3 : list A) a b :
  a = length l1 -> b = (a + length l2)%nat -> slice (E:=E) (l1 ++ l2 ++ l3) a b = Ok l2.
Proof.
  intros -> ->. rewrite slice_ok by (rewrite !length_app; lia).
  rewrite drop_app_length, Nat.add_comm, Nat.add_sub, take_app_length. done.
Qed.

Lemma idx_app_mid {E} (l1 : bytes) b l2 n :
  n = length l1 -> idx (E:=E) (l1 ++ b :: l2) n = Ok b.
Proof.
  intros ->. unfold idx. by rewrite lookup_app_r, Nat.sub_diag by lia.
Qed.

Lemma idx_cons_0 {E} b (l : bytes) : idx (E:=E) (b :: l) 0 = Ok b.
Proof. done. Qed.

Lemma idx_cons_S {E} b (l : bytes) i : idx (E:=E) (b :: l) (S i) = idx l i.
Proof. done. Qed.

(** Shifting a cursor: reading [p + k] bytes in is reading [k] bytes into what
    follows the first [p]. *)
Lemma idx_drop {E} (l : bytes) p k : idx (E:=E) l (p + k) = idx (drop p l) k.
Proof. unfold idx. by rewrite lookup_drop. Qed.

Lemma idx16_drop {E} (l : bytes) p k : idx16 (E:=E) l (p + k) = idx16 (drop p l) k.
Proof. unfold idx16. by rewrite <- Nat.add_assoc, !idx_drop. Qed.

Lemma slice_drop {E A} (l : list A) p a b :
  (p <= length l)%nat -> slice (E:=E) l (p + a) (p + b) = slice (drop p l) a b.
Proof.
  intros Hp. unfold slice. rewrite length_drop.
  destruct (decide (a <= b <= length l - p)%nat).
  - rewrite decide_True, drop_drop by lia. do 2 f_equal. lia.
  - by rewrite decide_False by lia.
Qed.

Lemma zlen_to_nat {A} (l : list A) : Z.to_nat (zlen l) = length l.
Proof. apply Nat2Z.id. Qed.

Lemma zlen_app {A} (l1 l2 : list A) : zlen (l1 ++ l2) = zlen l1 + zlen l2.
Proof. unfold zlen. rewrite length_app. lia. Qed.

Lemma zlen_nonneg {A} (l : list A) : 0 <= zlen l.
Proof. unfold zlen. lia. Qed.

(** ** Bytes *)

Lemma bytes_ok_nil : bytes_ok [].
Proof. constructor. Qed.

Lemma bytes_ok_cons b l : in_u8 b -> bytes_ok l -> bytes_ok (b :: l).
Proof. by constructor. Qed.

Lemma bytes_ok_app l1 l2 : bytes_ok (l1 ++ l2) <-> bytes_ok l1 /\ bytes_ok l2.
Proof. apply Forall_app. Qed.

Lemma bytes_ok_app_2 l1 l2 : bytes_ok l1 -> bytes_ok l2 -> bytes_ok (l1 ++ l2).
Proof. intros. by apply Forall_app. Qed.

Lemma bytes_ok_lookup l i b : bytes_ok l -> l !! i = Some b -> in_u8 b.
Proof. intros H Hi. by eapply Forall_lookup_1. Qed.

Lemma bytes_ok_take l n : bytes_ok l -> bytes_ok (take n l).
Proof. apply Forall_take. Qed.

Lemma bytes_ok_drop l n : bytes_ok l -> bytes_ok (drop n l).
Proof. apply Forall_drop. Qed.

#[export] Hint Resolve bytes_ok_nil bytes_ok_cons bytes_ok_app_2 bytes_ok_take
  bytes_ok_drop : blackwire.

Lemma str_ok s : bytes_ok (str s).
Proof.
  unfold bytes_ok, str. apply Forall_fmap, Forall_forall. intros a _.
  unfold in_u8; cbn. pose proof (Ascii.N_ascii_bounded a). lia.
Qed.
#[export] Hint Resolve str_ok : blackwire.

(** A boolean property of bytes is decided by its 256 instances. *)
Lemma byte_cases (P : Z -> bool) :
  forallb P (seqZ 0 256) = true -> forall b, in_u8 b -> P b = true.
Proof.
  intros H b Hb. rewrite forallb_forall in H. apply H.
  apply list_elem_of_In, elem_of_seqZ. unfold in_u8 in Hb. lia.
Qed.

Lemma byte_low7 b : in_u8 b -> Z.land b 127 = b mod 128.
Proof. intros _. apply (Z.land_ones b 7). lia. Qed.

Lemma byte_high_clear b : in_u8 b -> (Z.land b 128 =? 0) = (b <? 128).
Proof.
  intros Hb. apply eqb_prop.
  revert b Hb. apply (byte_cases (fun b => eqb (Z.land b 128 =? 0) (b <? 128))).
  vm_compute. reflexivity.
Qed.

Lemma byte_set_high b : in_u8 b -> Z.lor b 128 = b mod 128 + 128.
Proof.
  intros Hb. apply Z.eqb_eq.
  revert b Hb. apply (byte_cases (fun b => Z.lor b 128 =? b mod 128 + 128)).
  vm_compute. reflexivity.
Qed.

(** Disjoint bit fields: [or] is addition. *)
Lemma lor_shiftl_add a b n : 0 <= n -> 0 <= a < 2 ^ n -> Z.lor a (b * 2 ^ n) = a + b * 2 ^ n.
Proof.
  intros Hn Ha. rewrite <- Z.shiftl_mul_pow2 by done.
  enough (Hl : Z.land a (Z.shiftl b n) = 0).
  { by rewrite <- Z.lxor_lor, <- Z.add_nocarry_lxor. }
  apply Z.bits_inj'. intros k Hk. rewrite Z.land_spec, Z.bits_0.
  destruct (Z.lt_ge_cases k n).
  - by rewrite Z.shiftl_spec_low, andb_false_r.
  - replace (Z.testbit a k) with false; [done|]. symmetry.
    apply Z.testbit_false; [done|]. rewrite Z.div_small; [done|].
    split; [lia|]. apply Z.lt_le_trans with (2 ^ n); [lia|]. by apply Z.pow_le_mono_r; lia.
Qed.

(** ** Big-endian encoding *)

Lemma length_be_bytes n x : length (be_bytes n x) = n.
Proof. induction n; cbn [be_bytes length]; congruence. Qed.

Lemma zlen_be_bytes n x : zlen (be_bytes n x) = Z.of_nat n.
Proof. unfold zlen. by rewrite length_be_bytes. Qed.

Lemma be_bytes_ok n x : bytes_ok (be_bytes n x).
Proof.
  induction n; cbn [be_bytes]; constructor; auto.
  unfold in_u8. change (2 ^ 8) with 256. apply Z.mod_pos_bound. lia.
Qed.
#[export] Hint Resolve be_bytes_ok : blackwire.

Lemma be_val_foldl l acc :
  foldl (fun acc b => acc * 256 + b) acc l = acc * 256 ^ zlen l + be_val l.
Proof.
  revert acc. unfold be_val, zlen. induction l as [|b l IH]; intros acc; cbn [foldl length].
  - cbn. lia.
  - rewrite (IH (acc * 256 + b)), (IH (0 * 256 + b)), Nat2Z.inj_succ, Z.pow_succ_r by lia. ring.
Qed.

Lemma be_val_cons b l : be_val (b :: l) = b * 256 ^ zlen l + be_val l.
Proof. unfold be_val at 1. cbn [foldl]. rewrite be_val_foldl. ring. Qed.

Lemma be_val_bound l : bytes_ok l -> 0 <= be_val l < 256 ^ zlen l.
Proof.
  induction 1 as [|b l Hb _ IH].
  - unfold be_val, zlen; cbn. lia.
  - rewrite be_val_cons. unfold zlen, in_u8 in *. change (2 ^ 8) with 256 in Hb.
    cbn [length]. rewrite Nat2Z.inj_succ, Z.pow_succ_r by lia. nia.
Qed.

Lemma be_val_be_bytes n x : be_val (be_bytes n x) = x mod 256 ^ Z.of_nat n.
Proof.
  induction n as [|n IH].
  - cbn. by rewrite Z.mod_1_r.
  - cbn [be_bytes]. rewrite be_val_cons. unfold zlen. rewrite length_be_bytes, IH.
    rewrite Nat2Z.inj_succ, Z.pow_succ_r, (Z.mul_comm 256) by lia.
    rewrite (Z.rem_mul_r x) by (try apply Z.pow_nonzero; lia). ring.
Qed.

Lemma be_val_be_bytes_id n x : 0 <= x < 256 ^ Z.of_nat n -> be_val (be_bytes n x) = x.
Proof. intros H. rewrite be_val_be_bytes. by apply Z.mod_small. Qed.

Lemma be_bytes_be_val l : bytes_ok l -> be_bytes (length l) (be_val l) = l.
Proof.
  induction 1 as [|b l Hb Hl IH]; [done|].
  pose proof (be_val_bound l Hl) as Hbound. unfold in_u8, zlen in *.
  change (2 ^ 8) with 256 in Hb.
  assert (Hp : 0 < 256 ^ Z.of_nat (length l)) by (apply Z.pow_pos_nonneg; lia).
  cbn [length be_bytes]. rewrite be_val_cons. unfold zlen. f_equal.
  - rewrite Z.add_comm, Z.div_add by lia. rewrite Z.div_small by lia.
    rewrite Z.add_0_l. by apply Z.mod_small.
  - assert (Hgen : forall m k, (m <= length l)%nat ->
      be_bytes m (k * 256 ^ Z.of_nat (length l) + be_val l) = be_bytes m (be_val l)).
    { intros m k. induction m as [|m IHm]; intros Hm; [done|]. cbn [be_bytes].
      rewrite IHm by lia. f_equal.
      replace (256 ^ Z.of_nat (length l))
        with (256 ^ Z.of_nat (length l - m) * 256 ^ Z.of_nat m)
        by (rewrite <- Z.pow_add_r by lia; f_equal; lia).
      rewrite Z.mul_assoc, Z.add_comm, Z.div_add by (apply Z.pow_nonzero; lia).
      replace (Z.of_nat (length l - m)) with (Z.succ (Z.of_nat (length l - m - 1))) by lia.
      rewrite Z.pow_succ_r, (Z.mul_comm 256), Z.mul_assoc by lia.
      apply Z.mod_add. lia. }
    rewrite Hgen by lia. exact IH.
Qed.

Lemma be_val_2 a b : be_val [a; b] = a * 256 + b.
Proof. unfold be_val; cbn. lia. Qed.

Lemma be_val_1 a : be_val [a] = a.
Proof. unfold be_val; cbn. lia. Qed.

Lemma be_val_u16 a b : in_u8 a -> in_u8 b -> in_u16 (be_val [a; b]).
Proof. rewrite be_val_2. unfold_words. lia. Qed.

Lemma be_val_u32 a b c d :
  in_u8 a -> in_u8 b -> in_u8 c -> in_u8 d -> in_u32 (be_val [a; b; c; d]).
Proof. unfold be_val, in_u8, in_u32; cbn. lia. Qed.

Lemma be_bytes_2_val x : in_u16 x -> be_val (be_bytes 2 x) = x.
Proof. intros. by apply be_val_be_bytes_id. Qed.

Lemma be_bytes_4_val x : in_u32 x -> be_val (be_bytes 4 x) = x.
Proof. intros. by apply be_val_be_bytes_id. Qed.

(** A two-byte field at the end of a known prefix. *)
Lemma idx16_be_bytes {E} (l : bytes) x (s : bytes) n :
  n = length l -> in_u16 x -> idx16 (E:=E) (l ++ be_bytes 2 x ++ s) n = Ok x.
Proof.
  intros -> Hx. unfold idx16.
  rewrite <- (Nat.add_0_r (length l)) at 1. rewrite !idx_app_r by done.
  change (Ok (be_val (be_bytes 2 x)) = Ok (E:=E) x). by rewrite be_bytes_2_val.
Qed.

Lemma idx32_be_bytes {E} (l : bytes) x (r : bytes) n :
  n = length l -> in_u32 x -> idx32 (E:=E) (l ++ be_bytes 4 x ++ r) n = Ok x.
Proof.
  intros -> Hx. unfold idx32.
  rewrite <- (Nat.add_0_r (length l)) at 1. rewrite !idx_app_r by done.
  change (Ok (be_val (be_bytes 4 x)) = Ok (E:=E) x). by rewrite be_bytes_4_val.
Qed.

Lemma idx16_be_bytes_0 {E} x (s : bytes) :
  in_u16 x -> idx16 (E:=E) (be_bytes 2 x ++ s) 0 = Ok x.
Proof. intros. by apply (idx16_be_bytes []). Qed.

(** ** UTF-8 *)

Lemma utf8_valid_ascii l : Forall (fun b => b < 128) l -> utf8_valid l = true.
Proof.
  induction 1 as [|b l Hb _ IH]; [done|]. cbn. by rewrite (proj2 (Z.ltb_lt _ _) Hb).
Qed.

Lemma utf8_valid_app l1 l2 : utf8_valid l1 = true -> utf8_valid l2 = true -> utf8_valid (l1 ++ l2) = true.
Proof.
  intros H1 H2. assert (H : forall n l, (length l <= n)%nat -> utf8_valid l = true -> utf8_valid (l ++ l2) = true).
  { clear l1 H1. induction n as [|n IH]; intros l Hn Hl.
    { destruct l; [done|cbn in Hn; lia]. }
    destruct l as [|b0 l1]; [done|]. cbn in Hn, Hl |- *. case_match; [apply IH; [lia|done]|].
    destruct l1 as [|b1 l3]; [done|]. cbn in Hn, Hl |- *.
    case_match; [bool_hyps; apply andb_true_iff; split; [done|apply IH; [lia|done]]|].
    destruct l3 as [|b2 l4]; [done|]. cbn in Hn, Hl |- *.
    case_match; [apply andb_true_iff in Hl as [Hl Hv]; apply andb_true_iff; split; [done|apply IH; [lia|done]]|].
    destruct l4 as [|b3 l5]; [done|]. cbn in Hn, Hl |- *.
    apply andb_true_iff in Hl as [Hl Hv]. apply andb_true_iff. split; [done|apply IH; [lia|done]]. }
  by apply (H (length l1)).
Qed.

(** ** Readers *)

Lemma read_exact_app {E} `{EofError E} (l s : bytes) n :
  n = length l -> read_exact n (l ++ s) = Ok (l, s).
Proof.
  intros ->. unfold read_exact. rewrite decide_True by (rewrite length_app; lia).
  by rewrite take_app_length, drop_app_length.
Qed.

Lemma read_u16_app {E} `{EofError E} x (s : bytes) :
  in_u16 x -> read_u16 (be_bytes 2 x ++ s) = Ok (x, s).
Proof.
  intros Hx. unfold read_u16, mbind, reader_bind.
  rewrite read_exact_app by done. cbn -[be_val be_bytes]. by rewrite be_bytes_2_val.
Qed.

Lemma reader_bind_ok {E A B} (m : reader E A) (f : A -> reader E B) s a s' :
  m s = Ok (a, s') -> (m ≫= f) s = f a s'.
Proof. unfold mbind, reader_bind. by intros ->. Qed.

Lemma reader_bind_err {E A B} (m : reader E A) (f : A -> reader E B) s e :
  m s = Err e -> (m ≫= f) s = Err e.
Proof. unfold mbind, reader_bind. by intros ->. Qed.

(** A reader that consumes a prefix: what it leaves is a suffix of its input. *)
Definition consumes {E A} (m : reader E A) : Prop :=
  forall s a s', m s = Ok (a, s') -> exists p, s = p ++ s'.

Lemma consumes_bind {E A B} (m : reader E A) (f : A -> reader E B) :
  consumes m -> (forall a, consumes (f a)) -> consumes (m ≫= f).
Proof.
  intros Hm Hf s b s'. unfold mbind, reader_bind.
  destruct (m s) as [[a s1]| |] eqn:E1; try done. intros E2.
  apply Hm in E1 as [p ->]. apply Hf in E2 as [q ->]. exists (p ++ q). by rewrite app_assoc.
Qed.

Lemma consumes_read_exact {E} `{EofError E} n : consumes (E:=E) (read_exact n).
Proof.
  intros s a s'. unfold read_exact. case_decide; [|done]. intros [= <- <-].
  exists (take n s). by rewrite take_drop.
Qed.

Lemma consumes_read_u8 {E} `{EofError E} : consumes (E:=E) read_u8.
Proof. intros [|b s] a s'; [done|]. intros [= <- <-]. by exists [b]. Qed.

Lemma consumes_lift {E A} (m : res E A) : consumes (lift m).
Proof. intros s a s'. unfold lift. destruct m; try done. intros [= <- <-]. by exists []. Qed.

Lemma consumes_ret {E A} (a : A) : consumes (E:=E) (mret a).
Proof. intros s b s' [= <- <-]. by exists []. Qed.

#[export] Hint Resolve consumes_bind consumes_read_exact consumes_read_u8 consumes_lift
  consumes_ret : blackwire.

#[export] Hint Rewrite @length_app length_be_bytes @length_take @length_drop
  @length_replicate : blackwire_len.

(** Reading from the middle of a buffer, as a stream and by index. *)
Lemma read_exact_drop {E} `{EofError E} (l : bytes) k n :
  (k + n <= length l)%nat ->
  read_exact n (drop k l) = Ok (take n (drop k l), drop (k + n) l).
Proof.
  intros Hl. unfold read_exact. rewrite decide_True by (rewrite length_drop; lia).
  by rewrite drop_drop.
Qed.

Lemma read_exact_short {E} `{EofError E} (l : bytes) n :
  (length l < n)%nat -> read_exact n l = Err eof.
Proof. intros Hl. unfold read_exact. by rewrite decide_False by lia. Qed.

Lemma take_2_drop (l : bytes) k a b :
  l !! k = Some a -> l !! (k + 1)%nat = Some b -> take 2 (drop k l) = [a; b].
Proof.
  intros Ha Hb. rewrite (drop_S l a k) by done.
  rewrite Nat.add_1_r in Hb. by rewrite (drop_S l b (S k)) by done.
Qed.

Lemma read_u16_drop {E} `{EofError E} {E'} (l : bytes) k :
  (k + 2 <= length l)%nat ->
  exists x, idx16 (E:=E') l k = Ok x /\ read_u16 (E:=E) (drop k l) = Ok (x, drop (k + 2) l).
Proof.
  intros Hl. unfold idx16, read_u16, mbind at 3, reader_bind.
  rewrite read_exact_drop by lia.
  destruct (idx_ok (E:=E') l k) as (a & -> & Ha); [lia|]. cbn.
  destruct (idx_ok (E:=E') l (k + 1)) as (b & -> & Hb); [lia|]. cbn.
  rewrite (take_2_drop _ _ _ _ Ha Hb). eauto.
Qed.

Lemma read_u16_short {E} `{EofError E} (l : bytes) :
  (length l < 2)%nat -> read_u16 (E:=E) l = Err eof.
Proof. intros Hl. unfold read_u16. by apply reader_bind_err, read_exact_short. Qed.

Lemma idx16_in_u16 {E} (l : bytes) i x :
  bytes_ok l -> idx16 (E:=E) l i = Ok x -> in_u16 x.
Proof.
  intros Hl Hx. unfold idx16 in Hx. inv_res.
  apply be_val_u16; eapply bytes_ok_lookup; eauto using idx_Ok_inv.
Qed.

Lemma consumes_read_u16 {E} `{EofError E} : consumes (E:=E) read_u16.
Proof. apply consumes_bind; eauto with blackwire. Qed.
#[export] Hint Resolve consumes_read_u16 : blackwire.

(** Definitions that proofs rewrite with, rather than unfold. *)
#[global] Arguments be_bytes : simpl never.
#[global] Arguments be_val : simpl never.
#[global] Arguments zlen : simpl never.
#[global] Arguments idx : simpl never.
#[global] Arguments idx16 : simpl never.
#[global] Arguments idx32 : simpl never.
#[global] Arguments slice : simpl never.
#[global] Arguments read_exact : simpl never.
#[global] Arguments read_u16 : simpl never.
#[global] Arguments read_u32 : simpl never.
#[global] Arguments Nat.ltb : simpl never.
#[global] Arguments Nat.leb : simpl never.

(** Wrapping additions collapse. *)
Lemma as_u64_add a n : as_u64 (as_u64 a + n) = as_u64 (a + n).
Proof. unfold as_u64. by rewrite Z.add_mod_idemp_l. Qed.
