(* ===== verification/Common.v ===== *)
(** * blackwire-common: errors, addresses and the SOCKS5 address codec

    Models [crates/blackwire-common/src/error.rs], [address.rs],
    [socks5_address.rs] and [domain_wire_len] of [relay.rs].  The address codec
    is shared by SOCKS5 UDP, Trojan and Shadowsocks-2022 (file [SocksFamily]). *)

From S2P Require Import Prelude.

(** ** Errors ([error.rs])

    Error messages are kept without the values that [format!] interpolates. *)

Inductive ErrorKind :=
| ConnectionReset | ConnectionAborted | BrokenPipe | UnexpectedEof
| InvalidInput | InvalidData | OtherKind.

Inductive ProxyError :=
| AuthFailed
| Protocol (msg : string)
| Transport (msg : string)
| Tls (msg : string)
| Timeout
| UnsupportedNetwork
| DnsResolutionFailed (domain : bytes)
| RoutingFailed
| FallbackRequired
| Io (kind : ErrorKind).

#[export] Instance ErrorKind_eq_dec : EqDecision ErrorKind.
Proof. solve_decision. Defined.
#[export] Instance ProxyError_eq_dec : EqDecision ProxyError.
Proof. solve_decision. Defined.

#[export] Instance ProxyError_eof : EofError ProxyError := Io UnexpectedEof.
#[export] Instance ErrorKind_eof : EofError ErrorKind := UnexpectedEof.

(** Runs the next read of a reader. *)
Lemma bind_read {A} (f : bytes -> reader ProxyError A) (l s : bytes) n :
  n = length l -> (read_exact n ≫= f) (l ++ s) = f l s.
Proof. intros Hn. apply reader_bind_ok, (read_exact_app l s n Hn). Qed.

Lemma bind_lift {A B} (f : A -> reader ProxyError B) a s : (lift (Ok a) ≫= f) s = f a s.
Proof. done. Qed.

Definition is_benign (e : ProxyError) : bool :=
  match e with
  | Timeout => true
  | FallbackRequired => true
  | Io k =>
      match k with
      | ConnectionReset | ConnectionAborted | BrokenPipe | UnexpectedEof => true
      | _ => false
      end
  | _ => false
  end.

(** ** Addresses ([address.rs])

    An [Ipv4Addr] or [Ipv6Addr] is its octets in network order. *)

Inductive IpAddr :=
| V4 (octets : bytes)
| V6 (octets : bytes).

Record SocketAddr := mkSocketAddr { sa_ip : IpAddr; sa_port : Z }.

Inductive Address :=
| Ipv4 (ip : bytes) (port : Z)
| Ipv6 (ip : bytes) (port : Z)
| Domain (name : bytes) (port : Z).

Inductive Network := Tcp | Udp.

#[export] Instance IpAddr_eq_dec : EqDecision IpAddr.
Proof. solve_decision. Defined.
#[export] Instance SocketAddr_eq_dec : EqDecision SocketAddr.
Proof. solve_decision. Defined.
#[export] Instance Address_eq_dec : EqDecision Address.
Proof. solve_decision. Defined.
#[export] Instance Network_eq_dec : EqDecision Network.
Proof. solve_decision. Defined.

#[export] Instance IpAddr_countable : Countable IpAddr.
Proof.
  refine (inj_countable' (fun a => match a with V4 o => inl o | V6 o => inr o end)
            (fun s => match s with inl o => V4 o | inr o => V6 o end) _).
  by intros [].
Defined.
#[export] Instance SocketAddr_countable : Countable SocketAddr.
Proof.
  refine (inj_countable' (fun a => (sa_ip a, sa_port a))
            (fun p => mkSocketAddr p.1 p.2) _).
  by intros [].
Defined.

Definition port (a : Address) : Z :=
  match a with
  | Ipv4 _ p => p
  | Ipv6 _ p => p
  | Domain _ p => p
  end.

Definition is_domain (a : Address) : bool :=
  match a with Domain _ _ => true | _ => false end.

Definition domain (a : Address) : option bytes :=
  match a with Domain d _ => Some d | _ => None end.

Definition ip (a : Address) : option IpAddr :=
  match a with
  | Ipv4 i _ => Some (V4 i)
  | Ipv6 i _ => Some (V6 i)
  | Domain _ _ => None
  end.

Definition to_socket_addr (a : Address) : option SocketAddr :=
  match a with
  | Ipv4 i p => Some (mkSocketAddr (V4 i) p)
  | Ipv6 i p => Some (mkSocketAddr (V6 i) p)
  | Domain _ _ => None
  end.

Definition is_ipv6 (a : SocketAddr) : bool := match sa_ip a with V6 _ => true | V4 _ => false end.

Definition from_socket_addr (s : SocketAddr) : Address :=
  match sa_ip s with
  | V4 i => Ipv4 i (sa_port s)
  | V6 i => Ipv6 i (sa_port s)
  end.

(** The Rust types' own invariants: octet counts, ports in [u16], and [String]s
    that are UTF-8. *)
Definition ip_ok (i : IpAddr) : Prop :=
  match i with
  | V4 o => bytes_ok o /\ length o = 4%nat
  | V6 o => bytes_ok o /\ length o = 16%nat
  end.

Definition string_ok (s : bytes) : Prop := bytes_ok s /\ utf8_valid s = true.

Definition address_ok (a : Address) : Prop :=
  in_u16 (port a) /\
  match a with
  | Ipv4 i _ => bytes_ok i /\ length i = 4%nat
  | Ipv6 i _ => bytes_ok i /\ length i = 16%nat
  | Domain d _ => string_ok d
  end.

Lemma from_to_socket_addr a s : to_socket_addr a = Some s -> from_socket_addr s = a.
Proof. destruct a; intros [= <-]; done. Qed.

(** ** SOCKS5 address codec ([socks5_address.rs]) *)

Definition ATYP_IPV4 : Z := 1.
Definition ATYP_DOMAIN : Z := 3.
Definition ATYP_IPV6 : Z := 4.

(** [relay.rs]: reject names that do not fit the one-byte length field. *)
Definition domain_wire_len (name : bytes) : res ProxyError Z :=
  if 255 <? zlen name then Err (Protocol "domain too long")
  else Ok (as_u8 (zlen name)).

Definition from_utf8 (name : bytes) (e : ProxyError) : res ProxyError bytes :=
  if utf8_valid name then Ok name else Err e.

Definition read_socks5_address (atyp : Z) (protocol : string) : reader ProxyError Address :=
  if atyp =? ATYP_IPV4 then
    buf ← read_exact 4;
    p ← read_u16;
    mret (Ipv4 buf p)
  else if atyp =? ATYP_IPV6 then
    buf ← read_exact 16;
    p ← read_u16;
    mret (Ipv6 buf p)
  else if atyp =? ATYP_DOMAIN then
    len ← read_u8;
    name ← read_exact (Z.to_nat len);
    p ← read_u16;
    d ← lift (from_utf8 name (Protocol (protocol +:+ ": domain name is not valid UTF-8")));
    mret (Domain d p)
  else lift (Err (Protocol (protocol +:+ ": unknown ATYP"))).

Definition decode_socks5_address (data : bytes) (atyp : Z) (protocol : string)
    : res ProxyError (Address * nat) :=
  if atyp =? ATYP_IPV4 then
    if (length data <? 6)%nat then Err (Protocol (protocol +:+ ": truncated IPv4 address"))
    else
      i ← slice data 0 4;
      p ← idx16 data 4;
      Ok (Ipv4 i p, 6%nat)
  else if atyp =? ATYP_IPV6 then
    if (length data <? 18)%nat then Err (Protocol (protocol +:+ ": truncated IPv6 address"))
    else
      i ← slice data 0 16;
      p ← idx16 data 16;
      Ok (Ipv6 i p, 18%nat)
  else if atyp =? ATYP_DOMAIN then
    if (length data =? 0)%nat then Err (Protocol (protocol +:+ ": truncated domain length"))
    else
      b ← idx data 0;
      let n := Z.to_nat b in
      if (length data <? 1 + n + 2)%nat
      then Err (Protocol (protocol +:+ ": truncated domain address"))
      else
        raw ← slice data 1 (1 + n);
        name ← from_utf8 raw (Protocol (protocol +:+ ": invalid domain UTF-8"));
        p ← idx16 data (1 + n);
        Ok (Domain name p, (1 + n + 2)%nat)
  else Err (Protocol (protocol +:+ ": unknown ATYP")).

(** [BufMut] appends: the bytes written are returned. *)
Definition write_socks5_address (dest : Address) : res ProxyError bytes :=
  match dest with
  | Ipv4 i p => Ok ([ATYP_IPV4] ++ i ++ be_bytes 2 p)
  | Ipv6 i p => Ok ([ATYP_IPV6] ++ i ++ be_bytes 2 p)
  | Domain name p =>
      n ← domain_wire_len name;
      Ok ([ATYP_DOMAIN] ++ [n] ++ name ++ be_bytes 2 p)
  end.

(** Names must fit their one-byte length field. *)
Definition name_fits (a : Address) : Prop :=
  match a with Domain d _ => (length d <= 255)%nat | _ => True end.

(** ** Lemmas *)

Lemma domain_wire_len_ok name :
  (length name <= 255)%nat -> domain_wire_len name = Ok (zlen name).
Proof.
  intros H. unfold domain_wire_len, zlen, as_u8.
  destruct (Z.ltb_spec 255 (Z.of_nat (length name))); [lia|].
  rewrite Z.mod_small by lia. done.
Qed.

Lemma domain_wire_len_err name :
  (255 < length name)%nat -> domain_wire_len name = Err (Protocol "domain too long").
Proof.
  intros H. unfold domain_wire_len, zlen.
  destruct (Z.ltb_spec 255 (Z.of_nat (length name))); [done|lia].
Qed.

(** The address writer succeeds exactly on names that fit. *)
Lemma write_socks5_address_total a :
  (name_fits a -> exists w, write_socks5_address a = Ok w) /\
  (~ name_fits a -> write_socks5_address a = Err (Protocol "domain too long")).
Proof.
  destruct a as [i p|i p|d p]; cbn [name_fits write_socks5_address]; split; try done; try eauto; intros Hf.
  - rewrite domain_wire_len_ok by done. mred. eauto.
  - rewrite domain_wire_len_err by lia. done.
Qed.

Lemma domain_wire_len_Ok_inv name n :
  domain_wire_len name = Ok n -> (length name <= 255)%nat /\ n = zlen name.
Proof.
  intros H. destruct (decide (length name <= 255)%nat) as [Hl|Hl].
  - rewrite domain_wire_len_ok in H by done. by injection H as <-.
  - rewrite domain_wire_len_err in H by lia. done.
Qed.

Lemma from_utf8_no_panic n e : no_panic (from_utf8 n e).
Proof. unfold from_utf8. by destruct (utf8_valid n). Qed.

Lemma from_utf8_Ok_inv n e m : from_utf8 n e = Ok m -> m = n /\ utf8_valid n = true.
Proof. unfold from_utf8. destruct (utf8_valid n); [|done]. by intros [= <-]. Qed.

#[export] Hint Resolve from_utf8_no_panic : blackwire.

Lemma decode_socks5_address_no_panic data atyp protocol :
  no_panic (decode_socks5_address data atyp protocol).
Proof.
  unfold decode_socks5_address.
  repeat (case_match; bool_hyps; eauto with blackwire).
  - apply no_panic_bind; [apply slice_no_panic; lia|]. intros i _.
    apply no_panic_bind; [apply idx16_no_panic; lia|]. done.
  - apply no_panic_bind; [apply slice_no_panic; lia|]. intros i _.
    apply no_panic_bind; [apply idx16_no_panic; lia|]. done.
  - apply no_panic_bind; [apply idx_no_panic; lia|]. intros b _. cbv zeta.
    case_match; [done|]. bool_hyps.
    apply no_panic_bind; [apply slice_no_panic; lia|]. intros raw _.
    apply no_panic_bind; [auto with blackwire|]. intros nm _.
    apply no_panic_bind; [apply idx16_no_panic; lia|]. done.
Qed.

(** What [decode_socks5_address] reads from a block written for [dest] followed
    by any bytes: shared by the SOCKS5, Trojan and Shadowsocks round trips. *)
Lemma decode_write_socks5_address dest w rest protocol :
  address_ok dest -> write_socks5_address dest = Ok w ->
  exists atyp body, w = atyp :: body /\
    decode_socks5_address (body ++ rest) atyp protocol = Ok (dest, length body).
Proof.
  intros [Hport Hok] Hw. destruct dest as [i p|i p|d p]; cbn in Hport, Hw.
  - injection Hw as <-. eexists _, _; split; [done|]. destruct Hok as [_ Hlen].
    unfold decode_socks5_address. cbn. rewrite <- app_assoc.
    destruct (Nat.ltb_spec (length (i ++ be_bytes 2 p ++ rest)) 6) as [Hc|_].
    { rewrite !length_app, length_be_bytes in Hc. lia. }
    rewrite slice_prefix by done. cbn.
    rewrite idx16_be_bytes by done. cbn.
    by rewrite length_app, length_be_bytes, Hlen.
  - injection Hw as <-. eexists _, _; split; [done|]. destruct Hok as [_ Hlen].
    unfold decode_socks5_address. cbn. rewrite <- app_assoc.
    destruct (Nat.ltb_spec (length (i ++ be_bytes 2 p ++ rest)) 18) as [Hc|_].
    { rewrite !length_app, length_be_bytes in Hc. lia. }
    rewrite slice_prefix by done. cbn.
    rewrite idx16_be_bytes by done. cbn.
    by rewrite length_app, length_be_bytes, Hlen.
  - destruct (domain_wire_len d) as [n| |] eqn:Hn; cbn in Hw; try done.
    injection Hw as <-. apply domain_wire_len_Ok_inv in Hn as [Hlen ->].
    eexists _, _; split; [done|]. destruct Hok as [_ Hutf].
    unfold decode_socks5_address. cbn. rewrite idx_cons_0. cbn.
    unfold zlen. rewrite Nat2Z.id, <- app_assoc.
    case_match eqn:Hc; bool_hyps.
    { rewrite !length_app, length_be_bytes in Hc. lia. }
    change (Z.of_nat (length d) :: d ++ be_bytes 2 p ++ rest)
      with ([Z.of_nat (length d)] ++ d ++ be_bytes 2 p ++ rest).
    rewrite (slice_app_r [_] _ 0 (length d) 1) by done.
    rewrite slice_prefix by done. cbn. unfold from_utf8. rewrite Hutf.
    cbn.
    pose proof (idx16_be_bytes (E:=ProxyError) (Z.of_nat (length d) :: d) p rest
      (S (length d)) eq_refl Hport) as Hi.
    cbn in Hi. rewrite Hi. cbn. by rewrite length_app, length_be_bytes.
Qed.

(** ** Properties *)

Lemma read_fixed_address (C : bytes -> Z -> Address) k data :
  (k + 2 <= length data)%nat ->
  exists x, idx16 (E:=ProxyError) data k = Ok x /\
    (buf ← read_exact k; p ← read_u16; mret (C buf p)) data =
    Ok (E:=ProxyError) (C (take k data) x, drop (k + 2) data).
Proof.
  intros Hl. destruct (read_u16_drop (E:=ProxyError) (E':=ProxyError) data k) as (x & Hx & Hr); [lia|].
  exists x; split; [done|].
  rewrite (reader_bind_ok _ _ _ (take k data) (drop k data)).
  2: { apply (read_exact_drop data 0 k). lia. }
  by rewrite (reader_bind_ok _ _ _ _ _ Hr).
Qed.

Lemma read_fixed_address_short (C : bytes -> Z -> Address) k data :
  (length data < k + 2)%nat ->
  (buf ← read_exact k; p ← read_u16; mret (C buf p)) data = Err (A:=Address * bytes) (Io UnexpectedEof).
Proof.
  intros Hl. destruct (decide (length data < k)%nat).
  - apply reader_bind_err. by apply read_exact_short.
  - rewrite (reader_bind_ok _ _ _ (take k data) (drop k data)).
    2: { apply (read_exact_drop data 0 k). lia. }
    apply reader_bind_err, read_u16_short. rewrite length_drop. lia.
Qed.

(** What the streaming decoder must do, given the slice decoder's answer. *)
Definition agrees (data : bytes) (r : res ProxyError (Address * nat))
    (s : res ProxyError (Address * bytes)) : Prop :=
  match r with
  | Ok (a, n) => s = Ok (a, drop n data) /\ (n <= length data)%nat /\ address_ok a
  | Err _ => exists e, s = Err e
  | Panic => False
  end.

Lemma agrees_fixed (C : bytes -> Z -> Address) k data msg :
  bytes_ok data ->
  (forall i x, bytes_ok i -> length i = k -> in_u16 x -> address_ok (C i x)) ->
  agrees data
    (if (length data <? k + 2)%nat then Err (Protocol msg)
     else i ← slice data 0 k; p ← idx16 data k; Ok (C i p, (k + 2)%nat))
    ((buf ← read_exact k; p ← read_u16; mret (C buf p)) data).
Proof.
  intros Hd HC. destruct (Nat.ltb_spec (length data) (k + 2)) as [Hl|Hl].
  - eexists. by apply read_fixed_address_short.
  - destruct (read_fixed_address C k data Hl) as (x & Hx & ->).
    rewrite slice_ok by lia. cbn. rewrite Hx. cbn. rewrite Nat.sub_0_r, drop_0.
    split; [done|]. split; [lia|]. apply HC; eauto using idx16_in_u16 with blackwire.
    rewrite length_take. lia.
Qed.

Lemma agrees_domain data protocol :
  bytes_ok data ->
  agrees data (decode_socks5_address data ATYP_DOMAIN protocol)
    (read_socks5_address ATYP_DOMAIN protocol data).
Proof.
  intros Hd. unfold decode_socks5_address, read_socks5_address. cbn.
  destruct data as [|b data]; [by eexists|]. cbn. rewrite idx_cons_0. cbn.
  rewrite (reader_bind_ok _ _ _ b data) by done. set (n := Z.to_nat b).
  case_match eqn:Hl; bool_hyps.
  - eexists (Io UnexpectedEof). destruct (decide (length data < n)%nat).
    + apply reader_bind_err. by apply read_exact_short.
    + rewrite (reader_bind_ok _ _ _ (take n data) (drop n data)).
      2: { apply (read_exact_drop data 0 n). lia. }
      apply reader_bind_err, read_u16_short. rewrite length_drop. lia.
  - rewrite slice_ok by (cbn; lia). cbn.
    rewrite (reader_bind_ok _ _ _ (take n data) (drop n data)).
    2: { apply (read_exact_drop data 0 n). lia. }
    destruct (read_u16_drop (E:=ProxyError) (E':=ProxyError) (b :: data) (S n)) as (x & Hx & Hr);
      [cbn; lia|].
    cbn in Hr. rewrite (reader_bind_ok _ _ _ _ _ Hr), Nat.sub_0_r, drop_0.
    unfold from_utf8, lift. destruct (utf8_valid (take n data)) eqn:Hu; cbn; [|by eexists].
    rewrite Hx. cbn. split; [done|]. split; [lia|].
    split; [exact (idx16_in_u16 _ _ _ Hd Hx)|]. inversion Hd; subst.
    split; auto with blackwire.
Qed.

Lemma decoders_agree (data : bytes) (atyp : Z) (protocol : string) :
  bytes_ok data ->
  agrees data (decode_socks5_address data atyp protocol)
    (read_socks5_address atyp protocol data).
Proof.
  intros Hd. destruct (decide (atyp = ATYP_DOMAIN)) as [->|Hne]; [by apply agrees_domain|].
  unfold decode_socks5_address, read_socks5_address.
  destruct (Z.eqb_spec atyp ATYP_IPV4); [|destruct (Z.eqb_spec atyp ATYP_IPV6);
    [|destruct (Z.eqb_spec atyp ATYP_DOMAIN); [done|by eexists]]].
  - apply (agrees_fixed Ipv4 4); [done|]. by intros i x Hi Hl Hx.
  - apply (agrees_fixed Ipv6 16); [done|]. by intros i x Hi Hl Hx.
Qed.

Lemma write_socks5_address_ok dest w :
  address_ok dest -> write_socks5_address dest = Ok w -> bytes_ok w.
Proof.
  intros [Hp Hok] Hw. destruct dest as [i p|i p|d p]; cbn in Hw.
  - injection Hw as <-. destruct Hok.
    apply bytes_ok_cons; [unfold ATYP_IPV4; unfold_words; lia|]. auto with blackwire.
  - injection Hw as <-. destruct Hok.
    apply bytes_ok_cons; [unfold ATYP_IPV6; unfold_words; lia|]. auto with blackwire.
  - inv_res. apply domain_wire_len_Ok_inv in E as [Hl ->]. destruct Hok.
    apply bytes_ok_cons; [unfold ATYP_DOMAIN; unfold_words; lia|].
    apply bytes_ok_cons; [unfold zlen; unfold_words; lia|]. auto with blackwire.
Qed.

(** The streaming decoder reads back what was written. *)
Lemma read_write_socks5_address dest w rest protocol :
  address_ok dest -> bytes_ok rest -> write_socks5_address dest = Ok w ->
  exists atyp body, w = atyp :: body /\
    read_socks5_address atyp protocol (body ++ rest) = Ok (dest, rest).
Proof.
  intros Hd Hr Hw.
  destruct (decode_write_socks5_address dest w rest protocol Hd Hw) as (atyp & body & -> & Hdec).
  exists atyp, body. split; [done|].
  assert (Hb : bytes_ok (body ++ rest)).
  { apply write_socks5_address_ok in Hw; [|done]. inversion Hw; subst. auto with blackwire. }
  pose proof (decoders_agree _ atyp protocol Hb) as Ha. rewrite Hdec in Ha.
  destruct Ha as (-> & _). by rewrite drop_app_length.
Qed.

(** C30. The two SOCKS5 address decoders are the same function.  On every byte
    string the slice decoder [decode_socks5_address] does not panic; when it
    returns an address, that address is well formed (octet count, UTF-8 name,
    16-bit port), it consumed no more than the input, and the streaming decoder
    [read_socks5_address] returns the same address and leaves exactly the bytes
    after those consumed; when it fails, the streaming decoder fails. *)
Theorem socks5_decoders_agree (data : bytes) (atyp : Z) (protocol : string) :
  bytes_ok data ->
  agrees data (decode_socks5_address data atyp protocol)
    (read_socks5_address atyp protocol data).
Proof. apply decoders_agree. Qed.

Lemma socks5_decoders_agree_witness :
  agrees ([3; 97; 98; 99; 1; 187; 42])
    (decode_socks5_address [3; 97; 98; 99; 1; 187; 42] ATYP_DOMAIN "SS-2022")
    (read_socks5_address ATYP_DOMAIN "SS-2022" [3; 97; 98; 99; 1; 187; 42])
  /\ read_socks5_address ATYP_DOMAIN "SS-2022" [3; 97; 98; 99; 1; 187; 42]
     = Ok (Domain [97; 98; 99] 443, [42]).
Proof.
  split; [|reflexivity]. apply socks5_decoders_agree. unfold bytes_ok, in_u8.
  repeat constructor; lia.
Defined.
