(* ===== verification/SocksFamily.v ===== *)
(** * Codecs built on the SOCKS5 address block

    Models [crates/blackwire-protocol/src/socks5_udp.rs] (datagram codec),
    [trojan/codec.rs] and [ss2022/variable_header.rs].  SHA-224 and hex encoding
    are code outside the repository: they are section parameters. *)

From S2P Require Import Prelude Common.

(** ** SOCKS5 UDP ASSOCIATE datagrams ([socks5_udp.rs]) *)

Module SocksUdp.

Definition SOCKS_UDP_HEADER : nat := 3.

Definition parse_udp_datagram (buf : bytes) : res ProxyError (Address * bytes) :=
  if (length buf <? SOCKS_UDP_HEADER)%nat
  then Err (Protocol "SOCKS5 UDP datagram too short")
  else
    b0 ← idx buf 0;
    b1 ← idx buf 1;
    if negb (b0 =? 0) || negb (b1 =? 0) then Err (Protocol "SOCKS5 UDP RSV must be zero") else
    b2 ← idx buf 2;
    if negb (b2 =? 0) then Err (Protocol "SOCKS5 UDP fragment not supported") else
    atyp ← idx buf 3;
    body ← slice buf 4 (length buf);
    '(dest, consumed) ← decode_socks5_address body atyp "SOCKS5 UDP";
    let off := (4 + consumed)%nat in
    if (length buf <? off)%nat then Err (Protocol "SOCKS5 UDP truncated payload") else
    payload ← slice buf off (length buf);
    Ok (dest, payload).

Definition encode_udp_datagram (dest : Address) (payload : bytes) : res ProxyError bytes :=
  w ← write_socks5_address dest;
  Ok ([0; 0; 0] ++ w ++ payload).

(** The caller's buffer after the call, and the result.  The only write that can
    fail is that of an over-long domain, after its ATYP byte. *)
Definition encode_udp_datagram_into (dest : Address) (payload buf : bytes)
    : bytes * res ProxyError unit :=
  match write_socks5_address dest with
  | Ok w => ([0; 0; 0] ++ w ++ payload, Ok tt)
  | Err e => ([0; 0; 0] ++ [ATYP_DOMAIN], Err e)
  | Panic => (buf, Panic)
  end.

End SocksUdp.

(** ** Trojan ([trojan/codec.rs]) *)

Module Trojan.

Definition TOKEN_LEN : nat := 56.
Definition CMD_CONNECT : Z := 1.
Definition CMD_UDP_ASSOCIATE : Z := 3.
Definition MAX_UDP_PAYLOAD_LEN : Z := 8192.

Definition CRLF : bytes := [13; 10].

Record TrojanRequest := mkRequest { token : bytes; command : Z; dest : Address }.

Section Token.
Context (sha224 : bytes -> bytes) (hex_encode : bytes -> bytes).

Definition compute_token (password : bytes) : bytes := hex_encode (sha224 password).
End Token.

Definition expect_crlf (ctx : string) : reader ProxyError unit :=
  crlf ← read_exact 2;
  lift (ensure (bool_decide (crlf = CRLF)) (Protocol ("Trojan: expected CRLF " +:+ ctx))).

Definition decode_request : reader ProxyError TrojanRequest :=
  tok ← read_exact TOKEN_LEN;
  _ ← expect_crlf "after token";
  cmd ← read_u8;
  if negb (cmd =? CMD_CONNECT) && negb (cmd =? CMD_UDP_ASSOCIATE)
  then lift (Err (Protocol "Trojan: unsupported command"))
  else
    atyp ← read_u8;
    a ← read_socks5_address atyp "Trojan";
    _ ← expect_crlf "after address";
    mret (mkRequest tok cmd a).

Definition parse_udp_datagram (buf : bytes) : res ProxyError (Address * bytes * nat) :=
  if (length buf <? 4)%nat then Err (Protocol "Trojan UDP datagram too short") else
  atyp ← idx buf 0;
  body ← slice buf 1 (length buf);
  '(a, consumed) ← decode_socks5_address body atyp "Trojan UDP";
  let pos := (1 + consumed)%nat in
  if (length buf <? pos + 4)%nat then Err (Protocol "Trojan UDP truncated length") else
  pl ← idx16 buf pos;
  let payload_len := Z.to_nat pl in
  if MAX_UDP_PAYLOAD_LEN <? pl
  then Err (Protocol "Trojan UDP payload length exceeds Xray max") else
  cr ← idx buf (pos + 2);
  lf ← idx buf (pos + 3);
  if negb (cr =? 13) || negb (lf =? 10)
  then Err (Protocol "Trojan UDP missing CRLF after length") else
  let data_off := (pos + 4)%nat in
  if (length buf <? data_off + payload_len)%nat
  then Err (Protocol "Trojan UDP truncated payload") else
  payload ← slice buf data_off (data_off + payload_len);
  Ok (a, payload, (data_off + payload_len)%nat).

Definition encode_udp_datagram (a : Address) (payload : bytes) : res ProxyError bytes :=
  if MAX_UDP_PAYLOAD_LEN <? zlen payload
  then Err (Protocol "Trojan UDP payload length exceeds Xray max")
  else
    w ← write_socks5_address a;
    Ok (w ++ be_bytes 2 (as_u16 (zlen payload)) ++ CRLF ++ payload).

Definition encode_udp_datagram_into (a : Address) (payload buf : bytes)
    : bytes * res ProxyError unit :=
  if MAX_UDP_PAYLOAD_LEN <? zlen payload
  then (buf, Err (Protocol "Trojan UDP payload length exceeds Xray max"))
  else
    match write_socks5_address a with
    | Ok w => (w ++ be_bytes 2 (as_u16 (zlen payload)) ++ CRLF ++ payload, Ok tt)
    | Err e => ([ATYP_DOMAIN], Err e)
    | Panic => (buf, Panic)
    end.

Definition encode_request (tok : bytes) (cmd : Z) (a : Address) : res ProxyError bytes :=
  w ← write_socks5_address a;
  Ok (tok ++ CRLF ++ [cmd] ++ w ++ CRLF).

End Trojan.

(** ** Shadowsocks-2022 request variable header ([ss2022/variable_header.rs]) *)

Module SsHeader.

Definition build_request_variable_header (dest : Address) (initial_payload : bytes)
    : res ProxyError bytes :=
  w ← write_socks5_address dest;
  Ok (w ++ be_bytes 2 0 ++ initial_payload).

Definition parse_variable_header (data : bytes) : res ProxyError (Address * bytes) :=
  if (length data =? 0)%nat then Err (Protocol "SS-2022: empty variable header") else
  atyp ← idx data 0;
  body ← slice data 1 (length data);
  '(dest, consumed) ← decode_socks5_address body atyp "SS-2022";
  let pos := (1 + consumed)%nat in
  if (length data <? pos + 2)%nat then Err (Protocol "SS-2022: truncated padding length") else
  pl ← idx16 data pos;
  let pad_len := Z.to_nat pl in
  let pos := (pos + 2)%nat in
  if (length data <? pos + pad_len)%nat then Err (Protocol "SS-2022: truncated padding") else
  let pos := (pos + pad_len)%nat in
  rest ← slice data pos (length data);
  Ok (dest, rest).

End SsHeader.

(** ** SOCKS5 UDP: properties *)

Section SocksUdpFacts.
Import SocksUdp.

Lemma parse_body_no_panic (buf : bytes) :
  (4 <= length buf)%nat -> no_panic (parse_udp_datagram buf).
Proof.
  intros Hl. unfold parse_udp_datagram, SOCKS_UDP_HEADER.
  case_match; [done|].
  repeat first [ apply no_panic_bind; [apply idx_no_panic; lia|]; intros ? _
               | case_match; [done|] ].
  apply no_panic_bind; [apply slice_no_panic; lia|]; intros body _.
  apply no_panic_bind; [apply decode_socks5_address_no_panic|]; intros [da n] _.
  cbv zeta. case_match eqn:Hoff; [done|]. bool_hyps.
  apply no_panic_bind; [apply slice_no_panic; lia|]. done.
Qed.

(** The SOCKS5 UDP parser panics on exactly one input: the three-byte
    datagram [00 00 00], whose length passes the [SOCKS_UDP_HEADER] check while
    the ATYP byte [buf[3]] is read unconditionally. *)
Theorem socks_udp_panics_iff (buf : bytes) :
  parse_udp_datagram buf = Panic <-> buf = [0; 0; 0].
Proof.
  split; [|by intros ->]. intros Hp.
  destruct (decide (4 <= length buf)%nat) as [Hl|Hl].
  { by apply parse_body_no_panic in Hl. }
  destruct buf as [|b0 [|b1 [|b2 [|b3 buf]]]]; try done; [|cbn in Hl; lia].
  unfold parse_udp_datagram in Hp. cbn in Hp.
  rewrite !idx_cons_S, !idx_cons_0 in Hp. cbn in Hp.
  change (3 <? SOCKS_UDP_HEADER)%nat with false in Hp.
  destruct (Z.eqb_spec b0 0), (Z.eqb_spec b1 0), (Z.eqb_spec b2 0); cbn in Hp; congruence.
Qed.

Lemma parse_encoded_datagram (dest : Address) (payload w : bytes) :
  address_ok dest -> encode_udp_datagram dest payload = Ok w ->
  parse_udp_datagram w = Ok (dest, payload).
Proof.
  intros Hd Hw. unfold encode_udp_datagram in Hw. inv_res.
  destruct (decode_write_socks5_address dest _ payload "SOCKS5 UDP" Hd E)
    as (atyp & body & -> & Hdec).
  unfold parse_udp_datagram, SOCKS_UDP_HEADER. cbn. rewrite !idx_cons_S, !idx_cons_0. cbn.
  case_match eqn:H3; bool_hyps; [lia|].
  change (0 :: 0 :: 0 :: atyp :: body ++ payload) with ([0; 0; 0; atyp] ++ body ++ payload).
  pose proof (slice_tail (E:=ProxyError) [0; 0; 0; atyp] (body ++ payload) 4 eq_refl) as Hs.
  cbn [app length] in Hs. cbn [app length]. rewrite Hs. cbn. rewrite Hdec. cbn.
  case_match eqn:Hl; bool_hyps; [rewrite length_app in Hl; lia|].
  pose proof (slice_tail (E:=ProxyError) (0 :: 0 :: 0 :: atyp :: body) payload
    (4 + length body) eq_refl) as Ht.
  cbn [app length] in Ht. cbn in Ht. rewrite Ht. done.
Qed.

(** Both encoders write the same datagram. *)
Lemma encode_udp_datagram_into_spec dest payload buf :
  match encode_udp_datagram dest payload with
  | Ok w => encode_udp_datagram_into dest payload buf = (w, Ok tt)
  | Err e => (encode_udp_datagram_into dest payload buf).2 = Err e
  | Panic => False
  end.
Proof.
  unfold encode_udp_datagram, encode_udp_datagram_into.
  destruct dest as [i p|i p|d p]; cbn; [done|done|].
  unfold domain_wire_len. by destruct (255 <? zlen d).
Qed.

(** SOCKS5 UDP round trip: for a well-formed destination whose name fits the
    one-byte length field, both encoders write the same datagram, which parses
    back to that destination and exactly the payload, whatever the payload is; a
    longer name is refused. *)
Theorem socks_udp_roundtrip (dest : Address) (payload buf : bytes) :
  address_ok dest ->
  (name_fits dest -> exists w, encode_udp_datagram dest payload = Ok w /\
     encode_udp_datagram_into dest payload buf = (w, Ok tt) /\
     parse_udp_datagram w = Ok (dest, payload)) /\
  (~ name_fits dest -> encode_udp_datagram dest payload = Err (Protocol "domain too long")).
Proof.
  intros Hd. destruct (write_socks5_address_total dest) as [Hok Herr].
  pose proof (encode_udp_datagram_into_spec dest payload buf) as Hinto.
  split; intros Hf.
  - destruct (Hok Hf) as [w Hw]. exists ([0; 0; 0] ++ w ++ payload).
    assert (He : encode_udp_datagram dest payload = Ok ([0; 0; 0] ++ w ++ payload)).
    { unfold encode_udp_datagram. by rewrite Hw. }
    rewrite He in Hinto. split; [done|]. split; [done|]. by apply parse_encoded_datagram.
  - unfold encode_udp_datagram. by rewrite (Herr Hf).
Qed.

Lemma socks_udp_roundtrip_witness :
  exists w, encode_udp_datagram (Domain [104; 105] 53) [7; 8] = Ok w /\
    parse_udp_datagram w = Ok (Domain [104; 105] 53, [7; 8]).
Proof.
  destruct (socks_udp_roundtrip (Domain [104; 105] 53) [7; 8] []) as [H _].
  - unfold address_ok, string_ok, bytes_ok, in_u8, in_u16; cbn. repeat first [split | constructor | lia].
  - destruct H as (w & Hw & _ & Hp); [cbn; lia|]. exists w. split; [exact Hw|exact Hp].
Defined.

End SocksUdpFacts.

(** ** Trojan: properties *)

Section TrojanFacts.
Import Trojan.

Lemma expect_crlf_ok ctx rest : expect_crlf ctx (CRLF ++ rest) = Ok (tt, rest).
Proof. unfold expect_crlf. by rewrite (reader_bind_ok _ _ _ CRLF rest). Qed.

Lemma trojan_decode_encoded (tok : bytes) (cmd : Z) (a : Address) (w payload : bytes) :
  length tok = TOKEN_LEN -> cmd = CMD_CONNECT \/ cmd = CMD_UDP_ASSOCIATE ->
  address_ok a -> bytes_ok payload -> encode_request tok cmd a = Ok w ->
  decode_request (w ++ payload) = Ok (mkRequest tok cmd a, payload).
Proof.
  intros Htok Hcmd Ha Hp Hw. unfold encode_request in Hw. inv_res.
  assert (Hcp : bytes_ok (CRLF ++ payload)).
  { apply bytes_ok_app_2; [|done]. unfold CRLF, bytes_ok, in_u8. repeat constructor; lia. }
  destruct (read_write_socks5_address a _ _ "Trojan" Ha Hcp E) as (atyp & body & -> & Hr).
  unfold decode_request.
  rewrite (reader_bind_ok _ _ _ tok (CRLF ++ [cmd] ++ (atyp :: body) ++ CRLF ++ payload)).
  2: { rewrite <- (read_exact_app tok _ TOKEN_LEN) by done. f_equal. by rewrite <- !app_assoc. }
  rewrite (reader_bind_ok _ _ _ _ _ (expect_crlf_ok _ _)).
  rewrite (reader_bind_ok _ _ _ cmd ((atyp :: body) ++ CRLF ++ payload)) by done.
  replace (negb (cmd =? CMD_CONNECT) && negb (cmd =? CMD_UDP_ASSOCIATE)) with false
    by (destruct Hcmd as [-> | ->]; done).
  rewrite (reader_bind_ok _ _ _ atyp (body ++ CRLF ++ payload)) by done.
  rewrite (reader_bind_ok _ _ _ _ _ Hr).
  by rewrite (reader_bind_ok _ _ _ _ _ (expect_crlf_ok _ _)).
Qed.

(** Trojan request round trip: for a 56-byte token, a supported command and a
    well-formed destination whose name fits the one-byte length field, the header
    is written and decodes to the same three fields, and the reader is left at the
    first payload byte; a longer name is refused. *)
Theorem trojan_request_roundtrip (tok : bytes) (cmd : Z) (a : Address) (payload : bytes) :
  length tok = TOKEN_LEN -> cmd = CMD_CONNECT \/ cmd = CMD_UDP_ASSOCIATE ->
  address_ok a -> bytes_ok payload ->
  (name_fits a -> exists w, encode_request tok cmd a = Ok w /\
     decode_request (w ++ payload) = Ok (mkRequest tok cmd a, payload)) /\
  (~ name_fits a -> encode_request tok cmd a = Err (Protocol "domain too long")).
Proof.
  intros Htok Hcmd Ha Hp. destruct (write_socks5_address_total a) as [Hok Herr]. split; intros Hf.
  - destruct (Hok Hf) as [w Hw]. exists (tok ++ CRLF ++ [cmd] ++ w ++ CRLF).
    assert (He : encode_request tok cmd a = Ok (tok ++ CRLF ++ [cmd] ++ w ++ CRLF)).
    { unfold encode_request. by rewrite Hw. }
    split; [done|]. by apply trojan_decode_encoded.
  - unfold encode_request. by rewrite (Herr Hf).
Qed.

Lemma trojan_request_roundtrip_witness :
  exists w, encode_request (replicate 56 97) 1 (Ipv4 [10; 0; 0; 1] 80) = Ok w /\
    decode_request (w ++ [9]) = Ok (mkRequest (replicate 56 97) 1 (Ipv4 [10; 0; 0; 1] 80), [9]).
Proof.
  apply (trojan_request_roundtrip (replicate 56 97) 1 (Ipv4 [10; 0; 0; 1] 80) [9]);
    [reflexivity|by left| | |exact I].
  - unfold address_ok, bytes_ok, in_u8, in_u16; cbn. repeat first [split | constructor | lia].
  - unfold bytes_ok, in_u8. repeat constructor; lia.
Defined.

(** Tokens: the password hash in hex is a token whenever SHA-224 yields 28 bytes
    and hex encoding doubles the length. *)
Lemma compute_token_length (sha224 hex_encode : bytes -> bytes)
  (sha224_len : forall m, length (sha224 m) = 28%nat)
  (hex_len : forall m, length (hex_encode m) = (2 * length m)%nat) password :
  length (compute_token sha224 hex_encode password) = TOKEN_LEN.
Proof. unfold compute_token. by rewrite hex_len, sha224_len. Qed.

Lemma parse_encoded_frame (a : Address) (payload rest w : bytes) :
  address_ok a -> encode_udp_datagram a payload = Ok w ->
  parse_udp_datagram (w ++ rest) = Ok (a, payload, length w)
  /\ drop (length w) (w ++ rest) = rest /\ zlen payload <= MAX_UDP_PAYLOAD_LEN.
Proof.
  intros Ha Hw. unfold encode_udp_datagram in Hw.
  destruct (Z.ltb_spec MAX_UDP_PAYLOAD_LEN (zlen payload)) as [|Hmax]; [done|]. inv_res.
  rewrite drop_app_length. split; [|done].
  assert (H16 : in_u16 (zlen payload)) by (unfold MAX_UDP_PAYLOAD_LEN, zlen in *; unfold_words; lia).
  unfold as_u16. rewrite (Z.mod_small (zlen payload)) by exact H16. rewrite <- !app_assoc.
  set (tail := be_bytes 2 (zlen payload) ++ CRLF ++ payload ++ rest).
  destruct (decode_write_socks5_address a _ tail "Trojan UDP" Ha E) as (atyp & body & -> & Hdec).
  assert (Hlt : length tail = (4 + length payload + length rest)%nat).
  { unfold tail. rewrite !length_app, length_be_bytes. cbn. lia. }
  assert (Hdrop : drop (1 + length body) (atyp :: body ++ tail) = tail).
  { cbn. apply drop_app_length. }
  pose proof (slice_tail (E:=ProxyError) [atyp] (body ++ tail) 1 eq_refl) as Hs.
  unfold parse_udp_datagram. cbn [app] in *. skip_guard.
  rewrite idx_cons_0. mred. rewrite Hs. mred. rewrite Hdec. mred. cbv zeta. skip_guard.
  assert (H0 : idx16 (E:=ProxyError) tail 0 = Ok (zlen payload)) by by apply idx16_be_bytes_0.
  assert (H2 : idx (E:=ProxyError) tail 2 = Ok 13).
  { apply (idx_app_mid (be_bytes 2 (zlen payload)) 13 (10 :: payload ++ rest) 2). done. }
  assert (H3 : idx (E:=ProxyError) tail 3 = Ok 10).
  { apply (idx_app_r (be_bytes 2 (zlen payload)) (CRLF ++ payload ++ rest) 1 2). done. }
  assert (H4 : slice (E:=ProxyError) tail 4 (4 + length payload) = Ok payload).
  { unfold tail. rewrite app_assoc. apply slice_mid; [|done].
    by rewrite length_app, length_be_bytes. }
  rewrite <- Hdrop, <- idx16_drop, Nat.add_0_r in H0. rewrite H0. mred.
  skip_guard. rewrite !idx_drop, Hdrop, H2. mred. rewrite H3. mred.
  change (negb (13 =? 13) || negb (10 =? 10)) with false. cbv iota.
  unfold zlen at 1 2 3 4. rewrite !Nat2Z.id. skip_guard.
  rewrite <- Hdrop, <- slice_drop in H4.
  2: { cbn [length]. rewrite length_app. lia. }
  rewrite <- !Nat.add_assoc in *. rewrite H4. mred.
  do 2 f_equal. cbn [length app]. rewrite !length_app, length_be_bytes. cbn [length CRLF]. lia.
Qed.

(** Trojan UDP framing round trip: a payload of at most 8192 bytes for a
    well-formed destination whose name fits the one-byte length field is encoded,
    and the frame parses back to that destination and payload and reports exactly
    its own length, whatever follows it on the stream; longer payloads and longer
    names are refused. *)
Theorem trojan_udp_roundtrip (a : Address) (payload rest : bytes) :
  address_ok a ->
  (zlen payload <= MAX_UDP_PAYLOAD_LEN -> name_fits a ->
     exists w, encode_udp_datagram a payload = Ok w /\
       parse_udp_datagram (w ++ rest) = Ok (a, payload, length w)) /\
  (MAX_UDP_PAYLOAD_LEN < zlen payload \/ ~ name_fits a -> exists e, encode_udp_datagram a payload = Err e).
Proof.
  intros Ha. destruct (write_socks5_address_total a) as [Hok Herr]. split.
  - intros Hl Hf. destruct (Hok Hf) as [w Hw].
    destruct (encode_udp_datagram a payload) as [x| |] eqn:E.
    2,3: unfold encode_udp_datagram in E; rewrite (proj2 (Z.ltb_ge _ _)), Hw in E by done; done.
    exists x. split; [done|]. by apply (parse_encoded_frame a payload rest).
  - unfold encode_udp_datagram. case_match eqn:E; bool_hyps; [eauto|].
    intros [H|H]; [lia|]. rewrite (Herr H). eauto.
Qed.

Lemma trojan_udp_roundtrip_witness :
  exists w, encode_udp_datagram (Ipv4 [8; 8; 8; 8] 53) [5; 6] = Ok w /\
    parse_udp_datagram (w ++ [1; 2]) = Ok (Ipv4 [8; 8; 8; 8] 53, [5; 6], length w).
Proof.
  apply (trojan_udp_roundtrip (Ipv4 [8; 8; 8; 8] 53) [5; 6] [1; 2]); [|vm_compute; discriminate|exact I].
  unfold address_ok, bytes_ok, in_u8, in_u16; cbn. repeat first [split | constructor | lia].
Defined.

End TrojanFacts.

(** ** Shadowsocks-2022 variable header: properties *)

Section SsHeaderFacts.
Import SsHeader.

Lemma parse_variable_header_no_panic data : no_panic (parse_variable_header data).
Proof.
  unfold parse_variable_header. case_match; [done|]. bool_hyps.
  apply no_panic_bind; [apply idx_no_panic; lia|]; intros atyp _.
  apply no_panic_bind; [apply slice_no_panic; lia|]; intros body _.
  apply no_panic_bind; [apply decode_socks5_address_no_panic|]; intros [a n] _. cbv zeta.
  case_match; [done|]. bool_hyps.
  apply no_panic_bind; [apply idx16_no_panic; lia|]; intros pl _.
  case_match; [done|]. bool_hyps.
  apply no_panic_bind; [apply slice_no_panic; lia|]. done.
Qed.

Lemma parse_built_header (dest : Address) (payload w : bytes) :
  address_ok dest -> build_request_variable_header dest payload = Ok w ->
  parse_variable_header w = Ok (dest, payload).
Proof.
  intros Hd Hw.
  unfold build_request_variable_header in Hw. inv_res. set (tail := be_bytes 2 0 ++ payload).
  destruct (decode_write_socks5_address dest _ tail "SS-2022" Hd E) as (atyp & body & -> & Hdec).
  assert (Hlt : length tail = (2 + length payload)%nat).
  { unfold tail. by rewrite length_app, length_be_bytes. }
  assert (Hdrop : drop (1 + length body) (atyp :: body ++ tail) = tail).
  { cbn. apply drop_app_length. }
  pose proof (slice_tail (E:=ProxyError) [atyp] (body ++ tail) 1 eq_refl) as Hs.
  assert (H0 : idx16 (E:=ProxyError) tail 0 = Ok 0) by by apply idx16_be_bytes_0.
  rewrite <- Hdrop, <- idx16_drop, Nat.add_0_r in H0.
  unfold parse_variable_header. cbn [app] in *. skip_guard.
  rewrite idx_cons_0. mred. rewrite Hs. mred. rewrite Hdec. mred. cbv zeta. skip_guard.
  rewrite H0. mred. change (Z.to_nat 0) with 0%nat. rewrite Nat.add_0_r. skip_guard.
  pose proof (slice_tail (E:=ProxyError) (atyp :: body ++ be_bytes 2 0) payload
    (1 + length body + 2)) as Ht.
  rewrite <- app_comm_cons, <- app_assoc in Ht. fold tail in Ht. rewrite Ht; [done|].
  cbn. by rewrite length_app, length_be_bytes.
Qed.

(** Shadowsocks-2022 variable header: the parser never panics, whatever bytes
    were decrypted; and for a well-formed destination whose name fits the one-byte
    length field the header is built and parses back to that destination and to
    exactly the initial payload. *)
Theorem ss_header_safe_roundtrip (data : bytes) (dest : Address) (payload : bytes) :
  address_ok dest -> name_fits dest ->
  no_panic (parse_variable_header data) /\
  exists w, build_request_variable_header dest payload = Ok w /\ parse_variable_header w = Ok (dest, payload).
Proof.
  intros Hd Hf. split; [apply parse_variable_header_no_panic|].
  destruct (proj1 (write_socks5_address_total dest) Hf) as [w Hw]. exists (w ++ be_bytes 2 0 ++ payload).
  assert (He : build_request_variable_header dest payload = Ok (w ++ be_bytes 2 0 ++ payload)).
  { unfold build_request_variable_header. by rewrite Hw. }
  split; [done|]. by apply parse_built_header.
Qed.

Lemma ss_header_safe_roundtrip_witness :
  no_panic (parse_variable_header [3; 200]) /\
  exists w, build_request_variable_header (Ipv4 [1; 1; 1; 1] 53) [9; 9] = Ok w /\
    parse_variable_header w = Ok (Ipv4 [1; 1; 1; 1] 53, [9; 9]).
Proof.
  apply (ss_header_safe_roundtrip [3; 200] (Ipv4 [1; 1; 1; 1] 53) [9; 9]); [|exact I].
  unfold address_ok, bytes_ok, in_u8, in_u16; cbn. repeat first [split | constructor | lia].
Defined.

End SsHeaderFacts.
