(* ===== verification/Vless.v ===== *)
(** * VLESS: request header, UDP addresses and the user registry

    Models [crates/blackwire-protocol/src/vless/codec.rs], the packet codec of
    [vless/udp.rs] and [vless/registry.rs].

    Arithmetic on [usize] wraps at 64 bits, as in the release profile of
    [Cargo.toml] (no [overflow-checks]).  The addons loop of
    [parse_flow_from_addons] is iterated with fuel; [None] is "fuel exhausted". *)

From S2P Require Import Prelude Common.

Module Vless.

Definition CMD_TCP : Z := 1.
Definition CMD_UDP : Z := 2.
Definition CMD_MUX : Z := 3.
Definition MUX_COOL_DOMAIN : bytes := str "v1.mux.cool".
Definition ATYP_IPV4 : Z := 1.
Definition ATYP_DOMAIN : Z := 2.
Definition ATYP_IPV6 : Z := 3.
Definition VLESS_VERSION : Z := 0.

Inductive Command := CTcp | CUdp | CMux.

#[export] Instance Command_eq_dec : EqDecision Command.
Proof. solve_decision. Defined.

Record VlessRequest := mkRequest {
  uuid : bytes;
  command : Command;
  dest : Address;
  flow : bytes
}.

(** ** Varints of the addons message *)

(** [rest] is [data[*cursor..]]; the result is the value and the new cursor. *)
Fixpoint read_varint (rest : bytes) (cursor result shift : Z) : option Z * Z :=
  match rest with
  | [] => (None, cursor)
  | byte :: rest' =>
      let cursor := cursor + 1 in
      let result := Z.lor result (as_u64 (Z.shiftl (Z.land byte 127) shift)) in
      if Z.land byte 128 =? 0 then (Some result, cursor)
      else
        let shift := shift + 7 in
        if 64 <=? shift then (None, cursor)
        else read_varint rest' cursor result shift
  end.

Definition read_varint_at (data : bytes) (cursor : Z) : option Z * Z :=
  read_varint (drop (Z.to_nat cursor) data) cursor 0 0.

(** [while value >= 0x80]: a [u64] has at most ten 7-bit groups. *)
Fixpoint put_varint_fuel (fuel : nat) (value : Z) : bytes :=
  match fuel with
  | O => []
  | S f =>
      if 128 <=? value
      then Z.lor (as_u8 value) 128 :: put_varint_fuel f (Z.shiftr value 7)
      else [as_u8 value]
  end.

Definition put_varint (value : Z) : bytes := put_varint_fuel 10 value.

(** ** The addons loop *)

Inductive FlowStep :=
| Break
| Return (s : bytes)
| Continue (cursor : Z)
| StepPanic.

(** One iteration of the [while cursor < data.len()] loop. *)
Definition flow_iter (data : bytes) (cursor : Z) : FlowStep :=
  match read_varint_at data cursor with
  | (None, _) => Break
  | (Some tag, cursor) =>
      let field_number := as_u32 (Z.shiftr tag 3) in
      let wire_type := Z.land tag 7 in
      if wire_type =? 2 then
        match read_varint_at data cursor with
        | (None, _) => Break
        | (Some len, cursor) =>
            let stop := as_u64 (cursor + len) in
            if zlen data <? stop then Break
            else if field_number =? 1 then
              match slice (E:=ProxyError) data (Z.to_nat cursor) (Z.to_nat stop) with
              | Ok raw => if utf8_valid raw then Return raw else Continue stop
              | _ => StepPanic
              end
            else Continue stop
        end
      else if wire_type =? 0 then
        match read_varint_at data cursor with
        | (None, _) => Break
        | (Some _, cursor) => Continue cursor
        end
      else if wire_type =? 1 then Continue (Z.min (cursor + 8) (2 ^ 64 - 1))
      else if wire_type =? 5 then Continue (Z.min (cursor + 4) (2 ^ 64 - 1))
      else Break
  end.

Fixpoint flow_loop (fuel : nat) (data : bytes) (cursor : Z) : option (res ProxyError bytes) :=
  match fuel with
  | O => None
  | S f =>
      if cursor <? zlen data then
        match flow_iter data cursor with
        | Break => Some (Ok [])
        | Return s => Some (Ok s)
        | Continue c => flow_loop f data c
        | StepPanic => Some Panic
        end
      else Some (Ok [])
  end.

Definition parse_flow_from_addons (fuel : nat) (data : bytes) : option (res ProxyError bytes) :=
  flow_loop fuel data 0.

(** ** Request header *)

Definition read_address (atyp p : Z) : reader ProxyError Address :=
  if atyp =? ATYP_IPV4 then
    buf ← read_exact 4; mret (Ipv4 buf p)
  else if atyp =? ATYP_IPV6 then
    buf ← read_exact 16; mret (Ipv6 buf p)
  else if atyp =? ATYP_DOMAIN then
    len ← read_u8;
    name ← read_exact (Z.to_nat len);
    d ← lift (from_utf8 name (Protocol "domain name is not valid UTF-8"));
    mret (Domain d p)
  else lift (Err (Protocol "unknown VLESS ATYP")).

(** Version, UUID and raw addons. *)
Definition read_preamble : reader ProxyError (bytes * bytes) :=
  ver ← read_u8;
  if negb (ver =? VLESS_VERSION) then lift (Err (Protocol "VLESS version not supported")) else
  u ← read_exact 16;
  addons_len ← read_u8;
  addons ← read_exact (Z.to_nat addons_len);
  mret (u, addons).

(** Command and destination. *)
Definition read_target (u fl : bytes) : reader ProxyError VlessRequest :=
  cmd_byte ← read_u8;
  cmd ← lift (if cmd_byte =? CMD_TCP then Ok CTcp
              else if cmd_byte =? CMD_UDP then Ok CUdp
              else if cmd_byte =? CMD_MUX then Ok CMux
              else Err (Protocol "unknown VLESS CMD"));
  if decide (cmd = CMux) then mret (mkRequest u cmd (Domain MUX_COOL_DOMAIN 0) fl)
  else
    p ← read_u16;
    atyp ← read_u8;
    a ← read_address atyp p;
    mret (mkRequest u cmd a fl).

Definition decode_request (fuel : nat) (s : bytes)
    : option (res ProxyError (VlessRequest * bytes)) :=
  match read_preamble s with
  | Ok ((u, addons), s1) =>
      match (if (0 <? length addons)%nat then parse_flow_from_addons fuel addons
             else Some (Ok [])) with
      | Some (Ok fl) => Some (read_target u fl s1)
      | Some (Err e) => Some (Err e)
      | Some Panic => Some Panic
      | None => None
      end
  | Err e => Some (Err e)
  | Panic => Some Panic
  end.

(** ATYP and host, written by both encoders after the port. *)
Definition encode_host (a : Address) : res ProxyError bytes :=
  match a with
  | Ipv4 i _ => Ok ([ATYP_IPV4] ++ i)
  | Ipv6 i _ => Ok ([ATYP_IPV6] ++ i)
  | Domain name _ => n ← domain_wire_len name; Ok ([ATYP_DOMAIN] ++ [n] ++ name)
  end.

Definition encode_addons (fl : bytes) : res ProxyError bytes :=
  if (length fl =? 0)%nat then Ok [0]
  else
    let addons := [10] ++ put_varint (zlen fl) ++ fl in
    if (255 <? length addons)%nat then Err (Protocol "VLESS addons too long")
    else Ok ([as_u8 (zlen addons)] ++ addons).

Definition command_byte (c : Command) : Z :=
  match c with CTcp => CMD_TCP | CUdp => CMD_UDP | CMux => CMD_MUX end.

Definition encode_request (u fl : bytes) (cmd : Command) (a : Address) : res ProxyError bytes :=
  addons ← encode_addons fl;
  target ← (if decide (cmd = CMux) then Ok []
            else host ← encode_host a; Ok (be_bytes 2 (port a) ++ host));
  Ok ([VLESS_VERSION] ++ u ++ addons ++ [command_byte cmd] ++ target).

Definition encode_response : bytes := [VLESS_VERSION; 0].

(** ** Port-then-address blocks (UDP packets, Mux.Cool) *)

Definition encode_address_port (a : Address) : res ProxyError bytes :=
  host ← encode_host a; Ok (be_bytes 2 (port a) ++ host).

Definition address_port_wire_len (data : bytes) : res ProxyError nat :=
  if (length data <? 4)%nat then Err (Protocol "VLESS UDP address too short") else
  atyp ← idx data 2;
  addr_len ←
    (if atyp =? ATYP_IPV4 then Ok 4%nat
     else if atyp =? ATYP_IPV6 then Ok 16%nat
     else if atyp =? ATYP_DOMAIN then
       b ← idx data 3;
       let name_len := Z.to_nat b in
       if (length data <? 4 + name_len)%nat then Err (Protocol "VLESS UDP address truncated") else
       raw ← slice data 4 (4 + name_len);
       name ← from_utf8 raw (Protocol "domain name is not valid UTF-8");
       _ ← domain_wire_len name;
       Ok (1 + name_len)%nat
     else Err (Protocol "VLESS UDP: unsupported address type"));
  Ok (2 + 1 + addr_len)%nat.

(** [std::io::Read::read_exact] on a cursor, with the mapped error. *)
Definition cursor_read (n : nat) : reader ProxyError bytes :=
  @read_exact ProxyError (Protocol "failed to fill whole buffer") n.

Definition decode_address_sync (atyp p : Z) : reader ProxyError Address :=
  if atyp =? ATYP_IPV4 then
    buf ← cursor_read 4; mret (Ipv4 buf p)
  else if atyp =? ATYP_IPV6 then
    buf ← cursor_read 16; mret (Ipv6 buf p)
  else if atyp =? ATYP_DOMAIN then
    len ← cursor_read 1;
    l ← lift (idx len 0);
    name ← cursor_read (Z.to_nat l);
    d ← lift (from_utf8 name (Protocol "domain name is not valid UTF-8"));
    mret (Domain d p)
  else lift (Err (Protocol "unknown VLESS ATYP")).

Definition decode_address_port_with_len (data : bytes) : res ProxyError (Address * nat) :=
  if (length data <? 4)%nat then Err (Protocol "VLESS UDP address too short") else
  p ← idx16 data 0;
  atyp ← idx data 2;
  consumed ← address_port_wire_len data;
  if (length data <? consumed)%nat then Err (Protocol "VLESS UDP address truncated") else
  cursor ← slice data 3 (length data);
  '(a, _) ← decode_address_sync atyp p cursor;
  Ok (a, consumed).

Definition decode_address_port (data : bytes) : res ProxyError Address :=
  '(a, _) ← decode_address_port_with_len data; Ok a.

(** [vless/udp.rs]: address header of one packet, and the frame written back. *)
Definition read_udp_header : reader ProxyError Address :=
  n ← read_u16;
  let addr_len := Z.to_nat n in
  if (addr_len =? 0)%nat || (512 <? addr_len)%nat
  then lift (Err (Protocol "invalid VLESS UDP address length"))
  else
    addr_buf ← read_exact addr_len;
    lift (decode_address_port addr_buf).

Definition write_udp_packet (a : Address) (payload : bytes) : res ProxyError bytes :=
  addr_bytes ← encode_address_port a;
  if 65535 <? zlen addr_bytes then Err (Protocol "VLESS UDP address too long")
  else Ok (be_bytes 2 (as_u16 (zlen addr_bytes)) ++ addr_bytes ++ payload).

End Vless.

Import Vless.

(** ** Varint lemmas *)

Lemma read_put_varint fuel v rest c r sh :
  (0 < fuel)%nat -> 0 <= v < 2 ^ (7 * Z.of_nat fuel) -> 0 <= sh -> v * 2 ^ sh < 2 ^ 64 -> 0 <= r < 2 ^ sh ->
  read_varint (put_varint_fuel fuel v ++ rest) c r sh =
    (Some (r + v * 2 ^ sh), c + zlen (put_varint_fuel fuel v)).
Proof.
  revert v c r sh. induction fuel as [|f IH]; intros v c r sh Hf Hv Hsh Hmax Hr; [lia|].
  assert (Hp : 0 < 2 ^ sh) by (apply Z.pow_pos_nonneg; lia).
  cbn [put_varint_fuel]. destruct (Z.leb_spec 128 v) as [Hbig|Hsmall].
  - assert (Hb : in_u8 (Z.lor (as_u8 v) 128)).
    { rewrite byte_set_high by (unfold_words; apply Z.mod_pos_bound; lia).
      pose proof (Z.mod_pos_bound (as_u8 v) 128 ltac:(lia)). unfold in_u8. lia. }
    cbn [app read_varint]. rewrite byte_high_clear, byte_low7 by done.
    rewrite byte_set_high by (unfold_words; apply Z.mod_pos_bound; lia).
    destruct (Z.ltb_spec (as_u8 v mod 128 + 128) 128) as [Hc|_].
    { pose proof (Z.mod_pos_bound (as_u8 v) 128). lia. }
    assert (Hsh7 : sh + 7 < 64).
    { assert (2 ^ (sh + 7) < 2 ^ 64) by (rewrite Z.pow_add_r by lia; lia).
      by apply Z.pow_lt_mono_r_iff in H. }
    destruct (Z.leb_spec 64 (sh + 7)); [lia|].
    replace ((as_u8 v mod 128 + 128) mod 128) with (v mod 128).
    2: { unfold as_u8. rewrite <- (Z.mul_1_l 128) at 3. rewrite Z.mod_add by lia.
         change (2 ^ 8) with (128 * 2). rewrite Z.rem_mul_r by lia.
         rewrite Z.mul_comm, !Z.mod_add, !Z.mod_mod by lia. done. }
    pose proof (Z.mod_pos_bound v 128 ltac:(lia)) as Hm.
    pose proof (Z.div_mod v 128 ltac:(lia)) as Hdm.
    rewrite Z.shiftl_mul_pow2 by done. unfold as_u64. rewrite Z.mod_small by nia.
    rewrite lor_shiftl_add by done.
    rewrite Z.shiftr_div_pow2 by lia. change (2 ^ 7) with 128.
    rewrite IH.
    2: { destruct f; [|lia]. change (7 * Z.of_nat 1) with 7 in Hv. lia. }
    + f_equal; [f_equal|unfold zlen; cbn [length]; lia].
      rewrite Z.pow_add_r by lia. change (2 ^ 7) with 128. nia.
    + split; [apply Z.div_pos; lia|]. apply Z.div_lt_upper_bound; [lia|].
      replace (7 * Z.of_nat (S f)) with (7 + 7 * Z.of_nat f) in Hv by lia.
      rewrite Z.pow_add_r in Hv by lia. change (2 ^ 7) with 128 in Hv. lia.
    + lia.
    + rewrite Z.pow_add_r by lia. change (2 ^ 7) with 128. nia.
    + rewrite Z.pow_add_r by lia. change (2 ^ 7) with 128. nia.
  - assert (Hb : as_u8 v = v) by (unfold as_u8; apply Z.mod_small; lia). rewrite Hb.
    assert (Hu : in_u8 v) by (unfold_words; lia).
    cbn [app read_varint]. rewrite byte_high_clear, byte_low7 by done.
    destruct (Z.ltb_spec v 128); [|lia].
    rewrite Z.shiftl_mul_pow2, (Z.mod_small v 128) by lia.
    unfold as_u64. rewrite Z.mod_small by lia. rewrite lor_shiftl_add by done.
    by unfold zlen.
Qed.

Lemma read_varint_put data pre v rest c :
  in_u64 v -> c = zlen pre -> data = pre ++ put_varint v ++ rest ->
  read_varint_at data c = (Some v, c + zlen (put_varint v)).
Proof.
  intros Hv -> ->. unfold read_varint_at, zlen at 1. rewrite Nat2Z.id, drop_app_length.
  unfold put_varint. rewrite read_put_varint; unfold_words; try lia.
  by rewrite Z.mul_1_r.
Qed.

Lemma put_varint_length v : in_u64 v -> (1 <= length (put_varint v) <= 10)%nat.
Proof.
  intros _. unfold put_varint.
  assert (H : forall f w, (0 < f)%nat -> (1 <= length (put_varint_fuel f w) <= f)%nat).
  { induction f as [|f IH]; intros w Hf; [lia|]. cbn [put_varint_fuel].
    case_match; cbn [length]; [|lia]. destruct f; [cbn; lia|].
    specialize (IH (Z.shiftr w 7)). lia. }
  apply H. lia.
Qed.

(** Protobuf varints of the VLESS addons: reading the varint written for any
    64-bit value returns that value and advances the cursor by exactly the bytes
    written, wherever it stands in the buffer. *)
Lemma vless_varint_roundtrip (pre rest : bytes) (v : Z) :
  in_u64 v ->
  read_varint_at (pre ++ put_varint v ++ rest) (zlen pre)
    = (Some v, zlen pre + zlen (put_varint v)).
Proof. intros Hv. by apply (read_varint_put _ pre v rest). Qed.

Lemma vless_varint_roundtrip_witness :
  read_varint_at ([10] ++ put_varint 300 ++ [7]) (zlen [10]) = (Some 300, 3).
Proof.
  rewrite (vless_varint_roundtrip [10] [7] 300); [reflexivity|unfold in_u64; lia].
Defined.

(** ** The addons loop: termination *)

(** A length field close to [2^64] makes [cursor + len] wrap. *)
Definition looping_addons : bytes := [18; 245; 255; 255; 255; 255; 255; 255; 255; 255; 1].
Definition panicking_addons : bytes := [10; 245; 255; 255; 255; 255; 255; 255; 255; 255; 1].

Lemma looping_addons_loop fuel : flow_loop fuel looping_addons 0 = None.
Proof.
  induction fuel as [|f IH]; [done|]. cbn [flow_loop].
  change (0 <? zlen looping_addons) with true. cbv iota.
  replace (flow_iter looping_addons 0) with (Continue 0) by (vm_compute; reflexivity).
  exact IH.
Qed.

(** A VLESS request whose addons hold the eleven bytes [looping_addons] is
    never decoded: whatever the UUID and whatever follows, no amount of fuel
    brings [decode_request] to an answer, because the length varint wraps the
    cursor back to 0 (release arithmetic).  The same field under tag 1 makes the
    slice [data[11..0]] panic.  The UUID is not looked at before this. *)
Theorem vless_addons_wraparound (u rest : bytes) (fuel : nat) :
  length u = 16%nat ->
  decode_request fuel ([VLESS_VERSION] ++ u ++ [11] ++ looping_addons ++ rest) = None
  /\ decode_request (S fuel) ([VLESS_VERSION] ++ u ++ [11] ++ panicking_addons ++ rest)
     = Some Panic.
Proof.
  intros Hu.
  assert (Hpre : forall l, length l = 11%nat ->
    read_preamble ([VLESS_VERSION] ++ u ++ [11] ++ l ++ rest) = Ok (u, l, rest)).
  { intros l Hl. unfold read_preamble.
    rewrite (reader_bind_ok _ _ _ VLESS_VERSION (u ++ [11] ++ l ++ rest)) by done.
    cbn [negb Z.eqb VLESS_VERSION].
    rewrite (reader_bind_ok _ _ _ u ([11] ++ l ++ rest)) by by apply read_exact_app.
    rewrite (reader_bind_ok _ _ _ 11 (l ++ rest)) by done.
    rewrite (reader_bind_ok _ _ _ l rest) by by apply read_exact_app.
    done. }
  split; unfold decode_request; rewrite Hpre by done; cbv iota.
  - change (0 <? length looping_addons)%nat with true. cbv iota.
    unfold parse_flow_from_addons. by rewrite looping_addons_loop.
  - change (0 <? length panicking_addons)%nat with true. cbv iota.
    unfold parse_flow_from_addons. cbn [flow_loop].
    change (0 <? zlen panicking_addons) with true. cbv iota.
    replace (flow_iter panicking_addons 0) with StepPanic by (vm_compute; reflexivity).
    done.
Qed.

Lemma vless_addons_wraparound_witness :
  decode_request 1000 ([VLESS_VERSION] ++ replicate 16 7 ++ [11] ++ looping_addons ++ [1]) = None
  /\ decode_request (S 5) ([VLESS_VERSION] ++ replicate 16 7 ++ [11] ++ panicking_addons ++ [1])
     = Some Panic.
Proof.
  split.
  - apply (vless_addons_wraparound (replicate 16 7) [1] 1000). reflexivity.
  - apply (vless_addons_wraparound (replicate 16 7) [1] 5). reflexivity.
Defined.

(** Below 128 every varint is one byte, and the cursor only moves forward. *)
Definition ascii (l : bytes) : Prop := Forall (fun b => 0 <= b < 128) l.

Lemma read_varint_ascii (data : bytes) (cursor : Z) v c :
  ascii data -> 0 <= cursor -> read_varint_at data cursor = (Some v, c) ->
  0 <= v < 128 /\ c = cursor + 1 /\ cursor < zlen data.
Proof.
  intros Ha Hc. unfold read_varint_at.
  destruct (drop (Z.to_nat cursor) data) as [|b rest] eqn:E; [done|].
  assert (Hlk : data !! Z.to_nat cursor = Some b).
  { rewrite <- (Nat.add_0_r (Z.to_nat cursor)), <- lookup_drop, E. done. }
  assert (Hb : 0 <= b < 128) by (by eapply (Forall_lookup_1 _ _ _ _ Ha)).
  assert (Hu : in_u8 b) by (unfold_words; lia).
  cbn [read_varint]. rewrite byte_high_clear, byte_low7 by done.
  destruct (Z.ltb_spec b 128); [|lia].
  rewrite Z.shiftl_0_r, Z.lor_0_l, (Z.mod_small b 128) by lia.
  unfold as_u64. rewrite Z.mod_small by lia. intros [= <- <-].
  apply lookup_lt_Some in Hlk. unfold zlen. lia.
Qed.

Lemma flow_iter_ascii (data : bytes) (cursor : Z) :
  ascii data -> zlen data <= 2 ^ 32 -> 0 <= cursor < zlen data ->
  match flow_iter data cursor with
  | Continue c => cursor < c
  | StepPanic => False
  | _ => True
  end.
Proof.
  intros Ha Hlen Hc. unfold flow_iter.
  destruct (read_varint_at data cursor) as [[tag|] c1] eqn:E1; [|done].
  apply read_varint_ascii in E1 as (Ht & -> & _); [|done|lia].
  destruct (Z.land tag 7 =? 2); [|destruct (Z.land tag 7 =? 0);
    [|destruct (Z.land tag 7 =? 1); [lia|destruct (Z.land tag 7 =? 5); [lia|done]]]].
  - destruct (read_varint_at data (cursor + 1)) as [[len|] c2] eqn:E2; [|done].
    apply read_varint_ascii in E2 as (Hl & -> & ?); [|done|lia].
    unfold as_u64. rewrite Z.mod_small by lia.
    destruct (Z.ltb_spec (zlen data) (cursor + 1 + 1 + len)); [done|].
    destruct (as_u32 (Z.shiftr tag 3) =? 1); [|lia].
    rewrite slice_ok by (unfold zlen in *; lia). by destruct (utf8_valid _); [|lia].
  - destruct (read_varint_at data (cursor + 1)) as [[len|] c2] eqn:E2; [|done].
    apply read_varint_ascii in E2 as (Hl & -> & ?); [lia|done|lia].
Qed.

Lemma flow_loop_ascii fuel (data : bytes) (cursor : Z) :
  ascii data -> zlen data <= 2 ^ 32 -> 0 <= cursor -> Z.max 0 (zlen data - cursor) < Z.of_nat fuel ->
  exists s, flow_loop fuel data cursor = Some (Ok s).
Proof.
  intros Ha Hlen. revert cursor. induction fuel as [|f IH]; intros cursor Hc Hf.
  - exists []. cbn [flow_loop]. lia.
  - cbn [flow_loop]. destruct (Z.ltb_spec cursor (zlen data)) as [Hlt|]; [|eauto].
    pose proof (flow_iter_ascii data cursor Ha Hlen ltac:(lia)) as Hi.
    destruct (flow_iter data cursor); eauto; [|done].
    apply IH; lia.
Qed.

(** ** Addresses *)

Lemma encode_host_Ok_inv a h :
  address_ok a -> encode_host a = Ok h ->
  bytes_ok h /\ (2 <= length h <= 257)%nat /\ h !! 0%nat = Some
    (match a with Ipv4 _ _ => ATYP_IPV4 | Ipv6 _ _ => ATYP_IPV6 | Domain _ _ => ATYP_DOMAIN end).
Proof.
  intros [_ Hok] Hh. destruct a as [i p|i p|d p]; cbn [encode_host] in Hh.
  - inv_res. destruct Hok as [Hi Hl]. split; [|split; [cbn; lia|done]].
    apply bytes_ok_cons; [unfold ATYP_IPV4; unfold_words; lia|done].
  - inv_res. destruct Hok as [Hi Hl]. split; [|split; [cbn; lia|done]].
    apply bytes_ok_cons; [unfold ATYP_IPV6; unfold_words; lia|done].
  - inv_res. apply domain_wire_len_Ok_inv in E as [Hl ->]. destruct Hok as [Hd _].
    split; [|split; [cbn; lia|done]].
    apply bytes_ok_cons; [unfold ATYP_DOMAIN; unfold_words; lia|].
    apply bytes_ok_cons; [unfold zlen; unfold_words; lia|done].
Qed.

(** Both address readers, on the block the encoders write. *)
Lemma read_address_host a h rest :
  address_ok a -> encode_host a = Ok h ->
  exists atyp body, h = atyp :: body /\
    read_address atyp (port a) (body ++ rest) = Ok (a, rest) /\
    decode_address_sync atyp (port a) (body ++ rest) = Ok (a, rest).
Proof.
  intros [_ Hok] Hh. destruct a as [i p|i p|d p]; cbn [encode_host] in Hh; inv_res.
  1,2: eexists _, _; split; [done|]; destruct Hok as [_ Hl];
    unfold read_address, decode_address_sync, cursor_read; cbn [port]; eval_eqb;
    (split; [rewrite (reader_bind_ok _ _ _ i rest) by by apply read_exact_app
            |rewrite (reader_bind_ok _ _ _ i rest) by (by apply read_exact_app)]; done).
  apply domain_wire_len_Ok_inv in E as [Hl ->]. destruct Hok as [_ Hu].
  exists ATYP_DOMAIN, ([zlen d] ++ d). split; [done|].
  unfold read_address, decode_address_sync, cursor_read, from_utf8. cbn [port]. eval_eqb.
  rewrite <- app_assoc. split.
  - rewrite (reader_bind_ok _ _ _ (zlen d) (d ++ rest)) by done.
    rewrite (reader_bind_ok _ _ _ d rest) by (apply read_exact_app; unfold zlen; lia).
    by rewrite Hu.
  - rewrite (reader_bind_ok _ _ _ [zlen d] (d ++ rest)) by by apply read_exact_app.
    rewrite (reader_bind_ok _ _ _ (zlen d) (d ++ rest)) by done.
    rewrite (reader_bind_ok _ _ _ d rest) by (apply read_exact_app; unfold zlen; lia).
    by rewrite Hu.
Qed.

Lemma address_port_wire_len_host a h rest :
  address_ok a -> encode_host a = Ok h -> (4 <= length (be_bytes 2 (port a) ++ h ++ rest))%nat ->
  address_port_wire_len (be_bytes 2 (port a) ++ h ++ rest) = Ok (2 + length h)%nat.
Proof.
  intros [_ Hok] Hh Hlen. unfold address_port_wire_len.
  destruct (Nat.ltb_spec (length (be_bytes 2 (port a) ++ h ++ rest)) 4) as [|_]; [lia|].
  destruct a as [i p|i p|d p]; cbn [encode_host port] in *; inv_res.
  1,2: destruct Hok as [_ Hl];
    rewrite <- !app_assoc; cbn [app]; (rewrite (idx_app_mid _ _ _ 2) by done); mred;
    eval_eqb; mred; cbn [length]; by rewrite Hl.
  apply domain_wire_len_Ok_inv in E as [Hl ->]. destruct Hok as [_ Hu].
  rewrite <- !app_assoc. cbn [app]. rewrite (idx_app_mid _ _ _ 2) by done. mred.
  eval_eqb.
  rewrite (idx_app_r (be_bytes 2 p) _ 1 2) by done. rewrite idx_cons_S, idx_cons_0. mred.
  cbv zeta. rewrite zlen_to_nat.
  destruct (Nat.ltb_spec (length (be_bytes 2 p ++ ATYP_DOMAIN :: zlen d :: d ++ rest))
    (4 + length d)) as [Hc|_].
  { rewrite !length_app in Hc. cbn in Hc. rewrite length_app, length_be_bytes in Hc. lia. }
  replace (be_bytes 2 p ++ ATYP_DOMAIN :: zlen d :: d ++ rest)
    with ((be_bytes 2 p ++ [ATYP_DOMAIN; zlen d]) ++ d ++ rest) by by rewrite <- app_assoc.
  rewrite (slice_mid (be_bytes 2 p ++ [ATYP_DOMAIN; zlen d]) d rest) by
    (rewrite ?length_app, ?length_be_bytes; cbn; lia).
  mred. unfold from_utf8. rewrite Hu. mred. rewrite domain_wire_len_ok by done. mred.
  done.
Qed.

(** The port-then-address block reads back, with its exact length. *)
Lemma decode_encode_address_port a w rest :
  address_ok a -> encode_address_port a = Ok w ->
  (4 <= length (w ++ rest))%nat ->
  decode_address_port_with_len (w ++ rest) = Ok (a, length w).
Proof.
  intros Ha Hw Hlen. unfold encode_address_port in Hw. inv_res. rename a0 into h.
  pose proof (encode_host_Ok_inv _ _ Ha E) as (_ & [Hh2 _] & _).
  pose proof (address_port_wire_len_host a h rest Ha E) as Hwl.
  rewrite <- app_assoc in *. specialize (Hwl Hlen).
  destruct (read_address_host a h rest Ha E) as (atyp & body & -> & _ & Hr).
  unfold decode_address_port_with_len.
  destruct (Nat.ltb_spec (length (be_bytes 2 (port a) ++ (atyp :: body) ++ rest)) 4); [lia|].
  rewrite idx16_be_bytes_0 by (by destruct Ha). mred.
  cbn [app] in *. rewrite (idx_app_mid _ _ _ 2) by done. mred. rewrite Hwl. mred. skip_guard.
  pose proof (slice_tail (E:=ProxyError) (be_bytes 2 (port a) ++ [atyp]) (body ++ rest) 3) as Hs.
  rewrite <- app_assoc in Hs. cbn [app] in Hs. rewrite Hs by
    (by rewrite length_app, length_be_bytes). mred.
  rewrite Hr. mred. by rewrite length_app, length_be_bytes.
Qed.

(** ** Request round trip *)

Lemma flow_iter_encoded fl :
  string_ok fl -> (length fl <= 255)%nat ->
  flow_iter ([10] ++ put_varint (zlen fl) ++ fl) 0 = Return fl.
Proof.
  intros [_ Hu] Hl. set (data := [10] ++ put_varint (zlen fl) ++ fl).
  assert (H64 : in_u64 (zlen fl)) by (unfold zlen; unfold_words; lia).
  unfold flow_iter.
  rewrite (read_varint_put data [] 10 (put_varint (zlen fl) ++ fl) 0) by
    (try done; unfold_words; lia).
  change (zlen (put_varint 10)) with 1. change (0 + 1) with 1.
  change (as_u32 (Z.shiftr 10 3)) with 1. change (Z.land 10 7) with 2. eval_eqb.
  rewrite (read_varint_put data [10] (zlen fl) fl 1) by done.
  pose proof (put_varint_length _ H64) as Hp.
  assert (Hz : zlen data = 1 + zlen (put_varint (zlen fl)) + zlen fl).
  { unfold data. rewrite !zlen_app. change (zlen [10]) with 1. lia. }
  unfold as_u64. rewrite Z.mod_small by (unfold zlen in *; lia).
  rewrite <- Hz, Z.ltb_irrefl.
  rewrite zlen_to_nat. pose proof (slice_tail (E:=ProxyError) ([10] ++ put_varint (zlen fl)) fl
    (Z.to_nat (1 + zlen (put_varint (zlen fl))))) as Hs.
  rewrite <- app_assoc in Hs. fold data in Hs. rewrite Hs; [by rewrite Hu|].
  cbn [length app]. unfold zlen. lia.
Qed.

Lemma read_preamble_encoded u fl addons rest :
  length u = 16%nat -> encode_addons fl = Ok addons ->
  exists raw, read_preamble ([VLESS_VERSION] ++ u ++ addons ++ rest) = Ok (u, raw, rest) /\
    raw = (if (length fl =? 0)%nat then [] else [10] ++ put_varint (zlen fl) ++ fl) /\
    (length raw <= 255)%nat.
Proof.
  intros Hu Ha.
  assert (Hpre : forall raw, (length raw <= 255)%nat -> addons = as_u8 (zlen raw) :: raw ->
    read_preamble ([VLESS_VERSION] ++ u ++ addons ++ rest) = Ok (u, raw, rest)).
  { intros raw Hl ->. unfold read_preamble.
    rewrite (reader_bind_ok _ _ _ VLESS_VERSION (u ++ (as_u8 (zlen raw) :: raw) ++ rest)) by done.
    cbn [negb Z.eqb VLESS_VERSION].
    rewrite (reader_bind_ok _ _ _ u ((as_u8 (zlen raw) :: raw) ++ rest)) by by apply read_exact_app.
    rewrite (reader_bind_ok _ _ _ (as_u8 (zlen raw)) (raw ++ rest)) by done.
    unfold as_u8, zlen. rewrite Z.mod_small by lia.
    rewrite (reader_bind_ok _ _ _ raw rest) by (apply read_exact_app; lia). done. }
  unfold encode_addons in Ha. destruct (length fl =? 0)%nat; [|cbv zeta in Ha].
  - inv_res. exists []. split; [apply Hpre; [cbn; lia|reflexivity]|]. split; [done|]. cbn. lia.
  - destruct (Nat.ltb_spec 255 (length ([10] ++ put_varint (zlen fl) ++ fl))); [done|].
    inv_res. eexists. split; [by apply Hpre|]. done.
Qed.

Lemma read_target_encoded u fl cmd a target rest :
  address_ok a ->
  (if decide (cmd = CMux) then Ok []
   else host ← encode_host a; Ok (be_bytes 2 (port a) ++ host)) = Ok target ->
  read_target u fl ([command_byte cmd] ++ target ++ rest) =
    Ok (mkRequest u cmd (if decide (cmd = CMux) then Domain MUX_COOL_DOMAIN 0 else a) fl, rest).
Proof.
  intros Ha Ht. unfold read_target.
  rewrite (reader_bind_ok _ _ _ (command_byte cmd) (target ++ rest)) by done.
  rewrite (reader_bind_ok _ _ _ cmd (target ++ rest)) by by destruct cmd.
  destruct (decide (cmd = CMux)); [by inv_res|]. inv_res. rewrite <- app_assoc.
  destruct (read_address_host a _ rest Ha E) as (atyp & body & -> & Hr & _).
  rewrite (reader_bind_ok _ _ _ (port a) ((atyp :: body) ++ rest)).
  2: { apply read_u16_app. by destruct Ha. }
  rewrite (reader_bind_ok _ _ _ atyp (body ++ rest)) by done.
  by rewrite (reader_bind_ok _ _ _ _ _ Hr).
Qed.

(** A header that was written decodes; one round of the addons loop is enough. *)
Lemma vless_decode_encoded (u fl : bytes) (cmd : Command) (a : Address)
    (w payload : bytes) (fuel : nat) :
  length u = 16%nat -> string_ok fl -> address_ok a ->
  encode_request u fl cmd a = Ok w ->
  decode_request (S fuel) (w ++ payload) =
    Some (Ok (mkRequest u cmd (if decide (cmd = CMux) then Domain MUX_COOL_DOMAIN 0 else a) fl,
              payload)).
Proof.
  intros Hu Hfl Ha Hw. unfold encode_request in Hw. inv_res.
  rename a0 into addons, a1 into target, E into Eadd, E0 into Etgt.
  destruct (read_preamble_encoded u fl addons
    (([command_byte cmd] ++ target) ++ payload) Hu Eadd) as (raw & Hpre & Hraw & Hlen).
  unfold decode_request.
  replace (([VLESS_VERSION] ++ u ++ addons ++ [command_byte cmd] ++ target) ++ payload)
    with ([VLESS_VERSION] ++ u ++ addons ++ ([command_byte cmd] ++ target) ++ payload)
    by (cbn [app]; by rewrite <- !app_assoc).
  rewrite Hpre. pose proof (read_target_encoded u fl cmd a target payload Ha Etgt) as Ht.
  destruct (Nat.eqb_spec (length fl) 0) as [Hz|Hz].
  { subst raw. apply nil_length_inv in Hz as ->. cbn [length Nat.ltb]. by rewrite <- Ht. }
  assert (Hdata : flow_iter raw 0 = Return fl).
  { subst raw. apply flow_iter_encoded; [done|].
    cbn [length app] in Hlen. rewrite length_app in Hlen. lia. }
  destruct (Nat.ltb_spec 0 (length raw)) as [Hpos|Hneg].
  2: { subst raw. cbn in Hneg. lia. }
  unfold parse_flow_from_addons. cbn [flow_loop].
  destruct (Z.ltb_spec 0 (zlen raw)); [|unfold zlen in *; lia].
  rewrite Hdata. by rewrite <- Ht.
Qed.

(** Flows of up to 252 bytes fit the one-byte addons length. *)
Lemma put_varint_short v : 0 <= v < 16384 -> length (put_varint v) = if v <? 128 then 1%nat else 2%nat.
Proof.
  intros Hv. unfold put_varint. cbn [put_varint_fuel].
  destruct (Z.leb_spec 128 v) as [H|H]; destruct (Z.ltb_spec v 128); try lia; [|done].
  rewrite Z.shiftr_div_pow2 by lia. change (2 ^ 7) with 128.
  destruct (Z.leb_spec 128 (v / 128)) as [H'|H']; [|done].
  assert (v / 128 < 128) by (apply Z.div_lt_upper_bound; lia). lia.
Qed.

Lemma encode_addons_total fl :
  ((length fl <= 252)%nat -> exists w, encode_addons fl = Ok w) /\
  ((252 < length fl)%nat -> encode_addons fl = Err (Protocol "VLESS addons too long")).
Proof.
  unfold encode_addons. split; intros Hl.
  - case_match; [eauto|]. rewrite (proj2 (Nat.ltb_ge _ _)); [eauto|].
    rewrite !length_app, put_varint_short by (unfold zlen; lia). cbn [length].
    destruct (Z.ltb_spec (zlen fl) 128) as [H'|H']; unfold zlen in H'; lia.
  - rewrite (proj2 (Nat.eqb_neq _ _)) by lia. rewrite (proj2 (Nat.ltb_lt _ _)); [done|].
    rewrite !length_app. cbn [length]. destruct (decide (zlen fl < 16384)) as [Hs|Hs]; [|unfold zlen in Hs; lia].
    rewrite put_varint_short by (unfold zlen in *; lia). unfold zlen. destruct (Z.ltb_spec (Z.of_nat (length fl)) 128); lia.
Qed.

Lemma encode_host_total a :
  (name_fits a -> exists w, encode_host a = Ok w) /\
  (~ name_fits a -> encode_host a = Err (Protocol "domain too long")).
Proof.
  destruct a as [x p|x p|d p]; cbn [name_fits encode_host]; split; try done; try eauto; intros Hf.
  - rewrite domain_wire_len_ok by done. mred. eauto.
  - rewrite domain_wire_len_err by lia. done.
Qed.

(** VLESS request round trip: for any 16-byte UUID, any flow string of at most
    252 bytes and any well-formed destination whose name fits the one-byte length
    field, [encode_request] writes a header that [decode_request] decodes to the
    same UUID, flow and command, to the same destination (the [v1.mux.cool] marker
    for Mux, which sends none), and to a stream positioned at the first payload
    byte, in one round of the addons loop; longer flows and (except for Mux, which
    writes none) longer names are refused. *)
Theorem vless_request_roundtrip (u fl : bytes) (cmd : Command) (a : Address)
    (payload : bytes) (fuel : nat) :
  length u = 16%nat -> string_ok fl -> address_ok a ->
  ((length fl <= 252)%nat -> cmd = CMux \/ name_fits a ->
     exists w, encode_request u fl cmd a = Ok w /\
       decode_request (S fuel) (w ++ payload) =
         Some (Ok (mkRequest u cmd (if decide (cmd = CMux) then Domain MUX_COOL_DOMAIN 0 else a) fl,
                   payload))) /\
  ((252 < length fl)%nat \/ (cmd <> CMux /\ ~ name_fits a) ->
     exists e, encode_request u fl cmd a = Err e).
Proof.
  intros Hu Hfl Ha. destruct (encode_addons_total fl) as [Hok Herr], (encode_host_total a) as [Hok' Herr'].
  split.
  - intros Hl Hn. destruct (Hok Hl) as [addons Hadd]. destruct (encode_request u fl cmd a) as [w| |] eqn:E.
    { exists w. split; [done|]. by apply vless_decode_encoded. }
    all: unfold encode_request in E; rewrite Hadd in E; mred in E; case_decide as Hc; [done|];
      destruct (Hok' ltac:(tauto)) as [h Hh]; rewrite Hh in E; done.
  - unfold encode_request. intros [Hl|[Hc Hn]]; [rewrite (Herr Hl); eauto|].
    destruct (decide (length fl <= 252)%nat) as [Hl|Hl]; [|rewrite Herr by lia; eauto].
    destruct (Hok Hl) as [addons ->]. mred. rewrite decide_False by done. rewrite (Herr' Hn). eauto.
Qed.

Lemma vless_request_roundtrip_witness :
  exists w, encode_request (replicate 16 9) (str "xtls-rprx-vision") CTcp (Ipv4 [1; 2; 3; 4] 443) = Ok w
  /\ decode_request 1 (w ++ [5]) =
     Some (Ok (mkRequest (replicate 16 9) CTcp (Ipv4 [1; 2; 3; 4] 443) (str "xtls-rprx-vision"), [5])).
Proof.
  apply (vless_request_roundtrip (replicate 16 9) (str "xtls-rprx-vision") CTcp
    (Ipv4 [1; 2; 3; 4] 443) [5] 0); [reflexivity| | |cbn; lia|right; exact I].
  - split; [apply str_ok|vm_compute; reflexivity].
  - unfold address_ok, bytes_ok, in_u8, in_u16; cbn. repeat first [split | constructor | lia].
Defined.

(** ** Port-then-address blocks: safety *)

Lemma domain_wire_len_no_panic n : no_panic (domain_wire_len n).
Proof. unfold domain_wire_len. by case_match. Qed.

Lemma address_port_wire_len_no_panic data : no_panic (address_port_wire_len data).
Proof.
  unfold address_port_wire_len. case_match; [done|]. bool_hyps.
  apply no_panic_bind; [apply idx_no_panic; lia|]; intros atyp _.
  apply no_panic_bind; [|done].
  case_match; [done|]. case_match; [done|]. case_match; [|done].
  apply no_panic_bind; [apply idx_no_panic; lia|]; intros b _. cbv zeta.
  case_match; [done|]. bool_hyps.
  apply no_panic_bind; [apply slice_no_panic; lia|]; intros raw _.
  apply no_panic_bind; [apply from_utf8_no_panic|]; intros nm _.
  apply no_panic_bind; [apply domain_wire_len_no_panic|]. done.
Qed.

Lemma cursor_read_no_panic n s : no_panic (cursor_read n s).
Proof. unfold cursor_read, read_exact. by case_decide. Qed.

Lemma reader_no_panic_bind {E A B} (m : reader E A) (f : A -> reader E B) s :
  no_panic (m s) -> (forall a s', m s = Ok (a, s') -> no_panic (f a s')) -> no_panic ((m ≫= f) s).
Proof.
  intros Hm Hf. unfold mbind, reader_bind. destruct (m s) as [[a s']| |] eqn:E1; [|done|done].
  by apply Hf.
Qed.

Lemma decode_address_sync_no_panic atyp p s : no_panic (decode_address_sync atyp p s).
Proof.
  unfold decode_address_sync. case_match; [|case_match; [|case_match; [|done]]].
  1,2: apply reader_no_panic_bind; [apply cursor_read_no_panic|done].
  apply reader_no_panic_bind; [apply cursor_read_no_panic|]. intros len s1 Hl.
  apply reader_no_panic_bind.
  { unfold cursor_read, read_exact in Hl. case_decide; simplify_eq.
    destruct s as [|x s]; [cbn in *; lia|done]. }
  intros l s2 _. apply reader_no_panic_bind; [apply cursor_read_no_panic|]. intros nm s3 _.
  apply reader_no_panic_bind; [|done]. unfold lift, from_utf8. by destruct (utf8_valid nm).
Qed.

Lemma decode_address_port_no_panic data : no_panic (decode_address_port_with_len data).
Proof.
  unfold decode_address_port_with_len. case_match; [done|]. bool_hyps.
  apply no_panic_bind; [apply idx16_no_panic; lia|]; intros p _.
  apply no_panic_bind; [apply idx_no_panic; lia|]; intros atyp _.
  apply no_panic_bind; [apply address_port_wire_len_no_panic|]; intros n _.
  case_match; [done|]. bool_hyps.
  apply no_panic_bind; [apply slice_no_panic; lia|]; intros c _.
  apply no_panic_bind; [apply decode_address_sync_no_panic|]. by intros [].
Qed.

Lemma decode_address_port_consumed data a n :
  decode_address_port_with_len data = Ok (a, n) -> (4 <= length data /\ n <= length data)%nat.
Proof.
  unfold decode_address_port_with_len. case_match; [done|]. bool_hyps. intros Hd.
  inv_res. case_match; [done|]. bool_hyps. inv_res.
  repeat match goal with q : (Address * bytes)%type |- _ => destruct q end. by inv_res; simplify_eq.
Qed.

(** ** User registry ([registry.rs])

    The [DashMap] is a finite map; each of its operations is atomic. *)

Module Registry.

Record VlessUser := mkUser { email : bytes; user_uuid : bytes; user_flow : bytes }.

Abbreviation registry := (gmap bytes VlessUser).

(** [uuid[6]] and [uuid[8]] of a 16-byte array. *)
Definition normalise_uuid (u : bytes) : bytes :=
  let u := <[6%nat := Z.lor (Z.land (nth 6 u 0) 15) 64]> u in
  <[8%nat := Z.lor (Z.land (nth 8 u 0) 63) 128]> u.

Definition new : registry := ∅.

Definition add_user (r : registry) (u : VlessUser) : registry :=
  <[normalise_uuid (user_uuid u) := u]> r.

Definition validate (r : registry) (u : bytes) : option VlessUser :=
  r !! normalise_uuid u.

Definition clear (r : registry) : registry := ∅.

Definition len (r : registry) : nat := size r.

Definition is_empty (r : registry) : bool := bool_decide (r = ∅).

(** In the map's iteration order. *)
Definition list_users (r : registry) (e : bytes) : list VlessUser :=
  filter (fun u => e = [] \/ email u = e) (map_to_list r).*2.

Definition remove_user_by_email (r : registry) (e : bytes) : registry * bool :=
  let keys := (filter (fun kv => email kv.2 = e) (map_to_list r)).*1 in
  (foldr (fun k m => delete k m) r keys, negb (bool_decide (keys = []))).

End Registry.

Section RegistryFacts.
Import Registry.

Lemma lookup_foldr_delete (ks : list bytes) (m : registry) k :
  foldr (fun k m => delete k m) m ks !! k = if decide (k ∈ ks) then None else m !! k.
Proof.
  induction ks as [|k' ks IH]; cbn [foldr].
  - by rewrite decide_False by set_solver.
  - rewrite lookup_delete, IH. repeat case_decide; set_solver.
Qed.

Lemma removed_keys_spec (r : registry) e k :
  k ∈ (filter (fun kv => email kv.2 = e) (map_to_list r)).*1 <->
  exists u, r !! k = Some u /\ email u = e.
Proof.
  rewrite list_elem_of_fmap. split.
  - intros ([k' u] & -> & [He Hin]%list_elem_of_filter). cbn in *.
    apply elem_of_map_to_list in Hin. eauto.
  - intros (u & Hu & He). exists (k, u). split; [done|]. apply list_elem_of_filter.
    split; [done|]. by apply elem_of_map_to_list.
Qed.

(** Revocation by email: after [remove_user_by_email], a UUID authenticates
    exactly when it did before and its user has another email; users with other
    emails are untouched, the flag says whether somebody was removed, and no UUID
    bits (version, variant) let a removed user back in. *)
Theorem vless_remove_user_spec (r : registry) (e u : bytes) :
  let '(r', removed) := remove_user_by_email r e in
  (forall usr, validate r' u = Some usr <-> validate r u = Some usr /\ email usr <> e) /\
  (removed = true <-> exists k usr, r !! k = Some usr /\ email usr = e).
Proof.
  unfold remove_user_by_email, validate. cbv zeta. split.
  - intros usr. rewrite lookup_foldr_delete. case_decide as Hin.
    + apply removed_keys_spec in Hin as (v & Hv & He). rewrite Hv. naive_solver.
    + rewrite removed_keys_spec in Hin. naive_solver.
  - rewrite negb_true_iff, bool_decide_eq_false. split.
    + intros Hne. destruct (_.*1) as [|k ks] eqn:Hk; [done|].
      assert (Hin : k ∈ k :: ks) by set_solver. rewrite <- Hk in Hin.
      apply removed_keys_spec in Hin. naive_solver.
    + intros (k & v & Hv & He) Hnil.
      assert (Hin : k ∈ (filter (fun kv => email kv.2 = e) (map_to_list r)).*1).
      { apply removed_keys_spec. eauto. }
      rewrite Hnil in Hin. set_solver.
Qed.

End RegistryFacts.
