(* ===== verification/Mux.v ===== *)
(** * Mux.Cool / XUDP framing

    Models the frame codec of [crates/blackwire-protocol/src/vless/mux.rs]:
    metadata encoders, [encode_frame], [parse_metadata], [parse_frame] and the
    streaming [read_mux_frame].  The relay tasks ([relay_mux_cool] and the
    per-session copy loops) are socket plumbing and are not modelled. *)

From S2P Require Import Prelude Common Vless.
Import Vless.

Module Mux.

Definition XUDP_SESSION_ID : Z := 0.
Definition OPT_DATA : Z := 1.
Definition MAX_META_LEN : Z := 512.
Definition MAX_DATA_LEN : Z := 512 * 1024.

Inductive SessionStatus := New | Keep | End | KeepAlive.
Inductive TargetNetwork := NTcp | NUdp.

#[export] Instance SessionStatus_eq_dec : EqDecision SessionStatus.
Proof. solve_decision. Defined.
#[export] Instance TargetNetwork_eq_dec : EqDecision TargetNetwork.
Proof. solve_decision. Defined.

Definition status_byte (s : SessionStatus) : Z :=
  match s with New => 1 | Keep => 2 | End => 3 | KeepAlive => 4 end.
Definition network_byte (n : TargetNetwork) : Z :=
  match n with NTcp => 1 | NUdp => 2 end.

Definition status_from_byte (b : Z) : res ProxyError SessionStatus :=
  if b =? 1 then Ok New
  else if b =? 2 then Ok Keep
  else if b =? 3 then Ok End
  else if b =? 4 then Ok KeepAlive
  else Err (Protocol "mux: unknown session status").

Definition network_from_byte (b : Z) : res ProxyError TargetNetwork :=
  if b =? 1 then Ok NTcp
  else if b =? 2 then Ok NUdp
  else Err (Protocol "mux: unknown target network").

Record FrameMetadata := mkMeta {
  session_id : Z;
  status : SessionStatus;
  option_byte : Z;
  target : option (TargetNetwork * Address);
  global_id : option bytes
}.

Definition is_mux_cool_dest (a : Address) : bool :=
  match a with Domain host _ => bool_decide (host = MUX_COOL_DOMAIN) | _ => false end.

Definition is_mux_request (c : Command) (a : Address) : bool :=
  bool_decide (c = CMux) || is_mux_cool_dest a.

(** ** Encoders *)

Definition meta_head (sid : Z) (s : SessionStatus) (opt : Z) : bytes :=
  be_bytes 2 sid ++ [status_byte s; opt].

Definition encode_new_metadata (sid : Z) (a : Address) (opt : Z) : res ProxyError bytes :=
  addr ← encode_address_port a;
  Ok (meta_head sid New opt ++ [network_byte NTcp] ++ addr).

Definition encode_end_metadata (sid opt : Z) : bytes := meta_head sid End opt.

Definition encode_new_metadata_xudp (a : Address) (gid : bytes) (opt : Z) : res ProxyError bytes :=
  addr ← encode_address_port a;
  Ok (meta_head XUDP_SESSION_ID New opt ++ [network_byte NUdp] ++ addr ++ gid).

Definition encode_keep_metadata_udp (sid : Z) (a : Address) (opt : Z) : res ProxyError bytes :=
  addr ← encode_address_port a;
  Ok (meta_head sid Keep opt ++ [network_byte NUdp] ++ addr).

Definition encode_keep_metadata (sid opt : Z) : bytes := meta_head sid Keep opt.

Definition encode_frame (metadata : bytes) (payload : option bytes) : res ProxyError bytes :=
  if MAX_META_LEN <? zlen metadata then Err (Protocol "mux: metadata too long") else
  let out := be_bytes 2 (as_u16 (zlen metadata)) ++ metadata in
  match payload with
  | Some data =>
      if MAX_DATA_LEN <? zlen data then Err (Protocol "mux: payload too long")
      else Ok (out ++ be_bytes 2 (as_u16 (zlen data)) ++ data)
  | None => Ok out
  end.

(** ** Decoders *)

(** One pass of the [for _ in 0..2] loop; [None] is [break]. *)
Definition skip_extension (rest : bytes) : res ProxyError (option bytes) :=
  if (length rest =? 0)%nat then Ok None else
  b ← idx rest 0;
  if b =? 0 then tl ← slice rest 1 (length rest); Ok (Some tl) else
  _ ← network_from_byte b;
  rest ← slice rest 1 (length rest);
  '(_, consumed) ← decode_address_port_with_len rest;
  rest ← slice rest consumed (length rest);
  Ok (Some rest).

Definition skip_mux_inbound_extensions (rest : bytes) : res ProxyError bytes :=
  r1 ← skip_extension rest;
  match r1 with
  | None => Ok rest
  | Some rest =>
      r2 ← skip_extension rest;
      match r2 with None => Ok rest | Some rest => Ok rest end
  end.

Definition parse_metadata (meta : bytes) : res ProxyError FrameMetadata :=
  if (length meta <? 4)%nat then Err (Protocol "mux: metadata too short") else
  sid ← idx16 meta 0;
  sb ← idx meta 2;
  st ← status_from_byte sb;
  opt ← idx meta 3;
  rest ← slice meta 4 (length meta);
  match st with
  | New =>
      if (length rest =? 0)%nat then Err (Protocol "mux: New missing target") else
      nb ← idx rest 0;
      network ← network_from_byte nb;
      rest ← slice rest 1 (length rest);
      '(addr, consumed) ← decode_address_port_with_len rest;
      rest ← slice rest consumed (length rest);
      rest ← (if decide (network = NTcp) then skip_mux_inbound_extensions rest else Ok rest);
      gid ← (if bool_decide (network = NUdp) && negb (Z.land opt OPT_DATA =? 0)
                && (8 <=? length rest)%nat
             then g ← slice rest 0 8; Ok (Some g) else Ok None);
      Ok (mkMeta sid st opt (Some (network, addr)) gid)
  | Keep =>
      if (length rest =? 0)%nat then Ok (mkMeta sid st opt None None) else
      nb ← idx rest 0;
      match network_from_byte nb with
      | Ok NUdp =>
          rest ← slice rest 1 (length rest);
          '(addr, _) ← decode_address_port_with_len rest;
          Ok (mkMeta sid st opt (Some (NUdp, addr)) None)
      | _ => Ok (mkMeta sid st opt None None)
      end
  | _ => Ok (mkMeta sid st opt None None)
  end.

Definition is_xudp_metadata (m : FrameMetadata) : bool :=
  (session_id m =? XUDP_SESSION_ID)
  && match target m with Some (NUdp, _) => true | _ => false end
  && (bool_decide (status m = Keep)
      || (bool_decide (status m = New) && match global_id m with Some _ => true | None => false end)).

Definition parse_frame (buf : bytes) : res ProxyError (FrameMetadata * option bytes * nat) :=
  if (length buf <? 2)%nat then Err (Protocol "mux: frame too short") else
  ml ← idx16 buf 0;
  if MAX_META_LEN <? ml then Err (Protocol "mux: invalid metadata length") else
  let need := (2 + Z.to_nat ml)%nat in
  if (length buf <? need)%nat then Err (Protocol "mux: truncated metadata") else
  raw ← slice buf 2 need;
  meta ← parse_metadata raw;
  if negb (Z.land (option_byte meta) OPT_DATA =? 0) then
    if (length buf <? need + 2)%nat then Err (Protocol "mux: truncated payload length") else
    dl ← idx16 buf need;
    if MAX_DATA_LEN <? dl then Err (Protocol "mux: invalid payload length") else
    let consumed := (need + (2 + Z.to_nat dl))%nat in
    if (length buf <? consumed)%nat then Err (Protocol "mux: truncated payload") else
    data ← slice buf (need + 2) consumed;
    Ok (meta, Some data, consumed)
  else Ok (meta, None, need).

Definition read_mux_frame : reader ProxyError (FrameMetadata * option bytes) :=
  ml ← read_u16;
  if MAX_META_LEN <? ml then lift (Err (Protocol "mux: invalid metadata length")) else
  raw ← read_exact (Z.to_nat ml);
  meta ← lift (parse_metadata raw);
  if negb (Z.land (option_byte meta) OPT_DATA =? 0) then
    dl ← read_u16;
    if MAX_DATA_LEN <? dl then lift (Err (Protocol "mux: invalid payload length")) else
    data ← read_exact (Z.to_nat dl);
    mret (meta, Some data)
  else mret (meta, None).

End Mux.

Section MuxFacts.
Import Mux.

(** ** Metadata *)

(** The metadata that each encoder writes. *)
Inductive encodes : FrameMetadata -> bytes -> Prop :=
| encodes_new sid a opt m :
    encode_new_metadata sid a opt = Ok m ->
    encodes (mkMeta sid New opt (Some (NTcp, a)) None) m
| encodes_end sid opt :
    encodes (mkMeta sid End opt None None) (encode_end_metadata sid opt)
| encodes_xudp a gid opt m :
    length gid = 8%nat -> Z.land opt OPT_DATA <> 0 ->
    encode_new_metadata_xudp a gid opt = Ok m ->
    encodes (mkMeta XUDP_SESSION_ID New opt (Some (NUdp, a)) (Some gid)) m
| encodes_keep_udp sid a opt m :
    encode_keep_metadata_udp sid a opt = Ok m ->
    encodes (mkMeta sid Keep opt (Some (NUdp, a)) None) m
| encodes_keep sid opt :
    encodes (mkMeta sid Keep opt None None) (encode_keep_metadata sid opt).

Definition meta_ok (m : FrameMetadata) : Prop :=
  in_u16 (session_id m) /\
  match target m with Some (_, a) => address_ok a | None => True end.

Lemma status_from_to s : status_from_byte (status_byte s) = Ok s.
Proof. by destruct s. Qed.

Lemma network_from_to n : network_from_byte (network_byte n) = Ok n.
Proof. by destruct n. Qed.

Lemma encode_address_port_length a w :
  address_ok a -> encode_address_port a = Ok w -> (4 <= length w <= 259)%nat.
Proof.
  intros Ha Hw. unfold encode_address_port in Hw. inv_res.
  pose proof (encode_host_Ok_inv _ _ Ha E) as (_ & Hl & _).
  rewrite length_app, length_be_bytes. lia.
Qed.

Lemma decode_address_at a w rest :
  address_ok a -> encode_address_port a = Ok w ->
  decode_address_port_with_len (w ++ rest) = Ok (a, length w).
Proof.
  intros Ha Hw. apply decode_encode_address_port; [done|done|].
  pose proof (encode_address_port_length _ _ Ha Hw). rewrite length_app. lia.
Qed.

Lemma slice_all_after {E} (w rest : bytes) :
  slice (E:=E) (w ++ rest) (length w) (length (w ++ rest)) = Ok rest.
Proof. by apply slice_tail. Qed.

Lemma slice_uncons {E} (b : Z) (l : bytes) :
  slice (E:=E) (b :: l) 1 (length (b :: l)) = Ok l.
Proof. by apply (slice_tail [b]). Qed.

(** The fixed four-byte head is read back. *)
Lemma parse_metadata_head sid st opt rest :
  in_u16 sid ->
  let buf := meta_head sid st opt ++ rest in
  (length buf <? 4)%nat = false /\ idx16 (E:=ProxyError) buf 0 = Ok sid /\
  idx (E:=ProxyError) buf 2 = Ok (status_byte st) /\ idx (E:=ProxyError) buf 3 = Ok opt /\
  slice (E:=ProxyError) buf 4 (length buf) = Ok rest.
Proof.
  intros Hs. cbv zeta. unfold meta_head. rewrite <- app_assoc. split_and!.
  - apply Nat.ltb_ge. len_solve.
  - by apply idx16_be_bytes_0.
  - by apply idx_app_mid.
  - change 3%nat with (2 + 1)%nat. by rewrite idx_app_r.
  - rewrite app_assoc. by apply slice_tail.
Qed.

Ltac open_head Hs :=
  match goal with
  | |- parse_metadata (meta_head ?sid ?st ?opt ++ ?rest) = _ =>
      destruct (parse_metadata_head sid st opt rest Hs) as (H4 & H16 & H2 & H3 & Hr);
      unfold parse_metadata; rewrite H4, H16; mred; rewrite H2; mred; rewrite status_from_to; mred;
      rewrite H3; mred; rewrite Hr; mred; clear H4 H16 H2 H3 Hr; cbn [app length Nat.eqb]
  end.

Lemma parse_metadata_bare sid st opt :
  in_u16 sid -> st <> New ->
  parse_metadata (meta_head sid st opt) = Ok (mkMeta sid st opt None None).
Proof.
  intros Hs Hn. rewrite <- (app_nil_r (meta_head sid st opt)). open_head Hs. by destruct st.
Qed.

Lemma parse_metadata_new sid n a addr rest opt :
  in_u16 sid -> address_ok a -> encode_address_port a = Ok addr ->
  parse_metadata (meta_head sid New opt ++ [network_byte n] ++ addr ++ rest) =
    (rest ← (if decide (n = NTcp) then skip_mux_inbound_extensions rest else Ok rest);
     gid ← (if bool_decide (n = NUdp) && negb (Z.land opt OPT_DATA =? 0) && (8 <=? length rest)%nat
            then g ← slice rest 0 8; Ok (Some g) else Ok None);
     Ok (mkMeta sid New opt (Some (n, a)) gid)).
Proof.
  intros Hs Ha E. open_head Hs. rewrite idx_cons_0. mred. rewrite network_from_to. mred.
  rewrite slice_uncons. mred. rewrite (decode_address_at a addr rest Ha E). mred.
  by rewrite slice_all_after.
Qed.

Lemma parse_metadata_encodes m b : meta_ok m -> encodes m b -> parse_metadata b = Ok m.
Proof.
  intros Hok He. destruct He as [sid a opt m' Hm|sid opt|a gid opt m' Hg Ho Hm|sid a opt m' Hm|sid opt];
    destruct Hok as [Hs Ht]; cbn [session_id target] in *; try (by apply parse_metadata_bare).
  - unfold encode_new_metadata in Hm. inv_res. rewrite <- (app_nil_r a0).
    rewrite (parse_metadata_new sid NTcp a a0 [] opt Hs Ht E). reflexivity.
  - unfold encode_new_metadata_xudp in Hm. inv_res.
    rewrite (parse_metadata_new _ NUdp a a0 gid opt Hs Ht E), decide_False by done. mred. rewrite Hg.
    destruct (Z.eqb_spec (Z.land opt OPT_DATA) 0); [done|].
    pose proof (slice_prefix (E:=ProxyError) gid [] 8) as Hp. rewrite app_nil_r in Hp.
    cbn. by rewrite Hp.
  - unfold encode_keep_metadata_udp in Hm. inv_res. open_head Hs.
    rewrite idx_cons_0. mred. rewrite network_from_to, slice_uncons. mred.
    pose proof (decode_address_at a a0 [] Ht E) as Hd. rewrite app_nil_r in Hd.
    by rewrite Hd.
Qed.

(** ** Frames *)

Definition has_data (m : FrameMetadata) : bool := negb (Z.land (option_byte m) OPT_DATA =? 0).

(** What [parse_frame] makes of a metadata block and of a declared length [d]. *)
Lemma parse_frame_meta (m : FrameMetadata) (b tl : bytes) :
  meta_ok m -> encodes m b -> zlen b <= MAX_META_LEN ->
  parse_frame (be_bytes 2 (zlen b) ++ b ++ tl) =
    let buf := be_bytes 2 (zlen b) ++ b ++ tl in
    let need := (2 + length b)%nat in
    if has_data m then
      if (length buf <? need + 2)%nat then Err (Protocol "mux: truncated payload length") else
      dl ← idx16 buf need;
      if MAX_DATA_LEN <? dl then Err (Protocol "mux: invalid payload length") else
      let consumed := (need + (2 + Z.to_nat dl))%nat in
      if (length buf <? consumed)%nat then Err (Protocol "mux: truncated payload") else
      data ← slice buf (need + 2) consumed;
      Ok (m, Some data, consumed)
    else Ok (m, None, need).
Proof.
  intros Hm He Hb. pose proof (zlen_nonneg b) as Hb0.
  assert (Hu : in_u16 (zlen b)) by (unfold MAX_META_LEN in Hb; unfold_words; lia).
  unfold parse_frame. skip_guard. rewrite idx16_be_bytes_0 by done. mred.
  destruct (Z.ltb_spec MAX_META_LEN (zlen b)) as [Hc|_]; [lia|].
  cbv zeta. rewrite zlen_to_nat. skip_guard.
  rewrite (slice_mid (be_bytes 2 (zlen b)) b) by (rewrite ?length_be_bytes; done). mred.
  by rewrite (parse_metadata_encodes _ _ Hm He).
Qed.

Lemma parse_frame_data (m : FrameMetadata) (b body : bytes) (d : Z) :
  meta_ok m -> encodes m b -> zlen b <= MAX_META_LEN -> has_data m = true ->
  in_u16 d -> d <= zlen body ->
  parse_frame (be_bytes 2 (zlen b) ++ b ++ be_bytes 2 d ++ body) =
    Ok (m, Some (take (Z.to_nat d) body), (4 + length b + Z.to_nat d)%nat).
Proof.
  intros Hm He Hb Hd Hu Hl. rewrite (parse_frame_meta m) by done. cbv zeta. rewrite Hd.
  unfold_words. skip_guard. rewrite app_assoc.
  rewrite idx16_be_bytes by (rewrite ?length_app, ?length_be_bytes; (done || unfold_words; lia)). mred.
  destruct (Z.ltb_spec MAX_DATA_LEN d) as [Hc|_]; [unfold MAX_DATA_LEN in Hc; lia|]. skip_guard.
  rewrite <- (take_drop (Z.to_nat d) body) at 1.
  rewrite app_assoc, slice_mid by len_solve. mred. do 2 f_equal. lia.
Qed.

Lemma encode_frame_meta_len b payload w :
  encode_frame b payload = Ok w -> zlen b <= MAX_META_LEN /\ as_u16 (zlen b) = zlen b.
Proof.
  unfold encode_frame. destruct (Z.ltb_spec MAX_META_LEN (zlen b)) as [|Hb]; [done|].
  intros _. split; [done|]. pose proof (zlen_nonneg b). unfold MAX_META_LEN in Hb.
  unfold as_u16. by rewrite Z.mod_small by lia.
Qed.

Lemma parse_encoded_mux_frame (m : FrameMetadata) (b w rest : bytes) (payload : option bytes) :
  meta_ok m -> encodes m b ->
  (has_data m = true <-> is_Some payload) ->
  match payload with Some p => zlen p <= 65535 | None => True end ->
  encode_frame b payload = Ok w ->
  parse_frame (w ++ rest) = Ok (m, payload, length w).
Proof.
  intros Hm He Hopt Hp Hw. destruct (encode_frame_meta_len _ _ _ Hw) as [Hb Hb16].
  unfold encode_frame in Hw. rewrite Hb16 in Hw. case_match; [done|]. destruct payload as [p|].
  - case_match; [done|]. inv_res. pose proof (zlen_nonneg p).
    unfold as_u16. rewrite (Z.mod_small (zlen p)) by lia. rewrite <- !app_assoc.
    rewrite (parse_frame_data m) by (first [done | by apply Hopt; eauto | unfold_words; lia | len_solve]).
    rewrite zlen_to_nat, take_app_length. do 2 f_equal. len_solve.
  - inv_res. rewrite <- app_assoc, (parse_frame_meta m) by done. cbv zeta.
    destruct (has_data m); [destruct Hopt as [Ho _]; by destruct Ho|].
    by rewrite length_app, length_be_bytes.
Qed.

(** Metadata never reaches its limit. *)
Lemma encodes_length m b : meta_ok m -> encodes m b -> zlen b <= MAX_META_LEN.
Proof.
  intros Hok He. unfold MAX_META_LEN, zlen.
  destruct He as [sid a opt m' Hm|sid opt|a gid opt m' Hg Ho Hm|sid a opt m' Hm|sid opt];
    destruct Hok as [_ Ht]; cbn [target] in Ht; unfold encode_end_metadata, encode_keep_metadata, meta_head;
    try (rewrite length_app, length_be_bytes; cbn; lia).
  - unfold encode_new_metadata in Hm. inv_res. pose proof (encode_address_port_length _ _ Ht E).
    unfold meta_head. rewrite !length_app, length_be_bytes. cbn. lia.
  - unfold encode_new_metadata_xudp in Hm. inv_res. pose proof (encode_address_port_length _ _ Ht E).
    unfold meta_head. rewrite !length_app, length_be_bytes, Hg. cbn. lia.
  - unfold encode_keep_metadata_udp in Hm. inv_res. pose proof (encode_address_port_length _ _ Ht E).
    unfold meta_head. rewrite !length_app, length_be_bytes. cbn. lia.
Qed.

(** Mux.Cool frame round trip: for the metadata of any of the five encoders,
    and a payload that is present exactly when the data option is set and fits the
    16-bit length field, the frame is encoded and parses back to the same metadata
    and payload, and the parser reports exactly the frame's length, whatever
    follows it. *)
Theorem mux_frame_roundtrip (m : FrameMetadata) (b rest : bytes) (payload : option bytes) :
  meta_ok m -> encodes m b ->
  (has_data m = true <-> is_Some payload) ->
  match payload with Some p => zlen p <= 65535 | None => True end ->
  exists w, encode_frame b payload = Ok w /\ parse_frame (w ++ rest) = Ok (m, payload, length w).
Proof.
  intros Hm He Hopt Hp. pose proof (encodes_length m b Hm He) as Hb.
  destruct (encode_frame b payload) as [w| |] eqn:E.
  { exists w. split; [done|]. by apply (parse_encoded_mux_frame m b). }
  all: unfold encode_frame in E; rewrite (proj2 (Z.ltb_ge _ _)) in E by done;
    destruct payload as [p|]; [|done];
    rewrite (proj2 (Z.ltb_ge _ _)) in E by (unfold MAX_DATA_LEN; lia); done.
Qed.

Lemma mux_frame_roundtrip_witness :
  exists b, encode_new_metadata 7 (Domain [97] 80) OPT_DATA = Ok b /\
  exists w, encode_frame b (Some [1; 2; 3]) = Ok w
  /\ parse_frame (w ++ [9; 9]) = Ok (mkMeta 7 New OPT_DATA (Some (NTcp, Domain [97] 80)) None,
       Some [1; 2; 3], length w).
Proof.
  eexists. split; [vm_compute; reflexivity|].
  apply (mux_frame_roundtrip (mkMeta 7 New OPT_DATA (Some (NTcp, Domain [97] 80)) None)
    _ [9; 9] (Some [1; 2; 3])).
  - unfold meta_ok, address_ok, string_ok, bytes_ok, in_u8, in_u16; cbn.
    repeat first [split | constructor | lia].
  - apply encodes_new. vm_compute. reflexivity.
  - split; [eauto|done].
  - vm_compute. discriminate.
Defined.

(** A payload above 65535 bytes passes the [MAX_DATA_LEN] check of
    [encode_frame] while its length is written modulo 65536: the parser takes
    only that many leading bytes as the payload and reports a frame at least 65536
    bytes shorter than the one sent, so the rest is read as the next frame. *)
Theorem mux_long_payload_desync (m : FrameMetadata) (b p : bytes) :
  meta_ok m -> encodes m b -> zlen b <= MAX_META_LEN -> has_data m = true ->
  65536 <= zlen p <= MAX_DATA_LEN ->
  exists w n, encode_frame b (Some p) = Ok w
    /\ parse_frame w = Ok (m, Some (take (Z.to_nat (zlen p mod 65536)) p), n)
    /\ Z.of_nat n + 65536 <= zlen w.
Proof.
  intros Hm He Hb Hd Hp. pose proof (zlen_nonneg b) as Hb0.
  pose proof (Z.mod_pos_bound (zlen p) 65536 ltac:(lia)) as Hmod.
  pose proof (Z.div_mod (zlen p) 65536 ltac:(lia)) as Hdm.
  exists ((be_bytes 2 (zlen b) ++ b) ++ be_bytes 2 (zlen p mod 65536) ++ p), 
    (4 + length b + Z.to_nat (zlen p mod 65536))%nat.
  split_and!.
  - unfold encode_frame. destruct (Z.ltb_spec MAX_META_LEN (zlen b)); [lia|].
    destruct (Z.ltb_spec MAX_DATA_LEN (zlen p)); [lia|].
    unfold as_u16. unfold MAX_META_LEN in Hb. by rewrite (Z.mod_small (zlen b)) by lia.
  - rewrite <- app_assoc. apply parse_frame_data; try done; lia.
  - rewrite !zlen_app, !zlen_be_bytes. assert (zlen b = Z.of_nat (length b)) by done. lia.
Qed.

Lemma mux_long_payload_desync_witness :
  let p := replicate (Z.to_nat 65538) 0 in
  exists w n, encode_frame (encode_keep_metadata 3 OPT_DATA) (Some p) = Ok w
    /\ parse_frame w = Ok (mkMeta 3 Keep OPT_DATA None None,
         Some (take (Z.to_nat (zlen p mod 65536)) p), n)
    /\ Z.of_nat n + 65536 <= zlen w.
Proof.
  assert (Hz : zlen (replicate (Z.to_nat 65538) 0) = 65538).
  { unfold zlen. rewrite length_replicate. lia. }
  apply (mux_long_payload_desync (mkMeta 3 Keep OPT_DATA None None)).
  - unfold meta_ok, in_u16; cbn. lia.
  - apply encodes_keep.
  - vm_compute. discriminate.
  - reflexivity.
  - rewrite Hz. unfold MAX_DATA_LEN. lia.
Defined.

(** ** Safety, and the streaming reader *)

Lemma status_no_panic b : no_panic (status_from_byte b).
Proof. unfold status_from_byte. by repeat case_match. Qed.

Lemma network_no_panic b : no_panic (network_from_byte b).
Proof. unfold network_from_byte. by repeat case_match. Qed.

Lemma decode_then_slice_no_panic rest {A} (k : Address -> bytes -> res ProxyError A) :
  (forall a l, no_panic (k a l)) ->
  no_panic ('(a, consumed) ← decode_address_port_with_len rest;
            rest ← slice rest consumed (length rest); k a rest).
Proof.
  intros Hk. apply no_panic_bind; [apply decode_address_port_no_panic|]. intros [a n] Hd.
  apply decode_address_port_consumed in Hd as [_ Hn].
  apply no_panic_bind; [apply slice_no_panic; lia|]. intros l _. apply Hk.
Qed.

Lemma skip_extension_no_panic rest : no_panic (skip_extension rest).
Proof.
  unfold skip_extension. case_match; [done|]. bool_hyps.
  apply no_panic_bind; [apply idx_no_panic; lia|]; intros b _.
  case_match; [apply no_panic_bind; [apply slice_no_panic; lia|done]|].
  apply no_panic_bind; [apply network_no_panic|]; intros n _.
  apply no_panic_bind; [apply slice_no_panic; lia|]; intros l _.
  by apply (decode_then_slice_no_panic l (fun _ rest => Ok (Some rest))).
Qed.

Lemma skip_extensions_no_panic rest : no_panic (skip_mux_inbound_extensions rest).
Proof.
  unfold skip_mux_inbound_extensions.
  apply no_panic_bind; [apply skip_extension_no_panic|]. intros [l|] _; [|done].
  apply no_panic_bind; [apply skip_extension_no_panic|]. by intros [].
Qed.

Lemma parse_metadata_no_panic meta : no_panic (parse_metadata meta).
Proof.
  unfold parse_metadata. case_match; [done|]. bool_hyps.
  apply no_panic_bind; [apply idx16_no_panic; lia|]; intros sid _.
  apply no_panic_bind; [apply idx_no_panic; lia|]; intros sb _.
  apply no_panic_bind; [apply status_no_panic|]; intros st _.
  apply no_panic_bind; [apply idx_no_panic; lia|]; intros opt _.
  apply no_panic_bind; [apply slice_no_panic; lia|]; intros rest _.
  destruct st; [| |done|done]; (case_match eqn:Hr; [done|]; bool_hyps).
  - apply no_panic_bind; [apply idx_no_panic; lia|]; intros nb _.
    apply no_panic_bind; [apply network_no_panic|]; intros nw _.
    apply no_panic_bind; [apply slice_no_panic; lia|]; intros l _.
    apply decode_then_slice_no_panic. intros a l'.
    apply no_panic_bind; [case_decide; [apply skip_extensions_no_panic|done]|]. intros l'' _.
    apply no_panic_bind; [|done]. case_match eqn:Hg; [|done]. bool_hyps.
    apply no_panic_bind; [apply slice_no_panic; lia|done].
  - apply no_panic_bind; [apply idx_no_panic; lia|]; intros nb _.
    destruct (network_from_byte nb) as [[]| |]; try done.
    apply no_panic_bind; [apply slice_no_panic; lia|]; intros l _.
    apply no_panic_bind; [apply decode_address_port_no_panic|]. by intros [].
Qed.

Lemma read_u16_at (buf : bytes) k :
  (k + 2 <= length buf)%nat -> bytes_ok buf ->
  exists x, idx16 (E:=ProxyError) buf k = Ok x /\ in_u16 x /\
    read_u16 (E:=ProxyError) (drop k buf) = Ok (x, drop (k + 2) buf).
Proof.
  intros Hl Hb. destruct (read_u16_drop (E:=ProxyError) (E':=ProxyError) buf k Hl) as (x & Hx & Hr).
  exists x. split; [done|]. split; [by eapply idx16_in_u16; eauto|done].
Qed.

(** C33. The buffered and the streaming Mux.Cool parsers are the same function:
    on every byte string [parse_frame] does not panic; when it returns a frame,
    [read_mux_frame] returns the same metadata and payload and leaves exactly
    the bytes after the frame; when it fails, so does the streaming parser. *)
Theorem mux_parsers_agree (buf : bytes) :
  bytes_ok buf ->
  match parse_frame buf with
  | Ok (m, p, n) => read_mux_frame buf = Ok (m, p, drop n buf) /\ (n <= length buf)%nat
  | Err _ => exists e, read_mux_frame buf = Err e
  | Panic => False
  end.
Proof.
  intros Hb. unfold parse_frame, read_mux_frame.
  destruct (Nat.ltb_spec (length buf) 2) as [Hl|Hl].
  { eexists. by apply reader_bind_err, read_u16_short. }
  destruct (read_u16_at buf 0) as (ml & Hm & Hu & Hr); [lia|done|].
  rewrite Hm. mred. change (0 + 2)%nat with 2%nat in Hr. rewrite drop_0 in Hr.
  rewrite (reader_bind_ok _ _ _ _ _ Hr).
  destruct (MAX_META_LEN <? ml); [by eexists|]. cbv zeta. set (need := (2 + Z.to_nat ml)%nat).
  destruct (Nat.ltb_spec (length buf) need) as [Hl2|Hl2].
  { eexists. apply reader_bind_err, read_exact_short. rewrite length_drop. lia. }
  rewrite slice_ok by lia. mred.
  rewrite (reader_bind_ok _ _ _ _ _ (read_exact_drop (E:=ProxyError) buf 2 (Z.to_nat ml) ltac:(lia))).
  fold need. replace (need - 2)%nat with (Z.to_nat ml) by lia.
  pose proof (parse_metadata_no_panic (take (Z.to_nat ml) (drop 2 buf))) as Hnp.
  destruct (parse_metadata (take (Z.to_nat ml) (drop 2 buf))) as [m|e|]; mred; [|by eexists|done].
  rewrite (reader_bind_ok _ _ _ m (drop need buf)) by done.
  destruct (negb (Z.land (option_byte m) OPT_DATA =? 0)).
  2: { split; [done|lia]. }
  destruct (Nat.ltb_spec (length buf) (need + 2)) as [Hl3|Hl3].
  { eexists. apply reader_bind_err, read_u16_short. rewrite length_drop. lia. }
  destruct (read_u16_at buf need) as (dl & Hd & Hud & Hrd); [lia|done|].
  rewrite Hd. mred. rewrite (reader_bind_ok _ _ _ _ _ Hrd).
  destruct (MAX_DATA_LEN <? dl); [by eexists|].
  destruct (Nat.ltb_spec (length buf) (need + (2 + Z.to_nat dl))) as [Hl4|Hl4].
  { eexists. apply reader_bind_err, read_exact_short. rewrite length_drop. lia. }
  rewrite slice_ok by lia. mred.
  rewrite (reader_bind_ok _ _ _ _ _ (read_exact_drop (E:=ProxyError) buf (need + 2) (Z.to_nat dl) ltac:(lia))).
  split; [|lia]. unfold mret, reader_ret. rewrite Nat.add_assoc.
  by replace (need + 2 + Z.to_nat dl - (need + 2))%nat with (Z.to_nat dl) by lia.
Qed.

Lemma mux_parsers_agree_witness :
  parse_frame [0; 4; 0; 1; 2; 1; 0; 2; 8; 9; 7] = Ok (mkMeta 1 Keep 1 None None, Some [8; 9], 10%nat)
  /\ read_mux_frame [0; 4; 0; 1; 2; 1; 0; 2; 8; 9; 7]
     = Ok (mkMeta 1 Keep 1 None None, Some [8; 9], [7]).
Proof.
  assert (H : bytes_ok [0; 4; 0; 1; 2; 1; 0; 2; 8; 9; 7]).
  { unfold bytes_ok, in_u8. repeat constructor; lia. }
  split; [reflexivity|]. exact (proj1 (mux_parsers_agree _ H)).
Defined.

End MuxFacts.
