(* ===== verification/Cidr.v ===== *)
(** * CIDR matching

    Models [IpMatcher] of [crates/blackwire-app/src/router.rs] and
    [GeoIpMatcher], [parse_cidr] of [geo/geoip.rs].

    The [ipnet] crate is outside the repository.  It enters as the interface
    [IpNet]: its operations, and the documented behaviour of them that the
    matchers rely on ([IpNetLaws]).  [PlainNet] is an instance, for evaluation. *)

From stdpp Require Import sorting.
From S2P Require Import Prelude Common.

(** ** The [ipnet] interface *)

Definition ip_octets (i : IpAddr) : bytes := match i with V4 o => o | V6 o => o end.
Definition ip_val (i : IpAddr) : Z := be_val (ip_octets i).
Definition ip_width (i : IpAddr) : Z := match i with V4 _ => 32 | V6 _ => 128 end.

Class IpNet (N : Type) := {
  net_new : IpAddr -> Z -> option N;
  net_parse : bytes -> option N;
  net_leb : N -> N -> bool;
  net_contains : N -> IpAddr -> bool;
  net_addr : N -> IpAddr;
  net_prefix : N -> Z
}.

(** Order of two networks: IPv4 before IPv6, then address, then prefix length. *)
Definition net_order (i : IpAddr) (p : Z) (j : IpAddr) (q : Z) : bool :=
  (ip_width i <? ip_width j) ||
  (ip_width i =? ip_width j) &&
    ((ip_val i <? ip_val j) || (ip_val i =? ip_val j) && (p <=? q)).

(** [ip] has the first [p] bits of [a]. *)
Definition same_network (a : IpAddr) (p : Z) (i : IpAddr) : bool :=
  (ip_width i =? ip_width a) &&
  (ip_val i / 2 ^ (ip_width a - p) =? ip_val a / 2 ^ (ip_width a - p)).

Class IpNetLaws (N : Type) `{IpNet N} := {
  (** [IpNet::new] keeps the address as given and rejects long prefixes. *)
  net_new_some : forall i p, 0 <= p <= ip_width i ->
    exists n, net_new i p = Some n /\ net_addr n = i /\ net_prefix n = p;
  net_leb_spec : forall m n,
    net_leb m n = net_order (net_addr m) (net_prefix m) (net_addr n) (net_prefix n);
  net_contains_spec : forall n i,
    net_contains n i = same_network (net_addr n) (net_prefix n) i
}.

(** ** The matchers *)

(** [slice::partition_point] on a slice that is partitioned by [p]. *)
Fixpoint partition_point {A} (p : A -> bool) (l : list A) : nat :=
  match l with
  | [] => 0
  | x :: l' => if p x then S (partition_point p l') else 0
  end.

(** [collect::<Result<Vec<_>>>], the first error winning. *)
Fixpoint collect {E A B} (f : A -> res E B) (l : list A) : res E (list B) :=
  match l with
  | [] => Ok []
  | x :: l' => y ← f x; ys ← collect f l'; Ok (y :: ys)
  end.

Section Matchers.
Context {N : Type} `{IpNet N}.

Definition net_le (m n : N) : Prop := net_leb m n = true.

#[local] Instance net_le_dec : RelDecision net_le.
Proof. intros m n. unfold net_le. apply _. Defined.

Definition sort_unstable (l : list N) : list N := merge_sort net_le l.

Record IpMatcher := mkIpMatcher { ranges : list N }.

Definition IpMatcher_new (rs : list bytes) : res unit IpMatcher :=
  parsed ← collect (fun r => of_option tt (net_parse r)) rs;
  Ok (mkIpMatcher (sort_unstable parsed)).

(** Binary search, then the last [scan] candidates. *)
Definition search (rs : list N) (scan : nat) (probe : N) (i : IpAddr) : res unit bool :=
  let idx := partition_point (fun net => net_leb net probe) rs in
  cands ← slice rs (idx - scan) idx;
  Ok (existsb (fun net => net_contains net i) (reverse cands)).

Definition matches (m : IpMatcher) (i : IpAddr) : res unit bool :=
  if (length (ranges m) =? 0)%nat then Ok false else
  let full_prefix := match i with V4 _ => 32 | V6 _ => 128 end in
  match net_new i full_prefix with
  | None => Ok (existsb (fun net => net_contains net i) (ranges m))
  | Some probe => search (ranges m) 4 probe i
  end.

Definition MAX_OVERLAP_SCAN : nat := 4.

Record Cidr := mkCidr { cidr_ip : bytes; cidr_prefix : Z }.

Record GeoIp := mkGeoIp { country_code : bytes; cidr : list Cidr; inverse_match : bool }.

Record GeoIpMatcher := mkGeoIpMatcher { geo_ranges : list N }.

Definition parse_cidr (c : Cidr) : option N :=
  let prefix := as_u8 (cidr_prefix c) in
  if (length (cidr_ip c) =? 4)%nat then net_new (V4 (cidr_ip c)) prefix
  else if (length (cidr_ip c) =? 16)%nat then net_new (V6 (cidr_ip c)) prefix
  else None.

Definition from_proto (entry : GeoIp) : GeoIpMatcher :=
  mkGeoIpMatcher (sort_unstable (omap parse_cidr (cidr entry))).

Definition from_ranges (rs : list N) : GeoIpMatcher := mkGeoIpMatcher (sort_unstable rs).

Definition match_ip (m : GeoIpMatcher) (i : IpAddr) : res unit bool :=
  if (length (geo_ranges m) =? 0)%nat then Ok false else
  let full_prefix := match i with V4 _ => 32 | V6 _ => 128 end in
  match net_new i full_prefix with
  | None => Ok (existsb (fun net => net_contains net i) (geo_ranges m))
  | Some probe => search (geo_ranges m) MAX_OVERLAP_SCAN probe i
  end.

(** ** Specification *)

(** A network whose host bits are zero, as [IpNet::trunc] leaves it. *)
Definition canonical (n : N) : Prop :=
  ip_ok (net_addr n) /\ 0 <= net_prefix n <= ip_width (net_addr n) /\
  ip_val (net_addr n) mod 2 ^ (ip_width (net_addr n) - net_prefix n) = 0.

(** How many networks of the list start inside [n] ([n] itself included). *)
Definition nested (rs : list N) (n : N) : nat :=
  length (filter (fun m => net_contains n (net_addr m) = true) rs).

Definition contained (rs : list N) (i : IpAddr) : bool :=
  existsb (fun net => net_contains net i) rs.

End Matchers.
Arguments IpMatcher : clear implicits.
Arguments GeoIpMatcher : clear implicits.

(** ** An instance of the interface

    Addresses with a prefix length; the text form is reduced to its five numbers. *)

Record PlainNet := mkNet { pn_addr : IpAddr; pn_prefix : Z }.

#[export] Instance PlainNet_ops : IpNet PlainNet := {|
  net_new i p := if (0 <=? p) && (p <=? ip_width i) then Some (mkNet i p) else None;
  net_parse s :=
    match s with
    | [a; b; c; d; p] => Some (mkNet (V4 [a; b; c; d]) p)
    | _ => None
    end;
  net_leb m n := net_order (pn_addr m) (pn_prefix m) (pn_addr n) (pn_prefix n);
  net_contains n i := same_network (pn_addr n) (pn_prefix n) i;
  net_addr := pn_addr;
  net_prefix := pn_prefix
|}.

#[export] Instance PlainNet_laws : IpNetLaws PlainNet.
Proof.
  split; [|done|done]. intros i p Hp. exists (mkNet i p). cbn.
  rewrite (proj2 (Z.leb_le 0 p)), (proj2 (Z.leb_le p (ip_width i))) by lia. done.
Qed.

(** ** Lemmas *)

Section MatcherFacts.
Context {N : Type} `{HL : IpNetLaws N}.

Lemma net_order_spec i p j q :
  net_order i p j q = true <->
  ip_width i < ip_width j \/
  ip_width i = ip_width j /\ (ip_val i < ip_val j \/ ip_val i = ip_val j /\ p <= q).
Proof.
  unfold net_order.
  rewrite orb_true_iff, andb_true_iff, orb_true_iff, andb_true_iff.
  rewrite !Z.ltb_lt, !Z.eqb_eq, Z.leb_le. tauto.
Qed.

#[local] Instance net_le_trans : Transitive (net_le (N:=N)).
Proof. intros a b c. unfold net_le. rewrite !net_leb_spec, !net_order_spec. lia. Qed.

#[local] Instance net_le_total : Total (net_le (N:=N)).
Proof. intros a b. unfold net_le. rewrite !net_leb_spec, !net_order_spec. lia. Qed.

#[local] Existing Instance net_le_dec.

Lemma sort_unstable_sorted (l : list N) : StronglySorted net_le (sort_unstable l).
Proof. apply StronglySorted_merge_sort; apply _. Qed.

Lemma sort_unstable_perm (l : list N) : sort_unstable l ≡ₚ l.
Proof. apply merge_sort_Permutation. Qed.

Lemma partition_point_le {A} (p : A -> bool) (l : list A) : (partition_point p l <= length l)%nat.
Proof. induction l as [|x l IH]; cbn; [lia|]. case_match; lia. Qed.

Lemma partition_point_lookup {A} (p : A -> bool) (l : list A) i x :
  l !! i = Some x -> (i < partition_point p l)%nat -> p x = true.
Proof.
  revert i. induction l as [|y l IH]; intros i; [done|]. cbn. case_match; [|lia].
  destruct i as [|i]; cbn; [by intros [= <-]|]. intros Hi Hlt. apply (IH i); [done|lia].
Qed.

(** In a sorted list, everything below the probe sits before the partition point. *)
Lemma partition_point_below (l : list N) (probe : N) i x :
  StronglySorted net_le l -> l !! i = Some x -> net_le x probe ->
  (i < partition_point (fun net => net_leb net probe) l)%nat.
Proof.
  intros Hs. revert i. induction Hs as [|y l Hs IH Hy]; intros i Hi Hx; [done|]. cbn.
  assert (Hyp : net_leb y probe = true).
  { destruct i as [|i]; cbn in Hi; [by simplify_eq|].
    apply (net_le_trans y x probe); [|done].
    eapply Forall_lookup_1; [exact Hy|exact Hi]. }
  rewrite Hyp. destruct i as [|i]; [lia|]. specialize (IH i Hi Hx). lia.
Qed.

Lemma sorted_lookup (l : list N) i j x y :
  StronglySorted net_le l -> (i < j)%nat -> l !! i = Some x -> l !! j = Some y -> net_le x y.
Proof.
  intros Hs. revert i j. induction Hs as [|z l Hs IH Hz]; intros i j Hij Hi Hj; [done|].
  destruct i as [|i], j as [|j]; cbn in *; try lia.
  - simplify_eq. eapply Forall_lookup_1; [exact Hz|exact Hj].
  - apply (IH i j); [lia|done|done].
Qed.

(** Between a canonical network and an address in it, in the sort order, there
    are only networks that start inside it. *)
Lemma between_nested (n m probe : N) (i : IpAddr) :
  canonical n -> net_contains n i = true -> net_addr probe = i ->
  net_le n m -> net_le m probe -> net_contains n (net_addr m) = true.
Proof.
  intros (_ & Hp & Hc) Hi <- Hnm Hmp. unfold net_le in *.
  rewrite !net_leb_spec, !net_order_spec in *. rewrite net_contains_spec in *.
  unfold same_network in *. bool_hyps. rewrite andb_true_iff, !Z.eqb_eq.
  set (d := 2 ^ (ip_width (net_addr n) - net_prefix n)) in *.
  assert (Hd : 0 < d) by (apply Z.pow_pos_nonneg; lia).
  assert (Hw : ip_width (net_addr m) = ip_width (net_addr n)) by lia. split; [done|].
  assert (Hle : ip_val (net_addr n) <= ip_val (net_addr m) <= ip_val (net_addr probe)) by lia.
  pose proof (Z.div_le_mono _ _ d Hd (proj1 Hle)).
  pose proof (Z.div_le_mono _ _ d Hd (proj2 Hle)). lia.
Qed.

(** An address in a canonical network is at or above the network in the order. *)
Lemma contains_below (n probe : N) (i : IpAddr) :
  canonical n -> net_contains n i = true -> net_addr probe = i -> net_prefix probe = ip_width i ->
  net_le n probe.
Proof.
  intros (_ & Hp & Hc) Hi <- Hpp. unfold net_le.
  rewrite net_leb_spec, net_order_spec. rewrite net_contains_spec in Hi.
  unfold same_network in Hi. bool_hyps.
  set (d := 2 ^ (ip_width (net_addr n) - net_prefix n)) in *.
  assert (Hd : 0 < d) by (apply Z.pow_pos_nonneg; lia).
  pose proof (Z.div_mod (ip_val (net_addr probe)) d ltac:(lia)).
  pose proof (Z.div_mod (ip_val (net_addr n)) d ltac:(lia)).
  pose proof (Z.mod_pos_bound (ip_val (net_addr probe)) d Hd). right. split; [done|]. nia.
Qed.

Lemma filter_all {A} (P : A -> Prop) `{!forall x, Decision (P x)} (l : list A) :
  Forall P l -> filter P l = l.
Proof. induction 1 as [|x l Hx _ IH]; [done|]. by rewrite filter_cons_True, IH. Qed.

Lemma filter_window {A} (l : list A) (a b : nat) (P : A -> Prop) `{!forall x, Decision (P x)} :
  (b <= length l)%nat -> (forall i x, (a <= i < b)%nat -> l !! i = Some x -> P x) ->
  (b - a <= length (filter P l))%nat.
Proof.
  intros Hb HP. destruct (decide (a <= b)%nat) as [Hab|]; [|lia].
  assert (Hall : filter P (take (b - a) (drop a l)) = take (b - a) (drop a l)).
  { apply filter_all, Forall_lookup_2. intros i x [Hi Hlt]%lookup_take_Some.
    rewrite lookup_drop in Hi. apply (HP (a + i)%nat); [lia|done]. }
  rewrite <- (take_drop a l), list.filter_app, length_app.
  rewrite <- (take_drop (b - a) (drop a l)), list.filter_app, length_app, Hall.
  rewrite length_take, length_drop. lia.
Qed.

Lemma existsb_spec {A} (f : A -> bool) (l : list A) :
  existsb f l = true <-> exists i x, l !! i = Some x /\ f x = true.
Proof.
  rewrite existsb_exists. split.
  - intros (x & Hx & Hf). apply list_elem_of_In, list_elem_of_lookup_1 in Hx as [i Hi]. eauto.
  - intros (i & x & Hi & Hf). exists x. split; [|done].
    by eapply list_elem_of_In, list_elem_of_lookup_2.
Qed.

(** ** The search against the plain scan *)

Lemma search_total (rs : list N) scan probe i :
  exists w, slice (E:=unit) rs (partition_point (fun net => net_leb net probe) rs - scan)
              (partition_point (fun net => net_leb net probe) rs) = Ok w /\
  search rs scan probe i = Ok (existsb (fun net => net_contains net i) (reverse w)).
Proof.
  unfold search. pose proof (partition_point_le (fun net => net_leb net probe) rs).
  eexists. rewrite slice_ok by lia. mred. done.
Qed.

Lemma search_spec (rs : list N) scan probe i :
  StronglySorted net_le rs -> net_addr probe = i -> net_prefix probe = ip_width i ->
  Forall canonical rs -> Forall (fun n => (nested rs n <= scan)%nat) rs ->
  search rs scan probe i = Ok (contained rs i).
Proof.
  intros Hs Ha Hp Hc Hn. destruct (search_total rs scan probe i) as (w & Hw & ->).
  apply slice_Ok_inv in Hw as [Hb ->]. set (k := partition_point _ rs) in *.
  f_equal. apply eq_true_iff_eq. unfold contained. rewrite !existsb_exists. split.
  - intros (n & Hin & Hni). exists n. split; [|done].
    apply list_elem_of_In in Hin. apply list_elem_of_In. rewrite elem_of_reverse in Hin.
    apply elem_of_take in Hin as (j & Hj & _). rewrite lookup_drop in Hj.
    by eapply list_elem_of_lookup_2.
  - intros (n & Hin & Hni). apply list_elem_of_In, list_elem_of_lookup_1 in Hin as [j Hj].
    pose proof (Forall_lookup_1 _ _ _ _ Hc Hj) as Hcn.
    pose proof (contains_below n probe i Hcn Hni Ha Hp) as Hle.
    pose proof (partition_point_below rs probe j n Hs Hj Hle) as Hjk. fold k in Hjk.
    assert (Hwin : (k - j <= nested rs n)%nat).
    { apply filter_window; [lia|]. intros j' m Hj' Hm.
      apply (between_nested n m probe i); try done.
      - destruct (decide (j = j')) as [->|]; [|].
        { rewrite Hj in Hm. injection Hm as <-. by destruct (net_le_total n n). }
        apply (sorted_lookup rs j j'); [done|lia|done|done].
      - apply (partition_point_lookup (fun net => net_leb net probe) rs j'); [done|lia]. }
    pose proof (Forall_lookup_1 _ _ _ _ Hn Hj) as Hle4. cbn in Hle4.
    exists n. split; [|done]. apply list_elem_of_In, elem_of_reverse.
    apply list_elem_of_lookup. exists (j - (k - scan))%nat.
    rewrite lookup_take_lt, lookup_drop by lia. rewrite <- Hj. f_equal. lia.
Qed.

Lemma contained_perm (l k : list N) i : l ≡ₚ k -> contained l i = contained k i.
Proof.
  intros Hp. apply eq_true_iff_eq. unfold contained. rewrite !existsb_exists.
  setoid_rewrite <- list_elem_of_In. by setoid_rewrite Hp.
Qed.

Lemma nested_perm (l k : list N) n : l ≡ₚ k -> nested l n = nested k n.
Proof. intros Hp. unfold nested. by rewrite Hp. Qed.

(** Both matchers run the same search on the sorted list. *)
Lemma match_sorted (nets : list N) i :
  matches (mkIpMatcher (sort_unstable nets)) i = match_ip (from_ranges nets) i.
Proof. done. Qed.

Lemma match_ip_probe (nets : list N) i :
  exists probe, net_addr probe = i /\ net_prefix probe = ip_width i /\
  (nets <> [] -> match_ip (from_ranges nets) i = search (sort_unstable nets) 4 probe i).
Proof.
  destruct (net_new_some i (ip_width i)) as (probe & Hnew & Ha & Hp); [by destruct i|].
  exists probe. split; [done|]. split; [done|]. intros Hne. unfold match_ip, from_ranges.
  cbn [geo_ranges]. rewrite (Permutation_length (sort_unstable_perm nets)).
  destruct nets as [|n nets]; [done|]. cbn [length Nat.eqb].
  change (match i with V4 _ => 32 | V6 _ => 128 end) with (ip_width i). by rewrite Hnew.
Qed.

Lemma match_ip_complete (nets : list N) i :
  Forall canonical nets -> Forall (fun n => (nested nets n <= 4)%nat) nets ->
  match_ip (from_ranges nets) i = Ok (contained nets i).
Proof.
  intros Hc Hn. destruct (decide (nets = [])) as [->|Hne]; [done|].
  destruct (match_ip_probe nets i) as (probe & Ha & Hp & Hm). rewrite Hm by done.
  rewrite search_spec; try done.
  - f_equal. apply contained_perm, sort_unstable_perm.
  - apply sort_unstable_sorted.
  - by rewrite sort_unstable_perm.
  - rewrite sort_unstable_perm. eapply Forall_impl; [exact Hn|]. intros n.
    by rewrite (nested_perm _ _ n (sort_unstable_perm nets)).
Qed.

Lemma partition_point_all (l : list N) probe :
  Forall (fun n => net_le n probe) l ->
  partition_point (fun net => net_leb net probe) l = length l.
Proof. induction 1 as [|x l Hx _ IH]; [done|]. cbn. by rewrite (Hx : _ = true), IH. Qed.

(** Strictly smaller base address: strictly smaller in the order. *)
Lemma net_le_base (m n : N) :
  ip_width (net_addr m) = ip_width (net_addr n) ->
  ip_val (net_addr m) < ip_val (net_addr n) -> net_le m n /\ ~ net_le n m.
Proof. intros. unfold net_le. rewrite !net_leb_spec, !net_order_spec. lia. Qed.

(** The least element of a list is the head of its sorted version. *)
Lemma sort_unstable_head (x : N) (l : list N) :
  Forall (fun n => ~ net_le n x) l ->
  exists l', sort_unstable (x :: l) = x :: l' /\ l' ≡ₚ l.
Proof.
  intros Hl. pose proof (sort_unstable_perm (x :: l)) as Hp.
  pose proof (sort_unstable_sorted (x :: l)) as Hs.
  destruct (sort_unstable (x :: l)) as [|y l'].
  { apply Permutation_length in Hp. done. }
  apply StronglySorted_cons in Hs as [Hy _].
  assert (y = x) as ->.
  { assert (Hyin : y ∈ x :: l) by (rewrite <- Hp; set_solver).
    apply elem_of_cons in Hyin as [->|Hyin]; [done|exfalso].
    rewrite Forall_forall in Hl, Hy. apply (Hl y); [done|].
    assert (Hx : x ∈ y :: l') by (rewrite Hp; set_solver).
    apply elem_of_cons in Hx as [->|Hx]; [by destruct (net_le_total y y)|].
    by apply Hy. }
  exists l'. split; [done|]. by apply Permutation_cons_inv in Hp.
Qed.

(** The prefix of a protobuf entry is cut to eight bits, not checked: a [/280]
    entry is read as a [/24]. *)
Lemma parse_cidr_wraps (octets : bytes) (p : Z) :
  parse_cidr (N:=N) (mkCidr octets (p + 256)) = parse_cidr (mkCidr octets p).
Proof.
  unfold parse_cidr, as_u8. cbn [cidr_ip cidr_prefix].
  replace (p + 256) with (p + 1 * 2 ^ 8) by lia. by rewrite Z.mod_add by lia.
Qed.

End MatcherFacts.

(** ** Properties *)

Section CidrProperties.
Context {N : Type} `{HL : IpNetLaws N}.

(** Both CIDR matchers are correct on networks with zero host bits when no
    network of the list has more than four networks of the list starting inside
    it (itself included), which covers every non-overlapping list: the binary
    search with its bounded backward scan never panics and answers exactly
    whether some network contains the address. *)
Theorem cidr_match_complete (texts : list bytes) (nets : list N) (i : IpAddr) :
  collect (fun r => of_option tt (net_parse r)) texts = Ok nets ->
  Forall canonical nets -> Forall (fun n => (nested nets n <= 4)%nat) nets ->
  exists m, IpMatcher_new texts = Ok m /\ matches m i = Ok (contained nets i) /\
    match_ip (from_ranges nets) i = Ok (contained nets i).
Proof.
  intros Ht Hc Hn. exists (mkIpMatcher (sort_unstable nets)). unfold IpMatcher_new.
  rewrite Ht. mred. rewrite match_sorted. by rewrite match_ip_complete.
Qed.

(** Outside that condition the matchers miss addresses: when four or more
    networks that do not contain the address start between the base of an
    enclosing network and the address (such as four more specific ranges of it),
    both answer [false] for an address that the list contains. *)
Theorem cidr_match_misses_enclosing (big : N) (small : list N) (i : IpAddr) :
  net_contains big i = true -> (4 <= length small)%nat ->
  Forall (fun n => ip_width (net_addr n) = ip_width i /\
            ip_val (net_addr big) < ip_val (net_addr n) < ip_val i /\
            net_contains n i = false) small ->
  contained (big :: small) i = true /\
  matches (mkIpMatcher (sort_unstable (big :: small))) i = Ok false /\
  match_ip (from_ranges (big :: small)) i = Ok false.
Proof.
  intros Hbig Hlen Hsm. split; [cbn; by rewrite Hbig|].
  rewrite match_sorted. cut (match_ip (from_ranges (big :: small)) i = Ok false); [by intros ->|].
  destruct (match_ip_probe (big :: small) i) as (probe & Ha & Hp & Hm). rewrite Hm by done.
  assert (Hw : ip_width (net_addr big) = ip_width i).
  { rewrite net_contains_spec in Hbig. unfold same_network in Hbig. bool_hyps. done. }
  destruct (sort_unstable_head big small) as (l' & -> & Hperm).
  { eapply Forall_impl; [exact Hsm|]. intros n (Hn & Hv & _). apply net_le_base; lia. }
  rewrite <- Hperm in Hlen, Hsm.
  destruct (search_total (big :: l') 4 probe i) as (w & Hwin & ->).
  rewrite partition_point_all in Hwin.
  2: { constructor.
       - destruct l' as [|n l']; [cbn in Hlen; lia|]. apply Forall_inv in Hsm as (Hn & Hv & _).
         apply net_le_base; rewrite Ha; lia.
       - eapply Forall_impl; [exact Hsm|]. intros n (Hn & Hv & _).
         apply net_le_base; rewrite Ha; lia. }
  apply slice_Ok_inv in Hwin as [_ ->]. f_equal. apply not_true_iff_false.
  rewrite existsb_exists. intros (n & Hin & Hn). apply list_elem_of_In in Hin. rewrite elem_of_reverse in Hin.
  apply elem_of_take in Hin as (j & Hj & _). rewrite lookup_drop in Hj. cbn [length] in Hj.
  replace (S (length l') - 4 + j)%nat with (S (length l' - 4 + j)) in Hj by lia. cbn in Hj.
  pose proof (Forall_lookup_1 _ _ _ _ Hsm Hj) as (_ & _ & Hf). congruence.
Qed.

End CidrProperties.

(** [10.0.0.0/8] with four [/24]s. *)
Definition nested_example : list PlainNet :=
  [mkNet (V4 [10; 0; 0; 0]) 8; mkNet (V4 [10; 1; 0; 0]) 24; mkNet (V4 [10; 2; 0; 0]) 24;
   mkNet (V4 [10; 3; 0; 0]) 24; mkNet (V4 [10; 4; 0; 0]) 24].

Lemma cidr_match_complete_witness :
  exists m, IpMatcher_new (N:=PlainNet) [[192; 168; 0; 0; 16]; [10; 0; 0; 0; 8]] = Ok m /\
    matches m (V4 [192; 168; 7; 7]) = Ok true.
Proof.
  destruct (cidr_match_complete (N:=PlainNet) [[192; 168; 0; 0; 16]; [10; 0; 0; 0; 8]]
    [mkNet (V4 [192; 168; 0; 0]) 16; mkNet (V4 [10; 0; 0; 0]) 8] (V4 [192; 168; 7; 7]))
    as (m & Hm & Hr & _).
  - reflexivity.
  - unfold canonical, ip_ok, bytes_ok, in_u8; cbn -[ip_val Z.pow].
    repeat first [lia | reflexivity | (cbn; lia) | split | constructor].
  - repeat constructor; vm_compute; lia.
  - exists m. split; [exact Hm|exact Hr].
Defined.

Lemma cidr_match_misses_enclosing_witness :
  contained nested_example (V4 [10; 5; 0; 1]) = true /\
  matches (mkIpMatcher (sort_unstable nested_example)) (V4 [10; 5; 0; 1]) = Ok false.
Proof.
  destruct (cidr_match_misses_enclosing (mkNet (V4 [10; 0; 0; 0]) 8) (tail nested_example)
    (V4 [10; 5; 0; 1])) as (H1 & H2 & _).
  - reflexivity.
  - cbn. lia.
  - repeat constructor; vm_compute; reflexivity.
  - split; [exact H1|exact H2].
Defined.
