(* ===== verification/DomainMatch.v ===== *)
(** * Domain matching

    Models [DomainMatcher] of [crates/blackwire-app/src/router.rs] and
    [GeoSiteMatcher] of [geo/geosite.rs] with the messages of [geo/proto.rs].

    The [aho-corasick] and [regex] crates enter as the interface [TextMatchers];
    [str::to_lowercase] (the Unicode tables) is one of its operations, with the
    documented ASCII behaviour. *)

From S2P Require Import Prelude Common.

(** ** Interface of the text crates *)

Definition is_ascii_uppercase (b : Z) : bool := (65 <=? b) && (b <=? 90).
Definition ascii_lower (b : Z) : Z := if is_ascii_uppercase b then b + 32 else b.
Definition is_ascii (s : bytes) : Prop := Forall (fun b => 0 <= b < 128) s.

(** [needle] occurs in [s]. *)
Definition substring (needle s : bytes) : Prop := exists p q, s = p ++ needle ++ q.

Class TextMatchers (AC RS : Type) := {
  to_lowercase : bytes -> bytes;
  (** [AhoCorasick::builder().ascii_case_insensitive(true).build(..)] *)
  ac_build : list bytes -> option AC;
  ac_empty : AC;
  ac_is_match : AC -> bytes -> bool;
  rs_new : list bytes -> option RS;
  rs_empty : RS;
  rs_is_match : RS -> bytes -> bool;
  regex_valid : bytes -> bool;
  regex_is_match : bytes -> bytes -> bool
}.

Class TextLaws (AC RS : Type) `{TextMatchers AC RS} := {
  to_lowercase_ascii : forall s, is_ascii s -> to_lowercase s = ascii_lower <$> s;
  ac_is_match_spec : forall ks ac s, ac_build ks = Some ac ->
    ac_is_match ac s = true <->
    exists k, k ∈ ks /\ substring (ascii_lower <$> k) (ascii_lower <$> s);
  rs_new_valid : forall rs set, rs_new rs = Some set -> Forall (fun r => regex_valid r = true) rs;
  rs_is_match_spec : forall rs set s, rs_new rs = Some set ->
    rs_is_match set s = existsb (fun r => regex_is_match r s) rs
}.

(** ** Messages ([geo/proto.rs]) *)

Inductive DomainType := Plain | Regex | DomainSuffix | Full.

#[export] Instance DomainType_eq_dec : EqDecision DomainType.
Proof. solve_decision. Defined.

Record GeoDomain := mkDomain { dom_type : Z; dom_value : bytes }.

Record GeoSite := mkGeoSite { site_code : bytes; site_domain : list GeoDomain }.

(** [DomainType::try_from(i32)] *)
Definition domain_type_of (t : Z) : option DomainType :=
  if t =? 0 then Some Plain else if t =? 1 then Some Regex
  else if t =? 2 then Some DomainSuffix else if t =? 3 then Some Full else None.

(** [.unwrap_or(DomainType::Plain)] *)
Definition entry_type (d : GeoDomain) : DomainType := default Plain (domain_type_of (dom_type d)).

(** ** The matchers *)

Section Matchers.
Context {AC RS : Type} `{TextMatchers AC RS}.

Record DomainMatcher := mkMatcher {
  full : gset bytes;
  suffix : gset bytes;
  keyword : AC;
  regex : RS
}.

Definition DomainMatcher_new (fs ss ks rs : list bytes) : res unit DomainMatcher :=
  kw ← of_option tt (ac_build ks);
  rx ← of_option tt (rs_new rs);
  Ok (mkMatcher (list_to_set (to_lowercase <$> fs)) (list_to_set (to_lowercase <$> ss)) kw rx).

(** [str::find('.')] *)
Fixpoint find_dot (s : bytes) : option nat :=
  match s with
  | [] => None
  | b :: s' => if b =? 46 then Some 0%nat else S <$> find_dot s'
  end.

(** The [while start < lower.len()] walk; [s] is [lower[start..]]. *)
Fixpoint suffix_walk (fuel : nat) (set : gset bytes) (s : bytes) : bool :=
  match fuel with
  | O => false
  | S f =>
      if (0 <? length s)%nat then
        if decide (s ∈ set) then true
        else match find_dot s with
             | Some dot => suffix_walk f set (drop (dot + 1) s)
             | None => false
             end
      else false
  end.

(** Lower-case only when an upper-case ASCII byte is present. *)
Definition lower (d : bytes) : bytes :=
  if existsb is_ascii_uppercase d then to_lowercase d else d.

Definition matches (m : DomainMatcher) (d : bytes) : bool :=
  let l := lower d in
  if decide (l ∈ full m) then true
  else if suffix_walk (length l) (suffix m) l then true
  else if ac_is_match (keyword m) l then true
  else if rs_is_match (regex m) l then true
  else false.

(** The geosite matcher has the same four buckets and the same [match_domain]. *)
Record GeoSiteMatcher := mkGeoSiteMatcher {
  gs_full : gset bytes;
  gs_suffix : gset bytes;
  gs_keyword : AC;
  gs_regex : RS
}.

(** The four accumulators of the [from_proto] loop. *)
Definition Buckets : Type := gset bytes * gset bytes * list bytes * list bytes.

Definition from_proto_step (acc : Buckets) (d : GeoDomain) : Buckets :=
  let '(f, s, k, r) := acc in
  match entry_type d with
  | Full => (f ∪ {[to_lowercase (dom_value d)]}, s, k, r)
  | DomainSuffix => (f, s ∪ {[to_lowercase (dom_value d)]}, k, r)
  | Plain => (f, s, k ++ [to_lowercase (dom_value d)], r)
  | Regex => (f, s, k, r ++ [dom_value d])
  end.

Definition from_proto (entry : GeoSite) : GeoSiteMatcher :=
  let '(f, s, keywords, regex_patterns) := foldl from_proto_step (∅, ∅, [], []) (site_domain entry) in
  let kw := default ac_empty (ac_build keywords) in
  let rx :=
    match rs_new regex_patterns with
    | Some rs => rs
    | None => default rs_empty (rs_new (filter (fun p => regex_valid p = true) regex_patterns))
    end in
  mkGeoSiteMatcher f s kw rx.

Definition from_parts (fs ss ks rs : list bytes) : res unit GeoSiteMatcher :=
  kw ← of_option tt (ac_build ks);
  rx ← of_option tt (rs_new rs);
  Ok (mkGeoSiteMatcher (list_to_set (to_lowercase <$> fs)) (list_to_set (to_lowercase <$> ss)) kw rx).

Definition match_domain (m : GeoSiteMatcher) (d : bytes) : bool :=
  let l := lower d in
  if decide (l ∈ gs_full m) then true
  else if suffix_walk (length l) (gs_suffix m) l then true
  else if ac_is_match (gs_keyword m) l then true
  else if rs_is_match (gs_regex m) l then true
  else false.

End Matchers.
Arguments DomainMatcher : clear implicits.
Arguments GeoSiteMatcher : clear implicits.

(** ** Specification *)

(** [d] is [s] or a subdomain of [s]. *)
Definition is_subdomain (s d : bytes) : Prop :=
  s <> [] /\ (d = s \/ exists p, d = p ++ 46 :: s).

Abbreviation low s := (fmap (M:=list) ascii_lower s).

Section Facts.
Context {AC RS : Type} `{HT : TextLaws AC RS}.

Lemma find_dot_some s n :
  find_dot s = Some n -> exists p q, s = p ++ 46 :: q /\ length p = n /\ 46 ∉ p.
Proof.
  revert n. induction s as [|b s IH]; intros n; [done|]. cbn. case_match.
  - intros [= <-]. bool_hyps. subst. exists [], s. split; [done|]. set_solver.
  - bool_hyps. destruct (find_dot s) as [k|]; [|done]. intros [= <-].
    destruct (IH k eq_refl) as (p & q & -> & Hl & Hp). exists (b :: p), q.
    split; [done|]. split; [cbn; lia|]. set_solver.
Qed.

Lemma find_dot_none s : find_dot s = None -> 46 ∉ s.
Proof.
  induction s as [|b s IH]; [set_solver|]. cbn. case_match; [done|]. bool_hyps.
  destruct (find_dot s); [done|]. intros _. specialize (IH eq_refl). set_solver.
Qed.

(** Splitting at the first dot. *)
Lemma first_dot (p q p' s : bytes) :
  46 ∉ p -> p ++ 46 :: q = p' ++ 46 :: s -> q = s \/ exists r, q = r ++ 46 :: s.
Proof.
  intros Hp. revert p' Hp. induction p as [|b p IH]; intros [|b' p'] Hp He; cbn in He.
  - injection He as ->. by left.
  - injection He as _ ->. right. eauto.
  - exfalso. injection He as -> _. set_solver.
  - injection He as _ He. apply (IH p'); [set_solver|done].
Qed.

Lemma is_subdomain_nil s : ~ is_subdomain s [].
Proof. intros [Hne [<-|[p Hp]]]; [done|by destruct p]. Qed.

Lemma suffix_walk_spec (fuel : nat) (set : gset bytes) (d : bytes) :
  (length d <= fuel)%nat ->
  suffix_walk fuel set d = true <-> exists s, s ∈ set /\ is_subdomain s d.
Proof.
  revert d. induction fuel as [|f IH]; intros d Hl.
  { destruct d; [|cbn in Hl; lia]. split; [done|].
    by intros (s & _ & []%is_subdomain_nil). }
  cbn [suffix_walk]. destruct (Nat.ltb_spec 0 (length d)) as [Hpos|Hz].
  2: { destruct d; [|cbn in Hz; lia]. split; [done|].
       by intros (s & _ & []%is_subdomain_nil). }
  case_decide as Hin.
  { split; [intros _|done]. exists d. split; [done|]. split; [intros ->; cbn in Hpos; lia|by left]. }
  destruct (find_dot d) as [n|] eqn:Hd.
  - apply find_dot_some in Hd as (p & q & -> & <- & Hp).
    replace (drop (length p + 1) (p ++ 46 :: q)) with q.
    2: { rewrite drop_app_ge, Nat.add_comm, Nat.add_sub by lia. done. }
    rewrite IH by (rewrite length_app in Hl; cbn in Hl; lia).
    split; intros (s & Hs & Hne & Hsub); exists s; split; [done| |done|]; split; [done| |done|].
    + destruct Hsub as [->|[r ->]]; right; [by exists p|].
      exists (p ++ 46 :: r). by rewrite <- app_assoc.
    + destruct Hsub as [<-|[p' He]]; [done|]. destruct (first_dot _ _ _ _ Hp He) as [->|Hr]; auto.
  - apply find_dot_none in Hd. split; [done|].
    intros (s & Hs & Hne & [->|[p ->]]); [done|]. set_solver.
Qed.

Lemma lower_ascii d : is_ascii d -> lower d = low d.
Proof.
  intros Hd. unfold lower. destruct (existsb is_ascii_uppercase d) eqn:E.
  { by apply to_lowercase_ascii. }
  clear Hd. induction d as [|b d IH]; [done|]. cbn in *. apply orb_false_iff in E as [Eb E].
  unfold ascii_lower at 1. rewrite Eb. f_equal. by apply IH.
Qed.

Lemma ascii_lower_idem b : ascii_lower (ascii_lower b) = ascii_lower b.
Proof.
  unfold ascii_lower. destruct (is_ascii_uppercase b) eqn:E; [|by rewrite E].
  destruct (is_ascii_uppercase (b + 32)) eqn:E2; [|done]. unfold is_ascii_uppercase in *. bool_hyps. lia.
Qed.

Lemma low_low s : low (low s) = low s.
Proof. rewrite <- list_fmap_compose. apply list_fmap_ext. intros _ b _. apply ascii_lower_idem. Qed.

Lemma elem_of_lowercased (vs : list bytes) (l : bytes) :
  Forall is_ascii vs ->
  l ∈ (list_to_set (to_lowercase <$> vs) : gset bytes) <-> exists v, v ∈ vs /\ low v = l.
Proof.
  intros Hv. rewrite elem_of_list_to_set, list_elem_of_fmap. rewrite Forall_forall in Hv.
  split; intros (v & H1 & H2); exists v.
  - split; [done|]. rewrite H1. symmetry. by apply to_lowercase_ascii, Hv.
  - split; [|done]. rewrite <- H2. symmetry. by apply to_lowercase_ascii, Hv.
Qed.

(** What the four checks of [matches] and of [match_domain] decide. *)
Lemma four_checks_spec (fs ss : list bytes) ks rs kw rx (d : bytes) :
  Forall is_ascii fs -> Forall is_ascii ss -> is_ascii d ->
  ac_build ks = Some kw -> rs_new rs = Some rx ->
  match_domain (mkGeoSiteMatcher (list_to_set (to_lowercase <$> fs))
    (list_to_set (to_lowercase <$> ss)) kw rx) d = true <->
  (exists f, f ∈ fs /\ low f = low d) \/
  (exists s, s ∈ ss /\ is_subdomain (low s) (low d)) \/
  (exists k, k ∈ ks /\ substring (low k) (low d)) \/
  (exists r, r ∈ rs /\ regex_is_match r (low d) = true).
Proof.
  intros Hf Hs Hd Hk Hr. unfold match_domain. cbn [gs_full gs_suffix gs_keyword gs_regex].
  rewrite lower_ascii by done.
  assert (Hw : suffix_walk (length (low d)) (list_to_set (to_lowercase <$> ss)) (low d) = true <->
    exists s, s ∈ ss /\ is_subdomain (low s) (low d)).
  { rewrite suffix_walk_spec by done. setoid_rewrite elem_of_lowercased; [|done]. naive_solver. }
  pose proof (ac_is_match_spec ks kw (low d) Hk) as Ha. rewrite low_low in Ha.
  pose proof (rs_is_match_spec rs rx (low d) Hr) as Hx.
  assert (Hx' : rs_is_match rx (low d) = true <->
    exists r, r ∈ rs /\ regex_is_match r (low d) = true).
  { rewrite Hx, existsb_exists. by setoid_rewrite list_elem_of_In. }
  rewrite <- Hw, <- Ha, <- Hx'. case_decide as Hin; rewrite elem_of_lowercased in Hin by done.
  { naive_solver. }
  repeat case_match; naive_solver.
Qed.

(** ** Building from the protobuf message *)

Definition values (t : DomainType) (l : list GeoDomain) : list bytes :=
  dom_value <$> filter (fun e => entry_type e = t) l.

Lemma from_proto_fold l f s k r :
  foldl from_proto_step (f, s, k, r) l =
  (f ∪ list_to_set (to_lowercase <$> values Full l),
   s ∪ list_to_set (to_lowercase <$> values DomainSuffix l),
   k ++ (to_lowercase <$> values Plain l), r ++ values Regex l).
Proof.
  revert f s k r. induction l as [|e l IH]; intros f s k r; cbn [foldl].
  - unfold values. cbn. by rewrite !union_empty_r_L, !app_nil_r.
  - unfold from_proto_step at 2. unfold values in *. rewrite !filter_cons.
    destruct (entry_type e); rewrite IH; repeat (case_decide; [|done]); repeat case_decide;
      try done; cbn; by rewrite ?union_assoc_L, <- ?app_assoc.
Qed.

Lemma elem_of_values t (l : list GeoDomain) v :
  v ∈ values t l <-> exists e, e ∈ l /\ entry_type e = t /\ dom_value e = v.
Proof.
  unfold values. rewrite list_elem_of_fmap. setoid_rewrite list_elem_of_filter. naive_solver.
Qed.

(** What one entry of a geosite list means. *)
Definition entry_matches (e : GeoDomain) (d : bytes) : Prop :=
  match entry_type e with
  | Full => low (dom_value e) = low d
  | DomainSuffix => is_subdomain (low (dom_value e)) (low d)
  | Plain => substring (low (dom_value e)) (low d)
  | Regex => regex_valid (dom_value e) = true /\ regex_is_match (dom_value e) (low d) = true
  end.

(** The regex set in use is that of the valid patterns. *)
Lemma from_proto_regex (ps : list bytes) rx :
  rs_new (filter (fun p => regex_valid p = true) ps) = Some rx ->
  exists rx', rs_new (filter (fun p => regex_valid p = true) ps) = Some rx' /\
  match rs_new ps with
  | Some rs => rs
  | None => default rs_empty (rs_new (filter (fun p => regex_valid p = true) ps))
  end = rx'.
Proof.
  intros Hrx. destruct (rs_new ps) as [rs|] eqn:E; [|by rewrite Hrx; eauto].
  exists rs. split; [|done]. rewrite <- E. f_equal.
  pose proof (rs_new_valid _ _ E) as Hv. clear E Hrx.
  induction Hv as [|p ps Hp _ IH]; [done|]. by rewrite filter_cons_True, IH.
Qed.


End Facts.

(** ** Properties *)

Section Properties.
Context {AC RS : Type} `{HT : TextLaws AC RS}.

(** The rule matcher and the geosite matcher built from the same four lists
    decide, for an ASCII domain, exactly: equal to a full pattern, equal to or a
    subdomain of a suffix pattern (at a label boundary), containing a keyword,
    all three up to ASCII case, or matched by one of the regexes.  The lazy
    lower-casing and the allocation-free label walk do not change the answer. *)
Theorem domain_match_spec (fs ss ks rs : list bytes) (m : DomainMatcher AC RS) (d : bytes) :
  DomainMatcher_new fs ss ks rs = Ok m ->
  Forall is_ascii fs -> Forall is_ascii ss -> is_ascii d ->
  (matches m d = true <->
    (exists f, f ∈ fs /\ low f = low d) \/
    (exists s, s ∈ ss /\ is_subdomain (low s) (low d)) \/
    (exists k, k ∈ ks /\ substring (low k) (low d)) \/
    (exists r, r ∈ rs /\ regex_is_match r (low d) = true)) /\
  exists g, from_parts fs ss ks rs = Ok g /\ match_domain g d = matches m d.
Proof.
  unfold DomainMatcher_new, from_parts. intros Hm Hf Hs Hd.
  destruct (ac_build ks) as [kw|] eqn:Hk; [|done]. mred in Hm. cbn [of_option] in *. mred.
  mred in Hm. destruct (rs_new rs) as [rx|] eqn:Hr; [|done]. cbn [of_option] in *.
  mred in Hm. mred. apply Ok_inj in Hm as <-.
  split; [|by eexists]. rewrite <- (four_checks_spec fs ss ks rs kw rx d) by done. done.
Qed.

(** A geosite list read from the protobuf file matches an ASCII domain
    exactly when one of its entries does, each by its own type (unknown types as
    keywords); invalid regexes are left out and do not disturb the others. *)
Theorem geosite_from_proto_spec (entry : GeoSite) (d : bytes) kw rx :
  Forall (fun e => is_ascii (dom_value e)) (site_domain entry) -> is_ascii d ->
  ac_build (to_lowercase <$> values Plain (site_domain entry)) = Some kw ->
  rs_new (filter (fun p => regex_valid p = true) (values Regex (site_domain entry))) = Some rx ->
  match_domain (from_proto entry) d = true <->
  exists e, e ∈ site_domain entry /\ entry_matches e d.
Proof.
  intros Ha Hd Hk Hr. unfold from_proto. rewrite from_proto_fold.
  rewrite !union_empty_l_L. cbn [app]. cbv zeta. rewrite Hk. cbn [default].
  destruct (from_proto_regex _ _ Hr) as (rx' & Hr' & ->).
  assert (Hv : forall t, Forall is_ascii (values t (site_domain entry))).
  { intros t. apply Forall_forall. intros v Hv. apply elem_of_values in Hv.
    destruct Hv as (e & He & _ & <-). rewrite Forall_forall in Ha.
    by apply Ha. }
  rewrite (four_checks_spec _ _ _ _ _ _ _ (Hv Full) (Hv DomainSuffix) Hd Hk Hr').
  setoid_rewrite list_elem_of_filter. setoid_rewrite elem_of_values.
  setoid_rewrite list_elem_of_fmap. setoid_rewrite elem_of_values.
  assert (Hlow : forall v, v ∈ values Plain (site_domain entry) ->
    low (to_lowercase v) = low v).
  { intros v Hin. rewrite to_lowercase_ascii, low_low; [done|].
    specialize (Hv Plain). rewrite Forall_forall in Hv. by apply Hv. }
  setoid_rewrite elem_of_values in Hlow.
  unfold entry_matches. split.
  - intros [(f & (e & ? & Ht & <-) & ?)|[(s & (e & ? & Ht & <-) & ?)|
      [(k & (v & -> & e & ? & Ht & <-) & Hsub)|(r & (? & e & ? & Ht & <-) & ?)]]];
      exists e; (split; [done|]); rewrite Ht; try done.
    rewrite Hlow in Hsub by eauto. done.
  - intros (e & He & Hm). destruct (entry_type e) eqn:Ht.
    + right; right; left. exists (to_lowercase (dom_value e)). split; [eauto 10|].
      by rewrite Hlow by eauto.
    + right; right; right. exists (dom_value e). naive_solver.
    + right; left. exists (dom_value e). naive_solver.
    + left. exists (dom_value e). naive_solver.
Qed.

End Properties.

(** ** An instance of the interface, for evaluation

    ASCII lower-casing; an automaton is its keyword list; a regex is a literal
    and matches the text equal to it. *)

Definition is_prefix (k s : bytes) : bool := bool_decide (take (length k) s = k).

Fixpoint occurs (k s : bytes) : bool :=
  is_prefix k s || match s with [] => false | _ :: s' => occurs k s' end.

#[export] Instance PlainText : TextMatchers (list bytes) (list bytes) := {|
  to_lowercase s := ascii_lower <$> s;
  ac_build ks := Some ks;
  ac_empty := [];
  ac_is_match ks s := existsb (fun k => occurs (ascii_lower <$> k) (ascii_lower <$> s)) ks;
  rs_new rs := Some rs;
  rs_empty := [];
  rs_is_match rs s := existsb (fun r => bool_decide (r = s)) rs;
  regex_valid _ := true;
  regex_is_match r s := bool_decide (r = s)
|}.

Lemma occurs_spec k s : occurs k s = true <-> substring k s.
Proof.
  unfold substring. induction s as [|b s IH]; cbn [occurs]; rewrite orb_true_iff.
  - unfold is_prefix. rewrite bool_decide_eq_true, take_nil. split.
    + intros [<-|]; [by exists [], []|done].
    + intros (p & q & Hpq). left. destruct p, k; done.
  - unfold is_prefix. rewrite bool_decide_eq_true, IH. split.
    + intros [Hp|(p & q & ->)]; [|by exists (b :: p), q].
      exists [], (drop (length k) (b :: s)). cbn [app]. by rewrite <- Hp at 1; rewrite take_drop.
    + intros ([|b' p] & q & He); cbn [app] in He.
      * left. by rewrite He, take_app_length.
      * right. injection He as -> ->. eauto.
Qed.

#[export] Instance PlainText_laws : TextLaws (list bytes) (list bytes).
Proof.
  split; cbn.
  - done.
  - intros ks ac s [= <-]. rewrite existsb_exists. setoid_rewrite list_elem_of_In.
    by setoid_rewrite occurs_spec.
  - intros rs set _. apply Forall_forall. done.
  - intros rs set s [= <-]. done.
Qed.

Lemma domain_match_spec_witness :
  exists m : DomainMatcher (list bytes) (list bytes),
    DomainMatcher_new [] [str "Example.com"] [] [] = Ok m /\ matches m (str "a.EXAMPLE.com") = true.
Proof.
  eexists. split; [reflexivity|].
  apply (domain_match_spec [] [str "Example.com"] [] []).
  - reflexivity.
  - constructor.
  - repeat constructor; vm_compute; congruence.
  - repeat constructor; vm_compute; congruence.
  - right. left. exists (str "Example.com"). split; [constructor|].
    split; [done|]. right. exists (str "a"). reflexivity.
Defined.

Lemma geosite_from_proto_spec_witness :
  match_domain (AC:=list bytes) (RS:=list bytes)
    (from_proto (mkGeoSite (str "CN") [mkDomain 2 (str "cn"); mkDomain 0 (str "baidu")]))
    (str "www.example.cn") = true.
Proof.
  eapply (geosite_from_proto_spec (mkGeoSite (str "CN")
    [mkDomain 2 (str "cn"); mkDomain 0 (str "baidu")]) (str "www.example.cn")).
  - repeat constructor; vm_compute; congruence.
  - repeat constructor; vm_compute; congruence.
  - reflexivity.
  - reflexivity.
  - exists (mkDomain 2 (str "cn")). split; [constructor|].
    split; [done|]. right. exists (str "www.example"). reflexivity.
Defined.
