(* ===== verification/Router.v ===== *)
(** * The routing engine

    Models [crates/blackwire-app/src/router.rs] (rules, [LiveRouter] with its
    route cache, [domainStrategy] names) and [pick_route_xray] of
    [dispatcher.rs], which is written against the [Router] trait.

    [DefaultHasher]'s algorithm is unspecified: the hashes of the cache key are
    parameters ([RouteHash]).  Instants and durations are in nanoseconds. *)

From S2P Require Import Prelude Common Cidr DomainMatch.

(** ** Data *)

Record Route := mkRoute { outbound_tag : bytes }.

Record RoutingContext := mkCtx {
  ctx_dest : Address;
  ctx_network : Network;
  ctx_inbound_tag : bytes;
  ctx_user : option bytes;
  ctx_sniffed_protocol : option bytes;
  ctx_sniffed_domain : option bytes
}.

Record RouteCacheKey := mkKey {
  dest_hash : Z;
  key_port : Z;
  key_network : Network;
  inbound_tag_hash : Z;
  user_hash : Z;
  sniffed_protocol_hash : Z;
  sniffed_domain_hash : Z
}.

#[export] Instance RouteCacheKey_eq_dec : EqDecision RouteCacheKey.
Proof. solve_decision. Defined.
#[export] Instance Network_countable : Countable Network.
Proof.
  refine (inj_countable' (fun n => match n with Tcp => true | Udp => false end)
            (fun b : bool => if b then Tcp else Udp) _).
  by intros [].
Defined.
#[export] Instance RouteCacheKey_countable : Countable RouteCacheKey.
Proof.
  refine (inj_countable'
    (fun k => (dest_hash k, key_port k, key_network k, inbound_tag_hash k, user_hash k,
               sniffed_protocol_hash k, sniffed_domain_hash k))
    (fun '(a, b, c, d, e, f, g) => mkKey a b c d e f g) _).
  by intros [].
Defined.

Record RouteCacheEntry := mkEntry {
  entry_route : Route;
  entry_matched : bool;
  expires_at : Z;
  entry_generation : Z
}.

Definition ROUTE_CACHE_TTL : Z := 30 * 10 ^ 9.
Definition ROUTE_CACHE_HEALTH_TTL : Z := 250 * 10 ^ 6.

Inductive RoutingDomainStrategy := AsIs | IpIfNonMatch | IpOnDemand.

#[export] Instance RoutingDomainStrategy_eq_dec : EqDecision RoutingDomainStrategy.
Proof. solve_decision. Defined.

(** The three [stable_hash] instances. *)
Class RouteHash := {
  hash_address : Address -> Z;
  hash_str : bytes -> Z;
  hash_opt_str : option bytes -> Z
}.

(** [Router] trait: the state type and its operations; [pick_route_match] may
    update the router (its cache) and reads the clock twice. *)
Class RouterOps (R : Type) := {
  pick_route_match : R -> RoutingContext -> Z -> Z -> R * res unit (Route * bool);
  has_ip_rules : R -> bool;
  domain_strategy : R -> option bytes
}.

(** Trait default method. *)
Definition pick_route {R} `{RouterOps R} (r : R) (ctx : RoutingContext) (now now' : Z)
    : R * res unit Route :=
  let '(r', d) := pick_route_match r ctx now now' in (r', fst <$> d).

(** [Iterator::any] with a predicate that may panic. *)
Fixpoint any {A} (f : A -> res unit bool) (l : list A) : res unit bool :=
  match l with
  | [] => Ok false
  | x :: l' => b ← f x; if b : bool then Ok true else any f l'
  end.

(** ** [str] helpers *)

(** The UTF-8 encodings of the [White_Space] characters. *)
Definition whitespace : list bytes :=
  ((fun b => [b]) <$> [9; 10; 11; 12; 13; 32]) ++
  [[194; 133]; [194; 160]; [225; 154; 128]] ++
  ((fun b => [226; 128; b]) <$> seqZ 128 11) ++
  [[226; 128; 168]; [226; 128; 169]; [226; 128; 175]; [226; 129; 159]; [227; 128; 128]].

Fixpoint trim_start (fuel : nat) (ws : list bytes) (s : bytes) : bytes :=
  match fuel with
  | O => s
  | S f =>
      match list_find (fun w => is_prefix w s = true) ws with
      | Some (_, w) => trim_start f ws (drop (length w) s)
      | None => s
      end
  end.

Definition trim (s : bytes) : bytes :=
  let s := trim_start (length s) whitespace s in
  reverse (trim_start (length s) (reverse <$> whitespace) (reverse s)).

Definition normalize_routing_domain_strategy (strategy : option bytes) : RoutingDomainStrategy :=
  match (fun s => ascii_lower <$> trim s) <$> strategy with
  | Some s =>
      if decide (s = str "ipifnonmatch") then IpIfNonMatch
      else if decide (s = str "ipondemand") then IpOnDemand
      else AsIs
  | None => AsIs
  end.

Definition route_cache_ttl (r : Route) : Z :=
  let tag := outbound_tag r in
  if is_prefix (str "auto-") tag || occurs (str "balancer") tag
  then ROUTE_CACHE_HEALTH_TTL else ROUTE_CACHE_TTL.

(** ** Rules and the live router *)

Section Router.
Context {N AC RS : Type} `{IpNet N} `{TextMatchers AC RS} `{RouteHash}.

Record CompiledRule := mkRule {
  rule_outbound_tag : bytes;
  domain_matcher : option (DomainMatcher AC RS);
  geosite_codes : list bytes;
  ip_matcher : option (IpMatcher N);
  geoip_codes : list bytes;
  port_ranges : list (Z * Z);
  inbound_tags : list bytes;
  protocols : list bytes;
  users : list bytes
}.

Abbreviation geoip_db := (gmap bytes (GeoIpMatcher N)).
Abbreviation geosite_db := (gmap bytes (GeoSiteMatcher AC RS)).

Definition nonempty {A} (l : list A) : bool := negb (length l =? 0)%nat.
Definition mem (x : bytes) (l : list bytes) : bool := existsb (fun y => bool_decide (y = x)) l.

Definition matches_with_geo (r : CompiledRule) (ctx : RoutingContext)
    (geoip : geoip_db) (geosite : geosite_db) : res unit bool :=
  if nonempty (inbound_tags r) && negb (mem (ctx_inbound_tag ctx) (inbound_tags r)) then Ok false else
  if nonempty (protocols r) &&
     match ctx_sniffed_protocol ctx with
     | None => true
     | Some proto => negb (mem proto (protocols r))
     end then Ok false else
  if nonempty (users r) &&
     match ctx_user ctx with
     | None => true
     | Some user => negb (mem user (users r))
     end then Ok false else
  if nonempty (port_ranges r) &&
     negb (existsb (fun '(lo, hi) => (lo <=? port (ctx_dest ctx)) && (port (ctx_dest ctx) <=? hi))
             (port_ranges r)) then Ok false else
  let has_domain_restriction := bool_decide (is_Some (domain_matcher r)) || nonempty (geosite_codes r) in
  let domain_fails :=
    has_domain_restriction &&
    let domain_name :=
      match ctx_dest ctx with
      | Domain name _ => Some name
      | _ => ctx_sniffed_domain ctx
      end in
    match domain_name with
    | None => true
    | Some name =>
        let literal_ok :=
          match domain_matcher r with Some dm => DomainMatch.matches dm name | None => false end in
        let geosite_ok :=
          existsb (fun code => match geosite !! code with
                               | Some m => match_domain m name
                               | None => false
                               end) (geosite_codes r) in
        negb (literal_ok || geosite_ok)
    end in
  if domain_fails then Ok false else
  let has_ip_restriction := bool_decide (is_Some (ip_matcher r)) || nonempty (geoip_codes r) in
  if has_ip_restriction then
    match ip (ctx_dest ctx) with
    | Some i =>
        literal_ok ← match ip_matcher r with Some im => Cidr.matches im i | None => Ok false end;
        geoip_ok ← any (fun code => match geoip !! code with
                                    | Some m => match_ip m i
                                    | None => Ok false
                                    end) (geoip_codes r);
        Ok (literal_ok || geoip_ok)
    | None => Ok false
    end
  else Ok true.

Definition rule_matches (r : CompiledRule) (ctx : RoutingContext) : res unit bool :=
  matches_with_geo r ctx ∅ ∅.

Record RouterInner := mkInner {
  rules : list CompiledRule;
  default_tag : bytes;
  geoip : geoip_db;
  geosite : geosite_db;
  inner_domain_strategy : option bytes;
  inner_has_ip_rules : bool
}.

Record LiveRouter := mkRouter {
  inner : RouterInner;
  cache : gmap RouteCacheKey RouteCacheEntry;
  generation : Z
}.

Definition rules_have_ip (rs : list CompiledRule) : bool :=
  existsb (fun r => bool_decide (is_Some (ip_matcher r)) || nonempty (geoip_codes r)) rs.

Definition build_inner (rs : list CompiledRule) (tag : bytes) (gi : geoip_db) (gs : geosite_db)
    (ds : option bytes) : RouterInner :=
  mkInner rs tag gi gs ds (rules_have_ip rs).

Definition LiveRouter_new (rs : list CompiledRule) (tag : bytes) (gi : geoip_db) (gs : geosite_db)
    (ds : option bytes) : LiveRouter :=
  mkRouter (build_inner rs tag gi gs ds) ∅ 0.

(** The gauges that [new] and [swap] publish. *)
Definition record_compiled_rule_metrics (rs : list CompiledRule) : list (bytes * nat) :=
  let count f := length (List.filter f rs) in
  [(str "total", length rs);
   (str "domain", count (fun r => bool_decide (is_Some (domain_matcher r)) || nonempty (geosite_codes r)));
   (str "cidr", count (fun r => bool_decide (is_Some (ip_matcher r)) || nonempty (geoip_codes r)));
   (str "port", count (fun r => nonempty (port_ranges r)));
   (str "inbound_tag", count (fun r => nonempty (inbound_tags r)));
   (str "protocol", count (fun r => nonempty (protocols r)));
   (str "user", count (fun r => nonempty (users r)))].

(** The three effects of [swap], in program order. *)
Definition bump_generation (r : LiveRouter) : LiveRouter :=
  mkRouter (inner r) (cache r) (as_u64 (generation r + 1)).
Definition clear_cache (r : LiveRouter) : LiveRouter :=
  mkRouter (inner r) ∅ (generation r).
Definition store_inner (i : RouterInner) (r : LiveRouter) : LiveRouter :=
  mkRouter i (cache r) (generation r).

Definition swap (r : LiveRouter) (rs : list CompiledRule) (tag : bytes) (gi : geoip_db)
    (gs : geosite_db) (ds : option bytes) : LiveRouter :=
  store_inner (build_inner rs tag gi gs ds) (clear_cache (bump_generation r)).

Fixpoint first_match (rs : list CompiledRule) (i : RouterInner) (ctx : RoutingContext)
    : res unit (Route * bool) :=
  match rs with
  | [] => Ok (mkRoute (default_tag i), false)
  | r :: rs' =>
      b ← matches_with_geo r ctx (geoip i) (geosite i);
      if b : bool then Ok (mkRoute (rule_outbound_tag r), true) else first_match rs' i ctx
  end.

Definition pick_route_match_uncached (i : RouterInner) (ctx : RoutingContext)
    : res unit (Route * bool) :=
  first_match (rules i) i ctx.

Definition from_context (ctx : RoutingContext) : RouteCacheKey :=
  mkKey (hash_address (ctx_dest ctx)) (port (ctx_dest ctx)) (ctx_network ctx)
    (hash_str (ctx_inbound_tag ctx)) (hash_opt_str (ctx_user ctx))
    (hash_opt_str (ctx_sniffed_protocol ctx)) (hash_opt_str (ctx_sniffed_domain ctx)).

(** The cached decision, when the entry is of this generation and still valid. *)
Definition cache_lookup (r : LiveRouter) (key : RouteCacheKey) (gen now : Z) : option (Route * bool) :=
  match cache r !! key with
  | Some e =>
      if (entry_generation e =? gen) && (now <? expires_at e)
      then Some (entry_route e, entry_matched e) else None
  | None => None
  end.

Definition cache_insert (r : LiveRouter) (key : RouteCacheKey) (d : Route * bool) (gen now' : Z)
    : LiveRouter :=
  mkRouter (inner r)
    (<[key := mkEntry d.1 d.2 (now' + route_cache_ttl d.1) gen]> (cache r)) (generation r).

Definition live_pick_route_match (r : LiveRouter) (ctx : RoutingContext) (now now' : Z)
    : LiveRouter * res unit (Route * bool) :=
  let key := from_context ctx in
  let gen := generation r in
  match cache_lookup r key gen now with
  | Some d => (r, Ok d)
  | None =>
      match pick_route_match_uncached (inner r) ctx with
      | Ok d => (cache_insert r key d gen now', Ok d)
      | Err e => (r, Err e)
      | Panic => (r, Panic)
      end
  end.

#[global] Instance LiveRouter_ops : RouterOps LiveRouter := {|
  pick_route_match := live_pick_route_match;
  has_ip_rules r := inner_has_ip_rules (inner r);
  domain_strategy r := inner_domain_strategy (inner r)
|}.

End Router.
Arguments CompiledRule : clear implicits.
Arguments RouterInner : clear implicits.
Arguments LiveRouter : clear implicits.

(** ** Facts about rules *)

Section RuleFacts.
Context {N AC RS : Type} `{IpNet N} `{TextMatchers AC RS} `{RouteHash}.
Implicit Types (r : CompiledRule N AC RS) (ctx : RoutingContext).

Lemma search_no_panic (rs : list N) scan probe i : exists b, search rs scan probe i = Ok b.
Proof.
  unfold search. pose proof (partition_point_le (fun net => net_leb net probe) rs).
  rewrite slice_ok by lia. mred. eauto.
Qed.

Lemma ip_matches_total (m : IpMatcher N) i : exists b, Cidr.matches m i = Ok b.
Proof. unfold Cidr.matches. repeat case_match; eauto using search_no_panic. Qed.

Lemma match_ip_total (m : GeoIpMatcher N) i : exists b, match_ip m i = Ok b.
Proof. unfold match_ip. repeat case_match; eauto using search_no_panic. Qed.

Lemma any_total {A} (f : A -> res unit bool) (l : list A) :
  (forall x, exists b, f x = Ok b) ->
  exists b, any f l = Ok b /\ (b = true <-> exists x, x ∈ l /\ f x = Ok true).
Proof.
  intros Hf. induction l as [|x l (b & IH & Hb)]; cbn.
  - exists false. split; [done|]. set_solver.
  - destruct (Hf x) as [[] Hx]; rewrite Hx; mred.
    + exists true. split; [done|]. split; [|done]. intros _. exists x. split; [constructor|done].
    + exists b. split; [done|]. rewrite Hb. split.
      * intros (y & ? & ?). exists y. split; [by constructor|done].
      * intros (y & Hy & ?). exists y. split; [|done].
        apply elem_of_cons in Hy as [->|]; [congruence|done].
Qed.

Lemma mem_spec x (l : list bytes) : mem x l = true <-> x ∈ l.
Proof.
  unfold mem. rewrite existsb_exists. setoid_rewrite list_elem_of_In.
  setoid_rewrite bool_decide_eq_true. naive_solver.
Qed.

Lemma nonempty_spec {A} (l : list A) : nonempty l = true <-> l <> [].
Proof. destruct l; cbn; naive_solver. Qed.

(** What a rule asks of a connection. *)
Definition opt_restriction (l : list bytes) (o : option bytes) : Prop :=
  l = [] \/ exists x, o = Some x /\ x ∈ l.

Definition domain_restriction r ctx (gs : gmap bytes (GeoSiteMatcher AC RS)) : Prop :=
  domain_matcher r = None /\ geosite_codes r = [] \/
  exists name,
    match ctx_dest ctx with Domain d _ => Some d | _ => ctx_sniffed_domain ctx end = Some name /\
    ((exists dm, domain_matcher r = Some dm /\ DomainMatch.matches dm name = true) \/
     (exists c m, c ∈ geosite_codes r /\ gs !! c = Some m /\ match_domain m name = true)).

Definition ip_restriction r ctx (gi : gmap bytes (GeoIpMatcher N)) : Prop :=
  ip_matcher r = None /\ geoip_codes r = [] \/
  exists i, ip (ctx_dest ctx) = Some i /\
    ((exists im, ip_matcher r = Some im /\ Cidr.matches im i = Ok true) \/
     (exists c m, c ∈ geoip_codes r /\ gi !! c = Some m /\ match_ip m i = Ok true)).

Definition rule_applies r ctx (gi : gmap bytes (GeoIpMatcher N)) (gs : gmap bytes (GeoSiteMatcher AC RS)) : Prop :=
  (inbound_tags r = [] \/ ctx_inbound_tag ctx ∈ inbound_tags r) /\
  opt_restriction (protocols r) (ctx_sniffed_protocol ctx) /\
  opt_restriction (users r) (ctx_user ctx) /\
  (port_ranges r = [] \/
   exists lo hi, (lo, hi) ∈ port_ranges r /\ lo <= port (ctx_dest ctx) <= hi) /\
  domain_restriction r ctx gs /\ ip_restriction r ctx gi.

Lemma guard_opt (l : list bytes) (o : option bytes) :
  nonempty l && match o with None => true | Some x => negb (mem x l) end = false <->
  opt_restriction l o.
Proof.
  unfold opt_restriction. rewrite andb_false_iff. destruct (nonempty l) eqn:E.
  - apply nonempty_spec in E. destruct o as [x|]; [|naive_solver].
    rewrite negb_false_iff, mem_spec. naive_solver.
  - destruct l; [|done]. naive_solver.
Qed.

Lemma guard_tag (l : list bytes) x :
  nonempty l && negb (mem x l) = false <-> l = [] \/ x ∈ l.
Proof.
  rewrite andb_false_iff, negb_false_iff, mem_spec. destruct l; cbn; naive_solver.
Qed.

Lemma guard_ports (l : list (Z * Z)) p :
  nonempty l && negb (existsb (fun '(lo, hi) => (lo <=? p) && (p <=? hi)) l) = false <->
  l = [] \/ exists lo hi, (lo, hi) ∈ l /\ lo <= p <= hi.
Proof.
  rewrite andb_false_iff, negb_false_iff, existsb_exists. setoid_rewrite <- list_elem_of_In.
  split.
  - intros [Hl|([lo hi] & Hin & Hb)]; [left; by destruct l|right]. bool_hyps. eauto.
  - intros [->|(lo & hi & Hin & Hb)]; [by left|right]. exists (lo, hi). split; [done|].
    rewrite andb_true_iff, !Z.leb_le. lia.
Qed.

Lemma has_matcher {A B} (o : option A) (l : list B) :
  bool_decide (is_Some o) || nonempty l = false <-> o = None /\ l = [].
Proof.
  rewrite orb_false_iff, bool_decide_eq_false, <- eq_None_not_Some. destruct l; cbn; naive_solver.
Qed.

Lemma guard_domain r ctx (gs : gmap bytes (GeoSiteMatcher AC RS)) :
  (bool_decide (is_Some (domain_matcher r)) || nonempty (geosite_codes r)) &&
  match match ctx_dest ctx with Domain name _ => Some name | _ => ctx_sniffed_domain ctx end with
  | None => true
  | Some name =>
      negb (match domain_matcher r with Some dm => DomainMatch.matches dm name | None => false end ||
            existsb (fun code => match gs !! code with
                                 | Some m => match_domain m name
                                 | None => false
                                 end) (geosite_codes r))
  end = false <-> domain_restriction r ctx gs.
Proof.
  unfold domain_restriction. rewrite andb_false_iff, has_matcher.
  destruct (match ctx_dest ctx with Domain name _ => _ | _ => _ end) as [name|].
  2: { split; [intros [?|?]; [by left|done]|intros [?|(? & ? & _)]; [by left|done]]. }
  rewrite negb_false_iff, orb_true_iff, existsb_exists. setoid_rewrite <- list_elem_of_In.
  assert (Hgs : (exists x, x ∈ geosite_codes r /\
      match gs !! x with Some m => match_domain m name | None => false end = true) <->
    exists c m, c ∈ geosite_codes r /\ gs !! c = Some m /\ match_domain m name = true).
  { split; [intros (c & Hc & Hm)|intros (c & m & Hc & Hl & Hm)]; exists c.
    - destruct (gs !! c) as [m|]; [eauto|done].
    - by rewrite Hl. }
  rewrite Hgs. clear Hgs.
  assert (Hdm : match domain_matcher r with Some dm => DomainMatch.matches dm name | None => false end
    = true <-> exists dm, domain_matcher r = Some dm /\ DomainMatch.matches dm name = true).
  { destruct (domain_matcher r); naive_solver. }
  rewrite Hdm. clear Hdm. split; [intros [?|?]; [by left|right; eauto]|].
  intros [?|(n & [= <-] & ?)]; [by left|by right].
Qed.

Lemma check_ip r ctx (gi : gmap bytes (GeoIpMatcher N)) :
  exists b,
  (if bool_decide (is_Some (ip_matcher r)) || nonempty (geoip_codes r) then
    match ip (ctx_dest ctx) with
    | Some i =>
        literal_ok ← match ip_matcher r with Some im => Cidr.matches im i | None => Ok false end;
        geoip_ok ← any (fun code => match gi !! code with
                                    | Some m => match_ip m i
                                    | None => Ok false
                                    end) (geoip_codes r);
        Ok (literal_ok || geoip_ok)
    | None => Ok false
    end
  else Ok true) = Ok b /\ (b = true <-> ip_restriction r ctx gi).
Proof.
  unfold ip_restriction. destruct (_ || _) eqn:E.
  2: { apply has_matcher in E. exists true. split; [done|]. split; [by left|done]. }
  assert (Hne : ~ (ip_matcher r = None /\ geoip_codes r = [])).
  { rewrite <- has_matcher. congruence. }
  destruct (ip (ctx_dest ctx)) as [i|].
  2: { exists false. split; [done|]. split; [done|]. intros [?|(? & ? & _)]; done. }
  assert (Hl : exists b, match ip_matcher r with Some im => Cidr.matches im i | None => Ok false end
    = Ok b /\ (b = true <-> exists im, ip_matcher r = Some im /\ Cidr.matches im i = Ok true)).
  { destruct (ip_matcher r) as [im|]; [|exists false; naive_solver].
    destruct (ip_matches_total im i) as [b Hb]. exists b. split; [done|].
    split; [intros ->; eauto|]. intros (im' & [= <-] & Ht). congruence. }
  destruct Hl as (bl & -> & Hbl). mred.
  destruct (any_total (fun code => match gi !! code with
    | Some m => match_ip m i | None => Ok false end) (geoip_codes r)) as (bg & -> & Hbg).
  { intros c. destruct (gi !! c); [apply match_ip_total|eauto]. }
  mred. exists (bl || bg). split; [done|]. rewrite orb_true_iff, Hbl, Hbg.
  assert (Hgi : (exists x, x ∈ geoip_codes r /\
      match gi !! x with Some m => match_ip m i | None => Ok false end = Ok true) <->
    exists c m, c ∈ geoip_codes r /\ gi !! c = Some m /\ match_ip m i = Ok true).
  { split; [intros (c & Hc & Hm)|intros (c & m & Hc & Hl & Hm)]; exists c.
    - destruct (gi !! c) as [m|]; [eauto|done].
    - by rewrite Hl. }
  rewrite Hgi. split; [intros ?; right; eauto|]. intros [?|(j & [= <-] & ?)]; done.
Qed.

Lemma matches_with_geo_spec r ctx gi gs :
  exists b, matches_with_geo r ctx gi gs = Ok b /\ (b = true <-> rule_applies r ctx gi gs).
Proof.
  destruct (check_ip r ctx gi) as (b & Hb & Hip).
  pose proof (guard_tag (inbound_tags r) (ctx_inbound_tag ctx)) as Htag.
  pose proof (guard_opt (protocols r) (ctx_sniffed_protocol ctx)) as Hproto.
  pose proof (guard_opt (users r) (ctx_user ctx)) as Huser.
  pose proof (guard_ports (port_ranges r) (port (ctx_dest ctx))) as Hports.
  pose proof (guard_domain r ctx gs) as Hdom.
  unfold matches_with_geo. cbv zeta.
  repeat lazymatch goal with
  | |- context [if ?g then Ok false else _] =>
      destruct g; [exists false; split; [done|]; unfold rule_applies; intuition discriminate|]
  end.
  exists b. split; [exact Hb|]. rewrite Hip. unfold rule_applies. tauto.
Qed.

(** First match, spelled out. *)
Definition routed_by (i : RouterInner N AC RS) ctx (d : Route * bool) : Prop :=
  let applies r := rule_applies r ctx (geoip i) (geosite i) in
  (exists pre r post, rules i = pre ++ r :: post /\ Forall (fun r' => ~ applies r') pre /\
     applies r /\ d = (mkRoute (rule_outbound_tag r), true)) \/
  (Forall (fun r => ~ applies r) (rules i) /\ d = (mkRoute (default_tag i), false)).

Lemma first_match_spec (i : RouterInner N AC RS) ctx rs done :
  rules i = done ++ rs -> Forall (fun r => ~ rule_applies r ctx (geoip i) (geosite i)) done ->
  exists d, first_match rs i ctx = Ok d /\ routed_by i ctx d.
Proof.
  revert done. induction rs as [|r rs IH]; intros done Hi Hd; cbn [first_match].
  - eexists. split; [reflexivity|]. right. rewrite Hi, app_nil_r. done.
  - destruct (matches_with_geo_spec r ctx (geoip i) (geosite i)) as (b & -> & Hb). mred.
    destruct b.
    + eexists. split; [reflexivity|]. left. exists done, r, rs. naive_solver.
    + apply (IH (done ++ [r])); [by rewrite <- app_assoc|].
      apply Forall_app. split; [done|]. constructor; [|constructor]. naive_solver.
Qed.

Lemma uncached_spec (i : RouterInner N AC RS) ctx :
  exists d, pick_route_match_uncached i ctx = Ok d /\ routed_by i ctx d.
Proof. by apply (first_match_spec i ctx (rules i) []). Qed.

End RuleFacts.

(** ** The cache is transparent (operations one after the other) *)

Section Cache.
Context {N AC RS : Type} `{IpNet N} `{TextMatchers AC RS} `{RouteHash}.

Inductive router_op :=
| OpPick (ctx : RoutingContext) (now now' : Z)
| OpSwap (rs : list (CompiledRule N AC RS)) (tag : bytes) (gi : gmap bytes (GeoIpMatcher N))
    (gs : gmap bytes (GeoSiteMatcher AC RS)) (ds : option bytes).

(** The live router's answers along a sequence of operations. *)
Fixpoint run (r : LiveRouter N AC RS) (ops : list router_op) : list (res unit (Route * bool)) :=
  match ops with
  | [] => []
  | OpPick ctx now now' :: ops' =>
      let '(r', d) := live_pick_route_match r ctx now now' in d :: run r' ops'
  | OpSwap rs tag gi gs ds :: ops' => run (swap r rs tag gi gs ds) ops'
  end.

(** The same sequence on a router that keeps only its rules. *)
Fixpoint run_spec (i : RouterInner N AC RS) (ops : list router_op) : list (res unit (Route * bool)) :=
  match ops with
  | [] => []
  | OpPick ctx _ _ :: ops' => pick_route_match_uncached i ctx :: run_spec i ops'
  | OpSwap rs tag gi gs ds :: ops' => run_spec (build_inner rs tag gi gs ds) ops'
  end.

(** No two of these connections collide in the cache key. *)
Definition no_collision (ctxs : list RoutingContext) : Prop :=
  forall c c', c ∈ ctxs -> c' ∈ ctxs -> from_context c = from_context c' -> c = c'.

Definition picked (ops : list router_op) : list RoutingContext :=
  omap (fun o => match o with OpPick ctx _ _ => Some ctx | OpSwap _ _ _ _ _ => None end) ops.

(** Every cached decision is the one the current rules give. *)
Definition cache_ok (ctxs : list RoutingContext) (r : LiveRouter N AC RS) : Prop :=
  forall k e, cache r !! k = Some e -> exists c, c ∈ ctxs /\ from_context c = k /\
    pick_route_match_uncached (inner r) c = Ok (entry_route e, entry_matched e).

Lemma cache_ok_new ctxs rs tag gi gs ds : cache_ok ctxs (LiveRouter_new rs tag gi gs ds).
Proof. intros k e. unfold LiveRouter_new; cbn. by rewrite lookup_empty. Qed.

Lemma cache_ok_swap ctxs r rs tag gi gs ds : cache_ok ctxs (swap r rs tag gi gs ds).
Proof. intros k e. unfold swap; cbn. by rewrite lookup_empty. Qed.

Lemma pick_step ctxs r ctx now now' :
  no_collision ctxs -> ctx ∈ ctxs -> cache_ok ctxs r ->
  let '(r', d) := live_pick_route_match r ctx now now' in
  d = pick_route_match_uncached (inner r) ctx /\ inner r' = inner r /\ cache_ok ctxs r'.
Proof.
  intros Hn Hc Hr. unfold live_pick_route_match. cbv zeta.
  destruct (cache_lookup r (from_context ctx) (generation r) now) as [d|] eqn:Hl.
  - unfold cache_lookup in Hl. case_match eqn:Hk; [|done]. case_match; [|done]. simplify_eq.
    destruct (Hr _ _ Hk) as (c & Hcin & Heq & Hd).
    rewrite (Hn c ctx Hcin Hc Heq) in Hd. rewrite Hd. done.
  - destruct (uncached_spec (inner r) ctx) as (d & Hd & _). rewrite Hd. split; [done|].
    split; [done|]. intros k e. cbn. rewrite lookup_insert. case_decide as Hk.
    + intros [= <-]. exists ctx. cbn. rewrite Hd. by destruct d.
    + apply Hr.
Qed.

Lemma run_refines ctxs ops r :
  no_collision ctxs -> picked ops ⊆ ctxs -> cache_ok ctxs r ->
  run r ops = run_spec (inner r) ops.
Proof.
  intros Hn. revert r. induction ops as [|[ctx now now'|rs tag gi gs ds] ops IH];
    intros r Hp Hr; cbn [run run_spec]; [done| |].
  - pose proof (pick_step ctxs r ctx now now' Hn) as Hs.
    destruct (live_pick_route_match r ctx now now') as [r' d].
    destruct Hs as (-> & Hi & Hr'); [set_solver|done|].
    f_equal. rewrite IH; [by rewrite Hi|set_solver|done].
  - rewrite IH; [done|set_solver|apply cache_ok_swap].
Qed.

End Cache.

(** ** Concurrent picks and swaps

    The atomic actions of [pick_route_match] and [swap], interleaved in any
    order, with a clock that only moves forward. *)

Section Concurrent.
Context {N AC RS : Type} `{IpNet N} `{TextMatchers AC RS} `{RouteHash}.

Inductive PickPc :=
| PStart (ctx : RoutingContext)
| PLoaded (ctx : RoutingContext) (gen now : Z)
| PMissed (ctx : RoutingContext) (gen : Z)
| PDecided (ctx : RoutingContext) (gen : Z) (d : Route * bool)
| PReturned (ctx : RoutingContext) (d : Route * bool).

Inductive SwapPc :=
| SStart (i : RouterInner N AC RS)
| SBumped (i : RouterInner N AC RS)
| SCleared (i : RouterInner N AC RS)
| SReturned (i : RouterInner N AC RS).

(** [history] is a ghost: every rule set installed so far. *)
Record System := mkSystem {
  router : LiveRouter N AC RS;
  picks : list PickPc;
  swaps : list SwapPc;
  clock : Z;
  history : list (RouterInner N AC RS)
}.

Inductive pick_pc_step (r : LiveRouter N AC RS) (now : Z)
    : PickPc -> LiveRouter N AC RS -> PickPc -> Prop :=
| step_load ctx :
    pick_pc_step r now (PStart ctx) r (PLoaded ctx (generation r) now)
| step_hit ctx gen t d :
    cache_lookup r (from_context ctx) gen t = Some d ->
    pick_pc_step r now (PLoaded ctx gen t) r (PReturned ctx d)
| step_miss ctx gen t :
    cache_lookup r (from_context ctx) gen t = None ->
    pick_pc_step r now (PLoaded ctx gen t) r (PMissed ctx gen)
| step_decide ctx gen d :
    pick_route_match_uncached (inner r) ctx = Ok d ->
    pick_pc_step r now (PMissed ctx gen) r (PDecided ctx gen d)
| step_insert ctx gen d :
    pick_pc_step r now (PDecided ctx gen d)
      (cache_insert r (from_context ctx) d gen now) (PReturned ctx d).

Inductive swap_pc_step (r : LiveRouter N AC RS) : SwapPc -> LiveRouter N AC RS -> SwapPc -> Prop :=
| step_bump i : swap_pc_step r (SStart i) (bump_generation r) (SBumped i)
| step_clear i : swap_pc_step r (SBumped i) (clear_cache r) (SCleared i)
| step_store i : swap_pc_step r (SCleared i) (store_inner i r) (SReturned i).

Inductive sys_step (s : System) : System -> Prop :=
| sys_spawn_pick ctx :
    sys_step s (mkSystem (router s) (picks s ++ [PStart ctx]) (swaps s) (clock s) (history s))
| sys_spawn_swap i :
    sys_step s (mkSystem (router s) (picks s) (swaps s ++ [SStart i]) (clock s) (history s))
| sys_pick n pc r' pc' :
    picks s !! n = Some pc -> pick_pc_step (router s) (clock s) pc r' pc' ->
    sys_step s (mkSystem r' (<[n := pc']> (picks s)) (swaps s) (clock s) (history s))
| sys_swap n pc r' pc' :
    swaps s !! n = Some pc -> swap_pc_step (router s) pc r' pc' ->
    sys_step s (mkSystem r' (picks s) (<[n := pc']> (swaps s)) (clock s)
      (match pc' with SReturned i => history s ++ [i] | _ => history s end))
| sys_tick dt :
    0 <= dt -> sys_step s (mkSystem (router s) (picks s) (swaps s) (clock s + dt) (history s)).

Definition initial (i : RouterInner N AC RS) : System := mkSystem (mkRouter i ∅ 0) [] [] 0 [i].

Definition reachable (i : RouterInner N AC RS) : System -> Prop := rtc sys_step (initial i).

(** [d] is what one installed rule set decides for [ctx]. *)
Definition from_history (h : list (RouterInner N AC RS)) (ctx : RoutingContext) (d : Route * bool) : Prop :=
  exists i, i ∈ h /\ pick_route_match_uncached i ctx = Ok d.

Definition pc_ok (h : list (RouterInner N AC RS)) (pc : PickPc) : Prop :=
  match pc with
  | PDecided ctx _ d | PReturned ctx d => exists ctx', from_context ctx' = from_context ctx /\
      from_history h ctx' d
  | _ => True
  end.

Definition sys_ok (s : System) : Prop :=
  inner (router s) ∈ history s /\
  (forall k e, cache (router s) !! k = Some e ->
     exists ctx, from_context ctx = k /\ from_history (history s) ctx (entry_route e, entry_matched e)) /\
  Forall (pc_ok (history s)) (picks s).

Lemma from_history_mono h h' ctx d :
  h ⊆ h' -> from_history h ctx d -> from_history h' ctx d.
Proof. intros Hh (i & Hi & Hd). exists i. eauto. Qed.

Lemma pc_ok_mono h h' pc : h ⊆ h' -> pc_ok h pc -> pc_ok h' pc.
Proof.
  intros Hh. destruct pc; cbn; try done; intros (c & Hk & Hf); exists c; eauto using from_history_mono.
Qed.

Lemma sys_ok_initial i : sys_ok (initial i).
Proof.
  split; [cbn; constructor|]. split; [|constructor]. intros k e. cbn. by rewrite lookup_empty.
Qed.

Lemma pick_pc_step_ok h r now pc r' pc' :
  inner r ∈ h ->
  (forall k e, cache r !! k = Some e ->
     exists ctx, from_context ctx = k /\ from_history h ctx (entry_route e, entry_matched e)) ->
  pc_ok h pc -> pick_pc_step r now pc r' pc' ->
  inner r' = inner r /\ pc_ok h pc' /\
  (forall k e, cache r' !! k = Some e ->
     exists ctx, from_context ctx = k /\ from_history h ctx (entry_route e, entry_matched e)).
Proof.
  intros Hi Hc Hpc Hstep. destruct Hstep as [ctx|ctx gen t d Hl|ctx gen t Hl|ctx gen d Hd|ctx gen d];
    cbn in *; (split; [done|]); (split; [|try exact Hc]); try done.
  - unfold cache_lookup in Hl. case_match eqn:Hk; [|done]. case_match; [|done]. simplify_eq.
    destruct (Hc _ _ Hk) as (c & Hkey & Hf). eauto.
  - exists ctx. split; [done|]. exists (inner r). done.
  - intros k e. rewrite lookup_insert. case_decide as Hk; [|apply Hc].
    intros [= <-]. destruct Hpc as (c & Hkey & Hf). exists c. cbn. split; [congruence|].
    by destruct d.
Qed.

Lemma sys_step_ok s s' : sys_ok s -> sys_step s s' -> sys_ok s'.
Proof.
  intros (Hi & Hc & Hp) Hstep.
  destruct Hstep as [ctx|i|n pc r' pc' Hn Hs|n pc r' pc' Hn Hs|dt Hdt]; unfold sys_ok; cbn.
  - split; [done|]. split; [done|]. apply Forall_app. split; [done|]. by repeat constructor.
  - done.
  - destruct (pick_pc_step_ok (history s) _ _ _ _ _ Hi Hc (Forall_lookup_1 _ _ _ _ Hp Hn) Hs)
      as (Hi' & Hpc & Hc').
    rewrite Hi'. split; [done|]. split; [done|]. by apply Forall_insert.
  - destruct Hs as [i|i|i]; cbn.
    + done.
    + split; [done|]. split; [|done]. intros k e. by rewrite lookup_empty.
    + assert (Hsub : history s ⊆ history s ++ [i]) by set_solver.
      split; [set_solver|]. split.
      * intros k e He. destruct (Hc k e He) as (c & Hk & Hf). eauto using from_history_mono.
      * eapply Forall_impl; [exact Hp|]. intros pc. by apply pc_ok_mono.
  - done.
Qed.

Lemma reachable_ok i s : reachable i s -> sys_ok s.
Proof.
  intros Hr. apply (rtc_ind_r (R:=sys_step) sys_ok (initial i)); [apply sys_ok_initial| |exact Hr].
  intros y z _ Hstep Hy. by eapply sys_step_ok.
Qed.

End Concurrent.

(** ** Domain strategies ([dispatcher.rs], [pick_route_xray])

    Written against the [Router] trait.  DNS is outside the model: the two
    lookups of [pick_route_xray] are parameters, [resolve_domain_ips] and the
    background task of [prefetch_dns] ([None] when no DNS module is configured,
    otherwise what awaiting the handle gives). *)

Section Xray.
Context {R : Type} `{RouterOps R}.
Context (resolve_domain_ips : Address -> bytes -> option (list Address)).
Context (prefetch_dns : Address -> option (option (list Address))).

Record FirstPacketBoost := mkBoost { boost_enabled : bool; boost_dns : bool }.

Definition routing_ctx (a : Address) (net : Network) (tag : bytes)
    (user proto dom : option bytes) : RoutingContext :=
  mkCtx a net tag user proto dom.

(** [for ip_dest in &ips { .. if matched { return Ok(route) } }], threading the
    router; [inr] is the early return. *)
Fixpoint try_ips (r : R) (mk : Address -> RoutingContext) (ips : list Address) (now now' : Z)
    : R * res unit (option Route) :=
  match ips with
  | [] => (r, Ok None)
  | a :: ips' =>
      let '(r', d) := pick_route_match r (mk a) now now' in
      match d with
      | Ok (route, true) => (r', Ok (Some route))
      | Ok (_, false) => try_ips r' mk ips' now now'
      | Err e => (r', Err e)
      | Panic => (r', Panic)
      end
  end.

Definition try_opt_ips (r : R) (mk : Address -> RoutingContext) (ips : option (list Address))
    (now now' : Z) : R * res unit (option Route) :=
  match ips with Some l => try_ips r mk l now now' | None => (r, Ok None) end.

(** The function, with the context constructor of this connection. *)
Definition xray_body (boost : FirstPacketBoost) (r : R) (mk : Address -> RoutingContext)
    (tag : bytes) (dest : Address) (now now' : Z) : R * res unit Route :=
  let strategy := normalize_routing_domain_strategy (domain_strategy r) in
  let '(r1, early) :=
    if bool_decide (strategy = IpOnDemand) && is_domain dest && has_ip_rules r
    then try_opt_ips r mk (resolve_domain_ips dest tag) now now'
    else (r, Ok None) in
  match early with
  | Ok (Some route) => (r1, Ok route)
  | Err e => (r1, Err e)
  | Panic => (r1, Panic)
  | Ok None =>
      let dns_prefetch_allowed := negb (boost_enabled boost) || boost_dns boost in
      let prefetch :=
        if dns_prefetch_allowed && bool_decide (strategy = IpIfNonMatch) && is_domain dest
           && has_ip_rules r1
        then prefetch_dns dest else None in
      let '(r2, d) := pick_route_match r1 (mk dest) now now' in
      match d with
      | Err e => (r2, Err e)
      | Panic => (r2, Panic)
      | Ok (route, matched) =>
          if matched || bool_decide (strategy = AsIs) then (r2, Ok route)
          else if bool_decide (strategy = IpIfNonMatch) && is_domain dest then
            let ips := match prefetch with
                       | Some h => h
                       | None => resolve_domain_ips dest tag
                       end in
            let '(r3, late) := try_opt_ips r2 mk ips now now' in
            match late with
            | Ok (Some route') => (r3, Ok route')
            | Ok None => (r3, Ok route)
            | Err e => (r3, Err e)
            | Panic => (r3, Panic)
            end
          else (r2, Ok route)
      end
  end.

Definition pick_route_xray (boost : FirstPacketBoost) (r : R) (tag : bytes) (dest : Address)
    (net : Network) (user proto dom : option bytes) (now now' : Z) : R * res unit Route :=
  xray_body boost r (fun a => routing_ctx a net tag user proto dom) tag dest now now'.

End Xray.

(** What a router promises to the dispatcher: on the connections [C], it answers
    with a fixed decision function, which picking does not change. *)
Class RouterSpec (R : Type) `{RouterOps R} (C : RoutingContext -> Prop) := {
  router_ok : R -> Prop;
  decision : R -> RoutingContext -> Route * bool;
  pick_decides : forall r ctx now now', router_ok r -> C ctx ->
    let '(r', d) := pick_route_match r ctx now now' in
    d = Ok (decision r ctx) /\ router_ok r' /\ (forall c, decision r' c = decision r c) /\
    has_ip_rules r' = has_ip_rules r /\ domain_strategy r' = domain_strategy r
}.

(** The live router keeps that promise, for connections that do not collide. *)
Section LiveSpec.
Context {N AC RS : Type} `{IpNet N} `{TextMatchers AC RS} `{RouteHash}.
Context (ctxs : list RoutingContext) (Hno : no_collision ctxs).

Definition live_decision (r : LiveRouter N AC RS) (ctx : RoutingContext) : Route * bool :=
  match pick_route_match_uncached (inner r) ctx with
  | Ok d => d
  | _ => (mkRoute (default_tag (inner r)), false)
  end.

Lemma live_decision_ok r ctx : pick_route_match_uncached (inner r) ctx = Ok (live_decision r ctx).
Proof. unfold live_decision. by destruct (uncached_spec (inner r) ctx) as (d & -> & _). Qed.

#[local] Instance LiveRouter_spec : RouterSpec (LiveRouter N AC RS) (fun c => c ∈ ctxs).
Proof.
  refine {| router_ok := cache_ok ctxs; decision := live_decision |}.
  intros r ctx now now' Hr Hc. cbn.
  pose proof (pick_step ctxs r ctx now now' Hno Hc Hr) as Hs.
  destruct (live_pick_route_match r ctx now now') as [r' d].
  destruct Hs as (-> & Hi & Hr'). rewrite live_decision_ok. split; [done|]. split; [done|].
  unfold live_decision. rewrite Hi. done.
Defined.

End LiveSpec.

(** The dispatcher, against that promise. *)
Section XraySpec.
Context {R : Type} `{RouterOps R} {C : RoutingContext -> Prop} {HS : RouterSpec R C}.

(** The route of the first address that a rule matches. *)
Definition first_ip (r : R) (mk : Address -> RoutingContext) (ips : list Address) : option Route :=
  fst <$> head (filter (fun d => d.2 = true) ((fun a => decision r (mk a)) <$> ips)).

Definition xray_decision (resolve : option (list Address)) (prefetch : option (option (list Address)))
    (boost : FirstPacketBoost) (r : R) (mk : Address -> RoutingContext) (dest : Address) : Route :=
  let '(route, matched) := decision r (mk dest) in
  let by_ip ips := default route (ips ≫= first_ip r mk) in
  match normalize_routing_domain_strategy (domain_strategy r) with
  | AsIs => route
  | IpOnDemand => if is_domain dest && has_ip_rules r then by_ip resolve else route
  | IpIfNonMatch =>
      if matched || negb (is_domain dest) then route
      else by_ip (if (negb (boost_enabled boost) || boost_dns boost) && has_ip_rules r
                  then default resolve prefetch else resolve)
  end.

Definition same_router (r r' : R) : Prop :=
  router_ok r' /\ (forall c, decision r' c = decision r c) /\
  has_ip_rules r' = has_ip_rules r /\ domain_strategy r' = domain_strategy r.

Lemma same_router_refl r : router_ok r -> same_router r r.
Proof. done. Qed.

Lemma same_router_trans r1 r2 r3 : same_router r1 r2 -> same_router r2 r3 -> same_router r1 r3.
Proof.
  intros (_ & Hd & Hi & Hs) (Hok & Hd' & Hi' & Hs'). split; [done|].
  split; [intros c; by rewrite Hd'|]. split; congruence.
Qed.

Lemma pick_same r ctx now now' :
  router_ok r -> C ctx ->
  exists r', pick_route_match r ctx now now' = (r', Ok (decision r ctx)) /\ same_router r r'.
Proof.
  intros Hr Hc. pose proof (pick_decides r ctx now now' Hr Hc) as Hp.
  destruct (pick_route_match r ctx now now') as [r' d]. destruct Hp as (-> & Hsame).
  eexists. split; [reflexivity|done].
Qed.

Lemma first_ip_same r r' mk ips : same_router r r' -> first_ip r' mk ips = first_ip r mk ips.
Proof.
  intros (_ & Hd & _). unfold first_ip. do 3 f_equal. apply list_fmap_ext. intros _ a _. apply Hd.
Qed.

Lemma try_ips_spec r mk ips now now' :
  router_ok r -> Forall (fun a => C (mk a)) ips ->
  exists r', try_ips r mk ips now now' = (r', Ok (first_ip r mk ips)) /\ same_router r r'.
Proof.
  intros Hr Hips. revert r Hr. induction Hips as [|a ips Ha Hips IH]; intros r Hr; cbn [try_ips].
  - eexists. split; [reflexivity|by apply same_router_refl].
  - destruct (pick_same r (mk a) now now' Hr Ha) as (r1 & -> & Hs1).
    unfold first_ip. cbn [fmap list_fmap]. rewrite filter_cons.
    destruct (decision r (mk a)) as [route []]; cbn [snd].
    + rewrite decide_True by done. eexists. split; [reflexivity|done].
    + rewrite decide_False by done. destruct (IH r1) as (r2 & -> & Hs2); [by destruct Hs1|].
      rewrite (first_ip_same _ _ mk ips Hs1).
      exists r2. split; [done|]. by eapply same_router_trans.
Qed.

Lemma try_opt_ips_spec r mk ips now now' :
  router_ok r -> (forall l, ips = Some l -> Forall (fun a => C (mk a)) l) ->
  exists r', try_opt_ips r mk ips now now' = (r', Ok (ips ≫= first_ip r mk)) /\ same_router r r'.
Proof.
  intros Hr Hips. destruct ips as [l|]; cbn.
  - by apply try_ips_spec; [|apply Hips].
  - eexists. split; [reflexivity|by apply same_router_refl].
Qed.

Ltac eval_strategy :=
  repeat match goal with
  | |- context [bool_decide (?a = ?b :> RoutingDomainStrategy)] =>
      let v := eval vm_compute in (bool_decide (a = b)) in
      change (bool_decide (a = b)) with v
  end; cbn [andb].

(** The shared tail: the plain pick of the destination, then the late lookup. *)
Lemma xray_body_spec resolve prefetch boost (r : R) mk tag dest now now' :
  router_ok r -> C (mk dest) ->
  (forall l, resolve dest tag = Some l -> Forall (fun a => C (mk a)) l) ->
  (forall l, default (resolve dest tag) (prefetch dest) = Some l -> Forall (fun a => C (mk a)) l) ->
  exists r', xray_body resolve prefetch boost r mk tag dest now now'
    = (r', Ok (xray_decision (resolve dest tag) (prefetch dest) boost r mk dest)) /\
    same_router r r'.
Proof.
  intros Hr Hd Hres Hpre. unfold xray_body, xray_decision. cbv zeta.
  destruct (normalize_routing_domain_strategy (domain_strategy r)) eqn:Estr.
  - destruct (pick_same r (mk dest) now now' Hr Hd) as (r2 & Hpick & Hs2).
    eval_strategy. rewrite Hpick. destruct (decision r (mk dest)) as [route matched].
    rewrite orb_true_r. eauto.
  - destruct (pick_same r (mk dest) now now' Hr Hd) as (r2 & Hpick & Hs2).
    eval_strategy. rewrite Hpick. destruct (decision r (mk dest)) as [route []]; cbn [orb]; [eauto|].
    destruct (is_domain dest); cbn [negb andb]; [|eauto]. rewrite !andb_true_r.
    set (ips := if (negb (boost_enabled boost) || boost_dns boost) && has_ip_rules r
      then default (resolve dest tag) (prefetch dest) else resolve dest tag).
    destruct (try_opt_ips_spec r2 mk ips now now') as (r3 & Htry & Hs3).
    { by destruct Hs2. }
    { subst ips. by case_match. }
    assert (Hips : match (if (negb (boost_enabled boost) || boost_dns boost) && has_ip_rules r
      then prefetch dest else None) with Some h => h | None => resolve dest tag end = ips).
    { subst ips. by case_match. }
    rewrite Hips, Htry. assert (Hsame : ips ≫= first_ip r2 mk = ips ≫= first_ip r mk).
    { destruct ips; [|done]. cbn. by apply first_ip_same. }
    rewrite Hsame. destruct (ips ≫= first_ip r mk); eauto using same_router_trans.
  - eval_strategy. assert (Hearly : exists r1,
      (if is_domain dest && has_ip_rules r
       then try_opt_ips r mk (resolve dest tag) now now' else (r, Ok None)) =
      (r1, Ok (if is_domain dest && has_ip_rules r
               then resolve dest tag ≫= first_ip r mk else None)) /\ same_router r r1).
    { destruct (is_domain dest && has_ip_rules r); [by apply try_opt_ips_spec|].
      eauto using same_router_refl. }
    destruct Hearly as (r1 & -> & Hs1).
    destruct (if is_domain dest && has_ip_rules r then _ else None) as [route1|] eqn:Ee.
    { destruct (is_domain dest && has_ip_rules r); [|done].
      destruct (decision r (mk dest)). rewrite Ee. eauto. }
    destruct (pick_same r1 (mk dest) now now') as (r2 & Hpick & Hs2); [by destruct Hs1|done|].
    rewrite Hpick. destruct Hs1 as (Hok1 & Hdec1 & Hs1).
    rewrite Hdec1. destruct (decision r (mk dest)) as [route matched].
    rewrite orb_false_r.
    assert (Hout : (if matched then (r2, Ok route) else (r2, Ok route)) = (r2, Ok (E:=unit) route)).
    { by destruct matched. }
    rewrite Hout. exists r2. split; [|by eapply same_router_trans].
    destruct (is_domain dest && has_ip_rules r); [by rewrite Ee|done].
Qed.

End XraySpec.

(** ** Properties *)

Section RouterProperties.
Context {N AC RS : Type} `{IpNet N} `{TextMatchers AC RS} `{RouteHash}.

(** C26. Rule matching and first-match routing: evaluating a rule never panics and
    says yes exactly when the connection meets every restriction the rule has
    (inbound tag, sniffed protocol, user, port range, domain or geosite, CIDR or
    geoip; an absent restriction is met); and the route taken is that of the
    first such rule in configuration order, or the default tag when there is
    none, which is the only case reported as unmatched. *)
Theorem router_first_match (i : RouterInner N AC RS) (ctx : RoutingContext) :
  (forall r, exists b, matches_with_geo r ctx (geoip i) (geosite i) = Ok b /\
     (b = true <-> rule_applies r ctx (geoip i) (geosite i))) /\
  exists d, pick_route_match_uncached i ctx = Ok d /\ routed_by i ctx d.
Proof. split; [intros r; apply matches_with_geo_spec|apply uncached_spec]. Qed.

(** C2. The route cache is transparent: along any sequence of picks and swaps, run
    one after the other from a fresh router, with any clock readings, every pick
    answers what the rules installed at that moment decide, provided that no two
    of the connections routed collide in the hashed cache key. *)
Theorem router_cache_transparent (rs : list (CompiledRule N AC RS)) (tag : bytes) gi gs ds
    (ops : list router_op) :
  no_collision (picked ops) ->
  run (LiveRouter_new rs tag gi gs ds) ops = run_spec (build_inner rs tag gi gs ds) ops.
Proof.
  intros Hn. by apply (run_refines (picked ops)); [| |apply cache_ok_new].
Qed.

(** Picks and swaps interleaved at the level of their atomic actions never mix
    rule sets: in every reachable state, each decision that a pick returns was
    taken by one rule set installed at some time, as a whole, for a connection
    with the same cache key. *)
Theorem router_never_mixes (i : RouterInner N AC RS) (s : System) (ctx : RoutingContext)
    (d : Route * bool) :
  reachable i s -> PReturned ctx d ∈ picks s ->
  exists ctx' i', from_context ctx' = from_context ctx /\ i' ∈ history s /\
    pick_route_match_uncached i' ctx' = Ok d.
Proof.
  intros Hr Hin. destruct (reachable_ok i s Hr) as (_ & _ & Hp).
  apply list_elem_of_lookup_1 in Hin as [n Hn].
  destruct (Forall_lookup_1 _ _ _ _ Hp Hn) as (c & Hk & j & Hj & Hd). eauto.
Qed.

(** A reload can leave the old decision in force: for any old and new rules and
    any connection there is an interleaving of one [swap] with one pick after
    which the swap has returned, the new rules are installed, and yet every later
    pick of that connection still gets the old rules' decision until the cache
    entry expires (30 seconds, or 250 ms for health-checked tags).  [swap] bumps
    the generation before it stores the rules, so a pick in between files the old
    decision under the new generation. *)
Theorem router_stale_after_swap (old new : RouterInner N AC RS) (ctx : RoutingContext) :
  exists d s, pick_route_match_uncached old ctx = Ok d /\ reachable old s /\
    swaps s = [SReturned new] /\ inner (router s) = new /\
    forall t t', clock s <= t < clock s + route_cache_ttl d.1 ->
      live_pick_route_match (router s) ctx t t' = (router s, Ok d).
Proof.
  destruct (uncached_spec old ctx) as (d & Hd & _). exists d.
  eexists. split; [exact Hd|]. split; [|split; [|split]].
  - unfold reachable, initial.
    eapply rtc_l; [apply (sys_spawn_swap _ new)|]. cbn.
    eapply rtc_l; [apply (sys_spawn_pick _ ctx)|]. cbn.
    eapply rtc_l; [eapply (sys_swap _ 0); [reflexivity|apply step_bump]|]. cbn.
    eapply rtc_l; [eapply (sys_pick _ 0); [reflexivity|apply step_load]|]. cbn.
    eapply rtc_l; [eapply (sys_pick _ 0); [reflexivity|by apply step_miss]|]. cbn.
    eapply rtc_l; [eapply (sys_swap _ 0); [reflexivity|apply step_clear]|]. cbn.
    eapply rtc_l; [eapply (sys_pick _ 0); [reflexivity|by apply step_decide]|]. cbn.
    eapply rtc_l; [eapply (sys_pick _ 0); [reflexivity|apply step_insert]|]. cbn.
    eapply rtc_l; [eapply (sys_swap _ 0); [reflexivity|apply step_store]|]. cbn.
    apply rtc_refl.
  - done.
  - done.
  - cbn [clock router]. intros t t' Ht. unfold live_pick_route_match, cache_lookup. cbn.
    rewrite lookup_insert, decide_True by done. cbn.
    destruct (Z.ltb_spec t (0 + route_cache_ttl d.1)); [|lia]. by destruct d.
Qed.

End RouterProperties.

Section XrayProperties.
Context {R : Type} `{RouterOps R} {C : RoutingContext -> Prop} {HS : RouterSpec R C}.

(** [domainStrategy]: for any router that keeps the [Router] promise, the
    dispatcher routes a connection by the destination as given (AsIs), by the
    first resolved address that a rule matches and otherwise the destination
    (IPOnDemand, only for domains and only when IP rules exist), or by the
    destination when a rule matches it and otherwise the first matching resolved
    address (IPIfNonMatch, with the prefetched answer when there is one). *)
Theorem xray_domain_strategy resolve prefetch boost (r : R) (tag : bytes) (dest : Address)
    (net : Network) (user proto dom : option bytes) (now now' : Z) :
  let mk a := routing_ctx a net tag user proto dom in
  router_ok r -> C (mk dest) ->
  (forall l a, resolve dest tag = Some l -> a ∈ l -> C (mk a)) ->
  (forall l a, prefetch dest = Some (Some l) -> a ∈ l -> C (mk a)) ->
  exists r', pick_route_xray resolve prefetch boost r tag dest net user proto dom now now'
    = (r', Ok (xray_decision (resolve dest tag) (prefetch dest) boost r mk dest)) /\
    same_router r r'.
Proof.
  intros mk Hr Hd Hres Hpre. unfold pick_route_xray.
  assert (Hall : forall l, (forall a, a ∈ l -> C (mk a)) -> Forall (fun a => C (mk a)) l).
  { intros l Hl. apply Forall_forall. intros a Ha. by apply Hl. }
  apply xray_body_spec; try done.
  - intros l Hl. apply Hall. eauto.
  - intros l Hl. apply Hall. destruct (prefetch dest) as [h|]; [|by eauto].
    cbn in Hl. subst h. eauto.
Qed.

End XrayProperties.

(** ** Concrete instances *)

Definition plain_hash (l : bytes) : Z := foldl (fun h b => as_u64 (h * 257 + b + 1)) 0 l.

#[export] Instance PlainHash : RouteHash := {|
  hash_address a :=
    match a with
    | Ipv4 i p => plain_hash (4 :: p :: i)
    | Ipv6 i p => plain_hash (6 :: p :: i)
    | Domain d p => plain_hash (0 :: p :: d)
    end;
  hash_str := plain_hash;
  hash_opt_str o := match o with Some s => plain_hash (1 :: s) | None => 0 end
|}.

Abbreviation rule' := (CompiledRule PlainNet (list bytes) (list bytes)).

Definition port_rule (tag : bytes) (lo hi : Z) : rule' :=
  mkRule tag None [] None [] [(lo, hi)] [] [] [].

Definition https_ctx : RoutingContext :=
  mkCtx (Ipv4 [192; 0; 2; 1] 443) Tcp (str "in") None None None.

Definition https_ops : list (router_op (N:=PlainNet) (AC:=list bytes) (RS:=list bytes)) :=
  [OpPick https_ctx 5 6; OpPick https_ctx 7 8;
   OpSwap [port_rule (str "b") 443 443] (str "direct") ∅ ∅ None; OpPick https_ctx 9 10].

Lemma router_cache_transparent_witness :
  run (LiveRouter_new [port_rule (str "a") 443 443] (str "direct") ∅ ∅ None) https_ops =
    [Ok (mkRoute (str "a"), true); Ok (mkRoute (str "a"), true); Ok (mkRoute (str "b"), true)].
Proof.
  rewrite (router_cache_transparent [port_rule (str "a") 443 443] (str "direct") ∅ ∅ None https_ops).
  - vm_compute. reflexivity.
  - intros c c' Hc Hc' _. cbn in Hc, Hc'. set_solver.
Defined.

Definition https_inner : RouterInner PlainNet (list bytes) (list bytes) :=
  build_inner [port_rule (str "a") 443 443] (str "direct") ∅ ∅ None.

Lemma router_never_mixes_witness :
  exists s ctx' i', reachable https_inner s /\ PReturned https_ctx (mkRoute (str "a"), true) ∈ picks s /\
    from_context ctx' = from_context https_ctx /\ i' ∈ history s /\
    pick_route_match_uncached i' ctx' = Ok (mkRoute (str "a"), true).
Proof.
  assert (Hreach : exists s, reachable https_inner s /\
    PReturned https_ctx (mkRoute (str "a"), true) ∈ picks s).
  { eexists. split.
    - unfold reachable, initial.
      eapply rtc_l; [apply (sys_spawn_pick _ https_ctx)|]. cbn [router picks swaps clock history app].
      eapply rtc_l; [eapply (sys_pick _ 0); [reflexivity|apply step_load]|].
      eapply rtc_l; [eapply (sys_pick _ 0); [reflexivity|apply step_miss; vm_compute; reflexivity]|].
      eapply rtc_l; [eapply (sys_pick _ 0);
        [reflexivity|apply (step_decide _ _ _ _ (mkRoute (str "a"), true)); vm_compute; reflexivity]|].
      eapply rtc_l; [eapply (sys_pick _ 0); [reflexivity|apply step_insert]|].
      apply rtc_refl.
    - cbn. constructor. }
  destruct Hreach as (s & Hs & Hin).
  destruct (router_never_mixes https_inner s https_ctx _ Hs Hin) as (c & j & Hk & Hj & Hd).
  exists s, c, j. done.
Defined.

Lemma xray_domain_strategy_witness :
  exists r', pick_route_xray (fun _ _ => None) (fun _ => None) (mkBoost false false)
    (LiveRouter_new [port_rule (str "a") 443 443] (str "direct") ∅ ∅ None)
    (str "in") (Ipv4 [192; 0; 2; 1] 443) Tcp None None None 0 0 = (r', Ok (mkRoute (str "a"))).
Proof.
  assert (Hno : no_collision [https_ctx]) by (intros c c' Hc Hc' _; set_solver).
  destruct (xray_domain_strategy (HS:=LiveRouter_spec [https_ctx] Hno)
    (fun _ _ => None) (fun _ => None) (mkBoost false false)
    (LiveRouter_new [port_rule (str "a") 443 443] (str "direct") ∅ ∅ None)
    (str "in") (Ipv4 [192; 0; 2; 1] 443) Tcp None None None 0 0) as (r' & Hr & _).
  - apply cache_ok_new.
  - constructor.
  - done.
  - done.
  - exists r'. rewrite Hr. vm_compute. reflexivity.
Defined.
