(* ===== verification/Lru.v ===== *)
(** * The [lru] crate, as an interface

    [LruCache] is code outside the repository.  [Lru] lists the operations that
    [dns/cache.rs] and [dns/fakeip.rs] call, [LruLaws] the documented behaviour
    of each as an effect on the list of entries, most recently used first.
    [ListLru] is an instance. *)

From S2P Require Import Prelude.

(** ** Effects on the recency list *)

Section Recency.
Context {V : Type}.
Abbreviation entries := (list (bytes * V)).

Definition entry_of (k : bytes) (l : entries) : option V :=
  snd <$> head (filter (fun e => e.1 = k) l).

Definition without (k : bytes) (l : entries) : entries := filter (fun e => e.1 <> k) l.

(** Move an entry to the front, when there is one. *)
Definition promote (k : bytes) (l : entries) : entries :=
  match entry_of k l with Some v => (k, v) :: without k l | None => l end.

(** Insert or overwrite at the front; a new key in a full cache drops the last. *)
Definition put_front (cap : nat) (k : bytes) (v : V) (l : entries) : entries :=
  match entry_of k l with
  | Some _ => (k, v) :: without k l
  | None => if (cap <=? length l)%nat then (k, v) :: take (length l - 1) l else (k, v) :: l
  end.

End Recency.

Class Lru (L : Type) (V : Type) := {
  lru_new : nat -> L;
  lru_get : bytes -> L -> L * option V;
  lru_put : bytes -> V -> L -> L;
  lru_pop : bytes -> L -> L;
  lru_pop_lru : L -> L * option (bytes * V);
  lru_iter : L -> list (bytes * V);
  lru_cap : L -> nat
}.

Class LruLaws (L V : Type) `{Lru L V} := {
  lru_new_law : forall c, lru_iter (lru_new c) = [] /\ lru_cap (lru_new c) = c;
  lru_get_law : forall k l, let '(l', o) := lru_get k l in
    lru_iter l' = promote k (lru_iter l) /\ o = entry_of k (lru_iter l) /\ lru_cap l' = lru_cap l;
  lru_put_law : forall k v l,
    lru_iter (lru_put k v l) = put_front (lru_cap l) k v (lru_iter l) /\
    lru_cap (lru_put k v l) = lru_cap l;
  lru_pop_law : forall k l,
    lru_iter (lru_pop k l) = without k (lru_iter l) /\ lru_cap (lru_pop k l) = lru_cap l;
  lru_pop_lru_law : forall l, let '(l', o) := lru_pop_lru l in
    lru_iter l' = take (length (lru_iter l) - 1) (lru_iter l) /\ o = last (lru_iter l) /\
    lru_cap l' = lru_cap l
}.

(** ** An instance *)

Record ListLru (V : Type) := mkLru { items : list (bytes * V); cap : nat }.
Arguments mkLru {V}.
Arguments items {V}.
Arguments cap {V}.

#[export] Instance ListLru_ops V : Lru (ListLru V) V := {|
  lru_new c := mkLru [] c;
  lru_get k l := (mkLru (promote k (items l)) (cap l), entry_of k (items l));
  lru_put k v l := mkLru (put_front (cap l) k v (items l)) (cap l);
  lru_pop k l := mkLru (without k (items l)) (cap l);
  lru_pop_lru l := (mkLru (take (length (items l) - 1) (items l)) (cap l), last (items l));
  lru_iter := items;
  lru_cap := cap
|}.

#[export] Instance ListLru_laws V : LruLaws (ListLru V) V.
Proof. by split. Qed.

(** ** Lemmas on the recency list *)

Section RecencyFacts.
Context {V : Type}.
Implicit Types (k : bytes) (v : V) (l : list (bytes * V)).

Definition keys l : list bytes := l.*1.

Lemma entry_of_Some k v l : entry_of k l = Some v -> (k, v) ∈ l.
Proof.
  unfold entry_of. destruct (filter (fun e => e.1 = k) l) as [|[k' v'] l'] eqn:E; [done|].
  cbn. intros [= ->]. assert (Hin : (k', v) ∈ filter (fun e => e.1 = k) l).
  { rewrite E. constructor. }
  apply list_elem_of_filter in Hin as [Hk Hin]. cbn in Hk. by subst.
Qed.

Lemma entry_of_None k l : entry_of k l = None <-> k ∉ keys l.
Proof.
  unfold entry_of, keys. destruct (filter (fun e => e.1 = k) l) as [|e l'] eqn:E; cbn.
  - split; [intros _|done]. intros Hin. apply list_elem_of_fmap in Hin as (e & -> & He).
    by apply (filter_nil_not_elem_of _ _ _ E eq_refl) in He.
  - split; [done|]. intros Hn. exfalso. apply Hn.
    assert (He : e ∈ filter (fun e => e.1 = k) l) by (rewrite E; constructor).
    apply list_elem_of_filter in He as [<- He]. apply list_elem_of_fmap. eauto.
Qed.

Lemma elem_of_without k k' v l : (k', v) ∈ without k l <-> k' <> k /\ (k', v) ∈ l.
Proof. unfold without. by rewrite list_elem_of_filter. Qed.

Lemma keys_without k k' l : k' ∈ keys (without k l) <-> k' <> k /\ k' ∈ keys l.
Proof.
  unfold keys, without. rewrite !list_elem_of_fmap. setoid_rewrite list_elem_of_filter.
  naive_solver.
Qed.

Lemma NoDup_without k l : NoDup (keys l) -> NoDup (keys (without k l)).
Proof.
  unfold keys, without. induction l as [|e l IH]; [done|]. rewrite filter_cons. cbn [fmap list_fmap].
  intros [Hn Hd]%NoDup_cons. case_decide; [|auto]. cbn. apply NoDup_cons. split; [|auto].
  intros Hin. apply Hn. apply list_elem_of_fmap in Hin as (e' & He & Hin).
  apply list_elem_of_filter in Hin as [_ Hin]. apply list_elem_of_fmap. eauto.
Qed.

Lemma without_notin k l : k ∉ keys l -> without k l = l.
Proof.
  unfold without, keys. induction l as [|e l IH]; [done|]. cbn [fmap list_fmap]. intros Hn.
  rewrite filter_cons_True by set_solver. f_equal. apply IH. set_solver.
Qed.

Lemma length_without k l : NoDup (keys l) -> k ∈ keys l -> (length (without k l) + 1 = length l)%nat.
Proof.
  induction l as [|e l IH]; [set_solver|]. cbn [keys fmap list_fmap].
  intros [Hn Hd]%NoDup_cons Hin. unfold without. rewrite filter_cons. fold (without k l).
  case_decide as Hk; cbn [length].
  - rewrite <- IH; [lia|done|]. apply elem_of_cons in Hin as [->|]; [done|done].
  - rewrite without_notin by by rewrite <- Hk. lia.
Qed.

Lemma keys_unique k v w l : NoDup (keys l) -> (k, v) ∈ l -> (k, w) ∈ l -> v = w.
Proof.
  intros Hd Hv Hw. apply list_elem_of_lookup_1 in Hv as [i Hi], Hw as [j Hj].
  assert (i = j) as ->; [|congruence].
  eapply NoDup_lookup; [exact Hd| |]; unfold keys; rewrite list_lookup_fmap.
  - by rewrite Hi.
  - by rewrite Hj.
Qed.

(** What promotion keeps. *)
Lemma promote_keys k l k' : k' ∈ keys (promote k l) <-> k' ∈ keys l.
Proof.
  unfold promote. destruct (entry_of k l) as [v|] eqn:E; [|done].
  apply entry_of_Some in E. assert (Hk : k ∈ keys l) by (apply list_elem_of_fmap; exists (k, v); done).
  cbn [keys fmap list_fmap]. rewrite elem_of_cons, keys_without. cbn.
  destruct (decide (k' = k)) as [->|]; naive_solver.
Qed.

Lemma promote_elem k l k' v : NoDup (keys l) -> (k', v) ∈ promote k l <-> (k', v) ∈ l.
Proof.
  intros Hd. unfold promote. destruct (entry_of k l) as [w|] eqn:E; [|done].
  apply entry_of_Some in E. rewrite elem_of_cons, elem_of_without. split.
  - intros [[= -> ->]|[_ ?]]; done.
  - intros Hin. destruct (decide (k' = k)) as [->|]; [left|by right].
    f_equal. by eapply keys_unique.
Qed.

Lemma promote_NoDup k l : NoDup (keys l) -> NoDup (keys (promote k l)).
Proof.
  intros Hd. unfold promote. case_match; [|done]. cbn. apply NoDup_cons.
  split; [|by apply NoDup_without]. by rewrite keys_without; intros [].
Qed.

Lemma promote_length k l : NoDup (keys l) -> length (promote k l) = length l.
Proof.
  intros Hd. unfold promote. destruct (entry_of k l) as [v|] eqn:E; [|done].
  apply entry_of_Some in E. cbn [length].
  rewrite <- (length_without k l); [lia|done|]. apply list_elem_of_fmap. by exists (k, v).
Qed.

End RecencyFacts.
