(* ===== verification/Dns.v ===== *)
(** * DNS: FakeIP pool, cache and module

    Models [crates/blackwire-app/src/dns/fakeip.rs], [dns/cache.rs] and the
    decisions of [dns.rs].  [LruCache] is the interface of file [Lru]; [Ipv4Net]
    of the [ipnet] crate and the upstream resolver are parameters.

    An [Ipv4Addr] is its [u32] value here.  Instants are in nanoseconds.  The two
    locks of the pool serialise the slow path, so an operation is one step. *)

From S2P Require Import Prelude Common Lru.

(** ** [Ipv4Net] *)

Class Ipv4Net (N : Type) := {
  v4_parse : bytes -> option N;
  v4_network : N -> Z;
  v4_broadcast : N -> Z;
  v4_contains : N -> Z -> bool
}.

Class Ipv4NetLaws (N : Type) `{Ipv4Net N} := {
  v4_range : forall n, 0 <= v4_network n <= v4_broadcast n /\ v4_broadcast n < 2 ^ 32;
  v4_contains_spec : forall n i, v4_contains n i = (v4_network n <=? i) && (i <=? v4_broadcast n)
}.

(** ** FakeIP pool ([dns/fakeip.rs]) *)

Section FakeIp.
Context {N L : Type} `{Ipv4Net N} `{Lru L unit}.

Record FakeIpPool := mkPool {
  network : N;
  next : Z;
  pool_size : nat;
  forward : gmap bytes Z;
  reverse_map : gmap Z bytes;
  lru : L
}.

Definition FakeIpPool_new (cidr : bytes) : res unit FakeIpPool :=
  net ← of_option tt (v4_parse cidr);
  let network_u32 := v4_network net in
  let broadcast_u32 := v4_broadcast net in
  let size := Z.to_nat (Z.max 0 (broadcast_u32 - network_u32 - 1)) in
  let c := Nat.max size 1 in
  Ok (mkPool net (as_u32 (network_u32 + 1)) c ∅ ∅ (lru_new c)).

(** A pool with some fields replaced. *)
Definition with_maps (p : FakeIpPool) (n : Z) (f : gmap bytes Z) (r : gmap Z bytes) (l : L) : FakeIpPool :=
  mkPool (network p) n (pool_size p) f r l.

(** The tail of [claim_ip]: advance the counter, drop a previous owner. *)
Definition claim_next (p : FakeIpPool) : FakeIpPool * Z :=
  let network_u32 := v4_network (network p) in
  let broadcast_u32 := v4_broadcast (network p) in
  let first := as_u32 (network_u32 + 1) in
  let raw := next p in
  let n := if broadcast_u32 <=? raw then first else as_u32 (raw + 1) in
  let candidate := if (raw <? first) || (broadcast_u32 <=? raw) then first else raw in
  match reverse_map p !! candidate with
  | Some old_domain =>
      (with_maps p n (delete old_domain (forward p)) (delete candidate (reverse_map p))
         (lru_pop old_domain (lru p)), candidate)
  | None => (with_maps p n (forward p) (reverse_map p) (lru p), candidate)
  end.

Definition claim_ip (p : FakeIpPool) : FakeIpPool * Z :=
  if (pool_size p <=? size (forward p))%nat then
    let '(l, evicted) := lru_pop_lru (lru p) in
    match evicted with
    | Some (d, _) =>
        match forward p !! d with
        | Some i => (with_maps p (next p) (delete d (forward p)) (delete i (reverse_map p)) l, i)
        | None => claim_next (with_maps p (next p) (forward p) (reverse_map p) l)
        end
    | None => claim_next (with_maps p (next p) (forward p) (reverse_map p) l)
    end
  else claim_next p.

Definition allocate (p : FakeIpPool) (d : bytes) : FakeIpPool * Z :=
  match forward p !! d with
  | Some i =>
      (with_maps p (next p) (forward p) (reverse_map p) (fst (lru_get d (lru p))), i)
  | None =>
      let '(p, i) := claim_ip p in
      (with_maps p (next p) (<[d := i]> (forward p)) (<[i := d]> (reverse_map p))
         (lru_put d tt (lru p)), i)
  end.

Definition reverse (p : FakeIpPool) (i : Z) : option bytes := reverse_map p !! i.

Definition is_fake (p : FakeIpPool) (i : Z) : bool := v4_contains (network p) i.

End FakeIp.
Arguments FakeIpPool : clear implicits.

(** ** Invariant of the pool *)

Section FakeIpFacts.
Context {N L : Type} `{HN : Ipv4NetLaws N} `{HL : LruLaws L unit}.
Implicit Types (p : FakeIpPool N L) (d : bytes) (i : Z).

(** At least two usable addresses strictly between network and broadcast, or one. *)
Definition usable p : Prop := v4_broadcast (network p) - v4_network (network p) >= 2.

(** The two maps are inverse; the recency list holds the same domains; and the
    addresses handed out are the first [size] ones of the range, in the order of
    the counter, until the pool is full. *)
Record pool_ok p : Prop := {
  ok_size : Z.of_nat (pool_size p) = v4_broadcast (network p) - v4_network (network p) - 1;
  ok_pos : (1 <= pool_size p)%nat;
  ok_inverse : forall d i, forward p !! d = Some i <-> reverse_map p !! i = Some d;
  ok_lru : forall d, d ∈ keys (lru_iter (lru p)) <-> is_Some (forward p !! d);
  ok_nodup : NoDup (keys (lru_iter (lru p)));
  ok_next : next p = v4_network (network p) + 1 + Z.of_nat (size (forward p));
  ok_bound : next p <= v4_broadcast (network p);
  ok_below : forall d i, forward p !! d = Some i -> v4_network (network p) < i < next p;
  ok_cap : lru_cap (lru p) = pool_size p
}.

Lemma pool_ok_new cidr p :
  FakeIpPool_new cidr = Ok p -> usable p -> pool_ok p.
Proof.
  unfold FakeIpPool_new, usable. destruct (v4_parse cidr) as [net|]; [|done]. cbn.
  intros [= <-]. cbn. intros Hu. pose proof (v4_range net) as Hr.
  destruct (lru_new_law (Nat.max (Z.to_nat (Z.max 0 (v4_broadcast net - v4_network net - 1))) 1))
    as [Hi Hc].
  unfold as_u32. rewrite Z.mod_small by lia.
  split; cbn.
  - lia.
  - lia.
  - intros d i. by rewrite !lookup_empty.
  - intros d. rewrite Hi, lookup_empty. split; [set_solver|by intros []].
  - rewrite Hi. constructor.
  - rewrite map_size_empty. lia.
  - lia.
  - intros d i. by rewrite lookup_empty.
  - exact Hc.
Qed.

Lemma last_keys (l : list (bytes * unit)) d u :
  last l = Some (d, u) -> keys l = keys (take (length l - 1) l) ++ [d].
Proof.
  intros Hl. apply last_Some in Hl as [l' ->]. rewrite length_app, Nat.add_sub. cbn [length].
  rewrite take_app_length. unfold keys. by rewrite fmap_app.
Qed.

(** The number of domains is the length of the recency list. *)
Lemma pool_count p : pool_ok p -> length (lru_iter (lru p)) = size (forward p).
Proof.
  intros Hp. transitivity (length (keys (lru_iter (lru p)))).
  { unfold keys. by rewrite length_fmap. }
  rewrite <- size_dom. rewrite <- (size_list_to_set (C:=gset bytes)) by apply Hp.
  f_equal. apply set_eq. intros d. rewrite elem_of_list_to_set, elem_of_dom. apply Hp.
Qed.

(** The pool without one domain: what both eviction branches leave. *)
Lemma inverse_delete (f : gmap bytes Z) (r : gmap Z bytes) d0 i0 :
  (forall d i, f !! d = Some i <-> r !! i = Some d) -> f !! d0 = Some i0 ->
  forall d i, delete d0 f !! d = Some i <-> delete i0 r !! i = Some d.
Proof.
  intros Hinv He d i. rewrite !lookup_delete_Some. split; intros [Hne Hl]; split.
  - intros ->. apply Hne. apply Hinv in He, Hl. congruence.
  - by apply Hinv.
  - intros ->. apply Hne. apply Hinv in Hl. congruence.
  - by apply Hinv.
Qed.

Lemma inverse_insert (f : gmap bytes Z) (r : gmap Z bytes) d0 i0 :
  (forall d i, f !! d = Some i <-> r !! i = Some d) -> f !! d0 = None -> r !! i0 = None ->
  forall d i, <[d0 := i0]> f !! d = Some i <-> <[i0 := d0]> r !! i = Some d.
Proof.
  intros Hinv Hf Hr d i. rewrite !lookup_insert_Some. split.
  - intros [[<- <-]|[Hne Hl]]; [by left|right]. split; [|by apply Hinv].
    intros ->. apply Hinv in Hl. congruence.
  - intros [[<- <-]|[Hne Hl]]; [by left|right]. split; [|by apply Hinv].
    intros ->. apply Hinv in Hl. congruence.
Qed.

(** What [claim_ip] returns: an address nobody holds, and the domain that lost it. *)
Inductive claimed p : FakeIpPool N L -> Z -> option bytes -> Prop :=
| claimed_fresh :
    (size (forward p) < pool_size p)%nat ->
    claimed p (with_maps p (next p + 1) (forward p) (reverse_map p) (lru p)) (next p) None
| claimed_evict d u i l :
    size (forward p) = pool_size p -> last (lru_iter (lru p)) = Some (d, u) ->
    forward p !! d = Some i ->
    lru_iter l = take (length (lru_iter (lru p)) - 1) (lru_iter (lru p)) ->
    lru_cap l = lru_cap (lru p) ->
    claimed p (with_maps p (next p) (delete d (forward p)) (delete i (reverse_map p)) l) i (Some d).

Lemma claim_ip_spec p :
  pool_ok p -> exists p' i e, claim_ip p = (p', i) /\ claimed p p' i e.
Proof.
  intros Hp. pose proof (v4_range (network p)) as Hr. unfold claim_ip.
  destruct (Nat.leb_spec (pool_size p) (size (forward p))) as [Hfull|Hfree].
  - pose proof (lru_pop_lru_law (lru p)) as Hpop.
    destruct (lru_pop_lru (lru p)) as [l o]. destruct Hpop as (Hit & -> & Hc).
    assert (Hsz : size (forward p) = pool_size p).
    { pose proof (ok_bound _ Hp). pose proof (ok_next _ Hp). pose proof (ok_size _ Hp). lia. }
    destruct (last (lru_iter (lru p))) as [[d u]|] eqn:Hl.
    2: { apply last_None in Hl. pose proof (pool_count p Hp) as Hcnt. rewrite Hl in Hcnt.
         cbn in Hcnt. pose proof (ok_pos _ Hp). lia. }
    destruct (proj1 (ok_lru _ Hp d)) as [i Hi].
    { rewrite (last_keys _ _ _ Hl). set_solver. }
    rewrite Hi. do 3 eexists. split; [reflexivity|]. by eapply claimed_evict.
  - unfold claim_next.
    pose proof (ok_bound _ Hp). pose proof (ok_next _ Hp). pose proof (ok_size _ Hp).
    unfold as_u32. rewrite !(Z.mod_small (v4_network (network p) + 1)) by lia.
    destruct (Z.leb_spec (v4_broadcast (network p)) (next p)); [lia|].
    destruct (Z.ltb_spec (next p) (v4_network (network p) + 1)); [lia|]. cbn [orb].
    rewrite Z.mod_small by lia.
    destruct (reverse_map p !! next p) as [d|] eqn:E.
    { apply (ok_inverse _ Hp), (ok_below _ Hp) in E. lia. }
    do 3 eexists. split; [reflexivity|]. by apply claimed_fresh.
Qed.

(** What [allocate] does to the assignments. *)
Inductive allocated p d : FakeIpPool N L -> Z -> Prop :=
| allocated_hit p' i :
    forward p !! d = Some i -> forward p' = forward p ->
    lru_iter (lru p') = promote d (lru_iter (lru p)) -> allocated p d p' i
| allocated_fresh p' :
    forward p !! d = None -> (size (forward p) < pool_size p)%nat ->
    forward p' = <[d := next p]> (forward p) -> allocated p d p' (next p)
| allocated_evict p' i old u :
    forward p !! d = None -> size (forward p) = pool_size p ->
    last (lru_iter (lru p)) = Some (old, u) -> forward p !! old = Some i ->
    forward p' = <[d := i]> (delete old (forward p)) -> allocated p d p' i.

Lemma allocate_hit_ok p d i :
  pool_ok p -> forward p !! d = Some i ->
  pool_ok (with_maps p (next p) (forward p) (reverse_map p) (fst (lru_get d (lru p)))) /\
  lru_iter (fst (lru_get d (lru p))) = promote d (lru_iter (lru p)).
Proof.
  intros [] Hd. pose proof (lru_get_law d (lru p)) as Hg.
  destruct (lru_get d (lru p)) as [l o]. destruct Hg as (Hit & _ & Hc). cbn.
  split; [|done]. split; cbn; try done.
  - intros d'. by rewrite Hit, promote_keys.
  - rewrite Hit. by apply promote_NoDup.
  - by rewrite Hc.
Qed.

(** Putting a new domain into a recency list that has room. *)
Lemma put_new (l : L) d (n : nat) :
  d ∉ keys (lru_iter l) -> (length (lru_iter l) < lru_cap l)%nat ->
  lru_iter (lru_put d tt l) = (d, tt) :: lru_iter l /\ lru_cap (lru_put d tt l) = lru_cap l.
Proof.
  intros Hd Hn. destruct (lru_put_law d tt l) as [-> ->]. split; [|done]. unfold put_front.
  rewrite (proj2 (entry_of_None d _) Hd). by destruct (Nat.leb_spec (lru_cap l) (length (lru_iter l))); [lia|].
Qed.

Lemma absent_key p d : pool_ok p -> forward p !! d = None -> d ∉ keys (lru_iter (lru p)).
Proof. intros Hp Hd. rewrite (ok_lru _ Hp), Hd. by intros []. Qed.

(** Giving a claimed address to a new domain restores the invariant. *)
Lemma assign_fresh_ok p d :
  pool_ok p -> forward p !! d = None -> (size (forward p) < pool_size p)%nat ->
  pool_ok (with_maps p (next p + 1) (<[d := next p]> (forward p)) (<[next p := d]> (reverse_map p))
    (lru_put d tt (lru p))).
Proof.
  intros Hp Hd Hfree. pose proof (pool_count p Hp) as Hcnt.
  pose proof (absent_key p d Hp Hd) as Hdk.
  assert (Hfresh : reverse_map p !! next p = None).
  { apply eq_None_not_Some. intros [x Hx]. apply (ok_inverse _ Hp), (ok_below _ Hp) in Hx. lia. }
  destruct Hp. destruct (put_new (lru p) d 0 Hdk) as [Hput Hpc]; [lia|].
  split; cbn; rewrite ?Hput, ?Hpc; try done.
  - by apply inverse_insert.
  - intros d'. cbn. rewrite elem_of_cons, ok_lru0, lookup_insert. case_decide; naive_solver.
  - cbn. by apply NoDup_cons.
  - rewrite map_size_insert_None by done. lia.
  - lia.
  - intros d' i'. rewrite lookup_insert_Some. intros [[_ <-]|[_ Hl]]; [lia|].
    specialize (ok_below0 _ _ Hl). lia.
Qed.

Lemma assign_evict_ok p d old u i l :
  pool_ok p -> forward p !! d = None -> size (forward p) = pool_size p ->
  last (lru_iter (lru p)) = Some (old, u) -> forward p !! old = Some i ->
  lru_iter l = take (length (lru_iter (lru p)) - 1) (lru_iter (lru p)) ->
  lru_cap l = lru_cap (lru p) ->
  pool_ok (with_maps p (next p) (<[d := i]> (delete old (forward p)))
    (<[i := d]> (delete i (reverse_map p))) (lru_put d tt l)).
Proof.
  intros Hp Hd Hfull Hlast Hold Hit Hcap. pose proof (pool_count p Hp) as Hcnt.
  pose proof (absent_key p d Hp Hd) as Hdk. pose proof (last_keys _ _ _ Hlast) as Hkeys.
  rewrite <- Hit in Hkeys. destruct Hp.
  assert (Hne : d <> old) by congruence.
  rewrite Hkeys in ok_nodup0, Hdk. apply NoDup_app in ok_nodup0 as (Hnd & Hnotin & _).
  destruct (put_new l d 0) as [Hput Hpc].
  { set_solver. }
  { rewrite Hit, length_take, Hcap. lia. }
  assert (Hsize : size (delete old (forward p)) = (pool_size p - 1)%nat).
  { rewrite map_size_delete, Hold. cbn. lia. }
  split; cbn; rewrite ?Hput, ?Hpc, ?Hcap; try done.
  - apply inverse_insert; [by apply inverse_delete| |by apply lookup_delete_eq].
    by rewrite lookup_delete_ne.
  - intros d'. cbn. rewrite elem_of_cons, lookup_insert, lookup_delete.
    assert (Hold' : old ∉ keys (lru_iter l)) by (intros Hin; apply (Hnotin old Hin); set_solver).
    specialize (ok_lru0 d'). rewrite Hkeys, elem_of_app, list_elem_of_singleton in ok_lru0.
    repeat case_decide; subst; [naive_solver| |naive_solver].
    split; [by intros [->|]|by intros []].
  - cbn. apply NoDup_cons. set_solver.
  - rewrite map_size_insert_None by by rewrite lookup_delete_ne. lia.
  - intros d' i'. rewrite lookup_insert_Some, lookup_delete_Some.
    intros [[_ <-]|[_ [_ Hl]]]; eauto.
Qed.

Lemma allocate_ok p d :
  pool_ok p ->
  let '(p', i) := allocate p d in
  pool_ok p' /\ network p' = network p /\ forward p' !! d = Some i /\ allocated p d p' i.
Proof.
  intros Hp. unfold allocate. destruct (forward p !! d) as [i|] eqn:Hd.
  { destruct (allocate_hit_ok p d i Hp Hd) as [Hok Hl]. split; [done|]. split; [done|].
    split; [done|]. by eapply allocated_hit. }
  destruct (claim_ip_spec p Hp) as (p' & i & e & -> & Hc).
  destruct Hc as [Hfree|old u i l Hfull Hlast Hold Hit Hcap]; cbn.
  - split; [exact (assign_fresh_ok p d Hp Hd Hfree)|]. split; [done|]. split; [by rewrite lookup_insert_eq|].
    by apply (allocated_fresh p d).
  - split; [exact (assign_evict_ok p d old u i l Hp Hd Hfull Hlast Hold Hit Hcap)|]. split; [done|]. split; [by rewrite lookup_insert_eq|].
    by eapply (allocated_evict p d).
Qed.

(** Pools reached from a new one by any sequence of allocations. *)
Inductive pool_reach p : FakeIpPool N L -> Prop :=
| reach_new : pool_reach p p
| reach_alloc p1 d : pool_reach p p1 -> pool_reach p (fst (allocate p1 d)).

Lemma pool_reach_ok p p' : pool_ok p -> pool_reach p p' -> pool_ok p' /\ network p' = network p.
Proof.
  intros Hp Hr. induction Hr as [|p1 d _ [IH Hn]]; [done|].
  pose proof (allocate_ok p1 d IH) as Ha. destruct (allocate p1 d) as [p2 i]. cbn.
  destruct Ha as (Hok & Hnet & _). split; [done|congruence].
Qed.

End FakeIpFacts.

(** ** DNS cache ([dns/cache.rs]) *)

Section DnsCache.
Context {L : Type}.

Inductive CacheEntry :=
| Positive (ips : list IpAddr) (expires : Z)
| Negative (expires : Z).

Context `{Lru L CacheEntry}.

Definition expires (e : CacheEntry) : Z :=
  match e with Positive _ t => t | Negative t => t end.

(** The mutex-protected [LruCache]. *)
Record DnsCache := mkCache { cache_inner : L }.

Definition NANOS : Z := 10 ^ 9.

Definition DnsCache_new (capacity : nat) : DnsCache := mkCache (lru_new (Nat.max capacity 1)).

(** [get]: a hit promotes the entry; anything but a live positive entry is popped. *)
Definition get (c : DnsCache) (d : bytes) (now : Z) : DnsCache * option (list IpAddr) :=
  let '(l, o) := lru_get d (cache_inner c) in
  let result :=
    (fun e => if expires e <? now then None
              else match e with Positive ips _ => Some ips | Negative _ => None end) <$> o in
  match result with
  | Some (Some ips) => (mkCache l, Some ips)
  | Some None => (mkCache (lru_pop d l), None)
  | None => (mkCache l, None)
  end.

Definition is_negative_cached (c : DnsCache) (d : bytes) (now : Z) : DnsCache * bool :=
  let '(l, o) := lru_get d (cache_inner c) in
  let result :=
    (fun e => if expires e <? now then None
              else Some (match e with Negative _ => true | Positive _ _ => false end)) <$> o in
  match result with
  | Some (Some is_negative) => (mkCache l, is_negative)
  | Some None => (mkCache (lru_pop d l), false)
  | None => (mkCache l, false)
  end.

Definition insert (c : DnsCache) (d : bytes) (ips : list IpAddr) (ttl_secs now : Z) : DnsCache :=
  mkCache (lru_put d (Positive ips (now + ttl_secs * NANOS)) (cache_inner c)).

Definition insert_negative (c : DnsCache) (d : bytes) (ttl_secs now : Z) : DnsCache :=
  mkCache (lru_put d (Negative (now + ttl_secs * NANOS)) (cache_inner c)).

Definition evict_expired (c : DnsCache) (now : Z) : DnsCache :=
  let expired := (filter (fun e => expires e.2 < now) (lru_iter (cache_inner c))).*1 in
  mkCache (foldl (fun l k => lru_pop k l) (cache_inner c) expired).

Definition len (c : DnsCache) : nat := length (lru_iter (cache_inner c)).

Definition is_empty (c : DnsCache) : bool := (length (lru_iter (cache_inner c)) =? 0)%nat.

(** ** DNS module ([dns.rs]) *)

Definition DNS_POSITIVE_TTL_SECS : Z := 300.
Definition DNS_NEGATIVE_TTL_SECS : Z := 5.

(** [resolve]: the upstream answer is a parameter, evaluated at most once; the
    flag says whether the resolver was asked.  The three clock readings are those
    of the cache operations. *)
Definition resolve (upstream : bytes -> res ProxyError (list IpAddr)) (c : DnsCache) (d : bytes)
    (t1 t2 t3 : Z) : DnsCache * res ProxyError (list IpAddr) * bool :=
  let '(c, cached) := get c d t1 in
  match cached with
  | Some ips => (c, Ok ips, false)
  | None =>
      let '(c, neg) := is_negative_cached c d t2 in
      if neg : bool then (c, Err (DnsResolutionFailed d), false)
      else
        match upstream d with
        | Ok ips => (insert c d ips DNS_POSITIVE_TTL_SECS t3, Ok ips, true)
        | Err e => (insert_negative c d DNS_NEGATIVE_TTL_SECS t3, Err e, true)
        | Panic => (c, Panic, true)
        end
  end.

End DnsCache.
Arguments DnsCache : clear implicits.

(** [ends_with] and the dot before it. *)
Definition ends_with (s f : bytes) : bool := bool_decide (drop (length s - length f) s = f).

Definition filter_entry (d f : bytes) : res unit bool :=
  if decide (d = f) then Ok true else
  if (length f <? length d)%nat then
    b ← idx d (length d - length f - 1);
    Ok ((b =? 46) && ends_with d f)
  else Ok false.

Fixpoint is_filtered (filters : list bytes) (d : bytes) : res unit bool :=
  match filters with
  | [] => Ok false
  | f :: fs => b ← filter_entry d f; if b : bool then Ok true else is_filtered fs d
  end.

(** ** Cache facts *)

Section CacheFacts.
Context {L : Type} `{HL : LruLaws L CacheEntry}.
Implicit Types (c : DnsCache L) (d : bytes).

Definition entries c : list (bytes * CacheEntry) := lru_iter (cache_inner c).

Lemma entry_of_without {V} d (l : list (bytes * V)) : entry_of d (without d l) = None.
Proof. apply entry_of_None. rewrite keys_without. by intros []. Qed.

Lemma entry_of_cons {V} d (v : V) l : entry_of d ((d, v) :: l) = Some v.
Proof. unfold entry_of. by rewrite filter_cons_True. Qed.

Lemma entry_of_cons_ne {V} d d' (v : V) l : d' <> d -> entry_of d' ((d, v) :: l) = entry_of d' l.
Proof. intros Hne. unfold entry_of. by rewrite filter_cons_False by (cbn; congruence). Qed.

Lemma entry_of_without_ne {V} d d' (l : list (bytes * V)) :
  d' <> d -> entry_of d' (without d l) = entry_of d' l.
Proof.
  intros Hne. unfold entry_of, without. rewrite list_filter_filter.
  do 2 f_equal. apply list_filter_iff. naive_solver.
Qed.

Lemma entry_of_promote {V} d (l : list (bytes * V)) d' : entry_of d' (promote d l) = entry_of d' l.
Proof.
  unfold promote. destruct (entry_of d l) as [v|] eqn:E; [|done].
  destruct (decide (d' = d)) as [->|Hne]; [by rewrite entry_of_cons|].
  by rewrite entry_of_cons_ne, entry_of_without_ne.
Qed.

(** A live answer. *)
Definition live (o : option CacheEntry) (now : Z) : option (list IpAddr) :=
  match o with
  | Some (Positive ips t) => if t <? now then None else Some ips
  | _ => None
  end.

Lemma get_spec c d now :
  let '(c', r) := get c d now in
  r = live (entry_of d (entries c)) now /\
  entry_of d (entries c') = (if r is Some _ then entry_of d (entries c) else None) /\
  (forall d', d' <> d -> entry_of d' (entries c') = entry_of d' (entries c)).
Proof.
  unfold get. pose proof (lru_get_law d (cache_inner c)) as Hg.
  destruct (lru_get d (cache_inner c)) as [l o]. destruct Hg as (Hit & -> & _).
  destruct (lru_pop_law d l) as [Hpop _]. unfold entries.
  destruct (entry_of d (lru_iter (cache_inner c))) as [e|] eqn:E; cbn.
  2: { rewrite Hit, entry_of_promote. split; [done|]. split; [done|].
       intros d' _. by rewrite entry_of_promote. }
  destruct e as [ips t|t]; cbn; destruct (Z.ltb_spec t now); cbn;
    rewrite ?Hpop, ?Hit, ?entry_of_without, ?entry_of_promote, ?E;
    (split; [done|]); (split; [done|]); intros d' Hd';
    by rewrite ?entry_of_without_ne, entry_of_promote by done.
Qed.

Lemma is_negative_absent c d now :
  entry_of d (entries c) = None -> snd (is_negative_cached c d now) = false.
Proof.
  intros He. unfold is_negative_cached. pose proof (lru_get_law d (cache_inner c)) as Hg.
  destruct (lru_get d (cache_inner c)) as [l o]. destruct Hg as (_ & -> & _).
  unfold entries in He. by rewrite He.
Qed.

Lemma is_negative_positive c d now ips t :
  entry_of d (entries c) = Some (Positive ips t) -> snd (is_negative_cached c d now) = false.
Proof.
  intros He. unfold is_negative_cached. pose proof (lru_get_law d (cache_inner c)) as Hg.
  destruct (lru_get d (cache_inner c)) as [l o]. destruct Hg as (_ & -> & _).
  unfold entries in He. rewrite He. cbn. by destruct (t <? now).
Qed.

End CacheFacts.

(** ** Filter facts *)

Lemma filter_entry_spec d f :
  exists b, filter_entry d f = Ok b /\ (b = true <-> d = f \/ exists p, d = p ++ 46 :: f).
Proof.
  unfold filter_entry. case_decide as Heq; [by exists true; subst; split; [|split; [left|]]|].
  destruct (Nat.ltb_spec (length f) (length d)) as [Hl|Hl].
  2: { exists false. split; [done|]. split; [done|]. intros [?|[p ->]]; [done|].
       rewrite length_app in Hl. cbn in Hl. lia. }
  destruct (idx_ok (E:=unit) d (length d - length f - 1)) as (b & -> & Hb); [lia|]. mred.
  eexists. split; [reflexivity|]. rewrite andb_true_iff, Z.eqb_eq. unfold ends_with.
  rewrite bool_decide_eq_true. split.
  - intros [-> Hd]. right. exists (take (length d - length f - 1) d).
    rewrite <- (take_drop_middle d _ _ Hb) at 1. do 2 f_equal.
    rewrite <- Hd at 2. f_equal. lia.
  - intros [?|[p ->]]; [done|]. rewrite length_app in *. cbn [length] in *.
    replace (length p + S (length f) - length f - 1)%nat with (length p) in Hb by lia.
    rewrite lookup_app_r, Nat.sub_diag in Hb by lia. injection Hb as <-. split; [done|].
    replace (length p + S (length f) - length f)%nat with (length (p ++ [46]))
      by (rewrite length_app; cbn; lia).
    change (46 :: f) with ([46] ++ f). by rewrite app_assoc, drop_app_length.
Qed.

(** ** Properties *)

Section FakeIpProperties.
Context {N L : Type} `{HN : Ipv4NetLaws N} `{HL : LruLaws L unit}.

(** C27. FakeIP assignments are a bijection onto addresses of the pool: after any
    sequence of allocations from a new pool with at least one host address,
    allocating a domain gives an address strictly between the network and the
    broadcast address, which the pool recognises as fake, which reverses to that
    domain and to no other, and which the domain keeps when asked again. *)
Theorem fakeip_bijection (cidr : bytes) (p0 p p' : FakeIpPool N L) (d : bytes) (i : Z) :
  FakeIpPool_new cidr = Ok p0 -> usable p0 -> pool_reach p0 p -> allocate p d = (p', i) ->
  v4_network (network p') < i < v4_broadcast (network p') /\ is_fake p' i = true /\
  reverse p' i = Some d /\ (forall d', forward p' !! d' = Some i -> d' = d) /\
  snd (allocate p' d) = i.
Proof.
  intros Hnew Hu Hr Ha. pose proof (pool_ok_new _ _ Hnew Hu) as H0'.
  destruct (pool_reach_ok p0 p H0' Hr) as [Hp _].
  pose proof (allocate_ok p d Hp) as Hal. rewrite Ha in Hal. destruct Hal as (Hok & _ & Hf & _).
  pose proof (ok_below _ Hok _ _ Hf) as Hb. pose proof (ok_bound _ Hok).
  assert (Hrev : reverse_map p' !! i = Some d) by by apply (ok_inverse _ Hok).
  split; [lia|]. split; [|split; [done|split]].
  - unfold is_fake. rewrite v4_contains_spec, andb_true_iff, !Z.leb_le. lia.
  - intros d' Hd'. apply (ok_inverse _ Hok) in Hd'. congruence.
  - unfold allocate. by rewrite Hf.
Qed.

(** FakeIP eviction: an allocation leaves every other assignment alone while
    the pool has a free address; when all addresses are taken and the domain is
    new, exactly the least recently used domain loses its address, and the new
    domain gets that one. *)
Theorem fakeip_eviction (cidr : bytes) (p0 p p' : FakeIpPool N L) (d : bytes) (i : Z) :
  FakeIpPool_new cidr = Ok p0 -> usable p0 -> pool_reach p0 p -> allocate p d = (p', i) ->
  ((forward p !! d <> None \/ (size (forward p) < pool_size p)%nat) /\
   (forall d' i', forward p !! d' = Some i' -> forward p' !! d' = Some i')) \/
  (exists old u, forward p !! d = None /\ size (forward p) = pool_size p /\
     last (lru_iter (lru p)) = Some (old, u) /\ forward p !! old = Some i /\
     forward p' !! old = None /\
     (forall d' i', d' <> old -> forward p !! d' = Some i' -> forward p' !! d' = Some i')).
Proof.
  intros Hnew Hu Hr Ha. pose proof (pool_ok_new _ _ Hnew Hu) as H0'.
  destruct (pool_reach_ok p0 p H0' Hr) as [Hp _].
  pose proof (allocate_ok p d Hp) as Hal. rewrite Ha in Hal. destruct Hal as (_ & _ & _ & Hal).
  destruct Hal as [p' i Hd Hf _|p' Hd Hs Hf|p' i old u Hd Hs Hl Ho Hf]; rewrite Hf.
  - left. split; [left; congruence|done].
  - left. split; [by right|]. intros d' i' Hd'. rewrite lookup_insert_ne; [done|congruence].
  - right. exists old, u. assert (Hne : d <> old) by congruence. repeat (split; [done|]). split.
    + by rewrite lookup_insert_ne, lookup_delete_eq.
    + intros d' i' Hd' Hl'. rewrite lookup_insert_ne, lookup_delete_ne by congruence. done.
Qed.

End FakeIpProperties.

Section DnsProperties.
Context {L : Type} `{HL : LruLaws L CacheEntry}.

(** Insert and lookup in the DNS cache: an answer inserted with a TTL is
    returned up to its expiry instant and is a miss, and gone, afterwards; lookups
    do not disturb the answers for other domains. *)
Theorem dns_cache_insert_get (c : DnsCache L) (d : bytes) (ips : list IpAddr) (ttl now t : Z) :
  let '(c', r) := get (insert c d ips ttl now) d t in
  (t <= now + ttl * NANOS -> r = Some ips) /\
  (now + ttl * NANOS < t -> r = None /\ entry_of d (entries c') = None) /\
  (forall d', d' <> d ->
     entry_of d' (entries c') = entry_of d' (entries (insert c d ips ttl now))).
Proof.
  pose proof (get_spec (insert c d ips ttl now) d t) as Hg.
  destruct (get (insert c d ips ttl now) d t) as [c' r]. destruct Hg as (-> & He & Ho).
  assert (Hput : entry_of d (entries (insert c d ips ttl now)) = Some (Positive ips (now + ttl * NANOS))).
  { unfold entries, insert. cbn. destruct (lru_put_law d (Positive ips (now + ttl * NANOS)) (cache_inner c)) as [-> _].
    unfold put_front. repeat case_match; apply entry_of_cons. }
  rewrite Hput in *. cbn in *. destruct (Z.ltb_spec (now + ttl * NANOS) t).
  - split; [lia|]. split; [done|]. done.
  - split; [done|]. split; [lia|done].
Qed.

(** The negative DNS cache never takes effect: [resolve] asks the upstream
    resolver exactly when there is no live positive entry, whether or not a
    failure is cached, because the preceding [get] pops a live negative entry. *)
Theorem dns_negative_cache_dead (upstream : bytes -> res ProxyError (list IpAddr))
    (c : DnsCache L) (d : bytes) (t1 t2 t3 : Z) :
  let '(_, _, asked) := resolve upstream c d t1 t2 t3 in
  asked = match live (entry_of d (entries c)) t1 with Some _ => false | None => true end.
Proof.
  unfold resolve. pose proof (get_spec c d t1) as Hg.
  destruct (get c d t1) as [c1 r]. destruct Hg as (-> & He & _).
  destruct (live (entry_of d (entries c)) t1) as [ips|]; [done|].
  pose proof (is_negative_absent c1 d t2 He) as Hn.
  destruct (is_negative_cached c1 d t2) as [c2 neg]. cbn in Hn. subst neg.
  by destruct (upstream d).
Qed.

End DnsProperties.

(** The FakeIP bypass filter never indexes out of range and matches exactly
    the listed names and their subdomains. *)
Lemma fakeip_filter_spec (filters : list bytes) (d : bytes) :
  exists b, is_filtered filters d = Ok b /\
    (b = true <-> exists f, f ∈ filters /\ (d = f \/ exists p, d = p ++ 46 :: f)).
Proof.
  induction filters as [|f fs (b & IH & Hb)]; cbn [is_filtered].
  { exists false. split; [done|]. split; [done|]. by intros (f & Hf & _); apply elem_of_nil in Hf. }
  destruct (filter_entry_spec d f) as (bf & -> & Hf). mred. destruct bf.
  - exists true. split; [done|]. split; [|done]. intros _. exists f. split; [constructor|tauto].
  - exists b. split; [done|]. rewrite Hb. setoid_rewrite elem_of_cons. split.
    + intros (g & Hg & ?). eauto.
    + intros (g & [->|Hg] & Hm); [|eauto]. apply Hf in Hm. done.
Qed.

(** ** Concrete instances *)

Record Range := mkRange { lo : Z; hi : Z; range_ok : (0 <=? lo) && (lo <=? hi) && (hi <? 2 ^ 32) = true }.

(** [198.18.0.0/29], whatever the text. *)
Definition small_range : Range := mkRange 3323068416 3323068423 eq_refl.

#[export] Instance Range_ops : Ipv4Net Range := {|
  v4_parse _ := Some small_range;
  v4_network := lo;
  v4_broadcast := hi;
  v4_contains r i := (lo r <=? i) && (i <=? hi r)
|}.

#[export] Instance Range_laws : Ipv4NetLaws Range.
Proof. split; [|done]. intros [l h Hr]. cbn in *. bool_hyps. lia. Qed.

Definition small_pool : FakeIpPool Range (ListLru unit) :=
  mkPool small_range 3323068417 6 ∅ ∅ (mkLru [] 6).

Lemma fakeip_bijection_witness :
  exists p', allocate small_pool (str "a.com") = (p', 3323068417) /\
    reverse p' 3323068417 = Some (str "a.com").
Proof.
  destruct (allocate small_pool (str "a.com")) as [p' i] eqn:Ha.
  destruct (fakeip_bijection (str "198.18.0.0/29") small_pool small_pool p' (str "a.com") i)
    as (_ & _ & Hrev & _).
  - reflexivity.
  - unfold usable. cbn. lia.
  - constructor.
  - exact Ha.
  - vm_compute in Ha. injection Ha as <- <-. eexists. split; [reflexivity|exact Hrev].
Defined.

Lemma fakeip_eviction_witness :
  exists p' i, allocate small_pool (str "a.com") = (p', i) /\
    forall d' i', forward small_pool !! d' = Some i' -> forward p' !! d' = Some i'.
Proof.
  destruct (allocate small_pool (str "a.com")) as [p' i] eqn:Ha. exists p', i. split; [reflexivity|].
  destruct (fakeip_eviction (str "198.18.0.0/29") small_pool small_pool p' (str "a.com") i)
    as [[_ Hk]|(old & u & _ & Hs & _)].
  - reflexivity.
  - unfold usable. cbn. lia.
  - constructor.
  - exact Ha.
  - exact Hk.
  - discriminate Hs.
Defined.

(** A lookup that failed a moment ago is asked again. *)
Lemma dns_negative_cache_dead_witness :
  let c0 := DnsCache_new (L:=ListLru CacheEntry) 512 in
  let up := fun _ => Err (DnsResolutionFailed (str "x")) in
  let c1 := fst (fst (resolve up c0 (str "x") 0 0 0)) in
  snd (resolve up c1 (str "x") 1 1 1) = true.
Proof.
  intros c0 up c1. pose proof (dns_negative_cache_dead up c1 (str "x") 1 1 1) as Hd.
  destruct (resolve up c1 (str "x") 1 1 1) as [[c2 r] asked]. cbn [snd]. rewrite Hd.
  vm_compute. reflexivity.
Defined.

Lemma dns_cache_insert_get_witness :
  let c0 := DnsCache_new (L:=ListLru CacheEntry) 512 in
  snd (get (insert c0 (str "x") [V4 [1; 2; 3; 4]] 300 0) (str "x") 7) = Some [V4 [1; 2; 3; 4]].
Proof.
  intros c0. pose proof (dns_cache_insert_get c0 (str "x") [V4 [1; 2; 3; 4]] 300 0 7) as Hg.
  destruct (get (insert c0 (str "x") [V4 [1; 2; 3; 4]] 300 0) (str "x") 7) as [c r].
  destruct Hg as (Hg & _). cbn [snd]. apply Hg. vm_compute. congruence.
Defined.
