(* ===== verification/Limits.v ===== *)
(** * Admission: salt replay filter and per-user connection limits

    Models [crates/blackwire-protocol/src/ss2022/replay.rs] and
    [crates/blackwire-app/src/user_limits.rs].

    A [DashMap] operation is one atomic step on a finite map.  An
    [Arc<UserCounter>] is an index into a heap of counters, so that two clones of
    it are the same counter and a removed counter can still be held.  Counters
    are unbounded integers: they count live connections, far below [2^64]. *)

From S2P Require Import Prelude Common.

(** ** Salt replay filter *)

Module Replay.

Definition TTL_SECS : Z := 60.
Definition REAP_INTERVAL_SECS : Z := 30.
Definition NANOS : Z := 10 ^ 9.

Record SaltReplay := mkReplay { seen : gmap bytes Z }.

Definition new : SaltReplay := mkReplay ∅.

(** One round of the background task at [now]. *)
Definition reap (r : SaltReplay) (now : Z) : SaltReplay :=
  mkReplay (filter (fun '(_, ts) => Z.max 0 (now - ts) < TTL_SECS * NANOS) (seen r)).

Definition check_and_insert (r : SaltReplay) (salt : bytes) (now : Z) : SaltReplay * bool :=
  match seen r !! salt with
  | Some _ => (r, false)
  | None => (mkReplay (<[salt := now]> (seen r)), true)
  end.

Definition len (r : SaltReplay) : nat := size (seen r).

Definition is_empty (r : SaltReplay) : bool := bool_decide (seen r = ∅).

(** What happens to a filter: checks and reaper rounds, each at its instant. *)
Inductive event := Check (salt : bytes) (now : Z) | Reap (now : Z).

Definition event_time (e : event) : Z := match e with Check _ t => t | Reap t => t end.

(** The filter afterwards, and the answer to each check. *)
Fixpoint run (r : SaltReplay) (es : list event) : SaltReplay * list (bytes * Z * bool) :=
  match es with
  | [] => (r, [])
  | Check s t :: es' =>
      let '(r', b) := check_and_insert r s t in
      let '(r'', out) := run r' es' in (r'', (s, t, b) :: out)
  | Reap t :: es' => run (reap r t) es'
  end.

End Replay.

(** ** Connection limiter *)

Module Limiter.

Definition USIZE_MAX : Z := 2 ^ 64 - 1.

Record UserConnectionLimiter := mkLimiter {
  max_connections_per_user : Z;
  counters : gmap bytes nat;
  heap : list Z
}.

Record UserConnectionPermit := mkPermit {
  permit_user : bytes;
  permit_counter : option nat
}.

Definition new (m : Z) : UserConnectionLimiter := mkLimiter (Z.max m 1) ∅ [].

Definition set_max_connections_per_user (l : UserConnectionLimiter) (m : Z) : UserConnectionLimiter :=
  mkLimiter (Z.max m 1) (counters l) (heap l).

(** [counters.entry(user).or_insert_with(..).clone()] *)
Definition entry (l : UserConnectionLimiter) (u : bytes) : UserConnectionLimiter * nat :=
  match counters l !! u with
  | Some c => (l, c)
  | None =>
      let c := length (heap l) in
      (mkLimiter (max_connections_per_user l) (<[u := c]> (counters l)) (heap l ++ [0]), c)
  end.

Definition active (l : UserConnectionLimiter) (c : nat) : Z := nth c (heap l) 0.

(** [fetch_add] / [fetch_sub] on a counter; the result is the previous value. *)
Definition fetch_add (l : UserConnectionLimiter) (c : nat) (k : Z) : UserConnectionLimiter * Z :=
  (mkLimiter (max_connections_per_user l) (counters l) (<[c := active l c + k]> (heap l)), active l c).

(** [remove_if(user, |_, current| ptr_eq(current, counter) && current.active == 0)] *)
Definition remove_if_idle (l : UserConnectionLimiter) (u : bytes) (c : nat) : UserConnectionLimiter :=
  if decide (counters l !! u = Some c /\ active l c = 0)
  then mkLimiter (max_connections_per_user l) (delete u (counters l)) (heap l)
  else l.

Definition try_acquire (l : UserConnectionLimiter) (user : option bytes)
    : UserConnectionLimiter * option UserConnectionPermit :=
  match user with
  | None => (l, None)
  | Some u =>
      let m := max_connections_per_user l in
      if m =? USIZE_MAX then (l, Some (mkPermit u None))
      else
        let '(l, c) := entry l u in
        let '(l, prev) := fetch_add l c 1 in
        if m <? prev + 1 then (fst (fetch_add l c (-1)), None)
        else (l, Some (mkPermit u (Some c)))
  end.

(** [impl Drop for UserConnectionPermit] *)
Definition drop_permit (l : UserConnectionLimiter) (p : UserConnectionPermit) : UserConnectionLimiter :=
  match permit_counter p with
  | None => l
  | Some c =>
      let '(l, previous) := fetch_add l c (-1) in
      if previous <=? 1 then remove_if_idle l (permit_user p) c else l
  end.

(** ** Interleaved connections

    One thread per connection; each constructor is the point it has reached.  The
    cap [m] is fixed. *)

Inductive Thread :=
| TStart (u : bytes)
| TCloned (u : bytes) (c : nat)
| TAdded (u : bytes) (c : nat) (now_active : Z)
| TGranted (u : bytes) (c : nat)
| TDenied (u : bytes)
| TDropping (u : bytes) (c : nat) (previous : Z)
| TDone.

Inductive thread_step (l : UserConnectionLimiter) : Thread -> UserConnectionLimiter -> Thread -> Prop :=
| step_entry u l' c : entry l u = (l', c) -> thread_step l (TStart u) l' (TCloned u c)
| step_add u c l' prev :
    fetch_add l c 1 = (l', prev) -> thread_step l (TCloned u c) l' (TAdded u c (prev + 1))
| step_grant u c a :
    a <= max_connections_per_user l -> thread_step l (TAdded u c a) l (TGranted u c)
| step_deny u c a l' prev :
    max_connections_per_user l < a -> fetch_add l c (-1) = (l', prev) ->
    thread_step l (TAdded u c a) l' (TDenied u)
| step_drop u c l' prev :
    fetch_add l c (-1) = (l', prev) -> thread_step l (TGranted u c) l' (TDropping u c prev)
| step_remove u c prev :
    thread_step l (TDropping u c prev)
      (if prev <=? 1 then remove_if_idle l u c else l) TDone.

Record System := mkSystem { limiter : UserConnectionLimiter; threads : list Thread }.

Inductive sys_step (s : System) : System -> Prop :=
| sys_spawn u : sys_step s (mkSystem (limiter s) (threads s ++ [TStart u]))
| sys_thread n t l' t' :
    threads s !! n = Some t -> thread_step (limiter s) t l' t' ->
    sys_step s (mkSystem l' (<[n := t']> (threads s))).

Definition reachable (m : Z) : System -> Prop := rtc sys_step (mkSystem (new m) []).

End Limiter.

(** ** Replay: facts *)

Section ReplayFacts.
Import Replay.

Lemma lookup_reap r now s ts :
  seen (reap r now) !! s = Some ts <->
  seen r !! s = Some ts /\ Z.max 0 (now - ts) < TTL_SECS * NANOS.
Proof. unfold reap. cbn. by rewrite map_lookup_filter_Some. Qed.

Lemma check_and_insert_spec r s t :
  let '(r', b) := check_and_insert r s t in
  b = (if seen r !! s is Some _ then false else true) /\
  (forall s' ts, seen r !! s' = Some ts -> seen r' !! s' = Some ts) /\
  (b = true -> seen r' !! s = Some t) /\
  (forall s', s' <> s -> seen r' !! s' = seen r !! s').
Proof.
  unfold check_and_insert. destruct (seen r !! s) as [ts|] eqn:E; cbn; [done|].
  split; [done|]. split; [|split].
  - intros s' ts Hs. rewrite lookup_insert_ne; [done|congruence].
  - intros _. by rewrite lookup_insert_eq.
  - intros s' Hne. by rewrite lookup_insert_ne.
Qed.

(** A salt stays recorded while all events fall within its lifetime. *)
Lemma run_keeps r es s t :
  seen r !! s = Some t -> Forall (fun e => event_time e < t + TTL_SECS * NANOS) es ->
  seen (fst (run r es)) !! s = Some t.
Proof.
  revert r. induction es as [|[s' t'|t'] es IH]; intros r Hs He; cbn [run]; [done| |];
    apply Forall_cons in He as [Ht He]; cbn in Ht.
  - pose proof (check_and_insert_spec r s' t') as Hc.
    destruct (check_and_insert r s' t') as [r' b]. destruct Hc as (_ & Hk & _).
    specialize (IH r' (Hk _ _ Hs) He). by destruct (run r' es).
  - apply IH; [|done]. apply lookup_reap. split; [done|]. unfold TTL_SECS, NANOS in *. lia.
Qed.

Lemma run_unseen r es s :
  seen r !! s = None -> Forall (fun e => match e with Check s' _ => s' <> s | Reap _ => True end) es ->
  seen (fst (run r es)) !! s = None.
Proof.
  revert r. induction es as [|[s' t'|t'] es IH]; intros r Hs He; cbn [run]; [done| |];
    apply Forall_cons in He as [Ht He].
  - pose proof (check_and_insert_spec r s' t') as Hc.
    destruct (check_and_insert r s' t') as [r' b]. destruct Hc as (_ & _ & _ & Hk).
    assert (Hs' : seen r' !! s = None) by by rewrite Hk.
    specialize (IH r' Hs' He). by destruct (run r' es).
  - apply IH; [|done]. apply eq_None_not_Some. intros [ts Hts]. apply lookup_reap in Hts. naive_solver.
Qed.

(** C31. Anti-replay: from a new filter, whatever checks and reaper rounds happened
    before, a salt that is accepted at [t] is refused by every later check for the
    next 60 seconds (whatever checks and reaper rounds happen in between), a salt
    that was never presented is accepted, and a reaper round leaves no entry of 60
    seconds or more. *)
Theorem salt_replay_window (before between : list event) (s : bytes) (t t' : Z) :
  let r := fst (run new before) in
  Forall (fun e => event_time e < t + TTL_SECS * NANOS) between ->
  (snd (check_and_insert r s t) = true ->
   snd (check_and_insert (fst (run (fst (check_and_insert r s t)) between)) s t') = false) /\
  (Forall (fun e => match e with Check s' _ => s' <> s | Reap _ => True end) before ->
   snd (check_and_insert r s t) = true) /\
  (forall s' ts, seen (reap r t) !! s' = Some ts -> t - ts < TTL_SECS * NANOS).
Proof.
  intros r Hb. pose proof (check_and_insert_spec r s t) as Hc.
  destruct (check_and_insert r s t) as [r1 b]. cbn [fst snd]. destruct Hc as (Hres & _ & Hin & _).
  split; [|split].
  - intros Hok. pose proof (run_keeps r1 between s t (Hin Hok) Hb) as Hk.
    unfold check_and_insert. by rewrite Hk.
  - intros Hne. rewrite Hres. subst r. by rewrite (run_unseen new before s).
  - intros s' ts Hts. apply lookup_reap in Hts as [_ Hts]. lia.
Qed.

Lemma salt_replay_window_witness :
  snd (check_and_insert (fst (run (fst (check_and_insert new [1; 2] 5)) [Reap 7; Check [3] 8])) [1; 2] 9)
  = false.
Proof.
  refine (proj1 (salt_replay_window [] [Reap 7; Check [3] 8] [1; 2] 5 9 _) eq_refl).
  repeat constructor; vm_compute; reflexivity.
Defined.

End ReplayFacts.

(** ** Limiter: facts *)

Section LimiterFacts.
Import Limiter.

(** How many elements satisfy [f]. *)
Definition count {A} (f : A -> bool) (l : list A) : Z := Z.of_nat (length (List.filter f l)).

Lemma count_app {A} (f : A -> bool) l1 l2 : count f (l1 ++ l2) = count f l1 + count f l2.
Proof. unfold count. rewrite List.filter_app, length_app. lia. Qed.

Lemma count_cons {A} (f : A -> bool) x l : count f (x :: l) = Z.b2z (f x) + count f l.
Proof. unfold count. cbn. destruct (f x); cbn; lia. Qed.

Lemma count_insert {A} (f : A -> bool) l n x y :
  l !! n = Some x -> count f (<[n := y]> l) = count f l - Z.b2z (f x) + Z.b2z (f y).
Proof.
  revert n. induction l as [|z l IH]; intros [|n]; cbn [lookup list_lookup]; try done.
  - intros [= ->]. change (<[0%nat := y]> (x :: l)) with (y :: l). rewrite !count_cons. lia.
  - intros Hn. change (<[S n := y]> (z :: l)) with (z :: <[n := y]> l).
    rewrite !count_cons, (IH n) by done. lia.
Qed.

Lemma count_delete {A} (f : A -> bool) l n x :
  l !! n = Some x -> count f (delete n l) = count f l - Z.b2z (f x).
Proof.
  revert n. induction l as [|z l IH]; intros [|n]; cbn [lookup list_lookup]; try done.
  - intros [= ->]. change (delete 0%nat (x :: l)) with l. rewrite count_cons. lia.
  - intros Hn. change (delete (S n) (z :: l)) with (z :: delete n l).
    rewrite !count_cons, (IH n) by done. lia.
Qed.

Lemma count_nonneg {A} (f : A -> bool) l : 0 <= count f l.
Proof. unfold count. lia. Qed.

Lemma count_pos {A} (f : A -> bool) l n x : l !! n = Some x -> f x = true -> 0 < count f l.
Proof.
  intros Hn Hf. pose proof (count_delete f l n x Hn) as Hd. rewrite Hf in Hd.
  pose proof (count_nonneg f (delete n l)). cbn in Hd. lia.
Qed.

Lemma count_le {A} (f g : A -> bool) l :
  (forall x, f x = true -> g x = true) -> count f l <= count g l.
Proof.
  intros Hfg. induction l as [|x l IH]; [done|]. rewrite !count_cons.
  specialize (Hfg x). destruct (f x), (g x); cbn; try lia.
Qed.

(** Counter updates. *)
Lemma active_fetch_add l c k c' :
  (c < length (heap l))%nat ->
  active (fst (fetch_add l c k)) c' = active l c' + (if decide (c' = c) then k else 0).
Proof.
  intros Hc. unfold fetch_add. cbn [fst]. unfold active at 1. cbn [heap]. rewrite nth_lookup.
  case_decide as He.
  - subst. by rewrite list_lookup_insert_eq.
  - rewrite list_lookup_insert_ne, <- nth_lookup by done. unfold active. lia.
Qed.

Lemma active_entry l u l' c :
  entry l u = (l', c) ->
  (forall c', active l' c' = active l c') /\ (length (heap l) <= length (heap l'))%nat /\
  max_connections_per_user l' = max_connections_per_user l /\ counters l' !! u = Some c /\
  (forall u', u' <> u -> counters l' !! u' = counters l !! u').
Proof.
  unfold entry. destruct (counters l !! u) as [c0|] eqn:E; intros [= <- <-]; [done|].
  unfold active. cbn. split; [|split; [rewrite length_app; lia|split; [done|split]]].
  - intros c'. rewrite !nth_lookup. destruct (decide (c' < length (heap l))%nat).
    + by rewrite lookup_app_l.
    + rewrite lookup_app_r by lia. rewrite (lookup_ge_None_2 (heap l)) by lia.
      destruct (c' - length (heap l))%nat as [|[]]; done.
  - by rewrite lookup_insert_eq.
  - intros u' Hne. by rewrite lookup_insert_ne.
Qed.

Definition holds (c : nat) (t : Thread) : bool :=
  match t with TAdded _ c' _ | TGranted _ c' => bool_decide (c' = c) | _ => false end.

(** Holders that have a permit or will get one. *)
Definition admitted_on (m : Z) (c : nat) (t : Thread) : bool :=
  match t with
  | TAdded _ c' a => bool_decide (c' = c) && (a <=? m)
  | TGranted _ c' => bool_decide (c' = c)
  | _ => false
  end.

Definition granted_on (c : nat) (t : Thread) : bool :=
  match t with TGranted _ c' => bool_decide (c' = c) | _ => false end.

Definition refers (c : nat) (t : Thread) : Prop :=
  match t with
  | TCloned _ c' | TAdded _ c' _ | TGranted _ c' | TDropping _ c' _ => c' = c
  | _ => False
  end.

Record sys_ok (m : Z) (s : System) : Prop := {
  sok_max : max_connections_per_user (limiter s) = m;
  sok_active : forall c, active (limiter s) c = count (holds c) (threads s);
  sok_alloc : forall n t c, threads s !! n = Some t -> refers c t -> (c < length (heap (limiter s)))%nat;
  sok_map : forall u c, counters (limiter s) !! u = Some c -> (c < length (heap (limiter s)))%nat;
  sok_cap : forall c, count (admitted_on m c) (threads s) <= m
}.

Lemma sys_ok_new m : sys_ok (Z.max m 1) (mkSystem (new m) []).
Proof.
  split; cbn.
  - done.
  - intros c. unfold active. cbn. by destruct c.
  - done.
  - intros u c. by rewrite lookup_empty.
  - intros c. unfold count. cbn. lia.
Qed.

Lemma admitted_holds m c t : admitted_on m c t = true -> holds c t = true.
Proof. destruct t; cbn; try done. by intros [? _]%andb_true_iff. Qed.

(** One thread moves and the counters change accordingly. *)
Lemma thread_move_ok m s n t l' t' :
  sys_ok m s -> threads s !! n = Some t ->
  max_connections_per_user l' = m ->
  (forall c, active l' c = active (limiter s) c - Z.b2z (holds c t) + Z.b2z (holds c t')) ->
  (length (heap (limiter s)) <= length (heap l'))%nat ->
  (forall c, refers c t' -> (c < length (heap l'))%nat) ->
  (forall u c, counters l' !! u = Some c -> (c < length (heap l'))%nat) ->
  (forall c, count (admitted_on m c) (<[n := t']> (threads s)) <= m) ->
  sys_ok m (mkSystem l' (<[n := t']> (threads s))).
Proof.
  intros [Hmax Hact Hall Hmap Hcap] Hn Hmax' Hact' Hlen Href Hmap' Hcap'.
  split; cbn; try done.
  - intros c. by rewrite Hact', Hact, (count_insert _ _ _ _ _ Hn).
  - intros n' t1 c Hn' Hr. destruct (decide (n' = n)) as [->|Hne].
    + rewrite list_lookup_insert_eq in Hn' by (by eapply lookup_lt_Some). simplify_eq. eauto.
    + rewrite list_lookup_insert_ne in Hn' by done. specialize (Hall _ _ _ Hn' Hr). lia.
Qed.

Lemma cap_keep m s n t t' :
  sys_ok m s -> threads s !! n = Some t ->
  (forall c, admitted_on m c t' = true -> admitted_on m c t = true) ->
  forall c, count (admitted_on m c) (<[n := t']> (threads s)) <= m.
Proof.
  intros Hs Hn Ht c. rewrite (count_insert _ _ _ _ t' Hn). pose proof (sok_cap _ _ Hs c).
  specialize (Ht c). destruct (admitted_on m c t'), (admitted_on m c t); cbn; try lia.
Qed.

Lemma fetch_add_shape l c k l' prev :
  fetch_add l c k = (l', prev) ->
  prev = active l c /\ length (heap l') = length (heap l) /\ counters l' = counters l /\
  max_connections_per_user l' = max_connections_per_user l.
Proof. unfold fetch_add. intros [= <- <-]. cbn. by rewrite length_insert. Qed.

Lemma remove_if_idle_shape l u c :
  heap (remove_if_idle l u c) = heap l /\
  max_connections_per_user (remove_if_idle l u c) = max_connections_per_user l /\
  (forall u' c', counters (remove_if_idle l u c) !! u' = Some c' -> counters l !! u' = Some c').
Proof.
  unfold remove_if_idle. case_decide; cbn; [|done]. split; [done|]. split; [done|].
  intros u' c'. by rewrite lookup_delete_Some; intros [].
Qed.

Lemma b2z_holds_self (c c' : nat) : Z.b2z (bool_decide (c = c')) = if decide (c' = c) then 1 else 0.
Proof. repeat case_decide; repeat case_bool_decide; subst; done. Qed.

(** Moves that change one counter by [k] and nothing else of the limiter. *)
Lemma counter_move_ok m s n t t' c k l' prev :
  sys_ok m s -> threads s !! n = Some t -> refers c t ->
  fetch_add (limiter s) c k = (l', prev) ->
  (forall c', (if decide (c' = c) then k else 0) = Z.b2z (holds c' t') - Z.b2z (holds c' t)) ->
  (forall c', refers c' t' -> c' = c) ->
  (forall c', count (admitted_on m c') (<[n := t']> (threads s)) <= m) ->
  sys_ok m (mkSystem l' (<[n := t']> (threads s))).
Proof.
  intros Hs Hn Hr He Hk Hr' Hcap. pose proof (sok_alloc _ _ Hs n t c Hn Hr) as Hc.
  destruct (fetch_add_shape _ _ _ _ _ He) as (-> & Hlen & Hcs & Hm).
  apply (thread_move_ok m s n t); try done.
  - rewrite Hm. apply Hs.
  - intros c'. replace l' with (fst (fetch_add (limiter s) c k)) by by rewrite He.
    rewrite active_fetch_add, Hk by done. lia.
  - lia.
  - intros c' Hc'. rewrite (Hr' c' Hc'). lia.
  - intros u' c'. rewrite Hcs, Hlen. apply Hs.
Qed.

Lemma entry_step_ok m s n u l' c :
  sys_ok m s -> threads s !! n = Some (TStart u) -> entry (limiter s) u = (l', c) ->
  sys_ok m (mkSystem l' (<[n := TCloned u c]> (threads s))).
Proof.
  intros Hs Hn He. pose proof (sok_map _ _ Hs) as Hmap.
  destruct (active_entry _ _ _ _ He) as (Hact & Hlen & Hm & Hin & Hother).
  assert (Hcl : (c < length (heap l'))%nat).
  { unfold entry in He. destruct (counters (limiter s) !! u) as [c0|] eqn:E; simplify_eq/=.
    - by eapply Hmap.
    - rewrite length_app. cbn. lia. }
  apply (thread_move_ok m s n (TStart u)); try done.
  - rewrite Hm. apply Hs.
  - intros c'. rewrite Hact. cbn. lia.
  - by intros c' <-.
  - intros u' c' Hu'. destruct (decide (u' = u)) as [->|Hne]; [by simplify_eq|].
    rewrite Hother in Hu' by done. specialize (Hmap _ _ Hu'). lia.
  - by apply (cap_keep m s n (TStart u)).
Qed.

Lemma add_cap m s n u c :
  sys_ok m s -> threads s !! n = Some (TCloned u c) ->
  forall c', count (admitted_on m c')
    (<[n := TAdded u c (active (limiter s) c + 1)]> (threads s)) <= m.
Proof.
  intros Hs Hn c'. rewrite (count_insert _ _ _ _ _ Hn). cbn.
  pose proof (sok_cap _ _ Hs c'). case_bool_decide as Hcc; cbn; [|lia]. subst c'.
  destruct (Z.leb_spec (active (limiter s) c + 1) m); cbn; [|lia].
  rewrite (sok_active _ _ Hs) in *.
  pose proof (count_le (admitted_on m c) (holds c) (threads s) (admitted_holds m c)). lia.
Qed.

Lemma remove_step_ok m s n u c prev :
  sys_ok m s -> threads s !! n = Some (TDropping u c prev) ->
  sys_ok m (mkSystem (if prev <=? 1 then remove_if_idle (limiter s) u c else limiter s)
    (<[n := TDone]> (threads s))).
Proof.
  intros Hs Hn. set (l' := if prev <=? 1 then _ else _).
  assert (Hshape : heap l' = heap (limiter s) /\
    max_connections_per_user l' = max_connections_per_user (limiter s) /\
    (forall u' c', counters l' !! u' = Some c' -> counters (limiter s) !! u' = Some c')).
  { subst l'. case_match; [apply remove_if_idle_shape|done]. }
  destruct Hshape as (Hh & Hm & Hcs).
  apply (thread_move_ok m s n (TDropping u c prev)); try done.
  - rewrite Hm. apply Hs.
  - intros c'. unfold active. rewrite Hh. cbn. lia.
  - by rewrite Hh.
  - intros u' c' Hu'. rewrite Hh. by eapply (sok_map _ _ Hs), Hcs.
  - by apply (cap_keep m s n (TDropping u c prev)).
Qed.

Lemma thread_step_ok m s n t l' t' :
  sys_ok m s -> threads s !! n = Some t -> thread_step (limiter s) t l' t' ->
  sys_ok m (mkSystem l' (<[n := t']> (threads s))).
Proof.
  intros Hs Hn Hstep.
  destruct Hstep as [u l' c He|u c l' prev He|u c a Ha|u c a l' prev Ha He|u c l' prev He|u c prev].
  - by apply entry_step_ok.
  - destruct (fetch_add_shape _ _ _ _ _ He) as (-> & _).
    eapply (counter_move_ok m s n (TCloned u c)); try done.
    + intros c'. cbn. rewrite b2z_holds_self. lia.
    + by apply add_cap.
  - apply (thread_move_ok m s n (TAdded u c a)); try done; try apply Hs.
    + intros c'. cbn. lia.
    + intros c' Hc'. by eapply Hs.
    + apply (cap_keep m s n (TAdded u c a)); [done|done|]. intros c'. cbn.
      intros ->. rewrite andb_true_l. apply Z.leb_le. by rewrite <- (sok_max _ _ Hs).
  - eapply (counter_move_ok m s n (TAdded u c a)); try done.
    + intros c'. cbn. rewrite b2z_holds_self. case_decide; lia.
    + by apply (cap_keep m s n (TAdded u c a)).
  - eapply (counter_move_ok m s n (TGranted u c)); try done.
    + intros c'. cbn. rewrite b2z_holds_self. case_decide; lia.
    + by apply (cap_keep m s n (TGranted u c)).
  - by apply remove_step_ok.
Qed.

Lemma reachable_sys_ok m s : reachable m s -> sys_ok (Z.max m 1) s.
Proof.
  intros Hr. apply (rtc_ind_r (R:=sys_step) (sys_ok (Z.max m 1)) (mkSystem (new m) []));
    [apply sys_ok_new| |exact Hr].
  intros y z _ Hstep Hy. destruct Hstep as [u|n t l' t' Hn Ht]; [|by eapply thread_step_ok].
  destruct Hy as [H1 H2 H3 H4 H5]. split; cbn; try done.
  - intros c. rewrite count_app, H2. cbn. unfold count. cbn. lia.
  - intros n t c Hn. apply lookup_app_Some in Hn as [Hn|[_ Hn]]; [by eapply H3|].
    apply list_lookup_singleton_Some in Hn as [_ <-]. done.
  - intros c. rewrite count_app. specialize (H5 c). unfold count at 2. cbn. lia.
Qed.

(** ** The race *)

Definition granted_to (u : bytes) (t : Thread) : bool :=
  match t with TGranted u' _ => bool_decide (u' = u) | _ => false end.

Lemma spawn_two s u :
  rtc sys_step s (mkSystem (limiter s) (threads s ++ [TStart u; TStart u])).
Proof.
  eapply rtc_l; [apply (sys_spawn s u)|]. eapply rtc_l; [apply (sys_spawn _ u)|]. cbn.
  rewrite <- app_assoc. apply rtc_refl.
Qed.

Lemma step_at (pre : list Thread) t t' post l l' n :
  n = length pre -> thread_step l t l' t' ->
  sys_step (mkSystem l (pre ++ t :: post)) (mkSystem l' (pre ++ t' :: post)).
Proof.
  intros -> Ht. replace (pre ++ t' :: post) with (<[length pre := t']> (pre ++ t :: post)).
  - apply (sys_thread (mkSystem l (pre ++ t :: post)) (length pre) t); [|done]. cbn.
    by rewrite lookup_app_r, Nat.sub_diag.
  - rewrite insert_app_r_alt, Nat.sub_diag by done. done.
Qed.

Lemma step_at2 (pre : list Thread) x t t' l l' :
  thread_step l t l' t' ->
  sys_step (mkSystem l (pre ++ [x; t])) (mkSystem l' (pre ++ [x; t'])).
Proof.
  intros Ht. pose proof (step_at (pre ++ [x]) t t' [] l l' _ eq_refl Ht) as Hs.
  by rewrite <- !app_assoc in Hs.
Qed.

(** One connection is admitted and closes while another, which has already
    fetched the same counter, has not yet counted itself: the second keeps a
    counter that the map no longer knows. *)
Lemma race_round s u :
  max_connections_per_user (limiter s) = 1 -> counters (limiter s) !! u = None ->
  exists s', rtc sys_step s s' /\ max_connections_per_user (limiter s') = 1 /\
    counters (limiter s') !! u = None /\
    count (granted_to u) (threads s') = count (granted_to u) (threads s) + 1.
Proof.
  intros Hm Hu. destruct s as [[m cs h] ts]. cbn in *. subst m. set (c := length h).
  assert (Hc : forall x : Z, nth c (<[c := x]> (h ++ [0])) 0 = x).
  { intros x. rewrite nth_lookup, list_lookup_insert_eq; [done|]. rewrite length_app. cbn. lia. }
  set (L v := mkLimiter 1 (<[u := c]> cs) (<[c := v]> (h ++ [0]))).
  assert (H0 : mkLimiter 1 (<[u := c]> cs) (h ++ [0]) = L 0).
  { unfold L. f_equal. symmetry. apply list_insert_id. by rewrite lookup_app_r, Nat.sub_diag. }
  assert (Hadd : forall v k, fetch_add (L v) c k = (L (v + k), v)).
  { intros v k. unfold fetch_add, active, L. cbn. rewrite Hc. by rewrite list_insert_insert_eq. }
  set (l' := mkLimiter 1 (delete u (<[u := c]> cs)) (<[c := 0]> (h ++ [0]))).
  assert (Hrm : remove_if_idle (L 0) u c = l').
  { unfold remove_if_idle. rewrite decide_True; [done|]. unfold active, L. cbn.
    by rewrite lookup_insert_eq, Hc. }
  assert (Hadd' : exists l2, fetch_add l' c 1 = (l2, 0) /\ max_connections_per_user l2 = 1 /\
    counters l2 !! u = None).
  { unfold fetch_add, active, l'. cbn. rewrite Hc. eexists. split; [reflexivity|].
    split; [done|]. apply lookup_delete_eq. }
  destruct Hadd' as (l2 & Hadd' & Hm2 & Hu2).
  exists (mkSystem l2 (ts ++ [TDone; TGranted u c])). split; [|split; [done|split; [done|]]].
  2: { cbn [threads]. rewrite count_app, !count_cons. cbn. by rewrite bool_decide_true. }
  etrans; [apply (spawn_two _ u)|]. cbn [limiter threads].
  eapply rtc_l. { eapply step_at; [done|]. apply step_entry. unfold entry. cbn. by rewrite Hu. }
  fold c. rewrite H0.
  eapply rtc_l. { eapply step_at; [done|]. eapply step_add. apply Hadd. }
  eapply rtc_l. { eapply step_at; [done|]. by apply step_grant. }
  eapply rtc_l. { eapply step_at2, step_entry. unfold entry, L. cbn. by rewrite lookup_insert_eq. }
  eapply rtc_l. { eapply step_at; [done|]. eapply step_drop. apply Hadd. }
  eapply rtc_l. { eapply step_at; [done|]. apply step_remove. }
  cbn [Z.add]. change (L (0 + 1 + -1)) with (L 0). change (0 + 1 <=? 1) with true. cbv iota.
  rewrite Hrm.
  eapply rtc_l. { eapply step_at2, step_add. exact Hadd'. }
  eapply rtc_l. { eapply step_at2, step_grant. rewrite Hm2. lia. }
  apply rtc_refl.
Qed.

Lemma race_rounds u (n : nat) :
  exists s, reachable 1 s /\ max_connections_per_user (limiter s) = 1 /\
    counters (limiter s) !! u = None /\ count (granted_to u) (threads s) = Z.of_nat n.
Proof.
  induction n as [|n (s & Hr & Hm & Hu & Hc)].
  - exists (mkSystem (new 1) []). split; [apply rtc_refl|]. split; [done|]. split; [|done].
    apply lookup_empty.
  - destruct (race_round s u Hm Hu) as (s' & Hs & Hm' & Hu' & Hc').
    exists s'. split; [unfold reachable in *; by etrans|]. split; [done|]. split; [done|]. lia.
Qed.

(** ** One operation at a time *)

Inductive op := Acquire (u : option bytes) | DropNth (n : nat) | SetMax (m : Z).

(** The limiter and the permits that are alive. *)
Definition world : Type := UserConnectionLimiter * list UserConnectionPermit.

Definition apply_op (w : world) (o : op) : world :=
  let '(l, ps) := w in
  match o with
  | Acquire u =>
      let '(l', p) := try_acquire l u in
      (l', match p with Some p => ps ++ [p] | None => ps end)
  | DropNth n =>
      match ps !! n with
      | Some p => (drop_permit l p, delete n ps)
      | None => (l, ps)
      end
  | SetMax m => (set_max_connections_per_user l m, ps)
  end.

(** Live permits that count against the cap of [u]. *)
Definition counted (u : bytes) (p : UserConnectionPermit) : bool :=
  bool_decide (permit_user p = u) && match permit_counter p with Some _ => true | None => false end.

Definition live_permits (w : world) (u : bytes) : Z := count (counted u) (snd w).

(** A counter is in the map exactly while its user has counted permits, which all
    share it, and its value is their number. *)
Record world_ok (w : world) : Prop := {
  wok_alloc : forall u c, counters (fst w) !! u = Some c -> (c < length (heap (fst w)))%nat;
  wok_inj : forall u u' c, counters (fst w) !! u = Some c -> counters (fst w) !! u' = Some c -> u = u';
  wok_active : forall u c, counters (fst w) !! u = Some c ->
    active (fst w) c = live_permits w u /\ 0 < live_permits w u;
  wok_absent : forall u, counters (fst w) !! u = None -> live_permits w u = 0;
  wok_permit : forall n p c, snd w !! n = Some p -> permit_counter p = Some c ->
    counters (fst w) !! permit_user p = Some c;
  wok_max : 1 <= max_connections_per_user (fst w)
}.

(** An operation that only concerns user [u]. *)
Lemma world_update w w' u :
  world_ok w -> 1 <= max_connections_per_user (fst w') ->
  (length (heap (fst w)) <= length (heap (fst w')))%nat ->
  (forall u', u' <> u -> counters (fst w') !! u' = counters (fst w) !! u' /\
     live_permits w' u' = live_permits w u') ->
  (forall u' c, u' <> u -> counters (fst w) !! u' = Some c -> active (fst w') c = active (fst w) c) ->
  match counters (fst w') !! u with
  | Some c => (c < length (heap (fst w')))%nat /\ active (fst w') c = live_permits w' u /\
      0 < live_permits w' u /\ (forall u', u' <> u -> counters (fst w) !! u' <> Some c)
  | None => live_permits w' u = 0
  end ->
  (forall n p c, snd w' !! n = Some p -> permit_counter p = Some c ->
     counters (fst w') !! permit_user p = Some c) ->
  world_ok w'.
Proof.
  intros [Ha Hi Hv Hn Hp _] Hm Hlen Hother Hact Hu Hpp. split; [| | | |done|done].
  - intros u' c Hc. destruct (decide (u' = u)) as [->|Hne].
    + rewrite Hc in Hu. naive_solver.
    + rewrite (proj1 (Hother u' Hne)) in Hc. specialize (Ha _ _ Hc). lia.
  - intros u1 u2 c H1 H2. destruct (decide (u1 = u)) as [->|Hne1], (decide (u2 = u)) as [->|Hne2]; [done| | |].
    + rewrite H1 in Hu. destruct Hu as (_ & _ & _ & Hx). rewrite (proj1 (Hother u2 Hne2)) in H2.
      by apply Hx in H2.
    + rewrite H2 in Hu. destruct Hu as (_ & _ & _ & Hx). rewrite (proj1 (Hother u1 Hne1)) in H1.
      by apply Hx in H1.
    + rewrite (proj1 (Hother u1 Hne1)) in H1. rewrite (proj1 (Hother u2 Hne2)) in H2. eauto.
  - intros u' c Hc. destruct (decide (u' = u)) as [->|Hne].
    + rewrite Hc in Hu. tauto.
    + destruct (Hother u' Hne) as [Hc' Hl]. rewrite Hc' in Hc.
      rewrite (Hact u' c Hne Hc), Hl. eauto.
  - intros u' Hc. destruct (decide (u' = u)) as [->|Hne].
    + by rewrite Hc in Hu.
    + destruct (Hother u' Hne) as [Hc' Hl]. rewrite Hl. apply Hn. congruence.
Qed.

Lemma live_app l ps p l' u :
  live_permits (l', ps ++ [p]) u = live_permits (l, ps) u + Z.b2z (counted u p).
Proof. unfold live_permits. cbn. rewrite count_app, count_cons. change (count (counted u) []) with 0. lia. Qed.

(** After [entry], the counter stands for the live permits of the user alone. *)
Lemma entry_ok l ps u l1 c :
  world_ok (l, ps) -> entry l u = (l1, c) ->
  (c < length (heap l1))%nat /\ active l1 c = live_permits (l, ps) u /\
  (forall u', u' <> u -> counters l !! u' <> Some c) /\
  (forall n p c', ps !! n = Some p -> permit_counter p = Some c' ->
     counters l1 !! permit_user p = Some c').
Proof.
  intros Hw He. destruct (active_entry _ _ _ _ He) as (_ & _ & _ & Hin & Hother).
  pose proof (wok_permit _ Hw) as Hp. cbn in Hp. unfold entry in He.
  destruct (counters l !! u) as [c0|] eqn:E; simplify_eq/=.
  - split; [by apply (wok_alloc _ Hw u)|]. split; [by apply (wok_active _ Hw u)|]. split; [|done].
    intros u' Hne Hc'. apply Hne. by eapply (wok_inj _ Hw).
  - split; [rewrite length_app; cbn; lia|]. split; [|split].
    + rewrite (wok_absent _ Hw u E). unfold active. cbn. by rewrite nth_middle.
    + intros u' _ Hc'. apply (wok_alloc _ Hw) in Hc'. cbn in Hc'. lia.
    + intros n p c' Hn Hc. rewrite Hother; [by eapply Hp|]. intros Hpu.
      specialize (Hp n p c' Hn Hc). rewrite Hpu in Hp. congruence.
Qed.

(** The limiter after [entry], with the counter of [u] set to [v]. *)
Definition counter_set (l l1 l' : UserConnectionLimiter) (c : nat) (v : Z) : Prop :=
  counters l' = counters l1 /\ length (heap l') = length (heap l1) /\
  max_connections_per_user l' = max_connections_per_user l /\
  active l' c = v /\ (forall c', c' <> c -> active l' c' = active l c').

Lemma counter_world_ok l ps u l1 c l' ps' :
  world_ok (l, ps) -> entry l u = (l1, c) ->
  counter_set l l1 l' c (live_permits (l', ps') u) -> 0 < live_permits (l', ps') u ->
  (ps' = ps \/ ps' = ps ++ [mkPermit u (Some c)]) -> world_ok (l', ps').
Proof.
  intros Hw He (Hcs & Hlen' & Hm & Hv & Hact) Hpos Hps.
  destruct (active_entry _ _ _ _ He) as (_ & Hlen & _ & Hin & Hother).
  destruct (entry_ok l ps u l1 c Hw He) as (Hcl & _ & Hcx & Hp).
  apply (world_update (l, ps) _ u Hw); cbn.
  - rewrite Hm. apply Hw.
  - lia.
  - intros u' Hne. rewrite Hcs. split; [by apply Hother|]. destruct Hps as [->| ->]; [done|].
    rewrite (live_app l). unfold counted. cbn. rewrite bool_decide_false by done. cbn. lia.
  - intros u' c' Hne Hc'. apply Hact. intros ->. by eapply Hcx.
  - rewrite Hcs, Hin, Hlen'. done.
  - intros n p c' Hn Hc. rewrite Hcs. destruct Hps as [->| ->]; [by eapply Hp|].
    apply lookup_app_Some in Hn as [Hn|[_ Hn]]; [by eapply Hp|].
    apply list_lookup_singleton_Some in Hn as [_ <-]. cbn in *. by simplify_eq.
Qed.

(** [try_acquire] for one user, its outcome and its effect. *)
Lemma acquire_ok l ps u :
  world_ok (l, ps) -> max_connections_per_user l <> USIZE_MAX ->
  let '(l', p) := try_acquire l (Some u) in
  world_ok (l', match p with Some p => ps ++ [p] | None => ps end) /\
  (p <> None <-> live_permits (l, ps) u < max_connections_per_user l) /\
  (forall q, p = Some q -> counted u q = true).
Proof.
  intros Hw Hmax. pose proof (wok_max _ Hw) as H1. cbn in H1. unfold try_acquire.
  destruct (Z.eqb_spec (max_connections_per_user l) USIZE_MAX); [done|].
  destruct (entry l u) as [l1 c] eqn:He.
  destruct (active_entry _ _ _ _ He) as (Hact & _ & Hm & _).
  destruct (entry_ok l ps u l1 c Hw He) as (Hcl & Hca & _).
  destruct (fetch_add l1 c 1) as [l2 prev] eqn:Hf.
  destruct (fetch_add_shape _ _ _ _ _ Hf) as (-> & Hlen2 & Hcs2 & Hm2). rewrite Hca.
  assert (Ha2 : forall c', active l2 c' = active l1 c' + (if decide (c' = c) then 1 else 0)).
  { intros c'. replace l2 with (fst (fetch_add l1 c 1)) by by rewrite Hf. by apply active_fetch_add. }
  assert (Hself : counted u (mkPermit u (Some c)) = true).
  { unfold counted. cbn. by rewrite bool_decide_true. }
  pose proof (count_nonneg (counted u) ps) as Hnn. change (count (counted u) ps) with (live_permits (l, ps) u) in Hnn.
  destruct (Z.ltb_spec (max_connections_per_user l) (live_permits (l, ps) u + 1)) as [Hfull|Hfree].
  - destruct (fetch_add l2 c (-1)) as [l3 prev3] eqn:Hf3.
    destruct (fetch_add_shape _ _ _ _ _ Hf3) as (_ & Hlen3 & Hcs3 & Hm3). cbn [fst].
    assert (Ha3 : forall c', active l3 c' = active l1 c').
    { intros c'. replace l3 with (fst (fetch_add l2 c (-1))) by by rewrite Hf3.
      rewrite active_fetch_add, Ha2 by lia. case_decide; lia. }
    split; [|split; [split; [done|lia]|done]].
    apply (counter_world_ok l ps u l1 c); [done|done| | |by left].
    + change (live_permits (l3, ps) u) with (live_permits (l, ps) u).
      split; [congruence|]. split; [congruence|]. split; [congruence|].
      split; [by rewrite Ha3|]. intros c' _. by rewrite Ha3, Hact.
    + change (live_permits (l3, ps) u) with (live_permits (l, ps) u). lia.
  - split; [|split; [split; [lia|done]|by intros q [= <-]]].
    apply (counter_world_ok l ps u l1 c); [done|done| | |by right].
    + rewrite (live_app l), Hself. split; [done|]. split; [done|]. split; [congruence|].
      split; [rewrite Ha2, decide_True by done; cbn; lia|].
      intros c' Hne. rewrite Ha2, decide_False, Hact by done. lia.
    + rewrite (live_app l), Hself. cbn. lia.
Qed.

Lemma live_delete l ps l' n p u :
  ps !! n = Some p -> live_permits (l', delete n ps) u = live_permits (l, ps) u - Z.b2z (counted u p).
Proof. intros Hn. unfold live_permits. cbn. by apply count_delete. Qed.

Lemma lookup_delete_sub {A} (l : list A) n n' x : delete n l !! n' = Some x -> exists k, l !! k = Some x.
Proof.
  intros Hx. destruct (decide (n' < n)%nat).
  - rewrite list_lookup_delete_lt in Hx by lia. eauto.
  - rewrite list_lookup_delete_ge in Hx by lia. eauto.
Qed.

Lemma drop_counted_ok l ps n u c :
  world_ok (l, ps) -> ps !! n = Some (mkPermit u (Some c)) ->
  world_ok (drop_permit l (mkPermit u (Some c)), delete n ps).
Proof.
  intros Hw Hn. pose proof (wok_permit _ Hw n _ c Hn eq_refl) as Hin. cbn in Hin.
  destruct (wok_active _ Hw u c Hin) as [Hv Hpos]. cbn in Hv.
  pose proof (wok_alloc _ Hw u c Hin) as Hcl. cbn in Hcl.
  unfold drop_permit. cbn [permit_counter permit_user].
  destruct (fetch_add l c (-1)) as [l1 prev] eqn:Hf.
  destruct (fetch_add_shape _ _ _ _ _ Hf) as (-> & Hlen & Hcs & Hm).
  assert (Ha : forall c', active l1 c' = active l c' + (if decide (c' = c) then -1 else 0)).
  { intros c'. replace l1 with (fst (fetch_add l c (-1))) by by rewrite Hf. by apply active_fetch_add. }
  assert (Hself : forall u', counted u' (mkPermit u (Some c)) = bool_decide (u = u')).
  { intros u'. unfold counted. cbn. by rewrite andb_true_r. }
  set (l' := if active l c <=? 1 then remove_if_idle l1 u c else l1).
  assert (Hl' : heap l' = heap l1 /\ max_connections_per_user l' = max_connections_per_user l /\
    counters l' = if active l c <=? 1 then delete u (counters l) else counters l).
  { subst l'. destruct (Z.leb_spec (active l c) 1) as [Hle|]; [|by rewrite Hm, Hcs].
    unfold remove_if_idle. rewrite Hcs, decide_True; cbn; [by rewrite Hm|].
    split; [done|]. rewrite Ha, decide_True by done. lia. }
  destruct Hl' as (Hh & Hm' & Hc').
  assert (Hact : forall c', active l' c' = active l1 c') by (intros c'; unfold active; by rewrite Hh).
  assert (Hlive : forall u', live_permits (l', delete n ps) u' =
    live_permits (l, ps) u' - Z.b2z (bool_decide (u = u'))).
  { intros u'. by rewrite (live_delete l ps l' n _ u' Hn), Hself. }
  apply (world_update (l, ps) _ u Hw); cbn [fst snd].
  - rewrite Hm'. apply Hw.
  - rewrite Hh. lia.
  - intros u' Hne. rewrite Hlive, bool_decide_false by done. cbn. split; [|lia].
    rewrite Hc'. case_match; [by rewrite lookup_delete_ne|done].
  - intros u' c0 Hne Hc0. rewrite Hact, Ha, decide_False; [lia|]. intros ->.
    apply Hne. by eapply (wok_inj _ Hw).
  - rewrite Hlive, bool_decide_true, Hc' by done. cbn.
    destruct (Z.leb_spec (active l c) 1); [rewrite lookup_delete_eq; lia|].
    rewrite Hin, Hh, Hlen, Hact, Ha, decide_True by done. split; [done|]. split; [lia|].
    split; [lia|]. intros u' Hne Hx. apply Hne. by eapply (wok_inj _ Hw).
  - intros n' p' c0 Hn' Hpc. destruct (lookup_delete_sub _ _ _ _ Hn') as [k Hk].
    pose proof (wok_permit _ Hw k p' c0 Hk Hpc) as Hx. cbn in Hx. rewrite Hc'.
    destruct (Z.leb_spec (active l c) 1) as [Hle|]; [|done].
    rewrite lookup_delete_ne; [done|]. intros Hpu.
    assert (Hp' : counted u p' = true).
    { unfold counted. rewrite <- Hpu, bool_decide_true, Hpc by done. done. }
    pose proof (count_pos (counted u) _ _ _ Hn' Hp') as Hc2.
    specialize (Hlive u). rewrite bool_decide_true in Hlive by done. unfold live_permits in *. cbn in *. lia.
Qed.

Lemma world_ok_uncounted l ps ps' :
  world_ok (l, ps) -> (forall u, live_permits (l, ps') u = live_permits (l, ps) u) ->
  (forall n p c, ps' !! n = Some p -> permit_counter p = Some c -> exists k, ps !! k = Some p) ->
  world_ok (l, ps').
Proof.
  intros [H1 H2 H3 H4 H5 H6] Hl Hp. split; cbn in *; try done.
  - intros u c Hc. rewrite Hl. eauto.
  - intros u Hu. rewrite Hl. eauto.
  - intros n p c Hn Hc. destruct (Hp n p c Hn Hc) as [k Hk]. eauto.
Qed.

Lemma apply_op_ok w o : world_ok w -> world_ok (apply_op w o).
Proof.
  destruct w as [l ps]. intros Hw. destruct o as [[u|]|n|m]; cbn [apply_op]; [|done| |].
  - destruct (decide (max_connections_per_user l = USIZE_MAX)) as [Hmx|Hmx].
    + unfold try_acquire. rewrite Hmx. cbn. apply (world_ok_uncounted l ps); [done| |].
      * intros u'. rewrite (live_app l). unfold counted. cbn. rewrite andb_false_r. cbn. lia.
      * intros n p c [Hn|[_ Hn]]%lookup_app_Some Hc; [eauto|].
        apply list_lookup_singleton_Some in Hn as [_ <-]. done.
    + pose proof (acquire_ok l ps u Hw Hmx) as Ha. destruct (try_acquire l (Some u)). apply Ha.
  - destruct (ps !! n) as [[u [c|]]|] eqn:Hn; [by apply drop_counted_ok| |done].
    unfold drop_permit. cbn. apply (world_ok_uncounted l ps); [done| |].
    + intros u'. rewrite (live_delete l ps l n _ u' Hn). unfold counted. cbn. rewrite andb_false_r. cbn. lia.
    + intros n' p c Hn' Hc. by apply lookup_delete_sub in Hn'.
  - destruct Hw as [H1 H2 H3 H4 H5 H6]. split; cbn in *; try done. lia.
Qed.

Definition run_ops (m : Z) (ops : list op) : world := foldl apply_op (new m, []) ops.

Lemma run_ops_ok m ops : world_ok (run_ops m ops).
Proof.
  unfold run_ops. induction ops as [|o ops IH] using rev_ind.
  - split; cbn; try done; try (intros; by rewrite lookup_empty in * ).
    lia.
  - rewrite foldl_app. cbn. by apply apply_op_ok.
Qed.

(** One operation at a time, the per-user cap is exact: after any sequence of
    acquisitions, drops and cap changes, a further acquisition by a user is
    granted exactly when the user has fewer live counted permits than the cap,
    and then counts; without a user nothing is granted. *)
Theorem limiter_cap_exact (m : Z) (ops : list op) (u : bytes) :
  let w := run_ops m ops in
  max_connections_per_user (fst w) <> USIZE_MAX ->
  (snd (try_acquire (fst w) (Some u)) <> None <->
     live_permits w u < max_connections_per_user (fst w)) /\
  live_permits (apply_op w (Acquire (Some u))) u =
    live_permits w u + (if decide (live_permits w u < max_connections_per_user (fst w)) then 1 else 0) /\
  try_acquire (fst w) None = (fst w, None).
Proof.
  intros w Hm. pose proof (run_ops_ok m ops) as Hw. fold w in Hw. destruct w as [l ps].
  pose proof (acquire_ok l ps u Hw Hm) as Ha. cbn [apply_op fst] in *.
  destruct (try_acquire l (Some u)) as [l' p]. destruct Ha as (_ & Hiff & Hcnt). cbn [snd].
  split; [done|]. split; [|done]. destruct p as [p|].
  - rewrite (live_app l), (Hcnt p), decide_True by (try done; by apply Hiff). done.
  - rewrite decide_False; [|by intros ?%Hiff]. unfold live_permits. cbn. lia.
Qed.

Lemma limiter_cap_exact_witness :
  snd (try_acquire (fst (run_ops 1 [Acquire (Some [97])])) (Some [97])) = None.
Proof.
  destruct (limiter_cap_exact 1 [Acquire (Some [97])] [97]) as (Hiff & _).
  - vm_compute. congruence.
  - destruct (snd _) eqn:E; [|reflexivity].
    assert (Hlt : live_permits (run_ops 1 [Acquire (Some [97])]) [97]
      < max_connections_per_user (fst (run_ops 1 [Acquire (Some [97])]))) by (apply Hiff; discriminate).
    vm_compute in Hlt. discriminate Hlt.
Defined.

(** C32. Interleaved connections, counter by counter: in every reachable state each
    counter object equals the number of connections that have counted themselves
    on it and not yet left (so it never underflows), and at most the cap of them
    hold a permit. *)
Theorem limiter_counter_cap (m : Z) (s : System) (c : nat) :
  reachable m s ->
  active (limiter s) c = count (holds c) (threads s) /\ 0 <= active (limiter s) c /\
  count (granted_on c) (threads s) <= Z.max m 1.
Proof.
  intros Hr. pose proof (reachable_sys_ok m s Hr) as Hs.
  rewrite (sok_active _ _ Hs). split; [done|]. split; [apply count_nonneg|].
  etrans; [|apply (sok_cap _ _ Hs c)]. apply count_le. by intros [].
Qed.

(** With a cap of one: a connection that holds its permit, one that was refused, and one
    that has counted itself and is not refused yet. *)
Definition contended : System :=
  mkSystem (mkLimiter 1 {[ [97] := 0%nat ]} [2]) [TGranted [97] 0; TDenied [97]; TAdded [97] 0 2].

Ltac thread_runs n rule := eapply rtc_l; [eapply (sys_thread _ n); [reflexivity|eapply rule; vm_compute; reflexivity]|].
Ltac thread_decides n rule := eapply rtc_l; [eapply (sys_thread _ n); [reflexivity|eapply rule; [cbn; lia|..]; vm_compute; reflexivity]|].

Lemma contended_reachable : reachable 1 contended.
Proof.
  unfold reachable. do 3 (eapply rtc_l; [apply (sys_spawn _ [97])|]).
  thread_runs 0%nat step_entry. thread_runs 0%nat step_add. thread_decides 0%nat step_grant.
  thread_runs 1%nat step_entry. thread_runs 1%nat step_add. thread_decides 1%nat step_deny.
  thread_runs 2%nat step_entry. thread_runs 2%nat step_add. vm_compute. apply rtc_refl.
Qed.

Lemma limiter_counter_cap_witness :
  active (limiter contended) 0 = 2 /\ count (holds 0) (threads contended) = 2 /\
  count (granted_on 0) (threads contended) = 1 /\ count (granted_on 0) (threads contended) <= Z.max 1 1.
Proof.
  destruct (limiter_counter_cap 1 contended 0 contended_reachable) as (Hact & _ & Hcap).
  assert (H2 : active (limiter contended) 0 = 2) by (vm_compute; reflexivity).
  split; [exact H2|]. split; [rewrite <- Hact; exact H2|]. split; [vm_compute; reflexivity|exact Hcap].
Defined.

(** The per-user cap does not hold for interleaved connections: with a cap of
    one, any number of connections of one user can hold permits at the same time,
    because a closing connection removes the counter from the map while another
    connection has already fetched it but not yet incremented it. *)
Theorem limiter_cap_race (u : bytes) (n : nat) :
  exists s, reachable 1 s /\ count (granted_to u) (threads s) = Z.of_nat n.
Proof. destruct (race_rounds u n) as (s & Hr & _ & _ & Hc). eauto. Qed.

End LimiterFacts.
