(* ===== verification/TunPacket.v ===== *)
(** * TUN: IP packets

    Models [crates/blackwire-transport/src/tun/packet.rs]: the IPv4/IPv6 parser
    with the IPv6 extension-header walk, the UDP and TCP packet builders and the
    Internet checksum.

    [Option] results are [res unit]; [Panic] is an index out of range.  A builder
    is written as the concatenation of the fields that the code stores into its
    zeroed buffer; the checksum field is zero while the checksum is computed. *)

From S2P Require Import Prelude Common.

Module Tun.

Inductive TransportProtocol := PTcp | PUdp | POther (p : Z).

#[export] Instance TransportProtocol_eq_dec : EqDecision TransportProtocol.
Proof. solve_decision. Defined.

Record IpPacket := mkPacket {
  src : IpAddr;
  dst : IpAddr;
  src_port : Z;
  dst_port : Z;
  protocol : TransportProtocol;
  header_len : nat;
  payload_offset : nat;
  transport_offset : nat;
  payload_len : nat;
  tcp_seq : option Z;
  tcp_ack : option Z;
  tcp_flags : option Z
}.

(** [slice::get(a..b)] *)
Definition get_range (l : bytes) (a b : nat) : option bytes :=
  if decide (a <= b <= length l)%nat then Some (take (b - a) (drop a l)) else None.

Definition payload (p : IpPacket) (packet : bytes) : option bytes :=
  get_range packet (payload_offset p) (payload_offset p + payload_len p).

Definition protocol_of (n : Z) : TransportProtocol :=
  if n =? 6 then PTcp else if n =? 17 then PUdp else POther n.

(** TCP fields and payload offset, or the payload offset of the other protocols.
    [o] is the offset of the transport header, [tlen] the transport length. *)
Record Transport := mkTransport {
  t_payload_offset : nat;
  t_seq : option Z;
  t_ack : option Z;
  t_flags : option Z
}.

Definition parse_tcp (buf : bytes) (o tlen : nat) : res unit Transport :=
  seq ← idx32 buf (o + 4);
  ack ← idx32 buf (o + 8);
  flags ← idx buf (o + 13);
  b ← idx buf (o + 12);
  let data_offset := (Z.to_nat (Z.shiftr b 4) * 4)%nat in
  if (data_offset <? 20)%nat || (tlen <? data_offset)%nat then Err tt else
  Ok (mkTransport (o + data_offset) (Some seq) (Some ack) (Some flags)).

Definition parse_udp (buf : bytes) (o tlen : nat) : res unit Transport :=
  l ← idx16 buf (o + 4);
  let udp_len := Z.to_nat l in
  if (udp_len <? 8)%nat || (tlen <? udp_len)%nat then Err tt else
  Ok (mkTransport (o + 8) None None None).

Definition parse_ipv4 (buf : bytes) : res unit IpPacket :=
  if (length buf <? 20)%nat then Err tt else
  b0 ← idx buf 0;
  let ihl := (Z.to_nat (Z.land b0 15) * 4)%nat in
  if (ihl <? 20)%nat then Err tt else
  tl ← idx16 buf 2;
  let total_length := Z.to_nat tl in
  if (total_length <? ihl)%nat || (length buf <? total_length)%nat then Err tt else
  if (length buf <? ihl + 4)%nat then Err tt else
  proto ← idx buf 9;
  let transport_len := (total_length - ihl)%nat in
  t ← (if proto =? 6 then
         if (transport_len <? 20)%nat then Err tt else parse_tcp buf ihl transport_len
       else if proto =? 17 then
         if (transport_len <? 8)%nat then Err tt else parse_udp buf ihl transport_len
       else Ok (mkTransport (ihl + 4) None None None));
  s ← slice buf 12 16;
  d ← slice buf 16 20;
  sp ← idx16 buf ihl;
  dp ← idx16 buf (ihl + 2);
  Ok (mkPacket (V4 s) (V4 d) sp dp (protocol_of proto) ihl (t_payload_offset t) ihl
        (total_length - t_payload_offset t) (t_seq t) (t_ack t) (t_flags t)).

(** The extension-header walk: where it stops, and with which header. *)
Inductive Walk :=
| WTransport (next_hdr : Z) (offset : nat)
| WOther (next_hdr : Z) (offset : nat).

Definition is_extension (h : Z) : bool :=
  (h =? 0) || (h =? 43) || (h =? 60) || (h =? 135) || (h =? 139) || (h =? 140) ||
  (h =? 253) || (h =? 254).

(** Out of fuel is [Panic]; [walk_total] shows that it does not happen. *)
Fixpoint walk_extensions (fuel : nat) (buf : bytes) (total : nat) (next_hdr : Z) (offset : nat)
    : res unit Walk :=
  match fuel with
  | O => Panic
  | S f =>
      if (next_hdr =? 6) || (next_hdr =? 17) || (next_hdr =? 58) then Ok (WTransport next_hdr offset)
      else if is_extension next_hdr then
        if (total <? offset + 2)%nat then Err tt else
        h ← idx buf offset;
        l ← idx buf (offset + 1);
        let ext_len := ((Z.to_nat l + 1) * 8)%nat in
        walk_extensions f buf total h (offset + ext_len)
      else if next_hdr =? 44 then
        if (total <? offset + 8)%nat then Err tt else
        h ← idx buf offset;
        walk_extensions f buf total h (offset + 8)
      else Ok (WOther next_hdr offset)
  end.

Definition parse_ipv6 (buf : bytes) : res unit IpPacket :=
  if (length buf <? 40)%nat then Err tt else
  pl ← idx16 buf 4;
  let total_length := (40 + Z.to_nat pl)%nat in
  if (length buf <? total_length)%nat then Err tt else
  s ← slice buf 8 24;
  d ← slice buf 24 40;
  h0 ← idx buf 6;
  w ← walk_extensions (S total_length) buf total_length h0 40;
  match w with
  | WOther other offset =>
      Ok (mkPacket (V6 s) (V6 d) 0 0 (POther other) 40 offset offset
            (total_length - offset) None None None)
  | WTransport next_hdr offset =>
      let transport_len := (total_length - offset)%nat in
      t ← (if next_hdr =? 6 then
             if (transport_len <? 20)%nat || (length buf <? offset + 13)%nat then Err tt
             else parse_tcp buf offset transport_len
           else if next_hdr =? 17 then
             if (transport_len <? 8)%nat || (length buf <? offset + 6)%nat then Err tt
             else parse_udp buf offset transport_len
           else Ok (mkTransport (offset + 4) None None None));
      if (length buf <? offset + 4)%nat then Err tt else
      sp ← idx16 buf offset;
      dp ← idx16 buf (offset + 2);
      Ok (mkPacket (V6 s) (V6 d) sp dp (protocol_of next_hdr) 40 (t_payload_offset t) offset
            (total_length - t_payload_offset t) (t_seq t) (t_ack t) (t_flags t))
  end.

Definition parse_ip_packet (buf : bytes) : res unit IpPacket :=
  if (length buf =? 0)%nat then Err tt else
  b0 ← idx buf 0;
  let v := Z.shiftr b0 4 in
  if v =? 4 then parse_ipv4 buf
  else if v =? 6 then parse_ipv6 buf
  else Err tt.

(** ** Checksums: [u32] accumulator, ones-complement folding *)

Fixpoint checksum_accumulate (sum : Z) (data : bytes) : Z :=
  match data with
  | a :: b :: data' => checksum_accumulate (as_u32 (sum + be_val [a; b])) data'
  | [a] => as_u32 (sum + as_u32 (Z.shiftl a 8))
  | [] => sum
  end.

(** [while (sum >> 16) != 0]: two rounds bring any [u32] below [2^16]. *)
Fixpoint fold_carries (fuel : nat) (sum : Z) : Z :=
  match fuel with
  | O => sum
  | S f =>
      if Z.shiftr sum 16 =? 0 then sum
      else fold_carries f (as_u32 (Z.land sum 65535 + Z.shiftr sum 16))
  end.

Definition checksum_finish (sum : Z) : Z :=
  let sum := fold_carries 2 sum in
  let checksum := 65535 - as_u16 sum in
  if checksum =? 0 then 65535 else checksum.

Definition internet_checksum (data : bytes) : Z := checksum_finish (checksum_accumulate 0 data).

Definition pseudo_ipv4 (s d : bytes) (proto : Z) (len : Z) : bytes :=
  s ++ d ++ [0; proto] ++ be_bytes 2 (as_u16 len).

Definition pseudo_ipv6 (s d : bytes) (proto : Z) (len : Z) : bytes :=
  s ++ d ++ be_bytes 4 (as_u32 len) ++ [0; 0; 0; proto].

Definition tcp_checksum_ipv4 (s d segment : bytes) : Z :=
  checksum_finish (checksum_accumulate (checksum_accumulate 0 (pseudo_ipv4 s d 6 (zlen segment))) segment).
Definition tcp_checksum_ipv6 (s d segment : bytes) : Z :=
  checksum_finish (checksum_accumulate (checksum_accumulate 0 (pseudo_ipv6 s d 6 (zlen segment))) segment).
Definition udp_checksum_ipv4 (s d packet : bytes) : Z :=
  checksum_finish (checksum_accumulate (checksum_accumulate 0 (pseudo_ipv4 s d 17 (zlen packet))) packet).
Definition udp_checksum_ipv6 (s d packet : bytes) : Z :=
  checksum_finish (checksum_accumulate (checksum_accumulate 0 (pseudo_ipv6 s d 17 (zlen packet))) packet).

(** ** Builders *)

Definition ipv4_header (total_len : Z) (proto csum : Z) (s d : bytes) : bytes :=
  [69; 0] ++ be_bytes 2 total_len ++ [0; 0; 0; 0; 64; proto] ++ be_bytes 2 csum ++ s ++ d.

Definition ipv4_header_checked (total_len : Z) (proto : Z) (s d : bytes) : bytes :=
  ipv4_header total_len proto (internet_checksum (ipv4_header total_len proto 0 s d)) s d.

Definition ipv6_header (len : Z) (proto : Z) (s d : bytes) : bytes :=
  [96; 0; 0; 0] ++ be_bytes 2 len ++ [proto; 64] ++ s ++ d.

(** [(options.len() + 3) & !3] *)
Definition padded_options_len (options : bytes) : nat := ((length options + 3) / 4 * 4)%nat.

Definition tcp_segment (sp dp seq ack flags window csum : Z) (options payload : bytes) : bytes :=
  let header_len := (20 + padded_options_len options)%nat in
  be_bytes 2 sp ++ be_bytes 2 dp ++ be_bytes 4 seq ++ be_bytes 4 ack ++
  [as_u8 (Z.shiftl (as_u8 (Z.of_nat (header_len / 4))) 4); flags] ++
  be_bytes 2 window ++ be_bytes 2 csum ++ [0; 0] ++
  options ++ replicate (padded_options_len options - length options) 0 ++ payload.

Definition udp_segment (sp dp csum : Z) (payload : bytes) : bytes :=
  be_bytes 2 sp ++ be_bytes 2 dp ++ be_bytes 2 (as_u16 (8 + zlen payload)) ++ be_bytes 2 csum ++ payload.

Definition build_ipv4_udp_packet (s d : bytes) (sp dp : Z) (payload : bytes) : res unit bytes :=
  let udp_len := 8 + zlen payload in
  let total_len := 20 + udp_len in
  if (65535 <? udp_len) || (65535 <? total_len) then Err tt else
  let csum := udp_checksum_ipv4 s d (udp_segment sp dp 0 payload) in
  Ok (ipv4_header_checked (as_u16 total_len) 17 s d ++ udp_segment sp dp csum payload).

Definition build_ipv6_udp_packet (s d : bytes) (sp dp : Z) (payload : bytes) : res unit bytes :=
  let udp_len := 8 + zlen payload in
  if 65535 <? udp_len then Err tt else
  let csum := udp_checksum_ipv6 s d (udp_segment sp dp 0 payload) in
  Ok (ipv6_header (as_u16 udp_len) 17 s d ++ udp_segment sp dp csum payload).

Definition build_ipv4_tcp_packet (s d : bytes) (sp dp seq ack flags window : Z)
    (options payload : bytes) : res unit bytes :=
  let tcp_len := 20 + Z.of_nat (padded_options_len options) + zlen payload in
  let total_len := 20 + tcp_len in
  if (65535 <? total_len) || (65535 <? tcp_len) then Err tt else
  let csum := tcp_checksum_ipv4 s d (tcp_segment sp dp seq ack flags window 0 options payload) in
  Ok (ipv4_header_checked (as_u16 total_len) 6 s d ++
      tcp_segment sp dp seq ack flags window csum options payload).

Definition build_ipv6_tcp_packet (s d : bytes) (sp dp seq ack flags window : Z)
    (options payload : bytes) : res unit bytes :=
  let tcp_len := 20 + Z.of_nat (padded_options_len options) + zlen payload in
  if 65535 <? tcp_len then Err tt else
  let csum := tcp_checksum_ipv6 s d (tcp_segment sp dp seq ack flags window 0 options payload) in
  Ok (ipv6_header (as_u16 tcp_len) 6 s d ++
      tcp_segment sp dp seq ack flags window csum options payload).

Record TcpPacketSpec := mkSpec {
  spec_src : SocketAddr;
  spec_dst : SocketAddr;
  spec_seq : Z;
  spec_ack : Z;
  spec_flags : Z;
  spec_window : Z;
  spec_options : bytes;
  spec_payload : bytes
}.

Definition build_tcp_packet_with_options (t : TcpPacketSpec) : res unit bytes :=
  let sp := sa_port (spec_src t) in
  let dp := sa_port (spec_dst t) in
  match sa_ip (spec_src t), sa_ip (spec_dst t) with
  | V4 s, V4 d =>
      build_ipv4_tcp_packet s d sp dp (spec_seq t) (spec_ack t) (spec_flags t) (spec_window t)
        (spec_options t) (spec_payload t)
  | V6 s, V6 d =>
      build_ipv6_tcp_packet s d sp dp (spec_seq t) (spec_ack t) (spec_flags t) (spec_window t)
        (spec_options t) (spec_payload t)
  | _, _ => Err tt
  end.

Definition build_tcp_packet (s d : SocketAddr) (seq ack flags : Z) (payload : bytes) : res unit bytes :=
  build_tcp_packet_with_options (mkSpec s d seq ack flags 65535 [] payload).

Definition build_udp_response_packet (request : IpPacket) (payload : bytes) : res unit bytes :=
  if decide (protocol request = PUdp) then
    match src request, dst request with
    | V4 s, V4 d => build_ipv4_udp_packet d s (dst_port request) (src_port request) payload
    | V6 s, V6 d => build_ipv6_udp_packet d s (dst_port request) (src_port request) payload
    | _, _ => Err tt
    end
  else Err tt.

Definition build_ipv4_tcp_rst (s d : bytes) (sp dp : Z) : res unit bytes :=
  let csum := tcp_checksum_ipv4 s d (tcp_segment sp dp 0 0 4 0 0 [] []) in
  Ok (ipv4_header_checked 40 6 s d ++ tcp_segment sp dp 0 0 4 0 csum [] []).

Definition build_ipv6_tcp_rst (s d : bytes) (sp dp : Z) : res unit bytes :=
  let csum := tcp_checksum_ipv6 s d (tcp_segment sp dp 0 0 4 0 0 [] []) in
  Ok (ipv6_header 20 6 s d ++ tcp_segment sp dp 0 0 4 0 csum [] []).

Definition build_tcp_rst (request : IpPacket) : res unit bytes :=
  if decide (protocol request = PTcp) then
    match src request, dst request with
    | V4 s, V4 d => build_ipv4_tcp_rst d s (dst_port request) (src_port request)
    | V6 s, V6 d => build_ipv6_tcp_rst d s (dst_port request) (src_port request)
    | _, _ => Err tt
    end
  else Err tt.

End Tun.

Import Tun.

(** A request and the reply built for it. *)
Example udp_reply_example :
  (out ← build_ipv4_udp_packet [8; 8; 8; 8] [10; 0; 0; 2] 53 5353 (str "hi");
   p ← parse_ip_packet out;
   Ok (dst_port p, payload p out)) = Ok (5353, Some (str "hi")).
Proof. vm_compute. reflexivity. Qed.

(** ** The parser never panics *)

Lemma parse_tcp_no_panic buf o n : (o + 14 <= length buf)%nat -> no_panic (parse_tcp buf o n).
Proof.
  intros Hl. unfold parse_tcp.
  apply no_panic_bind; [apply idx32_no_panic; lia|]; intros seq _.
  apply no_panic_bind; [apply idx32_no_panic; lia|]; intros ack _.
  apply no_panic_bind; [apply idx_no_panic; lia|]; intros fl _.
  apply no_panic_bind; [apply idx_no_panic; lia|]; intros b _. cbv zeta. by case_match.
Qed.

Lemma parse_udp_no_panic buf o n : (o + 6 <= length buf)%nat -> no_panic (parse_udp buf o n).
Proof.
  intros Hl. unfold parse_udp.
  apply no_panic_bind; [apply idx16_no_panic; lia|]; intros l _. cbv zeta. by case_match.
Qed.

Lemma parse_tcp_Ok buf o n t :
  parse_tcp buf o n = Ok t ->
  (o + 20 <= t_payload_offset t <= o + n)%nat /\ is_Some (t_seq t) /\ is_Some (t_ack t) /\ is_Some (t_flags t).
Proof.
  unfold parse_tcp. intros Hp. inv_res. cbv zeta in Hp. case_match eqn:Hg; [done|]. inv_res. bool_hyps.
  cbn. split; [lia|]. eauto.
Qed.

Lemma parse_udp_Ok buf o n t :
  parse_udp buf o n = Ok t -> t_payload_offset t = (o + 8)%nat /\ (8 <= n)%nat.
Proof.
  unfold parse_udp. intros Hp. inv_res. cbv zeta in Hp. case_match eqn:Hg; [done|]. inv_res. bool_hyps.
  cbn. lia.
Qed.

(** The walk stays in the packet and ends: each step advances by at least 8. *)
Lemma walk_total fuel buf total h o :
  (total <= length buf)%nat -> (total < o + 8 * (fuel - 1))%nat -> (0 < fuel)%nat ->
  no_panic (walk_extensions fuel buf total h o).
Proof.
  intros Hl. revert h o. induction fuel as [|f IH]; intros h o Hf Hpos; [lia|].
  cbn [walk_extensions]. case_match; [done|]. case_match; [|case_match; [|done]];
    case_match eqn:Hg; try done; bool_hyps.
  - apply no_panic_bind; [apply idx_no_panic; lia|]; intros b _.
    apply no_panic_bind; [apply idx_no_panic; lia|]; intros l _. cbv zeta.
    destruct f; [lia|]. apply IH; lia.
  - apply no_panic_bind; [apply idx_no_panic; lia|]; intros b _.
    destruct f; [lia|]. apply IH; lia.
Qed.

Lemma parse_ipv4_no_panic buf : no_panic (parse_ipv4 buf).
Proof.
  unfold parse_ipv4. case_match eqn:Hg; [done|]. bool_hyps.
  apply no_panic_bind; [apply idx_no_panic; lia|]; intros b0 _. cbv zeta.
  case_match; [done|]. bool_hyps.
  apply no_panic_bind; [apply idx16_no_panic; lia|]; intros tl _.
  case_match; [done|]. case_match; [done|]. bool_hyps.
  apply no_panic_bind; [apply idx_no_panic; lia|]; intros proto _.
  apply no_panic_bind.
  { case_match; [|case_match; [|done]]; case_match; try done; bool_hyps.
    - apply parse_tcp_no_panic. lia.
    - apply parse_udp_no_panic. lia. }
  intros t _. apply no_panic_bind; [apply slice_no_panic; lia|]; intros s _.
  apply no_panic_bind; [apply slice_no_panic; lia|]; intros d _.
  apply no_panic_bind; [apply idx16_no_panic; lia|]; intros sp _.
  apply no_panic_bind; [apply idx16_no_panic; lia|]. done.
Qed.

Lemma parse_ipv6_no_panic buf : no_panic (parse_ipv6 buf).
Proof.
  unfold parse_ipv6. case_match eqn:Hg; [done|]. bool_hyps.
  apply no_panic_bind; [apply idx16_no_panic; lia|]; intros pl _. cbv zeta.
  case_match; [done|]. bool_hyps.
  apply no_panic_bind; [apply slice_no_panic; lia|]; intros s _.
  apply no_panic_bind; [apply slice_no_panic; lia|]; intros d _.
  apply no_panic_bind; [apply idx_no_panic; lia|]; intros h0 _.
  apply no_panic_bind; [apply walk_total; lia|]; intros [h o|h o] _; [|done]. cbv zeta.
  apply no_panic_bind.
  { case_match; [|case_match; [|done]]; case_match; try done; bool_hyps.
    - apply parse_tcp_no_panic. lia.
    - apply parse_udp_no_panic. lia. }
  intros t _. case_match; [done|]. bool_hyps.
  apply no_panic_bind; [apply idx16_no_panic; lia|]; intros sp _.
  apply no_panic_bind; [apply idx16_no_panic; lia|]. done.
Qed.

Lemma parse_ip_packet_no_panic buf : no_panic (parse_ip_packet buf).
Proof.
  unfold parse_ip_packet. case_match; [done|]. bool_hyps.
  apply no_panic_bind; [apply idx_no_panic; lia|]; intros b0 _. cbv zeta.
  case_match; [apply parse_ipv4_no_panic|]. case_match; [apply parse_ipv6_no_panic|done].
Qed.

(** What a parsed TCP or UDP packet guarantees about the buffer. *)
Definition in_buffer (p : IpPacket) (buf : bytes) : Prop :=
  (header_len p <= transport_offset p)%nat /\
  (transport_offset p + 8 <= payload_offset p)%nat /\
  (payload_offset p + payload_len p <= length buf)%nat /\
  (protocol p = PTcp -> (transport_offset p + 20 <= payload_offset p)%nat /\
     is_Some (tcp_seq p) /\ is_Some (tcp_ack p) /\ is_Some (tcp_flags p)).

Lemma protocol_of_tcp n : protocol_of n = PTcp <-> n = 6.
Proof. unfold protocol_of. repeat case_match; bool_hyps; naive_solver. Qed.

Lemma protocol_of_udp n : protocol_of n = PUdp <-> n = 17.
Proof. unfold protocol_of. repeat case_match; bool_hyps; naive_solver. Qed.

Lemma walk_offset fuel buf total h o w :
  walk_extensions fuel buf total h o = Ok w ->
  match w with WTransport _ o' | WOther _ o' => (o <= o')%nat end.
Proof.
  revert h o. induction fuel as [|f IH]; intros h o; cbn [walk_extensions]; [done|].
  intros Hw.
  destruct ((h =? 6) || (h =? 17) || (h =? 58)); [by inv_res|].
  destruct (is_extension h); [destruct (total <? o + 2)%nat|
    destruct (h =? 44); [destruct (total <? o + 8)%nat|by inv_res]]; try done;
    inv_res; cbv zeta in *; apply IH in Hw; destruct w; lia.
Qed.

Lemma parse_ipv4_in_buffer buf p :
  parse_ipv4 buf = Ok p -> protocol p = PTcp \/ protocol p = PUdp -> in_buffer p buf.
Proof.
  unfold parse_ipv4. intros Hp Hproto.
  case_match; [done|]. inv_res. cbv zeta in Hp. case_match; [done|]. inv_res.
  case_match; [done|]. case_match; [done|]. inv_res. bool_hyps.
  unfold in_buffer. cbn in *. rewrite protocol_of_tcp, protocol_of_udp in *.
  destruct (Z.eqb_spec a1 6) as [->|Hn6].
  - case_match; [done|]. bool_hyps. apply parse_tcp_Ok in E2 as (Ho & Hs).
    split; [lia|]. split; [lia|]. split; [lia|]. intros _. split; [lia|done].
  - destruct Hproto as [?| ->]; [done|]. cbn in E2. case_match; [done|]. bool_hyps.
    apply parse_udp_Ok in E2 as (Ho & Hs). split; [lia|]. split; [lia|]. split; [lia|done].
Qed.

Lemma parse_ipv6_in_buffer buf p :
  parse_ipv6 buf = Ok p -> protocol p = PTcp \/ protocol p = PUdp -> in_buffer p buf.
Proof.
  unfold parse_ipv6. intros Hp Hproto.
  case_match; [done|]. inv_res. cbv zeta in Hp. case_match; [done|]. inv_res. bool_hyps.
  apply walk_offset in E3. destruct a3 as [h o|h o].
  2: { inv_res. cbn in Hproto. by destruct Hproto. }
  inv_res. cbv zeta in *. inv_res. case_match; [done|]. inv_res. bool_hyps.
  unfold in_buffer. cbn in *. rewrite protocol_of_tcp, protocol_of_udp in *.
  destruct (Z.eqb_spec h 6) as [->|Hn6].
  - case_match; [done|]. bool_hyps. apply parse_tcp_Ok in E4 as (Ho & Hs).
    split; [lia|]. split; [lia|]. split; [lia|]. intros _. split; [lia|done].
  - destruct Hproto as [?| ->]; [done|]. cbn in E4. case_match; [done|]. bool_hyps.
    apply parse_udp_Ok in E4 as (Ho & Hs). split; [lia|]. split; [lia|]. split; [lia|done].
Qed.

(** ** Checksums *)

(** The sum of the 16-bit words, an odd last byte being the high half of a word. *)
Fixpoint words (data : bytes) : Z :=
  match data with
  | a :: b :: data' => be_val [a; b] + words data'
  | [a] => a * 256
  | [] => 0
  end.

(** Induction two bytes at a time. *)
Lemma bytes_pair_ind (P : bytes -> Prop) :
  P [] -> (forall a, P [a]) -> (forall a b l, P l -> P (a :: b :: l)) -> forall l, P l.
Proof.
  intros H0 H1 H2 l. assert (Hboth : P l /\ forall a, P (a :: l)); [|tauto].
  induction l as [|b l [IH IH']]; split; auto.
Qed.

Lemma words_bound l : bytes_ok l -> 0 <= words l <= 65535 * ((zlen l + 1) / 2).
Proof.
  induction l as [|a|a b l IH] using bytes_pair_ind; intros Hl.
  - split; vm_compute; congruence.
  - apply Forall_cons in Hl as [Ha _]. unfold in_u8 in Ha. cbn [words].
    change (65535 * ((zlen [a] + 1) / 2)) with 65535. lia.
  - apply Forall_cons in Hl as [Ha Hl]. apply Forall_cons in Hl as [Hb Hl]. specialize (IH Hl).
    cbn [words]. rewrite be_val_2. unfold in_u8, zlen in *. cbn [length].
    replace (Z.of_nat (S (S (length l))) + 1) with (Z.of_nat (length l) + 1 + 1 * 2) by lia.
    rewrite Z.div_add by lia. lia.
Qed.

Lemma accumulate_words sum l :
  bytes_ok l -> 0 <= sum -> sum + words l < 2 ^ 32 -> checksum_accumulate sum l = sum + words l.
Proof.
  revert sum. induction l as [|a|a b l IH] using bytes_pair_ind; intros sum Hl H0 Hs;
    cbn [checksum_accumulate words] in *.
  - lia.
  - apply Forall_cons in Hl as [Ha _]. unfold in_u8 in Ha.
    rewrite Z.shiftl_mul_pow2 by lia. change (2 ^ 8) with 256. unfold as_u32.
    rewrite (Z.mod_small (a * 256)), Z.mod_small by lia. done.
  - apply Forall_cons in Hl as [Ha Hl]. apply Forall_cons in Hl as [Hb Hl].
    pose proof (words_bound l Hl) as Hw. pose proof (be_val_u16 a b Ha Hb) as Hab.
    unfold in_u16 in Hab. unfold as_u32. rewrite Z.mod_small by lia. rewrite IH by (try done; lia). lia.
Qed.

Lemma words_app l1 l2 : Z.even (zlen l1) = true -> words (l1 ++ l2) = words l1 + words l2.
Proof.
  induction l1 as [|a|a b l IH] using bytes_pair_ind; intros He.
  - done.
  - done.
  - cbn [app words]. rewrite IH; [lia|]. unfold zlen in *. cbn [length] in He.
    replace (Z.of_nat (S (S (length l)))) with (Z.of_nat (length l) + 2) in He by lia.
    rewrite Z.even_add in He. by destruct (Z.even (Z.of_nat (length l))).
Qed.

Lemma words_be_bytes_2 x : in_u16 x -> words (be_bytes 2 x) = x.
Proof. intros Hx. rewrite <- (be_bytes_2_val x) at 2 by done. unfold be_bytes. cbn [words]. lia. Qed.

Lemma low_word s : Z.land s 65535 = s mod 65536.
Proof. change 65535 with (Z.ones 16). by rewrite Z.land_ones by lia. Qed.

(** Two rounds of folding are enough, and keep the sum modulo [2^16 - 1]. *)
Lemma fold_carries_spec s :
  in_u32 s -> 0 <= fold_carries 2 s < 65536 /\ fold_carries 2 s mod 65535 = s mod 65535 /\
  (0 < s -> 0 < fold_carries 2 s).
Proof.
  unfold in_u32. intros Hs. cbn [fold_carries]. rewrite !low_word, !Z.shiftr_div_pow2 by lia.
  change (2 ^ 16) with 65536.
  destruct (Z.eqb_spec (s / 65536) 0) as [Hz|Hz].
  { apply Z.div_small_iff in Hz; [|lia]. lia. }
  pose proof (Z.div_mod s 65536 ltac:(lia)) as Hdm.
  pose proof (Z.mod_pos_bound s 65536 ltac:(lia)) as Hm.
  assert (Hq : 0 <= s / 65536 < 65536) by (split; [apply Z.div_pos; lia|apply Z.div_lt_upper_bound; lia]).
  set (q := s / 65536) in *. set (r := s mod 65536) in *.
  unfold as_u32. rewrite (Z.mod_small (r + q)) by lia.
  assert (Hmod : (r + q) mod 65535 = s mod 65535).
  { rewrite Hdm. replace (65536 * q + r) with (r + q + q * 65535) by lia. by rewrite Z.mod_add by lia. }
  destruct (Z.eqb_spec ((r + q) / 65536) 0) as [Hz2|Hz2].
  { apply Z.div_small_iff in Hz2; [|lia]. lia. }
  pose proof (Z.div_mod (r + q) 65536 ltac:(lia)) as Hdm2.
  pose proof (Z.mod_pos_bound (r + q) 65536 ltac:(lia)) as Hm2.
  assert (Hq2 : 0 <= (r + q) / 65536 < 2) by (split; [apply Z.div_pos; lia|apply Z.div_lt_upper_bound; lia]).
  set (q2 := (r + q) / 65536) in *. set (r2 := (r + q) mod 65536) in *.
  rewrite Z.mod_small by lia. split; [lia|]. split; [|lia]. rewrite <- Hmod, Hdm2.
  replace (65536 * q2 + r2) with (r2 + q2 + q2 * 65535) by lia. by rewrite Z.mod_add by lia.
Qed.

(** The checksum makes the whole sum a multiple of [2^16 - 1]. *)
Lemma checksum_finish_spec s :
  in_u32 s -> in_u16 (checksum_finish s) /\ (s + checksum_finish s) mod 65535 = 0.
Proof.
  intros Hs. destruct (fold_carries_spec s Hs) as (Hb & Hm & _). unfold checksum_finish. cbv zeta.
  unfold as_u16. rewrite Z.mod_small by lia. set (f := fold_carries 2 s) in *.
  destruct (Z.eqb_spec (65535 - f) 0) as [Hz|Hz].
  - split; [unfold in_u16; lia|]. rewrite Z.add_mod, <- Hm by lia. replace f with 65535 by lia. done.
  - split; [unfold in_u16; lia|]. rewrite Z.add_mod, <- Hm, <- Z.add_mod by lia.
    replace (f + (65535 - f)) with 65535 by lia. done.
Qed.

(** Writing a checksum into a zero field at an even offset. *)
Lemma words_field pre c rest :
  Z.even (zlen pre) = true -> in_u16 c ->
  words (pre ++ be_bytes 2 c ++ rest) = words (pre ++ be_bytes 2 0 ++ rest) + c.
Proof.
  intros He Hc. rewrite !words_app by (rewrite ?zlen_be_bytes; done).
  rewrite !words_be_bytes_2 by (try done; unfold in_u16; lia). lia.
Qed.

Lemma checksum_field_ok (pseudo pre rest : bytes) :
  bytes_ok pseudo -> bytes_ok pre -> bytes_ok rest ->
  Z.even (zlen pseudo) = true -> Z.even (zlen pre) = true ->
  zlen pseudo <= 40 -> zlen (pre ++ be_bytes 2 0 ++ rest) <= 65535 ->
  let c := checksum_finish (checksum_accumulate (checksum_accumulate 0 pseudo)
             (pre ++ be_bytes 2 0 ++ rest)) in
  in_u16 c /\ (words pseudo + words (pre ++ be_bytes 2 c ++ rest)) mod 65535 = 0.
Proof.
  intros Hp Hpre Hrest He1 He2 Hl1 Hl2 c. set (z := pre ++ be_bytes 2 0 ++ rest) in *.
  assert (Hz : bytes_ok z) by (subst z; auto with blackwire).
  pose proof (words_bound pseudo Hp) as Hwp. pose proof (words_bound z Hz) as Hwz.
  assert (Hbound : 65535 * ((zlen pseudo + 1) / 2) + 65535 * ((zlen z + 1) / 2) < 2 ^ 32).
  { assert ((zlen pseudo + 1) / 2 <= 20) by (change 20 with (41 / 2); apply Z.div_le_mono; lia).
    assert ((zlen z + 1) / 2 <= 32768) by (change 32768 with (65536 / 2); apply Z.div_le_mono; lia).
    lia. }
  assert (Hc : c = checksum_finish (words pseudo + words z)).
  { subst c. rewrite (accumulate_words 0 pseudo) by (try done; lia).
    rewrite accumulate_words by (try done; lia). done. }
  destruct (checksum_finish_spec (words pseudo + words z)) as [Hu Hm]; [unfold in_u32; lia|].
  rewrite Hc. split; [done|]. rewrite words_field by done. fold z. by rewrite Z.add_assoc.
Qed.

(** ** Field access in the built packets *)

Lemma slice_mid3 {E} (a b c d : bytes) n m :
  n = length (a ++ b) -> m = (n + length c)%nat -> slice (E:=E) (a ++ b ++ c ++ d) n m = Ok c.
Proof. intros -> ->. rewrite app_assoc. by apply slice_mid. Qed.

Lemma v4_fields {E} total proto c s d seg :
  in_u16 total -> length s = 4%nat -> length d = 4%nat ->
  let buf := ipv4_header total proto c s d ++ seg in
  length buf = (20 + length seg)%nat /\ drop 20 buf = seg /\
  idx (E:=E) buf 0 = Ok 69 /\ idx16 (E:=E) buf 2 = Ok total /\ idx (E:=E) buf 9 = Ok proto /\
  slice (E:=E) buf 12 16 = Ok s /\ slice (E:=E) buf 16 20 = Ok d.
Proof.
  intros Ht Hs Hd buf. unfold buf, ipv4_header.
  assert (Hlen : length (ipv4_header total proto c s d) = 20%nat).
  { unfold ipv4_header. rewrite !length_app, !length_be_bytes, Hs, Hd. done. }
  split; [rewrite length_app; fold (ipv4_header total proto c s d); lia|].
  split; [by rewrite <- Hlen, drop_app_length|].
  split; [done|]. split; [rewrite <- !app_assoc; by apply (idx16_be_bytes [69; 0])|].
  split; [done|]. rewrite <- !app_assoc.
  set (h := [69; 0] ++ be_bytes 2 total ++ [0; 0; 0; 0; 64; proto] ++ be_bytes 2 c).
  replace ([69; 0] ++ be_bytes 2 total ++ [0; 0; 0; 0; 64; proto] ++ be_bytes 2 c ++ s ++ d ++ seg)
    with (h ++ s ++ d ++ seg) by (subst h; by rewrite <- !app_assoc).
  assert (Hh : length h = 12%nat) by (subst h; rewrite !length_app, !length_be_bytes; done).
  split.
  - apply slice_mid; lia.
  - apply slice_mid3; rewrite ?length_app; lia.
Qed.

Lemma v6_fields {E} len proto s d seg :
  in_u16 len -> length s = 16%nat -> length d = 16%nat ->
  let buf := ipv6_header len proto s d ++ seg in
  length buf = (40 + length seg)%nat /\ drop 40 buf = seg /\
  idx (E:=E) buf 0 = Ok 96 /\ idx16 (E:=E) buf 4 = Ok len /\ idx (E:=E) buf 6 = Ok proto /\
  slice (E:=E) buf 8 24 = Ok s /\ slice (E:=E) buf 24 40 = Ok d.
Proof.
  intros Ht Hs Hd buf. unfold buf, ipv6_header.
  assert (Hlen : length (ipv6_header len proto s d) = 40%nat).
  { unfold ipv6_header. rewrite !length_app, !length_be_bytes, Hs, Hd. done. }
  split; [rewrite length_app; fold (ipv6_header len proto s d); lia|].
  split; [by rewrite <- Hlen, drop_app_length|].
  split; [done|]. split; [rewrite <- !app_assoc; by apply (idx16_be_bytes [96; 0; 0; 0])|].
  split; [done|]. rewrite <- !app_assoc.
  set (h := [96; 0; 0; 0] ++ be_bytes 2 len ++ [proto; 64]).
  replace ([96; 0; 0; 0] ++ be_bytes 2 len ++ [proto; 64] ++ s ++ d ++ seg)
    with (h ++ s ++ d ++ seg) by (subst h; by rewrite <- !app_assoc).
  assert (Hh : length h = 8%nat) by (subst h; rewrite !length_app, !length_be_bytes; done).
  split.
  - apply slice_mid; lia.
  - apply slice_mid3; rewrite ?length_app; lia.
Qed.

(** ** Transport headers, at any offset *)

Definition shift_transport (k : nat) (t : Transport) : Transport :=
  mkTransport (k + t_payload_offset t) (t_seq t) (t_ack t) (t_flags t).

Lemma idx32_drop {E} (l : bytes) p k : idx32 (E:=E) l (p + k) = idx32 (drop p l) k.
Proof. unfold idx32. by rewrite <- !Nat.add_assoc, !idx_drop. Qed.

Lemma parse_tcp_shift buf o n :
  parse_tcp buf o n = shift_transport o <$> parse_tcp (drop o buf) 0 n.
Proof.
  unfold parse_tcp. rewrite !idx32_drop, !idx_drop, drop_0. cbn [Nat.add].
  destruct (idx32 (drop o buf) 4); mred; try done. destruct (idx32 (drop o buf) 8); mred; try done.
  destruct (idx (drop o buf) 13); mred; try done. destruct (idx (drop o buf) 12) as [b| |]; mred; try done.
  by destruct ((Z.to_nat (Z.shiftr b 4) * 4 <? 20)%nat || (n <? Z.to_nat (Z.shiftr b 4) * 4)%nat).
Qed.

Lemma parse_udp_shift buf o n :
  parse_udp buf o n = shift_transport o <$> parse_udp (drop o buf) 0 n.
Proof.
  unfold parse_udp. rewrite !idx16_drop, drop_0. cbn [Nat.add].
  destruct (idx16 (drop o buf) 4) as [l| |]; mred; try done.
  by destruct ((Z.to_nat l <? 8)%nat || (n <? Z.to_nat l)%nat).
Qed.

(** Ports are the first two words of every segment built here. *)
Lemma segment_ports {E} sp dp rest :
  in_u16 sp -> in_u16 dp ->
  idx16 (E:=E) (be_bytes 2 sp ++ be_bytes 2 dp ++ rest) 0 = Ok sp /\
  idx16 (E:=E) (be_bytes 2 sp ++ be_bytes 2 dp ++ rest) 2 = Ok dp.
Proof. intros Hs Hd. split; [by apply idx16_be_bytes_0|by apply idx16_be_bytes]. Qed.

Lemma parse_udp_segment sp dp c p :
  8 + zlen p <= 65535 ->
  parse_udp (udp_segment sp dp c p) 0 (length (udp_segment sp dp c p)) = Ok (mkTransport 8 None None None).
Proof.
  intros Hl. unfold parse_udp. pose proof (zlen_nonneg p) as Hnn.
  assert (Hi : idx16 (E:=unit) (udp_segment sp dp c p) (0 + 4) = Ok (8 + zlen p)).
  { unfold udp_segment, as_u16. rewrite Z.mod_small by lia. rewrite app_assoc.
    apply idx16_be_bytes; [by rewrite length_app, !length_be_bytes|]. unfold in_u16. lia. }
  rewrite Hi. mred. cbv zeta.
  assert (Hlen : length (udp_segment sp dp c p) = (8 + length p)%nat).
  { unfold udp_segment. rewrite !length_app, !length_be_bytes. lia. }
  rewrite Hlen. unfold zlen in *.
  destruct (Nat.ltb_spec (Z.to_nat (8 + Z.of_nat (length p))) 8); [lia|].
  destruct (Nat.ltb_spec (8 + length p) (Z.to_nat (8 + Z.of_nat (length p)))); [lia|]. done.
Qed.

Lemma padded_options_spec o :
  (length o <= padded_options_len o < length o + 4)%nat /\ (padded_options_len o mod 4 = 0)%nat.
Proof.
  unfold padded_options_len. pose proof (Nat.div_mod_eq (length o + 3) 4).
  pose proof (Nat.mod_upper_bound (length o + 3) 4 ltac:(lia)). split; [lia|].
  apply Nat.Div0.mod_mul.
Qed.

Lemma tcp_segment_length sp dp seq ack fl w c o p :
  length (tcp_segment sp dp seq ack fl w c o p) = (20 + padded_options_len o + length p)%nat.
Proof.
  pose proof (padded_options_spec o). unfold tcp_segment.
  rewrite !length_app, !length_be_bytes, length_replicate. cbn [length]. lia.
Qed.

(** The data offset nibble survives for up to 40 bytes of options. *)
Lemma data_offset_nibble (h : nat) :
  (h mod 4 = 0)%nat -> (h <= 60)%nat ->
  (Z.to_nat (Z.shiftr (as_u8 (Z.shiftl (as_u8 (Z.of_nat (h / 4))) 4)) 4) * 4)%nat = h.
Proof.
  intros Hm Hl. pose proof (Nat.div_mod_eq h 4) as Hd.
  set (q := (h / 4)%nat) in *. assert (Hq : (q <= 15)%nat) by lia.
  unfold as_u8. rewrite (Z.mod_small (Z.of_nat q)) by lia.
  rewrite Z.shiftl_mul_pow2 by lia. change (2 ^ 4) with 16. rewrite Z.mod_small by lia.
  rewrite Z.shiftr_div_pow2 by lia. change (2 ^ 4) with 16. rewrite Z.div_mul by lia. lia.
Qed.

Lemma parse_tcp_segment sp dp seq ack fl w c o p :
  in_u32 seq -> in_u32 ack -> (length o <= 40)%nat ->
  let seg := tcp_segment sp dp seq ack fl w c o p in
  parse_tcp seg 0 (length seg) =
    Ok (mkTransport (20 + padded_options_len o) (Some seq) (Some ack) (Some fl)).
Proof.
  intros Hs Ha Ho seg. pose proof (padded_options_spec o) as [Hpad Hmod].
  assert (Hpl : (padded_options_len o <= 40)%nat).
  { pose proof (Nat.div_mod_eq (padded_options_len o) 4). lia. }
  assert (Hlen : length seg = (20 + padded_options_len o + length p)%nat) by apply tcp_segment_length.
  set (h := be_bytes 2 sp ++ be_bytes 2 dp).
  set (off := as_u8 (Z.shiftl (as_u8 (Z.of_nat ((20 + padded_options_len o) / 4))) 4)).
  assert (Hseg : exists r, seg = h ++ be_bytes 4 seq ++ be_bytes 4 ack ++ off :: fl :: r).
  { eexists. subst seg h off. unfold tcp_segment. cbv zeta. by rewrite <- !app_assoc. }
  destruct Hseg as [r Hseg]. unfold parse_tcp. cbn [Nat.add].
  assert (Hh : length h = 4%nat) by (subst h; by rewrite length_app, !length_be_bytes).
  replace (idx32 (E:=unit) seg 4) with (Ok (E:=unit) seq) by (rewrite Hseg, idx32_be_bytes; done).
  replace (idx32 (E:=unit) seg 8) with (Ok (E:=unit) ack).
  2: { rewrite Hseg, app_assoc, idx32_be_bytes; [done| |done]. rewrite length_app, Hh, length_be_bytes. done. }
  replace (idx (E:=unit) seg 12) with (Ok (E:=unit) off).
  2: { rewrite Hseg. do 2 rewrite app_assoc. rewrite idx_app_mid; [done|].
       rewrite !length_app, Hh, !length_be_bytes. done. }
  replace (idx (E:=unit) seg 13) with (Ok (E:=unit) fl).
  2: { rewrite Hseg. change (off :: fl :: r) with ([off] ++ fl :: r). do 3 rewrite app_assoc.
       rewrite idx_app_mid; [done|]. rewrite !length_app, Hh, !length_be_bytes. done. }
  mred. cbv zeta. subst off. rewrite data_offset_nibble; [| |lia].
  2: { rewrite Nat.Div0.add_mod, Hmod. done. }
  destruct (Nat.ltb_spec (20 + padded_options_len o) 20); [lia|].
  destruct (Nat.ltb_spec (length seg) (20 + padded_options_len o)); [lia|]. done.
Qed.

(** ** Parsing a built packet *)

(** Pass a guard [a || b] whose two alternatives are impossible. *)
Ltac skip_or_guard :=
  match goal with
  | |- context [if ?a || ?b then _ else _] =>
      let G := fresh "G" in
      destruct (a || b) eqn:G;
      [ apply orb_true_iff in G as [G|G]; bool_hyps; exfalso; len_solve
      | clear G ]
  end.

(** [seg] is a TCP or UDP segment that parses, from its first byte, to [t]. *)
Definition segment_parses (proto : Z) (seg : bytes) (sp dp : Z) (t : Transport) : Prop :=
  idx16 (E:=unit) seg 0 = Ok sp /\ idx16 (E:=unit) seg 2 = Ok dp /\
  ((proto = 6 /\ (20 <= length seg)%nat /\ parse_tcp seg 0 (length seg) = Ok t) \/
   (proto = 17 /\ (8 <= length seg)%nat /\ parse_udp seg 0 (length seg) = Ok t)).

Lemma parse_v4_packet total proto c s d seg sp dp t :
  in_u16 total -> length s = 4%nat -> length d = 4%nat -> Z.to_nat total = (20 + length seg)%nat ->
  segment_parses proto seg sp dp t ->
  parse_ip_packet (ipv4_header total proto c s d ++ seg) =
    Ok (mkPacket (V4 s) (V4 d) sp dp (protocol_of proto) 20 (20 + t_payload_offset t) 20
          (length seg - t_payload_offset t) (t_seq t) (t_ack t) (t_flags t)).
Proof.
  intros Ht Hs Hd Htot (Hsp & Hdp & Hproto).
  destruct (v4_fields (E:=unit) total proto c s d seg Ht Hs Hd) as (Hlen & Hdrop & H0 & H2 & H9 & Hsrc & Hdst).
  set (buf := ipv4_header total proto c s d ++ seg) in *. clearbody buf.
  assert (Hsp' : idx16 (E:=unit) buf 20 = Ok sp) by (rewrite <- Hsp, <- Hdrop; apply (idx16_drop buf 20 0)).
  assert (Hdp' : idx16 (E:=unit) buf (20 + 2) = Ok dp) by (rewrite <- Hdp, <- Hdrop; apply (idx16_drop buf 20 2)).
  assert (Hmin : (8 <= length seg)%nat) by (destruct Hproto as [(_ & ? & _)|(_ & ? & _)]; lia).
  unfold parse_ip_packet. destruct (Nat.eqb_spec (length buf) 0); [lia|]. rewrite H0. mred.
  change (Z.shiftr 69 4) with 4. eval_eqb. unfold parse_ipv4. rewrite Hlen.
  skip_guard. rewrite H0. mred. change (Z.to_nat (Z.land 69 15) * 4)%nat with 20%nat. cbv zeta.
  change (20 <? 20)%nat with false. cbv iota. rewrite H2. mred. rewrite Htot.
  skip_or_guard. skip_guard. rewrite H9. mred.
  replace (20 + length seg - 20)%nat with (length seg) by lia.
  rewrite parse_tcp_shift, parse_udp_shift, Hdrop.
  rewrite Hsp', Hdp', Hsrc, Hdst.
  destruct Hproto as [(-> & Hl & Hp)|(-> & Hl & Hp)]; eval_eqb; rewrite Hp; skip_guard; mred;
    cbn [shift_transport t_payload_offset t_seq t_ack t_flags]; do 2 f_equal; lia.
Qed.

Lemma walk_transport f buf total h o :
  h = 6 \/ h = 17 -> walk_extensions (S f) buf total h o = Ok (WTransport h o).
Proof. by intros [->| ->]. Qed.

Lemma parse_v6_packet len proto s d seg sp dp t :
  in_u16 len -> length s = 16%nat -> length d = 16%nat -> Z.to_nat len = length seg ->
  segment_parses proto seg sp dp t ->
  parse_ip_packet (ipv6_header len proto s d ++ seg) =
    Ok (mkPacket (V6 s) (V6 d) sp dp (protocol_of proto) 40 (40 + t_payload_offset t) 40
          (length seg - t_payload_offset t) (t_seq t) (t_ack t) (t_flags t)).
Proof.
  intros Ht Hs Hd Htot (Hsp & Hdp & Hproto).
  destruct (v6_fields (E:=unit) len proto s d seg Ht Hs Hd) as (Hlen & Hdrop & H0 & H4 & H6 & Hsrc & Hdst).
  set (buf := ipv6_header len proto s d ++ seg) in *. clearbody buf.
  assert (Hsp' : idx16 (E:=unit) buf 40 = Ok sp) by (rewrite <- Hsp, <- Hdrop; apply (idx16_drop buf 40 0)).
  assert (Hdp' : idx16 (E:=unit) buf (40 + 2) = Ok dp) by (rewrite <- Hdp, <- Hdrop; apply (idx16_drop buf 40 2)).
  assert (Hmin : (8 <= length seg)%nat) by (destruct Hproto as [(_ & ? & _)|(_ & ? & _)]; lia).
  unfold parse_ip_packet. destruct (Nat.eqb_spec (length buf) 0); [lia|]. rewrite H0. mred.
  change (Z.shiftr 96 4) with 6. eval_eqb. unfold parse_ipv6. rewrite Hlen.
  skip_guard. rewrite H4. mred. cbv zeta. rewrite Htot. skip_guard.
  rewrite Hsrc, Hdst, H6. mred.
  rewrite walk_transport by (destruct Hproto as [(-> & _)|(-> & _)]; auto). mred. replace (40 + length seg - 40)%nat with (length seg) by lia.
  rewrite parse_tcp_shift, parse_udp_shift, Hdrop.
  rewrite Hsp', Hdp'.
  destruct Hproto as [(-> & Hl & Hp)|(-> & Hl & Hp)]; eval_eqb; rewrite Hp; skip_or_guard; mred;
    skip_guard; mred; cbn [shift_transport t_payload_offset t_seq t_ack t_flags]; do 2 f_equal; lia.
Qed.

Lemma udp_segment_parses sp dp c p :
  in_u16 sp -> in_u16 dp -> 8 + zlen p <= 65535 ->
  segment_parses 17 (udp_segment sp dp c p) sp dp (mkTransport 8 None None None).
Proof.
  intros Hs Hd Hl.
  destruct (segment_ports (E:=unit) sp dp (be_bytes 2 (as_u16 (8 + zlen p)) ++ be_bytes 2 c ++ p) Hs Hd)
    as [H0 H2].
  split; [exact H0|]. split; [exact H2|]. right. split; [done|]. split.
  - unfold udp_segment. rewrite !length_app, !length_be_bytes. lia.
  - by apply parse_udp_segment.
Qed.

Lemma tcp_segment_parses sp dp seq ack fl w c o p :
  in_u16 sp -> in_u16 dp -> in_u32 seq -> in_u32 ack -> (length o <= 40)%nat ->
  segment_parses 6 (tcp_segment sp dp seq ack fl w c o p) sp dp
    (mkTransport (20 + padded_options_len o) (Some seq) (Some ack) (Some fl)).
Proof.
  intros Hs Hd Hq Ha Ho. unfold segment_parses.
  assert (Hseg : exists r, tcp_segment sp dp seq ack fl w c o p = be_bytes 2 sp ++ be_bytes 2 dp ++ r)
    by (eexists; reflexivity).
  destruct Hseg as [r Hr]. destruct (segment_ports (E:=unit) sp dp r Hs Hd) as [H0 H2].
  rewrite <- Hr in H0, H2. split; [exact H0|]. split; [exact H2|]. left. split; [done|]. split.
  - rewrite tcp_segment_length. lia.
  - by apply parse_tcp_segment.
Qed.

Lemma udp_segment_split sp dp c p :
  exists h, udp_segment sp dp c p = h ++ p /\ length h = 8%nat.
Proof.
  exists (be_bytes 2 sp ++ be_bytes 2 dp ++ be_bytes 2 (as_u16 (8 + zlen p)) ++ be_bytes 2 c).
  unfold udp_segment. split; [by rewrite <- !app_assoc|]. by rewrite !length_app, !length_be_bytes.
Qed.

Lemma tcp_segment_split sp dp seq ack fl w c o p :
  exists h, tcp_segment sp dp seq ack fl w c o p = h ++ p /\ length h = (20 + padded_options_len o)%nat.
Proof.
  pose proof (tcp_segment_length sp dp seq ack fl w c o p) as Hl.
  assert (Hs : exists h, tcp_segment sp dp seq ack fl w c o p = h ++ p).
  { unfold tcp_segment. cbv zeta. eexists. rewrite !app_assoc. reflexivity. }
  destruct Hs as [h Hh]. exists h. split; [done|]. rewrite Hh, length_app in Hl. lia.
Qed.

Lemma v4_header_length total proto c s d :
  length s = 4%nat -> length d = 4%nat -> length (ipv4_header total proto c s d) = 20%nat.
Proof. intros Hs Hd. unfold ipv4_header. by rewrite !length_app, !length_be_bytes, Hs, Hd. Qed.

Lemma v6_header_length len proto s d :
  length s = 16%nat -> length d = 16%nat -> length (ipv6_header len proto s d) = 40%nat.
Proof. intros Hs Hd. unfold ipv6_header. by rewrite !length_app, !length_be_bytes, Hs, Hd. Qed.

(** The payload is what follows the headers. *)
Lemma payload_suffix p (ip_hdr h seg body : bytes) :
  seg = h ++ body -> payload_offset p = (length ip_hdr + length h)%nat ->
  payload_len p = (length seg - length h)%nat -> payload p (ip_hdr ++ seg) = Some body.
Proof.
  intros -> Ho Hl. rewrite length_app in Hl. unfold payload, get_range.
  rewrite Ho, Hl, !length_app, decide_True by lia. rewrite app_assoc, <- length_app, drop_app_length.
  f_equal. apply take_ge. rewrite length_app. lia.
Qed.

Lemma to_nat_zlen {A} k (l : list A) : Z.to_nat (Z.of_nat k + zlen l) = (k + length l)%nat.
Proof. unfold zlen. lia. Qed.

(** ** Properties *)

(** The IP packet parser is safe on every input: it never indexes out of range
    and always finishes the IPv6 extension-header walk; and for a TCP or UDP
    packet that it accepts, the payload it reports lies inside the buffer and
    after the whole transport header, with sequence, acknowledgement and flags
    present for TCP. *)
Theorem tun_parse_safe (buf : bytes) :
  no_panic (parse_ip_packet buf) /\
  (forall p, parse_ip_packet buf = Ok p -> protocol p = PTcp \/ protocol p = PUdp ->
     in_buffer p buf /\ is_Some (payload p buf)).
Proof.
  split; [apply parse_ip_packet_no_panic|]. intros p Hp Hproto.
  assert (Hin : in_buffer p buf).
  { unfold parse_ip_packet in Hp. case_match; [done|]. inv_res. cbv zeta in Hp.
    case_match; [by apply parse_ipv4_in_buffer|]. case_match; [by apply parse_ipv6_in_buffer|done]. }
  split; [done|]. destruct Hin as (_ & _ & Hb & _). unfold payload, get_range.
  rewrite decide_True by lia. eauto.
Qed.

(** The reply built for a request parses back, with the two ends swapped. *)
Lemma udp_reply_parses (request : IpPacket) (body out : bytes) :
  ip_ok (src request) -> ip_ok (dst request) ->
  in_u16 (src_port request) -> in_u16 (dst_port request) ->
  build_udp_response_packet request body = Ok out ->
  exists p, parse_ip_packet out = Ok p /\ protocol p = PUdp /\
    src p = dst request /\ dst p = src request /\
    src_port p = dst_port request /\ dst_port p = src_port request /\
    payload p out = Some body.
Proof.
  intros Hs Hd Hsp Hdp Hb. unfold build_udp_response_packet in Hb. case_decide; [|done].
  pose proof (zlen_nonneg body).
  destruct (src request) as [s|s], (dst request) as [d|d]; try done; destruct Hs as [_ Hs], Hd as [_ Hd].
  - unfold build_ipv4_udp_packet in Hb. case_match eqn:Hg; [done|]. bool_hyps. inv_res.
    unfold ipv4_header_checked, as_u16. rewrite Z.mod_small by lia.
    erewrite parse_v4_packet; [|unfold in_u16; lia|done|done| |by apply udp_segment_parses; try done; lia].
    2: { unfold udp_segment. rewrite !length_app, !length_be_bytes. unfold zlen. lia. }
    eexists. split; [reflexivity|]. do 5 (split; [reflexivity|]).
    destruct (udp_segment_split (dst_port request) (src_port request)
      (udp_checksum_ipv4 d s (udp_segment (dst_port request) (src_port request) 0 body)) body) as (h & Hh & Hl).
    apply (payload_suffix _ _ h); [done| |];
      cbn [payload_offset payload_len t_payload_offset]; rewrite ?v4_header_length, Hl by done; done.
  - unfold build_ipv6_udp_packet in Hb. case_match eqn:Hg; [done|]. bool_hyps. inv_res.
    unfold as_u16 at 1. rewrite Z.mod_small by lia.
    erewrite parse_v6_packet; [|unfold in_u16; lia|done|done| |by apply udp_segment_parses; try done; lia].
    2: { unfold udp_segment. rewrite !length_app, !length_be_bytes. unfold zlen. lia. }
    eexists. split; [reflexivity|]. do 5 (split; [reflexivity|]).
    destruct (udp_segment_split (dst_port request) (src_port request)
      (udp_checksum_ipv6 d s (udp_segment (dst_port request) (src_port request) 0 body)) body) as (h & Hh & Hl).
    apply (payload_suffix _ _ h); [done| |];
      cbn [payload_offset payload_len t_payload_offset]; rewrite ?v6_header_length, Hl by done; done.
Qed.

(** The largest reply payload: the IPv4 total length covers its own header. *)
Definition reply_fits (request : IpPacket) (body : bytes) : Prop :=
  match src request with V4 _ => 28 + zlen body <= 65535 | V6 _ => 8 + zlen body <= 65535 end.

Definition same_version (a b : IpAddr) : Prop :=
  match a, b with V4 _, V4 _ => True | V6 _, V6 _ => True | _, _ => False end.

Lemma udp_reply_built request body :
  protocol request = PUdp -> same_version (src request) (dst request) ->
  (reply_fits request body -> exists out, build_udp_response_packet request body = Ok out) /\
  (~ reply_fits request body -> build_udp_response_packet request body = Err tt).
Proof.
  intros Hp Hv. unfold build_udp_response_packet, reply_fits. rewrite decide_True by done.
  pose proof (zlen_nonneg body). destruct (src request) as [s|s], (dst request) as [d|d]; try done.
  - unfold build_ipv4_udp_packet. cbv zeta. case_match eqn:Hg; bool_hyps.
    + split; [|done]. intros Hf. destruct Hg; bool_hyps; lia.
    + split; [eauto|]. intros Hf. lia.
  - unfold build_ipv6_udp_packet. cbv zeta. case_match eqn:Hg; bool_hyps.
    + split; [|done]. lia.
    + split; [eauto|]. lia.
Qed.

(** UDP replies: for a parsed UDP request, a payload that fits the 16-bit
    length fields is wrapped into a packet that parses back as a UDP packet from
    the request's destination to its source, ports swapped, with exactly that
    payload; a payload that does not fit is refused. *)
Theorem tun_udp_reply_roundtrip (request : IpPacket) (body : bytes) :
  protocol request = PUdp -> same_version (src request) (dst request) ->
  ip_ok (src request) -> ip_ok (dst request) ->
  in_u16 (src_port request) -> in_u16 (dst_port request) ->
  (reply_fits request body ->
     exists out p, build_udp_response_packet request body = Ok out /\
       parse_ip_packet out = Ok p /\ protocol p = PUdp /\
       src p = dst request /\ dst p = src request /\
       src_port p = dst_port request /\ dst_port p = src_port request /\
       payload p out = Some body) /\
  (~ reply_fits request body -> build_udp_response_packet request body = Err tt).
Proof.
  intros Hp Hv Hs Hd Hsp Hdp. destruct (udp_reply_built request body Hp Hv) as [Hok Herr].
  split; [|exact Herr]. intros Hf. destruct (Hok Hf) as [out Hout]. exists out.
  destruct (udp_reply_parses request body out Hs Hd Hsp Hdp Hout) as (p & Hp'). by exists p.
Qed.

Lemma tun_udp_reply_roundtrip_witness :
  exists p out, parse_ip_packet out = Ok p /\ dst_port p = 5353 /\ payload p out = Some (str "hi").
Proof.
  pose (req := mkPacket (V4 [10; 0; 0; 2]) (V4 [8; 8; 8; 8]) 5353 53 PUdp 20 28 20 0 None None None).
  destruct (tun_udp_reply_roundtrip req (str "hi")) as [Hok _].
  - reflexivity.
  - exact I.
  - split; [repeat constructor; vm_compute; congruence|reflexivity].
  - split; [repeat constructor; vm_compute; congruence|reflexivity].
  - split; vm_compute; congruence.
  - split; vm_compute; congruence.
  - destruct Hok as (out & p & _ & Hp & _ & _ & _ & _ & Hd & Hb); [vm_compute; congruence|].
    exists p, out. split; [exact Hp|]. split; [exact Hd|exact Hb].
Defined.

(** What a TCP packet built from [t] parses to. *)
Definition parses_to_spec (t : TcpPacketSpec) (out : bytes) : Prop :=
  exists p, parse_ip_packet out = Ok p /\ protocol p = PTcp /\
    src p = sa_ip (spec_src t) /\ dst p = sa_ip (spec_dst t) /\
    src_port p = sa_port (spec_src t) /\ dst_port p = sa_port (spec_dst t) /\
    tcp_seq p = Some (spec_seq t) /\ tcp_ack p = Some (spec_ack t) /\
    tcp_flags p = Some (spec_flags t) /\ payload p out = Some (spec_payload t).

Definition spec_ok (t : TcpPacketSpec) : Prop :=
  ip_ok (sa_ip (spec_src t)) /\ ip_ok (sa_ip (spec_dst t)) /\
  in_u16 (sa_port (spec_src t)) /\ in_u16 (sa_port (spec_dst t)) /\
  in_u32 (spec_seq t) /\ in_u32 (spec_ack t) /\ (length (spec_options t) <= 40)%nat.

Lemma tcp_packet_parses t out :
  spec_ok t -> build_tcp_packet_with_options t = Ok out -> parses_to_spec t out.
Proof.
  intros (Hs & Hd & Hsp & Hdp & Hseq & Hack & Hopt) Hb.
  destruct t as [[sip sp] [dip dp] seq ack fl w o body]. cbn in Hs, Hd, Hsp, Hdp, Hseq, Hack, Hopt.
  unfold build_tcp_packet_with_options in Hb.
  cbn [sa_ip sa_port spec_src spec_dst spec_seq spec_ack spec_flags spec_window spec_options spec_payload] in Hb.
  pose proof (zlen_nonneg body).
  destruct sip as [s|s], dip as [d|d]; try done; destruct Hs as [_ Hs], Hd as [_ Hd].
  - unfold build_ipv4_tcp_packet in Hb. case_match eqn:Hg; [done|]. bool_hyps. inv_res.
    unfold ipv4_header_checked, as_u16. rewrite Z.mod_small by lia. unfold parses_to_spec.
    set (c := tcp_checksum_ipv4 _ _ _).
    erewrite parse_v4_packet; [|unfold in_u16; lia|done|done| |by apply tcp_segment_parses].
    2: { rewrite tcp_segment_length. unfold zlen. lia. }
    eexists. split; [reflexivity|]. do 8 (split; [reflexivity|]).
    destruct (tcp_segment_split sp dp seq ack fl w c o body) as (h & Hh & Hl).
    apply (payload_suffix _ _ h); [done| |];
      cbn [payload_offset payload_len t_payload_offset]; rewrite ?v4_header_length, Hl by done; done.
  - unfold build_ipv6_tcp_packet in Hb. case_match eqn:Hg; [done|]. bool_hyps. inv_res.
    unfold as_u16 at 1. rewrite Z.mod_small by lia. unfold parses_to_spec.
    set (c := tcp_checksum_ipv6 _ _ _).
    erewrite parse_v6_packet; [|unfold in_u16; lia|done|done| |by apply tcp_segment_parses].
    2: { rewrite tcp_segment_length. unfold zlen. lia. }
    eexists. split; [reflexivity|]. do 8 (split; [reflexivity|]).
    destruct (tcp_segment_split sp dp seq ack fl w c o body) as (h & Hh & Hl).
    apply (payload_suffix _ _ h); [done| |];
      cbn [payload_offset payload_len t_payload_offset]; rewrite ?v6_header_length, Hl by done; done.
Qed.

(** A reset is the bare packet with the RST flag, addresses swapped. *)
Definition rst_spec (request : IpPacket) : TcpPacketSpec :=
  mkSpec (mkSocketAddr (dst request) (dst_port request)) (mkSocketAddr (src request) (src_port request))
    0 0 4 0 [] [].

Lemma rst_is_packet request :
  protocol request = PTcp -> build_tcp_rst request = build_tcp_packet_with_options (rst_spec request).
Proof.
  intros Hp. unfold build_tcp_rst. rewrite decide_True by done.
  unfold build_tcp_packet_with_options. cbn [rst_spec spec_src spec_dst sa_ip sa_port].
  by destruct (src request), (dst request).
Qed.

(** The 16-bit lengths: the IPv4 total length covers its own header. *)
Definition tcp_fits (t : TcpPacketSpec) : Prop :=
  let tcp_len := 20 + Z.of_nat (padded_options_len (spec_options t)) + zlen (spec_payload t) in
  match sa_ip (spec_src t) with V4 _ => 20 + tcp_len <= 65535 | V6 _ => tcp_len <= 65535 end.

Lemma tcp_packet_built t :
  same_version (sa_ip (spec_src t)) (sa_ip (spec_dst t)) ->
  (tcp_fits t -> exists out, build_tcp_packet_with_options t = Ok out) /\
  (~ tcp_fits t -> build_tcp_packet_with_options t = Err tt).
Proof.
  intros Hv. unfold build_tcp_packet_with_options, tcp_fits. pose proof (zlen_nonneg (spec_payload t)).
  destruct (sa_ip (spec_src t)) as [s|s], (sa_ip (spec_dst t)) as [d|d]; try done.
  - unfold build_ipv4_tcp_packet. cbv zeta. case_match eqn:Hg; bool_hyps.
    + split; [|done]. intros Hf. destruct Hg; bool_hyps; lia.
    + split; [eauto|]. intros Hf. lia.
  - unfold build_ipv6_tcp_packet. cbv zeta. case_match eqn:Hg; bool_hyps; (split; [|done || lia]); [lia|eauto].
Qed.

(** TCP packets: a packet with at most 40 bytes of options whose length fits the
    16-bit fields is built and parses back to the same addresses, ports, sequence
    and acknowledgement numbers, flags and payload, and a longer one is refused;
    and a reset is built for every TCP request and parses back as a segment from
    the request's destination to its source with only the RST flag and no payload. *)
Theorem tun_tcp_roundtrip (t : TcpPacketSpec) (request : IpPacket) :
  spec_ok t -> same_version (sa_ip (spec_src t)) (sa_ip (spec_dst t)) ->
  protocol request = PTcp -> spec_ok (rst_spec request) -> same_version (dst request) (src request) ->
  (tcp_fits t -> exists out, build_tcp_packet_with_options t = Ok out /\ parses_to_spec t out) /\
  (~ tcp_fits t -> build_tcp_packet_with_options t = Err tt) /\
  (exists rst, build_tcp_rst request = Ok rst /\ parses_to_spec (rst_spec request) rst).
Proof.
  intros Ht Hv Hp Hr Hv'. destruct (tcp_packet_built t Hv) as [Hok Herr]. split; [|split; [done|]].
  - intros Hf. destruct (Hok Hf) as [out Hout]. exists out. split; [done|]. by apply tcp_packet_parses.
  - destruct (proj1 (tcp_packet_built (rst_spec request) Hv')) as [rst Hrst].
    { unfold tcp_fits. cbn. by destruct (dst request). }
    exists rst. split; [by rewrite rst_is_packet|]. by apply tcp_packet_parses.
Qed.

Lemma tun_tcp_roundtrip_witness :
  exists out, build_tcp_packet (mkSocketAddr (V4 [10; 0; 0; 2]) 1000) (mkSocketAddr (V4 [8; 8; 8; 8]) 443)
    7 9 24 (str "hi") = Ok out /\
  parses_to_spec (mkSpec (mkSocketAddr (V4 [10; 0; 0; 2]) 1000) (mkSocketAddr (V4 [8; 8; 8; 8]) 443)
    7 9 24 65535 [] (str "hi")) out.
Proof.
  pose (req := mkPacket (V4 [10; 0; 0; 2]) (V4 [8; 8; 8; 8]) 1000 443 PTcp 20 40 20 0 None None None).
  apply (tun_tcp_roundtrip (mkSpec (mkSocketAddr (V4 [10; 0; 0; 2]) 1000) (mkSocketAddr (V4 [8; 8; 8; 8]) 443)
    7 9 24 65535 [] (str "hi")) req); [|exact I|reflexivity| |exact I|vm_compute; discriminate];
    unfold spec_ok, ip_ok, bytes_ok, in_u8, in_u16, in_u32; cbn;
    repeat first [split | constructor | lia].
Defined.

(** ** Checksums of the built packets *)

(** Receiver's view: header, and pseudo-header with segment, sum to zero in ones
    complement. *)
Definition v4_sums (s d : bytes) (proto : Z) (out : bytes) : Prop :=
  exists hdr seg, out = hdr ++ seg /\ length hdr = 20%nat /\ words hdr mod 65535 = 0 /\
    (words (pseudo_ipv4 s d proto (zlen seg)) + words seg) mod 65535 = 0.

Definition v6_sums (s d : bytes) (proto : Z) (out : bytes) : Prop :=
  exists hdr seg, out = hdr ++ seg /\ length hdr = 40%nat /\
    (words (pseudo_ipv6 s d proto (zlen seg)) + words seg) mod 65535 = 0.

(** A segment with a checksum field at an even offset. *)
Definition has_checksum_field (seg : Z -> bytes) : Prop :=
  exists pre rest, (forall c, seg c = pre ++ be_bytes 2 c ++ rest) /\
    bytes_ok pre /\ bytes_ok rest /\ Z.even (zlen pre) = true.

Lemma field_length seg c c' : has_checksum_field seg -> zlen (seg c) = zlen (seg c').
Proof. intros (pre & rest & Hs & _). rewrite !Hs, !zlen_app, !zlen_be_bytes. done. Qed.

Lemma segment_sum (seg : Z -> bytes) (pseudo : Z -> bytes) :
  has_checksum_field seg -> bytes_ok (pseudo (zlen (seg 0))) ->
  Z.even (zlen (pseudo (zlen (seg 0)))) = true -> zlen (pseudo (zlen (seg 0))) <= 40 ->
  zlen (seg 0) <= 65535 ->
  let c := checksum_finish (checksum_accumulate (checksum_accumulate 0 (pseudo (zlen (seg 0)))) (seg 0)) in
  (words (pseudo (zlen (seg c))) + words (seg c)) mod 65535 = 0.
Proof.
  intros Hf Hp He Hl1 Hl2 c. rewrite (field_length seg c 0 Hf).
  destruct Hf as (pre & rest & Hs & Hpre & Hrest & Hev). subst c.
  rewrite (Hs 0) in *. rewrite Hs. by apply checksum_field_ok.
Qed.

Lemma udp_field sp dp p : bytes_ok p -> has_checksum_field (fun c => udp_segment sp dp c p).
Proof.
  intros Hp. exists (be_bytes 2 sp ++ be_bytes 2 dp ++ be_bytes 2 (as_u16 (8 + zlen p))), p.
  split; [intros c; unfold udp_segment; by rewrite <- !app_assoc|].
  split; [auto with blackwire|]. split; [done|]. by rewrite !zlen_app, !zlen_be_bytes.
Qed.

Lemma tcp_field sp dp seq ack fl w o p :
  in_u8 fl -> bytes_ok o -> bytes_ok p -> has_checksum_field (fun c => tcp_segment sp dp seq ack fl w c o p).
Proof.
  intros Hf Ho Hp. set (off := as_u8 (Z.shiftl (as_u8 (Z.of_nat ((20 + padded_options_len o) / 4))) 4)).
  assert (Hoff : in_u8 off) by (unfold off, in_u8, as_u8; apply Z.mod_pos_bound; lia).
  exists (be_bytes 2 sp ++ be_bytes 2 dp ++ be_bytes 4 seq ++ be_bytes 4 ack ++ [off; fl] ++ be_bytes 2 w),
    ([0; 0] ++ o ++ replicate (padded_options_len o - length o) 0 ++ p).
  assert (H0 : in_u8 0) by (unfold in_u8; lia).
  split; [intros c; unfold tcp_segment; cbv zeta; fold off; by rewrite <- !app_assoc|].
  split; [|split].
  - repeat apply bytes_ok_app_2; auto with blackwire.
  - repeat apply bytes_ok_app_2; auto with blackwire. apply Forall_replicate. done.
  - by rewrite !zlen_app, !zlen_be_bytes.
Qed.

Lemma pseudo_v4_ok s d proto n :
  bytes_ok s -> bytes_ok d -> in_u8 proto -> length s = 4%nat -> length d = 4%nat ->
  bytes_ok (pseudo_ipv4 s d proto n) /\ zlen (pseudo_ipv4 s d proto n) = 12.
Proof.
  intros Hs Hd Hp Hls Hld. unfold pseudo_ipv4. split.
  - repeat apply bytes_ok_app_2; auto with blackwire.
    apply bytes_ok_cons; [unfold in_u8; lia|auto with blackwire].
  - rewrite !zlen_app, zlen_be_bytes. unfold zlen. by rewrite Hls, Hld.
Qed.

Lemma pseudo_v6_ok s d proto n :
  bytes_ok s -> bytes_ok d -> in_u8 proto -> length s = 16%nat -> length d = 16%nat ->
  bytes_ok (pseudo_ipv6 s d proto n) /\ zlen (pseudo_ipv6 s d proto n) = 40.
Proof.
  intros Hs Hd Hp Hls Hld. assert (H0 : in_u8 0) by (unfold in_u8; lia). unfold pseudo_ipv6. split.
  - repeat apply bytes_ok_app_2; auto with blackwire.
  - rewrite !zlen_app, zlen_be_bytes. unfold zlen. by rewrite Hls, Hld.
Qed.

Lemma v4_header_sum total proto s d :
  bytes_ok s -> bytes_ok d -> in_u8 proto -> length s = 4%nat -> length d = 4%nat ->
  words (ipv4_header_checked total proto s d) mod 65535 = 0.
Proof.
  intros Hs Hd Hp Hls Hld. unfold ipv4_header_checked, internet_checksum, ipv4_header.
  set (pre := [69; 0] ++ be_bytes 2 total ++ [0; 0; 0; 0; 64; proto]).
  assert (Hpre : forall c, [69; 0] ++ be_bytes 2 total ++ [0; 0; 0; 0; 64; proto] ++ be_bytes 2 c ++ s ++ d
    = pre ++ be_bytes 2 c ++ s ++ d) by (intros c; subst pre; by rewrite <- !app_assoc).
  rewrite !Hpre.
  assert (Hb : forall x, In x [69; 0; 64] -> in_u8 x) by (intros x Hx; unfold in_u8; cbn in Hx; lia).
  assert (Hok : bytes_ok pre).
  { subst pre. repeat apply bytes_ok_app_2; auto with blackwire;
      repeat apply bytes_ok_cons; auto with blackwire; apply Hb; cbn; tauto. }
  apply (checksum_field_ok [] pre (s ++ d)); auto with blackwire; try done.
  subst pre. rewrite !zlen_app, !zlen_be_bytes. unfold zlen. rewrite Hls, Hld. cbn. lia.
Qed.

(** C35. Every packet that the UDP and TCP builders produce carries checksums that
    verify at the receiver: the IPv4 header, and pseudo-header plus segment for
    both IP versions, sum to zero in ones-complement arithmetic, although the
    builder accumulates in a wrapping 32-bit word. *)
Theorem tun_checksums_verify (s d : bytes) (sp dp seq ack fl w : Z) (o body out : bytes) :
  bytes_ok s -> bytes_ok d -> bytes_ok o -> bytes_ok body -> in_u8 fl ->
  (length s = 4%nat -> length d = 4%nat ->
    (build_ipv4_udp_packet s d sp dp body = Ok out -> v4_sums s d 17 out) /\
    (build_ipv4_tcp_packet s d sp dp seq ack fl w o body = Ok out -> v4_sums s d 6 out)) /\
  (length s = 16%nat -> length d = 16%nat ->
    (build_ipv6_udp_packet s d sp dp body = Ok out -> v6_sums s d 17 out) /\
    (build_ipv6_tcp_packet s d sp dp seq ack fl w o body = Ok out -> v6_sums s d 6 out)).
Proof.
  intros Hs Hd Ho Hb Hf.
  pose proof (udp_field sp dp body Hb) as Hu. pose proof (tcp_field sp dp seq ack fl w o body Hf Ho Hb) as Ht.
  assert (H17 : in_u8 17) by (unfold in_u8; lia). assert (H6 : in_u8 6) by (unfold in_u8; lia).
  assert (Hul : zlen (udp_segment sp dp 0 body) = 8 + zlen body).
  { unfold udp_segment. rewrite !zlen_app, !zlen_be_bytes. lia. }
  assert (Htl : zlen (tcp_segment sp dp seq ack fl w 0 o body) =
    20 + Z.of_nat (padded_options_len o) + zlen body).
  { unfold zlen. rewrite tcp_segment_length. lia. }
  split; intros Hls Hld; split; intros Hout.
  - unfold build_ipv4_udp_packet in Hout. case_match eqn:Hg; [done|]. bool_hyps. inv_res.
    destruct (pseudo_v4_ok s d 17 (zlen (udp_segment sp dp 0 body))) as [Hp Hpl]; try done.
    eexists _, _. split; [reflexivity|]. split; [by apply v4_header_length|].
    split; [by apply v4_header_sum|].
    apply (segment_sum (fun c => udp_segment sp dp c body) (pseudo_ipv4 s d 17)); try done;
      rewrite ?Hpl; try done; lia.
  - unfold build_ipv4_tcp_packet in Hout. case_match eqn:Hg; [done|]. bool_hyps. inv_res.
    destruct (pseudo_v4_ok s d 6 (zlen (tcp_segment sp dp seq ack fl w 0 o body))) as [Hp Hpl]; try done.
    eexists _, _. split; [reflexivity|]. split; [by apply v4_header_length|].
    split; [by apply v4_header_sum|].
    apply (segment_sum (fun c => tcp_segment sp dp seq ack fl w c o body) (pseudo_ipv4 s d 6)); try done;
      rewrite ?Hpl; try done; lia.
  - unfold build_ipv6_udp_packet in Hout. case_match eqn:Hg; [done|]. bool_hyps. inv_res.
    destruct (pseudo_v6_ok s d 17 (zlen (udp_segment sp dp 0 body))) as [Hp Hpl]; try done.
    eexists _, _. split; [reflexivity|]. split; [by apply v6_header_length|].
    apply (segment_sum (fun c => udp_segment sp dp c body) (pseudo_ipv6 s d 17)); try done;
      rewrite ?Hpl; try done; lia.
  - unfold build_ipv6_tcp_packet in Hout. case_match eqn:Hg; [done|]. bool_hyps. inv_res.
    destruct (pseudo_v6_ok s d 6 (zlen (tcp_segment sp dp seq ack fl w 0 o body))) as [Hp Hpl]; try done.
    eexists _, _. split; [reflexivity|]. split; [by apply v6_header_length|].
    apply (segment_sum (fun c => tcp_segment sp dp seq ack fl w c o body) (pseudo_ipv6 s d 6)); try done;
      rewrite ?Hpl; try done; lia.
Qed.

Lemma tun_checksums_verify_witness :
  exists out, build_ipv4_udp_packet [8; 8; 8; 8] [10; 0; 0; 2] 53 5353 (str "hi") = Ok out /\
    v4_sums [8; 8; 8; 8] [10; 0; 0; 2] 17 out.
Proof.
  eexists. split; [vm_compute; reflexivity|].
  eapply (tun_checksums_verify [8; 8; 8; 8] [10; 0; 0; 2] 53 5353 0 0 0 0 [] (str "hi"));
    try reflexivity; try apply str_ok; try (repeat constructor; vm_compute; congruence).
Defined.
