(* ===== verification/IpText.v ===== *)
(** * Textual numbers and IP addresses

    The parts of the standard library that the [host:port] codecs rely on:
    [Display] and [FromStr] of [u16], [Ipv4Addr] and [Ipv6Addr], and the [str]
    methods [strip_prefix], [split_once] and [rsplit_once] for a single ASCII
    character.  Strings are lists of bytes. *)

From S2P Require Import Prelude Common.

(** ** [str] methods for an ASCII character *)

Definition strip_prefix (c : Z) (s : bytes) : option bytes :=
  match s with x :: s' => if x =? c then Some s' else None | [] => None end.

Fixpoint split_once (c : Z) (s : bytes) : option (bytes * bytes) :=
  match s with
  | [] => None
  | x :: s' =>
      if x =? c then Some ([], s')
      else match split_once c s' with Some (a, b) => Some (x :: a, b) | None => None end
  end.

Fixpoint rsplit_once (c : Z) (s : bytes) : option (bytes * bytes) :=
  match s with
  | [] => None
  | x :: s' =>
      match rsplit_once c s' with
      | Some (a, b) => Some (x :: a, b)
      | None => if x =? c then Some ([], s') else None
      end
  end.

(** ** Numbers *)

(** [char::to_digit] *)
Definition to_digit (radix c : Z) : option Z :=
  let d := if (48 <=? c) && (c <=? 57) then c - 48
           else if (97 <=? c) && (c <=? 122) then c - 87
           else if (65 <=? c) && (c <=? 90) then c - 55
           else radix in
  if d <? radix then Some d else None.

Definition digit_char (d : Z) : Z := if d <? 10 then 48 + d else 87 + d.

(** Digits of [n], most significant first, without leading zeros. *)
Fixpoint to_digits (radix : Z) (fuel : nat) (n : Z) : list Z :=
  match fuel with
  | O => []
  | S f => if n <? radix then [n] else to_digits radix f (n / radix) ++ [n mod radix]
  end.

(** [Display] ([{}]) and [LowerHex] ([{:x}]) of a [u16]: at most five digits. *)
Definition show_radix (radix n : Z) : bytes := digit_char <$> to_digits radix 5 n.
Definition show_dec : Z -> bytes := show_radix 10.
Definition show_hex : Z -> bytes := show_radix 16.

(** [u16::from_str] *)
Fixpoint dec_value (acc : Z) (s : bytes) : option Z :=
  match s with
  | [] => Some acc
  | c :: s' =>
      match to_digit 10 c with
      | Some d => if 65535 <? acc * 10 + d then None else dec_value (acc * 10 + d) s'
      | None => None
      end
  end.

Definition parse_u16 (s : bytes) : option Z :=
  match s with
  | [] => None
  | c :: s' =>
      if c =? 43 then match s' with [] => None | _ => dec_value 0 s' end
      else dec_value 0 s
  end.

(** ** The address parser: a consumed prefix, or no effect *)

Definition text_parser (A : Type) : Type := bytes -> option (A * bytes).

Fixpoint read_digits (radix : Z) (max count : nat) (acc : Z) (s : bytes) : option (Z * nat * bytes) :=
  match s with
  | c :: s' =>
      match to_digit radix c with
      | Some d =>
          if (max <? S count)%nat then None
          else read_digits radix max (S count) (acc * radix + d) s'
      | None => Some (acc, count, s)
      end
  | [] => Some (acc, count, [])
  end.

Definition read_number (radix : Z) (max : nat) (allow_zero_prefix : bool) (limit : Z)
    : text_parser Z := fun s =>
  let has_leading_zero := match s with c :: _ => c =? 48 | [] => false end in
  match read_digits radix max 0 0 s with
  | Some (v, count, s') =>
      if (count =? 0)%nat then None
      else if negb allow_zero_prefix && has_leading_zero && (1 <? count)%nat then None
      else if v <? limit then Some (v, s') else None
  | None => None
  end.

Definition read_given_char (c : Z) : text_parser unit := fun s =>
  match strip_prefix c s with Some s' => Some (tt, s') | None => None end.

Definition read_separator {A} (sep : Z) (i : nat) (p : text_parser A) : text_parser A := fun s =>
  if (i =? 0)%nat then p s
  else match strip_prefix sep s with Some s' => p s' | None => None end.

Fixpoint read_octets (n i : nat) : text_parser bytes := fun s =>
  match n with
  | O => Some ([], s)
  | S n' =>
      match read_separator 46 i (read_number 10 3 false 256) s with
      | Some (o, s') =>
          match read_octets n' (S i) s' with
          | Some (l, s'') => Some (o :: l, s'')
          | None => None
          end
      | None => None
      end
  end.

Definition read_ipv4_addr : text_parser bytes := read_octets 4 0.

(** Groups read, whether they end in an IPv4 address, and the rest. *)
Fixpoint read_groups (n i : nat) (s : bytes) : list Z * bool * bytes :=
  match n with
  | O => ([], false, s)
  | S n' =>
      let group :=
        match read_separator 58 i (read_number 16 4 true 65536) s with
        | Some (g, s') => let '(l, v4, s'') := read_groups n' (S i) s' in (g :: l, v4, s'')
        | None => ([], false, s)
        end in
      match n' with
      | O => group
      | S _ =>
          match read_separator 58 i read_ipv4_addr s with
          | Some ([a; b; c; d], s') => ([be_val [a; b]; be_val [c; d]], true, s')
          | _ => group
          end
      end
  end.

Definition segment_octets (l : list Z) : bytes := concat (be_bytes 2 <$> l).

Definition read_ipv6_addr : text_parser bytes := fun s =>
  let '(head, head_ipv4, s1) := read_groups 8 0 s in
  if (length head =? 8)%nat then Some (segment_octets head, s1)
  else if head_ipv4 : bool then None
  else
    match read_given_char 58 s1 with
    | Some (_, s2) =>
        match read_given_char 58 s2 with
        | Some (_, s3) =>
            let limit := (8 - (length head + 1))%nat in
            let '(tail, _, s4) := read_groups limit 0 s3 in
            Some (segment_octets (head ++ replicate (8 - length tail - length head) 0 ++ tail), s4)
        | None => None
        end
    | None => None
    end.

(** [Parser::parse_with]: the whole text. *)
Definition parse_with {A} (p : text_parser A) (s : bytes) : option A :=
  match p s with Some (a, []) => Some a | _ => None end.

Definition parse_ipv4_addr (s : bytes) : option bytes :=
  if (15 <? length s)%nat then None else parse_with read_ipv4_addr s.

Definition parse_ipv6_addr (s : bytes) : option bytes := parse_with read_ipv6_addr s.

(** ** Display *)

Fixpoint join (sep : Z) (l : list bytes) : bytes :=
  match l with
  | [] => []
  | [x] => x
  | x :: l' => x ++ [sep] ++ join sep l'
  end.

Definition show_ipv4 (o : bytes) : bytes := join 46 (show_dec <$> o).

Fixpoint segments (o : bytes) : list Z :=
  match o with a :: b :: o' => be_val [a; b] :: segments o' | _ => [] end.

(** The longest run of zero segments, the first of equal ones: (start, length). *)
Fixpoint zero_span (i : nat) (current longest : nat * nat) (l : list Z) : nat * nat :=
  match l with
  | [] => longest
  | s :: l' =>
      if s =? 0 then
        let current := if (current.2 =? 0)%nat then (i, 1%nat) else (current.1, S current.2) in
        zero_span (S i) current (if (longest.2 <? current.2)%nat then current else longest) l'
      else zero_span (S i) (0%nat, 0%nat) longest l'
  end.

Definition to_ipv4_mapped (o : bytes) : option bytes :=
  if decide (take 12 o = replicate 10 0 ++ [255; 255]) then Some (drop 12 o) else None.

Definition show_ipv6 (o : bytes) : bytes :=
  match to_ipv4_mapped o with
  | Some v4 => str "::ffff:" ++ show_ipv4 v4
  | None =>
      let segs := segments o in
      let '(start, len) := zero_span 0 (0%nat, 0%nat) (0%nat, 0%nat) segs in
      if (1 <? len)%nat then
        join 58 (show_hex <$> take start segs) ++ str "::" ++
        join 58 (show_hex <$> drop (start + len) segs)
      else join 58 (show_hex <$> segs)
  end.

Example show_v6_1 : show_ipv6 ([32; 1; 13; 184] ++ replicate 11 0 ++ [1]) = str "2001:db8::1".
Proof. vm_compute. reflexivity. Qed.
Example show_v6_2 : show_ipv6 (replicate 10 0 ++ [255; 255; 8; 8; 4; 4]) = str "::ffff:8.8.4.4".
Proof. vm_compute. reflexivity. Qed.
Example parse_v6_1 : parse_ipv6_addr (str "1:0:0:2::3") = Some [0;1;0;0;0;0;0;2;0;0;0;0;0;0;0;3].
Proof. vm_compute. reflexivity. Qed.
Example parse_v6_2 : parse_ipv6_addr (str "64:ff9b::1.2.3.4") = Some [0;100;255;155;0;0;0;0;0;0;0;0;1;2;3;4].
Proof. vm_compute. reflexivity. Qed.
Example parse_v6_3 : parse_ipv6_addr (str "1:2:3:4:5:6:7:8:9") = None.
Proof. vm_compute. reflexivity. Qed.
Example parse_v4_1 : parse_ipv4_addr (str "010.1.1.1") = None.
Proof. vm_compute. reflexivity. Qed.

(** ** Numbers: print, then parse *)

Definition from_digits (radix acc : Z) (ds : list Z) : Z := foldl (fun a d => a * radix + d) acc ds.

(** The text after a number does not continue it. *)
Definition stops (radix : Z) (s : bytes) : Prop :=
  match s with c :: _ => to_digit radix c = None | [] => True end.

Lemma to_digit_char radix d : radix <= 16 -> 0 <= d < radix -> to_digit radix (digit_char d) = Some d.
Proof.
  intros Hr Hd. unfold to_digit, digit_char. destruct (d <? 10) eqn:E1; bool_hyps.
  - rewrite (proj2 (andb_true_iff _ _)) by (split; apply Z.leb_le; lia).
    rewrite (proj2 (Z.ltb_lt _ _)) by lia. f_equal. lia.
  - destruct ((48 <=? 87 + d) && (87 + d <=? 57)) eqn:E2; bool_hyps; [lia|].
    rewrite (proj2 (andb_true_iff (97 <=? _) _)) by (split; apply Z.leb_le; lia).
    rewrite (proj2 (Z.ltb_lt _ _)) by lia. f_equal. lia.
Qed.

Lemma to_digits_spec radix fuel n :
  2 <= radix -> 0 <= n < radix ^ Z.of_nat fuel ->
  let ds := to_digits radix fuel n in
  Forall (fun d => 0 <= d < radix) ds /\ from_digits radix 0 ds = n /\
  (forall d tl, ds = d :: tl -> d = 0 -> tl = []).
Proof.
  intros Hr. revert n. induction fuel as [|f IH]; intros n Hn; cbn.
  { split; [constructor|]. rewrite Z.pow_0_r in Hn. split; [cbn; lia|done]. }
  destruct (n <? radix) eqn:E; bool_hyps.
  { split; [repeat constructor; lia|]. split; [cbn; lia|]. by intros d tl [= -> <-]. }
  assert (Hq : 0 <= n / radix < radix ^ Z.of_nat f).
  { split; [apply Z.div_pos; lia|]. apply Z.div_lt_upper_bound; [lia|].
    replace (Z.of_nat (S f)) with (1 + Z.of_nat f) in Hn by lia.
    rewrite Z.pow_add_r, Z.pow_1_r in Hn by lia. lia. }
  destruct (IH _ Hq) as (Hall & Hv & Hz). cbv zeta in *.
  pose proof (Z.mod_pos_bound n radix ltac:(lia)) as Hm.
  split; [apply Forall_app; split; [exact Hall|by constructor]|]. split.
  - unfold from_digits in *. rewrite foldl_app, Hv. cbn. pose proof (Z.div_mod n radix). lia.
  - intros d tl Hd ->. exfalso. destruct (to_digits radix f (n / radix)) as [|d' tl'] eqn:Ed.
    + cbn in Hv. assert (1 <= n / radix) by (apply Z.div_le_lower_bound; lia). lia.
    + injection Hd as -> Htl. rewrite (Hz 0 tl' eq_refl eq_refl) in Hv. cbn in Hv.
      assert (1 <= n / radix) by (apply Z.div_le_lower_bound; lia). lia.
Qed.

Lemma to_digits_length radix fuel n k :
  2 <= radix -> 0 <= n < radix ^ Z.of_nat (S k) -> (length (to_digits radix fuel n) <= S k)%nat.
Proof.
  intros Hr. revert n k. induction fuel as [|f IH]; intros n k Hn; cbn; [lia|].
  destruct (n <? radix) eqn:E; bool_hyps; [cbn; lia|].
  rewrite length_app. cbn. destruct k as [|k].
  { rewrite Z.pow_1_r in Hn. lia. }
  assert (length (to_digits radix f (n / radix)) <= S k)%nat; [|lia]. apply IH.
  split; [apply Z.div_pos; lia|]. apply Z.div_lt_upper_bound; [lia|].
  replace (Z.of_nat (S (S k))) with (1 + Z.of_nat (S k)) in Hn by lia.
  rewrite Z.pow_add_r, Z.pow_1_r in Hn by lia. lia.
Qed.

Lemma to_digits_nonempty radix fuel n : fuel <> 0%nat -> to_digits radix fuel n <> [].
Proof.
  destruct fuel as [|f]; [done|]. cbn. intros _. case_match; [done|].
  destruct (to_digits radix f (n / radix)); done.
Qed.

Lemma read_digits_app radix max ds count acc rest :
  radix <= 16 -> Forall (fun d => 0 <= d < radix) ds -> stops radix rest ->
  (count + length ds <= max)%nat ->
  read_digits radix max count acc ((digit_char <$> ds) ++ rest) =
    Some (from_digits radix acc ds, (count + length ds)%nat, rest).
Proof.
  intros Hr Hds Hst. revert count acc. induction Hds as [|d ds Hd Hds IH]; intros count acc Hm.
  - cbn. rewrite Nat.add_0_r. destruct rest as [|c rest]; [done|]. cbn in *. by rewrite Hst.
  - cbn in *. rewrite to_digit_char by done.
    rewrite (proj2 (Nat.ltb_ge _ _)) by lia. rewrite IH by lia. f_equal. f_equal. f_equal. lia.
Qed.

(** The shape of a printed number. *)
Lemma show_radix_shape radix n :
  2 <= radix <= 16 -> 0 <= n < radix ^ 5 ->
  exists d tl, to_digits radix 5 n = d :: tl /\ show_radix radix n = digit_char d :: (digit_char <$> tl) /\
    Forall (fun d => 0 <= d < radix) (d :: tl) /\ from_digits radix 0 (d :: tl) = n /\ (d = 0 -> tl = []).
Proof.
  intros Hr Hn. destruct (to_digits_spec radix 5 n) as (Hall & Hv & Hz); [lia|exact Hn|]. cbv zeta in *.
  pose proof (to_digits_nonempty radix 5 n ltac:(done)) as Hne. unfold show_radix.
  destruct (to_digits radix 5 n) as [|d tl]; [done|]. exists d, tl. repeat split; auto.
  intros ->. by apply (Hz 0 tl).
Qed.

Lemma digit_char_zero d : 0 <= d < 16 -> (digit_char d =? 48) = (d =? 0).
Proof. intros H. unfold digit_char. case_match; bool_hyps; apply eq_true_iff_eq; rewrite !Z.eqb_eq; lia. Qed.

Lemma read_number_show radix k az limit n rest :
  2 <= radix <= 16 -> 0 <= n < limit -> n < radix ^ Z.of_nat (S k) -> n < radix ^ 5 -> stops radix rest ->
  read_number radix (S k) az limit (show_radix radix n ++ rest) = Some (n, rest).
Proof.
  intros Hr Hn Hk H5 Hst. destruct (show_radix_shape radix n) as (d & tl & Ht & Hs & Hall & Hv & Hz); [lia..|].
  pose proof (to_digits_length radix 5 n k ltac:(lia) ltac:(lia)) as Hlen. rewrite Ht in Hlen.
  assert (Hrd : read_digits radix (S k) 0 0 (show_radix radix n ++ rest) = Some (n, S (length tl), rest)).
  { unfold show_radix. rewrite Ht, read_digits_app by (try done; lia). by rewrite Hv. }
  unfold read_number. rewrite Hrd, Hs. cbn -[Nat.ltb].
  rewrite digit_char_zero by (inv Hall; lia).
  replace (negb az && (d =? 0) && (1 <? S (length tl))%nat) with false.
  2:{ symmetry. destruct az; [done|]. destruct (d =? 0) eqn:E; [|done]. bool_hyps. by rewrite (Hz E). }
  by rewrite (proj2 (Z.ltb_lt _ _)) by lia.
Qed.

Lemma from_digits_acc radix acc ds :
  from_digits radix acc ds = acc * radix ^ zlen ds + from_digits radix 0 ds.
Proof.
  revert acc. induction ds as [|d ds IH]; intros acc; unfold from_digits in *; cbn -[Z.mul Z.add].
  - unfold zlen. cbn. lia.
  - rewrite (IH (acc * radix + d)), (IH (0 * radix + d)). unfold zlen. cbn [length].
    rewrite Nat2Z.inj_succ, Z.pow_succ_r by lia. ring.
Qed.

Lemma from_digits_ge radix acc ds :
  2 <= radix -> 0 <= acc -> Forall (fun d => 0 <= d < radix) ds -> acc <= from_digits radix acc ds.
Proof.
  intros Hr Ha Hds. revert acc Ha. induction Hds as [|d ds Hd Hds IH]; intros acc Ha; unfold from_digits in *; cbn; [lia|].
  specialize (IH (acc * radix + d) ltac:(nia)). nia.
Qed.

Lemma dec_value_digits acc ds :
  0 <= acc -> Forall (fun d => 0 <= d < 10) ds -> from_digits 10 acc ds <= 65535 ->
  dec_value acc (digit_char <$> ds) = Some (from_digits 10 acc ds).
Proof.
  intros Ha Hds. revert acc Ha. induction Hds as [|d ds Hd Hds IH]; intros acc Ha Hv; [done|].
  cbn. rewrite to_digit_char by lia.
  pose proof (from_digits_ge 10 (acc * 10 + d) ds ltac:(lia) ltac:(lia) Hds) as Hge.
  change (from_digits 10 acc (d :: ds)) with (from_digits 10 (acc * 10 + d) ds) in *.
  rewrite (proj2 (Z.ltb_ge _ _)) by lia. apply IH; lia.
Qed.

Lemma parse_u16_show n : in_u16 n -> parse_u16 (show_dec n) = Some n.
Proof.
  intros Hn. unfold in_u16 in Hn.
  destruct (show_radix_shape 10 n) as (d & tl & Ht & Hs & Hall & Hv & _); [lia..|].
  unfold show_dec. rewrite Hs. unfold parse_u16.
  assert (Hd : 0 <= d < 10) by (by inv Hall).
  destruct (digit_char d =? 43) eqn:E.
  { unfold digit_char in E. case_match; bool_hyps; lia. }
  change (digit_char d :: (digit_char <$> tl)) with (digit_char <$> d :: tl).
  rewrite dec_value_digits by (try done; lia). by rewrite Hv.
Qed.

(** ** Separated lists *)

Definition sep_at (sep : Z) (i : nat) : bytes := if (i =? 0)%nat then [] else [sep].

Fixpoint sep_text (sep : Z) (i : nat) (l : list bytes) : bytes :=
  match l with [] => [] | x :: l' => sep_at sep i ++ x ++ sep_text sep (S i) l' end.

Lemma join_sep_text sep l : join sep l = sep_text sep 0 l.
Proof.
  assert (H : forall l i, l <> [] -> [sep] ++ join sep l = sep_text sep (S i) l).
  { clear l. induction l as [|x [|y l] IH]; intros i Hl; [done| |].
    - cbn. by rewrite app_nil_r.
    - change (join sep (x :: y :: l)) with (x ++ [sep] ++ join sep (y :: l)).
      by rewrite (IH (S i)). }
  destruct l as [|x [|y l]]; [done|cbn; by rewrite app_nil_r|].
  change (join sep (x :: y :: l)) with (x ++ [sep] ++ join sep (y :: l)). by rewrite (H _ 0%nat).
Qed.

Lemma read_separator_at {A} sep i (p : text_parser A) s :
  read_separator sep i p (sep_at sep i ++ s) = p s.
Proof. unfold read_separator, sep_at. destruct (i =? 0)%nat; [done|]. cbn. by rewrite Z.eqb_refl. Qed.

Lemma stops_sep radix sep i l rest :
  to_digit radix sep = None -> stops radix rest -> stops radix (sep_text sep (S i) l ++ rest).
Proof. intros Hs Hr. destruct l as [|x l]; [done|]. exact Hs. Qed.

(** ** IPv4 *)

Lemma read_octets_show o i rest :
  bytes_ok o -> stops 10 rest ->
  read_octets (length o) i (sep_text 46 i (show_dec <$> o) ++ rest) = Some (o, rest).
Proof.
  intros Ho Hst. revert i. induction Ho as [|b o Hb Ho IH]; intros i; [done|].
  unfold in_u8 in Hb. cbn [length read_octets fmap list_fmap sep_text]. rewrite <- !app_assoc, read_separator_at.
  unfold show_dec at 1. rewrite read_number_show; [|lia..|by apply stops_sep]. by rewrite IH.
Qed.

Lemma read_ipv4_show o rest :
  bytes_ok o -> length o = 4%nat -> stops 10 rest ->
  read_ipv4_addr (show_ipv4 o ++ rest) = Some (o, rest).
Proof.
  intros Ho Hl Hst. unfold read_ipv4_addr, show_ipv4. rewrite join_sep_text, <- Hl.
  by apply read_octets_show.
Qed.

Lemma show_dec_length n : 0 <= n < 256 -> (length (show_dec n) <= 3)%nat.
Proof.
  intros Hn. unfold show_dec, show_radix. rewrite length_fmap. apply to_digits_length; [lia|]. cbn. lia.
Qed.

Lemma show_ipv4_length o : bytes_ok o -> length o = 4%nat -> (length (show_ipv4 o) <= 15)%nat.
Proof.
  intros Ho Hl. destruct o as [|a [|b [|c [|d [|]]]]]; try done.
  unfold bytes_ok in Ho. rewrite !Forall_cons in Ho. destruct Ho as (? & ? & ? & ? & _).
  unfold show_ipv4. cbn [fmap list_fmap join]. rewrite !length_app. cbn [length].
  pose proof (show_dec_length a). pose proof (show_dec_length b).
  pose proof (show_dec_length c). pose proof (show_dec_length d). unfold in_u8 in *. lia.
Qed.

Lemma parse_ipv4_show o : bytes_ok o -> length o = 4%nat -> parse_ipv4_addr (show_ipv4 o) = Some o.
Proof.
  intros Ho Hl. unfold parse_ipv4_addr, parse_with.
  rewrite (proj2 (Nat.ltb_ge _ _)) by (by apply show_ipv4_length).
  rewrite <- (app_nil_r (show_ipv4 o)), read_ipv4_show; done.
Qed.

(** What an IPv4 address looks like to the group reader: decimal digits up to
    the first dot. *)
Fixpoint skip_dec (s : bytes) : bytes :=
  match s with c :: s' => match to_digit 10 c with Some _ => skip_dec s' | None => s end | [] => [] end.

Lemma read_digits_rest max count acc s v n r :
  read_digits 10 max count acc s = Some (v, n, r) -> r = skip_dec s.
Proof.
  revert count acc. induction s as [|c s IH]; intros count acc; cbn; [by intros [= _ _ <-]|].
  destruct (to_digit 10 c); [|by intros [= _ _ <-]]. case_match; [done|]. apply IH.
Qed.

Lemma read_number_rest max az limit s v r : read_number 10 max az limit s = Some (v, r) -> r = skip_dec s.
Proof.
  unfold read_number. destruct (read_digits 10 max 0 0 s) as [[[w n] r1]|] eqn:E; [|done].
  apply read_digits_rest in E. subst r1. repeat case_match; by intros [= _ <-].
Qed.

Lemma read_ipv4_dot s o r : read_ipv4_addr s = Some (o, r) -> exists s', skip_dec s = 46 :: s'.
Proof.
  unfold read_ipv4_addr. cbn [read_octets]. unfold read_separator at 1. cbn [Nat.eqb].
  destruct (read_number 10 3 false 256 s) as [[v r1]|] eqn:E; [|done].
  apply read_number_rest in E. subst r1. unfold read_separator at 1. cbn [Nat.eqb].
  destruct (skip_dec s) as [|c s']; [done|]. cbn [strip_prefix]. destruct (c =? 46) eqn:Ec; [|done].
  bool_hyps. subst c. eauto.
Qed.

(** ** IPv6 *)

(** After a group: the end, or a colon. *)
Definition colon_or_end (s : bytes) : Prop := match s with c :: _ => c = 58 | [] => True end.

Lemma digit_char_range d : 0 <= d < 16 -> 48 <= digit_char d <= 102 /\ digit_char d <> 58.
Proof. intros H. unfold digit_char. case_match; bool_hyps; lia. Qed.

Lemma skip_dec_hex ds s :
  Forall (fun d => 0 <= d < 16) ds -> colon_or_end s -> forall s', skip_dec ((digit_char <$> ds) ++ s) <> 46 :: s'.
Proof.
  intros Hds Hs. induction Hds as [|d ds Hd Hds IH]; intros s'.
  - destruct s as [|c s]; cbn; [done|]. cbn in Hs. subst c. done.
  - cbn. case_match; [apply IH|]. pose proof (digit_char_range d Hd). intros [=]. lia.
Qed.

Lemma hex_digits n : in_u16 n -> exists ds, show_hex n = digit_char <$> ds /\ Forall (fun d => 0 <= d < 16) ds.
Proof.
  intros Hn. unfold in_u16 in Hn. exists (to_digits 16 5 n). split; [done|].
  apply (to_digits_spec 16 5 n); [lia|]. cbn. lia.
Qed.

Lemma read_ipv4_hex n s : in_u16 n -> colon_or_end s -> read_ipv4_addr (show_hex n ++ s) = None.
Proof.
  intros Hn Hs. destruct (hex_digits n Hn) as (ds & -> & Hds).
  destruct (read_ipv4_addr _) as [[o r]|] eqn:E; [|done]. destruct (read_ipv4_dot _ _ _ E) as [s' Hs'].
  by destruct (skip_dec_hex ds s Hds Hs s').
Qed.

(** Nothing more to read: neither a group nor an IPv4 address. *)
Definition ends_groups (i : nat) (s : bytes) : Prop :=
  read_separator 58 i (read_number 16 4 true 65536) s = None /\ read_separator 58 i read_ipv4_addr s = None.

Lemma read_groups_end n i s : ends_groups i s -> read_groups n i s = ([], false, s).
Proof. intros [H1 H2]. destruct n as [|[|n]]; cbn [read_groups]; [done| |]; rewrite ?H2, H1; done. Qed.

Lemma colon_or_end_sep i l rest : colon_or_end rest -> colon_or_end (sep_text 58 (S i) l ++ rest).
Proof. intros H. by destruct l. Qed.

Lemma colon_stops s : colon_or_end s -> stops 16 s.
Proof. destruct s as [|c s]; [done|]. cbn. by intros ->. Qed.

Lemma read_groups_number n i s g s' :
  read_separator 58 i read_ipv4_addr s = None ->
  read_separator 58 i (read_number 16 4 true 65536) s = Some (g, s') ->
  read_groups (S n) i s = let '(l, v4, s'') := read_groups n (S i) s' in (g :: l, v4, s'').
Proof. intros H1 H2. cbn [read_groups]. rewrite H1, H2. by destruct n. Qed.

Lemma read_groups_ipv4 n i s a b c d s' :
  read_separator 58 i read_ipv4_addr s = Some ([a; b; c; d], s') ->
  read_groups (S (S n)) i s = ([be_val [a; b]; be_val [c; d]], true, s').
Proof. intros H1. cbn [read_groups]. by rewrite H1. Qed.

Lemma read_groups_show segs n i rest :
  Forall in_u16 segs -> (length segs <= n)%nat -> colon_or_end rest ->
  (length segs < n -> ends_groups (i + length segs) rest)%nat ->
  read_groups n i (sep_text 58 i (show_hex <$> segs) ++ rest) = (segs, false, rest).
Proof.
  intros Hsegs Hn Hrest. revert n i Hn. induction Hsegs as [|g segs Hg Hsegs IH]; intros n i Hn Hend.
  - cbn in *. rewrite Nat.add_0_r in Hend. destruct n; [done|]. apply read_groups_end, Hend. lia.
  - cbn [length] in *. destruct n as [|n]; [lia|]. cbn [fmap list_fmap sep_text].
    rewrite <- !app_assoc.
    set (s := sep_at 58 i ++ show_hex g ++ sep_text 58 (S i) (show_hex <$> segs) ++ rest).
    assert (H4 : read_separator 58 i read_ipv4_addr s = None).
    { subst s. rewrite read_separator_at. by apply read_ipv4_hex, colon_or_end_sep. }
    assert (H6 : read_separator 58 i (read_number 16 4 true 65536) s =
      Some (g, sep_text 58 (S i) (show_hex <$> segs) ++ rest)).
    { subst s. rewrite read_separator_at. unfold in_u16 in Hg. apply read_number_show; [lia..|].
      by apply colon_stops, colon_or_end_sep. }
    rewrite (read_groups_number n i s g _ H4 H6), IH; [done|lia|].
    intros Hlt. replace (S i + length segs)%nat with (i + S (length segs))%nat by lia. apply Hend. lia.
Qed.

(** Segments and octets. *)
Lemma segments_spec k o :
  bytes_ok o -> length o = (2 * k)%nat ->
  segment_octets (segments o) = o /\ length (segments o) = k /\ Forall in_u16 (segments o).
Proof.
  revert o. induction k as [|k IH]; intros o Ho Hl.
  { destruct o; [|done]. split; [done|]. split; [done|constructor]. }
  destruct o as [|a [|b o]]; cbn in Hl; try lia.
  unfold bytes_ok in Ho. rewrite !Forall_cons in Ho. destruct Ho as (Ha & Hb & Ho).
  destruct (IH o) as (H1 & H2 & H3); [done|lia|]. cbn [segments]. split; [|split].
  - unfold segment_octets in *. cbn [fmap list_fmap concat]. rewrite H1.
    change 2%nat with (length [a; b]). rewrite be_bytes_be_val; [done|]. auto with blackwire.
  - cbn. by rewrite H2.
  - constructor; [|done]. by apply be_val_u16.
Qed.

(** The span is a run of zeros. *)
Definition zero_run (L : list Z) (st ln : nat) : Prop :=
  forall j, (st <= j < st + ln)%nat -> L !! j = Some 0.

Lemma zero_span_run L i cur lng l :
  drop i L = l -> zero_run L cur.1 cur.2 -> (cur.2 = 0 \/ cur.1 + cur.2 = i)%nat -> zero_run L lng.1 lng.2 ->
  let sp := zero_span i cur lng l in zero_run L sp.1 sp.2.
Proof.
  revert i cur lng. induction l as [|x l IH]; intros i [cs cn] [ls ln] HL Hc Hi Hl; cbn in *; [done|].
  assert (Hx : L !! i = Some x) by (rewrite <- (Nat.add_0_r i), <- lookup_drop, HL; done).
  assert (HL' : drop (S i) L = l) by (rewrite <- Nat.add_1_r, <- drop_drop, HL; done).
  destruct (x =? 0) eqn:Ex; bool_hyps.
  - subst x. set (cur' := if (cn =? 0)%nat then (i, 1%nat) else (cs, S cn)).
    assert (Hc' : zero_run L cur'.1 cur'.2 /\ (cur'.1 + cur'.2 = S i)%nat).
    { subst cur'. unfold zero_run in *. destruct (cn =? 0)%nat eqn:Ec; bool_hyps; cbn.
      - split; [|lia]. intros j Hj. by replace j with i by lia.
      - split; [|lia]. intros j Hj. destruct (decide (j = i)) as [->|Hn]; [done|]. apply Hc. lia. }
    destruct Hc' as [Hc1 Hc2]. apply IH; [done|done|by right|]. by destruct (ln <? cur'.2)%nat.
  - apply IH; [done| |by left|done]. intros j Hj. cbn in Hj. lia.
Qed.

Lemma zero_run_split L st ln :
  ln <> 0%nat -> zero_run L st ln ->
  (st + ln <= length L)%nat /\ L = take st L ++ replicate ln 0 ++ drop (st + ln) L.
Proof.
  intros Hn Hr.
  assert (Hlen : (st + ln <= length L)%nat).
  { pose proof (Hr (st + ln - 1)%nat ltac:(lia)) as H. apply lookup_lt_Some in H. lia. }
  split; [done|]. assert (Hm : take ln (drop st L) = replicate ln 0).
  { symmetry. apply replicate_as_Forall. split; [rewrite length_take, length_drop; lia|].
    apply Forall_lookup. intros j x Hj. apply lookup_take_Some in Hj as [Hj Hlt].
    rewrite lookup_drop, Hr in Hj by lia. congruence. }
  rewrite <- Hm, <- drop_drop, take_drop, take_drop. done.
Qed.

Lemma zeros_middle (head tail : list Z) ln :
  (length head + ln + length tail = 8)%nat -> (8 - length tail - length head)%nat = ln.
Proof. lia. Qed.

(** [head :: tail] with the double colon. *)
Lemma read_ipv6_compressed (head : list Z) (tl : bytes) (tail : list Z) v4 ln :
  Forall in_u16 head -> (length head + ln + length tail = 8)%nat -> ln <> 0%nat ->
  read_groups (8 - (length head + 1)) 0 tl = (tail, v4, []) ->
  parse_ipv6_addr (join 58 (show_hex <$> head) ++ str "::" ++ tl) =
    Some (segment_octets (head ++ replicate ln 0 ++ tail)).
Proof.
  intros Hh Hlen Hln Ht. unfold parse_ipv6_addr, parse_with, read_ipv6_addr.
  rewrite join_sep_text, read_groups_show; [|done|lia|done|].
  2:{ intros _. split; destruct head; reflexivity. }
  rewrite (proj2 (Nat.eqb_neq _ _)) by lia. cbn [str].
  change (str "::" ++ tl) with (58 :: 58 :: tl). cbn [read_given_char strip_prefix Z.eqb Pos.eqb].
  rewrite Ht. by rewrite (zeros_middle head tail ln).
Qed.

Lemma mapped_groups a b c d :
  bytes_ok [a; b; c; d] ->
  read_groups 7 0 (show_hex 65535 ++ [58] ++ show_ipv4 [a; b; c; d]) =
    ([65535] ++ [be_val [a; b]; be_val [c; d]], true, []).
Proof.
  intros Hok. rewrite (read_groups_number 6 0 _ 65535 ([58] ++ show_ipv4 [a; b; c; d])).
  - rewrite (read_groups_ipv4 4 1 _ a b c d []); [done|].
    change ([58] ++ show_ipv4 [a; b; c; d]) with (sep_at 58 1 ++ show_ipv4 [a; b; c; d]).
    by rewrite read_separator_at, <- (app_nil_r (show_ipv4 _)), read_ipv4_show.
  - by apply (read_ipv4_hex 65535).
  - by apply (read_number_show 16 3 true 65536 65535).
Qed.

Lemma parse_ipv6_show o : bytes_ok o -> length o = 16%nat -> parse_ipv6_addr (show_ipv6 o) = Some o.
Proof.
  intros Ho Hl. unfold show_ipv6, to_ipv4_mapped. case_decide as Hm.
  - assert (Hd : bytes_ok (drop 12 o) /\ length (drop 12 o) = 4%nat).
    { split; [auto with blackwire|]. rewrite length_drop. lia. }
    destruct Hd as [Hd1 Hd2]. pose proof (take_drop 12 o) as Hsplit. rewrite Hm in Hsplit.
    remember (drop 12 o) as v eqn:Ev. clear Ev Hm.
    destruct v as [|a [|b [|c [|d [|]]]]]; try done.
    destruct (segments_spec 2 [a; b; c; d]) as (Hs & _); [done|done|]. cbn [segments] in Hs.
    change (str "::ffff:" ++ show_ipv4 [a; b; c; d])
      with (join 58 (show_hex <$> []) ++ str "::" ++ show_hex 65535 ++ [58] ++ show_ipv4 [a; b; c; d]).
    rewrite (read_ipv6_compressed [] _ ([65535] ++ [be_val [a; b]; be_val [c; d]]) true 5); [|constructor|done|done|].
    + rewrite <- Hsplit, <- Hs. reflexivity.
    + apply mapped_groups; done.
  - destruct (segments_spec 8 o) as (Hs & Hlen & Hall); [done|done|].
    destruct (zero_span _ _ _ _) as [st ln] eqn:Esp.
    pose proof (zero_span_run (segments o) 0 (0, 0)%nat (0, 0)%nat (segments o) eq_refl) as Hrun.
    rewrite Esp in Hrun. cbn in Hrun.
    assert (Hz : zero_run (segments o) st ln) by (apply Hrun; [intros j; lia|by left|intros j; lia]).
    case_match eqn:E1; bool_hyps.
    + destruct (zero_run_split (segments o) st ln ltac:(lia) Hz) as [Hb Heq].
      rewrite (read_ipv6_compressed _ _ (drop (st + ln) (segments o)) false ln).
      * rewrite <- Heq. by rewrite Hs.
      * by apply Forall_take.
      * rewrite length_take, length_drop. lia.
      * lia.
      * rewrite join_sep_text, <- (app_nil_r (sep_text _ _ _)). apply read_groups_show; [by apply Forall_drop| |done|].
        -- rewrite length_take, length_drop. lia.
        -- intros _. by split; destruct (drop (st + ln) (segments o)).
    + unfold parse_ipv6_addr, parse_with, read_ipv6_addr.
      rewrite join_sep_text, <- (app_nil_r (sep_text _ _ _)), read_groups_show; [|done|lia|done|lia].
      rewrite Hlen. cbn. by rewrite Hs.
Qed.

(** ** Characters of the printed texts *)

Definition text_char (c : Z) : Prop := 46 <= c <= 58 \/ 97 <= c <= 102.

Lemma digit_char_text d : 0 <= d < 16 -> text_char (digit_char d) /\ digit_char d <> 58.
Proof. intros H. unfold digit_char, text_char. case_match; bool_hyps; lia. Qed.

Lemma show_radix_text radix n :
  2 <= radix <= 16 -> 0 <= n < radix ^ 5 -> Forall (fun c => text_char c /\ c <> 58) (show_radix radix n).
Proof.
  intros Hr Hn. destruct (to_digits_spec radix 5 n) as (Hall & _); [lia|exact Hn|].
  unfold show_radix. apply Forall_fmap. eapply Forall_impl; [exact Hall|]. intros d Hd. cbn in *.
  apply digit_char_text. lia.
Qed.

Lemma show_dec_no_colon n : in_u16 n -> 58 ∉ show_dec n.
Proof.
  intros Hn Hin. unfold in_u16 in Hn. pose proof (show_radix_text 10 n ltac:(lia) ltac:(lia)) as Hall.
  rewrite Forall_forall in Hall. by destruct (Hall 58 Hin).
Qed.

Lemma join_text sep l : text_char sep -> Forall (Forall text_char) l -> Forall text_char (join sep l).
Proof.
  intros Hs Hl. induction Hl as [|x [|y l] Hx Hl IH]; [constructor|done|].
  change (join sep (x :: y :: l)) with (x ++ [sep] ++ join sep (y :: l)).
  apply Forall_app. split; [done|]. by constructor.
Qed.

Lemma show_fmap_text radix l :
  2 <= radix <= 16 -> Forall (fun n => 0 <= n < radix ^ 5) l -> Forall (Forall text_char) (show_radix radix <$> l).
Proof.
  intros Hr Hl. apply Forall_fmap. eapply Forall_impl; [exact Hl|]. intros n Hn. cbn.
  eapply Forall_impl; [by apply show_radix_text|]. by intros c [Hc _].
Qed.

Lemma show_ipv4_text o : bytes_ok o -> Forall text_char (show_ipv4 o).
Proof.
  intros Ho. apply join_text; [left; lia|]. apply show_fmap_text; [lia|].
  eapply Forall_impl; [exact Ho|]. unfold in_u8. lia.
Qed.

Lemma show_ipv6_text o : bytes_ok o -> length o = 16%nat -> Forall text_char (show_ipv6 o).
Proof.
  intros Ho Hl. destruct (segments_spec 8 o) as (_ & _ & Hs); [done|done|].
  assert (H58 : text_char 58) by (left; lia).
  assert (Hjoin : forall l, Forall in_u16 l -> Forall text_char (join 58 (show_hex <$> l))).
  { intros l Hl'. apply join_text; [done|]. apply show_fmap_text; [lia|].
    eapply Forall_impl; [exact Hl'|]. unfold in_u16. lia. }
  unfold show_ipv6, to_ipv4_mapped. case_decide.
  - apply Forall_app. split; [change (str "::ffff:") with [58; 58; 102; 102; 102; 102; 58]|].
    { repeat apply Forall_cons_2; try apply Forall_nil_2; unfold text_char; lia. }
    apply show_ipv4_text. auto with blackwire.
  - destruct (zero_span _ _ _ _) as [st ln]. case_match; [|by apply Hjoin].
    apply Forall_app. split; [by apply Hjoin, Forall_take|].
    apply Forall_app. split; [by repeat apply Forall_cons_2|by apply Hjoin, Forall_drop].
Qed.

Lemma text_char_not_in c l : Forall text_char l -> ~ text_char c -> c ∉ l.
Proof. intros Hl Hc Hin. rewrite Forall_forall in Hl. by apply Hc, Hl. Qed.

Lemma split_once_app c a b : c ∉ a -> split_once c (a ++ c :: b) = Some (a, b).
Proof.
  induction a as [|x a IH]; intros Hin; cbn.
  - by rewrite Z.eqb_refl.
  - rewrite not_elem_of_cons in Hin. destruct Hin as [Hne Hin].
    rewrite (proj2 (Z.eqb_neq x c)) by congruence. by rewrite IH.
Qed.

Lemma rsplit_once_none c s : c ∉ s -> rsplit_once c s = None.
Proof.
  induction s as [|x s IH]; [done|]. intros Hin. rewrite not_elem_of_cons in Hin. destruct Hin as [Hne Hin].
  cbn. rewrite (IH Hin). by rewrite (proj2 (Z.eqb_neq x c)) by congruence.
Qed.

Lemma rsplit_once_app c a b : c ∉ b -> rsplit_once c (a ++ c :: b) = Some (a, b).
Proof.
  intros Hb. induction a as [|x a IH]; cbn.
  - by rewrite rsplit_once_none, Z.eqb_refl.
  - by rewrite IH.
Qed.

Lemma text_char_byte c : text_char c -> in_u8 c /\ c < 128.
Proof. unfold text_char, in_u8. lia. Qed.

Lemma text_ok l : Forall text_char l -> string_ok l.
Proof.
  intros Hl. split.
  - eapply Forall_impl; [exact Hl|]. intros c Hc. by apply text_char_byte.
  - apply utf8_valid_ascii. eapply Forall_impl; [exact Hl|]. intros c Hc. by apply text_char_byte.
Qed.
