(* ===== verification/Hysteria2.v ===== *)
(** * Hysteria2: varints, TCP framing and UDP datagrams

    Models [crates/blackwire-transport/src/hysteria2/varint.rs], the stream
    framing of [proto.rs], [tcp.rs] and the datagram codec of [udp.rs].

    An [anyhow] or [io] error is the message it carries, without interpolated
    values.  The HTTP/3 authentication headers are not modelled: they are a
    mapping onto the [http] crate's [HeaderMap]. *)

From S2P Require Import Prelude Common IpText.

#[local] Instance string_eof : EofError string := "unexpected end of file"%string.

Module Hysteria2.

(** ** QUIC variable-length integers ([varint.rs]) *)

Definition MAX_VARINT : Z := 4611686018427387903.

Definition write_varint (value : Z) : res string bytes :=
  if MAX_VARINT <? value then Err "varint value out of range"%string else
  if value <=? 63 then Ok [as_u8 value] else
  if value <=? 16383 then
    let value := Z.lor value 16384 in
    Ok [as_u8 (Z.shiftr value 8); as_u8 value]
  else if value <=? 1073741823 then
    let value := Z.lor value 2147483648 in
    Ok [as_u8 (Z.shiftr value 24); as_u8 (Z.shiftr value 16); as_u8 (Z.shiftr value 8); as_u8 value]
  else
    let value := Z.lor value 13835058055282163712 in
    Ok [as_u8 (Z.shiftr value 56); as_u8 (Z.shiftr value 48); as_u8 (Z.shiftr value 40);
        as_u8 (Z.shiftr value 32); as_u8 (Z.shiftr value 24); as_u8 (Z.shiftr value 16);
        as_u8 (Z.shiftr value 8); as_u8 value].

(** [for b in bytes { value = (value << 8) | b }] *)
Definition accumulate (value : Z) (l : bytes) : Z :=
  foldl (fun value b => Z.lor (as_u64 (Z.shiftl value 8)) b) value l.

Definition read_varint : reader string Z :=
  first ← read_u8;
  let len := Z.to_nat (Z.shiftl 1 (Z.shiftr first 6)) in
  if (len =? 1)%nat then mret (Z.land first 63) else
  buf ← read_exact (len - 1);
  mret (accumulate (Z.land first 63) buf).

Definition read_varint_from_slice (data : bytes) : res string (Z * nat) :=
  match data with
  | [] => Err "missing varint"%string
  | first :: _ =>
      let len := Z.to_nat (Z.shiftl 1 (Z.shiftr first 6)) in
      if (length data <? len)%nat then Err "truncated varint"%string else
      if (len =? 1)%nat then Ok (Z.land first 63, 1%nat) else
      l ← slice data 1 len;
      Ok (accumulate (Z.land first 63) l, len)
  end.

(** ** TCP request and response ([proto.rs]) *)

Definition FRAME_TYPE_TCP_REQUEST : Z := 1025.
Definition MAX_ADDRESS_LENGTH : Z := 2048.
Definition MAX_MESSAGE_LENGTH : Z := 2048.
Definition MAX_PADDING_LENGTH : Z := 4096.

Record TcpRequest := mkTcpRequest { addr : bytes }.
Record TcpResponse := mkTcpResponse { ok : bool; message : bytes }.

Definition utf8_text (msg : string) (l : bytes) : res string bytes :=
  if utf8_valid l then Ok l else Err msg.

Definition encode_tcp_request (a : bytes) : res string bytes :=
  t ← write_varint FRAME_TYPE_TCP_REQUEST;
  n ← write_varint (zlen a);
  p ← write_varint 0;
  Ok (t ++ n ++ a ++ p).

Definition skip_padding : reader string unit :=
  padding_len ← read_varint;
  _ ← lift (ensure (padding_len <=? MAX_PADDING_LENGTH) "invalid padding length"%string);
  if 0 <? padding_len then (_ ← read_exact (Z.to_nat padding_len); mret tt) else mret tt.

Definition decode_tcp_request : reader string TcpRequest :=
  first ← read_varint;
  addr_len ← (if first =? FRAME_TYPE_TCP_REQUEST then read_varint else mret first);
  _ ← lift (ensure ((0 <? addr_len) && (addr_len <=? MAX_ADDRESS_LENGTH)) "invalid address length"%string);
  addr_bytes ← read_exact (Z.to_nat addr_len);
  a ← lift (utf8_text "address is not valid UTF-8" addr_bytes);
  _ ← skip_padding;
  mret (mkTcpRequest a).

Definition encode_tcp_response (resp : TcpResponse) : res string bytes :=
  n ← write_varint (zlen (message resp));
  p ← write_varint 0;
  Ok ([if ok resp then 0 else 1] ++ n ++ message resp ++ p).

Definition decode_tcp_response : reader string TcpResponse :=
  status ← read_u8;
  msg_len ← read_varint;
  _ ← lift (ensure (msg_len <=? MAX_MESSAGE_LENGTH) "invalid message length"%string);
  msg_bytes ← (if 0 <? msg_len then read_exact (Z.to_nat msg_len) else mret []);
  m ← lift (utf8_text "message is not valid UTF-8" msg_bytes);
  _ ← skip_padding;
  mret (mkTcpResponse (status =? 0) m).

(** ** Addresses as [host:port] text ([tcp.rs], and the copy in [udp.rs]) *)

Definition address_to_hysteria (a : Address) : bytes :=
  match a with
  | Ipv4 i p => show_ipv4 i ++ [58] ++ show_dec p
  | Ipv6 i p => [91] ++ show_ipv6 i ++ [93; 58] ++ show_dec p
  | Domain host p => host ++ [58] ++ show_dec p
  end.

Definition hysteria_to_address (a : bytes) : res ProxyError Address :=
  match strip_prefix 91 a with
  | Some inner =>
      '(host, rest) ← of_option (Protocol "bad IPv6 address") (split_once 93 inner);
      rest ← of_option (Protocol "bad IPv6 address") (strip_prefix 58 rest);
      p ← of_option (Protocol "bad port in address") (parse_u16 rest);
      i ← of_option (Protocol "bad IPv6 host") (parse_ipv6_addr host);
      Ok (Ipv6 i p)
  | None =>
      '(host, port_str) ← of_option (Protocol "bad address") (rsplit_once 58 a);
      p ← of_option (Protocol "bad port in address") (parse_u16 port_str);
      match parse_ipv4_addr host with
      | Some i => Ok (Ipv4 i p)
      | None => Ok (Domain host p)
      end
  end.

Definition server_read_request (s : bytes) : res ProxyError (Address * bytes) :=
  '(req, s') ← map_err (fun _ => Protocol "bad TCP request") (decode_tcp_request s);
  a ← hysteria_to_address (addr req);
  Ok (a, s').

Definition server_write_response (b : bool) (msg : bytes) : res ProxyError bytes :=
  map_err (fun _ => Io InvalidInput) (encode_tcp_response (mkTcpResponse b msg)).

Definition client_write_request (dest : Address) : res ProxyError bytes :=
  map_err (fun _ => Io InvalidInput) (encode_tcp_request (address_to_hysteria dest)).

Definition client_read_response (s : bytes) : res ProxyError (unit * bytes) :=
  '(resp, s') ← map_err (fun _ => Protocol "bad TCP response") (decode_tcp_response s);
  if negb (ok resp) then Err (Protocol "server refused connection") else Ok (tt, s').

(** ** UDP datagrams ([udp.rs]) *)

Inductive Destination :=
| DV4 (ip : bytes) (port : Z)
| DV6 (ip : bytes) (port : Z)
| DDomain (name : bytes) (port : Z).

Record UdpDatagram := mkDatagram {
  session_id : Z;
  packet_id : Z;
  frag_id : Z;
  frag_num : Z;
  dest : Destination;
  data : bytes
}.

Definition destination_to_hysteria (d : Destination) : bytes :=
  match d with
  | DV4 i p => show_ipv4 i ++ [58] ++ show_dec p
  | DV6 i p => [91] ++ show_ipv6 i ++ [93; 58] ++ show_dec p
  | DDomain name p => name ++ [58] ++ show_dec p
  end.

Definition hysteria_to_destination (a : bytes) : res string Destination :=
  match strip_prefix 91 a with
  | Some inner =>
      '(host, rest) ← of_option "bad IPv6 address"%string (split_once 93 inner);
      rest ← of_option "bad IPv6 address"%string (strip_prefix 58 rest);
      p ← of_option "bad port in address"%string (parse_u16 rest);
      i ← of_option "bad IPv6 host"%string (parse_ipv6_addr host);
      Ok (DV6 i p)
  | None =>
      '(host, port_str) ← of_option "bad address"%string (rsplit_once 58 a);
      p ← of_option "bad port in address"%string (parse_u16 port_str);
      match parse_ipv4_addr host with
      | Some i => Ok (DV4 i p)
      | None => Ok (DDomain host p)
      end
  end.

(** The [expect] on the address length panics on [Err]. *)
Definition encode_udp_datagram (dg : UdpDatagram) : res string bytes :=
  let a := destination_to_hysteria (dest dg) in
  match write_varint (zlen a) with
  | Ok n =>
      Ok (be_bytes 4 (session_id dg) ++ be_bytes 2 (packet_id dg) ++ [frag_id dg; frag_num dg] ++
          n ++ a ++ data dg)
  | _ => Panic
  end.

Definition decode_hysteria_destination (d : bytes) : res string (Destination * bytes) :=
  '(addr_len, varint_len) ← read_varint_from_slice d;
  _ ← ensure ((0 <? addr_len) && (addr_len <=? 2048)) "invalid address length"%string;
  let start := varint_len in
  let end_ := (start + Z.to_nat addr_len)%nat in
  _ ← ensure (end_ <=? length d)%nat "truncated address string"%string;
  raw ← slice d start end_;
  a ← utf8_text "address is not valid UTF-8" raw;
  dst ← hysteria_to_destination a;
  rest ← slice d end_ (length d);
  Ok (dst, rest).

(** [Buf::get_u8] and [get_u16], which panic when the buffer is short. *)
Definition get_u8 (d : bytes) : res string (Z * bytes) :=
  b ← idx d 0; Ok (b, drop 1 d).
Definition get_u16 (d : bytes) : res string (Z * bytes) :=
  v ← idx16 d 0; Ok (v, drop 2 d).
Definition get_u32 (d : bytes) : res string (Z * bytes) :=
  v ← idx32 d 0; Ok (v, drop 4 d).

Definition decode_legacy_destination (d : bytes) : res string (Destination * bytes) :=
  '(addr_type, d) ← get_u8 d;
  if addr_type =? 1 then
    _ ← ensure (6 <=? length d)%nat "truncated IPv4 address"%string;
    octets ← slice d 0 4;
    '(p, d) ← get_u16 (drop 4 d);
    Ok (DV4 octets p, d)
  else if addr_type =? 2 then
    _ ← ensure (18 <=? length d)%nat "truncated IPv6 address"%string;
    octets ← slice d 0 16;
    '(p, d) ← get_u16 (drop 16 d);
    Ok (DV6 octets p, d)
  else if addr_type =? 3 then
    _ ← ensure (negb (length d =? 0)%nat) "missing domain name length"%string;
    '(n, d) ← get_u8 d;
    let name_len := Z.to_nat n in
    _ ← ensure (name_len + 2 <=? length d)%nat "truncated domain name"%string;
    name_bytes ← slice d 0 name_len;
    name ← utf8_text "domain name is not valid UTF-8" name_bytes;
    '(p, d) ← get_u16 (drop name_len d);
    Ok (DDomain name p, d)
  else Err "unknown UDP address type"%string.

Definition decode_udp_datagram (d : bytes) : res string UdpDatagram :=
  _ ← ensure (9 <=? length d)%nat "datagram too short (< 9 bytes)"%string;
  '(sid, d) ← get_u32 d;
  '(pid, d) ← get_u16 d;
  '(fid, d) ← get_u8 d;
  '(fnum, d) ← get_u8 d;
  '(dst, remaining) ←
    match decode_hysteria_destination d with
    | Ok r => Ok r
    | Err _ =>
        match decode_legacy_destination d with
        | Ok r => Ok r
        | Err _ => Err "bad UDP destination"%string
        | Panic => Panic
        end
    | Panic => Panic
    end;
  Ok (mkDatagram sid pid fid fnum dst remaining).

End Hysteria2.

Import Hysteria2.

Example tcp_request_example :
  (w ← client_write_request (Ipv6 (replicate 15 0 ++ [1]) 443); fst <$> server_read_request w)
  = Ok (Ipv6 (replicate 15 0 ++ [1]) 443).
Proof. vm_compute. reflexivity. Qed.

(** ** Varints *)

Lemma tagged_byte v c m j :
  0 <= j -> 8 * j + 8 <= m -> as_u8 (Z.shiftr (v + c * 2 ^ m) (8 * j)) = (v / 256 ^ j) mod 256.
Proof.
  intros Hj Hm. unfold as_u8. change (2 ^ 8) with 256. rewrite Z.shiftr_div_pow2 by lia.
  replace (256 ^ j) with (2 ^ (8 * j)) by (rewrite Z.pow_mul_r by lia; done).
  replace (c * 2 ^ m) with ((c * 2 ^ (m - 8 * j - 8) * 256) * 2 ^ (8 * j)).
  - rewrite Z.div_add by (apply Z.pow_nonzero; lia). by rewrite Z.mod_add.
  - change 256 with (2 ^ 8). rewrite <- !Z.mul_assoc, <- !Z.pow_add_r by lia. do 2 f_equal. lia.
Qed.

Lemma tagged_first v c j :
  0 <= j -> 0 <= c < 4 -> 0 <= v < 2 ^ (8 * j + 6) ->
  as_u8 (Z.shiftr (v + c * 2 ^ (8 * j + 6)) (8 * j)) = c * 64 + v / 256 ^ j /\ 0 <= v / 256 ^ j < 64.
Proof.
  intros Hj Hc Hv. unfold as_u8. change (2 ^ 8) with 256. rewrite Z.shiftr_div_pow2 by lia.
  replace (256 ^ j) with (2 ^ (8 * j)) by (rewrite Z.pow_mul_r by lia; done).
  rewrite Z.pow_add_r in * by lia. change (2 ^ 6) with 64 in *.
  pose proof (Z.pow_pos_nonneg 2 (8 * j) ltac:(lia) ltac:(lia)) as Hp.
  replace (c * (2 ^ (8 * j) * 64)) with ((c * 64) * 2 ^ (8 * j)) by ring.
  rewrite Z.div_add by lia.
  assert (0 <= v / 2 ^ (8 * j) < 64) by (split; [apply Z.div_pos; lia|apply Z.div_lt_upper_bound; lia]).
  rewrite Z.mod_small by lia. lia.
Qed.

(** The encoding: a two-bit length tag over the big-endian value. *)
Lemma write_varint_shape v :
  0 <= v <= MAX_VARINT ->
  exists tag (k : nat), 0 <= tag < 4 /\ Z.shiftl 1 tag = Z.of_nat (S k) /\ 0 <= v / 256 ^ Z.of_nat k < 64 /\
    write_varint v = Ok ((tag * 64 + v / 256 ^ Z.of_nat k) :: be_bytes k v).
Proof.
  intros Hv. unfold MAX_VARINT in Hv. unfold write_varint.
  rewrite (proj2 (Z.ltb_ge _ _)) by (unfold MAX_VARINT; lia).
  destruct (v <=? 63) eqn:E1; bool_hyps.
  { exists 0, 0%nat. change (256 ^ Z.of_nat 0) with 1. rewrite Z.div_1_r. repeat split; try lia.
    unfold as_u8. change (2 ^ 8) with 256. by rewrite Z.mod_small by lia. }
  destruct (v <=? 16383) eqn:E2; bool_hyps.
  { exists 1, 1%nat. change 16384 with (1 * 2 ^ 14). rewrite lor_shiftl_add by lia.
    destruct (tagged_first v 1 1) as [H1 H2]; [lia..|].
    pose proof (tagged_byte v 1 14 0) as H3. cbn [Z.mul] in *. rewrite Z.shiftr_0_r in H3.
    repeat split; try lia. f_equal. f_equal; [exact H1|].
    rewrite H3 by lia. reflexivity. }
  destruct (v <=? 1073741823) eqn:E3; bool_hyps.
  { exists 2, 3%nat. change 2147483648 with (2 * 2 ^ 30). rewrite lor_shiftl_add by lia.
    destruct (tagged_first v 2 3) as [H1 H2]; [lia..|].
    pose proof (tagged_byte v 2 30 0) as H3. pose proof (tagged_byte v 2 30 1) as H4.
    pose proof (tagged_byte v 2 30 2) as H5. rewrite Z.mul_0_r, Z.shiftr_0_r in H3.
    repeat split; try lia. f_equal. f_equal; [exact H1|].
    rewrite H3 by lia. unfold be_bytes. f_equal; [apply H5; lia|f_equal; apply H4; lia]. }
  exists 3, 7%nat. change 13835058055282163712 with (3 * 2 ^ 62). rewrite lor_shiftl_add by lia.
  destruct (tagged_first v 3 7) as [H1 H2]; [lia..|].
  pose proof (tagged_byte v 3 62 0) as H3. rewrite Z.mul_0_r, Z.shiftr_0_r in H3.
  repeat split; try lia. f_equal. f_equal; [exact H1|]. rewrite H3 by lia. unfold be_bytes.
  f_equal; [apply (tagged_byte v 3 62 6); lia|]. f_equal; [apply (tagged_byte v 3 62 5); lia|].
  f_equal; [apply (tagged_byte v 3 62 4); lia|]. f_equal; [apply (tagged_byte v 3 62 3); lia|].
  f_equal; [apply (tagged_byte v 3 62 2); lia|]. f_equal; apply (tagged_byte v 3 62 1); lia.
Qed.

Lemma accumulate_be v l :
  bytes_ok l -> (length l <= 7)%nat -> 0 <= v < 2 ^ (62 - 8 * zlen l) ->
  accumulate v l = v * 256 ^ zlen l + be_val l.
Proof.
  intros Hl. revert v. induction Hl as [|b l Hb Hl IH]; intros v Hlen Hv.
  { unfold accumulate, zlen, be_val. cbn. lia. }
  unfold accumulate in *. cbn [foldl]. unfold in_u8 in Hb. cbn [length] in Hlen.
  unfold zlen in *. cbn [length] in *. rewrite Nat2Z.inj_succ in *.
  assert (Hb2 : 2 ^ (62 - 8 * Z.succ (Z.of_nat (length l))) * 2 ^ 8 = 2 ^ (62 - 8 * Z.of_nat (length l))).
  { rewrite <- Z.pow_add_r by lia. f_equal. lia. }
  assert (Hub : 2 ^ (62 - 8 * Z.of_nat (length l)) <= 2 ^ 62) by (apply Z.pow_le_mono_r; lia).
  unfold as_u64. rewrite Z.shiftl_mul_pow2, Z.mod_small by lia.
  rewrite Z.lor_comm, lor_shiftl_add, IH by lia.
  rewrite be_val_cons. unfold zlen. rewrite Z.pow_succ_r by lia. ring.
Qed.

Lemma first_byte tag hi :
  0 <= tag < 4 -> 0 <= hi < 64 -> Z.shiftr (tag * 64 + hi) 6 = tag /\ Z.land (tag * 64 + hi) 63 = hi.
Proof.
  intros Ht Hh. rewrite Z.shiftr_div_pow2 by lia. change 63 with (Z.ones 6). rewrite Z.land_ones by lia.
  change (2 ^ 6) with 64. rewrite Z.add_comm, Z.div_add, Z.mod_add, Z.div_small, Z.mod_small by lia. lia.
Qed.

(** Value of the bytes that follow the tag. *)
Lemma varint_value v tag (k : nat) :
  0 <= v <= MAX_VARINT -> 0 <= tag < 4 -> Z.shiftl 1 tag = Z.of_nat (S k) -> 0 <= v / 256 ^ Z.of_nat k < 64 ->
  accumulate (v / 256 ^ Z.of_nat k) (be_bytes k v) = v.
Proof.
  intros Hv Ht Hk Hhi.
  assert (Hk7 : (k <= 7)%nat).
  { assert (tag = 0 \/ tag = 1 \/ tag = 2 \/ tag = 3) as [-> | [-> | [-> | ->]]] by lia; rewrite Z.shiftl_mul_pow2 in Hk by lia; lia. }
  rewrite accumulate_be; [|auto with blackwire|by rewrite length_be_bytes|].
  - rewrite zlen_be_bytes, be_val_be_bytes. pose proof (Z.div_mod v (256 ^ Z.of_nat k)).
    pose proof (Z.pow_pos_nonneg 256 (Z.of_nat k)). lia.
  - rewrite zlen_be_bytes. assert (2 ^ 6 <= 2 ^ (62 - 8 * Z.of_nat k)); [|lia]. apply Z.pow_le_mono_r; lia.
Qed.

Lemma varint_written v w :
  0 <= v -> write_varint v = Ok w ->
  exists first l, w = first :: l /\ bytes_ok w /\
    Z.to_nat (Z.shiftl 1 (Z.shiftr first 6)) = length w /\ accumulate (Z.land first 63) l = v.
Proof.
  intros Hv Hw. assert (Hm : v <= MAX_VARINT).
  { unfold write_varint in Hw. destruct (MAX_VARINT <? v) eqn:E; [done|]. by bool_hyps. }
  destruct (write_varint_shape v ltac:(lia)) as (tag & k & Ht & Hk & Hhi & Hw').
  rewrite Hw' in Hw. apply Ok_inj in Hw. subst w. eexists _, _. split; [done|].
  destruct (first_byte _ _ Ht Hhi) as [-> ->]. rewrite Hk, Nat2Z.id. cbn [length]. rewrite length_be_bytes.
  split; [apply bytes_ok_cons; [unfold in_u8; lia|auto with blackwire]|]. split; [done|].
  by apply (varint_value v tag k).
Qed.

Lemma read_varint_written v w s :
  0 <= v -> write_varint v = Ok w -> read_varint (w ++ s) = Ok (v, s).
Proof.
  intros Hv Hw. destruct (varint_written v w Hv Hw) as (first & l & -> & _ & Hlen & Hval).
  unfold read_varint. rewrite (reader_bind_ok _ _ _ first (l ++ s)) by done. cbv zeta. rewrite Hlen.
  cbn [length] in *. destruct (S (length l) =? 1)%nat eqn:E; bool_hyps.
  - destruct l; [|done]. cbn in Hval |- *. by rewrite Hval.
  - rewrite (reader_bind_ok _ _ _ l s) by (apply read_exact_app; lia). by rewrite Hval.
Qed.

Lemma read_varint_from_slice_written v w s :
  0 <= v -> write_varint v = Ok w -> read_varint_from_slice (w ++ s) = Ok (v, length w).
Proof.
  intros Hv Hw. destruct (varint_written v w Hv Hw) as (first & l & -> & _ & Hlen & Hval).
  unfold read_varint_from_slice. cbn [app]. rewrite Hlen. cbn [length] in *.
  rewrite (proj2 (Nat.ltb_ge _ _)) by (rewrite length_app; lia).
  destruct (S (length l) =? 1)%nat eqn:E; bool_hyps.
  - destruct l; [|done]. cbn in Hval |- *. by rewrite Hval.
  - change (first :: l ++ s) with ([first] ++ l ++ s). rewrite slice_mid by (cbn; lia). mred. by rewrite Hval.
Qed.

Lemma write_varint_ok v : 0 <= v <= MAX_VARINT -> exists w, write_varint v = Ok w.
Proof. intros Hv. destruct (write_varint_shape v Hv) as (tag & k & _ & _ & _ & Hw). eauto. Qed.

(** ** Address texts *)

Definition dest_of (a : Address) : Destination :=
  match a with Ipv4 i p => DV4 i p | Ipv6 i p => DV6 i p | Domain n p => DDomain n p end.

(** The two address parsers are the same. *)
Lemma hysteria_parsers_agree a :
  match hysteria_to_address a with
  | Ok x => hysteria_to_destination a = Ok (dest_of x)
  | Err _ => exists e, hysteria_to_destination a = Err e
  | Panic => False
  end.
Proof.
  unfold hysteria_to_address, hysteria_to_destination.
  generalize parse_ipv6_addr as parse6, parse_ipv4_addr as parse4, parse_u16 as parse_port.
  intros. destruct (strip_prefix 91 a) as [inner|].
  - destruct (split_once 93 inner) as [[host rest]|]; cbn [of_option]; mred; [|eauto].
    destruct (strip_prefix 58 rest) as [r|]; cbn [of_option]; mred; [|eauto].
    destruct (parse_port r); cbn [of_option]; mred; [|eauto].
    destruct (parse6 host); cbn [of_option]; mred; eauto.
  - destruct (rsplit_once 58 a) as [[host r]|]; cbn [of_option]; mred; [|eauto].
    destruct (parse_port r); cbn [of_option]; mred; [|eauto]. by destruct (parse4 host).
Qed.

(** What a destination becomes on the wire: a name that reads as an IPv4 address
    is one. *)
Definition canonical (a : Address) : Address :=
  match a with
  | Domain name p => match parse_ipv4_addr name with Some i => Ipv4 i p | None => a end
  | _ => a
  end.

(** A name that starts with a bracket would read as an IPv6 literal. *)
Definition no_bracket (a : Address) : Prop :=
  match a with Domain (91 :: _) _ => False | _ => True end.

Lemma strip_bracket_none c s : c <> 91 -> strip_prefix 91 (c :: s) = None.
Proof. intros H. cbn. by rewrite (proj2 (Z.eqb_neq _ _) H). Qed.

Lemma not_bracket_text : ~ text_char 91.
Proof. unfold text_char. lia. Qed.

Lemma not_close_text : ~ text_char 93.
Proof. unfold text_char. lia. Qed.

Lemma host_port_parse host p :
  in_u16 p -> (forall s, strip_prefix 91 (host ++ 58 :: s) = None) ->
  hysteria_to_address (host ++ [58] ++ show_dec p) =
    Ok (match parse_ipv4_addr host with Some i => Ipv4 i p | None => Domain host p end).
Proof.
  intros Hp Hs. unfold hysteria_to_address. cbn [app]. rewrite Hs.
  rewrite rsplit_once_app by (by apply show_dec_no_colon). cbn [of_option]. mred.
  rewrite parse_u16_show by done. cbn [of_option]. mred. by destruct (parse_ipv4_addr host).
Qed.

Lemma address_text_roundtrip a :
  address_ok a -> no_bracket a -> hysteria_to_address (address_to_hysteria a) = Ok (canonical a).
Proof.
  intros [Hp Ha] Hb. destruct a as [i p|i p|name p]; cbn [port] in Hp; cbn [address_to_hysteria canonical].
  - destruct Ha as [Hi Hl]. rewrite host_port_parse; [by rewrite parse_ipv4_show|done|].
    intros s. pose proof (show_ipv4_text i Hi) as Ht. destruct (show_ipv4 i) as [|c t]; [done|].
    apply strip_bracket_none. intros ->. inv Ht. by apply not_bracket_text.
  - destruct Ha as [Hi Hl]. unfold hysteria_to_address.
    change ([91] ++ show_ipv6 i ++ [93; 58] ++ show_dec p) with (91 :: show_ipv6 i ++ 93 :: 58 :: show_dec p).
    cbn [strip_prefix Z.eqb Pos.eqb].
    rewrite split_once_app by (apply text_char_not_in; [by apply show_ipv6_text|apply not_close_text]).
    cbn [of_option]. mred. cbn [strip_prefix Z.eqb Pos.eqb of_option]. mred.
    rewrite parse_u16_show by done. cbn [of_option]. mred. by rewrite parse_ipv6_show.
  - rewrite host_port_parse; [done|done|]. intros s. destruct name as [|c t]; [done|].
    apply strip_bracket_none. intros ->. done.
Qed.

Lemma address_text_ok a : address_ok a -> string_ok (address_to_hysteria a) /\ address_to_hysteria a <> [].
Proof.
  intros [Hp Ha]. assert (Hport : forall p, in_u16 p -> string_ok ([58] ++ show_dec p)).
  { intros p H. apply text_ok. constructor; [left; lia|]. unfold in_u16 in H.
    eapply Forall_impl; [apply (show_radix_text 10); lia|]. by intros c [Hc _]. }
  assert (Happ : forall x y, string_ok x -> string_ok y -> string_ok (x ++ y)).
  { intros x y [Hx1 Hx2] [Hy1 Hy2]. split; [by apply bytes_ok_app_2|by apply utf8_valid_app]. }
  destruct a as [i p|i p|name p]; cbn [port] in Hp; cbn [address_to_hysteria].
  - destruct Ha as [Hi _]. split; [apply Happ; [by apply text_ok, show_ipv4_text|by apply Hport]|].
    by destruct (show_ipv4 i).
  - destruct Ha as [Hi Hl]. split; [|done].
    change ([93; 58] ++ show_dec p) with ([93] ++ [58] ++ show_dec p).
    assert (Hc : forall c, 0 <= c < 128 -> string_ok [c]).
    { intros c Hc. split; [apply bytes_ok_cons; [unfold in_u8; lia|constructor]|].
      apply utf8_valid_ascii. constructor; [lia|constructor]. }
    apply Happ; [apply Hc; lia|]. apply Happ; [by apply text_ok, show_ipv6_text|].
    apply Happ; [apply Hc; lia|by apply Hport].
  - split; [apply Happ; [done|by apply Hport]|]. by destruct name.
Qed.

(** ** TCP framing *)

Lemma utf8_text_ok msg l : string_ok l -> utf8_text msg l = Ok l.
Proof. intros [_ H]. unfold utf8_text. by rewrite H. Qed.

Lemma skip_padding_zero s : skip_padding (0 :: s) = Ok (tt, s).
Proof. reflexivity. Qed.

Lemma lift_ok {E A} (a : A) s : lift (E:=E) (Ok a) s = Ok (a, s).
Proof. reflexivity. Qed.

Lemma tcp_request_roundtrip a rest :
  string_ok a -> 0 < zlen a <= MAX_ADDRESS_LENGTH ->
  exists w, encode_tcp_request a = Ok w /\ decode_tcp_request (w ++ rest) = Ok (mkTcpRequest a, rest).
Proof.
  intros Ha Hl. unfold MAX_ADDRESS_LENGTH in Hl.
  destruct (write_varint_ok FRAME_TYPE_TCP_REQUEST) as [t Ht]; [done|].
  destruct (write_varint_ok (zlen a)) as [n Hn]; [unfold MAX_VARINT; lia|].
  unfold encode_tcp_request. rewrite Ht, Hn. mred. eexists. split; [reflexivity|].
  rewrite <- !app_assoc. unfold decode_tcp_request.
  rewrite (reader_bind_ok _ _ _ _ _ (read_varint_written FRAME_TYPE_TCP_REQUEST t _ ltac:(done) Ht)).
  cbn [Z.eqb FRAME_TYPE_TCP_REQUEST Pos.eqb].
  rewrite (reader_bind_ok _ _ _ _ _ (read_varint_written (zlen a) n _ ltac:(lia) Hn)).
  rewrite (reader_bind_ok _ _ _ tt (a ++ [0] ++ rest)).
  2:{ unfold MAX_ADDRESS_LENGTH. rewrite (proj2 (Z.ltb_lt _ _)), (proj2 (Z.leb_le _ _)) by lia. done. }
  rewrite (reader_bind_ok _ _ _ a ([0] ++ rest)) by (apply read_exact_app; by rewrite zlen_to_nat).
  rewrite (reader_bind_ok _ _ _ a ([0] ++ rest)) by (by rewrite utf8_text_ok).
  by rewrite (reader_bind_ok _ _ _ tt rest).
Qed.

Lemma tcp_response_roundtrip b m rest :
  string_ok m -> zlen m <= MAX_MESSAGE_LENGTH ->
  exists w, encode_tcp_response (mkTcpResponse b m) = Ok w /\
    decode_tcp_response (w ++ rest) = Ok (mkTcpResponse b m, rest).
Proof.
  intros Hm Hl. unfold MAX_MESSAGE_LENGTH in Hl. pose proof (zlen_nonneg m) as H0.
  destruct (write_varint_ok (zlen m)) as [n Hn]; [unfold MAX_VARINT; lia|].
  unfold encode_tcp_response. cbn [message ok]. rewrite Hn. mred. eexists. split; [reflexivity|].
  rewrite <- !app_assoc. unfold decode_tcp_response.
  rewrite (reader_bind_ok _ _ _ (if b then 0 else 1) (n ++ m ++ [0] ++ rest)) by done.
  rewrite (reader_bind_ok _ _ _ _ _ (read_varint_written (zlen m) n _ H0 Hn)).
  rewrite (reader_bind_ok _ _ _ tt (m ++ [0] ++ rest)).
  2:{ unfold MAX_MESSAGE_LENGTH. rewrite (proj2 (Z.leb_le _ _)) by lia. done. }
  rewrite (reader_bind_ok _ _ _ m ([0] ++ rest)).
  2:{ destruct (0 <? zlen m) eqn:E; bool_hyps; [apply read_exact_app; by rewrite zlen_to_nat|].
      destruct m; [done|]. unfold zlen in E. cbn in E. lia. }
  rewrite (reader_bind_ok _ _ _ m ([0] ++ rest)) by (by rewrite utf8_text_ok).
  rewrite (reader_bind_ok _ _ _ tt rest) by done. by destruct b.
Qed.

(** Hysteria2 TCP streams: the connect request written for a destination whose
    text is at most 2048 bytes (and whose name has no leading bracket) is read back
    by the server as that destination, a name that spells an IPv4 address being
    one, and the stream is left at the payload; the server's answer makes the
    client succeed exactly when it accepted. *)
Theorem hysteria_tcp_roundtrip (a : Address) (b : bool) (msg rest : bytes) :
  address_ok a -> no_bracket a -> zlen (address_to_hysteria a) <= MAX_ADDRESS_LENGTH ->
  string_ok msg -> zlen msg <= MAX_MESSAGE_LENGTH ->
  (exists w, client_write_request a = Ok w /\ server_read_request (w ++ rest) = Ok (canonical a, rest)) /\
  (exists w, server_write_response b msg = Ok w /\
     client_read_response (w ++ rest) = if b then Ok (tt, rest) else Err (Protocol "server refused connection")).
Proof.
  intros Ha Hb Hl Hm Hml. destruct (address_text_ok a Ha) as [Hok Hne]. split.
  - destruct (tcp_request_roundtrip (address_to_hysteria a) rest) as (w & Hw & Hr); [done| |].
    { split; [|done]. unfold zlen. destruct (address_to_hysteria a); [done|]. cbn. lia. }
    exists w. unfold client_write_request, server_read_request. rewrite Hw, Hr. split; [done|].
    cbn [map_err]. mred. cbn [addr]. by rewrite address_text_roundtrip.
  - destruct (tcp_response_roundtrip b msg rest) as (w & Hw & Hr); [done|done|].
    exists w. unfold server_write_response, client_read_response. rewrite Hw, Hr. split; [done|].
    by destruct b.
Qed.

Lemma hysteria_tcp_roundtrip_witness :
  exists w, client_write_request (Domain (str "example.com") 443) = Ok w /\
    server_read_request (w ++ [1; 2]) = Ok (Domain (str "example.com") 443, [1; 2]).
Proof.
  apply (hysteria_tcp_roundtrip (Domain (str "example.com") 443) true [] [1; 2]);
    [split; [done|split; [apply str_ok|reflexivity]] | done | done | split; [constructor|done] | done].
Defined.

(** ** UDP datagrams *)

Definition addr_of (d : Destination) : Address :=
  match d with DV4 i p => Ipv4 i p | DV6 i p => Ipv6 i p | DDomain n p => Domain n p end.

Definition datagram_ok (dg : UdpDatagram) : Prop :=
  in_u32 (session_id dg) /\ in_u16 (packet_id dg) /\ in_u8 (frag_id dg) /\ in_u8 (frag_num dg) /\
  address_ok (addr_of (dest dg)) /\ no_bracket (addr_of (dest dg)) /\
  zlen (destination_to_hysteria (dest dg)) <= 2048.

Lemma destination_text d : destination_to_hysteria d = address_to_hysteria (addr_of d).
Proof. by destruct d. Qed.

(** The fixed header, in front of anything. *)
Lemma decode_header sid pid fid fnum d :
  in_u32 sid -> in_u16 pid -> d <> [] ->
  decode_udp_datagram (be_bytes 4 sid ++ be_bytes 2 pid ++ [fid; fnum] ++ d) =
    '(dst, remaining) ←
      match decode_hysteria_destination d with
      | Ok r => Ok r
      | Err _ =>
          match decode_legacy_destination d with
          | Ok r => Ok r
          | Err _ => Err "bad UDP destination"%string
          | Panic => Panic
          end
      | Panic => Panic
      end;
    Ok (mkDatagram sid pid fid fnum dst remaining).
Proof.
  intros Hs Hp Hd. unfold decode_udp_datagram.
  rewrite (proj2 (Nat.leb_le _ _)).
  2:{ rewrite !length_app, !length_be_bytes. destruct d; [done|]. cbn. lia. }
  cbn [ensure]. mred. unfold get_u32.
  assert (H32 : idx32 (be_bytes 4 sid ++ be_bytes 2 pid ++ [fid; fnum] ++ d) 0 = Ok (E:=string) sid).
  { rewrite <- (be_bytes_4_val sid) at 2 by done. unfold be_bytes. cbn [app]. reflexivity. }
  rewrite H32. mred. rewrite drop_app_length' by (by rewrite length_be_bytes).
  unfold get_u16. rewrite idx16_be_bytes_0 by done. mred.
  rewrite drop_app_length' by (by rewrite length_be_bytes). reflexivity.
Qed.

Lemma hysteria_destination_written a n rest :
  0 < zlen a <= 2048 -> write_varint (zlen a) = Ok n ->
  decode_hysteria_destination (n ++ a ++ rest) =
    a ← utf8_text "address is not valid UTF-8" a;
    dst ← hysteria_to_destination a; Ok (dst, rest).
Proof.
  intros Hl Hn. unfold decode_hysteria_destination.
  rewrite (read_varint_from_slice_written (zlen a) n) by (done || lia). mred.
  rewrite (proj2 (Z.ltb_lt _ _)), (proj2 (Z.leb_le _ _)) by lia. cbn [andb ensure]. mred.
  rewrite zlen_to_nat, (proj2 (Nat.leb_le _ _)) by (rewrite !length_app; lia). cbn [ensure]. mred.
  rewrite (slice_mid n a rest (length n) (length n + length a)) by done. mred.
  destruct (utf8_text _ a) as [a'| |]; mred; try done.
  destruct (hysteria_to_destination a'); mred; try done.
  rewrite app_assoc, slice_tail; [done|by rewrite length_app].
Qed.

Lemma hysteria_dest_roundtrip d :
  address_ok (addr_of d) -> no_bracket (addr_of d) ->
  hysteria_to_destination (destination_to_hysteria d) = Ok (dest_of (canonical (addr_of d))).
Proof.
  intros Ha Hb. rewrite destination_text. pose proof (address_text_roundtrip _ Ha Hb) as Hr.
  pose proof (hysteria_parsers_agree (address_to_hysteria (addr_of d))) as H. by rewrite Hr in H.
Qed.

Lemma accumulate_no_panic d :
  bytes_ok d -> no_panic (read_varint_from_slice d).
Proof.
  intros Hd. unfold read_varint_from_slice. destruct d as [|first d]; [done|].
  case_match eqn:E1; [done|]. case_match eqn:E2; [done|]. bool_hyps.
  apply no_panic_bind; [|done]. apply slice_no_panic. split; [|done].
  inv Hd. rewrite Z.shiftl_mul_pow2 by (apply Z.shiftr_nonneg; unfold in_u8 in *; lia).
  pose proof (Z.pow_pos_nonneg 2 (Z.shiftr first 6)) as Hp.
  assert (0 <= Z.shiftr first 6) by (apply Z.shiftr_nonneg; unfold in_u8 in *; lia). lia.
Qed.

Lemma utf8_text_no_panic msg l : no_panic (utf8_text msg l).
Proof. unfold utf8_text. by case_match. Qed.

Lemma hysteria_to_destination_no_panic a : no_panic (hysteria_to_destination a).
Proof.
  pose proof (hysteria_parsers_agree a) as H. destruct (hysteria_to_address a); [by rewrite H| |done].
  destruct H as [e' ->]. done.
Qed.

Lemma decode_hysteria_no_panic d : bytes_ok d -> no_panic (decode_hysteria_destination d).
Proof.
  intros Hd. unfold decode_hysteria_destination. apply no_panic_bind; [by apply accumulate_no_panic|].
  intros [n k] _. apply no_panic_bind; [auto with blackwire|]. intros _ _. cbv zeta.
  apply no_panic_bind; [auto with blackwire|]. intros [] He. apply ensure_ok in He. bool_hyps.
  apply no_panic_bind; [apply slice_no_panic; lia|]. intros raw _.
  apply no_panic_bind; [apply utf8_text_no_panic|]. intros a _.
  apply no_panic_bind; [apply hysteria_to_destination_no_panic|]. intros dst _.
  apply no_panic_bind; [apply slice_no_panic; lia|]. done.
Qed.

Lemma get_u16_no_panic d : (2 <= length d)%nat -> no_panic (get_u16 d).
Proof. intros H. unfold get_u16. apply no_panic_bind; [apply idx16_no_panic; lia|]. done. Qed.

Lemma decode_legacy_no_panic d : d <> [] -> no_panic (decode_legacy_destination d).
Proof.
  intros Hd. destruct d as [|t d]; [done|]. unfold decode_legacy_destination.
  change (get_u8 (t :: d)) with (Ok (E:=string) (t, d)). mred.
  case_match; [|case_match; [|case_match; [|done]]];
    (apply no_panic_bind; [auto with blackwire|]; intros [] He; apply ensure_ok in He; bool_hyps).
  - apply no_panic_bind; [apply slice_no_panic; lia|]. intros o _.
    apply no_panic_bind; [apply get_u16_no_panic; rewrite length_drop; lia|]. by intros [].
  - apply no_panic_bind; [apply slice_no_panic; lia|]. intros o _.
    apply no_panic_bind; [apply get_u16_no_panic; rewrite length_drop; lia|]. by intros [].
  - destruct d as [|n d]; [done|]. change (get_u8 (n :: d)) with (Ok (E:=string) (n, d)). mred.
    apply no_panic_bind; [auto with blackwire|]. intros [] He2. apply ensure_ok in He2. bool_hyps.
    apply no_panic_bind; [apply slice_no_panic; lia|]. intros o _.
    apply no_panic_bind; [apply utf8_text_no_panic|]. intros name _.
    apply no_panic_bind; [apply get_u16_no_panic; rewrite length_drop; lia|]. by intros [].
Qed.

Definition canonical_datagram (dg : UdpDatagram) : UdpDatagram :=
  mkDatagram (session_id dg) (packet_id dg) (frag_id dg) (frag_num dg)
    (dest_of (canonical (addr_of (dest dg)))) (data dg).

Lemma decode_udp_no_panic d : bytes_ok d -> no_panic (decode_udp_datagram d).
Proof.
  intros Hd. unfold decode_udp_datagram. apply no_panic_bind; [auto with blackwire|].
  intros [] He. apply ensure_ok in He. bool_hyps.
  destruct d as [|b0 [|b1 [|b2 [|b3 [|b4 [|b5 [|b6 [|b7 d]]]]]]]]; try (cbn in He; lia).
  cbn [length] in He. assert (Hd' : bytes_ok d /\ d <> []).
  { split; [|intros ->; cbn in He; lia]. by apply (bytes_ok_drop _ 8) in Hd. }
  change (get_u32 (b0 :: b1 :: b2 :: b3 :: ?l)) with (Ok (E:=string) (be_val [b0; b1; b2; b3], l)). mred.
  change (get_u16 (b4 :: b5 :: ?l)) with (Ok (E:=string) (be_val [b4; b5], l)). mred.
  change (get_u8 (b6 :: ?l)) with (Ok (E:=string) (b6, l)). mred.
  change (get_u8 (b7 :: ?l)) with (Ok (E:=string) (b7, l)). mred.
  destruct Hd' as [Hok Hne]. apply no_panic_bind; [|by intros []].
  pose proof (decode_hysteria_no_panic d Hok) as H1. pose proof (decode_legacy_no_panic d Hne) as H2.
  destruct (decode_hysteria_destination d); [done| |done]. by destruct (decode_legacy_destination d).
Qed.

(** An encoded datagram decodes to itself, up to names that spell an address. *)
Lemma udp_datagram_roundtrip dg :
  datagram_ok dg -> exists w, encode_udp_datagram dg = Ok w /\ decode_udp_datagram w = Ok (canonical_datagram dg).
Proof.
  intros (Hs & Hpk & _ & _ & Ha & Hb & Hl).
  pose proof (hysteria_dest_roundtrip _ Ha Hb) as Hr. destruct (address_text_ok _ Ha) as [Hok Hne].
  rewrite <- destination_text in Hok, Hne. set (t := destination_to_hysteria (dest dg)) in *.
  assert (Hpos : 0 < zlen t) by (unfold zlen; destruct t; [done|cbn; lia]).
  destruct (write_varint_ok (zlen t)) as [n Hn]; [unfold MAX_VARINT; lia|].
  unfold encode_udp_datagram. fold t. rewrite Hn. eexists. split; [reflexivity|].
  rewrite decode_header; [|done|done|]; [|by destruct n, t].
  rewrite (hysteria_destination_written t n (data dg)), utf8_text_ok by done. mred. by rewrite Hr.
Qed.

(** Hysteria2 UDP datagrams: the decoder never panics; an encoded datagram
    (destination text at most 2048 bytes, no leading bracket in a name) decodes to
    itself, a name that spells an IPv4 address becoming that address; and a
    datagram of the older compact format that carries an IPv4 destination still
    decodes to it. *)
Theorem hysteria_udp_codec (dg : UdpDatagram) (d octets payload : bytes) (p : Z) :
  bytes_ok d -> datagram_ok dg -> length octets = 4%nat -> in_u16 p ->
  no_panic (decode_udp_datagram d) /\
  (exists w, encode_udp_datagram dg = Ok w /\ decode_udp_datagram w = Ok (canonical_datagram dg)) /\
  decode_udp_datagram (be_bytes 4 (session_id dg) ++ be_bytes 2 (packet_id dg) ++ [frag_id dg; frag_num dg] ++
      [1] ++ octets ++ be_bytes 2 p ++ payload) =
    Ok (mkDatagram (session_id dg) (packet_id dg) (frag_id dg) (frag_num dg) (DV4 octets p) payload).
Proof.
  intros Hd Hdg Ho Hp. split; [by apply decode_udp_no_panic|]. split.
  - by apply udp_datagram_roundtrip.
  - destruct Hdg as (Hs & Hpk & _). rewrite decode_header by done. destruct octets as [|a [|b [|c [|e [|]]]]]; try done.
    assert (Hoff : exists err, decode_hysteria_destination ([1] ++ [a; b; c; e] ++ be_bytes 2 p ++ payload) = Err err).
    { change ([1] ++ [a; b; c; e] ++ be_bytes 2 p ++ payload)
        with ([1] ++ [a] ++ [b; c; e] ++ be_bytes 2 p ++ payload).
      rewrite (hysteria_destination_written [a] [1] ([b; c; e] ++ be_bytes 2 p ++ payload)) by done.
      unfold utf8_text. case_match; [|mred; eauto]. mred. unfold hysteria_to_destination. cbn [strip_prefix].
      destruct (a =? 91); [cbn; eauto|]. cbn [rsplit_once]. destruct (a =? 58); cbn; eauto. }
    destruct Hoff as [err ->]. unfold decode_legacy_destination.
    change (get_u8 ([1] ++ ?l)) with (Ok (E:=string) (1, l)). mred. cbn [Z.eqb Pos.eqb].
    rewrite (proj2 (Nat.leb_le _ _)) by (rewrite !length_app, length_be_bytes; cbn; lia). cbn [ensure]. mred.
    rewrite (slice_prefix [a; b; c; e]) by done. mred. rewrite (drop_app_length' [a; b; c; e]) by done.
    unfold get_u16. rewrite idx16_be_bytes_0 by done. mred.
    by rewrite drop_app_length' by (by rewrite length_be_bytes).
Qed.

Lemma hysteria_udp_codec_witness :
  exists w, encode_udp_datagram (mkDatagram 7 1 0 1 (DDomain (str "example.com") 53) [9]) = Ok w /\
    decode_udp_datagram w = Ok (mkDatagram 7 1 0 1 (DDomain (str "example.com") 53) [9]).
Proof.
  apply (hysteria_udp_codec (mkDatagram 7 1 0 1 (DDomain (str "example.com") 53) [9]) [] [8; 8; 8; 8] [] 53);
    [constructor | | done | done].
  unfold datagram_ok, in_u32, in_u16, in_u8. cbn [session_id packet_id frag_id frag_num].
  repeat (split; [first [done | lia | split; [done|split; [apply str_ok|reflexivity]]]|]). done.
Defined.

(** The compact format is not always recognised: a compact datagram to an IPv6
    address whose octets start with a colon and a decimal digit (such as
    3a35::/16) is taken for the text format, decoded as the empty host name with
    that digit as its port, and the rest of the address becomes payload. *)
Theorem hysteria_legacy_shadowed (sid pid fid fnum digit p : Z) (tail payload : bytes) :
  in_u32 sid -> in_u16 pid -> 0 <= digit < 10 -> length tail = 14%nat ->
  decode_udp_datagram (be_bytes 4 sid ++ be_bytes 2 pid ++ [fid; fnum] ++
      [2] ++ (58 :: 48 + digit :: tail) ++ be_bytes 2 p ++ payload) =
    Ok (mkDatagram sid pid fid fnum (DDomain [] digit) (tail ++ be_bytes 2 p ++ payload)).
Proof.
  intros Hs Hp Hdig Ht. rewrite decode_header by done.
  assert (Hu : utf8_text "address is not valid UTF-8" [58; 48 + digit] = Ok [58; 48 + digit]).
  { apply utf8_text_ok. apply text_ok. repeat apply Forall_cons_2; [left; lia|left; lia|apply Forall_nil_2]. }
  change ([2] ++ (58 :: 48 + digit :: tail) ++ be_bytes 2 p ++ payload)
    with ([2] ++ [58; 48 + digit] ++ tail ++ be_bytes 2 p ++ payload).
  rewrite hysteria_destination_written, Hu by done. mred. unfold hysteria_to_destination.
  cbn [strip_prefix Z.eqb Pos.eqb rsplit_once]. rewrite (proj2 (Z.eqb_neq _ _)) by lia. cbn [of_option]. mred.
  pose proof (parse_u16_show digit ltac:(unfold in_u16; lia)) as Hport.
  assert (Hshow : show_dec digit = [48 + digit]).
  { unfold show_dec, show_radix. cbn [to_digits]. rewrite (proj2 (Z.ltb_lt _ _)) by lia. cbn. unfold digit_char.
    by rewrite (proj2 (Z.ltb_lt _ _)) by lia. }
  rewrite Hshow in Hport. rewrite Hport. reflexivity.
Qed.

Lemma hysteria_legacy_shadowed_witness :
  decode_udp_datagram (be_bytes 4 7 ++ be_bytes 2 1 ++ [0; 1] ++
      [2] ++ (58 :: 48 + 5 :: replicate 13 0 ++ [1]) ++ be_bytes 2 53 ++ [9]) =
    Ok (mkDatagram 7 1 0 1 (DDomain [] 5) ((replicate 13 0 ++ [1]) ++ be_bytes 2 53 ++ [9])).
Proof. apply hysteria_legacy_shadowed; [done|done|lia|done]. Defined.
