(* ===== verification/FlowTables.v ===== *)
(** * TUN flow tables: sessions and UDP NAT

    Models [crates/blackwire-transport/src/tun/session.rs] and [tun/nat.rs].

    The iteration order of [HashMap] is unspecified: it is the parameter
    [hash_iter], a permutation of the entries.  Instants are in nanoseconds and
    each operation receives the instants it reads.  In [nat.rs] the sockets are
    identifiers; opening a socket and sending on it are inputs of the step, and
    the reader tasks and datagrams are its effects.  The reader task is
    represented by what it does with one received datagram
    ([build_response_packet]). *)

From S2P Require Import Prelude Common TunPacket.
Import Tun.

#[export] Instance TransportProtocol_countable : Countable TransportProtocol.
Proof.
  refine (inj_countable' (fun p => match p with PTcp => inl true | PUdp => inl false | POther n => inr n end)
            (fun s => match s with inl true => PTcp | inl false => PUdp | inr n => POther n end) _).
  by intros [].
Defined.

(** ** [HashMap] iteration *)

Class HashOrder (K V : Type) `{Countable K} := hash_iter : gmap K V -> list (K * V).

Class HashOrderLaws (K V : Type) `{HashOrder K V} :=
  hash_iter_perm : forall m : gmap K V, hash_iter m ≡ₚ map_to_list m.

(** An order, for evaluation. *)
Definition plain_order {K V : Type} `{Countable K} : HashOrder K V := map_to_list.

Lemma plain_order_laws {K V : Type} `{Countable K} : @HashOrderLaws K V _ _ plain_order.
Proof. intros m. reflexivity. Qed.

(** [Iterator::min_by_key]: the first of the minimal elements. *)
Fixpoint min_by_key {A} (f : A -> Z) (l : list A) : option A :=
  match l with
  | [] => None
  | x :: l' =>
      match min_by_key f l' with
      | None => Some x
      | Some y => if f x <=? f y then Some x else Some y
      end
  end.

Section Table.
Context {K V : Type} `{HashOrder K V} (seen : V -> Z).

(** The shape shared by both tables: drop the oldest entry, drop idle entries. *)
Definition drop_oldest (m : gmap K V) : gmap K V :=
  match min_by_key (fun e => seen e.2) (hash_iter m) with
  | Some (k, _) => delete k m
  | None => m
  end.

(** [Instant::duration_since] saturates at zero. *)
Definition retain_recent (m : gmap K V) (now timeout : Z) : gmap K V :=
  filter (fun e => Z.max 0 (now - seen e.2) <= timeout) m.

End Table.

Module Session.

Record FlowKey := mkFlow {
  client : SocketAddr;
  remote : SocketAddr;
  flow_protocol : TransportProtocol
}.

#[global] Instance FlowKey_eq_dec : EqDecision FlowKey.
Proof. solve_decision. Defined.
#[global] Instance FlowKey_countable : Countable FlowKey.
Proof.
  refine (inj_countable' (fun k => (client k, remote k, flow_protocol k))
            (fun t => mkFlow t.1.1 t.1.2 t.2) _).
  by intros [].
Defined.

Definition from_packet (p : IpPacket) : option FlowKey :=
  match protocol p with
  | PTcp | PUdp =>
      Some (mkFlow (mkSocketAddr (src p) (src_port p)) (mkSocketAddr (dst p) (dst_port p)) (protocol p))
  | POther _ => None
  end.

Definition matches_response (k : FlowKey) (p : IpPacket) : bool :=
  bool_decide (protocol p = flow_protocol k) &&
  bool_decide (src p = sa_ip (remote k)) && (src_port p =? sa_port (remote k)) &&
  bool_decide (dst p = sa_ip (client k)) && (dst_port p =? sa_port (client k)).

Record TunSession := mkSession { flow : FlowKey; last_seen : Z }.

Record TunSessionTable := mkTable {
  sessions : gmap FlowKey TunSession;
  max_sessions : nat
}.

Definition with_max_sessions (n : nat) : TunSessionTable := mkTable ∅ (Nat.max n 1).
Definition new : TunSessionTable := with_max_sessions 4096.

Section Ops.
Context `{!HashOrder FlowKey TunSession}.

Definition evict_oldest (t : TunSessionTable) : TunSessionTable :=
  mkTable (drop_oldest last_seen (sessions t)) (max_sessions t).

Definition observe_packet (t : TunSessionTable) (p : IpPacket) (now : Z)
    : TunSessionTable * option TunSession :=
  match from_packet p with
  | None => (t, None)
  | Some f =>
      match sessions t !! f with
      | Some s =>
          let s := mkSession (flow s) now in
          (mkTable (<[f := s]> (sessions t)) (max_sessions t), Some s)
      | None =>
          let t := if (max_sessions t <=? size (sessions t))%nat then evict_oldest t else t in
          let s := default (mkSession f now) (sessions t !! f) in
          let s := mkSession (flow s) now in
          (mkTable (<[f := s]> (sessions t)) (max_sessions t), Some s)
      end
  end.

Definition find_response_flow (t : TunSessionTable) (p : IpPacket) : option FlowKey :=
  snd <$> list_find (fun k => matches_response k p = true) (fst <$> hash_iter (sessions t)).

Definition remove_expired (t : TunSessionTable) (now idle_timeout : Z) : TunSessionTable * nat :=
  let m := retain_recent last_seen (sessions t) now idle_timeout in
  (mkTable m (max_sessions t), (size (sessions t) - size m)%nat).

Definition clear_for_network_change (t : TunSessionTable) : TunSessionTable * nat :=
  (mkTable ∅ (max_sessions t), size (sessions t)).

Definition len (t : TunSessionTable) : nat := size (sessions t).
Definition is_empty (t : TunSessionTable) : bool := bool_decide (sessions t = ∅).

End Ops.
End Session.


Module UdpNat.

Definition DEFAULT_MAX_UDP_NAT_ENTRIES : nat := 4096.

(** A flow: client and remote endpoint. *)
Definition nat_key : Type := SocketAddr * SocketAddr.

Record NatEntry := mkEntry { socket : Z; last_seen : Z }.

Record UdpNatTable := mkTable {
  entries : gmap nat_key NatEntry;
  bypass_mark : Z;
  idle_timeout : Z;
  max_entries : nat
}.

Definition with_entries (t : UdpNatTable) (m : gmap nat_key NatEntry) : UdpNatTable :=
  mkTable m (bypass_mark t) (idle_timeout t) (max_entries t).

Definition new (mark timeout : Z) (n : nat) : UdpNatTable := mkTable ∅ mark timeout (Nat.max n 1).
Definition with_defaults (mark timeout : Z) : UdpNatTable := new mark timeout DEFAULT_MAX_UDP_NAT_ENTRIES.

(** What a step does outside the table. *)
Inductive NatEffect :=
| SpawnReader (sock : Z) (client remote : SocketAddr)
| SendTo (sock : Z) (payload : bytes).

Section Ops.
Context `{!HashOrder nat_key NatEntry}.

Definition evict_idle (t : UdpNatTable) (now : Z) : UdpNatTable * nat :=
  let m := retain_recent last_seen (entries t) now (idle_timeout t) in
  (with_entries t m, (size (entries t) - size m)%nat).

Definition clear_for_network_change (t : UdpNatTable) : UdpNatTable * nat :=
  (with_entries t ∅, size (entries t)).

Definition evict_oldest (t : UdpNatTable) : UdpNatTable :=
  with_entries t (drop_oldest last_seen (entries t)).

Definition len (t : UdpNatTable) : nat := size (entries t).
Definition is_empty (t : UdpNatTable) : bool := bool_decide (entries t = ∅).

(** Make room and open the flow's socket; [created] is [create_bypass_socket]'s
    result, [now'] the instant that [evict_idle] reads. *)
Definition open_flow (t : UdpNatTable) (key : nat_key) (now now' : Z) (created : option Z)
    : UdpNatTable * list NatEffect * res string unit :=
  let t := fst (evict_idle t now') in
  let t := if (max_entries t <=? size (entries t))%nat then evict_oldest t else t in
  if (max_entries t <=? size (entries t))%nat then (t, [], Err "UDP NAT: flow table full"%string) else
  match created with
  | None => (t, [], Err "UDP NAT: open bypass socket"%string)
  | Some s =>
      (with_entries t (<[key := mkEntry s now]> (entries t)), [SpawnReader s key.1 key.2], Ok tt)
  end.

(** Send the payload through the flow's socket; [sent] is the socket's result. *)
Definition send_flow (t : UdpNatTable) (key : nat_key) (p : IpPacket) (raw : bytes) (now : Z) (sent : bool)
    : UdpNatTable * list NatEffect * res string unit :=
  match entries t !! key with
  | None => (t, [], Err "UDP NAT: entry disappeared before send"%string)
  | Some e =>
      let t := with_entries t (<[key := mkEntry (socket e) now]> (entries t)) in
      match payload p raw with
      | None => (t, [], Err "UDP NAT: payload slice out of bounds"%string)
      | Some body =>
          (t, [SendTo (socket e) body], if sent then Ok tt else Err "UDP NAT: bypass socket send"%string)
      end
  end.

Definition key_of (p : IpPacket) : nat_key :=
  (mkSocketAddr (src p) (src_port p), mkSocketAddr (dst p) (dst_port p)).

Definition forward (t : UdpNatTable) (p : IpPacket) (raw : bytes) (now now' : Z)
    (created : option Z) (sent : bool) : UdpNatTable * list NatEffect * res string unit :=
  let key := key_of p in
  match entries t !! key with
  | Some _ => send_flow t key p raw now sent
  | None =>
      let '(t, log, r) := open_flow t key now now' created in
      match r with
      | Ok _ => let '(t, log', r') := send_flow t key p raw now sent in (t, log ++ log', r')
      | Err e => (t, log, Err e)
      | Panic => (t, log, Panic)
      end
  end.

End Ops.

(** One datagram received on a flow's socket, as the packet given to the TUN device. *)
Definition build_response_packet (client remote : SocketAddr) (body : bytes) : res unit bytes :=
  build_udp_response_packet
    (mkPacket (sa_ip client) (sa_ip remote) (sa_port client) (sa_port remote) PUdp 0 0 0 0 None None None) body.

End UdpNat.

(** ** The tables *)

Lemma min_by_key_spec {A} (f : A -> Z) l :
  l <> [] -> exists x, min_by_key f l = Some x /\ x ∈ l /\ forall y, y ∈ l -> f x <= f y.
Proof.
  induction l as [|x l IH]; [done|]. intros _. cbn. destruct l as [|y l].
  { exists x. split; [done|]. split; [by left|]. intros y Hy. apply list_elem_of_singleton in Hy as ->. lia. }
  destruct IH as (z & -> & Hz & Hmin); [done|]. case_match eqn:E; bool_hyps.
  - exists x. split; [done|]. split; [by left|]. intros w Hw. apply elem_of_cons in Hw as [->|Hw]; [lia|].
    specialize (Hmin w Hw). lia.
  - exists z. split; [done|]. split; [by right|]. intros w Hw. apply elem_of_cons in Hw as [->|Hw]; [lia|auto].
Qed.

Section TableFacts.
Context {K V : Type} `{HashOrderLaws K V} (seen : V -> Z).
Implicit Types (m : gmap K V).

Lemma hash_iter_elem m k v : (k, v) ∈ hash_iter m <-> m !! k = Some v.
Proof. rewrite hash_iter_perm. apply elem_of_map_to_list. Qed.

Lemma drop_oldest_spec m :
  m <> ∅ -> exists k v, m !! k = Some v /\ drop_oldest seen m = delete k m /\
    forall k' v', m !! k' = Some v' -> seen v <= seen v'.
Proof.
  intros Hm. unfold drop_oldest.
  destruct (min_by_key_spec (fun e => seen e.2) (hash_iter m)) as ([k v] & -> & Hin & Hmin).
  { intros He. apply Hm, map_to_list_empty_iff. apply Permutation_nil. by rewrite <- hash_iter_perm, He. }
  exists k, v. apply hash_iter_elem in Hin. split; [done|]. split; [done|].
  intros k' v' Hv. apply (Hmin (k', v')), hash_iter_elem, Hv.
Qed.

(** After making room, a table below its cap. *)
Definition make_room (n : nat) m : gmap K V :=
  if (n <=? size m)%nat then drop_oldest seen m else m.

Lemma make_room_size n m : (1 <= n)%nat -> (size m <= n)%nat -> (size (make_room n m) < n)%nat.
Proof.
  intros Hn Hm. unfold make_room. case_match eqn:E; bool_hyps; [|lia].
  destruct (drop_oldest_spec m) as (k & v & Hk & -> & _).
  { intros ->. rewrite map_size_empty in E. lia. }
  rewrite map_size_delete_Some by eauto. lia.
Qed.

Lemma make_room_sub n m k v : make_room n m !! k = Some v -> m !! k = Some v.
Proof.
  unfold make_room. case_match; [|done]. destruct (decide (m = ∅)) as [->|Hm].
  - unfold drop_oldest. case_match; [|done]. case_match. by rewrite delete_empty.
  - destruct (drop_oldest_spec m Hm) as (k' & v' & _ & -> & _). rewrite lookup_delete_Some. tauto.
Qed.

Lemma retain_recent_lookup m now timeout k v :
  retain_recent seen m now timeout !! k = Some v <-> m !! k = Some v /\ Z.max 0 (now - seen v) <= timeout.
Proof. unfold retain_recent. by rewrite map_lookup_filter_Some. Qed.

Lemma retain_recent_size m now timeout : (size (retain_recent seen m now timeout) <= size m)%nat.
Proof. apply map_subseteq_size, map_filter_subseteq. Qed.

Lemma insert_size n m k v : (size m < n)%nat -> (size (<[k := v]> m) <= n)%nat.
Proof. intros Hm. rewrite map_size_insert. destruct (m !! k); cbn; unfold id; lia. Qed.

Lemma update_size m k v w : m !! k = Some v -> size (<[k := w]> m) = size m.
Proof. intros Hk. by rewrite map_size_insert_Some. Qed.

End TableFacts.

(** ** Sessions *)

Section SessionFacts.
Import Session.
Context `{!HashOrder FlowKey TunSession} `{!HashOrderLaws FlowKey TunSession}.
Implicit Types (t : TunSessionTable).

Definition table_ok t : Prop :=
  (1 <= max_sessions t)%nat /\ (size (sessions t) <= max_sessions t)%nat /\
  forall k s, sessions t !! k = Some s -> flow s = k.

Inductive op := Observe (p : IpPacket) (now : Z) | Expire (now timeout : Z) | Clear.

Definition step t (o : op) : TunSessionTable :=
  match o with
  | Observe p now => fst (observe_packet t p now)
  | Expire now timeout => fst (remove_expired t now timeout)
  | Clear => fst (clear_for_network_change t)
  end.

(** What tracking the flow [f] does to the table. *)
Definition tracked t t' (f : FlowKey) (now : Z) : Prop :=
  sessions t' = <[f := mkSession f now]> (sessions t) \/
  (size (sessions t) = max_sessions t /\ sessions t !! f = None /\
   exists k s, sessions t !! k = Some s /\
     (forall k' s', sessions t !! k' = Some s' -> last_seen s <= last_seen s') /\
     sessions t' = <[f := mkSession f now]> (delete k (sessions t))).

Lemma observe_spec t p now f :
  table_ok t -> from_packet p = Some f ->
  let '(t', r) := observe_packet t p now in
  r = Some (mkSession f now) /\ tracked t t' f now /\ max_sessions t' = max_sessions t.
Proof.
  intros (Hmax & Hsz & Hfl) Hf. unfold observe_packet. rewrite Hf.
  destruct (sessions t !! f) as [s|] eqn:Es.
  { rewrite (Hfl f s Es). split; [done|]. split; [by left|done]. }
  case_match eqn:E; bool_hyps.
  - destruct (drop_oldest_spec last_seen (sessions t)) as (k & v & Hk & Hd & Hmin).
    { intros He. rewrite He, map_size_empty in E. lia. }
    unfold evict_oldest. cbn [sessions max_sessions]. rewrite Hd.
    rewrite lookup_delete_ne by congruence. rewrite Es. cbn. split; [done|]. split; [|done].
    right. split; [lia|]. split; [done|]. exists k, v. done.
  - rewrite Es. cbn. split; [done|]. split; [by left|done].
Qed.


Lemma observe_ok t p now : table_ok t -> table_ok (fst (observe_packet t p now)).
Proof.
  intros Ht. pose proof Ht as (Hmax & Hsz & Hfl). unfold observe_packet.
  destruct (from_packet p) as [f|]; [|done]. destruct (sessions t !! f) as [s|] eqn:Es.
  - split; [done|]. cbn. rewrite (update_size _ _ s) by done. split; [done|].
    intros k s' Hk. apply lookup_insert_Some in Hk as [[<- <-]|[_ Hk]]; [|by apply Hfl]. exact (Hfl f s Es).
  - set (t1 := if (max_sessions t <=? size (sessions t))%nat then evict_oldest t else t).
    assert (H1 : sessions t1 = make_room last_seen (max_sessions t) (sessions t) /\ max_sessions t1 = max_sessions t).
    { unfold t1, make_room. by case_match. }
    destruct H1 as [H1 H2]. split; [cbn; lia|]. cbn. rewrite H1, H2. split.
    + by apply insert_size, make_room_size.
    + intros k s' Hk. destruct (make_room last_seen _ _ !! f) as [s|] eqn:Ef.
      { apply make_room_sub in Ef. congruence. }
      cbn in Hk. apply lookup_insert_Some in Hk as [[<- <-]|[_ Hk]]; [done|].
      apply make_room_sub in Hk. by apply Hfl.
Qed.

Lemma step_ok t o : table_ok t -> table_ok (step t o).
Proof.
  intros Ht. destruct o as [p now|now timeout|]; cbn; [by apply observe_ok| |].
  - destruct Ht as (Hmax & Hsz & Hfl). split; [done|]. cbn. split.
    + pose proof (retain_recent_size last_seen (sessions t) now timeout). lia.
    + intros k s Hk. apply retain_recent_lookup in Hk as [Hk _]. by apply Hfl.
  - destruct Ht as (Hmax & _). split; [done|]. cbn. split; [rewrite map_size_empty; lia|].
    intros k s Hk. by rewrite lookup_empty in Hk.
Qed.

Lemma session_reachable_ok n ops : table_ok (foldl step (with_max_sessions n) ops).
Proof.
  assert (H0 : table_ok (with_max_sessions n)).
  { split; [cbn; lia|]. split; [cbn; rewrite map_size_empty; lia|]. intros k s Hk. cbn in Hk. by rewrite lookup_empty in Hk. }
  revert H0. generalize (with_max_sessions n). induction ops as [|o ops IH]; intros t Ht; [done|].
  cbn. by apply IH, step_ok.
Qed.

(** A response determines its flow. *)
Lemma matches_response_inv k p :
  matches_response k p = true ->
  k = mkFlow (mkSocketAddr (dst p) (dst_port p)) (mkSocketAddr (src p) (src_port p)) (protocol p).
Proof.
  unfold matches_response. intros H. bool_hyps. destruct k as [[ci cp] [ri rp] pr]. cbn in *. congruence.
Qed.

Lemma find_response_unique t p k :
  sessions t !! k <> None -> matches_response k p = true -> find_response_flow t p = Some k.
Proof.
  intros Hk Hm. unfold find_response_flow.
  destruct (list_find _ (fst <$> hash_iter (sessions t))) as [[i k']|] eqn:E.
  - apply list_find_Some in E as (_ & Hk' & _). apply matches_response_inv in Hk', Hm. cbn. congruence.
  - apply list_find_None in E. rewrite Forall_forall in E. exfalso.
    destruct (sessions t !! k) as [s|] eqn:Es; [|done]. apply (E k); [|done].
    apply list_elem_of_fmap. exists (k, s). split; [done|]. by apply hash_iter_elem.
Qed.

End SessionFacts.

(** ** UDP NAT *)

Section NatFacts.
Import UdpNat.
Context `{!HashOrder nat_key NatEntry} `{!HashOrderLaws nat_key NatEntry}.
Implicit Types (t : UdpNatTable).

Inductive event :=
| Forward (p : IpPacket) (raw : bytes) (now now' : Z) (created : option Z) (sent : bool)
| EvictIdle (now : Z)
| NetworkChange.

(** Effects, each with the flow of the packet that caused it. *)
Definition run_event t (e : event) : UdpNatTable * list (nat_key * NatEffect) :=
  match e with
  | Forward p raw now now' created sent =>
      let '(t, log, _) := forward t p raw now now' created sent in (t, (fun x => (key_of p, x)) <$> log)
  | EvictIdle now => (fst (evict_idle t now), [])
  | NetworkChange => (fst (clear_for_network_change t), [])
  end.

Fixpoint run t (es : list event) : UdpNatTable * list (nat_key * NatEffect) :=
  match es with
  | [] => (t, [])
  | e :: es => let '(t, log) := run_event t e in let '(t, log') := run t es in (t, log ++ log')
  end.

(** The sockets that the system hands out. *)
Definition created_sockets (es : list event) : list Z :=
  omap (fun e => match e with Forward _ _ _ _ c _ => c | _ => None end) es.

Definition spawned (log : list (nat_key * NatEffect)) : list (Z * nat_key) :=
  omap (fun x => match x.2 with SpawnReader s c r => Some (s, (c, r)) | SendTo _ _ => None end) log.

(** Every entry's socket has a reader for that flow. *)
Definition nat_ok t (readers : list (Z * nat_key)) : Prop :=
  (1 <= max_entries t)%nat /\ (size (entries t) <= max_entries t)%nat /\
  forall k e, entries t !! k = Some e -> (socket e, k) ∈ readers.

(** Effects of one flow's packet: at most one reader, and sends through a socket
    whose reader belongs to that flow. *)
Definition effects_ok (readers : list (Z * nat_key)) (key : nat_key) (created : option Z)
    (log : list NatEffect) : Prop :=
  exists opened, spawned ((fun x => (key, x)) <$> log) = opened /\
    (opened = [] \/ exists s, created = Some s /\ opened = [(s, key)]) /\
    forall s body, SendTo s body ∈ log -> (s, key) ∈ readers ++ opened.

Lemma nat_ok_weaken t r1 r2 : nat_ok t r1 -> nat_ok t (r1 ++ r2).
Proof. intros (H1 & H2 & H3). split; [done|]. split; [done|]. intros k e Hk. apply elem_of_app. left. eauto. Qed.

Lemma nat_ok_sub t m readers :
  nat_ok t readers -> (size m <= max_entries t)%nat ->
  (forall k e, m !! k = Some e -> entries t !! k = Some e) -> nat_ok (with_entries t m) readers.
Proof. intros (H1 & H2 & H3) Hm Hs. split; [done|]. split; [done|]. cbn. eauto. Qed.

Lemma evict_idle_ok t readers now : nat_ok t readers -> nat_ok (fst (evict_idle t now)) readers.
Proof.
  intros Ht. apply nat_ok_sub; [done| |].
  - destruct Ht as (_ & H & _). pose proof (retain_recent_size last_seen (entries t) now (idle_timeout t)). lia.
  - intros k e Hk. by apply retain_recent_lookup in Hk as [Hk _].
Qed.

Lemma send_flow_spec t readers key p raw now sent :
  nat_ok t readers -> is_Some (entries t !! key) ->
  let '(t', log, r) := send_flow t key p raw now sent in
  nat_ok t' readers /\ spawned ((fun x => (key, x)) <$> log) = [] /\
  (forall s body, SendTo s body ∈ log -> (s, key) ∈ readers) /\
  r <> Err "UDP NAT: flow table full"%string /\ r <> Err "UDP NAT: entry disappeared before send"%string.
Proof.
  intros (H1 & H2 & H3) [e He]. unfold send_flow. rewrite He.
  assert (Hok : nat_ok (with_entries t (<[key:=mkEntry (socket e) now]> (entries t))) readers).
  { split; [done|]. cbn. rewrite (update_size _ _ e) by done. split; [done|]. intros k e' Hk.
    apply lookup_insert_Some in Hk as [[<- <-]|[_ Hk]]; [exact (H3 _ _ He)|exact (H3 _ _ Hk)]. }
  destruct (payload p raw) as [body|];
    [|split; [done|]; split; [done|]; split; [by intros ? ? ?%elem_of_nil|done]].
  split; [done|]. split; [done|]. split; [|by destruct sent].
  intros s body' Hin. apply list_elem_of_singleton in Hin as [= -> ->]. exact (H3 _ _ He).
Qed.

Lemma open_flow_spec t readers key now now' created :
  nat_ok t readers ->
  let '(t', log, r) := open_flow t key now now' created in
  exists opened, spawned ((fun x => (key, x)) <$> log) = opened /\ nat_ok t' (readers ++ opened) /\
    (opened = [] \/ exists s, created = Some s /\ opened = [(s, key)]) /\
    (forall s body, SendTo s body ∉ log) /\
    (r = Ok tt -> is_Some (entries t' !! key)) /\ r <> Panic /\
    r <> Err "UDP NAT: flow table full"%string /\ r <> Err "UDP NAT: entry disappeared before send"%string.
Proof.
  intros Ht. unfold open_flow. pose proof (evict_idle_ok t readers now' Ht) as H0.
  set (t0 := fst (evict_idle t now')) in *. clearbody t0.
  set (t1 := if (max_entries t0 <=? size (entries t0))%nat then evict_oldest t0 else t0).
  assert (H1 : t1 = with_entries t0 (make_room last_seen (max_entries t0) (entries t0))).
  { unfold t1, make_room, evict_oldest. case_match; [done|]. by destruct t0. }
  pose proof H0 as (Ha & Hb & Hc). clearbody t1. subst t1.
  pose proof (make_room_size last_seen (max_entries t0) (entries t0) Ha Hb) as Hroom.
  cbn [max_entries entries with_entries]. rewrite (proj2 (Nat.leb_gt _ _)) by done.
  assert (Hok : nat_ok (with_entries t0 (make_room last_seen (max_entries t0) (entries t0))) readers).
  { apply nat_ok_sub; [done|lia|]. apply make_room_sub. }
  destruct created as [s|].
  - exists [(s, key)]. destruct key as [c r]. split; [done|]. split; [|split; [eauto|]].
    + split; [done|]. split; [by apply insert_size|]. intros k e Hk. cbn in Hk.
      apply lookup_insert_Some in Hk as [[<- <-]|[_ Hk]]; apply elem_of_app; [right; by left|left].
      by apply (proj2 (proj2 Hok)).
    + split; [by intros s' body [=]%list_elem_of_singleton|]. split; [|done]. intros _. cbn.
      rewrite lookup_insert_eq. eauto.
  - exists []. rewrite app_nil_r. split; [done|]. split; [done|]. split; [by left|].
    split; [by intros s body ?%elem_of_nil|]. done.
Qed.

Lemma forward_spec t readers p raw now now' created sent :
  nat_ok t readers ->
  let '(t', log, r) := forward t p raw now now' created sent in
  effects_ok readers (key_of p) created log /\
  nat_ok t' (readers ++ spawned ((fun x => (key_of p, x)) <$> log)) /\
  r <> Err "UDP NAT: flow table full"%string /\ r <> Err "UDP NAT: entry disappeared before send"%string.
Proof.
  intros Ht. unfold forward. destruct (entries t !! key_of p) as [e|] eqn:Ek.
  - pose proof (send_flow_spec t readers (key_of p) p raw now sent Ht ltac:(eauto)) as Hs.
    destruct (send_flow _ _ _ _ _ _) as [[t' log] r]. destruct Hs as (H1 & H2 & H3 & H4).
    split; [exists []; rewrite app_nil_r; eauto|]. split; [|done]. rewrite H2. by apply nat_ok_weaken.
  - pose proof (open_flow_spec t readers (key_of p) now now' created Ht) as Ho.
    destruct (open_flow _ _ _ _ _) as [[t1 log] r]. destruct Ho as (opened & H1 & H2 & H3 & H4 & H5 & H6 & H7).
    destruct r as [[]|err|]; [|split; [|split]|done].
    + pose proof (send_flow_spec t1 _ (key_of p) p raw now sent H2 (H5 eq_refl)) as Hs.
      destruct (send_flow _ _ _ _ _ _) as [[t' log'] r']. destruct Hs as (S1 & S2 & S3 & S4).
      assert (Hsp : spawned ((fun x => (key_of p, x)) <$> (log ++ log')) = opened).
      { rewrite fmap_app. unfold spawned in *. by rewrite omap_app, H1, S2, app_nil_r. }
      split; [|split; [by rewrite Hsp|done]]. exists opened. split; [done|]. split; [done|].
      intros s body Hin. apply elem_of_app in Hin as [Hin|Hin]; [by destruct (H4 s body)|eauto].
    + exists opened. split; [done|]. split; [done|]. intros s body Hin. by destruct (H4 s body).
    + by rewrite H1.
    + done.
Qed.

Lemma forward_max t p raw now now' created sent :
  max_entries (fst (fst (forward t p raw now now' created sent))) = max_entries t.
Proof.
  unfold forward, open_flow, send_flow, evict_idle, evict_oldest.
  repeat (case_match || cbn [fst with_entries max_entries] in * || simplify_eq/=); done.
Qed.

(** One event: the same for its own log. *)
Lemma run_event_spec t readers e :
  nat_ok t readers ->
  let '(t', log) := run_event t e in
  nat_ok t' (readers ++ spawned log) /\ (spawned log).*1 `sublist_of` created_sockets [e] /\
  (forall key s body, (key, SendTo s body) ∈ log -> (s, key) ∈ readers ++ spawned log) /\
  max_entries t' = max_entries t.
Proof.
  intros Ht. destruct e as [p raw now now' created sent|now|]; cbn [run_event].
  - pose proof (forward_spec t readers p raw now now' created sent Ht) as Hf.
    pose proof (forward_max t p raw now now' created sent) as Hm.
    destruct (forward _ _ _ _ _ _ _) as [[t' log] r]. destruct Hf as ((opened & H1 & H2 & H3) & H4 & _).
    split; [done|]. split; [|split; [|exact Hm]].
    + rewrite H1. destruct H2 as [->|(s & -> & ->)]; [apply sublist_nil_l|done].
    + intros key s body Hin. apply list_elem_of_fmap in Hin as (x & [= -> <-] & Hx). rewrite H1. eauto.
  - cbn. rewrite app_nil_r. split; [by apply evict_idle_ok|]. split; [done|].
    split; [by intros ? ? ? ?%elem_of_nil|done].
  - cbn. rewrite app_nil_r. split.
    + apply nat_ok_sub; [done|rewrite map_size_empty; lia|]. intros k e Hk. by rewrite lookup_empty in Hk.
    + split; [done|]. split; [by intros ? ? ? ?%elem_of_nil|done].
Qed.

(** Isolation, as an invariant of runs: the readers started are among the sockets
    created, and a send is through a socket whose reader serves the same flow. *)
Lemma run_spec t readers es :
  nat_ok t readers ->
  let '(t', log) := run t es in
  nat_ok t' (readers ++ spawned log) /\ (spawned log).*1 `sublist_of` created_sockets es /\
  (forall key s body, (key, SendTo s body) ∈ log -> (s, key) ∈ readers ++ spawned log) /\
  max_entries t' = max_entries t.
Proof.
  revert t readers. induction es as [|e es IH]; intros t readers Ht; cbn [run].
  { cbn. rewrite app_nil_r. split; [done|]. split; [done|]. split; [by intros ? ? ? ?%elem_of_nil|done]. }
  pose proof (run_event_spec t readers e Ht) as He. destruct (run_event t e) as [t1 log1].
  destruct He as (H1 & H2 & H3 & H4). pose proof (IH t1 _ H1) as Hr. destruct (run t1 es) as [t2 log2].
  destruct Hr as (R1 & R2 & R3 & R4).
  assert (Hsp : spawned (log1 ++ log2) = spawned log1 ++ spawned log2) by apply omap_app.
  assert (Hcs : created_sockets (e :: es) = created_sockets [e] ++ created_sockets es).
  { unfold created_sockets. by rewrite <- omap_app. }
  rewrite Hsp, Hcs, fmap_app, app_assoc. split; [done|]. split; [by apply sublist_app|].
  split; [|congruence]. intros key s body Hin. apply elem_of_app in Hin as [Hin|Hin]; [|eauto].
  apply elem_of_app. left. eauto.
Qed.

Lemma spawned_elem log s c r : (s, (c, r)) ∈ spawned log <-> exists k, (k, SpawnReader s c r) ∈ log.
Proof.
  unfold spawned. rewrite list_elem_of_omap. split.
  - intros ([k x] & Hin & Hx). cbn in Hx. destruct x; [|done]. injection Hx as -> -> ->. eauto.
  - intros [k Hin]. exists (k, SpawnReader s c r). done.
Qed.

Lemma assoc_unique {A B} (l : list (A * B)) a b b' :
  NoDup l.*1 -> (a, b) ∈ l -> (a, b') ∈ l -> b = b'.
Proof.
  intros Hnd Hb Hb'. apply list_elem_of_lookup in Hb as [i Hi], Hb' as [j Hj].
  assert (i = j) as ->; [|congruence].
  eapply NoDup_lookup; [exact Hnd| |]; rewrite list_lookup_fmap; [by rewrite Hi|by rewrite Hj].
Qed.

Lemma new_ok mark timeout n : nat_ok (new mark timeout n) [].
Proof.
  split; [cbn; lia|]. split; [cbn; rewrite map_size_empty; lia|]. intros k e Hk. cbn in Hk.
  by rewrite lookup_empty in Hk.
Qed.

End NatFacts.

(** ** Properties *)

Lemma reply_matches (p : IpPacket) (reply out : bytes) :
  protocol p = PUdp -> ip_ok (src p) -> ip_ok (dst p) -> in_u16 (src_port p) -> in_u16 (dst_port p) ->
  UdpNat.build_response_packet (UdpNat.key_of p).1 (UdpNat.key_of p).2 reply = Ok out ->
  exists p' f, parse_ip_packet out = Ok p' /\ payload p' out = Some reply /\
    Session.from_packet p = Some f /\ Session.matches_response f p' = true.
Proof.
  intros Hp Hs Hd Hsp Hdp Hb. unfold UdpNat.build_response_packet in Hb.
  pose proof (fun a b c d => udp_reply_parses _ reply out a b c d Hb) as H.
  destruct (H Hs Hd Hsp Hdp) as (p' & H1 & H2 & H3 & H4 & H5 & H6 & H7).
  exists p'. unfold Session.from_packet. rewrite Hp. eexists. split; [done|]. split; [done|]. split; [done|].
  unfold Session.matches_response. cbn in *. rewrite H2, H3, H4, H5, H6, !Z.eqb_refl.
  by rewrite !bool_decide_eq_true_2.
Qed.

Section Claims.
Context `{!HashOrder Session.FlowKey Session.TunSession} `{!HashOrderLaws Session.FlowKey Session.TunSession}.
Context `{!HashOrder UdpNat.nat_key UdpNat.NatEntry} `{!HashOrderLaws UdpNat.nat_key UdpNat.NatEntry}.

Lemma step_max t o : Session.max_sessions (step t o) = Session.max_sessions t.
Proof.
  destruct o; cbn; [|done|done]. unfold Session.observe_packet. by repeat case_match.
Qed.

Lemma reachable_max n ops : Session.max_sessions (foldl step (Session.with_max_sessions n) ops) = Nat.max n 1.
Proof.
  change (Nat.max n 1) with (Session.max_sessions (Session.with_max_sessions n)).
  generalize (Session.with_max_sessions n). induction ops as [|o ops IH]; intros t; [done|].
  cbn. by rewrite IH, step_max.
Qed.

(** The TUN session table, after any sequence of packets, expiry rounds and
    network changes: it never exceeds its cap; a TCP or UDP packet leaves its flow
    tracked with the packet's time, and costs another flow its entry only when the
    table is full and the flow new, the victim being a least recently seen one;
    and a packet is attributed to a tracked flow exactly when it is that flow's
    response. *)
Theorem tun_sessions_track (n : nat) (ops : list op) :
  let t := foldl step (Session.with_max_sessions n) ops in
  (Session.len t <= Nat.max n 1)%nat /\
  (forall p now f, Session.from_packet p = Some f ->
     let '(t', r) := Session.observe_packet t p now in
     r = Some (Session.mkSession f now) /\ tracked t t' f now) /\
  (forall p k, Session.find_response_flow t p = Some k <->
     is_Some (Session.sessions t !! k) /\ Session.matches_response k p = true).
Proof.
  intros t. pose proof (session_reachable_ok n ops) as Hok. pose proof (reachable_max n ops) as Hmax. fold t in Hok, Hmax.
  split; [|split].
  - rewrite <- Hmax. apply Hok.
  - intros p now f Hf. pose proof (observe_spec t p now f Hok Hf) as H.
    destruct (Session.observe_packet t p now). tauto.
  - intros p k. split.
    + unfold Session.find_response_flow. intros H. apply fmap_Some in H as ([i k'] & Hl & ->).
      apply list_find_Some in Hl as (Hl & Hm & _). split; [|done]. apply list_elem_of_lookup_2 in Hl.
      apply list_elem_of_fmap in Hl as ([k s] & -> & Hin). apply hash_iter_elem in Hin. eauto.
    + intros [Hs Hm]. apply find_response_unique; [|done]. by apply not_eq_None_Some.
Qed.

(** C36. The UDP NAT, after any sequence of packets, idle evictions and network
    changes, with sockets that are distinct objects: the table never exceeds its
    cap and never reports itself full; every datagram is sent through a socket
    whose reply reader serves exactly the flow of the packet, so no reply can
    reach another flow's client; and the packet built from a reply parses back
    with the reply as payload and is recognised as the response of that flow. *)
Theorem tun_nat_isolation (mark timeout : Z) (n : nat) (es : list event) :
  NoDup (created_sockets es) ->
  let '(t, log) := run (UdpNat.new mark timeout n) es in
  (UdpNat.len t <= Nat.max n 1)%nat /\
  (forall p raw now now' created sent,
     (UdpNat.forward t p raw now now' created sent).2 <> Err "UDP NAT: flow table full"%string) /\
  (forall key s body, (key, UdpNat.SendTo s body) ∈ log ->
     (exists k, (k, UdpNat.SpawnReader s key.1 key.2) ∈ log) /\
     forall k c r, (k, UdpNat.SpawnReader s c r) ∈ log -> (c, r) = key) /\
  (forall p reply out, protocol p = PUdp -> ip_ok (src p) -> ip_ok (dst p) ->
     in_u16 (src_port p) -> in_u16 (dst_port p) ->
     UdpNat.build_response_packet (UdpNat.key_of p).1 (UdpNat.key_of p).2 reply = Ok out ->
     exists p' f, parse_ip_packet out = Ok p' /\ payload p' out = Some reply /\
       Session.from_packet p = Some f /\ Session.matches_response f p' = true).
Proof.
  intros Hnd. pose proof (run_spec (UdpNat.new mark timeout n) [] es (new_ok mark timeout n)) as Hr.
  destruct (run _ es) as [t log]. destruct Hr as (Hok & Hsub & Hsend & Hmax). cbn [app] in *.
  split; [|split; [|split; [|exact reply_matches]]].
  - change (Nat.max n 1) with (UdpNat.max_entries (UdpNat.new mark timeout n)). rewrite <- Hmax. apply Hok.
  - intros p raw now now' created sent.
    pose proof (forward_spec t _ p raw now now' created sent Hok) as Hf.
    destruct (UdpNat.forward _ _ _ _ _ _ _) as [[t' log'] r]. cbn. tauto.
  - intros [c r] s body Hin. apply Hsend in Hin. split; [by apply spawned_elem|].
    intros k c' r' Hk. assert (Hin' : (s, (c', r')) ∈ spawned log) by (apply spawned_elem; eauto).
    exact (assoc_unique (spawned log) s (c', r') (c, r) (sublist_NoDup _ _ Hnd Hsub) Hin' Hin).
Qed.

End Claims.

(** A UDP packet from 10.0.0.2:5353 to 8.8.8.8:53. *)
Definition example_raw : bytes :=
  match build_ipv4_udp_packet [10; 0; 0; 2] [8; 8; 8; 8] 5353 53 (str "hi") with Ok b => b | _ => [] end.

Definition example_packet : IpPacket :=
  mkPacket (V4 [10; 0; 0; 2]) (V4 [8; 8; 8; 8]) 5353 53 PUdp 20 28 20 2 None None None.

Definition example_flow : Session.FlowKey :=
  Session.mkFlow (mkSocketAddr (V4 [10; 0; 0; 2]) 5353) (mkSocketAddr (V4 [8; 8; 8; 8]) 53) PUdp.

Lemma tun_sessions_track_witness :
  let t := foldl (@step plain_order) (Session.with_max_sessions 1) [Observe example_packet 5] in
  Session.len t = 1%nat /\
  @Session.observe_packet plain_order t example_packet 9 =
    (fst (@Session.observe_packet plain_order t example_packet 9),
     Some (Session.mkSession example_flow 9)).
Proof.
  pose proof (@tun_sessions_track plain_order plain_order_laws 1 [Observe example_packet 5]) as H.
  cbv zeta in *. destruct H as (_ & H2 & _). split; [vm_compute; reflexivity|].
  specialize (H2 example_packet 9 example_flow eq_refl).
  destruct (@Session.observe_packet plain_order _ _ _) as [t' r]. destruct H2 as [-> _]. reflexivity.
Defined.

Lemma tun_nat_isolation_witness :
  let r := @run plain_order (UdpNat.new 0 60 4)
    [Forward example_packet example_raw 1 1 (Some 7) true; Forward example_packet example_raw 2 2 None true] in
  (UdpNat.key_of example_packet, UdpNat.SendTo 7 (str "hi")) ∈ r.2 /\
  forall k c d, (k, UdpNat.SpawnReader 7 c d) ∈ r.2 -> (c, d) = UdpNat.key_of example_packet.
Proof.
  pose proof (@tun_nat_isolation plain_order plain_order_laws 0 60 4
    [Forward example_packet example_raw 1 1 (Some 7) true; Forward example_packet example_raw 2 2 None true]) as H.
  cbv zeta. destruct (@run plain_order _ _) as [t log] eqn:E.
  assert (Hin : (UdpNat.key_of example_packet, UdpNat.SendTo 7 (str "hi")) ∈ log).
  { vm_compute in E. injection E as _ <-. vm_compute. do 2 constructor. }
  split; [exact Hin|]. destruct H as (_ & _ & H & _).
  - apply NoDup_singleton.
  - exact (proj2 (H _ _ _ Hin)).
Defined.
