(* ===== verification/Balancer.v ===== *)
(** * Balancer and health checker

    Models [crates/blackwire-app/src/balancer.rs] and the state transitions of
    [health.rs].

    The health table is shared: each scan of it by the balancer reads one
    snapshot, and two scans of one pick may read different ones.  [f64] is the
    class [Float64] of the operations that the scores use, without laws, so the
    theorems hold whatever the scores are.  A probe's and a connection's outcome
    are inputs; the probe exchange itself, metrics and logging are not modelled. *)

From S2P Require Import Prelude Common IpText.

(** ** Health ([health.rs]) *)

Module Health.

Definition U64_MAX : Z := 2 ^ 64 - 1.

Record OutboundState := mkState {
  alive : bool;
  latency_ms : Z;
  consecutive_failures : Z;
  last_check : Z
}.

(** [OutboundState::default()] at the instant [now]. *)
Definition default_state (now : Z) : OutboundState := mkState true U64_MAX 0 now.

Abbreviation HealthStates := (gmap bytes OutboundState).

(** The table that [HealthChecker::new] fills. *)
Definition initial_states (tags : list bytes) (now : Z) : HealthStates :=
  foldl (fun m t => <[t := default_state now]> m) ∅ tags.

(** [HealthChecker::probe]: [success] is the outcome of the exchange, [elapsed] its
    duration in milliseconds, [now] the instant it ended. *)
Definition probe (max_failures : Z) (states : HealthStates) (tag : bytes)
    (success : bool) (now elapsed : Z) : HealthStates :=
  let e := default (default_state now) (states !! tag) in
  let e :=
    if success then mkState true (as_u64 elapsed) 0 now
    else
      let failures := as_u32 (consecutive_failures e + 1) in
      mkState (if (max_failures <=? failures) && alive e then false else alive e)
        (latency_ms e) failures now in
  <[tag := e]> states.

(** The probe URL: [HealthProbe::parse] and [parse_authority]. *)
Record HealthProbe := mkProbe { dest : Address; request : bytes }.

Definition parse_port (port : bytes) : res ProxyError Z :=
  of_option (Protocol "invalid health check URL port") (parse_u16 port).

Definition parse_authority (authority : bytes) : res ProxyError (bytes * Z) :=
  match strip_prefix 91 authority with
  | Some host =>
      '(host, rest) ← of_option (Protocol "health check IPv6 host is missing closing ']'") (split_once 93 host);
      p ← match strip_prefix 58 rest with
          | Some port => parse_port port
          | None => if (length rest =? 0)%nat then Ok 80
                    else Err (Protocol "invalid health check IPv6 authority")
          end;
      Ok (host, p)
  | None =>
      match rsplit_once 58 authority with
      | Some (host, port) =>
          if bool_decide (58 ∈ host) then Err (Protocol "IPv6 health check hosts must use brackets")
          else p ← parse_port port; Ok (host, p)
      | None => Ok (authority, 80)
      end
  end.

Fixpoint strip_literal (lit s : bytes) : option bytes :=
  match lit, s with
  | [], _ => Some s
  | x :: lit', y :: s' => if x =? y then strip_literal lit' s' else None
  | _ :: _, [] => None
  end.

Definition HealthProbe_parse (url : bytes) : res ProxyError HealthProbe :=
  rest ← of_option (Protocol "health check only supports http:// URLs") (strip_literal (str "http://") url);
  let '(authority, path) := default (rest, []) (split_once 47 rest) in
  if (length authority =? 0)%nat then Err (Protocol "health check URL is missing a host") else
  '(host, p) ← parse_authority authority;
  let host_header := if p =? 80 then host else host ++ [58] ++ show_dec p in
  Ok (mkProbe (Domain host p)
        (str "GET " ++ ([47] ++ path) ++ str " HTTP/1.1" ++ [13; 10] ++ str "Host: " ++ host_header ++
         [13; 10] ++ str "Connection: close" ++ [13; 10; 13; 10])).

End Health.

(** ** [f64], as the operations that the scores use *)

Class Float64 (F : Type) := {
  f_of_Z : Z -> F;
  f_ratio : Z -> Z -> F;  (** a literal such as 0.50 *)
  f_add : F -> F -> F;
  f_sub : F -> F -> F;
  f_mul : F -> F -> F;
  f_div : F -> F -> F;
  f_clamp : F -> F -> F -> F;
  f_lt : F -> F -> bool;
  f_ge : F -> F -> bool;
  f_finite : F -> bool
}.

(** ** Balancer ([balancer.rs]) *)

Module Balancer.
Import Health.

Definition NANOS : Z := 10 ^ 9.

Inductive Strategy := Latency | RoundRobin | Random | Adaptive.

#[export] Instance Strategy_eq_dec : EqDecision Strategy.
Proof. solve_decision. Defined.

Definition strategy_from (s : bytes) : Strategy :=
  if decide (s = str "roundRobin") then RoundRobin
  else if decide (s = str "random") then Random
  else if decide (s = str "adaptive") then Adaptive
  else Latency.

Record BalancerMember := mkMember { profile : bytes; outbound_tag : bytes }.

Section Balancer.
Context {F : Type} `{Float64 F}.

Record AdaptiveState := mkAdaptive {
  attempts : Z;
  successes : Z;
  connect_failures : Z;
  ewma_latency_ms : option F;
  last_selected : option Z;
  cooldown_until : option Z
}.

Definition AdaptiveState_new : AdaptiveState := mkAdaptive 0 0 0 None None None.

Definition success_rate (s : AdaptiveState) : F :=
  if attempts s =? 0 then f_ratio 1 1 else f_div (f_of_Z (successes s)) (f_of_Z (attempts s)).

Definition is_in_cooldown (s : AdaptiveState) (now : Z) : bool :=
  match cooldown_until s with Some until => now <? until | None => false end.

Record AdaptiveConfig := mkConfig {
  failure_threshold : Z;
  cooldown_secs : Z;
  ewma_alpha : F;
  switch_margin : F
}.

Record Balancer := mkBalancer {
  tag : bytes;
  members : list BalancerMember;
  strategy : Strategy;
  adaptive_config : AdaptiveConfig;
  adaptive_members : list AdaptiveState;
  current : option nat;
  rr_counter : Z
}.

(** [Balancer::new]; [profiles] are the (name, outbound tag) pairs of the
    configuration. *)
Definition Balancer_new (t : bytes) (strat : bytes) (cfg : AdaptiveConfig)
    (profiles : list (bytes * bytes)) (outbounds : list bytes) : Balancer :=
  let ms := (fun o => mkMember
      (default o (fst <$> (snd <$> list_find (fun p => p.2 = o) profiles))) o) <$> outbounds in
  mkBalancer t ms (strategy_from strat) cfg (replicate (length ms) AdaptiveState_new) None 0.

Definition with_counter (b : Balancer) (c : Z) : Balancer :=
  mkBalancer (tag b) (members b) (strategy b) (adaptive_config b) (adaptive_members b) (current b) c.

Definition with_adaptive (b : Balancer) (l : list AdaptiveState) (cur : option nat) : Balancer :=
  mkBalancer (tag b) (members b) (strategy b) (adaptive_config b) l cur (rr_counter b).

Definition first_member_index (b : Balancer) : option nat :=
  match members b with [] => None | _ => Some 0%nat end.

Definition is_alive (st : HealthStates) (t : bytes) : bool :=
  match st !! t with Some s => alive s | None => true end.

Definition alive_count (b : Balancer) (st : HealthStates) : Z :=
  Z.of_nat (length (List.filter (fun m => is_alive st (outbound_tag m)) (members b))).

(** [nth_alive_index]: [i] is the member's position, [idx] the alive ones seen. *)
Fixpoint nth_alive (ms : list BalancerMember) (st : HealthStates) (i : nat) (idx n : Z) : option nat :=
  match ms with
  | [] => None
  | m :: ms' =>
      if negb (is_alive st (outbound_tag m)) then nth_alive ms' st (S i) idx n
      else if idx =? n then Some i
      else nth_alive ms' st (S i) (idx + 1) n
  end.

Definition nth_alive_index (b : Balancer) (st : HealthStates) (n : Z) : option nat :=
  nth_alive (members b) st 0 0 n.

Definition latency_of (st : HealthStates) (t : bytes) : Z :=
  match st !! t with Some s => latency_ms s | None => U64_MAX end.

Fixpoint best_latency (ms : list BalancerMember) (st : HealthStates) (i : nat) (best : option (Z * nat))
    : option (Z * nat) :=
  match ms with
  | [] => best
  | m :: ms' =>
      if negb (is_alive st (outbound_tag m)) then best_latency ms' st (S i) best
      else
        let latency := latency_of st (outbound_tag m) in
        let better := match best with None => true | Some (l, _) => latency <? l end in
        best_latency ms' st (S i) (if better then Some (latency, i) else best)
  end.

Definition pick_latency_index (b : Balancer) (st : HealthStates) : option nat :=
  match best_latency (members b) st 0 None with
  | Some (_, i) => Some i
  | None => first_member_index b
  end.

(** Probe failures put a profile into cooldown. *)
Fixpoint apply_probe_cooldowns (cfg : AdaptiveConfig) (ms : list BalancerMember) (l : list AdaptiveState)
    (st : HealthStates) (now : Z) : list AdaptiveState :=
  match ms, l with
  | m :: ms', s :: l' =>
      let failures := match st !! outbound_tag m with Some h => consecutive_failures h | None => 0 end in
      (if (failure_threshold cfg <=? failures) && negb (is_in_cooldown s now)
       then mkAdaptive (attempts s) (successes s) (connect_failures s) (ewma_latency_ms s) (last_selected s)
              (Some (now + cooldown_secs cfg * NANOS))
       else s) :: apply_probe_cooldowns cfg ms' l' st now
  | _, _ => l
  end.

Definition adaptive_score (cfg : AdaptiveConfig) (st : HealthStates) (m : BalancerMember) (s : AdaptiveState) : F :=
  let health := st !! outbound_tag m in
  let raw := match ewma_latency_ms s with
             | Some l => Some l
             | None => (fun h => f_of_Z (latency_ms h)) <$> health
             end in
  let latency := match raw with
                 | Some l => if f_finite l && f_lt l (f_of_Z U64_MAX) then l else f_of_Z 5000
                 | None => f_of_Z 5000
                 end in
  let one := f_of_Z 1 in
  let latency_score := f_sub one (f_clamp (f_div latency (f_of_Z 5000)) (f_of_Z 0) one) in
  let health_failures := match health with Some h => consecutive_failures h | None => 0 end in
  let budget := f_of_Z (Z.max (failure_threshold cfg) 1) in
  let stability :=
    f_sub one (f_clamp (f_div (f_of_Z (as_u32 (health_failures + connect_failures s))) budget) (f_of_Z 0) one) in
  f_add (f_add (f_mul (f_ratio 50 100) (success_rate s)) (f_mul (f_ratio 30 100) latency_score))
    (f_mul (f_ratio 20 100) stability).

(** The best profile that is alive and not cooling down. *)
Fixpoint best_available (cfg : AdaptiveConfig) (ms : list BalancerMember) (l : list AdaptiveState)
    (st : HealthStates) (now : Z) (i : nat) (best : option (nat * F)) : option (nat * F) :=
  match ms, l with
  | m :: ms', s :: l' =>
      if negb (is_alive st (outbound_tag m)) || is_in_cooldown s now
      then best_available cfg ms' l' st now (S i) best
      else
        let score := adaptive_score cfg st m s in
        let better := match best with None => true | Some (_, b) => f_lt b score end in
        best_available cfg ms' l' st now (S i) (if better then Some (i, score) else best)
  | _, _ => best
  end.

Definition usable (b : Balancer) (l : list AdaptiveState) (st : HealthStates) (now : Z) (i : nat) : bool :=
  match members b !! i, l !! i with
  | Some m, Some s => is_alive st (outbound_tag m) && negb (is_in_cooldown s now)
  | _, _ => false
  end.

Definition score_at (b : Balancer) (l : list AdaptiveState) (st : HealthStates) (i : nat) : F :=
  match members b !! i, l !! i with
  | Some m, Some s => adaptive_score (adaptive_config b) st m s
  | _, _ => f_of_Z 0
  end.

Definition pick_adaptive_index (b : Balancer) (st : HealthStates) (now : Z) : Balancer * option nat :=
  let l := apply_probe_cooldowns (adaptive_config b) (members b) (adaptive_members b) st now in
  let selected :=
    match best_available (adaptive_config b) (members b) l st now 0 None with
    | Some (best_idx, best_score) =>
        match current b with
        | Some cur =>
            if usable b l st now cur then
              if f_ge (f_add (score_at b l st cur) (switch_margin (adaptive_config b))) best_score
              then cur else best_idx
            else best_idx
        | None => best_idx
        end
    | None => 0%nat
    end in
  match l !! selected with
  | Some s =>
      let s := mkAdaptive (attempts s) (successes s) (connect_failures s) (ewma_latency_ms s) (Some now)
                 (cooldown_until s) in
      (with_adaptive b (<[selected := s]> l) (Some selected),
       if (selected <? length (members b))%nat then Some selected else None)
  | None =>
      (with_adaptive b l (current b),
       if (selected <? length (members b))%nat then Some selected else None)
  end.

(** [pick_member_index]: [st1] is what the counting scan reads, [st2] what the
    selecting scan reads. *)
Definition pick_member_index (b : Balancer) (st1 st2 : HealthStates) (now : Z) : Balancer * option nat :=
  match strategy b with
  | Latency => (b, pick_latency_index b st2)
  | RoundRobin =>
      let alive := alive_count b st1 in
      if alive =? 0 then (b, first_member_index b)
      else
        let slot := rr_counter b mod alive in
        (with_counter b (as_u64 (rr_counter b + 1)), nth_alive_index b st2 slot)
  | Random =>
      let alive := alive_count b st1 in
      if alive =? 0 then (b, first_member_index b)
      else
        let slot := as_u64 (rr_counter b * 11400714819323198485) mod alive in
        (with_counter b (as_u64 (rr_counter b + 1)), nth_alive_index b st2 slot)
  | Adaptive => pick_adaptive_index b st2 now
  end.

(** [elapsed_ms] is [elapsed.as_secs_f64() * 1000.0]; [now] is read on a failure. *)
Definition observe_connect_result (b : Balancer) (i : nat) (elapsed_ms : F) (ok : bool) (now : Z) : Balancer :=
  if decide (strategy b = Adaptive) then
    match members b !! i, adaptive_members b !! i with
    | Some _, Some s =>
        let att := Z.min (attempts s + 1) U64_MAX in
        let s :=
          if ok then
            let alpha := f_clamp (ewma_alpha (adaptive_config b)) (f_ratio 1 100) (f_of_Z 1) in
            let ewma := match ewma_latency_ms s with
                        | Some prev => f_add (f_mul alpha elapsed_ms) (f_mul (f_sub (f_of_Z 1) alpha) prev)
                        | None => elapsed_ms
                        end in
            mkAdaptive att (Z.min (successes s + 1) U64_MAX) 0 (Some ewma) (last_selected s) (cooldown_until s)
          else
            let failures := Z.min (connect_failures s + 1) (2 ^ 32 - 1) in
            mkAdaptive att (successes s) failures (ewma_latency_ms s) (last_selected s)
              (if failure_threshold (adaptive_config b) <=? failures
               then Some (now + cooldown_secs (adaptive_config b) * NANOS) else cooldown_until s) in
        with_adaptive b (<[i := s]> (adaptive_members b)) (current b)
    | _, _ => b
    end
  else b.

(** [connect]: [outbound i] is the member's own result, the duration it took and
    the instant it ended. *)
Definition connect {A : Type} (b : Balancer) (st1 st2 : HealthStates) (now : Z)
    (outbound : nat -> res ProxyError A * F * Z) : Balancer * res ProxyError A :=
  let '(b, picked) := pick_member_index b st1 st2 now in
  match picked with
  | None => (b, Err (Protocol "balancer has no outbounds"))
  | Some i =>
      let '(result, elapsed, now') := outbound i in
      (observe_connect_result b i elapsed (is_ok result) now', result)
  end.

End Balancer.
Arguments AdaptiveState F : clear implicits.
Arguments AdaptiveConfig F : clear implicits.
Arguments Balancer F : clear implicits.
End Balancer.

Import Health Balancer.

Example probe_url_example :
  (dest <$> HealthProbe_parse (str "http://www.gstatic.com/generate_204")) =
    Ok (Domain (str "www.gstatic.com") 80).
Proof. vm_compute. reflexivity. Qed.

(** ** Probe histories *)

(** A probe: tag, outcome, instant, duration. *)
Record ProbeResult := mkResult { p_tag : bytes; p_ok : bool; p_now : Z; p_elapsed : Z }.

Definition run_probes (max_failures : Z) (st : HealthStates) (h : list ProbeResult) : HealthStates :=
  foldl (fun st r => probe max_failures st (p_tag r) (p_ok r) (p_now r) (p_elapsed r)) st h.

(** Failures of [t] since its last success. *)
Definition trailing_failures (t : bytes) (h : list ProbeResult) : Z :=
  foldl (fun n r => if decide (p_tag r = t) then (if p_ok r then 0 else n + 1) else n) 0 h.

Definition healthy (max_failures : Z) (h : list ProbeResult) (t : bytes) : bool :=
  trailing_failures t h <? Z.max max_failures 1.

Lemma trailing_snoc t h r :
  trailing_failures t (h ++ [r]) =
    if decide (p_tag r = t) then (if p_ok r then 0 else trailing_failures t h + 1) else trailing_failures t h.
Proof. unfold trailing_failures. by rewrite foldl_app. Qed.

Lemma trailing_bound t h : 0 <= trailing_failures t h <= zlen h.
Proof.
  induction h as [|r h IH] using rev_ind; [done|]. rewrite trailing_snoc, zlen_app.
  change (zlen [r]) with 1. repeat case_match; lia.
Qed.

(** What the table says of a tag; an unlisted tag has the default state. *)
Definition state_at (st : HealthStates) (t : bytes) : OutboundState := default (default_state 0) (st !! t).

Lemma initial_states_at tags now t :
  consecutive_failures (state_at (initial_states tags now) t) = 0 /\ alive (state_at (initial_states tags now) t) = true.
Proof.
  unfold initial_states.
  assert (H : forall m : HealthStates, consecutive_failures (state_at m t) = 0 /\ alive (state_at m t) = true ->
    let m' := foldl (fun m t => <[t := default_state now]> m) m tags in
    consecutive_failures (state_at m' t) = 0 /\ alive (state_at m' t) = true).
  { induction tags as [|y tags IH]; intros m Hm; [done|]. cbn. apply IH. unfold state_at.
    destruct (decide (y = t)) as [->|Hne]; [by rewrite lookup_insert_eq|by rewrite lookup_insert_ne]. }
  by apply (H ∅).
Qed.

Lemma probe_at max_failures st t r :
  let st' := probe max_failures st (p_tag r) (p_ok r) (p_now r) (p_elapsed r) in
  let failures := as_u32 (consecutive_failures (state_at st t) + 1) in
  consecutive_failures (state_at st' t) =
    (if decide (p_tag r = t) then (if p_ok r then 0 else failures)
     else consecutive_failures (state_at st t)) /\
  alive (state_at st' t) =
    (if decide (p_tag r = t) then
       (if p_ok r then true else if (max_failures <=? failures) && alive (state_at st t) then false
                                 else alive (state_at st t))
     else alive (state_at st t)).
Proof.
  cbv zeta. unfold probe, state_at. destruct (decide (p_tag r = t)) as [<-|Hne].
  - rewrite lookup_insert_eq. destruct (p_ok r); [done|]. by destruct (st !! p_tag r).
  - by rewrite lookup_insert_ne.
Qed.

(** The table after any history: failure counts and liveness. *)
Lemma probe_history max_failures tags now h t :
  zlen h < 2 ^ 32 ->
  let s := state_at (run_probes max_failures (initial_states tags now) h) t in
  consecutive_failures s = trailing_failures t h /\ alive s = healthy max_failures h t.
Proof.
  cbv zeta. revert t. induction h as [|r h IH] using rev_ind; intros t Hl.
  { change (run_probes max_failures ?x []) with x. destruct (initial_states_at tags now t) as [-> ->]. split; [done|]. symmetry. apply Z.ltb_lt. cbn. lia. }
  rewrite zlen_app in Hl. change (zlen [r]) with 1 in Hl. destruct (IH t) as [IH1 IH2]; [lia|].
  unfold run_probes. rewrite foldl_app. cbn [foldl]. fold (run_probes max_failures (initial_states tags now) h).
  destruct (probe_at max_failures (run_probes max_failures (initial_states tags now) h) t r) as [H1 H2].
  cbv zeta in H1, H2.
  rewrite H1, H2, IH1, IH2. unfold healthy. rewrite trailing_snoc. pose proof (trailing_bound t h) as Hb.
  destruct (decide (p_tag r = t)); [|done]. destruct (p_ok r).
  { split; [done|]. symmetry. apply Z.ltb_lt. lia. }
  unfold as_u32. rewrite Z.mod_small by lia. split; [done|].
  destruct (Z.leb_spec max_failures (trailing_failures t h + 1)) as [Hm|Hm];
    destruct (Z.ltb_spec (trailing_failures t h) (Z.max max_failures 1)); cbn [andb];
    symmetry; first [apply Z.ltb_lt | apply Z.ltb_ge]; lia.
Qed.

Lemma is_alive_at st t : is_alive st t = alive (state_at st t).
Proof. unfold is_alive, state_at. by destruct (st !! t). Qed.

(** ** Selection *)

Section Facts.
Context {F : Type} `{Float64 F}.
Implicit Types (b : Balancer F) (st : HealthStates) (ms : list BalancerMember).

(** Positions of the alive members, from position [i] on. *)
Fixpoint alive_from ms st (i : nat) : list nat :=
  match ms with
  | [] => []
  | m :: ms' => if is_alive st (outbound_tag m) then i :: alive_from ms' st (S i) else alive_from ms' st (S i)
  end.

Definition alive_indices b st : list nat := alive_from (members b) st 0.

Lemma alive_from_length ms st i :
  length (alive_from ms st i) = length (List.filter (fun m => is_alive st (outbound_tag m)) ms).
Proof. revert i. induction ms as [|m ms IH]; intros i; [done|]. cbn. case_match; cbn; by rewrite IH. Qed.

Lemma alive_count_indices b st : alive_count b st = zlen (alive_indices b st).
Proof. unfold alive_count, alive_indices, zlen. by rewrite alive_from_length. Qed.

Lemma alive_from_elem ms st i j :
  j ∈ alive_from ms st i <-> exists k m, j = (i + k)%nat /\ ms !! k = Some m /\ is_alive st (outbound_tag m) = true.
Proof.
  revert i. induction ms as [|m ms IH]; intros i; cbn.
  { split; [by intros ?%elem_of_nil|by intros (k & m & _ & Hk & _)]. }
  assert (Htail : j ∈ alive_from ms st (S i) <->
    exists k x, j = (i + S k)%nat /\ ms !! k = Some x /\ is_alive st (outbound_tag x) = true).
  { rewrite IH. split; intros (k & x & -> & Hk); exists k, x; (split; [lia|done]). }
  case_match eqn:E; rewrite ?elem_of_cons, Htail; split.
  - intros [->|(k & x & -> & Hk)]; [exists 0%nat, m; split; [lia|done]|exists (S k), x; done].
  - intros ([|k] & x & -> & Hk & Hx); [left; lia|right; eauto].
  - intros (k & x & -> & Hk). by exists (S k), x.
  - intros ([|k] & x & -> & Hk & Hx); [cbn in Hk; congruence|eauto].
Qed.

Lemma alive_from_ge ms st i j : j ∈ alive_from ms st i -> (i <= j)%nat.
Proof. rewrite alive_from_elem. intros (k & m & -> & _). lia. Qed.

Lemma alive_from_nodup ms st i : NoDup (alive_from ms st i).
Proof.
  revert i. induction ms as [|m ms IH]; intros i; cbn; [constructor|]. case_match; [|done].
  constructor; [|done]. intros Hin. apply alive_from_ge in Hin. lia.
Qed.

Lemma nth_alive_spec ms st i idx n :
  idx <= n -> nth_alive ms st i idx n = alive_from ms st i !! Z.to_nat (n - idx).
Proof.
  revert i idx. induction ms as [|m ms IH]; intros i idx Hn; cbn; [by rewrite lookup_nil|].
  destruct (is_alive st (outbound_tag m)); cbn [negb]; [|by apply IH].
  case_match eqn:E; bool_hyps; [subst; by rewrite Z.sub_diag|]. rewrite IH by lia.
  replace (Z.to_nat (n - idx)) with (S (Z.to_nat (n - (idx + 1)))) by lia. done.
Qed.

Lemma nth_alive_index_spec b st n : 0 <= n -> nth_alive_index b st n = alive_indices b st !! Z.to_nat n.
Proof. intros Hn. unfold nth_alive_index. rewrite nth_alive_spec by done. by rewrite Z.sub_0_r. Qed.

(** Latency: the first of the least. *)
Definition better (best : option (Z * nat)) (c : Z * nat) : option (Z * nat) :=
  if match best with None => true | Some (l, _) => c.1 <? l end then Some c else best.

Fixpoint candidates ms st (i : nat) : list (Z * nat) :=
  match ms with
  | [] => []
  | m :: ms' =>
      if is_alive st (outbound_tag m) then (latency_of st (outbound_tag m), i) :: candidates ms' st (S i)
      else candidates ms' st (S i)
  end.

Lemma best_latency_fold ms st i best :
  best_latency ms st i best = foldl better best (candidates ms st i).
Proof.
  revert i best. induction ms as [|m ms IH]; intros i best; [done|]. cbn.
  destruct (is_alive st (outbound_tag m)); cbn [negb]; by rewrite IH.
Qed.

Lemma fold_better cs (b : Z * nat) :
  exists c, foldl better (Some b) cs = Some c /\
    (c = b /\ Forall (fun x => b.1 <= x.1) cs \/
     exists l1 l2, cs = l1 ++ c :: l2 /\ c.1 < b.1 /\
       Forall (fun x => c.1 < x.1) l1 /\ Forall (fun x => c.1 <= x.1) l2).
Proof.
  revert b. induction cs as [|x cs IH]; intros b; [exists b; split; [done|left; by split]|].
  cbn [foldl]. unfold better at 2. destruct b as [bl bi]. destruct (Z.ltb_spec x.1 bl) as [Hx|Hx].
  - destruct (IH x) as (c & -> & [[-> Hall]|(l1 & l2 & -> & Hc & H1 & H2)]); eexists; (split; [done|right]).
    + by exists [], cs.
    + exists (x :: l1), l2. cbn. split; [done|]. split; [lia|]. split; [by constructor|done].
  - destruct (IH (bl, bi)) as (c & -> & [[-> Hall]|(l1 & l2 & -> & Hc & H1 & H2)]); eexists; (split; [done|]).
    + left. split; [done|]. by constructor.
    + right. exists (x :: l1), l2. split; [done|]. split; [done|]. split; [|done]. constructor; [cbn in *; lia|done].
Qed.

Lemma candidates_elem ms st i c :
  c ∈ candidates ms st i <->
  exists k m, c = (latency_of st (outbound_tag m), (i + k)%nat) /\ ms !! k = Some m /\
    is_alive st (outbound_tag m) = true.
Proof.
  revert i. induction ms as [|m ms IH]; intros i; cbn.
  { split; [by intros ?%elem_of_nil|by intros (k & m & _ & Hk & _)]. }
  assert (Htail : c ∈ candidates ms st (S i) <->
    exists k x, c = (latency_of st (outbound_tag x), (i + S k)%nat) /\ ms !! k = Some x /\
      is_alive st (outbound_tag x) = true).
  { rewrite IH. split; intros (k & x & -> & Hk); exists k, x; (split; [f_equal; lia|done]). }
  case_match eqn:E; rewrite ?elem_of_cons, Htail; split.
  - intros [->|(k & x & -> & Hk)]; [exists 0%nat, m; split; [f_equal; lia|done]|exists (S k), x; done].
  - intros ([|k] & x & -> & Hk & Hx); [left; injection Hk as ->; f_equal; lia|right; eauto].
  - intros (k & x & -> & Hk). by exists (S k), x.
  - intros ([|k] & x & -> & Hk & Hx); [cbn in Hk; congruence|eauto].
Qed.

Lemma candidates_sorted ms st i l1 c l2 x :
  candidates ms st i = l1 ++ c :: l2 -> x ∈ l2 -> (c.2 < x.2)%nat.
Proof.
  revert i l1. induction ms as [|m ms IH]; intros i l1 Heq Hx; cbn in Heq; [by destruct l1|].
  case_match; [|by apply (IH (S i) l1)]. destruct l1 as [|y l1]; injection Heq as <- Heq; [|by apply (IH (S i) l1)].
  subst l2. apply candidates_elem in Hx as (k & m' & -> & _). cbn. lia.
Qed.

(** The alive member with the least latency, the first of equals. *)
Definition latency_best b st (i : nat) : Prop :=
  exists m, members b !! i = Some m /\ is_alive st (outbound_tag m) = true /\
  forall j m', members b !! j = Some m' -> is_alive st (outbound_tag m') = true ->
    latency_of st (outbound_tag m) <= latency_of st (outbound_tag m') /\
    ((j < i)%nat -> latency_of st (outbound_tag m) < latency_of st (outbound_tag m')).

Lemma pick_latency_spec b st :
  match candidates (members b) st 0 with
  | [] => pick_latency_index b st = first_member_index b
  | _ => exists i, pick_latency_index b st = Some i /\ latency_best b st i
  end.
Proof.
  unfold pick_latency_index. rewrite best_latency_fold.
  destruct (candidates (members b) st 0) as [|x cs] eqn:Ec; [done|].
  change (foldl better None (x :: cs)) with (foldl better (Some x) cs).
  destruct (fold_better cs x) as (c & -> & Hc).
  assert (Hsplit : exists l1 l2, x :: cs = l1 ++ c :: l2 /\ Forall (fun y => c.1 < y.1) l1 /\
    Forall (fun y => c.1 <= y.1) l2).
  { destruct Hc as [[-> Hall]|(l1 & l2 & -> & Hlt & H1 & H2)]; [by exists [], cs|].
    exists (x :: l1), l2. split; [done|]. split; [by constructor|done]. }
  destruct Hsplit as (l1 & l2 & Heq & H1 & H2). rewrite Heq in Ec. destruct c as [cl ci].
  exists ci. split; [done|].
  assert (Hin : (cl, ci) ∈ candidates (members b) st 0) by (rewrite Ec; apply elem_of_app; right; by left).
  apply candidates_elem in Hin as (k & m & [= -> ->] & Hm & Ha). exists m. split; [done|]. split; [done|].
  intros j m' Hj Hj'.
  assert (Hjin : (latency_of st (outbound_tag m'), j) ∈ candidates (members b) st 0).
  { apply candidates_elem. exists j, m'. done. }
  rewrite Ec in Hjin. apply elem_of_app in Hjin as [Hjin|Hjin].
  { rewrite Forall_forall in H1. specialize (H1 _ Hjin). cbn in H1. lia. }
  apply elem_of_cons in Hjin as [[= Hl Hi]|Hjin]; [lia|].
  rewrite Forall_forall in H2. specialize (H2 _ Hjin). cbn in H2. split; [lia|].
  intros Hlt. pose proof (candidates_sorted _ _ _ _ _ _ _ Ec Hjin). cbn in *. lia.
Qed.

(** Adaptive: the selected profile is usable when one is. *)
Definition wf b : Prop := length (adaptive_members b) = length (members b).

Lemma apply_probe_cooldowns_length cfg ms (l : list (AdaptiveState F)) st now :
  length (apply_probe_cooldowns cfg ms l st now) = length l.
Proof. revert l. induction ms as [|m ms IH]; intros [|s l]; cbn; [done..|]. by rewrite IH. Qed.

Definition usable_at ms (l : list (AdaptiveState F)) st (now : Z) (k : nat) : Prop :=
  exists m s, ms !! k = Some m /\ l !! k = Some s /\ is_alive st (outbound_tag m) = true /\
    is_in_cooldown s now = false.

Lemma usable_at_iff b l st now i : usable b l st now i = true <-> usable_at (members b) l st now i.
Proof.
  unfold usable, usable_at. destruct (members b !! i) as [m|], (l !! i) as [s|]; try (split; [done|by intros (? & ? & ? & ? & _)]).
  rewrite andb_true_iff, negb_true_iff. split; [|intros (? & ? & [= <-] & [= <-] & ?); tauto].
  intros [??]. by exists m, s.
Qed.

Lemma best_available_spec cfg ms (l : list (AdaptiveState F)) st now i best :
  match best_available cfg ms l st now i best with
  | Some (j, sc) => best = Some (j, sc) \/ exists k, j = (i + k)%nat /\ usable_at ms l st now k
  | None => best = None /\ forall k, ~ usable_at ms l st now k
  end.
Proof.
  revert l i best. induction ms as [|m ms IH]; intros [|s l] i best; cbn [best_available].
  1-3: destruct best as [[j sc]|]; [by left|split; [done|]]; by intros k (? & ? & ? & ? & _).
  assert (Hshift : forall k, usable_at ms l st now k -> usable_at (m :: ms) (s :: l) st now (S k)).
  { intros k (x & y & ?). by exists x, y. }
  destruct (negb (is_alive st (outbound_tag m)) || is_in_cooldown s now) eqn:E.
  - specialize (IH l (S i) best). destruct (best_available _ _ _ _ _ _ _) as [[j sc]|].
    + destruct IH as [->|(k & -> & Hk)]; [by left|right]. exists (S k). split; [lia|by apply Hshift].
    + destruct IH as [-> IH]. split; [done|]. intros [|k] (x & y & Hx & Hy & Hu); [|by apply (IH k); exists x, y].
      injection Hx as <-. injection Hy as <-. destruct Hu as [Ha Hc]. by rewrite Ha, Hc in E.
  - bool_hyps. assert (Hu0 : usable_at (m :: ms) (s :: l) st now 0) by (exists m, s; done).
    set (best' := if _ : bool then _ else best).
    assert (Hb : best' = best \/ exists sc, best' = Some (i, sc)) by (unfold best'; case_match; eauto).
    specialize (IH l (S i) best'). destruct (best_available _ _ _ _ _ _ _) as [[j sc]|].
    + destruct IH as [Hj|(k & -> & Hk)]; [|right; exists (S k); split; [lia|by apply Hshift]].
      destruct Hb as [Hb|[sc' Hb]]; [left; congruence|right; exists 0%nat; split; [|done]].
      rewrite Hb in Hj. injection Hj as <- _. lia.
    + destruct IH as [IH1 _]. exfalso. unfold best' in IH1. repeat case_match; congruence.
Qed.

Lemma pick_adaptive_spec b st now :
  wf b -> members b <> [] ->
  let l := apply_probe_cooldowns (adaptive_config b) (members b) (adaptive_members b) st now in
  exists b' i, pick_adaptive_index b st now = (b', Some i) /\ (i < length (members b))%nat /\
    wf b' /\ members b' = members b /\
    ((exists j, usable b l st now j = true) -> usable b l st now i = true).
Proof.
  intros Hwf Hne l. unfold pick_adaptive_index. fold l.
  assert (Hl : length l = length (members b)) by (unfold l; rewrite apply_probe_cooldowns_length; exact Hwf).
  set (sel := match best_available _ _ _ _ _ _ _ with Some _ => _ | None => _ end).
  assert (Hlt : (0 < length (members b))%nat) by (destruct (members b); [done|cbn; lia]).
  assert (Hbound : forall k, usable b l st now k = true -> (k < length (members b))%nat).
  { intros k Hk. apply usable_at_iff in Hk as (m & s & Hm & _). by apply lookup_lt_Some in Hm. }
  assert (Hsel : usable b l st now sel = true \/ sel = 0%nat /\ ~ exists j, usable b l st now j = true).
  { unfold sel. pose proof (best_available_spec (adaptive_config b) (members b) l st now 0 None) as Hs.
    destruct (best_available _ _ _ _ _ _ _) as [[best sc]|].
    - left. destruct Hs as [?|(k & -> & Hk)]; [done|]. apply usable_at_iff in Hk.
      destruct (current b) as [cur|]; [|done]. destruct (usable b l st now cur) eqn:Ecur; [|done].
      by case_match.
    - right. split; [done|]. intros [j Hj]. apply usable_at_iff in Hj. by apply (proj2 Hs j). }
  assert (Hi : (sel < length (members b))%nat) by (destruct Hsel as [Hs|[-> _]]; [by apply Hbound|done]).
  clearbody sel. destruct (lookup_lt_is_Some_2 l sel ltac:(lia)) as [s Hs]. rewrite Hs.
  rewrite (proj2 (Nat.ltb_lt _ _)) by done. eexists _, sel. split; [reflexivity|]. split; [done|].
  split; [unfold wf; cbn; by rewrite length_insert|]. split; [done|]. tauto.
Qed.

(** ** Round robin *)

Fixpoint picks (n : nat) b st (now : Z) : list (option nat) :=
  match n with
  | O => []
  | S n' => let '(b', r) := pick_member_index b st st now in r :: picks n' b' st now
  end.

Definition rotation (l : list nat) (c : Z) (k : nat) : option nat :=
  l !! Z.to_nat ((c + Z.of_nat k) mod zlen l).

Lemma rotation_shift l c k : rotation l (c + 1) k = rotation l c (S k).
Proof. unfold rotation. do 3 f_equal. lia. Qed.

Lemma picks_rotation n b st now :
  strategy b = RoundRobin -> alive_indices b st <> [] -> 0 <= rr_counter b ->
  rr_counter b + Z.of_nat n <= 2 ^ 64 ->
  picks n b st now = rotation (alive_indices b st) (rr_counter b) <$> seq 0 n.
Proof.
  revert b. induction n as [|n IH]; intros b Hs Ha Hc Hn; [done|]. cbn [picks seq fmap list_fmap].
  assert (Hz : 0 < zlen (alive_indices b st)) by (unfold zlen; destruct (alive_indices b st); [done|cbn; lia]).
  unfold pick_member_index. rewrite Hs, alive_count_indices, (proj2 (Z.eqb_neq _ _)) by lia.
  rewrite nth_alive_index_spec by (apply Z.mod_pos_bound; lia). f_equal.
  { unfold rotation. by rewrite Z.add_0_r. }
  destruct (decide (n = 0)%nat) as [->|Hn0]; [done|].
  rewrite <- fmap_S_seq, <- list_fmap_compose.
  rewrite IH; cbn [with_counter strategy rr_counter members]; unfold as_u64; rewrite ?Z.mod_small by lia; try done; try lia.
  apply list_fmap_ext. intros i k _. cbn. apply rotation_shift.
Qed.

Lemma rotation_permutation l c : l <> [] -> rotation l c <$> seq 0 (length l) ≡ₚ Some <$> l.
Proof.
  intros Hl. assert (Hz : 0 < zlen l) by (unfold zlen; destruct l; [done|cbn; lia]).
  set (f := fun k => Z.to_nat ((c + Z.of_nat k) mod zlen l)).
  assert (Hperm : f <$> seq 0 (length l) ≡ₚ seq 0 (length l)).
  { apply NoDup_Permutation; [|apply NoDup_seq|].
    - apply NoDup_fmap_2_strong; [|apply NoDup_seq]. intros x y Hx Hy Hf. unfold f in Hf.
      apply elem_of_seq in Hx, Hy. pose proof (Z.mod_pos_bound (c + Z.of_nat x) (zlen l) Hz).
      pose proof (Z.mod_pos_bound (c + Z.of_nat y) (zlen l) Hz).
      assert (Hm : (c + Z.of_nat x) mod zlen l = (c + Z.of_nat y) mod zlen l) by lia.
      pose proof (Z.div_mod (c + Z.of_nat x) (zlen l) ltac:(lia)) as Dx.
      pose proof (Z.div_mod (c + Z.of_nat y) (zlen l) ltac:(lia)) as Dy.
      set (qx := (c + Z.of_nat x) / zlen l) in *. set (qy := (c + Z.of_nat y) / zlen l) in *.
      assert (Hd : Z.of_nat x - Z.of_nat y = zlen l * (qx - qy)) by lia.
      assert (Hlt : - zlen l < Z.of_nat x - Z.of_nat y < zlen l) by (unfold zlen; lia).
      assert (qx - qy = 0) by nia. nia.
    - intros x. rewrite list_elem_of_fmap, elem_of_seq. split.
      + intros (k & -> & _). unfold f. pose proof (Z.mod_pos_bound (c + Z.of_nat k) (zlen l) Hz). unfold zlen in *. lia.
      + intros Hx. exists (Z.to_nat ((Z.of_nat x - c) mod zlen l)).
        pose proof (Z.mod_pos_bound (Z.of_nat x - c) (zlen l) Hz). split.
        * unfold f. rewrite Z2Nat.id, Z.add_mod_idemp_r by lia. replace (c + (Z.of_nat x - c)) with (Z.of_nat x) by lia.
          rewrite Z.mod_small by (unfold zlen; lia). lia.
        * apply elem_of_seq. unfold zlen in *. lia. }
  assert (Hrot : rotation l c <$> seq 0 (length l) = (fun i => l !! i) <$> (f <$> seq 0 (length l))).
  { by rewrite <- list_fmap_compose. }
  rewrite Hrot, Hperm. assert (Hid : (fun i => l !! i) <$> seq 0 (length l) = Some <$> l); [|by rewrite Hid].
  apply list_eq. intros i. rewrite !list_lookup_fmap. destruct (decide (i < length l)%nat) as [Hi|Hi].
  - rewrite lookup_seq_lt by done. cbn. destruct (lookup_lt_is_Some_2 l i Hi) as [x ->]. done.
  - rewrite lookup_seq_ge, (lookup_ge_None_2 l i) by lia. done.
Qed.

End Facts.

(** ** Properties *)

Section Claims.
Context {F : Type} `{Float64 F}.

Lemma first_alive (b : Balancer F) (st : HealthStates) :
  (exists j m, members b !! j = Some m /\ is_alive st (outbound_tag m) = true) <-> alive_indices b st <> [].
Proof.
  split.
  - intros (j & m & Hj & Ha) He. assert (Hin : j ∈ alive_indices b st) by (apply alive_from_elem; eauto).
    rewrite He in Hin. by apply elem_of_nil in Hin.
  - intros Hne. destruct (alive_indices b st) as [|j l] eqn:E; [done|].
    assert (Hin : j ∈ alive_indices b st) by (rewrite E; by left).
    apply alive_from_elem in Hin as (k & m & -> & Hk & Ha). eauto.
Qed.

(** Picking the [n]-th alive member, or the first member when none is alive. *)
Lemma pick_slot (b : Balancer F) (st : HealthStates) n :
  members b <> [] -> 0 <= n < alive_count b st \/ alive_count b st = 0 ->
  exists i m, (if alive_count b st =? 0 then first_member_index b else nth_alive_index b st n) = Some i /\
    members b !! i = Some m /\
    ((exists j m', members b !! j = Some m' /\ is_alive st (outbound_tag m') = true) ->
     is_alive st (outbound_tag m) = true).
Proof.
  intros Hne Hn. setoid_rewrite first_alive. rewrite alive_count_indices in *. case_match eqn:E; bool_hyps.
  - unfold first_member_index. destruct (members b) as [|m ms] eqn:Em; [done|].
    exists 0%nat, m. split; [done|]. split; [done|]. intros Ha. destruct (alive_indices b st); [done|].
    unfold zlen in E. cbn in E. lia.
  - destruct Hn as [Hn|Hn]; [|done]. rewrite nth_alive_index_spec by lia.
    destruct (lookup_lt_is_Some_2 (alive_indices b st) (Z.to_nat n)) as [i Hi]; [unfold zlen in Hn; lia|].
    rewrite Hi. apply list_elem_of_lookup_2, alive_from_elem in Hi as (k & m & -> & Hk & Ha). by exists k, m.
Qed.

(** Member selection, for any history of probe results: every strategy picks a
    configured member; latency, round robin and random pick one that is not marked
    dead whenever there is one, where dead means at least [max_failures] (and one)
    failed probes since the last success; latency picks the least latency, the
    first of equals; and adaptive picks a profile that is alive and not cooling
    down whenever there is one, whatever the scores. *)
Theorem balancer_pick_spec (max_failures : Z) (tags : list bytes) (t0 : Z) (h : list ProbeResult)
    (b : Balancer F) (now : Z) :
  zlen h < 2 ^ 32 -> wf b -> members b <> [] ->
  let st := run_probes max_failures (initial_states tags t0) h in
  let good m := healthy max_failures h (outbound_tag m) = true in
  let l := apply_probe_cooldowns (adaptive_config b) (members b) (adaptive_members b) st now in
  exists b' i m, pick_member_index b st st now = (b', Some i) /\ members b !! i = Some m /\
    wf b' /\ members b' = members b /\
    (strategy b <> Adaptive -> (exists j m', members b !! j = Some m' /\ good m') -> good m) /\
    (strategy b = Latency -> (exists j m', members b !! j = Some m' /\ good m') -> latency_best b st i) /\
    (strategy b = Adaptive -> (exists j, usable b l st now j = true) -> usable b l st now i = true).
Proof.
  intros Hh Hwf Hne st good l.
  assert (Hgood : forall m, good m <-> is_alive st (outbound_tag m) = true).
  { intros m. unfold good. rewrite is_alive_at.
    destruct (probe_history max_failures tags t0 h (outbound_tag m) Hh) as [_ Ha]. fold st in Ha. by rewrite Ha. }
  assert (Hex : (exists j m', members b !! j = Some m' /\ good m') <->
    exists j m', members b !! j = Some m' /\ is_alive st (outbound_tag m') = true).
  { split; intros (j & m' & Hj & Hm); exists j, m'; (split; [done|by apply Hgood]). }
  setoid_rewrite Hex. setoid_rewrite Hgood. clearbody st. unfold pick_member_index.
  assert (Hslot : forall c, 0 <= c mod alive_count b st < alive_count b st \/ alive_count b st = 0).
  { intros c. destruct (decide (alive_count b st = 0)); [by right|left].
    apply Z.mod_pos_bound. rewrite alive_count_indices in *. pose proof (zlen_nonneg (alive_indices b st)). lia. }
  destruct (strategy b) eqn:Es.
  - pose proof (pick_latency_spec b st) as Hl. destruct (candidates (members b) st 0) as [|c cs] eqn:Ec.
    + rewrite Hl. unfold first_member_index. destruct (members b) as [|m ms] eqn:Em; [done|].
      assert (Hnone : ~ exists j m', (m :: ms) !! j = Some m' /\ is_alive st (outbound_tag m') = true).
      { intros (j & m' & Hj & Ha). assert (Hin : (latency_of st (outbound_tag m'), j) ∈ candidates (m :: ms) st 0).
        { apply candidates_elem. by exists j, m'. } rewrite Ec in Hin. by apply elem_of_nil in Hin. }
      exists b, 0%nat, m. rewrite Em. repeat split; try done; tauto.
    + destruct Hl as (i & -> & Hi). pose proof Hi as (m & Hm & Ha & _). exists b, i, m. repeat split; done.
  - destruct (pick_slot b st (rr_counter b mod alive_count b st) Hne (Hslot _)) as (i & m & Hp & Hm & Ha).
    destruct (alive_count b st =? 0); rewrite Hp; eexists _, i, m; repeat split; done.
  - destruct (pick_slot b st (as_u64 (rr_counter b * 11400714819323198485) mod alive_count b st) Hne (Hslot _))
      as (i & m & Hp & Hm & Ha).
    destruct (alive_count b st =? 0); rewrite Hp; eexists _, i, m; repeat split; done.
  - destruct (pick_adaptive_spec b st now Hwf Hne) as (b' & i & -> & Hi & Hwf' & Hmem & Hu).
    destruct (lookup_lt_is_Some_2 (members b) i Hi) as [m Hm]. exists b', i, m. repeat split; try done.
Qed.

(** Round robin: with an unchanging health table, as many consecutive picks as
    there are alive members select each of them exactly once (the 64-bit counter
    not wrapping meanwhile).  When the table changes between the two scans of a
    pick, the pick finds no member exactly when the slot computed from the first
    scan is not below the number of members alive at the second: the connection
    then fails with "balancer has no outbounds" although members are alive. *)
Theorem balancer_round_robin {A : Type} (b : Balancer F) (st1 st2 : HealthStates) (now : Z)
    (outbound : nat -> res ProxyError A * F * Z) :
  strategy b = RoundRobin -> alive_indices b st1 <> [] -> 0 <= rr_counter b ->
  (rr_counter b + alive_count b st1 <= 2 ^ 64 ->
   picks (length (alive_indices b st1)) b st1 now ≡ₚ Some <$> alive_indices b st1) /\
  (snd (pick_member_index b st1 st2 now) = None <-> alive_count b st2 <= rr_counter b mod alive_count b st1) /\
  (alive_count b st2 <= rr_counter b mod alive_count b st1 ->
   snd (connect b st1 st2 now outbound) = Err (Protocol "balancer has no outbounds")).
Proof.
  intros Hs Ha Hc.
  assert (Hz : 0 < alive_count b st1).
  { rewrite alive_count_indices. unfold zlen. destruct (alive_indices b st1); [done|cbn; lia]. }
  assert (Hnone : snd (pick_member_index b st1 st2 now) = None <-> alive_count b st2 <= rr_counter b mod alive_count b st1).
  { unfold pick_member_index. rewrite Hs, (proj2 (Z.eqb_neq _ _)) by lia. cbn.
    pose proof (Z.mod_pos_bound (rr_counter b) (alive_count b st1) Hz).
    rewrite nth_alive_index_spec by lia. rewrite lookup_ge_None, (alive_count_indices b st2). unfold zlen. lia. }
  split; [|split; [done|]].
  - intros Hw. rewrite picks_rotation; [by apply rotation_permutation|done|done|done|].
    by rewrite alive_count_indices in Hw.
  - intros Hlt. apply Hnone in Hlt. unfold connect. destruct (pick_member_index b st1 st2 now) as [b' r].
    cbn in Hlt. by subst r.
Qed.

End Claims.

(** An interpretation of the scores, for evaluation: thousandths. *)
Definition fixed_point : Float64 Z := {|
  f_of_Z x := 1000 * x;
  f_ratio p q := 1000 * p / q;
  f_add := Z.add;
  f_sub := Z.sub;
  f_mul x y := x * y / 1000;
  f_div x y := 1000 * x / y;
  f_clamp x lo hi := Z.min hi (Z.max lo x);
  f_lt := Z.ltb;
  f_ge x y := y <=? x;
  f_finite _ := true
|}.

Definition example_balancer (strat : bytes) : Balancer Z :=
  Balancer_new (str "b") strat (mkConfig 3 60 200 50) [] [str "x"; str "y"].

Lemma balancer_pick_spec_witness :
  let h := [mkResult (str "x") false 1 0; mkResult (str "y") true 2 40] in
  let st := run_probes 1 (initial_states [str "x"; str "y"] 0) h in
  exists b', @pick_member_index Z fixed_point (example_balancer (str "latency")) st st 5 = (b', Some 1%nat).
Proof.
  cbv zeta.
  destruct (@balancer_pick_spec Z fixed_point 1 [str "x"; str "y"] 0
    [mkResult (str "x") false 1 0; mkResult (str "y") true 2 40] (example_balancer (str "latency")) 5)
    as (b' & i & m & Hp & Hm & _ & _ & Hgood & _).
  - vm_compute. reflexivity.
  - vm_compute. reflexivity.
  - vm_compute. discriminate.
  - exists b'. rewrite Hp. destruct i as [|[|i]].
    + exfalso. injection Hm as <-.
      assert (Hx : false = true); [|discriminate Hx].
      apply Hgood; [discriminate|]. exists 1%nat. eexists. split; reflexivity.
    + reflexivity.
    + exfalso. discriminate Hm.
Defined.

Lemma balancer_round_robin_witness :
  let alive_both := initial_states [str "x"; str "y"] 0 in
  let one_dead := probe 1 alive_both (str "y") false 1 0 in
  let b := with_counter (example_balancer (str "roundRobin")) 1 in
  snd (@connect Z fixed_point unit b alive_both one_dead 5 (fun _ => (Ok tt, 0, 5))) =
    Err (Protocol "balancer has no outbounds").
Proof.
  cbv zeta. apply (@balancer_round_robin Z fixed_point unit).
  - reflexivity.
  - vm_compute. discriminate.
  - vm_compute. discriminate.
  - vm_compute. discriminate.
Defined.
