(* ===== verification/AsyncIo.v ===== *)
(** * Asynchronous byte streams

    The [AsyncRead] and [AsyncWrite] traits of [tokio] as classes of poll
    functions, the contract that readers and writers promise to each other, and
    the stream adapter [PrependedStream] of [blackwire-common] [stream.rs], which
    keeps that contract. *)

From S2P Require Import Prelude.

(** ** Polls *)

Inductive poll (A : Type) : Type :=
| Ready (a : A)
| Pending.
Arguments Ready {A} a.
Arguments Pending {A}.

(** [std::io::ErrorKind], as far as the sources construct or see one. *)
Inductive io_error : Type :=
| WriteZero | UnexpectedEof | InvalidData | BrokenPipe | ConnectionReset | OtherError.

#[global] Instance io_error_eq_dec : EqDecision io_error.
Proof. solve_decision. Defined.

#[global] Instance io_error_eof : EofError io_error := UnexpectedEof.

(** ** The traits

    [poll_read s n] reads into a buffer with room for [n] bytes and returns the
    bytes that were put there; none means end of stream. *)

Class AsyncRead (S : Type) : Type :=
  poll_read : S -> nat -> S * poll (res io_error bytes).

Class AsyncWrite (S : Type) : Type := {
  poll_write : S -> bytes -> S * poll (res io_error nat);
  poll_flush : S -> S * poll (res io_error unit);
  poll_shutdown : S -> S * poll (res io_error unit)
}.

(** [.await]: a future is polled until it is ready; [None] after [fuel] polls. *)
Fixpoint await {S A} (f : S -> S * poll A) (fuel : nat) (s : S) : option (S * A) :=
  match fuel with
  | O => None
  | Datatypes.S fuel' =>
      match f s with
      | (s', Ready a) => Some (s', a)
      | (s', Pending) => await f fuel' s'
      end
  end.

(** [AsyncWriteExt::write_all]: write until nothing is left of the buffer. *)
Fixpoint write_all {S} `{AsyncWrite S} (fuel : nat) (s : S) (b : bytes) :
    option (S * res io_error unit) :=
  match b with
  | [] => Some (s, Ok tt)
  | _ =>
      match fuel with
      | O => None
      | Datatypes.S fuel' =>
          match poll_write s b with
          | (s', Ready (Ok O)) => Some (s', Err WriteZero)
          | (s', Ready (Ok n)) => write_all fuel' s' (drop n b)
          | (s', Ready (Err e)) => Some (s', Err e)
          | (s', Ready Panic) => Some (s', Panic)
          | (s', Pending) => write_all fuel' s' b
          end
      end
  end.

(** What a reader promises: [incoming s] are the bytes that [s] will still
    deliver before end of stream, and a read returns the next ones. *)
Class ReadSpec (S : Type) `{AsyncRead S} : Type := {
  incoming : S -> bytes;
  poll_read_ok s n s' c :
    poll_read s n = (s', Ready (Ok c)) ->
    (length c <= n)%nat /\ incoming s = c ++ incoming s' /\
    (c = [] -> n = 0%nat \/ incoming s = []);
  poll_read_pending s n s' :
    poll_read s n = (s', Pending) -> incoming s' = incoming s;
  poll_read_no_panic s n s' : poll_read s n <> (s', Ready Panic)
}.

(** What a writer promises: [sent s] are the bytes it has accepted, and a write
    accepts a prefix of the buffer. *)
Class WriteSpec (S : Type) `{AsyncWrite S} : Type := {
  sent : S -> bytes;
  poll_write_ok s b s' n :
    poll_write s b = (s', Ready (Ok n)) ->
    (n <= length b)%nat /\ sent s' = sent s ++ take n b;
  poll_write_not_ok s b s' r :
    poll_write s b = (s', r) -> (forall n, r <> Ready (Ok n)) -> sent s' = sent s;
  poll_write_no_panic s b s' : poll_write s b <> (s', Ready Panic);
  poll_flush_sent s s' r : poll_flush s = (s', r) -> sent s' = sent s;
  poll_flush_no_panic s s' : poll_flush s <> (s', Ready Panic);
  poll_shutdown_sent s s' r : poll_shutdown s = (s', r) -> sent s' = sent s;
  poll_shutdown_no_panic s s' : poll_shutdown s <> (s', Ready Panic)
}.

(** The contract between a writer that may hold on to a pending write and its
    callers.  A write that was not ready is tried again with a buffer that begins
    with the same bytes, and the stream is flushed only when no write is pending;
    in return the writer accepts every byte once.  [accepted w acc infl]: [acc] has
    been accepted so far and [infl] is the buffer of a pending write. *)

Definition retries (infl : option bytes) (buf : bytes) : Prop :=
  forall b, infl = Some b -> b `prefix_of` buf.

Definition write_post {W} (accepted : W -> bytes -> option bytes -> Prop)
    (buf acc : bytes) (w : W) (r : poll (res io_error nat)) : Prop :=
  match r with
  | Ready (Ok n) => (n <= length buf)%nat /\ accepted w (acc ++ take n buf) None
  | Ready (Err _) => True
  | Ready Panic => False
  | Pending => exists infl, accepted w acc infl /\ retries infl buf
  end.

Class WriterContract (W : Type) `{AsyncWrite W} : Type := {
  accepted : W -> bytes -> option bytes -> Prop;
  fits : bytes -> Prop;
  contract_write w acc infl buf w' r :
    accepted w acc infl -> retries infl buf -> fits buf ->
    poll_write w buf = (w', r) -> write_post accepted buf acc w' r;
  contract_flush w acc w' r :
    accepted w acc None -> poll_flush w = (w', r) -> accepted w' acc None;
  contract_flush_no_panic w acc w' :
    accepted w acc None -> poll_flush w <> (w', Ready Panic);
  contract_shutdown w acc w' r :
    accepted w acc None -> poll_shutdown w = (w', r) -> accepted w' acc None;
  contract_shutdown_no_panic w acc w' :
    accepted w acc None -> poll_shutdown w <> (w', Ready Panic)
}.

(** A writer that never holds on to a write keeps the contract; [sent0] is what
    it had sent before. *)
Definition plain_accepted {W} `{WriteSpec W} (sent0 : bytes) (w : W) (acc : bytes)
    (infl : option bytes) : Prop :=
  sent w = sent0 ++ acc /\ infl = None.

Program Definition plain_contract {W} `{WriteSpec W} (sent0 : bytes) : WriterContract W := {|
  accepted := plain_accepted sent0;
  fits _ := True
|}.
Next Obligation.
  intros W HW HS sent0 w acc infl buf w' r [Hs ->] _ _ Hw. unfold write_post, plain_accepted.
  destruct r as [[n|e|]|].
  - apply poll_write_ok in Hw as [Hn ->]. by rewrite Hs, app_assoc.
  - done.
  - by apply poll_write_no_panic in Hw.
  - apply poll_write_not_ok in Hw; [|done]. rewrite Hw. by exists None.
Qed.
Next Obligation. intros W HW HS sent0 w acc w' r [Hs _] Hw. apply poll_flush_sent in Hw. by split; [rewrite Hw|]. Qed.
Next Obligation. intros W HW HS sent0 w acc w' _ Hw. by apply poll_flush_no_panic in Hw. Qed.
Next Obligation. intros W HW HS sent0 w acc w' r [Hs _] Hw. apply poll_shutdown_sent in Hw. by split; [rewrite Hw|]. Qed.
Next Obligation. intros W HW HS sent0 w acc w' _ Hw. by apply poll_shutdown_no_panic in Hw. Qed.

(** A stream whose two directions do not disturb each other. *)
Class Duplex (S : Type) `{ReadSpec S, !AsyncWrite S, !WriteSpec S} : Prop := {
  poll_read_sent (s : S) n s' r : poll_read s n = (s', r) -> sent s' = sent s;
  poll_write_incoming (s : S) b s' r : poll_write s b = (s', r) -> incoming s' = incoming s;
  poll_flush_incoming (s : S) s' r : poll_flush s = (s', r) -> incoming s' = incoming s;
  poll_shutdown_incoming (s : S) s' r : poll_shutdown s = (s', r) -> incoming s' = incoming s
}.

(** A reader that failed may have given up the rest of its bytes, or the first of them, but
    it does not invent any. *)
Class ReadErrors (S : Type) `{ReadSpec S} : Prop :=
  poll_read_err s n s' e : poll_read s n = (s', Ready (Err e)) -> incoming s' `suffix_of` incoming s.

Lemma sublist_after {A} (k l1 l2 : list A) : l1 `sublist_of` l2 -> k ++ l1 `sublist_of` k ++ l2.
Proof. by apply sublist_app. Qed.

Lemma suffix_is_sublist {A} (l1 l2 : list A) : l1 `suffix_of` l2 -> l1 `sublist_of` l2.
Proof. intros [k ->]. by apply sublist_inserts_l. Qed.

Lemma prefix_is_sublist {A} (l1 l2 : list A) : l1 `prefix_of` l2 -> l1 `sublist_of` l2.
Proof. intros [k ->]. by apply sublist_inserts_r. Qed.

Section Awaits.
Context {S : Type} `{WriteSpec S}.

Lemma write_all_sent fuel (s : S) b s' :
  write_all fuel s b = Some (s', Ok tt) -> sent s' = sent s ++ b.
Proof.
  revert s b. induction fuel as [|fuel IH]; intros s [|x b]; cbn [write_all]; try done.
  1,2: intros [= <-]; by rewrite app_nil_r.
  destruct (poll_write s (x :: b)) as [s1 [[[|n]|e|]|]] eqn:E; try done.
  - apply poll_write_ok in E as [_ E]. intros Hs. apply IH in Hs.
    by rewrite Hs, E, <- app_assoc, take_drop.
  - apply poll_write_not_ok in E; [|done]. intros Hs. apply IH in Hs. by rewrite Hs, E.
Qed.

Lemma await_flush_sent fuel (s : S) s' r :
  await poll_flush fuel s = Some (s', r) -> sent s' = sent s.
Proof.
  revert s. induction fuel as [|fuel IH]; intros s; cbn [await]; [done|].
  destruct (poll_flush s) as [s1 [a|]] eqn:E; apply poll_flush_sent in E.
  - by intros [= <- _].
  - intros Hs. apply IH in Hs. congruence.
Qed.
End Awaits.

(** ** [PrependedStream] *)

Record PrependedStream (S : Type) : Type := mkPrepended {
  prefix : bytes;
  prefix_pos : nat;
  pre_inner : S
}.
Arguments mkPrepended {S} _ _ _.
Arguments prefix {S} _.
Arguments prefix_pos {S} _.
Arguments pre_inner {S} _.

Section Prepended.
Context {S : Type}.

Definition PrependedStream_new (inner : S) (pre : bytes) : PrependedStream S :=
  mkPrepended pre 0 inner.

Definition into_parts (s : PrependedStream S) : S * bytes :=
  (pre_inner s,
   if (length (prefix s) <=? prefix_pos s)%nat then [] else drop (prefix_pos s) (prefix s)).

Definition PrependedStream_poll_read `{AsyncRead S} (s : PrependedStream S) (n : nat) :
    PrependedStream S * poll (res io_error bytes) :=
  if (prefix_pos s <? length (prefix s))%nat then
    let remaining := drop (prefix_pos s) (prefix s) in
    let k := Nat.min (length remaining) n in
    let pos := (prefix_pos s + k)%nat in
    let s' := if (length (prefix s) <=? pos)%nat
              then mkPrepended [] 0 (pre_inner s)
              else mkPrepended (prefix s) pos (pre_inner s) in
    (s', Ready (Ok (take k remaining)))
  else
    let '(i, r) := poll_read (pre_inner s) n in
    (mkPrepended (prefix s) (prefix_pos s) i, r).

Definition PrependedStream_poll_write `{AsyncWrite S} (s : PrependedStream S) (b : bytes) :
    PrependedStream S * poll (res io_error nat) :=
  let '(i, r) := poll_write (pre_inner s) b in
  (mkPrepended (prefix s) (prefix_pos s) i, r).

Definition PrependedStream_poll_flush `{AsyncWrite S} (s : PrependedStream S) :
    PrependedStream S * poll (res io_error unit) :=
  let '(i, r) := poll_flush (pre_inner s) in
  (mkPrepended (prefix s) (prefix_pos s) i, r).

Definition PrependedStream_poll_shutdown `{AsyncWrite S} (s : PrependedStream S) :
    PrependedStream S * poll (res io_error unit) :=
  let '(i, r) := poll_shutdown (pre_inner s) in
  (mkPrepended (prefix s) (prefix_pos s) i, r).

#[global] Instance PrependedStream_read `{AsyncRead S} : AsyncRead (PrependedStream S) :=
  PrependedStream_poll_read.

#[global] Instance PrependedStream_write `{AsyncWrite S} : AsyncWrite (PrependedStream S) := {
  poll_write := PrependedStream_poll_write;
  poll_flush := PrependedStream_poll_flush;
  poll_shutdown := PrependedStream_poll_shutdown
}.
End Prepended.

(** The adapter is a reader: it delivers what is left of its prefix and then
    what its inner stream delivers. *)
Section PrependedSpec.
Context {S : Type} `{ReadSpec S}.

Definition prepended_incoming (s : PrependedStream S) : bytes :=
  drop (prefix_pos s) (prefix s) ++ incoming (pre_inner s).

Lemma prepended_read_ok (s : PrependedStream S) n s' c :
  poll_read s n = (s', Ready (Ok c)) ->
  (length c <= n)%nat /\ prepended_incoming s = c ++ prepended_incoming s' /\
  (c = [] -> n = 0%nat \/ prepended_incoming s = []).
Proof.
  unfold poll_read, PrependedStream_read, PrependedStream_poll_read, prepended_incoming.
  destruct s as [pre pos i]; cbn [prefix prefix_pos pre_inner].
  destruct (pos <? length pre)%nat eqn:Hpos; bool_hyps.
  - intros [= <- <-]. set (k := Nat.min (length (drop pos pre)) n).
    assert (Hk : (k <= length (drop pos pre))%nat) by (unfold k; lia).
    split; [rewrite length_take; unfold k; lia|]. split.
    + destruct (length pre <=? pos + k)%nat eqn:Hend; bool_hyps;
        cbn [prefix prefix_pos pre_inner].
      * rewrite take_ge; [done|]. rewrite length_drop in *. lia.
      * rewrite <- drop_drop, app_assoc, take_drop. done.
    + intros Hnil. left. apply (f_equal length) in Hnil. rewrite length_take in Hnil.
      cbn in Hnil. rewrite length_drop in *. unfold k in *. rewrite length_drop in *. lia.
  - destruct (AsyncIo.poll_read i n) as [i' r] eqn:Hr. intros [= <- ->].
    apply poll_read_ok in Hr as (? & -> & ?). cbn [prefix prefix_pos pre_inner].
    rewrite !drop_ge by done. rewrite !app_nil_l. done.
Qed.

#[global] Program Instance PrependedStream_readspec : ReadSpec (PrependedStream S) := {
  incoming := prepended_incoming
}.
Next Obligation. intros. by apply prepended_read_ok. Qed.
Next Obligation.
  intros [pre pos i] n s'. unfold poll_read, PrependedStream_read, PrependedStream_poll_read.
  cbn [prefix prefix_pos pre_inner]. case_match; [done|].
  destruct (AsyncIo.poll_read i n) as [i' r] eqn:Hr. intros [= <- ->].
  unfold prepended_incoming. cbn. by erewrite poll_read_pending.
Qed.
Next Obligation.
  intros [pre pos i] n s'. unfold poll_read, PrependedStream_read, PrependedStream_poll_read.
  cbn [prefix prefix_pos pre_inner]. case_match; [done|].
  destruct (AsyncIo.poll_read i n) as [i' r] eqn:Hr. intros [= <- ->].
  by apply poll_read_no_panic in Hr.
Qed.

(** Taking the adapter apart loses nothing. *)
Lemma into_parts_incoming (s : PrependedStream S) i p :
  into_parts s = (i, p) -> p ++ incoming i = incoming s.
Proof.
  intros [= <- <-]. cbn. unfold prepended_incoming.
  case_match; bool_hyps; [|done]. by rewrite drop_ge.
Qed.
End PrependedSpec.

(** ** A scripted stream

    The reader delivers its [chunks] one poll at a time ([None] is a poll that
    is not ready); the writer accepts at most the scripted number of bytes at
    each poll.  It is the concrete stream of the witnesses. *)

Record Script : Type := mkScript {
  chunks : list (option bytes);
  accepts : list (option nat);
  wire : bytes
}.

Definition Script_poll_read (s : Script) (n : nat) : Script * poll (res io_error bytes) :=
  match chunks s with
  | [] => (s, Ready (Ok []))
  | None :: cs => (mkScript cs (accepts s) (wire s), Pending)
  | Some c :: cs =>
      if (length c <=? n)%nat && (0 <? length c)%nat
      then (mkScript cs (accepts s) (wire s), Ready (Ok c))
      else if (length c =? 0)%nat then (mkScript cs (accepts s) (wire s), Pending)
      else (mkScript (Some (drop n c) :: cs) (accepts s) (wire s), Ready (Ok (take n c)))
  end.

Definition Script_poll_write (s : Script) (b : bytes) : Script * poll (res io_error nat) :=
  match accepts s with
  | [] => (mkScript (chunks s) [] (wire s ++ b), Ready (Ok (length b)))
  | None :: a => (mkScript (chunks s) a (wire s), Pending)
  | Some n :: a => (mkScript (chunks s) a (wire s ++ take n b), Ready (Ok (Nat.min n (length b))))
  end.

#[global] Instance Script_read : AsyncRead Script := Script_poll_read.
#[global] Instance Script_write : AsyncWrite Script := {
  poll_write := Script_poll_write;
  poll_flush s := (s, Ready (Ok tt));
  poll_shutdown s := (s, Ready (Ok tt))
}.

Definition script_incoming (s : Script) : bytes :=
  concat (default [] <$> chunks s).

#[global] Program Instance Script_readspec : ReadSpec Script := {
  incoming := script_incoming
}.
Next Obligation.
  intros [cs a w] n s' c. unfold poll_read, Script_read, Script_poll_read, script_incoming. cbn.
  destruct cs as [|[x|] cs]; [by intros [= <- <-]; cbn; split_and!; auto; lia| |done].
  destruct ((length x <=? n)%nat && (0 <? length x)%nat) eqn:E.
  - intros [= <- <-]. bool_hyps. cbn. split_and!; [done|done|].
    intros ->. cbn in *. lia.
  - destruct (length x =? 0)%nat eqn:E0; [done|]. intros [= <- <-]. cbn.
    bool_hyps. assert (n < length x)%nat by (destruct E; bool_hyps; lia).
    rewrite app_assoc, take_drop, length_take. split_and!; [lia|done|].
    intros Hn. left. apply (f_equal length) in Hn. rewrite length_take in Hn. cbn in Hn. lia.
Qed.
Next Obligation.
  intros [cs a w] n s'. unfold poll_read, Script_read, Script_poll_read, script_incoming. cbn.
  destruct cs as [|[x|] cs]; [done| |by intros [= <-]].
  case_match; [done|]. case_match; [|done]. intros [= <-]. bool_hyps.
  destruct x; [done|cbn in *; lia].
Qed.
Next Obligation.
  intros [cs a w] n s'. unfold poll_read, Script_read, Script_poll_read. cbn.
  repeat case_match; done.
Qed.

#[global] Program Instance Script_writespec : WriteSpec Script := { sent := wire }.
Next Obligation.
  intros [cs a w] b s' n. unfold poll_write, Script_write, Script_poll_write. cbn.
  destruct a as [|[k|] a]; intros [= <- <-]; cbn.
  - by rewrite take_ge.
  - split; [lia|]. f_equal. destruct (le_lt_dec k (length b)).
    + by rewrite Nat.min_l.
    + by rewrite Nat.min_r, !take_ge by lia.
Qed.
Next Obligation.
  intros [cs a w] b s' r. unfold poll_write, Script_write, Script_poll_write. cbn.
  destruct a as [|[k|] a]; intros [= <- <-] Hn; cbn; [by destruct (Hn (length b))| |done].
  by destruct (Hn (Nat.min k (length b))).
Qed.
Next Obligation.
  intros [cs a w] b s'. unfold poll_write, Script_write, Script_poll_write. cbn.
  repeat case_match; done.
Qed.
Next Obligation. by intros s s' r [= <- <-]. Qed.
Next Obligation. by intros s s' [=]. Qed.
Next Obligation. by intros s s' r [= <- <-]. Qed.
Next Obligation. by intros s s' [=]. Qed.

#[global] Instance Script_read_errors : ReadErrors Script.
Proof.
  intros [cs a w] n s' e. unfold poll_read, Script_read, Script_poll_read. cbn.
  repeat case_match; done.
Qed.

#[global] Instance Script_duplex : Duplex Script.
Proof.
  split.
  - intros [cs a w] n s' r. unfold poll_read, Script_read, Script_poll_read. cbn.
    repeat case_match; by intros [= <- _].
  - intros [cs a w] b s' r. unfold poll_write, Script_write, Script_poll_write. cbn.
    repeat case_match; by intros [= <- _].
  - by intros s s' r [= <- _].
  - by intros s s' r [= <- _].
Qed.
