(* ===== verification/Vision.v ===== *)
(** * XTLS Vision

    [VisionUnpaddingState], [VisionStream] and the chunk builder of
    [blackwire-common] [stream.rs].  The reader strips Vision padding from an
    arbitrarily fragmented byte stream; the writer frames what it is given and
    keeps a partially written frame across polls. *)

From S2P Require Import Prelude AsyncIo.

Definition VISION_INITIAL : Z := -1.
Definition VISION_COMMAND_PADDING_CONTINUE : Z := 0.
Definition VISION_COMMAND_PADDING_END : Z := 1.
Definition VISION_COMMAND_PADDING_DIRECT : Z := 2.
Definition TLS_APPLICATION_DATA_START : bytes := [0x17; 0x03; 0x03].

(** ** Unpadding *)

Record VisionUnpaddingState : Type := mkUnpad {
  remaining_command : Z;
  remaining_content : Z;
  remaining_padding : Z;
  current_command : Z;
  pending_initial : bytes;
  finished : bool
}.

Definition VisionUnpaddingState_new : VisionUnpaddingState :=
  mkUnpad VISION_INITIAL VISION_INITIAL VISION_INITIAL 0 [] false.

Definition initial (st : VisionUnpaddingState) : bool :=
  (remaining_command st =? VISION_INITIAL) && (remaining_content st =? VISION_INITIAL) &&
  (remaining_padding st =? VISION_INITIAL).

Definition set_finished (p : bytes) (st : VisionUnpaddingState) : VisionUnpaddingState :=
  mkUnpad (remaining_command st) (remaining_content st) (remaining_padding st)
    (current_command st) p true.

Definition set_pending (p : bytes) (st : VisionUnpaddingState) : VisionUnpaddingState :=
  mkUnpad (remaining_command st) (remaining_content st) (remaining_padding st)
    (current_command st) p (finished st).

Definition set_command (n : Z) (st : VisionUnpaddingState) : VisionUnpaddingState :=
  mkUnpad n (remaining_content st) (remaining_padding st)
    (current_command st) (pending_initial st) (finished st).

Definition set_content (n : Z) (st : VisionUnpaddingState) : VisionUnpaddingState :=
  mkUnpad (remaining_command st) n (remaining_padding st)
    (current_command st) (pending_initial st) (finished st).

Definition set_padding (n : Z) (st : VisionUnpaddingState) : VisionUnpaddingState :=
  mkUnpad (remaining_command st) (remaining_content st) n
    (current_command st) (pending_initial st) (finished st).

(** One byte of the five-byte frame header. *)
Definition header_byte (byte : Z) (st : VisionUnpaddingState) : VisionUnpaddingState :=
  let '(content, padding, command) :=
    let c := remaining_content st in
    let p := remaining_padding st in
    let k := current_command st in
    match remaining_command st with
    | 5 => (c, p, byte)
    | 4 => (Z.shiftl byte 8, p, k)
    | 3 => (Z.lor c byte, p, k)
    | 2 => (c, Z.shiftl byte 8, k)
    | 1 => (c, Z.lor p byte, k)
    | _ => (c, p, k)
    end in
  mkUnpad (remaining_command st - 1) content padding command (pending_initial st) (finished st).

(** The header, content or padding step of one round of the loop: the new state,
    the bytes emitted and what is left of the input, whose first byte is [b]. *)
Definition consume (st : VisionUnpaddingState) (b : Z) (rest : bytes) :
    VisionUnpaddingState * bytes * bytes :=
  let input := b :: rest in
  if 0 <? remaining_command st then (header_byte b st, [], rest)
  else if 0 <? remaining_content st then
    let take_n := Nat.min (Z.to_nat (remaining_content st)) (length input) in
    (set_content (remaining_content st - Z.of_nat take_n) st,
     take take_n input, drop take_n input)
  else if 0 <? remaining_padding st then
    let skip := Nat.min (Z.to_nat (remaining_padding st)) (length input) in
    (set_padding (remaining_padding st - Z.of_nat skip) st, [], drop skip input)
  else (st, [], input).

(** The test at the end of the round: [None] goes on, [Some d] has finished and
    [d] tells whether to switch to direct copy. *)
Definition frame_end (st : VisionUnpaddingState) : VisionUnpaddingState * option bool :=
  if (remaining_command st <=? 0) && (remaining_content st <=? 0) &&
     (remaining_padding st <=? 0)
  then if current_command st =? VISION_COMMAND_PADDING_CONTINUE
       then (set_command 5 st, None)
       else (mkUnpad VISION_INITIAL VISION_INITIAL VISION_INITIAL (current_command st)
               (pending_initial st) true,
             Some (current_command st =? VISION_COMMAND_PADDING_DIRECT))
  else (st, None).

Definition round (st : VisionUnpaddingState) (b : Z) (rest : bytes) :
    VisionUnpaddingState * bytes * bytes * option bool :=
  let '(st1, out, rest1) := consume st b rest in
  let '(st2, fin) := frame_end st1 in
  (st2, out, rest1, fin).

(** The [while] loop of [feed] on the input that is left; [None] is exhausted
    fuel. *)
Fixpoint feed_loop (fuel : nat) (uuid : bytes) (st : VisionUnpaddingState)
    (input out : bytes) : option (VisionUnpaddingState * bytes * bool) :=
  match fuel, input with
  | _, [] => Some (st, out, false)
  | O, _ => None
  | S fuel', b :: rest =>
      let go st b rest :=
        let '(st', o, rest', fin) := round st b rest in
        match fin with
        | None => feed_loop fuel' uuid st' rest' (out ++ o)
        | Some d => Some (st', out ++ o ++ rest', d)
        end in
      if initial st then
        if bool_decide (pending_initial st = []) && (21 <=? length input)%nat then
          if bool_decide (take 16 input = uuid) then
            match drop 16 input with
            | [] => None
            | b' :: rest' => go (set_command 5 st) b' rest'
            end
          else Some (set_finished (pending_initial st) st, out ++ input, false)
        else
          let p := pending_initial st ++ input in
          if (length p <? 21)%nat then Some (set_pending p st, out, false)
          else if bool_decide (take 16 p = uuid) then
            feed_loop fuel' uuid (set_pending [] (set_command 5 st)) (drop 16 p) out
          else Some (set_finished [] st, out ++ p, false)
      else go st b rest
  end.

(** [feed] returns the state, the bytes put into [out] and whether the stream
    should switch to direct copy. *)
Definition feed (uuid : bytes) (st : VisionUnpaddingState) (input : bytes) :
    option (VisionUnpaddingState * bytes * bool) :=
  if finished st then Some (st, input, false)
  else feed_loop (S (length (pending_initial st) + length input)) uuid st input [].

(** ** The chunk builder *)

Definition fill_vision_chunk (uuid content : bytes) (command : Z) (include_uuid : bool) : bytes :=
  (if include_uuid then uuid else []) ++
  [command; as_u8 (Z.shiftr (zlen content) 8); Z.land (zlen content) 0xff; 0; 0] ++ content.

Definition looks_like_tls_application_data (buf : bytes) : bool :=
  (6 <=? length buf)%nat && bool_decide (take 3 buf = TLS_APPLICATION_DATA_START).

Fixpoint is_complete_tls_record_loop (fuel : nat) (buf : bytes) : bool :=
  match fuel, buf with
  | _, [] => true
  | O, _ => false
  | S fuel', _ =>
      if (length buf <? 5)%nat then false
      else if negb (bool_decide (take 3 buf = TLS_APPLICATION_DATA_START)) then false
      else
        let record_len := Z.to_nat (be_val (take 2 (drop 3 buf))) in
        let buf' := drop 5 buf in
        if (length buf' <? record_len)%nat then false
        else is_complete_tls_record_loop fuel' (drop record_len buf')
  end.

Definition is_complete_tls_record (buf : bytes) : bool :=
  is_complete_tls_record_loop (length buf) buf.

(** * Unpadding, byte by byte

    The reference machine reads one byte at a time, so that it cannot depend on
    how the stream is cut into reads. *)

Fixpoint run (step : VisionUnpaddingState -> Z -> VisionUnpaddingState * bytes * bool)
    (st : VisionUnpaddingState) (l : bytes) : VisionUnpaddingState * bytes * bool :=
  match l with
  | [] => (st, [], false)
  | b :: l' =>
      let '(st1, o1, d1) := step st b in
      let '(st2, o2, d2) := run step st1 l' in
      (st2, o1 ++ o2, d1 || d2)
  end.

Definition frame_byte (st : VisionUnpaddingState) (b : Z) : VisionUnpaddingState * bytes * bool :=
  if finished st then (st, [b], false)
  else let '(st', o, _, fin) := round st b [] in (st', o, default false fin).

Definition vision_byte (uuid : bytes) (st : VisionUnpaddingState) (b : Z) :
    VisionUnpaddingState * bytes * bool :=
  if finished st || negb (initial st) then frame_byte st b
  else
    let p := pending_initial st ++ [b] in
    if (length p <? 21)%nat then (set_pending p st, [], false)
    else if bool_decide (take 16 p = uuid)
    then run frame_byte (set_pending [] (set_command 5 st)) (drop 16 p)
    else (set_finished [] st, p, false).

Abbreviation vision_bytes uuid := (run (vision_byte uuid)).

(** States in the middle of a frame. *)
Definition in_frame (st : VisionUnpaddingState) : Prop :=
  finished st = false /\ pending_initial st = [] /\ 0 <= remaining_command st /\
  (0 < remaining_command st \/ 0 < remaining_content st \/ 0 < remaining_padding st).

Definition before_frame (st : VisionUnpaddingState) : Prop :=
  finished st = false /\ initial st = true /\ (length (pending_initial st) < 21)%nat.

(** The states that the unpadder reaches. *)
Definition unpad_ok (st : VisionUnpaddingState) : Prop :=
  finished st = true \/ before_frame st \/ in_frame st.

Lemma unpad_ok_new : unpad_ok VisionUnpaddingState_new.
Proof. right. left. repeat split. cbn. lia. Qed.

Lemma run_app step st l1 l2 :
  run step st (l1 ++ l2) =
  let '(st1, o1, d1) := run step st l1 in
  let '(st2, o2, d2) := run step st1 l2 in (st2, o1 ++ o2, d1 || d2).
Proof.
  revert st. induction l1 as [|b l1 IH]; intros st; cbn.
  - by destruct (run step st l2) as [[??]?].
  - destruct (step st b) as [[st1 o1] d1]. rewrite IH.
    destruct (run step st1 l1) as [[st2 o2] d2].
    destruct (run step st2 l2) as [[st3 o3] d3]. by rewrite app_assoc, orb_assoc.
Qed.

Lemma in_frame_not_initial st : in_frame st -> initial st = false.
Proof.
  intros (_ & _ & Hc & _). unfold initial, VISION_INITIAL.
  destruct (remaining_command st =? -1) eqn:E; [bool_hyps; lia|done].
Qed.

Lemma frame_end_ok st st' fin :
  finished st = false -> pending_initial st = [] -> 0 <= remaining_command st ->
  frame_end st = (st', fin) ->
  match fin with None => in_frame st' | Some _ => finished st' = true end.
Proof.
  intros Hf Hp Hc. unfold frame_end.
  destruct ((remaining_command st <=? 0) && (remaining_content st <=? 0)) eqn:E1;
    [destruct (remaining_padding st <=? 0) eqn:E2|]; cbn [andb]; bool_hyps.
  - case_match; intros [= <- <-]; [|done]. split_and!; cbn; auto with lia.
  - intros [= <- <-]. split_and!; auto with lia.
  - intros [= <- <-]. split_and!; auto. destruct E1; bool_hyps; auto with lia.
Qed.

Lemma header_byte_frame b st :
  remaining_command (header_byte b st) = remaining_command st - 1 /\
  pending_initial (header_byte b st) = pending_initial st /\
  finished (header_byte b st) = finished st.
Proof.
  unfold header_byte.
  match goal with |- context [let '(_, _) := ?x in _] => destruct x as [[??]?] end. done.
Qed.

Lemma consume_inv st b rest st' o rest' :
  in_frame st -> consume st b rest = (st', o, rest') ->
  finished st' = false /\ pending_initial st' = [] /\ 0 <= remaining_command st' /\
  (length rest' <= length rest)%nat.
Proof.
  intros (Hf & Hp & Hc & Ha). unfold consume.
  destruct (0 <? remaining_command st) eqn:E1; bool_hyps.
  { intros [= <- <- <-]. destruct (header_byte_frame b st) as (-> & -> & ->). auto with lia. }
  destruct (0 <? remaining_content st) eqn:E2; bool_hyps.
  { intros [= <- <- <-]. cbn [finished pending_initial remaining_command].
    rewrite length_drop. cbn [length]. split_and!; auto; lia. }
  destruct (0 <? remaining_padding st) eqn:E3; bool_hyps; [|lia].
  intros [= <- <- <-]. cbn [finished pending_initial remaining_command].
  rewrite length_drop. cbn [length]. split_and!; auto; lia.
Qed.

Lemma round_inv st b rest st' o rest' fin :
  in_frame st -> round st b rest = (st', o, rest', fin) ->
  (length rest' <= length rest)%nat /\
  match fin with None => in_frame st' | Some _ => finished st' = true end.
Proof.
  intros Hst. unfold round. destruct (consume st b rest) as [[st1 o1] rest1] eqn:Hc.
  apply consume_inv in Hc as (? & ? & ? & ?); [|done].
  destruct (frame_end st1) as [st2 fin2] eqn:He.
  apply frame_end_ok in He; [|done..]. by intros [= <- <- <- <-].
Qed.

Lemma vision_byte_in_frame uuid st b : in_frame st -> vision_byte uuid st b = frame_byte st b.
Proof. intros H. unfold vision_byte. by rewrite in_frame_not_initial, orb_true_r. Qed.

Lemma vision_byte_finished uuid st b :
  finished st = true -> vision_byte uuid st b = (st, [b], false).
Proof. intros Hf. unfold vision_byte, frame_byte. by rewrite Hf. Qed.

Lemma run_finished uuid st l : finished st = true -> vision_bytes uuid st l = (st, l, false).
Proof.
  intros Hf. induction l as [|b l IH]; [done|]. cbn. by rewrite vision_byte_finished, IH.
Qed.

Lemma frame_end_open st :
  0 < remaining_content st \/ 0 < remaining_padding st -> frame_end st = (st, None).
Proof.
  intros H. unfold frame_end.
  destruct ((remaining_command st <=? 0) && (remaining_content st <=? 0)) eqn:E1;
    [destruct (remaining_padding st <=? 0) eqn:E2|]; bool_hyps; [lia|done|done].
Qed.

Lemma content_run uuid st l :
  in_frame st -> remaining_command st = 0 -> l <> [] -> zlen l <= remaining_content st ->
  vision_bytes uuid st l =
  let '(st', fin) := frame_end (set_content (remaining_content st - zlen l) st) in
  (st', l, default false fin).
Proof.
  revert st. induction l as [|b l IH]; intros st Hst Hc Hl Hn; [done|]. cbn [run].
  rewrite vision_byte_in_frame by done. unfold frame_byte, round, consume.
  rewrite (proj1 Hst), Hc. change (0 <? 0) with false. cbv iota.
  rewrite (proj2 (Z.ltb_lt 0 (remaining_content st))) by (unfold zlen in *; cbn in *; lia).
  rewrite Nat.min_r by (unfold zlen in *; cbn in *; lia). cbn [length take drop].
  destruct l as [|b' l].
  - change (zlen [b]) with 1. change (Z.of_nat 1) with 1.
    destruct (frame_end _) as [st' fin]. cbn. by rewrite orb_false_r.
  - unfold zlen in Hn. cbn [length] in Hn.
    rewrite frame_end_open by (left; cbn; lia).
    rewrite IH; [|split_and!; cbn; try apply Hst; lia|done|done|unfold zlen; cbn; lia].
    cbn [remaining_content set_content remaining_command remaining_padding current_command
      pending_initial finished].
    replace (remaining_content st - Z.of_nat 1 - zlen (b' :: l))
      with (remaining_content st - zlen (b :: b' :: l)) by (unfold zlen; cbn [length]; lia).
    change (set_content ?x (set_content ?y st)) with (set_content x st).
    destruct (frame_end _) as [st' fin]. done.
Qed.

Lemma padding_run uuid st l :
  in_frame st -> remaining_command st = 0 -> remaining_content st <= 0 ->
  l <> [] -> zlen l <= remaining_padding st ->
  vision_bytes uuid st l =
  let '(st', fin) := frame_end (set_padding (remaining_padding st - zlen l) st) in
  (st', [], default false fin).
Proof.
  revert st. induction l as [|b l IH]; intros st Hst Hc Hz Hl Hn; [done|]. cbn [run].
  rewrite vision_byte_in_frame by done. unfold frame_byte, round, consume.
  rewrite (proj1 Hst), Hc. change (0 <? 0) with false. cbv iota.
  rewrite (proj2 (Z.ltb_ge 0 (remaining_content st))) by done.
  rewrite (proj2 (Z.ltb_lt 0 (remaining_padding st))) by (unfold zlen in *; cbn in *; lia).
  rewrite Nat.min_r by (unfold zlen in *; cbn in *; lia). cbn [length take drop].
  destruct l as [|b' l].
  - change (zlen [b]) with 1. change (Z.of_nat 1) with 1.
    destruct (frame_end _) as [st' fin]. cbn. by rewrite orb_false_r.
  - unfold zlen in Hn. cbn [length] in Hn.
    rewrite frame_end_open by (right; cbn; lia).
    rewrite IH; [|split_and!; cbn; try apply Hst; lia|done|done|done|unfold zlen; cbn; lia].
    cbn [remaining_content set_padding remaining_command remaining_padding current_command
      pending_initial finished].
    replace (remaining_padding st - Z.of_nat 1 - zlen (b' :: l))
      with (remaining_padding st - zlen (b :: b' :: l)) by (unfold zlen; cbn [length]; lia).
    change (set_padding ?x (set_padding ?y st)) with (set_padding x st).
    destruct (frame_end _) as [st' fin]. done.
Qed.

(** A round that takes many bytes at once is the same number of one-byte rounds. *)
Lemma round_unroll uuid st b rest st' o rest' fin :
  in_frame st -> round st b rest = (st', o, rest', fin) ->
  exists l, b :: rest = l ++ rest' /\ vision_bytes uuid st l = (st', o, default false fin).
Proof.
  intros Hst. unfold round, consume.
  destruct (0 <? remaining_command st) eqn:E1.
  { destruct (frame_end _) as [st2 fin2] eqn:He. intros [= <- <- <- <-]. exists [b].
    split; [done|]. cbn [run]. rewrite vision_byte_in_frame by done.
    unfold frame_byte, round, consume. rewrite (proj1 Hst), E1, He. cbn.
    by rewrite orb_false_r. }
  bool_hyps. assert (Hc : remaining_command st = 0) by (destruct Hst as (_ & _ & ? & _); lia).
  set (input := b :: rest). assert (Hin : (0 < length input)%nat) by (cbn; lia).
  destruct (0 <? remaining_content st) eqn:E2; bool_hyps.
  { set (k := Nat.min _ _). destruct (frame_end _) as [st2 fin2] eqn:He.
    intros [= <- <- <- <-]. exists (take k input). rewrite take_drop. split; [done|].
    assert (Hk : zlen (take k input) = Z.of_nat k)
      by (unfold zlen; rewrite length_take; f_equal; lia).
    rewrite content_run; [by rewrite Hk, He|done|done| |].
    - intros Hnil. rewrite Hnil in Hk. unfold zlen in Hk. cbn in Hk. lia.
    - rewrite Hk. lia. }
  destruct (0 <? remaining_padding st) eqn:E3; bool_hyps;
    [|destruct Hst as (_ & _ & _ & ?); lia].
  set (k := Nat.min _ _). destruct (frame_end _) as [st2 fin2] eqn:He.
  intros [= <- <- <- <-]. exists (take k input). rewrite take_drop. split; [done|].
  assert (Hk : zlen (take k input) = Z.of_nat k)
    by (unfold zlen; rewrite length_take; f_equal; lia).
  rewrite padding_run; [by rewrite Hk, He|done|done|done| |].
  - intros Hnil. rewrite Hnil in Hk. unfold zlen in Hk. cbn in Hk. lia.
  - rewrite Hk. lia.
Qed.

Lemma frame_byte_inv st b st' o d :
  in_frame st \/ finished st = true -> frame_byte st b = (st', o, d) ->
  in_frame st' \/ finished st' = true.
Proof.
  unfold frame_byte. destruct (finished st) eqn:Hf.
  { intros _ [= <- _ _]. by right. }
  intros [Hst|]; [|done]. destruct (round st b []) as [[[st2 o2] r2] fin] eqn:Hr.
  apply round_inv in Hr as [_ Hr]; [|done]. intros [= <- _ _]. destruct fin; auto.
Qed.

Lemma run_frame_byte uuid st l :
  in_frame st \/ finished st = true -> run frame_byte st l = vision_bytes uuid st l.
Proof.
  revert st. induction l as [|b l IH]; intros st Hst; [done|]. cbn.
  assert (Hb : vision_byte uuid st b = frame_byte st b).
  { destruct Hst as [Hst|Hst]; [by apply vision_byte_in_frame|].
    rewrite vision_byte_finished by done. unfold frame_byte. by rewrite Hst. }
  rewrite Hb. destruct (frame_byte st b) as [[st1 o1] d1] eqn:E.
  apply frame_byte_inv in E; [|done]. by rewrite IH.
Qed.

Lemma in_frame_header st : finished st = false -> in_frame (set_pending [] (set_command 5 st)).
Proof. intros Hf. split_and!; cbn; auto with lia. Qed.

(** The frame header is only looked for once 21 bytes have arrived. *)
Lemma run_before_frame_short uuid st l :
  before_frame st -> (length (pending_initial st ++ l) < 21)%nat ->
  vision_bytes uuid st l = (set_pending (pending_initial st ++ l) st, [], false).
Proof.
  revert st. induction l as [|b l IH]; intros st (Hf & Hi & Hn) Hl; cbn [run].
  - rewrite app_nil_r. by destruct st.
  - unfold vision_byte at 1. rewrite Hf, Hi. cbn [orb negb].
    rewrite length_app in Hl. cbn [length] in Hl.
    rewrite (proj2 (Nat.ltb_lt (length (pending_initial st ++ [b])) 21))
      by (rewrite length_app; cbn; lia).
    rewrite IH; [cbn; by rewrite <- app_assoc| |cbn; rewrite !length_app; cbn; lia].
    split_and!; cbn; [done|done|rewrite length_app; cbn; lia].
Qed.

Lemma run_before_frame uuid st l :
  before_frame st -> (21 <= length (pending_initial st ++ l))%nat ->
  vision_bytes uuid st l =
  (let p := pending_initial st ++ l in
   if bool_decide (take 16 p = uuid)
   then vision_bytes uuid (set_pending [] (set_command 5 st)) (drop 16 p)
   else (set_finished [] st, p, false)).
Proof.
  revert st. induction l as [|b l IH]; intros st (Hf & Hi & Hn) Hl.
  { rewrite app_nil_r in Hl. lia. }
  cbn [run]. unfold vision_byte at 1. rewrite Hf, Hi. cbn [orb negb]. cbv zeta.
  replace (pending_initial st ++ b :: l) with ((pending_initial st ++ [b]) ++ l)
    by (by rewrite <- app_assoc).
  set (p := pending_initial st ++ [b]).
  assert (Hp : length p = S (length (pending_initial st)))
    by (unfold p; rewrite length_app; cbn; lia).
  destruct (length p <? 21)%nat eqn:E; bool_hyps.
  { rewrite IH; [|by split_and!|cbn; rewrite length_app; rewrite length_app in Hl; cbn in Hl; lia].
    cbn [pending_initial set_pending]. case_bool_decide; [|done].
    change (set_pending [] (set_command 5 (set_pending p st)))
      with (set_pending [] (set_command 5 st)).
    by destruct (run _ _ _) as [[??]?]. }
  rewrite take_app_le, drop_app_le by lia. case_bool_decide.
  - rewrite (run_frame_byte uuid) by (left; by apply in_frame_header).
    rewrite run_app. by destruct (run _ _ (drop 16 p)) as [[??]?].
  - rewrite run_finished by done. done.
Qed.

(** The loop computes what the byte machine computes, and its fuel is enough. *)
Lemma feed_loop_run uuid fuel st input out :
  before_frame st \/ in_frame st ->
  (length (pending_initial st) + length input < fuel)%nat ->
  feed_loop fuel uuid st input out =
  let '(st', o, d) := vision_bytes uuid st input in Some (st', out ++ o, d).
Proof.
  revert st input out. induction fuel as [|fuel IH]; intros st input out Hst Hfuel; [lia|].
  destruct input as [|b rest]; [cbn; by rewrite app_nil_r|].
  assert (Hgo : forall st b rest, in_frame st -> (length rest < fuel)%nat ->
    (let '(st', o, rest', fin) := round st b rest in
     match fin with
     | None => feed_loop fuel uuid st' rest' (out ++ o)
     | Some d => Some (st', out ++ o ++ rest', d)
     end) = let '(st', o, d) := vision_bytes uuid st (b :: rest) in Some (st', out ++ o, d)).
  { clear -IH. intros st b rest Hst Hlen.
    destruct (round st b rest) as [[[st1 o1] rest1] fin] eqn:Hr.
    destruct (round_unroll uuid _ _ _ _ _ _ _ Hst Hr) as (l & -> & Hl).
    apply round_inv in Hr as [Hr1 Hr2]; [|done]. rewrite run_app, Hl. destruct fin as [d|].
    - rewrite run_finished by done. cbn. by rewrite orb_false_r.
    - rewrite IH; [|by right|rewrite (proj1 (proj2 Hr2)); cbn; lia].
      destruct (run _ _ rest1) as [[st2 o2] d2]. cbn. by rewrite app_assoc. }
  cbn [feed_loop]. destruct Hst as [Hst|Hst].
  - pose proof Hst as (Hf & Hi & Hn). rewrite Hi.
    destruct (bool_decide (pending_initial st = []) && (21 <=? length (b :: rest))%nat) eqn:E.
    + bool_hyps. rename H into Hp. rewrite run_before_frame by (by rewrite ?Hp). rewrite Hp. cbv zeta.
      cbn [app]. set (input := b :: rest) in *. case_bool_decide; [|done].
      assert (Hst5 : set_pending [] (set_command 5 st) = set_command 5 st)
        by (destruct st; cbn in *; by subst).
      rewrite Hst5. destruct (drop 16 input) as [|b' rest'] eqn:Hd.
      all: apply (f_equal length) in Hd; rewrite length_drop in Hd; cbn [length] in Hd.
      { lia. }
      apply Hgo; [rewrite <- Hst5; by apply in_frame_header|lia].
    + cbv zeta. set (input := b :: rest) in *.
      destruct (length (pending_initial st ++ input) <? 21)%nat eqn:E2; bool_hyps.
      { rewrite run_before_frame_short by done. by rewrite app_nil_r. }
      rewrite run_before_frame by done. cbv zeta.
      destruct (bool_decide (take 16 (pending_initial st ++ input) = uuid)); [|done].
      apply IH; [right; by apply in_frame_header|]. cbn [pending_initial set_pending].
      rewrite length_drop. rewrite length_app in *. change (length []) with 0%nat. lia.
  - rewrite in_frame_not_initial by done. apply Hgo; [done|]. cbn in Hfuel. lia.
Qed.

Lemma vision_byte_ok uuid st b : unpad_ok st -> unpad_ok (vision_byte uuid st b).1.1.
Proof.
  intros [Hst|[(Hf & Hi & Hn)|Hst]].
  - rewrite vision_byte_finished by done. by left.
  - unfold vision_byte. rewrite Hf, Hi. cbn [orb negb]. case_match eqn:E; bool_hyps.
    { right. left. by split_and!. }
    case_bool_decide; [|by left].
    assert (Hok : forall l s, in_frame s \/ finished s = true ->
      in_frame (run frame_byte s l).1.1 \/ finished (run frame_byte s l).1.1 = true).
    { clear. induction l as [|b l IH]; intros s Hs; [done|]. cbn.
      destruct (frame_byte s b) as [[s1 o1] d1] eqn:E1. apply frame_byte_inv in E1; [|done].
      specialize (IH s1 E1). by destruct (run frame_byte s1 l) as [[??]?]. }
    destruct (Hok (drop 16 (pending_initial st ++ [b])) _ (or_introl (in_frame_header st Hf)));
      [by right; right|by left].
  - rewrite vision_byte_in_frame by done.
    destruct (frame_byte st b) as [[s1 o1] d1] eqn:E. cbn.
    apply frame_byte_inv in E as [?|?]; [by right; right|by left|by left].
Qed.

Lemma vision_bytes_ok uuid st l : unpad_ok st -> unpad_ok (vision_bytes uuid st l).1.1.
Proof.
  revert st. induction l as [|b l IH]; intros st Hst; [done|]. cbn.
  pose proof (vision_byte_ok uuid st b Hst) as Hok.
  destruct (vision_byte uuid st b) as [[s1 o1] d1]. specialize (IH s1 Hok).
  by destruct (vision_bytes uuid s1 l) as [[??]?].
Qed.

Lemma feed_run uuid st input :
  unpad_ok st -> feed uuid st input = Some (vision_bytes uuid st input).
Proof.
  intros Hst. unfold feed. destruct (finished st) eqn:Hf.
  { by rewrite run_finished. }
  destruct Hst as [|Hst]; [congruence|]. rewrite feed_loop_run by (done || lia).
  by destruct (vision_bytes uuid st input) as [[??]?].
Qed.

(** Several reads, fed one after the other. *)
Fixpoint feed_all (uuid : bytes) (st : VisionUnpaddingState) (reads : list bytes) :
    option (VisionUnpaddingState * bytes * bool) :=
  match reads with
  | [] => Some (st, [], false)
  | r :: reads' =>
      '(st1, o1, d1) ← feed uuid st r;
      '(st2, o2, d2) ← feed_all uuid st1 reads';
      Some (st2, o1 ++ o2, d1 || d2)
  end.

Lemma feed_all_run uuid st reads :
  unpad_ok st -> feed_all uuid st reads = Some (vision_bytes uuid st (concat reads)).
Proof.
  revert st. induction reads as [|r reads IH]; intros st Hst; [done|]. cbn.
  rewrite feed_run by done. cbn. rewrite run_app.
  pose proof (vision_bytes_ok uuid st r Hst) as Hok.
  destruct (vision_bytes uuid st r) as [[s1 o1] d1]. rewrite IH by done. cbn.
  by destruct (vision_bytes uuid s1 (concat reads)) as [[??]?].
Qed.

(** ** Frames on the wire *)

Record frame : Type := mkFrame { f_command : Z; f_content : bytes; f_padding : bytes }.

Definition frame_ok (f : frame) : Prop :=
  in_u8 (f_command f) /\ zlen (f_content f) < 2 ^ 16 /\ zlen (f_padding f) < 2 ^ 16.

Definition frame_wire (f : frame) : bytes :=
  f_command f :: be_bytes 2 (zlen (f_content f)) ++ be_bytes 2 (zlen (f_padding f)) ++
  f_content f ++ f_padding f.

(** Where the unpadder is after a frame with the given command. *)
Definition after_frame (command : Z) : VisionUnpaddingState * option bool :=
  frame_end (mkUnpad 0 0 0 command [] false).

Lemma be_bytes_2_split n : in_u16 n -> be_bytes 2 n = [n / 256; n mod 256].
Proof.
  intros Hn. unfold be_bytes. cbn [Z.of_nat Z.pow Z.pow_pos Pos.iter]. rewrite Z.div_1_r.
  rewrite (Z.mod_small (n / _)); [done|]. unfold in_u16 in Hn. cbn in *.
  split; [apply Z.div_pos; lia|apply Z.div_lt_upper_bound; lia].
Qed.

Lemma lor_shiftl_split n : 0 <= n -> Z.lor (Z.shiftl (n / 256) 8) (n mod 256) = n.
Proof.
  intros Hn. rewrite Z.lor_comm, Z.shiftl_mul_pow2 by lia.
  rewrite lor_shiftl_add; [|lia|apply Z.mod_pos_bound; lia].
  change (2 ^ 8) with 256. rewrite (Z.div_mod n 256) at 3 by lia. lia.
Qed.

Ltac frame_tac := unfold in_frame, zlen in *; split_and?; cbn; auto with lia; lia.

Lemma header_step uuid st b :
  in_frame st -> 0 < remaining_command st ->
  vision_byte uuid st b =
  if 1 <? remaining_command st then (header_byte b st, [], false)
  else let '(st', fin) := frame_end (header_byte b st) in (st', [], default false fin).
Proof.
  intros Hst Hc. rewrite vision_byte_in_frame by done. unfold frame_byte, round, consume.
  rewrite (proj1 Hst), (proj2 (Z.ltb_lt _ _) Hc).
  destruct (1 <? remaining_command st) eqn:E; bool_hyps; [|by destruct (frame_end _)].
  unfold frame_end. destruct (header_byte_frame b st) as (-> & _ & _).
  rewrite (proj2 (Z.leb_gt (remaining_command st - 1) 0)) by lia. done.
Qed.

Lemma header_run uuid c p k command n m :
  in_u16 n -> in_u16 m ->
  vision_bytes uuid (mkUnpad 5 c p k [] false) (command :: be_bytes 2 n ++ be_bytes 2 m) =
  let '(st, fin) := frame_end (mkUnpad 0 n m command [] false) in (st, [], default false fin).
Proof.
  intros Hn Hm. rewrite !be_bytes_2_split by done. cbn [app run].
  do 4 (rewrite header_step by frame_tac;
        cbn -[vision_byte frame_end Z.lor Z.shiftl Z.div Z.modulo];
        change (5 - 1) with 4; change (4 - 1) with 3; change (3 - 1) with 2;
        change (2 - 1) with 1).
  rewrite header_step by frame_tac. cbn -[frame_end Z.lor Z.shiftl Z.div Z.modulo].
  change (1 - 1) with 0.
  unfold in_u16 in *. rewrite !lor_shiftl_split by lia.
  destruct (frame_end _) as [st fin]. by rewrite orb_false_r.
Qed.

Lemma frame_end_open_frame n m command :
  0 < n \/ 0 < m ->
  frame_end (mkUnpad 0 n m command [] false) = (mkUnpad 0 n m command [] false, None).
Proof. intros H. by apply frame_end_open. Qed.

Lemma frame_run uuid c p k f :
  frame_ok f ->
  vision_bytes uuid (mkUnpad 5 c p k [] false) (frame_wire f) =
  let '(st, fin) := after_frame (f_command f) in (st, f_content f, default false fin).
Proof.
  destruct f as [command content padding]. intros (_ & Hn & Hm). unfold frame_wire, after_frame.
  cbn [f_command f_content f_padding] in *.
  pose proof (zlen_nonneg content). pose proof (zlen_nonneg padding).
  rewrite app_comm_cons, (app_assoc (command :: _)), run_app.
  rewrite <- app_comm_cons, header_run by (unfold in_u16; lia).
  destruct content as [|c0 content]; [destruct padding as [|p0 padding]|].
  - change (zlen []) with 0. destruct (frame_end _) as [st fin]. cbn. by rewrite orb_false_r.
  - change (zlen []) with 0. rewrite frame_end_open_frame by frame_tac.
    cbn [default app].
    rewrite padding_run; [|frame_tac|done|done|done|cbn; lia].
    cbn [remaining_padding]. rewrite Z.sub_diag.
    change (set_padding 0 ?s) with (mkUnpad 0 0 0 command [] false).
    by destruct (frame_end _).
  - rewrite frame_end_open_frame by frame_tac. cbn [default].
    rewrite run_app, content_run;
      [|frame_tac|done|done|cbn; lia].
    cbn [remaining_content]. rewrite Z.sub_diag.
    change (set_content 0 ?s) with (mkUnpad 0 0 (zlen padding) command [] false).
    destruct padding as [|p0 padding].
    + change (zlen []) with 0. destruct (frame_end _) as [st fin]. cbn.
      by rewrite app_nil_r, orb_false_r.
    + rewrite frame_end_open_frame by frame_tac.
      rewrite padding_run; [|frame_tac|done|done|done|cbn; lia].
      cbn [remaining_padding]. rewrite Z.sub_diag.
      change (set_padding 0 ?s) with (mkUnpad 0 0 0 command [] false).
      destruct (frame_end _) as [st fin]. cbn. by rewrite app_nil_r.
Qed.

(** A whole direction of a Vision stream: the user's UUID, frames that go on, a
    last frame, and the raw bytes that follow it. *)
Definition vision_wire (uuid : bytes) (fs : list frame) (last : frame) (tail : bytes) : bytes :=
  uuid ++ concat (frame_wire <$> fs) ++ frame_wire last ++ tail.

Definition goes_on (f : frame) : Prop :=
  frame_ok f /\ f_command f = VISION_COMMAND_PADDING_CONTINUE.
Definition is_last (f : frame) : Prop :=
  frame_ok f /\ f_command f <> VISION_COMMAND_PADDING_CONTINUE.

Lemma after_frame_continue command :
  command = VISION_COMMAND_PADDING_CONTINUE -> after_frame command = (mkUnpad 5 0 0 0 [] false, None).
Proof. by intros ->. Qed.

Lemma after_frame_last command :
  command <> VISION_COMMAND_PADDING_CONTINUE ->
  after_frame command =
  (mkUnpad VISION_INITIAL VISION_INITIAL VISION_INITIAL command [] true,
   Some (command =? VISION_COMMAND_PADDING_DIRECT)).
Proof.
  intros H. unfold after_frame, frame_end. cbn [remaining_command remaining_content
    remaining_padding current_command pending_initial Z.leb Z.compare andb].
  by rewrite (proj2 (Z.eqb_neq _ _) H).
Qed.

Lemma frames_run uuid fs c p k rest :
  Forall goes_on fs ->
  exists c' p' k',
    vision_bytes uuid (mkUnpad 5 c p k [] false) (concat (frame_wire <$> fs) ++ rest) =
    let '(st, o, d) := vision_bytes uuid (mkUnpad 5 c' p' k' [] false) rest in
    (st, concat (f_content <$> fs) ++ o, d).
Proof.
  intros H. revert c p k. induction H as [|f fs [Hf Hc] _ IH]; intros c p k.
  { exists c, p, k. cbn. by destruct (run _ _ _) as [[??]?]. }
  destruct (IH 0 0 0) as (c' & p' & k' & Hrun). exists c', p', k'.
  cbn [fmap list_fmap concat]. rewrite <- !app_assoc, run_app, frame_run, after_frame_continue by done.
  rewrite Hrun. destruct (run _ _ rest) as [[??]?]. cbn. by rewrite app_assoc.
Qed.

Lemma frame_wire_length f : (5 <= length (frame_wire f))%nat.
Proof. unfold frame_wire. cbn [length]. rewrite !length_app, !length_be_bytes. lia. Qed.

Lemma vision_wire_run uuid fs last tail :
  length uuid = 16%nat -> Forall goes_on fs -> is_last last ->
  vision_bytes uuid VisionUnpaddingState_new (vision_wire uuid fs last tail) =
  (mkUnpad VISION_INITIAL VISION_INITIAL VISION_INITIAL (f_command last) [] true,
   concat (f_content <$> fs) ++ f_content last ++ tail,
   f_command last =? VISION_COMMAND_PADDING_DIRECT).
Proof.
  intros Hu Hfs [Hok Hl]. unfold vision_wire.
  assert (H21 : (21 <= length (uuid ++ concat (frame_wire <$> fs) ++ frame_wire last ++ tail))%nat).
  { rewrite !length_app. pose proof (frame_wire_length last). lia. }
  rewrite run_before_frame by (try done; repeat split; cbn; lia). cbv zeta.
  change (pending_initial VisionUnpaddingState_new) with (@nil Z). rewrite app_nil_l.
  rewrite <- Hu, take_app_length, drop_app_length, bool_decide_eq_true_2 by done.
  destruct (frames_run uuid fs VISION_INITIAL VISION_INITIAL 0 (frame_wire last ++ tail) Hfs)
    as (c' & p' & k' & Hrun).
  change (set_pending [] (set_command 5 VisionUnpaddingState_new))
    with (mkUnpad 5 VISION_INITIAL VISION_INITIAL 0 [] false).
  rewrite Hrun, run_app, frame_run, after_frame_last by done.
  rewrite run_finished by done. cbn [default]. by rewrite orb_false_r.
Qed.

(** ** [VisionStream] *)

Inductive LowerState : Type := Never | NotYet | AfterHandshake | Now.

Record VisionStream (S : Type) : Type := mkVision {
  inner : S;
  uuid : bytes;
  read_state : VisionUnpaddingState;
  read_buf : bytes;
  feed_scratch : bytes;
  read_direct_copy : bool;
  write_uuid_once : bool;
  write_direct_copy : bool;
  write_buf : bytes;
  write_pos : nat;
  write_pending_consumed : nat;
  write_pending_direct : bool;
  server_inbound : bool
}.
Arguments mkVision {S} _ _ _ _ _ _ _ _ _ _ _ _ _.
Arguments inner {S} _.
Arguments uuid {S} _.
Arguments read_state {S} _.
Arguments read_buf {S} _.
Arguments feed_scratch {S} _.
Arguments read_direct_copy {S} _.
Arguments write_uuid_once {S} _.
Arguments write_direct_copy {S} _.
Arguments write_buf {S} _.
Arguments write_pos {S} _.
Arguments write_pending_consumed {S} _.
Arguments write_pending_direct {S} _.
Arguments server_inbound {S} _.

Section VisionStream.
Context {S : Type}.
Implicit Type v : VisionStream S.

Definition VisionStream_new (i : S) (u : bytes) : VisionStream S :=
  mkVision i u VisionUnpaddingState_new [] [] false true false [] 0 0 false false.

Definition new_server_inbound (i : S) (u : bytes) : VisionStream S :=
  mkVision i u VisionUnpaddingState_new [] [] false true false [] 0 0 false true.

(** The fields that the read side and the write side own. *)
Definition set_read (i : S) (st : VisionUnpaddingState) (buf scratch : bytes) (direct : bool) v :
    VisionStream S :=
  mkVision i (uuid v) st buf scratch direct (write_uuid_once v) (write_direct_copy v)
    (write_buf v) (write_pos v) (write_pending_consumed v) (write_pending_direct v)
    (server_inbound v).

Definition set_write (i : S) (once direct : bool) (buf : bytes) (pos consumed : nat)
    (pending_direct : bool) v : VisionStream S :=
  mkVision i (uuid v) (read_state v) (read_buf v) (feed_scratch v) (read_direct_copy v)
    once direct buf pos consumed pending_direct (server_inbound v).

Definition set_inner (i : S) v : VisionStream S :=
  set_read i (read_state v) (read_buf v) (feed_scratch v) (read_direct_copy v) v.

(** Both branches of the source put the prefix in front of the buffer; the first
    reuses an empty one. *)
Definition prepend_plaintext (p : bytes) v : VisionStream S :=
  if bool_decide (p = []) then v
  else set_read (inner v) (read_state v)
         (if bool_decide (read_buf v = []) then p else p ++ read_buf v)
         (feed_scratch v) (read_direct_copy v) v.

Definition is_direct_copy_ready v : bool :=
  read_direct_copy v && write_direct_copy v && bool_decide (read_buf v = []) &&
  bool_decide (write_buf v = []).

Definition lower_state v : LowerState :=
  if is_direct_copy_ready v then Now
  else if read_direct_copy v || write_direct_copy v then AfterHandshake
  else NotYet.

Definition needs_server_direct_handoff v : bool :=
  server_inbound v && read_direct_copy v && negb (write_direct_copy v).

(** [poll_read]; the loop goes round while a read only brought padding. *)
Fixpoint Vision_poll_read_loop `{AsyncRead S} (fuel : nat) v (n : nat) :
    option (VisionStream S * poll (res io_error bytes)) :=
  if negb (bool_decide (read_buf v = [])) then
    let k := Nat.min n (length (read_buf v)) in
    let buf := if (length (read_buf v) <=? k)%nat then [] else drop k (read_buf v) in
    Some (set_read (inner v) (read_state v) buf (feed_scratch v) (read_direct_copy v) v,
          Ready (Ok (take k (read_buf v))))
  else if read_direct_copy v then
    let '(i, r) := poll_read (inner v) n in Some (set_inner i v, r)
  else
    match fuel with
    | O => None
    | Datatypes.S fuel' =>
        let '(i, r) := poll_read (inner v) (Z.to_nat 8192) in
        match r with
        | Ready (Ok []) => Some (set_inner i v, Ready (Ok []))
        | Ready (Ok filled) =>
            match feed (uuid v) (read_state v) filled with
            | None => None
            | Some (st, scratch, switch) =>
                let direct := read_direct_copy v || switch in
                if bool_decide (scratch = []) then
                  Vision_poll_read_loop fuel' (set_read i st (read_buf v) scratch direct v) n
                else
                  let k := Nat.min n (length scratch) in
                  let buf := if (k <? length scratch)%nat then read_buf v ++ drop k scratch
                             else read_buf v in
                  Some (set_read i st buf scratch direct v, Ready (Ok (take k scratch)))
            end
        | Ready (Err e) => Some (set_inner i v, Ready (Err e))
        | Ready Panic => Some (set_inner i v, Ready Panic)
        | Pending => Some (set_inner i v, Pending)
        end
    end.

(** [poll_drain_write_buf]; [fuel] is what is left of the frame, and every round
    writes at least one byte of it. *)
Fixpoint drain_loop `{AsyncWrite S} (fuel : nat) (i : S) (buf : bytes) (pos : nat) :
    S * nat * poll (res io_error unit) :=
  match fuel with
  | O => (i, pos, Ready (Ok tt))
  | Datatypes.S fuel' =>
      if (pos <? length buf)%nat then
        match poll_write i (drop pos buf) with
        | (i', Ready (Ok O)) => (i', pos, Ready (Err WriteZero))
        | (i', Ready (Ok n)) => drain_loop fuel' i' buf (pos + n)%nat
        | (i', Ready (Err e)) => (i', pos, Ready (Err e))
        | (i', Ready Panic) => (i', pos, Ready Panic)
        | (i', Pending) => (i', pos, Pending)
        end
      else (i, pos, Ready (Ok tt))
  end.

Definition poll_drain_write_buf `{AsyncWrite S} v : VisionStream S * poll (res io_error unit) :=
  match drain_loop (length (write_buf v) - write_pos v) (inner v) (write_buf v) (write_pos v) with
  | (i, _, Ready (Ok _)) =>
      (set_write i (write_uuid_once v) (write_direct_copy v || write_pending_direct v) [] 0
         (write_pending_consumed v) false v, Ready (Ok tt))
  | (i, pos, r) =>
      (set_write i (write_uuid_once v) (write_direct_copy v) (write_buf v) pos
         (write_pending_consumed v) (write_pending_direct v) v, r)
  end.

(** The command that the next frame carries. *)
Definition write_command v (buf : bytes) : Z :=
  if server_inbound v then
    if read_direct_copy v then VISION_COMMAND_PADDING_DIRECT
    else VISION_COMMAND_PADDING_CONTINUE
  else if looks_like_tls_application_data buf && is_complete_tls_record buf
  then VISION_COMMAND_PADDING_DIRECT
  else VISION_COMMAND_PADDING_END.

(** The part of [poll_write] after an earlier frame has been drained. *)
Definition write_frame `{AsyncWrite S} v (buf : bytes) :
    VisionStream S * poll (res io_error nat) :=
  if write_direct_copy v || bool_decide (buf = []) then
    let '(i, r) := poll_write (inner v) buf in (set_inner i v, r)
  else
    let command := write_command v buf in
    let v1 := set_write (inner v) false (write_direct_copy v)
                (fill_vision_chunk (uuid v) buf command (write_uuid_once v)) 0 (length buf)
                (command =? VISION_COMMAND_PADDING_DIRECT) v in
    match poll_drain_write_buf v1 with
    | (v2, Ready (Ok _)) =>
        (set_write (inner v2) (write_uuid_once v2) (write_direct_copy v2) (write_buf v2)
           (write_pos v2) 0 (write_pending_direct v2) v2, Ready (Ok (length buf)))
    | (v2, Ready (Err e)) => (v2, Ready (Err e))
    | (v2, Ready Panic) => (v2, Ready Panic)
    | (v2, Pending) => (v2, Pending)
    end.

Definition Vision_poll_write `{AsyncWrite S} v (buf : bytes) :
    VisionStream S * poll (res io_error nat) :=
  if bool_decide (write_buf v = []) then write_frame v buf
  else
    match poll_drain_write_buf v with
    | (v1, Ready (Ok _)) =>
        if (0 <? write_pending_consumed v1)%nat then
          (set_write (inner v1) (write_uuid_once v1) (write_direct_copy v1) (write_buf v1)
             (write_pos v1) 0 (write_pending_direct v1) v1,
           Ready (Ok (write_pending_consumed v1)))
        else write_frame v1 buf
    | (v1, Ready (Err e)) => (v1, Ready (Err e))
    | (v1, Ready Panic) => (v1, Ready Panic)
    | (v1, Pending) => (v1, Pending)
    end.

Definition Vision_poll_flush `{AsyncWrite S} v : VisionStream S * poll (res io_error unit) :=
  match poll_drain_write_buf v with
  | (v1, Ready (Ok _)) => let '(i, r) := poll_flush (inner v1) in (set_inner i v1, r)
  | other => other
  end.

Definition Vision_poll_shutdown `{AsyncWrite S} v : VisionStream S * poll (res io_error unit) :=
  match poll_drain_write_buf v with
  | (v1, Ready (Ok _)) => let '(i, r) := poll_shutdown (inner v1) in (set_inner i v1, r)
  | other => other
  end.

(** [complete_server_direct_handoff], polled to completion: [None] is an await
    that is still pending after [fuel] polls. *)
Definition complete_server_direct_handoff `{AsyncWrite S} (fuel : nat) v :
    option (VisionStream S * res io_error unit) :=
  if negb (needs_server_direct_handoff v) then Some (v, Ok tt)
  else
    '(v1, r1) ← await Vision_poll_flush fuel v;
    match r1 with
    | Ok _ =>
        let frame := fill_vision_chunk (uuid v1) [] VISION_COMMAND_PADDING_DIRECT
                       (write_uuid_once v1) in
        let v2 := set_write (inner v1) false (write_direct_copy v1) (write_buf v1) (write_pos v1)
                    (write_pending_consumed v1) (write_pending_direct v1) v1 in
        '(i, r2) ← write_all fuel (inner v2) frame;
        match r2 with
        | Ok _ =>
            '(i', r3) ← await poll_flush fuel i;
            match r3 with
            | Ok _ =>
                Some (set_write i' (write_uuid_once v2) true (write_buf v2) (write_pos v2)
                        (write_pending_consumed v2) (write_pending_direct v2) v2, Ok tt)
            | Err e => Some (set_inner i' v2, Err e)
            | Panic => Some (set_inner i' v2, Panic)
            end
        | Err e => Some (set_inner i v2, Err e)
        | Panic => Some (set_inner i v2, Panic)
        end
    | Err e => Some (v1, Err e)
    | Panic => Some (v1, Panic)
    end.
End VisionStream.

Lemma run_switch (step : VisionUnpaddingState -> Z -> VisionUnpaddingState * bytes * bool)
    (I : VisionUnpaddingState -> Prop) st l :
  (forall s b, I s -> I (step s b).1.1) ->
  (forall s b, I s -> (step s b).2 = true -> finished (step s b).1.1 = true) ->
  (forall s b, finished s = true -> step s b = (s, [b], false)) ->
  I st -> (run step st l).2 = true -> finished (run step st l).1.1 = true.
Proof.
  intros HI Hsw Hfin. revert st. induction l as [|b l IH]; intros st Hst; cbn; [done|].
  pose proof (HI st b Hst) as H1. pose proof (Hsw st b Hst) as H2.
  destruct (step st b) as [[s1 o1] d1]. cbn in H1, H2. specialize (IH s1 H1).
  assert (Hkeep : finished s1 = true -> finished (run step s1 l).1.1 = true).
  { clear -Hfin. intros Hf. enough ((run step s1 l).1.1 = s1) as -> by done.
    revert s1 Hf. induction l as [|b l IH]; intros s1 Hf; cbn; [done|].
    rewrite Hfin by done. specialize (IH s1 Hf). by destruct (run step s1 l) as [[??]?]. }
  destruct (run step s1 l) as [[s2 o2] d2]. cbn in *.
  intros [->| ->]%orb_true_iff; auto.
Qed.

Lemma frame_byte_finished st b : finished st = true -> frame_byte st b = (st, [b], false).
Proof. intros Hf. unfold frame_byte. by rewrite Hf. Qed.

Lemma frame_byte_switch st b :
  in_frame st \/ finished st = true ->
  (frame_byte st b).2 = true -> finished (frame_byte st b).1.1 = true.
Proof.
  intros [Hst|Hst]; [|by rewrite frame_byte_finished]. unfold frame_byte. rewrite (proj1 Hst).
  destruct (round st b []) as [[[s2 o2] r2] fin] eqn:Hr.
  apply round_inv in Hr as [_ Hr]; [|done]. by destruct fin.
Qed.

Lemma vision_byte_switch u st b :
  unpad_ok st -> (vision_byte u st b).2 = true -> finished (vision_byte u st b).1.1 = true.
Proof.
  intros [Hst|[(Hf & Hi & Hn)|Hst]].
  - by rewrite vision_byte_finished.
  - unfold vision_byte. rewrite Hf, Hi. cbn [orb negb]. case_match; [done|].
    case_bool_decide; [|done].
    apply (run_switch frame_byte (fun s => in_frame s \/ finished s = true)).
    + intros s c Hs. destruct (frame_byte s c) as [[s1 o1] d1] eqn:E.
      by apply frame_byte_inv in E.
    + intros. by apply frame_byte_switch.
    + intros. by apply frame_byte_finished.
    + left. by apply in_frame_header.
  - rewrite vision_byte_in_frame by done. apply frame_byte_switch. by left.
Qed.

Lemma feed_switch_finished u st input st' o :
  unpad_ok st -> feed u st input = Some (st', o, true) -> finished st' = true.
Proof.
  intros Hst. rewrite feed_run by done. intros [= Hrun].
  pose proof (run_switch (vision_byte u) unpad_ok st input) as Hsw. rewrite Hrun in Hsw.
  apply Hsw; auto using vision_byte_ok, vision_byte_switch, vision_byte_finished.
Qed.

(** * Reading through Vision *)

Section VisionRead.
Context {S : Type} `{ReadSpec S}.
Implicit Type v : VisionStream S.

(** The plaintext that the reader will still deliver: what is buffered, then what
    the unpadder makes of the bytes that are still to arrive. *)
Definition vision_incoming v : bytes :=
  read_buf v ++ (vision_bytes (uuid v) (read_state v) (incoming (inner v))).1.2.

Definition read_inv v : Prop :=
  unpad_ok (read_state v) /\ (read_direct_copy v = true -> finished (read_state v) = true).

(** A read returns the next plaintext bytes, whatever the fragmentation below;
    nothing is lost, repeated or reordered, and an empty read means that the
    plaintext has ended. *)
Definition read_post v (n : nat) v' (r : poll (res io_error bytes)) : Prop :=
  match r with
  | Ready (Ok c) =>
      (length c <= n)%nat /\ vision_incoming v = c ++ vision_incoming v' /\
      (c = [] -> n = 0%nat \/ vision_incoming v = [])
  | Ready (Err _) => True
  | Ready Panic => False
  | Pending => vision_incoming v' = vision_incoming v
  end.

(** The fields that reading leaves alone. *)
Definition same_write v v' : Prop :=
  exists i st buf scratch direct, v' = set_read i st buf scratch direct v.

Lemma poll_read_loop_spec fuel v n :
  read_inv v -> (length (incoming (inner v)) < fuel)%nat ->
  exists v' r, Vision_poll_read_loop fuel v n = Some (v', r) /\
    read_inv v' /\ same_write v v' /\ read_post v n v' r.
Proof.
  revert v. induction fuel as [|fuel IH]; intros v [Hok Hdir] Hfuel; [lia|].
  cbn [Vision_poll_read_loop]. case_bool_decide as Hbuf; cbn [negb].
  2: { set (k := Nat.min n (length (read_buf v))). eexists _, _. split; [done|].
       split; [by split|]. split; [by eexists _, _, _, _, _|]. split_and!.
       - rewrite length_take. lia.
       - unfold vision_incoming. cbn. case_match; bool_hyps.
         + rewrite (take_ge (read_buf v)) by done. done.
         + by rewrite (app_assoc (take _ _)), take_drop.
       - intros Hnil. left. apply (f_equal length) in Hnil. rewrite length_take in Hnil.
         cbn in Hnil. destruct (read_buf v); [done|cbn in *; lia]. }
  assert (Hkeep : forall i, read_inv (set_inner i v)) by (intros; by split).
  destruct (read_direct_copy v) eqn:Hd.
  { destruct (poll_read (inner v) n) as [i r] eqn:Hr. eexists _, _. split; [done|].
    split; [done|]. split; [by eexists _, _, _, _, _|].
    unfold read_post, vision_incoming. cbn. rewrite !run_finished by auto. cbn. rewrite Hbuf.
    destruct r as [[c|e|]|]; cbn; try done.
    - by apply poll_read_ok in Hr.
    - by apply poll_read_no_panic in Hr.
    - by apply poll_read_pending in Hr. }
  destruct (poll_read (inner v) (Z.to_nat 8192)) as [i r] eqn:Hr.
  destruct r as [[filled|e|]|].
  2: { eexists _, _. split; [done|]. split; [done|]. split; [by eexists _, _, _, _, _|done]. }
  2: { by apply poll_read_no_panic in Hr. }
  2: { apply poll_read_pending in Hr. eexists _, _. split; [done|]. split; [done|].
       split; [by eexists _, _, _, _, _|]. cbn. unfold vision_incoming. cbn. by rewrite Hr. }
  apply poll_read_ok in Hr as (Hlen & Hinc & Heof). destruct filled as [|b filled].
  { destruct Heof as [|Heof]; [done|lia|]. eexists _, _. split; [done|]. split; [done|].
    split; [by eexists _, _, _, _, _|]. split_and!.
    - cbn. lia.
    - unfold vision_incoming. cbn. by rewrite Hinc.
    - intros _. right. unfold vision_incoming. by rewrite Heof, Hbuf. }
  rewrite feed_run by done. pose proof (vision_bytes_ok (uuid v) _ (b :: filled) Hok) as Hok'.
  assert (Hsw : forall st o, feed (uuid v) (read_state v) (b :: filled) = Some (st, o, true) ->
    finished st = true) by eauto using feed_switch_finished.
  rewrite feed_run in Hsw by done.
  assert (Hv : vision_incoming v =
    (let '(st, o, _) := vision_bytes (uuid v) (read_state v) (b :: filled) in
     o ++ (vision_bytes (uuid v) st (incoming i)).1.2)).
  { unfold vision_incoming. rewrite Hbuf, Hinc, run_app, app_nil_l.
    destruct (run _ _ (b :: filled)) as [[s1 o1] d1]. by destruct (run _ s1 _) as [[??]?]. }
  destruct (vision_bytes (uuid v) (read_state v) (b :: filled)) as [[st o] d].
  cbn in Hok'. rewrite orb_false_l.
  assert (Hinv : forall buf, read_inv (set_read i st buf o d v)).
  { intros buf. split; [done|]. cbn. intros ->. by eapply Hsw. }
  case_bool_decide as Ho.
  - subst o. destruct (IH (set_read i st (read_buf v) [] d v)) as (v' & r & -> & Hv' & Hs & Hp);
      [done|cbn; rewrite Hinc in Hfuel; rewrite length_app in Hfuel; cbn in Hfuel; lia|].
    exists v', r. split; [done|]. split; [done|]. split.
    + destruct Hs as (i' & st' & buf' & sc & dd & ->). by eexists _, _, _, _, _.
    + assert (Heq : vision_incoming (set_read i st (read_buf v) [] d v) = vision_incoming v).
      { rewrite Hv. unfold vision_incoming. cbn. by rewrite Hbuf. }
      unfold read_post in *. by rewrite Heq in Hp.
  - set (k := Nat.min n (length o)). eexists _, _. split; [done|]. split; [done|].
    split; [by eexists _, _, _, _, _|]. split_and!.
    + rewrite length_take. lia.
    + rewrite Hv. unfold vision_incoming. cbn. rewrite Hbuf. case_match; bool_hyps.
      * by rewrite app_nil_l, app_assoc, take_drop.
      * by rewrite take_ge by lia.
    + intros Hnil. left. apply (f_equal length) in Hnil. rewrite length_take in Hnil.
      cbn in Hnil. destruct o; [done|cbn in *; lia].
Qed.
End VisionRead.

(** * Writing through Vision *)

Lemma fill_vision_chunk_wire u content command inc :
  zlen content < 2 ^ 16 ->
  fill_vision_chunk u content command inc =
  (if inc then u else []) ++ frame_wire (mkFrame command content []).
Proof.
  intros Hn. unfold fill_vision_chunk, frame_wire. cbn [f_command f_content f_padding].
  pose proof (zlen_nonneg content).
  rewrite be_bytes_2_split by (unfold in_u16; lia). rewrite app_nil_r. do 2 f_equal.
  cbn [app]. change (be_bytes 2 (zlen [])) with [0; 0]. cbn [app]. do 3 f_equal; [|f_equal].
  - unfold as_u8. rewrite Z.shiftr_div_pow2 by lia. apply Z.mod_small.
    change (2 ^ 8) with 256. split; [apply Z.div_pos; lia|apply Z.div_lt_upper_bound; lia].
  - change 255 with (Z.ones 8). by rewrite Z.land_ones by lia.
Qed.

Lemma first_frame_run u f rest :
  length u = 16%nat ->
  vision_bytes u VisionUnpaddingState_new (u ++ frame_wire f ++ rest) =
  vision_bytes u (mkUnpad 5 VISION_INITIAL VISION_INITIAL 0 [] false) (frame_wire f ++ rest).
Proof.
  intros Hu. pose proof (frame_wire_length f).
  rewrite run_before_frame;
    [|repeat split; cbn; lia|change (pending_initial _) with (@nil Z); rewrite !length_app; lia].
  cbv zeta. change (pending_initial VisionUnpaddingState_new) with (@nil Z). rewrite app_nil_l.
  rewrite <- Hu, take_app_length, drop_app_length, bool_decide_eq_true_2 by done. done.
Qed.

Section VisionWrite.
Context {S : Type} `{Duplex S}.
Implicit Type v : VisionStream S.

(** Everything that has been framed: what is on the wire and the rest of the
    frame being written. *)
Definition wire_out v : bytes := sent (inner v) ++ drop (write_pos v) (write_buf v).

Lemma drain_loop_spec fuel (i : S) buf pos i' pos' r :
  (pos <= length buf)%nat -> (length buf - pos <= fuel)%nat ->
  drain_loop fuel i buf pos = (i', pos', r) ->
  (pos' <= length buf)%nat /\ sent i' ++ drop pos' buf = sent i ++ drop pos buf /\
  incoming i' = incoming i /\
  match r with
  | Ready (Ok _) => pos' = length buf
  | Ready (Err _) => True
  | Ready Panic => False
  | Pending => (pos' < length buf)%nat
  end.
Proof.
  revert i pos. induction fuel as [|fuel IH]; intros i pos Hpos Hfuel; cbn [drain_loop].
  { intros [= <- <- <-]. auto with lia. }
  destruct (pos <? length buf)%nat eqn:E; bool_hyps; [|intros [= <- <- <-]; auto with lia].
  destruct (poll_write i (drop pos buf)) as [i1 r1] eqn:Hw.
  pose proof (poll_write_incoming _ _ _ _ Hw) as Hinc.
  destruct r1 as [[[|n]|e|]|].
  - apply poll_write_ok in Hw as [_ Hw]. intros [= <- <- <-]. cbn in Hw. rewrite app_nil_r in Hw.
    rewrite Hw. auto with lia.
  - apply poll_write_ok in Hw as [Hn Hw]. rewrite length_drop in Hn. intros Hd.
    apply IH in Hd as (D1 & D2 & D3 & D4); [|lia|lia]. split; [done|]. split; [|by rewrite D3].
    by rewrite D2, Hw, <- drop_drop, <- app_assoc, take_drop.
  - apply poll_write_not_ok in Hw; [|done]. intros [= <- <- <-]. by rewrite Hw.
  - by apply poll_write_no_panic in Hw.
  - apply poll_write_not_ok in Hw; [|done]. intros [= <- <- <-]. by rewrite Hw.
Qed.

Lemma poll_drain_spec v v' r :
  (write_pos v <= length (write_buf v))%nat ->
  poll_drain_write_buf v = (v', r) ->
  exists i pos,
    sent i ++ drop pos (write_buf v) = wire_out v /\ incoming i = incoming (inner v) /\
    (pos <= length (write_buf v))%nat /\
    match r with
    | Ready (Ok _) =>
        pos = length (write_buf v) /\
        v' = set_write i (write_uuid_once v) (write_direct_copy v || write_pending_direct v) [] 0
               (write_pending_consumed v) false v
    | Ready (Err _) | Pending =>
        (r = Pending -> pos < length (write_buf v))%nat /\
        v' = set_write i (write_uuid_once v) (write_direct_copy v) (write_buf v) pos
               (write_pending_consumed v) (write_pending_direct v) v
    | Ready Panic => False
    end.
Proof.
  intros Hpos. unfold poll_drain_write_buf.
  destruct (drain_loop _ _ _ _) as [[i pos] r1] eqn:Hd.
  apply drain_loop_spec in Hd as (D1 & D2 & D3 & D4); [|done|lia].
  destruct r1 as [[u|e|]|]; intros [= <- <-]; exists i, pos; split_and!; auto; done.
Qed.

(** What the peer's unpadder has made of the bytes framed so far, and where it
    stands. *)
Definition phase v (st : VisionUnpaddingState) : Prop :=
  if write_uuid_once v then wire_out v = []
  else if write_direct_copy v || write_pending_direct v then finished st = true
  else exists c p k, st = mkUnpad 5 c p k [] false.

(** The invariant of the server's writer: [acc] is the plaintext that callers
    were told was accepted, [infl] the buffer of a write that is still pending. *)
Record write_inv v (acc : bytes) (infl : option bytes) : Prop := {
  wi_server : server_inbound v = true;
  wi_uuid : length (uuid v) = 16%nat;
  wi_pos : (write_pos v <= length (write_buf v))%nat;
  wi_infl : match infl with
            | None => write_buf v = [] /\ write_pending_consumed v = 0%nat /\
                      write_pending_direct v = false
            | Some b => b <> [] /\ write_buf v <> [] /\ write_pending_consumed v = length b /\
                        write_uuid_once v = false /\ write_direct_copy v = false
            end;
  wi_direct : write_direct_copy v = true -> write_uuid_once v = false;
  wi_peer : exists st d,
    vision_bytes (uuid v) VisionUnpaddingState_new (wire_out v) = (st, acc ++ default [] infl, d) /\
    phase v st
}.

Lemma write_inv_new (i : S) u :
  length u = 16%nat -> sent i = [] -> write_inv (new_server_inbound i u) [] None.
Proof.
  intros Hu Hs. constructor; try done.
  eexists _, _. unfold wire_out, phase. cbn. unfold wire_out. cbn. by rewrite Hs.
Qed.

(** The peer reads one more frame. *)
Lemma peer_frame v acc command buf :
  write_inv v acc None -> write_direct_copy v = false -> zlen buf < 2 ^ 16 ->
  command = VISION_COMMAND_PADDING_CONTINUE \/ command = VISION_COMMAND_PADDING_DIRECT ->
  exists st d,
    vision_bytes (uuid v) VisionUnpaddingState_new
      (wire_out v ++ fill_vision_chunk (uuid v) buf command (write_uuid_once v)) =
    (st, acc ++ buf, d) /\
    if command =? VISION_COMMAND_PADDING_DIRECT then finished st = true
    else exists c p k, st = mkUnpad 5 c p k [] false.
Proof.
  intros Hv Hd Hn Hcmd. destruct (wi_peer _ _ _ Hv) as (st & d & Hrun & Hph).
  destruct (wi_infl _ _ _ Hv) as (Hwb & _ & Hpd). unfold phase in Hph. rewrite Hd, Hpd in Hph.
  cbn [orb default] in Hrun, Hph. rewrite app_nil_r in Hrun.
  set (f := mkFrame command buf []).
  assert (Hok : frame_ok f) by (unfold frame_ok, in_u8; cbn; destruct Hcmd as [->| ->];
    unfold VISION_COMMAND_PADDING_CONTINUE, VISION_COMMAND_PADDING_DIRECT; split_and!; lia || done).
  rewrite fill_vision_chunk_wire by done. fold f.
  assert (Hbody : forall c p k, exists st d,
    vision_bytes (uuid v) (mkUnpad 5 c p k [] false) (frame_wire f) = (st, buf, d) /\
    if command =? VISION_COMMAND_PADDING_DIRECT then finished st = true
    else exists c p k, st = mkUnpad 5 c p k [] false).
  { intros c p k. rewrite frame_run by done. cbn [f_command f_content f].
    destruct Hcmd as [->| ->]; eexists _, _; split; cbn; eauto. }
  destruct (write_uuid_once v).
  - rewrite Hph in *. injection Hrun as <- <- <-. rewrite !app_nil_l.
    rewrite <- (app_nil_r (frame_wire f)), first_frame_run by apply (wi_uuid _ _ _ Hv).
    rewrite app_nil_r. apply Hbody.
  - destruct Hph as (c & p & k & ->). rewrite app_nil_l, run_app, Hrun.
    destruct (Hbody c p k) as (st' & d' & -> & Hst). eauto.
Qed.

(** Reading does not disturb what has been written. *)
Lemma write_inv_read v acc infl i st buf scratch direct :
  write_inv v acc infl -> sent i = sent (inner v) ->
  write_inv (set_read i st buf scratch direct v) acc infl.
Proof.
  intros [Hs Hu Hp Hi Hd Hpeer] Hsent. constructor; try done.
  unfold phase, wire_out in *. cbn. by rewrite Hsent.
Qed.

Lemma poll_read_loop_sent fuel v n v' r :
  Vision_poll_read_loop fuel v n = Some (v', r) ->
  exists i st buf scratch direct,
    v' = set_read i st buf scratch direct v /\ sent i = sent (inner v).
Proof.
  revert v. induction fuel as [|fuel IH]; intros v; cbn [Vision_poll_read_loop].
  all: case_bool_decide; cbn [negb]; [|intros [= <- <-]; by eexists _, _, _, _, _].
  all: destruct (read_direct_copy v) eqn:Hd.
  all: try (destruct (poll_read (inner v) n) as [i r1] eqn:Hr; apply poll_read_sent in Hr;
            intros [= <- <-]; by eexists _, _, _, _, _).
  destruct (poll_read (inner v) (Z.to_nat 8192)) as [i r1] eqn:Hr. apply poll_read_sent in Hr.
  destruct r1 as [[[|b filled]|e|]|]; try (intros [= <- <-]; by eexists _, _, _, _, _).
  destruct (feed _ _ _) as [[[st o] d]|]; [|done].
  case_bool_decide; [|intros [= <- <-]; by eexists _, _, _, _, _].
  intros Hl. apply IH in Hl as (i' & st' & buf & sc & dd & -> & Hs). cbn in Hs.
  exists i', st', buf, sc, dd. split; [done|congruence].
Qed.

Definition accept v : VisionStream S :=
  set_write (inner v) (write_uuid_once v) (write_direct_copy v) (write_buf v)
    (write_pos v) 0 (write_pending_direct v) v.

(** Draining the frame of a pending write. *)
Lemma drain_inv v acc b v' r :
  write_inv v acc (Some b) -> poll_drain_write_buf v = (v', r) ->
  match r with
  | Ready (Ok _) => write_pending_consumed v' = length b /\ write_inv (accept v') (acc ++ b) None
  | Ready (Err _) => write_inv v' acc (Some b)
  | Ready Panic => False
  | Pending => write_inv v' acc (Some b)
  end.
Proof.
  intros [Hs Hu Hp (Hb & Hwb & Hc & Ho & Hd) Hdir (st & d & Hrun & Hph)] Hdr.
  apply poll_drain_spec in Hdr as (i & pos & Hsent & _ & Hpos & Hr); [|done].
  unfold phase in Hph. rewrite Ho, Hd in Hph. cbn [orb] in Hph.
  destruct r as [[u|e|]|]; [| |done|]; destruct Hr as [Hend ->].
  - split; [done|]. rewrite Hend, drop_all, app_nil_r in Hsent. constructor; try done.
    exists st, d. unfold wire_out, phase. cbn. rewrite app_nil_r, Hsent, Ho, Hd, app_nil_r.
    cbn [orb]. rewrite orb_false_r. done.
  - constructor; cbn; try done.
    exists st, d. unfold wire_out at 1, phase. cbn. by rewrite Hsent, Ho, Hd.
  - constructor; cbn; try done.
    exists st, d. unfold wire_out at 1, phase. cbn. by rewrite Hsent, Ho, Hd.
Qed.

Lemma wire_out_empty v : write_buf v = [] -> wire_out v = sent (inner v).
Proof. intros Hb. unfold wire_out. by rewrite Hb, drop_nil, app_nil_r. Qed.

Lemma write_frame_inv v acc buf v' r :
  write_inv v acc None -> (write_direct_copy v = false -> zlen buf < 2 ^ 16) ->
  write_frame v buf = (v', r) ->
  match r with
  | Ready (Ok n) => (n <= length buf)%nat /\ write_inv v' (acc ++ take n buf) None
  | Ready (Err _) | Pending => write_inv v' acc (if bool_decide (write_buf v' = []) then None else Some buf)
  | Ready Panic => False
  end.
Proof.
  intros Hv Hlen. pose proof Hv as [Hs Hu Hp (Hwb & Hc & Hpd) Hdir (st & d & Hrun & Hph)].
  rewrite wire_out_empty in Hrun by done. cbn [default] in Hrun. rewrite app_nil_r in Hrun.
  unfold write_frame. destruct (write_direct_copy v || bool_decide (buf = [])) eqn:E.
  - destruct (poll_write (inner v) buf) as [i r1] eqn:Hw. intros [= <- <-].
    destruct r1 as [[n|e|]|]; [| |by apply poll_write_no_panic in Hw|].
    2:{ apply poll_write_not_ok in Hw; [|done]. rewrite bool_decide_eq_true_2 by done. by apply write_inv_read. }
    + apply poll_write_ok in Hw as [Hn Hw]. split; [done|]. constructor; try done.
      assert (Hfin : finished st = true \/ take n buf = []).
      { apply orb_true_iff in E as [E|E]; [left|right; apply bool_decide_eq_true in E; subst].
        - unfold phase in Hph. rewrite Hdir, E in Hph by done. done.
        - apply take_nil. }
      unfold phase in *. rewrite wire_out_empty in * by done. cbn. rewrite Hw.
      destruct Hfin as [Hfin|Hnil].
      * exists st, (d || false). rewrite run_app, Hrun, run_finished by done. split.
        { by rewrite app_nil_r. }
        destruct (write_uuid_once v) eqn:Ho; cbn; rewrite ?Ho.
        { rewrite Hph in Hrun. cbn in Hrun. injection Hrun as <- <- <-. done. }
        by destruct (write_direct_copy v || write_pending_direct v).
      * exists st, d. rewrite Hnil, !app_nil_r. by split.
    + apply poll_write_not_ok in Hw; [|done]. rewrite bool_decide_eq_true_2 by done.
      by apply write_inv_read.
  - apply orb_false_iff in E as [Hd Hb]. apply bool_decide_eq_false in Hb.
    unfold write_command. rewrite Hs.
    set (command := if read_direct_copy v then _ else _).
    set (v1 := set_write _ _ _ _ _ _ _ _).
    destruct (peer_frame v acc command buf Hv Hd (Hlen Hd)) as (st1 & d1 & Hrun1 & Hst1).
    { unfold command. destruct (read_direct_copy v); auto. }
    assert (Hv1 : write_inv v1 acc (Some buf)).
    { constructor; cbn; try done.
      - lia.
      - split_and!; try done. unfold fill_vision_chunk. by destruct (write_uuid_once v), (uuid v).
      - exists st1, d1. unfold phase. cbn. rewrite Hd. cbn [orb]. split; [|done].
        rewrite <- Hrun1. f_equal. rewrite (wire_out_empty v) by done. done. }
    destruct (poll_drain_write_buf v1) as [v2 r2] eqn:Hdr.
    pose proof (drain_inv _ _ _ _ _ Hv1 Hdr) as Hinv.
    destruct r2 as [[u|e|]|]; intros [= <- <-]; try done.
    + split; [done|]. rewrite take_ge by done. apply Hinv.
    + destruct (wi_infl _ _ _ Hinv) as (_ & Hne & _). by rewrite bool_decide_eq_false_2.
    + destruct (wi_infl _ _ _ Hinv) as (_ & Hne & _). by rewrite bool_decide_eq_false_2.
Qed.

Definition still_pending v (infl : option bytes) (buf : bytes) : option bytes :=
  if bool_decide (write_buf v = []) then None else Some (default buf infl).

Lemma poll_write_inv v acc infl buf v' r :
  write_inv v acc infl -> retries infl buf ->
  (infl = None -> write_direct_copy v = false -> zlen buf < 2 ^ 16) ->
  Vision_poll_write v buf = (v', r) ->
  match r with
  | Ready (Ok n) => (n <= length buf)%nat /\ write_inv v' (acc ++ take n buf) None
  | Ready (Err _) | Pending => write_inv v' acc (still_pending v' infl buf)
  | Ready Panic => False
  end.
Proof.
  intros Hv Hre Hlen. unfold Vision_poll_write. destruct infl as [b|].
  - destruct (wi_infl _ _ _ Hv) as (Hb & Hwb & _). rewrite bool_decide_eq_false_2 by done.
    destruct (poll_drain_write_buf v) as [v1 r1] eqn:Hdr.
    pose proof (drain_inv _ _ _ _ _ Hv Hdr) as Hinv.
    destruct r1 as [[u|e|]|]; [..|done|].
    + destruct Hinv as [Hc Hinv]. rewrite Hc.
      rewrite (proj2 (Nat.ltb_lt 0 (length b))) by (destruct b; [done|cbn; lia]).
      intros [= <- <-]. destruct (Hre b eq_refl) as [k ->].
      rewrite length_app, take_app_length. split; [lia|done].
    + intros [= <- <-]. unfold still_pending.
      destruct (wi_infl _ _ _ Hinv) as (_ & Hne & _). by rewrite bool_decide_eq_false_2.
    + intros [= <- <-]. unfold still_pending.
      destruct (wi_infl _ _ _ Hinv) as (_ & Hne & _). by rewrite bool_decide_eq_false_2.
  - destruct (wi_infl _ _ _ Hv) as (Hwb & _). rewrite bool_decide_eq_true_2 by done.
    intros Hw. apply (write_frame_inv v acc) in Hw; auto.
Qed.

Lemma drain_idle v acc v' r :
  write_inv v acc None -> poll_drain_write_buf v = (v', r) ->
  r = Ready (Ok tt) /\ write_inv v' acc None /\ inner v' = inner v /\
  write_direct_copy v' = write_direct_copy v /\ uuid v' = uuid v.
Proof.
  intros [Hs Hu Hp (Hwb & Hc & Hpd) Hdir Hpeer]. unfold poll_drain_write_buf.
  rewrite Hwb. cbn [length Nat.sub drain_loop]. intros [= <- <-]. rewrite Hpd, orb_false_r.
  split_and!; try done. constructor; try done. cbn.
  destruct Hpeer as (st & d & Hrun & Hph). exists st, d. unfold phase in *.
  rewrite wire_out_empty in * by done. cbn. by rewrite Hpd in Hph.
Qed.

Lemma poll_flush_inv v acc v' r :
  write_inv v acc None -> Vision_poll_flush v = (v', r) ->
  write_inv v' acc None /\ write_direct_copy v' = write_direct_copy v.
Proof.
  intros Hv. unfold Vision_poll_flush. destruct (poll_drain_write_buf v) as [v1 r1] eqn:Hdr.
  apply (drain_idle v acc) in Hdr as (-> & Hv1 & Hi & Hd & _); [|done].
  destruct (poll_flush (inner v1)) as [i r2] eqn:Hf. apply poll_flush_sent in Hf.
  intros [= <- <-]. split; [by apply write_inv_read|done].
Qed.

Lemma poll_shutdown_inv v acc v' r :
  write_inv v acc None -> Vision_poll_shutdown v = (v', r) -> write_inv v' acc None.
Proof.
  intros Hv. unfold Vision_poll_shutdown. destruct (poll_drain_write_buf v) as [v1 r1] eqn:Hdr.
  apply (drain_idle v acc) in Hdr as (-> & Hv1 & Hi & Hd & _); [|done].
  destruct (poll_shutdown (inner v1)) as [i r2] eqn:Hf. apply poll_shutdown_sent in Hf.
  intros [= <- <-]. by apply write_inv_read.
Qed.

Lemma await_flush_inv fuel v acc v' r :
  write_inv v acc None -> await Vision_poll_flush fuel v = Some (v', r) ->
  write_inv v' acc None /\ write_direct_copy v' = write_direct_copy v.
Proof.
  revert v. induction fuel as [|fuel IH]; intros v Hv; cbn [await]; [done|].
  destruct (Vision_poll_flush v) as [v1 [a|]] eqn:Hf;
    apply (poll_flush_inv v acc) in Hf as [Hv1 Hd]; try done.
  - by intros [= <- _].
  - intros Ha. apply IH in Ha as [? ->]; auto.
Qed.

Lemma handoff_inv fuel v acc v' :
  write_inv v acc None -> complete_server_direct_handoff fuel v = Some (v', Ok tt) ->
  write_inv v' acc None.
Proof.
  intros Hv. unfold complete_server_direct_handoff.
  destruct (needs_server_direct_handoff v) eqn:Hn; cbn [negb]; [|by intros [= <-]].
  unfold needs_server_direct_handoff in Hn. bool_hyps.
  destruct (await Vision_poll_flush fuel v) as [[v1 r1]|] eqn:Hf; cbn; [|done].
  apply (await_flush_inv _ _ acc) in Hf as [Hv1 Hd1]; [|done].
  destruct r1 as [u|e|]; [|done|done].
  destruct (write_all fuel (inner v1) _) as [[i r2]|] eqn:Hw; cbn; [|done].
  destruct r2 as [[]|e|]; [|done|done]. apply write_all_sent in Hw.
  destruct (await poll_flush fuel i) as [[i' r3]|] eqn:Hf2; cbn; [|done].
  apply await_flush_sent in Hf2. destruct r3 as [[]|e|]; [|done|done]. intros [= <-].
  destruct (peer_frame v1 acc VISION_COMMAND_PADDING_DIRECT [] Hv1) as (st & d & Hrun & Hst);
    [congruence|done|auto|].
  pose proof Hv1 as [Hs Hu Hp (Hwb & Hc & Hpd) Hdir _]. constructor; try done.
  exists st, d. unfold phase. cbn. split; [|done]. rewrite wire_out_empty in * by done. cbn.
  cbn [default]. by rewrite Hf2, Hw.
Qed.

(** The histories of a server's Vision stream: its callers write, flush, read and
    hand off in any order, as long as a write that is pending or has failed is retried
    before anything else is written or flushed, and a buffer that is framed is shorter
    than 64 KiB.  [written v acc infl]: in state [v] the callers have been told that [acc]
    was accepted, and [infl] is the buffer of a write that is pending or has failed with a
    part of its frame on the wire. *)
Inductive written : VisionStream S -> bytes -> option bytes -> Prop :=
| written_new (i : S) (u : bytes) :
    length u = 16%nat -> sent i = [] -> written (new_server_inbound i u) [] None
| written_accepted v acc infl buf v' n :
    written v acc infl -> retries infl buf ->
    (infl = None -> write_direct_copy v = false -> zlen buf < 2 ^ 16) ->
    Vision_poll_write v buf = (v', Ready (Ok n)) -> written v' (acc ++ take n buf) None
| written_pending v acc infl buf v' :
    written v acc infl -> retries infl buf ->
    (infl = None -> write_direct_copy v = false -> zlen buf < 2 ^ 16) ->
    Vision_poll_write v buf = (v', Pending) -> written v' acc (still_pending v' infl buf)
| written_failed v acc infl buf v' e :
    written v acc infl -> retries infl buf ->
    (infl = None -> write_direct_copy v = false -> zlen buf < 2 ^ 16) ->
    Vision_poll_write v buf = (v', Ready (Err e)) -> written v' acc (still_pending v' infl buf)
| written_flush v acc v' r :
    written v acc None -> Vision_poll_flush v = (v', r) -> written v' acc None
| written_shutdown v acc v' r :
    written v acc None -> Vision_poll_shutdown v = (v', r) -> written v' acc None
| written_read v acc infl fuel n v' r :
    written v acc infl -> Vision_poll_read_loop fuel v n = Some (v', r) -> written v' acc infl
| written_handoff v acc fuel v' :
    written v acc None -> complete_server_direct_handoff fuel v = Some (v', Ok tt) ->
    written v' acc None.

Lemma written_inv v acc infl : written v acc infl -> write_inv v acc infl.
Proof.
  induction 1 as [i u Hu Hs|v acc infl buf v' n _ IH Hre Hlen Hw|v acc infl buf v' _ IH Hre Hlen Hw
    |v acc infl buf v' e _ IH Hre Hlen Hw|v acc v' r _ IH Hf|v acc v' r _ IH Hf|v acc infl fuel n v' r _ IH Hr|v acc fuel v' _ IH Hh].
  - by apply write_inv_new.
  - by apply (poll_write_inv v acc infl) in Hw as [_ ?].
  - by apply (poll_write_inv v acc infl) in Hw.
  - by apply (poll_write_inv v acc infl) in Hw.
  - by apply (poll_flush_inv v acc) in Hf as [? _].
  - by apply (poll_shutdown_inv v acc) in Hf.
  - apply poll_read_loop_sent in Hr as (i & st & buf & sc & dd & -> & Hs). by apply write_inv_read.
  - by apply (handoff_inv fuel v).
Qed.

(** What is on the wire stays there. *)
Lemma drain_loop_sent fuel (i : S) buf pos i' pos' r :
  drain_loop fuel i buf pos = (i', pos', r) -> sent i `prefix_of` sent i'.
Proof.
  revert i pos. induction fuel as [|fuel IH]; intros i pos; cbn [drain_loop]; [by intros [= <- _ _]|].
  case_match; [|by intros [= <- _ _]]. destruct (poll_write i (drop pos buf)) as [i1 r1] eqn:Hw.
  destruct r1 as [[[|n]|e|]|].
  - apply poll_write_ok in Hw as [_ Hw]. intros [= <- _ _]. rewrite Hw. by eexists.
  - apply poll_write_ok in Hw as [_ Hw]. intros Hd%IH. etrans; [|done]. rewrite Hw. by eexists.
  - apply poll_write_not_ok in Hw; [|done]. intros [= <- _ _]. by rewrite Hw.
  - by apply poll_write_no_panic in Hw.
  - apply poll_write_not_ok in Hw; [|done]. intros [= <- _ _]. by rewrite Hw.
Qed.

Lemma poll_drain_sent v v' r :
  poll_drain_write_buf v = (v', r) -> sent (inner v) `prefix_of` sent (inner v') /\ uuid v' = uuid v.
Proof.
  unfold poll_drain_write_buf. destruct (drain_loop _ _ _ _) as [[i pos] r1] eqn:Hd. apply drain_loop_sent in Hd.
  by destruct r1 as [[u|e|]|]; intros [= <- <-].
Qed.

Lemma write_frame_sent v buf v' r :
  write_frame v buf = (v', r) -> ~ (exists n, r = Ready (Ok n)) ->
  sent (inner v) `prefix_of` sent (inner v') /\ uuid v' = uuid v.
Proof.
  unfold write_frame. intros Hw Hr. case_match.
  - destruct (poll_write (inner v) buf) as [i r1] eqn:Hp. injection Hw as <- <-.
    apply poll_write_not_ok in Hp; [|by intros n ->; apply Hr; exists n]. cbn. by rewrite Hp.
  - destruct (poll_drain_write_buf _) as [v2 r2] eqn:Hd. apply poll_drain_sent in Hd as [Hp Hu].
    destruct r2 as [[u|e|]|]; by injection Hw as <- <-.
Qed.

Lemma poll_write_sent v buf v' r :
  Vision_poll_write v buf = (v', r) -> ~ (exists n, r = Ready (Ok n)) ->
  sent (inner v) `prefix_of` sent (inner v') /\ uuid v' = uuid v.
Proof.
  unfold Vision_poll_write. intros Hw Hr. case_bool_decide; [by eapply write_frame_sent|].
  destruct (poll_drain_write_buf v) as [v1 r1] eqn:Hd. apply poll_drain_sent in Hd as [Hp Hu].
  destruct r1 as [[u|e|]|]; [|by injection Hw as <- <-..]. case_match; [by injection Hw as <- <-|].
  apply write_frame_sent in Hw as [Hp' Hu']; [|done]. split; [by etrans|congruence].
Qed.

(** What a peer unpads from the wire. *)
Definition unpadded v : bytes := (vision_bytes (uuid v) VisionUnpaddingState_new (sent (inner v))).1.2.

Lemma unpadded_mono v v' :
  sent (inner v) `prefix_of` sent (inner v') -> uuid v' = uuid v -> unpadded v `prefix_of` unpadded v'.
Proof.
  intros [k Hk] Hu. unfold unpadded. rewrite Hu, Hk, run_app.
  destruct (vision_bytes _ _ (sent (inner v))) as [[st1 o1] d1]. destruct (vision_bytes _ st1 k) as [[st2 o2] d2].
  by exists o2.
Qed.

Lemma written_settled v acc : written v acc None -> unpadded v = acc.
Proof.
  intros Hw%written_inv. destruct (wi_peer _ _ _ Hw) as (st & d & Hrun & _). destruct (wi_infl _ _ _ Hw) as (Hb & _).
  unfold unpadded. rewrite wire_out_empty in Hrun by done. rewrite Hrun. apply app_nil_r.
Qed.

(** The accepted bytes are on the wire at every moment. *)
Lemma written_lower v acc infl : written v acc infl -> acc `prefix_of` unpadded v.
Proof.
  intros Hw. destruct infl as [b|]; [|by rewrite (written_settled v acc)].
  remember (Some b) as infl eqn:Hi. revert b Hi.
  induction Hw as [i u Hu Hs|v acc infl buf v' n Hw IH Hre Hlen Hp|v acc infl buf v' Hw IH Hre Hlen Hp
    |v acc infl buf v' e Hw IH Hre Hlen Hp|v acc v' r Hw IH Hf|v acc v' r Hw IH Hf|v acc infl fuel n v' r Hw IH Hr|v acc fuel v' Hw IH Hh];
    intros b' Hi; try done.
  - etrans; [|apply (unpadded_mono v v'); by apply (poll_write_sent v buf v' Pending) in Hp as [? ?]; [|intros [? ?]]].
    destruct infl; [by eapply IH|]. by rewrite (written_settled v acc).
  - etrans; [|apply (unpadded_mono v v'); by apply (poll_write_sent v buf v' (Ready (Err e))) in Hp as [? ?]; [|intros [? ?]]].
    destruct infl; [by eapply IH|]. by rewrite (written_settled v acc).
  - apply poll_read_loop_sent in Hr as (i & st & buf & sc & dd & -> & Hs). etrans; [by eapply IH|].
    apply unpadded_mono; cbn; [by rewrite Hs|done].
Qed.

(** A server's Vision stream keeps the writer contract for buffers below 64 KiB. *)
#[global] Instance Vision_write : AsyncWrite (VisionStream S) := {
  poll_write := Vision_poll_write;
  poll_flush := Vision_poll_flush;
  poll_shutdown := Vision_poll_shutdown
}.

Lemma vision_contract_write v acc infl (buf : bytes) v' r :
  written v acc infl -> retries infl buf -> zlen buf < 2 ^ 16 ->
  AsyncIo.poll_write v buf = (v', r) -> write_post (fun w a i => written w a i) buf acc v' r.
Proof.
  intros Hw Hre Hlen Hp. pose proof (written_inv _ _ _ Hw) as Hv.
  pose proof (poll_write_inv v acc infl buf v' r Hv Hre (fun _ _ => Hlen) Hp) as Hinv.
  destruct r as [[n|e|]|]; cbn; try done.
  - split; [by apply Hinv|]. by eapply written_accepted.
  - exists (still_pending v' infl buf). split; [by eapply written_pending|].
    unfold still_pending. case_bool_decide; [done|]. destruct infl; [done|]. by intros b [= <-].
Qed.

#[global] Program Instance Vision_contract : WriterContract (VisionStream S) := {
  accepted := written;
  fits buf := zlen buf < 2 ^ 16
}.
Next Obligation. intros. by eapply vision_contract_write. Qed.
Next Obligation. intros v acc v' r Hw Hf. by eapply written_flush. Qed.
Next Obligation.
  intros v acc v' Hw Hf. pose proof (written_inv _ _ _ Hw) as Hv.
  unfold poll_flush, Vision_write, Vision_poll_flush in Hf.
  destruct (poll_drain_write_buf v) as [v1 r1] eqn:Hdr.
  apply (drain_idle v acc) in Hdr as (-> & _); [|done].
  destruct (AsyncIo.poll_flush (inner v1)) as [i r] eqn:Hi. injection Hf as <- ->.
  by apply poll_flush_no_panic in Hi.
Qed.
Next Obligation. intros v acc v' r Hw Hf. by eapply written_shutdown. Qed.
Next Obligation.
  intros v acc v' Hw Hf. pose proof (written_inv _ _ _ Hw) as Hv.
  unfold poll_shutdown, Vision_write, Vision_poll_shutdown in Hf.
  destruct (poll_drain_write_buf v) as [v1 r1] eqn:Hdr.
  apply (drain_idle v acc) in Hdr as (-> & _); [|done].
  destruct (AsyncIo.poll_shutdown (inner v1)) as [i r] eqn:Hi. injection Hf as <- ->.
  by apply poll_shutdown_no_panic in Hi.
Qed.
End VisionWrite.

(** A frame that is written without waiting. *)
Lemma fresh_write {S} `{Duplex S} (v : VisionStream S) buf v' n :
  write_buf v = [] -> write_direct_copy v = false -> buf <> [] ->
  Vision_poll_write v buf = (v', Ready (Ok n)) ->
  n = length buf /\
  sent (inner v') = sent (inner v) ++
    fill_vision_chunk (uuid v) buf (write_command v buf) (write_uuid_once v) /\
  write_buf v' = [] /\ write_uuid_once v' = false /\ uuid v' = uuid v /\
  write_direct_copy v' = (write_command v buf =? VISION_COMMAND_PADDING_DIRECT) /\
  server_inbound v' = server_inbound v.
Proof.
  intros Hb Hd Hne. unfold Vision_poll_write, write_frame.
  rewrite bool_decide_eq_true_2, Hd, bool_decide_eq_false_2 by done. cbn [orb].
  set (v1 := set_write _ _ _ _ _ _ _ _).
  destruct (poll_drain_write_buf v1) as [v2 r] eqn:Hdr.
  apply poll_drain_spec in Hdr as (i & pos & Hs & _ & _ & Hr); [|cbn; lia].
  destruct r as [[u|e|]|]; try done. destruct Hr as [Hpos ->]. intros [= <- <-].
  rewrite Hpos, drop_all, app_nil_r in Hs. cbn. by rewrite Hs.
Qed.

(** ** Properties *)

(** The unpadder does not depend on how the stream is cut into reads, and
    always returns: for a Vision stream (UUID, frames that go on with any
    padding, a last frame, raw bytes) it emits exactly the contents and then the
    raw bytes, and asks for direct copy just when the last command was
    [direct]; a stream of at least 21 bytes that does not begin with the UUID
    passes unchanged; of a shorter one nothing has been emitted yet. *)
Theorem vision_unpadding u :
  length u = 16%nat ->
  (forall fs last tail reads,
     Forall goes_on fs -> is_last last -> concat reads = vision_wire u fs last tail ->
     exists st, finished st = true /\
       feed_all u VisionUnpaddingState_new reads =
       Some (st, concat (f_content <$> fs) ++ f_content last ++ tail,
             f_command last =? VISION_COMMAND_PADDING_DIRECT)) /\
  (forall reads, (21 <= length (concat reads))%nat -> take 16 (concat reads) <> u ->
     exists st, feed_all u VisionUnpaddingState_new reads = Some (st, concat reads, false)) /\
  (forall reads, (length (concat reads) < 21)%nat ->
     exists st, feed_all u VisionUnpaddingState_new reads = Some (st, [], false)).
Proof.
  intros Hu. split_and!.
  - intros fs last tail reads Hfs Hl Hr. eexists. rewrite feed_all_run by apply unpad_ok_new.
    rewrite Hr, vision_wire_run by done. by split; [|reflexivity].
  - intros reads Hn Hne. eexists. rewrite feed_all_run, run_before_frame;
      [|repeat split; cbn; lia|done|apply unpad_ok_new].
    cbv zeta. change (pending_initial _) with (@nil Z). rewrite app_nil_l.
    by rewrite bool_decide_eq_false_2.
  - intros reads Hn. eexists. rewrite feed_all_run, run_before_frame_short;
      [done|repeat split; cbn; lia|done|apply unpad_ok_new].
Qed.

Lemma vision_unpadding_witness :
  feed_all (replicate 16 7) VisionUnpaddingState_new
    [replicate 10 7; replicate 6 7 ++ [0; 0; 1; 0]; [2; 9; 8; 8; 2; 0]; [1; 0; 0; 5; 6; 7]] =
  Some (mkUnpad (-1) (-1) (-1) 2 [] true, [9; 5; 6; 7], true).
Proof.
  destruct (proj1 (vision_unpadding (replicate 16 7) eq_refl)
    [mkFrame 0 [9] [8; 8]] (mkFrame 2 [5] []) [6; 7]
    [replicate 10 7; replicate 6 7 ++ [0; 0; 1; 0]; [2; 9; 8; 8; 2; 0]; [1; 0; 0; 5; 6; 7]])
    as (st & Hst & Hf).
  - repeat constructor; vm_compute; congruence.
  - split; [|done]. repeat constructor; vm_compute; congruence.
  - reflexivity.
  - vm_compute in Hf |- *. injection Hf as <-. reflexivity.
Defined.

(** A peer that unpads the wire in any fragmentation gets what is accepted and no more
    than what is submitted. *)
Lemma written_unpads {S} `{Duplex S} (v : VisionStream S) acc infl reads :
  written v acc infl -> concat reads = sent (inner v) ->
  exists st d, feed_all (uuid v) VisionUnpaddingState_new reads = Some (st, unpadded v, d) /\
    acc `prefix_of` unpadded v /\ unpadded v `prefix_of` acc ++ default [] infl.
Proof.
  intros Hw Hr. pose proof (written_lower v acc infl Hw) as Hlow. apply written_inv in Hw.
  destruct (wi_peer _ _ _ Hw) as (st & d & Hrun & _).
  rewrite feed_all_run, Hr by apply unpad_ok_new. unfold unpadded in *. unfold wire_out in Hrun. rewrite run_app in Hrun.
  destruct (vision_bytes _ _ (sent (inner v))) as [[st1 o1] d1].
  destruct (vision_bytes _ st1 _) as [[st2 o2] d2]. injection Hrun as _ Ho _.
  exists st1, d1. split_and!; [done|done|by exists o2].
Qed.

(** C24. A server's Vision stream is faithful end to end: whatever its callers did
    (writes in pieces, retries, failed writes, flushes, reads and the direct handoff, in
    any order that retries a write that is pending or failed first, with every buffer
    that is framed shorter than 64 KiB: a longer one puts the peer out of step,
    [vision_full_buffer_desync]), a peer that unpads the bytes on the wire, in any
    fragmentation, obtains all of the plaintext that was accepted, followed by a part,
    from its front, of the buffer of a write that is pending or has failed, and by
    nothing when there is none; a Vision stream that the peer opens over those bytes
    delivers exactly that plaintext too. *)
Theorem vision_write_faithful {S} `{Duplex S} (v : VisionStream S) acc infl :
  written v acc infl ->
  exists part, part `prefix_of` default [] infl /\
    (forall reads, concat reads = sent (inner v) ->
       exists st d, feed_all (uuid v) VisionUnpaddingState_new reads = Some (st, acc ++ part, d)) /\
    (forall peer : S, incoming peer = sent (inner v) ->
       vision_incoming (VisionStream_new peer (uuid v)) = acc ++ part).
Proof.
  intros Hw. destruct (written_unpads v acc infl [sent (inner v)] Hw) as (_ & _ & _ & [part Hpart] & Hup); [apply app_nil_r|].
  exists part. rewrite Hpart in Hup. split; [by eapply prefix_app_inv|]. split.
  - intros reads Hr. destruct (written_unpads v acc infl reads Hw Hr) as (st & d & Hf & _). exists st, d. by rewrite <- Hpart.
  - intros peer Hp. unfold vision_incoming. cbn [read_buf uuid read_state inner VisionStream_new].
    unfold unpadded in Hpart. rewrite Hp, <- Hpart. by destruct (vision_bytes _ _ _) as [[? ?] ?].
Qed.

Definition quiet_script : Script := mkScript [] [Some 3%nat; None] [].

Lemma vision_write_faithful_witness :
  exists v : VisionStream Script,
    written v [1; 2; 3] None /\
    vision_incoming (VisionStream_new (mkScript [Some (wire (inner v))] [] []) (uuid v)) = [1; 2; 3].
Proof.
  set (u := replicate 16 7).
  set (v0 := new_server_inbound quiet_script u).
  set (v1 := (Vision_poll_write v0 [1; 2; 3]).1).
  set (v2 := (Vision_poll_write v1 [1; 2; 3; 4]).1).
  assert (Hw : written v2 ([] ++ take 3 [1; 2; 3; 4]) None).
  { apply (written_accepted v1 [] (still_pending v1 None [1; 2; 3]) [1; 2; 3; 4]).
    - apply (written_pending v0 [] None [1; 2; 3]); [by apply written_new|done|done|reflexivity].
    - intros b [= <-]. by exists [4].
    - done.
    - reflexivity. }
  exists v2. split; [exact Hw|].
  destruct (vision_write_faithful v2 _ None Hw) as (part & [k Hk] & _ & Hpeer).
  symmetry in Hk. apply app_nil in Hk as [-> _]. rewrite app_nil_r in Hpeer. apply Hpeer. reflexivity.
Defined.

(** C37. Reading through Vision refines the reader contract: every poll returns
    (the padding loop ends), and delivers the next bytes of the unpadded stream;
    nothing is lost, repeated or reordered, an empty read means the plaintext has
    ended, and the write side is untouched. *)
Theorem vision_read_refines {S} `{ReadSpec S} (v : VisionStream S) n fuel :
  read_inv v -> (length (incoming (inner v)) < fuel)%nat ->
  exists v' r, Vision_poll_read_loop fuel v n = Some (v', r) /\
    read_inv v' /\ same_write v v' /\ read_post v n v' r.
Proof. apply poll_read_loop_spec. Qed.

Lemma vision_read_refines_witness :
  exists v' r, Vision_poll_read_loop 30
      (VisionStream_new (mkScript [Some (replicate 16 7 ++ [1; 0; 2]); None; Some [0; 0; 5; 6; 8]] [] [])
         (replicate 16 7)) 4 = Some (v', r) /\ r = Pending.
Proof.
  destruct (vision_read_refines
    (VisionStream_new (mkScript [Some (replicate 16 7 ++ [1; 0; 2]); None; Some [0; 0; 5; 6; 8]] [] [])
       (replicate 16 7)) 4 30) as (v' & r & Hr & _).
  - split; [apply unpad_ok_new|done].
  - vm_compute. lia.
  - exists v', r. split; [exact Hr|]. vm_compute in Hr. congruence.
Defined.

(** A Vision client that writes twice before direct copy corrupts its
    uplink: its first frame carries [end], after which the peer copies raw
    bytes, but the client goes on framing, so the peer receives the header of
    the second frame as data. *)
Theorem vision_client_frames_after_end {S} `{Duplex S} (i : S) u b1 b2 v1 v2 n1 n2 :
  length u = 16%nat -> sent i = [] -> b1 <> [] -> b2 <> [] ->
  zlen b1 < 2 ^ 16 -> zlen b2 < 2 ^ 16 ->
  is_complete_tls_record b1 = false ->
  Vision_poll_write (VisionStream_new i u) b1 = (v1, Ready (Ok n1)) ->
  Vision_poll_write v1 b2 = (v2, Ready (Ok n2)) ->
  exists st d, n1 = length b1 /\ n2 = length b2 /\
    feed_all u VisionUnpaddingState_new [sent (inner v2)] =
    Some (st, b1 ++ (write_command v1 b2 :: be_bytes 2 (zlen b2) ++ [0; 0]) ++ b2, d).
Proof.
  intros Hu Hs Hb1 Hb2 Hn1 Hn2 Htls Hw1 Hw2.
  assert (Hc1 : write_command (VisionStream_new i u) b1 = VISION_COMMAND_PADDING_END).
  { unfold write_command. cbn. by rewrite Htls, andb_false_r. }
  apply fresh_write in Hw1 as (-> & Hs1 & Hwb1 & Ho1 & Hu1 & Hd1 & _); [|done..].
  rewrite Hc1 in Hs1, Hd1. cbn [inner VisionStream_new] in Hs1.
  apply fresh_write in Hw2 as (-> & Hs2 & _); [|done..].
  rewrite Hs2, Hs1, Hs, Ho1, Hu1. cbn [uuid write_uuid_once VisionStream_new].
  rewrite !fill_vision_chunk_wire by done. rewrite !app_nil_l.
  eexists _, _. split; [done|]. split; [done|].
  rewrite feed_all_run by apply unpad_ok_new. cbn [concat].
  rewrite app_nil_r, <- app_assoc, first_frame_run, run_app, frame_run; [|by split_and!|done].
  rewrite after_frame_last, run_finished by done. cbn [default f_command f_content].
  unfold frame_wire. cbn [f_command f_content f_padding].
  change (be_bytes 2 (zlen [])) with [0; 0].
  rewrite app_nil_r. cbn [app]. by rewrite <- app_assoc.
Qed.

Lemma vision_client_frames_after_end_witness :
  exists v1 v2 st d,
    Vision_poll_write (VisionStream_new (mkScript [] [] []) (replicate 16 7)) [65] = (v1, Ready (Ok 1%nat)) /\
    Vision_poll_write v1 [66] = (v2, Ready (Ok 1%nat)) /\
    feed_all (replicate 16 7) VisionUnpaddingState_new [wire (inner v2)] =
    Some (st, [65; 1; 0; 1; 0; 0; 66], d).
Proof.
  set (v0 := VisionStream_new (mkScript [] [] []) (replicate 16 7)).
  exists (Vision_poll_write v0 [65]).1, (Vision_poll_write (Vision_poll_write v0 [65]).1 [66]).1.
  destruct (vision_client_frames_after_end (mkScript [] [] []) (replicate 16 7) [65] [66]
    (Vision_poll_write v0 [65]).1 (Vision_poll_write (Vision_poll_write v0 [65]).1 [66]).1 1 1)
    as (st & d & _ & _ & Hf); try reflexivity; try done.
  exists st, d. split; [reflexivity|]. split; [reflexivity|]. exact Hf.
Defined.

(** The size of the relay's copy buffer, and so of its largest single write. *)
Definition ADAPTIVE_COPY_BUFFER_BYTES : Z := 64 * 1024.

Lemma zeros_run u n l :
  1 <= n <= 5 -> Forall (eq 0) l ->
  (vision_bytes u (mkUnpad n 0 0 0 [] false) l).1.2 = [].
Proof.
  intros Hn Hl. revert n Hn. induction Hl as [|b l <- _ IH]; intros n Hn; [done|].
  assert (exists n', 1 <= n' <= 5 /\
    vision_byte u (mkUnpad n 0 0 0 [] false) 0 = (mkUnpad n' 0 0 0 [] false, [], false))
    as (n' & Hn' & Hb).
  { exists (if n =? 1 then 5 else n - 1).
    assert (n = 1 \/ n = 2 \/ n = 3 \/ n = 4 \/ n = 5) as [->|[->|[->|[->| ->]]]] by lia;
      (split; [cbn; lia|reflexivity]). }
  cbn [run]. rewrite Hb. specialize (IH n' Hn').
  destruct (run _ _ l) as [[??]?]. cbn in *. by subst.
Qed.

(** A frame that goes on and whose content fills the relay's copy buffer
    announces no content at all, so the peer parses the content itself as the
    frames that follow; a buffer of zeros, for one, disappears. *)
Theorem vision_full_buffer_desync u content rest c p k :
  zlen content = ADAPTIVE_COPY_BUFFER_BYTES ->
  vision_bytes u (mkUnpad 5 c p k [] false)
    (fill_vision_chunk u content VISION_COMMAND_PADDING_CONTINUE false ++ rest) =
  vision_bytes u (mkUnpad 5 0 0 0 [] false) (content ++ rest) /\
  (Forall (eq 0) content ->
   (vision_bytes u (mkUnpad 5 c p k [] false)
     (fill_vision_chunk u content VISION_COMMAND_PADDING_CONTINUE false)).1.2 = []).
Proof.
  intros Hn.
  assert (Hrun : forall l, vision_bytes u (mkUnpad 5 c p k [] false)
    (fill_vision_chunk u content VISION_COMMAND_PADDING_CONTINUE false ++ l) =
    vision_bytes u (mkUnpad 5 0 0 0 [] false) (content ++ l)).
  { intros l. unfold fill_vision_chunk. rewrite Hn, app_nil_l, <- app_assoc.
    change ([VISION_COMMAND_PADDING_CONTINUE; _; _; 0; 0]) with (frame_wire (mkFrame 0 [] [])).
    rewrite run_app, frame_run, after_frame_continue by done.
    by destruct (run _ _ (content ++ l)) as [[??]?]. }
  split; [apply Hrun|]. intros Hz. rewrite <- (app_nil_r (fill_vision_chunk _ _ _ _)), Hrun, app_nil_r.
  by apply zeros_run.
Qed.

Lemma vision_full_buffer_desync_witness :
  (vision_bytes [] (mkUnpad 5 0 0 0 [] false)
     (fill_vision_chunk [] (replicate (Z.to_nat 65536) 0) VISION_COMMAND_PADDING_CONTINUE false)).1.2 = [].
Proof.
  apply (vision_full_buffer_desync [] (replicate (Z.to_nat 65536) 0) [] 0 0 0).
  - unfold zlen. rewrite length_replicate, Z2Nat.id by lia. reflexivity.
  - apply Forall_replicate. reflexivity.
Defined.
