(* ===== verification/Relay.v ===== *)
(** * The relay

    [blackwire-common] [relay.rs]: the FIFO buffer of the v2 relay, one poll of
    one direction, the loop over both directions and the pooled copy loop; and
    the buffer pool of [buf.rs].  The streams are the classes of [AsyncIo], so
    the theorems hold for every reader and writer that keeps their contract. *)

From S2P Require Import Prelude AsyncIo Vision.

(** ** [bytes::BytesMut]

    The allocator is free to return more room than was asked for. *)

Class Alloc : Type := {
  alloc : nat -> nat;
  realloc : nat -> nat -> nat -> nat
}.

Class AllocLaws `{Alloc} : Prop := {
  alloc_ge n : (n <= alloc n)%nat;
  realloc_ge cap len additional : (len + additional <= realloc cap len additional)%nat
}.

#[global] Instance exact_alloc : Alloc := {
  alloc n := n;
  realloc cap len additional := Nat.max cap (len + additional)
}.
#[global] Instance exact_alloc_laws : AllocLaws.
Proof. split; cbn; lia. Qed.

Record BytesMut : Type := mkBytesMut { data : bytes; capacity : nat }.

Definition with_capacity `{Alloc} (n : nat) : BytesMut := mkBytesMut [] (alloc n).

(** [reserve] guarantees room for [additional] more bytes. *)
Definition reserve `{Alloc} (b : BytesMut) (additional : nat) : BytesMut :=
  if (length (data b) + additional <=? capacity b)%nat then b
  else mkBytesMut (data b) (realloc (capacity b) (length (data b)) additional).

Definition extend_from_slice `{Alloc} (b : BytesMut) (x : bytes) : BytesMut :=
  let b' := reserve b (length x) in mkBytesMut (data b' ++ x) (capacity b').

(** ** [RelayRingBuffer] *)

Record RelayRingBuffer : Type := mkRing {
  buf : BytesMut;
  start : nat;
  max_capacity : nat
}.

Module Ring.
Definition new `{Alloc} (initial_capacity max_cap : nat) : RelayRingBuffer :=
  let initial_capacity := Nat.max initial_capacity 1 in
  let max_cap := Nat.max max_cap initial_capacity in
  mkRing (with_capacity initial_capacity) 0 max_cap.

Definition len (r : RelayRingBuffer) : nat := length (data (buf r)) - start r.
Definition cap (r : RelayRingBuffer) : nat := capacity (buf r).
Definition remaining_capacity (r : RelayRingBuffer) : nat := cap r - len r.
Definition is_empty (r : RelayRingBuffer) : bool := (len r =? 0)%nat.

Definition compact (r : RelayRingBuffer) : RelayRingBuffer :=
  if (start r =? 0)%nat then r
  else
    let live := (length (data (buf r)) - start r)%nat in
    mkRing (mkBytesMut (take live (drop (start r) (data (buf r)))) (capacity (buf r)))
      0 (max_capacity r).

Definition push_slice `{Alloc} (r : RelayRingBuffer) (x : bytes) : RelayRingBuffer * nat :=
  let n := Nat.min (length x) (remaining_capacity r) in
  if (n =? 0)%nat then (r, 0%nat)
  else
    let r1 := if (capacity (buf r) - length (data (buf r)) <? n)%nat then compact r else r in
    (mkRing (extend_from_slice (buf r1) (take n x)) (start r1) (max_capacity r1), n).

(** [&self.buf[self.start..]] *)
Definition front_slice (r : RelayRingBuffer) : res io_error bytes :=
  slice (data (buf r)) (start r) (length (data (buf r))).

Definition consume (r : RelayRingBuffer) (n : nat) : RelayRingBuffer :=
  let start' := (start r + Nat.min n (len r))%nat in
  if (start' =? length (data (buf r)))%nat
  then mkRing (mkBytesMut [] (capacity (buf r))) 0 (max_capacity r)
  else mkRing (buf r) start' (max_capacity r).

Definition grow `{Alloc} (r : RelayRingBuffer) : RelayRingBuffer * bool :=
  if (max_capacity r <=? cap r)%nat then (r, false)
  else
    let next := Nat.max (Nat.min (cap r * 2) (max_capacity r)) 1 in
    (mkRing (reserve (buf r) (next - length (data (buf r)))) (start r) (max_capacity r), true).
End Ring.

(** ** One direction *)

Inductive RelayFlushPolicy : Type := Immediate | Deferred | Adaptive.

#[global] Instance RelayFlushPolicy_eq_dec : EqDecision RelayFlushPolicy.
Proof. solve_decision. Defined.

Record RelayV2Options : Type := mkOptions {
  initial_buffer : nat;
  max_buffer : nat;
  flush_policy : RelayFlushPolicy
}.

Record RelayV2Stats : Type := mkStats {
  bytes_a_to_b : Z;
  bytes_b_to_a : Z;
  stat_read_ops : Z;
  stat_write_ops : Z;
  stat_flush_ops : Z;
  buffer_grow_events : Z
}.

Definition byte_totals (s : RelayV2Stats) : Z * Z := (bytes_a_to_b s, bytes_b_to_a s).

(** Of the read scratch only the length matters: its bytes are overwritten. *)
Record RelayDirectionState : Type := mkDir {
  pending : RelayRingBuffer;
  scratch : nat;
  read_eof : bool;
  shutdown_sent : bool;
  flush_pending : bool;
  moved : Z;
  read_ops : Z;
  write_ops : Z;
  flush_ops : Z;
  grow_events : Z
}.

Definition RelayDirectionState_new `{Alloc} (o : RelayV2Options) : RelayDirectionState :=
  let initial := Nat.max (initial_buffer o) 1 in
  mkDir (Ring.new initial (Nat.max (max_buffer o) initial)) initial false false false 0 0 0 0 0.

Definition dir_done (st : RelayDirectionState) : bool :=
  read_eof st && Ring.is_empty (pending st) && shutdown_sent st.

(** The traffic recorder is a callback; [log] are the calls made to it. *)
Abbreviation recorder := (option (list (Z * Z))).

Definition record (n : nat) (is_upload : bool) (log : recorder) : recorder :=
  match log with
  | None => None
  | Some l => Some (l ++ [if is_upload then (Z.of_nat n, 0) else (0, Z.of_nat n)])
  end.

Definition wrote (policy : RelayFlushPolicy) (n : nat) (st : RelayDirectionState) :
    RelayDirectionState :=
  mkDir (Ring.consume (pending st) n) (scratch st) (read_eof st) (shutdown_sent st)
    (match policy with Immediate | Adaptive => true | Deferred => flush_pending st end)
    (as_u64 (moved st + Z.of_nat n)) (read_ops st) (as_u64 (write_ops st + 1)) (flush_ops st)
    (grow_events st).

Definition flushed (st : RelayDirectionState) : RelayDirectionState :=
  mkDir (pending st) (scratch st) (read_eof st) (shutdown_sent st) false
    (moved st) (read_ops st) (write_ops st) (as_u64 (flush_ops st + 1)) (grow_events st).

Definition set_read_eof (st : RelayDirectionState) : RelayDirectionState :=
  mkDir (pending st) (scratch st) true (shutdown_sent st) (flush_pending st)
    (moved st) (read_ops st) (write_ops st) (flush_ops st) (grow_events st).

Definition set_shutdown_sent (st : RelayDirectionState) : RelayDirectionState :=
  mkDir (pending st) (scratch st) (read_eof st) true (flush_pending st)
    (moved st) (read_ops st) (write_ops st) (flush_ops st) (grow_events st).

(** Bytes were read: they are queued, and the buffers grow if the queue is full. *)
Definition pushed `{Alloc} (read_len : nat) (c : bytes) (st : RelayDirectionState) :
    RelayDirectionState :=
  let p := (Ring.push_slice (pending st) c).1 in
  let st1 := mkDir p (scratch st) (read_eof st) (shutdown_sent st) (flush_pending st) (moved st)
               (as_u64 (read_ops st + 1)) (write_ops st) (flush_ops st) (grow_events st) in
  if (length c =? read_len)%nat && (Ring.remaining_capacity p =? 0)%nat then
    let '(p', grown) := Ring.grow p in
    if grown then
      mkDir p' (Nat.min (scratch st * 2) (Ring.cap p')) (read_eof st) (shutdown_sent st)
        (flush_pending st) (moved st) (as_u64 (read_ops st + 1)) (write_ops st) (flush_ops st)
        (as_u64 (grow_events st + 1))
    else st1
  else st1.

Section Direction.
Context `{Alloc} {R W : Type} `{AsyncRead R, AsyncWrite W}.
Implicit Type st : RelayDirectionState.

(** The first block: write the front of the queue. *)
Definition write_phase (policy : RelayFlushPolicy) (is_upload : bool) (w : W) st (log : recorder) :
    W * RelayDirectionState * recorder * res io_error bool :=
  if Ring.is_empty (pending st) then (w, st, log, Ok false)
  else
    match Ring.front_slice (pending st) with
    | Ok front =>
        match poll_write w front with
        | (w', Ready (Ok O)) => (w', st, log, Err WriteZero)
        | (w', Ready (Ok n)) => (w', wrote policy n st, record n is_upload log, Ok true)
        | (w', Ready (Err e)) => (w', st, log, Err e)
        | (w', Ready Panic) => (w', st, log, Panic)
        | (w', Pending) => (w', st, log, Ok false)
        end
    | _ => (w, st, log, Panic)
    end.

Definition flush_now (w : W) st : W * RelayDirectionState * res io_error bool :=
  match poll_flush w with
  | (w', Ready (Ok _)) => (w', flushed st, Ok true)
  | (w', Ready (Err e)) => (w', st, Err e)
  | (w', Ready Panic) => (w', st, Panic)
  | (w', Pending) => (w', st, Ok false)
  end.

Definition immediate_flush (policy : RelayFlushPolicy) (w : W) st :
    W * RelayDirectionState * res io_error bool :=
  if bool_decide (policy = Immediate) && flush_pending st && Ring.is_empty (pending st)
  then flush_now w st else (w, st, Ok false).

(** The read block: the flags are [progressed] and [read_pending]. *)
Definition read_phase (r : R) st : R * RelayDirectionState * res io_error (bool * bool) :=
  if negb (read_eof st) && (0 <? Ring.remaining_capacity (pending st))%nat then
    let read_len := Nat.min (Ring.remaining_capacity (pending st)) (scratch st) in
    match poll_read r read_len with
    | (r', Ready (Ok [])) => (r', set_read_eof st, Ok (true, false))
    | (r', Ready (Ok c)) => (r', pushed read_len c st, Ok (true, false))
    | (r', Ready (Err e)) => (r', st, Err e)
    | (r', Ready Panic) => (r', st, Panic)
    | (r', Pending) => (r', st, Ok (false, true))
    end
  else (r, st, Ok (false, false)).

Definition adaptive_flush (policy : RelayFlushPolicy) (read_pending : bool) (w : W) st :
    W * RelayDirectionState * res io_error bool :=
  if bool_decide (policy = Adaptive) && flush_pending st && Ring.is_empty (pending st) &&
     (read_pending || read_eof st)
  then flush_now w st else (w, st, Ok false).

Definition send_shutdown (w : W) st (progressed : bool) :
    W * RelayDirectionState * res io_error bool :=
  match poll_shutdown w with
  | (w', Ready (Ok _)) => (w', set_shutdown_sent st, Ok true)
  | (w', Ready (Err e)) => (w', st, Err e)
  | (w', Ready Panic) => (w', st, Panic)
  | (w', Pending) => (w', st, Ok progressed)
  end.

(** The last block: a final flush, then the shutdown of the writer. *)
Definition shutdown_phase (policy : RelayFlushPolicy) (w : W) st :
    W * RelayDirectionState * res io_error bool :=
  if read_eof st && Ring.is_empty (pending st) && negb (shutdown_sent st) then
    if flush_pending st || bool_decide (policy = Deferred) then
      match flush_now w st with
      | (w', st', Ok true) => send_shutdown w' st' true
      | other => other
      end
    else send_shutdown w st false
  else (w, st, Ok false).

Definition poll_relay_direction (policy : RelayFlushPolicy) (is_upload : bool)
    (r : R) (w : W) st (log : recorder) :
    R * W * RelayDirectionState * recorder * res io_error bool :=
  let '(w1, st1, log1, x1) := write_phase policy is_upload w st log in
  match x1 with
  | Ok p1 =>
      let '(w2, st2, x2) := immediate_flush policy w1 st1 in
      match x2 with
      | Ok p2 =>
          let '(r3, st3, x3) := read_phase r st2 in
          match x3 with
          | Ok (p3, read_pending) =>
              let '(w4, st4, x4) := adaptive_flush policy read_pending w2 st3 in
              match x4 with
              | Ok p4 =>
                  let '(w5, st5, x5) := shutdown_phase policy w4 st4 in
                  (r3, w5, st5, log1, (fun p5 => p1 || p2 || p3 || p4 || p5) <$> x5)
              | Err e => (r3, w4, st4, log1, Err e)
              | Panic => (r3, w4, st4, log1, Panic)
              end
          | Err e => (r3, w2, st3, log1, Err e)
          | Panic => (r3, w2, st3, log1, Panic)
          end
      | Err e => (r, w2, st2, log1, Err e)
      | Panic => (r, w2, st2, log1, Panic)
      end
  | Err e => (r, w1, st1, log1, Err e)
  | Panic => (r, w1, st1, log1, Panic)
  end.
End Direction.

(** ** Both directions *)

Record Relay (A B : Type) : Type := mkRelay {
  stream_a : A;
  stream_b : B;
  up : RelayDirectionState;
  down : RelayDirectionState;
  rlog : recorder
}.
Arguments mkRelay {A B} _ _ _ _ _.
Arguments stream_a {A B} _.
Arguments stream_b {A B} _.
Arguments up {A B} _.
Arguments down {A B} _.
Arguments rlog {A B} _.

(** How one round of the loop ends. *)
Inductive verdict : Type :=
| Again
| Yield
| Return (x : res io_error RelayV2Stats).

Definition relay_stats (u d : RelayDirectionState) : RelayV2Stats :=
  mkStats (moved u) (moved d) (as_u64 (read_ops u + read_ops d))
    (as_u64 (write_ops u + write_ops d)) (as_u64 (flush_ops u + flush_ops d))
    (as_u64 (grow_events u + grow_events d)).

Section Both.
Context `{Alloc} {A B : Type} `{AsyncRead A, AsyncWrite A, AsyncRead B, AsyncWrite B}.

Definition relay_new (o : RelayV2Options) (a : A) (b : B) (log : recorder) : Relay A B :=
  mkRelay a b (RelayDirectionState_new o) (RelayDirectionState_new o) log.

Definition relay_round (policy : RelayFlushPolicy) (s : Relay A B) : Relay A B * verdict :=
  let '(a1, b1, up1, log1, x1) :=
    poll_relay_direction policy true (stream_a s) (stream_b s) (up s) (rlog s) in
  match x1 with
  | Ok p1 =>
      let '(b2, a2, down2, log2, x2) :=
        poll_relay_direction policy false b1 a1 (down s) log1 in
      let s' := mkRelay a2 b2 up1 down2 log2 in
      match x2 with
      | Ok p2 =>
          if dir_done up1 && dir_done down2 then (s', Return (Ok (relay_stats up1 down2)))
          else if negb (p1 || p2) then (s', Yield)
          else (s', Again)
      | Err e => (s', Return (Err e))
      | Panic => (s', Return Panic)
      end
  | Err e => (mkRelay a1 b1 up1 (down s) log1, Return (Err e))
  | Panic => (mkRelay a1 b1 up1 (down s) log1, Return Panic)
  end.

(** One poll of the future: rounds until one of them yields or returns; [None]
    when [fuel] rounds were not enough. *)
Fixpoint relay_poll (fuel : nat) (policy : RelayFlushPolicy) (s : Relay A B) :
    option (Relay A B * poll (res io_error RelayV2Stats)) :=
  match fuel with
  | O => None
  | Datatypes.S fuel' =>
      match relay_round policy s with
      | (s', Again) => relay_poll fuel' policy s'
      | (s', Yield) => Some (s', Pending)
      | (s', Return x) => Some (s', Ready x)
      end
  end.

(** The states that polling the relay goes through, and how it may end. *)
Inductive relaying (policy : RelayFlushPolicy) (s0 : Relay A B) : Relay A B -> Prop :=
| relaying_start : relaying policy s0 s0
| relaying_round s s' v :
    relaying policy s0 s -> relay_round policy s = (s', v) ->
    v = Again \/ v = Yield -> relaying policy s0 s'.
End Both.

(** * The queue is a FIFO *)

Module RingFacts.
Import Ring.

Definition ok (r : RelayRingBuffer) : Prop :=
  (start r <= length (data (buf r)) <= capacity (buf r))%nat.

Definition live (r : RelayRingBuffer) : bytes := drop (start r) (data (buf r)).

Lemma len_live r : len r = length (live r).
Proof. unfold len, live. by rewrite length_drop. Qed.

Lemma is_empty_live r : is_empty r = bool_decide (live r = []).
Proof.
  unfold is_empty. rewrite len_live. by destruct (live r).
Qed.

Section Alloc.
Context `{AllocLaws}.

Lemma ring_new_ok i m : ok (new i m) /\ live (new i m) = [] /\ (0 < cap (new i m))%nat.
Proof.
  unfold ok, live, cap, new. cbn. pose proof (alloc_ge (Nat.max i 1)). split_and!; [lia|lia|done|lia].
Qed.

Lemma front_slice_live r : ok r -> front_slice r = Ok (live r).
Proof.
  intros Hr. unfold front_slice, live, ok in *. rewrite slice_ok by lia.
  rewrite take_ge; [done|]. rewrite length_drop. lia.
Qed.

Lemma compact_spec r : ok r ->
  ok (compact r) /\ live (compact r) = live r /\ cap (compact r) = cap r /\
  start (compact r) = 0%nat.
Proof.
  intros Hr. unfold compact, live, ok, cap in *. destruct (start r =? 0)%nat eqn:E; bool_hyps; [done|].
  cbn. rewrite drop_0, take_ge by (rewrite length_drop; lia). rewrite length_drop. auto with lia.
Qed.

Lemma extend_spec b x : (length (data b) + length x <= capacity b)%nat ->
  extend_from_slice b x = mkBytesMut (data b ++ x) (capacity b).
Proof.
  intros Hx. unfold extend_from_slice, reserve. by rewrite (proj2 (Nat.leb_le _ _) Hx).
Qed.

(** [push_slice] appends what fits and never reallocates. *)
Lemma push_slice_spec r x r' n :
  ok r -> push_slice r x = (r', n) ->
  n = Nat.min (length x) (remaining_capacity r) /\ ok r' /\
  live r' = live r ++ take n x /\ cap r' = cap r.
Proof.
  intros Hr. unfold push_slice. set (k := Nat.min _ _). destruct (k =? 0)%nat eqn:E; bool_hyps.
  { intros [= <- <-]. rewrite take_0, app_nil_r. auto. }
  set (r1 := if (_ <? k)%nat then compact r else r). intros [= <- <-].
  assert (ok r1 /\ live r1 = live r /\ cap r1 = cap r /\
    (length (data (buf r1)) + k <= cap r1)%nat) as (Hok1 & Hl1 & Hc1 & Hfit).
  { destruct (compact_spec r Hr) as (Hco & Hcl & Hcc & Hcs).
    assert (Hlen := len_live r). unfold r1, remaining_capacity in *.
    destruct (_ <? k)%nat eqn:E2; bool_hyps; split_and!; try done.
    - rewrite Hcc. replace (length (data (buf (compact r)))) with (length (live (compact r)))
        by (unfold live; rewrite Hcs, drop_0; done).
      rewrite Hcl. unfold k in *. lia.
    - unfold cap, ok in *. lia. }
  assert (Hk : length (take k x) = k) by (rewrite length_take; unfold k; lia).
  unfold ok, live, cap in *. rewrite extend_spec by (rewrite Hk; done). cbn.
  rewrite length_app, Hk, drop_app_le, Hl1 by lia. split_and!; try lia; done.
Qed.

(** [consume] drops from the front. *)
Lemma consume_spec r n : ok r ->
  ok (consume r n) /\ live (consume r n) = drop n (live r) /\ cap (consume r n) = cap r.
Proof.
  intros Hr. unfold consume. assert (Hlen := len_live r). unfold ok, live, cap, len in *.
  rewrite length_drop in Hlen. destruct (_ =? _)%nat eqn:E; bool_hyps; cbn.
  - split_and!; [lia|lia| |done]. rewrite drop_ge; [done|rewrite length_drop; lia].
  - split_and!; [lia|lia| |done]. rewrite drop_drop. f_equal. lia.
Qed.

Lemma grow_spec r r' g :
  ok r -> grow r = (r', g) -> ok r' /\ live r' = live r /\ (0 < cap r -> 0 < cap r')%nat.
Proof.
  intros Hr. unfold grow. case_match; intros [= <- <-]; [done|]. cbn. unfold reserve, ok, live, cap in *.
  case_match eqn:E; cbn; bool_hyps; [split_and!; done || lia|].
  match goal with |- context [realloc ?c ?l ?a] => pose proof (realloc_ge c l a) end.
  split_and!; done || lia.
Qed.
End Alloc.
End RingFacts.

(** * What one direction preserves *)

Definition log_ok (log : recorder) (n_up n_down : Z) : Prop :=
  match log with
  | None => True
  | Some l => foldr (fun e => Z.add e.1) 0 l = n_up /\ foldr (fun e => Z.add e.2) 0 l = n_down
  end.

Lemma log_sum_snoc (f : Z * Z -> Z) l e :
  foldr (fun x => Z.add (f x)) 0 (l ++ [e]) = foldr (fun x => Z.add (f x)) 0 l + f e.
Proof. induction l as [|x l IH]; cbn; [lia|rewrite IH; lia]. Qed.

Lemma record_ok n is_upload log n_up n_down :
  log_ok log n_up n_down ->
  log_ok (record n is_upload log) (n_up + if is_upload then Z.of_nat n else 0)
    (n_down + if is_upload then 0 else Z.of_nat n).
Proof.
  destruct log as [l|]; [|done]. intros [<- <-]. cbn.
  rewrite (log_sum_snoc fst), (log_sum_snoc snd). by destruct is_upload.
Qed.

Lemma log_ok_self log : exists n_up n_down, log_ok log n_up n_down.
Proof. destruct log; cbn; [eauto|by exists 0, 0]. Qed.

Section DirectionFacts.
Context `{AllocLaws} {R W : Type} {HR : AsyncRead R} {RS : ReadSpec R} {HW : AsyncWrite W}
  {WC : WriterContract W}.
Implicit Type st : RelayDirectionState.

(** Conservation: of the source's bytes [inc0], [acc] have been accepted by the
    writer, the next ones are queued and the rest is still to be read; [infl] is
    the write that is pending, if any, and it is the front of the queue. *)
Record flow (inc0 : bytes) (r : R) (w : W) st (acc : bytes) (infl : option bytes) : Prop := {
  fl_ring : RingFacts.ok (pending st);
  fl_cap : (0 < Ring.cap (pending st))%nat;
  fl_scratch : (0 < scratch st)%nat;
  fl_acc : accepted w acc infl;
  fl_infl : retries infl (RingFacts.live (pending st));
  fl_none : RingFacts.live (pending st) = [] -> infl = None;
  fl_flow : inc0 = acc ++ RingFacts.live (pending st) ++ incoming r;
  fl_moved : moved st = as_u64 (zlen acc);
  fl_eof : read_eof st = true -> incoming r = [];
  fl_shut : shutdown_sent st = true -> read_eof st = true /\ RingFacts.live (pending st) = []
}.

Lemma flow_new o (r : R) (w : W) :
  accepted w [] None -> flow (incoming r) r w (RelayDirectionState_new o) [] None.
Proof.
  intros Hw. unfold RelayDirectionState_new.
  destruct (RingFacts.ring_new_ok (Nat.max (initial_buffer o) 1)
    (Nat.max (max_buffer o) (Nat.max (initial_buffer o) 1))) as (Hok & Hl & Hc).
  constructor; cbn [pending scratch read_eof shutdown_sent moved]; rewrite ?Hl; try done; lia.
Qed.

Definition no_panic_res {A} (x : res io_error A) : Prop := x <> Panic.

Lemma write_phase_flow policy is_upload inc0 r w st acc infl log n_up n_down w' st' log' x :
  flow inc0 r w st acc infl -> fits (RingFacts.live (pending st)) -> log_ok log n_up n_down ->
  write_phase policy is_upload w st log = (w', st', log', x) ->
  x <> Panic /\ forall p, x = Ok p -> exists acc' infl' k,
    flow inc0 r w' st' acc' infl' /\ zlen acc' = zlen acc + k /\
    log_ok log' (n_up + if is_upload then k else 0) (n_down + if is_upload then 0 else k).
Proof.
  intros Hf Hfits Hlog. unfold write_phase. rewrite RingFacts.is_empty_live.
  assert (Hsame : exists acc' infl' k, flow inc0 r w st acc' infl' /\ zlen acc' = zlen acc + k /\
    log_ok log (n_up + if is_upload then k else 0) (n_down + if is_upload then 0 else k)).
  { exists acc, infl, 0. split_and!; [done|lia|]. by destruct is_upload; rewrite !Z.add_0_r. }
  case_bool_decide as Hl; [intros [= <- <- <- <-]; split; [done|by intros p [= <-]]|].
  rewrite RingFacts.front_slice_live by apply Hf. set (front := RingFacts.live (pending st)) in *.
  destruct (poll_write w front) as [w1 r1] eqn:Hw.
  pose proof (contract_write _ _ _ _ _ _ (fl_acc _ _ _ _ _ _ Hf) (fl_infl _ _ _ _ _ _ Hf) Hfits Hw)
    as Hpost. unfold write_post in Hpost.
  destruct r1 as [[[|n]|e|]|]; intros [= <- <- <- <-]; (split; [done|]); try done.
  - intros _ _. destruct Hpost as [Hn Hacc]. set (k := S n) in *.
    assert (Hk : zlen (take k front) = Z.of_nat k)
      by (unfold zlen, front; rewrite length_take, Nat.min_l by done; done).
    clearbody k.
    destruct (RingFacts.consume_spec (pending st) k (fl_ring _ _ _ _ _ _ Hf)) as (Hok & Hlive & Hcap).
    destruct Hf as [? ? ? ? ? ? Hflow Hmv Heof Hshut].
    exists (acc ++ take k front), None, (Z.of_nat k). split_and!.
    + constructor; cbn; try done.
      * by rewrite Hcap.
      * by rewrite Hlive, Hflow, <- app_assoc, (app_assoc (take k _)), take_drop.
      * rewrite Hmv, as_u64_add. f_equal. by rewrite zlen_app, Hk.
      * intros Hs. destruct (Hshut Hs) as [? Hnil]. by rewrite Hlive, Hnil, drop_nil.
    + by rewrite zlen_app, Hk.
    + by apply record_ok.
  - intros _ _. destruct Hpost as (infl' & Hacc & Hre). exists acc, infl', 0.
    split_and!; [|lia|by destruct is_upload; rewrite !Z.add_0_r].
    destruct Hf. by constructor.
Qed.

Lemma flow_flushed inc0 r w st acc infl :
  flow inc0 r w st acc infl -> flow inc0 r w (flushed st) acc infl.
Proof. intros []. by constructor. Qed.

Lemma flow_writer inc0 r w w' st acc infl :
  flow inc0 r w st acc infl -> accepted w' acc infl -> flow inc0 r w' st acc infl.
Proof. intros [] Hw. by constructor. Qed.

Lemma flush_now_flow inc0 r w st acc w' st' x :
  flow inc0 r w st acc None -> flush_now w st = (w', st', x) ->
  x <> Panic /\ flow inc0 r w' st' acc None.
Proof.
  intros Hf. unfold flush_now. destruct (poll_flush w) as [w1 r1] eqn:Hw.
  pose proof (contract_flush _ _ _ _ (fl_acc _ _ _ _ _ _ Hf) Hw) as Hacc.
  pose proof (contract_flush_no_panic w acc w1 (fl_acc _ _ _ _ _ _ Hf)) as Hnp.
  destruct r1 as [[u|e|]|]; intros [= <- <- <-]; (split; [congruence|]);
    eauto using flow_flushed, flow_writer.
Qed.

Lemma flow_idle inc0 r w st acc infl :
  flow inc0 r w st acc infl -> Ring.is_empty (pending st) = true -> infl = None.
Proof. intros Hf He. rewrite RingFacts.is_empty_live in He. apply bool_decide_eq_true in He. by apply Hf. Qed.

Lemma immediate_flush_flow policy inc0 r w st acc infl w' st' x :
  flow inc0 r w st acc infl -> immediate_flush policy w st = (w', st', x) ->
  x <> Panic /\ flow inc0 r w' st' acc infl.
Proof.
  intros Hf. unfold immediate_flush. case_match eqn:E; [|by intros [= <- <- <-]].
  bool_hyps. assert (infl = None) as -> by eauto using flow_idle. by apply flush_now_flow.
Qed.

Lemma adaptive_flush_flow policy rp inc0 r w st acc infl w' st' x :
  flow inc0 r w st acc infl -> adaptive_flush policy rp w st = (w', st', x) ->
  x <> Panic /\ flow inc0 r w' st' acc infl.
Proof.
  intros Hf. unfold adaptive_flush. case_match eqn:E; [|by intros [= <- <- <-]].
  bool_hyps. assert (infl = None) as -> by eauto using flow_idle. by apply flush_now_flow.
Qed.

Lemma pushed_pending read_len c st :
  RingFacts.ok (pending st) -> (0 < Ring.cap (pending st))%nat -> (0 < scratch st)%nat ->
  (length c <= Ring.remaining_capacity (pending st))%nat ->
  let st' := pushed read_len c st in
  RingFacts.ok (pending st') /\ RingFacts.live (pending st') = RingFacts.live (pending st) ++ c /\
  (0 < Ring.cap (pending st'))%nat /\ (0 < scratch st')%nat /\
  read_eof st' = read_eof st /\ shutdown_sent st' = shutdown_sent st /\
  flush_pending st' = flush_pending st /\ moved st' = moved st.
Proof.
  intros Hok Hcap Hsc Hc. unfold pushed.
  destruct (Ring.push_slice (pending st) c) as [p n] eqn:Hp. cbn [fst].
  apply RingFacts.push_slice_spec in Hp as (-> & Hok' & Hl & Hcap'); [|done].
  rewrite Nat.min_l, take_ge in Hl by lia. rewrite <- Hcap' in Hcap.
  destruct (_ && _); [|by split_and!].
  destruct (Ring.grow p) as [p' g] eqn:Hg. apply RingFacts.grow_spec in Hg as (Hok2 & Hl2 & Hcap2); [|done].
  destruct g; cbn; [|by split_and!]. specialize (Hcap2 Hcap). rewrite Hl2. split_and!; auto; lia.
Qed.

Lemma read_phase_flow inc0 r w st acc infl r' st' x :
  flow inc0 r w st acc infl -> read_phase r st = (r', st', x) ->
  x <> Panic /\ forall p, x = Ok p -> flow inc0 r' w st' acc infl.
Proof.
  intros Hf. unfold read_phase.
  destruct (negb (read_eof st) && _) eqn:E; [|intros [= <- <- <-]; split; [done|by intros]].
  set (read_len := Nat.min _ _). destruct (poll_read r read_len) as [r1 x1] eqn:Hr.
  bool_hyps. pose proof Hf as [Hok Hcap Hsc Hacc Hre Hnone Hflow Hmv Heof Hshut].
  assert (Hrl : (0 < read_len <= Ring.remaining_capacity (pending st))%nat) by (unfold read_len; lia).
  destruct x1 as [[c|e|]|].
  - apply poll_read_ok in Hr as (Hlen & Hinc & Hend). destruct c as [|b c].
    + intros [= <- <- <-]. split; [done|]. intros _ _. destruct Hend as [|Hend]; [done|lia|].
      assert (Hr1 : incoming r1 = []) by (rewrite Hend in Hinc; done).
      constructor; cbn; try done.
      * by rewrite Hr1, <- Hend.
      * intros Hs. destruct (Hshut Hs); congruence.
    + intros [= <- <- <-]. split; [done|]. intros _ _.
      destruct (pushed_pending read_len (b :: c) st) as (Hok' & Hl & Hcap' & Hsc' & He & Hs & _ & Hm);
        [done|done|done|lia|].
      constructor; try done; rewrite ?Hl, ?He, ?Hs, ?Hm; try done.
      * intros x Hx. by apply prefix_app_r, Hre.
      * by intros [_ ?]%app_eq_nil.
      * by rewrite Hflow, Hinc, <- app_assoc.
      * congruence.
      * intros Hs'. destruct (Hshut Hs'); congruence.
  - intros [= <- <- <-]. by split.
  - by apply poll_read_no_panic in Hr.
  - apply poll_read_pending in Hr. intros [= <- <- <-]. split; [done|]. intros _ _.
    constructor; rewrite ?Hr; done.
Qed.

Lemma send_shutdown_flow inc0 r w st acc progressed w' st' x :
  flow inc0 r w st acc None -> read_eof st = true -> Ring.is_empty (pending st) = true ->
  send_shutdown w st progressed = (w', st', x) -> x <> Panic /\ flow inc0 r w' st' acc None.
Proof.
  intros Hf Heof He. unfold send_shutdown. destruct (poll_shutdown w) as [w1 r1] eqn:Hw.
  pose proof (contract_shutdown _ _ _ _ (fl_acc _ _ _ _ _ _ Hf) Hw) as Hacc.
  pose proof (contract_shutdown_no_panic w acc w1 (fl_acc _ _ _ _ _ _ Hf)) as Hnp.
  apply (flow_writer _ _ _ w1) in Hf; [|done].
  destruct r1 as [[u|e|]|]; intros [= <- <- <-]; (split; [congruence|]); try done.
  rewrite RingFacts.is_empty_live in He. apply bool_decide_eq_true in He. destruct Hf. by constructor.
Qed.

Lemma shutdown_phase_flow policy inc0 r w st acc infl w' st' x :
  flow inc0 r w st acc infl -> shutdown_phase policy w st = (w', st', x) ->
  x <> Panic /\ flow inc0 r w' st' acc infl.
Proof.
  intros Hf. unfold shutdown_phase. case_match eqn:E; [|by intros [= <- <- <-]].
  bool_hyps. assert (infl = None) as -> by eauto using flow_idle.
  case_match; [|by apply send_shutdown_flow].
  destruct (flush_now w st) as [[w1 st1] x1] eqn:Hn.
  assert (Hst1 : pending st1 = pending st /\ read_eof st1 = read_eof st).
  { revert Hn. unfold flush_now. destruct (poll_flush w) as [? [[?|?|]|]]; by intros [= <- <- <-]. }
  apply (flush_now_flow inc0 r w st acc) in Hn as [Hnp Hf1]; [|done].
  destruct x1 as [[|]|e|]; try (by intros [= <- <- <-]).
  destruct Hst1 as [Hp He]. apply send_shutdown_flow; congruence.
Qed.

(** One poll of a direction keeps the flow, accounts for what it moved and does
    not panic. *)
Lemma poll_direction_flow policy is_upload inc0 r w st acc infl log n_up n_down r' w' st' log' x :
  flow inc0 r w st acc infl -> fits (RingFacts.live (pending st)) -> log_ok log n_up n_down ->
  poll_relay_direction policy is_upload r w st log = (r', w', st', log', x) ->
  x <> Panic /\ forall p, x = Ok p -> exists acc' infl' k,
    flow inc0 r' w' st' acc' infl' /\ zlen acc' = zlen acc + k /\
    log_ok log' (n_up + if is_upload then k else 0) (n_down + if is_upload then 0 else k).
Proof.
  intros Hf Hfits Hlog. unfold poll_relay_direction.
  destruct (write_phase _ _ _ _ _) as [[[w1 st1] log1] x1] eqn:Ph1.
  apply (write_phase_flow _ _ inc0 r _ _ acc infl _ n_up n_down) in Ph1 as [Hp1 Ph1]; [|done..].
  destruct x1 as [p1|e|]; [|intros [= <- <- <- <- <-]; by split|done].
  destruct (Ph1 p1 eq_refl) as (acc1 & infl1 & k & Hf1 & Hk & Hlog1).
  destruct (immediate_flush _ _ _) as [[w2 st2] x2] eqn:Ph2.
  apply (immediate_flush_flow _ inc0 r _ _ acc1 infl1) in Ph2 as [Hp2 Hf2]; [|done].
  destruct x2 as [p2|e|]; [|intros [= <- <- <- <- <-]; by split|done].
  destruct (read_phase _ _) as [[r3 st3] x3] eqn:Ph3.
  apply (read_phase_flow inc0 _ w2 _ acc1 infl1) in Ph3 as [Hp3 Hf3]; [|done].
  destruct x3 as [[p3 rp]|e|]; [|intros [= <- <- <- <- <-]; by split|done].
  specialize (Hf3 _ eq_refl).
  destruct (adaptive_flush _ _ _ _) as [[w4 st4] x4] eqn:Ph4.
  apply (adaptive_flush_flow _ _ inc0 r3 _ _ acc1 infl1) in Ph4 as [Hp4 Hf4]; [|done].
  destruct x4 as [p4|e|]; [|intros [= <- <- <- <- <-]; by split|done].
  destruct (shutdown_phase _ _ _) as [[w5 st5] x5] eqn:Ph5.
  apply (shutdown_phase_flow _ inc0 r3 _ _ acc1 infl1) in Ph5 as [Hp5 Hf5]; [|done].
  intros [= <- <- <- <- <-]. split; [by destruct x5|]. intros p _. by exists acc1, infl1, k.
Qed.
End DirectionFacts.

(** The part of a stream that a direction does not use stays as it was. *)
Section DirectionFrame.
Context `{Alloc} {R W : Type} `{Duplex R} `{Duplex W}.

Lemma flush_now_frame (w : W) st w' st' x :
  flush_now w st = (w', st', x) -> incoming w' = incoming w.
Proof.
  unfold flush_now. destruct (poll_flush w) as [w1 r1] eqn:Hw. apply poll_flush_incoming in Hw.
  destruct r1 as [[?|?|]|]; by intros [= <- <- <-].
Qed.

Lemma shutdown_phase_frame policy (w : W) st w' st' x :
  shutdown_phase policy w st = (w', st', x) -> incoming w' = incoming w.
Proof.
  assert (Hs : forall w st p w' st' x, send_shutdown w st p = (w', st', x) ->
    incoming w' = incoming w).
  { intros w0 st0 p w1 st1 x1. unfold send_shutdown.
    destruct (poll_shutdown w0) as [w2 r2] eqn:Hw. apply poll_shutdown_incoming in Hw.
    destruct r2 as [[?|?|]|]; by intros [= <- <- <-]. }
  unfold shutdown_phase. case_match; [|by intros [= <- <- <-]]. case_match; [|apply Hs].
  destruct (flush_now w st) as [[w1 st1] x1] eqn:Hn. apply flush_now_frame in Hn.
  destruct x1 as [[|]|?|]; try (by intros [= <- <- <-]). intros He. apply Hs in He. congruence.
Qed.

Lemma poll_direction_frame policy is_upload (r : R) (w : W) st log r' w' st' log' x :
  poll_relay_direction policy is_upload r w st log = (r', w', st', log', x) ->
  sent r' = sent r /\ incoming w' = incoming w.
Proof.
  unfold poll_relay_direction.
  destruct (write_phase _ _ _ _ _) as [[[w1 st1] log1] x1] eqn:P1.
  assert (Hw1 : incoming w1 = incoming w).
  { revert P1. unfold write_phase. case_match; [by intros [= <- _ _ _]|].
    destruct (Ring.front_slice _) as [f|?|]; try (by intros [= <- _ _ _]).
    destruct (poll_write w f) as [w2 r2] eqn:Hw. apply poll_write_incoming in Hw.
    destruct r2 as [[[|?]|?|]|]; by intros [= <- _ _ _]. }
  destruct x1 as [p1|?|]; try (by intros [= <- <- _ _ _]).
  destruct (immediate_flush _ _ _) as [[w2 st2] x2] eqn:P2.
  assert (Hw2 : incoming w2 = incoming w).
  { rewrite <- Hw1. revert P2. unfold immediate_flush. case_match; [apply flush_now_frame|by intros [= <- _ _]]. }
  destruct x2 as [p2|?|]; try (by intros [= <- <- _ _ _]).
  destruct (read_phase _ _) as [[r3 st3] x3] eqn:P3.
  assert (Hr3 : sent r3 = sent r).
  { revert P3. unfold read_phase. case_match; [|by intros [= <- _ _]].
    destruct (poll_read r _) as [r4 x4] eqn:Hr. apply poll_read_sent in Hr.
    destruct x4 as [[[|??]|?|]|]; by intros [= <- _ _]. }
  destruct x3 as [[p3 rp]|?|]; try (by intros [= <- <- _ _ _]).
  destruct (adaptive_flush _ _ _ _) as [[w4 st4] x4] eqn:P4.
  assert (Hw4 : incoming w4 = incoming w).
  { rewrite <- Hw2. revert P4. unfold adaptive_flush. case_match; [apply flush_now_frame|by intros [= <- _ _]]. }
  destruct x4 as [p4|?|]; try (by intros [= <- <- _ _ _]).
  destruct (shutdown_phase _ _ _) as [[w5 st5] x5] eqn:P5. apply shutdown_phase_frame in P5.
  intros [= <- <- _ _ _]. split; [done|congruence].
Qed.
End DirectionFrame.

(** What a poll of a direction has done to a writer when it ends, also with an error: it
    has sent a front of the queue, and booked it. *)
Section DirectionSent.
Context `{AllocLaws} {R W : Type} `{AsyncRead R} `{WriteSpec W}.
Implicit Type st : RelayDirectionState.

Lemma flush_now_sent (w : W) st w' st' x : flush_now w st = (w', st', x) -> sent w' = sent w /\ moved st' = moved st.
Proof.
  unfold flush_now. destruct (poll_flush w) as [w1 r1] eqn:Hw. apply poll_flush_sent in Hw.
  destruct r1 as [[?|?|]|]; by intros [= <- <- <-].
Qed.

Lemma flush_if_sent (c : bool) (w : W) st w' st' x :
  (if c then flush_now w st else (w, st, Ok false)) = (w', st', x) -> sent w' = sent w /\ moved st' = moved st.
Proof. destruct c; [apply flush_now_sent|by intros [= <- <- <-]]. Qed.

Lemma send_shutdown_sent (w : W) st q w' st' x : send_shutdown w st q = (w', st', x) -> sent w' = sent w /\ moved st' = moved st.
Proof.
  unfold send_shutdown. destruct (poll_shutdown w) as [w1 r1] eqn:Hw. apply poll_shutdown_sent in Hw.
  destruct r1 as [[?|?|]|]; by intros [= <- <- <-].
Qed.

Lemma shutdown_phase_sent policy (w : W) st w' st' x : shutdown_phase policy w st = (w', st', x) -> sent w' = sent w /\ moved st' = moved st.
Proof.
  unfold shutdown_phase. case_match; [|by intros [= <- <- <-]]. case_match; [|apply send_shutdown_sent].
  destruct (flush_now w st) as [[w1 st1] x1] eqn:Hn. apply flush_now_sent in Hn as [Hs Hm].
  destruct x1 as [[|]|?|]; try (by intros [= <- <- <-]). intros He. apply send_shutdown_sent in He as [? ?]. split; congruence.
Qed.

Lemma read_phase_moved (r : R) st r' st' x : read_phase r st = (r', st', x) -> moved st' = moved st.
Proof.
  unfold read_phase, pushed. case_match; [|by intros [= <- <- <-]].
  destruct (poll_read r _) as [r1 [[[|b c]|e|]|]]; try (by intros [= <- <- <-]). intros [= <- <- <-]. repeat case_match; done.
Qed.

Lemma write_phase_sent policy is_upload (w : W) st log n_up n_down w' st' log' x :
  RingFacts.ok (pending st) -> moved st = as_u64 (moved st) -> log_ok log n_up n_down ->
  write_phase policy is_upload w st log = (w', st', log', x) ->
  exists n, (n <= length (RingFacts.live (pending st)))%nat /\ sent w' = sent w ++ take n (RingFacts.live (pending st)) /\
    moved st' = as_u64 (moved st + Z.of_nat n) /\
    log_ok log' (n_up + if is_upload then Z.of_nat n else 0) (n_down + if is_upload then 0 else Z.of_nat n).
Proof.
  intros Hok Hm Hlog. unfold write_phase.
  assert (Hsame : exists n, (n <= length (RingFacts.live (pending st)))%nat /\ sent w = sent w ++ take n (RingFacts.live (pending st)) /\
    moved st = as_u64 (moved st + Z.of_nat n) /\ log_ok log (n_up + if is_upload then Z.of_nat n else 0) (n_down + if is_upload then 0 else Z.of_nat n)).
  { exists 0%nat. cbn. rewrite app_nil_r, Z.add_0_r. split_and!; [lia|done|done|]. by destruct is_upload; rewrite !Z.add_0_r. }
  destruct (Ring.is_empty (pending st)); [by intros [= <- <- <- <-]|]. rewrite RingFacts.front_slice_live by done.
  destruct (poll_write w _) as [w1 r1] eqn:Hw. destruct r1 as [[[|n]|e|]|].
  2: { apply poll_write_ok in Hw as [Hn Hs]. intros [= <- <- <- <-]. exists (Datatypes.S n). split_and!; [done|done|done|]. by apply record_ok. }
  1: apply poll_write_ok in Hw as [_ Hw]; rewrite app_nil_r in Hw.
  2-4: apply poll_write_not_ok in Hw; [|done].
  all: intros [= <- <- <- <-]; by rewrite Hw.
Qed.

Lemma poll_direction_sent policy is_upload (r : R) (w : W) st log n_up n_down r' w' st' log' x :
  RingFacts.ok (pending st) -> moved st = as_u64 (moved st) -> log_ok log n_up n_down ->
  poll_relay_direction policy is_upload r w st log = (r', w', st', log', x) ->
  exists n, (n <= length (RingFacts.live (pending st)))%nat /\ sent w' = sent w ++ take n (RingFacts.live (pending st)) /\
    moved st' = as_u64 (moved st + Z.of_nat n) /\
    log_ok log' (n_up + if is_upload then Z.of_nat n else 0) (n_down + if is_upload then 0 else Z.of_nat n).
Proof.
  intros Hok Hm Hlog. unfold poll_relay_direction.
  destruct (write_phase _ _ _ _ _) as [[[w1 st1] log1] x1] eqn:P1.
  destruct (write_phase_sent _ _ _ _ _ n_up n_down _ _ _ _ Hok Hm Hlog P1) as (n & Hn & Hs & Hm1 & Hl).
  intros Hp. exists n. split; [done|].
  enough (sent w' = sent w1 /\ moved st' = moved st1 /\ log' = log1) as (-> & -> & ->) by done.
  destruct x1 as [p1|?|]; try (by injection Hp as <- <- <- <- <-).
  destruct (immediate_flush _ _ _) as [[w2 st2] x2] eqn:P2.
  apply flush_if_sent in P2 as [S2 M2].
  destruct x2 as [p2|?|]; try (by injection Hp as <- <- <- <- <-).
  destruct (read_phase _ _) as [[r3 st3] x3] eqn:P3. apply read_phase_moved in P3.
  destruct x3 as [[p3 rp]|?|]; try (injection Hp as <- <- <- <- <-; split_and!; congruence).
  destruct (adaptive_flush _ _ _ _) as [[w4 st4] x4] eqn:P4.
  apply flush_if_sent in P4 as [S4 M4].
  destruct x4 as [p4|?|]; try (injection Hp as <- <- <- <- <-; split_and!; congruence).
  destruct (shutdown_phase _ _ _) as [[w5 st5] x5] eqn:P5. apply shutdown_phase_sent in P5 as [? ?].
  injection Hp as <- <- <- <- <-. split_and!; congruence.
Qed.
End DirectionSent.

(** * Termination of a poll

    Every round that asks for another one has moved bytes or settled a flag,
    unless flushing is deferred: then a final flush counts as progress each time
    although the writer's shutdown is not ready. *)

Definition nat_of (b : bool) : nat := if b then 1 else 0.

Definition weight (st : RelayDirectionState) : nat :=
  2 * length (RingFacts.live (pending st)) + nat_of (flush_pending st) +
  nat_of (negb (read_eof st)) + nat_of (negb (shutdown_sent st)).

Section Progress.
Context `{AllocLaws} {R W : Type} `{ReadSpec R} `{AsyncWrite W}.

Definition work (r : R) (st : RelayDirectionState) : nat := 3 * length (incoming r) + weight st.

Lemma write_phase_work policy is_upload (w : W) st log w' st' log' p :
  RingFacts.ok (pending st) ->
  write_phase policy is_upload w st log = (w', st', log', Ok p) ->
  RingFacts.ok (pending st') /\ (weight st' + nat_of p <= weight st)%nat /\
  read_eof st' = read_eof st /\ scratch st' = scratch st /\
  Ring.cap (pending st') = Ring.cap (pending st).
Proof.
  intros Hok. unfold write_phase. rewrite RingFacts.is_empty_live.
  case_bool_decide as Hl; [intros [= <- <- <- <-]; split_and!; done || cbn; lia|].
  rewrite RingFacts.front_slice_live by done.
  destruct (poll_write w _) as [w1 r1] eqn:Hw.
  destruct r1 as [[[|n]|e|]|]; intros [= <- <- <- <-]; [|split_and!; done || cbn; lia].
  destruct (RingFacts.consume_spec (pending st) (S n) Hok) as (Hok' & Hlive & Hcap).
  split; [done|]. split; [|done]. unfold weight. cbn [pending wrote flush_pending read_eof shutdown_sent].
  rewrite Hlive, length_drop. destruct (RingFacts.live (pending st)); [done|]. cbn [length].
  destruct policy, (flush_pending st); cbn; lia.
Qed.

Lemma flush_now_work (w : W) st w' st' p :
  flush_pending st = true ->
  flush_now w st = (w', st', Ok p) ->
  pending st' = pending st /\ scratch st' = scratch st /\ read_eof st' = read_eof st /\
  shutdown_sent st' = shutdown_sent st /\ (weight st' + nat_of p <= weight st)%nat.
Proof.
  intros Hf. unfold flush_now. destruct (poll_flush w) as [w1 [[u|e|]|]];
    intros [= <- <- <-]; split_and!; try done; unfold weight; cbn; [rewrite Hf; cbn; lia|lia].
Qed.

Lemma read_phase_work (r : R) st r' st' p rp :
  RingFacts.ok (pending st) -> (0 < Ring.cap (pending st))%nat -> (0 < scratch st)%nat ->
  read_phase r st = (r', st', Ok (p, rp)) -> (work r' st' + nat_of p <= work r st)%nat.
Proof.
  intros Hok Hcap Hsc. unfold read_phase.
  destruct (negb (read_eof st) && _) eqn:E; [|intros [= <- <- <- <-]; cbn; lia].
  set (read_len := Nat.min _ _). destruct (poll_read r read_len) as [r1 x1] eqn:Hr. bool_hyps.
  destruct x1 as [[[|b c]|e|]|]; intros [= <- <- <- <-]; unfold work.
  - apply poll_read_ok in Hr as (_ & -> & _). unfold weight. cbn.
    match goal with Hx : read_eof st = false |- _ => rewrite Hx end. cbn. lia.
  - apply poll_read_ok in Hr as (Hlen & -> & _). rewrite length_app.
    destruct (pushed_pending read_len (b :: c) st) as (_ & Hl & _ & _ & He & Hs & Hfl & _);
      [done|done|done|unfold read_len in *; lia|].
    unfold weight. rewrite Hl, He, Hs, Hfl, length_app. cbn [length nat_of]. lia.
  - apply poll_read_pending in Hr. rewrite Hr. cbn. lia.
Qed.

Lemma shutdown_phase_work policy (w : W) st w' st' p :
  policy <> Deferred ->
  shutdown_phase policy w st = (w', st', Ok p) -> (weight st' + nat_of p <= weight st)%nat.
Proof.
  intros Hpol. unfold shutdown_phase. case_match eqn:E; [|intros [= <- <- <-]; cbn; lia].
  assert (Hsh : forall w st q w' st' p, shutdown_sent st = false ->
    send_shutdown w st q = (w', st', Ok p) ->
    (weight st' + nat_of p <= weight st + nat_of q)%nat).
  { clear. intros w st q w' st' p Hs. unfold send_shutdown, weight.
    destruct (poll_shutdown w) as [w1 [[u|e|]|]]; intros [= <- <- <-]; cbn; rewrite ?Hs; cbn; lia. }
  bool_hyps. rewrite (bool_decide_eq_false_2 (policy = Deferred)), orb_false_r by done.
  destruct (flush_pending st) eqn:Hf.
  - destruct (flush_now w st) as [[w1 st1] x1] eqn:Hn.
    destruct x1 as [q|e|]; [|done|done].
    apply flush_now_work in Hn as (_ & _ & _ & Hs & Hw); [|done].
    destruct q; [|intros [= <- <- <-]; cbn in *; lia].
    intros He. apply Hsh in He; [cbn in *; lia|congruence].
  - intros He. apply Hsh in He; [unfold nat_of at 2 in He; lia|done].
Qed.

Lemma poll_direction_work policy is_upload (r : R) (w : W) st log r' w' st' log' p :
  policy <> Deferred ->
  RingFacts.ok (pending st) -> (0 < Ring.cap (pending st))%nat -> (0 < scratch st)%nat ->
  poll_relay_direction policy is_upload r w st log = (r', w', st', log', Ok p) ->
  (work r' st' + nat_of p <= work r st)%nat.
Proof.
  intros Hpol Hok Hcap Hsc. unfold poll_relay_direction.
  destruct (write_phase _ _ _ _ _) as [[[w1 st1] log1] x1] eqn:P1. destruct x1 as [p1|e|]; [|done|done].
  apply write_phase_work in P1 as (Hok1 & Hw1 & He1 & Hsc1 & Hcap1); [|done].
  destruct (immediate_flush _ _ _) as [[w2 st2] x2] eqn:P2. destruct x2 as [p2|e|]; [|done|done].
  assert (P2' : pending st2 = pending st1 /\ scratch st2 = scratch st1 /\
    (weight st2 + nat_of p2 <= weight st1)%nat).
  { revert P2. unfold immediate_flush. case_match eqn:E; [|intros [= <- <- <-]; cbn; auto with lia].
    bool_hyps. intros (?&?&?&?&?)%flush_now_work; done. }
  destruct P2' as (Hp2 & Hsc2 & Hw2).
  destruct (read_phase _ _) as [[r3 st3] x3] eqn:P3. destruct x3 as [[p3 rp]|e|]; [|done|done].
  apply read_phase_work in P3; [|by rewrite Hp2|rewrite Hp2; lia|lia].
  destruct (adaptive_flush _ _ _ _) as [[w4 st4] x4] eqn:P4. destruct x4 as [p4|e|]; [|done|done].
  assert (P4' : (weight st4 + nat_of p4 <= weight st3)%nat).
  { revert P4. unfold adaptive_flush. case_match eqn:E; [|intros [= <- <- <-]; cbn; lia].
    bool_hyps. by intros (?&?&?&?&?)%flush_now_work. }
  destruct (shutdown_phase _ _ _) as [[w5 st5] x5] eqn:P5. destruct x5 as [p5|e|]; cbn; [|done|done].
  apply shutdown_phase_work in P5; [|done]. intros [= <- <- <- <- <-]. unfold work in *.
  destruct p1, p2, p3, p4, p5; cbn in *; lia.
Qed.
End Progress.

(** * Both directions together *)

Section BothFacts.
Context `{AllocLaws} {A B : Type} `{Duplex A} `{Duplex B}.
Implicit Type s : Relay A B.

(** [up_bytes] have gone from [a] to [b] and [down_bytes] from [b] to [a]. *)
Record relay_inv (a0 : A) (b0 : B) s (up_bytes down_bytes : bytes) : Prop := {
  ri_up : flow (WC := plain_contract (sent b0))
            (incoming a0) (stream_a s) (stream_b s) (up s) up_bytes None;
  ri_down : flow (WC := plain_contract (sent a0))
              (incoming b0) (stream_b s) (stream_a s) (down s) down_bytes None;
  ri_log : log_ok (rlog s) (zlen up_bytes) (zlen down_bytes)
}.

Lemma relay_inv_new o (a : A) (b : B) (log : recorder) :
  log = None \/ log = Some [] -> relay_inv a b (relay_new o a b log) [] [].
Proof.
  intros Hlog. constructor.
  - apply (flow_new (WC := plain_contract (sent b))). by split; [rewrite app_nil_r|].
  - apply (flow_new (WC := plain_contract (sent a))). by split; [rewrite app_nil_r|].
  - by destruct Hlog as [->| ->].
Qed.

(** A direction only looks at what its reader will deliver and at what its writer
    has sent. *)
Lemma flow_plain_frame {R W : Type} `{Duplex R} `{Duplex W} sent0 inc0 (r r' : R) (w w' : W) st acc :
  flow (WC := plain_contract sent0) inc0 r w st acc None ->
  incoming r' = incoming r -> sent w' = sent w ->
  flow (WC := plain_contract sent0) inc0 r' w' st acc None.
Proof.
  intros [? ? ? [Hs _] ? ? ? ? ? ?] Hr Hw. constructor; rewrite ?Hr; try done.
  by split; [rewrite Hw|].
Qed.

Lemma poll_direction_plain {R W : Type} `{Duplex R} `{Duplex W} policy is_upload sent0 inc0
    (r : R) (w : W) st acc log n_up n_down r' w' st' log' x :
  flow (WC := plain_contract sent0) inc0 r w st acc None -> log_ok log n_up n_down ->
  poll_relay_direction policy is_upload r w st log = (r', w', st', log', x) ->
  x <> Panic /\ sent r' = sent r /\ incoming w' = incoming w /\
  forall p, x = Ok p -> exists acc' k,
    flow (WC := plain_contract sent0) inc0 r' w' st' acc' None /\ zlen acc' = zlen acc + k /\
    log_ok log' (n_up + if is_upload then k else 0) (n_down + if is_upload then 0 else k).
Proof.
  intros Hf Hlog Hp. pose proof (poll_direction_frame _ _ _ _ _ _ _ _ _ _ _ Hp) as [Hs Hi].
  destruct (poll_direction_flow (WC := plain_contract sent0) _ _ _ _ _ _ _ _ _ _ _ _ _ _ _ _
    Hf I Hlog Hp) as [Hnp Hok].
  split_and!; try done. intros p Hx. destruct (Hok p Hx) as (acc' & infl' & k & Hf' & Hk & Hl).
  pose proof (fl_acc _ _ _ _ _ _ Hf') as [_ ->]. eauto.
Qed.

Lemma relay_round_inv policy a0 b0 s ub db s' v :
  relay_inv a0 b0 s ub db -> relay_round policy s = (s', v) ->
  v <> Return Panic /\
  ((forall e, v <> Return (Err e)) -> exists ub' db', relay_inv a0 b0 s' ub' db') /\
  (forall st, v = Return (Ok st) ->
     dir_done (up s') = true /\ dir_done (down s') = true /\ st = relay_stats (up s') (down s')).
Proof.
  intros [Hu Hd Hl]. unfold relay_round.
  destruct (poll_relay_direction policy true _ _ _ _) as [[[[a1 b1] up1] log1] x1] eqn:P1.
  apply (poll_direction_plain _ _ (sent b0) (incoming a0) _ _ _ ub _ (zlen ub) (zlen db)) in P1
    as (Hnp1 & Hs1 & Hi1 & Hok1); [|done..].
  destruct x1 as [p1|e|]; [|intros [= <- <-]; split_and!; [done|by intros He; destruct (He e)|done]|done].
  destruct (Hok1 p1 eq_refl) as (ub1 & k1 & Hf1 & Hk1 & Hl1).
  apply (flow_plain_frame (sent a0) (incoming b0) _ b1 _ a1) in Hd; [|done..].
  destruct (poll_relay_direction policy false _ _ _ _) as [[[[b2 a2] down2] log2] x2] eqn:P2.
  apply (poll_direction_plain _ _ (sent a0) (incoming b0) _ _ _ db _ (zlen ub1) (zlen db)) in P2
    as (Hnp2 & Hs2 & Hi2 & Hok2); [|done|by rewrite Hk1; rewrite Z.add_0_r in Hl1].
  destruct x2 as [p2|e|]; [|intros [= <- <-]; split_and!; [done|by intros He; destruct (He e)|done]|done].
  destruct (Hok2 p2 eq_refl) as (db2 & k2 & Hf2 & Hk2 & Hl2). rewrite Z.add_0_r in Hl2.
  assert (Hinv : relay_inv a0 b0 (mkRelay a2 b2 up1 down2 log2) ub1 db2).
  { constructor; cbn; [|done|by rewrite Hk2].
    by apply (flow_plain_frame (sent b0) (incoming a0) a1 a2 b1 b2) in Hf1. }
  destruct (dir_done up1 && dir_done down2) eqn:E; bool_hyps.
  { intros [= <- <-]. split_and!; [done|eauto|]. by intros st [= <-]. }
  destruct (negb (p1 || p2)); intros [= <- <-]; split_and!; eauto; done.
Qed.

Lemma relaying_inv policy (a : A) (b : B) o log s :
  log = None \/ log = Some [] -> relaying policy (relay_new o a b log) s ->
  exists ub db, relay_inv a b s ub db.
Proof.
  intros Hlog. induction 1 as [|s s' v _ (ub & db & IH) Hr Hv].
  - exists [], []. by apply relay_inv_new.
  - destruct (relay_round_inv _ _ _ _ _ _ _ _ IH Hr) as (_ & Hinv & _).
    apply Hinv. by destruct Hv as [->| ->].
Qed.

(** A direction that is done has moved the whole source. *)
Lemma flow_done {R W : Type} `{ReadSpec R} `{WriterContract W} inc0 (r : R) (w : W) st acc infl :
  flow inc0 r w st acc infl -> dir_done st = true ->
  acc = inc0 /\ moved st = as_u64 (zlen inc0) /\ accepted w inc0 None.
Proof.
  intros Hf Hd. unfold dir_done in Hd. bool_hyps.
  assert (infl = None) as -> by eauto using flow_idle.
  match goal with Hx : Ring.is_empty _ = true |- _ => rewrite RingFacts.is_empty_live in Hx;
    apply bool_decide_eq_true in Hx as Hl end.
  destruct Hf as [? ? ? ? ? ? Hfl Hmv Heof ?].
  rewrite Hl, Heof, !app_nil_r in Hfl by done. by subst.
Qed.

Lemma relay_work_decreases policy a0 b0 s ub db s' :
  policy <> Deferred -> relay_inv a0 b0 s ub db -> relay_round policy s = (s', Again) ->
  (work (stream_a s') (up s') + work (stream_b s') (down s') <
   work (stream_a s) (up s) + work (stream_b s) (down s))%nat.
Proof.
  intros Hpol [Hu Hd Hl]. unfold relay_round.
  destruct (poll_relay_direction policy true _ _ _ _) as [[[[a1 b1] up1] log1] x1] eqn:P1.
  pose proof (poll_direction_plain _ _ (sent b0) (incoming a0) _ _ _ ub _ (zlen ub) (zlen db)
    _ _ _ _ _ Hu Hl P1) as (_ & Hs1 & Hi1 & _).
  destruct x1 as [p1|e|]; [|done|done].
  apply poll_direction_work in P1; [|done|apply Hu..].
  destruct (poll_relay_direction policy false _ _ _ _) as [[[[b2 a2] down2] log2] x2] eqn:P2.
  pose proof (poll_direction_frame _ _ _ _ _ _ _ _ _ _ _ P2) as [_ Hi2].
  destruct x2 as [p2|e|]; [|done|done].
  apply poll_direction_work in P2; [|done|apply Hd..].
  destruct (_ && _); [done|]. destruct (p1 || p2) eqn:E; cbn; [|done]. intros [= <-]. cbn.
  unfold work in *. rewrite Hi1 in P2. rewrite Hi2.
  destruct p1, p2; cbn in *; lia || done.
Qed.
End BothFacts.

(** ** Streams that are always ready *)

Class AlwaysReady (S : Type) `{AsyncRead S, AsyncWrite S} : Prop := {
  ready_read (s : S) n : exists s' c, poll_read s n = (s', Ready (Ok c));
  ready_write (s : S) b : b <> [] -> exists s' n, poll_write s b = (s', Ready (Ok (Datatypes.S n)));
  ready_flush (s : S) : exists s', poll_flush s = (s', Ready (Ok tt));
  ready_shutdown (s : S) : exists s', poll_shutdown s = (s', Ready (Ok tt))
}.

Section Live.
Context `{AllocLaws} {R W : Type} {HR : AsyncRead R} {RS : ReadSpec R} {HW : AsyncWrite W}
  {WC : WriterContract W} `{!AsyncWrite R, !AlwaysReady R, !AsyncRead W, !AlwaysReady W}.

Lemma flush_now_ready (w : W) st : exists w', flush_now w st = (w', flushed st, Ok true).
Proof. unfold flush_now. destruct (ready_flush w) as [w' ->]. eauto. Qed.

Lemma send_shutdown_ready (w : W) st q :
  exists w', send_shutdown w st q = (w', set_shutdown_sent st, Ok true).
Proof. unfold send_shutdown. destruct (ready_shutdown w) as [w' ->]. eauto. Qed.

Lemma dir_done_flushed st : dir_done (flushed st) = dir_done st.
Proof. done. Qed.

Lemma flush_if_ready (c : bool) (w : W) st :
  exists w' st' p, (if c then flush_now w st else (w, st, Ok false)) = (w', st', Ok p) /\
    pending st' = pending st /\ read_eof st' = read_eof st /\ shutdown_sent st' = shutdown_sent st.
Proof.
  destruct c; [|by eexists _, _, _]. destruct (flush_now_ready w st) as [w' ->]. by eexists _, _, _.
Qed.

(** On ready streams a poll of a direction succeeds, and if it made no progress
    the direction is done. *)
Lemma poll_direction_ready policy is_upload inc0 (r : R) (w : W) st acc log :
  flow inc0 r w st acc None ->
  exists r' w' st' log' p,
    poll_relay_direction policy is_upload r w st log = (r', w', st', log', Ok p) /\
    (p = false -> dir_done st' = true).
Proof.
  intros Hf. unfold poll_relay_direction.
  assert (exists w1 st1 log1 p1, write_phase policy is_upload w st log = (w1, st1, log1, Ok p1) /\
    (p1 = false -> st1 = st /\ Ring.is_empty (pending st) = true)) as (w1 & st1 & log1 & p1 & -> & Hp1).
  { unfold write_phase. destruct (Ring.is_empty (pending st)) eqn:He; [by eexists _, _, _, _|].
    rewrite RingFacts.front_slice_live by apply Hf.
    destruct (ready_write w (RingFacts.live (pending st))) as (w1 & n & ->).
    { rewrite RingFacts.is_empty_live in He. by apply bool_decide_eq_false in He. }
    by eexists _, _, _, _. }
  unfold immediate_flush at 1.
  destruct (flush_if_ready (bool_decide (policy = Immediate) && flush_pending st1 &&
    Ring.is_empty (pending st1)) w1 st1) as (w2 & st2 & p2 & -> & Hpe2 & He2 & Hs2).
  assert (exists r3 st3 p3 rp, read_phase r st2 = (r3, st3, Ok (p3, rp)) /\
    (p3 = false -> st3 = st2 /\ (read_eof st2 = true \/ Ring.remaining_capacity (pending st2) = 0%nat)))
    as (r3 & st3 & p3 & rp & -> & Hp3).
  { unfold read_phase. destruct (negb (read_eof st2) && _) eqn:E.
    - set (k := Nat.min _ _). destruct (ready_read r k) as (r' & [|b c] & ->); by eexists _, _, _, _.
    - eexists _, _, _, _. split; [done|]. intros _. split; [done|].
      bool_hyps. destruct E; bool_hyps; [by left|right; lia]. }
  unfold adaptive_flush at 1.
  destruct (flush_if_ready (bool_decide (policy = Adaptive) && flush_pending st3 &&
    Ring.is_empty (pending st3) && (rp || read_eof st3)) w2 st3) as (w4 & st4 & p4 & -> & Hpe4 & He4 & Hs4).
  assert (exists w5 st5 p5, shutdown_phase policy w4 st4 = (w5, st5, Ok p5) /\
    (p5 = false -> st5 = st4 /\
       (read_eof st4 = false \/ Ring.is_empty (pending st4) = false \/ shutdown_sent st4 = true)))
    as (w5 & st5 & p5 & -> & Hp5).
  { unfold shutdown_phase. destruct (read_eof st4 && _ && _) eqn:E.
    - destruct (_ || _).
      + destruct (flush_now_ready w4 st4) as [w5 ->].
        destruct (send_shutdown_ready w5 (flushed st4) true) as [w6 ->]. by eexists _, _, _.
      + destruct (send_shutdown_ready w4 st4 false) as [w6 ->]. by eexists _, _, _.
    - eexists _, _, _. split; [done|]. intros _. split; [done|].
      bool_hyps. destruct E as [E|E]; bool_hyps; [destruct E; bool_hyps|]; auto. }
  eexists _, _, _, _, _. split; [done|]. intros Hp. repeat (apply orb_false_iff in Hp as [Hp ?]).
  subst. destruct (Hp1 eq_refl) as [-> He]. destruct (Hp3 eq_refl) as [-> Heof].
  destruct (Hp5 eq_refl) as [-> Hsh].
  assert (Hr : read_eof st2 = true).
  { destruct Heof as [|Hrem]; [done|]. rewrite Hpe2 in Hrem. exfalso.
    unfold Ring.remaining_capacity in Hrem. pose proof (fl_cap _ _ _ _ _ _ Hf).
    unfold Ring.is_empty in He. bool_hyps. lia. }
  unfold dir_done. rewrite Hpe4, Hpe2, He, He4, Hr. rewrite He4, Hpe4, Hpe2, He, Hr in Hsh. cbn.
  by destruct Hsh as [|[|]].
Qed.
End Live.

(** ** Properties *)

(** The end of a relay: both sides have everything, and the reports add up. *)
Lemma relay_round_done `{AllocLaws} {A B : Type} `{Duplex A} `{Duplex B}
    o policy (a : A) (b : B) (log : recorder) s s' v :
  log = None \/ log = Some [] ->
  relaying policy (relay_new o a b log) s -> relay_round policy s = (s', v) ->
  v <> Return Panic /\
  forall st, v = Return (Ok st) ->
    sent (stream_b s') = sent b ++ incoming a /\ sent (stream_a s') = sent a ++ incoming b /\
    byte_totals st = (as_u64 (zlen (incoming a)), as_u64 (zlen (incoming b))) /\
    log_ok (rlog s') (zlen (incoming a)) (zlen (incoming b)).
Proof.
  intros Hlog Hs Hr. destruct (relaying_inv _ _ _ _ _ _ Hlog Hs) as (ub & db & Hinv).
  destruct (relay_round_inv _ _ _ _ _ _ _ _ Hinv Hr) as (Hnp & Hnext & Hdone).
  split; [done|]. intros st ->. destruct Hnext as (ub' & db' & [Hu Hd Hl]); [done|].
  destruct (Hdone st eq_refl) as (Du & Dd & ->).
  apply flow_done in Hu as (-> & Hmu & [Hsu _]); [|done].
  apply flow_done in Hd as (-> & Hmd & [Hsd _]); [|done].
  split_and!; try done. unfold byte_totals. cbn. by rewrite Hmu, Hmd.
Qed.

(** A poll of a direction, whatever its result: the writer has been sent a prefix of the
    source, and the counter and the recorder say how much. *)
Lemma poll_direction_prefix `{AllocLaws} {R W : Type} `{Duplex R} `{Duplex W} policy is_upload sent0 inc0
    (r : R) (w : W) st acc log n_up n_down r' w' st' log' x :
  flow (WC := plain_contract sent0) inc0 r w st acc None -> log_ok log n_up n_down ->
  poll_relay_direction policy is_upload r w st log = (r', w', st', log', x) ->
  exists acc', sent w' = sent0 ++ acc' /\ acc' `prefix_of` inc0 /\ moved st' = as_u64 (zlen acc') /\
    log_ok log' (n_up + if is_upload then zlen acc' - zlen acc else 0) (n_down + if is_upload then 0 else zlen acc' - zlen acc).
Proof.
  intros [Hok _ _ [Hs _] _ _ Hfl Hm _ _] Hlog Hp.
  destruct (poll_direction_sent (R := R) _ _ _ _ _ _ n_up n_down _ _ _ _ _ Hok ltac:(rewrite Hm; unfold as_u64; by rewrite Z.mod_mod) Hlog Hp) as (n & Hn & Hsent & Hmv & Hl).
  assert (Hz : zlen (take n (RingFacts.live (pending st))) = Z.of_nat n) by (unfold zlen; rewrite length_take; lia).
  exists (acc ++ take n (RingFacts.live (pending st))). rewrite zlen_app, Hz. split_and!.
  - by rewrite Hsent, Hs, app_assoc.
  - rewrite Hfl. apply prefix_app. etrans; [|by eexists]. exists (drop n (RingFacts.live (pending st))). by rewrite take_drop.
  - by rewrite Hmv, Hm, as_u64_add.
  - by replace (zlen acc + Z.of_nat n - zlen acc) with (Z.of_nat n) by lia.
Qed.

(** After every round, also one that failed, both sides have been sent prefixes. *)
Lemma relay_round_prefix `{AllocLaws} {A B : Type} `{Duplex A} `{Duplex B} policy (a0 : A) (b0 : B) s ub db s' v :
  relay_inv a0 b0 s ub db -> relay_round policy s = (s', v) ->
  exists ub' db', sent (stream_b s') = sent b0 ++ ub' /\ ub' `prefix_of` incoming a0 /\
    sent (stream_a s') = sent a0 ++ db' /\ db' `prefix_of` incoming b0 /\
    moved (up s') = as_u64 (zlen ub') /\ moved (down s') = as_u64 (zlen db') /\ log_ok (rlog s') (zlen ub') (zlen db').
Proof.
  intros [Hu Hd Hl]. unfold relay_round.
  destruct (poll_relay_direction policy true _ _ _ _) as [[[[a1 b1] up1] log1] x1] eqn:P1.
  pose proof (poll_direction_frame _ _ _ _ _ _ _ _ _ _ _ P1) as [Hs1 Hi1].
  destruct (poll_direction_prefix _ _ _ _ _ _ _ _ _ _ _ _ _ _ _ _ Hu Hl P1) as (ub1 & Hb1 & Hpu & Hmu & Hl1).
  replace (zlen ub + (zlen ub1 - zlen ub)) with (zlen ub1) in Hl1 by lia. rewrite Z.add_0_r in Hl1.
  assert (Hd1 : sent a1 = sent a0 ++ db /\ db `prefix_of` incoming b0 /\ moved (down s) = as_u64 (zlen db)).
  { destruct Hd as [_ _ _ [Hs _] _ _ Hfl Hm _ _]. split_and!; [congruence|rewrite Hfl; by eexists|done]. }
  destruct Hd1 as (Ha1 & Hpd & Hmd).
  destruct x1 as [p1|e|]; [|intros [= <- <-]; exists ub1, db; by split_and!..].
  apply (flow_plain_frame (sent a0) (incoming b0) _ b1 _ a1) in Hd; [|done..].
  destruct (poll_relay_direction policy false _ _ _ _) as [[[[b2 a2] down2] log2] x2] eqn:P2.
  pose proof (poll_direction_frame _ _ _ _ _ _ _ _ _ _ _ P2) as [Hs2 Hi2].
  destruct (poll_direction_prefix _ _ _ _ _ _ _ _ _ _ _ _ _ _ _ _ Hd Hl1 P2) as (db2 & Hb2 & Hpd2 & Hmd2 & Hl2).
  replace (zlen db + (zlen db2 - zlen db)) with (zlen db2) in Hl2 by lia. rewrite Z.add_0_r in Hl2.
  intros Hr. exists ub1, db2.
  enough (s' = mkRelay a2 b2 up1 down2 log2) as -> by (cbn; split_and!; congruence).
  destruct x2 as [p2|e|]; [|by injection Hr as <- <-..]. repeat case_match; by injection Hr as <- <-.
Qed.

(** C3. The relay delivers, whatever the streams do (partial reads and writes, polls that
    are not ready, errors, any flush policy).  After every round it runs, a round that
    fails included, each side has been sent a prefix of what the other side delivers, in
    order and once, and the counters and the traffic recorder hold exactly the lengths of
    the two prefixes.  No round panics.  When a round returns success the prefixes are
    everything, and the totals that are returned are their lengths. *)
Theorem relay_v2_delivers `{AllocLaws} {A B : Type} `{Duplex A} `{Duplex B}
    o policy (a : A) (b : B) (log : recorder) s s' v :
  log = None \/ log = Some [] ->
  relaying policy (relay_new o a b log) s -> relay_round policy s = (s', v) ->
  v <> Return Panic /\
  exists ub db,
    sent (stream_b s') = sent b ++ ub /\ ub `prefix_of` incoming a /\
    sent (stream_a s') = sent a ++ db /\ db `prefix_of` incoming b /\
    moved (up s') = as_u64 (zlen ub) /\ moved (down s') = as_u64 (zlen db) /\ log_ok (rlog s') (zlen ub) (zlen db) /\
    forall st, v = Return (Ok st) -> ub = incoming a /\ db = incoming b /\ byte_totals st = (as_u64 (zlen ub), as_u64 (zlen db)).
Proof.
  intros Hlog Hs Hr. destruct (relay_round_done _ _ _ _ _ _ _ _ Hlog Hs Hr) as [Hnp Hdone]. split; [done|].
  destruct (relaying_inv _ _ _ _ _ _ Hlog Hs) as (ub0 & db0 & Hinv).
  destruct (relay_round_prefix _ _ _ _ _ _ _ _ Hinv Hr) as (ub & db & Hsb & Hpu & Hsa & Hpd & Hmu & Hmd & Hl).
  exists ub, db. split_and!; try done. intros st ->. destruct (Hdone st eq_refl) as (Hb & Ha & Ht & _).
  rewrite Hsb in Hb. rewrite Hsa in Ha. apply app_inv_head in Hb as ->. apply app_inv_head in Ha as ->. done.
Qed.

Definition relay_source : Script := mkScript [Some [1; 2]; None; Some [3]] [Some 1%nat; None] [].
Definition relay_sink : Script := mkScript [None; Some [9]] [None; Some 2%nat] [].
Definition small_relay : RelayV2Options := mkOptions 2 8 Adaptive.

Fixpoint rounds {A B} `{Alloc} `{AsyncRead A, AsyncWrite A, AsyncRead B, AsyncWrite B}
    (n : nat) (policy : RelayFlushPolicy) (s : Relay A B) : Relay A B :=
  match n with
  | O => s
  | Datatypes.S n' => (relay_round policy (rounds n' policy s)).1
  end.

Definition goes_on_for {A B} `{Alloc} `{AsyncRead A, AsyncWrite A, AsyncRead B, AsyncWrite B}
    (n : nat) (policy : RelayFlushPolicy) (s : Relay A B) : bool :=
  forallb (fun k => match (relay_round policy (rounds k policy s)).2 with
                    | Return _ => false | _ => true end) (seq 0 n).

Lemma relaying_rounds {A B} `{Alloc} `{AsyncRead A, AsyncWrite A, AsyncRead B, AsyncWrite B}
    n policy (s : Relay A B) :
  goes_on_for n policy s = true -> relaying policy s (rounds n policy s).
Proof.
  intros Hn. induction n as [|n IH]; [apply relaying_start|].
  unfold goes_on_for in *. rewrite seq_S, forallb_app in Hn. bool_hyps. cbn in *.
  destruct (relay_round policy (rounds n policy s)) as [s' v] eqn:Hr.
  eapply relaying_round; [by apply IH|done|]. destruct v; auto. done.
Qed.

(** A relay that succeeds in its fourth round, and what it has done after the second. *)
Lemma relay_v2_delivers_witness :
  let s n := rounds n Adaptive (relay_new small_relay relay_source relay_sink (Some [])) in
  (exists ub db, wire (stream_b (s 2%nat)) = ub /\ ub `prefix_of` [1; 2; 3] /\ wire (stream_a (s 2%nat)) = db /\ db `prefix_of` [9] /\ moved (up (s 2%nat)) = as_u64 (zlen ub)) /\
  wire (stream_b (s 4%nat)) = [1; 2; 3] /\ wire (stream_a (s 4%nat)) = [9].
Proof.
  set (s0 := relay_new small_relay relay_source relay_sink (Some [])).
  assert (Hs : forall n, (n <= 3)%nat -> relaying Adaptive s0 (rounds n Adaptive s0)).
  { intros n Hn. apply relaying_rounds. destruct n as [|[|[|[|n]]]]; [vm_compute; reflexivity..|lia]. }
  pose proof (fun n Hn => relay_v2_delivers small_relay Adaptive relay_source relay_sink (Some []) (rounds n Adaptive s0)
    (relay_round Adaptive (rounds n Adaptive s0)).1 (relay_round Adaptive (rounds n Adaptive s0)).2
    (or_intror eq_refl) (Hs n Hn)) as Hall.
  split.
  - destruct (Hall 1%nat ltac:(lia)) as (_ & ub & db & Hb & Hpu & Ha & Hpd & Hm & _); [reflexivity|]. by exists ub, db.
  - destruct (Hall 3%nat ltac:(lia)) as (_ & ub & db & Hb & Hpu & Ha & Hpd & Hm & _ & _ & Hd); [reflexivity|].
    destruct (Hd (relay_stats (up (relay_round Adaptive (rounds 3 Adaptive s0)).1)
      (down (relay_round Adaptive (rounds 3 Adaptive s0)).1))) as (-> & -> & _); [vm_compute; reflexivity|].
    split; [exact Hb|exact Ha].
Defined.

(** On ready streams a round asks for another one or is the last. *)
Lemma relay_round_ready `{AllocLaws} {A B : Type} `{Duplex A} `{Duplex B} policy (a : A) (b : B) s ub db s' v :
  AlwaysReady A -> AlwaysReady B -> relay_inv a b s ub db -> relay_round policy s = (s', v) -> v = Again \/ exists st, v = Return (Ok st).
Proof.
  intros HA HB [Hu Hd _]. unfold relay_round.
  destruct (poll_direction_ready policy true _ _ _ _ _ (rlog s) Hu)
    as (a1 & b1 & u1 & l1 & p1 & P1 & D1). rewrite P1.
  pose proof (poll_direction_frame _ _ _ _ _ _ _ _ _ _ _ P1) as [Hs1 Hi1].
  apply (flow_plain_frame (sent a) (incoming b) _ b1 _ a1) in Hd; [|done..].
  destruct (poll_direction_ready policy false _ _ _ _ _ l1 Hd)
    as (b2 & a2 & d2 & l2 & p2 & P2 & D2). rewrite P2.
  destruct (dir_done u1 && dir_done d2) eqn:E; [intros [= <- <-]; eauto|].
  destruct p1, p2; cbn; try (intros [= <- <-]; by left).
  by rewrite D1, D2 in E.
Qed.

(** What a relay has done when it reports success. *)
Definition relayed {A B : Type} `{ReadSpec A, !AsyncWrite A, !WriteSpec A} `{ReadSpec B, !AsyncWrite B, !WriteSpec B}
    (a : A) (b : B) (s : Relay A B) : Prop :=
  sent (stream_b s) = sent b ++ incoming a /\ sent (stream_a s) = sent a ++ incoming b /\
  shutdown_sent (up s) = true /\ shutdown_sent (down s) = true.

Lemma relay_round_relayed `{AllocLaws} {A B : Type} `{Duplex A} `{Duplex B} o policy (a : A) (b : B) s s' st :
  relaying policy (relay_new o a b None) s -> relay_round policy s = (s', Return (Ok st)) -> relayed a b s'.
Proof.
  intros Hs Hr. destruct (relaying_inv _ _ _ _ _ _ (or_introl eq_refl) Hs) as (ub & db & Hinv).
  destruct (relay_round_inv _ _ _ _ _ _ _ _ Hinv Hr) as (_ & _ & Hd). destruct (Hd st eq_refl) as (Du & Dd & _).
  destruct (relay_round_done _ _ _ _ _ _ _ _ (or_introl eq_refl) Hs Hr) as [_ Hx]. destruct (Hx st eq_refl) as (? & ? & _).
  unfold dir_done in *. bool_hyps. by split_and!.
Qed.

(** C34. A poll of the relay ends, with immediate or adaptive flushing: from every
    state it reaches, the loop yields or returns within as many rounds as there
    are bytes to move and flags to settle, without a panic.  If it returns success, each
    side has been sent everything that the other delivered and has been shut down; on
    streams that are always ready it does return success. *)
Theorem relay_v2_terminates `{AllocLaws} {A B : Type} `{Duplex A} `{Duplex B}
    o policy (a : A) (b : B) s fuel :
  policy <> Deferred -> relaying policy (relay_new o a b None) s ->
  (work (stream_a s) (up s) + work (stream_b s) (down s) < fuel)%nat ->
  exists s' r, relay_poll fuel policy s = Some (s', r) /\ r <> Ready Panic /\
    (forall st, r = Ready (Ok st) -> relayed a b s') /\
    (AlwaysReady A -> AlwaysReady B -> exists st, r = Ready (Ok st)).
Proof.
  intros Hpol Hs. revert s Hs. induction fuel as [|fuel IH]; intros s Hs Hw; [lia|]. cbn.
  destruct (relaying_inv _ _ _ _ _ _ (or_introl eq_refl) Hs) as (ub & db & Hinv).
  destruct (relay_round policy s) as [s1 v] eqn:Hr.
  pose proof (relay_round_inv _ _ _ _ _ _ _ _ Hinv Hr) as (Hnp & _ & _).
  pose proof (fun HA HB => relay_round_ready _ _ _ _ _ _ _ _ HA HB Hinv Hr) as Hready.
  destruct v as [| |x].
  - pose proof (relay_work_decreases _ _ _ _ _ _ _ Hpol Hinv Hr).
    apply IH; [|lia]. eapply relaying_round; eauto.
  - eexists _, _. split_and!; [done..|]. intros HA HB. destruct (Hready HA HB) as [|[??]]; done.
  - eexists _, _. split_and!; [done|congruence| |].
    + intros st [= ->]. by eapply relay_round_relayed.
    + intros HA HB. destruct (Hready HA HB) as [|[st [= ->]]]; [done|eauto].
Qed.

(** A stream in memory: always ready. *)
Record Loaded : Type := mkLoaded { to_read : bytes; written : bytes; closed : bool }.
#[global] Instance Loaded_read : AsyncRead Loaded := fun s n =>
  (mkLoaded (drop n (to_read s)) (written s) (closed s), Ready (Ok (take n (to_read s)))).
#[global] Instance Loaded_write : AsyncWrite Loaded := {
  poll_write s b := (mkLoaded (to_read s) (written s ++ b) (closed s), Ready (Ok (length b)));
  poll_flush s := (s, Ready (Ok tt));
  poll_shutdown s := (mkLoaded (to_read s) (written s) true, Ready (Ok tt))
}.
#[global] Program Instance Loaded_readspec : ReadSpec Loaded := { incoming := to_read }.
Next Obligation.
  intros [r w c] n s' x [= <- <-]. cbn. rewrite length_take, take_drop. split_and!; [lia|done|].
  destruct n, r; cbn; auto. done.
Qed.
Next Obligation. by intros s n s' [=]. Qed.
Next Obligation. by intros s n s' [=]. Qed.
#[global] Program Instance Loaded_writespec : WriteSpec Loaded := { sent := written }.
Next Obligation. intros s b s' n [= <- <-]. cbn. by rewrite firstn_all. Qed.
Next Obligation. intros s b s' r [= <- <-] Hn. by destruct (Hn (length b)). Qed.
Next Obligation. by intros s b s' [=]. Qed.
Next Obligation. by intros s s' r [= <- <-]. Qed.
Next Obligation. by intros s s' [=]. Qed.
Next Obligation. by intros s s' r [= <- <-]. Qed.
Next Obligation. by intros s s' [=]. Qed.
#[global] Instance Loaded_duplex : Duplex Loaded.
Proof. split; intros s *; by intros [= <- _]. Qed.
#[global] Instance Loaded_ready : AlwaysReady Loaded.
Proof.
  split; [by intros s n; eexists _, _| |by eexists|by eexists].
  intros s [|x b] Hb; [done|]. by eexists _, _.
Qed.

Lemma relay_v2_terminates_witness :
  exists s' st, relay_poll 40 Immediate (relay_new small_relay (mkLoaded [1; 2; 3; 4; 5] [] false) (mkLoaded [9; 8; 7] [] false) None) = Some (s', Ready (Ok st)) /\
    written (stream_b s') = [1; 2; 3; 4; 5] /\ written (stream_a s') = [9; 8; 7].
Proof.
  destruct (relay_v2_terminates small_relay Immediate (mkLoaded [1; 2; 3; 4; 5] [] false) (mkLoaded [9; 8; 7] [] false)
    (relay_new small_relay (mkLoaded [1; 2; 3; 4; 5] [] false) (mkLoaded [9; 8; 7] [] false) None) 40) as (s' & r & Hp & _ & Hd & Hr).
  - done.
  - apply relaying_start.
  - vm_compute. lia.
  - destruct (Hr _ _) as [st ->]. destruct (Hd st eq_refl) as (Hb & Ha & _). exists s', st. split; [exact Hp|split; [exact Hb|exact Ha]].
Defined.

(** *** Deferred flushing *)

Section Spin.
Context `{Alloc} {A B : Type} `{AsyncRead A, AsyncWrite A, AsyncRead B, AsyncWrite B}.

(** Writers whose flush is ready and whose shutdown is not, for as long as they are polled. *)
Definition keeps_waiting {W : Type} `{AsyncWrite W} (P : W -> Prop) : Prop :=
  forall w, P w -> exists w1 w2, poll_flush w = (w1, Ready (Ok tt)) /\ poll_shutdown w1 = (w2, Pending) /\ P w2.

(** A direction that has nothing left to do but to shut its writer down. *)
Definition only_shutdown (st : RelayDirectionState) : Prop :=
  read_eof st = true /\ Ring.is_empty (pending st) = true /\ shutdown_sent st = false.

Lemma deferred_waits {R W : Type} `{AsyncRead R, AsyncWrite W} (P : W -> Prop) is_upload (r : R) (w : W) st log :
  keeps_waiting P -> P w -> only_shutdown st ->
  exists w', poll_relay_direction Deferred is_upload r w st log = (r, w', flushed st, log, Ok true) /\ P w'.
Proof.
  intros HP Hw (Heof & Hemp & Hsent). destruct (HP w Hw) as (w1 & w2 & Hfl & Hsh & Hw2). exists w2. split; [|done].
  unfold poll_relay_direction, write_phase. rewrite Hemp. unfold immediate_flush.
  rewrite bool_decide_eq_false_2 by done. cbn [andb]. unfold read_phase. rewrite Heof. cbn [negb andb].
  unfold adaptive_flush. rewrite bool_decide_eq_false_2 by done. cbn [andb].
  unfold shutdown_phase. rewrite Heof, Hemp, Hsent. cbn [andb negb].
  rewrite (bool_decide_eq_true_2 (Deferred = Deferred)), orb_true_r by done.
  unfold flush_now. rewrite Hfl. unfold send_shutdown. by rewrite Hsh.
Qed.

Lemma deferred_done {R W : Type} `{AsyncRead R, AsyncWrite W} is_upload (r : R) (w : W) st log :
  dir_done st = true -> poll_relay_direction Deferred is_upload r w st log = (r, w, st, log, Ok false).
Proof.
  unfold dir_done. intros [[Hdr Hde]%andb_true_iff Hds]%andb_true_iff.
  unfold poll_relay_direction, write_phase. rewrite Hde. unfold immediate_flush. rewrite bool_decide_eq_false_2 by done. cbn [andb].
  unfold read_phase. rewrite Hdr. cbn [negb andb].
  unfold adaptive_flush. rewrite bool_decide_eq_false_2 by done. cbn [andb].
  unfold shutdown_phase. by rewrite Hdr, Hde, Hds.
Qed.

(** Done, or waiting for a shutdown: the directions of a relay that is about to end. *)
Definition ending {W : Type} (P : W -> Prop) (w : W) st : Prop := dir_done st = true \/ (only_shutdown st /\ P w).

(** One poll of such a direction: a waiting one flushes, and says that it made progress. *)
Lemma deferred_direction {R W : Type} `{AsyncRead R, AsyncWrite W} (P : W -> Prop) is_upload (r : R) (w : W) st log :
  keeps_waiting P -> ending P w st ->
  exists w' st', poll_relay_direction Deferred is_upload r w st log = (r, w', st', log, Ok (negb (dir_done st))) /\
    ending P w' st' /\ dir_done st' = dir_done st /\ as_u64 (flush_ops st') = as_u64 (flush_ops st + Z.of_nat (nat_of (negb (dir_done st)))) /\
    (dir_done st = true -> w' = w).
Proof.
  intros HP [Hd|[Ho Hw]].
  - exists w, st. rewrite deferred_done, Hd by done. cbn. rewrite Z.add_0_r. split_and!; try done. by left.
  - destruct (deferred_waits P is_upload r w st log HP Hw Ho) as (w' & -> & Hw').
    assert (Hnd : dir_done st = false) by (destruct Ho as (Ha & Hb & Hc); unfold dir_done; by rewrite Ha, Hb, Hc).
    exists w', (flushed st). rewrite Hnd. cbn. split_and!; try done; [by right|].
    unfold as_u64. by rewrite Z.mod_mod.
Qed.

Definition ends_waiting (PA : A -> Prop) (PB : B -> Prop) (s : Relay A B) : Prop :=
  ending PB (stream_b s) (up s) /\ ending PA (stream_a s) (down s) /\ dir_done (up s) && dir_done (down s) = false.

Lemma deferred_round (PA : A -> Prop) (PB : B -> Prop) s : keeps_waiting PA -> keeps_waiting PB -> ends_waiting PA PB s ->
  exists s', relay_round Deferred s = (s', Again) /\ ends_waiting PA PB s' /\
    dir_done (up s') = dir_done (up s) /\ dir_done (down s') = dir_done (down s) /\
    as_u64 (flush_ops (up s')) = as_u64 (flush_ops (up s) + Z.of_nat (nat_of (negb (dir_done (up s))))) /\
    as_u64 (flush_ops (down s')) = as_u64 (flush_ops (down s) + Z.of_nat (nat_of (negb (dir_done (down s))))).
Proof.
  intros HA HB (Hu & Hd & Hn).
  destruct (deferred_direction PB true (stream_a s) (stream_b s) (up s) (rlog s) HB Hu) as (b1 & u1 & P1 & E1 & D1 & F1 & _).
  destruct (deferred_direction PA false b1 (stream_a s) (down s) (rlog s) HA Hd) as (a2 & d2 & P2 & E2 & D2 & F2 & _).
  unfold relay_round. rewrite P1, P2, D1, D2, Hn.
  exists (mkRelay a2 b1 u1 d2 (rlog s)). split; [|unfold ends_waiting; cbn; rewrite D1, D2; by split_and!].
  by destruct (dir_done (up s)), (dir_done (down s)).
Qed.
End Spin.

(** C38. With deferred flushing a poll need not end.  Let every direction of a relay be
    done or have only the shutdown of its writer left, at least one of them the latter, and
    let those writers flush at once but not shut down.  Then a poll, however many rounds it
    is given, neither yields nor returns; and every round has flushed the waiting writers
    once more, which is what it counts as progress. *)
Theorem relay_v2_deferred_spins `{Alloc} {A B : Type} `{AsyncRead A, AsyncWrite A, AsyncRead B, AsyncWrite B}
    (PA : A -> Prop) (PB : B -> Prop) (s : Relay A B) fuel :
  keeps_waiting PA -> keeps_waiting PB -> ends_waiting PA PB s ->
  relay_poll fuel Deferred s = None /\
  as_u64 (flush_ops (up (rounds fuel Deferred s))) = as_u64 (flush_ops (up s) + Z.of_nat (if dir_done (up s) then 0 else fuel)) /\
  as_u64 (flush_ops (down (rounds fuel Deferred s))) = as_u64 (flush_ops (down s) + Z.of_nat (if dir_done (down s) then 0 else fuel)).
Proof.
  intros HA HB Hs. split.
  - revert s Hs. induction fuel as [|fuel IH]; intros s Hs; [done|]. cbn [relay_poll].
    destruct (deferred_round PA PB s HA HB Hs) as (s' & -> & Hs' & _). by apply IH.
  - enough (Hg : ends_waiting PA PB (rounds fuel Deferred s) /\ dir_done (up (rounds fuel Deferred s)) = dir_done (up s) /\
      dir_done (down (rounds fuel Deferred s)) = dir_done (down s) /\
      as_u64 (flush_ops (up (rounds fuel Deferred s))) = as_u64 (flush_ops (up s) + Z.of_nat (if dir_done (up s) then 0 else fuel)) /\
      as_u64 (flush_ops (down (rounds fuel Deferred s))) = as_u64 (flush_ops (down s) + Z.of_nat (if dir_done (down s) then 0 else fuel)))
      by (destruct Hg as (_ & _ & _ & ? & ?); done).
    induction fuel as [|fuel IH]; [cbn [rounds]; split_and!; try done; by case_match; rewrite Z.add_0_r|]. cbn [rounds].
    destruct IH as (Hi & Du & Dd & Fu & Fd). destruct (deferred_round PA PB _ HA HB Hi) as (s' & -> & Hs' & Du' & Dd' & Fu' & Fd'). cbn [fst].
    rewrite Du' , Dd', Fu', Fd', Du, Dd, <- (as_u64_add (flush_ops (up _))), <- (as_u64_add (flush_ops (down _))), Fu, Fd, !as_u64_add.
    split_and!; try done; f_equal; [destruct (dir_done (up s))|destruct (dir_done (down s))]; cbn [nat_of negb]; lia.
Qed.

(** A stream whose shutdown waits, as a TLS close does while its socket is full. *)
Inductive Stuck : Type := stuck.
#[global] Instance Stuck_read : AsyncRead Stuck := fun s _ => (s, Ready (Ok [])).
#[global] Instance Stuck_write : AsyncWrite Stuck := {
  poll_write s b := (s, Ready (Ok (length b)));
  poll_flush s := (s, Ready (Ok tt));
  poll_shutdown s := (s, Pending)
}.

(** A relay of two such streams gets there in its first round. *)
Lemma relay_v2_deferred_spins_witness :
  let s := rounds 1 Deferred (relay_new small_relay stuck stuck None) in
  relaying Deferred (relay_new small_relay stuck stuck None) s /\
  relay_poll (Z.to_nat 1000000) Deferred s = None /\
  as_u64 (flush_ops (up (rounds (Z.to_nat 1000000) Deferred s))) = as_u64 (flush_ops (up s) + Z.of_nat (Z.to_nat 1000000)).
Proof.
  intros s. split; [apply relaying_rounds; vm_compute; reflexivity|].
  assert (Hk : keeps_waiting (fun _ : Stuck => True)) by (intros w _; exists stuck, w; destruct w; split_and!; reflexivity || exact I).
  destruct (relay_v2_deferred_spins (fun _ => True) (fun _ => True) s (Z.to_nat 1000000) Hk Hk) as (Hp & Hf & _).
  - split_and!; [right; split; [vm_compute; split_and!; reflexivity|exact I]..|vm_compute; reflexivity].
  - split; [exact Hp|]. exact Hf.
Defined.

(** ** Relaying into Vision *)

(** The polls of one direction, all of them successful, as long as the writer can
    take the front of the queue. *)
Inductive directing `{Alloc} {R W : Type} `{AsyncRead R} `{WriterContract W}
    (policy : RelayFlushPolicy) (is_upload : bool) (r0 : R) (w0 : W) (st0 : RelayDirectionState) :
    R -> W -> RelayDirectionState -> Prop :=
| directing_start : directing policy is_upload r0 w0 st0 r0 w0 st0
| directing_poll r w st log r' w' st' log' p :
    directing policy is_upload r0 w0 st0 r w st -> fits (RingFacts.live (pending st)) ->
    poll_relay_direction policy is_upload r w st log = (r', w', st', log', Ok p) ->
    directing policy is_upload r0 w0 st0 r' w' st'.

(** The relay and a server's Vision stream compose: as long as the queue
    stays below 64 KiB, the relay respects the contract of the Vision writer
    (it retries pending writes with the same bytes and flushes only in between),
    so that what a peer unpads from the wire, however it is fragmented, is at
    every moment a prefix of the source's bytes, and all of them when the
    direction is done. *)
Theorem relay_into_vision `{AllocLaws} {R S : Type} `{ReadSpec R} `{Duplex S}
    policy (r0 : R) (i : S) u o r (v : VisionStream S) st reads :
  length u = 16%nat -> sent i = [] ->
  directing policy false r0 (new_server_inbound i u) (RelayDirectionState_new o) r v st ->
  concat reads = sent (inner v) ->
  exists st1 out d, feed_all (uuid v) VisionUnpaddingState_new reads = Some (st1, out, d) /\
    out `prefix_of` incoming r0 /\ (dir_done st = true -> out = incoming r0).
Proof.
  intros Hu Hsent Hdir Hreads.
  assert (Hflow : exists acc infl, flow (incoming r0) r v st acc infl).
  { clear Hreads. induction Hdir as [|r1 v1 st1 log r2 v2 st2 log2 p Hd IH Hsmall Hp].
    - exists [], None. apply flow_new. by apply written_new.
    - destruct IH as (acc & infl & Hf). destruct (log_ok_self log) as (nu & nd & Hlog).
      destruct (poll_direction_flow policy false _ _ _ _ _ _ _ _ _ _ _ _ _ _ Hf
        Hsmall Hlog Hp) as [_ Hnext].
      destruct (Hnext p eq_refl) as (acc' & infl' & _ & Hf' & _). eauto. }
  destruct Hflow as (acc & infl & Hf).
  destruct (written_unpads v acc infl reads (fl_acc _ _ _ _ _ _ Hf) Hreads)
    as (st1 & d & Hfeed & Hlow & Hpre).
  exists st1, (unpadded v), d. split; [done|]. split.
  - etrans; [exact Hpre|]. rewrite (fl_flow _ _ _ _ _ _ Hf). apply prefix_app.
    destruct infl as [b|]; [|by exists (RingFacts.live (pending st) ++ incoming r)].
    cbn. apply prefix_app_r. by apply Hf.
  - intros Hd. destruct (flow_done _ _ _ _ _ _ Hf Hd) as (-> & _ & _). apply written_settled.
    assert (infl = None) as <- by (unfold dir_done in Hd; bool_hyps; by apply (flow_idle _ _ _ _ _ _ Hf)). apply Hf.
Qed.

Definition vision_source : Script := mkScript [Some [1; 2]; None; Some [3]] [] [].
Definition vision_sink : VisionStream Script :=
  new_server_inbound (mkScript [] [Some 3%nat; None] []) (replicate 16 7).

Fixpoint polls (n : nat) : Script * VisionStream Script * RelayDirectionState :=
  match n with
  | O => (vision_source, vision_sink, RelayDirectionState_new small_relay)
  | Datatypes.S n' =>
      let '(r, w, st) := polls n' in
      let '(r', w', st', _, _) := poll_relay_direction Adaptive false r w st None in (r', w', st')
  end.

Definition polls_ok (n : nat) : bool :=
  forallb (fun k =>
    let '(r, w, st) := polls k in
    (zlen (RingFacts.live (pending st)) <? 2 ^ 16) &&
    is_ok (poll_relay_direction Adaptive false r w st None).2) (seq 0 n).

Lemma polls_directing n :
  polls_ok n = true ->
  directing Adaptive false vision_source vision_sink (RelayDirectionState_new small_relay)
    (polls n).1.1 (polls n).1.2 (polls n).2.
Proof.
  intros Hn. induction n as [|n IH]; [apply directing_start|].
  unfold polls_ok in *. rewrite seq_S, forallb_app in Hn. apply andb_true_iff in Hn as [Hn Hk].
  specialize (IH Hn). cbn [forallb polls Nat.add] in *. rewrite andb_true_r in Hk.
  destruct (polls n) as [[r w] st]. apply andb_true_iff in Hk as [Hsmall Hok].
  apply Z.ltb_lt in Hsmall.
  destruct (poll_relay_direction Adaptive false r w st None) as [[[[r' w'] st'] log'] [p|e|]] eqn:Hp;
    [|done|done]. eapply directing_poll; [exact IH|exact Hsmall|exact Hp].
Qed.

Lemma relay_into_vision_witness :
  exists st1 d, feed_all (replicate 16 7) VisionUnpaddingState_new [wire (inner (polls 6).1.2)] =
    Some (st1, [1; 2; 3], d).
Proof.
  assert (Hdir : directing Adaptive false vision_source vision_sink
    (RelayDirectionState_new small_relay) (polls 6).1.1 (polls 6).1.2 (polls 6).2).
  { apply polls_directing. vm_compute. reflexivity. }
  destruct (relay_into_vision Adaptive vision_source (mkScript [] [Some 3%nat; None] [])
    (replicate 16 7) small_relay (polls 6).1.1 (polls 6).1.2 (polls 6).2
    [wire (inner (polls 6).1.2)]) as (st1 & out & d & Hf & _ & Hall);
    [reflexivity|reflexivity|exact Hdir|apply app_nil_r|].
  rewrite Hall in Hf by (vm_compute; reflexivity). exists st1, d. exact Hf.
Defined.

(** * The pooled copy loop *)

Section Pooled.
Context {R W : Type} `{AsyncRead R, AsyncWrite W}.

Definition BUF_SIZE : nat := Z.to_nat (16 * 1024).

(** The loop of [copy_one_pooled]: it ends with the error that stopped it, if
    any; [None] is an await that was still pending after [polls] polls, or a loop
    that needed more than [fuel] rounds. *)
Fixpoint copy_loop (fuel polls : nat) (is_upload : bool) (r : R) (w : W) (total : Z) (log : recorder) :
    option (R * W * Z * recorder * option (res io_error unit)) :=
  match fuel with
  | O => None
  | Datatypes.S fuel' =>
      '(r1, x) ← await (fun r => poll_read r BUF_SIZE) polls r;
      match x with
      | Ok [] => Some (r1, w, total, log, None)
      | Ok c =>
          '(w1, y) ← write_all polls w c;
          match y with
          | Ok _ =>
              '(w2, z) ← await poll_flush polls w1;
              match z with
              | Ok _ =>
                  copy_loop fuel' polls is_upload r1 w2 (as_u64 (total + zlen c))
                    (record (length c) is_upload log)
              | Err e => Some (r1, w2, total, log, Some (Err e))
              | Panic => Some (r1, w2, total, log, Some Panic)
              end
          | Err e => Some (r1, w1, total, log, Some (Err e))
          | Panic => Some (r1, w1, total, log, Some Panic)
          end
      | Err e => Some (r1, w, total, log, Some (Err e))
      | Panic => Some (r1, w, total, log, Some Panic)
      end
  end.

(** The writer is shut down whatever happened, and the result of that is dropped. *)
Definition copy_one_pooled (fuel polls : nat) (is_upload : bool) (r : R) (w : W) (log : recorder) :
    option (R * W * recorder * res io_error Z) :=
  '(r1, w1, total, log1, err) ← copy_loop fuel polls is_upload r w 0 log;
  '(w2, _) ← await poll_shutdown polls w1;
  Some (r1, w2, log1,
        match err with
        | None => Ok total
        | Some (Err e) => Err e
        | Some _ => Panic
        end).
End Pooled.

Section PooledFacts.
Context {R W : Type} `{ReadSpec R} `{WriteSpec W}.

Lemma await_read n polls (r : R) r' x :
  await (fun r => poll_read r n) polls r = Some (r', x) ->
  match x with
  | Ok c => incoming r = c ++ incoming r' /\ (c = [] -> n = 0%nat \/ incoming r = [])
  | Err _ => True
  | Panic => False
  end.
Proof.
  revert r. induction polls as [|polls IH]; intros r; cbn [await]; [done|].
  destruct (poll_read r n) as [r1 [a|]] eqn:Hr.
  - intros [= <- <-]. destruct a as [c|e|]; [|done|by apply poll_read_no_panic in Hr].
    apply poll_read_ok in Hr as (_ & ? & ?). done.
  - apply poll_read_pending in Hr. intros Ha. apply IH in Ha. by rewrite <- Hr.
Qed.

Lemma await_shutdown_sent fuel (s : W) s' r :
  await poll_shutdown fuel s = Some (s', r) -> sent s' = sent s.
Proof.
  revert s. induction fuel as [|fuel IH]; intros s; cbn [await]; [done|].
  destruct (poll_shutdown s) as [s1 [a|]] eqn:E; apply poll_shutdown_sent in E.
  - by intros [= <- _].
  - intros Hs. apply IH in Hs. congruence.
Qed.

Lemma copy_loop_ok fuel polls is_upload (r : R) (w : W) total log r' w' total' log' :
  copy_loop fuel polls is_upload r w total log = Some (r', w', total', log', None) ->
  sent w' = sent w ++ incoming r /\ total' = as_u64 (total + zlen (incoming r)) \/
  sent w' = sent w /\ total' = total /\ incoming r = [].
Proof.
  revert r w total log. induction fuel as [|fuel IH]; intros r w total log; cbn [copy_loop]; [done|].
  destruct (await _ polls r) as [[r1 x]|] eqn:Hr; cbn; [|done]. apply await_read in Hr.
  destruct x as [[|b c]|e|]; try done.
  - destruct Hr as [_ Hend]. destruct Hend as [|Hend]; [done|unfold BUF_SIZE in *; lia|].
    intros [= <- <- <- <-]. right. done.
  - destruct Hr as [Hinc _]. destruct (write_all polls w (b :: c)) as [[w1 y]|] eqn:Hw; cbn; [|done].
    destruct y as [[]|e|]; try done. apply write_all_sent in Hw.
    destruct (await poll_flush polls w1) as [[w2 z]|] eqn:Hf; cbn; [|done].
    apply await_flush_sent in Hf. destruct z as [[]|e|]; try done. intros Hl.
    left. apply IH in Hl as [[Hs Ht]|(Hs & Ht & Hi)].
    + rewrite Hs, Hf, Hw, Hinc, <- app_assoc. split; [done|].
      rewrite Ht, as_u64_add, zlen_app. f_equal. lia.
    + rewrite Hs, Hf, Hw, Hinc, Hi, app_nil_r, Ht. done.
Qed.

(** A pooled copy that succeeds has copied the whole source and counted it. *)
Lemma copy_one_pooled_ok fuel polls is_upload (r : R) (w : W) log r' w' log' total :
  copy_one_pooled fuel polls is_upload r w log = Some (r', w', log', Ok total) ->
  sent w' = sent w ++ incoming r /\ total = as_u64 (zlen (incoming r)).
Proof.
  unfold copy_one_pooled.
  destruct (copy_loop _ _ _ _ _ _ _) as [[[[[r1 w1] t1] l1] err]|] eqn:Hl; cbn; [|done].
  destruct (await poll_shutdown polls w1) as [[w2 x]|] eqn:Hs; cbn; [|done].
  apply await_shutdown_sent in Hs. destruct err as [[|e|]|]; try done. intros [= <- <- <- <-].
  apply copy_loop_ok in Hl as [[Hw Ht]|(Hw & Ht & Hi)]; rewrite Hs.
  - split; [done|]. by rewrite Ht.
  - rewrite Hw, Hi, app_nil_r, Ht. done.
Qed.
End PooledFacts.

(** * The buffer pool *)

Module Pool.
Definition SMALL_PER_CPU : Z := 8.
Definition MEDIUM_PER_CPU : Z := 4.
Definition LARGE_PER_CPU : Z := 2.
Definition HUGE_PER_CPU : Z := 1.
Definition CONTROL_BUFFER_SIZE : Z := 4 * 1024.
Definition DEFAULT_RELAY_BUFFER_SIZE : Z := 16 * 1024.
Definition BULK_RELAY_BUFFER_SIZE : Z := 64 * 1024.
Definition QUIC_BULK_BUFFER_SIZE : Z := 256 * 1024.

(** [crossbeam_queue::ArrayQueue]: a bounded FIFO; a buffer in it is empty, so it
    is its capacity. *)
Record ArrayQueue : Type := mkQueue { items : list Z; bound : Z }.

Definition push (x : Z) (q : ArrayQueue) : ArrayQueue :=
  if zlen (items q) <? bound q then mkQueue (items q ++ [x]) (bound q) else q.

Definition pop (q : ArrayQueue) : option Z * ArrayQueue :=
  match items q with
  | [] => (None, q)
  | x :: l => (Some x, mkQueue l (bound q))
  end.

Record BufferPool : Type := mkPool {
  small : ArrayQueue;
  medium : ArrayQueue;
  large : ArrayQueue;
  huge : ArrayQueue;
  bytes_active : Z
}.

Definition BufferPool_new (cpus : Z) : BufferPool :=
  mkPool (mkQueue [] (cpus * SMALL_PER_CPU)) (mkQueue [] (cpus * MEDIUM_PER_CPU))
    (mkQueue [] (cpus * LARGE_PER_CPU)) (mkQueue [] (cpus * HUGE_PER_CPU)) 0.

(** The size of the class; the labels only name metrics. *)
Definition class_for (hint : Z) : Z :=
  if hint <=? CONTROL_BUFFER_SIZE then CONTROL_BUFFER_SIZE
  else if hint <=? DEFAULT_RELAY_BUFFER_SIZE then DEFAULT_RELAY_BUFFER_SIZE
  else if hint <=? BULK_RELAY_BUFFER_SIZE then BULK_RELAY_BUFFER_SIZE
  else if hint <=? QUIC_BULK_BUFFER_SIZE then QUIC_BULK_BUFFER_SIZE
  else hint.

Definition pool_for_class (class : Z) (p : BufferPool) : ArrayQueue :=
  if class =? CONTROL_BUFFER_SIZE then small p
  else if class =? DEFAULT_RELAY_BUFFER_SIZE then medium p
  else if class =? BULK_RELAY_BUFFER_SIZE then large p
  else huge p.

Definition set_pool (class : Z) (q : ArrayQueue) (active : Z) (p : BufferPool) : BufferPool :=
  if class =? CONTROL_BUFFER_SIZE then mkPool q (medium p) (large p) (huge p) active
  else if class =? DEFAULT_RELAY_BUFFER_SIZE then mkPool (small p) q (large p) (huge p) active
  else if class =? BULK_RELAY_BUFFER_SIZE then mkPool (small p) (medium p) q (huge p) active
  else mkPool (small p) (medium p) (large p) q active.

Section Pool.
(** The capacity of a fresh [BytesMut::with_capacity]. *)
Context (fresh : Z -> Z).

Definition acquire (hint : Z) (p : BufferPool) : Z * BufferPool :=
  let class := class_for hint in
  let '(cap, q) :=
    if QUIC_BULK_BUFFER_SIZE <? class then (fresh class, pool_for_class class p)
    else let '(o, q) := pop (pool_for_class class p) in (default (fresh class) o, q) in
  (cap, set_pool class q (as_u64 (bytes_active p + cap)) p).

Definition release (cap : Z) (p : BufferPool) : BufferPool :=
  if cap =? 0 then p
  else
    let class := class_for cap in
    let active := Z.max 0 (bytes_active p - cap) in
    let q := pool_for_class class p in
    set_pool class (if QUIC_BULK_BUFFER_SIZE <? cap then q else push cap q) active p.

(** Every pooled buffer is as large as its class. *)
Definition class_sizes : list Z :=
  [CONTROL_BUFFER_SIZE; DEFAULT_RELAY_BUFFER_SIZE; BULK_RELAY_BUFFER_SIZE; QUIC_BULK_BUFFER_SIZE].

Definition wf (p : BufferPool) : Prop :=
  Forall (fun c => Forall (Z.le c) (items (pool_for_class c p))) class_sizes.

Ltac pool_consts :=
  unfold CONTROL_BUFFER_SIZE, DEFAULT_RELAY_BUFFER_SIZE, BULK_RELAY_BUFFER_SIZE,
    QUIC_BULK_BUFFER_SIZE in *.

Lemma wf_iff p :
  wf p <-> Forall (Z.le CONTROL_BUFFER_SIZE) (items (small p)) /\
           Forall (Z.le DEFAULT_RELAY_BUFFER_SIZE) (items (medium p)) /\
           Forall (Z.le BULK_RELAY_BUFFER_SIZE) (items (large p)) /\
           Forall (Z.le QUIC_BULK_BUFFER_SIZE) (items (huge p)).
Proof. unfold wf, class_sizes. rewrite !Forall_cons, Forall_nil. cbn. tauto. Qed.

(** The class of a request is one of the pooled classes or larger than them. *)
Lemma class_for_cases hint :
  hint <= class_for hint /\
  (class_for hint = CONTROL_BUFFER_SIZE \/ class_for hint = DEFAULT_RELAY_BUFFER_SIZE \/
   class_for hint = BULK_RELAY_BUFFER_SIZE \/ class_for hint = QUIC_BULK_BUFFER_SIZE \/
   QUIC_BULK_BUFFER_SIZE < class_for hint /\ class_for hint = hint).
Proof. unfold class_for. repeat case_match; bool_hyps; split; try lia; auto 6. Qed.

Lemma pop_ok c q o q' :
  Forall (Z.le c) (items q) -> pop q = (o, q') ->
  Forall (Z.le c) (items q') /\ match o with Some x => c <= x | None => True end.
Proof.
  intros Hq. unfold pop. destruct (items q) as [|x l] eqn:E; intros [= <- <-]; [by rewrite E|].
  inversion Hq; subst. done.
Qed.

Lemma push_ok c x q : Forall (Z.le c) (items q) -> c <= x -> Forall (Z.le c) (items (push x q)).
Proof.
  intros Hq Hx. unfold push. case_match; [|done]. cbn. apply Forall_app. split; [done|]. by constructor.
Qed.

Lemma pool_acquire_ok p hint cap p' :
  (forall n, n <= fresh n) -> wf p -> acquire hint p = (cap, p') -> hint <= cap /\ wf p'.
Proof.
  intros Hfresh Hp. unfold acquire.
  destruct (class_for_cases hint) as [Hge Hcl]. set (c := class_for hint) in *. clearbody c.
  pose proof (Hfresh c). apply wf_iff in Hp as (H1 & H2 & H3 & H4).
  destruct Hcl as [->|[->|[->|[->|[Hbig _]]]]].
  5: { rewrite (proj2 (Z.ltb_lt _ _) Hbig). intros [= <- <-]. split; [lia|]. apply wf_iff.
       unfold set_pool, pool_for_class. repeat case_match; cbn; bool_hyps; pool_consts; auto; lia. }
  all: unfold pool_for_class, set_pool; cbn;
    match goal with |- context [pop ?q] => destruct (pop q) as [o q'] eqn:Ho end;
    (eapply pop_ok in Ho as [Hq Ho]; [|done]);
    intros [= <- <-]; (split; [destruct o; cbn in *; lia|apply wf_iff; cbn; auto]).
Qed.

Lemma release_ok p cap :
  wf p -> class_for cap = cap -> wf (release cap p).
Proof.
  intros Hp Hc. unfold release. case_match; [done|]. rewrite Hc.
  destruct (class_for_cases cap) as [_ Hcl]. rewrite Hc in Hcl.
  apply wf_iff in Hp as (H1 & H2 & H3 & H4). apply wf_iff.
  destruct Hcl as [->|[->|[->|[->|[Hbig _]]]]].
  5: { rewrite (proj2 (Z.ltb_lt _ _) Hbig).
       unfold set_pool, pool_for_class. repeat case_match; cbn; bool_hyps; pool_consts; auto; lia. }
  all: cbn; split_and!; try done; apply push_ok; done || lia.
Qed.

(** A buffer whose capacity is between two classes goes to the larger one. *)
Lemma release_rounds_up cap :
  0 < cap <= QUIC_BULK_BUFFER_SIZE -> class_for cap <> cap ->
  (acquire (class_for cap) (release cap (BufferPool_new 1))).1 = cap /\ cap < class_for cap.
Proof.
  intros Hcap Hne. destruct (class_for_cases cap) as [Hge Hcl].
  split; [|lia]. unfold release. rewrite (proj2 (Z.eqb_neq cap 0)) by lia.
  rewrite (proj2 (Z.ltb_ge QUIC_BULK_BUFFER_SIZE cap)) by lia.
  set (c := class_for cap) in *. unfold acquire.
  assert (Hcc : class_for c = c).
  { destruct Hcl as [->|[->|[->|[->|[? ?]]]]]; [done..|congruence]. }
  rewrite Hcc. clearbody c.
  destruct Hcl as [->|[->|[->|[->|[? ?]]]]]; [..|lia]; reflexivity.
Qed.
End Pool.
End Pool.

(** The buffer pool hands out buffers that hold what was asked for, as long
    as every buffer given back has exactly the size of a class (or is larger
    than all of them); a buffer of any other capacity is filed under the next
    larger class, so that a later request gets less room than it asked for. *)
Theorem pool_capacity (fresh : Z -> Z) :
  (forall n, n <= fresh n) ->
  (forall p hint cap p', Pool.wf p -> Pool.acquire fresh hint p = (cap, p') ->
     hint <= cap /\ Pool.wf p') /\
  (forall p cap, Pool.wf p -> Pool.class_for cap = cap -> Pool.wf (Pool.release cap p)) /\
  (forall cap, 0 < cap <= Pool.QUIC_BULK_BUFFER_SIZE -> Pool.class_for cap <> cap ->
     (Pool.acquire fresh (Pool.class_for cap) (Pool.release cap (Pool.BufferPool_new 1))).1 <
     Pool.class_for cap).
Proof.
  intros Hf. split_and!.
  - intros p hint cap p' Hp Ha. by eapply Pool.pool_acquire_ok.
  - apply Pool.release_ok.
  - intros cap Hc Hne. by destruct (Pool.release_rounds_up fresh cap Hc Hne) as [-> ?].
Qed.

Lemma pool_capacity_witness :
  (Pool.acquire id 16384 (Pool.release 5000 (Pool.BufferPool_new 1))).1 < 16384.
Proof.
  apply (proj2 (proj2 (pool_capacity id (fun n => Z.le_refl n))) 5000); [vm_compute; split; congruence|].
  vm_compute. congruence.
Defined.
