(* ===== verification/Boxed.v ===== *)
(** * Erased streams

    [BoxedStream] of [blackwire-common] [stream.rs] as the inductive type of the
    adapters that the relay can look through, and the functions that recover a
    TCP socket, a direct-copy transport or a Vision stream from one.  Sockets,
    framing layers and other transports are parameters with the bytes they will
    still deliver. *)

From S2P Require Import Prelude AsyncIo Vision.

Section Boxed.
(** [TcpStream], the framing layers behind [DirectCopyStream], and every other
    transport. *)
Context {Tcp Direct Other : Type}.

(** [PooledStream] carries the tag and the peer address of its pool. *)
Record PooledStream : Type := mkPooled {
  pooled_inner : Tcp;
  pool_tag : option string;
  peer_addr : option (bytes * Z)
}.

Definition into_metadata_parts (p : PooledStream) : Tcp * option string * option (bytes * Z) :=
  (pooled_inner p, pool_tag p, peer_addr p).

(** The concrete types that [as_any] can tell apart. *)
Unset Elimination Schemes.
Inductive BoxedStream : Type :=
| BTcp (t : Tcp)
| BPrependedTcp (p : PrependedStream Tcp)
| BPooledTcp (p : PooledStream)
| BPrepended (p : PrependedStream BoxedStream)
| BDirect (d : Direct)
| BVision (v : VisionStream BoxedStream)
| BOther (o : Other).
Set Elimination Schemes.

Fixpoint try_into_tcp_stream_with_prefix (s : BoxedStream) : Tcp * bytes + BoxedStream :=
  match s with
  | BTcp t => inl (t, [])
  | BPrependedTcp p => inl (into_parts p)
  | BPooledTcp p => let '(t, _, _) := into_metadata_parts p in inl (t, [])
  | BPrepended p =>
      let '(_, pre) := into_parts p in
      match try_into_tcp_stream_with_prefix (pre_inner p) with
      | inl (t, inner_prefix) =>
          if bool_decide (pre = []) then inl (t, inner_prefix)
          else if bool_decide (inner_prefix = []) then inl (t, pre)
          else inl (t, pre ++ inner_prefix)
      | inr i => inr (BPrepended (PrependedStream_new i pre))
      end
  | _ => inr s
  end.

Definition try_into_tcp_stream (s : BoxedStream) : Tcp + BoxedStream :=
  match try_into_tcp_stream_with_prefix s with
  | inl (t, []) => inl t
  | inl (t, pre) => inr (BPrependedTcp (PrependedStream_new t pre))
  | inr s' => inr s'
  end.

(** Pushing sniffed plaintext back above Vision. *)
Fixpoint try_into_vision_stream (s : BoxedStream) : VisionStream BoxedStream + BoxedStream :=
  match s with
  | BVision v => inl v
  | BPrepended p =>
      let '(_, pre) := into_parts p in
      match try_into_vision_stream (pre_inner p) with
      | inl v => inl (prepend_plaintext pre v)
      | inr i => inr (BPrepended (PrependedStream_new i pre))
      end
  | _ => inr s
  end.

(** [DirectCopyUnwrap], implemented by the framing layers. *)
Context (direct_copy_ready : Direct -> bool)
        (try_unwrap_direct : Direct -> BoxedStream * bytes + Direct).

Fixpoint try_unwrap_direct_copy_stream_with_prefix (s : BoxedStream) :
    BoxedStream * bytes + BoxedStream :=
  match s with
  | BDirect d =>
      match try_unwrap_direct d with
      | inl parts => inl parts
      | inr d' => inr (BDirect d')
      end
  | BPrepended p =>
      let '(_, pre) := into_parts p in
      match try_unwrap_direct_copy_stream_with_prefix (pre_inner p) with
      | inl (i, inner_prefix) => inl (i, pre ++ inner_prefix)
      | inr i => inr (BPrepended (PrependedStream_new i pre))
      end
  | _ => inr s
  end.

Definition try_into_direct_copy_tcp_stream_with_prefix (s : BoxedStream) :
    Tcp * bytes + BoxedStream :=
  match try_unwrap_direct_copy_stream_with_prefix s with
  | inl (i, pre) =>
      match try_into_tcp_stream_with_prefix i with
      | inl (t, inner_prefix) => inl (t, pre ++ inner_prefix)
      | inr i' => inr (BPrepended (PrependedStream_new i' pre))
      end
  | inr s' => try_into_tcp_stream_with_prefix s'
  end.

Definition boxed_stream_is_tcp_like (s : BoxedStream) : bool :=
  match s with
  | BTcp _ | BPrependedTcp _ | BPooledTcp _ | BPrepended _ => true
  | BDirect d => direct_copy_ready d
  | _ => false
  end.

Fixpoint boxed_stream_can_unwrap_direct (s : BoxedStream) : bool :=
  match s with
  | BDirect d => direct_copy_ready d
  | BPrepended p =>
      (length (prefix p) <=? prefix_pos p)%nat && boxed_stream_can_unwrap_direct (pre_inner p)
  | _ => false
  end.

(** ** The bytes behind an erased stream *)

Context (tcp_incoming : Tcp -> bytes) (other_incoming : Other -> bytes).

(** What a framing layer delivers from a direct-copy boundary on; the documented
    law of [try_unwrap_direct] is below. *)
Context (direct_incoming : Direct -> bytes).

Fixpoint boxed_incoming (s : BoxedStream) : bytes :=
  match s with
  | BTcp t => tcp_incoming t
  | BPrependedTcp p => drop (prefix_pos p) (prefix p) ++ tcp_incoming (pre_inner p)
  | BPooledTcp p => tcp_incoming (pooled_inner p)
  | BPrepended p => drop (prefix_pos p) (prefix p) ++ boxed_incoming (pre_inner p)
  | BDirect d => direct_incoming d
  | BVision v =>
      read_buf v ++ (vision_bytes (uuid v) (read_state v) (boxed_incoming (inner v))).1.2
  | BOther o => other_incoming o
  end.

Definition vision_boxed_incoming (v : VisionStream BoxedStream) : bytes := boxed_incoming (BVision v).

Lemma into_parts_drop {S} (p : PrependedStream S) : (into_parts p).2 = drop (prefix_pos p) (prefix p).
Proof. unfold into_parts. cbn. case_match; bool_hyps; [by rewrite drop_ge|done]. Qed.

Lemma prepend_plaintext_incoming pre v :
  vision_boxed_incoming (prepend_plaintext pre v) = pre ++ vision_boxed_incoming v.
Proof.
  unfold vision_boxed_incoming, prepend_plaintext. case_bool_decide; [by subst|]. cbn.
  case_bool_decide as Hb; [by rewrite Hb|by rewrite <- app_assoc].
Qed.

(** Recursion through the boxed inner stream of an adapter. *)
Section Induction.
Variable P : BoxedStream -> Prop.
Hypothesis Htcp : forall t, P (BTcp t).
Hypothesis Hpre_tcp : forall p, P (BPrependedTcp p).
Hypothesis Hpooled : forall p, P (BPooledTcp p).
Hypothesis Hpre : forall p, P (pre_inner p) -> P (BPrepended p).
Hypothesis Hdirect : forall d, P (BDirect d).
Hypothesis Hvision : forall v, P (BVision v).
Hypothesis Hother : forall o, P (BOther o).

Fixpoint boxed_ind (s : BoxedStream) : P s :=
  match s with
  | BTcp t => Htcp t
  | BPrependedTcp p => Hpre_tcp p
  | BPooledTcp p => Hpooled p
  | BPrepended p => Hpre p (boxed_ind (pre_inner p))
  | BDirect d => Hdirect d
  | BVision v => Hvision v
  | BOther o => Hother o
  end.
End Induction.

Lemma try_into_tcp_incoming s :
  match try_into_tcp_stream_with_prefix s with
  | inl (t, p) => boxed_incoming s = p ++ tcp_incoming t
  | inr s' => boxed_incoming s' = boxed_incoming s
  end.
Proof.
  induction s as [t|p|p|p IH|d|v|o] using boxed_ind; cbn -[into_parts vision_boxed_incoming prepend_plaintext]; try done.
  - pose proof (into_parts_drop p) as Hp. destruct p as [pre pos i]. cbn in *. by rewrite Hp.
  - pose proof (into_parts_drop p) as Hp. destruct (into_parts p) as [x pre]. cbn in Hp. subst pre.
    destruct (try_into_tcp_stream_with_prefix (pre_inner p)) as [[t ip]|i].
    + rewrite IH. case_bool_decide as H1; [by rewrite H1|].
      case_bool_decide as H2; [by rewrite H2|by rewrite <- app_assoc].
    + cbn. by rewrite IH.
Qed.

Lemma try_into_vision_incoming s :
  match try_into_vision_stream s with
  | inl v => vision_boxed_incoming v = boxed_incoming s
  | inr s' => boxed_incoming s' = boxed_incoming s
  end.
Proof.
  induction s as [t|p|p|p IH|d|v|o] using boxed_ind; cbn -[into_parts vision_boxed_incoming prepend_plaintext]; try done.
  pose proof (into_parts_drop p) as Hp. destruct (into_parts p) as [x pre]. cbn in Hp. subst pre.
  destruct (try_into_vision_stream (pre_inner p)) as [v|i].
  - by rewrite prepend_plaintext_incoming, IH.
  - cbn. by rewrite IH.
Qed.

(** The documented contract of [try_unwrap_direct]: the bytes it returns precede
    the unread bytes of the transport below, and a refusal returns the stream. *)
Hypothesis unwrap_law : forall d,
  match try_unwrap_direct d with
  | inl (i, p) => direct_incoming d = p ++ boxed_incoming i
  | inr d' => direct_incoming d' = direct_incoming d
  end.

Lemma try_unwrap_incoming s :
  match try_unwrap_direct_copy_stream_with_prefix s with
  | inl (i, p) => boxed_incoming s = p ++ boxed_incoming i
  | inr s' => boxed_incoming s' = boxed_incoming s
  end.
Proof.
  induction s as [t|p|p|p IH|d|v|o] using boxed_ind; cbn -[into_parts vision_boxed_incoming prepend_plaintext]; try done.
  - pose proof (into_parts_drop p) as Hp. destruct (into_parts p) as [x pre]. cbn in Hp. subst pre.
    destruct (try_unwrap_direct_copy_stream_with_prefix (pre_inner p)) as [[i ip]|i].
    + by rewrite IH, <- app_assoc.
    + cbn. by rewrite IH.
  - pose proof (unwrap_law d) as Hd. destruct (try_unwrap_direct d) as [[i p]|d']; done.
Qed.

(** Looking through erased streams loses, repeats and reorders nothing: the
    recovered socket, transport or Vision stream, with the prefix returned
    beside it, delivers exactly what the erased stream would have delivered, for
    every nesting of adapters; and when recovery is refused, the stream handed
    back is equivalent to the original. *)
Theorem boxed_recovery_lossless s :
  match try_into_tcp_stream s with
  | inl t => boxed_incoming s = tcp_incoming t
  | inr s' => boxed_incoming s' = boxed_incoming s
  end /\
  match try_into_vision_stream s with
  | inl v => boxed_incoming (BVision v) = boxed_incoming s
  | inr s' => boxed_incoming s' = boxed_incoming s
  end /\
  match try_into_direct_copy_tcp_stream_with_prefix s with
  | inl (t, p) => boxed_incoming s = p ++ tcp_incoming t
  | inr s' => boxed_incoming s' = boxed_incoming s
  end.
Proof.
  split_and!.
  - unfold try_into_tcp_stream. pose proof (try_into_tcp_incoming s) as Ht.
    destruct (try_into_tcp_stream_with_prefix s) as [[t [|b pre]]|s']; done.
  - apply try_into_vision_incoming.
  - unfold try_into_direct_copy_tcp_stream_with_prefix. pose proof (try_unwrap_incoming s) as Hs.
    destruct (try_unwrap_direct_copy_stream_with_prefix s) as [[i pre]|s'].
    + pose proof (try_into_tcp_incoming i) as Hi.
      destruct (try_into_tcp_stream_with_prefix i) as [[t ip]|i']; rewrite Hs.
      * by rewrite Hi, app_assoc.
      * cbn. by rewrite Hi.
    + pose proof (try_into_tcp_incoming s') as Hi.
      destruct (try_into_tcp_stream_with_prefix s') as [[t ip]|i']; congruence.
Qed.
End Boxed.

Lemma boxed_recovery_lossless_witness :
  let layer (d : nat) : (BoxedStream (Tcp := bytes) (Direct := nat) (Other := unit)) * bytes + nat :=
    match d with O => inr O | _ => inl (BPrependedTcp (mkPrepended [3; 4] 1 [5]), [2]) end in
  let s := BPrepended (mkPrepended [9; 1] 1 (BDirect 7%nat)) in
  try_into_direct_copy_tcp_stream_with_prefix layer s = inl ([5], [1; 2; 4]) /\
  [1; 2; 4; 5] = [1; 2; 4] ++ [5].
Proof.
  intros layer s.
  pose proof (boxed_recovery_lossless layer (fun t => t) (fun _ => [])
    (fun d => match d with O => [] | _ => [2; 4; 5] end)
    (fun d => match d return
       match layer d with
       | inl (i, p) => match d with O => [] | _ => [2; 4; 5] end =
           p ++ boxed_incoming (fun t => t) (fun _ => [])
                  (fun d => match d with O => [] | _ => [2; 4; 5] end) i
       | inr d' => match d' with O => [] | _ => [2; 4; 5] end =
           match d with O => [] | _ => [2; 4; 5] end
       end with O => eq_refl | _ => eq_refl end) s) as (_ & _ & H).
  split; [reflexivity|]. exact H.
Defined.
