(* ===== verification/UploadQueue.v ===== *)
(** * SplitHTTP packet-up

    [blackwire-transport] [splithttp_packet_up.rs]: the queue that reorders the
    bodies of upload requests by sequence number, its single reader, and the
    parsing of session and sequence number from a request path. *)

From Stdlib Require Import Sorting.Sorted.
From S2P Require Import Prelude AsyncIo IpText.

Definition DEFAULT_MAX_BUFFERED : Z := 64.
Definition DEFAULT_MAX_BUFFERED_BYTES : Z := 8 * 1024 * 1024.

(** ** The reorder queue *)

Record UploadPacket : Type := mkPacket { seq : Z; payload : bytes }.

(** The order of [(u64, Vec<u8>)]. *)
Fixpoint bytes_leb (a b : bytes) : bool :=
  match a, b with
  | [], _ => true
  | _, [] => false
  | x :: a', y :: b' => (x <? y) || ((x =? y) && bytes_leb a' b')
  end.

Definition packet_leb (p q : Z * bytes) : bool :=
  (p.1 <? q.1) || ((p.1 =? q.1) && bytes_leb p.2 q.2).

(** [BinaryHeap<Reverse<_>>], kept in the order in which it pops. *)
Fixpoint heap_push (p : Z * bytes) (h : list (Z * bytes)) : list (Z * bytes) :=
  match h with
  | [] => [p]
  | q :: h' => if packet_leb p q then p :: h else q :: heap_push p h'
  end.

Record QueueState : Type := mkQueueState {
  next_seq : Z;
  heap : list (Z * bytes);
  pending : bytes;
  closed : bool;
  max_buffered : Z;
  buffered_bytes : Z;
  max_buffered_bytes : Z
}.

(** [saturating_add] and [saturating_sub] of [u64] and [usize]. *)
Definition sat_add (a b : Z) : Z := Z.min (a + b) (2 ^ 64 - 1).
Definition sat_sub (a b : Z) : Z := Z.max (a - b) 0.

Definition set_heap (h : list (Z * bytes)) (st : QueueState) : QueueState :=
  mkQueueState (next_seq st) h (pending st) (closed st) (max_buffered st) (buffered_bytes st)
    (max_buffered_bytes st).

(** The loop of [fill_pending], which pops the heap until it is empty or its
    first packet is not due yet. *)
Fixpoint fill_loop (h : list (Z * bytes)) (st : QueueState) : QueueState * res io_error unit :=
  match h with
  | [] =>
      (set_heap [] st,
       if closed st && bool_decide (pending st = []) then Err UnexpectedEof else Ok tt)
  | (s, p) :: h' =>
      if s =? next_seq st then
        fill_loop h' (mkQueueState (sat_add (next_seq st) 1) h' (pending st ++ p) (closed st)
                        (max_buffered st) (buffered_bytes st) (max_buffered_bytes st))
      else if next_seq st <? s then
        if max_buffered st <=? zlen h' then (set_heap h' st, Err OtherError)
        else (set_heap (heap_push (s, p) h') st, Ok tt)
      else
        fill_loop h' (mkQueueState (next_seq st) h' (pending st) (closed st) (max_buffered st)
                        (sat_sub (buffered_bytes st) (zlen p)) (max_buffered_bytes st))
  end.

Definition fill_pending (st : QueueState) : QueueState * res io_error unit :=
  fill_loop (heap st) st.

(** The queue with the number of wake-ups that its reader has not received. *)
Record UploadQueue : Type := mkUpload { state : QueueState; wakes : nat }.

Definition UploadQueue_new (max : Z) : UploadQueue :=
  let max := if max =? 0 then DEFAULT_MAX_BUFFERED else max in
  mkUpload (mkQueueState 0 [] [] false max 0 DEFAULT_MAX_BUFFERED_BYTES) 0.

Definition push (packet : UploadPacket) (q : UploadQueue) : UploadQueue * res io_error unit :=
  let st := state q in
  if closed st then (q, Err BrokenPipe)
  else
    let payload_len := zlen (payload packet) in
    if (max_buffered st <=? zlen (heap st)) ||
       (max_buffered_bytes st <? sat_add (buffered_bytes st) payload_len)
    then (q, Err OtherError)
    else
      (mkUpload
         (mkQueueState (next_seq st) (heap_push (seq packet, payload packet) (heap st)) (pending st)
            (closed st) (max_buffered st) (sat_add (buffered_bytes st) payload_len)
            (max_buffered_bytes st))
         (S (wakes q)), Ok tt).

(** [poll_read] of the reader, with the lock free: it takes what is due, or waits
    for the next wake-up and looks again. *)
Fixpoint read_loop (wakes : nat) (st : QueueState) (n : nat) :
    UploadQueue * poll (res io_error bytes) :=
  let '(st1, r) := fill_pending st in
  match r with
  | Err UnexpectedEof => (mkUpload st1 wakes, Ready (Ok []))
  | Err e => (mkUpload st1 wakes, Ready (Err e))
  | Panic => (mkUpload st1 wakes, Ready Panic)
  | Ok _ =>
      if negb (bool_decide (pending st1 = [])) then
        let k := Nat.min n (length (pending st1)) in
        (mkUpload (mkQueueState (next_seq st1) (heap st1) (drop k (pending st1)) (closed st1)
                     (max_buffered st1) (sat_sub (buffered_bytes st1) (Z.of_nat k))
                     (max_buffered_bytes st1)) wakes,
         Ready (Ok (take k (pending st1))))
      else if closed st1 then (mkUpload st1 wakes, Ready (Ok []))
      else
        match wakes with
        | O => (mkUpload st1 O, Pending)
        | S w => read_loop w st1 n
        end
  end.

Definition Upload_poll_read (q : UploadQueue) (n : nat) : UploadQueue * poll (res io_error bytes) :=
  if (n =? 0)%nat then (q, Ready (Ok [])) else read_loop (wakes q) (state q) n.

(** ** Request paths *)

(** [str::split(c)] *)
Fixpoint split_on (c : Z) (s : bytes) : list bytes :=
  match s with
  | [] => [[]]
  | x :: s' =>
      if x =? c then [] :: split_on c s'
      else match split_on c s' with
           | [] => [[x]]
           | p :: ps => (x :: p) :: ps
           end
  end.

Definition starts_with (c : Z) (s : bytes) : bool :=
  match s with x :: _ => x =? c | [] => false end.

Fixpoint trim_start_matches (c : Z) (s : bytes) : bytes :=
  match s with
  | x :: s' => if x =? c then trim_start_matches c s' else s
  | [] => []
  end.

Definition trim_end_matches (c : Z) (s : bytes) : bytes :=
  reverse (trim_start_matches c (reverse s)).

(** [str::strip_prefix] with a string. *)
Definition strip_str (pre s : bytes) : option bytes :=
  if bool_decide (take (length pre) s = pre) then Some (drop (length pre) s) else None.

Abbreviation slash := 47.
Abbreviation question := 63.

Definition normalized_path_prefix (path : bytes) : bytes :=
  let path := default path (head (split_on question path)) in
  let p := if starts_with slash path then path else slash :: path in
  if starts_with slash (reverse p) then p else p ++ [slash].

Definition non_empty (s : bytes) : bool := negb (bool_decide (s = [])).

(** The fallback from the query string: [x_session] and [x_seq]. *)
Fixpoint query_session_seq (pairs : list bytes) (session sq : bytes) : bytes * bytes :=
  match pairs with
  | [] => (session, sq)
  | kv :: ps =>
      match split_once 61 kv with
      | None => query_session_seq ps session sq
      | Some (k, v) =>
          let session := if bool_decide (k = str "x_session") && negb (non_empty session) then v else session in
          let sq := if bool_decide (k = str "x_seq") && negb (non_empty sq) then v else sq in
          query_session_seq ps session sq
      end
  end.

Definition extract_session_seq (path_and_query base_path : bytes) : bytes * bytes :=
  let '(path_only, query) := default (path_and_query, []) (split_once question path_and_query) in
  let pre := normalized_path_prefix base_path in
  let rest := trim_start_matches slash
                (default path_only (strip_str (trim_end_matches slash pre) path_only)) in
  let parts := filter (fun s => non_empty s = true) (split_on slash rest) in
  query_session_seq (filter (fun s => non_empty s = true) (split_on 38 query))
    (default [] (head parts)) (default [] (parts !! 1%nat)).

(** * In-order delivery *)

Definition by_seq (h : list (Z * bytes)) : Prop := StronglySorted (fun p q => p.1 <= q.1) h.

Fixpoint total (h : list (Z * bytes)) : Z :=
  match h with [] => 0 | p :: h' => zlen p.2 + total h' end.

Lemma heap_push_perm p h : heap_push p h ≡ₚ p :: h.
Proof.
  induction h as [|q h IH]; cbn; [done|]. case_match; [done|]. rewrite IH. apply Permutation_swap.
Qed.

Lemma heap_push_sorted p h : by_seq h -> by_seq (heap_push p h).
Proof.
  intros Hh. induction Hh as [|q h Hh IH Hq]; cbn; [by repeat constructor|].
  destruct (packet_leb p q) eqn:E.
  - constructor; [by constructor|]. assert (p.1 <= q.1).
    { unfold packet_leb in E. bool_hyps. destruct E; bool_hyps; lia. }
    constructor; [done|]. eapply Forall_impl; [done|]. cbn. lia.
  - constructor; [done|]. rewrite heap_push_perm. constructor; [|done].
    unfold packet_leb in E. apply orb_false_iff in E as [E _]. bool_hyps. lia.
Qed.

Lemma total_perm h h' : h ≡ₚ h' -> total h = total h'.
Proof. induction 1; cbn; lia. Qed.

Lemma total_nonneg h : 0 <= total h.
Proof. induction h as [|p h IH]; cbn; [lia|]. pose proof (zlen_nonneg p.2). lia. Qed.

(** What has been delivered once the packets before [n] have arrived. *)
Definition stream (f : Z -> bytes) (n : Z) : bytes := concat (f <$> seqZ 0 n).

Lemma stream_succ f n : 0 <= n -> stream f (n + 1) = stream f n ++ f n.
Proof.
  intros Hn. unfold stream. rewrite seqZ_app by lia. rewrite fmap_app, concat_app.
  f_equal. change (seqZ (0 + n) 1) with [0 + (0 + n)]. cbn [fmap list_fmap concat].
  by rewrite app_nil_r.
Qed.

(** The invariant of a session: [f] gives the body of each sequence number, [acc]
    are the numbers accepted, [out] the bytes read. *)
Record queue_inv (f : Z -> bytes) (st : QueueState) (acc : list Z) (out : bytes) : Prop := {
  qi_next : 0 <= next_seq st < 2 ^ 64;
  qi_sorted : by_seq (heap st);
  qi_bodies : Forall (fun p => p.2 = f p.1 /\ 0 <= p.1 < 2 ^ 64 - 1) (heap st);
  qi_count : zlen (heap st) <= max_buffered st;
  qi_open : closed st = false;
  qi_bytes : buffered_bytes st = total (heap st) + zlen (pending st);
  qi_cap : buffered_bytes st <= max_buffered_bytes st < 2 ^ 64 - 1;
  qi_out : out ++ pending st = stream f (next_seq st);
  qi_acc : forall s, s ∈ acc -> s < next_seq st \/ (s, f s) ∈ heap st
}.

(** Nothing that is queued is due. *)
Definition settled (st : QueueState) : Prop := Forall (fun p => next_seq st < p.1) (heap st).

Lemma fill_loop_inv f h st acc out st' r :
  heap st = h -> queue_inv f st acc out -> fill_loop h st = (st', r) ->
  r = Ok tt /\ queue_inv f st' acc out /\ settled st' /\
  max_buffered st' = max_buffered st /\ max_buffered_bytes st' = max_buffered_bytes st.
Proof.
  revert st. induction h as [|[s p] h IH]; intros st Hh [Hn Hs Hb Hc Ho Hby Hcap Hout Hacc]; cbn [fill_loop].
  - rewrite Ho. cbn [andb]. intros [= <- <-]. split; [done|]. split; [|split; [constructor|done]].
    rewrite Hh in Hs, Hb, Hc, Hby, Hacc. by constructor.
  - rewrite Hh in *. inversion Hs as [|? ? Hs' Hall]; subst. inversion Hb as [|? ? [Hp Hsb] Hb']; subst.
    cbn [fst snd] in *. pose proof (zlen_nonneg p). pose proof (total_nonneg h).
    pose proof (zlen_nonneg (pending st)). cbn [total] in Hby. cbn [snd] in Hby.
    destruct (s =? next_seq st) eqn:E; bool_hyps.
    { intros Hf. apply IH in Hf as (? & ? & ? & ? & ?); [done|done|].
      assert (Hsat : sat_add (next_seq st) 1 = next_seq st + 1) by (unfold sat_add; lia).
      constructor; cbn; try done; rewrite ?Hsat.
      - lia.
      - unfold zlen in *. cbn in Hc. lia.
      - rewrite Hby, zlen_app. cbn. lia.
      - rewrite stream_succ by lia. rewrite app_assoc, Hout. by subst.
      - intros x Hx. destruct (Hacc x Hx) as [|[[= -> _]|]%elem_of_cons]; auto with lia. }
    destruct (next_seq st <? s) eqn:E2; bool_hyps.
    { rewrite (proj2 (Z.leb_gt (max_buffered st) (zlen h))) by (unfold zlen in *; cbn in Hc; lia).
      intros [= <- <-]. split; [done|].
      pose proof (heap_push_perm (s, p) h) as Hperm. split.
      - constructor; cbn; try done.
        + by apply heap_push_sorted.
        + by rewrite Hperm.
        + unfold zlen in *. by rewrite (Permutation_length Hperm).
        + rewrite (total_perm _ _ Hperm). done.
        + intros x Hx. rewrite Hperm. by apply Hacc.
      - split; [|done]. unfold settled. cbn. rewrite Hperm. constructor; [done|].
        eapply Forall_impl; [exact Hall|]. cbn. lia. }
    intros Hf. apply IH in Hf as (? & ? & ? & ? & ?); [done|done|].
    constructor; cbn; try done.
    + unfold zlen in *. cbn in Hc. lia.
    + unfold sat_sub. lia.
    + split; [|lia]. unfold sat_sub. lia.
    + intros x Hx. destruct (Hacc x Hx) as [|[[= -> _]|]%elem_of_cons]; auto with lia.
Qed.

Lemma take_pending_inv f st acc out (k : nat) :
  queue_inv f st acc out -> (k <= length (pending st))%nat ->
  queue_inv f (mkQueueState (next_seq st) (heap st) (drop k (pending st)) (closed st)
                 (max_buffered st) (sat_sub (buffered_bytes st) (Z.of_nat k))
                 (max_buffered_bytes st)) acc (out ++ take k (pending st)).
Proof.
  intros [Hn Hs Hb Hc Ho Hby Hcap Hout Hacc] Hk. pose proof (total_nonneg (heap st)).
  constructor; cbn; try done.
  - unfold sat_sub, zlen in *. rewrite length_drop. lia.
  - unfold sat_sub, zlen in *. lia.
  - by rewrite <- app_assoc, take_drop.
Qed.

(** A read delivers something, or finds that nothing is due. *)
Lemma read_loop_inv f w st acc out n q r :
  (0 < n)%nat -> queue_inv f st acc out -> read_loop w st n = (q, r) ->
  match r with
  | Ready (Ok c) => c <> [] /\ (length c <= n)%nat /\ queue_inv f (state q) acc (out ++ c)
  | Pending => queue_inv f (state q) acc out /\ settled (state q) /\ pending (state q) = [] /\
               wakes q = 0%nat
  | _ => False
  end.
Proof.
  intros Hn. revert st. induction w as [|w IH]; intros st Hst; cbn [read_loop].
  all: destruct (fill_pending st) as [st1 r1] eqn:Hf;
    apply (fill_loop_inv f _ _ acc out) in Hf as (-> & Hinv & Hset & _ & _); [|done..];
    destruct (bool_decide (pending st1 = [])) eqn:Hp; cbn [negb].
  1,3: rewrite (qi_open _ _ _ _ Hinv); apply bool_decide_eq_true in Hp.
  - by intros [= <- <-].
  - by apply IH.
  - apply bool_decide_eq_false in Hp. intros [= <- <-].
    split_and!; [|rewrite length_take; lia|by apply take_pending_inv; [|lia]].
    intros Hnil. apply (f_equal length) in Hnil. rewrite length_take in Hnil. cbn in Hnil.
    destruct (pending st1); [done|cbn in *; lia].
  - apply bool_decide_eq_false in Hp. intros [= <- <-].
    split_and!; [|rewrite length_take; lia|by apply take_pending_inv; [|lia]].
    intros Hnil. apply (f_equal length) in Hnil. rewrite length_take in Hnil. cbn in Hnil.
    destruct (pending st1); [done|cbn in *; lia].
Qed.

Lemma push_inv f q acc out s q' r :
  queue_inv f (state q) acc out -> 0 <= s < 2 ^ 64 - 1 -> push (mkPacket s (f s)) q = (q', r) ->
  match r with
  | Ok _ => queue_inv f (state q') (s :: acc) out
  | Err e => q' = q /\ e = OtherError
  | Panic => False
  end.
Proof.
  intros Hq Hs. unfold push. rewrite (qi_open _ _ _ _ Hq). cbn [seq payload].
  destruct (_ || _) eqn:E; intros [= <- <-]; [done|].
  destruct Hq as [Hn Hsd Hb Hc Ho Hby Hcap Hout Hacc].
  pose proof (heap_push_perm (s, f s) (heap (state q))) as Hperm.
  pose proof (zlen_nonneg (f s)). apply orb_false_iff in E as [E1 E2]. bool_hyps.
  assert (Hsat : sat_add (buffered_bytes (state q)) (zlen (f s)) =
    buffered_bytes (state q) + zlen (f s)) by (unfold sat_add in *; lia).
  rewrite Hsat in *. constructor; cbn; rewrite ?Hsat; try done.
  - by apply heap_push_sorted.
  - rewrite Hperm. by constructor.
  - unfold zlen in *. rewrite (Permutation_length Hperm). cbn. lia.
  - rewrite Hby, (total_perm _ _ Hperm). cbn. lia.
  - lia.
  - intros x [->|Hx]%elem_of_cons; rewrite Hperm; [right; by left|].
    destruct (Hacc x Hx) as [|Hin]; [by left|right]. by right.
Qed.

(** The runs of a session in which every sequence number has one body: uploads
    that are accepted or refused, in any order and repeated, and reads. *)
Inductive uploads (f : Z -> bytes) (max : Z) : UploadQueue -> list Z -> bytes -> Prop :=
| uploads_new : uploads f max (UploadQueue_new max) [] []
| uploads_accepted q acc out s q' :
    uploads f max q acc out -> 0 <= s < 2 ^ 64 - 1 ->
    push (mkPacket s (f s)) q = (q', Ok tt) -> uploads f max q' (s :: acc) out
| uploads_refused q acc out s q' e :
    uploads f max q acc out -> 0 <= s < 2 ^ 64 - 1 ->
    push (mkPacket s (f s)) q = (q', Err e) -> uploads f max q' acc out
| uploads_read q acc out n q' c :
    uploads f max q acc out -> (0 < n)%nat ->
    Upload_poll_read q n = (q', Ready (Ok c)) -> uploads f max q' acc (out ++ c)
| uploads_wait q acc out n q' :
    uploads f max q acc out -> (0 < n)%nat ->
    Upload_poll_read q n = (q', Pending) -> uploads f max q' acc out.

Lemma uploads_inv f max q acc out :
  0 <= max -> uploads f max q acc out -> queue_inv f (state q) acc out.
Proof.
  intros Hmax. induction 1 as [|q acc out s q' _ IH Hs Hp|q acc out s q' e _ IH Hs Hp
    |q acc out n q' c _ IH Hn Hr|q acc out n q' _ IH Hn Hr].
  - constructor; cbn; try done.
    + constructor.
    + unfold zlen, DEFAULT_MAX_BUFFERED. cbn. case_match; lia.
    + intros s Hs. by apply not_elem_of_nil in Hs.
  - apply (push_inv f q acc out) in Hp; done.
  - apply (push_inv f q acc out) in Hp as [-> _]; done.
  - unfold Upload_poll_read in Hr. rewrite (proj2 (Nat.eqb_neq n 0)) in Hr by lia.
    by apply (read_loop_inv f _ _ acc out) in Hr as (_ & _ & ?).
  - unfold Upload_poll_read in Hr. rewrite (proj2 (Nat.eqb_neq n 0)) in Hr by lia.
    by apply (read_loop_inv f _ _ acc out) in Hr as (? & _).
Qed.

Lemma uploads_foldl f max q acc out l :
  uploads f max q acc out -> Forall (fun s => 0 <= s < 2 ^ 64 - 1) l ->
  exists acc', uploads f max (foldl (fun q s => (push (mkPacket s (f s)) q).1) q l) acc' out.
Proof.
  intros Hu Hl. revert q acc Hu. induction Hl as [|s l Hs _ IH]; intros q acc Hu; [by exists acc|].
  cbn [foldl]. destruct (push (mkPacket s (f s)) q) as [q' [[]|e|]] eqn:E; cbn [fst].
  - eapply IH, uploads_accepted; done.
  - eapply IH, uploads_refused; done.
  - exfalso. unfold push in E. repeat case_match; done.
Qed.

(** ** Properties *)

(** C28. The upload queue delivers in order: whatever the order, repetition and
    refusal of uploads and however they interleave with reads, the bytes read
    are a prefix of the bodies concatenated by sequence number; reads neither
    fail nor end the stream, and a read that has to wait has delivered every
    body up to the first missing number; the byte counter is exact. *)
Theorem upload_in_order f max q acc out n q' r :
  0 <= max -> uploads f max q acc out -> (0 < n)%nat -> Upload_poll_read q n = (q', r) ->
  out `prefix_of` stream f (next_seq (state q)) /\
  buffered_bytes (state q) = total (heap (state q)) + zlen (pending (state q)) /\
  match r with
  | Ready (Ok c) => c <> [] /\ out ++ c `prefix_of` stream f (next_seq (state q'))
  | Pending => out = stream f (next_seq (state q')) /\
      forall k, (forall s, 0 <= s < k -> s ∈ acc) -> k <= next_seq (state q')
  | _ => False
  end.
Proof.
  intros Hmax Hu Hn Hr. pose proof (uploads_inv _ _ _ _ _ Hmax Hu) as Hq.
  split; [eexists; symmetry; apply Hq|]. split; [apply Hq|].
  unfold Upload_poll_read in Hr. rewrite (proj2 (Nat.eqb_neq n 0)) in Hr by lia.
  pose proof (read_loop_inv f _ _ acc out n q' r Hn Hq Hr) as Hpost.
  destruct r as [[c|e|]|]; try done.
  - destruct Hpost as (Hc & _ & Hq'). split; [done|]. eexists. symmetry. apply Hq'.
  - destruct Hpost as (Hq' & Hset & Hp & _). pose proof (qi_out _ _ _ _ Hq') as Ho.
    rewrite Hp, app_nil_r in Ho. split; [done|]. intros k Hk.
    destruct (Z.le_gt_cases k (next_seq (state q'))) as [|Hgt]; [done|exfalso].
    pose proof (qi_next _ _ _ _ Hq') as [Hn0 _].
    destruct (qi_acc _ _ _ _ Hq' (next_seq (state q')) (Hk _ (conj Hn0 Hgt))) as [|Hin]; [lia|].
    unfold settled in Hset. rewrite Forall_forall in Hset. specialize (Hset _ Hin). cbn in Hset. lia.
Qed.

Definition letters (s : Z) : bytes := [65 + s].

Definition after_pushes (l : list Z) : UploadQueue :=
  foldl (fun q s => (push (mkPacket s (letters s)) q).1) (UploadQueue_new 0) l.

Lemma upload_in_order_witness :
  exists q, Upload_poll_read (after_pushes [2; 0; 0; 1]) 2 = (q, Ready (Ok [65; 66])) /\
    [65; 66] `prefix_of` stream letters (next_seq (state q)).
Proof.
  destruct (uploads_foldl letters 0 (UploadQueue_new 0) [] [] [2; 0; 0; 1]) as [acc Hu];
    [apply uploads_new|repeat constructor; lia|].
  pose proof (upload_in_order letters 0 (after_pushes [2; 0; 0; 1]) acc [] 2
    (Upload_poll_read (after_pushes [2; 0; 0; 1]) 2).1
    (Upload_poll_read (after_pushes [2; 0; 0; 1]) 2).2) as H.
  exists (Upload_poll_read (after_pushes [2; 0; 0; 1]) 2).1. split; [vm_compute; reflexivity|].
  destruct H as (_ & _ & H); [lia|exact Hu|lia|apply surjective_pairing|].
  replace (Upload_poll_read (after_pushes [2; 0; 0; 1]) 2).2
    with (Ready (Ok (A := bytes) (E := io_error) [65; 66])) in H by (vm_compute; reflexivity).
  apply H.
Defined.

(** What the handlers of a session do with its queue. *)
Inductive session_op : Type :=
| Upload (packet : UploadPacket)
| Read (n : nat).

Inductive session_event : Type :=
| Uploaded (r : res io_error unit)
| Received (r : poll (res io_error bytes)).

Definition run_op (q : UploadQueue) (op : session_op) : UploadQueue * session_event :=
  match op with
  | Upload p => let '(q', r) := push p q in (q', Uploaded r)
  | Read n => let '(q', r) := Upload_poll_read q n in (q', Received r)
  end.

Fixpoint run_ops (q : UploadQueue) (ops : list session_op) : UploadQueue * list session_event :=
  match ops with
  | [] => (q, [])
  | op :: ops' =>
      let '(q1, e) := run_op q op in
      let '(q2, es) := run_ops q1 ops' in
      (q2, e :: es)
  end.

(** Full of packets that come after the one that is missing. *)
Record wedged (st : QueueState) : Prop := {
  wd_open : closed st = false;
  wd_full : zlen (heap st) = max_buffered st;
  wd_some : 0 < max_buffered st;
  wd_late : settled st;
  wd_pending : pending st = []
}.

Lemma fill_wedged st : wedged st ->
  exists st', fill_pending st = (st', Ok tt) /\ wedged st' /\ next_seq st' = next_seq st.
Proof.
  intros [Ho Hfull Hmax Hlate Hp]. unfold fill_pending, settled in *.
  destruct (heap st) as [|[s p] h] eqn:Hh; [unfold zlen in Hfull; cbn in Hfull; lia|].
  inversion Hlate as [|? ? Hs Hl]; subst. cbn [fst] in Hs. cbn [fill_loop].
  rewrite (proj2 (Z.eqb_neq s (next_seq st))) by lia. rewrite (proj2 (Z.ltb_lt _ _)) by done.
  rewrite (proj2 (Z.leb_gt (max_buffered st) (zlen h))) by (unfold zlen in *; cbn in Hfull; lia).
  eexists. split; [done|]. pose proof (heap_push_perm (s, p) h) as Hperm. split; [|done].
  constructor; cbn; try done.
  - unfold zlen in *. by rewrite (Permutation_length Hperm).
  - unfold settled. cbn. by rewrite Hperm.
Qed.

Lemma read_loop_wedged w st n : wedged st ->
  exists q, read_loop w st n = (q, Pending) /\ wedged (state q) /\ next_seq (state q) = next_seq st.
Proof.
  revert st. induction w as [|w IH]; intros st Hst;
    destruct (fill_wedged st Hst) as (st' & Hf & Hw & Hn); cbn [read_loop]; rewrite Hf;
    rewrite (wd_pending _ Hw); cbn [bool_decide negb]; rewrite (wd_open _ Hw).
  - by eexists.
  - destruct (IH st' Hw) as (q & Hq & ? & Hn'). exists q. by rewrite Hn', Hn.
Qed.

(** The answer that a session in this state gives to everything. *)
Definition stuck_event (op : session_op) : session_event :=
  match op with
  | Upload _ => Uploaded (Err OtherError)
  | Read n => Received (if (n =? 0)%nat then Ready (Ok []) else Pending)
  end.

Lemma run_op_wedged q op : wedged (state q) ->
  exists q', run_op q op = (q', stuck_event op) /\ wedged (state q') /\ next_seq (state q') = next_seq (state q).
Proof.
  intros Hw. destruct op as [p|n]; cbn.
  - unfold push. rewrite (wd_open _ Hw), (proj2 (Z.leb_le _ _)) by (pose proof (wd_full _ Hw); lia).
    by exists q.
  - unfold Upload_poll_read. destruct (n =? 0)%nat; [by exists q|].
    destruct (read_loop_wedged (wakes q) (state q) n Hw) as (q' & -> & ? & ?). by exists q'.
Qed.

(** The queue can wedge: once it is full of packets that come after the one
    that is missing, every sequence of uploads and reads is answered alike: all
    uploads, the missing packet's among them, are refused, and all reads wait. *)
Theorem upload_queue_wedges f max q acc out ops :
  0 < max -> uploads f max q acc out -> pending (state q) = [] -> settled (state q) ->
  zlen (heap (state q)) = max_buffered (state q) -> 0 < max_buffered (state q) ->
  exists q', run_ops q ops = (q', stuck_event <$> ops) /\ next_seq (state q') = next_seq (state q).
Proof.
  intros Hmax Hu Hp Hs Hfull Hpos.
  assert (Hw : wedged (state q)).
  { constructor; try done. eapply qi_open, uploads_inv; [|done]. lia. }
  clear -Hw. revert q Hw. induction ops as [|op ops IH]; intros q Hw; [by exists q|].
  destruct (run_op_wedged q op Hw) as (q1 & Hop & Hw1 & Hn1).
  destruct (IH q1 Hw1) as (q2 & Hops & Hn2). exists q2.
  cbn [run_ops]. by rewrite Hop, Hops, Hn2, Hn1.
Qed.

(** The server's limit is 64: with the first packet late, the 64 packets after it
    fill the queue, and the retry of the first is refused. *)
Definition late_first : UploadQueue :=
  foldl (fun q s => (push (mkPacket s (letters s)) q).1) (UploadQueue_new 64) (seqZ 1 64).

Lemma upload_queue_wedges_witness :
  exists q, run_ops late_first [Read 4096; Upload (mkPacket 0 (letters 0)); Read 4096] =
    (q, [Received Pending; Uploaded (Err OtherError); Received Pending]).
Proof.
  destruct (uploads_foldl letters 64 (UploadQueue_new 64) [] [] (seqZ 1 64)) as [acc Hu];
    [apply uploads_new|apply Forall_forall; intros s ?%elem_of_seqZ; lia|].
  destruct (upload_queue_wedges letters 64 late_first acc []
    [Read 4096; Upload (mkPacket 0 (letters 0)); Read 4096]) as (q & Hq & _);
    [done|exact Hu|reflexivity
    |refine (bool_decide_unpack (Forall _ _) _); vm_compute; exact I|reflexivity|done|].
  exists q. exact Hq.
Defined.
