(* ===== verification/ClientHello.v ===== *)
(** * TLS ClientHello

    [blackwire-tls]: the fingerprint profiles ([profile.rs]), GREASE values
    ([grease.rs]) and the ClientHello builder ([client_hello.rs],
    [client_hello/extensions.rs], [client_hello/wire.rs]); and its counterpart on
    the server, the ClientHello parser of REALITY
    ([blackwire-transport] [reality/parser.rs]). *)

From stdpp Require Import fin vector.
From S2P Require Import Prelude Common.

(** ** GREASE *)

Definition GREASE_VALUES_U16 : vec Z 16 :=
  [# 0x0A0A; 0x1A1A; 0x2A2A; 0x3A3A; 0x4A4A; 0x5A5A; 0x6A6A; 0x7A7A;
     0x8A8A; 0x9A9A; 0xAAAA; 0xBABA; 0xCACA; 0xDADA; 0xEAEA; 0xFAFA].

Definition GREASE_VALUES_U8 : vec Z 16 :=
  [# 0x0A; 0x1A; 0x2A; 0x3A; 0x4A; 0x5A; 0x6A; 0x7A;
     0x8A; 0x9A; 0xAA; 0xBA; 0xCA; 0xDA; 0xEA; 0xFA].

(** The argument is the draw from [rng.random_range(0..16)]. *)
Definition grease_u16 (draw : fin 16) : Z := GREASE_VALUES_U16 !!! draw.
Definition grease_u8 (draw : fin 16) : Z := GREASE_VALUES_U8 !!! draw.
Definition is_grease_u16 (v : Z) : bool := bool_decide (v ∈ vec_to_list GREASE_VALUES_U16).

(** ** Profiles *)

Record FingerprintProfile : Type := mkProfile {
  cipher_suites : list Z;
  extensions : list Z;
  supported_groups : list Z;
  alpn : list bytes;
  signature_algorithms : list Z
}.

Definition chrome_131 : FingerprintProfile :=
  mkProfile
    [0x1301; 0x1302; 0x1303; 0xC02B; 0xC02F; 0xC02C; 0xC030; 0xCCA9; 0xCCA8; 0xC013; 0xC014;
     0x009C; 0x009D; 0x002F; 0x0035]
    [0x0000; 0x0017; 0xFF01; 0x000A; 0x000B; 0x0023; 0x0010; 0x0005; 0x000D; 0x0012; 0x0033;
     0x002D; 0x002B; 0x001B; 0x0015]
    [29; 23; 24]
    [str "h2"; str "http/1.1"]
    [0x0403; 0x0804; 0x0401; 0x0503; 0x0805; 0x0501; 0x0806; 0x0601].

(** ** The builder

    A function that appends to [buf] is the bytes it appends. *)

Definition put_u16 (x : Z) : bytes := be_bytes 2 x.

Definition put_extension (ext_type : Z) (data : bytes) : bytes :=
  put_u16 ext_type ++ put_u16 (as_u16 (zlen data)) ++ data.

Definition put_u24 (v : Z) : bytes :=
  [as_u8 (Z.shiftr v 16); as_u8 (Z.shiftr v 8); as_u8 v].

Definition ext_server_name (sni : bytes) : bytes :=
  let inner_len := 1 + 2 + zlen sni in
  let data := put_u16 (as_u16 inner_len) ++ [0x00] ++ put_u16 (as_u16 (zlen sni)) ++ sni in
  put_extension 0x0000 data.

Definition ext_extended_master_secret : bytes := put_extension 0x0017 [].
Definition ext_renegotiation_info : bytes := put_extension 0xFF01 [0x00].

Definition ext_supported_groups (p : FingerprintProfile) (grease_group : Z) : bytes :=
  let total_groups := 1 + zlen (supported_groups p) in
  let data := put_u16 (as_u16 (total_groups * 2)) ++ put_u16 grease_group ++
              concat (put_u16 <$> supported_groups p) in
  put_extension 0x000A data.

Definition ext_ec_point_formats : bytes := put_extension 0x000B [0x01; 0x00].
Definition ext_session_ticket : bytes := put_extension 0x0023 [].

Definition ext_alpn (p : FingerprintProfile) : bytes :=
  let inner := concat ((fun proto => as_u8 (zlen proto) :: proto) <$> alpn p) in
  let data := put_u16 (as_u16 (zlen inner)) ++ inner in
  put_extension 0x0010 data.

Definition ext_status_request : bytes := put_extension 0x0005 [0x01; 0x00; 0x00; 0x00; 0x00].

Definition ext_signature_algorithms (p : FingerprintProfile) : bytes :=
  let data := put_u16 (as_u16 (zlen (signature_algorithms p) * 2)) ++
              concat (put_u16 <$> signature_algorithms p) in
  put_extension 0x000D data.

Definition ext_signed_cert_timestamp : bytes := put_extension 0x0012 [].

Definition ext_key_share (grease_group : Z) (x25519_pub : bytes) (secp256r1_pub : option bytes) :
    bytes :=
  let client_shares :=
    put_u16 grease_group ++ put_u16 1 ++ [0x00] ++
    put_u16 29 ++ put_u16 32 ++ x25519_pub ++
    match secp256r1_pub with
    | Some pubkey => put_u16 23 ++ put_u16 (as_u16 (zlen pubkey)) ++ pubkey
    | None => []
    end in
  let data := put_u16 (as_u16 (zlen client_shares)) ++ client_shares in
  put_extension 0x0033 data.

Definition ext_psk_key_exchange_modes : bytes := put_extension 0x002D [0x01; 0x01].

Definition ext_supported_versions : bytes :=
  put_extension 0x002B [0x08; 0x7A; 0x7A; 0x03; 0x04; 0x03; 0x03; 0x03; 0x02].

Definition ext_compress_certificate : bytes := put_extension 0x001B [0x02; 0x00; 0x02].
Definition ext_padding : bytes := put_extension 0x0015 [0x00].

Definition build_extension (p : FingerprintProfile) (sni : bytes) (grease_group : Z)
    (x25519_pub : bytes) (secp256r1_pub : option bytes) (ext_type : Z) : bytes :=
  if ext_type =? 0x0000 then ext_server_name sni
  else if ext_type =? 0x0017 then ext_extended_master_secret
  else if ext_type =? 0xFF01 then ext_renegotiation_info
  else if ext_type =? 0x000A then ext_supported_groups p grease_group
  else if ext_type =? 0x000B then ext_ec_point_formats
  else if ext_type =? 0x0023 then ext_session_ticket
  else if ext_type =? 0x0010 then ext_alpn p
  else if ext_type =? 0x0005 then ext_status_request
  else if ext_type =? 0x000D then ext_signature_algorithms p
  else if ext_type =? 0x0012 then ext_signed_cert_timestamp
  else if ext_type =? 0x0033 then ext_key_share grease_group x25519_pub secp256r1_pub
  else if ext_type =? 0x002D then ext_psk_key_exchange_modes
  else if ext_type =? 0x002B then ext_supported_versions
  else if ext_type =? 0x001B then ext_compress_certificate
  else if ext_type =? 0x0015 then ext_padding
  else put_extension ext_type [].

Definition build_extensions (p : FingerprintProfile) (sni : bytes) (grease_group grease_ext : Z)
    (x25519_pub : bytes) (secp256r1_pub : option bytes) : bytes :=
  concat (build_extension p sni grease_group x25519_pub secp256r1_pub <$> extensions p) ++
  put_extension grease_ext [0x00; 0x00].

Definition build_client_hello_body (p : FingerprintProfile) (sni random session_id : bytes)
    (grease_cipher grease_ext : Z) (x25519_pub : bytes) (secp256r1_pub : option bytes) : bytes :=
  let cipher_count := 1 + zlen (cipher_suites p) in
  let exts := build_extensions p sni grease_cipher grease_ext x25519_pub secp256r1_pub in
  put_u16 0x0303 ++ random ++ [0x20] ++ session_id ++
  put_u16 (as_u16 (cipher_count * 2)) ++
  (put_u16 grease_cipher ++ concat (put_u16 <$> cipher_suites p)) ++
  [0x01; 0x00] ++ put_u16 (as_u16 (zlen exts)) ++ exts.

(** [draws] are the draws of the two GREASE values and [generated] the public key
    that is generated when the caller supplies none. *)
Definition build_with_additional_key_share (p : FingerprintProfile) (sni random session_id : bytes)
    (x25519_pub secp256r1_pub : option bytes) (draws : fin 16 * fin 16) (generated : bytes) : bytes :=
  let grease_cipher := grease_u16 draws.1 in
  let grease_ext := grease_u16 draws.2 in
  let key_bytes := default generated x25519_pub in
  let body := build_client_hello_body p sni random session_id grease_cipher grease_ext key_bytes
                secp256r1_pub in
  let handshake := [0x01] ++ put_u24 (as_u32 (zlen body)) ++ body in
  [0x16; 0x03; 0x01] ++ put_u16 (as_u16 (zlen handshake)) ++ handshake.

Definition build (p : FingerprintProfile) (sni random session_id : bytes)
    (x25519_pub : option bytes) (draws : fin 16 * fin 16) (generated : bytes) : bytes :=
  build_with_additional_key_share p sni random session_id x25519_pub None draws generated.

(** ** The parser of REALITY *)

(** [String::from_utf8_lossy]: every maximal ill-formed prefix becomes U+FFFD. *)
Abbreviation REPLACEMENT := [0xEF; 0xBF; 0xBD].

Fixpoint utf8_lossy (l : bytes) : bytes :=
  match l with
  | [] => []
  | b0 :: l1 =>
      if b0 <? 128 then b0 :: utf8_lossy l1
      else if (194 <=? b0) && (b0 <=? 223) then
        match l1 with
        | b1 :: l2 =>
            if utf8_cont b1 then b0 :: b1 :: utf8_lossy l2 else REPLACEMENT ++ utf8_lossy l1
        | [] => REPLACEMENT
        end
      else if (224 <=? b0) && (b0 <=? 239) then
        match l1 with
        | b1 :: l2 =>
            if utf8_second3 b0 b1 then
              match l2 with
              | b2 :: l3 =>
                  if utf8_cont b2 then b0 :: b1 :: b2 :: utf8_lossy l3
                  else REPLACEMENT ++ utf8_lossy l2
              | [] => REPLACEMENT
              end
            else REPLACEMENT ++ utf8_lossy l1
        | [] => REPLACEMENT
        end
      else if (240 <=? b0) && (b0 <=? 244) then
        match l1 with
        | b1 :: l2 =>
            if utf8_second4 b0 b1 then
              match l2 with
              | b2 :: l3 =>
                  if utf8_cont b2 then
                    match l3 with
                    | b3 :: l4 =>
                        if utf8_cont b3 then b0 :: b1 :: b2 :: b3 :: utf8_lossy l4
                        else REPLACEMENT ++ utf8_lossy l3
                    | [] => REPLACEMENT
                    end
                  else REPLACEMENT ++ utf8_lossy l2
              | [] => REPLACEMENT
              end
            else REPLACEMENT ++ utf8_lossy l1
        | [] => REPLACEMENT
        end
      else REPLACEMENT ++ utf8_lossy l1
  end.

Record ClientHelloFields : Type := mkFields {
  f_random : bytes;
  f_session_id : bytes;
  x25519_key_share : bytes;
  f_sni : bytes
}.

Definition CLIENT_HELLO_SESSION_ID_LEN_OFFSET : nat := 38.
Definition GROUP_X25519 : Z := 29.
Definition GROUP_X25519_MLKEM768 : Z := 0x11ec.

Abbreviation result := (res ProxyError).

Definition skip_cipher_suites (body : bytes) (pos : nat) : result nat :=
  if (length body <? pos + 2)%nat then Err (Protocol "truncated at cipher_suites_len") else
  cs_len ← idx16 body pos;
  let pos := (pos + (2 + Z.to_nat cs_len))%nat in
  if (length body <? pos)%nat then Err (Protocol "truncated cipher_suites") else Ok pos.

Definition skip_compression_methods (body : bytes) (pos : nat) : result nat :=
  if (length body <=? pos)%nat then Err (Protocol "truncated at compression_methods_len") else
  comp_len ← idx body pos;
  let pos := (pos + (1 + Z.to_nat comp_len))%nat in
  if (length body <? pos)%nat then Err (Protocol "truncated compression_methods") else Ok pos.

Definition parse_sni (ext_data : bytes) : result bytes :=
  if (length ext_data <? 5)%nat then Ok [] else
  name_len ← idx16 ext_data 3;
  if (length ext_data <? 5 + Z.to_nat name_len)%nat then Ok [] else
  name ← slice ext_data 5 (5 + Z.to_nat name_len);
  Ok (utf8_lossy name).

(** The loop over the key shares. Each round moves on by at least four bytes, so
    that the length of the data is enough fuel; running out would be [Panic]. *)
Fixpoint key_share_loop (fuel : nat) (ext_data : bytes) (shares_len pos : nat)
    (standalone_x25519 mlkem_tail : option bytes) : result (option bytes * option bytes) :=
  match fuel with
  | O => Panic
  | S fuel' =>
      if ((pos + 4 <=? 2 + shares_len) && (pos + 4 <=? length ext_data))%nat then
        group ← idx16 ext_data pos;
        key_len ← idx16 ext_data (pos + 2);
        let key_len := Z.to_nat key_len in
        let pos := (pos + 4)%nat in
        if (length ext_data <? pos + key_len)%nat then Ok (standalone_x25519, mlkem_tail)
        else if (group =? GROUP_X25519) && (key_len =? 32)%nat then
          key ← slice ext_data pos (pos + 32);
          key_share_loop fuel' ext_data shares_len (pos + key_len) (Some key) mlkem_tail
        else if (group =? GROUP_X25519_MLKEM768) && (32 <=? key_len)%nat then
          key ← slice ext_data (pos + key_len - 32) (pos + key_len);
          key_share_loop fuel' ext_data shares_len (pos + key_len) standalone_x25519 (Some key)
        else key_share_loop fuel' ext_data shares_len (pos + key_len) standalone_x25519 mlkem_tail
      else Ok (standalone_x25519, mlkem_tail)
  end.

Definition collect_x25519_auth_keys (ext_data : bytes) : result (list bytes) :=
  if (length ext_data <? 2)%nat then Ok [] else
  shares_len ← idx16 ext_data 0;
  '(standalone_x25519, mlkem_tail) ←
    key_share_loop (S (length ext_data)) ext_data (Z.to_nat shares_len) 2 None None;
  Ok (option_list standalone_x25519 ++
      match mlkem_tail with
      | Some k => if bool_decide (standalone_x25519 = Some k) then [] else [k]
      | None => []
      end).

Definition first_x25519_key_share (ext_data : bytes) : result (option bytes) :=
  keys ← collect_x25519_auth_keys ext_data; Ok (head keys).

Fixpoint extension_loop (fuel : nat) (body : bytes) (pos : nat) (key : option bytes) (sni : bytes) :
    result (option bytes * bytes) :=
  match fuel with
  | O => Panic
  | S fuel' =>
      if (pos + 4 <=? length body)%nat then
        ext_type ← idx16 body pos;
        ext_len ← idx16 body (pos + 2);
        let ext_len := Z.to_nat ext_len in
        let pos := (pos + 4)%nat in
        if (length body <? pos + ext_len)%nat then Err (Protocol "truncated extension data") else
        ext_data ← slice body pos (pos + ext_len);
        let pos := (pos + ext_len)%nat in
        if ext_type =? 0x0000 then
          sni ← parse_sni ext_data; extension_loop fuel' body pos key sni
        else if ext_type =? 0x0033 then
          key ← first_x25519_key_share ext_data; extension_loop fuel' body pos key sni
        else extension_loop fuel' body pos key sni
      else Ok (key, sni)
  end.

Definition parse_client_hello (body : bytes) : result ClientHelloFields :=
  if (length body <? 71)%nat then Err (Protocol "ClientHello body too short") else
  ty ← idx body 0;
  if negb (ty =? 0x01) then Err (Protocol "expected ClientHello (0x01)") else
  random ← slice body 6 38;
  sid_len ← idx body 38;
  if negb (sid_len =? 32) then Err (Protocol "session_id_len must be 32") else
  session_id ← slice body 39 71;
  pos ← skip_cipher_suites body 71;
  pos ← skip_compression_methods body pos;
  if (length body <? pos + 2)%nat then Err (Protocol "truncated at extensions_len") else
  '(key, sni) ← extension_loop (S (length body)) body (pos + 2) None [];
  key ← of_option (Protocol "no x25519 key share found in ClientHello") key;
  Ok (mkFields random session_id key sni).

Definition client_hello_session_id (body : bytes) : result bytes :=
  let off := CLIENT_HELLO_SESSION_ID_LEN_OFFSET in
  if (length body <? off + 1)%nat then Err (Protocol "ClientHello too short for session_id") else
  sid_len ← idx body off;
  let start := (off + 1)%nat in
  let end_ := (start + Z.to_nat sid_len)%nat in
  if (length body <? end_)%nat then Err (Protocol "ClientHello session_id truncated") else
  slice body start end_.

Definition client_hello_cipher_suites (body : bytes) : result bytes :=
  let off := CLIENT_HELLO_SESSION_ID_LEN_OFFSET in
  if (length body <? off + 1)%nat then Err (Protocol "ClientHello too short") else
  sid_len ← idx body off;
  let pos := (off + 1 + Z.to_nat sid_len)%nat in
  if (length body <? pos + 2)%nat then Err (Protocol "ClientHello: cipher_suites_len") else
  cs_len ← idx16 body pos;
  let pos := (pos + 2)%nat in
  if (length body <? pos + Z.to_nat cs_len)%nat then Err (Protocol "ClientHello: cipher_suites") else
  slice body pos (pos + Z.to_nat cs_len).

(** [key_share_extension_data], with [None] as [Err tt]. *)
Fixpoint key_share_search (fuel : nat) (body : bytes) (ext_end pos : nat) : res unit bytes :=
  match fuel with
  | O => Panic
  | S fuel' =>
      if (pos + 4 <=? ext_end)%nat then
        ext_type ← idx16 body pos;
        ext_len ← idx16 body (pos + 2);
        let ext_len := Z.to_nat ext_len in
        let pos := (pos + 4)%nat in
        if (length body <? pos + ext_len)%nat then Err tt
        else if ext_type =? 0x0033 then slice body pos (pos + ext_len)
        else key_share_search fuel' body ext_end (pos + ext_len)
      else Err tt
  end.

Definition key_share_extension_data (body : bytes) : res unit bytes :=
  let off := CLIENT_HELLO_SESSION_ID_LEN_OFFSET in
  if (length body <? off + 1)%nat then Err tt else
  ty ← idx body 0;
  if negb (ty =? 0x01) then Err tt else
  sid_len ← idx body off;
  let pos := (off + 1 + Z.to_nat sid_len)%nat in
  if (length body <? pos + 2)%nat then Err tt else
  cs_len ← idx16 body pos;
  let pos := (pos + (2 + Z.to_nat cs_len))%nat in
  if (length body <=? pos)%nat then Err tt else
  comp_len ← idx body pos;
  let pos := (pos + (1 + Z.to_nat comp_len))%nat in
  if (length body <? pos + 2)%nat then Err tt else
  ext_total ← idx16 body pos;
  let pos := (pos + 2)%nat in
  key_share_search (S (length body)) body (Nat.min (pos + Z.to_nat ext_total) (length body)) pos.

Definition reality_auth_peer_public_keys (body : bytes) : result (list bytes) :=
  match key_share_extension_data body with
  | Ok ext_data => collect_x25519_auth_keys ext_data
  | Err _ => Ok []
  | Panic => Panic
  end.

(** * Safety of the parser *)

(** Split the next guard or step of a parser that must not panic. *)
Ltac no_panic_step :=
  match goal with
  | |- no_panic (if ?b then _ else _) => destruct b eqn:?; bool_hyps
  | |- no_panic (mbind _ _) => apply no_panic_bind
  | |- forall _, _ => intros
  | |- no_panic (Ok _) => apply no_panic_ok
  | |- no_panic (Err _) => apply no_panic_err
  | |- no_panic (of_option _ _) => apply no_panic_of_option
  | |- no_panic (idx _ _) => apply idx_no_panic; lia
  | |- no_panic (idx16 _ _) => apply idx16_no_panic; lia
  | |- no_panic (slice _ _ _) => apply slice_no_panic; lia
  | |- no_panic (let '(_, _) := ?x in _) => destruct x
  end.

Ltac no_panics := repeat no_panic_step.

Lemma parse_sni_no_panic d : no_panic (parse_sni d).
Proof. unfold parse_sni. no_panics. Qed.

Lemma key_share_loop_no_panic fuel d n pos a b :
  (pos <= length d < fuel + pos)%nat -> no_panic (key_share_loop fuel d n pos a b).
Proof.
  revert pos a b. induction fuel as [|fuel IH]; intros pos a b Hf; cbn [key_share_loop].
  - lia.
  - no_panics; try (apply IH; lia).
Qed.

Lemma collect_no_panic d : no_panic (collect_x25519_auth_keys d).
Proof.
  unfold collect_x25519_auth_keys. no_panics. apply key_share_loop_no_panic. lia.
Qed.

Lemma extension_loop_no_panic fuel body pos key sni :
  (pos <= length body < fuel + pos)%nat -> no_panic (extension_loop fuel body pos key sni).
Proof.
  revert pos key sni. induction fuel as [|fuel IH]; intros pos key sni Hf; cbn [extension_loop]; [lia|].
  no_panics; try (apply IH; lia); try apply parse_sni_no_panic.
  unfold first_x25519_key_share. no_panics. apply collect_no_panic.
Qed.

Lemma skip_cipher_suites_inv body pos :
  no_panic (skip_cipher_suites body pos) /\
  forall q, skip_cipher_suites body pos = Ok q -> (pos + 2 <= q <= length body)%nat.
Proof.
  unfold skip_cipher_suites. split; [no_panics|]. intros q Hq.
  repeat (case_match; try done). destruct (idx16 body pos); cbn in Hq; try done.
  repeat case_match; simplify_eq; bool_hyps; lia.
Qed.

Lemma skip_compression_methods_inv body pos :
  no_panic (skip_compression_methods body pos) /\
  forall q, skip_compression_methods body pos = Ok q -> (pos + 1 <= q <= length body)%nat.
Proof.
  unfold skip_compression_methods. split; [no_panics|]. intros q Hq.
  repeat (case_match; try done). destruct (idx body pos); cbn in Hq; try done.
  repeat case_match; simplify_eq; bool_hyps; lia.
Qed.

Lemma parse_client_hello_no_panic body : no_panic (parse_client_hello body).
Proof.
  unfold parse_client_hello. no_panics; try apply skip_cipher_suites_inv;
    try apply skip_compression_methods_inv.
  apply extension_loop_no_panic. lia.
Qed.

Lemma key_share_search_no_panic fuel body e pos :
  (pos <= length body < fuel + pos)%nat -> (e <= length body)%nat ->
  no_panic (key_share_search fuel body e pos).
Proof.
  revert pos. induction fuel as [|fuel IH]; intros pos Hf He; cbn [key_share_search]; [lia|].
  no_panics. apply IH; lia.
Qed.

Lemma reality_auth_no_panic body : no_panic (reality_auth_peer_public_keys body).
Proof.
  unfold reality_auth_peer_public_keys.
  assert (no_panic (key_share_extension_data body)) as H.
  { unfold key_share_extension_data, CLIENT_HELLO_SESSION_ID_LEN_OFFSET.
    no_panics. apply key_share_search_no_panic; lia. }
  destruct (key_share_extension_data body); [apply collect_no_panic|done|by destruct H].
Qed.

Lemma session_id_no_panic body : no_panic (client_hello_session_id body).
Proof. unfold client_hello_session_id, CLIENT_HELLO_SESSION_ID_LEN_OFFSET. no_panics. Qed.

Lemma cipher_suites_no_panic body : no_panic (client_hello_cipher_suites body).
Proof. unfold client_hello_cipher_suites, CLIENT_HELLO_SESSION_ID_LEN_OFFSET. no_panics. Qed.

(** * Cursors

    Reading at position [p] when what follows [p] is known. *)

Section Cursor.
Context {E : Type}.

Lemma cur_len (l s : bytes) p : (p <= length l)%nat -> drop p l = s -> length l = (p + length s)%nat.
Proof. intros Hp <-. rewrite length_drop. lia. Qed.

Lemma cur_skip (l d s : bytes) p n : drop p l = d ++ s -> n = length d -> drop (p + n) l = s.
Proof. intros H ->. by rewrite <- drop_drop, H, drop_app_length. Qed.

Lemma cur_idx (l : bytes) b s p : drop p l = b :: s -> idx (E:=E) l p = Ok b.
Proof. intros H. rewrite <- (Nat.add_0_r p), idx_drop, H. done. Qed.

Lemma cur_u16 (l : bytes) x s p : drop p l = put_u16 x ++ s -> in_u16 x -> idx16 (E:=E) l p = Ok x.
Proof. intros H Hx. rewrite <- (Nat.add_0_r p), idx16_drop, H. by apply idx16_be_bytes_0. Qed.

Lemma cur_slice (l d s : bytes) p e :
  (p <= length l)%nat -> drop p l = d ++ s -> e = (p + length d)%nat -> slice (E:=E) l p e = Ok d.
Proof.
  intros Hp H ->. rewrite <- (Nat.add_0_r p) at 1. rewrite slice_drop by done. rewrite H.
  by apply slice_prefix.
Qed.
End Cursor.

(** * Type-length-value lists *)

Definition tlvs (l : list (Z * bytes)) : bytes := concat (uncurry put_extension <$> l).

Definition tlv_ok (x : Z * bytes) : Prop := in_u16 x.1 /\ zlen x.2 < 2 ^ 16.

Lemma length_put_extension t d : length (put_extension t d) = (4 + length d)%nat.
Proof. unfold put_extension, put_u16. rewrite !length_app, !length_be_bytes. lia. Qed.

Lemma as_u16_id x : 0 <= x < 2 ^ 16 -> as_u16 x = x.
Proof. unfold as_u16. apply Z.mod_small. Qed.

Lemma tlvs_sizes l : zlen (tlvs l) < 2 ^ 16 -> Forall (fun x => zlen x.2 < 2 ^ 16) l.
Proof.
  induction l as [|[t d] l IH]; intros H; [constructor|].
  change (tlvs ((t, d) :: l)) with (put_extension t d ++ tlvs l) in H. unfold zlen in *.
  rewrite length_app, length_put_extension in H. constructor; [cbn; lia|apply IH; lia].
Qed.

Lemma tlv_read {E} (l : bytes) pos t d rest :
  (pos <= length l)%nat -> drop pos l = put_extension t d ++ rest -> tlv_ok (t, d) ->
  length l = (pos + (4 + length d) + length rest)%nat /\
  idx16 (E:=E) l pos = Ok t /\ idx16 (E:=E) l (pos + 2) = Ok (zlen d) /\
  slice (E:=E) l (pos + 4) (pos + 4 + length d) = Ok d /\
  drop (pos + 4 + length d) l = rest.
Proof.
  intros Hp H [Ht Hd]. cbn in Ht, Hd. pose proof (zlen_nonneg d).
  pose proof (cur_len _ _ _ Hp H) as Hlen. rewrite length_app, length_put_extension in Hlen.
  unfold put_extension in H. rewrite as_u16_id, <- !app_assoc in H by lia.
  pose proof (cur_skip _ _ _ _ 2 H eq_refl) as H2.
  pose proof (cur_skip _ _ _ _ 2 H2 eq_refl) as H4. rewrite <- Nat.add_assoc in H4.
  split_and!.
  - lia.
  - by eapply cur_u16.
  - eapply cur_u16; [done|]. unfold in_u16. lia.
  - eapply cur_slice; [lia|done|lia].
  - by eapply cur_skip.
Qed.

(** The parser's extension loop, on a list of extensions. *)
Fixpoint fold_extensions (l : list (Z * bytes)) (key : option bytes) (sni : bytes) :
    result (option bytes * bytes) :=
  match l with
  | [] => Ok (key, sni)
  | (t, d) :: l' =>
      if t =? 0x0000 then sni ← parse_sni d; fold_extensions l' key sni
      else if t =? 0x0033 then key ← first_x25519_key_share d; fold_extensions l' key sni
      else fold_extensions l' key sni
  end.

Lemma extension_loop_tlvs fuel body pos key sni l :
  (pos <= length body < fuel + pos)%nat -> drop pos body = tlvs l -> Forall tlv_ok l ->
  extension_loop fuel body pos key sni = fold_extensions l key sni.
Proof.
  intros Hf Hd Hl. revert fuel pos key sni Hf Hd.
  induction Hl as [|[t d] l Hx Hl IH]; intros [|fuel] pos key sni Hf Hd; try lia; cbn [extension_loop].
  - apply (cur_len _ _ _ (proj1 Hf)) in Hd. cbn in Hd.
    by rewrite (proj2 (Nat.leb_gt _ _)) by lia.
  - destruct (tlv_read (E:=ProxyError) body pos t d (tlvs l)) as (Hlen & H1 & H2 & H3 & H4);
      [lia|done|done|].
    rewrite (proj2 (Nat.leb_le _ _)) by lia. rewrite H1. mred. rewrite H2. mred.
    rewrite zlen_to_nat, (proj2 (Nat.ltb_ge _ _)) by lia. rewrite H3. mred. cbn [fold_extensions].
    case_match; [destruct (parse_sni d); mred; try done; apply IH; [lia|done]|].
    case_match; [destruct (first_x25519_key_share d); mred; try done; apply IH; [lia|done]|].
    apply IH; [lia|done].
Qed.

(** The key shares of an extension. *)
Fixpoint fold_shares (l : list (Z * bytes)) (a b : option bytes) : option bytes * option bytes :=
  match l with
  | [] => (a, b)
  | (g, k) :: l' =>
      if (g =? GROUP_X25519) && (length k =? 32)%nat then fold_shares l' (Some k) b
      else if (g =? GROUP_X25519_MLKEM768) && (32 <=? length k)%nat
      then fold_shares l' a (Some (drop (length k - 32) k))
      else fold_shares l' a b
  end.

Lemma key_share_loop_tlvs fuel ext n pos a b l :
  (pos <= length ext < fuel + pos)%nat -> length ext = (2 + n)%nat -> drop pos ext = tlvs l ->
  Forall tlv_ok l -> key_share_loop fuel ext n pos a b = Ok (fold_shares l a b).
Proof.
  intros Hf Hn Hd Hl. revert fuel pos a b Hf Hd.
  induction Hl as [|[g k] l Hx Hl IH]; intros [|fuel] pos a b Hf Hd; try lia; cbn [key_share_loop].
  - apply (cur_len _ _ _ (proj1 Hf)) in Hd. cbn in Hd.
    by rewrite (proj2 (Nat.leb_gt _ _)) by lia.
  - destruct (tlv_read (E:=ProxyError) ext pos g k (tlvs l)) as (Hlen & H1 & H2 & H3 & H4);
      [lia|done|done|].
    rewrite !(proj2 (Nat.leb_le _ _)) by lia. rewrite H1. mred. rewrite H2. mred.
    rewrite zlen_to_nat, (proj2 (Nat.ltb_ge _ _)) by lia. cbn [fold_shares].
    destruct ((g =? GROUP_X25519) && (length k =? 32)%nat) eqn:E1.
    { bool_hyps. replace (pos + 4 + 32)%nat with (pos + 4 + length k)%nat by lia. rewrite H3. mred.
      apply IH; [lia|done]. }
    destruct ((g =? GROUP_X25519_MLKEM768) && (32 <=? length k)%nat) eqn:E2; [|apply IH; [lia|done]].
    bool_hyps. apply slice_Ok_inv in H3 as [_ H3].
    replace (pos + 4 + length k - (pos + 4))%nat with (length k) in H3 by lia.
    rewrite slice_ok by lia. mred.
    replace (take _ (drop (pos + 4 + length k - 32) ext)) with (drop (length k - 32) k);
      [apply IH; [lia|done]|].
    rewrite H3 at 2. rewrite skipn_firstn_comm, drop_drop. f_equal; [lia|f_equal; lia].
Qed.

Lemma collect_tlvs l :
  Forall tlv_ok l -> zlen (tlvs l) < 2 ^ 16 ->
  collect_x25519_auth_keys (put_u16 (as_u16 (zlen (tlvs l))) ++ tlvs l) =
  Ok (let '(a, b) := fold_shares l None None in
      option_list a ++ match b with
                       | Some k => if bool_decide (a = Some k) then [] else [k]
                       | None => []
                       end).
Proof.
  intros Hl Hz. pose proof (zlen_nonneg (tlvs l)). unfold collect_x25519_auth_keys.
  rewrite as_u16_id by lia. rewrite length_app. unfold put_u16 at 1. rewrite length_be_bytes.
  rewrite (proj2 (Nat.ltb_ge _ _)) by lia. unfold put_u16.
  rewrite idx16_be_bytes_0 by (unfold in_u16; lia). mred. rewrite zlen_to_nat.
  rewrite key_share_loop_tlvs with (l := l); [|rewrite length_app, length_be_bytes; lia
    |rewrite length_app, length_be_bytes; lia|by eapply (cur_skip _ _ _ 0 2)|done].
  mred. by destruct (fold_shares l None None).
Qed.

Lemma utf8_lossy_valid l : utf8_valid l = true -> utf8_lossy l = l.
Proof.
  induction l as [l IH] using (induction_ltof1 _ (@length Z)); unfold ltof in IH.
  destruct l as [|b0 l1]; [done|]; cbn [utf8_valid utf8_lossy].
  destruct (b0 <? 128); [intros H; rewrite IH; [done|cbn; lia|done]|].
  destruct l1 as [|b1 l2]; [done|].
  destruct ((194 <=? b0) && (b0 <=? 223)).
  { intros [-> H]%andb_true_iff. rewrite IH; [done|cbn; lia|done]. }
  destruct l2 as [|b2 l3]; [done|].
  destruct ((224 <=? b0) && (b0 <=? 239)).
  { intros [[-> ->]%andb_true_iff H]%andb_true_iff. rewrite IH; [done|cbn; lia|done]. }
  destruct l3 as [|b3 l4]; [done|].
  destruct ((240 <=? b0) && (b0 <=? 244)); [|done]. cbn [andb].
  intros [[[-> ->]%andb_true_iff ->]%andb_true_iff H]%andb_true_iff.
  rewrite IH; [done|cbn; lia|done].
Qed.

Lemma fold_extensions_spec l key0 sni0 k s :
  (forall d, (0x0000, d) ∈ l -> parse_sni d = Ok s) ->
  (forall d, (0x0033, d) ∈ l -> first_x25519_key_share d = Ok (Some k)) ->
  fold_extensions l key0 sni0 =
  Ok (if bool_decide (0x0033 ∈ l.*1) then Some k else key0,
      if bool_decide (0x0000 ∈ l.*1) then s else sni0).
Proof.
  revert key0 sni0. induction l as [|[t d] l IH]; intros key0 sni0 H0 H33; [done|].
  assert (IH' := fun key0 sni0 => IH key0 sni0 (fun d' H => H0 d' (list_elem_of_further _ _ _ H))
    (fun d' H => H33 d' (list_elem_of_further _ _ _ H))). clear IH.
  cbn [fold_extensions fmap list_fmap fst].
  destruct (Z.eqb_spec t 0) as [->|Ht].
  { rewrite H0 by (by left). mred. rewrite IH'.
    repeat case_bool_decide; rewrite ?elem_of_cons in *; naive_solver. }
  destruct (Z.eqb_spec t 51) as [->|Ht'].
  { rewrite H33 by (by left). mred. rewrite IH'.
    repeat case_bool_decide; rewrite ?elem_of_cons in *; naive_solver. }
  rewrite IH'. repeat case_bool_decide; rewrite ?elem_of_cons in *; naive_solver.
Qed.

(** * What the builder builds *)

Lemma grease_u16_ok draw : is_grease_u16 (grease_u16 draw) = true.
Proof. unfold is_grease_u16, grease_u16. apply bool_decide_eq_true, elem_of_vlookup. by eexists. Qed.

(** GREASE values are none of the numbers that the parsers look for. *)
Lemma grease_u16_other draw :
  in_u16 (grease_u16 draw) /\ grease_u16 draw <> GROUP_X25519 /\
  grease_u16 draw <> GROUP_X25519_MLKEM768 /\ grease_u16 draw <> 0x0000 /\
  grease_u16 draw <> 0x0033.
Proof.
  pose proof (grease_u16_ok draw) as H. unfold is_grease_u16 in H.
  apply bool_decide_eq_true in H. revert H. generalize (grease_u16 draw). apply Forall_forall.
  unfold in_u16, GROUP_X25519, GROUP_X25519_MLKEM768. repeat constructor; lia.
Qed.

Section Built.
Context (p : FingerprintProfile) (sni key : bytes) (secp : option bytes) (gc ge : fin 16).

Definition ext_of (t : Z) : bytes := build_extension p sni (grease_u16 gc) key secp t.
Definition ext_data (t : Z) : bytes := drop 4 (ext_of t).

Lemma drop_put_extension t d : drop 4 (put_extension t d) = d.
Proof. reflexivity. Qed.

Lemma ext_of_tlv t : ext_of t = put_extension t (ext_data t).
Proof.
  unfold ext_data, ext_of, build_extension.
  repeat match goal with
  | |- context [if t =? ?k then _ else _] =>
      destruct (Z.eqb_spec t k) as [->|]; [unfold ext_server_name, ext_extended_master_secret,
       ext_renegotiation_info, ext_supported_groups, ext_ec_point_formats, ext_session_ticket,
       ext_alpn, ext_status_request, ext_signature_algorithms, ext_signed_cert_timestamp,
       ext_key_share, ext_psk_key_exchange_modes, ext_supported_versions,
       ext_compress_certificate, ext_padding; cbv zeta; by rewrite drop_put_extension|]
  end.
  by rewrite drop_put_extension.
Qed.

Definition ext_list : list (Z * bytes) :=
  ((fun t => (t, ext_data t)) <$> extensions p) ++ [(grease_u16 ge, [0x00; 0x00])].

Lemma build_extensions_tlvs :
  build_extensions p sni (grease_u16 gc) (grease_u16 ge) key secp = tlvs ext_list.
Proof.
  unfold build_extensions, tlvs, ext_list. rewrite fmap_app, concat_app. f_equal.
  f_equal. rewrite <- list_fmap_compose. apply list_fmap_ext. intros _ t _. apply ext_of_tlv.
Qed.

Definition share_list : list (Z * bytes) :=
  [(grease_u16 gc, [0x00]); (29, key)] ++ match secp with Some k => [(23, k)] | None => [] end.

Context (Hkey : length key = 32%nat).

Lemma key_share_data :
  ext_data 0x0033 = put_u16 (as_u16 (zlen (tlvs share_list))) ++ tlvs share_list.
Proof.
  assert (Heq : forall x y : bytes, x = y ->
    drop 4 (put_extension 51 (put_u16 (as_u16 (zlen x)) ++ x)) = put_u16 (as_u16 (zlen y)) ++ y)
    by (by intros x y ->).
  apply Heq. unfold share_list, tlvs, put_extension. cbn [fmap list_fmap concat app uncurry].
  replace (as_u16 (zlen key)) with 32 by (unfold zlen; by rewrite Hkey).
  destruct secp; rewrite <- ?app_assoc; cbn [app fmap list_fmap concat]; by rewrite ?app_nil_r.
Qed.

Lemma ext_list_ok :
  Forall in_u16 (extensions p) -> zlen (tlvs (ext_list)) < 2 ^ 16 -> Forall tlv_ok ext_list.
Proof.
  intros Hp Hz. apply tlvs_sizes in Hz. apply Forall_and. split; [|done].
  apply Forall_app. split; [|constructor; [apply grease_u16_other|constructor]].
  apply Forall_fmap. eapply Forall_impl; [exact Hp|]. done.
Qed.

Lemma server_name_data :
  zlen sni < 2 ^ 16 -> parse_sni (ext_data 0x0000) = Ok (utf8_lossy sni).
Proof.
  intros Hz. pose proof (zlen_nonneg sni).
  assert (Hd : ext_data 0 = put_u16 (as_u16 (1 + 2 + zlen sni)) ++ [0] ++ put_u16 (as_u16 (zlen sni)) ++ sni)
    by reflexivity.
  rewrite Hd, (as_u16_id (zlen sni)) by lia. unfold parse_sni.
  assert (Hl : length (put_u16 (as_u16 (1 + 2 + zlen sni)) ++ [0] ++ put_u16 (zlen sni) ++ sni) =
    (5 + length sni)%nat) by (rewrite !length_app; unfold put_u16; rewrite !length_be_bytes; cbn; lia).
  rewrite Hl, (proj2 (Nat.ltb_ge _ _)) by lia.
  rewrite cur_u16 with (x := zlen sni) (s := sni); [|reflexivity|unfold in_u16; lia]. mred.
  rewrite zlen_to_nat, (proj2 (Nat.ltb_ge _ _)) by lia.
  rewrite cur_slice with (d := sni) (s := []); [done|rewrite Hl; lia| |done].
  by rewrite app_nil_r.
Qed.

Lemma fold_share_list : fold_shares (share_list) None None = (Some key, None).
Proof.
  unfold share_list. destruct (grease_u16_other gc) as (_ & Hg1 & Hg2 & _). cbn [app fold_shares].
  rewrite (proj2 (Z.eqb_neq _ _) Hg1), (proj2 (Z.eqb_neq _ _) Hg2), Hkey. cbn [andb].
  destruct secp; reflexivity.
Qed.

Lemma key_share_keys :
  zlen (ext_data 0x0033) < 2 ^ 16 -> collect_x25519_auth_keys (ext_data 0x0033) = Ok [key].
Proof.
  rewrite key_share_data. intros Hz. assert (zlen (tlvs share_list) < 2 ^ 16).
  { rewrite zlen_app in Hz. unfold put_u16 in Hz. rewrite zlen_be_bytes in Hz. lia. }
  rewrite collect_tlvs; [by rewrite fold_share_list| |done].
  apply Forall_and. split; [|by apply tlvs_sizes]. unfold share_list.
  repeat constructor; try apply grease_u16_other; try done.
  destruct secp; repeat constructor; done.
Qed.
End Built.

(** ** The layout of a ClientHello

    [body] holds a ClientHello with the given fields; [hs] is its handshake header
    and legacy version. *)
Definition layout (hs random session_id suites : bytes) (ext_total : Z) (exts : bytes) : bytes :=
  hs ++ random ++ 32 :: session_id ++ put_u16 (zlen suites) ++ suites ++
  1 :: 0 :: put_u16 ext_total ++ exts.

Section Layout.
Context (hs random session_id suites : bytes) (ext_total : Z) (exts : bytes).
Context (Hhs : length hs = 6%nat) (Hran : length random = 32%nat)
  (Hsid : length session_id = 32%nat) (Hsuites : zlen suites < 2 ^ 16).
Let body := layout hs random session_id suites ext_total exts.

Lemma layout_length : length body = (77 + length suites + length exts)%nat.
Proof.
  subst body. unfold layout. repeat (rewrite length_app || cbn [length]).
  unfold put_u16. rewrite !length_be_bytes. lia.
Qed.

Lemma layout_random : drop 6 body = random ++ drop 38 body.
Proof.
  assert (H : drop 6 body = random ++ 32 :: session_id ++ put_u16 (zlen suites) ++ suites ++
    1 :: 0 :: put_u16 ext_total ++ exts) by (by apply drop_app_length').
  rewrite H. f_equal. change 38%nat with (6 + 32)%nat. rewrite <- drop_drop, H.
  symmetry. by apply drop_app_length'.
Qed.

Lemma layout_session_id : drop 38 body = 32 :: session_id ++ drop 71 body.
Proof.
  assert (H : drop 38 body = 32 :: session_id ++ put_u16 (zlen suites) ++ suites ++
    1 :: 0 :: put_u16 ext_total ++ exts).
  { subst body. unfold layout. rewrite app_assoc. apply drop_app_length'. rewrite length_app. lia. }
  rewrite H. do 2 f_equal. change 71%nat with (38 + (1 + 32))%nat. rewrite <- drop_drop, H.
  symmetry. rewrite <- drop_drop. cbn [drop]. by apply drop_app_length'.
Qed.

Lemma layout_suites : drop 71 body = put_u16 (zlen suites) ++ suites ++ drop (73 + length suites) body.
Proof.
  assert (H : drop 71 body = put_u16 (zlen suites) ++ suites ++ 1 :: 0 :: put_u16 ext_total ++ exts).
  { subst body. unfold layout.
    replace (hs ++ random ++ 32 :: session_id ++ _) with ((hs ++ random ++ 32 :: session_id) ++
      put_u16 (zlen suites) ++ suites ++ 1 :: 0 :: put_u16 ext_total ++ exts)
      by (by rewrite <- !app_assoc).
    apply drop_app_length'. rewrite !length_app. cbn. lia. }
  rewrite H. do 2 f_equal. change 73%nat with (71 + 2)%nat. rewrite <- Nat.add_assoc, <- drop_drop, H.
  rewrite <- drop_drop, (drop_app_length' (put_u16 _)) by done. by rewrite drop_app_length.
Qed.

Lemma layout_exts :
  drop (73 + length suites) body = 1 :: 0 :: put_u16 ext_total ++ exts /\ drop (77 + length suites) body = exts.
Proof.
  assert (H : drop (73 + length suites) body = 1 :: 0 :: put_u16 ext_total ++ exts).
  { subst body. unfold layout.
    replace (hs ++ random ++ 32 :: session_id ++ _) with
      ((hs ++ random ++ 32 :: session_id ++ put_u16 (zlen suites) ++ suites) ++
      1 :: 0 :: put_u16 ext_total ++ exts)
      by (rewrite <- !app_assoc; cbn [app]; by rewrite <- !app_assoc).
    apply drop_app_length'. repeat (rewrite length_app || cbn [length]).
    unfold put_u16. rewrite length_be_bytes. lia. }
  split; [done|].  replace (77 + length suites)%nat with (73 + length suites + 4)%nat by lia.
  rewrite <- drop_drop, H. cbn [drop]. by apply drop_app_length'.
Qed.

Lemma layout_skip_suites : skip_cipher_suites body 71 = Ok (73 + length suites)%nat.
Proof.
  unfold skip_cipher_suites. pose proof layout_length as Hl.  pose proof (zlen_nonneg suites).
  rewrite (proj2 (Nat.ltb_ge _ _)) by lia.
  erewrite cur_u16; [|apply layout_suites|unfold in_u16; lia]. mred.
  rewrite zlen_to_nat, (proj2 (Nat.ltb_ge _ _)) by lia. done.
Qed.

Lemma layout_skip_compression : skip_compression_methods body (73 + length suites) = Ok (75 + length suites)%nat.
Proof.
  unfold skip_compression_methods. pose proof layout_length as Hl. 
  rewrite (proj2 (Nat.leb_gt _ _)) by lia.
  erewrite cur_idx; [|apply layout_exts]. mred.
  rewrite (proj2 (Nat.ltb_ge _ _)) by (cbn; lia). f_equal. cbn. lia.
Qed.

Lemma layout_parse key sni l :
  head hs = Some 1 -> exts = tlvs l -> Forall tlv_ok l ->
  fold_extensions l None [] = Ok (Some key, sni) ->
  parse_client_hello body = Ok (mkFields random session_id key sni).
Proof.
  intros Hhd He Hl Hfold. unfold parse_client_hello. pose proof layout_length as Hlen. 
  rewrite (proj2 (Nat.ltb_ge _ _)) by lia.
  assert (idx (E:=ProxyError) body 0 = Ok 1) as ->.
  { subst body. unfold layout. destruct hs as [|x hs']; [done|]. by injection Hhd as ->. }
  mred. rewrite (cur_slice body random (drop 38 body) 6 38); [|lia|apply layout_random|lia]. mred.
  erewrite cur_idx; [|apply layout_session_id]. mred. eval_eqb. mred.
  rewrite (cur_slice body session_id (drop 71 body) 39 71); [|lia| |lia].
  2: { change 39%nat with (38 + 1)%nat. rewrite <- drop_drop, layout_session_id. done. }
  mred. rewrite layout_skip_suites. mred. rewrite layout_skip_compression. mred.
  rewrite (proj2 (Nat.ltb_ge _ _)) by lia.
  rewrite (extension_loop_tlvs _ body _ None [] l); [by rewrite Hfold|lia| |done].
  replace (75 + length suites + 2)%nat with (77 + length suites)%nat by lia. rewrite <- He.
  apply layout_exts.
Qed.

Lemma layout_session_id_read : client_hello_session_id body = Ok session_id.
Proof.
  unfold client_hello_session_id, CLIENT_HELLO_SESSION_ID_LEN_OFFSET.
  pose proof layout_length as Hlen.  rewrite (proj2 (Nat.ltb_ge _ _)) by lia.
  erewrite cur_idx; [|apply layout_session_id]. mred. change (Z.to_nat 32) with 32%nat.
  rewrite (proj2 (Nat.ltb_ge _ _)) by lia.
  apply (cur_slice body session_id (drop 71 body)); [lia| |lia].
  rewrite <- drop_drop, layout_session_id. done.
Qed.

Lemma layout_cipher_suites_read : client_hello_cipher_suites body = Ok suites.
Proof.
  unfold client_hello_cipher_suites, CLIENT_HELLO_SESSION_ID_LEN_OFFSET.
  pose proof layout_length as Hlen.  pose proof (zlen_nonneg suites).
  rewrite (proj2 (Nat.ltb_ge _ _)) by lia.
  erewrite cur_idx; [|apply layout_session_id]. mred. change (Z.to_nat 32) with 32%nat.
  rewrite (proj2 (Nat.ltb_ge _ _)) by lia. change (38 + 1 + 32)%nat with 71%nat.
  erewrite cur_u16; [|apply layout_suites|unfold in_u16; lia]. mred. rewrite zlen_to_nat.
  rewrite (proj2 (Nat.ltb_ge _ _)) by lia.
  apply (cur_slice body suites (drop (73 + length suites) body)); [lia| |lia].
  change (71 + 2)%nat with (71 + length (put_u16 (zlen suites)))%nat.
  rewrite <- drop_drop, layout_suites at 1. by rewrite drop_app_length.
Qed.
End Layout.

Lemma key_share_search_tlvs fuel body pos l d :
  (pos <= length body < fuel + pos)%nat -> drop pos body = tlvs l -> Forall tlv_ok l ->
  0x0033 ∈ l.*1 -> (forall d', (0x0033, d') ∈ l -> d' = d) ->
  key_share_search fuel body (length body) pos = Ok d.
Proof.
  intros Hf Hd Hl. revert fuel pos Hf Hd.
  induction Hl as [|[t d0] l Hx Hl IH]; intros [|fuel] pos Hf Hd Hin Hall; try lia;
    cbn [key_share_search]; [by apply not_elem_of_nil in Hin|].
  destruct (tlv_read (E:=unit) body pos t d0 (tlvs l)) as (Hlen & H1 & H2 & H3 & H4); [lia|done|done|].
  rewrite (proj2 (Nat.leb_le _ _)) by lia. rewrite H1. mred. rewrite H2. mred.
  rewrite zlen_to_nat, (proj2 (Nat.ltb_ge _ _)) by lia.
  destruct (Z.eqb_spec t 51) as [->|Ht]; [rewrite H3; f_equal; apply Hall; by left|].
  apply IH; [lia|done| |].
  - by apply elem_of_cons in Hin as [|].
  - intros d' Hd'. apply Hall. by right.
Qed.

Lemma layout_key_share hs random session_id suites exts l d :
  length hs = 6%nat -> length random = 32%nat -> length session_id = 32%nat ->
  zlen suites < 2 ^ 16 -> head hs = Some 1 -> exts = tlvs l -> Forall tlv_ok l ->
  zlen exts < 2 ^ 16 -> 0x0033 ∈ l.*1 -> (forall d', (0x0033, d') ∈ l -> d' = d) ->
  key_share_extension_data (layout hs random session_id suites (zlen exts) exts) = Ok d.
Proof.
  intros Hhs Hran Hsid Hsu Hhd He Hl Hz Hin Hall.
  set (body := layout hs random session_id suites (zlen exts) exts).
  assert (Hlen : length body = (77 + length suites + length exts)%nat) by (by apply layout_length).
  pose proof (zlen_nonneg suites). pose proof (zlen_nonneg exts).
  unfold key_share_extension_data, CLIENT_HELLO_SESSION_ID_LEN_OFFSET.
  rewrite (proj2 (Nat.ltb_ge _ _)) by lia.
  assert (idx (E:=unit) body 0 = Ok 1) as ->.
  { subst body. unfold layout. destruct hs as [|x hs']; [done|]. by injection Hhd as ->. }
  mred. eval_eqb. mred. erewrite cur_idx; [|by apply layout_session_id]. mred.
  change (Z.to_nat 32) with 32%nat. rewrite (proj2 (Nat.ltb_ge _ _)) by lia.
  change (38 + 1 + 32)%nat with 71%nat.
  erewrite cur_u16; [|by apply layout_suites|unfold in_u16; lia]. mred. rewrite zlen_to_nat.
  rewrite (proj2 (Nat.leb_gt _ _)) by lia. replace (71 + (2 + length suites))%nat with (73 + length suites)%nat by lia.
  destruct (layout_exts hs random session_id suites (zlen exts) exts) as [H1 H2]; [done..|]. fold body in H1, H2.
  erewrite cur_idx; [|apply H1]. mred. change (Z.to_nat 1) with 1%nat.
  rewrite (proj2 (Nat.ltb_ge _ _)) by lia.
  erewrite cur_u16; [| |by unfold in_u16; split; [|exact Hz]].
  2: { change (1 + 1)%nat with 2%nat. rewrite <- drop_drop, H1. done. }
  mred. rewrite zlen_to_nat. replace (Nat.min _ _) with (length body) by lia.
  apply key_share_search_tlvs with (l := l); [lia| |done..].
  replace (73 + length suites + (1 + 1) + 2)%nat with (77 + length suites)%nat by lia. by rewrite <- He.
Qed.

(** The handshake message that the builder puts into the record. *)
Section Hello.
Context (p : FingerprintProfile) (sni random session_id : bytes) (x25519 secp : option bytes)
  (draws : fin 16 * fin 16) (generated : bytes).
Let key := default generated x25519.
Let hello := build_with_additional_key_share p sni random session_id x25519 secp draws generated.

Definition hello_suites : bytes :=
  put_u16 (grease_u16 draws.1) ++ concat (put_u16 <$> cipher_suites p).

Definition hello_header : bytes :=
  [0x01] ++ put_u24 (as_u32 (zlen (build_client_hello_body p sni random session_id
    (grease_u16 draws.1) (grease_u16 draws.2) key secp))) ++ put_u16 0x0303.

(** The extensions in the hello, as the parsers find them. *)
Definition hello_exts : list (Z * bytes) := ext_list p sni key secp draws.1 draws.2.

Lemma zlen_put_u16s l : zlen (concat (put_u16 <$> l)) = zlen l * 2.
Proof.
  induction l as [|x l IH]; [done|]. cbn [fmap list_fmap concat]. rewrite zlen_app, IH.
  unfold put_u16. rewrite zlen_be_bytes. unfold zlen. cbn [length]. lia.
Qed.

Lemma zlen_hello_suites : zlen hello_suites = (1 + zlen (cipher_suites p)) * 2.
Proof.
  unfold hello_suites. rewrite zlen_app, zlen_put_u16s. unfold put_u16. rewrite zlen_be_bytes. lia.
Qed.

Context (Hran : length random = 32%nat) (Hsid : length session_id = 32%nat)
  (Hkey : length key = 32%nat) (Hsize : zlen hello < 2 ^ 16 + 5).

Lemma hello_sizes :
  zlen hello_suites < 2 ^ 16 /\ zlen (tlvs hello_exts) < 2 ^ 16 /\
  zlen hello = 82 + zlen hello_suites + zlen (tlvs hello_exts).
Proof.
  assert (H : zlen hello = 82 + zlen hello_suites + zlen (tlvs hello_exts)).
  { subst hello. unfold build_with_additional_key_share, build_client_hello_body.
    rewrite build_extensions_tlvs. fold key. fold hello_exts. fold hello_suites. unfold zlen, put_u16.
    rewrite !length_app, !length_be_bytes, Hran, Hsid. cbn [length put_u24]. lia. }
  pose proof (zlen_nonneg hello_suites). pose proof (zlen_nonneg (tlvs hello_exts)). lia.
Qed.

Lemma hello_layout :
  drop 5 hello = layout hello_header random session_id hello_suites (zlen (tlvs hello_exts))
    (tlvs hello_exts).
Proof.
  destruct hello_sizes as (H1 & H2 & _). pose proof (zlen_nonneg hello_suites).
  pose proof (zlen_nonneg (tlvs hello_exts)).
  assert (Hb : build_client_hello_body p sni random session_id (grease_u16 draws.1)
    (grease_u16 draws.2) key secp = put_u16 0x0303 ++ random ++ 32 :: session_id ++
    put_u16 (zlen hello_suites) ++ hello_suites ++ 1 :: 0 :: put_u16 (zlen (tlvs hello_exts)) ++
    tlvs hello_exts).
  { unfold build_client_hello_body. rewrite build_extensions_tlvs. fold hello_exts. fold hello_suites.
    rewrite <- zlen_hello_suites, !as_u16_id by lia. done. }
  assert (Hd : forall x y : bytes, drop 5 ([0x16; 0x03; 0x01] ++ put_u16 (as_u16 (zlen x)) ++ y) = y)
    by reflexivity.
  subst hello. unfold build_with_additional_key_share. fold key. rewrite Hd.
  unfold layout, hello_header. rewrite Hb at 2. by rewrite <- !app_assoc.
Qed.

Lemma hello_exts_ok : Forall in_u16 (extensions p) -> Forall tlv_ok hello_exts.
Proof. intros Hp. apply ext_list_ok; [done|apply hello_sizes]. Qed.

Lemma hello_ext t d :
  (t = 0x0000 \/ t = 0x0033) -> (t, d) ∈ hello_exts -> d = ext_data p sni key secp draws.1 t.
Proof.
  unfold hello_exts, ext_list. intros Ht [H|H]%elem_of_app.
  - apply list_elem_of_fmap in H as (t' & [= -> ->] & _). done.
  - apply list_elem_of_singleton in H. injection H as -> _.
    destruct (grease_u16_other draws.2) as (_ & _ & _ & ? & ?). by destruct Ht.
Qed.

Lemma hello_has t : t ∈ extensions p -> t ∈ hello_exts.*1.
Proof.
  intros Ht. unfold hello_exts, ext_list. rewrite fmap_app, <- list_fmap_compose. apply elem_of_app.
  left. apply list_elem_of_fmap. by exists t.
Qed.

Lemma hello_key_share_size : 0x0033 ∈ extensions p -> zlen (ext_data p sni key secp draws.1 0x0033) < 2 ^ 16.
Proof.
  intros Hin. destruct hello_sizes as (_ & Hz & _). apply tlvs_sizes in Hz.
  rewrite Forall_forall in Hz. apply (Hz (0x0033, ext_data p sni key secp draws.1 0x0033)). unfold hello_exts, ext_list.
  apply elem_of_app. left. apply list_elem_of_fmap. by eexists.
Qed.

Lemma hello_server_name_size : 0x0000 ∈ extensions p -> 5 + zlen sni < 2 ^ 16.
Proof.
  intros Hin. destruct hello_sizes as (_ & Hz & _). apply tlvs_sizes in Hz.
  rewrite Forall_forall in Hz. specialize (Hz (0x0000, ext_data p sni key secp draws.1 0x0000)).
  cbn [snd] in Hz. change (ext_data p sni key secp draws.1 0) with
    (put_u16 (as_u16 (1 + 2 + zlen sni)) ++ [0] ++ put_u16 (as_u16 (zlen sni)) ++ sni) in Hz.
  unfold put_u16 in Hz. rewrite !zlen_app, !zlen_be_bytes in Hz. change (zlen [0]) with 1 in Hz.
  enough (2 + (1 + (2 + zlen sni)) < 2 ^ 16) by lia. apply Hz. unfold hello_exts, ext_list.
  apply elem_of_app. left. apply list_elem_of_fmap. exists 0. split; [reflexivity|exact Hin].
Qed.
End Hello.

(** What the client builds is read back. *)
Lemma hello_read_back p sni random session_id x25519 secp draws generated :
  let key := default generated x25519 in
  let hello := build_with_additional_key_share p sni random session_id x25519 secp draws generated in
  Forall in_u16 (extensions p) -> 0x0000 ∈ extensions p -> 0x0033 ∈ extensions p ->
  length random = 32%nat -> length session_id = 32%nat -> length key = 32%nat ->
  utf8_valid sni = true -> zlen hello < 2 ^ 16 + 5 ->
  parse_client_hello (drop 5 hello) = Ok (mkFields random session_id key sni) /\
  reality_auth_peer_public_keys (drop 5 hello) = Ok [key] /\
  client_hello_session_id (drop 5 hello) = Ok session_id /\
  client_hello_cipher_suites (drop 5 hello) =
    Ok (put_u16 (grease_u16 draws.1) ++ concat (put_u16 <$> cipher_suites p)).
Proof.
  rename session_id into sid. intros key hello Hp H0 H33 Hran Hsid Hkey Hutf Hz.
  pose proof (hello_sizes p sni random sid x25519 secp draws generated Hran Hsid Hkey Hz) as (Hs1 & Hs2 & _).
  pose proof (hello_key_share_size p sni random sid x25519 secp draws generated Hran Hsid Hkey Hz H33) as Hks.
  pose proof (hello_server_name_size p sni random sid x25519 secp draws generated Hran Hsid Hkey Hz H0) as Hsn.
  pose proof (hello_exts_ok p sni random sid x25519 secp draws generated Hran Hsid Hkey Hz Hp) as Hok.
  subst hello. rewrite hello_layout by done. split_and!.
  - eapply layout_parse; [done..| |].
    + exact Hok.
    + rewrite (fold_extensions_spec _ None [] key sni).
      * by rewrite !bool_decide_eq_true_2 by (by apply hello_has).
      * intros d Hd. apply hello_ext in Hd as ->; [|by left].
        rewrite server_name_data by (done || lia). by rewrite utf8_lossy_valid.
      * intros d Hd. apply hello_ext in Hd as ->; [|by right].
        unfold first_x25519_key_share. by rewrite key_share_keys.
  - unfold reality_auth_peer_public_keys. erewrite layout_key_share; try done.
    + by apply key_share_keys.
    + by apply hello_has.
    + intros d Hd. apply hello_ext in Hd as ->; [done|by right].
  - by apply layout_session_id_read.
  - by apply layout_cipher_suites_read.
Qed.

(** * Properties *)

(** C29. REALITY reads a ClientHello safely and reads back what its own client sends:
    on any bytes the parser and its helpers finish without panicking; and for every
    fingerprint profile that lists the server name and key share extensions, a hello
    that fits a TLS record parses to the random, session id, x25519 key and server
    name it was built with, and to its cipher suites, with the x25519 key as the only
    authentication key whatever GREASE and P-256 key were put beside it. *)
Theorem reality_reads_hello :
  (forall body, no_panic (parse_client_hello body) /\ no_panic (reality_auth_peer_public_keys body) /\
     no_panic (client_hello_session_id body) /\ no_panic (client_hello_cipher_suites body)) /\
  forall p sni random session_id x25519 secp draws generated,
    let key := default generated x25519 in
    let hello := build_with_additional_key_share p sni random session_id x25519 secp draws generated in
    Forall in_u16 (extensions p) -> 0x0000 ∈ extensions p -> 0x0033 ∈ extensions p ->
    length random = 32%nat -> length session_id = 32%nat -> length key = 32%nat ->
    utf8_valid sni = true -> zlen hello < 2 ^ 16 + 5 ->
    parse_client_hello (drop 5 hello) = Ok (mkFields random session_id key sni) /\
    reality_auth_peer_public_keys (drop 5 hello) = Ok [key] /\
    client_hello_session_id (drop 5 hello) = Ok session_id /\
    client_hello_cipher_suites (drop 5 hello) =
      Ok (put_u16 (grease_u16 draws.1) ++ concat (put_u16 <$> cipher_suites p)).
Proof.
  split.
  { intros body. split_and!; [apply parse_client_hello_no_panic|apply reality_auth_no_panic
      |apply session_id_no_panic|apply cipher_suites_no_panic]. }
  intros. by apply hello_read_back.
Qed.

(** The hello of the Chrome profile, with a P-256 key share. *)
Definition chrome_hello : bytes :=
  build_with_additional_key_share chrome_131 (str "www.example.com") (replicate 32 0x11)
    (replicate 32 0x22) (Some (replicate 32 0x33)) (Some (replicate 65 0x44)) (3%fin, 7%fin) [].

Lemma reality_reads_hello_witness :
  parse_client_hello (drop 5 chrome_hello) =
    Ok (mkFields (replicate 32 0x11) (replicate 32 0x22) (replicate 32 0x33) (str "www.example.com")) /\
  reality_auth_peer_public_keys (drop 5 chrome_hello) = Ok [replicate 32 0x33].
Proof.
  destruct (proj2 reality_reads_hello chrome_131 (str "www.example.com") (replicate 32 0x11)
    (replicate 32 0x22) (Some (replicate 32 0x33)) (Some (replicate 65 0x44)) (3%fin, 7%fin) [])
    as (H1 & H2 & _).
  - refine (bool_decide_unpack (Forall _ _) _). vm_compute. exact I.
  - apply list_elem_of_here.
  - refine (bool_decide_unpack (_ ∈ _) _). vm_compute. exact I.
  - reflexivity.
  - reflexivity.
  - reflexivity.
  - reflexivity.
  - vm_compute. reflexivity.
  - split; [exact H1|exact H2].
Defined.
