(* ===== verification/Sniff.v ===== *)
(** * Sniffing

    [blackwire-app] [sniff.rs]: detecting the server name of a TLS ClientHello or
    the host of an HTTP request in the first bytes of a connection, FakeDNS
    sniffing, and the rewriting of the destination; with the sniffing stage of
    [DefaultDispatcher::dispatch_with_early_payload] ([dispatcher.rs]). *)

From S2P Require Import Prelude Common AsyncIo IpText DomainMatch Router Dns Lru UploadQueue ClientHello.

Definition MAX_SNIFF : nat := Z.to_nat 8192.

(** [SniffingConfig] of [blackwire-config]. *)
Record SniffingConfig : Type := mkSniffing {
  enabled : bool;
  dest_override : list bytes;
  metadata_only : bool;
  route_only : bool
}.

Record SniffResult : Type := mkSniff { sn_protocol : option bytes; sn_domain : option bytes }.

Definition SniffResult_default : SniffResult := mkSniff None None.

(** [config.dest_override.iter().any(|p| p == name)] *)
Definition wants (config : SniffingConfig) (name : string) : bool :=
  bool_decide (str name ∈ dest_override config).

(** ** TLS *)

(** The extension loop of [tls_sni]; it moves on by at least four bytes a round. *)
Fixpoint sni_loop (fuel : nat) (data : bytes) (end_ pos : nat) : res unit bytes :=
  match fuel with
  | O => Panic
  | S fuel' =>
      if (pos + 4 <=? Nat.min end_ (length data))%nat then
        etype ← idx16 data pos;
        elen ← idx16 data (pos + 2);
        let elen := Z.to_nat elen in
        let pos := (pos + 4)%nat in
        if (length data <? pos + elen)%nat then Err tt else
        host_name ← (if (etype =? 0) && (5 <? elen)%nat
                     then b ← idx data (pos + 2); Ok (b =? 0) else Ok false);
        if host_name : bool then
          name_len ← idx16 data (pos + 3);
          let name_len := Z.to_nat name_len in
          if (pos + 5 + name_len <=? length data)%nat then
            name ← slice data (pos + 5) (pos + 5 + name_len);
            if utf8_valid name then Ok name else Err tt
          else sni_loop fuel' data end_ (pos + elen)
        else sni_loop fuel' data end_ (pos + elen)
      else Err tt
  end.

Definition tls_sni (data : bytes) : res unit bytes :=
  if (length data <? 5)%nat then Err tt else
  b0 ← idx data 0;
  if negb (b0 =? 0x16) then Err tt else
  let pos := 5%nat in
  if (length data <=? pos)%nat then Err tt else
  b5 ← idx data pos;
  if negb (b5 =? 0x01) then Err tt else
  let pos := (pos + 4 + (2 + 32))%nat in
  if (length data <=? pos)%nat then Err tt else
  sess_len ← idx data pos;
  let pos := (pos + (1 + Z.to_nat sess_len))%nat in
  if (length data <? pos + 2)%nat then Err tt else
  suites_len ← idx16 data pos;
  let pos := (pos + (2 + Z.to_nat suites_len))%nat in
  if (length data <=? pos)%nat then Err tt else
  comp_len ← idx data pos;
  let pos := (pos + (1 + Z.to_nat comp_len))%nat in
  if (length data <? pos + 2)%nat then Err tt else
  ext_len ← idx16 data pos;
  let pos := (pos + 2)%nat in
  sni_loop (S (length data)) data (pos + Z.to_nat ext_len) pos.

(** ** HTTP *)

(** [str::lines]: the pieces between line feeds, without a carriage return before
    the line feed; a last piece without line feed counts unless it is empty. *)
Definition strip_cr (s : bytes) : bytes :=
  match last s with
  | Some c => if c =? 13 then take (length s - 1) s else s
  | None => s
  end.

Fixpoint pieces_lines (ps : list bytes) : list bytes :=
  match ps with
  | [] => []
  | [p] => if bool_decide (p = []) then [] else [p]
  | p :: ps' => strip_cr p :: pieces_lines ps'
  end.

Definition lines (text : bytes) : list bytes := pieces_lines (split_on 10 text).

Fixpoint host_scan (ls : list bytes) : res unit bytes :=
  match ls with
  | [] => Err tt
  | line :: ls' =>
      if bool_decide (line = []) then Err tt
      else
        let lower := ascii_lower <$> line in
        match strip_str (str "host:") lower with
        | Some rest =>
            let host := trim rest in
            let host := default host (head (split_on 58 host)) in
            if negb (bool_decide (host = [])) then Ok host else host_scan ls'
        | None => host_scan ls'
        end
  end.

Definition http_methods : list bytes :=
  [str "GET "; str "POST "; str "PUT "; str "HEAD "; str "CONNECT "].

Definition http_host (data : bytes) : res unit bytes :=
  if negb (utf8_valid data) then Err tt else
  match lines data with
  | [] => Err tt
  | first :: rest =>
      if negb (existsb (fun m => is_prefix m first) http_methods) then Err tt else host_scan rest
  end.

(** ** Results and destinations *)

Definition analyze_peek (peek : bytes) (config : SniffingConfig) : res io_error SniffResult :=
  let http :=
    if wants config "http" then
      match http_host peek with
      | Ok host => Ok (mkSniff (Some (str "http")) (Some host))
      | Err _ => Ok SniffResult_default
      | Panic => Panic
      end
    else Ok SniffResult_default in
  if wants config "tls" then
    match tls_sni peek with
    | Ok domain => Ok (mkSniff (Some (str "tls")) (Some domain))
    | Err _ => http
    | Panic => Panic
    end
  else http.

Definition apply_dest_override (dest : Address) (sniff : SniffResult) (config : SniffingConfig) :
    Address :=
  if negb (enabled config) || route_only config then dest
  else match sn_domain sniff with
  | None => dest
  | Some domain =>
      match dest with
      | Ipv4 _ port | Ipv6 _ port =>
          if wants config "http" || wants config "tls" || wants config "fakedns"
          then Domain domain port else dest
      | other => other
      end
  end.

Section FakeDns.
Context {N L : Type} `{Ipv4Net N} `{Lru L unit}.

(** [DnsModule::reverse_fake]; the module's FakeIP pool is optional. *)
Definition reverse_fake (fakeip : option (FakeIpPool N L)) (ip : bytes) : option bytes :=
  pool ← fakeip; Dns.reverse pool (be_val ip).

Definition sniff_fakedns (dest : Address) (dns : option (FakeIpPool N L)) : SniffResult :=
  match dest with
  | Ipv4 ip _ =>
      match reverse_fake dns ip with
      | Some domain => mkSniff (Some (str "fakedns")) (Some domain)
      | None => SniffResult_default
      end
  | _ => SniffResult_default
  end.
End FakeDns.

(** ** Peeking at a stream *)

Section Peek.
Context {S : Type} `{AsyncRead S}.

(** A read under [timeout]; the timer fires after [polls] polls. *)
Fixpoint read_within (polls : nat) (s : S) (n : nat) : S * option (res io_error bytes) :=
  match polls with
  | O => (s, None)
  | Datatypes.S polls' =>
      match poll_read s n with
      | (s', Ready r) => (s', Some r)
      | (s', Pending) => read_within polls' s' n
      end
  end.

(** The stream that goes on to the relay: the original one, or one that replays
    what was read. *)
Definition sniff_stream (polls : nat) (stream : S) (config : SniffingConfig) :
    res io_error ((S + PrependedStream S) * SniffResult) :=
  if negb (enabled config) || metadata_only config then Ok (inl stream, SniffResult_default)
  else
    let '(stream, r) := read_within polls stream MAX_SNIFF in
    peek ← match r with Some r => r | None => Ok [] end;
    if bool_decide (peek = []) then Ok (inl stream, SniffResult_default)
    else
      result ← analyze_peek peek config;
      Ok (inr (PrependedStream_new stream peek), result).

(** The sniffing stage of [dispatch_with_early_payload]: [sniff_cfg] is the entry of
    the inbound's tag. *)
Definition sniff_stage {N L} `{Ipv4Net N} `{Lru L unit} (polls : nat)
    (sniff_cfg : option SniffingConfig) (dns : option (option (FakeIpPool N L)))
    (early_payload : option bytes) (dest : Address) (stream : S) :
    res io_error (Address * (S + PrependedStream S) * SniffResult) :=
  match sniff_cfg with
  | Some cfg =>
      if enabled cfg then
        let peek_stream := sniff_stream polls stream cfg in
        '(stream, sniff) ←
          match early_payload with
          | Some payload =>
              if negb (bool_decide (payload = [])) && negb (metadata_only cfg)
              then sniff ← analyze_peek payload cfg; Ok (inl stream, sniff)
              else peek_stream
          | None => peek_stream
          end;
        let sniff :=
          if bool_decide (sn_domain sniff = None) && wants cfg "fakedns" then
            match dns with Some dns => sniff_fakedns dest dns | None => sniff end
          else sniff in
        Ok (apply_dest_override dest sniff cfg, stream, sniff)
      else Ok (dest, inl stream, SniffResult_default)
  | None => Ok (dest, inl stream, SniffResult_default)
  end.
End Peek.

(** * Safety *)

Lemma sni_loop_no_panic fuel data e pos :
  (pos <= length data < fuel + pos)%nat -> no_panic (sni_loop fuel data e pos).
Proof.
  revert pos. induction fuel as [|fuel IH]; intros pos Hf; cbn [sni_loop]; [lia|].
  no_panics; try (apply IH; lia).
  all: match goal with H : (if ?c then _ else _) = Ok _ |- _ => destruct c eqn:?; bool_hyps end;
    simplify_eq; apply idx16_no_panic; lia.
Qed.

Lemma tls_sni_no_panic data : no_panic (tls_sni data).
Proof. unfold tls_sni. no_panics. apply sni_loop_no_panic. lia. Qed.

Lemma host_scan_no_panic ls : no_panic (host_scan ls).
Proof.
  induction ls as [|l ls IH]; cbn [host_scan]; [done|]. no_panics.
  destruct (strip_str _ _); [|done]. no_panics. done.
Qed.

Lemma http_host_no_panic data : no_panic (http_host data).
Proof.
  unfold http_host. no_panics. destruct (lines data); no_panics. apply host_scan_no_panic.
Qed.

Lemma analyze_peek_ok peek config : exists r, analyze_peek peek config = Ok r.
Proof.
  unfold analyze_peek. pose proof (tls_sni_no_panic peek). pose proof (http_host_no_panic peek).
  destruct (wants config "tls"), (wants config "http"), (tls_sni peek), (http_host peek);
    first [by exfalso | by eexists].
Qed.

(** * Nothing is lost *)

Section PeekFacts.
Context {S : Type} `{ReadSpec S}.

(** What the relay will read. *)
Definition sniffed_incoming (s : S + PrependedStream S) : bytes :=
  match s with inl s => incoming s | inr p => prepended_incoming p end.

Lemma read_within_incoming polls s n s' r :
  read_within polls s n = (s', r) ->
  match r with
  | Some (Ok c) => incoming s = c ++ incoming s'
  | Some (Err _) => True
  | Some Panic => False
  | None => incoming s' = incoming s
  end.
Proof.
  revert s. induction polls as [|polls IH]; intros s; cbn [read_within]; [by intros [= <- <-]|].
  destruct (poll_read s n) as [s1 [r1|]] eqn:Hr.
  - intros [= <- <-]. destruct r1 as [c|e|]; [|done|by apply poll_read_no_panic in Hr].
    by apply poll_read_ok in Hr as (_ & ? & _).
  - intros Hw. apply IH in Hw. apply poll_read_pending in Hr. by rewrite <- Hr.
Qed.

Lemma sniff_stream_spec polls s config :
  match sniff_stream polls s config with
  | Ok (s', _) => sniffed_incoming s' = incoming s
  | Err _ => True
  | Panic => False
  end.
Proof.
  unfold sniff_stream. destruct (_ || _); [done|].
  destruct (read_within polls s MAX_SNIFF) as [s1 r] eqn:Hr. apply read_within_incoming in Hr.
  destruct r as [[c|e|]|]; mred; try done.
  case_bool_decide as Hc; [by subst|]. destruct (analyze_peek_ok c config) as [x ->]. mred.
  cbn [sniffed_incoming]. unfold prepended_incoming. cbn. done.
Qed.
End PeekFacts.

(** * Server names *)

(** The content of a server name extension. *)
Definition server_name_ext (sni : bytes) : bytes :=
  put_u16 (as_u16 (1 + 2 + zlen sni)) ++ [0] ++ put_u16 (as_u16 (zlen sni)) ++ sni.

Lemma sni_loop_tlvs fuel data e pos l sni :
  (pos <= length data < fuel + pos)%nat -> (length data <= e)%nat -> drop pos data = tlvs l ->
  Forall tlv_ok l -> 0x0000 ∈ l.*1 -> (forall d, (0x0000, d) ∈ l -> d = server_name_ext sni) ->
  sni <> [] -> utf8_valid sni = true -> sni_loop fuel data e pos = Ok sni.
Proof.
  intros Hf He Hd Hl. revert fuel pos Hf Hd.
  induction Hl as [|[t d] l Hx Hl IH]; intros [|fuel] pos Hf Hd Hin Hall Hne Hutf; try lia;
    cbn [sni_loop]; [by apply not_elem_of_nil in Hin|].
  destruct (tlv_read (E:=unit) data pos t d (tlvs l)) as (Hlen & H1 & H2 & H3 & H4); [lia|done|done|].
  rewrite (proj2 (Nat.leb_le _ _)) by lia. rewrite H1. mred. rewrite H2. mred.
  rewrite zlen_to_nat, (proj2 (Nat.ltb_ge _ _)) by lia.
  destruct (Z.eqb_spec t 0) as [->|Ht]; cbn [andb].
  2: { mred. apply IH; [lia|done| |intros; apply Hall; by right|done..]. by apply elem_of_cons in Hin as [|]. }
  assert (d = server_name_ext sni) as -> by (apply Hall; by left).
  assert (Hs : length (server_name_ext sni) = (5 + length sni)%nat).
  { unfold server_name_ext, put_u16. rewrite !length_app, !length_be_bytes. cbn. lia. }
  assert (0 < length sni)%nat by (destruct sni; [done|cbn; lia]).
  destruct Hx as [_ Hz]. cbn [snd] in Hz. unfold zlen in Hz. pose proof (zlen_nonneg sni).
  assert (zlen sni < 2 ^ 16) by (unfold zlen; lia).
  apply slice_Ok_inv in H3 as [_ H3].
  assert (Hsn : drop (pos + 4) data = server_name_ext sni ++ tlvs l).
  { rewrite <- (take_drop (length (server_name_ext sni)) (drop (pos + 4) data)), drop_drop, H4.
    f_equal. rewrite H3 at 2. f_equal. lia. }
  rewrite Hs in *. rewrite (proj2 (Nat.ltb_lt _ _)) by lia.
  unfold server_name_ext in Hsn. rewrite <- !app_assoc in Hsn.
  pose proof (cur_skip _ _ _ _ 2 Hsn eq_refl) as C1. cbn [app] in C1.
  pose proof (cur_skip _ [0] _ _ 1 C1 eq_refl) as C2. rewrite <- Nat.add_assoc in C2.
  rewrite as_u16_id in C2 by lia.
  pose proof (cur_skip _ _ _ _ 2 C2 eq_refl) as C3. rewrite <- Nat.add_assoc in C3.
  rewrite (cur_idx _ _ _ _ C1). mred. eval_eqb.
  rewrite (cur_u16 _ _ _ _ C2) by (unfold in_u16; lia). mred.
  rewrite zlen_to_nat, (proj2 (Nat.leb_le _ _)) by lia.
  rewrite (cur_slice data sni (tlvs l)); [|lia|done|done]. mred. by rewrite Hutf.
Qed.

(** Sniffing finds the server name: on any bytes [tls_sni] finishes without
    panicking, and on the hello that the client builds for a non-empty host name,
    from any profile that lists the server name extension and with any GREASE and
    key share, it finds that name. *)
Theorem sniff_tls_server_name :
  (forall data, no_panic (tls_sni data)) /\
  forall p sni random session_id x25519 secp draws generated,
    let hello := build_with_additional_key_share p sni random session_id x25519 secp draws generated in
    Forall in_u16 (extensions p) -> 0x0000 ∈ extensions p ->
    length random = 32%nat -> length session_id = 32%nat ->
    length (default generated x25519) = 32%nat ->
    sni <> [] -> utf8_valid sni = true -> zlen hello < 2 ^ 16 + 5 ->
    tls_sni hello = Ok sni.
Proof.
  split; [apply tls_sni_no_panic|].
  intros p sni random sid x25519 secp draws generated hello Hp H0 Hran Hsid Hkey Hne Hutf Hz.
  destruct (hello_sizes p sni random sid x25519 secp draws generated Hran Hsid Hkey Hz) as (Hs1 & Hs2 & Hs3).
  pose proof (hello_exts_ok p sni random sid x25519 secp draws generated Hran Hsid Hkey Hz Hp) as Hok.
  pose proof (hello_layout p sni random sid x25519 secp draws generated Hran Hsid Hkey Hz) as Hlay.
  fold hello in Hlay. set (exts := hello_exts p sni x25519 secp draws generated) in *.
  set (suites := hello_suites p draws) in *. set (hs := hello_header _ _ _ _ _ _ _ _) in *.
  assert (Hhs : length hs = 6%nat) by reflexivity.
  pose proof (layout_session_id hs random sid suites (zlen (tlvs exts)) (tlvs exts) Hhs Hran Hsid) as L1.
  pose proof (layout_suites hs random sid suites (zlen (tlvs exts)) (tlvs exts) Hhs Hran Hsid) as L2.
  destruct (layout_exts hs random sid suites (zlen (tlvs exts)) (tlvs exts) Hhs Hran Hsid) as [L3 L4].
  rewrite <- Hlay in L1, L2, L3, L4. rewrite drop_drop in L1, L2, L3, L4.
  pose proof (zlen_nonneg suites). pose proof (zlen_nonneg (tlvs exts)).
  assert (Hlen : length hello = (82 + length suites + length (tlvs exts))%nat).
  { fold hello in Hs3. unfold zlen in Hs3. lia. }
  unfold tls_sni. rewrite (proj2 (Nat.ltb_ge _ _)) by lia.
  change (idx hello 0) with (Ok (E:=unit) 0x16). mred. eval_eqb. mred.
  rewrite (proj2 (Nat.leb_gt _ _)) by lia. change (idx hello 5) with (Ok (E:=unit) 1). mred. eval_eqb. mred.
  change (5 + 4 + (2 + 32))%nat with (5 + 38)%nat. rewrite (proj2 (Nat.leb_gt _ _)) by lia.
  rewrite (cur_idx _ _ _ _ L1). mred. change (5 + 38 + (1 + Z.to_nat 32))%nat with (5 + 71)%nat.
  rewrite (proj2 (Nat.ltb_ge _ _)) by lia.
  rewrite (cur_u16 _ _ _ _ L2) by (unfold in_u16; lia). mred. rewrite zlen_to_nat.
  replace (5 + 71 + (2 + length suites))%nat with (5 + (73 + length suites))%nat by lia.
  rewrite (proj2 (Nat.leb_gt _ _)) by lia. rewrite (cur_idx _ _ _ _ L3). mred.
  change (1 + Z.to_nat 1)%nat with 2%nat.
  pose proof (cur_skip _ [1; 0] _ _ 2 L3 eq_refl) as L3'.
  rewrite (proj2 (Nat.ltb_ge _ _)) by lia. rewrite (cur_u16 _ _ _ _ L3') by (unfold in_u16; lia). mred.
  rewrite zlen_to_nat.
  apply sni_loop_tlvs with (l := exts); [lia|lia| |done| | |done|done].
  - by replace (5 + (73 + length suites) + 2 + 2)%nat with (5 + (77 + length suites))%nat by lia.
  - by apply hello_has.
  - intros d Hd. apply hello_ext in Hd as ->; [|by left]. reflexivity.
Qed.

Lemma sniff_tls_server_name_witness : tls_sni chrome_hello = Ok (str "www.example.com").
Proof.
  apply (proj2 sniff_tls_server_name).
  - refine (bool_decide_unpack (Forall _ _) _). vm_compute. exact I.
  - apply list_elem_of_here.
  - reflexivity.
  - reflexivity.
  - reflexivity.
  - discriminate.
  - reflexivity.
  - vm_compute. reflexivity.
Defined.

(** * Hosts *)

Lemma split_on_app c x rest : c ∉ x -> split_on c (x ++ c :: rest) = x :: split_on c rest.
Proof.
  induction x as [|b x IH]; intros Hx; cbn [app split_on]; [by rewrite Z.eqb_refl|].
  apply not_elem_of_cons in Hx as [Hb Hx]. rewrite (proj2 (Z.eqb_neq b c)) by done. by rewrite IH.
Qed.

Lemma split_on_none c x : c ∉ x -> split_on c x = [x].
Proof.
  induction x as [|b x IH]; intros Hx; cbn [split_on]; [done|].
  apply not_elem_of_cons in Hx as [Hb Hx]. rewrite (proj2 (Z.eqb_neq b c)) by done. by rewrite IH.
Qed.

Lemma split_on_cons c s : exists p ps, split_on c s = p :: ps.
Proof. induction s as [|b s (p & ps & IH)]; cbn; [by eexists _, _|]. rewrite IH. case_match; by eexists _, _. Qed.

Definition CRLF : bytes := [13; 10].

Lemma lines_crlf x rest : 10 ∉ x -> lines (x ++ CRLF ++ rest) = x :: lines rest.
Proof.
  intros Hx. unfold lines, CRLF. cbn [app].
  replace (x ++ 13 :: 10 :: rest) with ((x ++ [13]) ++ 10 :: rest) by (by rewrite <- app_assoc).
  rewrite split_on_app by (rewrite elem_of_app, list_elem_of_singleton; naive_solver).
  destruct (split_on_cons 10 rest) as (p & ps & ->). cbn [pieces_lines]. f_equal.
  unfold strip_cr. rewrite last_snoc. cbn [Z.eqb Pos.eqb].
  by rewrite length_app, Nat.add_sub, take_app_length.
Qed.

(** A visible ASCII character. *)
Definition graphic (b : Z) : Prop := 33 <= b <= 126.

Lemma trim_start_stop fuel ws b s :
  Forall (fun w => exists x w', w = x :: w' /\ x <> b) ws -> trim_start fuel ws (b :: s) = b :: s.
Proof.
  intros Hws. destruct fuel as [|fuel]; [done|]. cbn [trim_start].
  destruct (list_find _ ws) as [[i w]|] eqn:Hfind; [|done]. exfalso.
  apply list_find_Some in Hfind as (Hw & Hp & _). apply list_elem_of_lookup_2 in Hw.
  rewrite Forall_forall in Hws. destruct (Hws _ Hw) as (x & w' & -> & Hx).
  unfold is_prefix in Hp. bool_hyps. cbn in Hp. congruence.
Qed.

Ltac head_of_all := repeat (apply Forall_cons; split; [eexists _, _; split; [reflexivity|lia]|]); constructor.

Lemma whitespace_heads b : graphic b ->
  Forall (fun w => exists x w', w = x :: w' /\ x <> b) whitespace /\
  Forall (fun w => exists x w', w = x :: w' /\ x <> b) (list_basics.list.reverse <$> whitespace).
Proof.
  unfold graphic. intros Hb.
  change whitespace with ([[9]; [10]; [11]; [12]; [13]; [32]; [194; 133]; [194; 160];
    [225; 154; 128]; [226; 128; 128]; [226; 128; 129]; [226; 128; 130]; [226; 128; 131];
    [226; 128; 132]; [226; 128; 133]; [226; 128; 134]; [226; 128; 135]; [226; 128; 136];
    [226; 128; 137]; [226; 128; 138]; [226; 128; 168]; [226; 128; 169]; [226; 128; 175];
    [226; 129; 159]; [227; 128; 128]]).
  split; cbn [fmap list_fmap]; head_of_all.
Qed.

(** One space before a value, and no space inside it. *)
Lemma trim_value v : v <> [] -> Forall graphic v -> trim (32 :: v) = v.
Proof.
  intros Hne Hv. unfold trim. destruct v as [|b v]; [done|].
  assert (Hstart : trim_start (length (32 :: b :: v)) whitespace (32 :: b :: v) = b :: v).
  { inversion Hv as [|? ? Hb _]; subst. cbn [length trim_start].
    replace (list_find _ whitespace) with (Some (5%nat, [32])) by reflexivity. cbn [length drop].
    by apply (trim_start_stop (S (length v))), whitespace_heads. }
  rewrite Hstart. destruct (list_basics.list.reverse (b :: v)) as [|c r] eqn:Hr.
  { apply (f_equal length) in Hr. rewrite length_reverse in Hr. done. }
  rewrite trim_start_stop; [by rewrite <- Hr, reverse_involutive|].
  apply whitespace_heads. rewrite Forall_forall in Hv. apply Hv. rewrite <- elem_of_reverse, Hr. by left.
Qed.

(** The header lines that the scan passes over. *)
Definition other_header (h : bytes) : Prop :=
  (10 ∉ h) /\ h <> [] /\ strip_str (str "host:") (ascii_lower <$> h) = None.

Definition header_lines (hs : list bytes) : bytes := concat ((fun h => h ++ CRLF) <$> hs).

Lemma lines_headers hs rest :
  Forall other_header hs -> lines (header_lines hs ++ rest) = hs ++ lines rest.
Proof.
  induction 1 as [|h hs (Hh & _) _ IH]; [done|]. unfold header_lines in *. cbn [fmap list_fmap concat].
  rewrite <- !app_assoc. rewrite lines_crlf by done. cbn [app]. by rewrite IH.
Qed.

Lemma host_scan_headers hs ls : Forall other_header hs -> host_scan (hs ++ ls) = host_scan ls.
Proof.
  induction 1 as [|h hs (_ & Hne & Hh) _ IH]; [done|]. cbn [app host_scan].
  by rewrite bool_decide_eq_false_2, Hh by done.
Qed.

Lemma ascii_lower_graphic b : graphic b -> graphic (ascii_lower b).
Proof. unfold graphic, ascii_lower, is_ascii_uppercase. case_match; bool_hyps; lia. Qed.

Lemma host_scan_host name host port ls :
  ascii_lower <$> name = str "host" -> host <> [] -> Forall graphic host -> 58 ∉ host ->
  (port = [] \/ exists p, port = 58 :: p) -> Forall graphic port ->
  host_scan ((name ++ [58; 32] ++ host ++ port) :: ls) = Ok (ascii_lower <$> host).
Proof.
  intros Hname Hne Hhost Hcolon Hport Hgp. cbn [host_scan].
  rewrite bool_decide_eq_false_2 by (by destruct name).
  rewrite fmap_app, Hname. cbn [fmap list_fmap app].
  assert (Hs : forall v, strip_str (str "host:") (str "host" ++ ascii_lower 58 :: v) = Some v) by reflexivity.
  rewrite Hs. change (ascii_lower 32) with 32.
  assert (Hg : Forall graphic (ascii_lower <$> host ++ port)).
  { apply Forall_fmap, Forall_app. split; eapply Forall_impl; try eassumption; apply ascii_lower_graphic. }
  rewrite trim_value; [|by destruct host|done]. rewrite fmap_app.
  assert (Hnc : 58 ∉ ascii_lower <$> host).
  { intros (b & Hb & Hin)%list_elem_of_fmap. apply Hcolon.
    replace 58 with b; [done|]. unfold ascii_lower, is_ascii_uppercase in Hb. revert Hb. case_match; bool_hyps; lia. }
  assert (Hsplit : head (split_on 58 ((ascii_lower <$> host) ++ (ascii_lower <$> port))) = Some (ascii_lower <$> host)).
  { destruct Hport as [->|(p & ->)]; cbn [fmap list_fmap].
    - by rewrite app_nil_r, split_on_none.
    - change (ascii_lower 58) with 58. by rewrite split_on_app. }
  rewrite Hsplit. cbn [default]. rewrite bool_decide_eq_false_2 by (by destruct host). done.
Qed.

(** Sniffing finds the host of an HTTP request: after a request line with one of
    the methods it knows and any headers that are not [Host], the value of the
    [Host] header, whatever the case of its name, gives the host in lower case and
    without a port. *)
Theorem sniff_http_host m target hs name host port rest :
  m ∈ http_methods -> 10 ∉ target -> Forall other_header hs ->
  ascii_lower <$> name = str "host" -> host <> [] -> Forall graphic host -> 58 ∉ host ->
  (port = [] \/ exists p, port = 58 :: p) -> Forall graphic port ->
  let request := m ++ target ++ CRLF ++ header_lines hs ++
                 (name ++ [58; 32] ++ host ++ port) ++ CRLF ++ rest in
  utf8_valid request = true -> http_host request = Ok (ascii_lower <$> host).
Proof.
  intros Hm Ht Hhs Hname Hne Hhost Hcolon Hport Hgp request Hutf. unfold http_host. rewrite Hutf. cbn [negb].
  assert (Hnolf : forall l, Forall graphic l -> 10 ∉ l).
  { intros l Hl Hin. rewrite Forall_forall in Hl. specialize (Hl _ Hin). unfold graphic in Hl. lia. }
  assert (Hm10 : 10 ∉ m).
  { revert Hm. apply Forall_forall with (P := fun m => 10 ∉ m).
    refine (bool_decide_unpack (Forall (fun m => 10 ∉ m) http_methods) _). vm_compute. exact I. }
  assert (Hn10 : 10 ∉ name).
  { intros Hin. assert (ascii_lower 10 ∈ ascii_lower <$> name) by (by apply list_elem_of_fmap_2).
    rewrite Hname in H. revert H. refine (bool_decide_unpack (_ ∉ _) _). vm_compute. exact I. }
  subst request. rewrite app_assoc, lines_crlf by (rewrite elem_of_app; tauto).
  rewrite lines_headers by done. rewrite lines_crlf.
  2: { rewrite !elem_of_app, !elem_of_cons. intros [|[[|[|]]|[|]]]; try done.
       - by apply not_elem_of_nil in H.
       - by apply (Hnolf host).
       - by apply (Hnolf port). }
  assert (existsb (fun m' => is_prefix m' (m ++ target)) http_methods = true) as ->.
  { apply existsb_exists. exists m. split; [by apply list_elem_of_In|]. unfold is_prefix.
    apply bool_decide_eq_true. apply take_app_length. }
  cbn [negb]. rewrite host_scan_headers by done. by apply host_scan_host.
Qed.

Lemma sniff_http_host_witness :
  http_host (str "GET " ++ str "/ HTTP/1.1" ++ CRLF ++ header_lines [str "Accept: */*"] ++
    (str "HOST" ++ [58; 32] ++ str "Example.com" ++ str ":8080") ++ CRLF ++ CRLF) =
  Ok (str "example.com").
Proof.
  apply (sniff_http_host (str "GET ") (str "/ HTTP/1.1") [str "Accept: */*"] (str "HOST")
    (str "Example.com") (str ":8080") CRLF).
  - apply list_elem_of_here.
  - refine (bool_decide_unpack (_ ∉ _) _). vm_compute. exact I.
  - constructor; [|constructor]. split; [refine (bool_decide_unpack (_ ∉ _) _); vm_compute; exact I|].
    split; [discriminate|reflexivity].
  - reflexivity.
  - discriminate.
  - unfold graphic. refine (bool_decide_unpack (Forall _ _) _). vm_compute. exact I.
  - refine (bool_decide_unpack (_ ∉ _) _). vm_compute. exact I.
  - right. by eexists.
  - unfold graphic. refine (bool_decide_unpack (Forall _ _) _). vm_compute. exact I.
  - vm_compute. reflexivity.
Defined.

(** A [Host] header with an IPv6 literal is cut at the first colon inside the
    brackets: a request to an IPv6 address, sniffed for HTTP, is redirected to the
    host name that is left, an opening bracket and the first group. *)
Theorem sniff_http_ipv6_literal ip port group tail :
  Forall graphic group -> 58 ∉ group -> Forall graphic tail ->
  let request := str "GET / HTTP/1.1" ++ CRLF ++
                 (str "Host" ++ [58; 32] ++ (91 :: group) ++ 58 :: tail) ++ CRLF ++ CRLF in
  let config := mkSniffing true [str "http"] false false in
  utf8_valid request = true ->
  exists r, analyze_peek request config = Ok r /\
    apply_dest_override (Ipv6 ip port) r config = Domain (91 :: (ascii_lower <$> group)) port.
Proof.
  intros Hg Hcolon Ht request config Hutf.
  assert (Hh : http_host request = Ok (ascii_lower <$> 91 :: group)).
  { unfold http_host. rewrite Hutf. cbn [negb]. subst request.
    assert (Hnolf : forall l, Forall graphic l -> 10 ∉ l).
    { intros l Hl Hin. rewrite Forall_forall in Hl. specialize (Hl _ Hin). unfold graphic in Hl. lia. }
    rewrite lines_crlf by (refine (bool_decide_unpack (_ ∉ _) _); vm_compute; exact I).
    rewrite lines_crlf.
    2: { assert (10 ∉ str "Host") by (refine (bool_decide_unpack (_ ∉ _) _); vm_compute; exact I).
         specialize (Hnolf _ Hg) as Hg'. specialize (Hnolf _ Ht) as Ht'.
         rewrite !elem_of_app, !elem_of_cons, !elem_of_nil. naive_solver lia. }
    change (existsb _ http_methods) with true. cbn [negb].
    apply (host_scan_host (str "Host") (91 :: group) (58 :: tail)); [reflexivity|done| | | |].
    - constructor; [unfold graphic; lia|done].
    - apply not_elem_of_cons. split; [lia|done].
    - right. by eexists.
    - constructor; [unfold graphic; lia|done]. }
  exists (mkSniff (Some (str "http")) (Some (ascii_lower <$> 91 :: group))).
  split; [|reflexivity]. unfold analyze_peek. by rewrite Hh.
Qed.

Lemma sniff_http_ipv6_literal_witness :
  exists r, analyze_peek (str "GET / HTTP/1.1" ++ CRLF ++
      (str "Host" ++ [58; 32] ++ (91 :: str "2001") ++ 58 :: str "db8::1]:8080") ++ CRLF ++ CRLF)
      (mkSniffing true [str "http"] false false) = Ok r /\
    apply_dest_override (Ipv6 (replicate 16 7) 8080) r (mkSniffing true [str "http"] false false) =
      Domain (str "[2001") 8080.
Proof.
  apply (sniff_http_ipv6_literal (replicate 16 7) 8080 (str "2001") (str "db8::1]:8080")).
  - unfold graphic. refine (bool_decide_unpack (Forall _ _) _). vm_compute. exact I.
  - refine (bool_decide_unpack (_ ∉ _) _). vm_compute. exact I.
  - unfold graphic. refine (bool_decide_unpack (Forall _ _) _). vm_compute. exact I.
  - vm_compute. reflexivity.
Defined.

(** * The sniffing stage *)

Section Stage.
Context {S : Type} `{ReadSpec S}.
Context {N L : Type} `{HN : Ipv4NetLaws N} `{HL : LruLaws L unit}.

(** The peek of the stage, with the payload that was read early or from the stream. *)
Lemma sniff_peek_incoming polls cfg early (s : S) :
  match (match early with
         | Some payload => if negb (bool_decide (payload = [])) && negb (metadata_only cfg)
             then sniff ← analyze_peek payload cfg; Ok (inl s, sniff)
             else sniff_stream polls s cfg
         | None => sniff_stream polls s cfg end) with
  | Ok (s', _) => sniffed_incoming s' = incoming s
  | Err _ => True
  | Panic => False
  end.
Proof.
  destruct early as [payload|]; [|apply sniff_stream_spec]. destruct (_ && _); [|apply sniff_stream_spec].
  by destruct (analyze_peek_ok payload cfg) as [r ->].
Qed.

(** The sniffing stage is transparent to the connection: it never panics, what
    the relay will read is what the client sends, whether the peek succeeded, timed
    out or was not made; the port never changes, a domain destination never
    changes, and with [routeOnly] no destination does. *)
Theorem sniff_stage_transparent polls cfg (dns : option (option (FakeIpPool N L))) early dest (s : S) :
  match sniff_stage polls cfg dns early dest s with
  | Ok (dest', s', sniff) =>
      sniffed_incoming s' = incoming s /\ port dest' = port dest /\
      (is_domain dest = true -> dest' = dest) /\
      (dest' = dest \/ exists c d, cfg = Some c /\ route_only c = false /\
         sn_domain sniff = Some d /\ dest' = Domain d (port dest))
  | Err _ => True
  | Panic => False
  end.
Proof.
  unfold sniff_stage. destruct cfg as [cfg|]; [|cbn; auto].
  destruct (enabled cfg) eqn:Hen; [|cbn; auto].
  pose proof (sniff_peek_incoming polls cfg early s) as Hsn.
  destruct (match early with Some _ => _ | None => _ end) as [[s' r]|e|]; mred; try done.
  set (r' := if _ && _ then _ else r). split; [done|].
  unfold apply_dest_override. rewrite Hen. cbn [negb orb]. destruct (route_only cfg) eqn:Hro; [auto|].
  destruct (sn_domain r') as [d|] eqn:Hd; [|auto].
  destruct dest; cbn; try (case_match; cbn); auto 10.
  all: split_and!; try done; right; exists cfg, d; auto.
Qed.

(** FakeDNS round trip: a connection to the address that the FakeIP pool gave out
    for a domain, however many allocations came before, is sent to that domain and
    port when the inbound sniffs for FakeDNS and nothing in the payload names
    another host. *)
Theorem sniff_fakedns_roundtrip polls (cidr : bytes) (p0 p p' : FakeIpPool N L) d i prt (s : S) :
  FakeIpPool_new cidr = Ok p0 -> usable p0 -> pool_reach p0 p -> allocate p d = (p', i) ->
  let cfg := mkSniffing true [str "fakedns"] false false in
  match sniff_stage polls (Some cfg) (Some (Some p')) None (Ipv4 (be_bytes 4 i) prt) s with
  | Ok (dest', s', _) => dest' = Domain d prt /\ sniffed_incoming s' = incoming s
  | Err _ => exists s' e, read_within polls s MAX_SNIFF = (s', Some (Err e))
  | Panic => False
  end.
Proof.
  intros Hnew Hu Hr Ha cfg. destruct (pool_reach_ok p0 p (pool_ok_new _ _ Hnew Hu) Hr) as [Hp _].
  pose proof (allocate_ok p d Hp) as Hal. rewrite Ha in Hal. destruct Hal as (Hok & _ & Hf & _).
  pose proof (ok_below _ Hok _ _ Hf) as Hb. pose proof (ok_bound _ Hok) as Hbo.
  pose proof (v4_range (network p')) as Hrg.
  assert (Hrev : Dns.reverse p' i = Some d) by (by apply (ok_inverse _ Hok)).
  assert (Hfake : sniff_fakedns (Ipv4 (be_bytes 4 i) prt) (Some p') =
    mkSniff (Some (str "fakedns")) (Some d)).
  { unfold sniff_fakedns, reverse_fake. cbn [mbind option_bind].
    rewrite be_bytes_4_val by (unfold in_u32; lia). by rewrite Hrev. }
  unfold sniff_stage. cbn [enabled cfg]. pose proof (sniff_stream_spec polls s cfg) as Hsp.
  destruct (sniff_stream polls s cfg) as [[s' r]|e|] eqn:Hs; mred; [|..|done].
  - assert (sn_domain r = None) as ->.
    { unfold sniff_stream in Hs. cbn [enabled metadata_only cfg negb orb] in Hs.
      destruct (read_within polls s MAX_SNIFF) as [s1 [[c|e|]|]]; mred in Hs; try done;
        case_bool_decide; simplify_eq; try done.
      assert (analyze_peek c cfg = Ok SniffResult_default) as Hap by reflexivity.
      rewrite Hap in Hs. mred in Hs. by simplify_eq. }
    rewrite Hfake. split; [reflexivity|done].
  - unfold sniff_stream in Hs. cbn [enabled metadata_only cfg negb orb] in Hs.
    destruct (read_within polls s MAX_SNIFF) as [s1 [[c|e'|]|]]; mred in Hs; try done;
      [|by eexists _, _].
    by case_bool_decide; simplify_eq.
Qed.
End Stage.

(** A client that connects to the fake address of [a.com] and is silent at first. *)
Lemma sniff_fakedns_roundtrip_witness :
  match sniff_stage 3 (Some (mkSniffing true [str "fakedns"] false false))
    (Some (Some (fst (allocate small_pool (str "a.com"))))) None
    (Ipv4 (be_bytes 4 3323068417) 443) (mkScript [None; Some [1; 2; 3]] [] []) with
  | Ok (dest, s, _) => dest = Domain (str "a.com") 443 /\ sniffed_incoming s = [1; 2; 3]
  | _ => False
  end.
Proof.
  assert (Hok : is_ok (sniff_stage 3 (Some (mkSniffing true [str "fakedns"] false false))
    (Some (Some (fst (allocate small_pool (str "a.com"))))) None
    (Ipv4 (be_bytes 4 3323068417) 443) (mkScript [None; Some [1; 2; 3]] [] [])) = true)
    by (vm_compute; reflexivity).
  pose proof (sniff_fakedns_roundtrip 3 (str "198.18.0.0/29") small_pool small_pool
    (fst (allocate small_pool (str "a.com"))) (str "a.com") 3323068417
    443 (mkScript [None; Some [1; 2; 3]] [] [])) as H.
  cbv zeta in H. revert Hok H. generalize (sniff_stage 3 (Some (mkSniffing true [str "fakedns"] false false))
    (Some (Some (fst (allocate small_pool (str "a.com"))))) None
    (Ipv4 (be_bytes 4 3323068417) 443) (mkScript [None; Some [1; 2; 3]] [] [])).
  intros [[[d s] sn]|e|]; intros Hok H; try discriminate Hok.
  apply H; [reflexivity|unfold usable; cbn; lia|constructor|vm_compute; reflexivity].
Defined.

Lemma sniff_stage_transparent_witness :
  match sniff_stage 3 (Some (mkSniffing true [str "tls"] false false))
    (None : option (option (FakeIpPool Range (ListLru unit)))) None (Ipv4 [1; 2; 3; 4] 443)
    (mkScript [None; Some chrome_hello; Some [9]] [] []) with
  | Ok (dest, s, _) => dest = Domain (str "www.example.com") 443 /\ sniffed_incoming s = chrome_hello ++ [9]
  | _ => False
  end.
Proof.
  pose proof (sniff_stage_transparent 3 (Some (mkSniffing true [str "tls"] false false))
    (None : option (option (FakeIpPool Range (ListLru unit)))) None (Ipv4 [1; 2; 3; 4] 443)
    (mkScript [None; Some chrome_hello; Some [9]] [] [])) as H.
  destruct (sniff_stage 3 _ _ _ _ _) as [[[d s] sn]|e|] eqn:E.
  - destruct H as (H & _). split; [|exact H].
    vm_compute in E. injection E as <- _ _. reflexivity.
  - discriminate E.
  - exact H.
Defined.
