(* ===== verification/ShadowTls.v ===== *)
(** * ShadowTLS v3

    [blackwire-transport] [shadowtls/v3.rs]: the signature in the session id of a
    ClientHello, data frames with a rolling MAC, tainted backend records, and
    [V3Stream]; with the record relay of the handshake ([shadowtls/handshake.rs]).
    HMAC-SHA1 and SHA-256 are parameters. *)

From S2P Require Import Prelude Common AsyncIo Vision ClientHello.

(** ** The cryptographic primitives

    [Hmac<Sha1>] (crates [hmac], [sha1]) and [Sha256] (crate [sha2]). *)
Class Crypto : Type := {
  ShadowHmac : Type;
  new_from_slice : bytes -> ShadowHmac;
  update : ShadowHmac -> bytes -> ShadowHmac;
  finalize : ShadowHmac -> bytes;
  sha256 : bytes -> bytes
}.

(** The output of HMAC-SHA1 is twenty bytes long. *)
Class CryptoLaws `{Crypto} : Prop :=
  finalize_length m : length (finalize m) = 20%nat.

Definition TLS_HEADER_LEN : nat := 5.
Definition TLS_APPLICATION_DATA : Z := 0x17.
Definition TLS_HANDSHAKE : Z := 0x16.
Definition CLIENT_HELLO : Z := 0x01.
Definition SESSION_ID_LEN : nat := 32.
Definition SESSION_ID_RANDOM_LEN : nat := 28.
Definition TAG_LEN : nat := 4.
Definition MAX_TLS_PLAINTEXT : nat := Z.to_nat 16384.

Definition READ_PHASE_PLAINTEXT : Z := 0.
Definition READ_PHASE_HEADER : Z := 1.
Definition READ_PHASE_BODY : Z := 2.

Inductive V3FrameKind : Type := ResidualHandshake | Data.

Record ClientHelloSession : Type := mkSession {
  cs_session_id : bytes;
  cs_session_id_offset : nat
}.

(** ** Records *)

Definition session_id_offset (record : bytes) : result nat :=
  if (length record <? TLS_HEADER_LEN + 4)%nat
  then Err (Protocol "ShadowTLS v3 ClientHello record too short") else
  ty ← idx record 0;
  if negb (ty =? TLS_HANDSHAKE)
  then Err (Protocol "ShadowTLS v3 expected TLS handshake record") else
  record_len ← idx16 record 3;
  let record_len := Z.to_nat record_len in
  if (length record <? TLS_HEADER_LEN + record_len)%nat
  then Err (Protocol "ShadowTLS v3 truncated ClientHello record") else
  body ← slice record TLS_HEADER_LEN (TLS_HEADER_LEN + record_len);
  if (length body <? 43)%nat
  then Err (Protocol "ShadowTLS v3 expected ClientHello handshake") else
  b0 ← idx body 0;
  if negb (b0 =? CLIENT_HELLO)
  then Err (Protocol "ShadowTLS v3 expected ClientHello handshake") else
  b1 ← idx body 1; b2 ← idx body 2; b3 ← idx body 3;
  let declared := Z.lor (Z.lor (Z.shiftl b1 16) (Z.shiftl b2 8)) b3 in
  if negb (declared + 4 =? zlen body)
  then Err (Protocol "ShadowTLS v3 ClientHello length mismatch") else
  let pos := (4 + 2 + 32)%nat in
  if (length body <=? pos)%nat
  then Err (Protocol "ShadowTLS v3 missing SessionID length") else
  session_id_len ← idx body pos;
  let pos := (pos + 1)%nat in
  if negb (session_id_len =? Z.of_nat SESSION_ID_LEN)
  then Err (Protocol "ShadowTLS v3 SessionID must be 32 bytes") else
  if (length body <? pos + SESSION_ID_LEN)%nat
  then Err (Protocol "ShadowTLS v3 truncated SessionID") else
  Ok (TLS_HEADER_LEN + pos)%nat.

Definition application_payload (record : bytes) : result bytes :=
  if (length record <? TLS_HEADER_LEN)%nat
  then Err (Protocol "ShadowTLS v3 TLS record too short") else
  ty ← idx record 0;
  if negb (ty =? TLS_APPLICATION_DATA)
  then Err (Protocol "ShadowTLS v3 expected ApplicationData record") else
  len ← idx16 record 3;
  let len := Z.to_nat len in
  if (length record <? TLS_HEADER_LEN + len)%nat
  then Err (Protocol "ShadowTLS v3 truncated ApplicationData record") else
  slice record TLS_HEADER_LEN (TLS_HEADER_LEN + len).

Definition record_payload (record : bytes) : res unit bytes :=
  if (length record <? TLS_HEADER_LEN)%nat then Err tt else
  len ← idx16 record 3;
  let len := Z.to_nat len in
  if (length record <? TLS_HEADER_LEN + len)%nat then Err tt else
  slice record TLS_HEADER_LEN (TLS_HEADER_LEN + len).

Definition server_random_from_server_hello_record (record : bytes) : res unit bytes :=
  if (length record <? TLS_HEADER_LEN + 38)%nat then Err tt else
  ty ← idx record 0;
  if negb (ty =? TLS_HANDSHAKE) then Err tt else
  payload ← record_payload record;
  if negb (bool_decide (head payload = Some 0x02)) || (length payload <? 38)%nat then Err tt else
  slice payload 6 38.

Definition encode_tls_record (record_type : Z) (payload : bytes) : bytes :=
  let len := as_u16 (zlen payload) in
  [record_type; 0x03; 0x03; as_u8 (Z.shiftr len 8); as_u8 len] ++ payload.

(** [buf[pos..pos + c.len()].copy_from_slice(c)] *)
Definition splice (pos : nat) (c buf : bytes) : bytes :=
  take pos buf ++ c ++ drop (pos + length c) buf.

Section V3.
Context `{Crypto}.

Definition first_tag (mac : ShadowHmac) : bytes := take TAG_LEN (finalize mac).

Definition next_tag (mac : ShadowHmac) (data : bytes) : bytes := first_tag (update mac data).

Definition xor_with_handshake_mask (data psk server_random : bytes) : bytes :=
  let mask := sha256 (psk ++ server_random) in
  imap (fun i b => Z.lxor b (default 0 (mask !! (i mod length mask)%nat))) data.

(** ** The session id *)

Definition client_hello_hmac (record psk : bytes) : result bytes :=
  offset ← session_id_offset record;
  body ← slice record TLS_HEADER_LEN (length record);
  let sid_offset_in_handshake := (offset - TLS_HEADER_LEN)%nat in
  let zero_start := (sid_offset_in_handshake + SESSION_ID_RANDOM_LEN)%nat in
  let zero_end := (sid_offset_in_handshake + SESSION_ID_LEN)%nat in
  before ← slice body 0 zero_start;
  after ← slice body zero_end (length body);
  let mac := update (update (update (new_from_slice psk) before)
               (replicate (SESSION_ID_LEN - SESSION_ID_RANDOM_LEN) 0)) after in
  Ok (first_tag mac).

(** [fill] are the 28 random bytes; the signed record comes back with the session. *)
Definition sign_client_hello_session_id (record psk fill : bytes) :
    result (bytes * ClientHelloSession) :=
  offset ← session_id_offset record;
  let record := splice offset fill record in
  let record := splice (offset + SESSION_ID_RANDOM_LEN)
                  (replicate (SESSION_ID_LEN - SESSION_ID_RANDOM_LEN) 0) record in
  tag ← client_hello_hmac record psk;
  let record := splice (offset + SESSION_ID_RANDOM_LEN) tag record in
  session_id ← slice record offset (offset + SESSION_ID_LEN);
  Ok (record, mkSession session_id offset).

Definition verify_client_hello_session_id (record psk : bytes) : result ClientHelloSession :=
  offset ← session_id_offset record;
  tag ← client_hello_hmac record psk;
  candidate ← slice record (offset + SESSION_ID_RANDOM_LEN) (offset + SESSION_ID_LEN);
  if negb (bool_decide (tag = candidate)) then Err AuthFailed else
  session_id ← slice record offset (offset + SESSION_ID_LEN);
  Ok (mkSession session_id offset).

(** ** Frames *)

Record V3FrameEncoder : Type := mkEncoder { enc_mac : ShadowHmac }.

Definition V3FrameEncoder_new (psk server_random direction : bytes) : V3FrameEncoder :=
  mkEncoder (update (update (new_from_slice psk) server_random) direction).

Definition enc_client_to_server (psk server_random : bytes) : V3FrameEncoder :=
  V3FrameEncoder_new psk server_random (str "C").
Definition enc_server_to_client (psk server_random : bytes) : V3FrameEncoder :=
  V3FrameEncoder_new psk server_random (str "S").

Definition encode_application_data_into (e : V3FrameEncoder) (plaintext : bytes) :
    result (V3FrameEncoder * bytes) :=
  if (MAX_TLS_PLAINTEXT <? length plaintext)%nat
  then Err (Protocol "ShadowTLS v3 plaintext too large") else
  let tag := next_tag (enc_mac e) plaintext in
  let mac := update (update (enc_mac e) plaintext) tag in
  let body_len := as_u16 (Z.of_nat (TAG_LEN + length plaintext)) in
  Ok (mkEncoder mac,
      [TLS_APPLICATION_DATA; 0x03; 0x03; as_u8 (Z.shiftr body_len 8); as_u8 body_len] ++
      tag ++ plaintext).

Record V3FrameDecoder : Type := mkDecoder {
  data_mac : ShadowHmac;
  residual_mac : option ShadowHmac
}.

Definition residual_handshake_mac (psk server_random : bytes) : ShadowHmac :=
  update (new_from_slice psk) server_random.

Definition dec_client_to_server (psk server_random : bytes) : V3FrameDecoder :=
  mkDecoder (enc_mac (enc_client_to_server psk server_random)) None.
Definition dec_server_to_client (psk server_random : bytes) : V3FrameDecoder :=
  mkDecoder (enc_mac (enc_server_to_client psk server_random))
    (Some (residual_handshake_mac psk server_random)).

Definition verify_payload (d : V3FrameDecoder) (payload : bytes) :
    result (V3FrameDecoder * V3FrameKind) :=
  if (length payload <? TAG_LEN)%nat
  then Err (Protocol "ShadowTLS v3 ApplicationData frame too short") else
  let candidate := take TAG_LEN payload in
  let data := drop TAG_LEN payload in
  let as_data :=
    if negb (bool_decide (next_tag (data_mac d) data = candidate)) then Err AuthFailed
    else Ok (mkDecoder (update (update (data_mac d) data) candidate) None, Data) in
  match residual_mac d with
  | Some mac =>
      if bool_decide (next_tag mac data = candidate)
      then Ok (mkDecoder (data_mac d) (Some (update mac data)), ResidualHandshake)
      else as_data
  | None => as_data
  end.

Definition decode_application_data (d : V3FrameDecoder) (record : bytes) :
    result (V3FrameDecoder * (V3FrameKind * bytes)) :=
  payload ← application_payload record;
  '(d, kind) ← verify_payload d payload;
  let data := match kind with ResidualHandshake => [] | Data => drop TAG_LEN payload end in
  Ok (d, (kind, data)).

Definition taint_backend_application_data (mac : ShadowHmac) (psk server_random record : bytes) :
    result (ShadowHmac * bytes) :=
  payload ← application_payload record;
  let processed := xor_with_handshake_mask payload psk server_random in
  let tag := next_tag mac processed in
  Ok (update mac processed, encode_tls_record TLS_APPLICATION_DATA (tag ++ processed)).

(** ** The stream *)

Record V3Stream (S : Type) : Type := mkV3 {
  v3_inner : S;
  v3_encoder : V3FrameEncoder;
  v3_decoder : V3FrameDecoder;
  plain_buf : bytes;
  plain_pos : nat;
  header_buf : bytes;
  header_pos : nat;
  body_buf : bytes;
  body_pos : nat;
  read_phase : Z;
  v3_write_buf : bytes;
  v3_write_pos : nat;
  write_chunk_len : nat
}.
End V3.

Arguments mkV3 {_ S}.
Arguments v3_inner {_ S}.
Arguments v3_encoder {_ S}.
Arguments v3_decoder {_ S}.
Arguments plain_buf {_ S}.
Arguments plain_pos {_ S}.
Arguments header_buf {_ S}.
Arguments header_pos {_ S}.
Arguments body_buf {_ S}.
Arguments body_pos {_ S}.
Arguments read_phase {_ S}.
Arguments v3_write_buf {_ S}.
Arguments v3_write_pos {_ S}.
Arguments write_chunk_len {_ S}.

Section V3Stream.
Context `{Crypto} {S : Type}.
Implicit Type v : V3Stream S.

Definition V3Stream_new (i : S) (e : V3FrameEncoder) (d : V3FrameDecoder) : V3Stream S :=
  mkV3 i e d [] 0 (replicate TLS_HEADER_LEN 0) 0 [] 0 READ_PHASE_HEADER [] 0 0.

Definition V3_client (i : S) (psk server_random : bytes) : V3Stream S :=
  V3Stream_new i (enc_client_to_server psk server_random) (dec_server_to_client psk server_random).

Definition client_after_residual (i : S) (psk server_random : bytes) (d : V3FrameDecoder) :
    V3Stream S :=
  V3Stream_new i (enc_client_to_server psk server_random) d.

Definition V3_server (i : S) (psk server_random : bytes) : V3Stream S :=
  V3Stream_new i (enc_server_to_client psk server_random) (dec_client_to_server psk server_random).

Definition server_after_first_client_record (i : S) (psk server_random first_client_record : bytes) :
    result (V3Stream S + PrependedStream (V3Stream S)) :=
  '(decoder, (kind, first_payload)) ←
    decode_application_data (dec_client_to_server psk server_random) first_client_record;
  match kind with
  | ResidualHandshake => Err (Protocol "ShadowTLS v3 expected first client data frame")
  | Data =>
      let stream := V3Stream_new i (enc_server_to_client psk server_random) decoder in
      Ok (if bool_decide (first_payload = []) then inl stream
          else inr (PrependedStream_new stream first_payload))
  end.

(** Updates of the reading side. *)
Definition set_v3_read (i : S) (d : V3FrameDecoder) (pb : bytes) (pp : nat) (hb : bytes) (hp : nat)
    (bb : bytes) (bp : nat) (ph : Z) v : V3Stream S :=
  mkV3 i (v3_encoder v) d pb pp hb hp bb bp ph (v3_write_buf v) (v3_write_pos v) (write_chunk_len v).

Definition set_v3_inner (i : S) v : V3Stream S :=
  mkV3 i (v3_encoder v) (v3_decoder v) (plain_buf v) (plain_pos v) (header_buf v) (header_pos v)
    (body_buf v) (body_pos v) (read_phase v) (v3_write_buf v) (v3_write_pos v) (write_chunk_len v).

(** One step of [poll_read]: its position in the loops is in [read_phase],
    [header_pos] and [body_pos].  [None] goes on with the loop. *)
Definition v3_read_step `{AsyncRead S} v (n : nat) :
    V3Stream S * option (poll (res io_error bytes)) :=
  if read_phase v =? READ_PHASE_PLAINTEXT then
    if (plain_pos v <? length (plain_buf v))%nat then
      let available := drop (plain_pos v) (plain_buf v) in
      let k := Nat.min (length available) n in
      let pos := (plain_pos v + k)%nat in
      let '(pb, pp) := if (length (plain_buf v) <=? pos)%nat then ([], 0%nat) else (plain_buf v, pos) in
      (set_v3_read (v3_inner v) (v3_decoder v) pb pp (header_buf v) (header_pos v) (body_buf v)
         (body_pos v) (read_phase v) v,
       Some (Ready (Ok (take k available))))
    else
      (set_v3_read (v3_inner v) (v3_decoder v) (plain_buf v) (plain_pos v) (header_buf v) 0
         (body_buf v) (body_pos v) READ_PHASE_HEADER v, None)
  else if read_phase v =? READ_PHASE_HEADER then
    if (header_pos v <? TLS_HEADER_LEN)%nat then
      let '(i, r) := poll_read (v3_inner v) (TLS_HEADER_LEN - header_pos v) in
      match r with
      | Ready (Ok []) => (set_v3_inner i v, Some (Ready (Err UnexpectedEof)))
      | Ready (Ok c) =>
          (set_v3_read i (v3_decoder v) (plain_buf v) (plain_pos v)
             (splice (header_pos v) c (header_buf v)) (header_pos v + length c) (body_buf v)
             (body_pos v) (read_phase v) v, None)
      | Ready (Err e) => (set_v3_inner i v, Some (Ready (Err e)))
      | Ready Panic => (set_v3_inner i v, Some (Ready Panic))
      | Pending => (set_v3_inner i v, Some Pending)
      end
    else
      match idx (E:=io_error) (header_buf v) 0, idx16 (E:=io_error) (header_buf v) 3 with
      | Ok ty, Ok len =>
          let body_len := Z.to_nat len in
          if negb (ty =? TLS_APPLICATION_DATA) then (v, Some (Ready (Err InvalidData)))
          else if (MAX_TLS_PLAINTEXT + TAG_LEN <? body_len)%nat
          then (v, Some (Ready (Err InvalidData)))
          else
            (set_v3_read (v3_inner v) (v3_decoder v) (plain_buf v) (plain_pos v) (header_buf v)
               (header_pos v) (resize body_len 0 (body_buf v)) 0 READ_PHASE_BODY v, None)
      | _, _ => (v, Some (Ready Panic))
      end
  else
    if (body_pos v <? length (body_buf v))%nat then
      let read_len := Nat.min (length (body_buf v) - body_pos v) (Z.to_nat 2048) in
      let '(i, r) := poll_read (v3_inner v) read_len in
      match r with
      | Ready (Ok []) => (set_v3_inner i v, Some (Ready (Err UnexpectedEof)))
      | Ready (Ok c) =>
          (set_v3_read i (v3_decoder v) (plain_buf v) (plain_pos v) (header_buf v) (header_pos v)
             (splice (body_pos v) c (body_buf v)) (body_pos v + length c) (read_phase v) v, None)
      | Ready (Err e) => (set_v3_inner i v, Some (Ready (Err e)))
      | Ready Panic => (set_v3_inner i v, Some (Ready Panic))
      | Pending => (set_v3_inner i v, Some Pending)
      end
    else
      match verify_payload (v3_decoder v) (body_buf v) with
      | Ok (d, ResidualHandshake) =>
          (set_v3_read (v3_inner v) d (plain_buf v) (plain_pos v) (header_buf v) 0 (body_buf v) 0
             READ_PHASE_HEADER v, None)
      | Ok (d, Data) =>
          if (length (body_buf v) =? TAG_LEN)%nat then
            (set_v3_read (v3_inner v) d (plain_buf v) (plain_pos v) (header_buf v) 0 (body_buf v) 0
               READ_PHASE_HEADER v, None)
          else
            (set_v3_read (v3_inner v) d (drop TAG_LEN (body_buf v)) 0 (header_buf v) 0 (body_buf v) 0
               READ_PHASE_PLAINTEXT v, None)
      | Err _ =>
          (set_v3_read (v3_inner v) (v3_decoder v) (plain_buf v) (plain_pos v) (header_buf v) 0
             (body_buf v) 0 READ_PHASE_HEADER v, Some (Ready (Err InvalidData)))
      | Panic => (v, Some (Ready Panic))
      end.

Fixpoint V3_poll_read `{AsyncRead S} (fuel : nat) v (n : nat) :
    option (V3Stream S * poll (res io_error bytes)) :=
  match fuel with
  | O => None
  | Datatypes.S fuel' =>
      match v3_read_step v n with
      | (v', Some r) => Some (v', r)
      | (v', None) => V3_poll_read fuel' v' n
      end
  end.

(** Updates of the writing side. *)
Definition set_v3_write (i : S) (e : V3FrameEncoder) (b : bytes) (pos chunk : nat) v : V3Stream S :=
  mkV3 i e (v3_decoder v) (plain_buf v) (plain_pos v) (header_buf v) (header_pos v) (body_buf v)
    (body_pos v) (read_phase v) b pos chunk.

(** The write loops of [poll_write] are those of [poll_drain_write_buf]. *)
Definition V3_poll_write `{AsyncWrite S} v (buf : bytes) : V3Stream S * poll (res io_error nat) :=
  if negb (bool_decide (v3_write_buf v = [])) then
    let '(i, pos, r) := drain_loop (length (v3_write_buf v)) (v3_inner v) (v3_write_buf v)
                          (v3_write_pos v) in
    match r with
    | Ready (Ok _) => (set_v3_write i (v3_encoder v) [] 0 0 v, Ready (Ok (write_chunk_len v)))
    | Ready (Err e) =>
        (set_v3_write i (v3_encoder v) (v3_write_buf v) pos (write_chunk_len v) v, Ready (Err e))
    | Ready Panic =>
        (set_v3_write i (v3_encoder v) (v3_write_buf v) pos (write_chunk_len v) v, Ready Panic)
    | Pending =>
        (set_v3_write i (v3_encoder v) (v3_write_buf v) pos (write_chunk_len v) v, Pending)
    end
  else if bool_decide (buf = []) then (v, Ready (Ok 0%nat))
  else
    let chunk_len := Nat.min (length buf) MAX_TLS_PLAINTEXT in
    match encode_application_data_into (v3_encoder v) (take chunk_len buf) with
    | Ok (e, frame) =>
        let '(i, pos, r) := drain_loop (length frame) (v3_inner v) frame 0 in
        match r with
        | Ready (Ok _) => (set_v3_write i e [] 0 0 v, Ready (Ok chunk_len))
        | Ready (Err er) => (set_v3_write i e frame pos chunk_len v, Ready (Err er))
        | Ready Panic => (set_v3_write i e frame pos chunk_len v, Ready Panic)
        | Pending => (set_v3_write i e frame pos chunk_len v, Pending)
        end
    | Err _ => (v, Ready (Err InvalidData))
    | Panic => (v, Ready Panic)
    end.

Definition V3_poll_flush `{AsyncWrite S} v : V3Stream S * poll (res io_error unit) :=
  let '(i, r) := poll_flush (v3_inner v) in (set_v3_inner i v, r).

Definition V3_poll_shutdown `{AsyncWrite S} v : V3Stream S * poll (res io_error unit) :=
  let '(i, r) := poll_shutdown (v3_inner v) in (set_v3_inner i v, r).
End V3Stream.

(** * What a wire carries *)

(** The first record of [w] and what follows it, if it is a complete frame. *)
Definition parse_record (w : bytes) : option (bytes * bytes) :=
  if (length w <? 5)%nat then None
  else if negb (bool_decide (head w = Some TLS_APPLICATION_DATA)) then None
  else
    let len := Z.to_nat (be_val (take 2 (drop 3 w))) in
    if (MAX_TLS_PLAINTEXT + TAG_LEN <? len)%nat then None
    else if (length w <? 5 + len)%nat then None
    else Some (take len (drop 5 w), drop (5 + len) w).

Lemma parse_record_shorter w body rest :
  parse_record w = Some (body, rest) -> (length rest + 5 <= length w)%nat.
Proof.
  unfold parse_record. intros Hp. repeat (case_match; try done). simplify_eq. bool_hyps.
  rewrite length_drop. lia.
Qed.

Lemma splice_length pos c buf :
  (pos + length c <= length buf)%nat -> length (splice pos c buf) = length buf.
Proof. intros. unfold splice. rewrite !length_app, length_take, length_drop. lia. Qed.

Lemma splice_take pos c buf :
  (pos + length c <= length buf)%nat -> take (pos + length c) (splice pos c buf) = take pos buf ++ c.
Proof.
  intros. unfold splice. rewrite app_assoc. apply take_app_length'.
  rewrite length_app, length_take. lia.
Qed.

Section Plain.
Context `{Crypto}.

(** The authenticated plaintext of a wire: it ends before the first frame that is
    incomplete, malformed or not authentic. *)
Fixpoint v3_plain (fuel : nat) (d : V3FrameDecoder) (w : bytes) : bytes :=
  match fuel with
  | O => []
  | Datatypes.S fuel' =>
      match parse_record w with
      | None => []
      | Some (body, rest) =>
          match verify_payload d body with
          | Ok (d', ResidualHandshake) => v3_plain fuel' d' rest
          | Ok (d', Data) => drop TAG_LEN body ++ v3_plain fuel' d' rest
          | _ => []
          end
      end
  end.

Definition plain_of (d : V3FrameDecoder) (w : bytes) : bytes := v3_plain (S (length w)) d w.

Lemma v3_plain_fuel fuel d w : (length w < fuel)%nat -> v3_plain fuel d w = plain_of d w.
Proof.
  unfold plain_of. revert d w. induction fuel as [fuel IH] using lt_wf_ind; intros d w Hf.
  destruct fuel as [|fuel]; [lia|]. cbn [v3_plain].
  destruct (parse_record w) as [[body rest]|] eqn:Hp; [|done]. apply parse_record_shorter in Hp.
  destruct (verify_payload d body) as [[d' []]|e|]; try done.
  - rewrite (IH fuel) by lia. symmetry. apply IH; lia.
  - f_equal. rewrite (IH fuel) by lia. symmetry. apply IH; lia.
Qed.

Lemma plain_of_unfold d w :
  plain_of d w =
  match parse_record w with
  | None => []
  | Some (body, rest) =>
      match verify_payload d body with
      | Ok (d', ResidualHandshake) => plain_of d' rest
      | Ok (d', Data) => drop TAG_LEN body ++ plain_of d' rest
      | _ => []
      end
  end.
Proof.
  unfold plain_of at 1. cbn [v3_plain].
  destruct (parse_record w) as [[body rest]|] eqn:Hp; [|done]. apply parse_record_shorter in Hp.
  destruct (verify_payload d body) as [[d' []]|e|]; try done; by rewrite v3_plain_fuel by lia.
Qed.

Lemma verify_payload_no_panic d b : no_panic (verify_payload d b).
Proof. unfold verify_payload. repeat case_match; done. Qed.

(** A frame with header and body spelled out. *)
Lemma parse_record_frame hdr body rest :
  length hdr = 5%nat -> head hdr = Some TLS_APPLICATION_DATA ->
  idx16 (E:=io_error) hdr 3 = Ok (zlen body) -> (length body <= MAX_TLS_PLAINTEXT + TAG_LEN)%nat ->
  parse_record (hdr ++ body ++ rest) = Some (body, rest).
Proof.
  intros Hh Hhd Hlen Hb. destruct hdr as [|h0 [|h1 [|h2 [|h3 [|h4 [|]]]]]]; try done.
  unfold idx16, idx in Hlen. cbn in Hlen. injection Hlen as Hlen.
  unfold parse_record. cbn [app length take drop].
  rewrite take_0, drop_0, Hlen, zlen_to_nat.
  rewrite (proj2 (Nat.ltb_ge _ _)) by (rewrite length_app; lia).
  cbn in Hhd. cbn [head]. rewrite bool_decide_eq_true_2 by done. cbn [negb].
  rewrite (proj2 (Nat.ltb_ge _ _)) by lia. rewrite (proj2 (Nat.ltb_ge _ _)) by (rewrite length_app; lia).
  rewrite take_app_length. cbn [drop Nat.add]. by rewrite drop_app_length.
Qed.

(** A frame that has not arrived completely. *)
Lemma parse_record_short w : (length w < 5)%nat -> parse_record w = None.
Proof. intros Hw. unfold parse_record. by rewrite (proj2 (Nat.ltb_lt _ _)). Qed.

Lemma parse_record_partial hdr part n :
  length hdr = 5%nat -> idx16 (E:=io_error) hdr 3 = Ok n -> (length part < Z.to_nat n)%nat ->
  parse_record (hdr ++ part) = None.
Proof.
  intros Hh Hlen Hp. destruct hdr as [|h0 [|h1 [|h2 [|h3 [|h4 [|]]]]]]; try done.
  unfold idx16, idx in Hlen. cbn in Hlen. injection Hlen as Hlen.
  unfold parse_record. cbn [app take drop length]. rewrite take_0, Hlen.
  repeat case_match; try done. bool_hyps. lia.
Qed.

Lemma parse_record_bad hdr rest n :
  length hdr = 5%nat -> idx16 (E:=io_error) hdr 3 = Ok n ->
  head hdr <> Some TLS_APPLICATION_DATA \/ (MAX_TLS_PLAINTEXT + TAG_LEN < Z.to_nat n)%nat ->
  parse_record (hdr ++ rest) = None.
Proof.
  intros Hh Hlen Hor. destruct hdr as [|h0 [|h1 [|h2 [|h3 [|h4 [|]]]]]]; try done.
  unfold idx16, idx in Hlen. cbn in Hlen. injection Hlen as Hlen.
  unfold parse_record. cbn [app take drop length head]. rewrite take_0, Hlen. case_match; [done|].
  destruct Hor as [Hh0|Hn].
  - rewrite bool_decide_eq_false_2; done.
  - case_match; [done|]. by rewrite (proj2 (Nat.ltb_lt _ _)).
Qed.
End Plain.

(** * Reading *)

Section V3Read.
Context `{Crypto} {S : Type} `{ReadSpec S}.
Implicit Type v : V3Stream S.

(** What a stream will still deliver. *)
Definition v3_incoming v : bytes :=
  if read_phase v =? READ_PHASE_PLAINTEXT then
    drop (plain_pos v) (plain_buf v) ++ plain_of (v3_decoder v) (incoming (v3_inner v))
  else if read_phase v =? READ_PHASE_HEADER then
    plain_of (v3_decoder v) (take (header_pos v) (header_buf v) ++ incoming (v3_inner v))
  else
    plain_of (v3_decoder v)
      (header_buf v ++ take (body_pos v) (body_buf v) ++ incoming (v3_inner v)).

Record v3_read_inv v : Prop := {
  ri_header : length (header_buf v) = 5%nat;
  ri_header_pos : (header_pos v <= 5)%nat;
  ri_phase : read_phase v = READ_PHASE_PLAINTEXT \/ read_phase v = READ_PHASE_HEADER \/
             read_phase v = READ_PHASE_BODY;
  ri_body : read_phase v = READ_PHASE_BODY ->
    head (header_buf v) = Some TLS_APPLICATION_DATA /\
    (exists n, idx16 (E:=io_error) (header_buf v) 3 = Ok n /\ Z.to_nat n = length (body_buf v)) /\
    (length (body_buf v) <= MAX_TLS_PLAINTEXT + TAG_LEN)%nat /\
    (body_pos v <= length (body_buf v))%nat
}.

(** Steps that are left before the stream has to read or to return. *)
Definition v3_rank v : nat :=
  if read_phase v =? READ_PHASE_PLAINTEXT then 1
  else if read_phase v =? READ_PHASE_HEADER then if (header_pos v <? 5)%nat then 0 else 3
  else 2.

Definition v3_measure v : nat := 4 * length (incoming (v3_inner v)) + v3_rank v.

Definition v3_step_post v (n : nat) v' (r : option (poll (res io_error bytes))) : Prop :=
  match r with
  | None => v3_read_inv v' /\ v3_incoming v' = v3_incoming v /\ (v3_measure v' < v3_measure v)%nat
  | Some (Ready (Ok c)) =>
      v3_read_inv v' /\ v3_incoming v = c ++ v3_incoming v' /\ (length c <= n)%nat /\
      ((0 < n)%nat -> c <> [])
  | Some (Ready (Err e)) =>
      v3_incoming v = [] \/ exists k i, poll_read (v3_inner v) k = (i, Ready (Err e))
  | Some (Ready Panic) => False
  | Some Pending => v3_read_inv v' /\ v3_incoming v' = v3_incoming v
  end.

Lemma v3_step_plain v n v' r :
  v3_read_inv v -> read_phase v = READ_PHASE_PLAINTEXT -> v3_read_step v n = (v', r) ->
  v3_step_post v n v' r.
Proof.
  intros [Hh Hhp Hph Hb] Hp. unfold v3_read_step. rewrite Hp. cbn [Z.eqb].
  destruct (plain_pos v <? length (plain_buf v))%nat eqn:E; bool_hyps.
  - set (k := Nat.min _ n). destruct (if (length (plain_buf v) <=? _)%nat then _ else _) as [pb pp] eqn:Hpb.
    intros [= <- <-]. cbn [v3_step_post]. split_and!.
    + constructor; cbn; auto. done.
    + unfold v3_incoming. cbn [set_v3_read read_phase plain_pos plain_buf v3_decoder v3_inner].
      rewrite Hp. cbn [Z.eqb READ_PHASE_PLAINTEXT]. rewrite app_assoc. f_equal.
      case_match; bool_hyps; simplify_eq.
      * rewrite app_nil_r. symmetry. apply take_ge. rewrite length_drop. lia.
      * by rewrite <- drop_drop, take_drop.
    + rewrite length_take. lia.
    + intros Hn Hnil. apply (f_equal length) in Hnil. rewrite length_take in Hnil. cbn in Hnil.
      subst k. rewrite length_drop in Hnil. lia.
  - intros [= <- <-]. cbn [v3_step_post]. split_and!.
    + constructor; cbn; auto; [lia|]. done.
    + unfold v3_incoming. cbn. rewrite Hp. cbn. by rewrite (drop_ge (plain_buf v)).
    + unfold v3_measure, v3_rank. rewrite Hp. cbn [set_v3_read read_phase v3_inner header_pos].
      eval_eqb. rewrite (proj2 (Nat.ltb_lt 0 5)); lia.
Qed.

Lemma v3_step_header v n v' r :
  v3_read_inv v -> read_phase v = READ_PHASE_HEADER -> v3_read_step v n = (v', r) ->
  v3_step_post v n v' r.
Proof.
  intros [Hh Hhp Hph Hb] Hp. unfold v3_read_step. rewrite Hp. cbn [Z.eqb READ_PHASE_HEADER READ_PHASE_PLAINTEXT].
  assert (Hinc : v3_incoming v = plain_of (v3_decoder v)
    (take (header_pos v) (header_buf v) ++ incoming (v3_inner v))) by (unfold v3_incoming; by rewrite Hp).
  destruct (header_pos v <? TLS_HEADER_LEN)%nat eqn:E; bool_hyps; unfold TLS_HEADER_LEN in E.
  - destruct (poll_read (v3_inner v) _) as [i [[c|e|]|]] eqn:Hr.
    + apply poll_read_ok in Hr as (Hlen & Hin & Heof). unfold TLS_HEADER_LEN in *. destruct c as [|b c].
      { intros [= <- <-]. left. destruct (Heof eq_refl) as [|Hnil]; [lia|].
        rewrite Hinc, Hnil, app_nil_r, plain_of_unfold, parse_record_short; [done|].
        rewrite length_take. lia. }
      assert (Hcs : (0 < length (b :: c))%nat) by (cbn; lia). clear Heof.
      revert Hlen Hin Hcs. generalize (b :: c) as cs. intros cs Hlen Hin Hcs.
      intros [= <- <-]. cbn [v3_step_post]. split_and!.
      * constructor; cbn -[length splice]; auto; [by rewrite splice_length by lia|lia|done].
      * rewrite Hinc. unfold v3_incoming. cbn -[length splice take plain_of].
        rewrite splice_take by lia. by rewrite <- app_assoc, Hin.
      * unfold v3_measure, v3_rank. rewrite Hp. cbn [set_v3_read read_phase v3_inner header_pos].
        eval_eqb. rewrite Hin, length_app. repeat case_match; bool_hyps; lia.
    + intros [= <- <-]. right. by eexists _, _.
    + by apply poll_read_no_panic in Hr.
    + apply poll_read_pending in Hr. intros [= <- <-]. split; [by constructor|].
      unfold v3_incoming. cbn [set_v3_inner read_phase v3_inner plain_pos plain_buf v3_decoder
        header_pos header_buf body_pos body_buf]. by rewrite Hr.
  - assert (header_pos v = 5%nat) as Hp5 by lia. rewrite Hp5, take_ge in Hinc by lia.
    destruct (idx_ok (E:=io_error) (header_buf v) 0) as (ty & Hty & Hty0); [lia|]. rewrite Hty.
    destruct (idx16 (E:=io_error) (header_buf v) 3) as [len|e|] eqn:Hlen;
      [|by unfold idx16, idx in Hlen; repeat case_match|
        by apply idx16_no_panic in Hlen; [|lia]].
    assert (Hhd : head (header_buf v) = Some ty) by (by destruct (header_buf v)).
    destruct (ty =? TLS_APPLICATION_DATA) eqn:Ety; bool_hyps; cbn [negb].
    2: { intros [= <- <-]. left. rewrite Hinc, plain_of_unfold, (parse_record_bad _ _ len); auto.
         left. congruence. }
    destruct (MAX_TLS_PLAINTEXT + TAG_LEN <? Z.to_nat len)%nat eqn:Emax; bool_hyps.
    { intros [= <- <-]. left. rewrite Hinc, plain_of_unfold, (parse_record_bad _ _ len); auto. }
    intros [= <- <-]. cbn [v3_step_post]. split_and!.
    + constructor; cbn -[length resize]; auto. intros _. rewrite length_resize.
      split_and!; [by subst|by exists len|done|lia].
    + rewrite Hinc. unfold v3_incoming. cbn -[plain_of app resize take]. by rewrite take_0.
    + unfold v3_measure, v3_rank. rewrite Hp, Hp5. cbn [set_v3_read read_phase v3_inner header_pos].
      eval_eqb. rewrite (proj2 (Nat.ltb_ge 5 5)); lia.
Qed.

Lemma v3_step_body v n v' r :
  v3_read_inv v -> read_phase v = READ_PHASE_BODY -> v3_read_step v n = (v', r) ->
  v3_step_post v n v' r.
Proof.
  intros [Hh Hhp Hph Hb] Hp. destruct (Hb Hp) as (Hhd & (len & Hlen & Hbl) & Hmax & Hbp).
  unfold v3_read_step. rewrite Hp. eval_eqb.
  assert (Hinc : v3_incoming v = plain_of (v3_decoder v)
    (header_buf v ++ take (body_pos v) (body_buf v) ++ incoming (v3_inner v)))
    by (unfold v3_incoming; by rewrite Hp).
  destruct (body_pos v <? length (body_buf v))%nat eqn:E; bool_hyps.
  - destruct (poll_read (v3_inner v) _) as [i [[c|e|]|]] eqn:Hr.
    + apply poll_read_ok in Hr as (Hcl & Hin & Heof). destruct c as [|b c].
      { intros [= <- <-]. left. destruct (Heof eq_refl) as [Hz|Hnil]; [lia|].
        rewrite Hinc, Hnil, app_nil_r, plain_of_unfold, (parse_record_partial _ _ len); auto.
        rewrite length_take. lia. }
      assert (Hcs : (0 < length (b :: c))%nat) by (cbn; lia). clear Heof.
      revert Hcl Hin Hcs. generalize (b :: c) as cs. intros cs Hcl Hin Hcs.
      intros [= <- <-]. cbn [v3_step_post]. split_and!.
      * constructor; cbn -[length splice]; auto. intros _. rewrite splice_length by lia.
        split_and!; [done|by exists len|lia|lia].
      * rewrite Hinc. unfold v3_incoming. cbn -[length splice take plain_of].
        rewrite splice_take by lia. by rewrite <- app_assoc, Hin.
      * unfold v3_measure, v3_rank. rewrite Hp. cbn [set_v3_read read_phase v3_inner header_pos].
        eval_eqb. rewrite Hin, length_app. lia.
    + intros [= <- <-]. right. by eexists _, _.
    + by apply poll_read_no_panic in Hr.
    + apply poll_read_pending in Hr. intros [= <- <-]. split; [by constructor|].
      unfold v3_incoming. cbn [set_v3_inner read_phase v3_inner plain_pos plain_buf v3_decoder
        header_pos header_buf body_pos body_buf]. by rewrite Hr.
  - rewrite take_ge in Hinc by lia.
    assert (Hz : idx16 (E:=io_error) (header_buf v) 3 = Ok (zlen (body_buf v)) \/ length (body_buf v) = 0%nat).
    { destruct (decide (0 <= len)); [left; rewrite Hlen; f_equal; unfold zlen|right]; lia. }
    pose proof (verify_payload_no_panic (v3_decoder v) (body_buf v)) as Hnp.
    destruct (verify_payload (v3_decoder v) (body_buf v)) as [[d k]|e|] eqn:Hv; [|..|done].
    + assert (Hne : length (body_buf v) <> 0%nat).
      { intros Hzero. unfold verify_payload in Hv. by rewrite Hzero in Hv. }
      destruct Hz as [Hz|]; [|done].
      rewrite plain_of_unfold, parse_record_frame, Hv in Hinc by done.
      assert (Hrank : (v3_measure v = 4 * length (incoming (v3_inner v)) + 2)%nat).
      { unfold v3_measure, v3_rank. by rewrite Hp. }
      assert (Hgo : forall pb pp, v3_read_inv (set_v3_read (v3_inner v) d pb pp (header_buf v) 0
        (body_buf v) 0 READ_PHASE_HEADER v)) by (intros; constructor; cbn; auto; [lia|done]).
      destruct k.
      { intros [= <- <-]. cbn [v3_step_post]. split_and!; [apply Hgo|by rewrite Hinc|].
        rewrite Hrank. unfold v3_measure, v3_rank. cbn [set_v3_read read_phase v3_inner header_pos].
        eval_eqb. rewrite (proj2 (Nat.ltb_lt 0 5)); lia. }
      destruct (length (body_buf v) =? TAG_LEN)%nat eqn:Etag; bool_hyps; intros [= <- <-];
        cbn [v3_step_post]; split_and!.
      * apply Hgo.
      * rewrite Hinc, drop_ge by lia. done.
      * rewrite Hrank. unfold v3_measure, v3_rank. cbn [set_v3_read read_phase v3_inner header_pos].
        eval_eqb. rewrite (proj2 (Nat.ltb_lt 0 5)); lia.
      * constructor; cbn; auto; [lia|]. done.
      * by rewrite Hinc.
      * rewrite Hrank. unfold v3_measure, v3_rank. cbn [set_v3_read read_phase v3_inner]. eval_eqb. lia.
    + intros [= <- <-]. left. destruct Hz as [Hz|Hzero].
      * by rewrite Hinc, plain_of_unfold, parse_record_frame, Hv.
      * rewrite Hinc, plain_of_unfold. destruct (body_buf v) eqn:Hbb; [|done]. cbn [app].
        destruct (parse_record _) as [[b rest]|] eqn:Hpr; [|done].
        assert (b = []) as ->.
        { unfold parse_record in Hpr. repeat (case_match; try done). simplify_eq.
          destruct (header_buf v) as [|h0 [|h1 [|h2 [|h3 [|h4 [|]]]]]]; try done.
          unfold idx16, idx in Hlen. cbn in Hlen. injection Hlen as Hlen.
          cbn [app take drop]. by rewrite take_0, Hlen, Hbl. }
        by rewrite Hv.
Qed.

Lemma v3_step_ok v n v' r :
  v3_read_inv v -> v3_read_step v n = (v', r) -> v3_step_post v n v' r.
Proof.
  intros Hinv Hs. destruct (ri_phase _ Hinv) as [Hp|[Hp|Hp]].
  - by apply v3_step_plain.
  - by apply v3_step_header.
  - by apply v3_step_body.
Qed.

Definition v3_read_post v (n : nat) v' (r : poll (res io_error bytes)) : Prop :=
  match r with
  | Ready (Ok c) => v3_read_inv v' /\ v3_incoming v = c ++ v3_incoming v' /\
                    (length c <= n)%nat /\ ((0 < n)%nat -> c <> [])
  | Ready (Err e) => v3_incoming v = [] \/ exists i k i', poll_read i k = (i', Ready (Err e))
  | Ready Panic => False
  | Pending => v3_read_inv v' /\ v3_incoming v' = v3_incoming v
  end.

Lemma v3_poll_read_ok v n fuel v' r :
  v3_read_inv v -> V3_poll_read fuel v n = Some (v', r) -> v3_read_post v n v' r.
Proof.
  revert v. induction fuel as [|fuel IH]; intros v Hinv Hr; [done|]. cbn [V3_poll_read] in Hr.
  destruct (v3_read_step v n) as [v1 [r1|]] eqn:Hs; apply v3_step_ok in Hs; try done; cbn [v3_step_post] in Hs.
  - injection Hr as <- <-. destruct r1 as [[c|e|]|]; try done.
    destruct Hs as [|(k & i & Hi)]; [by left|right]. by eexists _, _, _.
  - destruct Hs as (Hinv' & Hin & Hm). unfold v3_read_post. rewrite <- Hin. by apply IH.
Qed.

(** A read finishes: every step takes something off the measure. *)
Lemma v3_poll_read_total v n fuel :
  v3_read_inv v -> (v3_measure v < fuel)%nat -> exists v' r, V3_poll_read fuel v n = Some (v', r).
Proof.
  revert v. induction fuel as [|fuel IH]; intros v Hinv Hf; [lia|]. cbn [V3_poll_read].
  destruct (v3_read_step v n) as [v1 [r1|]] eqn:Hs; [by eexists _, _|].
  apply v3_step_ok in Hs as (Hinv' & _ & Hm); [|done]. apply IH; [done|lia].
Qed.

Lemma v3_measure_bound v : (v3_measure v < 4 * length (incoming (v3_inner v)) + 4)%nat.
Proof. unfold v3_measure, v3_rank. repeat case_match; lia. Qed.

Lemma v3_new_inv (i : S) e d : v3_read_inv (V3Stream_new i e d).
Proof. constructor; cbn; auto; [lia|]. done. Qed.
End V3Read.

(** * Frames *)

Section Frames.
Context `{CryptoLaws}.

Lemma next_tag_length m b : length (next_tag m b) = TAG_LEN.
Proof. unfold next_tag, first_tag, TAG_LEN. rewrite length_take, finalize_length. lia. Qed.

Lemma tag_split m b :
  take TAG_LEN (next_tag m b ++ b) = next_tag m b /\ drop TAG_LEN (next_tag m b ++ b) = b.
Proof.
  rewrite <- (next_tag_length m b). by rewrite take_app_length, drop_app_length.
Qed.

(** The header of a record with [n] bytes of payload. *)
Lemma tls_header_bytes n :
  in_u16 n -> [as_u8 (Z.shiftr n 8); as_u8 n] = be_bytes 2 n.
Proof.
  intros Hn. rewrite be_bytes_2_split by done. unfold in_u16 in Hn. unfold as_u8.
  rewrite Z.shiftr_div_pow2 by lia. change (2 ^ 8) with 256. f_equal.
  apply Z.mod_small. split; [apply Z.div_pos; lia|apply Z.div_lt_upper_bound; lia].
Qed.

(** A record of application data parses back, whoever wrote it. *)
Lemma record_parse payload rest :
  (length payload <= MAX_TLS_PLAINTEXT + TAG_LEN)%nat ->
  parse_record ([TLS_APPLICATION_DATA; 0x03; 0x03; as_u8 (Z.shiftr (as_u16 (zlen payload)) 8);
    as_u8 (as_u16 (zlen payload))] ++ payload ++ rest) = Some (payload, rest).
Proof.
  intros Hp. assert (Hz : 0 <= zlen payload < 2 ^ 16).
  { unfold zlen. split; [lia|]. apply Z.le_lt_trans with (Z.of_nat (MAX_TLS_PLAINTEXT + TAG_LEN)); [lia|].
    unfold MAX_TLS_PLAINTEXT, TAG_LEN. lia. }
  rewrite as_u16_id by done. apply parse_record_frame; [done|done| |done].
  change ([TLS_APPLICATION_DATA; 3; 3; as_u8 (Z.shiftr (zlen payload) 8); as_u8 (zlen payload)])
    with ([TLS_APPLICATION_DATA; 3; 3] ++ [as_u8 (Z.shiftr (zlen payload) 8); as_u8 (zlen payload)]).
  rewrite tls_header_bytes by done. rewrite <- (app_nil_r (be_bytes 2 _)). by apply idx16_be_bytes.
Qed.

(** The frames of a sequence of chunks, and the MAC state after them. *)
Fixpoint encode_all (m : ShadowHmac) (chunks : list bytes) : ShadowHmac * bytes :=
  match chunks with
  | [] => (m, [])
  | c :: cs =>
      let tag := next_tag m c in
      let '(m', w) := encode_all (update (update m c) tag) cs in
      (m', encode_tls_record TLS_APPLICATION_DATA (tag ++ c) ++ w)
  end.

Definition chunk_ok (c : bytes) : Prop := (length c <= MAX_TLS_PLAINTEXT)%nat.

Lemma encode_chunk m c :
  chunk_ok c ->
  encode_application_data_into (mkEncoder m) c =
  Ok (mkEncoder (update (update m c) (next_tag m c)),
      encode_tls_record TLS_APPLICATION_DATA (next_tag m c ++ c)).
Proof.
  unfold chunk_ok. intros Hc. unfold encode_application_data_into. rewrite (proj2 (Nat.ltb_ge _ _)) by done.
  cbn [enc_mac]. unfold encode_tls_record, zlen. by rewrite length_app, next_tag_length.
Qed.

Lemma encode_all_snoc m cs c :
  encode_all m (cs ++ [c]) =
  let '(m', w) := encode_all m cs in
  (update (update m' c) (next_tag m' c),
   w ++ encode_tls_record TLS_APPLICATION_DATA (next_tag m' c ++ c)).
Proof.
  revert m. induction cs as [|c' cs IH]; intros m; cbn [app encode_all]; [by rewrite app_nil_r|].
  rewrite IH. destruct (encode_all _ cs) as [m' w]. by rewrite <- !app_assoc.
Qed.

Lemma frame_length m c :
  length (encode_tls_record TLS_APPLICATION_DATA (next_tag m c ++ c)) = (9 + length c)%nat.
Proof. unfold encode_tls_record. rewrite !length_app, next_tag_length. cbn. lia. Qed.

Lemma plain_of_frame m c rest :
  chunk_ok c ->
  plain_of (mkDecoder m None)
    (encode_tls_record TLS_APPLICATION_DATA (next_tag m c ++ c) ++ rest) =
  c ++ plain_of (mkDecoder (update (update m c) (next_tag m c)) None) rest.
Proof.
  unfold chunk_ok. intros Hc. rewrite plain_of_unfold. unfold encode_tls_record. rewrite <- app_assoc.
  rewrite record_parse by (rewrite length_app, next_tag_length; lia).
  unfold verify_payload. cbn [residual_mac data_mac].
  rewrite length_app, next_tag_length, (proj2 (Nat.ltb_ge _ _)) by lia.
  destruct (tag_split m c) as [-> ->].
  by rewrite bool_decide_eq_true_2.
Qed.

Lemma plain_of_frames m cs rest :
  Forall chunk_ok cs ->
  plain_of (mkDecoder m None) ((encode_all m cs).2 ++ rest) =
  concat cs ++ plain_of (mkDecoder (encode_all m cs).1 None) rest.
Proof.
  intros Hcs. revert m. induction Hcs as [|c cs Hc _ IH]; intros m; [done|].
  cbn [encode_all concat]. specialize (IH (update (update m c) (next_tag m c))).
  destruct (encode_all _ cs) as [m' w]. cbn [fst snd] in *.
  rewrite <- app_assoc, plain_of_frame by done. by rewrite IH, app_assoc.
Qed.

(** A frame that is not on the wire completely does not count. *)
Lemma parse_part m c part :
  chunk_ok c -> part `prefix_of` encode_tls_record TLS_APPLICATION_DATA (next_tag m c ++ c) ->
  (length part < 9 + length c)%nat -> parse_record part = None.
Proof.
  unfold chunk_ok. intros Hc [k Hk] Hlen.
  destruct (decide (length part < 5)%nat) as [|H5]; [by rewrite parse_record_short|].
  unfold encode_tls_record in Hk.
  assert (Hz : 0 <= zlen (next_tag m c ++ c) < 2 ^ 16).
  { unfold zlen. rewrite length_app, next_tag_length. split; [lia|].
    apply Z.le_lt_trans with (Z.of_nat (TAG_LEN + MAX_TLS_PLAINTEXT)); [lia|].
    unfold MAX_TLS_PLAINTEXT, TAG_LEN. lia. }
  rewrite as_u16_id in Hk by done.
  set (hdr := [TLS_APPLICATION_DATA; 3; 3; as_u8 (Z.shiftr (zlen (next_tag m c ++ c)) 8);
    as_u8 (zlen (next_tag m c ++ c))]) in Hk.
  assert (Hpart : part = hdr ++ drop 5 part).
  { rewrite <- (take_drop 5 part) at 1. f_equal.
    apply (f_equal (take 5)) in Hk. rewrite (take_app_le part) in Hk by lia. by rewrite <- Hk. }
  rewrite Hpart, (parse_record_partial hdr _ (zlen (next_tag m c ++ c))); [done|done| |].
  - subst hdr. change ([TLS_APPLICATION_DATA; 3; 3; as_u8 (Z.shiftr (zlen (next_tag m c ++ c)) 8);
      as_u8 (zlen (next_tag m c ++ c))]) with ([TLS_APPLICATION_DATA; 3; 3] ++
      [as_u8 (Z.shiftr (zlen (next_tag m c ++ c)) 8); as_u8 (zlen (next_tag m c ++ c))]).
    rewrite tls_header_bytes by done. rewrite <- (app_nil_r (be_bytes 2 _)). by apply idx16_be_bytes.
  - rewrite zlen_to_nat, length_app, next_tag_length, length_drop. unfold TAG_LEN. lia.
Qed.

(** The tainted records of the backend. *)
Fixpoint taint_all (m : ShadowHmac) (psk sr : bytes) (payloads : list bytes) : ShadowHmac * bytes :=
  match payloads with
  | [] => (m, [])
  | p :: ps =>
      match taint_backend_application_data m psk sr (encode_tls_record TLS_APPLICATION_DATA p) with
      | Ok (m', w) => let '(m'', ws) := taint_all m' psk sr ps in (m'', w ++ ws)
      | _ => (m, [])
      end
  end.

Lemma xor_length data psk sr : length (xor_with_handshake_mask data psk sr) = length data.
Proof. unfold xor_with_handshake_mask. apply length_imap. Qed.

Lemma application_payload_record p :
  zlen p < 2 ^ 16 -> application_payload (encode_tls_record TLS_APPLICATION_DATA p) = Ok p.
Proof.
  intros Hp. pose proof (zlen_nonneg p). unfold application_payload, encode_tls_record, TLS_HEADER_LEN.
  rewrite as_u16_id by lia. rewrite length_app. cbn [length]. rewrite (proj2 (Nat.ltb_ge _ _)) by lia.
  change (idx (_ ++ p) 0) with (Ok (E:=ProxyError) TLS_APPLICATION_DATA). mred. eval_eqb. mred.
  replace ([TLS_APPLICATION_DATA; 3; 3; as_u8 (Z.shiftr (zlen p) 8); as_u8 (zlen p)] ++ p) with
    ([TLS_APPLICATION_DATA; 3; 3] ++ [as_u8 (Z.shiftr (zlen p) 8); as_u8 (zlen p)] ++ p) by done.
  rewrite tls_header_bytes by (unfold in_u16; lia).
  rewrite idx16_be_bytes by (done || (unfold in_u16; lia)). mred.
  rewrite zlen_to_nat, (proj2 (Nat.ltb_ge _ _)) by lia.
  rewrite app_assoc. generalize (zlen p) as z. intros z.
  rewrite <- (app_nil_r p) at 1. by apply slice_mid.
Qed.

Lemma plain_of_taint m dm psk sr p w m' rest :
  (length p <= MAX_TLS_PLAINTEXT)%nat ->
  taint_backend_application_data m psk sr (encode_tls_record TLS_APPLICATION_DATA p) = Ok (m', w) ->
  plain_of (mkDecoder dm (Some m)) (w ++ rest) = plain_of (mkDecoder dm (Some m')) rest.
Proof.
  intros Hp. unfold taint_backend_application_data.
  rewrite application_payload_record; [mred|].
  2: { unfold zlen. apply Z.le_lt_trans with (Z.of_nat MAX_TLS_PLAINTEXT); [lia|]. unfold MAX_TLS_PLAINTEXT. lia. }
  intros [= <- <-]. set (x := xor_with_handshake_mask p psk sr).
  assert (Hx : length x = length p) by apply xor_length.
  rewrite plain_of_unfold. unfold encode_tls_record. rewrite <- app_assoc.
  rewrite record_parse by (rewrite length_app, next_tag_length; lia).
  unfold verify_payload. cbn [residual_mac data_mac].
  rewrite length_app, next_tag_length, (proj2 (Nat.ltb_ge _ _)) by lia.
  destruct (tag_split m x) as [-> ->].
  by rewrite bool_decide_eq_true_2.
Qed.
End Frames.

(** * Writing *)

Section V3Write.
Context `{CryptoLaws} {S : Type} `{Duplex S}.
Implicit Type v : V3Stream S.

Definition frame_of (m : ShadowHmac) (c : bytes) : bytes :=
  encode_tls_record TLS_APPLICATION_DATA (next_tag m c ++ c).

(** The writer's state after [acc] was accepted: [m0] is the MAC state and [sent0]
    what had been sent at the beginning; [infl] is the chunk of a frame that is only
    partly written. *)
Definition v3_accepted (m0 : ShadowHmac) (sent0 : bytes) v (acc : bytes) (infl : option bytes) : Prop :=
  exists cs m w, Forall chunk_ok cs /\ concat cs = acc /\ encode_all m0 cs = (m, w) /\
  match infl with
  | None => v3_encoder v = mkEncoder m /\ v3_write_buf v = [] /\ sent (v3_inner v) = sent0 ++ w
  | Some b =>
      chunk_ok b /\ b <> [] /\ v3_encoder v = mkEncoder (update (update m b) (next_tag m b)) /\
      v3_write_buf v = frame_of m b /\ (v3_write_pos v < length (frame_of m b))%nat /\
      write_chunk_len v = length b /\
      sent (v3_inner v) ++ drop (v3_write_pos v) (frame_of m b) = sent0 ++ w ++ frame_of m b
  end.

Lemma frame_of_nonempty m c : frame_of m c <> [].
Proof. intros Hnil. apply (f_equal length) in Hnil. unfold frame_of in Hnil. by rewrite frame_length in Hnil. Qed.

(** Once the frame of a chunk is out, the chunk counts as accepted. *)
Lemma v3_accept_chunk m0 sent0 cs m w b v :
  Forall chunk_ok cs -> encode_all m0 cs = (m, w) -> chunk_ok b ->
  v3_encoder v = mkEncoder (update (update m b) (next_tag m b)) -> v3_write_buf v = [] ->
  sent (v3_inner v) = sent0 ++ w ++ frame_of m b ->
  v3_accepted m0 sent0 v (concat cs ++ b) None.
Proof.
  intros Hcs Henc Hb He Hbuf Hsent. exists (cs ++ [b]). rewrite encode_all_snoc, Henc.
  eexists _, _. split; [by apply Forall_app; split; [|constructor]|].
  split; [rewrite concat_app; cbn; by rewrite app_nil_r|]. split; [done|]. by split_and!.
Qed.

Lemma v3_write_ok m0 sent0 v acc infl buf v' r :
  v3_accepted m0 sent0 v acc infl -> retries infl buf -> V3_poll_write v buf = (v', r) ->
  write_post (v3_accepted m0 sent0) buf acc v' r.
Proof.
  intros (cs & m & w & Hcs & <- & Henc & Hst) Hretry. unfold V3_poll_write. destruct infl as [b|].
  - destruct Hst as (Hb & Hne & He & Hbuf & Hpos & Hlen & Hsent).
    rewrite Hbuf, bool_decide_eq_false_2 by apply frame_of_nonempty. cbn [negb].
    destruct (drain_loop _ _ _ _) as [[i pos] rd] eqn:Hd.
    apply drain_loop_spec in Hd as (D1 & D2 & _ & D4); [|lia|lia].
    destruct (Hretry b eq_refl) as [k ->].
    destruct rd as [[u|e|]|]; intros [= <- <-]; cbn [write_post]; [|done|done|].
    + rewrite Hlen. split; [rewrite length_app; lia|]. rewrite take_app_length.
      subst pos. rewrite drop_all, app_nil_r in D2.
      eapply v3_accept_chunk; try done. cbn. by rewrite D2, Hsent.
    + exists (Some b). split; [|by intros x [= <-]; exists k].
      exists cs, m, w. split_and!; try done.
      cbn [set_v3_write v3_inner v3_write_pos]. by rewrite D2.
  - destruct Hst as (He & Hbuf & Hsent). rewrite Hbuf, bool_decide_eq_true_2 by done. cbn [negb].
    case_bool_decide as Hnil.
    { intros [= <- <-]. cbn. split; [lia|]. rewrite take_0, app_nil_r. by exists cs, m, w. }
    set (n := Nat.min (length buf) MAX_TLS_PLAINTEXT).
    assert (Hc : chunk_ok (take n buf)) by (unfold chunk_ok; rewrite length_take; lia).
    assert (Hn : length (take n buf) = n) by (rewrite length_take; lia).
    rewrite He, encode_chunk by done. fold (frame_of m (take n buf)).
    destruct (drain_loop _ _ _ _) as [[i pos] rd] eqn:Hd.
    apply drain_loop_spec in Hd as (D1 & D2 & _ & D4); [|lia|lia]. rewrite drop_0, Hsent in D2.
    destruct rd as [[u|e|]|]; intros [= <- <-]; cbn [write_post]; [|done|done|].
    + split; [lia|]. subst pos. rewrite drop_all, app_nil_r in D2.
      eapply v3_accept_chunk; try done. cbn. by rewrite D2, <- app_assoc.
    + exists (Some (take n buf)). split; [|by intros x [= <-]; apply prefix_take].
      exists cs, m, w. split_and!; try done.
      * intros Hnil'. rewrite Hnil' in Hn. cbn in Hn.
        assert (0 < MAX_TLS_PLAINTEXT)%nat by (unfold MAX_TLS_PLAINTEXT; lia).
        destruct buf; [done|]. subst n. cbn [length] in Hn. lia.
      * cbn [set_v3_write v3_inner v3_write_pos]. by rewrite D2, <- app_assoc.
Qed.

#[global] Instance V3_write : AsyncWrite (V3Stream S) := {
  poll_write := V3_poll_write; poll_flush := V3_poll_flush; poll_shutdown := V3_poll_shutdown
}.

Lemma v3_accepted_inner m0 sent0 v acc (i : S) :
  v3_accepted m0 sent0 v acc None -> sent i = sent (v3_inner v) ->
  v3_accepted m0 sent0 (set_v3_inner i v) acc None.
Proof.
  intros (cs & m & w & Hcs & Hacc & Henc & He & Hbuf & Hsent) Hi.
  exists cs, m, w. split_and!; try done. cbn. by rewrite Hi.
Qed.

(** The stream keeps the writers' contract, whatever it is asked to write. *)
#[global] Program Instance v3_contract (m0 : ShadowHmac) (sent0 : bytes) : WriterContract (V3Stream S) := {
  accepted := v3_accepted m0 sent0;
  fits _ := True
}.
Next Obligation. intros. by eapply v3_write_ok. Qed.
Next Obligation.
  intros m0 sent0 v acc v' r Hacc. unfold poll_flush, V3_write, V3_poll_flush.
  destruct (AsyncIo.poll_flush (v3_inner v)) as [i r'] eqn:Hf. intros [= <- <-].
  apply v3_accepted_inner; [done|]. by eapply poll_flush_sent.
Qed.
Next Obligation.
  intros m0 sent0 v acc v' Hacc. unfold poll_flush, V3_write, V3_poll_flush.
  destruct (AsyncIo.poll_flush (v3_inner v)) as [i r'] eqn:Hf. intros [= <- ->].
  by apply poll_flush_no_panic in Hf.
Qed.
Next Obligation.
  intros m0 sent0 v acc v' r Hacc. unfold poll_shutdown, V3_write, V3_poll_shutdown.
  destruct (AsyncIo.poll_shutdown (v3_inner v)) as [i r'] eqn:Hf. intros [= <- <-].
  apply v3_accepted_inner; [done|]. by eapply poll_shutdown_sent.
Qed.
Next Obligation.
  intros m0 sent0 v acc v' Hacc. unfold poll_shutdown, V3_write, V3_poll_shutdown.
  destruct (AsyncIo.poll_shutdown (v3_inner v)) as [i r'] eqn:Hf. intros [= <- ->].
  by apply poll_shutdown_no_panic in Hf.
Qed.

(** What has been sent are the frames of what has been accepted, and an incomplete one. *)
Lemma v3_accepted_wire m0 sent0 v acc infl :
  v3_accepted m0 sent0 v acc infl ->
  exists cs part, sent (v3_inner v) = sent0 ++ (encode_all m0 cs).2 ++ part /\
    Forall chunk_ok cs /\ concat cs = acc /\ parse_record part = None.
Proof.
  intros (cs & m & w & Hcs & <- & Henc & Hst). destruct infl as [b|].
  - destruct Hst as (Hb & Hne & _ & _ & Hpos & _ & Hsent).
    exists cs, (take (v3_write_pos v) (frame_of m b)). rewrite Henc. cbn [snd].
    rewrite <- (take_drop (v3_write_pos v) (frame_of m b)) in Hsent at 2.
    rewrite !app_assoc in Hsent. apply app_inv_tail in Hsent.
    split_and!; [by rewrite Hsent, <- app_assoc|done|done|].
    apply (parse_part m b); [done|apply prefix_take|]. rewrite length_take. unfold frame_of in *. rewrite frame_length in *. lia.
  - destruct Hst as (_ & _ & Hsent). exists cs, []. rewrite Henc, app_nil_r. by split_and!.
Qed.

Lemma plain_of_wire m0 cs part :
  Forall chunk_ok cs -> parse_record part = None -> plain_of (mkDecoder m0 None) ((encode_all m0 cs).2 ++ part) = concat cs.
Proof. intros Hcs Hp. rewrite plain_of_frames by done. by rewrite (plain_of_unfold _ part), Hp, app_nil_r. Qed.

Lemma v3_new_accepted (i : S) m0 d : v3_accepted m0 (sent i) (V3Stream_new i (mkEncoder m0) d) [] None.
Proof. exists [], m0, []. split_and!; try done. cbn. by rewrite app_nil_r. Qed.
End V3Write.

(** * Behind the handshake of the backend *)

Section Tainted.
Context `{CryptoLaws}.

(** The first frame of data after the tainted records. *)
Lemma plain_of_first m0 mr c rest :
  chunk_ok c -> next_tag mr c <> next_tag m0 c ->
  plain_of (mkDecoder m0 (Some mr)) (frame_of m0 c ++ rest) =
  c ++ plain_of (mkDecoder (update (update m0 c) (next_tag m0 c)) None) rest.
Proof.
  intros Hc Hne. rewrite <- plain_of_frame by done. rewrite !(plain_of_unfold _ (_ ++ _)).
  unfold frame_of. destruct (parse_record _) as [[body rest']|] eqn:Hp; [|done].
  unfold encode_tls_record in Hp. rewrite <- app_assoc in Hp. unfold chunk_ok in Hc.
  rewrite record_parse in Hp by (rewrite length_app, next_tag_length; lia). injection Hp as <- <-.
  unfold verify_payload. cbn [residual_mac data_mac]. destruct (tag_split m0 c) as [-> ->].
  by rewrite (bool_decide_eq_false_2 (next_tag mr c = _)).
Qed.

Lemma plain_of_tainted m dm psk sr ps rest :
  Forall chunk_ok ps ->
  plain_of (mkDecoder dm (Some m)) ((taint_all m psk sr ps).2 ++ rest) =
  plain_of (mkDecoder dm (Some (taint_all m psk sr ps).1)) rest.
Proof.
  intros Hps. revert m. induction Hps as [|p ps Hp _ IH]; intros m; [done|]. cbn [taint_all].
  destruct (taint_backend_application_data _ _ _ _) as [[m' w]|e|] eqn:Ht; cbn [fst snd].
  - specialize (IH m'). destruct (taint_all m' psk sr ps) as [m2 ws]. cbn [fst snd] in *.
    rewrite <- app_assoc. erewrite plain_of_taint by done. exact IH.
  - unfold taint_backend_application_data in Ht. rewrite application_payload_record in Ht; [done|].
    unfold chunk_ok in Hp. unfold zlen. apply Z.le_lt_trans with (Z.of_nat MAX_TLS_PLAINTEXT); [lia|].
    unfold MAX_TLS_PLAINTEXT. lia.
  - unfold taint_backend_application_data in Ht. rewrite application_payload_record in Ht; [done|].
    unfold chunk_ok in Hp. unfold zlen. apply Z.le_lt_trans with (Z.of_nat MAX_TLS_PLAINTEXT); [lia|].
    unfold MAX_TLS_PLAINTEXT. lia.
Qed.

(** A decoder that still waits for residual records reads frames of data like one that
    does not, unless the tag of the first frame happens to be that of a residual record
    with the same bytes. *)
Lemma plain_of_frames_residual m0 mr cs part :
  Forall chunk_ok cs -> (forall c, c `prefix_of` concat cs -> next_tag mr c <> next_tag m0 c) ->
  parse_record part = None ->
  plain_of (mkDecoder m0 (Some mr)) ((encode_all m0 cs).2 ++ part) =
  plain_of (mkDecoder m0 None) ((encode_all m0 cs).2 ++ part).
Proof.
  intros Hcs Hne Hpart. destruct Hcs as [|c cs Hc Hcs].
  - cbn [encode_all snd app]. by rewrite !plain_of_unfold, Hpart.
  - cbn [encode_all]. destruct (encode_all _ cs) as [m' w]. cbn [snd]. rewrite <- app_assoc. fold (frame_of m0 c).
    rewrite plain_of_first by (done || (apply Hne; by eexists)). unfold frame_of. by rewrite plain_of_frame.
Qed.
End Tainted.

(** * Sessions *)

Section Sessions.
Context `{CryptoLaws} {S R : Type} `{Duplex S} `{!AsyncRead R, !ReadSpec R}.

(** The life of a writer that started as [v0]: a write that was not ready is tried again with
    a buffer that begins with the same bytes, and the stream is flushed or shut down
    when no write is pending. *)
Inductive v3_writing (v0 : V3Stream S) : V3Stream S -> bytes -> option bytes -> Prop :=
| writing_start : v3_writing v0 v0 [] None
| writing_write v acc infl buf v' n :
    v3_writing v0 v acc infl -> retries infl buf ->
    V3_poll_write v buf = (v', Ready (Ok n)) -> v3_writing v0 v' (acc ++ take n buf) None
| writing_wait v acc infl buf v' :
    v3_writing v0 v acc infl -> retries infl buf ->
    V3_poll_write v buf = (v', Pending) -> v3_writing v0 v' acc (Some buf)
| writing_flush v acc v' r :
    v3_writing v0 v acc None -> V3_poll_flush v = (v', r) -> v3_writing v0 v' acc None
| writing_shutdown v acc v' r :
    v3_writing v0 v acc None -> V3_poll_shutdown v = (v', r) -> v3_writing v0 v' acc None.

Lemma v3_writing_accepted i0 m0 d v acc infl :
  v3_writing (V3Stream_new i0 (mkEncoder m0) d) v acc infl ->
  exists infl', v3_accepted m0 (sent i0) v acc infl' /\
    (infl = None -> infl' = None) /\ forall buf, retries infl buf -> retries infl' buf.
Proof.
  induction 1 as [|v acc infl buf v' n _ (infl' & Hacc & _ & Hre) Hr Hw
    |v acc infl buf v' _ (infl' & Hacc & _ & Hre) Hr Hw
    |v acc v' r _ (infl' & Hacc & Hnone & _) Hf|v acc v' r _ (infl' & Hacc & Hnone & _) Hf].
  - exists None. split_and!; try done. apply v3_new_accepted.
  - exists None. apply (v3_write_ok m0 (sent i0) v acc infl') in Hw; [|done|by apply Hre]. by destruct Hw.
  - apply (v3_write_ok m0 (sent i0) v acc infl') in Hw; [|done|by apply Hre].
    destruct Hw as (infl2 & Hacc2 & Hre2). exists infl2. split_and!; [done|done|].
    intros buf2 Hb b Hb2. etrans; [by apply Hre2|by apply Hb].
  - rewrite Hnone in Hacc by done. exists None.
    split_and!; try done. by eapply (contract_flush (WriterContract := v3_contract m0 (sent i0))).
  - rewrite Hnone in Hacc by done. exists None.
    split_and!; try done. by eapply (contract_shutdown (WriterContract := v3_contract m0 (sent i0))).
Qed.

(** The reads of a stream that started as [r0]. *)
Inductive v3_reading (r0 : V3Stream R) : V3Stream R -> bytes -> Prop :=
| reading_start : v3_reading r0 r0 []
| reading_read r out fuel n r' c :
    v3_reading r0 r out -> V3_poll_read fuel r n = Some (r', Ready (Ok c)) ->
    v3_reading r0 r' (out ++ c)
| reading_wait r out fuel n r' :
    v3_reading r0 r out -> V3_poll_read fuel r n = Some (r', Pending) -> v3_reading r0 r' out.

Lemma v3_reading_inv r0 r out :
  v3_read_inv r0 -> v3_reading r0 r out -> v3_read_inv r /\ v3_incoming r0 = out ++ v3_incoming r.
Proof.
  intros Hr0. induction 1 as [|r out fuel n r' c _ [IH1 IH2] Hr|r out fuel n r' _ [IH1 IH2] Hr]; [done|..].
  - apply v3_poll_read_ok in Hr as (? & Hin & _); [|done]. split; [done|].
    by rewrite IH2, Hin, app_assoc.
  - apply v3_poll_read_ok in Hr as (? & Hin); [|done]. by rewrite IH2, Hin.
Qed.

(** A stream that starts as [r0] delivers [acc]: however the wire is cut into reads,
    every read finishes, what was read is in order and once the front of [acc], a read
    delivers something unless it has to wait, and fails only after the last byte or when
    the transport below fails. *)
Definition delivers (r0 : V3Stream R) (acc : bytes) : Prop :=
  forall r out n fuel, v3_reading r0 r out -> (4 * length (incoming (v3_inner r)) + 4 <= fuel)%nat ->
    exists r' x, V3_poll_read fuel r n = Some (r', x) /\
    match x with
    | Ready (Ok c) => out ++ c `prefix_of` acc /\ ((0 < n)%nat -> c <> [])
    | Ready (Err e) => out = acc \/ exists i k i', poll_read (S := R) i k = (i', Ready (Err e))
    | Ready Panic => False
    | Pending => out `prefix_of` acc
    end.

Lemma plain_delivers (j : R) e d : delivers (V3Stream_new j e d) (plain_of d (incoming j)).
Proof.
  intros r out n fuel Hr Hf. destruct (v3_reading_inv (V3Stream_new j e d) r out (v3_new_inv _ _ _) Hr) as [Hinv Hin].
  assert (Hall : v3_incoming (V3Stream_new j e d) = plain_of d (incoming j)).
  { unfold v3_incoming, V3Stream_new. cbn [read_phase header_pos header_buf v3_inner v3_decoder]. eval_eqb. by rewrite take_0. }
  rewrite Hall in Hin. pose proof (v3_measure_bound r).
  destruct (v3_poll_read_total r n fuel) as (r' & x & Hx); [done|lia|].
  exists r', x. split; [done|]. apply v3_poll_read_ok in Hx; [|done].
  destruct x as [[c|e'|]|]; cbn [v3_read_post] in Hx; [| |done|by exists (v3_incoming r)].
  - destruct Hx as (_ & Hx & _ & Hne). split; [|done]. rewrite Hin, Hx, app_assoc. by eexists.
  - destruct Hx as [Hx|]; [left|by right]. by rewrite Hin, Hx, app_nil_r.
Qed.

(** C25. ShadowTLS delivers in both directions: whatever an end has written through its
    stream, with whatever partial and pending writes below and however its wire is cut
    into reads on the other side, the other end reads exactly the accepted bytes in
    order, as [delivers] says.  From the client to the server the wire holds the frames
    alone.  From the server to the client they come behind any records of the backend's
    handshake, tainted by the relay, of at most 16384 bytes each (a larger one stops the
    client, [shadowtls_large_residual]): the client drops those and delivers the frames,
    provided the first frame is not taken for one of them, that is no bytes at the front
    of what the server wrote have the same tag under both keys. *)
Theorem shadowtls_delivers psk sr (i0 : S) d w acc infl :
  (v3_writing (V3Stream_new i0 (enc_client_to_server psk sr) d) w acc infl ->
   exists wire, sent (v3_inner w) = sent i0 ++ wire /\
   forall j : R, incoming j = wire -> delivers (V3_server j psk sr) acc) /\
  (v3_writing (V3Stream_new i0 (enc_server_to_client psk sr) d) w acc infl ->
   exists wire, sent (v3_inner w) = sent i0 ++ wire /\
   forall ps (j : R), let residual := taint_all (residual_handshake_mac psk sr) psk sr ps in
     Forall chunk_ok ps -> incoming j = residual.2 ++ wire ->
     (forall c, c `prefix_of` acc -> next_tag residual.1 c <> next_tag (enc_mac (enc_server_to_client psk sr)) c) ->
     delivers (V3_client j psk sr) acc).
Proof.
  split; intros (infl' & Hacc & _)%v3_writing_accepted; apply v3_accepted_wire in Hacc as (cs & part & Hsent & Hcs & <- & Hpart).
  - eexists. split; [exact Hsent|]. intros j Hj. unfold V3_server.
    assert (Heq : plain_of (dec_client_to_server psk sr) (incoming j) = concat cs) by (rewrite Hj; by apply plain_of_wire).
    rewrite <- Heq. apply plain_delivers.
  - eexists. split; [exact Hsent|]. intros ps j residual Hps Hj Hne. unfold V3_client.
    assert (Heq : plain_of (dec_server_to_client psk sr) (incoming j) = concat cs).
    { rewrite Hj. etrans; [by apply plain_of_tainted|]. etrans; [by apply plain_of_frames_residual|]. by apply plain_of_wire. }
    rewrite <- Heq. apply plain_delivers.
Qed.
End Sessions.

(** ** A concrete MAC

    A checksum in the place of HMAC-SHA1 and SHA-256. *)
Definition checksum (b : bytes) : Z := foldl (fun a x => (a * 31 + x) mod 251) 7 b.

#[export] Instance toy_crypto : Crypto := {|
  ShadowHmac := bytes;
  new_from_slice k := k;
  update m b := m ++ b;
  finalize m := replicate 20 (checksum m);
  sha256 b := replicate 32 (checksum b)
|}.

#[export] Instance toy_crypto_laws : CryptoLaws.
Proof.
  intros m. apply length_replicate.
Qed.

(** A client whose transport takes three bytes, then nothing, then the rest. *)
Definition toy_client : V3Stream Script :=
  V3_client (mkScript [] [Some 3%nat; None] []) (str "key") (replicate 32 9).

(** The client after two attempts to write [ping]. *)
Definition toy_done : V3Stream Script :=
  Eval vm_compute in (V3_poll_write (V3_poll_write toy_client (str "ping")).1 (str "ping")).1.

Definition toy_server : V3Stream Script :=
  V3_server (mkScript [Some (wire (v3_inner toy_done))] [] []) (str "key") (replicate 32 9).

(** The same in the other direction, behind two records of the backend. *)
Definition toy_answer : V3Stream Script :=
  Eval vm_compute in (V3_poll_write (V3_server (mkScript [] [] []) (str "key") (replicate 32 9)) (str "pong")).1.

Definition toy_residual : bytes :=
  (taint_all (residual_handshake_mac (str "key") (replicate 32 9)) (str "key") (replicate 32 9) [str "finished"; str "ticket"]).2.

Definition toy_reader : V3Stream Script :=
  V3_client (mkScript [Some (toy_residual ++ wire (v3_inner toy_answer))] [] []) (str "key") (replicate 32 9).

Lemma read_result {A B} (o : option (A * B)) x : snd <$> o = Some x -> exists r, o = Some (r, x).
Proof. destruct o as [[r y]|]; [|done]. intros [= ->]. by exists r. Qed.

Lemma shadowtls_delivers_witness :
  (exists r, V3_poll_read 60 toy_server 9 = Some (r, Ready (Ok (str "ping")))) /\
  delivers toy_server (str "ping") /\ delivers toy_reader (str "pong") /\
  exists r, V3_poll_read 200 toy_reader 9 = Some (r, Ready (Ok (str "pong"))).
Proof.
  split; [|split; [|split]].
  - apply read_result. vm_compute. reflexivity.
  - assert (Hw : v3_writing toy_client toy_done (str "ping") None).
    { apply (writing_write _ (V3_poll_write toy_client (str "ping")).1 [] (Some (str "ping")) (str "ping") _ 4%nat).
      - apply (writing_wait _ toy_client [] None (str "ping")); [apply writing_start|done|].
        vm_cast_no_check (eq_refl (V3_poll_write toy_client (str "ping"))).
      - by intros b [= <-].
      - vm_cast_no_check (eq_refl (toy_done, Ready (Ok (E := io_error) 4%nat))). }
    destruct (proj1 (shadowtls_delivers (R := Script) _ _ _ _ _ _ _) Hw) as (w & Hsent & Hread).
    change (wire (v3_inner toy_done) = w) in Hsent. apply Hread. rewrite <- Hsent. vm_compute. reflexivity.
  - assert (Hw : v3_writing (V3_server (mkScript [] [] []) (str "key") (replicate 32 9)) toy_answer (str "pong") None).
    { apply (writing_write _ (V3_server (mkScript [] [] []) (str "key") (replicate 32 9)) [] None (str "pong") _ 4%nat).
      - apply writing_start.
      - done.
      - vm_cast_no_check (eq_refl (toy_answer, Ready (Ok (E := io_error) 4%nat))). }
    destruct (proj2 (shadowtls_delivers (R := Script) _ _ _ _ _ _ _) Hw) as (w & Hsent & Hread).
    change (wire (v3_inner toy_answer) = w) in Hsent. apply (Hread [str "finished"; str "ticket"]).
    + repeat (apply Forall_cons; split; [apply Nat.leb_le; vm_compute; reflexivity|]). constructor.
    + rewrite <- Hsent. vm_compute. reflexivity.
    + intros c Hc. assert (Heq : c = take (length c) (str "pong")) by (destruct Hc as [k ->]; by rewrite take_app_length).
      apply prefix_length in Hc. change (length (str "pong")) with 4%nat in Hc. revert Heq Hc. generalize (length c). intros n -> Hn.
      do 5 (destruct n as [|n]; [vm_compute; discriminate|]). lia.
  - apply read_result. vm_compute. reflexivity.
Defined.

Section Residual.
Context `{CryptoLaws}.

(** The client filters the backend's handshake: after any tainted records of the
    backend, the frames that the server sends decode to exactly what it sent,
    provided the tag of the first one does not happen to be the tag that a tainted
    record with the same bytes would have. *)
Theorem shadowtls_residual_filtered psk sr ps c cs :
  let t := taint_all (residual_handshake_mac psk sr) psk sr ps in
  let m0 := enc_mac (enc_server_to_client psk sr) in
  Forall chunk_ok ps -> Forall chunk_ok (c :: cs) -> next_tag t.1 c <> next_tag m0 c ->
  plain_of (dec_server_to_client psk sr) (t.2 ++ (encode_all m0 (c :: cs)).2) = concat (c :: cs).
Proof.
  intros t m0 Hps Hcs Hne. unfold dec_server_to_client. subst t.
  rewrite plain_of_tainted by done. fold m0.
  apply Forall_cons in Hcs as [Hc Hcs']. cbn [encode_all concat].
  pose proof (plain_of_frames (update (update m0 c) (next_tag m0 c)) cs [] Hcs') as Hf.
  destruct (encode_all _ cs) as [m' w]. cbn [fst snd] in *.
  fold (frame_of m0 c). rewrite plain_of_first by done. f_equal.
  rewrite app_nil_r in Hf. rewrite Hf, (plain_of_unfold _ []). cbn. by rewrite app_nil_r.
Qed.

(** Large backend records break the client: a record of the backend that the
    server's relay accepts but whose payload exceeds 16384 bytes, as TLS 1.3 records
    with their expansion do, is tainted and forwarded, and the client's stream
    stops at it: nothing after it is delivered. *)
Theorem shadowtls_large_residual psk sr p w m' rest :
  Z.of_nat MAX_TLS_PLAINTEXT < zlen p <= 16384 + 2048 ->
  taint_backend_application_data (residual_handshake_mac psk sr) psk sr
    (encode_tls_record TLS_APPLICATION_DATA p) = Ok (m', w) ->
  plain_of (dec_server_to_client psk sr) (w ++ rest) = [].
Proof.
  intros Hp. unfold taint_backend_application_data.
  rewrite application_payload_record by lia. mred. intros [= _ <-].
  set (x := xor_with_handshake_mask p psk sr). set (tag := next_tag _ x).
  assert (Hx : length (tag ++ x) = (TAG_LEN + length p)%nat).
  { rewrite length_app. unfold tag, x. by rewrite next_tag_length, xor_length. }
  rewrite plain_of_unfold. unfold encode_tls_record. rewrite <- app_assoc.
  assert (Hz : zlen (tag ++ x) = 4 + zlen p) by (unfold zlen, TAG_LEN in *; lia).
  rewrite as_u16_id by lia. erewrite (parse_record_bad _ _ (zlen (tag ++ x))); [done|done| |].
  - change ([TLS_APPLICATION_DATA; 3; 3; as_u8 (Z.shiftr (zlen (tag ++ x)) 8); as_u8 (zlen (tag ++ x))])
      with ([TLS_APPLICATION_DATA; 3; 3] ++
            [as_u8 (Z.shiftr (zlen (tag ++ x)) 8); as_u8 (zlen (tag ++ x))]).
    rewrite tls_header_bytes by (unfold in_u16; lia). rewrite <- (app_nil_r (be_bytes 2 _)).
    apply idx16_be_bytes; [done|unfold in_u16; lia].
  - right. rewrite zlen_to_nat, Hx. unfold zlen in Hp. lia.
Qed.
End Residual.

Lemma shadowtls_residual_filtered_witness :
  plain_of (dec_server_to_client (str "key") (replicate 32 9))
    ((taint_all (residual_handshake_mac (str "key") (replicate 32 9)) (str "key") (replicate 32 9)
        [str "finished"; str "ticket"]).2 ++
     (encode_all (enc_mac (enc_server_to_client (str "key") (replicate 32 9))) [str "po"; str "ng"]).2) =
  str "pong".
Proof.
  apply (shadowtls_residual_filtered (str "key") (replicate 32 9) [str "finished"; str "ticket"]
    (str "po") [str "ng"]).
  - repeat (apply Forall_cons; split; [apply Nat.leb_le; vm_compute; reflexivity|]). constructor.
  - repeat (apply Forall_cons; split; [apply Nat.leb_le; vm_compute; reflexivity|]). constructor.
  - vm_compute. discriminate.
Defined.

Definition large_record : bytes := replicate (Z.to_nat 16640) 0.

Lemma large_record_length : zlen large_record = 16640.
Proof. unfold zlen, large_record. rewrite length_replicate. apply Z2Nat.id. lia. Qed.

Lemma taint_large_record : exists m' w,
  taint_backend_application_data (residual_handshake_mac (str "key") (replicate 32 9))
    (str "key") (replicate 32 9) (encode_tls_record TLS_APPLICATION_DATA large_record) = Ok (m', w).
Proof.
  unfold taint_backend_application_data. rewrite application_payload_record; [mred; by eexists _, _|].
  rewrite large_record_length. lia.
Qed.

Lemma shadowtls_large_residual_witness :
  exists w m', taint_backend_application_data (residual_handshake_mac (str "key") (replicate 32 9))
      (str "key") (replicate 32 9) (encode_tls_record TLS_APPLICATION_DATA large_record) = Ok (m', w) /\
    plain_of (dec_server_to_client (str "key") (replicate 32 9)) (w ++ str "rest") = [].
Proof.
  destruct taint_large_record as (m' & w & Ht). exists w, m'. split; [exact Ht|].
  apply (shadowtls_large_residual (str "key") (replicate 32 9) large_record w m'); [|exact Ht].
  rewrite large_record_length. unfold MAX_TLS_PLAINTEXT. rewrite Z2Nat.id by lia. lia.
Defined.

(** * The end of a stream *)

Section End.
Context `{Crypto} {S : Type} `{ReadSpec S}.

(** A ShadowTLS stream has no end: no read ever reports end of stream, and a
    peer that closes in an orderly way, after its last complete frame, is reported
    as a connection cut off in the middle of a record. *)
Theorem shadowtls_close_is_error (v v' : V3Stream S) n fuel i :
  v3_read_inv v -> (0 < n)%nat ->
  V3_poll_read fuel v n <> Some (v', Ready (Ok [])) /\
  (read_phase v = READ_PHASE_HEADER -> header_pos v = 0%nat ->
   poll_read (v3_inner v) 5 = (i, Ready (Ok [])) ->
   V3_poll_read 1 v n = Some (set_v3_inner i v, Ready (Err UnexpectedEof))).
Proof.
  intros Hinv Hn. split.
  - intros Hr. apply v3_poll_read_ok in Hr as (_ & _ & _ & Hne); [|done]. by apply Hne.
  - intros Hp Hh Hr. cbn [V3_poll_read]. unfold v3_read_step. rewrite Hp, Hh. eval_eqb.
    change (TLS_HEADER_LEN - 0)%nat with 5%nat. by rewrite Hr.
Qed.
End End.

(** A server that has read everything, and a client that has closed. *)
Lemma shadowtls_close_is_error_witness :
  V3_poll_read 1 (V3_server (mkScript [] [] []) (str "key") (replicate 32 9)) 100 =
    Some (V3_server (mkScript [] [] []) (str "key") (replicate 32 9), Ready (Err UnexpectedEof)).
Proof.
  destruct (shadowtls_close_is_error (V3_server (mkScript [] [] []) (str "key") (replicate 32 9))
    (V3_server (mkScript [] [] []) (str "key") (replicate 32 9)) 100 1 (mkScript [] [] [])) as [_ H].
  - apply v3_new_inv.
  - lia.
  - apply H; reflexivity.
Defined.

(** * The signature in the session id *)

Lemma session_id_offset_no_panic r : no_panic (session_id_offset r).
Proof.
  unfold session_id_offset, TLS_HEADER_LEN, SESSION_ID_LEN. no_panics.
Qed.

Lemma session_id_offset_ok r o :
  session_id_offset r = Ok o -> o = 44%nat /\ (76 <= length r)%nat.
Proof.
  unfold session_id_offset, TLS_HEADER_LEN, SESSION_ID_LEN. intros Hr.
  repeat (case_match; try done; []).
  repeat match type of Hr with
  | mbind _ ?m = Ok _ => destruct m eqn:?; mred in Hr; try done
  | (if ?b then _ else _) = Ok _ => destruct b eqn:?; try done
  end.
  match goal with Hs : slice _ _ _ = Ok _ |- _ => apply slice_Ok_inv in Hs as [Hsl ->] end.
  injection Hr as <-. bool_hyps.
  rewrite length_take, length_drop in *. lia.
Qed.

(** The offset depends on the length of the record and on what precedes the session
    id only. *)
Lemma session_id_offset_ext r r' :
  length r' = length r -> take 44 r' = take 44 r -> session_id_offset r' = session_id_offset r.
Proof.
  intros Hlen Htake.
  assert (Hidx : forall i, (i < 44)%nat -> idx (E:=ProxyError) r' i = idx r i).
  { intros i Hi. unfold idx. by rewrite <- (lookup_take_lt r' 44), <- (lookup_take_lt r 44), Htake by done. }
  assert (Hb : forall n b b', slice (E:=ProxyError) r 5 (5 + n) = Ok b -> slice (E:=ProxyError) r' 5 (5 + n) = Ok b' ->
    length b' = length b /\ forall k, (k < 39)%nat -> idx (E:=ProxyError) b' k = idx b k).
  { intros n b b' [Hb ->]%slice_Ok_inv [Hb' ->]%slice_Ok_inv. rewrite !length_take, !length_drop, Hlen.
    split; [done|]. intros k Hk. replace (5 + n - 5)%nat with n by lia.
    destruct (decide (k < n)%nat).
    - unfold idx. rewrite !lookup_take_lt, !lookup_drop by done. apply Hidx. lia.
    - unfold idx. by rewrite !lookup_take_ge by lia. }
  unfold session_id_offset, TLS_HEADER_LEN, SESSION_ID_LEN. rewrite Hlen.
  case_match; [done|]. rewrite (Hidx 0%nat) by lia. destruct (idx r 0) as [t|e|]; mred; try done.
  case_match; [done|].
  assert (idx16 (E:=ProxyError) r' 3 = idx16 r 3) as -> by (unfold idx16; by rewrite !Hidx by lia).
  destruct (idx16 (E:=ProxyError) r 3) as [n|e|]; mred; try done.
  case_match; [done|]. bool_hyps.
  pose proof (slice_ok (E:=ProxyError) r 5 (5 + Z.to_nat n) ltac:(lia)) as S1.
  pose proof (slice_ok (E:=ProxyError) r' 5 (5 + Z.to_nat n) ltac:(lia)) as S2.
  destruct (Hb _ _ _ S1 S2) as [Hl Hk]. rewrite S1, S2. mred.
  unfold zlen. rewrite Hl. case_match; [done|]. by rewrite !Hk by lia.
Qed.

Section Auth.
Context `{CryptoLaws}.

(** What the tag is computed over: the handshake with the tag's place zeroed. *)
Definition hello_tag (r psk : bytes) : bytes :=
  first_tag (update (update (update (new_from_slice psk) (take 67 (drop 5 r))) [0; 0; 0; 0]) (drop 76 r)).

Lemma client_hello_hmac_ok r psk o :
  session_id_offset r = Ok o -> client_hello_hmac r psk = Ok (hello_tag r psk).
Proof.
  intros Ho. pose proof (session_id_offset_ok _ _ Ho) as [-> Hlen]. unfold client_hello_hmac.
  rewrite Ho. mred. unfold TLS_HEADER_LEN, SESSION_ID_RANDOM_LEN, SESSION_ID_LEN.
  rewrite slice_ok by lia. mred. rewrite (take_ge (drop 5 r)) by (rewrite length_drop; lia).
  rewrite !slice_ok by (rewrite ?length_drop; lia). mred.
  rewrite drop_0, drop_drop, (take_ge (drop (5 + _) r)) by (rewrite !length_drop; lia). reflexivity.
Qed.

Lemma hello_tag_length r psk : length (hello_tag r psk) = 4%nat.
Proof. unfold hello_tag, first_tag, TAG_LEN. rewrite length_take, finalize_length. lia. Qed.

Lemma splice_app (a b c d : bytes) n :
  n = length a -> length b = length c -> splice n c (a ++ b ++ d) = a ++ c ++ d.
Proof.
  intros -> Hb. unfold splice. rewrite take_app_length, <- drop_drop, drop_app_length, <- Hb.
  by rewrite drop_app_length.
Qed.

(** A record by its parts around the session id. *)
Definition around (r sid tag : bytes) : bytes := take 44 r ++ sid ++ tag ++ drop 76 r.

Section Parts.
Context (r sid tag : bytes) (Hr : (76 <= length r)%nat) (Hsid : length sid = 28%nat)
  (Htag : length tag = 4%nat).

Lemma around_length : length (around r sid tag) = length r.
Proof. unfold around. rewrite !length_app, length_take, length_drop. lia. Qed.

Lemma around_offset : session_id_offset (around r sid tag) = session_id_offset r.
Proof.
  apply session_id_offset_ext; [apply around_length|]. unfold around.
  apply take_app_length'. rewrite length_take. lia.
Qed.

Lemma around_tag psk tag' : length tag' = 4%nat ->
  hello_tag (around r sid tag) psk = hello_tag (around r sid tag') psk.
Proof.
  intros Htag'. unfold hello_tag, around.
  assert (Hd : forall t, length t = 4%nat -> drop 76 (take 44 r ++ sid ++ t ++ drop 76 r) = drop 76 r).
  { intros t Ht. rewrite (app_assoc sid), (app_assoc (take 44 r)). apply drop_app_length'.
    rewrite !length_app, length_take. lia. }
  assert (Ht : forall t, length t = 4%nat ->
    take 67 (drop 5 (take 44 r ++ sid ++ t ++ drop 76 r)) = drop 5 (take 44 r ++ sid)).
  { intros t Ht. rewrite (app_assoc (take 44 r) sid), drop_app_le by (rewrite length_app, length_take; lia).
    apply take_app_length'. rewrite length_drop, length_app, length_take. lia. }
  by rewrite !Hd, !Ht.
Qed.

Lemma around_slices :
  slice (E:=ProxyError) (around r sid tag) (44 + 28) (44 + 32) = Ok tag /\
  slice (E:=ProxyError) (around r sid tag) 44 (44 + 32) = Ok (sid ++ tag).
Proof.
  unfold around. split.
  - rewrite (app_assoc (take 44 r)). apply slice_mid; [rewrite length_app, length_take; lia|lia].
  - rewrite (app_assoc sid). apply slice_mid; [rewrite length_take; lia|rewrite length_app; lia].
Qed.

Lemma around_splice tag' : length tag' = 4%nat ->
  splice (44 + 28) tag' (around r sid tag) = around r sid tag'.
Proof.
  intros Ht. unfold around. rewrite (app_assoc (take 44 r)), splice_app; [by rewrite <- app_assoc| |lia].
  rewrite length_app, length_take. lia.
Qed.
End Parts.

Lemma around_fill r fill : (76 <= length r)%nat -> length fill = 28%nat ->
  splice 44 fill r = around r fill (take 4 (drop 72 r)).
Proof.
  intros Hr Hf. unfold around.
  replace (take 4 (drop 72 r) ++ drop 76 r) with (drop 72 r)
    by (rewrite <- (take_drop 4 (drop 72 r)) at 1; by rewrite drop_drop).
  unfold splice. by rewrite Hf.
Qed.

(** The ClientHello is authenticated: signing a well-formed ClientHello changes
    nothing but its session id, which becomes the random bytes and the tag, and the
    server with the same key accepts the result; a hello is accepted exactly when
    the last four bytes of its session id are the tag of the record with these bytes
    zeroed; and neither signing nor verifying panics on any record. *)
Theorem shadowtls_hello_auth :
  (forall r psk, no_panic (verify_client_hello_session_id r psk)) /\
  (forall r psk fill o, session_id_offset r = Ok o -> length fill = 28%nat ->
    exists tag,
      let r' := around r fill tag in let s := mkSession (fill ++ tag) o in
      sign_client_hello_session_id r psk fill = Ok (r', s) /\
      verify_client_hello_session_id r' psk = Ok s) /\
  (forall r psk o, session_id_offset r = Ok o ->
    verify_client_hello_session_id r psk =
    if bool_decide (take 4 (drop 72 r) = hello_tag r psk)
    then Ok (mkSession (take 32 (drop 44 r)) o) else Err AuthFailed).
Proof.
  assert (Hspec : forall r psk o, session_id_offset r = Ok o ->
    verify_client_hello_session_id r psk =
    if bool_decide (take 4 (drop 72 r) = hello_tag r psk)
    then Ok (mkSession (take 32 (drop 44 r)) o) else Err AuthFailed).
  { intros r psk o Ho. pose proof (session_id_offset_ok _ _ Ho) as [-> Hlen].
    unfold verify_client_hello_session_id. rewrite Ho. mred. rewrite (client_hello_hmac_ok _ _ _ Ho). mred.
    unfold SESSION_ID_RANDOM_LEN, SESSION_ID_LEN. rewrite !slice_ok by lia. mred.
    change (44 + 32 - (44 + 28))%nat with 4%nat. change (44 + 32 - 44)%nat with 32%nat.
    change (44 + 28)%nat with 72%nat.
    destruct (decide (hello_tag r psk = take 4 (drop 72 r))) as [He|He].
    - by rewrite !bool_decide_eq_true_2.
    - by rewrite !bool_decide_eq_false_2. }
  split_and!; [|..|exact Hspec].
  - intros r psk. destruct (session_id_offset r) as [o|e|] eqn:Ho.
    + rewrite (Hspec _ _ _ Ho). by case_bool_decide.
    + unfold verify_client_hello_session_id. by rewrite Ho.
    + by apply session_id_offset_no_panic in Ho.
  - intros r psk fill o Ho Hf. pose proof (session_id_offset_ok _ _ Ho) as [-> Hlen].
    set (z := around r fill [0; 0; 0; 0]). exists (hello_tag z psk). cbv zeta.
    pose proof (hello_tag_length z psk) as Htag.
    assert (Hoz : session_id_offset z = Ok 44%nat) by (unfold z; by rewrite around_offset).
    assert (Hot : session_id_offset (around r fill (hello_tag z psk)) = Ok 44%nat)
      by (by rewrite around_offset).
    assert (H4 : length (take 4 (drop 72 r)) = 4%nat) by (rewrite length_take, length_drop; lia).
    destruct (around_slices r fill (hello_tag z psk)) as [S1 S2]; [done..|].
    split.
    + unfold sign_client_hello_session_id. rewrite Ho. mred. unfold SESSION_ID_RANDOM_LEN, SESSION_ID_LEN.
      rewrite around_fill by done. rewrite around_splice by done.
      change (replicate (32 - 28) 0) with [0; 0; 0; 0]. fold z.
      rewrite (client_hello_hmac_ok _ _ _ Hoz). mred.
      assert (splice (44 + 28) (hello_tag z psk) z = around r fill (hello_tag z psk)) as ->
        by (by apply around_splice).
      rewrite S2. done.
    + unfold verify_client_hello_session_id. rewrite Hot. mred. rewrite (client_hello_hmac_ok _ _ _ Hot). mred.
      unfold SESSION_ID_RANDOM_LEN, SESSION_ID_LEN. rewrite S1. mred.
      rewrite (around_tag r fill (hello_tag z psk) Hlen Hf Htag psk [0; 0; 0; 0]) by done. fold z.
      rewrite bool_decide_eq_true_2 by done. cbn [negb]. rewrite S2. done.
Qed.
End Auth.

Lemma shadowtls_hello_auth_witness :
  exists r s, sign_client_hello_session_id chrome_hello (str "key") (replicate 28 5) = Ok (r, s) /\
    verify_client_hello_session_id r (str "key") = Ok s.
Proof.
  destruct (proj1 (proj2 shadowtls_hello_auth) chrome_hello (str "key") (replicate 28 5) 44%nat)
    as (tag & Hs & Hv).
  - vm_compute. reflexivity.
  - reflexivity.
  - eexists _, _. split; [exact Hs|exact Hv].
Defined.

(** * The handshake relay *)

Definition TLS_RECORD_HANDSHAKE : Z := 22.
Definition TLS_RECORD_APPLICATION_DATA : Z := 23.
Definition TLS_HANDSHAKE_SERVER_HELLO : Z := 0x02.

Definition extract_server_random (payload : bytes) : res unit bytes :=
  if (length payload <? 38)%nat then Err tt else
  ty ← idx payload 0;
  if negb (ty =? TLS_HANDSHAKE_SERVER_HELLO) then Err tt else slice payload 6 38.

(** A record as [read_tls_record] returns it. *)
Record tls_record : Type := mkRecord { record_type : Z; version : bytes; record_body : bytes }.

Definition record_header (r : tls_record) : bytes :=
  let len := as_u16 (zlen (record_body r)) in
  [record_type r] ++ version r ++ [as_u8 (Z.shiftr len 8); as_u8 len].

Definition encode_record (r : tls_record) : bytes := record_header r ++ record_body r.

Section Handshake.
Context `{Crypto} {C B : Type} `{AsyncRead C, AsyncWrite C, AsyncRead B, AsyncWrite B}.

(** The future of [read_tls_record]: [got] are the bytes that it has taken from the
    stream so far.  It reads the header first, then as much as the header says. *)
Definition record_need (got : bytes) : nat :=
  if (length got <? 5)%nat then 5 else (5 + Z.to_nat (be_val (take 2 (drop 3 got))))%nat.

Definition record_large (got : bytes) : bool :=
  (5 <=? length got)%nat && (16384 + 2048 <? be_val (take 2 (drop 3 got))).

Fixpoint poll_record {S} `{AsyncRead S} (fuel : nat) (s : S) (got : bytes) :
    S * bytes * poll (result tls_record) :=
  if record_large got then (s, got, Ready (Err (Protocol "ShadowTLS: TLS record too large")))
  else if (5 <=? length got)%nat && (record_need got <=? length got)%nat then
    (s, got, Ready (Ok (mkRecord (default 0 (head got)) (take 2 (drop 1 got)) (drop 5 got))))
  else
    match fuel with
    | O => (s, got, Pending)
    | Datatypes.S fuel' =>
        match poll_read s (record_need got - length got) with
        | (s', Ready (Ok [])) => (s', got, Ready (Err (Transport "ShadowTLS: read record: eof")))
        | (s', Ready (Ok c)) => poll_record fuel' s' (got ++ c)
        | (s', Ready (Err e)) => (s', got, Ready (Err (Transport "ShadowTLS: read record")))
        | (s', Ready Panic) => (s', got, Ready Panic)
        | (s', Pending) => (s', got, Pending)
        end
    end.

(** The variables of [do_v3_relay]. *)
Record V3Relay : Type := mkV3Relay {
  relay_client : C;
  relay_backend : B;
  relay_random : option bytes;
  relay_residual : option ShadowHmac;
  switch_decoder : option V3FrameDecoder
}.

(** [write_all(&record)] and [flush] on the client, with their errors mapped. *)
Definition write_flush {S} `{AsyncWrite S} (fuel : nat) (s : S) (b : bytes) : option (S * result unit) :=
  match write_all fuel s b with
  | Some (s', Ok _) =>
      match await poll_flush fuel s' with
      | Some (s'', Ok _) => Some (s'', Ok tt)
      | Some (s'', Err _) => Some (s'', Err (Transport "ShadowTLS: flush"))
      | Some (s'', Panic) => Some (s'', Panic)
      | None => None
      end
  | Some (s', Err _) => Some (s', Err (Transport "ShadowTLS: write record"))
  | Some (s', Panic) => Some (s', Panic)
  | None => None
  end.

(** The header and the payload are written by two calls. *)
Definition write_tls_record {S} `{AsyncWrite S} (fuel : nat) (s : S) (r : tls_record) :
    option (S * result unit) :=
  match write_all fuel s (record_header r) with
  | Some (s', Ok _) => write_flush fuel s' (record_body r)
  | Some (s', Err _) => Some (s', Err (Transport "ShadowTLS: write record header"))
  | Some (s', Panic) => Some (s', Panic)
  | None => None
  end.

(** How a round of the loop ends: with the next round, with the client's first data
    record, or with an error. *)
Inductive relay_step : Type :=
| Continue (st : V3Relay)
| Switch (st : V3Relay) (server_random record : bytes)
| Failed (e : result unit).

Definition on_client_record (fuel : nat) (psk : bytes) (st : V3Relay) (r : tls_record) :
    option relay_step :=
  let forward st :=
    match write_tls_record fuel (relay_backend st) r with
    | Some (b, Ok _) =>
        Some (Continue (mkV3Relay (relay_client st) b (relay_random st) (relay_residual st)
                          (switch_decoder st)))
    | Some (b, e) => Some (Failed e)
    | None => None
    end in
  if record_type r =? TLS_RECORD_APPLICATION_DATA then
    match relay_random st with
    | None => Some (Failed (Err (Protocol "ShadowTLS v3 client ApplicationData before ServerHello")))
    | Some sr =>
        let decoder := default (dec_client_to_server psk sr) (switch_decoder st) in
        match decode_application_data decoder (encode_record r) with
        | Ok (d, _) =>
            Some (Switch (mkV3Relay (relay_client st) (relay_backend st) (relay_random st)
                            (relay_residual st) (Some d)) sr (encode_record r))
        | Err _ =>
            forward (mkV3Relay (relay_client st) (relay_backend st) (relay_random st)
                       (relay_residual st) (Some decoder))
        | Panic => Some (Failed Panic)
        end
    end
  else forward st.

Definition on_backend_record (fuel : nat) (psk : bytes) (st : V3Relay) (r : tls_record) :
    option relay_step :=
  let st :=
    match relay_random st with
    | Some _ => st
    | None =>
        if (record_type r =? TLS_RECORD_HANDSHAKE) &&
           bool_decide (head (record_body r) = Some TLS_HANDSHAKE_SERVER_HELLO)
        then match extract_server_random (record_body r) with
             | Ok sr =>
                 mkV3Relay (relay_client st) (relay_backend st) (Some sr)
                   (Some (residual_handshake_mac psk sr)) (switch_decoder st)
             | _ => st
             end
        else st
    end in
  let send st record :=
    match write_flush fuel (relay_client st) record with
    | Some (c, Ok _) =>
        Some (Continue (mkV3Relay c (relay_backend st) (relay_random st) (relay_residual st)
                          (switch_decoder st)))
    | Some (c, e) => Some (Failed e)
    | None => None
    end in
  match relay_random st with
  | Some sr =>
      if record_type r =? TLS_RECORD_APPLICATION_DATA then
        match relay_residual st with
        | None => Some (Failed (Err (Protocol "ShadowTLS v3 residual HMAC not initialized")))
        | Some mac =>
            match taint_backend_application_data mac psk sr (encode_record r) with
            | Ok (mac', record) =>
                send (mkV3Relay (relay_client st) (relay_backend st) (relay_random st) (Some mac')
                        (switch_decoder st)) record
            | Err e => Some (Failed (Err e))
            | Panic => Some (Failed Panic)
            end
        end
      else send st (encode_record r)
  | None => send st (encode_record r)
  end.

(** One poll of [tokio::select!]: both futures are polled, the client's first or the
    backend's first; when one is ready its handler runs and both are dropped.
    [inr] keeps the futures for the next poll. *)
Definition select_poll (fuel : nat) (client_first : bool) (psk : bytes) (st : V3Relay)
    (got_c got_b : bytes) : option (relay_step + V3Relay * bytes * bytes) :=
  let with_client c st := mkV3Relay c (relay_backend st) (relay_random st) (relay_residual st) (switch_decoder st) in
  let with_backend b st := mkV3Relay (relay_client st) b (relay_random st) (relay_residual st) (switch_decoder st) in
  let client_ready st (r : result tls_record) :=
    match r with
    | Ok r => inl <$> on_client_record fuel psk st r
    | Err e => Some (inl (Failed (Err e)))
    | Panic => Some (inl (Failed Panic))
    end in
  let backend_ready st (r : result tls_record) :=
    match r with
    | Ok r => inl <$> on_backend_record fuel psk st r
    | Err e => Some (inl (Failed (Err e)))
    | Panic => Some (inl (Failed Panic))
    end in
  if client_first then
    match poll_record fuel (relay_client st) got_c with
    | (c, _, Ready r) => client_ready (with_client c st) r
    | (c, got_c, Pending) =>
        let st := with_client c st in
        match poll_record fuel (relay_backend st) got_b with
        | (b, _, Ready r) => backend_ready (with_backend b st) r
        | (b, got_b, Pending) => Some (inr (with_backend b st, got_c, got_b))
        end
    end
  else
    match poll_record fuel (relay_backend st) got_b with
    | (b, _, Ready r) => backend_ready (with_backend b st) r
    | (b, got_b, Pending) =>
        let st := with_backend b st in
        match poll_record fuel (relay_client st) got_c with
        | (c, _, Ready r) => client_ready (with_client c st) r
        | (c, got_c, Pending) => Some (inr (with_client c st, got_c, got_b))
        end
    end.
End Handshake.

Section RelayFacts.
Context `{Crypto} {C B : Type} `{Duplex C} `{Duplex B}.

Lemma poll_record_incoming {S} `{Duplex S} fuel (s : S) got s' got' r :
  poll_record fuel s got = (s', got', r) ->
  match r with
  | Ready (Err _) | Ready Panic => True
  | _ => got ++ incoming s = got' ++ incoming s' /\ sent s' = sent s
  end.
Proof.
  revert s got. induction fuel as [|fuel IH]; intros s got; cbn [poll_record].
  all: destruct (record_large got); [by intros [= <- <- <-]|].
  all: destruct (_ && _); [by intros [= <- <- <-]|].
  { by intros [= <- <- <-]. }
  destruct (poll_read s _) as [s1 [[c|e|]|]] eqn:Hr; try by intros [= <- <- <-].
  - pose proof (poll_read_sent _ _ _ _ Hr) as Hs. apply poll_read_ok in Hr as (_ & Hin & _).
    destruct c as [|b c]; [by intros [= <- <- <-]|]. intros Hp. apply IH in Hp.
    rewrite Hin, app_assoc, <- Hs. done.
  - pose proof (poll_read_sent _ _ _ _ Hr) as Hs. apply poll_read_pending in Hr.
    intros [= <- <- <-]. by rewrite Hr.
Qed.

Lemma write_flush_incoming {S} `{Duplex S} fuel (s : S) b s' :
  write_flush fuel s b = Some (s', Ok tt) -> incoming s' = incoming s.
Proof.
  unfold write_flush. destruct (write_all fuel s b) as [[s1 [u|e|]]|] eqn:Hw; try done.
  destruct (await poll_flush fuel s1) as [[s2 [u'|e|]]|] eqn:Hf; try done. intros [= <-].
  trans (incoming s1).
  - clear Hw. revert s1 Hf. induction fuel as [|fuel IH]; intros s1; cbn [await]; [done|].
    destruct (poll_flush s1) as [s3 [a|]] eqn:E; apply poll_flush_incoming in E.
    + by intros [= <- _].
    + intros Hs. apply IH in Hs. congruence.
  - clear Hf. revert s b Hw. induction fuel as [|fuel IH]; intros s [|x b]; cbn [write_all]; try done.
    1,2: by intros [= <-].
    destruct (poll_write s (x :: b)) as [s3 [[[|n]|e|]|]] eqn:E; try done;
      apply poll_write_incoming in E; intros Hs; apply IH in Hs; congruence.
Qed.

(** A record of the backend leaves the client's input and the backend alone. *)
Lemma on_backend_record_frame fuel psk (st st' : @V3Relay _ C B) r :
  on_backend_record fuel psk st r = Some (Continue st') ->
  incoming (relay_client st') = incoming (relay_client st) /\ relay_backend st' = relay_backend st.
Proof.
  unfold on_backend_record. set (st1 := match relay_random st with Some _ => _ | None => _ end).
  assert (Hst1 : relay_client st1 = relay_client st /\ relay_backend st1 = relay_backend st).
  { subst st1. repeat case_match; done. }
  destruct Hst1 as [<- <-]. clearbody st1. rename st1 into s.
  assert (Hsend : forall s' : @V3Relay _ C B, relay_client s' = relay_client s -> relay_backend s' = relay_backend s ->
    forall b, match write_flush fuel (relay_client s') b with
      | Some (c, Ok _) => Some (Continue (mkV3Relay c (relay_backend s') (relay_random s')
          (relay_residual s') (switch_decoder s')))
      | Some (c, e) => Some (Failed e)
      | None => None
      end = Some (Continue st') ->
    incoming (relay_client st') = incoming (relay_client s) /\ relay_backend st' = relay_backend s).
  { intros s' Hc Hb b. destruct (write_flush fuel (relay_client s') b) as [[c [[]|e|]]|] eqn:Hw; try done.
    intros [= <-]. cbn. apply write_flush_incoming in Hw. by rewrite Hw, Hc. }
  destruct s as [cl bk [sr|] res dec]; cbn [relay_random relay_residual];
    [|exact (Hsend (mkV3Relay cl bk None res dec) eq_refl eq_refl _)].
  destruct (record_type r =? _); [|exact (Hsend (mkV3Relay cl bk (Some sr) res dec) eq_refl eq_refl _)].
  destruct res as [mac|]; [|done].
  destruct (taint_backend_application_data _ _ _ _) as [[m w]|e|]; try done.
  exact (Hsend (mkV3Relay cl bk (Some sr) (Some m) dec) eq_refl eq_refl _).
Qed.

(** The handshake relay can lose client bytes: when a record of the client has
    arrived in part and a record of the backend is complete, [select!] drops the
    read in progress; the relay goes on, but the part that had been read is gone:
    it was taken from the client, and nothing was forwarded to the backend. *)
Theorem shadowtls_relay_loses_bytes fuel psk (st : @V3Relay _ C B) c a b got r step :
  poll_record fuel (relay_client st) [] = (c, a, Pending) ->
  poll_record fuel (relay_backend st) [] = (b, got, Ready (Ok r)) ->
  select_poll fuel true psk st [] [] = Some (inl (Continue step)) ->
  incoming (relay_client st) = a ++ incoming (relay_client step) /\
  sent (relay_backend step) = sent (relay_backend st).
Proof.
  intros Hc Hb. unfold select_poll. rewrite Hc. cbn [relay_backend]. rewrite Hb.
  apply poll_record_incoming in Hc as [Hc _]. apply poll_record_incoming in Hb as [_ Hb].
  destruct (on_backend_record fuel psk _ r) as [x|] eqn:Ho; [|done].
  intros [= ->]. apply on_backend_record_frame in Ho as [Hi Hbk].
  rewrite Hi, Hbk. cbn. split; [exact Hc|exact Hb].
Qed.
End RelayFacts.

(** The client's finished message arrives in two pieces around a record of the
    backend. *)
Definition split_client : Script := mkScript [Some [20; 3; 3]; None; Some [0; 1; 1]] [] [].
Definition one_record_backend : Script := mkScript [Some [22; 3; 3; 0; 1; 9]] [] [].
Definition split_relay : V3Relay := mkV3Relay split_client one_record_backend None None None.

Lemma shadowtls_relay_loses_bytes_witness :
  exists st, select_poll 9 true (str "key") split_relay [] [] = Some (inl (Continue st)) /\
    incoming split_client = [20; 3; 3] ++ incoming (relay_client st) /\
    sent (relay_backend st) = [].
Proof.
  destruct (select_poll 9 true (str "key") split_relay [] []) as [[[st|st sr rec|e]|x]|] eqn:E.
  - exists st. split; [reflexivity|].
    destruct (shadowtls_relay_loses_bytes 9 (str "key") split_relay
      (mkScript [Some [0; 1; 1]] [] []) [20; 3; 3] (mkScript [] [] []) [22; 3; 3; 0; 1; 9]
      (mkRecord 22 [3; 3] [9]) st) as [H1 H2]; [reflexivity|reflexivity|exact E|].
    split; [exact H1|exact H2].
  - exfalso. discriminate E.
  - exfalso. discriminate E.
  - exfalso. discriminate E.
  - exfalso. discriminate E.
Defined.
