(* ===== verification/Splice.v ===== *)
(** * Relaying through kernel pipes

    [blackwire-common] [splice.rs]: the epoll relay, in which every direction moves
    bytes from its source socket into a pipe and from the pipe into its destination
    socket.  A [splice(2)] call on a socket is a poll of that socket: [EAGAIN] is a poll
    that is not ready.  What a pipe holds is the list of its bytes. *)

From S2P Require Import Prelude AsyncIo.

Definition PIPE_CAPACITY : nat := Z.to_nat (256 * 1024).
Definition EPOLL_SPLICE_YIELD_INTERVAL : Z := 1024 * 1024.

(** ** One direction of the epoll relay *)

(** Where [splice_one_direction] waits: before its first poll, which opens the pipe ([pipe2]
    succeeds or gives an error); in phase A; in phase B with the bytes of this round and
    those still in the pipe; in the shutdown of the destination. *)
Inductive splice_phase : Type :=
| PhaseOpen (pipe2 : option io_error)
| PhaseIn
| PhaseOut (in_bytes remaining : nat)
| PhaseShutdown.

Record SpliceDir : Type := mkSplice {
  pipe : bytes;
  total : Z;
  phase : splice_phase
}.

Definition SpliceDir_new (pipe2 : option io_error) : SpliceDir := mkSplice [] 0 (PhaseOpen pipe2).

Section OneDirection.
Context {S D : Type} `{AsyncRead S} `{AsyncWrite D}.

(** [splice(src -> pipe)] and [splice(pipe -> dst)]. *)
Definition splice_in (src : S) (p : bytes) : S * bytes * poll (res io_error nat) :=
  match poll_read src PIPE_CAPACITY with
  | (src', Ready (Ok c)) => (src', p ++ c, Ready (Ok (length c)))
  | (src', Ready (Err e)) => (src', p, Ready (Err e))
  | (src', Ready Panic) => (src', p, Ready Panic)
  | (src', Pending) => (src', p, Pending)
  end.

Definition splice_out (p : bytes) (dst : D) (len : nat) : D * bytes * poll (res io_error nat) :=
  match poll_write dst (take len p) with
  | (dst', Ready (Ok n)) => (dst', drop n p, Ready (Ok n))
  | (dst', r) => (dst', p, r)
  end.

(** A round of the loops up to the next system call or wait: [None] goes on, [Some]
    is what the poll of the future returns. *)
Definition splice_step (src : S) (dst : D) (x : SpliceDir) :
    S * D * SpliceDir * option (poll (res io_error Z)) :=
  match phase x with
  | PhaseOpen None => (src, dst, mkSplice (pipe x) (total x) PhaseIn, None)
  | PhaseOpen (Some e) => (src, dst, x, Some (Ready (Err e)))
  | PhaseIn =>
      match splice_in src (pipe x) with
      | (src', p, Ready (Ok O)) => (src', dst, mkSplice p (total x) PhaseShutdown, None)
      | (src', p, Ready (Ok n)) => (src', dst, mkSplice p (total x) (PhaseOut n n), None)
      | (src', p, Ready (Err e)) => (src', dst, mkSplice p (total x) PhaseIn, Some (Ready (Err e)))
      | (src', p, Ready Panic) => (src', dst, mkSplice p (total x) PhaseIn, Some (Ready Panic))
      | (src', p, Pending) => (src', dst, mkSplice p (total x) PhaseIn, Some Pending)
      end
  | PhaseOut in_bytes O =>
      (src, dst, mkSplice (pipe x) (total x) PhaseIn,
       if total x mod EPOLL_SPLICE_YIELD_INTERVAL <? Z.of_nat in_bytes then Some Pending else None)
  | PhaseOut in_bytes remaining =>
      match splice_out (pipe x) dst remaining with
      | (dst', p, Ready (Ok O)) =>
          (src, dst', mkSplice p (total x) (PhaseOut in_bytes remaining), Some Pending)
      | (dst', p, Ready (Ok n)) =>
          (src, dst', mkSplice p (as_u64 (total x + Z.of_nat n)) (PhaseOut in_bytes (remaining - n)),
           None)
      | (dst', p, Ready (Err e)) =>
          (src, dst', mkSplice p (total x) (PhaseOut in_bytes remaining), Some (Ready (Err e)))
      | (dst', p, Ready Panic) =>
          (src, dst', mkSplice p (total x) (PhaseOut in_bytes remaining), Some (Ready Panic))
      | (dst', p, Pending) =>
          (src, dst', mkSplice p (total x) (PhaseOut in_bytes remaining), Some Pending)
      end
  | PhaseShutdown =>
      match poll_shutdown dst with
      | (dst', Ready Panic) => (src, dst', x, Some (Ready Panic))
      | (dst', Ready _) => (src, dst', x, Some (Ready (Ok (total x))))
      | (dst', Pending) => (src, dst', x, Some Pending)
      end
  end.

(** A poll of [splice_one_direction]; a poll that has used up its fuel is taken as not
    ready. *)
Fixpoint splice_one_direction (fuel : nat) (src : S) (dst : D) (x : SpliceDir) :
    S * D * SpliceDir * poll (res io_error Z) :=
  match fuel with
  | O => (src, dst, x, Pending)
  | Datatypes.S fuel' =>
      match splice_step src dst x with
      | (src', dst', x', Some r) => (src', dst', x', r)
      | (src', dst', x', None) => splice_one_direction fuel' src' dst' x'
      end
  end.
End OneDirection.

(** ** Both directions *)

(** The state of [splice_bidirectional_epoll]: both directions run, or one has ended
    with its total and the other is being drained. *)
Inductive splice_both : Type :=
| Racing (ab ba : SpliceDir)
| DrainDown (up : Z) (ba : SpliceDir)
| DrainUp (down : Z) (ab : SpliceDir).

Definition splice_start (pipe2_ab pipe2_ba : option io_error) : splice_both :=
  Racing (SpliceDir_new pipe2_ab) (SpliceDir_new pipe2_ba).

Section Both.
Context {A B : Type} `{AsyncRead A, AsyncWrite A, AsyncRead B, AsyncWrite B}.

(** [timeout(PEER_DRAIN, peer)]: the direction is polled first, then the timer. *)
Definition drain_peer (r : poll (res io_error Z)) (timer : bool) : poll (res io_error Z) :=
  match r with
  | Pending => if timer then Ready (Ok 0) else Pending
  | _ => r
  end.

Definition drain_down (fuel : nat) (timer : bool) (a : A) (b : B) (up : Z) (ba : SpliceDir) :
    A * B * splice_both * poll (res io_error (Z * Z)) :=
  let '(b', a', ba', r) := splice_one_direction fuel b a ba in
  (a', b', DrainDown up ba',
   match drain_peer r timer with
   | Ready (Ok down) => Ready (Ok (up, down))
   | Ready (Err e) => Ready (Err e)
   | Ready Panic => Ready Panic
   | Pending => Pending
   end).

Definition drain_up (fuel : nat) (timer : bool) (a : A) (b : B) (down : Z) (ab : SpliceDir) :
    A * B * splice_both * poll (res io_error (Z * Z)) :=
  let '(a', b', ab', r) := splice_one_direction fuel a b ab in
  (a', b', DrainUp down ab',
   match drain_peer r timer with
   | Ready (Ok up) => Ready (Ok (up, down))
   | Ready (Err e) => Ready (Err e)
   | Ready Panic => Ready Panic
   | Pending => Pending
   end).

(** One poll: [select!] polls the directions in either order; the first that is ready
    decides. *)
Definition splice_bidirectional_epoll (fuel : nat) (ab_first timer : bool) (a : A) (b : B)
    (st : splice_both) : A * B * splice_both * poll (res io_error (Z * Z)) :=
  match st with
  | DrainDown up ba => drain_down fuel timer a b up ba
  | DrainUp down ab => drain_up fuel timer a b down ab
  | Racing ab ba =>
      if ab_first then
        match splice_one_direction fuel a b ab with
        | (a, b, ab, Ready (Ok up)) => drain_down fuel timer a b up ba
        | (a, b, ab, Ready (Err e)) => (a, b, Racing ab ba, Ready (Err e))
        | (a, b, ab, Ready Panic) => (a, b, Racing ab ba, Ready Panic)
        | (a, b, ab, Pending) =>
            match splice_one_direction fuel b a ba with
            | (b, a, ba, Ready (Ok down)) => drain_up fuel timer a b down ab
            | (b, a, ba, Ready (Err e)) => (a, b, Racing ab ba, Ready (Err e))
            | (b, a, ba, Ready Panic) => (a, b, Racing ab ba, Ready Panic)
            | (b, a, ba, Pending) => (a, b, Racing ab ba, Pending)
            end
        end
      else
        match splice_one_direction fuel b a ba with
        | (b, a, ba, Ready (Ok down)) => drain_up fuel timer a b down ab
        | (b, a, ba, Ready (Err e)) => (a, b, Racing ab ba, Ready (Err e))
        | (b, a, ba, Ready Panic) => (a, b, Racing ab ba, Ready Panic)
        | (b, a, ba, Pending) =>
            match splice_one_direction fuel a b ab with
            | (a, b, ab, Ready (Ok up)) => drain_down fuel timer a b up ba
            | (a, b, ab, Ready (Err e)) => (a, b, Racing ab ba, Ready (Err e))
            | (a, b, ab, Ready Panic) => (a, b, Racing ab ba, Ready Panic)
            | (a, b, ab, Pending) => (a, b, Racing ab ba, Pending)
            end
        end
  end.

(** The polls of one relay: each in the order and with the timer that it met. *)
Inductive splicing (a0 : A) (b0 : B) : A -> B -> splice_both -> Prop :=
| splicing_start pipe2_ab pipe2_ba : splicing a0 b0 a0 b0 (splice_start pipe2_ab pipe2_ba)
| splicing_poll fuel first timer a b st a' b' st' :
    splicing a0 b0 a b st ->
    splice_bidirectional_epoll fuel first timer a b st = (a', b', st', Pending) ->
    splicing a0 b0 a' b' st'.
End Both.

(** ** One direction keeps every byte *)

Section DirectionFacts.
Context {S D : Type} `{Duplex S} `{Duplex D}.

(** What was sent, what the pipe holds and what is still to come are the bytes of the
    source, in this order. *)
Record dir_inv (sent0 inc0 : bytes) (src : S) (dst : D) (x : SpliceDir) : Prop := {
  dir_flow : sent dst ++ pipe x ++ incoming src = sent0 ++ inc0;
  dir_total : total x = as_u64 (zlen (sent dst) - zlen sent0);
  dir_phase :
    match phase x with
    | PhaseOpen _ | PhaseIn => pipe x = []
    | PhaseOut _ remaining => remaining = length (pipe x)
    | PhaseShutdown => pipe x = [] /\ incoming src = []
    end
}.

Definition dir_complete (sent0 inc0 : bytes) (src : S) (dst : D) (t : Z) : Prop :=
  incoming src = [] /\ sent dst = sent0 ++ inc0 /\ t = as_u64 (zlen inc0).

Definition dir_post (sent0 inc0 : bytes) (src' : S) (dst' : D) (x' : SpliceDir)
    (r : option (poll (res io_error Z))) : Prop :=
  match r with
  | None | Some Pending => dir_inv sent0 inc0 src' dst' x'
  | Some (Ready (Ok t)) => dir_complete sent0 inc0 src' dst' t
  | Some (Ready (Err _)) => True
  | Some (Ready Panic) => False
  end.

Lemma splice_in_spec (src src' : S) p p' r :
  splice_in src p = (src', p', r) ->
  sent src' = sent src /\
  match r with
  | Ready (Ok n) => exists c, p' = p ++ c /\ n = length c /\ incoming src = c ++ incoming src' /\
      (c = [] -> incoming src = [])
  | Ready (Err _) => p' = p
  | Ready Panic => False
  | Pending => p' = p /\ incoming src' = incoming src
  end.
Proof.
  unfold splice_in. destruct (poll_read src PIPE_CAPACITY) as [s1 [[c|e|]|]] eqn:E;
    pose proof (poll_read_sent _ _ _ _ E) as Hs; intros [= <- <- <-]; split; try done.
  - apply poll_read_ok in E as (_ & Hi & Hnil). exists c. split_and!; try done.
    intros Hc. by destruct (Hnil Hc).
  - by apply poll_read_no_panic in E.
  - by apply poll_read_pending in E.
Qed.

Lemma splice_out_spec (dst dst' : D) p p' len r :
  splice_out p dst len = (dst', p', r) ->
  incoming dst' = incoming dst /\
  match r with
  | Ready (Ok n) => (n <= length (take len p))%nat /\ sent dst' ++ p' = sent dst ++ p /\
      p' = drop n p /\ zlen (sent dst') = zlen (sent dst) + Z.of_nat n
  | Ready Panic => False
  | _ => p' = p /\ sent dst' = sent dst
  end.
Proof.
  unfold splice_out. destruct (poll_write dst (take len p)) as [d1 r1] eqn:E.
  pose proof (poll_write_incoming _ _ _ _ E) as Hi.
  destruct r1 as [[n|e|]|]; intros [= <- <- <-]; (split; [done|]).
  - apply poll_write_ok in E as [Hn Hs]. rewrite length_take in Hn. rewrite Hs, take_take.
    rewrite Nat.min_l by lia. rewrite <- app_assoc, take_drop. rewrite length_take.
    split_and!; try done. unfold zlen. rewrite length_app, length_take. lia.
  - apply poll_write_not_ok in E; done.
  - by apply poll_write_no_panic in E.
  - apply poll_write_not_ok in E; done.
Qed.

Lemma splice_step_inv sent0 inc0 src dst x src' dst' x' r :
  dir_inv sent0 inc0 src dst x -> splice_step src dst x = (src', dst', x', r) ->
  dir_post sent0 inc0 src' dst' x' r /\ sent src' = sent src /\ incoming dst' = incoming dst.
Proof.
  intros [Hf Ht Hp]. unfold splice_step. destruct x as [p t ph]. cbn [pipe total phase] in *.
  destruct ph as [[e|]| |i [|k]|].
  - by intros [= <- <- <- <-].
  - intros [= <- <- <- <-]. by split_and!.
  - destruct (splice_in src p) as [[s1 p1] r1] eqn:E. apply splice_in_spec in E as [Hs Hr].
    destruct r1 as [[n|e|]|].
    + destruct Hr as (c & -> & -> & Hi & Hnil). subst p. cbn [app] in *.
      destruct c as [|b c]; cbn [length]; intros [= <- <- <- <-]; cbn [dir_post]; split_and!; try done.
      * specialize (Hnil eq_refl). split; cbn; [by rewrite Hi in Hf|done|]. by rewrite Hi in Hnil.
      * split; cbn; [by rewrite Hi in Hf|done|done].
    + by intros [= <- <- <- <-].
    + done.
    + destruct Hr as [-> Hi]. intros [= <- <- <- <-]. split_and!; try done. split; cbn; by rewrite ?Hi.
  - intros [= <- <- <- <-]. case_match; (split_and!; [|done|done]); split; cbn; try done;
      by apply nil_length_inv.
  - destruct (splice_out p dst (Datatypes.S k)) as [[d1 p1] r1] eqn:E. apply splice_out_spec in E as [Hs Hr].
    destruct r1 as [[[|n]|e|]|].
    + destruct Hr as (_ & Hsp & -> & Hz). intros [= <- <- <- <-]. split_and!; try done.
      rewrite drop_0 in *. split; cbn; [by rewrite app_assoc, Hsp, <- app_assoc|rewrite Ht; f_equal; lia|done].
    + destruct Hr as (Hn & Hsp & -> & Hz). rewrite length_take in Hn. intros [= <- <- <- <-]. split_and!; try done.
      split; cbn [pipe total phase].
      * by rewrite app_assoc, Hsp, <- app_assoc.
      * rewrite Ht, as_u64_add. f_equal. lia.
      * rewrite length_drop. lia.
    + by intros [= <- <- <- <-].
    + done.
    + destruct Hr as [-> Hd]. intros [= <- <- <- <-]. split_and!; try done. split; cbn; by rewrite ?Hd.
  - destruct (poll_shutdown dst) as [d1 r1] eqn:E. pose proof (poll_shutdown_incoming _ _ _ E) as Hi.
    pose proof (poll_shutdown_sent _ _ _ E) as Hs. destruct Hp as [-> Hin].
    assert (Hfin : dir_complete sent0 inc0 src d1 t).
    { rewrite Hin in Hf. cbn in Hf. rewrite app_nil_r in Hf. split_and!; [done|congruence|].
      rewrite Ht, Hf. f_equal. unfold zlen. rewrite length_app. lia. }
    destruct r1 as [[u|e|]|].
    1,2: intros [= <- <- <- <-]; done.
    + by apply poll_shutdown_no_panic in E.
    + intros [= <- <- <- <-]. split_and!; try done. split; cbn; by rewrite ?Hs.
Qed.

Lemma splice_one_inv fuel sent0 inc0 src dst x src' dst' x' r :
  dir_inv sent0 inc0 src dst x -> splice_one_direction fuel src dst x = (src', dst', x', r) ->
  dir_post sent0 inc0 src' dst' x' (Some r) /\ sent src' = sent src /\ incoming dst' = incoming dst.
Proof.
  revert src dst x. induction fuel as [|fuel IH]; intros src dst x Hx; cbn [splice_one_direction].
  { by intros [= <- <- <- <-]. }
  destruct (splice_step src dst x) as [[[s1 d1] x1] [r1|]] eqn:E;
    destruct (splice_step_inv _ _ _ _ _ _ _ _ _ Hx E) as (Hp & Hs & Hi).
  - by intros [= <- <- <- <-].
  - intros Hl. destruct (IH _ _ _ Hp Hl) as (? & Hs' & Hi'). split_and!; [done|congruence|congruence].
Qed.

(** Whatever happens, errors included, nothing is repeated or reordered: what was sent, what
    the pipe holds and what is to come is what it was, less what a failed read gave up. *)
Lemma splice_step_sub `{!ReadErrors S} whole (src : S) (dst : D) x src' dst' x' r :
  sent dst ++ pipe x ++ incoming src `sublist_of` whole -> splice_step src dst x = (src', dst', x', r) ->
  sent dst' ++ pipe x' ++ incoming src' `sublist_of` whole /\ sent src' = sent src /\ incoming dst' = incoming dst /\ r <> Some (Ready Panic).
Proof.
  intros Hf. unfold splice_step. destruct x as [p t ph]. cbn [pipe total phase] in *. destruct ph as [[e|]| |i [|k]|].
  - by intros [= <- <- <- <-].
  - by intros [= <- <- <- <-].
  - unfold splice_in. destruct (poll_read src PIPE_CAPACITY) as [s1 r1] eqn:E. pose proof (poll_read_sent _ _ _ _ E) as Hs.
    destruct r1 as [[[|b c]|e|]|]; cbn [length]; try (by apply poll_read_no_panic in E); intros [= <- <- <- <-]; cbn [pipe]; split_and!; try done.
    + apply poll_read_ok in E as (_ & Hi & _). by rewrite app_nil_r, <- (app_nil_l (incoming s1)), <- Hi.
    + apply poll_read_ok in E as (_ & Hi & _). by rewrite <- app_assoc, <- Hi.
    + apply poll_read_err in E. etrans; [|exact Hf]. do 2 apply sublist_after. by apply suffix_is_sublist.
    + apply poll_read_pending in E. by rewrite E.
  - intros [= <- <- <- <-]. split_and!; try done. by case_match.
  - destruct (splice_out p dst (Datatypes.S k)) as [[d1 p1] r1] eqn:E. apply splice_out_spec in E as [Hs Hr].
    destruct r1 as [[[|n]|e|]|]; try done; intros [= <- <- <- <-]; cbn [pipe]; split_and!; try done.
    + destruct Hr as (_ & Hsp & _). by rewrite app_assoc, Hsp, <- app_assoc.
    + destruct Hr as (_ & Hsp & _). by rewrite app_assoc, Hsp, <- app_assoc.
    + by destruct Hr as [-> ->].
    + by destruct Hr as [-> ->].
  - destruct (poll_shutdown dst) as [d1 r1] eqn:E. pose proof (poll_shutdown_incoming _ _ _ E) as Hi.
    pose proof (poll_shutdown_sent _ _ _ E) as Hs.
    destruct r1 as [[u|e|]|]; try (by apply poll_shutdown_no_panic in E); intros [= <- <- <- <-]; cbn [pipe]; rewrite Hs; by split_and!.
Qed.

Lemma splice_one_sub `{!ReadErrors S} whole fuel (src : S) (dst : D) x src' dst' x' r :
  sent dst ++ pipe x ++ incoming src `sublist_of` whole -> splice_one_direction fuel src dst x = (src', dst', x', r) ->
  sent dst' ++ pipe x' ++ incoming src' `sublist_of` whole /\ sent src' = sent src /\ incoming dst' = incoming dst /\ r <> Ready Panic.
Proof.
  revert src dst x. induction fuel as [|fuel IH]; intros src dst x Hx; cbn [splice_one_direction].
  { by intros [= <- <- <- <-]. }
  destruct (splice_step src dst x) as [[[s1 d1] x1] [r1|]] eqn:E;
    destruct (splice_step_sub _ _ _ _ _ _ _ _ Hx E) as (Hp & Hs & Hi & Hn).
  - intros [= <- <- <- <-]. split_and!; try done. congruence.
  - intros Hl. destruct (IH _ _ _ Hp Hl) as (? & Hs' & Hi' & ?). split_and!; [done|congruence|congruence|done].
Qed.

(** Enough fuel for a poll: every system call moves a byte or ends a phase. *)
Definition splice_measure (src : S) (x : SpliceDir) : nat :=
  match phase x with
  | PhaseOpen _ => 3 * length (incoming src) + 3
  | PhaseIn => 3 * length (incoming src) + 2
  | PhaseOut _ remaining => 3 * length (incoming src) + remaining + 3
  | PhaseShutdown => 1
  end.

Lemma splice_step_measure src dst x src' dst' x' :
  splice_step src dst x = (src', dst', x', None) -> (splice_measure src' x' < splice_measure src x)%nat.
Proof.
  unfold splice_step, splice_measure. destruct x as [p t [[e|]| |i [|k]|]]; cbn [pipe total phase]; [done|..].
  - intros [= <- <- <-]. cbn [phase]. lia.
  - destruct (splice_in src p) as [[s1 p1] r1] eqn:E. apply splice_in_spec in E as [_ Hr].
    destruct r1 as [[[|n]|e|]|]; intros [= <- <- <-]; cbn [phase]; [lia|].
    destruct Hr as (c & _ & Hn & Hi & _). rewrite Hi, length_app. lia.
  - intros [= <- <- <- _]. cbn [phase]. lia.
  - destruct (splice_out p dst (Datatypes.S k)) as [[d1 p1] [[[|n]|e|]|]] eqn:E;
      intros [= <- <- <-]; cbn [phase]. lia.
  - destruct (poll_shutdown dst) as [d1 [[u|e|]|]]; done.
Qed.

Lemma splice_fuel fuel k src dst x :
  (splice_measure src x < fuel)%nat ->
  splice_one_direction (fuel + k) src dst x = splice_one_direction fuel src dst x.
Proof.
  revert src dst x. induction fuel as [|fuel IH]; intros src dst x Hf; [lia|].
  cbn [splice_one_direction Nat.add].
  destruct (splice_step src dst x) as [[[s1 d1] x1] [r1|]] eqn:E; [done|].
  apply splice_step_measure in E. apply IH. lia.
Qed.
End DirectionFacts.

(** ** Both directions together *)

Section BothFacts.
Context {A B : Type} `{Duplex A} `{Duplex B}.

Definition both_inv (a0 : A) (b0 : B) (a : A) (b : B) (st : splice_both) : Prop :=
  match st with
  | Racing ab ba =>
      dir_inv (sent b0) (incoming a0) a b ab /\ dir_inv (sent a0) (incoming b0) b a ba
  | DrainDown up ba =>
      dir_complete (sent b0) (incoming a0) a b up /\ dir_inv (sent a0) (incoming b0) b a ba
  | DrainUp down ab =>
      dir_complete (sent a0) (incoming b0) b a down /\ dir_inv (sent b0) (incoming a0) a b ab
  end.

(** A direction does not see what the other one does to its sockets. *)
Lemma dir_inv_frame sent0 inc0 (src src' : A) (dst dst' : B) x :
  dir_inv sent0 inc0 src dst x -> incoming src' = incoming src -> sent dst' = sent dst ->
  dir_inv sent0 inc0 src' dst' x.
Proof. intros [Hf Ht Hp] Hi Hs. split; by rewrite ?Hi, ?Hs. Qed.

(** The whole stream of one direction: sent, in the pipe, and to come. *)
Definition cut_short (sent0 inc0 sent' : bytes) (rest : bytes) : Prop :=
  sent' ++ rest = sent0 ++ inc0.

(** What a poll of the relay may return. *)
Definition both_post (a0 : A) (b0 : B) (timer : bool) (a : A) (b : B) (st : splice_both)
    (r : poll (res io_error (Z * Z))) : Prop :=
  match r with
  | Pending => both_inv a0 b0 a b st
  | Ready (Ok (up, down)) =>
      dir_complete (sent b0) (incoming a0) a b up /\
        (dir_complete (sent a0) (incoming b0) b a down \/
         timer = true /\ down = 0 /\ exists p, cut_short (sent a0) (incoming b0) (sent a) (p ++ incoming b)) \/
      dir_complete (sent a0) (incoming b0) b a down /\
        timer = true /\ up = 0 /\ exists p, cut_short (sent b0) (incoming a0) (sent b) (p ++ incoming a)
  | Ready (Err _) => True
  | Ready Panic => False
  end.
End BothFacts.

Lemma dir_complete_frame {S D} `{Duplex S} `{Duplex D} sent0 inc0 (src src' : S) (dst dst' : D) t :
  dir_complete sent0 inc0 src dst t -> incoming src' = incoming src -> sent dst' = sent dst ->
  dir_complete sent0 inc0 src' dst' t.
Proof. intros (? & ? & ?) Hi Hs. split_and!; congruence. Qed.

Section BothPolls.
Context {A B : Type} `{Duplex A} `{Duplex B}.

Lemma drain_down_inv (a0 : A) (b0 : B) fuel timer a b up ba a' b' st' r :
  both_inv a0 b0 a b (DrainDown up ba) -> drain_down fuel timer a b up ba = (a', b', st', r) ->
  both_post a0 b0 timer a' b' st' r.
Proof.
  intros [Hc Hi]. unfold drain_down.
  destruct (splice_one_direction fuel b a ba) as [[[b1 a1] x1] r1] eqn:E.
  destruct (splice_one_inv _ _ _ _ _ _ _ _ _ _ Hi E) as (Hp & Hsb & Hia). intros [= <- <- <- <-].
  assert (Hc1 : dir_complete (sent b0) (incoming a0) a1 b1 up) by (by eapply dir_complete_frame).
  unfold drain_peer. destruct r1 as [[t|e|]|]; cbn [both_post]; try done.
  - left. split; [done|]. by left.
  - destruct timer; cbn [both_post].
    + left. split; [done|]. right. split_and!; [done|done|]. exists (pipe x1). unfold cut_short.
      by apply Hp.
    + by split.
Qed.

Lemma drain_up_inv (a0 : A) (b0 : B) fuel timer a b down ab a' b' st' r :
  both_inv a0 b0 a b (DrainUp down ab) -> drain_up fuel timer a b down ab = (a', b', st', r) ->
  both_post a0 b0 timer a' b' st' r.
Proof.
  intros [Hc Hi]. unfold drain_up.
  destruct (splice_one_direction fuel a b ab) as [[[a1 b1] x1] r1] eqn:E.
  destruct (splice_one_inv _ _ _ _ _ _ _ _ _ _ Hi E) as (Hp & Hsa & Hib). intros [= <- <- <- <-].
  assert (Hc1 : dir_complete (sent a0) (incoming b0) b1 a1 down) by (by eapply dir_complete_frame).
  unfold drain_peer. destruct r1 as [[t|e|]|]; cbn [both_post]; try done.
  - left. split; [done|]. by left.
  - destruct timer; cbn [both_post].
    + right. split_and!; [done|done|done|]. exists (pipe x1). by apply Hp.
    + by split.
Qed.

(** A poll of the first direction that leaves the other in place. *)
Lemma splice_ab_inv (a0 : A) (b0 : B) fuel a b ab ba a' b' ab' r :
  both_inv a0 b0 a b (Racing ab ba) -> splice_one_direction fuel a b ab = (a', b', ab', r) ->
  match r with
  | Pending => both_inv a0 b0 a' b' (Racing ab' ba)
  | Ready (Ok up) => both_inv a0 b0 a' b' (DrainDown up ba)
  | Ready (Err _) => True
  | Ready Panic => False
  end.
Proof.
  intros [Hab Hba] E. destruct (splice_one_inv _ _ _ _ _ _ _ _ _ _ Hab E) as (Hp & Hsa & Hib).
  pose proof (dir_inv_frame _ _ _ _ _ _ _ Hba Hib Hsa). by destruct r as [[t|e|]|].
Qed.

Lemma splice_ba_inv (a0 : A) (b0 : B) fuel a b ab ba a' b' ba' r :
  both_inv a0 b0 a b (Racing ab ba) -> splice_one_direction fuel b a ba = (b', a', ba', r) ->
  match r with
  | Pending => both_inv a0 b0 a' b' (Racing ab ba')
  | Ready (Ok down) => both_inv a0 b0 a' b' (DrainUp down ab)
  | Ready (Err _) => True
  | Ready Panic => False
  end.
Proof.
  intros [Hab Hba] E. destruct (splice_one_inv _ _ _ _ _ _ _ _ _ _ Hba E) as (Hp & Hsb & Hia).
  pose proof (dir_inv_frame _ _ _ _ _ _ _ Hab Hia Hsb). by destruct r as [[t|e|]|].
Qed.

Lemma splice_both_inv (a0 : A) (b0 : B) fuel first timer a b st a' b' st' r :
  both_inv a0 b0 a b st ->
  splice_bidirectional_epoll fuel first timer a b st = (a', b', st', r) ->
  both_post a0 b0 timer a' b' st' r.
Proof.
  destruct st as [ab ba|up ba|down ab]; intros Hi; cbn [splice_bidirectional_epoll];
    [|by apply drain_down_inv|by apply drain_up_inv].
  destruct first.
  - destruct (splice_one_direction fuel a b ab) as [[[a1 b1] ab1] r1] eqn:E1.
    pose proof (splice_ab_inv _ _ _ _ _ _ _ _ _ _ _ Hi E1) as G1.
    destruct r1 as [[t|e|]|]; [by apply drain_down_inv|by intros [= <- <- <- <-]|done|].
    destruct (splice_one_direction fuel b1 a1 ba) as [[[b2 a2] ba2] r2] eqn:E2.
    pose proof (splice_ba_inv _ _ _ _ _ _ _ _ _ _ _ G1 E2) as G2.
    destruct r2 as [[t|e|]|]; [by apply drain_up_inv|by intros [= <- <- <- <-]|done|
      by intros [= <- <- <- <-]].
  - destruct (splice_one_direction fuel b a ba) as [[[b1 a1] ba1] r1] eqn:E1.
    pose proof (splice_ba_inv _ _ _ _ _ _ _ _ _ _ _ Hi E1) as G1.
    destruct r1 as [[t|e|]|]; [by apply drain_up_inv|by intros [= <- <- <- <-]|done|].
    destruct (splice_one_direction fuel a1 b1 ab) as [[[a2 b2] ab2] r2] eqn:E2.
    pose proof (splice_ab_inv _ _ _ _ _ _ _ _ _ _ _ G1 E2) as G2.
    destruct r2 as [[t|e|]|]; [by apply drain_down_inv|by intros [= <- <- <- <-]|done|
      by intros [= <- <- <- <-]].
Qed.

(** What the pipes hold. *)
Definition pipe_up (st : splice_both) : bytes :=
  match st with Racing ab _ | DrainUp _ ab => pipe ab | DrainDown _ _ => [] end.
Definition pipe_down (st : splice_both) : bytes :=
  match st with Racing _ ba | DrainDown _ ba => pipe ba | DrainUp _ _ => [] end.

(** Of both streams nothing is repeated or reordered, whatever a poll returns. *)
Definition both_sub (whole_up whole_down : bytes) (a : A) (b : B) (st : splice_both) : Prop :=
  sent b ++ pipe_up st ++ incoming a `sublist_of` whole_up /\ sent a ++ pipe_down st ++ incoming b `sublist_of` whole_down.

Lemma drop_pipe (x p y whole : bytes) : x ++ p ++ y `sublist_of` whole -> x ++ [] ++ y `sublist_of` whole.
Proof. intros Hx. etrans; [|exact Hx]. by apply sublist_after, sublist_inserts_l. Qed.

Lemma drain_down_sub `{!ReadErrors A, !ReadErrors B} wu wd fuel timer a b up ba a' b' st' r :
  both_sub wu wd a b (DrainDown up ba) -> drain_down fuel timer a b up ba = (a', b', st', r) -> both_sub wu wd a' b' st' /\ r <> Ready Panic.
Proof.
  intros [Hu Hd]. unfold drain_down. destruct (splice_one_direction fuel b a ba) as [[[b1 a1] x1] r1] eqn:E.
  apply (splice_one_sub wd) in E as (Hp & Hs & Hi & Hn); [|done]. intros [= <- <- <- <-]. split; [split; [cbn in *; by rewrite Hs, Hi|done]|].
  unfold drain_peer. destruct r1 as [[t|e|]|]; try done. by destruct timer.
Qed.

Lemma drain_up_sub `{!ReadErrors A, !ReadErrors B} wu wd fuel timer a b down ab a' b' st' r :
  both_sub wu wd a b (DrainUp down ab) -> drain_up fuel timer a b down ab = (a', b', st', r) -> both_sub wu wd a' b' st' /\ r <> Ready Panic.
Proof.
  intros [Hu Hd]. unfold drain_up. destruct (splice_one_direction fuel a b ab) as [[[a1 b1] x1] r1] eqn:E.
  apply (splice_one_sub wu) in E as (Hp & Hs & Hi & Hn); [|done]. intros [= <- <- <- <-]. split; [split; [done|cbn in *; by rewrite Hs, Hi]|].
  unfold drain_peer. destruct r1 as [[t|e|]|]; try done. by destruct timer.
Qed.

Lemma splice_both_sub `{!ReadErrors A, !ReadErrors B} wu wd fuel first timer a b st a' b' st' r :
  both_sub wu wd a b st -> splice_bidirectional_epoll fuel first timer a b st = (a', b', st', r) -> both_sub wu wd a' b' st' /\ r <> Ready Panic.
Proof.
  destruct st as [ab ba|up ba|down ab]; cbn [splice_bidirectional_epoll]; [|by apply drain_down_sub|by apply drain_up_sub].
  assert (Hab : forall a b ab ba a1 b1 ab1 r1, both_sub wu wd a b (Racing ab ba) -> splice_one_direction fuel a b ab = (a1, b1, ab1, r1) ->
    both_sub wu wd a1 b1 (Racing ab1 ba) /\ r1 <> Ready Panic).
  { intros x y xy yx x1 y1 xy1 r1 [Hu Hd] E. apply (splice_one_sub wu) in E as (Hp & Hs & Hi & Hn); [|done]. split; [split; [done|cbn in *; by rewrite Hs, Hi]|done]. }
  assert (Hba : forall a b ab ba b1 a1 ba1 r1, both_sub wu wd a b (Racing ab ba) -> splice_one_direction fuel b a ba = (b1, a1, ba1, r1) ->
    both_sub wu wd a1 b1 (Racing ab ba1) /\ r1 <> Ready Panic).
  { intros x y xy yx y1 x1 yx1 r1 [Hu Hd] E. apply (splice_one_sub wd) in E as (Hp & Hs & Hi & Hn); [|done]. split; [split; [cbn in *; by rewrite Hs, Hi|done]|done]. }
  assert (Hdd : forall a b ab ba up, both_sub wu wd a b (Racing ab ba) -> both_sub wu wd a b (DrainDown up ba)) by (intros x y xy yx u [Hu Hd]; split; [by eapply drop_pipe|done]).
  assert (Hdu : forall a b ab ba down, both_sub wu wd a b (Racing ab ba) -> both_sub wu wd a b (DrainUp down ab)) by (intros x y xy yx u [Hu Hd]; split; [done|by eapply drop_pipe]).
  intros Hi. destruct first.
  - destruct (splice_one_direction fuel a b ab) as [[[a1 b1] ab1] r1] eqn:E1. apply (Hab _ _ _ ba) in E1 as [G1 N1]; [|done].
    destruct r1 as [[t|e|]|]; [apply drain_down_sub; eauto|by intros [= <- <- <- <-]|done|].
    destruct (splice_one_direction fuel b1 a1 ba) as [[[b2 a2] ba2] r2] eqn:E2. apply (Hba _ _ ab1) in E2 as [G2 N2]; [|done].
    destruct r2 as [[t|e|]|]; [apply drain_up_sub; eauto|by intros [= <- <- <- <-]|done|by intros [= <- <- <- <-]].
  - destruct (splice_one_direction fuel b a ba) as [[[b1 a1] ba1] r1] eqn:E1. apply (Hba _ _ ab) in E1 as [G1 N1]; [|done].
    destruct r1 as [[t|e|]|]; [apply drain_up_sub; eauto|by intros [= <- <- <- <-]|done|].
    destruct (splice_one_direction fuel a1 b1 ab) as [[[a2 b2] ab2] r2] eqn:E2. apply (Hab _ _ _ ba1) in E2 as [G2 N2]; [|done].
    destruct r2 as [[t|e|]|]; [apply drain_down_sub; eauto|by intros [= <- <- <- <-]|done|by intros [= <- <- <- <-]].
Qed.

Lemma splicing_inv (a0 : A) (b0 : B) a b st : splicing a0 b0 a b st -> both_inv a0 b0 a b st.
Proof.
  induction 1 as [|fuel first timer a b st a' b' st' _ IH Hp].
  - split; split; cbn; rewrite ?Z.sub_diag; done.
  - by apply (splice_both_inv _ _ _ _ _ _ _ _ _ _ _ _ IH Hp).
Qed.

(** C39. The epoll splice relay keeps the byte streams: along any sequence of polls, in
    any order and with partial transfers, it never panics, and when it returns success
    at least one direction has delivered its whole stream and counts it exactly.  The
    other has too, unless the drain timer ended it: then it has delivered a prefix and
    its count is zero. *)
Theorem splice_epoll_spec (a0 : A) (b0 : B) fuel first timer a b st a' b' st' r :
  splicing a0 b0 a b st ->
  splice_bidirectional_epoll fuel first timer a b st = (a', b', st', r) ->
  r <> Ready Panic /\
  forall up down, r = Ready (Ok (up, down)) ->
    let whole_up := sent b' = sent b0 ++ incoming a0 /\ up = as_u64 (zlen (incoming a0)) in
    let whole_down := sent a' = sent a0 ++ incoming b0 /\ down = as_u64 (zlen (incoming b0)) in
    whole_up /\ whole_down \/
    timer = true /\
      (whole_up /\ down = 0 /\ sent a' `prefix_of` sent a0 ++ incoming b0 \/
       whole_down /\ up = 0 /\ sent b' `prefix_of` sent b0 ++ incoming a0).
Proof.
  intros Hs Hp. pose proof (splice_both_inv _ _ _ _ _ _ _ _ _ _ _ _ (splicing_inv _ _ _ _ _ Hs) Hp) as Hr.
  split; [by intros ->|]. intros up down ->. cbn [both_post] in Hr.
  unfold dir_complete, cut_short in Hr.
  destruct Hr as [((_ & Hb & Hu) & [(_ & Ha & Hd)|(Ht & Hd & p & Hc)])|((_ & Ha & Hd) & Ht & Hu & p & Hc)].
  - by left.
  - right. split; [done|]. left. split_and!; try done. rewrite <- Hc. by apply prefix_app_r.
  - right. split; [done|]. right. split_and!; try done. rewrite <- Hc. by apply prefix_app_r.
Qed.

(** A half-closed connection loses its answer: once one direction has ended, a
    poll in which the other has nothing to do and the drain timer has fired returns
    success with a zero count for it, although it had delivered part of its stream and
    the rest, in the pipe and in the socket, is never delivered. *)
Theorem splice_half_close_truncates (a0 : A) (b0 : B) fuel first a b up ba a' b' ba' :
  splicing a0 b0 a b (DrainDown up ba) ->
  splice_one_direction fuel b a ba = (b', a', ba', Pending) ->
  splice_bidirectional_epoll fuel first true a b (DrainDown up ba) =
    (a', b', DrainDown up ba', Ready (Ok (up, 0))) /\
  sent a' ++ pipe ba' ++ incoming b' = sent a0 ++ incoming b0.
Proof.
  intros Hs Hp. split.
  - cbn [splice_bidirectional_epoll]. unfold drain_down. by rewrite Hp.
  - apply splicing_inv in Hs as [_ Hi]. by destruct (splice_one_inv _ _ _ _ _ _ _ _ _ _ Hi Hp) as [[] _].
Qed.
End BothPolls.

(** A request, and an answer whose second part is late. *)
Definition half_closed_client : Script := mkScript [Some [1; 2]] [] [].
Definition slow_server : Script := mkScript [Some [7]; None; None; Some [8; 9]] [] [].

Definition epoll_poll (timer : bool) (x : Script * Script * splice_both) :=
  let '(a, b, st) := x in splice_bidirectional_epoll 9 true timer a b st.

Definition first_poll : Script * Script * splice_both :=
  (epoll_poll false (half_closed_client, slow_server, splice_start None None)).1.

Lemma first_poll_splicing :
  splicing half_closed_client slow_server first_poll.1.1 first_poll.1.2 first_poll.2.
Proof.
  eapply (splicing_poll _ _ 9 true false); [apply (splicing_start _ _ None None)|]. vm_compute. reflexivity.
Qed.

Lemma splice_epoll_spec_witness :
  let '(a, b, st, r) := epoll_poll true first_poll in
  r = Ready (Ok (2, 0)) /\ wire b = [1; 2] /\ wire a `prefix_of` [7; 8; 9].
Proof.
  destruct (splice_epoll_spec half_closed_client slow_server 9 true true
    first_poll.1.1 first_poll.1.2 first_poll.2 (epoll_poll true first_poll).1.1.1
    (epoll_poll true first_poll).1.1.2 (epoll_poll true first_poll).1.2 (epoll_poll true first_poll).2
    first_poll_splicing) as [_ Hr]; [vm_compute; reflexivity|].
  split; [vm_compute; reflexivity|]. split; [vm_compute; reflexivity|].
  destruct (Hr 2 0) as [[_ [_ Hd]]|[_ [[_ [_ Hp]]|[[_ Hd] _]]]].
  - vm_compute. reflexivity.
  - exfalso. revert Hd. vm_compute. discriminate.
  - exact Hp.
  - exfalso. revert Hd. vm_compute. discriminate.
Defined.

Lemma splice_half_close_truncates_witness :
  let '(a, b, st, r) := epoll_poll true first_poll in
  r = Ready (Ok (2, 0)) /\ wire a = [7] /\ incoming b = [8; 9].
Proof.
  destruct (splice_half_close_truncates half_closed_client slow_server 9 true
    first_poll.1.1 first_poll.1.2 2 (mkSplice [] 1 PhaseIn)
    (mkScript [] [] [7]) (mkScript [Some [8; 9]] [] [1; 2]) (mkSplice [] 1 PhaseIn)) as [H1 H2].
  - exact first_poll_splicing.
  - vm_compute. reflexivity.
  - vm_compute. split; [reflexivity|]. split; reflexivity.
Defined.
