(* ===== verification/RelayPaths.v ===== *)
(** * The relay paths of the dispatcher

    [blackwire-app] [relay.rs]: which relay a pair of erased streams gets, and the
    copy loops over two TCP sockets: the zero-copy loop and the adaptive loop, which
    hands a busy connection to [splice].  A loop is a state machine whose steps are
    the polls of its sockets.  The engines behind it are [Relay] and [Splice]. *)

From S2P Require Import Prelude AsyncIo Vision Relay Boxed Splice.

Definition ADAPTIVE_SPLICE_MIN_BYTES : Z := 256 * 1024.
(** Nanoseconds. *)
Definition ADAPTIVE_SPLICE_LONG_STREAM_AFTER : Z := 30 * 1000000.
Definition ADAPTIVE_SPLICE_FULL_READ_STREAK : Z := 4.
Definition ADAPTIVE_SPLICE_FULL_READ_MIN_BYTES : Z := 64 * 1024.

(** The length of the two buffers of a loop. *)
Definition COPY_BUFFER : nat := Z.to_nat ADAPTIVE_COPY_BUFFER_BYTES.

(** ** Policies ([blackwire-config]) *)

Inductive FastSplicePolicy : Type := SpliceAdaptive | SpliceDisabled | SpliceAlways.
Inductive FastZerocopyPolicy : Type := ZeroDisabled | ZeroBulk | ZeroAlways.
Inductive FastRelayEngine : Type := Legacy | V2.
Inductive FastRelayFlushPolicy : Type := FlushImmediate | FlushDeferred | FlushAdaptive.

Record FastRelayConfig : Type := mkRelayConfig {
  engine : FastRelayEngine;
  flush : FastRelayFlushPolicy;
  cfg_initial_buffer : nat;
  cfg_max_buffer : nat
}.

Definition relay_v2_options (p : FastRelayConfig) : RelayV2Options :=
  mkOptions (cfg_initial_buffer p) (cfg_max_buffer p)
    (match flush p with
     | FlushImmediate => Immediate
     | FlushDeferred => Deferred
     | FlushAdaptive => Adaptive
     end).

(** ** When the adaptive loop switches *)

Definition adaptive_splice_ready (copied_total elapsed full_read_streak : Z) : bool :=
  (ADAPTIVE_SPLICE_FULL_READ_STREAK <=? full_read_streak) &&
  ((ADAPTIVE_SPLICE_MIN_BYTES <=? copied_total) ||
   (ADAPTIVE_SPLICE_FULL_READ_MIN_BYTES <=? copied_total) &&
   (ADAPTIVE_SPLICE_LONG_STREAM_AFTER <=? elapsed)).

Definition adaptive_splice_ready_for_directions
    (up_copied down_copied elapsed up_streak down_streak : Z) : bool :=
  adaptive_splice_ready up_copied elapsed up_streak ||
  adaptive_splice_ready down_copied elapsed down_streak.

(** Saturating at the bounds of [u8]; [read_len * 2] cannot overflow a [usize]. *)
Definition update_full_read_streak (current : Z) (read_len buf_len : nat) : Z :=
  if (buf_len <=? read_len * 2)%nat then Z.min 255 (current + 1) else Z.max 0 (current - 1).

(** ** The copy loops *)

Inductive copy_mode : Type := ZeroCopy | AdaptiveCopy.

(** Where the future of a loop is suspended or goes on: writing the prefixes that were
    read ahead of the sockets, at the top of the loop, in [select!], in the handler of
    one of its branches, or in the splice relay. *)
Inductive copy_act : Type :=
| PrefixUp (rest : bytes)
| PrefixDown (rest : bytes)
| Top
| Select
| WriteDown (rest : bytes) (n : nat)
| WriteUp (rest : bytes) (n : nat)
| ShutIn
| ShutOut
| Splicing (s : splice_both).

Record CopyLoop (I O : Type) : Type := mkCopy {
  c_in : I;
  c_out : O;
  c_prefix_up : bytes;
  c_prefix_down : bytes;
  c_up : Z;
  c_down : Z;
  up_eof : bool;
  down_eof : bool;
  up_streak : Z;
  down_streak : Z;
  c_log : recorder;
  c_act : copy_act
}.
Arguments mkCopy {I O} _ _ _ _ _ _ _ _ _ _ _ _.
Arguments c_in {I O} _.
Arguments c_out {I O} _.
Arguments c_prefix_up {I O} _.
Arguments c_prefix_down {I O} _.
Arguments c_up {I O} _.
Arguments c_down {I O} _.
Arguments up_eof {I O} _.
Arguments down_eof {I O} _.
Arguments up_streak {I O} _.
Arguments down_streak {I O} _.
Arguments c_log {I O} _.
Arguments c_act {I O} _.

(** What a step learns from outside: the time since the start of the loop, whether the
    pipes of a splice relay can be opened, and for a poll of the splice relay its fuel, the
    order of its [select!] and its timer. *)
Record copy_env : Type := mkEnv {
  elapsed : Z;
  pipe2_up : option io_error;
  pipe2_down : option io_error;
  env_fuel : nat;
  ab_first : bool;
  drain_timer : bool
}.

Section Loops.
Context {I O : Type} `{AsyncRead I, AsyncWrite I, AsyncRead O, AsyncWrite O}.
Implicit Types st : CopyLoop I O.

Abbreviation outcome := (option (poll (res io_error (Z * Z)))).

(** The start of [relay_bidirectional_with_policies_and_recorder] for two sockets. *)
Definition copy_start (i : I) (o : O) (prefix_up prefix_down : bytes) (log : recorder) :
    CopyLoop I O :=
  mkCopy i o prefix_up prefix_down 0 0 false false 0 0 log (PrefixUp prefix_up).

Definition set_io (i : I) (o : O) (act : copy_act) st : CopyLoop I O :=
  mkCopy i o (c_prefix_up st) (c_prefix_down st) (c_up st) (c_down st) (up_eof st) (down_eof st)
    (up_streak st) (down_streak st) (c_log st) act.

Definition set_up_eof (i : I) st : CopyLoop I O :=
  mkCopy i (c_out st) (c_prefix_up st) (c_prefix_down st) (c_up st) (c_down st) true (down_eof st)
    (up_streak st) (down_streak st) (c_log st) ShutOut.

Definition set_down_eof (o : O) st : CopyLoop I O :=
  mkCopy (c_in st) o (c_prefix_up st) (c_prefix_down st) (c_up st) (c_down st) (up_eof st) true
    (up_streak st) (down_streak st) (c_log st) ShutIn.

(** The handlers after their [write_all]: only the adaptive loop calls the recorder
    and keeps the streaks. *)
Definition wrote_up (mode : copy_mode) (n : nat) st : CopyLoop I O :=
  mkCopy (c_in st) (c_out st) (c_prefix_up st) (c_prefix_down st)
    (as_u64 (c_up st + Z.of_nat n)) (c_down st) (up_eof st) (down_eof st)
    (match mode with
     | ZeroCopy => up_streak st
     | AdaptiveCopy => update_full_read_streak (up_streak st) n COPY_BUFFER
     end) (down_streak st)
    (match mode with ZeroCopy => c_log st | AdaptiveCopy => record n true (c_log st) end) Top.

Definition wrote_down (mode : copy_mode) (n : nat) st : CopyLoop I O :=
  mkCopy (c_in st) (c_out st) (c_prefix_up st) (c_prefix_down st)
    (c_up st) (as_u64 (c_down st + Z.of_nat n)) (up_eof st) (down_eof st)
    (up_streak st)
    (match mode with
     | ZeroCopy => down_streak st
     | AdaptiveCopy => update_full_read_streak (down_streak st) n COPY_BUFFER
     end)
    (match mode with ZeroCopy => c_log st | AdaptiveCopy => record n false (c_log st) end) Top.

(** One poll of a [write_all] on the outbound or inbound socket. *)
Definition write_out (act : bytes -> copy_act) (rest : bytes) st : CopyLoop I O * outcome :=
  match poll_write (c_out st) rest with
  | (o, Ready (Ok 0%nat)) => (set_io (c_in st) o (act rest) st, Some (Ready (Err WriteZero)))
  | (o, Ready (Ok n)) => (set_io (c_in st) o (act (drop n rest)) st, None)
  | (o, Ready (Err e)) => (set_io (c_in st) o (act rest) st, Some (Ready (Err e)))
  | (o, Ready Panic) => (set_io (c_in st) o (act rest) st, Some (Ready Panic))
  | (o, Pending) => (set_io (c_in st) o (act rest) st, Some Pending)
  end.

Definition write_in (act : bytes -> copy_act) (rest : bytes) st : CopyLoop I O * outcome :=
  match poll_write (c_in st) rest with
  | (i, Ready (Ok 0%nat)) => (set_io i (c_out st) (act rest) st, Some (Ready (Err WriteZero)))
  | (i, Ready (Ok n)) => (set_io i (c_out st) (act (drop n rest)) st, None)
  | (i, Ready (Err e)) => (set_io i (c_out st) (act rest) st, Some (Ready (Err e)))
  | (i, Ready Panic) => (set_io i (c_out st) (act rest) st, Some (Ready Panic))
  | (i, Pending) => (set_io i (c_out st) (act rest) st, Some Pending)
  end.

(** The second branch of the biased [select!]. *)
Definition select_up st : CopyLoop I O * outcome :=
  if up_eof st then (st, Some Pending)
  else
    match poll_read (c_in st) COPY_BUFFER with
    | (i, Ready (Ok [])) => (set_up_eof i st, None)
    | (i, Ready (Ok c)) => (set_io i (c_out st) (WriteUp c (length c)) st, None)
    | (i, Ready (Err e)) => (set_io i (c_out st) Select st, Some (Ready (Err e)))
    | (i, Ready Panic) => (set_io i (c_out st) Select st, Some (Ready Panic))
    | (i, Pending) => (set_io i (c_out st) Select st, Some Pending)
    end.

Definition select_step st : CopyLoop I O * outcome :=
  if down_eof st then select_up st
  else
    match poll_read (c_out st) COPY_BUFFER with
    | (o, Ready (Ok [])) => (set_down_eof o st, None)
    | (o, Ready (Ok c)) => (set_io (c_in st) o (WriteDown c (length c)) st, None)
    | (o, Ready (Err e)) => (set_io (c_in st) o Select st, Some (Ready (Err e)))
    | (o, Ready Panic) => (set_io (c_in st) o Select st, Some (Ready Panic))
    | (o, Pending) => select_up (set_io (c_in st) o Select st)
    end.

Definition totals st (more_up more_down : Z) : Z * Z :=
  (as_u64 (as_u64 (c_up st + more_up) + zlen (c_prefix_up st)),
   as_u64 (as_u64 (c_down st + more_down) + zlen (c_prefix_down st))).

(** The top of the loop: the switch to splice, the end, or [select!]. *)
Definition top_step (mode : copy_mode) (e : copy_env) st : CopyLoop I O * outcome :=
  let ready :=
    match mode with
    | ZeroCopy => false
    | AdaptiveCopy =>
        negb (up_eof st) && negb (down_eof st) &&
        adaptive_splice_ready_for_directions
          (as_u64 (zlen (c_prefix_up st) + c_up st)) (as_u64 (zlen (c_prefix_down st) + c_down st))
          (elapsed e) (up_streak st) (down_streak st)
    end in
  if ready then (set_io (c_in st) (c_out st) (Splicing (splice_start (pipe2_up e) (pipe2_down e))) st, None)
  else if up_eof st && down_eof st then (st, Some (Ready (Ok (totals st 0 0))))
  else (set_io (c_in st) (c_out st) Select st, None).

(** A failed splice goes on in the rest of the same round of the loop. *)
Definition splicing_step (e : copy_env) (s : splice_both) st : CopyLoop I O * outcome :=
  match splice_bidirectional_epoll (env_fuel e) (ab_first e) (drain_timer e) (c_in st) (c_out st) s with
  | (i, o, s', Ready (Ok (more_up, more_down))) =>
      (set_io i o (Splicing s') st, Some (Ready (Ok (totals st more_up more_down))))
  | (i, o, s', Ready (Err _)) => (set_io i o Select st, None)
  | (i, o, s', Ready Panic) => (set_io i o (Splicing s') st, Some (Ready Panic))
  | (i, o, s', Pending) => (set_io i o (Splicing s') st, Some Pending)
  end.

Definition shut_in st : CopyLoop I O * outcome :=
  match poll_shutdown (c_in st) with
  | (i, Ready (Ok _)) => (set_io i (c_out st) Top st, None)
  | (i, Ready (Err e)) => (set_io i (c_out st) ShutIn st, Some (Ready (Err e)))
  | (i, Ready Panic) => (set_io i (c_out st) ShutIn st, Some (Ready Panic))
  | (i, Pending) => (set_io i (c_out st) ShutIn st, Some Pending)
  end.

Definition shut_out st : CopyLoop I O * outcome :=
  match poll_shutdown (c_out st) with
  | (o, Ready (Ok _)) => (set_io (c_in st) o Top st, None)
  | (o, Ready (Err e)) => (set_io (c_in st) o ShutOut st, Some (Ready (Err e)))
  | (o, Ready Panic) => (set_io (c_in st) o ShutOut st, Some (Ready Panic))
  | (o, Pending) => (set_io (c_in st) o ShutOut st, Some Pending)
  end.

(** A step of the future, up to its next poll of a socket: [None] goes on, [Some] is
    what the poll of the future returns. *)
Definition copy_step (mode : copy_mode) (e : copy_env) st : CopyLoop I O * outcome :=
  match c_act st with
  | PrefixUp [] => (set_io (c_in st) (c_out st) (PrefixDown (c_prefix_down st)) st, None)
  | PrefixUp rest => write_out PrefixUp rest st
  | PrefixDown [] => (set_io (c_in st) (c_out st) Top st, None)
  | PrefixDown rest => write_in PrefixDown rest st
  | Top => top_step mode e st
  | Select => select_step st
  | WriteDown [] n => (wrote_down mode n st, None)
  | WriteDown rest n => write_in (fun rest => WriteDown rest n) rest st
  | WriteUp [] n => (wrote_up mode n st, None)
  | WriteUp rest n => write_out (fun rest => WriteUp rest n) rest st
  | ShutIn => shut_in st
  | ShutOut => shut_out st
  | Splicing s => splicing_step e s st
  end.

Definition zerocopy_tcp_bidirectional := copy_step ZeroCopy.
Definition adaptive_copy_then_splice := copy_step AdaptiveCopy.

(** Did this step give up on the splice relay? *)
Definition gave_up_splice st st' : bool :=
  match c_act st, c_act st' with Splicing _, Select => true | _, _ => false end.

(** The states of a loop; the flag tells whether a splice has failed on the way. *)
Inductive copying (mode : copy_mode) (st0 : CopyLoop I O) : bool -> CopyLoop I O -> Prop :=
| copying_start : copying mode st0 false st0
| copying_step e failed st st' r :
    copying mode st0 failed st -> copy_step mode e st = (st', r) -> r = None \/ r = Some Pending ->
    copying mode st0 (failed || gave_up_splice st st') st'.

(** A step without a failure. *)
Lemma copying_next mode st0 e st st' r :
  copying mode st0 false st -> copy_step mode e st = (st', r) -> r = None \/ r = Some Pending ->
  gave_up_splice st st' = false -> copying mode st0 false st'.
Proof. intros Hc Hs Hr Hg. rewrite <- Hg. by eapply (copying_step _ _ _ false). Qed.
End Loops.

(** ** What the loops preserve *)

(** The bytes that a handler has taken from one side and not yet written to the other,
    and the number of bytes that its [write_all] started with. *)
Definition act_up (a : copy_act) : bytes :=
  match a with PrefixUp rest | WriteUp rest _ => rest | _ => [] end.
Definition act_down (prefix_down : bytes) (a : copy_act) : bytes :=
  match a with PrefixUp _ => prefix_down | PrefixDown rest | WriteDown rest _ => rest | _ => [] end.
Definition act_n_up (a : copy_act) : Z := match a with WriteUp _ n => Z.of_nat n | _ => 0 end.
Definition act_n_down (a : copy_act) : Z := match a with WriteDown _ n => Z.of_nat n | _ => 0 end.

Section LoopFacts.
Context {I O : Type} `{Duplex I} `{Duplex O}.
Implicit Types st : CopyLoop I O.

(** The bytes that the counters have counted. *)
Definition counted_up st0 st : Z :=
  zlen (sent (c_out st)) + zlen (act_up (c_act st)) - act_n_up (c_act st)
    - zlen (sent (c_out st0)) - zlen (c_prefix_up st0).
Definition counted_down st0 st : Z :=
  zlen (sent (c_in st)) + zlen (act_down (c_prefix_down st0) (c_act st)) - act_n_down (c_act st)
    - zlen (sent (c_in st0)) - zlen (c_prefix_down st0).

Definition whole_up st0 : bytes := sent (c_out st0) ++ c_prefix_up st0 ++ incoming (c_in st0).
Definition whole_down st0 : bytes := sent (c_in st0) ++ c_prefix_down st0 ++ incoming (c_out st0).

Record flows (mode : copy_mode) st0 st : Prop := {
  fl_up : sent (c_out st) ++ act_up (c_act st) ++ incoming (c_in st) = whole_up st0;
  fl_down :
    sent (c_in st) ++ act_down (c_prefix_down st0) (c_act st) ++ incoming (c_out st) = whole_down st0;
  fl_count_up : c_up st = as_u64 (counted_up st0 st);
  fl_count_down : c_down st = as_u64 (counted_down st0 st);
  fl_log : mode = AdaptiveCopy -> log_ok (c_log st) (counted_up st0 st) (counted_down st0 st);
  fl_eof_up : up_eof st = true -> incoming (c_in st) = [] /\ act_up (c_act st) = [];
  fl_eof_down :
    down_eof st = true -> incoming (c_out st) = [] /\ act_down (c_prefix_down st0) (c_act st) = [];
  fl_prefix_up : c_prefix_up st = c_prefix_up st0;
  fl_prefix_down : c_prefix_down st = c_prefix_down st0
}.

(** While the splice relay runs, the loop is where it was when it started. *)
Definition copy_inv (mode : copy_mode) st0 st : Prop :=
  match c_act st with
  | Splicing s =>
      mode = AdaptiveCopy /\ exists i o, flows mode st0 (set_io i o Top st) /\
        both_inv i o (c_in st) (c_out st) s
  | _ => flows mode st0 st
  end.

(** How a loop may end: at the ends of both streams, or in the splice relay. *)
Definition loop_end (mode : copy_mode) st0 st' (timer : bool) (u d : Z) : Prop :=
  let up_done := sent (c_out st') = whole_up st0 /\
    u = as_u64 (zlen (c_prefix_up st0) + zlen (incoming (c_in st0))) in
  let down_done := sent (c_in st') = whole_down st0 /\
    d = as_u64 (zlen (c_prefix_down st0) + zlen (incoming (c_out st0))) in
  up_done /\ down_done \/
  mode = AdaptiveCopy /\ timer = true /\
    (up_done /\ sent (c_in st') `prefix_of` whole_down st0 \/
     down_done /\ sent (c_out st') `prefix_of` whole_up st0).

Definition copy_post (mode : copy_mode) st0 st' (timer : bool) (r : option (poll (res io_error (Z * Z)))) :
    Prop :=
  match r with
  | None | Some Pending => copy_inv mode st0 st'
  | Some (Ready (Ok (u, d))) => loop_end mode st0 st' timer u d
  | Some (Ready (Err _)) => True
  | Some (Ready Panic) => False
  end.

Lemma copy_start_flows mode (i : I) (o : O) pu pd log :
  log = None \/ log = Some [] -> flows mode (copy_start i o pu pd log) (copy_start i o pu pd log).
Proof.
  intros Hlog. split; cbn; unfold whole_up, whole_down, counted_up, counted_down; cbn; try done.
  1,2: rewrite <- (Z.mod_0_l (2 ^ 64)) at 1 by done; unfold as_u64; f_equal; lia.
  intros _. destruct Hlog as [-> | ->]; cbn; [done|]. split; lia.
Qed.

(** The handlers whose [write_all] goes to the outbound, or to the inbound, socket. *)
Definition writes_up (prefix_down : bytes) (act : bytes -> copy_act) : Prop :=
  forall x y, act_up (act x) = x /\ act_down prefix_down (act x) = act_down prefix_down (act y) /\
    act_n_up (act x) = act_n_up (act y) /\ act_n_down (act x) = act_n_down (act y) /\
    forall s, act x <> Splicing s.
Definition writes_down (prefix_down : bytes) (act : bytes -> copy_act) : Prop :=
  forall x y, act_down prefix_down (act x) = x /\ act_up (act x) = act_up (act y) /\
    act_n_up (act x) = act_n_up (act y) /\ act_n_down (act x) = act_n_down (act y) /\
    forall s, act x <> Splicing s.

Lemma writes_up_acts pd n : writes_up pd PrefixUp /\ writes_up pd (fun rest => WriteUp rest n).
Proof. split; intros x y; split_and!; done. Qed.

Lemma writes_down_acts pd n : writes_down pd PrefixDown /\ writes_down pd (fun rest => WriteDown rest n).
Proof. split; intros x y; split_and!; done. Qed.

Lemma copy_inv_flows mode st0 st :
  (forall s, c_act st <> Splicing s) -> flows mode st0 st -> copy_inv mode st0 st.
Proof. unfold copy_inv. destruct (c_act st) eqn:E; intros Hs; try done. by destruct (Hs s). Qed.

Lemma write_out_post mode st0 st act rest st' r timer :
  writes_up (c_prefix_down st0) act -> rest <> [] ->
  flows mode st0 st -> c_act st = act rest -> write_out act rest st = (st', r) ->
  copy_post mode st0 st' timer r.
Proof.
  intros Hact Hne [Fu Fd Cu Cd L Eu Ed Pu Pd] Hst. unfold write_out.
  destruct (poll_write (c_out st) rest) as [o res] eqn:Hw.
  pose proof (poll_write_incoming _ _ _ _ Hw) as Hio. rewrite Hst in *.
  assert (Hkeep : forall rest', sent o ++ rest' = sent (c_out st) ++ rest ->
    copy_inv mode st0 (set_io (c_in st) o (act rest') st)).
  { intros rest' Hr. destruct (Hact rest' rest) as (Ha & Had & Hnu & Hnd & Hns).
    destruct (Hact rest rest) as (Ha0 & _). rewrite Ha0 in *.
    apply copy_inv_flows; [done|].
    assert (Hz : zlen (sent o) + zlen rest' = zlen (sent (c_out st)) + zlen rest)
      by (by rewrite <- !zlen_app, Hr).
    assert (Hcu : counted_up st0 (set_io (c_in st) o (act rest') st) = counted_up st0 st)
      by (unfold counted_up; cbn; rewrite Hst, Ha, Ha0, Hnu; lia).
    assert (Hcd : counted_down st0 (set_io (c_in st) o (act rest') st) = counted_down st0 st)
      by (unfold counted_down; cbn; by rewrite Hst, Had, Hnd).
    split; cbn; rewrite ?Hcu, ?Hcd, ?Ha, ?Hio, ?Had; try done.
    - by rewrite <- Fu, !app_assoc, Hr.
    - intros He. by destruct (Eu He). }
  destruct res as [[[|n]|e|]|]; intros [= <- <-]; cbn [copy_post]; try done.
  - apply Hkeep. apply poll_write_ok in Hw as [_ ->]. by rewrite <- app_assoc, take_drop.
  - by apply poll_write_no_panic in Hw.
  - apply Hkeep. apply poll_write_not_ok in Hw as ->; done.
Qed.

Lemma write_in_post mode st0 st act rest st' r timer :
  writes_down (c_prefix_down st0) act -> rest <> [] ->
  flows mode st0 st -> c_act st = act rest -> write_in act rest st = (st', r) ->
  copy_post mode st0 st' timer r.
Proof.
  intros Hact Hne [Fu Fd Cu Cd L Eu Ed Pu Pd] Hst. unfold write_in.
  destruct (poll_write (c_in st) rest) as [i res] eqn:Hw.
  pose proof (poll_write_incoming _ _ _ _ Hw) as Hio. rewrite Hst in *.
  assert (Hkeep : forall rest', sent i ++ rest' = sent (c_in st) ++ rest ->
    copy_inv mode st0 (set_io i (c_out st) (act rest') st)).
  { intros rest' Hr. destruct (Hact rest' rest) as (Ha & Hau & Hnu & Hnd & Hns).
    destruct (Hact rest rest) as (Ha0 & _). rewrite Ha0 in *.
    apply copy_inv_flows; [done|].
    assert (Hz : zlen (sent i) + zlen rest' = zlen (sent (c_in st)) + zlen rest)
      by (by rewrite <- !zlen_app, Hr).
    assert (Hcu : counted_up st0 (set_io i (c_out st) (act rest') st) = counted_up st0 st)
      by (unfold counted_up; cbn; by rewrite Hst, Hau, Hnu).
    assert (Hcd : counted_down st0 (set_io i (c_out st) (act rest') st) = counted_down st0 st)
      by (unfold counted_down; cbn; rewrite Hst, Ha, Ha0, Hnd; lia).
    split; cbn; rewrite ?Hcu, ?Hcd, ?Ha, ?Hio, ?Hau; try done.
    - by rewrite <- Fd, !app_assoc, Hr.
    - intros He. by destruct (Ed He). }
  destruct res as [[[|n]|e|]|]; intros [= <- <-]; cbn [copy_post]; try done.
  - apply Hkeep. apply poll_write_ok in Hw as [_ ->]. by rewrite <- app_assoc, take_drop.
  - by apply poll_write_no_panic in Hw.
  - apply Hkeep. apply poll_write_not_ok in Hw as ->; done.
Qed.

Lemma log_ok_eq log a b a' b' : log_ok log a b -> a' = a -> b' = b -> log_ok log a' b'.
Proof. by intros ? -> ->. Qed.

Lemma copy_buffer_pos : COPY_BUFFER <> 0%nat.
Proof. unfold COPY_BUFFER, ADAPTIVE_COPY_BUFFER_BYTES. lia. Qed.

Lemma select_up_post mode st0 st st' r timer :
  flows mode st0 st -> c_act st = Select -> select_up st = (st', r) -> copy_post mode st0 st' timer r.
Proof.
  intros F Hst. pose proof F as [Fu Fd Cu Cd L Eu Ed Pu Pd]. unfold select_up.
  destruct (up_eof st) eqn:Hu.
  { intros [= <- <-]. apply copy_inv_flows; [by rewrite Hst|done]. }
  destruct (poll_read (c_in st) COPY_BUFFER) as [i res] eqn:Hr.
  pose proof (poll_read_sent _ _ _ _ Hr) as Hs.
  unfold counted_up, counted_down in *. rewrite Hst in *. cbn in Fu, Fd, Cu, Cd, L, Eu, Ed.
  destruct res as [[[|b c]|e|]|]; intros [= <- <-]; cbn [copy_post]; try done.
  - apply poll_read_ok in Hr as (_ & Hi & Hend). destruct (Hend eq_refl) as [Hb|Hnil];
      [by destruct copy_buffer_pos|].
    rewrite Hi in *. cbn in Fu, Hnil.
    split; cbn; unfold counted_up, counted_down; cbn; rewrite ?Hs; done.
  - apply poll_read_ok in Hr as (_ & Hi & _). rewrite Hi in Fu.
    split; cbn; unfold counted_up, counted_down; cbn; rewrite ?Hs; try done.
    + rewrite Cu. f_equal. unfold zlen. cbn [length]. lia.
    + intros Hm. specialize (L Hm). eapply log_ok_eq; [exact L| |]; unfold zlen; cbn [length]; lia.
    + by rewrite Hu.
  - by apply poll_read_no_panic in Hr.
  - apply poll_read_pending in Hr.
    split; cbn; unfold counted_up, counted_down; cbn; rewrite ?Hs, ?Hr; try done. by rewrite Hu.
Qed.

Lemma select_step_post mode st0 st st' r timer :
  flows mode st0 st -> c_act st = Select -> select_step st = (st', r) -> copy_post mode st0 st' timer r.
Proof.
  intros F Hst. pose proof F as [Fu Fd Cu Cd L Eu Ed Pu Pd]. unfold select_step.
  destruct (down_eof st) eqn:Hd; [by apply select_up_post|].
  destruct (poll_read (c_out st) COPY_BUFFER) as [o res] eqn:Hr.
  pose proof (poll_read_sent _ _ _ _ Hr) as Hs.
  unfold counted_up, counted_down in *. rewrite Hst in *. cbn in Fu, Fd, Cu, Cd, L, Eu, Ed.
  destruct res as [[[|b c]|e|]|].
  1-4: intros [= <- <-]; cbn [copy_post]; try done.
  - apply poll_read_ok in Hr as (_ & Hi & Hend). destruct (Hend eq_refl) as [Hb|Hnil];
      [by destruct copy_buffer_pos|].
    rewrite Hi in *. cbn in Fd, Hnil.
    split; cbn; unfold counted_up, counted_down; cbn; rewrite ?Hs; done.
  - apply poll_read_ok in Hr as (_ & Hi & _). rewrite Hi in Fd.
    split; cbn; unfold counted_up, counted_down; cbn; rewrite ?Hs; try done.
    + rewrite Cd. f_equal. unfold zlen. cbn [length]. lia.
    + intros Hm. specialize (L Hm). eapply log_ok_eq; [exact L| |]; unfold zlen; cbn [length]; lia.
    + by rewrite Hd.
  - by apply poll_read_no_panic in Hr.
  - apply poll_read_pending in Hr. apply select_up_post; [|done].
    split; cbn; unfold counted_up, counted_down; cbn; rewrite ?Hs, ?Hr; try done. by rewrite Hd.
Qed.

(** Steps that poll no socket and leave the counts alone. *)
Lemma quiet_step mode st0 st act :
  flows mode st0 st ->
  act_up act = act_up (c_act st) -> act_n_up act = act_n_up (c_act st) ->
  act_down (c_prefix_down st0) act = act_down (c_prefix_down st0) (c_act st) ->
  act_n_down act = act_n_down (c_act st) ->
  flows mode st0 (set_io (c_in st) (c_out st) act st).
Proof.
  intros [Fu Fd Cu Cd L Eu Ed Pu Pd] H1' H2' H3' H4'. unfold counted_up, counted_down in *.
  split; cbn; unfold counted_up, counted_down; cbn; rewrite ?H1', ?H2', ?H3', ?H4'; done.
Qed.

Lemma wrote_flows mode st0 st n :
  flows mode st0 st ->
  (c_act st = WriteUp [] n -> flows mode st0 (wrote_up mode n st)) /\
  (c_act st = WriteDown [] n -> flows mode st0 (wrote_down mode n st)).
Proof.
  intros [Fu Fd Cu Cd L Eu Ed Pu Pd]. unfold counted_up, counted_down in *.
  split; intros Hst; rewrite Hst in *; cbn in Fu, Fd, Cu, Cd, L, Eu, Ed;
    split; cbn; unfold counted_up, counted_down; cbn; try done.
  1,3: rewrite ?Cu, ?Cd, as_u64_add; f_equal; lia.
  all: intros ->; specialize (L eq_refl); apply (record_ok n) with (is_upload := true) in L as Lu;
    apply (record_ok n) with (is_upload := false) in L as Ld.
  - eapply log_ok_eq; [exact Lu| |]; lia.
  - eapply log_ok_eq; [exact Ld| |]; lia.
Qed.

Lemma shut_post mode st0 st st' r timer :
  flows mode st0 st ->
  (c_act st = ShutIn -> shut_in st = (st', r) -> copy_post mode st0 st' timer r) /\
  (c_act st = ShutOut -> shut_out st = (st', r) -> copy_post mode st0 st' timer r).
Proof.
  intros [Fu Fd Cu Cd L Eu Ed Pu Pd]. unfold counted_up, counted_down in *.
  split; intros Hst; rewrite Hst in *; cbn in Fu, Fd, Cu, Cd, L, Eu, Ed; unfold shut_in, shut_out.
  - destruct (poll_shutdown (c_in st)) as [i res] eqn:E.
    pose proof (poll_shutdown_sent _ _ _ E) as Hs. pose proof (poll_shutdown_incoming _ _ _ E) as Hi.
    assert (forall act, act = Top \/ act = ShutIn -> flows mode st0 (set_io i (c_out st) act st)) as Hk.
    { intros act Ha. split; cbn; unfold counted_up, counted_down; cbn;
        destruct Ha as [-> | ->]; cbn; rewrite ?Hs, ?Hi; done. }
    destruct res as [[u|e|]|]; intros [= <- <-]; cbn; auto. by apply poll_shutdown_no_panic in E.
  - destruct (poll_shutdown (c_out st)) as [o res] eqn:E.
    pose proof (poll_shutdown_sent _ _ _ E) as Hs. pose proof (poll_shutdown_incoming _ _ _ E) as Hi.
    assert (forall act, act = Top \/ act = ShutOut -> flows mode st0 (set_io (c_in st) o act st)) as Hk.
    { intros act Ha. split; cbn; unfold counted_up, counted_down; cbn;
        destruct Ha as [-> | ->]; cbn; rewrite ?Hs, ?Hi; done. }
    destruct res as [[u|e|]|]; intros [= <- <-]; cbn; auto. by apply poll_shutdown_no_panic in E.
Qed.

(** The bytes of a direction, from what was sent when it is over. *)
Lemma total_up mode st0 st st1 more more' :
  flows mode st0 st1 -> c_act st1 = Top -> c_up st1 = c_up st -> c_prefix_up st1 = c_prefix_up st ->
  more = zlen (whole_up st0) - zlen (sent (c_out st1)) ->
  (totals st (as_u64 more) more').1 = as_u64 (zlen (c_prefix_up st0) + zlen (incoming (c_in st0))).
Proof.
  intros [Fu Fd Cu Cd L Eu Ed Pu Pd] Hst Hu Hp ->. unfold totals. cbn. rewrite <- Hu, <- Hp, Cu, Pu.
  unfold counted_up. rewrite Hst. unfold whole_up. cbn. rewrite !zlen_app.
  unfold as_u64. rewrite <- Z.add_mod, Z.add_mod_idemp_l by done. f_equal.
  change (zlen []) with 0. lia.
Qed.

Lemma total_down mode st0 st st1 more more' :
  flows mode st0 st1 -> c_act st1 = Top -> c_down st1 = c_down st -> c_prefix_down st1 = c_prefix_down st ->
  more = zlen (whole_down st0) - zlen (sent (c_in st1)) ->
  (totals st more' (as_u64 more)).2 = as_u64 (zlen (c_prefix_down st0) + zlen (incoming (c_out st0))).
Proof.
  intros [Fu Fd Cu Cd L Eu Ed Pu Pd] Hst Hu Hp ->. unfold totals. cbn. rewrite <- Hu, <- Hp, Cd, Pd.
  unfold counted_down. rewrite Hst. unfold whole_down. cbn. rewrite !zlen_app.
  unfold as_u64. rewrite <- Z.add_mod, Z.add_mod_idemp_l by done. f_equal.
  change (zlen []) with 0. lia.
Qed.

Lemma top_step_post mode st0 st e st' r :
  flows mode st0 st -> c_act st = Top -> top_step mode e st = (st', r) ->
  copy_post mode st0 st' (drain_timer e) r.
Proof.
  intros F Hst. unfold top_step. set (ready := match mode with ZeroCopy => _ | AdaptiveCopy => _ end).
  destruct ready eqn:Hready.
  { intros [= <- <-]. cbn. split; [subst ready; by destruct mode|]. exists (c_in st), (c_out st). split.
    - destruct F as [Fu Fd Cu Cd L Eu Ed Pu Pd]. unfold counted_up, counted_down in *. rewrite Hst in *.
      split; cbn; unfold counted_up, counted_down; done.
    - split; split; cbn; rewrite ?Z.sub_diag; done. }
  destruct (up_eof st && down_eof st) eqn:He; intros [= <- <-].
  - apply andb_true_iff in He as [Hu Hd]. cbn [copy_post]. destruct (totals st 0 0) as [u d] eqn:Ht. left.
    pose proof F as [Fu Fd _ _ _ Eu Ed _ _]. destruct (Eu Hu) as [Hi Ha]. destruct (Ed Hd) as [Ho Ha'].
    rewrite Hi, Ha in Fu. rewrite Ho, Ha' in Fd. rewrite ?app_nil_r in Fu, Fd.
    pose proof (total_up mode st0 st st 0 0 F Hst eq_refl eq_refl) as Tu.
    pose proof (total_down mode st0 st st 0 0 F Hst eq_refl eq_refl) as Td.
    change (as_u64 0) with 0 in Tu, Td. rewrite Ht in Tu, Td. cbn in Tu, Td.
    split; (split; [done|]); [apply Tu|apply Td]; rewrite ?Fu, ?Fd; lia.
  - cbn. apply quiet_step; by rewrite ?Hst.
Qed.

Lemma splicing_step_post mode st0 st e s st' r :
  copy_inv mode st0 st -> c_act st = Splicing s -> splicing_step e s st = (st', r) ->
  gave_up_splice st st' = false -> copy_post mode st0 st' (drain_timer e) r.
Proof.
  unfold copy_inv. intros Hinv Hst. rewrite Hst in Hinv. destruct Hinv as (Hm & i1 & o1 & F & Hb).
  unfold splicing_step, gave_up_splice. rewrite Hst.
  destruct (splice_bidirectional_epoll _ _ _ _ _ s) as [[[i o] s'] x] eqn:Hp.
  pose proof (splice_both_inv _ _ _ _ _ _ _ _ _ _ _ _ Hb Hp) as Hpost.
  destruct x as [[[mu md]|er|]|]; intros [= <- <-]; cbn [copy_post c_act set_io]; try done.
  2: { intros _. cbn. split; [done|]. by exists i1, o1. }
  intros _. cbn [both_post] in Hpost.
  pose proof F as [Fu Fd _ _ _ _ _ _ _]. cbn in Fu, Fd.
  assert (Tu : dir_complete (sent o1) (incoming i1) i o mu -> sent o = whole_up st0 /\
    (totals st mu md).1 = as_u64 (zlen (c_prefix_up st0) + zlen (incoming (c_in st0)))).
  { intros (_ & Ho & ->). split; [by rewrite Ho|].
    apply (total_up mode st0 st (set_io i1 o1 Top st)); try done.
    cbn. rewrite <- Fu, zlen_app. lia. }
  assert (Td : dir_complete (sent i1) (incoming o1) o i md -> sent i = whole_down st0 /\
    (totals st mu md).2 = as_u64 (zlen (c_prefix_down st0) + zlen (incoming (c_out st0)))).
  { intros (_ & Ho & ->). split; [by rewrite Ho|].
    apply (total_down mode st0 st (set_io i1 o1 Top st)); try done.
    cbn. rewrite <- Fd, zlen_app. lia. }
  destruct (totals st mu md) as [u d]. cbn in Tu, Td. unfold loop_end. cbn [c_in c_out set_io].
  unfold cut_short in Hpost.
  destruct Hpost as [[Cu [Cd|(Ht & _ & p & Hc)]]|(Cd & Ht & _ & p & Hc)].
  - left. auto.
  - right. split_and!; [done|done|]. left. split; [auto|]. rewrite <- Fd, <- Hc. by apply prefix_app_r.
  - right. split_and!; [done|done|]. right. split; [auto|]. rewrite <- Fu, <- Hc. by apply prefix_app_r.
Qed.

Lemma copy_step_post mode st0 st e st' r :
  copy_inv mode st0 st -> copy_step mode e st = (st', r) -> gave_up_splice st st' = false ->
  copy_post mode st0 st' (drain_timer e) r.
Proof.
  intros Hinv Hstep Hg. destruct (c_act st) as [rest|rest| | |rest n|rest n| | |s] eqn:Hst.
  9: { unfold copy_step in Hstep. rewrite Hst in Hstep. by eapply splicing_step_post. }
  all: assert (F : flows mode st0 st) by (unfold copy_inv in Hinv; by rewrite Hst in Hinv);
    unfold copy_step in Hstep; rewrite Hst in Hstep.
  - destruct rest as [|b rest]; [|by eapply (write_out_post mode st0 st PrefixUp (b :: rest)); [apply (writes_up_acts _ 0)|..]].
    injection Hstep as <- <-. cbn. rewrite (fl_prefix_down _ _ _ F). apply quiet_step; by rewrite ?Hst.
  - destruct rest as [|b rest]; [|by eapply (write_in_post mode st0 st PrefixDown (b :: rest)); [apply (writes_down_acts _ 0)|..]].
    injection Hstep as <- <-. cbn. apply quiet_step; by rewrite ?Hst.
  - by eapply top_step_post.
  - by eapply select_step_post.
  - destruct rest as [|b rest]; [|by eapply (write_in_post mode st0 st (fun r => WriteDown r n) (b :: rest)); [apply writes_down_acts|..]].
    injection Hstep as <- <-. apply copy_inv_flows; [done|]. by apply wrote_flows.
  - destruct rest as [|b rest]; [|by eapply (write_out_post mode st0 st (fun r => WriteUp r n) (b :: rest)); [apply writes_up_acts|..]].
    injection Hstep as <- <-. apply copy_inv_flows; [done|]. by apply wrote_flows.
  - by apply (proj1 (shut_post mode st0 st st' r _ F)).
  - by apply (proj2 (shut_post mode st0 st st' r _ F)).
Qed.

Lemma copying_inv mode st0 failed st : flows mode st0 st0 -> (forall s, c_act st0 <> Splicing s) ->
  copying mode st0 failed st -> failed = false -> copy_inv mode st0 st.
Proof.
  intros F0 Hs. induction 1 as [|e failed st st' r _ IH Hstep Hr]; [intros _; by apply copy_inv_flows|].
  intros [Hf Hg]%orb_false_iff. pose proof (copy_step_post _ _ _ _ _ _ (IH Hf) Hstep Hg) as Hp. by destruct Hr as [-> | ->].
Qed.

Lemma copy_start_inv mode (i : I) (o : O) pu pd log st :
  log = None \/ log = Some [] -> copying mode (copy_start i o pu pd log) false st ->
  copy_inv mode (copy_start i o pu pd log) st.
Proof. intros Hlog Hc. eapply copying_inv; [by apply copy_start_flows|done|exact Hc|done]. Qed.

Lemma copy_inv_prefix mode st0 st : copy_inv mode st0 st ->
  sent (c_out st) `prefix_of` whole_up st0 /\ sent (c_in st) `prefix_of` whole_down st0.
Proof.
  assert (forall st, flows mode st0 st -> sent (c_out st) `prefix_of` whole_up st0 /\
    sent (c_in st) `prefix_of` whole_down st0) as Hf.
  { intros s [Fu Fd _ _ _ _ _ _ _]. split; [rewrite <- Fu|rewrite <- Fd]; by apply prefix_app_r. }
  unfold copy_inv. destruct (c_act st) as [| | | | | | | |s] eqn:Hst; try apply Hf.
  intros (_ & i & o & [Fu Fd _ _ _ _ _ _ _] & Hb). cbn in Fu, Fd. rewrite <- Fu, <- Fd.
  destruct s as [ab ba|u ba|d ab]; destruct Hb as [Hab Hba].
  - destruct Hab as [Ha _ _], Hba as [Hb _ _]. rewrite <- Ha, <- Hb. split; by apply prefix_app_r.
  - destruct Hab as (_ & Ha & _), Hba as [Hb _ _]. rewrite <- Hb, Ha. split; [done|by apply prefix_app_r].
  - destruct Hab as (_ & Ha & _), Hba as [Hb _ _]. rewrite <- Hb, Ha. split; [by apply prefix_app_r|done].
Qed.

(** *** Runs in which a splice fails

    A failed splice drops its pipes, and the loop goes on copying.  What remains true is that
    the bytes are neither repeated nor reordered. *)

Definition held_up (a : copy_act) : bytes := match a with Splicing s => pipe_up s | _ => act_up a end.
Definition held_down (prefix_down : bytes) (a : copy_act) : bytes :=
  match a with Splicing s => pipe_down s | _ => act_down prefix_down a end.

Definition in_order st0 st : Prop :=
  sent (c_out st) ++ held_up (c_act st) ++ incoming (c_in st) `sublist_of` whole_up st0 /\
  sent (c_in st) ++ held_down (c_prefix_down st0) (c_act st) ++ incoming (c_out st) `sublist_of` whole_down st0 /\
  c_prefix_down st = c_prefix_down st0.

Context `{!ReadErrors I, !ReadErrors O}.

Lemma held_acts pd a : (forall s, a <> Splicing s) -> held_up a = act_up a /\ held_down pd a = act_down pd a.
Proof. destruct a; try done. intros Hs. by destruct (Hs s). Qed.

(** A write, whatever it returns. *)
Lemma poll_write_kept {W : Type} `{Duplex W} (w w' : W) b r : poll_write w b = (w', r) ->
  incoming w' = incoming w /\ r <> Ready Panic /\
  exists n, sent w' ++ drop n b = sent w ++ b /\ n = match r with Ready (Ok n) => n | _ => 0%nat end.
Proof.
  intros Hw. split; [by eapply poll_write_incoming|]. split; [intros ->; by apply poll_write_no_panic in Hw|].
  destruct r as [[n|e|]|]; (eexists; split; [|reflexivity]).
  1: apply poll_write_ok in Hw as [_ ->]; by rewrite <- app_assoc, take_drop.
  all: apply poll_write_not_ok in Hw; [by rewrite Hw|done].
Qed.

Lemma write_out_order st0 st act rest st' r :
  writes_up (c_prefix_down st0) act -> in_order st0 st -> c_act st = act rest ->
  write_out act rest st = (st', r) -> in_order st0 st' /\ r <> Some (Ready Panic).
Proof.
  intros Hact (Hu & Hd & Hp) Hst. unfold write_out. destruct (poll_write (c_out st) rest) as [o res] eqn:Hw.
  apply poll_write_kept in Hw as (Hi & Hn & k & Hk & ->).
  assert (Hheld : forall x, held_up (act x) = x /\ held_down (c_prefix_down st0) (act x) = held_down (c_prefix_down st0) (act rest)).
  { intros x. destruct (Hact x rest) as (Ha & Had & _ & _ & Hs). destruct (Hact rest x) as (_ & _ & _ & _ & Hs').
    destruct (held_acts (c_prefix_down st0) (act x) Hs) as [E1 E2], (held_acts (c_prefix_down st0) (act rest) Hs') as [E3 E4]. by rewrite ?E1, ?E2, ?E3, ?E4. }
  rewrite Hst in *. rewrite (proj1 (Hheld rest)) in Hu.
  assert (Hall : forall rest', sent o ++ rest' = sent (c_out st) ++ rest -> in_order st0 (set_io (c_in st) o (act rest') st)).
  { intros rest' Hr. split_and!; cbn [c_out c_in c_act c_prefix_down set_io]; [|by rewrite (proj2 (Hheld rest')), Hi|done].
    by rewrite (proj1 (Hheld rest')), app_assoc, Hr, <- app_assoc. }
  destruct res as [[[|n]|e|]|]; intros [= <- <-]; (split; [apply Hall; by rewrite ?drop_0 in Hk|congruence || done]).
Qed.

Lemma write_in_order st0 st act rest st' r :
  writes_down (c_prefix_down st0) act -> in_order st0 st -> c_act st = act rest ->
  write_in act rest st = (st', r) -> in_order st0 st' /\ r <> Some (Ready Panic).
Proof.
  intros Hact (Hu & Hd & Hp) Hst. unfold write_in. destruct (poll_write (c_in st) rest) as [i res] eqn:Hw.
  apply poll_write_kept in Hw as (Hi & Hn & k & Hk & ->).
  assert (Hheld : forall x, held_down (c_prefix_down st0) (act x) = x /\ held_up (act x) = held_up (act rest)).
  { intros x. destruct (Hact x rest) as (Ha & Had & _ & _ & Hs). destruct (Hact rest x) as (_ & _ & _ & _ & Hs').
    destruct (held_acts (c_prefix_down st0) (act x) Hs) as [E1 E2], (held_acts (c_prefix_down st0) (act rest) Hs') as [E3 E4]. by rewrite ?E1, ?E2, ?E3, ?E4. }
  rewrite Hst in *. rewrite (proj1 (Hheld rest)) in Hd.
  assert (Hall : forall rest', sent i ++ rest' = sent (c_in st) ++ rest -> in_order st0 (set_io i (c_out st) (act rest') st)).
  { intros rest' Hr. split_and!; cbn [c_out c_in c_act c_prefix_down set_io]; [by rewrite (proj2 (Hheld rest')), Hi| |done].
    by rewrite (proj1 (Hheld rest')), app_assoc, Hr, <- app_assoc. }
  destruct res as [[[|n]|e|]|]; intros [= <- <-]; (split; [apply Hall; by rewrite ?drop_0 in Hk|congruence || done]).
Qed.

(** A read, whatever it returns: the bytes that were read and those to come. *)
Lemma poll_read_kept {R : Type} `{Duplex R, !ReadErrors R} (x x' : R) n res : poll_read x n = (x', res) ->
  sent x' = sent x /\ res <> Ready Panic /\
  match res with Ready (Ok c) => c | _ => [] end ++ incoming x' `sublist_of` incoming x.
Proof.
  intros Hr. split; [by eapply poll_read_sent|]. split; [intros ->; by apply poll_read_no_panic in Hr|].
  destruct res as [[c|e|]|].
  - apply poll_read_ok in Hr as (_ & -> & _). done.
  - apply poll_read_err in Hr. by apply suffix_is_sublist.
  - by apply poll_read_no_panic in Hr.
  - apply poll_read_pending in Hr. by rewrite Hr.
Qed.

Lemma select_up_order st0 st st' r : in_order st0 st -> c_act st = Select -> select_up st = (st', r) -> in_order st0 st' /\ r <> Some (Ready Panic).
Proof.
  intros (Hu & Hd & Hp) Hst. rewrite Hst in *. unfold select_up. destruct (up_eof st); [intros [= <- <-]; split; [|done]; split_and!; by rewrite ?Hst|].
  destruct (poll_read (c_in st) COPY_BUFFER) as [i res] eqn:Hr. apply poll_read_kept in Hr as (Hs & Hn & Hk). cbn in Hu, Hd.
  destruct res as [[[|b c]|e|]|]; intros [= <- <-]; (split; [|congruence || done]); unfold in_order, held_up, held_down; cbn in *; rewrite ?Hs;
    split_and!; try done; (etrans; [|exact Hu]); by apply sublist_after.
Qed.

Lemma select_step_order st0 st st' r : in_order st0 st -> c_act st = Select -> select_step st = (st', r) -> in_order st0 st' /\ r <> Some (Ready Panic).
Proof.
  intros Hin Hst. pose proof Hin as (Hu & Hd & Hp). rewrite Hst in Hu, Hd. unfold select_step. destruct (down_eof st); [by apply select_up_order|].
  destruct (poll_read (c_out st) COPY_BUFFER) as [o res] eqn:Hr. apply poll_read_kept in Hr as (Hs & Hn & Hk). cbn in Hu, Hd.
  assert (Hd' : sent (c_in st) ++ match res with Ready (Ok c) => c | _ => [] end ++ incoming o `sublist_of` whole_down st0)
    by (etrans; [|exact Hd]; by apply sublist_after).
  destruct res as [[[|b c]|e|]|]; [..|apply select_up_order; [|done]]; [| | | |by unfold in_order; cbn; rewrite Hs];
    intros [= <- <-]; (split; [|congruence || done]); unfold in_order, held_up, held_down; cbn in *; rewrite ?Hs; by split_and!.
Qed.

Lemma splicing_step_order st0 st e s st' r : in_order st0 st -> c_act st = Splicing s -> splicing_step e s st = (st', r) -> in_order st0 st' /\ r <> Some (Ready Panic).
Proof.
  intros (Hu & Hd & Hp) Hst. rewrite Hst in *. unfold splicing_step.
  destruct (splice_bidirectional_epoll _ _ _ _ _ s) as [[[i o] s'] x] eqn:Hx.
  apply (splice_both_sub (whole_up st0) (whole_down st0)) in Hx as [[Hu' Hd'] Hn]; [|by split].
  destruct x as [[[mu md]|er|]|]; intros [= <- <-]; (split; [|congruence || done]); unfold in_order; cbn; split_and!; try done.
  - by apply (drop_pipe _ (pipe_up s')).
  - by apply (drop_pipe _ (pipe_down s')).
Qed.

Lemma shut_order st0 st st' r : in_order st0 st ->
  (c_act st = ShutIn -> shut_in st = (st', r) -> in_order st0 st' /\ r <> Some (Ready Panic)) /\
  (c_act st = ShutOut -> shut_out st = (st', r) -> in_order st0 st' /\ r <> Some (Ready Panic)).
Proof.
  intros (Hu & Hd & Hp). split; intros Hst; rewrite Hst in *; unfold shut_in, shut_out.
  - destruct (poll_shutdown (c_in st)) as [i res] eqn:E. pose proof (poll_shutdown_sent _ _ _ E) as Hs. pose proof (poll_shutdown_incoming _ _ _ E) as Hi.
    destruct res as [[u|e|]|]; try (by apply poll_shutdown_no_panic in E); intros [= <- <-]; (split; [|done]); unfold in_order; cbn in *; by rewrite Hs, Hi.
  - destruct (poll_shutdown (c_out st)) as [o res] eqn:E. pose proof (poll_shutdown_sent _ _ _ E) as Hs. pose proof (poll_shutdown_incoming _ _ _ E) as Hi.
    destruct res as [[u|e|]|]; try (by apply poll_shutdown_no_panic in E); intros [= <- <-]; (split; [|done]); unfold in_order; cbn in *; by rewrite Hs, Hi.
Qed.

(** Every step, failures included. *)
Lemma copy_step_order mode st0 st e st' r : in_order st0 st -> copy_step mode e st = (st', r) -> in_order st0 st' /\ r <> Some (Ready Panic).
Proof.
  intros Hin Hstep. pose proof Hin as (Hu & Hd & Hp). unfold copy_step in Hstep.
  destruct (c_act st) as [[|b rest]|[|b rest]| | |[|b rest] n|[|b rest] n| | |s] eqn:Hst.
  1,3,7,9: injection Hstep as <- <-; split; [|done]; unfold in_order, held_up, held_down in *; cbn in *; by rewrite ?Hp.
  - eapply (write_out_order st0 st PrefixUp (b :: rest)); [apply (writes_up_acts _ 0)|done..].
  - eapply (write_in_order st0 st PrefixDown (b :: rest)); [apply (writes_down_acts _ 0)|done..].
  - unfold top_step in Hstep.
    destruct (match mode with ZeroCopy => _ | AdaptiveCopy => _ end); [|destruct (_ && _)]; injection Hstep as <- <-; (split; [|done]);
      unfold in_order, held_up, held_down in *; cbn in *; by rewrite ?Hst.
  - by apply (select_step_order st0 st).
  - eapply (write_in_order st0 st (fun r => WriteDown r n) (b :: rest)); [apply writes_down_acts|done..].
  - eapply (write_out_order st0 st (fun r => WriteUp r n) (b :: rest)); [apply writes_up_acts|done..].
  - by apply (proj1 (shut_order st0 st st' r Hin)).
  - by apply (proj2 (shut_order st0 st st' r Hin)).
  - by apply (splicing_step_order st0 st e s).
Qed.

Lemma copying_order mode (i : I) (o : O) pu pd log failed st :
  copying mode (copy_start i o pu pd log) failed st -> in_order (copy_start i o pu pd log) st.
Proof.
  induction 1 as [|e failed st st' r _ IH Hstep _]; [by split_and!|]. by apply (copy_step_order _ _ _ _ _ _ IH Hstep).
Qed.


Lemma splicing_keeps_log mode st1 failed st s1 :
  c_act st1 = Splicing s1 -> copying mode st1 failed st -> failed = false ->
  c_log st = c_log st1 /\ exists s, c_act st = Splicing s.
Proof.
  intros H1'. induction 1 as [|e failed st st' r _ IH Hstep Hr]; [eauto|].
  intros [Hf Hg]%orb_false_iff. destruct (IH Hf) as [IH' [s Hs]].
  unfold copy_step in Hstep. rewrite Hs in Hstep. unfold splicing_step in Hstep.
  unfold gave_up_splice in Hg. rewrite Hs in Hg.
  destruct (splice_bidirectional_epoll _ _ _ _ _ s) as [[[a b] s'] [[[mu md]|er|]|]];
    injection Hstep as <- <-; cbn in *; try (by destruct Hr); try done. eauto.
Qed.

Lemma copying_trans mode st0 st1 st b1 b : copying mode st0 b1 st1 -> copying mode st1 b st -> copying mode st0 (b1 || b) st.
Proof.
  intros H1'. induction 1 as [|e b st st' r _ IH Hstep Hr]; [by rewrite orb_false_r|].
  rewrite orb_assoc. by eapply copying_step.
Qed.

(** What the splice relay carries is never recorded: when the adaptive loop switches
    in state [st1], the traffic recorder has the bytes that were read until then, and
    when the relay has ended in the splice it still has only those, although the totals
    that it returns count the whole streams. *)
Lemma adaptive_splice_unrecorded (i : I) (o : O) pu pd e1 s2 e st1 st2 st st' u d :
  copying AdaptiveCopy (copy_start i o pu pd (Some [])) false st1 -> c_act st1 = Top ->
  copy_step AdaptiveCopy e1 st1 = (st2, None) -> c_act st2 = Splicing s2 ->
  copying AdaptiveCopy st2 false st ->
  copy_step AdaptiveCopy e st = (st', Some (Ready (Ok (u, d)))) -> drain_timer e = false ->
  log_ok (c_log st') (zlen (incoming i) - zlen (incoming (c_in st1)))
    (zlen (incoming o) - zlen (incoming (c_out st1))) /\
  u = as_u64 (zlen pu + zlen (incoming i)) /\ d = as_u64 (zlen pd + zlen (incoming o)).
Proof.
  intros Hc1 Ht Hs1 Ha2 Hc2 Hs Htimer.
  set (st0 := copy_start i o pu pd (Some [])) in *.
  pose proof (copy_start_inv _ _ _ _ _ _ _ (or_intror eq_refl) Hc1) as Hinv1.
  assert (F1 : flows AdaptiveCopy st0 st1) by (unfold copy_inv in Hinv1; by rewrite Ht in Hinv1).
  assert (Hc : copying AdaptiveCopy st0 false st).
  { apply (copying_trans _ _ st2 _ false false); [|done]. eapply copying_next; [done|done|by left|].
    unfold gave_up_splice. by rewrite Ht. }
  destruct (splicing_keeps_log _ _ _ _ _ Ha2 Hc2 eq_refl) as [Hlog [s Ha]].
  assert (Hlog2 : c_log st2 = c_log st1).
  { unfold copy_step in Hs1. rewrite Ht in Hs1. unfold top_step in Hs1.
    repeat case_match; by simplify_eq. }
  assert (Hlog' : c_log st' = c_log st /\ gave_up_splice st st' = false).
  { unfold copy_step in Hs. rewrite Ha in Hs. unfold splicing_step in Hs. unfold gave_up_splice.
    rewrite Ha. repeat case_match; by simplify_eq. }
  destruct Hlog' as [Hlog' Hg]. rewrite Hlog', Hlog, Hlog2.
  pose proof (copy_step_post _ _ _ _ _ _ (copy_start_inv _ _ _ _ _ _ _ (or_intror eq_refl) Hc) Hs Hg) as Hp.
  cbn [copy_post] in Hp. rewrite Htimer in Hp.
  destruct Hp as [[[_ Hu] [_ Hd]]|(_ & ? & _)]; [|done]. split; [|done].
  destruct F1 as [Fu Fd _ _ L _ _ _ _]. eapply log_ok_eq; [by apply L| |].
  - apply (f_equal zlen) in Fu. unfold counted_up, whole_up in *. rewrite Ht in *. cbn in *.
    rewrite !zlen_app in Fu. change (zlen []) with 0. lia.
  - apply (f_equal zlen) in Fd. unfold counted_down, whole_down in *. rewrite Ht in *. cbn in *.
    rewrite !zlen_app in Fd. change (zlen []) with 0. lia.
Qed.

(** The copy loops serve one direction at a time: while a socket does not accept
    the bytes of the other side, the loop waits for it and reads nothing, so that the
    bytes which that socket itself has sent stay unread, for any number of steps.  When
    the peer does not read before its own data is taken, neither side ever goes on. *)
Theorem copy_loops_block mode rest n st (es : list copy_env) :
  c_act st = WriteDown rest n -> rest <> [] ->
  poll_write (c_in st) rest = (c_in st, Pending) ->
  foldl (fun s e => (copy_step mode e s).1) st es = st /\
  forall e, copy_step mode e st = (st, Some Pending).
Proof.
  intros Hst Hne Hw.
  assert (Hstep : forall e, copy_step mode e st = (st, Some Pending)).
  { intros e. unfold copy_step. rewrite Hst. destruct rest as [|b rest]; [done|].
    unfold write_in. rewrite Hw. destruct st. cbn in *. by subst. }
  split; [|done]. induction es as [|e es IH]; [done|]. cbn. by rewrite Hstep.
Qed.
End LoopFacts.

(** ** Concrete runs *)

Fixpoint run_copy {I O} `{AsyncRead I, AsyncWrite I, AsyncRead O, AsyncWrite O} (mode : copy_mode)
    (e : copy_env) (n : nat) (st : CopyLoop I O) : option (CopyLoop I O) :=
  match n with
  | 0%nat => Some st
  | S n' =>
      match copy_step mode e st with
      | (st', None) | (st', Some Pending) => if gave_up_splice st st' then None else run_copy mode e n' st'
      | _ => None
      end
  end.

Lemma run_copy_copying {I O} `{AsyncRead I, AsyncWrite I, AsyncRead O, AsyncWrite O} mode e n
    (st st' : CopyLoop I O) :
  run_copy mode e n st = Some st' -> copying mode st false st'.
Proof.
  revert st. induction n as [|n IH]; intros st; cbn [run_copy]; [intros [= <-]; apply copying_start|].
  destruct (copy_step mode e st) as [st1 r] eqn:E.
  destruct (gave_up_splice st st1) eqn:G.
  { by destruct r as [[]|]. }
  assert (Hone : r = None \/ r = Some Pending -> copying mode st false st1)
    by (intros Hr; eapply copying_next; [apply copying_start|done..]).
  destruct r as [[|]|]; try done; intros Hr; apply (copying_trans _ _ st1 _ false false); eauto.
Qed.

(** The same from small computations, for states that are too large to compare. *)
Lemma run_copy_default {I O} `{AsyncRead I, AsyncWrite I, AsyncRead O, AsyncWrite O} mode e n
    (st : CopyLoop I O) :
  (if run_copy mode e n st then true else false) = true ->
  copying mode st false (default st (run_copy mode e n st)).
Proof. destruct (run_copy mode e n st) eqn:Hr; [|done]. intros _. by eapply run_copy_copying. Qed.

Lemma copy_step_pair {I O} `{AsyncRead I, AsyncWrite I, AsyncRead O, AsyncWrite O} mode e
    (st : CopyLoop I O) r :
  (copy_step mode e st).2 = r -> copy_step mode e st = ((copy_step mode e st).1, r).
Proof. intros <-. apply surjective_pairing. Qed.

Definition calm : copy_env := mkEnv (31 * 1000000) None None 9 true false.

Definition ragged_in : Script := mkScript [Some [1; 2]; None; Some [3]] [Some 1%nat; None] [].
Definition ragged_out : Script := mkScript [None; Some [7]; None] [None; Some 2%nat] [].
Definition ragged_start : CopyLoop Script Script :=
  copy_start ragged_in ragged_out [5] [6; 6] (Some []).
Definition ragged_last : CopyLoop Script Script :=
  default ragged_start (run_copy AdaptiveCopy calm 26 ragged_start).


(** A bulk upload that reaches the threshold of the adaptive loop. *)
Definition bulk_block : bytes := replicate (Z.to_nat 32768) 0.
Definition bulk_in : Script :=
  mkScript [Some bulk_block; Some bulk_block; Some bulk_block; Some bulk_block; Some [1; 2; 3]] [] [].
Definition bulk_out : Script := mkScript [None; None; None; None; Some [9]] [] [].
Definition bulk_start : CopyLoop Script Script := copy_start bulk_in bulk_out [] [] (Some []).
Definition bulk_top : CopyLoop Script Script :=
  default bulk_start (run_copy AdaptiveCopy calm 18 bulk_start).
Definition bulk_switch : CopyLoop Script Script := (copy_step AdaptiveCopy calm bulk_top).1.
Definition bulk_end : CopyLoop Script Script := (copy_step AdaptiveCopy calm bulk_switch).1.

Lemma adaptive_splice_unrecorded_witness :
  copy_step AdaptiveCopy calm bulk_switch = (bulk_end, Some (Ready (Ok (131075, 1)))) /\
  log_ok (c_log bulk_end) (zlen (incoming bulk_in) - zlen (incoming (c_in bulk_top)))
    (zlen (incoming bulk_out) - zlen (incoming (c_out bulk_top))) /\
  incoming (c_in bulk_top) = [1; 2; 3] /\ incoming (c_out bulk_top) = [9].
Proof.
  assert (Hend : copy_step AdaptiveCopy calm bulk_switch = (bulk_end, Some (Ready (Ok (131075, 1))))).
  { unfold bulk_end. apply copy_step_pair. vm_cast_no_check (eq_refl (Some (Ready (Ok (A := Z * Z) (E := io_error) (131075, 1))))). }
  split; [exact Hend|]. split; [|split; vm_compute; reflexivity].
  refine (proj1 (adaptive_splice_unrecorded bulk_in bulk_out [] [] calm (splice_start None None) calm bulk_top
    bulk_switch bulk_switch bulk_end 131075 1 _ _ _ _ _ _ _)).
  - apply (run_copy_default _ calm 18). vm_cast_no_check (eq_refl true).
  - vm_cast_no_check (eq_refl Top).
  - unfold bulk_switch. apply copy_step_pair. vm_cast_no_check (eq_refl (@None (poll (res io_error (Z * Z))))).
  - vm_cast_no_check (eq_refl (Splicing (splice_start None None))).
  - apply copying_start.
  - exact Hend.
  - reflexivity.
Defined.

(** A splice that fails after it has read: the first direction has three bytes in its pipe
    when the second cannot open one ([EMFILE]).  The loop goes on copying without them, and
    reports success with a total that does not show the loss. *)
Definition short_of_pipes : copy_env := mkEnv (31 * 1000000) None (Some OtherError) 9 true false.
Definition lossy_in : Script :=
  mkScript [Some bulk_block; Some bulk_block; Some bulk_block; Some bulk_block; Some [1; 2; 3]; Some [4]] [] [].
Definition lossy_out : Script := mkScript [None; None; None; None; Some [9]] (replicate 4 (Some (Z.to_nat 32768)) ++ [None]) [].
Definition lossy_switch : CopyLoop Script Script :=
  let st0 := copy_start lossy_in lossy_out [] [] (Some []) in
  (copy_step AdaptiveCopy short_of_pipes (copy_step AdaptiveCopy short_of_pipes (default st0 (run_copy AdaptiveCopy calm 18 st0))).1).1.

Fixpoint finish_copy (n : nat) (st : CopyLoop Script Script) : CopyLoop Script Script * option (poll (res io_error (Z * Z))) :=
  match n with
  | 0%nat => (st, None)
  | S n' =>
      match copy_step AdaptiveCopy calm st with
      | (st', None) | (st', Some Pending) => finish_copy n' st'
      | end_ => end_
      end
  end.

Example failed_splice_loses :
  let '(st, r) := finish_copy 40 lossy_switch in
  r = Some (Ready (Ok (131073, 1))) /\ zlen (incoming lossy_in) = 131076 /\ drop (Z.to_nat 131072) (wire (c_out st)) = [4].
Proof. vm_compute. split_and!; reflexivity. Qed.

(** A client that has data to send and reads nothing: the socket accepts no write. *)
Record Deaf : Type := mkDeaf { deaf_data : bytes }.

#[global] Instance Deaf_read : AsyncRead Deaf :=
  fun s n => (mkDeaf (drop n (deaf_data s)), Ready (Ok (take n (deaf_data s)))).
#[global] Instance Deaf_write : AsyncWrite Deaf := {
  poll_write s _ := (s, Pending);
  poll_flush s := (s, Ready (Ok tt));
  poll_shutdown s := (s, Ready (Ok tt))
}.

Definition deaf_start : CopyLoop Deaf Script :=
  copy_start (mkDeaf [1; 2; 3]) (mkScript [Some [7]] [] []) [] [] (Some []).
Definition deaf_stuck : CopyLoop Deaf Script :=
  default deaf_start (run_copy AdaptiveCopy calm 4 deaf_start).

Lemma copy_loops_block_witness :
  foldl (fun s e => (copy_step AdaptiveCopy e s).1) deaf_stuck (replicate 1000 calm) = deaf_stuck /\
  deaf_data (c_in deaf_stuck) = [1; 2; 3] /\ wire (c_out deaf_stuck) = [].
Proof.
  split; [|split; vm_compute; reflexivity].
  refine (proj1 (copy_loops_block AdaptiveCopy [7] 1 deaf_stuck (replicate 1000 calm) _ _ _)).
  - vm_compute. reflexivity.
  - discriminate.
  - vm_compute. reflexivity.
Defined.

(** ** The choice of the relay *)

Section Choose.
Context {Tcp Direct Other : Type}.

Abbreviation Boxed := (BoxedStream (Tcp := Tcp) (Direct := Direct) (Other := Other)).

(** Which relay runs, on which streams; for two sockets with the bytes read ahead. *)
Inductive relay_choice : Type :=
| UseVision (v : VisionStream Boxed) (outbound : Boxed)
| UseUserspace (inbound outbound : Boxed)
| UseTcp (inbound outbound : Tcp) (prefix_up prefix_down : bytes).

Definition choose_relay (inbound outbound : Boxed) : relay_choice :=
  match try_into_tcp_stream_with_prefix inbound with
  | inr inbound =>
      match try_into_vision_stream inbound with
      | inl vision => UseVision vision outbound
      | inr inbound => UseUserspace inbound outbound
      end
  | inl (i, inbound_prefix) =>
      match try_into_tcp_stream_with_prefix outbound with
      | inr outbound =>
          UseUserspace
            (if bool_decide (inbound_prefix = []) then BTcp i
             else BPrependedTcp (PrependedStream_new i inbound_prefix)) outbound
      | inl (o, outbound_prefix) => UseTcp i o inbound_prefix outbound_prefix
      end
  end.

(** The relay of two sockets under the policies; [TryPlainSplice] falls back to the
    userspace engine when the splice relay fails. *)
Inductive tcp_path : Type := RunZeroCopy | RunUserspace | RunAdaptive | TryPlainSplice.

Definition tcp_path_for (splice_policy : FastSplicePolicy) (zerocopy : FastZerocopyPolicy) : tcp_path :=
  match splice_policy with
  | SpliceDisabled => match zerocopy with ZeroDisabled => RunUserspace | _ => RunZeroCopy end
  | SpliceAdaptive => RunAdaptive
  | SpliceAlways => TryPlainSplice
  end.

(** The loop that runs for a path, if it is one of the copy loops. *)
Definition path_mode (p : tcp_path) : option copy_mode :=
  match p with
  | RunZeroCopy => Some ZeroCopy
  | RunAdaptive => Some AdaptiveCopy
  | _ => None
  end.

Context `{Duplex Tcp} (other_incoming : Other -> bytes) (direct_incoming : Direct -> bytes).

Abbreviation boxed_bytes := (boxed_incoming (Tcp := Tcp) incoming other_incoming direct_incoming).

Lemma choose_relay_lossless (inbound outbound : Boxed) :
  match choose_relay inbound outbound with
  | UseVision v o => boxed_bytes (BVision v) = boxed_bytes inbound /\ o = outbound
  | UseUserspace i o => boxed_bytes i = boxed_bytes inbound /\ boxed_bytes o = boxed_bytes outbound
  | UseTcp i o pu pd => pu ++ incoming i = boxed_bytes inbound /\ pd ++ incoming o = boxed_bytes outbound
  end.
Proof.
  unfold choose_relay.
  pose proof (try_into_tcp_incoming incoming other_incoming direct_incoming inbound) as Hi.
  destruct (try_into_tcp_stream_with_prefix inbound) as [[i pu]|i].
  - pose proof (try_into_tcp_incoming incoming other_incoming direct_incoming outbound) as Ho.
    destruct (try_into_tcp_stream_with_prefix outbound) as [[o pd]|o]; [done|].
    split; [|done]. case_bool_decide as Hp; cbn; rewrite Hi; [by rewrite Hp|done].
  - pose proof (try_into_vision_incoming incoming other_incoming direct_incoming i) as Hv.
    destruct (try_into_vision_stream i) as [v|i']; split; try done.
    + rewrite <- Hi. exact Hv.
    + by rewrite Hv, Hi.
Qed.

(** From erased streams to bytes: whatever adapters two sockets are wrapped in, and
    whatever was read ahead of them, a copy loop that runs for them and ends without the
    drain timer has sent each socket exactly what the erased stream of the other side
    would have delivered, and returns the numbers of those bytes. *)
Theorem relay_of_erased_streams splice_policy zerocopy mode (inbound outbound : Boxed)
    (i o : Tcp) pu pd log e st st' u d :
  choose_relay inbound outbound = UseTcp i o pu pd ->
  path_mode (tcp_path_for splice_policy zerocopy) = Some mode ->
  log = None \/ log = Some [] ->
  copying mode (copy_start i o pu pd log) false st ->
  copy_step mode e st = (st', Some (Ready (Ok (u, d)))) ->
  mode = ZeroCopy \/ drain_timer e = false ->
  sent (c_out st') = sent o ++ boxed_bytes inbound /\ sent (c_in st') = sent i ++ boxed_bytes outbound /\
  u = as_u64 (zlen (boxed_bytes inbound)) /\ d = as_u64 (zlen (boxed_bytes outbound)).
Proof.
  intros Hch _ Hlog Hc Hs Ht. pose proof (choose_relay_lossless inbound outbound) as Hl.
  rewrite Hch in Hl. destruct Hl as [<- <-].
  assert (Hg : gave_up_splice st st' = false).
  { unfold gave_up_splice. unfold copy_step in Hs. destruct (c_act st); try done.
    unfold splicing_step in Hs. repeat case_match; by simplify_eq. }
  pose proof (copy_step_post _ _ _ _ _ _ (copy_start_inv _ _ _ _ _ _ _ Hlog Hc) Hs Hg) as Hp.
  cbn [copy_post] in Hp. rewrite !zlen_app.
  destruct Hp as [[[? ?] [? ?]]|(Hm & Htm & _)]; [done|].
  exfalso. destruct Ht; congruence.
Qed.
End Choose.

Lemma relay_of_erased_streams_witness :
  let inbound : BoxedStream (Tcp := Script) (Direct := unit) (Other := unit) :=
    BPrepended (mkPrepended [8; 5] 1 (BTcp ragged_in)) in
  let outbound := BPrependedTcp (mkPrepended [6; 6] 0 ragged_out) in
  choose_relay inbound outbound = UseTcp ragged_in ragged_out [5] [6; 6] /\
  wire (c_out ragged_last) = boxed_incoming incoming (fun _ => []) (fun _ => []) inbound /\
  wire (c_in ragged_last) = boxed_incoming incoming (fun _ => []) (fun _ => []) outbound.
Proof.
  intros inbound outbound. split; [reflexivity|].
  destruct (relay_of_erased_streams (fun _ => []) (fun _ => []) SpliceAdaptive ZeroDisabled AdaptiveCopy
    inbound outbound ragged_in ragged_out [5] [6; 6] (Some []) calm ragged_last ragged_last 4 3)
    as (Hu & Hd & _).
  - reflexivity.
  - reflexivity.
  - right. reflexivity.
  - apply (run_copy_copying _ calm 26). vm_compute. reflexivity.
  - vm_compute. reflexivity.
  - right. reflexivity.
  - split; [exact Hu|exact Hd].
Defined.
