(* ===== verification/Stats.v ===== *)
(** * Runtime counters

    [blackwire-app] [runtime_stats.rs]: named counters in a table, and handles to them
    that are cached per inbound and per protocol.  The table and the caches share
    the atomics ([Arc<AtomicI64>]); the model keeps that aliasing: a counter is a cell
    of a store, and the maps hold cell numbers.  The specification is a plain map from
    names to values. *)

From S2P Require Import Prelude.

(** An [i64]; [fetch_add] wraps around. *)
Definition as_i64 (x : Z) : Z := (x + 2 ^ 63) mod 2 ^ 64 - 2 ^ 63.
Definition in_i64 (x : Z) : Prop := - 2 ^ 63 <= x < 2 ^ 63.

Lemma as_i64_range x : in_i64 (as_i64 x).
Proof. unfold in_i64, as_i64. pose proof (Z.mod_pos_bound (x + 2 ^ 63) (2 ^ 64)). lia. Qed.

Lemma as_i64_small x : in_i64 x -> as_i64 x = x.
Proof. unfold in_i64, as_i64. intros Hx. rewrite Z.mod_small; lia. Qed.

(** [x.min(i64::MAX as u64) as i64]. *)
Definition clamp_i64 (x : Z) : Z := Z.min x (2 ^ 63 - 1).

(** ** Names *)

Definition connections_total_name : bytes := str "connections>>>total".
Definition inbound_name (tag what : bytes) : bytes := str "inbound>>>" ++ tag ++ str ">>>" ++ what.
Definition protocol_name (tag protocol : bytes) : bytes :=
  inbound_name tag (str "protocol>>>" ++ protocol ++ str ">>>connections>>>total").
Definition user_name (user what : bytes) : bytes := str "user>>>" ++ user ++ str ">>>" ++ what.

Definition UPLINK : bytes := str "traffic>>>uplink".
Definition DOWNLINK : bytes := str "traffic>>>downlink".
Definition TOTAL : bytes := str "connections>>>total".

(** ** State *)

Record InboundHandles : Type := mkHandles {
  connections_total : nat;
  traffic_uplink : nat;
  traffic_downlink : nat;
  protocol_conns : gmap bytes nat
}.

Record Stats : Type := mkStats {
  cells : list Z;
  COUNTERS : gmap bytes nat;
  CONN_TOTAL : option nat;
  INBOUND_HANDLES : gmap bytes InboundHandles
}.

Definition stats_empty : Stats := mkStats [] ∅ None ∅.

(** ** Operations *)

(** The cell of a name, created at zero when it is new. *)
Definition counter (name : bytes) (s : Stats) : Stats * nat :=
  match COUNTERS s !! name with
  | Some id => (s, id)
  | None =>
      let id := length (cells s) in
      (mkStats (cells s ++ [0]) (<[name := id]> (COUNTERS s)) (CONN_TOTAL s) (INBOUND_HANDLES s), id)
  end.

Definition set_cells (c : list Z) (s : Stats) : Stats :=
  mkStats c (COUNTERS s) (CONN_TOTAL s) (INBOUND_HANDLES s).

Definition fetch_add (id : nat) (delta : Z) (s : Stats) : Stats :=
  set_cells (alter (fun x => as_i64 (x + delta)) id (cells s)) s.

Definition increment (name : bytes) (delta : Z) (s : Stats) : Stats :=
  let '(s, id) := counter name s in fetch_add id delta s.

Definition set_handles (tag : bytes) (h : InboundHandles) (s : Stats) : Stats :=
  mkStats (cells s) (COUNTERS s) (CONN_TOTAL s) (<[tag := h]> (INBOUND_HANDLES s)).

Definition inbound_handles (tag : bytes) (s : Stats) : Stats * InboundHandles :=
  match INBOUND_HANDLES s !! tag with
  | Some h => (s, h)
  | None =>
      let '(s, c) := counter (inbound_name tag TOTAL) s in
      let '(s, u) := counter (inbound_name tag UPLINK) s in
      let '(s, d) := counter (inbound_name tag DOWNLINK) s in
      let h := mkHandles c u d ∅ in
      (set_handles tag h s, h)
  end.

(** The [Lazy] handle of the global counter. *)
Definition conn_total (s : Stats) : Stats * nat :=
  match CONN_TOTAL s with
  | Some id => (s, id)
  | None =>
      let '(s, id) := counter connections_total_name s in
      (mkStats (cells s) (COUNTERS s) (Some id) (INBOUND_HANDLES s), id)
  end.

Definition record_connection_accepted (tag protocol : bytes) (s : Stats) : Stats :=
  let '(s, t) := conn_total s in
  let s := fetch_add t 1 s in
  let '(s, h) := inbound_handles tag s in
  let s := fetch_add (connections_total h) 1 s in
  let '(s, p) :=
    match protocol_conns h !! protocol with
    | Some p => (s, p)
    | None =>
        let '(s, p) := counter (protocol_name tag protocol) s in
        (set_handles tag
           (mkHandles (connections_total h) (traffic_uplink h) (traffic_downlink h)
              (<[protocol := p]> (protocol_conns h))) s, p)
    end in
  fetch_add p 1 s.

Definition record_user_traffic (user : bytes) (rx_bytes tx_bytes : Z) (s : Stats) : Stats :=
  increment (user_name user DOWNLINK) (clamp_i64 tx_bytes)
    (increment (user_name user UPLINK) (clamp_i64 rx_bytes) s).

Definition record_relay_traffic (tag : bytes) (user : option bytes) (rx_bytes tx_bytes : Z) (s : Stats) :
    Stats :=
  let '(s, h) := inbound_handles tag s in
  let s := fetch_add (traffic_uplink h) (clamp_i64 rx_bytes) s in
  let s := fetch_add (traffic_downlink h) (clamp_i64 tx_bytes) s in
  match user with
  | Some user => record_user_traffic user rx_bytes tx_bytes s
  | None => s
  end.

(** Reading a counter; [reset] swaps in zero. *)
Definition get (name : bytes) (reset : bool) (s : Stats) : Stats * option Z :=
  match COUNTERS s !! name with
  | Some id =>
      (if reset then set_cells (<[id := 0]> (cells s)) s else s, cells s !! id)
  | None => (s, None)
  end.

(** ** The specification: a map from names to values *)

Abbreviation counts := (gmap bytes Z).

Definition touch (name : bytes) (m : counts) : counts :=
  match m !! name with Some _ => m | None => <[name := 0]> m end.

Definition bump (name : bytes) (delta : Z) (m : counts) : counts :=
  <[name := as_i64 (default 0 (m !! name) + delta)]> m.

Definition touch_inbound (tag : bytes) (m : counts) : counts :=
  touch (inbound_name tag DOWNLINK) (touch (inbound_name tag UPLINK) (touch (inbound_name tag TOTAL) m)).

Definition accepted_counts (tag protocol : bytes) (m : counts) : counts :=
  bump (protocol_name tag protocol) 1 (bump (inbound_name tag TOTAL) 1
    (touch_inbound tag (bump connections_total_name 1 m))).

Definition relayed_counts (tag : bytes) (user : option bytes) (rx tx : Z) (m : counts) : counts :=
  let m := bump (inbound_name tag DOWNLINK) (clamp_i64 tx)
    (bump (inbound_name tag UPLINK) (clamp_i64 rx) (touch_inbound tag m)) in
  match user with
  | Some u => bump (user_name u DOWNLINK) (clamp_i64 tx) (bump (user_name u UPLINK) (clamp_i64 rx) m)
  | None => m
  end.

(** ** Refinement *)

(** The values behind the names. *)
Definition view (s : Stats) : counts := omap (fun id => cells s !! id) (COUNTERS s).

(** Every handle is the cell of its name, and no two names share a cell. *)
Record stats_ok (s : Stats) : Prop := {
  ok_range : Forall in_i64 (cells s);
  ok_cells : forall name id, COUNTERS s !! name = Some id -> (id < length (cells s))%nat;
  ok_inj : forall n1 n2 id, COUNTERS s !! n1 = Some id -> COUNTERS s !! n2 = Some id -> n1 = n2;
  ok_total : forall id, CONN_TOTAL s = Some id -> COUNTERS s !! connections_total_name = Some id;
  ok_handles : forall tag h, INBOUND_HANDLES s !! tag = Some h ->
    COUNTERS s !! inbound_name tag TOTAL = Some (connections_total h) /\
    COUNTERS s !! inbound_name tag UPLINK = Some (traffic_uplink h) /\
    COUNTERS s !! inbound_name tag DOWNLINK = Some (traffic_downlink h) /\
    forall p id, protocol_conns h !! p = Some id -> COUNTERS s !! protocol_name tag p = Some id
}.

Lemma view_lookup s name : view s !! name = COUNTERS s !! name ≫= fun id => cells s !! id.
Proof. unfold view. by rewrite lookup_omap. Qed.

Lemma view_some s name id : stats_ok s -> COUNTERS s !! name = Some id -> is_Some (view s !! name).
Proof.
  intros Hs Hn. rewrite view_lookup, Hn. cbn. apply lookup_lt_is_Some_2. by eapply ok_cells.
Qed.

Lemma stats_empty_ok : stats_ok stats_empty.
Proof. by split; intros *; cbn; rewrite ?lookup_empty. Qed.

Lemma counter_spec s name s' id :
  stats_ok s -> counter name s = (s', id) ->
  stats_ok s' /\ view s' = touch name (view s) /\ COUNTERS s' !! name = Some id /\
  CONN_TOTAL s' = CONN_TOTAL s /\ INBOUND_HANDLES s' = INBOUND_HANDLES s /\
  COUNTERS s ⊆ COUNTERS s'.
Proof.
  intros Hs. unfold counter, touch. destruct (COUNTERS s !! name) as [i|] eqn:Hn.
  { intros [= <- <-]. destruct (view_some _ _ _ Hs Hn) as [v ->]. done. }
  intros [= <- <-]. cbn. rewrite view_lookup, Hn. cbn.
  assert (Hsub : COUNTERS s ⊆ <[name:=length (cells s)]> (COUNTERS s)) by (by apply insert_subseteq).
  pose proof Hs as [Hg Hc Hi Ht Hh]. split_and!; [| | |done|done|done].
  - split; cbn.
    + apply Forall_app. split; [done|]. apply Forall_singleton. unfold in_i64. lia.
    + intros n i Hl. rewrite length_app. cbn. apply lookup_insert_Some in Hl as [[_ <-]|[_ Hl]]; [lia|].
      apply Hc in Hl. lia.
    + intros n1 n2 i H1 H2. apply lookup_insert_Some in H1 as [[<- <-]|[? H1]];
        apply lookup_insert_Some in H2 as [[? ?]|[? H2]]; subst; try done.
      * apply Hc in H2. lia.
      * apply Hc in H1. lia.
      * by eapply Hi.
    + intros i Hl. eapply lookup_weaken; [by apply Ht|done].
    + intros tag h Hl. destruct (Hh _ _ Hl) as (? & ? & ? & Hp).
      split_and!; try (by eapply lookup_weaken). intros p i Hpi. eapply lookup_weaken; [by apply Hp|done].
  - apply map_eq. intros n. rewrite lookup_omap. destruct (decide (n = name)) as [->|Hne].
    + rewrite !lookup_insert_eq. cbn. by rewrite lookup_app_r, Nat.sub_diag by lia.
    + rewrite !lookup_insert_ne by done. rewrite view_lookup.
      destruct (COUNTERS s !! n) as [i|] eqn:Hni; [|done]. cbn. apply Hc in Hni.
      by rewrite lookup_app_l by lia.
  - by rewrite lookup_insert_eq.
Qed.

(** Writing the cell of a name changes that name only. *)
Lemma view_alter s name id f :
  stats_ok s -> COUNTERS s !! name = Some id -> (forall x, in_i64 (f x)) ->
  stats_ok (set_cells (alter f id (cells s)) s) /\
  view (set_cells (alter f id (cells s)) s) = <[name := f (default 0 (view s !! name))]> (view s).
Proof.
  intros Hs Hn Hf. pose proof Hs as [Hg Hc Hi Ht Hh]. split.
  { split; cbn; try done; [|intros n i Hl; rewrite length_alter; by eapply Hc].
    apply Forall_alter; [done|]. intros x _ _. apply Hf. }
  apply map_eq. intros n. rewrite view_lookup. cbn. destruct (decide (n = name)) as [->|Hne].
  - rewrite lookup_insert_eq, Hn, view_lookup, Hn. cbn. rewrite list_lookup_alter_eq.
    destruct (lookup_lt_is_Some_2 (cells s) id) as [v ->]; [by eapply Hc|done].
  - rewrite lookup_insert_ne, view_lookup by done. destruct (COUNTERS s !! n) as [i|] eqn:Hni; [|done].
    cbn. rewrite list_lookup_alter_ne; [done|]. intros ->. apply Hne. by eapply Hi.
Qed.

Lemma fetch_add_spec s name id delta :
  stats_ok s -> COUNTERS s !! name = Some id ->
  stats_ok (fetch_add id delta s) /\ view (fetch_add id delta s) = bump name delta (view s).
Proof. intros Hs Hn. exact (view_alter s name id (fun x => as_i64 (x + delta)) Hs Hn (fun x => as_i64_range _)). Qed.

Lemma bump_touch name delta m : bump name delta (touch name m) = bump name delta m.
Proof.
  unfold bump, touch. destruct (m !! name) eqn:E; [by rewrite E|].
  by rewrite lookup_insert_eq, insert_insert_eq.
Qed.

Lemma increment_spec s name delta :
  stats_ok s -> stats_ok (increment name delta s) /\ view (increment name delta s) = bump name delta (view s).
Proof.
  intros Hs. unfold increment. destruct (counter name s) as [s1 id] eqn:E.
  destruct (counter_spec _ _ _ _ Hs E) as (Hs1 & Hv & Hn & _).
  destruct (fetch_add_spec s1 name id delta Hs1 Hn) as [? Hv2]. split; [done|].
  by rewrite Hv2, Hv, bump_touch.
Qed.

Lemma inbound_handles_spec s tag s' h :
  stats_ok s -> inbound_handles tag s = (s', h) ->
  stats_ok s' /\ INBOUND_HANDLES s' !! tag = Some h /\ view s' = touch_inbound tag (view s).
Proof.
  intros Hs. unfold inbound_handles. destruct (INBOUND_HANDLES s !! tag) as [h'|] eqn:Ht.
  { intros [= <- <-]. split_and!; [done|done|]. destruct (ok_handles _ Hs _ _ Ht) as (Hc & Hu & Hd & _).
    unfold touch_inbound, touch. destruct (view_some _ _ _ Hs Hc) as [v Hv]. rewrite Hv.
    destruct (view_some _ _ _ Hs Hu) as [v' Hv']. rewrite Hv'.
    by destruct (view_some _ _ _ Hs Hd) as [v'' ->]. }
  destruct (counter (inbound_name tag TOTAL) s) as [s1 c] eqn:E1.
  destruct (counter_spec _ _ _ _ Hs E1) as (H1 & V1 & C1 & T1 & I1 & S1).
  destruct (counter (inbound_name tag UPLINK) s1) as [s2 u] eqn:E2.
  destruct (counter_spec _ _ _ _ H1 E2) as (H2 & V2 & C2 & T2 & I2 & S2).
  destruct (counter (inbound_name tag DOWNLINK) s2) as [s3 d] eqn:E3.
  destruct (counter_spec _ _ _ _ H2 E3) as (H3 & V3 & C3 & T3 & I3 & S3).
  intros [= <- <-]. split_and!.
  - pose proof H3 as [Hg Hc Hi Ht3 Hh]. split; cbn; try done.
    intros tg hh Hl. apply lookup_insert_Some in Hl as [[<- <-]|[_ Hl]]; [|by apply Hh]. cbn.
    split_and!; try done; [|by eapply lookup_weaken].
    eapply lookup_weaken; [|done]. by eapply lookup_weaken.
  - cbn. by rewrite lookup_insert_eq.
  - unfold touch_inbound. rewrite <- V1, <- V2, <- V3. done.
Qed.

Lemma conn_total_spec s s' id :
  stats_ok s -> conn_total s = (s', id) ->
  stats_ok s' /\ COUNTERS s' !! connections_total_name = Some id /\
  view s' = touch connections_total_name (view s).
Proof.
  intros Hs. unfold conn_total. destruct (CONN_TOTAL s) as [i|] eqn:Ht.
  { intros [= <- <-]. pose proof (ok_total _ Hs _ Ht) as Hc. split_and!; [done|done|].
    unfold touch. by destruct (view_some _ _ _ Hs Hc) as [v ->]. }
  destruct (counter connections_total_name s) as [s1 c] eqn:E.
  destruct (counter_spec _ _ _ _ Hs E) as (H1 & V1 & C1 & T1 & I1 & S1).
  intros [= <- <-]. split_and!; [|done|done]. destruct H1 as [? ? ? ? ?]. split; cbn; try done. by intros i [= <-].
Qed.

Lemma record_connection_accepted_spec s tag protocol :
  stats_ok s ->
  stats_ok (record_connection_accepted tag protocol s) /\
  view (record_connection_accepted tag protocol s) = accepted_counts tag protocol (view s).
Proof.
  intros Hs. unfold record_connection_accepted, accepted_counts.
  destruct (conn_total s) as [s1 t] eqn:E1. destruct (conn_total_spec _ _ _ Hs E1) as (H1 & C1 & V1).
  destruct (fetch_add_spec s1 _ t 1 H1 C1) as [H2 V2]. set (s2 := fetch_add t 1 s1) in *.
  destruct (inbound_handles tag s2) as [s3 h] eqn:E3.
  destruct (inbound_handles_spec _ _ _ _ H2 E3) as (H3 & I3 & V3).
  destruct (ok_handles _ H3 _ _ I3) as (Hc & Hu & Hd & Hp).
  destruct (fetch_add_spec s3 _ (connections_total h) 1 H3 Hc) as [H4 V4].
  set (s4 := fetch_add (connections_total h) 1 s3) in *.
  rewrite V1, bump_touch in V2. rewrite <- V2, <- V3, <- V4.
  destruct (protocol_conns h !! protocol) as [p|] eqn:Hpc.
  { apply (fetch_add_spec s4 _ p 1 H4). exact (Hp _ _ Hpc). }
  destruct (counter (protocol_name tag protocol) s4) as [s5 p] eqn:E5.
  destruct (counter_spec _ _ _ _ H4 E5) as (H5 & V5 & C5 & T5 & I5 & S5).
  match goal with |- stats_ok (fetch_add p 1 ?x) /\ _ => set (s6 := x) end.
  assert (H6 : stats_ok s6).
  { pose proof H5 as [Og Oc Oi Ot Oh]. split; cbn; try done.
    intros tg hh Hl. apply lookup_insert_Some in Hl as [[<- <-]|[_ Hl]]; [|by apply Oh]. cbn.
    split_and!; try (by eapply lookup_weaken).
    intros q id Hq. apply lookup_insert_Some in Hq as [[<- <-]|[_ Hq]]; [done|].
    eapply lookup_weaken; [by apply Hp|done]. }
  destruct (fetch_add_spec s6 (protocol_name tag protocol) p 1 H6 C5) as [H7 V7]. split; [done|].
  rewrite V7. change (view s6) with (view s5). by rewrite V5, bump_touch.
Qed.

Lemma record_relay_traffic_spec s tag user rx tx :
  stats_ok s ->
  stats_ok (record_relay_traffic tag user rx tx s) /\
  view (record_relay_traffic tag user rx tx s) = relayed_counts tag user rx tx (view s).
Proof.
  intros Hs. unfold record_relay_traffic, relayed_counts.
  destruct (inbound_handles tag s) as [s1 h] eqn:E1.
  destruct (inbound_handles_spec _ _ _ _ Hs E1) as (H1 & I1 & V1).
  destruct (ok_handles _ H1 _ _ I1) as (Hc & Hu & Hd & _).
  destruct (fetch_add_spec s1 _ (traffic_uplink h) (clamp_i64 rx) H1 Hu) as [H2 V2].
  destruct (fetch_add_spec (fetch_add (traffic_uplink h) (clamp_i64 rx) s1) _ (traffic_downlink h)
    (clamp_i64 tx) H2 Hd) as [H3 V3].
  rewrite <- V1, <- V2, <- V3. destruct user as [u|]; [|done].
  unfold record_user_traffic.
  destruct (increment_spec _ (user_name u UPLINK) (clamp_i64 rx) H3) as [H4 V4].
  destruct (increment_spec _ (user_name u DOWNLINK) (clamp_i64 tx) H4) as [H5 V5].
  split; [done|]. by rewrite V5, V4.
Qed.

Lemma stats_get_spec s name reset s' v :
  stats_ok s -> get name reset s = (s', v) ->
  stats_ok s' /\ v = view s !! name /\
  view s' = if reset then match v with Some _ => <[name := 0]> (view s) | None => view s end else view s.
Proof.
  intros Hs. unfold get. rewrite view_lookup. destruct (COUNTERS s !! name) as [id|] eqn:Hn; cbn.
  2: { intros [= <- <-]. by destruct reset. }
  intros [= <- <-]. destruct (view_some _ _ _ Hs Hn) as [x Hx]. rewrite view_lookup, Hn in Hx. cbn in Hx.
  rewrite Hx. destruct reset; [|done].
  destruct (view_alter s name id (fun _ => 0) Hs Hn) as [Ho Hv]; [unfold in_i64; lia|].
  rewrite list_insert_alter. done.
Qed.

(** ** Runs *)

Inductive stats_op : Type :=
| OpAccepted (tag protocol : bytes)
| OpRelayed (tag : bytes) (user : option bytes) (rx tx : Z)
| OpUser (user : bytes) (rx tx : Z)
| OpGet (name : bytes) (reset : bool).

Definition stats_step (s : Stats) (op : stats_op) : Stats :=
  match op with
  | OpAccepted tag protocol => record_connection_accepted tag protocol s
  | OpRelayed tag user rx tx => record_relay_traffic tag user rx tx s
  | OpUser user rx tx => record_user_traffic user rx tx s
  | OpGet name reset => (get name reset s).1
  end.

Definition counts_step (m : counts) (op : stats_op) : counts :=
  match op with
  | OpAccepted tag protocol => accepted_counts tag protocol m
  | OpRelayed tag user rx tx => relayed_counts tag user rx tx m
  | OpUser user rx tx =>
      bump (user_name user DOWNLINK) (clamp_i64 tx) (bump (user_name user UPLINK) (clamp_i64 rx) m)
  | OpGet name true => match m !! name with Some _ => <[name := 0]> m | None => m end
  | OpGet name false => m
  end.

Lemma stats_step_spec s op :
  stats_ok s -> stats_ok (stats_step s op) /\ view (stats_step s op) = counts_step (view s) op.
Proof.
  intros Hs. destruct op as [tag p|tag u rx tx|u rx tx|name reset]; cbn.
  - by apply record_connection_accepted_spec.
  - by apply record_relay_traffic_spec.
  - unfold record_user_traffic.
    destruct (increment_spec s (user_name u UPLINK) (clamp_i64 rx) Hs) as [H4 V4].
    destruct (increment_spec _ (user_name u DOWNLINK) (clamp_i64 tx) H4) as [H5 V5].
    split; [done|]. by rewrite V5, V4.
  - destruct (get name reset s) as [s' v] eqn:E.
    destruct (stats_get_spec _ _ _ _ _ Hs E) as (? & -> & Hv). split; [done|]. by destruct reset.
Qed.

Lemma stats_run_spec ops s :
  stats_ok s -> stats_ok (foldl stats_step s ops) /\
  view (foldl stats_step s ops) = foldl counts_step (view s) ops.
Proof.
  revert s. induction ops as [|op ops IH]; intros s Hs; [done|]. cbn.
  destruct (stats_step_spec s op Hs) as [H1 V1]. destruct (IH _ H1) as [H2 V2]. by rewrite V2, V1.
Qed.

(** The cached handles are invisible: after any sequence of accepted connections,
    recorded traffic, reads and resets, every read of a counter returns what a plain map
    from names to values would hold, whether its updates went through the table, through
    the handles cached for an inbound and its protocols, or through the global handle. *)
Theorem stats_handles_alias ops name :
  (get name false (foldl stats_step stats_empty ops)).2 = foldl counts_step ∅ ops !! name.
Proof.
  destruct (stats_run_spec ops stats_empty stats_empty_ok) as [Hs Hv].
  destruct (get name false (foldl stats_step stats_empty ops)) as [s' v] eqn:E. cbn.
  destruct (stats_get_spec _ _ _ _ _ Hs E) as (_ & -> & _). rewrite Hv. f_equal.
Qed.

(** The names are not injective: an inbound may be called like a protocol of another. *)
Lemma inbound_names_collide tag protocol :
  inbound_name (tag ++ str ">>>protocol>>>" ++ protocol) TOTAL = protocol_name tag protocol.
Proof.
  unfold inbound_name, protocol_name, inbound_name, TOTAL.
  change (str ">>>protocol>>>") with (str ">>>" ++ str "protocol>>>").
  change (str ">>>connections>>>total") with (str ">>>" ++ str "connections>>>total").
  by rewrite <- !app_assoc.
Qed.
