(* ===== verification/Accounting.v ===== *)
(** * Traffic accounting of a connection

    [blackwire-app] [dispatcher.rs]: the recorder that buffers what a relay reports
    ([BufferedTrafficRecorder]) and the end of [dispatch_with_early_payload], which
    settles the traffic of the connection with the runtime counters ([Stats]).  The
    relays that report to it are [Relay] and [RelayPaths]. *)

From S2P Require Import Prelude AsyncIo Vision Relay Boxed Splice RelayPaths Stats.

Definition LIVE_TRAFFIC_FLUSH_BYTES : Z := 64 * 1024.

(** [u64::saturating_add]. *)
Definition sat_add_u64 (x y : Z) : Z := Z.min (x + y) (2 ^ 64 - 1).

Record BufferedTrafficRecorder : Type := mkBuffered {
  inbound_tag : bytes;
  rec_user : option bytes;
  pending_up : Z;
  pending_down : Z;
  saw_live_traffic : bool
}.

Definition BufferedTrafficRecorder_new (tag : bytes) (user : option bytes) : BufferedTrafficRecorder :=
  mkBuffered tag user 0 0 false.

Definition flush_traffic (b : BufferedTrafficRecorder) (s : Stats) : BufferedTrafficRecorder * Stats :=
  let up := pending_up b in
  let down := pending_down b in
  (mkBuffered (inbound_tag b) (rec_user b) 0 0 (saw_live_traffic b),
   if (0 <? up) || (0 <? down) then record_relay_traffic (inbound_tag b) (rec_user b) up down s else s).

Definition record_traffic (up down : Z) (b : BufferedTrafficRecorder) (s : Stats) :
    BufferedTrafficRecorder * Stats :=
  if (up =? 0) && (down =? 0) then (b, s)
  else
    let new_up := if 0 <? up then as_u64 (pending_up b + up) else pending_up b in
    let new_down := if 0 <? down then as_u64 (pending_down b + down) else pending_down b in
    let b := mkBuffered (inbound_tag b) (rec_user b) new_up new_down true in
    if LIVE_TRAFFIC_FLUSH_BYTES <=? sat_add_u64 new_up new_down then flush_traffic b s else (b, s).

(** The calls that a relay made to the recorder, in order. *)
Definition record_log (l : list (Z * Z)) (b : BufferedTrafficRecorder) (s : Stats) :
    BufferedTrafficRecorder * Stats :=
  foldl (fun x e => record_traffic e.1 e.2 x.1 x.2) (b, s) l.

(** The end of [dispatch_with_early_payload]: [result] are the totals of the relay, or
    [None] when it failed or was cancelled; [prewritten_up] were written before it. *)
Definition settle_traffic (prewritten_up : Z) (result : option (Z * Z)) (b : BufferedTrafficRecorder)
    (s : Stats) : Stats :=
  let '(rx_bytes, tx_bytes) :=
    match result with
    | Some (up, down) => (as_u64 (up + prewritten_up), down)
    | None => (0, 0)
    end in
  if saw_live_traffic b then
    let s := (flush_traffic b s).2 in
    if 0 <? prewritten_up
    then record_relay_traffic (inbound_tag b) (rec_user b) prewritten_up 0 s
    else s
  else record_relay_traffic (inbound_tag b) (rec_user b) rx_bytes tx_bytes s.

(** A whole connection: the relay reports [l], then its traffic is settled. *)
Definition account (tag : bytes) (user : option bytes) (l : list (Z * Z)) (prewritten_up : Z)
    (result : option (Z * Z)) (s : Stats) : Stats :=
  let '(b, s) := record_log l (BufferedTrafficRecorder_new tag user) s in
  settle_traffic prewritten_up result b s.

(** ** What the counters show *)

(** The value of a counter; a missing one counts as zero. *)
Definition value (s : Stats) (name : bytes) : Z := default 0 (view s !! name).

(** The names that a connection's traffic is booked on. *)
Definition books (tag : bytes) (user : option bytes) (what name : bytes) : Prop :=
  name = inbound_name tag what \/ exists u, user = Some u /\ name = user_name u what.

Lemma as_i64_add x y : as_i64 (as_i64 x + y) = as_i64 (x + y).
Proof.
  unfold as_i64. set (m := (x + 2 ^ 63) mod 2 ^ 64).
  replace (m - 2 ^ 63 + y + 2 ^ 63) with (m + y) by ring. subst m.
  rewrite Z.add_mod_idemp_l by done. do 2 f_equal. ring.
Qed.

Lemma as_i64_idem x : as_i64 (as_i64 x) = as_i64 x.
Proof. pose proof (as_i64_add x 0) as Hx. by rewrite !Z.add_0_r in Hx. Qed.

Lemma clamp_small x : x < 2 ^ 63 -> clamp_i64 x = x.
Proof. unfold clamp_i64. lia. Qed.

Lemma links_differ : UPLINK <> DOWNLINK.
Proof. by vm_compute. Qed.

Lemma user_not_inbound u tag w1 w2 : user_name u w1 <> inbound_name tag w2.
Proof. unfold user_name, inbound_name. cbn. done. Qed.

Lemma inbound_name_inj tag w1 w2 : inbound_name tag w1 = inbound_name tag w2 -> w1 = w2.
Proof. unfold inbound_name. intros Hn. by apply app_inv_head, app_inv_head, app_inv_head in Hn. Qed.

Lemma user_name_inj u w1 w2 : user_name u w1 = user_name u w2 -> w1 = w2.
Proof. unfold user_name. intros Hn. by apply app_inv_head, app_inv_head, app_inv_head in Hn. Qed.

Lemma touch_value name n m : default 0 (touch name m !! n) = default 0 (m !! n).
Proof.
  unfold touch. destruct (m !! name) eqn:E; [done|]. destruct (decide (n = name)) as [->|Hne].
  - by rewrite lookup_insert_eq, E.
  - by rewrite lookup_insert_ne.
Qed.

Lemma touch_inbound_value tag n m : default 0 (touch_inbound tag m !! n) = default 0 (m !! n).
Proof. unfold touch_inbound. by rewrite !touch_value. Qed.

Lemma bump_value name d m : default 0 (bump name d m !! name) = as_i64 (default 0 (m !! name) + d).
Proof. unfold bump. by rewrite lookup_insert_eq. Qed.

Lemma bump_value_ne name n d m : n <> name -> default 0 (bump name d m !! n) = default 0 (m !! n).
Proof. intros Hne. unfold bump. by rewrite lookup_insert_ne. Qed.

(** Recorded traffic is booked on the inbound and on the user. *)
Lemma relayed_value tag user rx tx s name :
  stats_ok s ->
  (books tag user UPLINK name ->
   value (record_relay_traffic tag user rx tx s) name = as_i64 (value s name + clamp_i64 rx)) /\
  (books tag user DOWNLINK name ->
   value (record_relay_traffic tag user rx tx s) name = as_i64 (value s name + clamp_i64 tx)).
Proof.
  intros Hs. unfold value. destruct (record_relay_traffic_spec s tag user rx tx Hs) as [_ ->].
  pose proof links_differ as Hl. unfold relayed_counts.
  assert (Hu : forall u w1 w2, inbound_name tag w1 <> user_name u w2)
    by (intros u w1 w2 Hn; by apply (user_not_inbound u tag w2 w1)).
  assert (Hi : inbound_name tag UPLINK <> inbound_name tag DOWNLINK)
    by (intros Hn; by apply inbound_name_inj in Hn).
  split; intros [->|(u & -> & ->)].
  1,3: destruct user as [u|]; rewrite ?(bump_value_ne _ _ _ _ (Hu _ _ _)).
  1,2: rewrite bump_value_ne, bump_value, touch_inbound_value by done; done.
  1,2: rewrite bump_value, bump_value_ne, touch_inbound_value by done; done.
  - rewrite bump_value_ne by (intros Hn; by apply user_name_inj in Hn).
    rewrite bump_value, !bump_value_ne by apply user_not_inbound. by rewrite touch_inbound_value.
  - rewrite bump_value, bump_value_ne by (intros Hn; by apply user_name_inj in Hn).
    rewrite !bump_value_ne by apply user_not_inbound. by rewrite touch_inbound_value.
Qed.

(** ** Buffering loses nothing *)

Definition log_up (l : list (Z * Z)) : Z := foldr (fun e => Z.add e.1) 0 l.
Definition log_down (l : list (Z * Z)) : Z := foldr (fun e => Z.add e.2) 0 l.

Definition log_fits (l : list (Z * Z)) : Prop :=
  Forall (fun e => 0 <= e.1 /\ 0 <= e.2) l /\ log_up l < 2 ^ 63 /\ log_down l < 2 ^ 63.

(** What is booked and what is buffered are what was recorded: [u] and [d] bytes since
    the counters had the values of [s0]. *)
Record buffered_ok (s0 : Stats) (tag : bytes) (user : option bytes) (u d : Z)
    (b : BufferedTrafficRecorder) (s : Stats) : Prop := {
  bo_stats : stats_ok s;
  bo_tag : inbound_tag b = tag /\ rec_user b = user;
  bo_up : 0 <= pending_up b <= u;
  bo_down : 0 <= pending_down b <= d;
  bo_value_up : forall name, books tag user UPLINK name ->
    as_i64 (value s name + pending_up b) = as_i64 (value s0 name + u);
  bo_value_down : forall name, books tag user DOWNLINK name ->
    as_i64 (value s name + pending_down b) = as_i64 (value s0 name + d);
  bo_live : saw_live_traffic b = bool_decide (0 < u \/ 0 < d)
}.

Lemma flush_ok s0 tag user u d b s b' s' :
  buffered_ok s0 tag user u d b s -> u < 2 ^ 63 -> d < 2 ^ 63 -> flush_traffic b s = (b', s') ->
  buffered_ok s0 tag user u d b' s' /\ pending_up b' = 0 /\ pending_down b' = 0.
Proof.
  intros [Hs [Ht Hu'] Hu Hd Vu Vd Hl] Lu Ld. unfold flush_traffic. intros [= <- <-]. cbn [pending_up pending_down inbound_tag rec_user saw_live_traffic]. rewrite Ht, Hu'.
  destruct ((0 <? pending_up b) || (0 <? pending_down b)) eqn:Hp.
  - split; [|done]. pose proof (record_relay_traffic_spec s tag user (pending_up b) (pending_down b) Hs) as [Hs' _].
    split; cbn [pending_up pending_down inbound_tag rec_user saw_live_traffic]; try done; try lia.
    + intros name Hn. rewrite (proj1 (relayed_value tag user _ _ s name Hs) Hn), clamp_small by lia.
      by rewrite Z.add_0_r, as_i64_idem, Vu.
    + intros name Hn. rewrite (proj2 (relayed_value tag user _ _ s name Hs) Hn), clamp_small by lia.
      by rewrite Z.add_0_r, as_i64_idem, Vd.
  - bool_hyps. assert (pending_up b = 0) as Eu by lia. assert (pending_down b = 0) as Ed by lia.
    split; [|done]. split; cbn [pending_up pending_down inbound_tag rec_user saw_live_traffic]; try done; try lia.
    + intros name Hn. by rewrite <- (Vu name Hn), Eu.
    + intros name Hn. by rewrite <- (Vd name Hn), Ed.
Qed.

Lemma record_traffic_ok s0 tag user u d b s up down b' s' :
  buffered_ok s0 tag user u d b s -> 0 <= up -> 0 <= down -> u + up < 2 ^ 63 -> d + down < 2 ^ 63 ->
  record_traffic up down b s = (b', s') -> buffered_ok s0 tag user (u + up) (d + down) b' s'.
Proof.
  intros [Hs Ht Hu Hd Vu Vd Hl] H1 H2 L1 L2. unfold record_traffic.
  destruct ((up =? 0) && (down =? 0)) eqn:Hz.
  { apply andb_true_iff in Hz as [->%Z.eqb_eq ->%Z.eqb_eq]. rewrite !Z.add_0_r. by intros [= <- <-]. }
  assert (Eu : (if 0 <? up then as_u64 (pending_up b + up) else pending_up b) = pending_up b + up).
  { destruct (0 <? up) eqn:E; bool_hyps; [|lia]. unfold as_u64. apply Z.mod_small. lia. }
  assert (Ed : (if 0 <? down then as_u64 (pending_down b + down) else pending_down b) = pending_down b + down).
  { destruct (0 <? down) eqn:E; bool_hyps; [|lia]. unfold as_u64. apply Z.mod_small. lia. }
  rewrite Eu, Ed.
  assert (Hb : buffered_ok s0 tag user (u + up) (d + down)
    (mkBuffered (inbound_tag b) (rec_user b) (pending_up b + up) (pending_down b + down) true) s).
  { split; cbn [pending_up pending_down inbound_tag rec_user saw_live_traffic]; try done; try lia.
    - intros name Hn. rewrite Z.add_assoc, <- as_i64_add, (Vu name Hn), as_i64_add. f_equal. lia.
    - intros name Hn. rewrite Z.add_assoc, <- as_i64_add, (Vd name Hn), as_i64_add. f_equal. lia.
    - symmetry. apply bool_decide_eq_true. apply andb_false_iff in Hz as [?%Z.eqb_neq|?%Z.eqb_neq]; lia. }
  destruct (LIVE_TRAFFIC_FLUSH_BYTES <=? _); [|by intros [= <- <-]].
  intros Hf. by destruct (flush_ok _ _ _ _ _ _ _ _ _ Hb L1 L2 Hf).
Qed.

Lemma log_sums_nonneg l : Forall (fun e => 0 <= e.1 /\ 0 <= e.2) l -> 0 <= log_up l /\ 0 <= log_down l.
Proof. unfold log_up, log_down. induction 1 as [|[x y] l [? ?] _ [? ?]]; cbn in *; lia. Qed.

Lemma record_log_ok s0 tag user u d l b s b' s' :
  buffered_ok s0 tag user u d b s -> Forall (fun e => 0 <= e.1 /\ 0 <= e.2) l ->
  u + log_up l < 2 ^ 63 -> d + log_down l < 2 ^ 63 ->
  record_log l b s = (b', s') -> buffered_ok s0 tag user (u + log_up l) (d + log_down l) b' s'.
Proof.
  revert u d b s. induction l as [|[x y] l IH]; intros u d b s Hb Hl L1 L2; unfold record_log; cbn.
  { intros [= <- <-]. by rewrite !Z.add_0_r. }
  apply Forall_cons in Hl as [[Hx Hy] Hl]. cbn in *. destruct (log_sums_nonneg l Hl) as [N1 N2].
  fold (log_up l) (log_down l) in *.
  destruct (record_traffic x y b s) as [b1 s1] eqn:E. intros Hr.
  apply (record_traffic_ok _ _ _ _ _ _ _ _ _ _ _ Hb) in E; [|lia..].
  rewrite !Z.add_assoc. eapply IH; [exact E|done|lia|lia|exact Hr].
Qed.

Lemma value_range s name : stats_ok s -> in_i64 (value s name).
Proof.
  intros Hs. unfold value. rewrite view_lookup. destruct (COUNTERS s !! name) as [id|]; cbn;
    [|unfold in_i64; lia].
  destruct (cells s !! id) as [x|] eqn:Hx; cbn; [|unfold in_i64; lia].
  eapply Forall_lookup_1; [by apply ok_range|done].
Qed.

Lemma new_recorder_ok s tag user :
  stats_ok s -> buffered_ok s tag user 0 0 (BufferedTrafficRecorder_new tag user) s.
Proof. intros Hs. split; try done. Qed.

(** What a connection adds to the books of its inbound and user. *)
Definition booked_up (l : list (Z * Z)) (prewritten_up : Z) (result : option (Z * Z)) : Z :=
  if bool_decide (0 < log_up l \/ 0 < log_down l) then log_up l + prewritten_up
  else match result with Some (up, _) => as_u64 (up + prewritten_up) | None => 0 end.
Definition booked_down (l : list (Z * Z)) (result : option (Z * Z)) : Z :=
  if bool_decide (0 < log_up l \/ 0 < log_down l) then log_down l
  else match result with Some (_, down) => down | None => 0 end.

Lemma account_value tag user l prewritten_up result s :
  stats_ok s -> log_fits l -> 0 <= prewritten_up < 2 ^ 63 ->
  match result with Some (up, down) => 0 <= up + prewritten_up < 2 ^ 63 /\ 0 <= down < 2 ^ 63 | None => True end ->
  (forall name, books tag user UPLINK name ->
    value (account tag user l prewritten_up result s) name =
      as_i64 (value s name + booked_up l prewritten_up result)) /\
  (forall name, books tag user DOWNLINK name ->
    value (account tag user l prewritten_up result s) name =
      as_i64 (value s name + booked_down l result)).
Proof.
  intros Hs (Hl & Lu & Ld) Hp Hres. unfold account.
  destruct (record_log l (BufferedTrafficRecorder_new tag user) s) as [b s1] eqn:E.
  apply (record_log_ok s tag user 0 0) in E; [|by apply new_recorder_ok|done|lia|lia].
  rewrite !Z.add_0_l in E. pose proof E as [Hs1 [Ht Hu] _ _ Vu Vd Hlive].
  unfold settle_traffic, booked_up, booked_down. rewrite <- Hlive, Ht, Hu.
  destruct (saw_live_traffic b) eqn:Hsaw.
  - destruct (flush_traffic b s1) as [b2 s2] eqn:Hf.
    destruct (flush_ok _ _ _ _ _ _ _ _ _ E Lu Ld Hf) as ([Hs2 _ _ _ Vu2 Vd2 _] & Pu & Pd).
    rewrite Pu in Vu2. rewrite Pd in Vd2. cbn [snd].
    assert (Wu : forall name, books tag user UPLINK name -> value s2 name = as_i64 (value s name + log_up l)).
    { intros name Hn. rewrite <- (Vu2 name Hn), Z.add_0_r. symmetry. by apply as_i64_small, value_range. }
    assert (Wd : forall name, books tag user DOWNLINK name -> value s2 name = as_i64 (value s name + log_down l)).
    { intros name Hn. rewrite <- (Vd2 name Hn), Z.add_0_r. symmetry. by apply as_i64_small, value_range. }
    assert (Hgoal : forall A (x : A) (f : A -> Z * Z), (let '(_, _) := f x in
      if 0 <? prewritten_up then record_relay_traffic tag user prewritten_up 0 s2 else s2) =
      if 0 <? prewritten_up then record_relay_traffic tag user prewritten_up 0 s2 else s2)
      by (intros A x f; by destruct (f x)).
    rewrite (Hgoal _ result (fun r => match r with Some (up, down) => (as_u64 (up + prewritten_up), down) | None => (0, 0) end)).
    destruct (0 <? prewritten_up) eqn:Hpw; bool_hyps; split; intros name Hn.
    + rewrite (proj1 (relayed_value tag user _ _ s2 name Hs2) Hn), clamp_small, Wu, as_i64_add by (done || lia).
      f_equal. lia.
    + rewrite (proj2 (relayed_value tag user _ _ s2 name Hs2) Hn), clamp_small, Wd, as_i64_add by (done || lia).
      f_equal. lia.
    + rewrite Wu by done. f_equal. lia.
    + by rewrite Wd.
  - assert (Hno : log_up l = 0 /\ log_down l = 0).
    { destruct (log_sums_nonneg l Hl). symmetry in Hlive. apply bool_decide_eq_false in Hlive. lia. }
    destruct Hno as [Nu Nd].
    assert (Wu : forall name, books tag user UPLINK name -> value s1 name = value s name).
    { intros name Hn. pose proof (Vu name Hn) as V.
      destruct E as [_ _ Bu _ _ _ _]. rewrite Nu in *. assert (pending_up b = 0) as Z0 by lia.
      rewrite Z0, !Z.add_0_r, !as_i64_small in V by (by apply value_range). done. }
    assert (Wd : forall name, books tag user DOWNLINK name -> value s1 name = value s name).
    { intros name Hn. pose proof (Vd name Hn) as V.
      destruct E as [_ _ _ Bd _ _ _]. rewrite Nd in *. assert (pending_down b = 0) as Z0 by lia.
      rewrite Z0, !Z.add_0_r, !as_i64_small in V by (by apply value_range). done. }
    destruct result as [[up down]|]; split; intros name Hn.
    + rewrite (proj1 (relayed_value tag user _ _ s1 name Hs1) Hn), Wu by done.
      unfold as_u64. rewrite Z.mod_small, clamp_small by lia. done.
    + rewrite (proj2 (relayed_value tag user _ _ s1 name Hs1) Hn), Wd, clamp_small by (done || lia). done.
    + rewrite (proj1 (relayed_value tag user _ _ s1 name Hs1) Hn), Wu, clamp_small by (done || lia). done.
    + rewrite (proj2 (relayed_value tag user _ _ s1 name Hs1) Hn), Wd, clamp_small by (done || lia). done.
Qed.

(** ** Whole connections *)

(** C5. A connection that the userspace relay carried to its end is accounted exactly:
    the counters of its inbound and of its user grow by the bytes that were relayed in
    each direction, and those written before the relay, however the relay reported them
    and whenever the recorder flushed. *)
Theorem userspace_traffic_exact `{AllocLaws} {A B : Type} `{Duplex A} `{Duplex B}
    o policy (a : A) (b : B) x x' st l tag user prewritten_up s :
  relaying policy (relay_new o a b (Some [])) x ->
  relay_round policy x = (x', Return (Ok st)) -> rlog x' = Some l ->
  Forall (fun e => 0 <= e.1 /\ 0 <= e.2) l ->
  stats_ok s -> 0 <= prewritten_up ->
  zlen (incoming a) + prewritten_up < 2 ^ 63 -> zlen (incoming b) < 2 ^ 63 ->
  let s' := account tag user l prewritten_up (Some (byte_totals st)) s in
  (forall name, books tag user UPLINK name ->
    value s' name = as_i64 (value s name + (zlen (incoming a) + prewritten_up))) /\
  (forall name, books tag user DOWNLINK name ->
    value s' name = as_i64 (value s name + zlen (incoming b))).
Proof.
  intros Hr Hd Hl Hpos Hs Hp La Lb.
  destruct (relay_round_done o policy a b (Some []) x x' _ (or_intror eq_refl) Hr Hd) as [_ Hdone].
  destruct (Hdone st eq_refl) as (_ & _ & Ht & Hlog). rewrite Hl in Hlog. destruct Hlog as [Lu Ld].
  fold (log_up l) in Lu. fold (log_down l) in Ld.
  assert (Na : 0 <= zlen (incoming a)) by (unfold zlen; lia).
  assert (Nb : 0 <= zlen (incoming b)) by (unfold zlen; lia).
  assert (Ht' : byte_totals st = (zlen (incoming a), zlen (incoming b))).
  { rewrite Ht. unfold as_u64. rewrite !Z.mod_small by lia. done. }
  rewrite Ht'. destruct (account_value tag user l prewritten_up (Some (zlen (incoming a), zlen (incoming b))) s)
    as [Hu Hdn]; [done|by split_and!; [|lia..]|lia|lia|].
  assert (Bu : booked_up l prewritten_up (Some (zlen (incoming a), zlen (incoming b))) = zlen (incoming a) + prewritten_up).
  { unfold booked_up. rewrite Lu. case_bool_decide; [done|]. unfold as_u64. by rewrite Z.mod_small by lia. }
  assert (Bd : booked_down l (Some (zlen (incoming a), zlen (incoming b))) = zlen (incoming b)).
  { unfold booked_down. rewrite Ld. by case_bool_decide. }
  rewrite Bu in Hu. rewrite Bd in Hdn. done.
Qed.

(** Spliced traffic is not accounted: when the adaptive loop has switched to splice
    after [st1], a connection that ends well is booked with the bytes read before the
    switch only; the bytes that were still unread then, and the prefixes that were read
    ahead, are relayed and counted in the totals but never reach the counters. *)
Theorem spliced_traffic_unbooked {I O : Type} `{Duplex I} `{Duplex O} (i : I) (o : O) pu pd e1 s2 e
    st1 st2 st st' u d l tag user prewritten_up s :
  copying AdaptiveCopy (copy_start i o pu pd (Some [])) false st1 -> c_act st1 = Top ->
  copy_step AdaptiveCopy e1 st1 = (st2, None) -> c_act st2 = Splicing s2 ->
  copying AdaptiveCopy st2 false st ->
  copy_step AdaptiveCopy e st = (st', Some (Ready (Ok (u, d)))) -> drain_timer e = false ->
  c_log st' = Some l -> Forall (fun e => 0 <= e.1 /\ 0 <= e.2) l ->
  zlen (incoming (c_in st1)) < zlen (incoming i) ->
  zlen pu + zlen (incoming i) + prewritten_up < 2 ^ 63 -> zlen pd + zlen (incoming o) < 2 ^ 63 ->
  stats_ok s -> 0 <= prewritten_up ->
  (u, d) = (zlen pu + zlen (incoming i), zlen pd + zlen (incoming o)) /\
  forall name, books tag user UPLINK name ->
    value (account tag user l prewritten_up (Some (u, d)) s) name =
      as_i64 (value s name + (zlen (incoming i) - zlen (incoming (c_in st1)) + prewritten_up)).
Proof.
  intros Hc1 Ht Hs1 Ha2 Hc2 Hend Htimer Hl Hpos Hlt Lu Ld Hs Hp.
  destruct (adaptive_splice_unrecorded i o pu pd e1 s2 e st1 st2 st st' u d Hc1 Ht Hs1 Ha2 Hc2 Hend Htimer)
    as (Hlog & Hu & Hd). rewrite Hl in Hlog. destruct Hlog as [Sl Sd].
  fold (log_up l) in Sl. fold (log_down l) in Sd.
  assert (N : 0 <= zlen pu /\ 0 <= zlen pd /\ 0 <= zlen (incoming o) /\ 0 <= zlen (incoming (c_in st1)) /\
    0 <= zlen (incoming (c_out st1))) by (unfold zlen; lia). destruct N as (? & ? & ? & ? & ?).
  unfold as_u64 in Hu, Hd. rewrite Z.mod_small in Hu by lia. rewrite Z.mod_small in Hd by lia.
  subst u d. split; [done|].
  destruct (account_value tag user l prewritten_up
    (Some (zlen pu + zlen (incoming i), zlen pd + zlen (incoming o))) s) as [Hv _];
    [done|by split_and!; [|lia..]|lia|lia|].
  intros name Hn. rewrite (Hv name Hn). unfold booked_up. rewrite Sl, bool_decide_eq_true_2 by lia.
  f_equal; lia.
Qed.

Definition last_round : Relay Script Script :=
  rounds 3 Adaptive (relay_new small_relay relay_source relay_sink (Some [])).
Definition alice : option bytes := Some (str "alice").

Lemma userspace_traffic_exact_witness :
  let s := account (str "socks") alice [(2, 0); (0, 1); (1, 0)] 7 (Some (3, 1)) stats_empty in
  value s (user_name (str "alice") UPLINK) = 10 /\ value s (inbound_name (str "socks") DOWNLINK) = 1.
Proof.
  destruct (userspace_traffic_exact small_relay Adaptive relay_source relay_sink last_round
    (relay_round Adaptive last_round).1
    (relay_stats (up (relay_round Adaptive last_round).1) (down (relay_round Adaptive last_round).1))
    [(2, 0); (0, 1); (1, 0)] (str "socks") alice 7 stats_empty) as [Hu Hd].
  - apply relaying_rounds. vm_compute. reflexivity.
  - vm_compute. reflexivity.
  - vm_compute. reflexivity.
  - refine (bool_decide_unpack (Forall _ _) _). vm_compute. exact I.
  - apply stats_empty_ok.
  - lia.
  - vm_compute. reflexivity.
  - vm_compute. reflexivity.
  - split.
    + apply Hu. right. exists (str "alice"). split; reflexivity.
    + apply Hd. left. reflexivity.
Defined.

Lemma spliced_traffic_unbooked_witness :
  let l := [(32768, 0); (32768, 0); (32768, 0); (32768, 0)] in
  value (account (str "socks") alice l 0 (Some (131075, 1)) stats_empty)
    (user_name (str "alice") UPLINK) = 131072.
Proof.
  destruct (spliced_traffic_unbooked bulk_in bulk_out [] [] calm (splice_start None None) calm bulk_top bulk_switch
    bulk_switch bulk_end 131075 1 [(32768, 0); (32768, 0); (32768, 0); (32768, 0)] (str "socks") alice 0
    stats_empty) as [_ Hv].
  - apply (run_copy_default _ calm 18). vm_cast_no_check (eq_refl true).
  - vm_cast_no_check (eq_refl Top).
  - unfold bulk_switch. apply copy_step_pair. vm_cast_no_check (eq_refl (@None (poll (res io_error (Z * Z))))).
  - vm_cast_no_check (eq_refl (Splicing (splice_start None None))).
  - apply copying_start.
  - unfold bulk_end. apply copy_step_pair.
    vm_cast_no_check (eq_refl (Some (Ready (Ok (A := Z * Z) (E := io_error) (131075, 1))))).
  - reflexivity.
  - vm_cast_no_check (eq_refl (Some [(32768, 0); (32768, 0); (32768, 0); (32768, 0)])).
  - refine (bool_decide_unpack (Forall _ _) _). vm_compute. exact I.
  - vm_cast_no_check (eq_refl Lt).
  - vm_cast_no_check (eq_refl Lt).
  - vm_cast_no_check (eq_refl Lt).
  - apply stats_empty_ok.
  - lia.
  - intros l. rewrite Hv; [|right; exists (str "alice"); split; reflexivity].
    vm_cast_no_check (eq_refl 131072).
Defined.
