(* ===== verification/Dispatch.v ===== *)
(** * From an accepted connection to its relay

    [blackwire-app] [dispatcher.rs]: the stages of [dispatch_with_early_payload] between
    the inbound handler and the relay.  The sniffing stage ([Sniff]) may wrap the inbound
    stream; the outbound is connected, with the early payload; what it did not write is
    put in front of the inbound stream and what it read in front of the outbound stream;
    a pooled socket gets its first write under guard.  Outbound handlers and
    [tcp_connect] are parameters. *)

From S2P Require Import Prelude Common Lru Dns AsyncIo Vision Relay Sniff.

(** ** Streams that may be wrapped *)

Section SumStreams.
Context {A B : Type}.

#[global] Instance sum_read `{AsyncRead A, AsyncRead B} : AsyncRead (A + B) := fun s n =>
  match s with
  | inl a => let '(a', r) := poll_read a n in (inl a', r)
  | inr b => let '(b', r) := poll_read b n in (inr b', r)
  end.

#[global] Instance sum_write `{AsyncWrite A, AsyncWrite B} : AsyncWrite (A + B) := {
  poll_write s x :=
    match s with
    | inl a => let '(a', r) := poll_write a x in (inl a', r)
    | inr b => let '(b', r) := poll_write b x in (inr b', r)
    end;
  poll_flush s :=
    match s with
    | inl a => let '(a', r) := poll_flush a in (inl a', r)
    | inr b => let '(b', r) := poll_flush b in (inr b', r)
    end;
  poll_shutdown s :=
    match s with
    | inl a => let '(a', r) := poll_shutdown a in (inl a', r)
    | inr b => let '(b', r) := poll_shutdown b in (inr b', r)
    end
}.


(** A poll of a sum is a poll of the side it is on. *)
Definition on_inl {X} (r : A * X) : (A + B) * X := (inl r.1, r.2).
Definition on_inr {X} (r : B * X) : (A + B) * X := (inr r.1, r.2).

Lemma on_inl_eq {X} (r : A * X) (y : A + B) x : on_inl r = (y, x) -> exists a, y = inl a /\ r = (a, x).
Proof. destruct r. intros [= <- <-]. eauto. Qed.
Lemma on_inr_eq {X} (r : B * X) (y : A + B) x : on_inr r = (y, x) -> exists b, y = inr b /\ r = (b, x).
Proof. destruct r. intros [= <- <-]. eauto. Qed.

Lemma sum_read_eq `{AsyncRead A, AsyncRead B} (s : A + B) n :
  poll_read s n = match s with inl a => on_inl (poll_read a n) | inr b => on_inr (poll_read b n) end.
Proof. destruct s as [a|b]; cbv [poll_read sum_read on_inl on_inr]; by case_match. Qed.

Lemma sum_write_eq `{AsyncWrite A, AsyncWrite B} (s : A + B) x :
  poll_write s x = match s with inl a => on_inl (poll_write a x) | inr b => on_inr (poll_write b x) end.
Proof. destruct s as [a|b]; cbn; by case_match. Qed.
Lemma sum_flush_eq `{AsyncWrite A, AsyncWrite B} (s : A + B) :
  poll_flush s = match s with inl a => on_inl (poll_flush a) | inr b => on_inr (poll_flush b) end.
Proof. destruct s as [a|b]; cbn; by case_match. Qed.
Lemma sum_shutdown_eq `{AsyncWrite A, AsyncWrite B} (s : A + B) :
  poll_shutdown s = match s with inl a => on_inl (poll_shutdown a) | inr b => on_inr (poll_shutdown b) end.
Proof. destruct s as [a|b]; cbn; by case_match. Qed.

Ltac on_side :=
  intros [?|?]; intros *; rewrite ?sum_read_eq, ?sum_write_eq, ?sum_flush_eq, ?sum_shutdown_eq;
  let H := fresh in
  intros H; first [apply on_inl_eq in H as (? & -> & ?) | apply on_inr_eq in H as (? & -> & ?)]; cbn.

(** The law [L] for the side's own poll. *)
Tactic Notation "by_poll" uconstr(L) :=
  match goal with Hp : _ = (_, _) |- _ => first [exact (L _ _ _ Hp) | exact (L _ _ _ _ Hp) | exact (L _ _ Hp)
    | refine (L _ _ _ _ Hp _); done] end.

#[global] Program Instance sum_readspec `{ReadSpec A, ReadSpec B} : ReadSpec (A + B) := {
  incoming s := match s with inl a => incoming a | inr b => incoming b end
}.
Next Obligation. intros ????. on_side; by apply poll_read_ok. Qed.
Next Obligation. intros ????. on_side; by_poll poll_read_pending. Qed.
Next Obligation. intros ????. on_side; by_poll poll_read_no_panic. Qed.

#[global] Program Instance sum_writespec `{WriteSpec A, WriteSpec B} : WriteSpec (A + B) := {
  sent s := match s with inl a => sent a | inr b => sent b end
}.
Next Obligation. intros ????. on_side; by apply poll_write_ok. Qed.
Next Obligation. intros ????. on_side; by_poll poll_write_not_ok. Qed.
Next Obligation. intros ????. on_side; by_poll poll_write_no_panic. Qed.
Next Obligation. intros ????. on_side; by_poll poll_flush_sent. Qed.
Next Obligation. intros ????. on_side; by_poll poll_flush_no_panic. Qed.
Next Obligation. intros ????. on_side; by_poll poll_shutdown_sent. Qed.
Next Obligation. intros ????. on_side; by_poll poll_shutdown_no_panic. Qed.

#[global] Instance sum_duplex `{Duplex A} `{Duplex B} : Duplex (A + B).
Proof.
  split.
  - on_side; by_poll poll_read_sent.
  - on_side; by_poll poll_write_incoming.
  - on_side; by_poll poll_flush_incoming.
  - on_side; by_poll poll_shutdown_incoming.
Qed.
End SumStreams.

Section PrependedDuplex.
Context {S : Type} `{Duplex S}.

#[global] Program Instance PrependedStream_writespec : WriteSpec (PrependedStream S) := {
  sent s := sent (pre_inner s)
}.
Next Obligation.
  intros s b s' n. cbn. unfold PrependedStream_poll_write.
  destruct (poll_write (pre_inner s) b) as [i r] eqn:E. intros [= <- ->]. by apply poll_write_ok in E.
Qed.
Next Obligation.
  intros s b s' r. cbn. unfold PrependedStream_poll_write.
  destruct (poll_write (pre_inner s) b) as [i x] eqn:E. intros [= <- ->] Hn. by eapply poll_write_not_ok in E.
Qed.
Next Obligation.
  intros s b s'. cbn. unfold PrependedStream_poll_write.
  destruct (poll_write (pre_inner s) b) as [i x] eqn:E. intros [= <- ->]. by apply poll_write_no_panic in E.
Qed.
Next Obligation.
  intros s s' r. cbn. unfold PrependedStream_poll_flush.
  destruct (poll_flush (pre_inner s)) as [i x] eqn:E. intros [= <- ->]. by apply poll_flush_sent in E.
Qed.
Next Obligation.
  intros s s'. cbn. unfold PrependedStream_poll_flush.
  destruct (poll_flush (pre_inner s)) as [i x] eqn:E. intros [= <- ->]. by apply poll_flush_no_panic in E.
Qed.
Next Obligation.
  intros s s' r. cbn. unfold PrependedStream_poll_shutdown.
  destruct (poll_shutdown (pre_inner s)) as [i x] eqn:E. intros [= <- ->]. by apply poll_shutdown_sent in E.
Qed.
Next Obligation.
  intros s s'. cbn. unfold PrependedStream_poll_shutdown.
  destruct (poll_shutdown (pre_inner s)) as [i x] eqn:E. intros [= <- ->]. by apply poll_shutdown_no_panic in E.
Qed.

#[global] Instance PrependedStream_duplex : Duplex (PrependedStream S).
Proof.
  split.
  - intros s n s' r. unfold poll_read, PrependedStream_read, PrependedStream_poll_read.
    case_match; [by intros [= <- _]; case_match|].
    destruct (AsyncIo.poll_read (pre_inner s) n) as [i x] eqn:E. intros [= <- _]. by apply poll_read_sent in E.
  - intros s b s' r. cbn. unfold PrependedStream_poll_write, prepended_incoming.
    destruct (poll_write (pre_inner s) b) as [i x] eqn:E. intros [= <- _]. cbn. by erewrite poll_write_incoming.
  - intros s s' r. cbn. unfold PrependedStream_poll_flush, prepended_incoming.
    destruct (poll_flush (pre_inner s)) as [i x] eqn:E. intros [= <- _]. cbn. by erewrite poll_flush_incoming.
  - intros s s' r. cbn. unfold PrependedStream_poll_shutdown, prepended_incoming.
    destruct (poll_shutdown (pre_inner s)) as [i x] eqn:E. intros [= <- _]. cbn. by erewrite poll_shutdown_incoming.
Qed.
End PrependedDuplex.

(** ** Connecting *)

Record OutboundConnectResult (O : Type) : Type := mkConnect {
  co_stream : O;
  wrote_early_payload : bool;
  returned_early_response : option bytes
}.
Arguments mkConnect {O} _ _ _.
Arguments co_stream {O} _.
Arguments wrote_early_payload {O} _.
Arguments returned_early_response {O} _.

(** [OutboundConnectResult::stream]. *)
Definition connect_stream {O} (o : O) : OutboundConnectResult O := mkConnect o false None.

(** What is lost of an [io::Error] in a [ProxyError] is its message. *)
Definition io_failed {A} (e : io_error) : res ProxyError A :=
  Err (Io match e with
          | AsyncIo.UnexpectedEof => Common.UnexpectedEof
          | AsyncIo.InvalidData => Common.InvalidData
          | AsyncIo.BrokenPipe => Common.BrokenPipe
          | _ => Common.OtherKind
          end).

(** [OutboundHandler::connect_with_early_payload] as the trait gives it: the payload is
    written on the connected stream. *)
Definition default_connect_with_early_payload {O} `{AsyncWrite O} (fuel : nat)
    (connected : res ProxyError O) (early_payload : option bytes) :
    option (res ProxyError (OutboundConnectResult O)) :=
  match connected with
  | Ok stream =>
      match early_payload with
      | Some (x :: payload) =>
          match write_all fuel stream (x :: payload) with
          | Some (stream, Ok _) => Some (Ok (mkConnect stream true None))
          | Some (_, Err e) => Some (io_failed e)
          | Some (_, Panic) => Some Panic
          | None => None
          end
      | _ => Some (Ok (connect_stream stream))
      end
  | Err e => Some (Err e)
  | Panic => Some Panic
  end.

(** ** Pooled sockets *)

(** [as_any().is::<PooledStream<TcpStream>>()] and [into_metadata_parts]: the socket of
    a pooled stream and the address of its peer. *)
Class PooledView (O : Type) : Type :=
  pool_view : O -> option (O * option (bytes * Z)).

(** Taking a pooled stream apart leaves the socket as it is. *)
Class PooledLaws (O : Type) `{PooledView O} `{Duplex O} : Prop :=
  pool_view_same o i peer : pool_view o = Some (i, peer) -> incoming i = incoming o /\ sent i = sent o.

Definition POOLED_FIRST_WRITE_GUARD_BUF_SIZE : nat := Z.to_nat 2048.

Section Guard.
Context {I O : Type} `{AsyncRead I} `{AsyncRead O, AsyncWrite O} `{PooledView O}.
(** [tcp_connect], and [connect_outbound] for the same destination. *)
Context (tcp_connect : bytes * Z -> res ProxyError O) (connect_outbound : res ProxyError O).

(** The boxed outbound stream is the connected one or one with a response in front;
    only the former can be pooled.  [guard_polls] polls take the guard's timeout.
    [None] is a write that is still pending after [fuel] polls. *)
Definition guard_pooled_first_write (guard_polls fuel : nat) (fast : bool) (inbound : I)
    (outbound : O + PrependedStream O) :
    option (res ProxyError (I * (O + PrependedStream O) * Z)) :=
  let pooled :=
    match outbound with
    | inl o => if fast then pool_view o else None
    | inr _ => None
    end in
  match pooled with
  | None => Some (Ok (inbound, outbound, 0))
  | Some (socket, peer_addr) =>
      let '(inbound, r) := read_within guard_polls inbound POOLED_FIRST_WRITE_GUARD_BUF_SIZE in
      match r with
      | None | Some (Ok []) => Some (Ok (inbound, inl socket, 0))
      | Some (Err e) => Some (io_failed e)
      | Some Panic => Some Panic
      | Some (Ok first) =>
          match write_all fuel socket first with
          | None => None
          | Some (_, Panic) => Some Panic
          | Some (socket, Ok _) => Some (Ok (inbound, inl socket, zlen first))
          | Some (_, Err _) =>
              match match peer_addr with Some addr => tcp_connect addr | None => connect_outbound end with
              | Err e => Some (Err e)
              | Panic => Some Panic
              | Ok fresh =>
                  match write_all fuel fresh first with
                  | None => None
                  | Some (fresh, Ok _) => Some (Ok (inbound, inl fresh, zlen first))
                  | Some (_, Err e) => Some (io_failed e)
                  | Some (_, Panic) => Some Panic
                  end
              end
          end
      end
  end.
End Guard.

(** ** The stages together *)

Section Setup.
Context {I O : Type} `{AsyncRead I} `{AsyncRead O, AsyncWrite O} `{PooledView O}.
Context {N L : Type} `{Ipv4Net N} `{Lru L unit}.
Context (tcp_connect : bytes * Z -> res ProxyError O).

(** Routing and dialling ([connect_outbound_result]) of a destination, with the early
    payload or without. *)
Context (connect : Address -> option bytes -> res ProxyError (OutboundConnectResult O)).

Abbreviation Wrapped S := (S + PrependedStream S)%type.

(** What the outbound did not write goes in front of the inbound stream. *)
Definition prepend_early (early_payload : option bytes) (c : OutboundConnectResult O)
    (inbound : Wrapped I) : Wrapped (Wrapped I) :=
  if wrote_early_payload c then inl inbound
  else
    match early_payload with
    | Some (x :: payload) => inr (PrependedStream_new inbound (x :: payload))
    | _ => inl inbound
    end.

(** What it read goes in front of the outbound stream. *)
Definition prepend_response (c : OutboundConnectResult O) : Wrapped O :=
  match returned_early_response c with
  | Some (x :: response) => inr (PrependedStream_new (co_stream c) (x :: response))
  | _ => inl (co_stream c)
  end.

(** [user_bandwidth.rs]: shaping is switched off in the code, the stream is returned as
    it is. *)
Inductive UserBandwidthDirection : Type := Upload | Download.

Definition shape_stream_writes_for_user {S : Type} (stream : S) (user : option bytes) (direction : UserBandwidthDirection) : S :=
  stream.

(** [dispatch_with_early_payload] up to the relay: the streams that it relays and the
    number of payload bytes that are already with the outbound; [user] is the user of the
    connection. *)
Definition dispatch_setup (sniff_polls guard_polls fuel : nat) (fast : bool) (user : option bytes)
    (sniff_cfg : option SniffingConfig) (dns : option (option (FakeIpPool N L)))
    (early_payload : option bytes) (dest : Address) (inbound : I) :
    option (res ProxyError (Wrapped (Wrapped I) * Wrapped O * Z)) :=
  match sniff_stage sniff_polls sniff_cfg dns early_payload dest inbound with
  | Err e => Some (io_failed e)
  | Panic => Some Panic
  | Ok (dest, inbound, _) =>
      match connect dest early_payload with
      | Err e => Some (Err e)
      | Panic => Some Panic
      | Ok c =>
          let prewritten_early_up :=
            if wrote_early_payload c then zlen (default [] early_payload) else 0 in
          match guard_pooled_first_write tcp_connect
                  (match connect dest None with Ok c => Ok (co_stream c) | Err e => Err e | Panic => Panic end)
                  guard_polls fuel fast (prepend_early early_payload c inbound) (prepend_response c) with
          | Some (Ok (inbound, outbound, prewritten_up)) =>
              let inbound := shape_stream_writes_for_user inbound user Download in
              let outbound := shape_stream_writes_for_user outbound user Upload in
              Some (Ok (inbound, outbound, prewritten_up + prewritten_early_up))
          | Some (Err e) => Some (Err e)
          | Some Panic => Some Panic
          | None => None
          end
      end
  end.
End Setup.

(** ** Nothing is lost on the way *)

Lemma read_within_sent {S} `{Duplex S} polls (s : S) n s' r :
  read_within polls s n = (s', r) -> sent s' = sent s.
Proof.
  revert s. induction polls as [|polls IH]; intros s; cbn [read_within]; [by intros [= <- _]|].
  destruct (poll_read s n) as [s1 [r1|]] eqn:E; apply poll_read_sent in E.
  - by intros [= <- _].
  - intros Hr. apply IH in Hr. congruence.
Qed.

Lemma write_all_incoming {S} `{Duplex S} fuel (s : S) b s' r :
  write_all fuel s b = Some (s', r) -> incoming s' = incoming s.
Proof.
  revert s b. induction fuel as [|fuel IH]; intros s [|x b]; cbn [write_all]; try done.
  1,2: by intros [= <- _].
  destruct (poll_write s (x :: b)) as [s1 [[[|k]|e|]|]] eqn:E; apply poll_write_incoming in E.
  all: intros Hw; first [by simplify_eq | apply IH in Hw; congruence].
Qed.

Section Lossless.
Context {I O : Type} `{Duplex I} `{Duplex O} `{!PooledView O, !PooledLaws O}.
Context {N L : Type} `{HN : Ipv4NetLaws N} `{HL : LruLaws L unit}.
Context (tcp_connect : bytes * Z -> res ProxyError O).
Context (connect : Address -> option bytes -> res ProxyError (OutboundConnectResult O)).

(** What outbound handlers promise: a new connection has been sent [base], and the early
    payload behind it when the handler says so.  Pooled sockets come from the handler
    that sends the payload as it is and does not write it early. *)
Context (base : bytes).
Hypothesis connect_sent : forall dest early c, connect dest early = Ok c ->
  sent (co_stream c) = base ++ (if wrote_early_payload c then default [] early else []).
Hypothesis connect_pooled : forall dest early c p, connect dest early = Ok c ->
  pool_view (co_stream c) = Some p -> wrote_early_payload c = false /\ base = [].
Hypothesis tcp_connect_sent : forall addr o, tcp_connect addr = Ok o -> sent o = [].

Lemma sniff_stage_streams polls cfg (dns : option (option (FakeIpPool N L))) early dest (s : I) dest' s' x :
  sniff_stage polls cfg dns early dest s = Ok (dest', s', x) ->
  incoming s' = incoming s /\ sent s' = sent s.
Proof.
  unfold sniff_stage. destruct cfg as [cfg|]; [|by intros [= _ <- _]].
  destruct (enabled cfg); [|by intros [= _ <- _]].
  pose proof (sniff_peek_incoming polls cfg early s) as Hin.
  assert (Hsent : forall y z, sniff_stream polls s cfg = Ok (y, z) -> sent y = sent s).
  { intros y z. unfold sniff_stream. destruct (_ || _); [by intros [= <- _]|].
    destruct (read_within polls s MAX_SNIFF) as [s1 r] eqn:Hr. apply read_within_sent in Hr.
    destruct r as [[c|e|]|]; mred; [|done..|]; case_bool_decide; try done; try (by intros [= <- _]).
    destruct (analyze_peek_ok c cfg) as [a ->]. mred. by intros [= <- _]. }
  set (peek := match early with Some _ => _ | None => _ end) in *.
  assert (Hpeek : forall y z, peek = Ok (y, z) -> sent y = sent s).
  { subst peek. destruct early as [p|]; [|done]. destruct (_ && _); [|done].
    destruct (analyze_peek p cfg); mred; [|done..]. by intros y z [= <- _]. }
  clearbody peek. destruct peek as [[y z]|e|]; mred; try done. intros [= _ <- _]. split; [by destruct y|].
  by eapply Hpeek.
Qed.

(** The guard moves bytes from the inbound to the outbound stream, or to a fresh one on
    which as much has been sent. *)
Lemma guard_lossless {J} `{Duplex J} connect_outbound guard_polls fuel fast (i : J)
    (o : O + PrependedStream O) i' o' n :
  (forall p x, o = inl p -> pool_view p = Some x -> sent p = [] /\
     forall f, connect_outbound = Ok f -> sent f = []) ->
  guard_pooled_first_write tcp_connect connect_outbound guard_polls fuel fast i o = Some (Ok (i', o', n)) ->
  sent i' = sent i /\ sent o' ++ incoming i' = sent o ++ incoming i /\
  zlen (sent o') = zlen (sent o) + n.
Proof.
  intros Hfresh. unfold guard_pooled_first_write.
  destruct (match o with inl o => if fast then pool_view o else None | inr _ => None end)
    as [[socket peer]|] eqn:Hp.
  2: { intros [= <- <- <-]. split_and!; [done..|lia]. }
  destruct o as [o|o]; [|done]. destruct fast; [|done].
  destruct (pool_view_same _ _ _ Hp) as [Hpi Hps]. destruct (Hfresh o _ eq_refl Hp) as [Hso Hco].
  destruct (read_within guard_polls i POOLED_FIRST_WRITE_GUARD_BUF_SIZE) as [i1 r] eqn:Hr.
  pose proof (read_within_sent _ _ _ _ _ Hr) as Hs. apply read_within_incoming in Hr.
  destruct r as [[[|x c]|e|]|]; try done.
  1,3: intros [= <- <- <-]; cbn in *; rewrite Hps, <- ?Hr, Hs; split_and!; [done..|lia].
  destruct (write_all fuel socket (x :: c)) as [[s1 [[]|e|]]|] eqn:Hw; try done.
  - intros [= <- <- <-]. cbn [incoming sent sum_readspec sum_writespec]. apply write_all_sent in Hw.
    rewrite Hw, Hps, <- app_assoc, Hr. split_and!; [done..|]. by rewrite zlen_app.
  - destruct (match peer with Some addr => tcp_connect addr | None => connect_outbound end) as [f|e'|] eqn:Hf;
      try done.
    assert (Hfb : sent f = []) by (destruct peer; eauto).
    destruct (write_all fuel f (x :: c)) as [[f1 [[]|e'|]]|] eqn:Hw2; try done.
    intros [= <- <- <-]. cbn [incoming sent sum_readspec sum_writespec]. apply write_all_sent in Hw2.
    rewrite Hw2, Hso, Hfb, Hr. by split_and!.
Qed.

(** The stages hand over every byte once: what the relay starts from is what the client
    sends, less what is already with the outbound. *)
Lemma dispatch_setup_lossless sniff_polls guard_polls fuel fast user cfg dns early dest (i : I) i' o' n :
  dispatch_setup (N := N) (L := L) tcp_connect connect sniff_polls guard_polls fuel fast user cfg dns early dest i =
    Some (Ok (i', o', n)) ->
  sent i' = sent i /\ sent o' ++ incoming i' = base ++ default [] early ++ incoming i /\
  zlen (sent o') = zlen base + n.
Proof.
  unfold dispatch_setup, shape_stream_writes_for_user. destruct (sniff_stage _ _ _ _ _ _) as [[[d s] x]|e|] eqn:Hsn; try done.
  apply sniff_stage_streams in Hsn as [Hsi Hss].
  destruct (connect d early) as [c|e|] eqn:Hc; try done.
  destruct (guard_pooled_first_write _ _ _ _ _ _ _) as [[[[i1 o1] n1]|e|]|] eqn:Hg; try done.
  intros [= <- <- <-]. apply guard_lossless in Hg as (Hi & Hio & Hn).
  - pose proof (connect_sent _ _ _ Hc) as Hcs.
    assert (Ho : sent (prepend_response c) = sent (co_stream c)) by (unfold prepend_response; repeat case_match; done).
    assert (Hie : sent (prepend_early early c s) = sent i /\
      incoming (prepend_early early c s) = (if wrote_early_payload c then [] else default [] early) ++ incoming i).
    { rewrite <- Hsi, <- Hss. unfold prepend_early. destruct (wrote_early_payload c); [done|].
      by destruct early as [[|y p]|]. }
    destruct Hie as [Hie1 Hie2]. rewrite Hi, Hio, Hn, Ho, Hcs, Hie1, Hie2, !zlen_app, <- !app_assoc.
    destruct (wrote_early_payload c); (split_and!; [done..|]); unfold zlen; cbn [length]; lia.
  - unfold prepend_response. intros p q Hp Hv.
    assert (p = co_stream c) as -> by (destruct (returned_early_response c) as [[]|]; by simplify_eq).
    destruct (connect_pooled _ _ _ _ Hc Hv) as [Hw Hb]. rewrite (connect_sent _ _ _ Hc), Hw, Hb. split; [done|].
    intros f Hf. destruct (connect d None) as [c2|e|] eqn:Hc2; try done. injection Hf as <-.
    rewrite (connect_sent _ _ _ Hc2), Hb. by destruct (wrote_early_payload c2).
Qed.
End Lossless.

(** * From the client to the upstream *)

Section EndToEnd.
Context {I O : Type} `{Duplex I} `{Duplex O} `{!PooledView O, !PooledLaws O}.
Context {N L : Type} `{HN : Ipv4NetLaws N} `{HL : LruLaws L unit}.
Context `{HA : AllocLaws}.

(** C1. End to end, through sniffing, dialling, the guarded first write and relay v2:
    when the relay returns success the upstream has received, behind what the outbound
    protocol sent first, the early payload and then all of the client's bytes, each once
    and in order, also when a stale pooled socket was replaced; the client has received
    what the upstream stream delivered; and the totals that are booked (the relay's plus
    what was written before it) are the number of payload bytes. *)
Theorem dispatch_end_to_end tcp_connect
    (connect : Address -> option bytes -> res ProxyError (OutboundConnectResult O)) (base : bytes)
    sniff_polls guard_polls fuel fast user cfg (dns : option (option (FakeIpPool N L))) early dest
    (i : I) i' o' n opts policy s s' st :
  (forall dest early c, connect dest early = Ok c ->
     sent (co_stream c) = base ++ (if wrote_early_payload c then default [] early else [])) ->
  (forall dest early c p, connect dest early = Ok c -> pool_view (co_stream c) = Some p ->
     wrote_early_payload c = false /\ base = []) ->
  (forall addr o, tcp_connect addr = Ok o -> sent o = []) ->
  dispatch_setup tcp_connect connect sniff_polls guard_polls fuel fast user cfg dns early dest i =
    Some (Ok (i', o', n)) ->
  relaying policy (relay_new opts i' o' (Some [])) s -> relay_round policy s = (s', Return (Ok st)) ->
  sent (stream_b s') = base ++ default [] early ++ incoming i /\
  sent (stream_a s') = sent i ++ incoming o' /\
  exists up, byte_totals st = (as_u64 up, as_u64 (zlen (incoming o'))) /\
    up + n = zlen (default [] early ++ incoming i).
Proof.
  intros Hc Hp Ht Hset Hs Hr.
  destruct (dispatch_setup_lossless _ _ base Hc Hp Ht _ _ _ _ _ _ _ _ _ _ _ _ _ Hset) as (Hsi & Hso & Hn).
  destruct (relay_round_done _ _ _ _ _ _ _ _ (or_intror eq_refl) Hs Hr) as [_ Hd].
  destruct (Hd st eq_refl) as (Hb & Ha & Htot & _).
  rewrite Hso in Hb. rewrite Hsi in Ha. split_and!; [done..|].
  exists (zlen (incoming i')). split; [done|].
  apply (f_equal zlen) in Hso. rewrite !zlen_app in *. lia.
Qed.
End EndToEnd.

(** A socket that the peer closed while it was in the pool. *)
Inductive Stale : Type := stale.

#[local] Instance Stale_read : AsyncRead Stale := fun s _ => (s, Ready (Ok [])).
#[local] Instance Stale_write : AsyncWrite Stale := {
  poll_write s _ := (s, Ready (Err AsyncIo.BrokenPipe));
  poll_flush s := (s, Ready (Err AsyncIo.BrokenPipe));
  poll_shutdown s := (s, Ready (Err AsyncIo.BrokenPipe))
}.
#[local] Program Instance Stale_readspec : ReadSpec Stale := { incoming _ := [] }.
Next Obligation. intros s n s' c [= <- <-]. cbn. split_and!; [lia|done|auto]. Qed.
Next Obligation. by intros s n s' [=]. Qed.
Next Obligation. by intros s n s' [=]. Qed.
#[local] Program Instance Stale_writespec : WriteSpec Stale := { sent _ := [] }.
Next Obligation. by intros s b s' n [=]. Qed.
Next Obligation. done. Qed.
Next Obligation. by intros s b s' [=]. Qed.
Next Obligation. done. Qed.
Next Obligation. by intros s s' [=]. Qed.
Next Obligation. done. Qed.
Next Obligation. by intros s s' [=]. Qed.
#[local] Instance Stale_duplex : Duplex Stale.
Proof. by split. Qed.

Abbreviation Socket := (Script + Stale)%type.
#[local] Instance Socket_pool : PooledView Socket :=
  fun o => match o with inr s => Some (inr s, Some ([127; 0; 0; 1], 80)) | inl _ => None end.
#[local] Instance Socket_pool_laws : PooledLaws Socket.
Proof. by intros [|[]] i peer; intros [= <- _]. Qed.

Definition dial_fresh (_ : bytes * Z) : res ProxyError Socket := Ok (inl (mkScript [None; Some [9]] [] [])).
Definition dial_pooled (_ : Address) (_ : option bytes) : res ProxyError (OutboundConnectResult Socket) :=
  Ok (connect_stream (inr stale)).
Definition chatty_client : Script := mkScript [None; Some [2; 3]; Some [4]] [] [].
Definition staged := dispatch_setup (N := Range) (L := ListLru unit) dial_fresh dial_pooled
  3 3 3 true None None None (Some [1]) (Ipv4 [1; 2; 3; 4] 80) chatty_client.

Lemma dispatch_end_to_end_witness :
  match staged with
  | Some (Ok (i', o', n)) =>
      let s := rounds 3 Adaptive (relay_new small_relay i' o' (Some [])) in
      let s' := (relay_round Adaptive s).1 in
      n = 1 /\ sent (stream_b s') = [1; 2; 3; 4] /\ sent (stream_a s') = [9]
  | _ => False
  end.
Proof.
  destruct staged as [[[[i' o'] n]|e|]|] eqn:E; try (vm_compute in E; discriminate).
  pose proof (dispatch_end_to_end dial_fresh dial_pooled [] 3 3 3 true None None None (Some [1]) (Ipv4 [1; 2; 3; 4] 80)
    chatty_client i' o' n small_relay Adaptive (rounds 3 Adaptive (relay_new small_relay i' o' (Some [])))) as H.
  specialize (H (relay_round Adaptive (rounds 3 Adaptive (relay_new small_relay i' o' (Some [])))).1).
  vm_compute in E. injection E as <- <- <-. cbv zeta. split; [reflexivity|].
  refine (let '(conj Hb (conj Ha _)) := H _ _ _ _ _ _ _ in conj Hb Ha).
  - by intros ??? [= <-].
  - by intros ???? [= <-].
  - by intros ?? [= <-].
  - reflexivity.
  - apply relaying_rounds. vm_compute. reflexivity.
  - vm_compute. reflexivity.
Defined.
