(* ===== verification/ConnMgr.v ===== *)
(** * The connection manager

    [blackwire-connmgr]: the table of the active connections, the guard that each
    connection holds, and the commands that cancel connections.  The metadata of a
    connection is shared between the table, its guard and a command that is running, so
    it lives in a heap and the others hold its index.  The operations are given as
    functions, and as the atomic actions that the threads of the proxy interleave. *)

From stdpp Require Import sorting.
From S2P Require Import Prelude.

(** ** Metadata *)

Inductive Protocol : Type :=
| PTcp | PUdp | PHttp | PTls | PSocks | PVless | PVmess | PTrojan | PShadowsocks | PHysteria2 | PTuic
| PUnknown.

#[global] Instance Protocol_eq : EqDecision Protocol.
Proof. solve_decision. Defined.

Definition Protocol_as_str (p : Protocol) : string :=
  match p with
  | PTcp => "tcp" | PUdp => "udp" | PHttp => "http" | PTls => "tls" | PSocks => "socks"
  | PVless => "vless" | PVmess => "vmess" | PTrojan => "trojan" | PShadowsocks => "shadowsocks"
  | PHysteria2 => "hysteria2" | PTuic => "tuic" | PUnknown => "unknown"
  end.

(** [From<&str> for Protocol]. *)
Definition Protocol_from (value : string) : Protocol :=
  if String.eqb value "http" then PHttp
  else if String.eqb value "tls" then PTls
  else if String.eqb value "socks" then PSocks
  else if String.eqb value "vless" then PVless
  else if String.eqb value "vmess" then PVmess
  else if String.eqb value "trojan" then PTrojan
  else if String.eqb value "shadowsocks" || String.eqb value "ss2022" then PShadowsocks
  else if String.eqb value "hysteria2" then PHysteria2
  else if String.eqb value "udp" then PUdp
  else if String.eqb value "tcp" then PTcp
  else PUnknown.

Inductive Transport : Type :=
| TTcp | TUdp | TTls | TWebSocket | TGrpc | TQuic | TSplitHttp | TUnknown.

Inductive RelayPath : Type := RCopy | RCopyV2 | RSplice | RVisionCopy | RAdaptive | RUnknown.

Inductive CloseReason : Type :=
| Active | Completed | ErrorReason | ClosedById | ClosedByUser | ClosedByInbound | ClosedByOutbound
| Dropped.

#[global] Instance CloseReason_eq : EqDecision CloseReason.
Proof. solve_decision. Defined.

Definition to_u8 (r : CloseReason) : Z :=
  match r with
  | Active => 0 | Completed => 1 | ErrorReason => 2 | ClosedById => 3 | ClosedByUser => 4
  | ClosedByInbound => 5 | ClosedByOutbound => 6 | Dropped => 7
  end.

Definition from_u8 (v : Z) : CloseReason :=
  match v with
  | 1 => Completed | 2 => ErrorReason | 3 => ClosedById | 4 => ClosedByUser
  | 5 => ClosedByInbound | 6 => ClosedByOutbound | 7 => Dropped | _ => Active
  end.

(** [ConnectionMeta], less the instant at which it was opened; the token is the flag
    [cancelled]. *)
Record ConnectionMeta : Type := mkMeta {
  conn_id : Z;
  inbound : bytes;
  outbound : bytes;
  user : option bytes;
  protocol : Protocol;
  transport : Transport;
  relay_path : RelayPath;
  bytes_up : Z;
  bytes_down : Z;
  reason_code : Z;
  cancelled : bool
}.

Definition close_reason (m : ConnectionMeta) : CloseReason := from_u8 (reason_code m).

Definition set_close_reason (r : CloseReason) (m : ConnectionMeta) : ConnectionMeta :=
  mkMeta (conn_id m) (inbound m) (outbound m) (user m) (protocol m) (transport m) (relay_path m)
    (bytes_up m) (bytes_down m) (to_u8 r) (cancelled m).

Definition cancel (m : ConnectionMeta) : ConnectionMeta :=
  mkMeta (conn_id m) (inbound m) (outbound m) (user m) (protocol m) (transport m) (relay_path m)
    (bytes_up m) (bytes_down m) (reason_code m) true.

Definition set_bytes_up (n : Z) (m : ConnectionMeta) : ConnectionMeta :=
  mkMeta (conn_id m) (inbound m) (outbound m) (user m) (protocol m) (transport m) (relay_path m)
    n (bytes_down m) (reason_code m) (cancelled m).

Definition set_bytes_down (n : Z) (m : ConnectionMeta) : ConnectionMeta :=
  mkMeta (conn_id m) (inbound m) (outbound m) (user m) (protocol m) (transport m) (relay_path m)
    (bytes_up m) n (reason_code m) (cancelled m).

(** [ConnectionSnapshot::total_bytes]; the other fields of a snapshot are copies. *)
Definition total_bytes (m : ConnectionMeta) : Z := Z.min (bytes_up m + bytes_down m) (2 ^ 64 - 1).

(** ** Commands *)

Inductive CloseSelector : Type :=
| SelId (id : Z)
| SelUser (u : bytes)
| SelInbound (tag : bytes)
| SelOutbound (tag : bytes).

Definition reason (s : CloseSelector) : CloseReason :=
  match s with
  | SelId _ => ClosedById
  | SelUser _ => ClosedByUser
  | SelInbound _ => ClosedByInbound
  | SelOutbound _ => ClosedByOutbound
  end.

Definition is_match (s : CloseSelector) (m : ConnectionMeta) : bool :=
  match s with
  | SelId id => conn_id m =? id
  | SelUser u => bool_decide (user m = Some u)
  | SelInbound tag => bool_decide (inbound m = tag)
  | SelOutbound tag => bool_decide (outbound m = tag)
  end.

(** ** The manager *)

Record ConnectionManager : Type := mkManager {
  next_id : Z;
  active : gmap Z nat;
  metas : list ConnectionMeta
}.

Definition manager_default : ConnectionManager := mkManager 1 ∅ [].

Record conn_args : Type := mkArgs {
  a_inbound : bytes;
  a_outbound : bytes;
  a_user : option bytes;
  a_protocol : Protocol;
  a_transport : Transport;
  a_relay_path : RelayPath
}.

Definition new_meta (id : Z) (a : conn_args) : ConnectionMeta :=
  mkMeta id (a_inbound a) (a_outbound a) (a_user a) (a_protocol a) (a_transport a) (a_relay_path a)
    0 0 (to_u8 Active) false.

(** The atomic actions. *)
Definition new_connection (a : conn_args) (s : ConnectionManager) : ConnectionManager :=
  mkManager (as_u64 (next_id s + 1)) (active s) (metas s ++ [new_meta (next_id s) a]).

Definition on_meta (m : nat) (f : ConnectionMeta -> ConnectionMeta) (s : ConnectionManager) :
    ConnectionManager :=
  mkManager (next_id s) (active s) (alter f m (metas s)).

Definition table_insert (id : Z) (m : nat) (s : ConnectionManager) : ConnectionManager :=
  mkManager (next_id s) (<[id := m]> (active s)) (metas s).

Definition table_remove (id : Z) (s : ConnectionManager) : ConnectionManager :=
  mkManager (next_id s) (delete id (active s)) (metas s).

(** [track]: the guard of the new connection is the index of its metadata. *)
Definition track (a : conn_args) (s : ConnectionManager) : ConnectionManager * nat :=
  let m := length (metas s) in
  (table_insert (next_id s) m (new_connection a s), m).

Definition active_metas (s : ConnectionManager) : list ConnectionMeta :=
  omap (fun e => metas s !! e.2) (map_to_list (active s)).

Definition id_le (a b : ConnectionMeta) : Prop := conn_id a <= conn_id b.
#[global] Instance id_le_dec a b : Decision (id_le a b).
Proof. unfold id_le. apply _. Defined.

Definition manager_list (s : ConnectionManager) : list ConnectionMeta :=
  merge_sort id_le (active_metas s).

Definition len (s : ConnectionManager) : nat := size (active s).

(** One entry of the iteration of [close]. *)
Definition close_entry (sel : CloseSelector) (acc : ConnectionManager * Z) (m : nat) :
    ConnectionManager * Z :=
  let '(s, matched) := acc in
  match metas s !! m with
  | Some meta =>
      if is_match sel meta
      then (on_meta m cancel (on_meta m (set_close_reason (reason sel)) s), matched + 1)
      else acc
  | None => acc
  end.

Definition close (sel : CloseSelector) (s : ConnectionManager) : ConnectionManager * Z :=
  foldl (close_entry sel) (s, 0) (map_to_list (active s)).*2.

(** [ConnectionGuard::add_bytes], [finish] and [drop]. *)
Definition add_bytes (m : nat) (up down : Z) (s : ConnectionManager) : ConnectionManager :=
  on_meta m (fun x => set_bytes_down (as_u64 (bytes_down x + down)) x)
    (on_meta m (fun x => set_bytes_up (as_u64 (bytes_up x + up)) x) s).

(** The reason that [finish] keeps. *)
Definition final_reason (x : ConnectionMeta) (fallback_reason : CloseReason) : CloseReason :=
  match close_reason x with
  | Active => fallback_reason
  | existing => existing
  end.

Definition finish (m : nat) (up down : Z) (fallback_reason : CloseReason) (s : ConnectionManager) :
    ConnectionManager :=
  match metas s !! m with
  | Some x =>
      table_remove (conn_id x)
        (on_meta m (set_close_reason (final_reason x fallback_reason))
          (on_meta m (set_bytes_down down) (on_meta m (set_bytes_up up) s)))
  | None => s
  end.

Definition drop_guard (m : nat) (s : ConnectionManager) : ConnectionManager :=
  match metas s !! m with
  | Some x => finish m (bytes_up x) (bytes_down x) Dropped s
  | None => s
  end.

(** ** Threads *)

(** How far the owner of a connection is: between its allocation and its entry into
    the table, alive, in the steps of [finish], or gone. *)
Inductive phase : Type :=
| Born
| Live
| Loaded (up down : Z) (r : CloseReason)
| StoredUp (down : Z) (r : CloseReason)
| StoredDown (r : CloseReason)
| StoredReason
| Gone.

Definition in_table (p : phase) : bool := match p with Born | Gone => false | _ => true end.
Definition reason_stored (p : phase) : bool := match p with StoredReason | Gone => true | _ => false end.

(** A running [close]: [c_started] were in the table when it began. *)
Inductive closer_act : Type := Iterating | Marking (m : nat) | Cancelling (m : nat) | Returned.

Record closer : Type := mkCloser {
  c_sel : CloseSelector;
  c_started : gset Z;
  c_visited : gset Z;
  c_matched : Z;
  c_act : closer_act
}.

Definition with_act (c : closer) (visited : gset Z) (matched : Z) (act : closer_act) : closer :=
  mkCloser (c_sel c) (c_started c) visited matched act.

Record Sys : Type := mkSys { mgr : ConnectionManager; owners : list phase; closers : list closer }.

Definition sys_default : Sys := mkSys manager_default [] [].

(** The steps of an owner that change only its metadata. *)
Inductive owner_step : phase -> (ConnectionMeta -> ConnectionMeta) -> phase -> ConnectionMeta -> Prop :=
| OAddUp up x : owner_step Live (fun x => set_bytes_up (as_u64 (bytes_up x + up)) x) Live x
| OAddDown down x : owner_step Live (fun x => set_bytes_down (as_u64 (bytes_down x + down)) x) Live x
| OLoad up down fb x : owner_step Live id (Loaded up down (final_reason x fb)) x
| OStoreUp up down r x : owner_step (Loaded up down r) (set_bytes_up up) (StoredUp down r) x
| OStoreDown down r x : owner_step (StoredUp down r) (set_bytes_down down) (StoredDown r) x
| OStoreReason r x : owner_step (StoredDown r) (set_close_reason r) StoredReason x.

(** The iteration of a concurrent map: it yields entries that are there when it comes to
    them, none twice, and ends when it has come to every entry that was there from the
    beginning and still is. *)
Inductive sys_step : Sys -> Sys -> Prop :=
| SNew s a :
    sys_step s (mkSys (new_connection a (mgr s)) (owners s ++ [Born]) (closers s))
| SInsert s m x : owners s !! m = Some Born -> metas (mgr s) !! m = Some x ->
    sys_step s (mkSys (table_insert (conn_id x) m (mgr s)) (<[m := Live]> (owners s)) (closers s))
| SOwner s m x p f p' : owners s !! m = Some p -> metas (mgr s) !! m = Some x -> owner_step p f p' x ->
    sys_step s (mkSys (on_meta m f (mgr s)) (<[m := p']> (owners s)) (closers s))
| SRemove s m x : owners s !! m = Some StoredReason -> metas (mgr s) !! m = Some x ->
    sys_step s (mkSys (table_remove (conn_id x) (mgr s)) (<[m := Gone]> (owners s)) (closers s))
| SClose s sel :
    sys_step s (mkSys (mgr s) (owners s) (closers s ++ [mkCloser sel (dom (active (mgr s))) ∅ 0 Iterating]))
| SVisit s k c id m x : closers s !! k = Some c -> c_act c = Iterating -> id ∉ c_visited c ->
    active (mgr s) !! id = Some m -> metas (mgr s) !! m = Some x ->
    sys_step s (mkSys (mgr s) (owners s)
      (<[k := with_act c ({[id]} ∪ c_visited c) (c_matched c)
               (if is_match (c_sel c) x then Marking m else Iterating)]> (closers s)))
| SMark s k c m : closers s !! k = Some c -> c_act c = Marking m ->
    sys_step s (mkSys (on_meta m (set_close_reason (reason (c_sel c))) (mgr s)) (owners s)
      (<[k := with_act c (c_visited c) (c_matched c) (Cancelling m)]> (closers s)))
| SCancel s k c m : closers s !! k = Some c -> c_act c = Cancelling m ->
    sys_step s (mkSys (on_meta m cancel (mgr s)) (owners s)
      (<[k := with_act c (c_visited c) (c_matched c + 1) Iterating]> (closers s)))
| SReturn s k c : closers s !! k = Some c -> c_act c = Iterating ->
    c_started c ∩ dom (active (mgr s)) ⊆ c_visited c ->
    sys_step s (mkSys (mgr s) (owners s) (<[k := with_act c (c_visited c) (c_matched c) Returned]> (closers s))).

Definition reachable : Sys -> Prop := rtc sys_step sys_default.

(** ** The invariant *)

Definition conn_index (m : nat) : Z := Z.of_nat m + 1.

Record closer_ok (s : Sys) (c : closer) : Prop := {
  closer_known : forall i, i ∈ c_started c ∪ c_visited c ->
    exists m p, i = conn_index m /\ owners s !! m = Some p /\ p <> Born;
  closer_done : forall m x, conn_index m ∈ c_visited c -> metas (mgr s) !! m = Some x ->
    is_match (c_sel c) x = true -> cancelled x = true \/ c_act c = Marking m \/ c_act c = Cancelling m;
  closer_at : forall m, c_act c = Marking m \/ c_act c = Cancelling m ->
    exists x, metas (mgr s) !! m = Some x /\ is_match (c_sel c) x = true;
  closer_returned : c_act c = Returned -> c_started c ∩ dom (active (mgr s)) ⊆ c_visited c
}.

(** A command that selects the connection. *)
Definition selected (s : Sys) (x : ConnectionMeta) (r : CloseReason) : Prop :=
  exists c, c ∈ closers s /\ is_match (c_sel c) x = true /\ reason (c_sel c) = r.

Record sys_ok (s : Sys) : Prop := {
  ok_owners : length (owners s) = length (metas (mgr s));
  ok_next : next_id (mgr s) = conn_index (length (metas (mgr s)));
  ok_ids : forall m x, metas (mgr s) !! m = Some x -> conn_id x = conn_index m;
  ok_table : forall i m, active (mgr s) !! i = Some m <->
    i = conn_index m /\ exists p, owners s !! m = Some p /\ in_table p = true;
  ok_meta : forall m x p, metas (mgr s) !! m = Some x -> owners s !! m = Some p ->
    (cancelled x = true -> exists r, selected s x r) /\
    (reason_stored p = false -> close_reason x = Active \/ selected s x (close_reason x));
  ok_closers : forall c, c ∈ closers s -> closer_ok s c
}.

(** Identifiers do not wrap around. *)
Definition few (s : Sys) : Prop := zlen (metas (mgr s)) < 2 ^ 64 - 2.

(** What every update of metadata keeps. *)
Definition keeps (x x' : ConnectionMeta) : Prop :=
  conn_id x' = conn_id x /\ (forall sel, is_match sel x' = is_match sel x) /\
  (cancelled x = true -> cancelled x' = true).

Lemma keeps_refl x : keeps x x.
Proof. by split_and!. Qed.
Lemma set_close_reason_keeps r x : keeps x (set_close_reason r x).
Proof. split_and!; [done|by intros []|done]. Qed.
Lemma cancel_keeps x : keeps x (cancel x).
Proof. split_and!; [done|by intros []|done]. Qed.
Lemma owner_step_keeps p f p' x y : owner_step p f p' x -> keeps y (f y).
Proof. destruct 1; split_and!; try done; by intros []. Qed.

Lemma reason_roundtrip r : from_u8 (to_u8 r) = r.
Proof. by destruct r. Qed.

Lemma on_meta_lookup m f s i x' :
  metas (on_meta m f s) !! i = Some x' <->
  exists x, metas s !! i = Some x /\ x' = (if bool_decide (i = m) then f x else x).
Proof.
  cbn. destruct (decide (i = m)) as [->|Hi].
  - rewrite list_lookup_alter_eq, bool_decide_eq_true_2 by done.
    destruct (metas s !! m); cbn; naive_solver.
  - rewrite list_lookup_alter_ne, bool_decide_eq_false_2 by done. naive_solver.
Qed.

Record evolves (s s' : Sys) : Prop := {
  ev_owner : forall m p, owners s !! m = Some p -> p <> Born -> exists p', owners s' !! m = Some p' /\ p' <> Born;
  ev_meta : forall m x, metas (mgr s) !! m = Some x -> exists x', metas (mgr s') !! m = Some x' /\ keeps x x';
  ev_table : forall m p, owners s !! m = Some p -> p <> Born ->
    conn_index m ∈ dom (active (mgr s')) -> conn_index m ∈ dom (active (mgr s))
}.

Lemma on_meta_ev m f s :
  (forall x, metas s !! m = Some x -> keeps x (f x)) ->
  forall i x, metas s !! i = Some x -> exists x', metas (on_meta m f s) !! i = Some x' /\ keeps x x'.
Proof.
  intros Hf i x Hx. exists (if bool_decide (i = m) then f x else x). split.
  - apply on_meta_lookup. eauto.
  - case_bool_decide; [subst; auto|apply keeps_refl].
Qed.

Lemma insert_owner_ev (l : list phase) m p0 p' :
  l !! m = Some p0 -> p' <> Born ->
  forall i p, l !! i = Some p -> p <> Born -> exists q, <[m := p']> l !! i = Some q /\ q <> Born.
Proof.
  intros Hm Hp i p Hi Hb. destruct (decide (i = m)) as [->|].
  - exists p'. by rewrite list_lookup_insert_eq by (by eapply lookup_lt_Some).
  - exists p. by rewrite list_lookup_insert_ne.
Qed.

Lemma owner_step_not_born p f p' x : owner_step p f p' x -> p <> Born /\ p' <> Born.
Proof. by destruct 1. Qed.

Lemma step_evolves s s' : sys_ok s -> sys_step s s' -> evolves s s'.
Proof.
  intros Hok. destruct 1; split; cbn; eauto using keeps_refl, insert_owner_ev.
  - intros i p Hi Hp. exists p. by rewrite lookup_app_l by (by eapply lookup_lt_Some).
  - intros i x Hi. exists x. rewrite lookup_app_l by (by eapply lookup_lt_Some). eauto using keeps_refl.
  - intros i p Hi Hp. rewrite dom_insert, elem_of_union, elem_of_singleton. intros [Hc|]; [|done].
    rewrite (ok_ids _ Hok _ _ H0) in Hc. unfold conn_index in Hc. assert (i = m) as -> by lia. by simplify_eq.
  - eapply insert_owner_ev; [done|]. by eapply owner_step_not_born.
  - apply (on_meta_ev m f). intros y _. by eapply owner_step_keeps.
  - intros i p Hi Hp. rewrite dom_delete. set_solver.
  - apply on_meta_ev. intros y _. apply set_close_reason_keeps.
  - apply on_meta_ev. intros y _. apply cancel_keeps.
Qed.

Lemma closer_ok_frame s s' c :
  sys_ok s -> evolves s s' -> closer_ok s c -> closer_ok s' c.
Proof.
  intros Hok Hev [Hk Hd Ha Hr]. split.
  - intros i Hi. destruct (Hk i Hi) as (m & p & -> & Hp & Hb).
    destruct (ev_owner _ _ Hev _ _ Hp Hb) as (p' & ? & ?). eauto.
  - intros m x' Hv Hx' Hm. destruct (Hk (conn_index m)) as (m' & p & He & Hp & Hb); [set_solver|].
    assert (m' = m) as -> by (unfold conn_index in He; lia).
    assert (Hlt : (m < length (metas (mgr s)))%nat) by (rewrite <- (ok_owners _ Hok); by eapply lookup_lt_Some).
    destruct (lookup_lt_is_Some_2 _ _ Hlt) as [x Hx].
    destruct (ev_meta _ _ Hev _ _ Hx) as (y & Hy & _ & Hsel & Hc). simplify_eq.
    rewrite Hsel in Hm. destruct (Hd m x Hv Hx Hm) as [?|?]; auto.
  - intros m Hm. destruct (Ha m Hm) as (x & Hx & Hmt). destruct (ev_meta _ _ Hev _ _ Hx) as (y & Hy & _ & Hsel & _).
    exists y. by rewrite Hsel.
  - intros Ht. specialize (Hr Ht). intros i Hi. apply elem_of_intersection in Hi as [Hi1 Hi2].
    destruct (Hk i) as (m & p & -> & Hp & Hb); [set_solver|]. apply Hr, elem_of_intersection. split; [done|].
    by eapply ev_table.
Qed.

Lemma owner_in_table p f p' x : owner_step p f p' x -> in_table p = true /\ in_table p' = true.
Proof. by destruct 1. Qed.

Lemma conn_index_inj m m' : conn_index m = conn_index m' -> m = m'.
Proof. unfold conn_index. lia. Qed.

Lemma insert_owner_lookup (l : list phase) m p0 p' i q :
  l !! m = Some p0 ->
  <[m := p']> l !! i = Some q <-> (i = m /\ q = p') \/ (i <> m /\ l !! i = Some q).
Proof.
  intros Hm. apply lookup_lt_Some in Hm. destruct (decide (i = m)) as [->|Hi].
  - rewrite list_lookup_insert_eq by done. naive_solver.
  - rewrite list_lookup_insert_ne by done. naive_solver.
Qed.

(** Numbering and table. *)
Definition numbered (s : Sys) : Prop :=
  length (owners s) = length (metas (mgr s)) /\
  next_id (mgr s) = conn_index (length (metas (mgr s))) /\
  (forall m x, metas (mgr s) !! m = Some x -> conn_id x = conn_index m).

Definition tabled (s : Sys) : Prop :=
  forall i m, active (mgr s) !! i = Some m <->
    i = conn_index m /\ exists p, owners s !! m = Some p /\ in_table p = true.

Lemma on_meta_numbered s m f os cs :
  sys_ok s -> (forall x, keeps x (f x)) -> length os = length (owners s) ->
  numbered (mkSys (on_meta m f (mgr s)) os cs).
Proof.
  intros Hok Hf Hl. split_and!; cbn; rewrite ?length_alter.
  - by rewrite Hl, (ok_owners _ Hok).
  - apply (ok_next _ Hok).
  - intros i x' Hx'. apply on_meta_lookup in Hx' as (x & Hx & ->). rewrite <- (ok_ids _ Hok _ _ Hx).
    case_bool_decide; [apply Hf|done].
Qed.

Lemma step_numbered s s' : sys_ok s -> few s' -> sys_step s s' -> numbered s'.
Proof.
  intros Hok Hfew. destruct 1; cbn in *.
  all: try (apply on_meta_numbered; [done|..|by rewrite ?length_insert];
            eauto using set_close_reason_keeps, cancel_keeps, owner_step_keeps).
  all: try (split_and!; cbn; rewrite ?length_insert; apply Hok).
  unfold few in Hfew. cbn in Hfew. unfold zlen in Hfew. rewrite length_app in Hfew. cbn in Hfew.
  split_and!; cbn; rewrite ?length_app; cbn.
  - by rewrite (ok_owners _ Hok).
  - rewrite (ok_next _ Hok). unfold conn_index, as_u64. rewrite Z.mod_small; lia.
  - intros m x [Hx|[Hlt Hx]]%lookup_app_Some; [by apply (ok_ids _ Hok)|].
    apply list_lookup_singleton_Some in Hx as [Hm <-]. cbn. rewrite (ok_next _ Hok).
    unfold conn_index. lia.
Qed.

Lemma step_tabled s s' : sys_ok s -> sys_step s s' -> tabled s'.
Proof.
  intros Hok. assert (Ht := ok_table _ Hok). destruct 1; intros i m'; cbn; try apply Ht.
  - rewrite Ht. split; intros (-> & p & Hp & Hin); split; [done| |done|].
    + exists p. by rewrite lookup_app_l by (by eapply lookup_lt_Some).
    + apply lookup_app_Some in Hp as [Hp|[_ Hp]]; [eauto|].
      apply list_lookup_singleton_Some in Hp as [_ <-]. done.
  - rewrite (ok_ids _ Hok _ _ H0), lookup_insert_Some, Ht. setoid_rewrite (insert_owner_lookup _ _ _ _ _ _ H).
    split.
    + intros [[<- <-]|[Hi (-> & p & Hp & Hin)]]; split; eauto. exists p.
      split; [|done]. right. split; [|done]. intros ->. done.
    + intros (-> & p & [[-> ->]|[Hne Hp]] & Hin); [by left|]. right. split; [|eauto].
      intros He%conn_index_inj. done.
  - rewrite Ht. setoid_rewrite (insert_owner_lookup _ _ _ _ _ _ H). apply owner_in_table in H1 as [Hp Hp'].
    split; intros (-> & q & Hq & Hin); split; try done.
    + destruct (decide (m' = m)) as [->|]; eauto 10.
    + destruct Hq as [[-> ->]|[? ?]]; eauto.
  - rewrite (ok_ids _ Hok _ _ H0), lookup_delete_Some, Ht. setoid_rewrite (insert_owner_lookup _ _ _ _ _ _ H).
    split.
    + intros (Hne & -> & p & Hp & Hin). split; [done|]. exists p. split; [|done]. right. split; [|done].
      intros ->. done.
    + intros (-> & p & [[-> ->]|[Hne Hp]] & Hin); [done|]. split; [|eauto]. intros He%conn_index_inj. done.
Qed.

(** Commands are not forgotten. *)
Definition more_commands (s s' : Sys) : Prop :=
  forall c, c ∈ closers s -> exists c', c' ∈ closers s' /\ c_sel c' = c_sel c.

Lemma replace_closer (l : list closer) k c v n a c0 :
  l !! k = Some c -> c0 ∈ l -> exists c', c' ∈ <[k := with_act c v n a]> l /\ c_sel c' = c_sel c0.
Proof.
  intros Hk [i Hi]%list_elem_of_lookup. destruct (decide (i = k)) as [->|Hne].
  - exists (with_act c v n a). simplify_eq. split; [|done]. apply list_elem_of_lookup. exists k.
    by rewrite list_lookup_insert_eq by (by eapply lookup_lt_Some).
  - exists c0. split; [|done]. apply list_elem_of_lookup. exists i. by rewrite list_lookup_insert_ne.
Qed.

Lemma step_commands s s' : sys_step s s' -> more_commands s s'.
Proof.
  destruct 1; intros c0 Hc0; cbn; eauto using replace_closer.
  exists c0. split; [|done]. apply elem_of_app. by left.
Qed.

Lemma selected_mono s s' x x' r :
  more_commands s s' -> keeps x x' -> selected s x r -> selected s' x' r.
Proof.
  intros Hc (_ & Hsel & _) (c & Hin & Hm & Hr). destruct (Hc c Hin) as (c' & Hin' & He).
  exists c'. rewrite He, Hsel. auto.
Qed.

(** What an update of the metadata of one connection may do. *)
Definition meta_ok (s : Sys) (x : ConnectionMeta) (p : phase) : Prop :=
  (cancelled x = true -> exists r, selected s x r) /\
  (reason_stored p = false -> close_reason x = Active \/ selected s x (close_reason x)).

Lemma meta_ok_mono s s' x p : more_commands s s' -> meta_ok s x p -> meta_ok s' x p.
Proof.
  intros Hc [H1 H2]. split.
  - intros Hx. destruct (H1 Hx) as [r Hr]. exists r. eauto using selected_mono, keeps_refl.
  - intros Hp. destruct (H2 Hp); eauto using selected_mono, keeps_refl.
Qed.

Lemma owner_meta_ok s p f p' x : owner_step p f p' x -> meta_ok s x p -> meta_ok s (f x) p'.
Proof.
  destruct 1; intros [H1 H2]; split; cbn in *; try done; intros Hc;
    destruct (H1 Hc) as (r' & c & ?); exists r', c; by destruct (c_sel c).
Qed.

Lemma close_meta_ok s x p c :
  meta_ok s x p -> c ∈ closers s -> is_match (c_sel c) x = true ->
  meta_ok s (set_close_reason (reason (c_sel c)) x) p /\ meta_ok s (cancel x) p.
Proof.
  intros [H1 H2] Hin Hm.
  assert (Hsel : forall y, keeps x y -> selected s y (reason (c_sel c))).
  { intros y (_ & Hy & _). exists c. by rewrite Hy. }
  split; split; cbn.
  - intros _. eauto using set_close_reason_keeps.
  - intros _. right. unfold close_reason. cbn. rewrite reason_roundtrip.
    apply Hsel, set_close_reason_keeps.
  - eauto using cancel_keeps.
  - intros Hp. destruct (H2 Hp) as [?|(c' & ? & Hc' & ?)]; [by left|]. right. exists c'.
    destruct (cancel_keeps x) as (_ & Hk & _). by rewrite Hk.
Qed.

Lemma step_meta s s' m x p :
  sys_ok s -> sys_step s s' -> metas (mgr s') !! m = Some x -> owners s' !! m = Some p -> meta_ok s' x p.
Proof.
  intros Hok Hst. assert (Hc := step_commands _ _ Hst). assert (Hm := ok_meta _ Hok).
  intros Hx Hp. apply (meta_ok_mono s); [done|]. destruct Hst; cbn in *; try (by eapply Hm).
  - apply lookup_app_Some in Hx as [Hx|[Hlt Hx]].
    + rewrite lookup_app_l in Hp by (rewrite (ok_owners _ Hok); by eapply lookup_lt_Some). by eapply Hm.
    + apply list_lookup_singleton_Some in Hx as [_ <-]. split; [done|]. intros _. by left.
  - apply (insert_owner_lookup _ _ _ _ _ _ H) in Hp as [[-> ->]|[_ Hp]]; [|by eapply Hm].
    destruct (Hm _ _ _ Hx H) as [H1 H2]. split; [done|]. intros _. by apply H2.
  - apply on_meta_lookup in Hx as (y & Hy & ->).
    apply (insert_owner_lookup _ _ _ _ _ _ H) in Hp as [[-> ->]|[Hne Hp]].
    + rewrite bool_decide_eq_true_2 by done. simplify_eq. eapply owner_meta_ok; [done|]. by eapply Hm.
    + rewrite bool_decide_eq_false_2 by done. by eapply Hm.
  - apply (insert_owner_lookup _ _ _ _ _ _ H) in Hp as [[-> ->]|[_ Hp]]; [|by eapply Hm].
    destruct (Hm _ _ _ Hx H) as [H1 _]. by split.
  - apply on_meta_lookup in Hx as (y & Hy & ->). case_bool_decide as He; [subst|by eapply Hm].
    assert (Hin : c ∈ closers s) by (by eapply list_elem_of_lookup_2).
    destruct (closer_at _ _ (ok_closers _ Hok _ Hin) _ (or_introl H0)) as (z & Hz & Hmt). simplify_eq.
    apply close_meta_ok; [|done..]. by eapply Hm.
  - apply on_meta_lookup in Hx as (y & Hy & ->). case_bool_decide as He; [subst|by eapply Hm].
    assert (Hin : c ∈ closers s) by (by eapply list_elem_of_lookup_2).
    destruct (closer_at _ _ (ok_closers _ Hok _ Hin) _ (or_intror H0)) as (z & Hz & Hmt). simplify_eq.
    by apply (close_meta_ok _ _ _ c); [eapply Hm|..].
Qed.

Lemma insert_closer_elem (l : list closer) k d c : c ∈ <[k := d]> l -> c = d \/ c ∈ l.
Proof.
  intros [i Hi]%list_elem_of_lookup. destruct (decide (i = k)) as [->|].
  - left. rewrite list_lookup_insert_Some in Hi. naive_solver.
  - right. rewrite list_lookup_insert_ne in Hi by done. by eapply list_elem_of_lookup_2.
Qed.

Lemma active_known s i m : sys_ok s -> active (mgr s) !! i = Some m ->
  i = conn_index m /\ exists p, owners s !! m = Some p /\ p <> Born.
Proof. intros Hok (-> & p & Hp & Hin)%(ok_table _ Hok). split; [done|]. exists p. split; [done|]. by intros ->. Qed.

Lemma new_closer_ok s sel cs : sys_ok s ->
  closer_ok (mkSys (mgr s) (owners s) cs) (mkCloser sel (dom (active (mgr s))) ∅ 0 Iterating).
Proof.
  intros Hok. split; cbn; [|set_solver|by intros m [?|?]|done].
  intros i. rewrite union_empty_r_L, elem_of_dom. intros [m Hm].
  destruct (active_known _ _ _ Hok Hm) as (-> & p & ? & ?). eauto.
Qed.

Lemma visit_ok s c id m x : sys_ok s -> closer_ok s c -> c_act c = Iterating ->
  active (mgr s) !! id = Some m -> metas (mgr s) !! m = Some x ->
  closer_ok s (with_act c ({[id]} ∪ c_visited c) (c_matched c)
    (if is_match (c_sel c) x then Marking m else Iterating)).
Proof.
  intros Hok [Hk Hd Ha Hr] Hact Him Hx. destruct (active_known _ _ _ Hok Him) as (-> & p & Hp & Hb).
  split; cbn.
  - intros i Hi. destruct (decide (i = conn_index m)) as [->|]; [eauto|]. apply Hk. set_solver.
  - intros m' x' Hv Hx' Hmt. destruct (decide (m' = m)) as [->|Hne].
    + simplify_eq. rewrite Hmt. auto.
    + assert (Hv' : conn_index m' ∈ c_visited c).
      { apply elem_of_union in Hv as [Hv|]; [|done]. apply elem_of_singleton, conn_index_inj in Hv. done. }
      destruct (Hd _ _ Hv' Hx' Hmt) as [?|[?|?]]; [auto|congruence..].
  - intros m' Hm'. destruct (is_match (c_sel c) x) eqn:E; [|by destruct Hm'].
    assert (m' = m) as -> by (by destruct Hm' as [[=]|[=]]). eauto.
  - by case_match.
Qed.

Lemma act_ok s c n a : closer_ok s c ->
  (forall m x, conn_index m ∈ c_visited c -> metas (mgr s) !! m = Some x -> is_match (c_sel c) x = true ->
     c_act c = Marking m \/ c_act c = Cancelling m -> cancelled x = true \/ a = Marking m \/ a = Cancelling m) ->
  (forall m, a = Marking m \/ a = Cancelling m -> c_act c = Marking m \/ c_act c = Cancelling m) ->
  (a = Returned -> c_started c ∩ dom (active (mgr s)) ⊆ c_visited c) ->
  closer_ok s (with_act c (c_visited c) n a).
Proof.
  intros [Hk Hd Ha Hr] H1 H2 H3. split; cbn; auto.
  intros m x Hv Hx Hm. destruct (Hd _ _ Hv Hx Hm) as [?|Hact]; [auto|]. eauto.
Qed.

(** [closer_ok] does not look at the other commands. *)
Lemma closer_ok_closers s cs c : closer_ok s c -> closer_ok (mkSys (mgr s) (owners s) cs) c.
Proof. intros [? ? ? ?]. by split. Qed.

Lemma step_closers s s' c : sys_ok s -> sys_step s s' -> c ∈ closers s' -> closer_ok s' c.
Proof.
  intros Hok Hst. assert (Hev := step_evolves _ _ Hok Hst).
  assert (Hold : forall c, c ∈ closers s -> closer_ok s' c).
  { intros c0 Hc0. eapply closer_ok_frame; [done..|]. by apply (ok_closers _ Hok). }
  destruct Hst; cbn; try apply Hold.
  - intros [Hc|Hc]%elem_of_app; [by apply Hold|]. apply list_elem_of_singleton in Hc as ->.
    by apply new_closer_ok.
  - intros [->|Hc]%insert_closer_elem; [|by apply Hold]. apply closer_ok_closers. eapply visit_ok; try done.
    apply (ok_closers _ Hok). by eapply list_elem_of_lookup_2.
  - intros [->|Hc]%insert_closer_elem; [|by apply Hold]. apply act_ok; [apply Hold; by eapply list_elem_of_lookup_2|..].
    + intros m' x _ _ _ [Hm|Hm]; rewrite H0 in Hm; simplify_eq. auto.
    + intros m' [?|?]; simplify_eq. auto.
    + done.
  - intros [->|Hc]%insert_closer_elem; [|by apply Hold]. apply act_ok; [apply Hold; by eapply list_elem_of_lookup_2|..].
    + intros m' x _ Hx _ [Hm|Hm]; rewrite H0 in Hm; simplify_eq. left. cbn in Hx.
      rewrite list_lookup_alter_eq in Hx. by destruct (metas (mgr s) !! m'); simplify_eq/=.
    + by intros m' [?|?].
    + done.
  - intros [->|Hc]%insert_closer_elem; [|by apply Hold]. apply act_ok; [apply Hold; by eapply list_elem_of_lookup_2|..].
    + intros m' x _ _ _ [Hm|Hm]; congruence.
    + by intros m' [?|?].
    + done.
Qed.

Lemma sys_step_managed s s' : sys_ok s -> few s' -> sys_step s s' -> sys_ok s'.
Proof.
  intros Hok Hfew Hst. destruct (step_numbered _ _ Hok Hfew Hst) as (? & ? & ?). split; try done.
  - by apply (step_tabled s).
  - intros m x p Hx Hp. by apply (step_meta s s' m x p).
  - intros c Hc. by apply (step_closers s s').
Qed.

Lemma step_more s s' : sys_step s s' -> (length (metas (mgr s)) <= length (metas (mgr s')))%nat.
Proof. destruct 1; cbn; rewrite ?length_alter, ?length_app; cbn; lia. Qed.

Lemma reachable_managed s : reachable s -> few s -> sys_ok s.
Proof.
  revert s. refine (rtc_ind_r (fun s => few s -> sys_ok s) _ _ _).
  - intros _. split; cbn; try done; [|set_solver]. intros i m. rewrite lookup_empty. naive_solver.
  - intros s s' _ Hst IH Hfew. eapply sys_step_managed; try done. apply IH.
    apply step_more in Hst. unfold few, zlen in *. lia.
Qed.

(** ** What the table promises *)

Lemma active_metas_elem s x : sys_ok s ->
  x ∈ active_metas (mgr s) <->
  exists m p, metas (mgr s) !! m = Some x /\ owners s !! m = Some p /\ in_table p = true.
Proof.
  intros Hok. unfold active_metas. rewrite list_elem_of_omap. split.
  - intros ((i & m) & Hin & Hx). apply elem_of_map_to_list, (ok_table _ Hok) in Hin as (_ & p & ? & ?). eauto.
  - intros (m & p & Hx & Hp & Hin). exists (conn_index m, m). split; [|done].
    apply elem_of_map_to_list, (ok_table _ Hok). eauto.
Qed.

Lemma sorted_ids_strict (l : list ConnectionMeta) :
  StronglySorted id_le l -> NoDup (conn_id <$> l) -> StronglySorted Z.lt (conn_id <$> l).
Proof.
  induction l as [|x l IH]; cbn; intros Hs Hnd; [constructor|].
  apply StronglySorted_cons in Hs as [Hx Hs]. apply NoDup_cons in Hnd as [Hn Hnd].
  apply StronglySorted_cons. split; [|auto]. apply Forall_fmap, Forall_forall. intros y Hy. cbn.
  pose proof (proj1 (Forall_forall _ _) Hx y Hy) as Hle. unfold id_le in Hle.
  assert (conn_id x <> conn_id y); [|lia]. intros He. apply Hn. rewrite He. by apply list_elem_of_fmap_2.
Qed.

Lemma active_ids_nodup s : sys_ok s -> NoDup (conn_id <$> active_metas (mgr s)).
Proof.
  intros Hok. unfold active_metas.
  assert (Hsub : forall e, e ∈ map_to_list (active (mgr s)) -> exists x, metas (mgr s) !! e.2 = Some x /\ conn_id x = e.1).
  { intros [i m] Hin. apply elem_of_map_to_list, (ok_table _ Hok) in Hin as (-> & p & Hp & _). cbn.
    apply lookup_lt_Some in Hp. rewrite (ok_owners _ Hok) in Hp. apply lookup_lt_is_Some_2 in Hp as [x Hx].
    exists x. split; [done|]. by apply (ok_ids _ Hok). }
  pose proof (NoDup_fst_map_to_list (active (mgr s))) as Hnd. revert Hsub Hnd.
  generalize (map_to_list (active (mgr s))). intros l. induction l as [|e l IH]; cbn; intros Hsub Hnd; [constructor|].
  apply NoDup_cons in Hnd as [Hn Hnd].
  destruct (Hsub e) as (x & Hx & Hid); [set_solver|]. rewrite Hx. cbn. constructor; [|apply IH; set_solver].
  intros (y & Hy & (e' & He' & Hy')%list_elem_of_omap)%list_elem_of_fmap. apply Hn.
  destruct (Hsub e') as (y' & Hy2 & Hid'); [set_solver|]. simplify_eq. rewrite <- Hid, Hy, Hid'.
  by apply list_elem_of_fmap_2.
Qed.

(** [close] when nothing runs beside it: what it does to the metadata of one entry. *)
Definition closed_meta (sel : CloseSelector) (x : ConnectionMeta) : ConnectionMeta :=
  if is_match sel x then cancel (set_close_reason (reason sel) x) else x.

Lemma close_entry_spec sel s n m x :
  metas s !! m = Some x ->
  exists s', close_entry sel (s, n) m = (s', n + Z.b2z (is_match sel x)) /\ active s' = active s /\
    next_id s' = next_id s /\ metas s' = <[m := closed_meta sel x]> (metas s).
Proof.
  intros Hx. unfold close_entry, closed_meta. rewrite Hx. destruct (is_match sel x); cbn.
  - eexists. split_and!; [done..|]. cbn. apply list_eq. intros i.
    destruct (decide (i = m)) as [->|].
    + by rewrite !list_lookup_alter_eq, list_lookup_insert_eq, Hx by (by eapply lookup_lt_Some).
    + by rewrite !list_lookup_alter_ne, list_lookup_insert_ne.
  - exists s. rewrite Z.add_0_r. split_and!; try done. by rewrite list_insert_id.
Qed.

Lemma close_fold sel l s n :
  NoDup l -> (forall m, m ∈ l -> is_Some (metas s !! m)) ->
  exists s', foldl (close_entry sel) (s, n) l =
      (s', n + zlen (filter (fun x => is_match sel x = true) (omap (fun m => metas s !! m) l))) /\
    active s' = active s /\ next_id s' = next_id s /\
    forall m, metas s' !! m = (if bool_decide (m ∈ l) then closed_meta sel else id) <$> metas s !! m.
Proof.
  revert s n. induction l as [|m l IH]; intros s n Hnd Hl.
  { exists s. cbn. unfold zlen. cbn. rewrite Z.add_0_r. split_and!; try done. intros m. by destruct (metas s !! m). }
  apply NoDup_cons in Hnd as [Hm Hnd]. destruct (Hl m) as [x Hx]; [set_solver|].
  destruct (close_entry_spec sel s n m x Hx) as (s1 & E & Ha & Hn & Hs1). cbn [foldl]. rewrite E.
  destruct (IH s1 (n + Z.b2z (is_match sel x)) Hnd) as (s' & E' & Ha' & Hn' & Hs').
  { intros i Hi. rewrite Hs1, list_lookup_insert_ne by set_solver. apply Hl. set_solver. }
  exists s'. rewrite E', Ha', Hn', Ha, Hn. split_and!; [|done..|].
  - assert (Ho : omap (fun m => metas s1 !! m) l = omap (fun m => metas s !! m) l).
    { clear - Hm Hs1. induction l as [|i l IH]; [done|]. cbn. rewrite IH by set_solver.
      by rewrite Hs1, list_lookup_insert_ne by set_solver. }
    cbn [omap list_omap]. rewrite Hx, Ho, filter_cons. f_equal.
    destruct (is_match sel x); case_decide; try done; unfold zlen; cbn; lia.
  - intros i. rewrite Hs', Hs1. destruct (decide (i = m)) as [->|Hi].
    + rewrite list_lookup_insert_eq by (by eapply lookup_lt_Some). rewrite Hx.
      by rewrite bool_decide_eq_false_2, bool_decide_eq_true_2 by set_solver.
    + rewrite list_lookup_insert_ne by done. by rewrite (bool_decide_ext (i ∈ l) (i ∈ m :: l)) by set_solver.
Qed.

Lemma active_close sel s : sys_ok s ->
  let '(s', n) := close sel (mgr s) in
  n = zlen (filter (fun x => is_match sel x = true) (active_metas (mgr s))) /\
  forall m p, owners s !! m = Some p ->
    metas s' !! m = (if in_table p then closed_meta sel else id) <$> metas (mgr s) !! m.
Proof.
  intros Hok. unfold close, active_metas.
  assert (Hidx : forall e, e ∈ map_to_list (active (mgr s)) -> e.1 = conn_index e.2 /\
    exists p, owners s !! e.2 = Some p /\ in_table p = true).
  { intros [i m] Hin. by apply elem_of_map_to_list, (ok_table _ Hok) in Hin. }
  destruct (close_fold sel (map_to_list (active (mgr s))).*2 (mgr s) 0) as (s' & -> & _ & _ & Hs').
  - pose proof (NoDup_fst_map_to_list (active (mgr s))) as Hnd. revert Hnd Hidx.
    generalize (map_to_list (active (mgr s))). intros l. induction l as [|e l IH]; cbn; intros Hnd Hidx; [constructor|].
    apply NoDup_cons in Hnd as [Hn Hnd]. constructor; [|apply IH; set_solver].
    intros (e' & He & Hin)%list_elem_of_fmap. apply Hn.
    destruct (Hidx e) as [-> _]; [set_solver|]. destruct (Hidx e') as [He' _]; [set_solver|].
    rewrite He, <- He'. by apply list_elem_of_fmap_2.
  - intros m (e & -> & Hin)%list_elem_of_fmap. destruct (Hidx e Hin) as (_ & p & Hp & _).
    apply lookup_lt_is_Some. rewrite <- (ok_owners _ Hok). by eapply lookup_lt_Some.
  - split.
    + rewrite Z.add_0_l. f_equal. f_equal. generalize (map_to_list (active (mgr s))). intros l.
      induction l as [|e l IH]; [done|]. cbn. by rewrite IH.
    + intros m p Hp. rewrite Hs'.
      rewrite (bool_decide_ext _ (in_table p = true)).
      * by destruct (in_table p).
      * split.
        -- intros (e & -> & Hin)%list_elem_of_fmap. destruct (Hidx e Hin) as (_ & q & Hq & Hb). by simplify_eq.
        -- intros Hin. apply list_elem_of_fmap. exists (conn_index m, m). split; [done|].
           apply elem_of_map_to_list, (ok_table _ Hok). eauto.
Qed.

(** What a command names: the connection with this identifier, or the connections of
    this user, inbound or outbound. *)
Inductive names : CloseSelector -> ConnectionMeta -> Prop :=
| names_id x : names (SelId (conn_id x)) x
| names_user x u : user x = Some u -> names (SelUser u) x
| names_inbound x : names (SelInbound (inbound x)) x
| names_outbound x : names (SelOutbound (outbound x)) x.

Lemma is_match_names sel x : is_match sel x = true <-> names sel x.
Proof.
  split.
  - destruct sel; cbn; intros H; bool_hyps; subst; by constructor.
  - intros []; cbn; [apply Z.eqb_refl|apply bool_decide_eq_true_2; congruence..].
Qed.

#[global] Instance names_dec sel x : Decision (names sel x).
Proof.
  destruct (is_match sel x) eqn:E; [left; by apply is_match_names|right].
  intros H%is_match_names. congruence.
Defined.

(** C8. The connection manager under any interleaving of connections and commands, as
    long as identifiers do not wrap around: [list] shows each connection between its
    entry and its removal once, in the order of the identifiers; a [close] that has
    returned has cancelled every connection it selects that was in the table when it
    began and still is; a connection is cancelled only if some command selects it; and
    a [close] that runs alone marks and counts exactly the active connections it
    selects. *)
Theorem connections_managed s :
  reachable s -> few s ->
  StronglySorted Z.lt (conn_id <$> manager_list (mgr s)) /\
  (forall x, x ∈ manager_list (mgr s) <->
     exists m p, metas (mgr s) !! m = Some x /\ owners s !! m = Some p /\ in_table p = true) /\
  (forall c m x p, c ∈ closers s -> c_act c = Returned -> names (c_sel c) x ->
     metas (mgr s) !! m = Some x -> conn_id x ∈ c_started c -> owners s !! m = Some p -> p <> Gone ->
     cancelled x = true) /\
  (forall m x, metas (mgr s) !! m = Some x -> cancelled x = true ->
     exists c, c ∈ closers s /\ names (c_sel c) x) /\
  (forall sel, let '(s', n) := close sel (mgr s) in
     n = zlen (filter (names sel) (active_metas (mgr s))) /\
     forall m p x, owners s !! m = Some p -> metas (mgr s) !! m = Some x ->
       metas s' !! m = Some (if decide (in_table p = true /\ names sel x)
                             then cancel (set_close_reason (reason sel) x) else x)).
Proof.
  intros Hr Hf. pose proof (reachable_managed _ Hr Hf) as Hok. unfold manager_list.
  assert (Hperm := merge_sort_Permutation id_le (active_metas (mgr s))). split_and!.
  - apply sorted_ids_strict.
    + apply StronglySorted_merge_sort; [intros ???; unfold id_le; lia|intros ??; unfold id_le; lia].
    + rewrite Hperm. by apply active_ids_nodup.
  - intros x. rewrite Hperm. by apply active_metas_elem.
  - intros c m x p Hc Hret Hm%is_match_names Hx Hin Hp Hg. rewrite (ok_ids _ Hok _ _ Hx) in Hin.
    pose proof (ok_closers _ Hok _ Hc) as [Hk Hd _ Hrt].
    destruct (Hk (conn_index m)) as (m' & p' & He%conn_index_inj & Hp' & Hb); [set_solver|]. simplify_eq.
    destruct (Hd m' x) as [?|[?|?]]; try done; [|congruence..]. apply (Hrt Hret), elem_of_intersection.
    split; [done|]. apply elem_of_dom. exists m'. apply (ok_table _ Hok). split; [done|]. exists p.
    split; [done|]. by destruct p.
  - intros m x Hx Hc. assert (Hlt : (m < length (owners s))%nat) by (rewrite (ok_owners _ Hok); by eapply lookup_lt_Some).
    apply lookup_lt_is_Some_2 in Hlt as [p Hp]. destruct (ok_meta _ Hok _ _ _ Hx Hp) as [H1 _].
    destruct (H1 Hc) as (r & c & ? & ?%is_match_names & _). eauto.
  - intros sel. pose proof (active_close sel s Hok) as H. destruct (close sel (mgr s)) as [s' n].
    destruct H as [-> Hm]. split.
    + f_equal. apply list_filter_iff. intros x. apply is_match_names.
    + intros m p x Hp Hx. rewrite (Hm _ _ Hp), Hx. cbn. f_equal. unfold closed_meta.
      destruct (in_table p); cbn; [|by case_decide; naive_solver].
      destruct (is_match sel x) eqn:E;
        [apply is_match_names in E|rewrite <- not_true_iff_false, is_match_names in E];
        by case_decide; naive_solver.
Qed.

Definition a_conn (who : bytes) : conn_args :=
  mkArgs (str "in") (str "out") (Some who) PTls TTcp RAdaptive.

(** Alice's connection is in the table when her connections are closed; Bob's is not
    named. *)
Definition two_conns : Sys :=
  let m0 := new_connection (a_conn (str "alice")) manager_default in
  let m1 := table_insert 1 0 m0 in
  let m2 := new_connection (a_conn (str "bob")) m1 in
  mkSys (table_insert 2 1 m2) [Live; Live] [].

Lemma two_conns_reachable : reachable two_conns.
Proof.
  eapply rtc_l; [apply (SNew _ (a_conn (str "alice")))|].
  eapply rtc_l; [eapply (SInsert _ 0); reflexivity|].
  eapply rtc_l; [apply (SNew _ (a_conn (str "bob")))|].
  eapply rtc_l; [eapply (SInsert _ 1); reflexivity|]. apply rtc_refl.
Qed.

Lemma connections_managed_witness :
  StronglySorted Z.lt (conn_id <$> manager_list (mgr two_conns)) /\
  (close (SelUser (str "alice")) (mgr two_conns)).2 = 1 /\
  (cancelled <$> metas (close (SelUser (str "alice")) (mgr two_conns)).1 !! 0%nat) = Some true /\
  (cancelled <$> metas (close (SelUser (str "alice")) (mgr two_conns)).1 !! 1%nat) = Some false.
Proof.
  destruct (connections_managed two_conns) as (Hs & _ & _ & _ & Hc).
  - apply two_conns_reachable.
  - vm_compute. reflexivity.
  - split; [exact Hs|]. specialize (Hc (SelUser (str "alice"))).
    destruct (close (SelUser (str "alice")) (mgr two_conns)) as [s' n]. destruct Hc as [-> Hm]. cbn [fst snd].
    split; [vm_compute; reflexivity|].
    rewrite (Hm 0%nat Live _ eq_refl eq_refl), (Hm 1%nat Live _ eq_refl eq_refl). split; vm_compute; reflexivity.
Defined.

(** The labels are read back, except for [tuic], which [From<&str>] does not know. *)
Lemma protocol_labels p : p <> PTuic -> Protocol_from (Protocol_as_str p) = p.
Proof. by destruct p. Qed.

Lemma protocol_tuic_unknown : Protocol_from (Protocol_as_str PTuic) = PUnknown.
Proof. reflexivity. Qed.

(** A process that tracks no connection, as one that was started for a command, lists
    none and closes none. *)
Lemma fresh_manager_empty sel :
  manager_list manager_default = [] /\ close sel manager_default = (manager_default, 0).
Proof. done. Qed.
