(* ===== verification/Profile.v ===== *)
(** * Fast Profile

    [blackwire-config] [schema/profile.rs]: the validation of a configuration against the
    constraints of the Fast Profile and the estimate of what its protocols cost.  The
    records keep the fields that these functions read. *)

From stdpp Require Import pretty.
From S2P Require Import Prelude.

(** ** Configuration *)

Inductive Protocol : Type :=
| Vless | Vmess | Trojan | Shadowsocks | Hysteria2 | Tuic | ShadowTls | Socks | Http | Freedom.
Inductive NetworkType : Type := Tcp | Ws | HttpUpgrade | Grpc | Quic | SplitHttp.
Inductive SecurityType : Type := SecNone | SecTls | SecReality | SecShadowTls.
Inductive ProfileMode : Type := Compat | Fast.

#[global] Instance Protocol_eq : EqDecision Protocol.
Proof. solve_decision. Defined.
#[global] Instance NetworkType_eq : EqDecision NetworkType.
Proof. solve_decision. Defined.
#[global] Instance SecurityType_eq : EqDecision SecurityType.
Proof. solve_decision. Defined.
#[global] Instance ProfileMode_eq : EqDecision ProfileMode.
Proof. solve_decision. Defined.

Record StreamSettingsConfig : Type := mkStream { network : NetworkType; security : SecurityType }.

(** [sniffing] and [fake_ip] are their [enabled] flags; [tun] says whether the
    section is present, which neither function reads. *)
Record InboundConfig : Type := mkInbound {
  in_tag : string;
  in_protocol : Protocol;
  in_stream : option StreamSettingsConfig;
  sniffing : option bool
}.

Record OutboundConfig : Type := mkOutbound {
  out_tag : string;
  out_protocol : Protocol;
  out_stream : option StreamSettingsConfig
}.

Record RoutingRule : Type := mkRule { r_domain : list string; r_ip : list string }.

Record RoutingConfig : Type := mkRouting {
  domain_strategy : option string;
  rules : list RoutingRule
}.

Record Config : Type := mkConfig {
  profile : ProfileMode;
  strict_production : option bool;
  fake_ip : option (option bool);
  routing : option RoutingConfig;
  inbounds : list InboundConfig;
  outbounds : list OutboundConfig;
  tun : bool
}.

Definition protocol_name (p : Protocol) : string :=
  match p with
  | Vless => "vless" | Vmess => "vmess" | Trojan => "trojan" | Shadowsocks => "shadowsocks"
  | Hysteria2 => "hysteria2" | Tuic => "tuic" | ShadowTls => "shadowtls" | Socks => "socks"
  | Http => "http" | Freedom => "freedom"
  end.

Definition network_name (n : NetworkType) : string :=
  match n with
  | Tcp => "tcp" | Ws => "ws" | HttpUpgrade => "httpupgrade" | Grpc => "grpc" | Quic => "quic"
  | SplitHttp => "splithttp"
  end.

Definition security_name (s : SecurityType) : string :=
  match s with
  | SecNone => "none" | SecTls => "tls" | SecReality => "reality" | SecShadowTls => "shadowtls"
  end.

(** ** Validation *)

Inductive ProfileViolation : Type :=
| ErrorV (message : string)
| WarningV (message : string).

Definition is_error (v : ProfileViolation) : bool := match v with ErrorV _ => true | WarningV _ => false end.

#[local] Open Scope string_scope.

Definition to_lower (c : Ascii.ascii) : Ascii.ascii :=
  let n := Ascii.nat_of_ascii c in
  if (65 <=? n)%nat && (n <=? 90)%nat then Ascii.ascii_of_nat (n + 32) else c.

Fixpoint eq_ignore_ascii_case (a b : string) : bool :=
  match a, b with
  | EmptyString, EmptyString => true
  | String x a, String y b => bool_decide (to_lower x = to_lower y) && eq_ignore_ascii_case a b
  | _, _ => false
  end.

Definition starts_with (pre s : string) : bool := String.prefix pre s.

Definition ip_on_demand (r : RoutingConfig) : bool :=
  match domain_strategy r with Some s => eq_ignore_ascii_case s "IpOnDemand" | None => false end.

Definition fake_ip_enabled (c : Config) : bool :=
  match fake_ip c with Some (Some b) => b | _ => false end.

Definition sniffs (ib : InboundConfig) : bool := default false (sniffing ib).

Definition geo_count (r : RoutingConfig) : nat :=
  length (filter (fun p => starts_with "geosite:" p || starts_with "geoip:" p = true)
    (mjoin ((fun x => r_domain x ++ r_ip x)%list <$> rules r))).

Definition strictly (strict : bool) (msg : string) : ProfileViolation :=
  if strict then ErrorV msg else WarningV msg.

(** One round of the loop over the inbounds. *)
Definition check_inbound (strict : bool) (ib : InboundConfig) : list ProfileViolation :=
  ((if bool_decide (in_protocol ib <> Vless)
    then [ErrorV ("inbound '" +:+ in_tag ib +:+ "': protocol '" +:+ protocol_name (in_protocol ib) +:+
            "' is not allowed in Fast Profile (only vless)")]
    else []) ++
   match in_stream ib with
   | Some ss =>
       (if bool_decide (network ss <> Tcp)
        then [ErrorV ("inbound '" +:+ in_tag ib +:+ "': network='" +:+ network_name (network ss) +:+
                "' is not allowed in Fast Profile (only tcp)")]
        else []) ++
       (if bool_decide (security ss = SecNone)
        then [strictly strict ("inbound '" +:+ in_tag ib +:+
                "': security=none; use reality or tls in Fast Profile")]
        else [])
   | None =>
       [strictly strict ("inbound '" +:+ in_tag ib +:+
          "': no streamSettings (security=none); use reality or tls in Fast Profile")]
   end ++
   (if sniffs ib
    then [ErrorV ("inbound '" +:+ in_tag ib +:+
            "': sniffing=true is not allowed in Fast Profile (adds per-connection overhead)")]
    else []))%list.

Definition check_outbound (ob : OutboundConfig) : list ProfileViolation :=
  if bool_decide (out_protocol ob <> Vless) && bool_decide (out_protocol ob <> Freedom)
  then [ErrorV ("outbound '" +:+ out_tag ob +:+ "': protocol '" +:+ protocol_name (out_protocol ob) +:+
          "' is not allowed in Fast Profile (only vless, freedom)")]
  else [].

Definition check_routing (r : RoutingConfig) : list ProfileViolation :=
  ((if ip_on_demand r
    then [ErrorV "routing.domainStrategy=IpOnDemand is not allowed in Fast Profile (forces a DNS lookup on every connection)"]
    else []) ++
   (if (50 <? length (rules r))%nat
    then [WarningV ("routing has " +:+ pretty (length (rules r)) +:+
            " rules; large rule sets add routing latency (consider pruning to ≤ 50)")]
    else []) ++
   (if (20 <? geo_count r)%nat
    then [WarningV (pretty (geo_count r) +:+
            " GeoSite/GeoIP patterns across routing rules; large geo sets increase per-connection routing time")]
    else []))%list.

Definition validate_fast_profile (c : Config) : list ProfileViolation :=
  if bool_decide (profile c <> Fast) then []
  else
    (mjoin (check_inbound (default true (strict_production c)) <$> inbounds c) ++
     mjoin (check_outbound <$> outbounds c) ++
     (if fake_ip_enabled c
      then [ErrorV "dns.fakeIp=true is not allowed in Fast Profile (adds per-query overhead)"]
      else []) ++
     match routing c with Some r => check_routing r | None => [] end)%list.

(** ** Cost *)

Inductive CostClass : Type := Low | Medium | High.
Inductive CopyMode : Type := Direct | Wrapped | Framed | Packet.

Record ProtocolCost : Type := mkCost {
  cpu : CostClass;
  allocations : CostClass;
  latency : CostClass;
  copy_mode : CopyMode;
  supports_direct_copy : bool;
  supports_splice : bool;
  supports_early_data : bool;
  supports_datagram : bool
}.

Definition bump_cost (current candidate : CostClass) : CostClass :=
  match current, candidate with
  | High, _ | _, High => High
  | Medium, _ | _, Medium => Medium
  | _, _ => Low
  end.

(** The initial values of [protocol_cost]. *)
Definition no_cost : ProtocolCost := mkCost Low Low Low Direct true true true false.

(** The arms of the two loops over the endpoints, which agree but for SOCKS and HTTP. *)
Definition wrapped_cost (c : ProtocolCost) : ProtocolCost :=
  mkCost (bump_cost (cpu c) Medium) (allocations c) (latency c) Wrapped (supports_direct_copy c) false
    (supports_early_data c) (supports_datagram c).

Definition vmess_cost (c : ProtocolCost) : ProtocolCost :=
  mkCost (bump_cost (cpu c) High) (bump_cost (allocations c) Medium) (bump_cost (latency c) Medium)
    Wrapped false false false (supports_datagram c).

Definition quic_cost (mode : CopyMode) (c : ProtocolCost) : ProtocolCost :=
  mkCost (bump_cost (cpu c) Medium) (allocations c) (bump_cost (latency c) Medium) mode
    (supports_direct_copy c) false (supports_early_data c) true.

Definition shadowtls_cost (c : ProtocolCost) : ProtocolCost :=
  mkCost (bump_cost (cpu c) High) (allocations c) (bump_cost (latency c) High) Wrapped false false
    (supports_early_data c) (supports_datagram c).

Definition framed_cost (c : ProtocolCost) : ProtocolCost :=
  mkCost (bump_cost (cpu c) High) (bump_cost (allocations c) High) (bump_cost (latency c) High) Framed
    false false (supports_early_data c) (supports_datagram c).

Definition inbound_cost (p : Protocol) (c : ProtocolCost) : ProtocolCost :=
  match p with
  | Vless | Freedom | Socks | Http => c
  | Trojan | Shadowsocks => wrapped_cost c
  | Vmess => vmess_cost c
  | Hysteria2 | Tuic => quic_cost Framed c
  | ShadowTls => shadowtls_cost c
  end.

Definition outbound_cost (p : Protocol) (c : ProtocolCost) : ProtocolCost :=
  match p with
  | Vless | Freedom => c
  | Socks | Http | Trojan | Shadowsocks => wrapped_cost c
  | Vmess => vmess_cost c
  | Hysteria2 | Tuic => quic_cost Framed c
  | ShadowTls => shadowtls_cost c
  end.

Definition apply_transport_cost (ss : StreamSettingsConfig) (c : ProtocolCost) : ProtocolCost :=
  let c :=
    match network ss with
    | Tcp => c
    | Ws | HttpUpgrade | Grpc | SplitHttp => framed_cost c
    | Quic => quic_cost Packet c
    end in
  match security ss with
  | SecNone => c
  | SecTls | SecReality => wrapped_cost c
  | SecShadowTls => shadowtls_cost c
  end.

Definition with_transport (ss : option StreamSettingsConfig) (c : ProtocolCost) : ProtocolCost :=
  match ss with Some ss => apply_transport_cost ss c | None => c end.

Definition protocol_cost (config : Config) : ProtocolCost :=
  let c := foldl (fun c i => with_transport (in_stream i) (inbound_cost (in_protocol i) c)) no_cost (inbounds config) in
  foldl (fun c o => with_transport (out_stream o) (outbound_cost (out_protocol o) c)) c (outbounds config).

(** ** The report *)

Definition add_unique (layer : string) (layers : list string) : list string :=
  if bool_decide (layer ∈ layers) then layers else (layers ++ [layer])%list.

Definition inbound_layers (i : InboundConfig) (l : list string) : list string :=
  let l := add_unique ("inbound " +:+ in_tag i +:+ " protocol " +:+ protocol_name (in_protocol i)) l in
  let l :=
    match in_stream i with
    | Some ss =>
        let l := add_unique ("transport " +:+ network_name (network ss)) l in
        if bool_decide (security ss <> SecNone)
        then add_unique ("security " +:+ security_name (security ss)) l else l
    | None => l
    end in
  if sniffs i then add_unique "sniffing" l else l.

Definition routing_layers (r : option RoutingConfig) (l : list string) : list string :=
  match r with
  | Some r =>
      let l := add_unique ("routing " +:+ pretty (length (rules r)) +:+ " rules") l in
      if ip_on_demand r then add_unique "routing DNS lookup" l else l
  | None => add_unique "routing default" l
  end.

Definition stream_settings_for_cost (i : InboundConfig) (o : OutboundConfig) : option StreamSettingsConfig :=
  match in_stream i with Some ss => Some ss | None => out_stream o end.

Definition outbound_layers (config : Config) (o : OutboundConfig) (l : list string) : list string :=
  let l := add_unique ("outbound " +:+ out_tag o +:+ " protocol " +:+ protocol_name (out_protocol o)) l in
  match head (inbounds config) with
  | Some first_inbound =>
      match stream_settings_for_cost first_inbound o with
      | Some ss =>
          match out_stream o with
          | Some _ =>
              let l := add_unique ("outbound transport " +:+ network_name (network ss)) l in
              if bool_decide (security ss <> SecNone)
              then add_unique ("outbound security " +:+ security_name (security ss)) l else l
          | None => l
          end
      | None => l
      end
  | None => l
  end.

Definition layers (config : Config) : list string :=
  let l := add_unique "TCP accept" [] in
  let l := foldl (fun l i => inbound_layers i l) l (inbounds config) in
  let l := routing_layers (routing config) l in
  let l := if fake_ip_enabled config then add_unique "FakeIP" l else l in
  foldl (fun l o => outbound_layers config o l) l (outbounds config).

Record CostReport : Type := mkReport {
  rep_profile : ProfileMode;
  layer_count : nat;
  rep_layers : list string;
  cost : ProtocolCost;
  findings : list ProfileViolation;
  suggestions : list string
}.

Definition explain_cost (config : Config) : CostReport :=
  let ls := layers config in
  let cost := protocol_cost config in
  let fast := bool_decide (profile config = Fast) in
  let when (b : bool) {A} (x : A) : list A := if b then [x] else [] in
  let many_layers := fast && (3 <? length ls)%nat in
  let sniffed := fast && existsb sniffs (inbounds config) in
  let many_rules :=
    match routing config with Some r => fast && (50 <? length (rules r))%nat | None => false end in
  let no_direct := fast && negb (supports_direct_copy cost) in
  let rule_count := match routing config with Some r => length (rules r) | None => 0%nat end in
  mkReport (profile config) (length ls) ls cost
    (when many_layers (WarningV ("hot path has " +:+ pretty (length ls) +:+
        " layers; Fast profile works best with 3 or fewer")) ++
     when sniffed (WarningV "sniffing adds work to the Fast profile hot path") ++
     when many_rules (WarningV ("routing has " +:+ pretty rule_count +:+
        " rules; large rule sets add Fast profile latency")) ++
     when no_direct (WarningV "direct copy is preferred but this path cannot lower to direct copy"))%list
    (when many_layers "remove one wrapper layer or use compatibility mode" ++
     when sniffed "disable inbound sniffing or use compatibility mode" ++
     when many_rules "compile or prune routing rules" ++
     when no_direct "prefer VLESS+REALITY over TCP, avoid WebSocket/gRPC/SplitHTTP on latency paths" ++
     when (fast && negb (supports_splice cost))
       "use relay.engine=v2 for wrapped streams where splice is unavailable")%list.

(** * What validation admits *)

(** The constraints of the Fast Profile, as a predicate. *)
Definition inbound_ok (strict : bool) (i : InboundConfig) : Prop :=
  in_protocol i = Vless /\ sniffs i = false /\
  match in_stream i with
  | Some ss => network ss = Tcp /\ (strict = true -> security ss <> SecNone)
  | None => strict = false
  end.

Record fast_ok (c : Config) : Prop := {
  fast_inbounds : Forall (inbound_ok (default true (strict_production c))) (inbounds c);
  fast_outbounds : Forall (fun o => out_protocol o = Vless \/ out_protocol o = Freedom) (outbounds c);
  fast_fake_ip : fake_ip_enabled c = false;
  fast_strategy : forall r, routing c = Some r -> ip_on_demand r = false
}.

Definition no_errors (l : list ProfileViolation) : Prop := Forall (fun v => is_error v = false) l.

Lemma no_errors_app l1 l2 : no_errors (l1 ++ l2)%list <-> no_errors l1 /\ no_errors l2.
Proof. apply Forall_app. Qed.

Lemma no_errors_if (b : bool) v : no_errors (if b then [v] else []) <-> (b = true -> is_error v = false).
Proof.
  destruct b; unfold no_errors; [rewrite Forall_singleton|rewrite Forall_nil]; intuition discriminate.
Qed.

Lemma no_errors_join {A} (f : A -> list ProfileViolation) l :
  no_errors (mjoin (f <$> l)) <-> Forall (fun x => no_errors (f x)) l.
Proof.
  induction l as [|x l IH]; cbn; [by split; constructor|]. by rewrite no_errors_app, IH, Forall_cons.
Qed.

Lemma strictly_error strict msg : is_error (strictly strict msg) = strict.
Proof. by destruct strict. Qed.

Lemma check_inbound_ok strict i : no_errors (check_inbound strict i) <-> inbound_ok strict i.
Proof.
  unfold check_inbound, inbound_ok. rewrite !no_errors_app, !no_errors_if, bool_decide_eq_true.
  assert (Hv : (in_protocol i <> Vless -> is_error (ErrorV "") = false) <-> in_protocol i = Vless).
  { split; [|done]. intros Hi. destruct (decide (in_protocol i = Vless)) as [|Hn]; [done|]. by specialize (Hi Hn). }
  cbn in *. rewrite Hv. destruct (in_stream i) as [ss|].
  - rewrite no_errors_app, !no_errors_if, strictly_error, !bool_decide_eq_true. cbn.
    destruct (network ss), (security ss), strict, (sniffs i); intuition (congruence || discriminate).
  - unfold no_errors at 1. rewrite Forall_singleton, strictly_error. destruct (sniffs i); intuition discriminate.
Qed.

Lemma check_outbound_ok o :
  no_errors (check_outbound o) <-> out_protocol o = Vless \/ out_protocol o = Freedom.
Proof.
  unfold check_outbound. rewrite no_errors_if. cbn. destruct (out_protocol o); cbn; intuition discriminate.
Qed.

Lemma check_routing_ok r : no_errors (check_routing r) <-> ip_on_demand r = false.
Proof.
  unfold check_routing. rewrite !no_errors_app, !no_errors_if. cbn. destruct (ip_on_demand r); intuition discriminate.
Qed.

Lemma validate_fast_ok c : profile c = Fast -> no_errors (validate_fast_profile c) <-> fast_ok c.
Proof.
  intros Hp. unfold validate_fast_profile.
  rewrite bool_decide_eq_false_2 by auto. rewrite !no_errors_app, !no_errors_join, no_errors_if.
  setoid_rewrite check_inbound_ok. setoid_rewrite check_outbound_ok. cbn.
  assert (Hr : no_errors (match routing c with Some r => check_routing r | None => [] end) <->
    forall r, routing c = Some r -> ip_on_demand r = false).
  { destruct (routing c) as [r|]; [rewrite check_routing_ok|]; split; intros; simplify_eq; auto. constructor. }
  rewrite Hr. split.
  - intros (Hi & Ho & Hf & Hs). split; try done. by destruct (fake_ip_enabled c); [specialize (Hf eq_refl)|].
  - intros [Hi Ho Hf Hs]. split_and!; try done. by rewrite Hf.
Qed.

(** What validation looks at: for a configuration in the Fast Profile it reports no error
    exactly when every inbound is VLESS over TCP without sniffing, secured unless the lab
    mode is on, every outbound is VLESS or Freedom, and neither FakeIP nor IpOnDemand is
    in use; other profiles are not restricted.  That is less than the documentation of
    the profile asks for ([fast_profile_overlooks]). *)
Theorem fast_profile_admits c :
  (profile c <> Fast -> validate_fast_profile c = []) /\
  (profile c = Fast -> no_errors (validate_fast_profile c) <-> fast_ok c).
Proof.
  split; intros Hp; [|by apply validate_fast_ok].
  unfold validate_fast_profile. by rewrite bool_decide_eq_true_2.
Qed.

(** * What the protocols of a configuration cost *)

(** The cost of two endpoints after one another. *)
Definition merge (c d : ProtocolCost) : ProtocolCost :=
  mkCost (bump_cost (cpu c) (cpu d)) (bump_cost (allocations c) (allocations d))
    (bump_cost (latency c) (latency d))
    (match copy_mode d with Direct => copy_mode c | m => m end)
    (supports_direct_copy c && supports_direct_copy d) (supports_splice c && supports_splice d)
    (supports_early_data c && supports_early_data d) (supports_datagram c || supports_datagram d).

#[global] Instance bump_cost_assoc : Assoc (=) bump_cost.
Proof. by intros [] [] []. Qed.
#[global] Instance bump_cost_comm : Comm (=) bump_cost.
Proof. by intros [] []. Qed.

#[global] Instance merge_assoc : Assoc (=) merge.
Proof.
  intros a b c. unfold merge. cbn. f_equal; try apply bump_cost_assoc; try apply andb_assoc; [|apply orb_assoc].
  by destruct (copy_mode b), (copy_mode c).
Qed.
#[global] Instance merge_left_id : LeftId (=) no_cost merge.
Proof. intros [a b c [] e f g h]; destruct a, b, c; reflexivity. Qed.
#[global] Instance merge_right_id : RightId (=) no_cost merge.
Proof. intros [a b c d e f g h]; unfold merge; cbn. by rewrite !andb_true_r, orb_false_r; destruct a, b, c. Qed.

(** An effect on the cost that only adds its own. *)
Definition adds (f : ProtocolCost -> ProtocolCost) : Prop := forall c, f c = merge c (f no_cost).

Ltac adding :=
  intros [a b c d e g h i]; unfold merge; cbn;
  rewrite ?andb_true_r, ?andb_false_r, ?orb_false_r, ?orb_true_r; by destruct a, b, c.

Lemma adds_id : adds (fun c => c).
Proof. adding. Qed.
Lemma adds_wrapped : adds wrapped_cost.
Proof. adding. Qed.
Lemma adds_vmess : adds vmess_cost.
Proof. adding. Qed.
Lemma adds_quic m : m <> Direct -> adds (quic_cost m).
Proof. intros Hm. destruct m; [done|..]; adding. Qed.
Lemma adds_shadowtls : adds shadowtls_cost.
Proof. adding. Qed.
Lemma adds_framed : adds framed_cost.
Proof. adding. Qed.

Ltac add_one :=
  first [exact adds_id | exact adds_wrapped | exact adds_vmess | exact adds_shadowtls | exact adds_framed
        | by apply adds_quic].

Lemma adds_compose f g : adds f -> adds g -> adds (fun c => g (f c)).
Proof. intros Hf Hg c. rewrite Hg, Hf, (Hg (f no_cost)). by rewrite (assoc merge). Qed.

Lemma adds_transport ss : adds (with_transport ss).
Proof.
  destruct ss as [[n s]|]; [|apply adds_id]. unfold with_transport, apply_transport_cost. cbn.
  apply (adds_compose (fun c => match n with Tcp => c | Quic => quic_cost Packet c | _ => framed_cost c end)
    (fun c => match s with SecNone => c | SecShadowTls => shadowtls_cost c | _ => wrapped_cost c end)).
  - destruct n; add_one.
  - destruct s; add_one.
Qed.

Lemma adds_inbound p : adds (inbound_cost p).
Proof. destruct p; add_one. Qed.
Lemma adds_outbound p : adds (outbound_cost p).
Proof. destruct p; add_one. Qed.

(** The endpoints, each on its own. *)
Definition inbound_alone (i : InboundConfig) : ProtocolCost :=
  with_transport (in_stream i) (inbound_cost (in_protocol i) no_cost).
Definition outbound_alone (o : OutboundConfig) : ProtocolCost :=
  with_transport (out_stream o) (outbound_cost (out_protocol o) no_cost).
Definition endpoint_costs (c : Config) : list ProtocolCost :=
  ((inbound_alone <$> inbounds c) ++ (outbound_alone <$> outbounds c))%list.

Definition total_cost (l : list ProtocolCost) : ProtocolCost := foldr merge no_cost l.

Lemma foldl_adds {A} (f : A -> ProtocolCost -> ProtocolCost) l c :
  (forall x, adds (f x)) ->
  foldl (fun c x => f x c) c l = merge c (total_cost ((fun x => f x no_cost) <$> l)).
Proof.
  intros Hf. revert c. induction l as [|x l IH]; intros c; cbn; [by rewrite (right_id no_cost merge)|].
  rewrite IH, (Hf x c). by rewrite (assoc merge).
Qed.

Lemma total_cost_app l1 l2 : total_cost (l1 ++ l2)%list = merge (total_cost l1) (total_cost l2).
Proof.
  unfold total_cost. induction l1 as [|x l1 IH]; cbn; [by rewrite (left_id no_cost merge)|].
  by rewrite IH, (assoc merge).
Qed.

Lemma protocol_cost_total c : protocol_cost c = total_cost (endpoint_costs c).
Proof.
  unfold protocol_cost, endpoint_costs. rewrite total_cost_app.
  rewrite (foldl_adds (fun i c => with_transport (in_stream i) (inbound_cost (in_protocol i) c)))
    by (intros i; apply (adds_compose (inbound_cost _)); auto using adds_inbound, adds_transport).
  rewrite (foldl_adds (fun o c => with_transport (out_stream o) (outbound_cost (out_protocol o) c)))
    by (intros o; apply (adds_compose (outbound_cost _)); auto using adds_outbound, adds_transport).
  by rewrite (left_id no_cost merge).
Qed.

(** Everything but the copy mode. *)
Definition classes (c : ProtocolCost) :=
  (cpu c, allocations c, latency c, supports_direct_copy c, supports_splice c, supports_early_data c,
   supports_datagram c).

Lemma bump_swap a b c : bump_cost b (bump_cost a c) = bump_cost a (bump_cost b c).
Proof. by destruct a, b, c. Qed.
Lemma andb_swap a b c : b && (a && c) = a && (b && c).
Proof. by destruct a, b, c. Qed.
Lemma orb_swap a b c : b || (a || c) = a || (b || c).
Proof. by destruct a, b, c. Qed.

Lemma classes_swap x y c : classes (merge y (merge x c)) = classes (merge x (merge y c)).
Proof.
  unfold classes, merge. cbn.
  repeat (f_equal; [|first [apply bump_swap|apply andb_swap|apply orb_swap]]). apply bump_swap.
Qed.

Lemma classes_merge x c d : classes c = classes d -> classes (merge x c) = classes (merge x d).
Proof. unfold classes, merge. cbn. intros [=]. congruence. Qed.

Lemma total_cost_perm l l' : l ≡ₚ l' -> classes (total_cost l) = classes (total_cost l').
Proof.
  induction 1 as [|x l l' _ IH|x y l|l1 l2 l3 _ IH1 _ IH2]; cbn; [done|by apply classes_merge| |congruence].
  apply classes_swap.
Qed.

(** A path that needs no more than encryption. *)
Record lean (c : ProtocolCost) : Prop := {
  lean_cpu : cpu c <> High;
  lean_allocations : allocations c = Low;
  lean_latency : latency c = Low;
  lean_direct : supports_direct_copy c = true;
  lean_early : supports_early_data c = true
}.

Lemma lean_total l : Forall lean l -> lean (total_cost l).
Proof.
  induction 1 as [|c l Hc _ IH]; [by split|]. change (total_cost (c :: l)) with (merge c (total_cost l)).
  destruct Hc, IH. split; cbn [merge cpu allocations latency supports_direct_copy supports_early_data].
  - by destruct (cpu c), (cpu (total_cost l)).
  - by rewrite lean_allocations0, lean_allocations1.
  - by rewrite lean_latency0, lean_latency1.
  - by rewrite lean_direct0, lean_direct1.
  - by rewrite lean_early0, lean_early1.
Qed.

(** Plain TCP or TLS. *)
Definition plain_stream (ss : option StreamSettingsConfig) : Prop :=
  match ss with Some ss => network ss = Tcp /\ security ss <> SecShadowTls | None => True end.

Lemma lean_transport ss c : plain_stream ss -> lean c -> lean (with_transport ss c).
Proof.
  destruct ss as [[n s]|]; cbn; [|done]. intros [-> Hs] []. destruct s; try done; split; cbn; try done; by destruct (cpu c).
Qed.

Lemma lean_no_cost : lean no_cost.
Proof. by split. Qed.

(** The cost of a configuration is the sum of what its endpoints cost alone, so but
    for the copy mode it does not depend on their order; and a configuration that
    validation admits, with plain TCP or TLS on every stream, keeps what the Fast
    Profile is for: direct copies, early data, no added latency or allocations. *)
Theorem fast_profile_cost c :
  protocol_cost c = total_cost (endpoint_costs c) /\
  (forall c', inbounds c' ≡ₚ inbounds c -> outbounds c' ≡ₚ outbounds c ->
     classes (protocol_cost c') = classes (protocol_cost c)) /\
  (profile c = Fast -> no_errors (validate_fast_profile c) ->
     Forall (fun i => plain_stream (in_stream i)) (inbounds c) ->
     Forall (fun o => plain_stream (out_stream o)) (outbounds c) -> lean (protocol_cost c)).
Proof.
  split_and!.
  - apply protocol_cost_total.
  - intros c' Hi Ho. rewrite !protocol_cost_total. apply total_cost_perm. unfold endpoint_costs.
    by rewrite Hi, Ho.
  - intros Hp Hv Hi Ho. assert (Hok : fast_ok c) by (by apply validate_fast_ok).
    rewrite protocol_cost_total. apply lean_total, Forall_app. split; apply Forall_fmap.
    + apply (Forall_impl _ _ _ (proj2 (Forall_and _ _) (conj (fast_inbounds _ Hok) Hi))). intros i [(Hpr & _) Hs]. cbn.
      unfold inbound_alone. rewrite Hpr. apply lean_transport; [done|]. apply lean_no_cost.
    + apply (Forall_impl _ _ _ (proj2 (Forall_and _ _) (conj (fast_outbounds _ Hok) Ho))). intros o [Hpr Hs]. cbn.
      unfold outbound_alone. apply lean_transport; [done|]. by destruct Hpr as [->| ->]; apply lean_no_cost.
Qed.

(** Validation looks at neither the streams of the outbounds nor the TUN section:
    whatever they are, its findings are the same.  So a configuration with a WebSocket
    outbound and TUN passes, at a cost that the profile is meant to exclude. *)
Theorem fast_profile_overlooks c (streams : OutboundConfig -> option StreamSettingsConfig) t :
  validate_fast_profile
    (mkConfig (profile c) (strict_production c) (fake_ip c) (routing c) (inbounds c)
       ((fun o => mkOutbound (out_tag o) (out_protocol o) (streams o)) <$> outbounds c) t) =
  validate_fast_profile c /\
  exists c', profile c' = Fast /\ tun c' = true /\ strict_production c' = Some true /\
    validate_fast_profile c' = [] /\ latency (protocol_cost c') = High /\
    supports_direct_copy (protocol_cost c') = false.
Proof.
  split.
  - unfold validate_fast_profile. cbn. case_bool_decide; [done|]. f_equal. f_equal.
    rewrite <- list_fmap_compose. done.
  - exists (mkConfig Fast (Some true) None None
      [mkInbound "in" Vless (Some (mkStream Tcp SecReality)) None]
      [mkOutbound "out" Vless (Some (mkStream Ws SecTls))] true). done.
Qed.

(** * The report *)

Lemma add_unique_nodup x l : NoDup l -> NoDup (add_unique x l).
Proof.
  intros Hl. unfold add_unique. case_bool_decide; [done|]. apply NoDup_app. split_and!; [done| |apply NoDup_singleton].
  intros y Hy ->%list_elem_of_singleton. done.
Qed.

Lemma foldl_nodup {A} (f : A -> list string -> list string) l ls :
  (forall x ls, NoDup ls -> NoDup (f x ls)) -> NoDup ls -> NoDup (foldl (fun ls x => f x ls) ls l).
Proof. intros Hf. revert ls. induction l as [|x l IH]; intros ls Hls; cbn; auto. Qed.

(** Every layer is counted once. *)
Lemma layers_nodup c : NoDup (layers c).
Proof.
  unfold layers. apply (foldl_nodup (outbound_layers c)).
  { intros o ls Hls. unfold outbound_layers. repeat case_match; auto using add_unique_nodup. }
  assert (Hi : NoDup (foldl (fun l i => inbound_layers i l) (add_unique "TCP accept" []) (inbounds c))).
  { apply foldl_nodup; [|apply add_unique_nodup, NoDup_nil_2].
    intros i ls Hls. unfold inbound_layers. repeat case_match; auto using add_unique_nodup. }
  unfold routing_layers. repeat case_match; auto using add_unique_nodup.
Qed.

(** The layers of an outbound are those of the first inbound, where that has any. *)
Lemma outbound_layer_mislabelled :
  let c := mkConfig Compat None None None [mkInbound "in" Vless (Some (mkStream Tcp SecNone)) None]
    [mkOutbound "out" Vless (Some (mkStream Ws SecNone))] false in
  "outbound transport tcp" ∈ layers c /\ "outbound transport ws" ∉ layers c.
Proof. vm_compute. split; [by repeat (first [apply list_elem_of_here|apply list_elem_of_further])|]. set_solver. Qed.
