(* ===== verification/Aead.v ===== *)
(** * Authenticated encryption

    The interface of the AEAD libraries below [blackwire-common] [aead.rs] (AES-GCM and
    ChaCha20-Poly1305 of aws-lc-rs or RustCrypto), the wrapper [AeadKey], and an instance
    on which models can be run.  The laws are the correctness of authenticated
    encryption, not its security: what was sealed opens again under the same key, nonce
    and associated data. *)

From S2P Require Import Prelude.

Definition TAG_LEN : nat := 16.

Inductive AeadAlgorithm : Type := Aes128Gcm | Aes256Gcm | ChaCha20Poly1305.

Definition key_len (alg : AeadAlgorithm) : nat :=
  match alg with Aes128Gcm => 16 | _ => 32 end.

(** A key is its algorithm and its bytes. *)
Record AeadKey : Type := mkKey { key_alg : AeadAlgorithm; key_bytes : bytes }.

(** The libraries: ciphertext and tag of a plaintext, and back. *)
Class AeadCrate : Type := {
  crate_seal : AeadKey -> bytes -> bytes -> bytes -> bytes * bytes;
  crate_open : AeadKey -> bytes -> bytes -> bytes -> bytes -> option bytes
}.

Class AeadLaws `{AeadCrate} : Prop := {
  seal_lengths k nonce aad p : let '(c, t) := crate_seal k nonce aad p in
    length c = length p /\ length t = TAG_LEN;
  open_sealed k nonce aad p : let '(c, t) := crate_seal k nonce aad p in
    crate_open k nonce aad c t = Some p
}.

Section Wrapper.
Context `{AeadCrate}.

(** [AeadKey::new]: the libraries refuse keys of the wrong length. *)
Definition AeadKey_new (alg : AeadAlgorithm) (key : bytes) : option AeadKey :=
  if (length key =? key_len alg)%nat then Some (mkKey alg key) else None.

(** [seal_detached] encrypts in place and returns the tag. *)
Definition seal_detached (k : AeadKey) (nonce aad in_out : bytes) : bytes * bytes :=
  crate_seal k nonce aad in_out.

Definition open_detached (k : AeadKey) (nonce aad tag in_out : bytes) : option bytes :=
  crate_open k nonce aad in_out tag.

(** [open_combined] returns the plaintext that it leaves at the front of [in_out]. *)
Definition open_combined (k : AeadKey) (nonce aad in_out : bytes) : option bytes :=
  if (length in_out <? TAG_LEN)%nat then None
  else
    let split := (length in_out - TAG_LEN)%nat in
    crate_open k nonce aad (take split in_out) (drop split in_out).

(** Ciphertext and tag one after the other, as they go on the wire. *)
Definition sealed (k : AeadKey) (nonce aad p : bytes) : bytes :=
  let '(c, t) := seal_detached k nonce aad p in c ++ t.
End Wrapper.

Section Facts.
Context `{AeadLaws}.

Lemma sealed_length k nonce aad p : length (sealed k nonce aad p) = (length p + TAG_LEN)%nat.
Proof.
  unfold sealed, seal_detached. pose proof (seal_lengths k nonce aad p) as Hl.
  destruct (crate_seal k nonce aad p) as [c t]. rewrite length_app. lia.
Qed.

Lemma open_combined_sealed k nonce aad p : open_combined k nonce aad (sealed k nonce aad p) = Some p.
Proof.
  unfold open_combined. rewrite sealed_length. case_match; bool_hyps; [lia|].
  replace (length p + TAG_LEN - TAG_LEN)%nat with (length p) by lia.
  unfold sealed, seal_detached. pose proof (seal_lengths k nonce aad p) as Hl.
  pose proof (open_sealed k nonce aad p) as Ho. destruct (crate_seal k nonce aad p) as [c t].
  destruct Hl as [Hc _]. by rewrite take_app_length', drop_app_length' by done.
Qed.

Lemma open_detached_sealed k nonce aad p :
  open_detached k nonce aad (drop (length p) (sealed k nonce aad p)) (take (length p) (sealed k nonce aad p)) =
  Some p.
Proof.
  unfold open_detached, sealed, seal_detached. pose proof (seal_lengths k nonce aad p) as Hl.
  pose proof (open_sealed k nonce aad p) as Ho. destruct (crate_seal k nonce aad p) as [c t].
  destruct Hl as [Hc _]. by rewrite take_app_length', drop_app_length' by done.
Qed.
End Facts.

(** ** An instance

    A shift by a pad that depends on key and nonce, with a checksum as tag. *)
Definition mix (l : bytes) : Z := foldl (fun a x => (a * 31 + x) mod 251) 7 l.

Definition toy_tag (k : AeadKey) (nonce aad c : bytes) : bytes :=
  replicate TAG_LEN (mix (key_bytes k ++ nonce ++ aad ++ c)).

Definition toy_pad (k : AeadKey) (nonce : bytes) : Z := mix (key_bytes k ++ nonce).

#[export] Instance toy_aead : AeadCrate := {
  crate_seal k nonce aad p :=
    let c := (fun x => Z.lxor x (toy_pad k nonce)) <$> p in (c, toy_tag k nonce aad c);
  crate_open k nonce aad c t :=
    if bool_decide (t = toy_tag k nonce aad c)
    then Some ((fun x => Z.lxor x (toy_pad k nonce)) <$> c) else None
}.

#[export] Instance toy_aead_laws : AeadLaws.
Proof.
  split; intros k nonce aad p; cbn.
  - by rewrite length_fmap.
  - rewrite bool_decide_eq_true_2 by done. f_equal. rewrite <- list_fmap_compose.
    rewrite <- (list_fmap_id p) at 2. apply list_fmap_ext. intros _ x _. cbn.
    by rewrite Z.lxor_assoc, Z.lxor_nilpotent, Z.lxor_0_r.
Qed.
