(* ===== verification/Ss2022.v ===== *)
(** * Shadowsocks-2022

    [blackwire-protocol] [ss2022]: the encrypted chunk stream ([stream.rs]), the request
    of the client and the response of the server ([outbound.rs], [inbound.rs],
    [subkey.rs]).  The AEAD libraries ([Aead]) and BLAKE3 are interfaces; random salts and
    the clock are arguments. *)

From S2P Require Import Prelude Common SocksFamily Limits AsyncIo Aead.

(** ** Chunk stream *)

Definition MAX_CHUNK_SIZE : nat := Z.to_nat (16 * 1024).
Definition READ_CHUNK_SIZE : nat := Z.to_nat (64 * 1024).

(** [to_le_bytes] of a [u64], and four zeros. *)
Definition make_nonce (counter : Z) : bytes := rev (be_bytes 8 counter) ++ replicate 4 0.

Record Ss2022Stream (S : Type) : Type := mkSs {
  ss_inner : S;
  read_cipher : AeadKey;
  write_cipher : AeadKey;
  read_counter : Z;
  ss_read_buf : bytes;
  read_raw : bytes;
  write_counter : Z;
  ss_write_buf : bytes;
  write_buf_pos : nat;
  response_header : option bytes
}.
Arguments mkSs {S} _ _ _ _ _ _ _ _ _ _.
Arguments ss_inner {S} _.
Arguments read_cipher {S} _.
Arguments write_cipher {S} _.
Arguments read_counter {S} _.
Arguments ss_read_buf {S} _.
Arguments read_raw {S} _.
Arguments write_counter {S} _.
Arguments ss_write_buf {S} _.
Arguments write_buf_pos {S} _.
Arguments response_header {S} _.

Definition new_bidir {S} (inner : S) (read_subkey : bytes) (read_start_nonce : Z)
    (write_subkey : bytes) (write_start_nonce : Z) (initial_read : bytes)
    (header : option bytes) : Ss2022Stream S :=
  mkSs inner (mkKey Aes256Gcm read_subkey) (mkKey Aes256Gcm write_subkey) read_start_nonce initial_read []
    write_start_nonce [] 0 header.

Section Stream.
Context {S : Type} `{AeadCrate}.
Implicit Types s : Ss2022Stream S.

(** The updates of the fields. *)
Definition set_reading (inner : S) (counter : Z) (buf raw : bytes) s : Ss2022Stream S :=
  mkSs inner (read_cipher s) (write_cipher s) counter buf raw (write_counter s) (ss_write_buf s)
    (write_buf_pos s) (response_header s).

Definition set_queue (inner : S) (buf : bytes) (pos : nat) s : Ss2022Stream S :=
  mkSs inner (read_cipher s) (write_cipher s) (read_counter s) (ss_read_buf s) (read_raw s)
    (write_counter s) buf pos (response_header s).

Definition set_written (counter : Z) (buf : bytes) s : Ss2022Stream S :=
  mkSs (ss_inner s) (read_cipher s) (write_cipher s) (read_counter s) (ss_read_buf s) (read_raw s)
    counter buf (write_buf_pos s) None.

(** [try_decrypt_chunk]: the next chunk, with the counter and what is left of [src], also
    when it fails; [None] when there is not enough data. *)
Definition try_decrypt_chunk (k : AeadKey) (counter : Z) (src : bytes) :
    option (res io_error bytes * Z * bytes) :=
  if (length src <? 18)%nat then None
  else
    match open_detached k (make_nonce counter) [] (take 16 (drop 2 src)) (take 2 src) with
    | None => Some (Err InvalidData, counter, src)
    | Some l =>
        let data_len := Z.to_nat (be_val l) in
        if (data_len =? 0)%nat then Some (Ok [], as_u64 (counter + 1), drop 18 src)
        else if (length src <? 18 + data_len + 16)%nat then None
        else
          let counter := as_u64 (counter + 1) in
          let data_ct := take (data_len + 16) (drop 18 src) in
          let src := drop (data_len + 16) (drop 18 src) in
          match open_combined k (make_nonce counter) [] data_ct with
          | None => Some (Err InvalidData, counter, src)
          | Some plain => Some (Ok plain, as_u64 (counter + 1), src)
          end
    end.

Definition encrypt_append (k : AeadKey) (nonce dst data : bytes) : bytes := dst ++ sealed k nonce [] data.

(** [append_encrypted_chunk]: the first chunk of a server that was given a response
    header goes behind that header. *)
Definition append_encrypted_chunk (dst data : bytes) s : Ss2022Stream S * bytes :=
  let c := write_counter s in
  let first :=
    match response_header s with
    | Some fixed_header => take 41 fixed_header ++ be_bytes 2 (as_u16 (zlen data))
    | None => be_bytes 2 (as_u16 (zlen data))
    end in
  let dst := encrypt_append (write_cipher s) (make_nonce c) dst first in
  let c := as_u64 (c + 1) in
  let dst := encrypt_append (write_cipher s) (make_nonce c) dst data in
  (set_written (as_u64 (c + 1)) (ss_write_buf s) s, dst).

Section Reading.
Context `{AsyncRead S}.

(** The loop of [poll_read]; [None] after [fuel] rounds. *)
Fixpoint ss_read_loop (fuel : nat) s (n : nat) :
    option (Ss2022Stream S * poll (res io_error bytes)) :=
  match fuel with
  | O => None
  | Datatypes.S fuel' =>
      match ss_read_buf s with
      | _ :: _ =>
          let k := Nat.min (length (ss_read_buf s)) n in
          Some (set_reading (ss_inner s) (read_counter s) (drop k (ss_read_buf s)) (read_raw s) s,
                Ready (Ok (take k (ss_read_buf s))))
      | [] =>
          match try_decrypt_chunk (read_cipher s) (read_counter s) (read_raw s) with
          | Some (Ok plaintext, counter, raw) =>
              let s := set_reading (ss_inner s) counter plaintext raw s in
              match plaintext with
              | [] => Some (s, Ready (Ok []))
              | _ :: _ => ss_read_loop fuel' s n
              end
          | Some (Err e, counter, raw) => Some (set_reading (ss_inner s) counter [] raw s, Ready (Err e))
          | Some (Panic, counter, raw) => Some (set_reading (ss_inner s) counter [] raw s, Ready Panic)
          | None =>
              match poll_read (ss_inner s) READ_CHUNK_SIZE with
              | (i, Pending) => Some (set_reading i (read_counter s) [] (read_raw s) s, Pending)
              | (i, Ready (Err e)) => Some (set_reading i (read_counter s) [] (read_raw s) s, Ready (Err e))
              | (i, Ready Panic) => Some (set_reading i (read_counter s) [] (read_raw s) s, Ready Panic)
              | (i, Ready (Ok [])) => Some (set_reading i (read_counter s) [] (read_raw s) s, Ready (Ok []))
              | (i, Ready (Ok filled)) =>
                  let raw := read_raw s ++ filled in
                  match try_decrypt_chunk (read_cipher s) (read_counter s) raw with
                  | Some (Ok plaintext, counter, raw) =>
                      let s := set_reading i counter plaintext raw s in
                      match plaintext with
                      | [] => Some (s, Ready (Ok []))
                      | _ :: _ => ss_read_loop fuel' s n
                      end
                  | Some (Err e, counter, raw) => Some (set_reading i counter [] raw s, Ready (Err e))
                  | Some (Panic, counter, raw) => Some (set_reading i counter [] raw s, Ready Panic)
                  | None => ss_read_loop fuel' (set_reading i (read_counter s) [] raw s) n
                  end
              end
          end
      end
  end.
End Reading.

Section Writing.
Context `{AsyncWrite S}.

(** The loops that write out [write_buf]; each round that goes on writes something, so
    that as many rounds as there are bytes are enough. *)
Fixpoint drain_loop (fuel : nat) s : Ss2022Stream S * poll (res io_error unit) :=
  if (length (ss_write_buf s) <=? write_buf_pos s)%nat then (s, Ready (Ok tt))
  else
    match fuel with
    | O => (s, Ready (Ok tt))
    | Datatypes.S fuel' =>
        match poll_write (ss_inner s) (drop (write_buf_pos s) (ss_write_buf s)) with
        | (i, Pending) => (set_queue i (ss_write_buf s) (write_buf_pos s) s, Pending)
        | (i, Ready (Err e)) => (set_queue i (ss_write_buf s) (write_buf_pos s) s, Ready (Err e))
        | (i, Ready Panic) => (set_queue i (ss_write_buf s) (write_buf_pos s) s, Ready Panic)
        | (i, Ready (Ok O)) => (set_queue i (ss_write_buf s) (write_buf_pos s) s, Ready (Err WriteZero))
        | (i, Ready (Ok n)) => drain_loop fuel' (set_queue i (ss_write_buf s) (write_buf_pos s + n) s)
        end
    end.

Definition drain s : Ss2022Stream S * poll (res io_error unit) := drain_loop (length (ss_write_buf s)) s.

(** A queue that is written out is emptied. *)
Definition clear_drained s : Ss2022Stream S :=
  if (length (ss_write_buf s) <=? write_buf_pos s)%nat then set_queue (ss_inner s) [] 0 s else s.

Definition ss_poll_write s (buf : bytes) : Ss2022Stream S * poll (res io_error nat) :=
  match drain s with
  | (s, Pending) => (s, Pending)
  | (s, Ready (Err e)) => (s, Ready (Err e))
  | (s, Ready Panic) => (s, Ready Panic)
  | (s, Ready (Ok _)) =>
      let s := clear_drained s in
      let chunk := take (Nat.min (length buf) MAX_CHUNK_SIZE) buf in
      let '(s, staged) := append_encrypted_chunk (ss_write_buf s) chunk s in
      let s := set_queue (ss_inner s) staged (write_buf_pos s) s in
      match drain s with
      | (s, Ready (Err e)) => (s, Ready (Err e))
      | (s, Ready Panic) => (s, Ready Panic)
      | (s, Ready (Ok _)) | (s, Pending) => (clear_drained s, Ready (Ok (length chunk)))
      end
  end.

Definition ss_poll_flush s : Ss2022Stream S * poll (res io_error unit) :=
  match drain s with
  | (s, Pending) => (s, Pending)
  | (s, Ready (Err e)) => (s, Ready (Err e))
  | (s, Ready Panic) => (s, Ready Panic)
  | (s, Ready (Ok _)) =>
      let s := clear_drained s in
      let '(i, r) := poll_flush (ss_inner s) in (set_queue i (ss_write_buf s) (write_buf_pos s) s, r)
  end.

Definition ss_poll_shutdown s : Ss2022Stream S * poll (res io_error unit) :=
  let '(i, r) := poll_shutdown (ss_inner s) in (set_queue i (ss_write_buf s) (write_buf_pos s) s, r).
End Writing.
End Stream.

(** * What the stream carries *)

Definition next2 (c : Z) : Z := as_u64 (as_u64 (c + 1) + 1).

Section Frames.
Context `{HA : AeadLaws}.

(** One chunk on the wire, and chunks one after another. *)
Definition frame (k : AeadKey) (c : Z) (d : bytes) : bytes :=
  sealed k (make_nonce c) [] (be_bytes 2 (as_u16 (zlen d))) ++ sealed k (make_nonce (as_u64 (c + 1))) [] d.

Fixpoint frames (k : AeadKey) (c : Z) (ds : list bytes) : bytes :=
  match ds with
  | [] => []
  | d :: ds => frame k c d ++ frames k (next2 c) ds
  end.

Fixpoint counter_after (c : Z) (ds : list bytes) : Z :=
  match ds with [] => c | _ :: ds => counter_after (next2 c) ds end.

Definition chunk_ok (d : bytes) : Prop := (0 < length d <= MAX_CHUNK_SIZE)%nat.

Lemma chunk_frame_length k c d : length (frame k c d) = (18 + length d + 16)%nat.
Proof. unfold frame. rewrite length_app, !sealed_length, length_be_bytes. unfold TAG_LEN. lia. Qed.

Lemma frames_snoc k c ds d :
  frames k c (ds ++ [d]) = frames k c ds ++ frame k (counter_after c ds) d.
Proof.
  revert c. induction ds as [|x ds IH]; intros c; cbn; [by rewrite app_nil_r|]. by rewrite IH, app_assoc.
Qed.

Lemma counter_after_snoc c ds d : counter_after c (ds ++ [d]) = next2 (counter_after c ds).
Proof. revert c. induction ds as [|x ds IH]; intros c; cbn; [done|]. by rewrite IH. Qed.

Lemma max_chunk_small d : chunk_ok d -> in_u16 (zlen d) /\ Z.to_nat (zlen d) = length d.
Proof.
  unfold chunk_ok, in_u16, zlen, MAX_CHUNK_SIZE. intros Hd. split; [lia|by rewrite Nat2Z.id].
Qed.

(** The first bytes of a frame are its sealed length. *)
Lemma frame_head k c d src more rest :
  (18 <= length src)%nat -> src ++ rest = frame k c d ++ more ->
  take 18 src = sealed k (make_nonce c) [] (be_bytes 2 (as_u16 (zlen d))).
Proof.
  intros Hl Heq. apply (f_equal (take 18)) in Heq. rewrite take_app_le in Heq by done. rewrite Heq.
  unfold frame. rewrite <- app_assoc. rewrite take_app_length'; [done|].
  rewrite sealed_length, length_be_bytes. done.
Qed.

(** A frame that is there in full is decrypted; one that is not is waited for. *)
Lemma try_decrypt_frame k c d src rest more :
  chunk_ok d -> src ++ rest = frame k c d ++ more ->
  ((length src < length (frame k c d))%nat /\ try_decrypt_chunk k c src = None) \/
  exists src', src = frame k c d ++ src' /\ try_decrypt_chunk k c src = Some (Ok d, next2 c, src').
Proof.
  intros Hd Heq. rewrite chunk_frame_length. unfold try_decrypt_chunk.
  case_match eqn:H18; bool_hyps; [left; split; [lia|done]|].
  pose proof (frame_head k c d src more rest H18 Heq) as Hh.
  destruct (max_chunk_small d Hd) as [Hu Hn].
  assert (Hopen : open_detached k (make_nonce c) [] (take 16 (drop 2 src)) (take 2 src) =
    Some (be_bytes 2 (as_u16 (zlen d)))).
  { rewrite <- (open_detached_sealed k (make_nonce c) [] (be_bytes 2 (as_u16 (zlen d)))), <- Hh.
    rewrite length_be_bytes, take_take, skipn_firstn_comm. done. }
  assert (Hv : Z.to_nat (be_val (be_bytes 2 (as_u16 (zlen d)))) = length d).
  { unfold as_u16. rewrite Z.mod_small by done. by rewrite be_bytes_2_val. }
  rewrite Hopen, Hv.
  unfold chunk_ok in Hd. case_match eqn:H0; bool_hyps; [lia|].
  case_match eqn:Hlen; bool_hyps; [left; split; [lia|done]|]. right.
  assert (Hf : src = frame k c d ++ drop (18 + length d + 16) src).
  { apply (f_equal (take (18 + length d + 16))) in Heq. rewrite take_app_le in Heq by lia.
    rewrite take_app_length' in Heq by (by rewrite chunk_frame_length). rewrite <- Heq at 1. by rewrite take_drop. }
  exists (drop (18 + length d + 16) src). split; [done|].
  assert (Hct : take (length d + 16) (drop 18 src) = sealed k (make_nonce (as_u64 (c + 1))) [] d).
  { rewrite Hf. unfold frame at 1. rewrite <- !app_assoc.
    rewrite drop_app_length' by (rewrite sealed_length, length_be_bytes; done).
    rewrite take_app_length' by (rewrite sealed_length; done). done. }
  rewrite Hct, open_combined_sealed, drop_drop. by rewrite Nat.add_assoc.
Qed.
End Frames.

(** ** The reader *)

Section Reader.
Context `{HA : AeadLaws} {R : Type} `{ReadSpec R}.
Implicit Types s : Ss2022Stream R.

(** [acc] is what the peer has written, [out] what was read of it; with [full] all of the
    peer's wire is on its way. *)
Record ss_reads (k : AeadKey) (full : bool) (acc out : bytes) (ds : list bytes) s : Prop := {
  sr_key : read_cipher s = k;
  sr_chunks : Forall chunk_ok ds;
  sr_acc : acc = out ++ ss_read_buf s ++ concat ds;
  sr_wire : read_raw s ++ incoming (ss_inner s) `prefix_of` frames k (read_counter s) ds;
  sr_full : full = true -> read_raw s ++ incoming (ss_inner s) = frames k (read_counter s) ds
}.

Definition ss_reading k full acc out s : Prop := exists ds, ss_reads k full acc out ds s.

(** What is decrypted next, if anything is. *)
Lemma try_decrypt_next k c ds raw rest :
  Forall chunk_ok ds -> raw ++ rest `prefix_of` frames k c ds ->
  (try_decrypt_chunk k c raw = None /\ (raw = frames k c ds -> ds = [])) \/
  exists d ds' raw', ds = d :: ds' /\ raw = frame k c d ++ raw' /\
    try_decrypt_chunk k c raw = Some (Ok d, next2 c, raw').
Proof.
  intros Hds [more Hp]. destruct ds as [|d ds].
  - left. cbn in Hp. rewrite <- app_assoc in Hp. symmetry in Hp. apply app_eq_nil in Hp as [-> _]. done.
  - apply Forall_cons in Hds as [Hd Hds]. cbn [frames] in Hp. symmetry in Hp. rewrite <- app_assoc in Hp.
    destruct (try_decrypt_frame k c d raw _ _ Hd Hp) as [[Hl Hn]|(raw' & -> & Hs)].
    + left. split; [done|]. intros Hraw. rewrite Hraw in Hl. cbn in Hl. rewrite length_app in Hl. lia.
    + right. by exists d, ds, raw'.
Qed.

(** The state after a chunk was decrypted. *)
Lemma ss_reads_chunk k full acc out d ds s i raw' filled :
  ss_reads k full acc out (d :: ds) s -> ss_read_buf s = [] ->
  incoming (ss_inner s) = filled ++ incoming i -> read_raw s ++ filled = frame k (read_counter s) d ++ raw' ->
  ss_reads k full acc out ds (set_reading i (next2 (read_counter s)) d raw' s).
Proof.
  intros [Hk Hds Hacc Hw Hf] Hbuf Hin Hraw. apply Forall_cons in Hds as [_ Hds]. split; cbn; try done.
  - by rewrite Hacc, Hbuf.
  - rewrite Hin, app_assoc, Hraw, <- app_assoc in Hw. by apply prefix_app_inv in Hw.
  - intros Hfull. specialize (Hf Hfull). rewrite Hin, app_assoc, Hraw, <- app_assoc in Hf.
    by apply app_inv_head in Hf.
Qed.

Lemma ss_reads_more k full acc out ds s i raw :
  ss_reads k full acc out ds s -> ss_read_buf s = [] ->
  raw ++ incoming i = read_raw s ++ incoming (ss_inner s) ->
  ss_reads k full acc out ds (set_reading i (read_counter s) [] raw s).
Proof. intros [Hk Hds Hacc Hw Hf] Hbuf Hin. split; cbn; rewrite ?Hin; try done. by rewrite Hacc, Hbuf. Qed.

Definition ss_read_post k full acc out n s' (r : poll (res io_error bytes)) : Prop :=
  match r with
  | Ready (Ok c) => ss_reading k full acc (out ++ c) s' /\
      (c = [] -> n = 0%nat \/ incoming (ss_inner s') = [] /\ (full = true -> out = acc))
  | Ready (Err e) => exists i k i', poll_read (S := R) i k = (i', Ready (Err e))
  | Ready Panic => False
  | Pending => ss_reading k full acc out s'
  end.

Lemma ss_read_loop_ok k full acc out fuel s n s' r :
  ss_reading k full acc out s -> ss_read_loop fuel s n = Some (s', r) ->
  ss_read_post k full acc out n s' r.
Proof.
  revert s. induction fuel as [|fuel IH]; intros s [ds Hs]; cbn [ss_read_loop]; [done|].
  destruct (ss_read_buf s) as [|x buf] eqn:Hbuf.
  2: { rewrite <- Hbuf. intros [= <- <-]. pose proof Hs as [Hk Hds Hacc Hw Hf]. split.
    - exists ds. split; cbn; try done. rewrite Hacc, <- !app_assoc. f_equal. by rewrite app_assoc, take_drop.
    - intros Hn. left. apply (f_equal length) in Hn. rewrite length_take, Hbuf in Hn. cbn [length] in Hn. lia. }
  rewrite (sr_key _ _ _ _ _ _ Hs).
  destruct (try_decrypt_next k (read_counter s) ds (read_raw s) (incoming (ss_inner s)))
    as [[-> Hend]|(d & ds' & raw' & -> & Hraw & ->)]; [by apply Hs|by apply Hs| |].
  2: { pose proof (sr_chunks _ _ _ _ _ _ Hs) as [Hd _]%Forall_cons. unfold chunk_ok in Hd.
    destruct d as [|x d]; [cbn in Hd; lia|]. intros Hl. eapply IH; [|exact Hl]. exists ds'.
    eapply (ss_reads_chunk _ _ _ _ _ _ _ _ _ []); try done. by rewrite app_nil_r. }
  destruct (poll_read (ss_inner s) READ_CHUNK_SIZE) as [i [[filled|e|]|]] eqn:Hr.
  - apply poll_read_ok in Hr as (_ & Hin & Hnil). destruct filled as [|x filled].
    + intros [= <- <-]. cbn [app] in Hin. split.
      * rewrite app_nil_r. exists ds. apply ss_reads_more; [done..|]. by rewrite Hin.
      * intros _. right. cbn. destruct Hnil as [Hn|Hn]; [done|unfold READ_CHUNK_SIZE in Hn; lia|].
        split; [congruence|]. intros Hfull. pose proof (sr_full _ _ _ _ _ _ Hs Hfull) as Hf.
        rewrite Hn, app_nil_r in Hf. specialize (Hend Hf). subst ds.
        rewrite (sr_acc _ _ _ _ _ _ Hs), Hbuf. cbn. by rewrite app_nil_r.
    + remember (x :: filled) as fl eqn:Hfl.
      destruct (try_decrypt_next k (read_counter s) ds (read_raw s ++ fl) (incoming i))
        as [[-> _]|(d & ds' & raw' & -> & Hraw & ->)].
      * by apply Hs.
      * rewrite <- app_assoc, <- Hin. by apply Hs.
      * intros Hl. eapply IH; [|exact Hl]. exists ds. apply ss_reads_more; [done..|].
        by rewrite <- app_assoc, <- Hin.
      * pose proof (sr_chunks _ _ _ _ _ _ Hs) as [Hd _]%Forall_cons. unfold chunk_ok in Hd.
        destruct d as [|y d]; [cbn in Hd; lia|]. intros Hl. eapply IH; [|exact Hl]. exists ds'.
        by eapply ss_reads_chunk.
  - intros [= <- <-]. cbn. eauto.
  - by apply poll_read_no_panic in Hr.
  - intros [= <- <-]. apply poll_read_pending in Hr. exists ds. apply ss_reads_more; [done..|]. by rewrite Hr.
Qed.

(** A read ends: it reads at most as often as there are bytes to come. *)
Lemma ss_read_loop_total s n fuel :
  (length (incoming (ss_inner s)) + (if bool_decide (ss_read_buf s = []) then 2 else 1) <= fuel)%nat ->
  exists s' r, ss_read_loop fuel s n = Some (s', r).
Proof.
  revert s. induction fuel as [|fuel IH]; intros s Hf; [case_bool_decide; lia|]. cbn [ss_read_loop].
  destruct (ss_read_buf s) as [|x buf] eqn:Hbuf; [|eauto]. rewrite bool_decide_eq_true_2 in Hf by done.
  assert (Hnext : forall c x p raw, exists s' r, ss_read_loop fuel (set_reading (ss_inner s) c (x :: p) raw s) n = Some (s', r)).
  { intros c x p raw. apply IH. cbn. lia. }
  destruct (try_decrypt_chunk (read_cipher s) (read_counter s) (read_raw s)) as [[[[[|x p]|e|] c] raw]|]; eauto.
  destruct (poll_read (ss_inner s) READ_CHUNK_SIZE) as [i [[[|x filled]|e|]|]] eqn:Hr; eauto.
  apply poll_read_ok in Hr as (_ & Hin & _). rewrite Hin in Hf. rewrite length_app in Hf. cbn in Hf.
  assert (Hnext2 : forall c p raw, exists s' r, ss_read_loop fuel (set_reading i c p raw s) n = Some (s', r)).
  { intros c p raw. apply IH. cbn. case_bool_decide; lia. }
  destruct (try_decrypt_chunk _ _ (_ ++ _)) as [[[[[|y p]|e|] c] raw]|]; eauto.
Qed.
End Reader.

(** ** The writer *)

Section Writer.
Context `{HA : AeadLaws} {W : Type} `{WriteSpec W}.
Implicit Types s : Ss2022Stream W.

(** [acc] has been accepted since the stream was made on [sent0]. *)
Record ss_writes (k : AeadKey) (c0 : Z) (sent0 acc : bytes) (ds : list bytes) s : Prop := {
  sw_key : write_cipher s = k;
  sw_header : response_header s = None;
  sw_chunks : Forall chunk_ok ds;
  sw_acc : concat ds = acc;
  sw_counter : write_counter s = counter_after c0 ds;
  sw_pos : (write_buf_pos s <= length (ss_write_buf s))%nat;
  sw_wire : sent (ss_inner s) ++ drop (write_buf_pos s) (ss_write_buf s) = sent0 ++ frames k c0 ds;
  sw_grows : sent0 `prefix_of` sent (ss_inner s)
}.

Definition ss_accepted k c0 sent0 acc s : Prop := exists ds, ss_writes k c0 sent0 acc ds s.

Definition drained s : Prop := (length (ss_write_buf s) <= write_buf_pos s)%nat.

Lemma ss_writes_queue k c0 sent0 acc ds s i pos :
  ss_writes k c0 sent0 acc ds s -> (pos <= length (ss_write_buf s))%nat ->
  sent (ss_inner s) `prefix_of` sent i ->
  sent i ++ drop pos (ss_write_buf s) = sent (ss_inner s) ++ drop (write_buf_pos s) (ss_write_buf s) ->
  ss_writes k c0 sent0 acc ds (set_queue i (ss_write_buf s) pos s).
Proof.
  intros [Hk Hh Hd Ha Hc Hp Hw Hg] Hpos Hpre Hs. split; cbn; try done; [by rewrite Hs|by etrans].
Qed.

Lemma drain_loop_ok k c0 sent0 acc ds fuel s s' r :
  ss_writes k c0 sent0 acc ds s -> (length (ss_write_buf s) - write_buf_pos s <= fuel)%nat ->
  drain_loop fuel s = (s', r) ->
  ss_writes k c0 sent0 acc ds s' /\ r <> Ready Panic /\ (r = Ready (Ok tt) -> drained s').
Proof.
  revert s. induction fuel as [|fuel IH]; intros s Hs Hf; cbn [drain_loop].
  all: case_match eqn:Hd; bool_hyps; [by intros [= <- <-]|].
  { lia. }
  assert (Hsame : forall i, sent i = sent (ss_inner s) ->
    ss_writes k c0 sent0 acc ds (set_queue i (ss_write_buf s) (write_buf_pos s) s)).
  { intros i Hi. apply ss_writes_queue; [done|lia|by rewrite Hi|by rewrite Hi]. }
  destruct (poll_write (ss_inner s) (drop (write_buf_pos s) (ss_write_buf s))) as [i [[[|n]|e|]|]] eqn:Hw.
  - intros [= <- <-]. split_and!; [|done..]. apply Hsame. apply poll_write_ok in Hw as [_ Hw].
    by rewrite Hw, take_0, app_nil_r.
  - apply poll_write_ok in Hw as [Hn Hw]. rewrite length_drop in Hn. apply IH.
    + apply ss_writes_queue; [done|lia|rewrite Hw; by eexists|]. rewrite Hw, <- app_assoc. f_equal. rewrite <- drop_drop. apply take_drop.
    + cbn. lia.
  - intros [= <- <-]. split_and!; [|done..]. apply Hsame. by eapply poll_write_not_ok.
  - by apply poll_write_no_panic in Hw.
  - intros [= <- <-]. split_and!; [|done..]. apply Hsame. by eapply poll_write_not_ok.
Qed.

Lemma drain_ok k c0 sent0 acc ds s s' r :
  ss_writes k c0 sent0 acc ds s -> drain s = (s', r) ->
  ss_writes k c0 sent0 acc ds s' /\ r <> Ready Panic /\ (r = Ready (Ok tt) -> drained s').
Proof. intros Hs. apply drain_loop_ok; [done|lia]. Qed.

Lemma clear_drained_ok k c0 sent0 acc ds s :
  ss_writes k c0 sent0 acc ds s ->
  ss_writes k c0 sent0 acc ds (clear_drained s) /\
  (drained s -> ss_write_buf (clear_drained s) = [] /\ write_buf_pos (clear_drained s) = 0%nat).
Proof.
  intros Hs. unfold clear_drained, drained. case_match eqn:Hd; bool_hyps; [|split; [done|lia]].
  split; [|done]. destruct Hs as [Hk Hh Hds Ha Hc Hp Hw Hg]. split; cbn; try done.
  by rewrite drop_ge, app_nil_r in Hw by lia; rewrite app_nil_r.
Qed.

Lemma append_ok k c0 sent0 acc ds s d s1 staged :
  ss_writes k c0 sent0 acc ds s -> chunk_ok d -> ss_write_buf s = [] -> write_buf_pos s = 0%nat ->
  append_encrypted_chunk (ss_write_buf s) d s = (s1, staged) ->
  ss_writes k c0 sent0 (acc ++ d) (ds ++ [d]) (set_queue (ss_inner s1) staged (write_buf_pos s1) s1).
Proof.
  intros [Hk Hh Hds Ha Hc Hp Hw Hg] Hd Hb Hpos. unfold append_encrypted_chunk. rewrite Hh, Hk, Hb, Hc.
  intros [= <- <-]. split; cbn; try done.
  - apply Forall_app. split; [done|]. by apply Forall_singleton.
  - rewrite concat_app, Ha. cbn. by rewrite app_nil_r.
  - by rewrite counter_after_snoc.
  - lia.
  - rewrite Hb, Hpos in Hw. cbn in Hw. rewrite app_nil_r in Hw. rewrite Hpos, drop_0, Hw, frames_snoc.
    rewrite <- app_assoc. done.
Qed.

Lemma ss_poll_write_ok k c0 sent0 acc s buf s' r :
  ss_accepted k c0 sent0 acc s -> buf <> [] -> ss_poll_write s buf = (s', r) ->
  match r with
  | Ready (Ok n) => n = Nat.min (length buf) MAX_CHUNK_SIZE /\ ss_accepted k c0 sent0 (acc ++ take n buf) s'
  | Ready (Err _) => True
  | Ready Panic => False
  | Pending => ss_accepted k c0 sent0 acc s'
  end.
Proof.
  intros [ds Hs] Hbuf. unfold ss_poll_write. destruct (drain s) as [s1 r1] eqn:Hd1.
  apply (drain_ok _ _ _ _ _ _ _ _ Hs) in Hd1 as (Hs1 & Hnp & Hdr).
  destruct r1 as [[[]|e|]|]; [|by intros [= <- <-]|done|intros [= <- <-]; by exists ds].
  destruct (clear_drained_ok _ _ _ _ _ _ Hs1) as [Hs2 Hclear]. destruct (Hclear (Hdr eq_refl)) as [Hb Hp].
  set (d := take (Nat.min (length buf) MAX_CHUNK_SIZE) buf).
  assert (Hlen : length d = Nat.min (length buf) MAX_CHUNK_SIZE) by (unfold d; rewrite length_take; lia).
  assert (Hok : chunk_ok d).
  { unfold chunk_ok. rewrite Hlen. destruct buf; [done|]. unfold MAX_CHUNK_SIZE. cbn [length]. lia. }
  destruct (append_encrypted_chunk (ss_write_buf (clear_drained s1)) d (clear_drained s1)) as [s3 staged] eqn:Ha.
  apply (append_ok _ _ _ _ _ _ _ _ _ Hs2 Hok Hb Hp) in Ha.
  set (s4 := set_queue _ staged _ s3) in *. destruct (drain s4) as [s5 r5] eqn:Hd5.
  apply (drain_ok _ _ _ _ _ _ _ _ Ha) in Hd5 as (Hs5 & Hnp5 & _).
  assert (Hfin : ss_accepted k c0 sent0 (acc ++ take (length d) buf) (clear_drained s5)).
  { rewrite Hlen. fold d. exists (ds ++ [d]). by apply clear_drained_ok. }
  destruct r5 as [[[]|e|]|]; [|by intros [= <- <-]|done|]; intros [= <- <-]; by rewrite Hlen in *.
Qed.

Lemma ss_poll_flush_ok k c0 sent0 acc s s' r :
  ss_accepted k c0 sent0 acc s -> ss_poll_flush s = (s', r) ->
  ss_accepted k c0 sent0 acc s' /\ (r = Ready (Ok tt) -> ss_write_buf s' = []).
Proof.
  intros [ds Hs]. unfold ss_poll_flush. destruct (drain s) as [s1 r1] eqn:Hd1.
  apply (drain_ok _ _ _ _ _ _ _ _ Hs) in Hd1 as (Hs1 & Hnp & Hdr).
  destruct r1 as [[[]|e|]|]; [|by intros [= <- <-]; split; [exists ds|]|done|by intros [= <- <-]; split; [exists ds|]].
  destruct (clear_drained_ok _ _ _ _ _ _ Hs1) as [Hs2 Hclear]. destruct (Hclear (Hdr eq_refl)) as [Hb Hp].
  destruct (poll_flush (ss_inner (clear_drained s1))) as [i r2] eqn:Hf. apply poll_flush_sent in Hf.
  intros [= <- <-]. split; [|done]. exists ds. apply ss_writes_queue; [done| |by rewrite Hf|by rewrite Hf].
  by apply Hs2.
Qed.

Lemma ss_poll_shutdown_ok k c0 sent0 acc s s' r :
  ss_accepted k c0 sent0 acc s -> ss_poll_shutdown s = (s', r) -> ss_accepted k c0 sent0 acc s'.
Proof.
  intros [ds Hs]. unfold ss_poll_shutdown. destruct (poll_shutdown (ss_inner s)) as [i r2] eqn:Hf.
  apply poll_shutdown_sent in Hf. intros [= <- <-]. exists ds. apply ss_writes_queue; [done| |by rewrite Hf|by rewrite Hf].
  by apply Hs.
Qed.
End Writer.

(** ** Both ends *)

Section Session.
Context `{HA : AeadLaws} {W R : Type} `{WriteSpec W} `{ReadSpec R}.

(** A writer in use: [acc] has been accepted. *)
Inductive ss_writing (w0 : Ss2022Stream W) : Ss2022Stream W -> bytes -> Prop :=
| ss_writing_start : ss_writing w0 w0 []
| ss_writing_write w acc buf w' n :
    ss_writing w0 w acc -> buf <> [] -> ss_poll_write w buf = (w', Ready (Ok n)) ->
    ss_writing w0 w' (acc ++ take n buf)
| ss_writing_wait w acc buf w' :
    ss_writing w0 w acc -> buf <> [] -> ss_poll_write w buf = (w', Pending) -> ss_writing w0 w' acc
| ss_writing_flush w acc w' r :
    ss_writing w0 w acc -> ss_poll_flush w = (w', r) -> ss_writing w0 w' acc
| ss_writing_shutdown w acc w' r :
    ss_writing w0 w acc -> ss_poll_shutdown w = (w', r) -> ss_writing w0 w' acc.

(** A reader in use: [out] has been read. *)
Inductive ss_read_from (r0 : Ss2022Stream R) : Ss2022Stream R -> bytes -> Prop :=
| ss_read_start : ss_read_from r0 r0 []
| ss_read_some r out fuel n r' c :
    ss_read_from r0 r out -> ss_read_loop fuel r n = Some (r', Ready (Ok c)) -> ss_read_from r0 r' (out ++ c)
| ss_read_wait r out fuel n r' :
    ss_read_from r0 r out -> ss_read_loop fuel r n = Some (r', Pending) -> ss_read_from r0 r' out.

Lemma ss_writing_accepted w0 k c0 w acc :
  ss_accepted k c0 (sent (ss_inner w0)) [] w0 -> ss_writing w0 w acc ->
  ss_accepted k c0 (sent (ss_inner w0)) acc w.
Proof.
  intros Hw0. induction 1 as [|w acc buf w' n _ IH Hb Hw|w acc buf w' _ IH Hb Hw|w acc w' r _ IH Hf|w acc w' r _ IH Hf].
  - done.
  - by apply (ss_poll_write_ok _ _ _ _ _ _ _ _ IH Hb) in Hw as [_ ?].
  - by apply (ss_poll_write_ok _ _ _ _ _ _ _ _ IH Hb) in Hw.
  - by apply (ss_poll_flush_ok _ _ _ _ _ _ _ IH) in Hf as [? _].
  - by apply (ss_poll_shutdown_ok _ _ _ _ _ _ _ IH) in Hf.
Qed.

Lemma new_bidir_accepted (i0 : W) rk rc wk wc init :
  ss_accepted (mkKey Aes256Gcm wk) wc (sent i0) [] (new_bidir i0 rk rc wk wc init None).
Proof. exists []. by split; cbn. Qed.

Lemma ss_read_from_reading r0 r out k full acc pre :
  ss_reading k full acc pre r0 -> ss_read_from r0 r out -> ss_reading k full acc (pre ++ out) r.
Proof.
  intros Hr0. induction 1 as [|r out fuel n r' c _ IH Hr|r out fuel n r' _ IH Hr].
  - by rewrite app_nil_r.
  - apply (ss_read_loop_ok _ _ _ _ _ _ _ _ _ IH) in Hr as [Hr _]. by rewrite app_assoc.
  - by apply (ss_read_loop_ok _ _ _ _ _ _ _ _ _ IH) in Hr.
Qed.

(** The peer of a writer: [head] is a first payload that it was given. *)
Lemma peer_reading k c0 sent0 acc w wire (j : R) head yk yc :
  ss_accepted k c0 sent0 acc w -> sent (ss_inner w) = sent0 ++ wire -> incoming j = wire ->
  key_alg k = Aes256Gcm ->
  ss_reading k (bool_decide (ss_write_buf w = [])) (head ++ acc) [] (new_bidir j (key_bytes k) c0 yk yc head None).
Proof.
  intros [ds [Hk Hh Hds Hacc Hc Hp Hw _]] Hs Hj Ha. rewrite Hs, <- app_assoc in Hw. apply app_inv_head in Hw.
  exists ds. split; cbn; try done.
  - destruct k as [a b]. cbn in *. by subst a.
  - by rewrite Hacc.
  - rewrite Hj, <- Hw. by exists (drop (write_buf_pos w) (ss_write_buf w)).
  - intros Hfull. bool_hyps. rewrite Hfull, drop_nil, app_nil_r in Hw. by rewrite Hj.
Qed.

End Session.

(** ** Handshake *)

Definition SUBKEY_CONTEXT : string := "shadowsocks 2022 session subkey".
Definition MAX_TIME_DIFF : Z := 30.
Definition TYPE_TCP : Z := 0.
Definition TYPE_SERVER : Z := 1.

(** [blake3::derive_key]. *)
Class Blake3 : Type := blake3_derive_key : string -> bytes -> bytes.

Section Handshake.
Context `{AeadCrate} `{Blake3}.

Definition derive_subkey (psk salt : bytes) : bytes := blake3_derive_key SUBKEY_CONTEXT (psk ++ salt).

(** [Aes256Gcm::encrypt] and [decrypt] with the nonces of the handshake. *)
Definition ss_encrypt (subkey : bytes) (counter : Z) (p : bytes) : bytes :=
  sealed (mkKey Aes256Gcm subkey) (make_nonce counter) [] p.

Definition ss_decrypt (what : string) (subkey : bytes) (counter : Z) (ct : bytes) : res ProxyError bytes :=
  match open_combined (mkKey Aes256Gcm subkey) (make_nonce counter) [] ct with
  | Some p => Ok p
  | None => Err (Protocol what)
  end.

Definition u64_from_be8 (b : bytes) : res ProxyError Z :=
  if (length b =? 8)%nat then Ok (be_val b) else Err (Protocol "SS-2022: timestamp field must be 8 bytes").

Definition request_fixed_header (ts : Z) (variable : bytes) : bytes :=
  TYPE_TCP :: be_bytes 8 ts ++ be_bytes 2 (as_u16 (zlen variable)).

(** What [open_ss2022_stream_with_initial_payload] sends, with its salt and the time. *)
Definition ss_request (psk salt : bytes) (ts : Z) (dest : Address) (initial_payload : bytes) :
    res ProxyError bytes :=
  let subkey := derive_subkey psk salt in
  variable ← SsHeader.build_request_variable_header dest initial_payload;
  Ok (salt ++ ss_encrypt subkey 0 (request_fixed_header ts variable) ++ ss_encrypt subkey 1 variable).

(** What [Ss2022Inbound::handle] reads before it answers: [now] in seconds of the clock,
    [instant] of the replay filter. *)
Definition ss_accept (psk : bytes) (replay : Replay.SaltReplay) (now instant : Z) :
    reader ProxyError (Replay.SaltReplay * Address * bytes * bytes) :=
  req_salt ← read_exact 32;
  let subkey := derive_subkey psk req_salt in
  fixed_ct ← read_exact 27;
  fixed ← lift (ss_decrypt "SS-2022: fixed header decrypt failed" subkey 0 fixed_ct);
  if negb (length fixed =? 11)%nat || negb (bool_decide (head fixed = Some TYPE_TCP))
  then lift (Err (Protocol "SS-2022: invalid request fixed header"))
  else
    ts ← lift (u64_from_be8 (take 8 (drop 1 fixed)));
    if MAX_TIME_DIFF <? Z.abs (ts - now) then lift (Err AuthFailed)
    else
      let variable_len := Z.to_nat (be_val (take 2 (drop 9 fixed))) in
      var_ct ← read_exact (variable_len + 16);
      variable ← lift (ss_decrypt "SS-2022: variable header decrypt failed" subkey 1 var_ct);
      '(dest, initial_payload) ← lift (SsHeader.parse_variable_header variable);
      let '(replay, fresh) := Replay.check_and_insert replay req_salt instant in
      if fresh then mret (replay, dest, initial_payload, req_salt) else lift (Err AuthFailed).

Definition build_response_fixed_header (ts : Z) (req_salt : bytes) : bytes :=
  TYPE_SERVER :: be_bytes 8 ts ++ req_salt ++ [0; 0].

(** What the server then sends. *)
Definition ss_response (psk resp_salt : bytes) (ts : Z) (req_salt : bytes) : bytes :=
  let subkey := derive_subkey psk resp_salt in
  resp_salt ++ ss_encrypt subkey 0 (build_response_fixed_header ts req_salt) ++ ss_encrypt subkey 1 [].

(** What the client reads of it: the first payload and the key of the server. *)
Definition ss_read_response (psk : bytes) (now : Z) : reader ProxyError (bytes * bytes) :=
  resp_salt ← read_exact 32;
  let subkey := derive_subkey psk resp_salt in
  resp_hdr_ct ← read_exact (43 + 16);
  resp_hdr ← lift (ss_decrypt "SS-2022: response header decrypt failed" subkey 0 resp_hdr_ct);
  if negb (length resp_hdr =? 43)%nat || negb (bool_decide (head resp_hdr = Some TYPE_SERVER))
  then lift (Err (Protocol "SS-2022: invalid response header type"))
  else
    resp_ts ← lift (u64_from_be8 (take 8 (drop 1 resp_hdr)));
    if MAX_TIME_DIFF <? Z.abs (resp_ts - now) then lift (Err AuthFailed)
    else
      let initial_len := Z.to_nat (be_val (take 2 (drop 41 resp_hdr))) in
      initial_ct ← read_exact (initial_len + 16);
      initial_pt ← lift (ss_decrypt "SS-2022: initial payload decrypt failed" subkey 1 initial_ct);
      mret (initial_pt, subkey).
End Handshake.

Section HandshakeFacts.
Context `{HA : AeadLaws} `{HB : Blake3}.

Lemma ss_decrypt_encrypt what subkey counter p : ss_decrypt what subkey counter (ss_encrypt subkey counter p) = Ok p.
Proof. unfold ss_decrypt, ss_encrypt. by rewrite open_combined_sealed. Qed.

Lemma ss_encrypt_length subkey counter p : length (ss_encrypt subkey counter p) = (length p + 16)%nat.
Proof. apply sealed_length. Qed.

(** The answer of the server to a request of a client that knows the key. *)
Definition answer (replay : Replay.SaltReplay) (salt : bytes) (ts now instant : Z) (dest : Address)
    (payload rest : bytes) : res ProxyError (Replay.SaltReplay * Address * bytes * bytes * bytes) :=
  if MAX_TIME_DIFF <? Z.abs (ts - now) then Err AuthFailed
  else
    let '(replay, fresh) := Replay.check_and_insert replay salt instant in
    if fresh then Ok (replay, dest, payload, salt, rest) else Err AuthFailed.

Lemma ss_accept_request psk salt ts dest payload variable req replay now instant rest :
  length salt = 32%nat -> in_u64 ts -> address_ok dest ->
  SsHeader.build_request_variable_header dest payload = Ok variable -> zlen variable < 2 ^ 16 ->
  ss_request psk salt ts dest payload = Ok req ->
  ss_accept psk replay now instant (req ++ rest) = answer replay salt ts now instant dest payload rest.
Proof.
  intros Hs Hts Hd Hv Hlen Hreq. unfold ss_request in Hreq. rewrite Hv in Hreq. mred in Hreq.
  injection Hreq as <-. unfold ss_accept, answer. rewrite <- !app_assoc.
  rewrite bind_read by done; cbv beta zeta.
  set (fixed := request_fixed_header ts variable).
  assert (Hf : length fixed = 11%nat) by (unfold fixed, request_fixed_header; cbn [length]; rewrite length_app, !length_be_bytes; done).
  rewrite bind_read by (by rewrite ss_encrypt_length, Hf); cbv beta zeta.
  rewrite ss_decrypt_encrypt. rewrite bind_lift; cbv beta zeta.
  rewrite Hf. cbn [Nat.eqb negb orb]. rewrite bool_decide_eq_true_2 by done. cbn [negb].
  assert (Ht : take 8 (drop 1 fixed) = be_bytes 8 ts).
  { unfold fixed, request_fixed_header. cbn [drop]. rewrite drop_0. apply take_app_length'. by rewrite length_be_bytes. }
  assert (Hl : take 2 (drop 9 fixed) = be_bytes 2 (as_u16 (zlen variable))).
  { unfold fixed, request_fixed_header. change (drop 9 (TYPE_TCP :: be_bytes 8 ts ++ be_bytes 2 (as_u16 (zlen variable))))
      with (drop 8 (be_bytes 8 ts ++ be_bytes 2 (as_u16 (zlen variable)))).
    rewrite drop_app_length' by (by rewrite length_be_bytes). apply take_ge. by rewrite length_be_bytes. }
  rewrite Ht, Hl. unfold u64_from_be8 at 1. rewrite length_be_bytes. cbn [Nat.eqb].
  rewrite (be_val_be_bytes_id 8 ts) by exact Hts.
  rewrite bind_lift; cbv beta zeta.
  case_match; [done|].
  assert (Hn : Z.to_nat (be_val (be_bytes 2 (as_u16 (zlen variable)))) = length variable).
  { pose proof (zlen_nonneg variable). unfold as_u16. rewrite Z.mod_small by (unfold in_u16; lia).
    rewrite be_bytes_2_val by (unfold in_u16; lia). unfold zlen. by rewrite Nat2Z.id. }
  rewrite Hn. rewrite bind_read by (by rewrite ss_encrypt_length); cbv beta zeta.
  rewrite ss_decrypt_encrypt. rewrite bind_lift; cbv beta zeta.
  rewrite (parse_built_header dest payload variable Hd Hv).
  rewrite bind_lift; cbv beta zeta.
  destruct (Replay.check_and_insert replay salt instant) as [r' []]; reflexivity.
Qed.

Lemma ss_read_response_ok psk resp_salt ts req_salt now rest :
  length resp_salt = 32%nat -> length req_salt = 32%nat -> in_u64 ts -> Z.abs (ts - now) <= MAX_TIME_DIFF ->
  ss_read_response psk now (ss_response psk resp_salt ts req_salt ++ rest) =
    Ok ([], derive_subkey psk resp_salt, rest).
Proof.
  intros Hs Hq Hts Hnow. unfold ss_response, ss_read_response. rewrite <- !app_assoc.
  rewrite bind_read by done; cbv beta zeta.
  set (hdr := build_response_fixed_header ts req_salt).
  assert (Hh : length hdr = 43%nat).
  { unfold hdr, build_response_fixed_header. cbn [length]. rewrite !length_app, length_be_bytes, Hq. done. }
  rewrite bind_read by (by rewrite ss_encrypt_length, Hh); cbv beta zeta.
  rewrite ss_decrypt_encrypt. rewrite bind_lift; cbv beta zeta.
  rewrite Hh. cbn [Nat.eqb negb orb]. rewrite bool_decide_eq_true_2 by done. cbn [negb].
  assert (Ht : take 8 (drop 1 hdr) = be_bytes 8 ts).
  { unfold hdr, build_response_fixed_header. cbn [drop]. rewrite drop_0. apply take_app_length'. by rewrite length_be_bytes. }
  assert (Hl : take 2 (drop 41 hdr) = [0; 0]).
  { unfold hdr, build_response_fixed_header. change (drop 41 (TYPE_SERVER :: ?l)) with (drop 40 l).
    rewrite app_assoc, drop_app_length' by (rewrite length_app, length_be_bytes, Hq; done). done. }
  rewrite Ht, Hl. unfold u64_from_be8. rewrite length_be_bytes. cbn [Nat.eqb].
  rewrite (be_val_be_bytes_id 8 ts) by exact Hts. rewrite bind_lift; cbv beta zeta.
  case_match; bool_hyps; [lia|]. change (Z.to_nat (be_val [0%Z; 0%Z]) + 16)%nat with 16%nat.
  rewrite bind_read by (by rewrite ss_encrypt_length); cbv beta zeta.
  by rewrite ss_decrypt_encrypt.
Qed.
End HandshakeFacts.

(** * The protocol *)

Section Protocol.
Context `{HA : AeadLaws} `{HB : Blake3} {W R : Type} `{WriteSpec W} `{ReadSpec R}.


(** The replay filter forgets a salt before the time check refuses it: a request
    whose timestamp is 30 seconds ahead of the server is accepted, and accepted again
    when it is replayed within the second in which the clock still shows 60 seconds
    later, after a round of the reaper. *)
Theorem ss2022_replay_gap psk salt ts dest payload variable req rest late :
  length salt = 32%nat -> in_u64 ts -> address_ok dest ->
  SsHeader.build_request_variable_header dest payload = Ok variable -> zlen variable < 2 ^ 16 ->
  ss_request psk salt ts dest payload = Ok req -> 0 <= late < Replay.NANOS ->
  let t1 := (ts - 30) * Replay.NANOS in
  let t2 := (ts + 30) * Replay.NANOS in
  exists r1 r2,
    ss_accept psk Replay.new (t1 / Replay.NANOS) t1 (req ++ rest) = Ok (r1, dest, payload, salt, rest) /\
    ss_accept psk (Replay.reap r1 t2) ((t2 + late) / Replay.NANOS) (t2 + late) (req ++ rest) =
      Ok (r2, dest, payload, salt, rest).
Proof.
  intros Hs Hts Hd Hv Hlen Hreq Hlate t1 t2.
  assert (Hci : forall replay now instant, ss_accept psk replay now instant (req ++ rest) =
    answer replay salt ts now instant dest payload rest) by (intros; by eapply ss_accept_request).
  exists (Replay.mkReplay {[salt := t1]}), (Replay.mkReplay {[salt := t2 + late]}). rewrite !Hci.
  assert (Ht1 : t1 / Replay.NANOS = ts - 30) by (by apply Z.div_mul).
  assert (Ht2 : (t2 + late) / Replay.NANOS = ts + 30).
  { unfold t2. rewrite Z.add_comm, Z.div_add, Z.div_small by done. lia. }
  unfold answer. rewrite Ht1, Ht2. unfold MAX_TIME_DIFF.
  replace (ts - (ts - 30)) with 30 by lia. replace (ts - (ts + 30)) with (-30) by lia. cbn [Z.abs Z.ltb Z.compare Pos.compare Pos.compare_cont].
  assert (Hreap : Replay.seen (Replay.reap (Replay.mkReplay {[salt := t1]}) t2) = ∅).
  { cbn. rewrite map_filter_singleton_False; [done|]. unfold t1, t2, Replay.NANOS, Replay.TTL_SECS. lia. }
  unfold Replay.check_and_insert. split.
  - done.
  - by rewrite Hreap, lookup_empty.
Qed.
End Protocol.

(** ** Writes that the peer does not understand *)

Section Edges.
Context `{HA : AeadLaws}.

(** An empty buffer is sealed as a chunk of its own: the peer takes its length for the
    end of the stream and leaves the tag of its data where the next length should be. *)
Lemma empty_chunk_desync k c rest :
  try_decrypt_chunk k c (frame k c [] ++ rest) =
    Some (Ok [], as_u64 (c + 1), sealed k (make_nonce (as_u64 (c + 1))) [] [] ++ rest).
Proof.
  unfold try_decrypt_chunk. rewrite length_app, chunk_frame_length. case_match; bool_hyps; [cbn in *; lia|].
  unfold frame. rewrite <- app_assoc.
  set (l := be_bytes 2 (as_u16 (zlen []))). pose proof (sealed_length k (make_nonce c) [] l) as Hl.
  assert (H2 : length l = 2%nat) by apply length_be_bytes. rewrite H2 in Hl. unfold TAG_LEN in Hl.
  rewrite (take_app_le _ _ 2), drop_app_le, take_app_length' by (rewrite ?length_drop; lia).
  pose proof (open_detached_sealed k (make_nonce c) [] l) as Ho. rewrite H2 in Ho. rewrite Ho.
  by rewrite drop_app_length' by lia.
Qed.

(** [poll_shutdown] does not write out what is queued. *)
Lemma shutdown_leaves_queue {W} `{WriteSpec W} (s s' : Ss2022Stream W) r :
  ss_poll_shutdown s = (s', r) -> ss_write_buf s' = ss_write_buf s /\ sent (ss_inner s') = sent (ss_inner s).
Proof.
  unfold ss_poll_shutdown. destruct (poll_shutdown (ss_inner s)) as [i x] eqn:E. apply poll_shutdown_sent in E.
  by intros [= <- _].
Qed.
End Edges.

(** ** A session on the toy cipher *)

#[local] Instance toy_blake3 : Blake3 := fun _ b => replicate 32 (mix b).

Definition toy_psk : bytes := replicate 32 5.
Definition toy_salt : bytes := replicate 32 6.
Definition toy_dest : Address := Ipv4 [1; 2; 3; 4] 443.
Definition toy_req : bytes := default [] (match ss_request toy_psk toy_salt 1000 toy_dest [42] with Ok r => Some r | _ => None end).
Definition toy_client : Ss2022Stream Script :=
  new_bidir (mkScript [] [Some 3%nat; None; Some 5%nat] toy_req) [] 2 (derive_subkey toy_psk toy_salt) 2 [] None.
Definition toy_sent : Ss2022Stream Script := (ss_poll_write toy_client [7; 8; 9]).1.
Definition toy_flushed : Ss2022Stream Script := (ss_poll_flush toy_sent).1.

Lemma toy_dest_ok : address_ok toy_dest.
Proof. unfold address_ok, bytes_ok, in_u8, in_u16, toy_dest; cbn. repeat first [split | constructor | lia]. Qed.


Lemma ss2022_replay_gap_witness :
  exists r1 r2,
    ss_accept toy_psk Replay.new 970 (970 * Replay.NANOS) toy_req = Ok (r1, toy_dest, [42], toy_salt, []) /\
    ss_accept toy_psk (Replay.reap r1 (1030 * Replay.NANOS)) 1030 (1030 * Replay.NANOS + 500) toy_req =
      Ok (r2, toy_dest, [42], toy_salt, []).
Proof.
  destruct (ss2022_replay_gap toy_psk toy_salt 1000 toy_dest [42] [1; 1; 2; 3; 4; 1; 187; 0; 0; 42] toy_req [] 500)
    as (r1 & r2 & H1 & H2).
  - reflexivity.
  - vm_compute. split; [discriminate|reflexivity].
  - apply toy_dest_ok.
  - reflexivity.
  - vm_compute. reflexivity.
  - vm_compute. reflexivity.
  - vm_compute. split; [discriminate|reflexivity].
  - rewrite app_nil_r in H1, H2. exists r1, r2. split; [exact H1|exact H2].
Defined.
