(* ===== verification/Vmess.v ===== *)
(** * VMess handshake

    [blackwire-protocol] [vmess]: the key derivation ([kdf.rs]), authentication
    identifiers ([auth.rs]), the request and response headers ([codec.rs]), the user
    registry and the handshake of [VmessInbound::handle] and [connect_vmess_on_stream].
    HMAC-SHA256, SHA-256, MD5, AES-128 and CRC-32 are interfaces with the laws that are
    used; random bytes and the clock are arguments. *)

From S2P Require Import Prelude Common Limits Aead.

(** ** Libraries *)

Class VmessCrates : Type := {
  hmac_sha256 : bytes -> bytes -> bytes;
  sha256 : bytes -> bytes;
  md5 : bytes -> bytes;
  aes128_encrypt_block : bytes -> bytes -> bytes;
  aes128_decrypt_block : bytes -> bytes -> bytes;
  crc32 : bytes -> Z
}.

Class VmessLaws `{VmessCrates} : Prop := {
  aes128_decrypt_encrypt k b : length b = 16%nat -> aes128_decrypt_block k (aes128_encrypt_block k b) = b;
  aes128_encrypt_length k b : length b = 16%nat -> length (aes128_encrypt_block k b) = 16%nat;
  crc32_range b : in_u32 (crc32 b)
}.

(** ** Key derivation ([kdf.rs]) *)

Definition VMESS_AEAD_KDF_SALT : bytes := str "VMess AEAD KDF".
Definition HMAC_BLOCK_SIZE : nat := 64.

Section Kdf.
Context `{VmessCrates}.

(** HMAC over the hash function [hash], as [hmac_with_kdf_hash] writes it out. *)
Definition hmac_with_hash (hash : bytes -> bytes) (key msg : bytes) : bytes :=
  let block_key :=
    if (HMAC_BLOCK_SIZE <? length key)%nat
    then let hashed_key := hash key in hashed_key ++ replicate (HMAC_BLOCK_SIZE - length hashed_key) 0
    else key ++ replicate (HMAC_BLOCK_SIZE - length key) 0 in
  let ipad := Z.lxor 54 <$> block_key in
  let opad := Z.lxor 92 <$> block_key in
  let inner := hash (ipad ++ msg) in
  hash (opad ++ inner).

(** [kdf_hash] goes from the last path to the first: the paths come in reverse order. *)
Fixpoint kdf_hash_rev (paths : list bytes) (msg : bytes) : bytes :=
  match paths with
  | [] => hmac_sha256 VMESS_AEAD_KDF_SALT msg
  | key :: hash_paths => hmac_with_hash (kdf_hash_rev hash_paths) key msg
  end.

Definition kdf_hash (paths : list bytes) (msg : bytes) : bytes := kdf_hash_rev (rev paths) msg.

(** [kdf::<N>]; [N] is 12 or 16 wherever it is used, below the 32 that is asserted. *)
Definition kdf (n : nat) (key : bytes) (paths : list bytes) : bytes := take n (kdf_hash paths key).

(** ** Authentication identifiers ([auth.rs]) *)

Definition MAX_TIME_DIFF_SECS : Z := 120.
Definition CMD_KEY_SALT : bytes := str "c48619fe-8f02-49e0-b9e9-edf763e17e21".
Definition KDF_AUTH_ID : bytes := str "AES Auth ID Encryption".

Definition cmd_key (uuid : bytes) : bytes := md5 (uuid ++ CMD_KEY_SALT).

(** With the four random bytes as an argument. *)
Definition generate_auth_id_at (cmd_key : bytes) (timestamp : Z) (random : bytes) : bytes :=
  let head := be_bytes 8 timestamp ++ random in
  let plaintext := head ++ be_bytes 4 (crc32 head) in
  let aes_key := kdf 16 cmd_key [KDF_AUTH_ID] in
  aes128_encrypt_block aes_key plaintext.

Definition validate_auth_id (cmd_key auth_id : bytes) (max_diff_secs now : Z) : bool :=
  let aes_key := kdf 16 cmd_key [KDF_AUTH_ID] in
  let block := aes128_decrypt_block aes_key auth_id in
  let expected_crc := crc32 (take 12 block) in
  let received_crc := be_val (take 4 (drop 12 block)) in
  if negb (expected_crc =? received_crc) then false
  else
    let timestamp := be_val (take 8 block) in
    Z.abs (now - timestamp) <=? max_diff_secs.
End Kdf.

(** ** Headers ([codec.rs]) *)

Definition PATH_LEN_KEY : bytes := str "VMess Header AEAD Key_Length".
Definition PATH_LEN_IV : bytes := str "VMess Header AEAD Nonce_Length".
Definition PATH_HDR_KEY : bytes := str "VMess Header AEAD Key".
Definition PATH_HDR_IV : bytes := str "VMess Header AEAD Nonce".
Definition PATH_RESP_LEN_KEY : bytes := str "AEAD Resp Header Len Key".
Definition PATH_RESP_LEN_IV : bytes := str "AEAD Resp Header Len IV".
Definition PATH_RESP_HDR_KEY : bytes := str "AEAD Resp Header Key".
Definition PATH_RESP_HDR_IV : bytes := str "AEAD Resp Header IV".

Inductive Security : Type := SecAes128Gcm | SecChaCha20Poly1305 | SecNone.

#[export] Instance Security_eq_dec : EqDecision Security.
Proof. solve_decision. Defined.

Definition Security_as_u8 (s : Security) : Z :=
  match s with SecAes128Gcm => 3 | SecChaCha20Poly1305 => 4 | SecNone => 5 end.

Definition Security_try_from (v : Z) : res ProxyError Security :=
  if v =? 3 then Ok SecAes128Gcm
  else if v =? 4 then Ok SecChaCha20Poly1305
  else if v =? 5 then Ok SecNone
  else Err (Protocol "VMess: unknown security byte").

Definition VM_ATYP_IPV4 : Z := 1.
Definition VM_ATYP_DOMAIN : Z := 2.
Definition VM_ATYP_IPV6 : Z := 3.

Inductive VmessCommand : Type := CmdTcp | CmdUdp | CmdMux.

#[export] Instance VmessCommand_eq_dec : EqDecision VmessCommand.
Proof. solve_decision. Defined.

Definition command_as_u8 (c : VmessCommand) : Z := match c with CmdTcp => 1 | CmdUdp => 2 | CmdMux => 3 end.

Definition command_from (b : Z) : res ProxyError VmessCommand :=
  if b =? 1 then Ok CmdTcp
  else if b =? 2 then Ok CmdUdp
  else if b =? 3 then Ok CmdMux
  else Err (Protocol "VMess: unknown command").

Definition MUX_DOMAIN : bytes := str "v1.mux.cool".

Record VmessRequest : Type := mkVmessRequest {
  vr_iv : bytes;
  vr_key : bytes;
  vr_v : Z;
  vr_options : Z;
  vr_security : Security;
  vr_command : VmessCommand;
  vr_dest : Address
}.

Definition fnv32a (data : bytes) : Z :=
  foldl (fun hash byte => as_u32 (Z.lxor hash byte * 16777619)) 2166136261 data.

(** The address field of a request, behind the port. *)
Definition encode_vmess_address (dest : Address) : res ProxyError bytes :=
  match dest with
  | Ipv4 ip port => Ok (be_bytes 2 port ++ [VM_ATYP_IPV4] ++ ip)
  | Ipv6 ip port => Ok (be_bytes 2 port ++ [VM_ATYP_IPV6] ++ ip)
  | Domain name port =>
      len ← domain_wire_len name;
      Ok (be_bytes 2 port ++ [VM_ATYP_DOMAIN] ++ [len] ++ name)
  end.

(** With the random padding as an argument, of [pad_len] bytes. *)
Definition build_request_plaintext (iv key : bytes) (v : Z) (pad : bytes) (security : Security)
    (command : VmessCommand) (dest : Address) : res ProxyError bytes :=
  let pad_len := zlen pad in
  addr ← encode_vmess_address dest;
  let buf := [1] ++ iv ++ key ++
    [v; 1; Z.lor (as_u8 (Z.shiftl pad_len 4)) (Security_as_u8 security); 0; command_as_u8 command] ++
    addr ++ pad in
  Ok (buf ++ be_bytes 4 (fnv32a buf)).

(** The address at [pos], and the position behind it. *)
Definition read_vmess_address (data : bytes) (pos : nat) (atyp port : Z) : res ProxyError (Address * nat) :=
  if atyp =? VM_ATYP_IPV4 then
    if (length data <? pos + 4)%nat then Err (Protocol "VMess: truncated IPv4")
    else ip ← slice data pos (pos + 4); Ok (Ipv4 ip port, (pos + 4)%nat)
  else if atyp =? VM_ATYP_IPV6 then
    if (length data <? pos + 16)%nat then Err (Protocol "VMess: truncated IPv6")
    else ip ← slice data pos (pos + 16); Ok (Ipv6 ip port, (pos + 16)%nat)
  else if atyp =? VM_ATYP_DOMAIN then
    if (length data <=? pos)%nat then Err (Protocol "VMess: truncated domain len")
    else
      b ← idx data pos;
      let dlen := Z.to_nat b in
      let pos := (pos + 1)%nat in
      if (length data <? pos + dlen)%nat then Err (Protocol "VMess: truncated domain")
      else
        name ← slice data pos (pos + dlen);
        if utf8_valid name then Ok (Domain name port, (pos + dlen)%nat)
        else Err (Protocol "VMess: domain not UTF-8")
  else Err (Protocol "VMess: unknown ATYP").

Definition read_u32_be (data : bytes) (pos : nat) : res ProxyError Z :=
  if (length data <? pos + 4)%nat then Err (Protocol "VMess: truncated u32 field")
  else idx32 data pos.

(** The destination that starts at [pos], behind the port. *)
Definition decode_dest (command : VmessCommand) (data : bytes) (pos : nat) (port : Z) :
    res ProxyError (Address * nat) :=
  match command with
  | CmdTcp | CmdUdp =>
      if (length data <=? pos)%nat then Err (Protocol "VMess: truncated at atyp")
      else atyp ← idx data pos; read_vmess_address data (pos + 1) atyp port
  | CmdMux =>
      if (length data <=? pos)%nat then Ok (Domain MUX_DOMAIN port, pos)
      else
        atyp ← idx data pos;
        if atyp =? 0 then Ok (Domain MUX_DOMAIN port, (pos + 1)%nat)
        else
          '(_, pos) ← read_vmess_address data (pos + 1) atyp port;
          Ok (Domain MUX_DOMAIN port, pos)
  end.

Definition decode_plaintext (data : bytes) : res ProxyError VmessRequest :=
  if (length data <? 38)%nat then Err (Protocol "VMess: header too short")
  else
    ver ← idx data 0;
    if negb (ver =? 1) then Err (Protocol "VMess: unexpected version")
    else
      iv ← slice data 1 17;
      key ← slice data 17 33;
      v ← idx data 33;
      options ← idx data 34;
      pad_sec ← idx data 35;
      let pad_len := Z.to_nat (Z.shiftr pad_sec 4) in
      security ← Security_try_from (Z.land pad_sec 15);
      cmd ← idx data 37;
      command ← command_from cmd;
      if (length data <? 38 + 2)%nat then Err (Protocol "VMess: truncated at port")
      else
        port ← idx16 data 38;
        '(dest, pos) ← decode_dest command data 40 port;
        let pos := (pos + pad_len)%nat in
        if (length data <? pos + 4)%nat then Err (Protocol "VMess: truncated checksum")
        else
          covered ← slice data 0 pos;
          received ← read_u32_be data pos;
          if negb (fnv32a covered =? received) then Err (Protocol "VMess: header checksum mismatch")
          else Ok (mkVmessRequest iv key v options security command dest).

Section Headers.
Context `{VmessCrates} `{AeadCrate}.

Definition response_body_key (request_key : bytes) : bytes := take 16 (sha256 request_key).
Definition response_body_iv (request_iv : bytes) : bytes := take 16 (sha256 request_iv).

Definition vmess_aead_encrypt (key nonce msg aad : bytes) : bytes :=
  sealed (mkKey Aes128Gcm key) nonce aad msg.

Definition vmess_aead_decrypt (key nonce ciphertext aad : bytes) (err : string) : res ProxyError bytes :=
  match open_combined (mkKey Aes128Gcm key) nonce aad ciphertext with
  | Some p => Ok p
  | None => Err (Protocol err)
  end.

(** What is drawn at random for a request. *)
Record request_random : Type := mkRandom {
  rnd_iv : bytes;
  rnd_key : bytes;
  rnd_v : Z;
  rnd_nonce : bytes;
  rnd_pad : bytes
}.

(** The encrypted length and the encrypted header of a request. *)
Definition encode_header_with_command (cmd_key auth_id : bytes) (command : VmessCommand) (dest : Address)
    (security : Security) (rnd : request_random) : res ProxyError (bytes * bytes) :=
  plaintext ← build_request_plaintext (rnd_iv rnd) (rnd_key rnd) (rnd_v rnd) (rnd_pad rnd) security command dest;
  let hdr_key := kdf 16 cmd_key [PATH_HDR_KEY; auth_id; rnd_nonce rnd] in
  let hdr_nonce := kdf 12 cmd_key [PATH_HDR_IV; auth_id; rnd_nonce rnd] in
  let enc_header := vmess_aead_encrypt hdr_key hdr_nonce plaintext auth_id in
  let len_key := kdf 16 cmd_key [PATH_LEN_KEY; auth_id; rnd_nonce rnd] in
  let len_nonce := kdf 12 cmd_key [PATH_LEN_IV; auth_id; rnd_nonce rnd] in
  let enc_len := vmess_aead_encrypt len_key len_nonce (be_bytes 2 (as_u16 (zlen plaintext))) auth_id in
  Ok (enc_len, enc_header).

Definition encode_header (cmd_key auth_id : bytes) (dest : Address) (security : Security) (rnd : request_random) :
    res ProxyError (bytes * bytes) :=
  encode_header_with_command cmd_key auth_id CmdTcp dest security rnd.

Definition decrypt_length_field (cmd_key auth_id connection_nonce enc : bytes) : res ProxyError nat :=
  let key := kdf 16 cmd_key [PATH_LEN_KEY; auth_id; connection_nonce] in
  let nonce := kdf 12 cmd_key [PATH_LEN_IV; auth_id; connection_nonce] in
  plaintext ← vmess_aead_decrypt key nonce enc auth_id "VMess: length field decryption failed";
  if (length plaintext <? 2)%nat then Err (Protocol "VMess: length field too short")
  else len ← idx16 plaintext 0; Ok (Z.to_nat len).

Definition decode_header (cmd_key auth_id connection_nonce : bytes) (enc_len : nat) :
    reader ProxyError VmessRequest :=
  ciphertext ← read_exact (enc_len + 16);
  let key := kdf 16 cmd_key [PATH_HDR_KEY; auth_id; connection_nonce] in
  let nonce := kdf 12 cmd_key [PATH_HDR_IV; auth_id; connection_nonce] in
  plaintext ← lift (vmess_aead_decrypt key nonce ciphertext auth_id "VMess: AEAD header decryption failed");
  lift (decode_plaintext plaintext).

(** The bytes that [send_response_header] writes. *)
Definition send_response_header (v : Z) (resp_body_key resp_body_iv : bytes) : bytes :=
  let plaintext := [v; 0; 0; 0] in
  let enc_len := vmess_aead_encrypt (kdf 16 resp_body_key [PATH_RESP_LEN_KEY])
    (kdf 12 resp_body_iv [PATH_RESP_LEN_IV]) (be_bytes 2 (as_u16 (zlen plaintext))) [] in
  let enc_hdr := vmess_aead_encrypt (kdf 16 resp_body_key [PATH_RESP_HDR_KEY])
    (kdf 12 resp_body_iv [PATH_RESP_HDR_IV]) plaintext [] in
  enc_len ++ enc_hdr.

Definition read_response_header (expected_v : Z) (resp_body_key resp_body_iv : bytes) : reader ProxyError unit :=
  enc_len ← read_exact 18;
  len_pt ← lift (vmess_aead_decrypt (kdf 16 resp_body_key [PATH_RESP_LEN_KEY])
    (kdf 12 resp_body_iv [PATH_RESP_LEN_IV]) enc_len [] "VMess: resp len decrypt failed");
  payload_len ← lift (idx16 len_pt 0);
  enc_hdr ← read_exact (Z.to_nat payload_len + 16);
  hdr_pt ← lift (vmess_aead_decrypt (kdf 16 resp_body_key [PATH_RESP_HDR_KEY])
    (kdf 12 resp_body_iv [PATH_RESP_HDR_IV]) enc_hdr [] "VMess: resp header decrypt failed");
  let got_v := default 0 (head hdr_pt) in
  if got_v =? expected_v then mret tt
  else lift (Err (Protocol "VMess: response V mismatch")).

(** ** Users ([inbound.rs])

    A [DashMap] from the key of a user; it is iterated in no particular order. *)
Record VmessUser : Type := mkVmessUser {
  vu_uuid : bytes;
  vu_cmd_key : bytes;
  vu_email : bytes
}.

Definition VmessUserRegistry : Type := gmap bytes VmessUser.

Definition vmess_add_user (r : VmessUserRegistry) (uuid email : bytes) : VmessUserRegistry :=
  let key := cmd_key uuid in <[key := mkVmessUser uuid key email]> r.

Definition vmess_clear (r : VmessUserRegistry) : VmessUserRegistry := ∅.

Fixpoint find_validated (auth_id : bytes) (now : Z) (entries : list (bytes * VmessUser)) : option VmessUser :=
  match entries with
  | [] => None
  | (key, user) :: entries =>
      if validate_auth_id key auth_id MAX_TIME_DIFF_SECS now then Some user
      else find_validated auth_id now entries
  end.

Definition find_by_auth (r : VmessUserRegistry) (auth_id : bytes) (now : Z) : option VmessUser :=
  find_validated auth_id now (map_to_list r).

(** ** Handshake *)

(** What [VmessInbound::handle] reads before it answers. *)
Definition vmess_accept (r : VmessUserRegistry) (now : Z) : reader ProxyError (VmessUser * VmessRequest) :=
  auth_id ← read_exact 16;
  user ← lift (of_option AuthFailed (find_by_auth r auth_id now));
  enc_len ← read_exact 18;
  connection_nonce ← read_exact 8;
  header_len ← lift (decrypt_length_field (vu_cmd_key user) auth_id connection_nonce enc_len);
  request ← decode_header (vu_cmd_key user) auth_id connection_nonce header_len;
  mret (user, request).

(** What it does then. *)
Inductive VmessServe : Type :=
| Dropped
| ServeUdp (dest : Address) (response resp_key resp_iv : bytes)
| ServeMux (response resp_key resp_iv : bytes)
| ServeDispatch (dest : Address) (response resp_key resp_iv : bytes).

Definition vmess_serve (limiter : option Limiter.UserConnectionLimiter) (user : VmessUser)
    (request : VmessRequest) : res ProxyError (option Limiter.UserConnectionLimiter * VmessServe) :=
  match vr_security request with
  | SecNone => Err (Protocol "VMess: unauthenticated body security is not accepted by inbound")
  | _ =>
      let resp_key := response_body_key (vr_key request) in
      let resp_iv := response_body_iv (vr_iv request) in
      let response := send_response_header (vr_v request) resp_key resp_iv in
      let go :=
        match vr_command request with
        | CmdUdp => ServeUdp (vr_dest request) response resp_key resp_iv
        | CmdMux => ServeMux response resp_key resp_iv
        | CmdTcp => ServeDispatch (vr_dest request) response resp_key resp_iv
        end in
      match limiter with
      | Some l =>
          match Limiter.try_acquire l (Some (vu_email user)) with
          | (l, Some _) => Ok (Some l, go)
          | (l, None) => Ok (Some l, Dropped)
          end
      | None => Ok (None, go)
      end
  end.

(** What [connect_vmess_on_stream] sends. *)
Definition vmess_request (cmd_key : bytes) (timestamp : Z) (random : bytes) (dest : Address)
    (rnd : request_random) : res ProxyError bytes :=
  let auth_id := generate_auth_id_at cmd_key timestamp random in
  '(encrypted_len, header_ct) ← encode_header cmd_key auth_id dest SecAes128Gcm rnd;
  Ok (auth_id ++ encrypted_len ++ rnd_nonce rnd ++ header_ct).

(** What it reads of the answer. *)
Definition vmess_read_response (rnd : request_random) : reader ProxyError unit :=
  read_response_header (rnd_v rnd) (response_body_key (rnd_key rnd)) (response_body_iv (rnd_iv rnd)).
End Headers.

(** * Facts *)

(** ** Key derivation *)

(** HMAC over HMAC over ... over HMAC-SHA256 with the salt, one level for each path. *)
Lemma kdf_hash_nested `{VmessCrates} paths msg :
  kdf_hash paths msg = foldl hmac_with_hash (hmac_sha256 VMESS_AEAD_KDF_SALT) paths msg.
Proof.
  revert msg. induction paths as [|p paths IH] using rev_ind; intros msg; [done|].
  rewrite foldl_app. cbn [foldl]. unfold kdf_hash. rewrite rev_app_distr. cbn [rev app kdf_hash_rev].
  unfold hmac_with_hash. change (kdf_hash_rev (rev paths)) with (kdf_hash paths). by rewrite !IH.
Qed.

(** ** The request header *)

Lemma pad_sec_fields n s : 0 <= n < 16 ->
  let b := Z.lor (as_u8 (Z.shiftl n 4)) (Security_as_u8 s) in
  Z.shiftr b 4 = n /\ Security_try_from (Z.land b 15) = Ok s.
Proof.
  intros Hn. assert (Hc : Forall (fun n => Z.shiftr (Z.lor (as_u8 (Z.shiftl n 4)) (Security_as_u8 s)) 4 = n /\
    Security_try_from (Z.land (Z.lor (as_u8 (Z.shiftl n 4)) (Security_as_u8 s)) 15) = Ok s) (seqZ 0 16)).
  { let l := eval vm_compute in (seqZ 0 16) in change (seqZ 0 16) with l.
    destruct s; repeat (apply Forall_cons; split; [split; reflexivity|]); apply Forall_nil; done. }
  rewrite Forall_forall in Hc. apply Hc. apply elem_of_seqZ. lia.
Qed.

Lemma command_from_as_u8 c : command_from (command_as_u8 c) = Ok c.
Proof. by destruct c. Qed.

(** The address that was encoded is read back, wherever it stands. *)
Lemma encoded_address dest addr :
  address_ok dest -> encode_vmess_address dest = Ok addr ->
  exists atyp body, addr = be_bytes 2 (port dest) ++ atyp :: body /\ atyp <> 0 /\
    forall pre rest, read_vmess_address (pre ++ body ++ rest) (length pre) atyp (port dest) =
      Ok (dest, (length pre + length body)%nat).
Proof.
  intros [Hp Ha]. destruct dest as [i p|i p|d p]; cbn -[be_bytes].
  - intros [= <-]. destruct Ha as [_ Hl]. exists VM_ATYP_IPV4, i. split_and!; [done..|]. intros pre rest.
    unfold read_vmess_address. cbn [Z.eqb VM_ATYP_IPV4 Pos.eqb]. rewrite !length_app, Hl.
    case_match; bool_hyps; [lia|]. rewrite slice_mid by lia. done.
  - intros [= <-]. destruct Ha as [_ Hl]. exists VM_ATYP_IPV6, i. split_and!; [done..|]. intros pre rest.
    unfold read_vmess_address. change (VM_ATYP_IPV6 =? VM_ATYP_IPV4) with false. rewrite Z.eqb_refl, !length_app, Hl.
    case_match; bool_hyps; [lia|]. rewrite slice_mid by lia. done.
  - unfold domain_wire_len. case_match; [done|]. mred. intros [= <-]. bool_hyps. destruct Ha as [_ Hu].
    assert (Hz : as_u8 (zlen d) = zlen d) by (apply Z.mod_small; pose proof (zlen_nonneg d); lia). rewrite Hz.
    exists VM_ATYP_DOMAIN, (zlen d :: d). split_and!; [done..|]. intros pre rest.
    unfold read_vmess_address. change (VM_ATYP_DOMAIN =? VM_ATYP_IPV4) with false.
    change (VM_ATYP_DOMAIN =? VM_ATYP_IPV6) with false. rewrite Z.eqb_refl, !length_app. cbn [length].
    case_match; bool_hyps; [lia|]. cbn [app]. rewrite idx_app_mid by done. mred.
    rewrite zlen_to_nat. case_match; bool_hyps; [lia|].
    change (zlen d :: d ++ rest) with ([zlen d] ++ d ++ rest). rewrite app_assoc.
    rewrite slice_mid by (rewrite ?length_app; cbn; lia). mred. rewrite Hu. cbn [length]. do 2 f_equal. lia.
Qed.

(** What the server makes of the destination: a Mux request has none of its own. *)
Definition served_dest (command : VmessCommand) (dest : Address) : Address :=
  match command with CmdMux => Domain MUX_DOMAIN (port dest) | _ => dest end.

Lemma decode_dest_encoded command dest addr pre rest :
  address_ok dest -> encode_vmess_address dest = Ok addr ->
  exists l, length addr = (2 + l)%nat /\ idx16 (E := ProxyError) (pre ++ addr ++ rest) (length pre) = Ok (port dest) /\
    decode_dest command (pre ++ addr ++ rest) (length pre + 2) (port dest) =
      Ok (served_dest command dest, (length pre + 2 + l)%nat).
Proof.
  intros Hok Henc. destruct (encoded_address _ _ Hok Henc) as (atyp & body & -> & Hz & Hread).
  exists (1 + length body)%nat. destruct Hok as [Hp _]. split_and!.
  - rewrite length_app, length_be_bytes. cbn. lia.
  - rewrite <- app_assoc. by rewrite idx16_be_bytes.
  - specialize (Hread (pre ++ be_bytes 2 (port dest) ++ [atyp]) rest).
    rewrite <- !app_assoc in Hread. cbn [app] in Hread. rewrite !length_app, length_be_bytes in Hread. cbn [length] in Hread.
    replace (length pre + (2 + 1))%nat with (length pre + 2 + 1)%nat in Hread by lia.
    rewrite <- app_assoc. cbn [app]. unfold decode_dest. rewrite !length_app, length_be_bytes. cbn [length].
    rewrite app_assoc, idx_app_mid by (rewrite length_app, length_be_bytes; lia). rewrite <- app_assoc. mred.
    rewrite (proj2 (Nat.leb_gt _ _)) by lia. rewrite Hread, (proj2 (Z.eqb_neq _ _) Hz).
    destruct command; mred; cbn [served_dest]; do 2 f_equal; lia.
Qed.

Lemma fnv32a_range l : in_u32 (fnv32a l).
Proof.
  unfold fnv32a. assert (H : in_u32 2166136261) by (unfold in_u32; lia). revert H. generalize 2166136261.
  induction l as [|b l IH]; intros h Hh; [done|]. cbn. apply IH. unfold in_u32, as_u32. by apply Z.mod_pos_bound.
Qed.

(** The decoder reads back what [build_request_plaintext] writes. *)
Lemma decode_build iv key v pad security command dest plaintext :
  length iv = 16%nat -> length key = 16%nat -> (length pad < 16)%nat -> address_ok dest ->
  build_request_plaintext iv key v pad security command dest = Ok plaintext ->
  decode_plaintext plaintext = Ok (mkVmessRequest iv key v 1 security command (served_dest command dest)).
Proof.
  intros Hiv Hkey Hpad Hd. unfold build_request_plaintext.
  destruct (encode_vmess_address dest) as [addr| |] eqn:Henc; [|done|done]. mred.
  set (ps := Z.lor _ _). destruct (pad_sec_fields (zlen pad) security) as [Hps Hsec]; [unfold zlen; lia|]. fold ps in Hps, Hsec.
  set (h := [1] ++ iv ++ key). set (mid := [v; 1; ps; 0; command_as_u8 command]).
  assert (Hh : length h = 33%nat) by (unfold h; rewrite !length_app, Hiv, Hkey; done).
  assert (Hm : length (h ++ mid) = 38%nat) by (rewrite length_app, Hh; done).
  set (buf := [1] ++ iv ++ key ++ mid ++ addr ++ pad). set (crc := be_bytes 4 (fnv32a buf)).
  assert (Hbuf : buf = (h ++ mid) ++ addr ++ pad) by (unfold buf, h; by rewrite <- !app_assoc).
  intros <-%Ok_inj.
  destruct (decode_dest_encoded command dest addr (h ++ mid) (pad ++ crc) Hd Henc) as (l & Hl & Hport & Hdest).
  rewrite Hm in Hport, Hdest. change (38 + 2)%nat with 40%nat in Hdest.
  assert (Hdata : buf ++ crc = (h ++ mid) ++ addr ++ pad ++ crc) by (rewrite Hbuf; by rewrite <- !app_assoc).
  assert (Hlen : length (buf ++ crc) = (38 + (2 + l) + length pad + 4)%nat).
  { rewrite Hdata, !length_app, Hl. unfold crc. rewrite length_be_bytes, Hh. cbn. lia. }
  assert (Hidx : forall i, (i < 5)%nat -> idx (E := ProxyError) (buf ++ crc) (33 + i) = idx mid i).
  { intros i Hi. rewrite Hdata, <- app_assoc, idx_app_r by done. unfold idx. by rewrite lookup_app_l by done. }
  unfold decode_plaintext. rewrite Hlen. case_match; bool_hyps; [lia|].
  assert (Hver : idx (E := ProxyError) (buf ++ crc) 0 = Ok 1) by done. rewrite Hver. mred. rewrite Z.eqb_refl. cbn [negb].
  assert (Hs1 : slice (E := ProxyError) (buf ++ crc) 1 17 = Ok iv).
  { unfold buf. rewrite <- !app_assoc. apply slice_mid; [done|by rewrite Hiv]. }
  assert (Hs2 : slice (E := ProxyError) (buf ++ crc) 17 33 = Ok key).
  { unfold buf. rewrite <- !app_assoc, (app_assoc [1] iv). apply slice_mid; [rewrite length_app; cbn; lia|by rewrite Hkey]. }
  rewrite Hs1. mred. rewrite Hs2. mred.
  rewrite (Hidx 0%nat ltac:(lia) : idx _ 33 = Ok v). mred.
  rewrite (Hidx 1%nat ltac:(lia) : idx _ 34 = Ok 1). mred.
  rewrite (Hidx 2%nat ltac:(lia) : idx _ 35 = Ok ps). mred. rewrite Hsec. mred.
  rewrite (Hidx 4%nat ltac:(lia) : idx _ 37 = Ok (command_as_u8 command)). mred. rewrite command_from_as_u8. mred.
  rewrite (proj2 (Nat.ltb_ge _ _)) by lia. rewrite Hdata, Hport. mred. rewrite Hdest. mred. rewrite <- Hdata.
  rewrite Hps, zlen_to_nat. rewrite (proj2 (Nat.ltb_ge _ _)) by lia.
  assert (Hpos : (40 + l + length pad)%nat = length buf).
  { rewrite length_app in Hlen. unfold crc in Hlen. rewrite length_be_bytes in Hlen. lia. }
  rewrite Hpos, slice_prefix by done. mred. unfold read_u32_be. rewrite length_app.
  rewrite (proj2 (Nat.ltb_ge _ _)) by (unfold crc; rewrite length_be_bytes; lia).
  rewrite <- (app_nil_r crc). unfold crc. rewrite idx32_be_bytes by (try done; apply fnv32a_range). mred.
  by rewrite Z.eqb_refl.
Qed.

(** ** Authentication *)

Section HandshakeFacts.
Context `{HV : VmessLaws} `{HA : AeadLaws}.

Lemma auth_id_length key ts random : length random = 4%nat -> length (generate_auth_id_at key ts random) = 16%nat.
Proof.
  intros Hr. apply aes128_encrypt_length. rewrite !length_app, !length_be_bytes, Hr. done.
Qed.

(** An identifier is accepted by the key it was made with, while the clocks agree. *)
Lemma validate_generated key ts random max now :
  in_u64 ts -> length random = 4%nat ->
  validate_auth_id key (generate_auth_id_at key ts random) max now = (Z.abs (now - ts) <=? max).
Proof.
  intros Hts Hr. unfold validate_auth_id, generate_auth_id_at.
  rewrite aes128_decrypt_encrypt by (rewrite !length_app, !length_be_bytes, Hr; done).
  set (h := be_bytes 8 ts ++ random). assert (Hh : length h = 12%nat) by (unfold h; rewrite length_app, length_be_bytes, Hr; done).
  rewrite take_app_length', drop_app_length' by done. rewrite (take_ge (be_bytes 4 _)) by (by rewrite length_be_bytes).
  rewrite be_bytes_4_val by apply crc32_range. rewrite Z.eqb_refl. cbn [negb].
  rewrite take_app_le by (rewrite Hh; lia). unfold h. rewrite take_app_length' by (by rewrite length_be_bytes).
  by rewrite (be_val_be_bytes_id 8 ts) by exact Hts.
Qed.

Lemma find_validated_spec auth now l :
  match find_validated auth now l with
  | Some u => exists k, (k, u) ∈ l /\ validate_auth_id k auth MAX_TIME_DIFF_SECS now = true
  | None => forall k u, (k, u) ∈ l -> validate_auth_id k auth MAX_TIME_DIFF_SECS now = false
  end.
Proof.
  induction l as [|[k u] l IH]; cbn; [set_solver|].
  destruct (validate_auth_id k auth MAX_TIME_DIFF_SECS now) eqn:E; [exists k; set_solver|].
  destruct (find_validated auth now l) as [w|]; [destruct IH as (k' & ? & ?); exists k'; set_solver|].
  intros k' u' Hin. apply elem_of_cons in Hin as [[= -> ->]|]; eauto.
Qed.

(** Every user is found under the key that is derived from its identifier. *)
Definition registry_ok (r : VmessUserRegistry) : Prop :=
  forall k u, r !! k = Some u -> vu_cmd_key u = k /\ k = cmd_key (vu_uuid u).

Lemma registry_add_ok r uuid email : registry_ok r -> registry_ok (vmess_add_user r uuid email).
Proof.
  intros Hr k u. unfold vmess_add_user. intros [[<- <-]|[_ ?]]%lookup_insert_Some; [done|by apply Hr].
Qed.

Lemma registry_clear_ok r : registry_ok (vmess_clear r).
Proof. by intros k u. Qed.

(** No two users share an identifier that both accept. *)
Definition identifies (r : VmessUserRegistry) (auth : bytes) (now : Z) (user : VmessUser) : Prop :=
  r !! vu_cmd_key user = Some user /\
  forall k u, r !! k = Some u -> validate_auth_id k auth MAX_TIME_DIFF_SECS now = true -> u = user.

Lemma find_by_auth_identified r user ts random now :
  let auth := generate_auth_id_at (vu_cmd_key user) ts random in
  in_u64 ts -> length random = 4%nat -> registry_ok r -> identifies r auth now user ->
  find_by_auth r auth now = if Z.abs (now - ts) <=? MAX_TIME_DIFF_SECS then Some user else None.
Proof.
  cbv zeta. intros Hts Hr Hok [Hin Huniq].
  rewrite <- (validate_generated (vu_cmd_key user) ts random MAX_TIME_DIFF_SECS now Hts Hr).
  set (auth := generate_auth_id_at _ _ _) in *. unfold find_by_auth.
  pose proof (find_validated_spec auth now (map_to_list r)) as Hf.
  destruct (find_validated auth now (map_to_list r)) as [w|].
  - destruct Hf as (k & Hk%elem_of_map_to_list & Hval). pose proof (Huniq _ _ Hk Hval) as ->.
    destruct (Hok _ _ Hk) as [-> _]. by rewrite Hval.
  - by rewrite (Hf _ _ (proj2 (elem_of_map_to_list _ _ _) Hin)).
Qed.

Lemma vmess_decrypt_encrypt key nonce msg aad err :
  vmess_aead_decrypt key nonce (vmess_aead_encrypt key nonce msg aad) aad err = Ok msg.
Proof. unfold vmess_aead_decrypt, vmess_aead_encrypt. by rewrite open_combined_sealed. Qed.

Lemma vmess_encrypt_length key nonce msg aad : length (vmess_aead_encrypt key nonce msg aad) = (length msg + 16)%nat.
Proof. apply sealed_length. Qed.

Lemma idx16_be_bytes_nil {E} x : in_u16 x -> idx16 (E := E) (be_bytes 2 x) 0 = Ok x.
Proof. intros Hx. rewrite <- (app_nil_r (be_bytes 2 x)). by apply idx16_be_bytes_0. Qed.

Definition random_ok (rnd : request_random) : Prop :=
  length (rnd_iv rnd) = 16%nat /\ length (rnd_key rnd) = 16%nat /\ length (rnd_nonce rnd) = 8%nat /\
  (length (rnd_pad rnd) < 16)%nat.

(** The length field of a header is exact: the longest header has 333 bytes. *)
Lemma plaintext_short iv key v pad security command dest plaintext :
  length iv = 16%nat -> length key = 16%nat -> (length pad < 16)%nat -> address_ok dest ->
  build_request_plaintext iv key v pad security command dest = Ok plaintext -> zlen plaintext <= 333.
Proof.
  intros Hiv Hkey Hpad [_ Hd]. unfold build_request_plaintext.
  destruct (encode_vmess_address dest) as [addr| |] eqn:Henc; [|done|done]. mred. intros <-%Ok_inj.
  assert (Ha : (length addr <= 259)%nat).
  { destruct dest as [i p|i p|d p]; cbn -[be_bytes] in Henc.
    1, 2: apply Ok_inj in Henc; subst addr; rewrite length_app, length_be_bytes; cbn [length app]; destruct Hd as [_ ->]; lia.
    unfold domain_wire_len in Henc. destruct (255 <? zlen d) eqn:E; [done|]. mred in Henc. apply Ok_inj in Henc. subst addr.
    bool_hyps. rewrite length_app, length_be_bytes. cbn [length app]. unfold zlen in E. lia. }
  unfold zlen. rewrite !length_app, length_be_bytes, Hiv, Hkey. cbn [length]. lia.
Qed.

Lemma decode_header_encrypted key auth nonce plain rest :
  decode_header key auth nonce (length plain)
    (vmess_aead_encrypt (kdf 16 key [PATH_HDR_KEY; auth; nonce]) (kdf 12 key [PATH_HDR_IV; auth; nonce]) plain auth ++ rest) =
  match decode_plaintext plain with Ok r => Ok (r, rest) | Err e => Err e | Panic => Panic end.
Proof.
  unfold decode_header. rewrite bind_read by (by rewrite vmess_encrypt_length); cbv beta zeta.
  by rewrite vmess_decrypt_encrypt, bind_lift.
Qed.

(** The server decodes the request of a user it identifies. *)
Lemma vmess_accept_request r user ts random dest rnd req now rest :
  in_u64 ts -> length random = 4%nat -> random_ok rnd -> address_ok dest -> registry_ok r ->
  identifies r (generate_auth_id_at (vu_cmd_key user) ts random) now user ->
  vmess_request (vu_cmd_key user) ts random dest rnd = Ok req ->
  vmess_accept r now (req ++ rest) =
    if Z.abs (now - ts) <=? MAX_TIME_DIFF_SECS
    then Ok ((user, mkVmessRequest (rnd_iv rnd) (rnd_key rnd) (rnd_v rnd) 1 SecAes128Gcm CmdTcp dest), rest)
    else Err AuthFailed.
Proof.
  intros Hts Hr (Hiv & Hkey & Hn & Hpad) Hd Hreg Hid Hreq.
  pose proof (find_by_auth_identified r user ts random now Hts Hr Hreg Hid) as Hfind.
  unfold vmess_request in Hreq. pose proof (auth_id_length (vu_cmd_key user) ts random Hr) as Ha.
  set (auth := generate_auth_id_at _ _ _) in *. unfold encode_header, encode_header_with_command in Hreq.
  destruct (build_request_plaintext _ _ _ _ _ _ _) as [plain| |] eqn:Hb; [|done|done]. mred in Hreq.
  injection Hreq as <-. rewrite <- !app_assoc. unfold vmess_accept.
  rewrite bind_read by done; cbv beta zeta. rewrite Hfind. destruct (_ <=? _); [|done].
  cbn [of_option]. rewrite bind_lift; cbv beta zeta.
  rewrite bind_read by (by rewrite vmess_encrypt_length, length_be_bytes); cbv beta zeta.
  rewrite bind_read by done; cbv beta zeta.
  pose proof (plaintext_short _ _ _ _ _ _ _ _ Hiv Hkey Hpad Hd Hb) as Hs. pose proof (zlen_nonneg plain).
  unfold decrypt_length_field. rewrite vmess_decrypt_encrypt. mred. rewrite length_be_bytes. cbn [Nat.ltb Nat.leb].
  assert (Hu : in_u16 (zlen plain)) by (unfold in_u16; lia).
  unfold as_u16. rewrite Z.mod_small by exact Hu. rewrite idx16_be_bytes_nil by done. mred. rewrite zlen_to_nat.
  change (2 <? 2)%nat with false. cbv iota. rewrite bind_lift; cbv beta zeta.
  erewrite reader_bind_ok; [|rewrite decode_header_encrypted, (decode_build _ _ _ _ _ _ _ _ Hiv Hkey Hpad Hd Hb); reflexivity].
  done.
Qed.

Lemma vmess_response_read rnd rest :
  vmess_read_response rnd (send_response_header (rnd_v rnd) (response_body_key (rnd_key rnd))
    (response_body_iv (rnd_iv rnd)) ++ rest) = Ok (tt, rest).
Proof.
  unfold vmess_read_response, read_response_header, send_response_header. rewrite <- app_assoc.
  rewrite bind_read by (by rewrite vmess_encrypt_length, length_be_bytes); cbv beta zeta.
  rewrite vmess_decrypt_encrypt. rewrite bind_lift; cbv beta zeta.
  change (as_u16 (zlen [rnd_v rnd; 0; 0; 0])) with 4. rewrite idx16_be_bytes_nil by done.
  rewrite bind_lift; cbv beta zeta.
  rewrite bind_read by (by rewrite vmess_encrypt_length); cbv beta zeta.
  rewrite vmess_decrypt_encrypt. rewrite bind_lift; cbv beta zeta. cbn [head default]. by rewrite Z.eqb_refl.
Qed.
End HandshakeFacts.
