(* ===== verification/VmessBody.v ===== *)
(** * VMess body

    [blackwire-protocol] [vmess/stream.rs]: the chunked body of a VMess connection with
    encrypted or plain chunks, masked sizes, random padding and authenticated lengths.
    The fields [read_*] and [write_*] that both directions have are two values of one
    record.  SHAKE128 is an interface, random padding an argument. *)

From S2P Require Import Prelude Common AsyncIo Aead Limits Vmess.

Definition MAX_CHUNK_SIZE : nat := Z.to_nat (16 * 1024).
Definition READ_CHUNK_SIZE : nat := Z.to_nat (64 * 1024).
Definition REQUEST_OPTION_CHUNK_MASKING : Z := 4.
Definition REQUEST_OPTION_GLOBAL_PADDING : Z := 8.
Definition REQUEST_OPTION_AUTHENTICATED_LENGTH : Z := 16.

(** The output of SHAKE128, byte by byte; and what a failed opening leaves in the buffer
    it worked on. *)
Class BodyCrates : Type := {
  shake128 : bytes -> nat -> Z;
  failed_open : AeadKey -> bytes -> bytes -> bytes
}.

Class BodyLaws `{BodyCrates} : Prop := {
  shake128_range iv i : in_u8 (shake128 iv i);
  failed_open_length k nonce b : length (failed_open k nonce b) = length b
}.

Definition chunk_nonce (counter : Z) (iv : bytes) : bytes := be_bytes 2 counter ++ take 10 (drop 2 iv).

Inductive BodyCipher : Type := BAead (k : AeadKey) | BNone.

(** The seed of a mask and the number of values drawn. *)
Record SizeMask : Type := mkMask { mask_iv : bytes; mask_drawn : nat }.

(** One direction. *)
Record BodyDir : Type := mkDir {
  cipher : BodyCipher;
  dir_iv : bytes;
  counter : Z;
  size_cipher : option BodyCipher;
  size_iv : bytes;
  size_counter : Z;
  size_mask : option SizeMask;
  global_padding : bool
}.

Definition set_counter (c : Z) (d : BodyDir) : BodyDir :=
  mkDir (cipher d) (dir_iv d) c (size_cipher d) (size_iv d) (size_counter d) (size_mask d) (global_padding d).
Definition set_size_counter (c : Z) (d : BodyDir) : BodyDir :=
  mkDir (cipher d) (dir_iv d) (counter d) (size_cipher d) (size_iv d) c (size_mask d) (global_padding d).
Definition set_size_mask (m : SizeMask) (d : BodyDir) : BodyDir :=
  mkDir (cipher d) (dir_iv d) (counter d) (size_cipher d) (size_iv d) (size_counter d) (Some m) (global_padding d).

Definition overhead (c : BodyCipher) : nat := match c with BAead _ => TAG_LEN | BNone => 0 end.

Section Codec.
Context `{VmessCrates} `{AeadCrate} `{BodyCrates}.

Definition chacha_key (key : bytes) : bytes := let first := md5 key in first ++ md5 first.

Definition BodyCipher_new (security : Security) (key : bytes) : BodyCipher :=
  match security with
  | SecAes128Gcm => BAead (mkKey Aes128Gcm key)
  | SecChaCha20Poly1305 => BAead (mkKey ChaCha20Poly1305 (chacha_key key))
  | SecNone => BNone
  end.

Definition body_encrypt_append (c : BodyCipher) (nonce dst data : bytes) : bytes :=
  match c with
  | BAead k => dst ++ sealed k nonce [] data
  | BNone => dst ++ data
  end.

(** [decrypt_in_place]: what the buffer holds afterwards, and whether it was authentic. *)
Definition decrypt_in_place (c : BodyCipher) (nonce buf : bytes) : bytes * bool :=
  match c with
  | BAead k =>
      match open_combined k nonce [] buf with
      | Some plain => (plain, true)
      | None => (failed_open k nonce buf, false)
      end
  | BNone => (buf, true)
  end.

Definition decrypt_combined (c : BodyCipher) (nonce buf : bytes) : option bytes :=
  match c with
  | BAead k => open_combined k nonce [] buf
  | BNone => Some buf
  end.

(** [SizeMask::next] *)
Definition mask_next (m : SizeMask) : SizeMask * Z :=
  let i := (2 * mask_drawn m)%nat in
  (mkMask (mask_iv m) (mask_drawn m + 1), be_val [shake128 (mask_iv m) i; shake128 (mask_iv m) (i + 1)]).

(** [next_read_padding_len] and [next_write_padding_len] *)
Definition next_padding_len (d : BodyDir) : BodyDir * nat :=
  if negb (global_padding d) then (d, 0%nat)
  else
    match size_mask d with
    | Some m => let '(m, x) := mask_next m in (set_size_mask m d, Z.to_nat (x mod 64))
    | None => (d, 0%nat)
    end.

Definition size_field_len (d : BodyDir) : nat :=
  match size_cipher d with Some c => (2 + overhead c)%nat | None => 2%nat end.

Definition decode_size (d : BodyDir) (b : bytes) : BodyDir * res io_error nat :=
  match size_cipher d with
  | Some c =>
      let nonce := chunk_nonce (size_counter d) (size_iv d) in
      if (2 + TAG_LEN <? length b)%nat then (d, Err InvalidData)
      else
        match decrypt_combined c nonce b with
        | None => (d, Err InvalidData)
        | Some plain =>
            if negb (length plain =? 2)%nat then (d, Err InvalidData)
            else (set_size_counter (as_u16 (size_counter d + 1)) d, Ok (Z.to_nat (be_val plain) + overhead c)%nat)
        end
  | None =>
      let encoded := be_val (take 2 b) in
      match size_mask d with
      | Some m => let '(m, x) := mask_next m in (set_size_mask m d, Ok (Z.to_nat (Z.lxor encoded x)))
      | None => (d, Ok (Z.to_nat encoded))
      end
  end.

Definition append_size (d : BodyDir) (dst : bytes) (size : nat) : BodyDir * bytes * res io_error unit :=
  if 2 ^ 16 - 1 <? Z.of_nat size then (d, dst, Err InvalidData)
  else
    match size_cipher d with
    | Some c =>
        if (size <? overhead c)%nat then (d, dst, Err InvalidData)
        else
          let plain := be_bytes 2 (Z.of_nat (size - overhead c)) in
          let nonce := chunk_nonce (size_counter d) (size_iv d) in
          (set_size_counter (as_u16 (size_counter d + 1)) d, body_encrypt_append c nonce dst plain, Ok tt)
    | None =>
        match size_mask d with
        | Some m =>
            let '(m, x) := mask_next m in
            (set_size_mask m d, dst ++ be_bytes 2 (Z.lxor (Z.of_nat size) x), Ok tt)
        | None => (d, dst ++ be_bytes 2 (Z.of_nat size), Ok tt)
        end
    end.

(** The reading side of a stream. *)
Record Decoder : Type := mkDecoder {
  dec_dir : BodyDir;
  decrypt_scratch : bytes;
  read_scratch_pos : nat;
  read_pending : option (nat * nat)
}.

(** The second half of [try_decrypt_chunk], when size and padding are known. *)
Definition decrypt_body (d : Decoder) (size padding_len : nat) (src : bytes) :
    Decoder * bytes * option (res io_error unit) :=
  let dir := dec_dir d in
  let d := mkDecoder dir (decrypt_scratch d) (read_scratch_pos d) None in
  if (size <? overhead (cipher dir) + padding_len)%nat then (d, src, Some (Err InvalidData))
  else
    let field := size_field_len dir in
    if (length src <? field + size)%nat
    then (mkDecoder dir (decrypt_scratch d) (read_scratch_pos d) (Some (size, padding_len)), src, None)
    else
      let src := drop field src in
      let data_ct := take (size - padding_len) src in
      let src := drop padding_len (drop (size - padding_len) src) in
      match decrypt_in_place (cipher dir) (chunk_nonce (counter dir) (dir_iv dir)) data_ct with
      | (scratch, false) => (mkDecoder dir scratch (read_scratch_pos d) None, src, Some (Err InvalidData))
      | (scratch, true) =>
          (mkDecoder (set_counter (as_u16 (counter dir + 1)) dir) scratch 0 None, src, Some (Ok tt))
      end.

Definition try_decrypt_chunk (d : Decoder) (src : bytes) : Decoder * bytes * option (res io_error unit) :=
  match read_pending d with
  | Some (size, padding_len) => decrypt_body d size padding_len src
  | None =>
      let field := size_field_len (dec_dir d) in
      if (length src <? field)%nat then (d, src, None)
      else
        let '(dir, padding_len) := next_padding_len (dec_dir d) in
        match decode_size dir (take field src) with
        | (dir, Ok size) =>
            decrypt_body (mkDecoder dir (decrypt_scratch d) (read_scratch_pos d) None) size padding_len src
        | (dir, Err e) => (mkDecoder dir (decrypt_scratch d) (read_scratch_pos d) None, src, Some (Err e))
        | (dir, Panic) => (mkDecoder dir (decrypt_scratch d) (read_scratch_pos d) None, src, Some Panic)
        end
  end.

(** [fill n] are [n] random bytes. *)
Definition append_encrypted_chunk (fill : nat -> bytes) (d : BodyDir) (dst data : bytes) :
    BodyDir * bytes * res io_error unit :=
  let nonce := chunk_nonce (counter d) (dir_iv d) in
  let '(d, padding_len) := next_padding_len d in
  let size := (length data + overhead (cipher d) + padding_len)%nat in
  match append_size d dst size with
  | (d, dst, Ok _) =>
      let dst := body_encrypt_append (cipher d) nonce dst data in
      let d := set_counter (as_u16 (counter d + 1)) d in
      (d, if (0 <? padding_len)%nat then dst ++ fill padding_len else dst, Ok tt)
  | (d, dst, Err e) => (d, dst, Err e)
  | (d, dst, Panic) => (d, dst, Panic)
  end.
End Codec.

(** ** The stream *)

Record VmessStream (S : Type) : Type := mkVmess {
  vm_inner : S;
  vm_dec : Decoder;
  read_raw_buf : bytes;
  vm_enc : BodyDir;
  vm_write_buf : bytes
}.
Arguments mkVmess {S} _ _ _ _ _.
Arguments vm_inner {S} _.
Arguments vm_dec {S} _.
Arguments read_raw_buf {S} _.
Arguments vm_enc {S} _.
Arguments vm_write_buf {S} _.

Section Stream.
Context `{VmessCrates} `{AeadCrate} `{BodyCrates} {S : Type}.
Implicit Types s : VmessStream S.

(** The state of one direction at the start. *)
Definition new_dir (key iv auth_len_key_base auth_len_iv_base : bytes) (security : Security) (options : Z) : BodyDir :=
  let chunk_masking := negb (Z.land options REQUEST_OPTION_CHUNK_MASKING =? 0) in
  let authenticated_length := negb (Z.land options REQUEST_OPTION_AUTHENTICATED_LENGTH =? 0) in
  let auth_len_key := kdf 16 auth_len_key_base [str "auth_len"] in
  mkDir (BodyCipher_new security key) iv 0
    (if authenticated_length && negb (bool_decide (security = SecNone))
     then Some (BodyCipher_new security auth_len_key) else None)
    auth_len_iv_base 0
    (if chunk_masking then Some (mkMask iv 0) else None)
    (negb (Z.land options REQUEST_OPTION_GLOBAL_PADDING =? 0)).

Definition new_bidir_with_auth_len_base (inner : S) (read_key read_iv write_key write_iv
    auth_len_key_base auth_len_iv_base : bytes) (security : Security) (options : Z) : VmessStream S :=
  mkVmess inner
    (mkDecoder (new_dir read_key read_iv auth_len_key_base auth_len_iv_base security options) [] 0 None) []
    (new_dir write_key write_iv auth_len_key_base auth_len_iv_base security options) [].

Definition new_bidir (inner : S) (read_key read_iv write_key write_iv : bytes) (security : Security)
    (options : Z) : VmessStream S :=
  new_bidir_with_auth_len_base inner read_key read_iv write_key write_iv read_key read_iv security options.

Definition vmess_new (inner : S) (key iv : bytes) : VmessStream S := new_bidir inner key iv key iv SecAes128Gcm 0.

Definition vm_reading (inner : S) (d : Decoder) (raw : bytes) s : VmessStream S :=
  mkVmess inner d raw (vm_enc s) (vm_write_buf s).

Definition vm_queue (inner : S) (buf : bytes) s : VmessStream S :=
  mkVmess inner (vm_dec s) (read_raw_buf s) (vm_enc s) buf.

Section Reading.
Context `{AsyncRead S}.

(** The loop of [poll_read]; [None] after [fuel] rounds. *)
Fixpoint vm_read_loop (fuel : nat) s (n : nat) : option (VmessStream S * poll (res io_error bytes)) :=
  match fuel with
  | O => None
  | Datatypes.S fuel' =>
      let d := vm_dec s in
      if (read_scratch_pos d <? length (decrypt_scratch d))%nat then
        let avail := drop (read_scratch_pos d) (decrypt_scratch d) in
        let k := Nat.min (length avail) n in
        Some (vm_reading (vm_inner s)
                (mkDecoder (dec_dir d) (decrypt_scratch d) (read_scratch_pos d + k) (read_pending d))
                (read_raw_buf s) s, Ready (Ok (take k avail)))
      else
        match try_decrypt_chunk d (read_raw_buf s) with
        | (d, raw, Some (Ok _)) =>
            let s := vm_reading (vm_inner s) d raw s in
            match decrypt_scratch d with
            | [] => Some (s, Ready (Ok []))
            | _ :: _ => vm_read_loop fuel' s n
            end
        | (d, raw, Some (Err e)) => Some (vm_reading (vm_inner s) d raw s, Ready (Err e))
        | (d, raw, Some Panic) => Some (vm_reading (vm_inner s) d raw s, Ready Panic)
        | (d, raw, None) =>
            match poll_read (vm_inner s) READ_CHUNK_SIZE with
            | (i, Pending) => Some (vm_reading i d raw s, Pending)
            | (i, Ready (Err e)) => Some (vm_reading i d raw s, Ready (Err e))
            | (i, Ready Panic) => Some (vm_reading i d raw s, Ready Panic)
            | (i, Ready (Ok [])) => Some (vm_reading i d raw s, Ready (Ok []))
            | (i, Ready (Ok filled)) =>
                match try_decrypt_chunk d (raw ++ filled) with
                | (d, raw, Some (Ok _)) =>
                    let s := vm_reading i d raw s in
                    match decrypt_scratch d with
                    | [] => Some (s, Ready (Ok []))
                    | _ :: _ => vm_read_loop fuel' s n
                    end
                | (d, raw, Some (Err e)) => Some (vm_reading i d raw s, Ready (Err e))
                | (d, raw, Some Panic) => Some (vm_reading i d raw s, Ready Panic)
                | (d, raw, None) => vm_read_loop fuel' (vm_reading i d raw s) n
                end
            end
        end
  end.
End Reading.

Section Writing.
Context `{AsyncWrite S}.

(** The loops that write out [write_buf]; each round that goes on writes something. *)
Fixpoint vm_drain_loop (fuel : nat) s : VmessStream S * poll (res io_error unit) :=
  match vm_write_buf s with
  | [] => (s, Ready (Ok tt))
  | _ =>
      match fuel with
      | O => (s, Ready (Ok tt))
      | Datatypes.S fuel' =>
          match poll_write (vm_inner s) (vm_write_buf s) with
          | (i, Pending) => (vm_queue i (vm_write_buf s) s, Pending)
          | (i, Ready (Err e)) => (vm_queue i (vm_write_buf s) s, Ready (Err e))
          | (i, Ready Panic) => (vm_queue i (vm_write_buf s) s, Ready Panic)
          | (i, Ready (Ok O)) => (vm_queue i (vm_write_buf s) s, Ready (Err WriteZero))
          | (i, Ready (Ok n)) => vm_drain_loop fuel' (vm_queue i (drop n (vm_write_buf s)) s)
          end
      end
  end.

Definition vm_drain s : VmessStream S * poll (res io_error unit) := vm_drain_loop (length (vm_write_buf s)) s.

Definition vm_poll_write (fill : nat -> bytes) s (buf : bytes) : VmessStream S * poll (res io_error nat) :=
  match vm_drain s with
  | (s, Pending) => (s, Pending)
  | (s, Ready (Err e)) => (s, Ready (Err e))
  | (s, Ready Panic) => (s, Ready Panic)
  | (s, Ready (Ok _)) =>
      let chunk := take (Nat.min (length buf) MAX_CHUNK_SIZE) buf in
      let '(enc, staged, result) := append_encrypted_chunk fill (vm_enc s) (vm_write_buf s) chunk in
      let s := mkVmess (vm_inner s) (vm_dec s) (read_raw_buf s) enc staged in
      match result with
      | Err e => (s, Ready (Err e))
      | Panic => (s, Ready Panic)
      | Ok _ =>
          match vm_drain s with
          | (s, Ready (Err e)) => (s, Ready (Err e))
          | (s, Ready Panic) => (s, Ready Panic)
          | (s, Ready (Ok _)) | (s, Pending) => (s, Ready (Ok (length chunk)))
          end
      end
  end.

Definition vm_poll_flush s : VmessStream S * poll (res io_error unit) :=
  match vm_drain s with
  | (s, Pending) => (s, Pending)
  | (s, Ready (Err e)) => (s, Ready (Err e))
  | (s, Ready Panic) => (s, Ready Panic)
  | (s, Ready (Ok _)) =>
      let '(i, r) := poll_flush (vm_inner s) in (vm_queue i (vm_write_buf s) s, r)
  end.

Definition vm_poll_shutdown s : VmessStream S * poll (res io_error unit) :=
  let '(i, r) := poll_shutdown (vm_inner s) in (vm_queue i (vm_write_buf s) s, r).
End Writing.
End Stream.

(** * What the chunks carry *)

Lemma lxor_u16 a b : in_u16 a -> in_u16 b -> in_u16 (Z.lxor a b).
Proof.
  unfold in_u16. intros [Ha Ha'] [Hb Hb']. assert (H0 : 0 <= Z.lxor a b) by (apply Z.lxor_nonneg; lia).
  split; [done|]. destruct (decide (Z.lxor a b = 0)) as [->|]; [lia|].
  apply Z.log2_lt_pow2; [lia|]. eapply Z.le_lt_trans; [by apply Z.log2_lxor|].
  apply Z.max_lub_lt; (destruct (decide (a = 0)) as [->|]; destruct (decide (b = 0)) as [->|]);
    first [apply Z.log2_lt_pow2; lia|cbn; lia].
Qed.

Lemma lxor_again a b : Z.lxor (Z.lxor a b) b = a.
Proof. by rewrite Z.lxor_assoc, Z.lxor_nilpotent, Z.lxor_0_r. Qed.

Section Frames.
Context `{VmessCrates} `{HA : AeadLaws} `{HB : BodyLaws}.

Lemma mask_next_u16 m : in_u16 (mask_next m).2.
Proof. apply be_val_u16; apply shake128_range. Qed.

(** Sizes and data are sealed alike, or not at all. *)
Definition dir_ok (d : BodyDir) : Prop :=
  match size_cipher d with Some c => overhead c = overhead (cipher d) | None => True end.

Lemma new_dir_ok key iv bk biv security options : dir_ok (new_dir key iv bk biv security options).
Proof. unfold dir_ok, new_dir. cbn. case_match; [|done]. case_match; simplify_eq. by destruct security. Qed.

(** What precedes the body of a chunk of [n] bytes. *)
Definition chunk_size (d : BodyDir) (n : nat) : nat :=
  (n + overhead (cipher d) + (next_padding_len d).2)%nat.

Definition header_dir (d : BodyDir) (n : nat) : BodyDir := (append_size (next_padding_len d).1 [] (chunk_size d n)).1.1.
Definition header (d : BodyDir) (n : nat) : bytes := (append_size (next_padding_len d).1 [] (chunk_size d n)).1.2.

Definition next_dir (d : BodyDir) (n : nat) : BodyDir := set_counter (as_u16 (counter d + 1)) (header_dir d n).

(** A chunk is its data and its padding. *)
Definition body (d : BodyDir) (data : bytes) : bytes :=
  body_encrypt_append (cipher d) (chunk_nonce (counter d) (dir_iv d)) [] data.

Definition vm_frame (d : BodyDir) (c : bytes * bytes) : bytes := header d (length c.1) ++ body d c.1 ++ c.2.

Fixpoint vm_frames (d : BodyDir) (cs : list (bytes * bytes)) : bytes :=
  match cs with
  | [] => []
  | c :: cs => vm_frame d c ++ vm_frames (next_dir d (length c.1)) cs
  end.

Fixpoint dir_after (d : BodyDir) (cs : list (bytes * bytes)) : BodyDir :=
  match cs with [] => d | c :: cs => dir_after (next_dir d (length c.1)) cs end.

Definition vm_chunk_ok (d : BodyDir) (c : bytes * bytes) : Prop :=
  (0 < length c.1 <= MAX_CHUNK_SIZE)%nat /\ length c.2 = (next_padding_len d).2.

Fixpoint vm_chunks_ok (d : BodyDir) (cs : list (bytes * bytes)) : Prop :=
  match cs with [] => True | c :: cs => vm_chunk_ok d c /\ vm_chunks_ok (next_dir d (length c.1)) cs end.

(** Padding and sizes change the mask and the size counter only. *)
Definition same_dir (d d' : BodyDir) : Prop :=
  cipher d' = cipher d /\ dir_iv d' = dir_iv d /\ counter d' = counter d /\ size_cipher d' = size_cipher d /\
  size_iv d' = size_iv d /\ global_padding d' = global_padding d.

Lemma padding_same d : same_dir d (next_padding_len d).1.
Proof. unfold next_padding_len. repeat case_match; simplify_eq/=; done. Qed.

Lemma padding_small d : ((next_padding_len d).2 < 64)%nat.
Proof.
  assert (Hm : forall x, (Z.to_nat (x mod 64) < 64)%nat) by (intros x; pose proof (Z.mod_pos_bound x 64); lia).
  unfold next_padding_len. repeat case_match; simplify_eq/=; try lia. apply Hm.
Qed.

Lemma append_size_same d dst size : same_dir d (append_size d dst size).1.1.
Proof. unfold append_size. repeat case_match; simplify_eq/=; done. Qed.

Lemma header_same d n : same_dir d (header_dir d n).
Proof.
  destruct (padding_same d) as (P1 & P2 & P3 & P4 & P5 & P6).
  destruct (append_size_same (next_padding_len d).1 [] (chunk_size d n)) as (G1 & G2 & G3 & G4 & G5 & G6).
  unfold header_dir, same_dir. split_and!; congruence.
Qed.

Lemma next_dir_ok d n : dir_ok d -> dir_ok (next_dir d n).
Proof. unfold dir_ok, next_dir. cbn. destruct (header_same d n) as (-> & _ & _ & -> & _). done. Qed.

Lemma tag_overhead c : (overhead c <= 16)%nat.
Proof. destruct c; cbn; unfold TAG_LEN; lia. Qed.

Lemma body_length d data : length (body d data) = (length data + overhead (cipher d))%nat.
Proof. unfold body, body_encrypt_append. destruct (cipher d); cbn [app overhead]; [apply sealed_length|lia]. Qed.

Lemma chunk_size_small d n : (n <= MAX_CHUNK_SIZE)%nat -> Z.of_nat (chunk_size d n) < 2 ^ 16.
Proof.
  intros Hn. unfold chunk_size. pose proof (padding_small d). pose proof (tag_overhead (cipher d)).
  unfold MAX_CHUNK_SIZE in Hn. lia.
Qed.

(** The size that was written is read back, with the same effect on mask and counter. *)
Lemma header_decoded d n :
  dir_ok d -> (n <= MAX_CHUNK_SIZE)%nat ->
  length (header d n) = size_field_len d /\
  append_size (next_padding_len d).1 [] (chunk_size d n) = (header_dir d n, header d n, Ok tt) /\
  decode_size (next_padding_len d).1 (header d n) = (header_dir d n, Ok (chunk_size d n)).
Proof.
  intros Hok Hn. pose proof (chunk_size_small d n Hn) as Hs.
  assert (Hge : (overhead (cipher d) <= chunk_size d n)%nat) by (unfold chunk_size; lia).
  destruct (padding_same d) as (_ & _ & _ & Hsc & _). unfold dir_ok in Hok.
  unfold header, header_dir. set (d1 := (next_padding_len d).1) in *. set (size := chunk_size d n) in *. clearbody d1 size.
  unfold append_size, decode_size, size_field_len. rewrite (proj2 (Z.ltb_ge _ _)) by lia. rewrite Hsc.
  destruct (size_cipher d) as [c|].
  - rewrite (proj2 (Nat.ltb_ge _ _)) by lia. cbn [fst snd].
    assert (Hl : length (body_encrypt_append c (chunk_nonce (size_counter d1) (size_iv d1)) []
      (be_bytes 2 (Z.of_nat (size - overhead c)))) = (2 + overhead c)%nat).
    { destruct c; cbn [body_encrypt_append app overhead]; [rewrite sealed_length|]; by rewrite length_be_bytes. }
    split_and!; [done..|]. rewrite Hl. pose proof (tag_overhead c). unfold TAG_LEN.
    rewrite (proj2 (Nat.ltb_ge _ _)) by lia.
    assert (Hd : decrypt_combined c (chunk_nonce (size_counter d1) (size_iv d1))
      (body_encrypt_append c (chunk_nonce (size_counter d1) (size_iv d1)) [] (be_bytes 2 (Z.of_nat (size - overhead c)))) =
      Some (be_bytes 2 (Z.of_nat (size - overhead c)))).
    { destruct c; cbn [body_encrypt_append app decrypt_combined]; [apply open_combined_sealed|done]. }
    rewrite Hd, length_be_bytes, be_bytes_2_val by (unfold in_u16; lia). cbn [Nat.eqb negb]. do 2 f_equal. lia.
  - destruct (size_mask d1) as [m|] eqn:Hm.
    + pose proof (mask_next_u16 m) as Hx. destruct (mask_next m) as [m' x]. cbn [fst snd] in *. cbn [app].
      assert (Hz : in_u16 (Z.of_nat size)) by (unfold in_u16; lia).
      rewrite length_be_bytes, take_ge by (by rewrite length_be_bytes).
      rewrite be_bytes_2_val by (by apply lxor_u16). rewrite lxor_again, Nat2Z.id. done.
    + cbn [fst snd app]. rewrite length_be_bytes, take_ge by (by rewrite length_be_bytes).
      rewrite be_bytes_2_val by (unfold in_u16; lia). by rewrite Nat2Z.id.
Qed.

Lemma append_size_dst d dst size :
  append_size d dst size =
    let '(d', out, r) := append_size d [] size in (d', dst ++ out, r).
Proof.
  unfold append_size, body_encrypt_append. repeat case_match; simplify_eq/=; by rewrite ?app_nil_r, ?app_assoc.
Qed.

Lemma append_chunk fill d dst data :
  dir_ok d -> (length data <= MAX_CHUNK_SIZE)%nat -> (forall n, length (fill n) = n) ->
  append_encrypted_chunk fill d dst data =
    (next_dir d (length data), dst ++ vm_frame d (data, fill (next_padding_len d).2), Ok tt).
Proof.
  intros Hok Hn Hfill. destruct (header_decoded d (length data) Hok Hn) as (_ & Hs & _).
  destruct (padding_same d) as (P1 & P2 & P3 & _). destruct (header_same d (length data)) as (G1 & G2 & G3 & _).
  unfold append_encrypted_chunk. unfold chunk_size in Hs.
  destruct (next_padding_len d) as [d1 p] eqn:Hp. cbn [fst snd] in *.
  rewrite P1, append_size_dst, Hs. rewrite G1. unfold next_dir, vm_frame, body. cbn [fst snd].
  rewrite G3. do 2 f_equal.
  assert (Happ : forall b, body_encrypt_append (cipher d) (chunk_nonce (counter d) (dir_iv d)) b data =
    b ++ body_encrypt_append (cipher d) (chunk_nonce (counter d) (dir_iv d)) [] data).
  { intros b. by destruct (cipher d). }
  rewrite Happ, <- !app_assoc. case_match; bool_hyps; [done|].
  assert (Hz : fill p = []) by (apply length_zero_iff_nil; rewrite Hfill; lia). by rewrite Hz, app_nil_r.
Qed.

(** A decoder that waits for the chunks [cs] of a writer that started them at [d]: it has
    read no size, or that of the first chunk. *)
Definition dec_at (d : BodyDir) (cs : list (bytes * bytes)) (dec : Decoder) : Prop :=
  match read_pending dec with
  | None => dec_dir dec = d
  | Some (size, padding_len) =>
      match cs with
      | c :: _ => size = chunk_size d (length c.1) /\ padding_len = (next_padding_len d).2 /\
          dec_dir dec = header_dir d (length c.1)
      | [] => False
      end
  end.

Lemma vm_frame_length d c :
  dir_ok d -> vm_chunk_ok d c ->
  length (vm_frame d c) = (size_field_len d + chunk_size d (length c.1))%nat.
Proof.
  intros Hok [[_ Hn] Hp]. destruct (header_decoded d (length c.1) Hok Hn) as (Hl & _).
  unfold vm_frame. rewrite !length_app, Hl, body_length, Hp. unfold chunk_size. lia.
Qed.

Lemma decrypt_in_place_body d data :
  decrypt_in_place (cipher d) (chunk_nonce (counter d) (dir_iv d)) (body d data) = (data, true).
Proof.
  unfold decrypt_in_place, body, body_encrypt_append. destruct (cipher d); [|done]. cbn [app].
  by rewrite open_combined_sealed.
Qed.

(** With the size known: the chunk is waited for or decrypted. *)
Lemma decrypt_body_frame d c cs dec src rest more :
  dir_ok d -> vm_chunk_ok d c -> dec_dir dec = header_dir d (length c.1) ->
  src ++ rest = vm_frame d c ++ more ->
  let r := decrypt_body dec (chunk_size d (length c.1)) (next_padding_len d).2 src in
  ((length src < length (vm_frame d c))%nat /\ exists dec', r = (dec', src, None) /\ dec_at d (c :: cs) dec' /\
     decrypt_scratch dec' = decrypt_scratch dec /\ read_scratch_pos dec' = read_scratch_pos dec) \/
  exists src' dec', src = vm_frame d c ++ src' /\ r = (dec', src', Some (Ok tt)) /\
    dec_at (next_dir d (length c.1)) cs dec' /\ decrypt_scratch dec' = c.1 /\ read_scratch_pos dec' = 0%nat.
Proof.
  intros Hok Hc Hdir Heq. cbv zeta. rewrite (vm_frame_length _ _ Hok Hc). pose proof (vm_frame_length _ _ Hok Hc) as Hfl.
  destruct Hc as [[_ Hn] Hpad]. destruct (header_decoded d (length c.1) Hok Hn) as (Hl & _).
  destruct (header_same d (length c.1)) as (G1 & G2 & G3 & G4 & _).
  assert (Hfield : size_field_len (header_dir d (length c.1)) = size_field_len d) by (unfold size_field_len; by rewrite G4).
  unfold decrypt_body. rewrite Hdir, G1, G2, G3, Hfield. cbv zeta.
  rewrite (proj2 (Nat.ltb_ge _ _)) by (unfold chunk_size; lia).
  case_match eqn:Hlen; bool_hyps.
  { left. split; [lia|]. eexists. split; [done|]. split_and!; done. }
  right. assert (Hsrc : src = vm_frame d c ++ drop (length (vm_frame d c)) src).
  { apply (f_equal (take (length (vm_frame d c)))) in Heq. rewrite take_app_le, take_app_length in Heq by lia.
    rewrite <- Heq at 1. by rewrite take_drop. }
  set (src' := drop (length (vm_frame d c)) src) in *. clearbody src'. subst src. exists src'.
  assert (Hb : (chunk_size d (length c.1) - (next_padding_len d).2)%nat = length (body d c.1)).
  { rewrite body_length. unfold chunk_size. lia. }
  unfold vm_frame. rewrite <- !app_assoc, drop_app_length' by done. rewrite Hb, take_app_length, drop_app_length.
  rewrite drop_app_length' by done. rewrite decrypt_in_place_body. eexists. split; [done|]. split_and!; done.
Qed.

Lemma vm_try_decrypt_next d cs dec src rest :
  dir_ok d -> vm_chunks_ok d cs -> dec_at d cs dec -> src ++ rest `prefix_of` vm_frames d cs ->
  (exists dec', try_decrypt_chunk dec src = (dec', src, None) /\ dec_at d cs dec' /\
     decrypt_scratch dec' = decrypt_scratch dec /\ read_scratch_pos dec' = read_scratch_pos dec /\
     (src = vm_frames d cs -> cs = [])) \/
  exists c cs' src' dec', cs = c :: cs' /\ src = vm_frame d c ++ src' /\
    try_decrypt_chunk dec src = (dec', src', Some (Ok tt)) /\
    dec_at (next_dir d (length c.1)) cs' dec' /\ decrypt_scratch dec' = c.1 /\ read_scratch_pos dec' = 0%nat.
Proof.
  intros Hok Hcs Hat [more Hp]. unfold try_decrypt_chunk. destruct cs as [|c cs].
  { left. cbn in Hp. rewrite <- app_assoc in Hp. symmetry in Hp. apply app_eq_nil in Hp as [-> _].
    unfold dec_at in Hat. destruct (read_pending dec) as [[size p]|] eqn:E; [done|]. exists dec.
    rewrite (proj2 (Nat.ltb_lt _ _)); [unfold dec_at; rewrite E; done|].
    unfold size_field_len. cbn. destruct (size_cipher _); lia. }
  destruct Hcs as [Hc Hcs]. cbn [vm_frames] in Hp. symmetry in Hp. rewrite <- app_assoc in Hp.
  assert (Hbody : forall dec1, dec_dir dec1 = header_dir d (length c.1) ->
    decrypt_scratch dec1 = decrypt_scratch dec -> read_scratch_pos dec1 = read_scratch_pos dec ->
    let r := decrypt_body dec1 (chunk_size d (length c.1)) (next_padding_len d).2 src in
    (exists dec', r = (dec', src, None) /\ dec_at d (c :: cs) dec' /\
     decrypt_scratch dec' = decrypt_scratch dec /\ read_scratch_pos dec' = read_scratch_pos dec /\
     (src = vm_frames d (c :: cs) -> c :: cs = [])) \/
    exists c0 cs' src' dec', c :: cs = c0 :: cs' /\ src = vm_frame d c0 ++ src' /\ r = (dec', src', Some (Ok tt)) /\
    dec_at (next_dir d (length c0.1)) cs' dec' /\ decrypt_scratch dec' = c0.1 /\ read_scratch_pos dec' = 0%nat).
  { intros dec1 Hd1 Hs1 Hp1. destruct (decrypt_body_frame d c cs dec1 src _ _ Hok Hc Hd1 Hp)
      as [[Hlen (dec' & ? & ? & ? & ?)]|(src' & dec' & ? & ? & ? & ? & ?)].
    - left. exists dec'. split_and!; try done; [congruence..|]. intros Hsrc. rewrite Hsrc in Hlen. cbn in Hlen.
      rewrite length_app in Hlen. lia.
    - right. by exists c, cs, src', dec'. }
  unfold dec_at in Hat. destruct (read_pending dec) as [[size p]|] eqn:E.
  { destruct Hat as (-> & -> & Hd). by apply Hbody. }
  rewrite Hat. case_match eqn:Hlen; bool_hyps.
  { left. exists dec. split_and!; try done; [unfold dec_at; by rewrite E|]. intros Hsrc. rewrite Hsrc in Hlen. cbn [vm_frames] in Hlen.
    rewrite length_app, (vm_frame_length _ _ Hok Hc) in Hlen. lia. }
  destruct Hc as [[Hc1 Hn] Hc2]. destruct (header_decoded d (length c.1) Hok Hn) as (Hl & _ & Hdec).
  assert (Htake : take (size_field_len d) src = header d (length c.1)).
  { apply (f_equal (take (size_field_len d))) in Hp. rewrite take_app_le in Hp by done. rewrite Hp.
    unfold vm_frame. rewrite <- app_assoc. by rewrite take_app_length'. }
  rewrite Htake. destruct (next_padding_len d) as [d1 p] eqn:Epad. cbn [fst snd] in *. rewrite Hdec. by apply Hbody.
Qed.
End Frames.

(** ** The reader *)

Section Reader.
Context `{VmessCrates} `{HA : AeadLaws} `{HB : BodyLaws} {R : Type} `{ReadSpec R}.
Implicit Types s : VmessStream R.

Definition avail (d : Decoder) : bytes := drop (read_scratch_pos d) (decrypt_scratch d).

(** [acc] is what the peer has written, [out] what was read of it; with [full] all of the
    peer's wire is on its way. *)
Record vm_reads (full : bool) (acc out : bytes) (d : BodyDir) (cs : list (bytes * bytes)) s : Prop := {
  vr_ok : dir_ok d;
  vr_chunks : vm_chunks_ok d cs;
  vr_at : dec_at d cs (vm_dec s);
  vr_acc : acc = out ++ avail (vm_dec s) ++ concat cs.*1;
  vr_wire : read_raw_buf s ++ incoming (vm_inner s) `prefix_of` vm_frames d cs;
  vr_full : full = true -> read_raw_buf s ++ incoming (vm_inner s) = vm_frames d cs
}.

Definition vm_reading_from full acc out s : Prop := exists d cs, vm_reads full acc out d cs s.

Lemma vm_reads_chunk full acc out d c cs s i dec' raw' filled :
  vm_reads full acc out d (c :: cs) s -> avail (vm_dec s) = [] ->
  incoming (vm_inner s) = filled ++ incoming i -> read_raw_buf s ++ filled = vm_frame d c ++ raw' ->
  dec_at (next_dir d (length c.1)) cs dec' -> decrypt_scratch dec' = c.1 -> read_scratch_pos dec' = 0%nat ->
  vm_reads full acc out (next_dir d (length c.1)) cs (vm_reading i dec' raw' s).
Proof.
  intros [Hok [_ Hcs] _ Hacc Hw Hf] Hbuf Hin Hraw Hat Hs Hp. split; cbn [vm_dec vm_inner read_raw_buf vm_reading].
  - by apply next_dir_ok.
  - done.
  - done.
  - rewrite Hacc, Hbuf. unfold avail. rewrite Hs, Hp, drop_0. done.
  - rewrite Hin, app_assoc, Hraw, <- app_assoc in Hw. by apply prefix_app_inv in Hw.
  - intros Hfull. specialize (Hf Hfull). rewrite Hin, app_assoc, Hraw, <- app_assoc in Hf.
    by apply app_inv_head in Hf.
Qed.

Lemma vm_reads_more full acc out d cs s i dec' raw :
  vm_reads full acc out d cs s -> dec_at d cs dec' -> avail dec' = avail (vm_dec s) ->
  raw ++ incoming i = read_raw_buf s ++ incoming (vm_inner s) ->
  vm_reads full acc out d cs (vm_reading i dec' raw s).
Proof.
  intros [Hok Hcs _ Hacc Hw Hf] Hat Hav Hin.
  split; cbn [vm_dec vm_inner read_raw_buf vm_reading]; rewrite ?Hin; try done. by rewrite Hacc, Hav.
Qed.

Lemma avail_nil d : (read_scratch_pos d <? length (decrypt_scratch d))%nat = false -> avail d = [].
Proof. intros Hl. bool_hyps. by apply drop_ge. Qed.

Definition vm_read_post full acc out n s' (r : poll (res io_error bytes)) : Prop :=
  match r with
  | Ready (Ok c) => vm_reading_from full acc (out ++ c) s' /\
      (c = [] -> n = 0%nat \/ incoming (vm_inner s') = [] /\ (full = true -> out = acc))
  | Ready (Err e) => exists i k i', poll_read (S := R) i k = (i', Ready (Err e))
  | Ready Panic => False
  | Pending => vm_reading_from full acc out s'
  end.

(** Delivering what was decrypted. *)
Lemma vm_reads_deliver full acc out d cs s n :
  vm_reads full acc out d cs s -> (read_scratch_pos (vm_dec s) < length (decrypt_scratch (vm_dec s)))%nat ->
  let dec := vm_dec s in
  let k := Nat.min (length (avail dec)) n in
  vm_read_post full acc out n
    (vm_reading (vm_inner s) (mkDecoder (dec_dir dec) (decrypt_scratch dec) (read_scratch_pos dec + k) (read_pending dec))
      (read_raw_buf s) s) (Ready (Ok (take k (avail dec)))).
Proof.
  intros [Hok Hcs Hat Hacc Hw Hf] Hpos dec k. split.
  - exists d, cs. split; cbn [vm_dec vm_inner read_raw_buf vm_reading]; try done.
    rewrite Hacc, <- !app_assoc. f_equal. unfold avail. cbn [read_scratch_pos decrypt_scratch].
    rewrite <- drop_drop. fold dec. fold (avail dec). by rewrite app_assoc, take_drop.
  - intros Hn. left. apply (f_equal length) in Hn. rewrite length_take in Hn. cbn [length] in Hn.
    assert (0 < length (avail dec))%nat by (unfold avail; rewrite length_drop; unfold dec; lia). unfold k in Hn. lia.
Qed.

Lemma vm_read_loop_ok full acc out fuel s n s' r :
  vm_reading_from full acc out s -> vm_read_loop fuel s n = Some (s', r) -> vm_read_post full acc out n s' r.
Proof.
  revert s. induction fuel as [|fuel IH]; intros s (d & cs & Hs); cbn [vm_read_loop]; [done|].
  destruct (read_scratch_pos (vm_dec s) <? length (decrypt_scratch (vm_dec s)))%nat eqn:Hpos.
  { intros [= <- <-]. bool_hyps. by eapply vm_reads_deliver. }
  apply avail_nil in Hpos. pose proof (vr_chunks _ _ _ _ _ _ Hs) as Hcs.
  assert (Hne : forall c cs', cs = c :: cs' -> forall x : nat, (match c.1 with [] => False | _ => True end)).
  { intros c cs' -> _. destruct Hcs as [[[Hl _] _] _]. destruct c.1; [cbn in Hl; lia|done]. }
  destruct (vm_try_decrypt_next d cs (vm_dec s) (read_raw_buf s) (incoming (vm_inner s)))
    as [(dec' & -> & Hat & Hsc & Hsp & Hend)|(c & cs' & raw' & dec' & -> & Hraw & -> & Hat & Hsc & Hsp)];
    [by apply Hs..| |].
  2: { specialize (Hne c cs' eq_refl 0%nat). rewrite Hsc. destruct c.1 eqn:Ec; [done|]. rewrite <- Ec in *. intros Hl.
    eapply IH; [|exact Hl]. eexists _, cs'. eapply (vm_reads_chunk _ _ _ _ _ _ _ _ _ _ []); try done. by rewrite app_nil_r. }
  assert (Hav : avail dec' = []) by (unfold avail in *; by rewrite Hsc, Hsp).
  destruct (poll_read (vm_inner s) READ_CHUNK_SIZE) as [i [[filled|e|]|]] eqn:Hr.
  - apply poll_read_ok in Hr as (_ & Hin & Hnil). destruct filled as [|x filled].
    + intros [= <- <-]. cbn [app] in Hin. split.
      * rewrite app_nil_r. exists d, cs. apply vm_reads_more; [done..|congruence|by rewrite Hin].
      * intros _. right. cbn. destruct Hnil as [Hn|Hn]; [done|unfold READ_CHUNK_SIZE in Hn; lia|].
        split; [congruence|]. intros Hfull. pose proof (vr_full _ _ _ _ _ _ Hs Hfull) as Hf.
        rewrite Hn, app_nil_r in Hf. specialize (Hend Hf). subst cs.
        rewrite (vr_acc _ _ _ _ _ _ Hs), Hpos. cbn. by rewrite app_nil_r.
    + remember (x :: filled) as fl eqn:Hfl.
      assert (Hs1 : vm_reads full acc out d cs (vm_reading i dec' (read_raw_buf s ++ fl) s)).
      { apply vm_reads_more; [done..|congruence|]. by rewrite <- app_assoc, <- Hin. }
      destruct (vm_try_decrypt_next d cs dec' (read_raw_buf s ++ fl) (incoming i))
        as [(dec2 & -> & Hat2 & Hsc2 & Hsp2 & _)|(c & cs' & raw' & dec2 & -> & Hraw & -> & Hat2 & Hsc2 & Hsp2)];
        [by apply Hs|by apply Hs|done|by apply Hs1| |].
      * intros Hl. eapply IH; [|exact Hl]. exists d, cs.
        apply (vm_reads_more _ _ _ _ _ _ i dec2 (read_raw_buf s ++ fl)) in Hs1; [done|done| |done].
        cbn. unfold avail. by rewrite Hsc2, Hsp2.
      * specialize (Hne c cs' eq_refl 0%nat). rewrite Hsc2. destruct c.1 eqn:Ec; [done|]. rewrite <- Ec in *. intros Hl.
        eapply IH; [|exact Hl]. eexists _, cs'. by eapply vm_reads_chunk.
  - intros [= <- <-]. cbn. eauto.
  - by apply poll_read_no_panic in Hr.
  - intros [= <- <-]. apply poll_read_pending in Hr. exists d, cs. apply vm_reads_more; [done..|congruence|by rewrite Hr].
Qed.

Lemma decrypt_scratch_reset d src :
  (try_decrypt_chunk d src).2 = Some (Ok tt) -> read_scratch_pos (try_decrypt_chunk d src).1.1 = 0%nat.
Proof. unfold try_decrypt_chunk, decrypt_body. repeat case_match; simplify_eq/=; done. Qed.

(** A read ends: it reads at most as often as there are bytes to come. *)
Lemma vm_read_loop_total s n fuel :
  (length (incoming (vm_inner s)) +
    (if (read_scratch_pos (vm_dec s) <? length (decrypt_scratch (vm_dec s)))%nat then 1 else 2) <= fuel)%nat ->
  exists s' r, vm_read_loop fuel s n = Some (s', r).
Proof.
  revert s. induction fuel as [|fuel IH]; intros s Hf; [case_match; lia|]. cbn [vm_read_loop].
  destruct (read_scratch_pos (vm_dec s) <? length (decrypt_scratch (vm_dec s)))%nat; [eauto|].
  pose proof (decrypt_scratch_reset (vm_dec s) (read_raw_buf s)) as Hz1.
  destruct (try_decrypt_chunk (vm_dec s) (read_raw_buf s)) as [[d raw] [[[]|e|]|]]; eauto.
  { destruct (decrypt_scratch d) eqn:E; [eauto|]. apply IH. cbn [vm_dec vm_inner vm_reading]. cbn in Hz1. rewrite Hz1, E by done. cbn [length].
    case_match; bool_hyps; lia. }
  destruct (poll_read (vm_inner s) READ_CHUNK_SIZE) as [i [[[|x filled]|e|]|]] eqn:Hr; eauto.
  apply poll_read_ok in Hr as (_ & Hin & _). rewrite Hin in Hf. rewrite length_app in Hf. cbn in Hf.
  pose proof (decrypt_scratch_reset d (raw ++ x :: filled)) as Hz2.
  destruct (try_decrypt_chunk d (raw ++ x :: filled)) as [[d2 raw2] [[[]|e|]|]]; eauto.
  - destruct (decrypt_scratch d2) eqn:E; [eauto|]. apply IH. cbn [vm_dec vm_inner vm_reading]. cbn in Hz2. rewrite Hz2, E by done. cbn [length].
    case_match; bool_hyps; lia.
  - apply IH. cbn. case_match; lia.
Qed.
End Reader.

(** ** The writer *)

Section Writer.
Context `{VmessCrates} `{HA : AeadLaws} `{HB : BodyLaws} {W : Type} `{WriteSpec W}.
Implicit Types s : VmessStream W.

(** [acc] has been accepted since the stream was made on [sent0]. *)
Record vm_writes (d0 : BodyDir) (sent0 acc : bytes) (cs : list (bytes * bytes)) s : Prop := {
  vw_chunks : vm_chunks_ok d0 cs;
  vw_acc : concat cs.*1 = acc;
  vw_dir : vm_enc s = dir_after d0 cs;
  vw_wire : sent (vm_inner s) ++ vm_write_buf s = sent0 ++ vm_frames d0 cs;
  vw_grows : sent0 `prefix_of` sent (vm_inner s)
}.

Definition vm_accepted d0 sent0 acc s : Prop := exists cs, vm_writes d0 sent0 acc cs s.

Lemma vm_frames_snoc d cs c : vm_frames d (cs ++ [c]) = vm_frames d cs ++ vm_frame (dir_after d cs) c.
Proof.
  revert d. induction cs as [|x cs IH]; intros d; cbn; [by rewrite app_nil_r|]. by rewrite IH, app_assoc.
Qed.

Lemma dir_after_snoc d cs c : dir_after d (cs ++ [c]) = next_dir (dir_after d cs) (length c.1).
Proof. revert d. induction cs as [|x cs IH]; intros d; cbn; [done|]. by rewrite IH. Qed.

Lemma vm_chunks_ok_snoc d cs c :
  vm_chunks_ok d cs -> vm_chunk_ok (dir_after d cs) c -> vm_chunks_ok d (cs ++ [c]).
Proof. revert d. induction cs as [|x cs IH]; intros d; cbn; [done|]. intros [? ?] ?. split; eauto. Qed.

Lemma dir_after_ok d cs : dir_ok d -> dir_ok (dir_after d cs).
Proof. revert d. induction cs as [|x cs IH]; intros d Hd; cbn; [done|]. by apply IH, next_dir_ok. Qed.

Lemma vm_writes_queue d0 sent0 acc cs s i buf :
  vm_writes d0 sent0 acc cs s -> sent (vm_inner s) `prefix_of` sent i ->
  sent i ++ buf = sent (vm_inner s) ++ vm_write_buf s ->
  vm_writes d0 sent0 acc cs (vm_queue i buf s).
Proof. intros [Hc Ha Hd Hw Hg] Hpre Hs. split; cbn; try done; [by rewrite Hs|by etrans]. Qed.

Lemma vm_drain_loop_ok d0 sent0 acc cs fuel s s' r :
  vm_writes d0 sent0 acc cs s -> (length (vm_write_buf s) <= fuel)%nat -> vm_drain_loop fuel s = (s', r) ->
  vm_writes d0 sent0 acc cs s' /\ r <> Ready Panic /\ (r = Ready (Ok tt) -> vm_write_buf s' = []).
Proof.
  revert s. induction fuel as [|fuel IH]; intros s Hs Hf; cbn [vm_drain_loop].
  all: destruct (vm_write_buf s) as [|x b] eqn:Hb; [by intros [= <- <-]|].
  { cbn in Hf. lia. }
  assert (Hsame : forall i, sent i = sent (vm_inner s) -> vm_writes d0 sent0 acc cs (vm_queue i (x :: b) s)).
  { intros i Hi. apply vm_writes_queue; [done|by rewrite Hi|by rewrite Hi, Hb]. }
  destruct (poll_write (vm_inner s) (x :: b)) as [i [[[|n]|e|]|]] eqn:Hw.
  - intros [= <- <-]. split_and!; [|done..]. apply Hsame. apply poll_write_ok in Hw as [_ Hw].
    by rewrite Hw, take_0, app_nil_r.
  - apply poll_write_ok in Hw as [Hn Hw]. apply IH.
    + apply vm_writes_queue; [done|rewrite Hw; by eexists|]. by rewrite Hw, <- app_assoc, take_drop, Hb.
    + cbn [vm_write_buf vm_queue]. rewrite length_drop. lia.
  - intros [= <- <-]. split_and!; [|done..]. apply Hsame. by eapply poll_write_not_ok.
  - by apply poll_write_no_panic in Hw.
  - intros [= <- <-]. split_and!; [|done..]. apply Hsame. by eapply poll_write_not_ok.
Qed.

Lemma vm_drain_ok d0 sent0 acc cs s s' r :
  vm_writes d0 sent0 acc cs s -> vm_drain s = (s', r) ->
  vm_writes d0 sent0 acc cs s' /\ r <> Ready Panic /\ (r = Ready (Ok tt) -> vm_write_buf s' = []).
Proof. intros Hs. by apply vm_drain_loop_ok. Qed.

Lemma vm_poll_write_ok fill d0 sent0 acc s buf s' r :
  dir_ok d0 -> (forall n, length (fill n) = n) -> vm_accepted d0 sent0 acc s -> buf <> [] ->
  vm_poll_write fill s buf = (s', r) ->
  match r with
  | Ready (Ok n) => n = Nat.min (length buf) MAX_CHUNK_SIZE /\ vm_accepted d0 sent0 (acc ++ take n buf) s'
  | Ready (Err _) => True
  | Ready Panic => False
  | Pending => vm_accepted d0 sent0 acc s'
  end.
Proof.
  intros Hok Hfill [cs Hs] Hbuf. unfold vm_poll_write. destruct (vm_drain s) as [s1 r1] eqn:Hd1.
  apply (vm_drain_ok _ _ _ _ _ _ _ Hs) in Hd1 as (Hs1 & Hnp & Hdr).
  destruct r1 as [[[]|e|]|]; [|by intros [= <- <-]|done|intros [= <- <-]; by exists cs].
  specialize (Hdr eq_refl). set (data := take (Nat.min (length buf) MAX_CHUNK_SIZE) buf).
  assert (Hlen : length data = Nat.min (length buf) MAX_CHUNK_SIZE) by (unfold data; rewrite length_take; lia).
  pose proof Hs1 as [Hc Ha Hdir Hw Hg]. rewrite Hdir.
  rewrite append_chunk; [|by apply dir_after_ok|lia|done].
  set (c := (data, fill (next_padding_len (dir_after d0 cs)).2)).
  assert (Hck : vm_chunk_ok (dir_after d0 cs) c).
  { split; cbn; [|apply Hfill]. rewrite Hlen. destruct buf; [done|]. unfold MAX_CHUNK_SIZE. cbn [length]. lia. }
  set (s2 := mkVmess _ _ _ _ _).
  assert (Hs2 : vm_writes d0 sent0 (acc ++ data) (cs ++ [c]) s2).
  { split; cbn; [by apply vm_chunks_ok_snoc| |by rewrite dir_after_snoc| |done].
    - rewrite fmap_app, concat_app, Ha. cbn. by rewrite app_nil_r.
    - rewrite Hdr, app_nil_r in Hw. by rewrite Hdr, Hw, vm_frames_snoc, <- app_assoc. }
  destruct (vm_drain s2) as [s5 r5] eqn:Hd5. apply (vm_drain_ok _ _ _ _ _ _ _ Hs2) in Hd5 as (Hs5 & Hnp5 & _).
  destruct r5 as [[[]|e|]|]; [|by intros [= <- <-]|done|]; intros [= <- <-]; (split; [done|]); rewrite Hlen; by exists (cs ++ [c]).
Qed.

Lemma vm_poll_flush_ok d0 sent0 acc s s' r :
  vm_accepted d0 sent0 acc s -> vm_poll_flush s = (s', r) ->
  vm_accepted d0 sent0 acc s' /\ (r = Ready (Ok tt) -> vm_write_buf s' = []).
Proof.
  intros [cs Hs]. unfold vm_poll_flush. destruct (vm_drain s) as [s1 r1] eqn:Hd1.
  apply (vm_drain_ok _ _ _ _ _ _ _ Hs) in Hd1 as (Hs1 & Hnp & Hdr).
  destruct r1 as [[[]|e|]|]; [|by intros [= <- <-]; split; [exists cs|]|done|by intros [= <- <-]; split; [exists cs|]].
  destruct (poll_flush (vm_inner s1)) as [i r2] eqn:Hf. apply poll_flush_sent in Hf.
  intros [= <- <-]. split; [|by intros _; apply Hdr]. exists cs. apply vm_writes_queue; [done|by rewrite Hf|by rewrite Hf].
Qed.

Lemma vm_poll_shutdown_ok d0 sent0 acc s s' r :
  vm_accepted d0 sent0 acc s -> vm_poll_shutdown s = (s', r) ->
  vm_accepted d0 sent0 acc s' /\ vm_write_buf s' = vm_write_buf s.
Proof.
  intros [cs Hs]. unfold vm_poll_shutdown. destruct (poll_shutdown (vm_inner s)) as [i r2] eqn:Hf.
  apply poll_shutdown_sent in Hf. intros [= <- <-]. split; [|done]. exists cs. apply vm_writes_queue; [done|by rewrite Hf|by rewrite Hf].
Qed.
End Writer.

(** ** Both ends *)

Section Session.
Context `{HV : VmessLaws} `{HA : AeadLaws} `{HB : BodyLaws} {W R : Type} `{WriteSpec W} `{ReadSpec R}.

(** A writer in use: [acc] has been accepted. *)
Inductive vm_writing (w0 : VmessStream W) : VmessStream W -> bytes -> Prop :=
| vm_writing_start : vm_writing w0 w0 []
| vm_writing_write fill w acc buf w' n :
    vm_writing w0 w acc -> buf <> [] -> (forall n, length (fill n) = n) ->
    vm_poll_write fill w buf = (w', Ready (Ok n)) -> vm_writing w0 w' (acc ++ take n buf)
| vm_writing_wait fill w acc buf w' :
    vm_writing w0 w acc -> buf <> [] -> (forall n, length (fill n) = n) ->
    vm_poll_write fill w buf = (w', Pending) -> vm_writing w0 w' acc
| vm_writing_flush w acc w' r :
    vm_writing w0 w acc -> vm_poll_flush w = (w', r) -> vm_writing w0 w' acc
| vm_writing_shutdown w acc w' r :
    vm_writing w0 w acc -> vm_poll_shutdown w = (w', r) -> vm_writing w0 w' acc.

(** A reader in use: [out] has been read. *)
Inductive vm_read_from (r0 : VmessStream R) : VmessStream R -> bytes -> Prop :=
| vm_read_start : vm_read_from r0 r0 []
| vm_read_some r out fuel n r' c :
    vm_read_from r0 r out -> vm_read_loop fuel r n = Some (r', Ready (Ok c)) -> vm_read_from r0 r' (out ++ c)
| vm_read_wait r out fuel n r' :
    vm_read_from r0 r out -> vm_read_loop fuel r n = Some (r', Pending) -> vm_read_from r0 r' out.

Lemma vm_writing_accepted w0 w acc :
  dir_ok (vm_enc w0) -> vm_write_buf w0 = [] -> vm_writing w0 w acc ->
  vm_accepted (vm_enc w0) (sent (vm_inner w0)) acc w.
Proof.
  intros Hok Hb. induction 1 as [|fill w acc buf w' n _ IH Hne Hf Hw|fill w acc buf w' _ IH Hne Hf Hw|w acc w' r _ IH Hf|w acc w' r _ IH Hf].
  - exists []. split; cbn; try done. by rewrite Hb.
  - by apply (vm_poll_write_ok _ _ _ _ _ _ _ _ Hok Hf IH Hne) in Hw as [_ ?].
  - by apply (vm_poll_write_ok _ _ _ _ _ _ _ _ Hok Hf IH Hne) in Hw.
  - by apply (vm_poll_flush_ok _ _ _ _ _ _ IH) in Hf as [? _].
  - by apply (vm_poll_shutdown_ok _ _ _ _ _ _ IH) in Hf as [? _].
Qed.

Lemma vm_read_from_reading r0 r out full acc :
  vm_reading_from full acc [] r0 -> vm_read_from r0 r out -> vm_reading_from full acc out r.
Proof.
  intros Hr0. induction 1 as [|r out fuel n r' c _ IH Hr|r out fuel n r' _ IH Hr]; [done|..].
  - by apply (vm_read_loop_ok _ _ _ _ _ _ _ _ IH) in Hr as [Hr _].
  - by apply (vm_read_loop_ok _ _ _ _ _ _ _ _ IH) in Hr.
Qed.

(** What one side wrote the other reads, if it started from the same state. *)
Lemma vm_transfer w0 w acc wire r0 r out n fuel :
  dir_ok (vm_enc w0) -> vm_write_buf w0 = [] -> vm_writing w0 w acc ->
  sent (vm_inner w) = sent (vm_inner w0) ++ wire ->
  vm_dec r0 = mkDecoder (vm_enc w0) [] 0 None -> read_raw_buf r0 = [] -> incoming (vm_inner r0) = wire ->
  vm_read_from r0 r out -> (length (incoming (vm_inner r)) + 2 <= fuel)%nat ->
  exists r' x, vm_read_loop fuel r n = Some (r', x) /\
  match x with
  | Ready (Ok c) => out ++ c `prefix_of` acc /\ (c = [] -> n = 0%nat \/ (vm_write_buf w = [] -> out = acc))
  | Ready (Err e) => exists i k i', poll_read (S := R) i k = (i', Ready (Err e))
  | Ready Panic => False
  | Pending => out `prefix_of` acc
  end.
Proof.
  intros Hok Hb Hw Hwire Hd Hraw Hin Hr Hf.
  destruct (vm_writing_accepted _ _ _ Hok Hb Hw) as [cs [Hc Ha Hdir Hww _]].
  rewrite Hwire, <- app_assoc in Hww. apply app_inv_head in Hww.
  assert (Hp : vm_reading_from (bool_decide (vm_write_buf w = [])) acc [] r0).
  { exists (vm_enc w0), cs. split; rewrite ?Hd; try done; rewrite ?Hraw, ?Hin; [by eexists|].
    intros Hfull. bool_hyps. by rewrite Hfull, app_nil_r in Hww. }
  pose proof (vm_read_from_reading _ _ _ _ _ Hp Hr) as Hrd.
  destruct (vm_read_loop_total r n fuel) as (r' & x & Hx); [clear - Hf; case_match; lia|].
  exists r', x. split; [done|]. apply (vm_read_loop_ok _ _ _ _ _ _ _ _ Hrd) in Hx.
  destruct x as [[c|e|]|]; cbn in Hx; try done.
  - destruct Hx as [(d' & cs' & Hds') Hend]. split; [rewrite (vr_acc _ _ _ _ _ _ Hds'); by eexists|].
    intros Hn. destruct (Hend Hn) as [?|[_ Hfull]]; [by left|]. right. intros Hq. apply Hfull. by apply bool_decide_eq_true.
  - destruct Hx as (d' & cs' & Hds'). rewrite (vr_acc _ _ _ _ _ _ Hds'). by eexists.
Qed.
End Session.

(** * The protocol *)

Section Protocol.
Context `{HV : VmessLaws} `{HA : AeadLaws} `{HB : BodyLaws} {W R : Type} `{WriteSpec W} `{ReadSpec R}.

(** A reader at [r0] gets what a writer that started at [w0] has accepted, in order and
    once: reads finish, do not fail to authenticate, and end only behind the last byte
    that was sent. *)
Definition delivers (w0 : VmessStream W) (r0 : VmessStream R) : Prop :=
  forall w acc r out n fuel,
    vm_writing w0 w acc -> sent (vm_inner w) = sent (vm_inner w0) ++ incoming (vm_inner r0) ->
    vm_read_from r0 r out -> (length (incoming (vm_inner r)) + 2 <= fuel)%nat ->
    exists r' x, vm_read_loop fuel r n = Some (r', x) /\
    match x with
    | Ready (Ok c) => out ++ c `prefix_of` acc /\ (c = [] -> n = 0%nat \/ (vm_write_buf w = [] -> out = acc))
    | Ready (Err e) => exists i k i', poll_read (S := R) i k = (i', Ready (Err e))
    | Ready Panic => False
    | Pending => out `prefix_of` acc
    end.

(** The options that the body depends on. *)
Definition same_options (o1 o2 : Z) : Prop :=
  Z.land o1 REQUEST_OPTION_CHUNK_MASKING = Z.land o2 REQUEST_OPTION_CHUNK_MASKING /\
  Z.land o1 REQUEST_OPTION_GLOBAL_PADDING = Z.land o2 REQUEST_OPTION_GLOBAL_PADDING /\
  Z.land o1 REQUEST_OPTION_AUTHENTICATED_LENGTH = Z.land o2 REQUEST_OPTION_AUTHENTICATED_LENGTH.

Lemma new_dir_options key iv bk biv security o1 o2 :
  same_options o1 o2 -> new_dir key iv bk biv security o1 = new_dir key iv bk biv security o2.
Proof. intros (E1 & E2 & E3). unfold new_dir. by rewrite E1, E2, E3. Qed.

Lemma new_delivers (i : W) (j : R) rk1 riv1 wk2 wiv2 key iv bk biv security o1 o2 :
  same_options o1 o2 ->
  delivers (new_bidir_with_auth_len_base i rk1 riv1 key iv bk biv security o1)
    (new_bidir_with_auth_len_base j key iv wk2 wiv2 bk biv security o2).
Proof.
  intros Ho w acc r out n fuel Hw Hs Hr Hf. refine (vm_transfer _ _ _ _ _ _ _ _ _ _ _ Hw Hs _ _ _ Hr Hf); try done.
  - apply new_dir_ok.
  - cbn. by rewrite (new_dir_options _ _ _ _ _ _ _ Ho).
Qed.

(** C7. A VMess session: the server decodes the request of a user that it identifies
    exactly while their clocks agree to 120 seconds, learns the destination and answers
    in a way that the client accepts.  The body then carries the bytes of both
    directions in order and once, for every cipher and every combination of masked
    sizes, padding and authenticated lengths that both sides use, whatever the partial
    reads and writes below. *)
Theorem vmess_session r user ts random dest rnd req now :
  in_u64 ts -> length random = 4%nat -> random_ok rnd -> address_ok dest -> registry_ok r ->
  identifies r (generate_auth_id_at (vu_cmd_key user) ts random) now user ->
  vmess_request (vu_cmd_key user) ts random dest rnd = Ok req ->
  let key := rnd_key rnd in
  let iv := rnd_iv rnd in
  let rk := response_body_key key in
  let riv := response_body_iv iv in
  let request := mkVmessRequest iv key (rnd_v rnd) 1 SecAes128Gcm CmdTcp dest in
  (forall rest, vmess_accept r now (req ++ rest) =
     if Z.abs (now - ts) <=? MAX_TIME_DIFF_SECS then Ok ((user, request), rest) else Err AuthFailed) /\
  (exists response, vmess_serve None user request = Ok (None, ServeDispatch dest response rk riv) /\
     forall rest, vmess_read_response rnd (response ++ rest) = Ok (tt, rest)) /\
  same_options 0 (vr_options request) /\
  (forall (i : W) (j : R) security oc os, same_options oc os ->
     delivers (new_bidir_with_auth_len_base i rk riv key iv key iv security oc)
       (new_bidir j key iv rk riv security os) /\
     delivers (new_bidir i key iv rk riv security os)
       (new_bidir_with_auth_len_base j rk riv key iv key iv security oc)).
Proof.
  intros Hts Hr Hrnd Hd Hreg Hid Hreq key iv rk riv request. split_and!.
  - intros rest. by apply (vmess_accept_request r user ts random dest rnd req now rest).
  - eexists. split; [reflexivity|]. intros rest. apply vmess_response_read.
  - split_and!; reflexivity.
  - intros i j security oc os Ho. split; apply new_delivers; [done|].
    destruct Ho as (? & ? & ?). by split_and!.
Qed.
End Protocol.

(** ** Edges *)

Section Edges.
Context `{VmessCrates} `{HA : AeadLaws} `{HB : BodyLaws}.

(** An authentication failure is reported once: the buffer with what the failed opening
    left and the old read position stay, and the next read hands that out. *)
Lemma failed_chunk_delivered {R} `{AsyncRead R} (s : VmessStream R) k size pad n fuel :
  let dec := vm_dec s in
  let dir := dec_dir dec in
  let ct := take (size - pad) (drop (size_field_len dir) (read_raw_buf s)) in
  let nonce := chunk_nonce (counter dir) (dir_iv dir) in
  cipher dir = BAead k -> read_pending dec = Some (size, pad) -> (TAG_LEN + pad <= size)%nat ->
  (size_field_len dir + size <= length (read_raw_buf s))%nat ->
  (length (decrypt_scratch dec) <= read_scratch_pos dec < size - pad)%nat ->
  open_combined k nonce [] ct = None ->
  exists s1 s2,
    vm_read_loop (S fuel) s n = Some (s1, Ready (Err InvalidData)) /\
    vm_read_loop (S fuel) s1 n = Some (s2, Ready (Ok (take n (drop (read_scratch_pos dec) (failed_open k nonce ct))))).
Proof.
  intros dec dir ct nonce Hk Hp Hsize Hraw Hpos Hopen.
  assert (Hct : length ct = (size - pad)%nat) by (unfold ct; rewrite length_take, length_drop; lia).
  pose proof (failed_open_length k nonce ct) as Hfo.
  eexists (vm_reading (vm_inner s) (mkDecoder dir (failed_open k nonce ct) (read_scratch_pos dec) None) _ s), _.
  cbn [vm_read_loop]. split.
  - fold dec. rewrite (proj2 (Nat.ltb_ge _ _)) by lia. unfold try_decrypt_chunk, decrypt_body. fold dec. rewrite Hp. fold dir.
    rewrite Hk. cbn [overhead]. rewrite (proj2 (Nat.ltb_ge _ _)) by lia. rewrite (proj2 (Nat.ltb_ge _ _)) by lia.
    cbn [decrypt_in_place]. fold ct. fold nonce. rewrite Hopen. reflexivity.
  - cbn [vm_dec vm_reading read_scratch_pos decrypt_scratch]. rewrite Hfo, Hct. rewrite (proj2 (Nat.ltb_lt _ _)) by lia.
    set (l := drop (read_scratch_pos dec) (failed_open k nonce ct)). rewrite Nat.min_comm, <- take_take, (take_ge l (length l)) by done. reflexivity.
Qed.

(** The counter of the nonces has 16 bits: under one key the chunk after 65536 others is
    sealed with the same nonce again. *)
Lemma chunk_nonces c1 c2 iv :
  in_u16 c1 -> in_u16 c2 -> chunk_nonce c1 iv = chunk_nonce c2 iv -> c1 = c2.
Proof.
  unfold chunk_nonce. intros H1' H2' Heq. apply app_inj_1 in Heq as [Heq _]; [|by rewrite !length_be_bytes].
  rewrite <- (be_bytes_2_val c1 H1'), <- (be_bytes_2_val c2 H2'). by rewrite Heq.
Qed.

Lemma dir_after_counter d cs :
  in_u16 (counter d) -> counter (dir_after d cs) = as_u16 (counter d + zlen cs).
Proof.
  revert d. induction cs as [|c cs IH]; intros d Hd; cbn [dir_after].
  - rewrite Z.add_0_r. unfold as_u16. by rewrite Z.mod_small.
  - rewrite IH by (apply Z.mod_pos_bound; lia). cbn. unfold as_u16, zlen. cbn [length]. rewrite Zplus_mod_idemp_l. f_equal. lia.
Qed.

Lemma nonce_reuse d cs : in_u16 (counter d) -> zlen cs = 65536 ->
  chunk_nonce (counter (dir_after d cs)) (dir_iv d) = chunk_nonce (counter d) (dir_iv d).
Proof.
  intros Hd Hcs. rewrite dir_after_counter, Hcs by done. f_equal. unfold as_u16.
  rewrite <- (Z.mul_1_l 65536). rewrite Z.mod_add by lia. by apply Z.mod_small.
Qed.
End Edges.

(** ** A session on toy libraries *)

Lemma mix_range l : 0 <= mix l < 251.
Proof.
  unfold mix. assert (H : 0 <= 7 < 251) by lia. revert H. generalize 7.
  induction l as [|x l IH]; intros a Ha; [done|]. cbn. apply IH, Z.mod_pos_bound. lia.
Qed.

#[local] Instance toy_vmess : VmessCrates := {
  hmac_sha256 k m := replicate 32 (mix (k ++ m));
  sha256 m := replicate 32 (mix m);
  md5 m := replicate 16 (mix m);
  aes128_encrypt_block k b := Z.lxor (mix k) <$> b;
  aes128_decrypt_block k b := Z.lxor (mix k) <$> b;
  crc32 b := mix b
}.

#[local] Instance toy_vmess_laws : VmessLaws.
Proof.
  split; intros; cbn.
  - rewrite <- list_fmap_compose. rewrite <- (list_fmap_id b) at 2. apply list_fmap_ext. intros _ x _. cbn.
    by rewrite <- Z.lxor_assoc, Z.lxor_nilpotent, Z.lxor_0_l.
  - by rewrite length_fmap.
  - pose proof (mix_range b). unfold in_u32. lia.
Qed.

#[local] Instance toy_body : BodyCrates := {
  shake128 iv i := mix (iv ++ [Z.of_nat i]);
  failed_open k nonce b := b
}.

#[local] Instance toy_body_laws : BodyLaws.
Proof. split; intros; cbn; [|done]. pose proof (mix_range (iv ++ [Z.of_nat i])). unfold in_u8. lia. Qed.

Definition toy_uuid : bytes := replicate 16 9.
Definition toy_user : VmessUser := mkVmessUser toy_uuid (cmd_key toy_uuid) (str "alice").
Definition toy_registry : VmessUserRegistry := vmess_add_user ∅ toy_uuid (str "alice").
Definition toy_rnd : request_random := mkRandom (replicate 16 1) (replicate 16 2) 77 (replicate 8 3) [5; 5; 5].
Definition toy_host : Address := Domain (str "example.org") 443.
Definition toy_request : bytes :=
  match vmess_request (cmd_key toy_uuid) 1010 [1; 2; 3; 4] toy_host toy_rnd with Ok b => b | _ => [] end.

Lemma toy_host_ok : address_ok toy_host.
Proof.
  unfold address_ok, string_ok, toy_host. cbn -[str]. split; [unfold in_u16; lia|]. split; [apply str_ok|reflexivity].
Qed.

(** All three options with the second cipher: two bytes are written, one of them is
    accepted by the transport at a time. *)
Definition toy_client : VmessStream Script :=
  new_bidir_with_auth_len_base (mkScript [] [Some 1%nat; None; Some 200%nat] []) (response_body_key (rnd_key toy_rnd))
    (response_body_iv (rnd_iv toy_rnd)) (rnd_key toy_rnd) (rnd_iv toy_rnd) (rnd_key toy_rnd) (rnd_iv toy_rnd)
    SecChaCha20Poly1305 28.
Definition toy_fill (n : nat) : bytes := replicate n 0.
Definition toy_written : VmessStream Script := (vm_poll_flush (vm_poll_write toy_fill toy_client [7; 8]).1).1.
Definition toy_server : VmessStream Script :=
  new_bidir (mkScript [Some (wire (vm_inner toy_written))] [] []) (rnd_key toy_rnd) (rnd_iv toy_rnd)
    (response_body_key (rnd_key toy_rnd)) (response_body_iv (rnd_iv toy_rnd)) SecChaCha20Poly1305 29.

Lemma vmess_session_witness :
  vmess_accept toy_registry 1000 toy_request =
    Ok ((toy_user, mkVmessRequest (replicate 16 1) (replicate 16 2) 77 1 SecAes128Gcm CmdTcp toy_host), []) /\
  vmess_accept toy_registry 1131 toy_request = Err AuthFailed /\
  exists r' x, vm_read_loop 200 toy_server 10 = Some (r', x) /\ x = Ready (Ok [7; 8]).
Proof.
  assert (Hid : forall now, identifies toy_registry (generate_auth_id_at (vu_cmd_key toy_user) 1010 [1; 2; 3; 4]) now toy_user).
  { intros now. split; [reflexivity|]. unfold toy_registry, vmess_add_user.
    intros k u [[_ <-]|[_ He]]%lookup_insert_Some; done. }
  assert (Hr : registry_ok toy_registry) by (apply registry_add_ok; by intros k u).
  assert (H64 : in_u64 1010) by (unfold in_u64; lia).
  assert (Hrnd : random_ok toy_rnd) by (split_and!; try done; cbn; lia).
  destruct (vmess_session (W := Script) (R := Script) toy_registry toy_user 1010 [1; 2; 3; 4] toy_host toy_rnd toy_request 1000
    H64 eq_refl Hrnd toy_host_ok Hr (Hid 1000) eq_refl) as (Ha & _ & _ & Hd).
  destruct (vmess_session (W := Script) (R := Script) toy_registry toy_user 1010 [1; 2; 3; 4] toy_host toy_rnd toy_request 1131
    H64 eq_refl Hrnd toy_host_ok Hr (Hid 1131) eq_refl) as (Ha2 & _).
  split_and!.
  - specialize (Ha []). rewrite app_nil_r in Ha. exact Ha.
  - specialize (Ha2 []). rewrite app_nil_r in Ha2. exact Ha2.
  - destruct (Hd (mkScript [] [Some 1%nat; None; Some 200%nat] []) (mkScript [Some (wire (vm_inner toy_written))] [] [])
      SecChaCha20Poly1305 28 29) as [Hup _]; [split_and!; reflexivity|].
    destruct (Hup toy_written [7; 8] toy_server [] 10%nat 200%nat) as (r' & x & Hx & _).
    + apply (vm_writing_flush _ (vm_poll_write toy_fill toy_client [7; 8]).1 _ _ (Ready (Ok tt))).
      * apply (vm_writing_write _ toy_fill toy_client [] [7; 8] _ 2%nat).
        -- apply vm_writing_start.
        -- discriminate.
        -- intros n. apply length_replicate.
        -- vm_compute. reflexivity.
      * vm_compute. reflexivity.
    + vm_compute. reflexivity.
    + apply vm_read_start.
    + vm_compute. lia.
    + exists r', x. split; [exact Hx|]. revert Hx. vm_compute. congruence.
Defined.
