(* ===== verification/Ss2022Udp.v ===== *)
(** * Shadowsocks-2022 over UDP

    [blackwire-protocol] [ss2022/udp.rs]: the packets of SIP022 in both directions, and
    the relay with its table of sessions, the task that carries the replies of a session
    and the client address that both share.  AES-256, BLAKE3 and the AEAD are interfaces;
    the clock, random session identifiers, name resolution and the outcome of binding a
    socket are arguments. *)

From stdpp Require Import sorting.
From S2P Require Import Prelude Common IpText Aead Ss2022.

Definition UDP_TYPE_CLIENT : Z := 0.
Definition UDP_TYPE_SERVER : Z := 1.
Definition UDP_MAX_TIME_DIFF : Z := 30.
Definition UDP_SESSION_IDLE : Z := 30 * 10 ^ 9.
Definition MAX_SESSIONS : Z := 4096.
Definition AEAD_TAG_LEN : nat := 16.
Definition SEPARATE_HEADER_LEN : nat := 16.

Class Aes256 : Type := {
  aes256_encrypt_block : bytes -> bytes -> bytes;
  aes256_decrypt_block : bytes -> bytes -> bytes
}.

Class Aes256Laws `{Aes256} : Prop := {
  aes256_decrypt_encrypt k b : length b = 16%nat -> aes256_decrypt_block k (aes256_encrypt_block k b) = b;
  aes256_encrypt_length k b : length b = 16%nat -> length (aes256_encrypt_block k b) = 16%nat
}.

(** ** Packets *)

Record ServerUdpSession : Type := mkUdpSession {
  server_session_id : Z;
  client_session_id : Z;
  session_key : bytes
}.

Section Packets.
Context `{Aes256} `{Blake3} `{AeadCrate}.

Definition derive_session_key (psk session_id : bytes) : bytes :=
  blake3_derive_key "shadowsocks 2022 session subkey" (psk ++ session_id).

Definition decrypt_separate_header (psk wire : bytes) : res ProxyError bytes :=
  if (length wire <? SEPARATE_HEADER_LEN)%nat then Err (Protocol "SS2022 UDP packet too short")
  else Ok (aes256_decrypt_block psk (take SEPARATE_HEADER_LEN wire)).

Definition encrypt_separate_header (psk plain : bytes) : bytes := aes256_encrypt_block psk plain.

Definition aead_nonce (header : bytes) : bytes := take 12 (drop 4 header).

Definition session_cipher (key : bytes) : AeadKey := mkKey Aes256Gcm key.

(** With the random identifier as an argument. *)
Definition ServerUdpSession_new (psk : bytes) (client_session_id server_session_id : Z) : ServerUdpSession :=
  mkUdpSession server_session_id client_session_id (derive_session_key psk (be_bytes 8 server_session_id)).

Definition decode_client_packet (buf psk : bytes) (now : Z) : res ProxyError (Z * Z * Address * bytes) :=
  header ← decrypt_separate_header psk buf;
  let client_session_id := be_val (take 8 header) in
  let packet_id := be_val (take 8 (drop 8 header)) in
  if (length buf <? SEPARATE_HEADER_LEN + AEAD_TAG_LEN + 1)%nat
  then Err (Protocol "SS2022 UDP ciphertext too short")
  else
    let ciphertext := drop SEPARATE_HEADER_LEN buf in
    let session_key := derive_session_key psk (take 8 header) in
    match open_combined (session_cipher session_key) (aead_nonce header) [] ciphertext with
    | None => Err (Protocol "SS2022 UDP decrypt failed")
    | Some plaintext =>
        if negb (bool_decide (head plaintext = Some UDP_TYPE_CLIENT))
        then Err (Protocol "SS2022 UDP unexpected type")
        else if (length plaintext <? 11)%nat then Err (Protocol "SS2022 UDP plaintext too short")
        else
          let ts := be_val (take 8 (drop 1 plaintext)) in
          if UDP_MAX_TIME_DIFF <? Z.abs (ts - now) then Err AuthFailed
          else
            let pad_len := Z.to_nat (be_val (take 2 (drop 9 plaintext))) in
            let pos := (11 + pad_len)%nat in
            if (length plaintext <=? pos)%nat then Err (Protocol "SS2022 UDP truncated after padding")
            else
              atyp ← idx plaintext pos;
              let pos := (pos + 1)%nat in
              '(dest, consumed) ← decode_socks5_address (drop pos plaintext) atyp "SS2022 UDP";
              Ok (client_session_id, packet_id, dest, drop (pos + consumed) plaintext)
    end.

Definition encode_server_packet_into (psk : bytes) (session : ServerUdpSession) (server_packet_id ts : Z)
    (dest : Address) (payload : bytes) : res ProxyError bytes :=
  addr ← write_socks5_address dest;
  let scratch := [UDP_TYPE_SERVER] ++ be_bytes 8 ts ++ be_bytes 8 (client_session_id session) ++ be_bytes 2 0 ++
    addr ++ payload in
  let sep_plain := be_bytes 8 (server_session_id session) ++ be_bytes 8 server_packet_id in
  Ok (encrypt_separate_header psk sep_plain ++
      sealed (session_cipher (session_key session)) (aead_nonce sep_plain) [] scratch).

Definition decode_server_packet (buf psk : bytes) : res ProxyError bytes :=
  header ← decrypt_separate_header psk buf;
  if (length buf <? SEPARATE_HEADER_LEN + AEAD_TAG_LEN)%nat
  then Err (Protocol "SS2022 UDP server packet too short")
  else
    let session_key := derive_session_key psk (take 8 header) in
    of_option (Protocol "SS2022 UDP server decrypt failed")
      (open_combined (session_cipher session_key) (aead_nonce header) [] (drop SEPARATE_HEADER_LEN buf)).

Definition encode_client_packet (psk : bytes) (client_session_id packet_id ts : Z) (dest : Address) (payload : bytes) :
    res ProxyError bytes :=
  addr ← write_socks5_address dest;
  let plain := [UDP_TYPE_CLIENT] ++ be_bytes 8 ts ++ be_bytes 2 0 ++ addr ++ payload in
  let sep_plain := be_bytes 8 client_session_id ++ be_bytes 8 packet_id in
  let session_key := derive_session_key psk (take 8 sep_plain) in
  Ok (encrypt_separate_header psk sep_plain ++
      sealed (session_cipher session_key) (aead_nonce sep_plain) [] plain).
End Packets.

(** ** The relay *)

(** The upstream socket and the cell with the client's address are shared with the task
    of the session. *)
Record SessionEntry : Type := mkEntry {
  upstream_sock : nat;
  client_addr : nat;
  last_used : Z
}.

(** The task that [spawn_reply_task] starts: [rt_sleep] is when it gives up. *)
Record ReplyTask : Type := mkTask {
  rt_upstream : nat;
  rt_psk : bytes;
  rt_session : ServerUdpSession;
  rt_client_addr : nat;
  rt_packet_id : Z;
  rt_sleep : Z;
  rt_running : bool
}.

Record UdpRelay : Type := mkUdpRelay {
  sessions : gmap Z SessionEntry;
  addr_cells : list SocketAddr;
  reply_tasks : list ReplyTask
}.

Definition relay_start : UdpRelay := mkUdpRelay ∅ [] [].

Inductive udp_effect : Type :=
| ToUpstream (sock : nat) (payload : bytes) (dest : SocketAddr)
| ToClient (pkt : bytes) (dest : SocketAddr)
| Booked (up down : Z).

Definition age_le (a b : Z * Z) : Prop := a.2 <= b.2.
#[export] Instance age_le_dec a b : Decision (age_le a b).
Proof. unfold age_le. apply _. Defined.

(** Makes room: idle sessions go first, then the oldest quarter. *)
Definition evict_sessions (now : Z) (ss : gmap Z SessionEntry) : gmap Z SessionEntry :=
  if Z.of_nat (size ss) <? MAX_SESSIONS then ss
  else
    let cutoff := now - UDP_SESSION_IDLE in
    let ss := filter (fun e => cutoff < last_used e.2) ss in
    if Z.of_nat (size ss) <? MAX_SESSIONS * 3 / 4 then ss
    else
      let by_age := merge_sort age_le ((fun e => (e.1, last_used e.2)) <$> map_to_list ss) in
      foldl (fun ss k => delete k.1 ss) ss (take (Z.to_nat (MAX_SESSIONS / 4)) by_age).

(** [resolve_udp_dest]: with the DNS module, or with the resolver of the system. *)
Definition resolve_udp_dest (dns : option (bytes -> res ProxyError (list IpAddr)))
    (lookup_host : bytes -> Z -> res ProxyError (list SocketAddr)) (dest : Address) : res ProxyError SocketAddr :=
  match dest with
  | Ipv4 ip port => Ok (mkSocketAddr (V4 ip) port)
  | Ipv6 ip port => Ok (mkSocketAddr (V6 ip) port)
  | Domain name port =>
      match dns with
      | Some resolve =>
          ips ← resolve name;
          ip ← of_option (DnsResolutionFailed name) (head ips);
          Ok (mkSocketAddr ip port)
      | None =>
          addrs ← lookup_host name port;
          of_option (DnsResolutionFailed name) (head addrs)
      end
  end.

Section Relay.
Context `{Aes256} `{Blake3} `{AeadCrate}.
Context (resolve : Address -> res ProxyError SocketAddr).

(** What is new in the surroundings when a packet is processed: the instant, the clock in
    seconds, whether the socket can be bound and the system takes a datagram for sending, and
    the random session identifier. *)
Record surroundings : Type := mkAround { at_instant : Z; at_secs : Z; bind_ok : bool; send_ok : bool; random_id : Z }.

(** [send_to] on the upstream socket, which is bound to [0.0.0.0:0]: an IPv4 socket sends to
    no IPv6 address. *)
Definition send_upstream (a : surroundings) (upstream : SocketAddr) : bool :=
  match sa_ip upstream with V4 _ => send_ok a | V6 _ => false end.

(** The entry of a session: found, or made with its socket, its cell and its task. *)
Definition session_entry (psk : bytes) (a : surroundings) (id : Z) (from : SocketAddr) (r : UdpRelay) :
    UdpRelay * option SessionEntry :=
  match sessions r !! id with
  | Some e =>
      let e' := mkEntry (upstream_sock e) (client_addr e) (at_instant a) in
      (mkUdpRelay (<[id := e']> (sessions r)) (<[client_addr e := from]> (addr_cells r)) (reply_tasks r), Some e')
  | None =>
      if bind_ok a then
        let sock := length (reply_tasks r) in
        let cell := length (addr_cells r) in
        let session := ServerUdpSession_new psk id (random_id a) in
        let task := mkTask sock psk session cell 0 (at_instant a + UDP_SESSION_IDLE) true in
        let e := mkEntry sock cell (at_instant a) in
        (mkUdpRelay (<[id := e]> (sessions r)) (addr_cells r ++ [from]) (reply_tasks r ++ [task]), Some e)
      else (r, None)
  end.

Definition process_ss2022_packet (auth : option bytes) (a : surroundings) (buf : bytes) (from : SocketAddr)
    (r : UdpRelay) : UdpRelay * list udp_effect :=
  match auth with
  | None => (r, [])
  | Some psk =>
      match decode_client_packet buf psk (at_secs a) with
      | Ok (id, _, dest, payload) =>
          if (length payload =? 0)%nat then (r, [])
          else
            let r := mkUdpRelay (evict_sessions (at_instant a) (sessions r)) (addr_cells r) (reply_tasks r) in
            match session_entry psk a id from r with
            | (r, None) => (r, [])
            | (r, Some e) =>
                match resolve dest with
                | Ok upstream =>
                    (r, if send_upstream a upstream then [ToUpstream (upstream_sock e) payload upstream; Booked (zlen payload) 0] else [])
                | _ => (r, [])
                end
            end
      | _ => (r, [])
      end
  end.

(** The destination that a reply from [src] carries. *)
Definition reply_dest (src : SocketAddr) : Address :=
  match sa_ip src with
  | V4 ip => Ipv4 ip (sa_port src)
  | V6 ip =>
      match to_ipv4_mapped ip with
      | Some v4 => Ipv4 v4 (sa_port src)
      | None => Ipv6 ip (sa_port src)
      end
  end.

Definition set_task (i : nat) (t : ReplyTask) (r : UdpRelay) : UdpRelay :=
  mkUdpRelay (sessions r) (addr_cells r) (<[i := t]> (reply_tasks r)).

(** One round of the task on socket [i]: a datagram from [src] at [now]; [sends] tells
    whether the system takes the reply for sending. *)
Definition reply_task_recv (now secs : Z) (sends : bool) (i : nat) (payload : bytes) (src : SocketAddr) (r : UdpRelay) :
    UdpRelay * list udp_effect :=
  match reply_tasks r !! i with
  | Some t =>
      if negb (rt_running t) then (r, [])
      else
        let wake := now + UDP_SESSION_IDLE in
        if (length payload =? 0)%nat
        then (set_task i (mkTask (rt_upstream t) (rt_psk t) (rt_session t) (rt_client_addr t) (rt_packet_id t) wake true) r, [])
        else
          let pkt_id := rt_packet_id t in
          let t' := mkTask (rt_upstream t) (rt_psk t) (rt_session t) (rt_client_addr t) (as_u64 (pkt_id + 1)) wake true in
          let r' := set_task i t' r in
          match addr_cells r !! rt_client_addr t,
                encode_server_packet_into (rt_psk t) (rt_session t) pkt_id secs (reply_dest src) payload with
          | Some addr, Ok pkt => (r', if sends then [ToClient pkt addr; Booked 0 (zlen payload)] else [])
          | _, _ => (r', [])
          end
  | None => (r, [])
  end.

(** The task ends: its sleep is over, or receiving failed. *)
Definition reply_task_end (i : nat) (r : UdpRelay) : UdpRelay :=
  match reply_tasks r !! i with
  | Some t => set_task i (mkTask (rt_upstream t) (rt_psk t) (rt_session t) (rt_client_addr t) (rt_packet_id t) (rt_sleep t) false) r
  | None => r
  end.

(** The relay runs: packets of clients one by one, the tasks in between. *)
Inductive relay_step : UdpRelay -> list udp_effect -> UdpRelay -> Prop :=
| step_client auth a buf from r r' es :
    process_ss2022_packet auth a buf from r = (r', es) -> relay_step r es r'
| step_reply now secs sends i payload src r r' es :
    reply_task_recv now secs sends i payload src r = (r', es) -> relay_step r es r'
| step_end i r : relay_step r [] (reply_task_end i r).

Inductive relay_reaches : UdpRelay -> UdpRelay -> Prop :=
| reaches_refl r : relay_reaches r r
| reaches_step r es r' r'' : relay_reaches r r' -> relay_step r' es r'' -> relay_reaches r r''.
End Relay.

(** * Facts *)

(** ** Packets *)

Section PacketFacts.
Context `{HE : Aes256Laws} `{HB : Blake3} `{HA : AeadLaws}.

Lemma separate_header_decrypts psk a b rest :
  decrypt_separate_header psk (encrypt_separate_header psk (be_bytes 8 a ++ be_bytes 8 b) ++ rest) =
    Ok (be_bytes 8 a ++ be_bytes 8 b).
Proof.
  assert (Hl : length (be_bytes 8 a ++ be_bytes 8 b) = 16%nat) by (rewrite length_app, !length_be_bytes; done).
  pose proof (aes256_encrypt_length psk _ Hl) as Hw. unfold decrypt_separate_header, encrypt_separate_header, SEPARATE_HEADER_LEN.
  rewrite length_app, Hw. case_match; bool_hyps; [lia|]. rewrite take_app_length' by done.
  by rewrite aes256_decrypt_encrypt.
Qed.

Lemma header_length psk a b : length (encrypt_separate_header psk (be_bytes 8 a ++ be_bytes 8 b)) = 16%nat.
Proof. apply aes256_encrypt_length. rewrite length_app, !length_be_bytes. done. Qed.

Lemma header_ids a b :
  take 8 (be_bytes 8 a ++ be_bytes 8 b) = be_bytes 8 a /\ take 8 (drop 8 (be_bytes 8 a ++ be_bytes 8 b)) = be_bytes 8 b.
Proof.
  rewrite take_app_length' by (by rewrite length_be_bytes). rewrite drop_app_length' by (by rewrite length_be_bytes).
  split; [done|]. apply take_ge. by rewrite length_be_bytes.
Qed.

(** A packet of a client that knows the key is decoded while the clocks agree. *)
Lemma decode_encode_client psk sid pid ts now dest payload pkt :
  in_u64 sid -> in_u64 pid -> in_u64 ts -> address_ok dest ->
  encode_client_packet psk sid pid ts dest payload = Ok pkt ->
  decode_client_packet pkt psk now =
    if UDP_MAX_TIME_DIFF <? Z.abs (ts - now) then Err AuthFailed else Ok (sid, pid, dest, payload).
Proof.
  intros Hsid Hpid Hts Hd. unfold encode_client_packet.
  destruct (write_socks5_address dest) as [w| |] eqn:Hw; [|done|done]. mred. intros <-%Ok_inj.
  destruct (header_ids sid pid) as [Hi1 Hi2]. rewrite Hi1.
  destruct (decode_write_socks5_address dest w payload "SS2022 UDP" Hd Hw) as (atyp & body & -> & Hdec).
  set (plain := [UDP_TYPE_CLIENT] ++ be_bytes 8 ts ++ be_bytes 2 0 ++ (atyp :: body) ++ payload).
  unfold decode_client_packet. rewrite separate_header_decrypts. mred.
  rewrite Hi1, Hi2, length_app, header_length, sealed_length. unfold SEPARATE_HEADER_LEN, AEAD_TAG_LEN, TAG_LEN.
  assert (Hpl : (12 <= length plain)%nat).
  { unfold plain. rewrite !length_app, !length_be_bytes. cbn. lia. }
  case_match; bool_hyps; [lia|]. rewrite drop_app_length' by (by rewrite header_length). rewrite open_combined_sealed.
  assert (Hh : head plain = Some UDP_TYPE_CLIENT) by done. rewrite bool_decide_eq_true_2 by done. cbn [negb].
  rewrite (proj2 (Nat.ltb_ge (length plain) 11)) by lia.
  assert (Hts8 : take 8 (drop 1 plain) = be_bytes 8 ts).
  { unfold plain. cbn [app drop]. rewrite drop_0. apply take_app_length'. by rewrite length_be_bytes. }
  assert (H11 : drop 11 plain = atyp :: body ++ payload).
  { assert (Hp : plain = ([UDP_TYPE_CLIENT] ++ be_bytes 8 ts ++ be_bytes 2 0) ++ atyp :: body ++ payload).
    { unfold plain. by rewrite <- !app_assoc. }
    rewrite Hp. apply drop_app_length'. rewrite !length_app, !length_be_bytes. done. }
  assert (Hpad : take 2 (drop 9 plain) = [0; 0]).
  { assert (Hp : plain = ([UDP_TYPE_CLIENT] ++ be_bytes 8 ts) ++ [0; 0] ++ (atyp :: body) ++ payload).
    { unfold plain. by rewrite <- !app_assoc. }
    rewrite Hp. rewrite drop_app_length' by (rewrite length_app, length_be_bytes; done). done. }
  rewrite Hts8, Hpad, (be_val_be_bytes_id 8 ts) by exact Hts. case_match; [done|].
  change (11 + Z.to_nat (be_val [0%Z; 0%Z]))%nat with 11%nat. rewrite (proj2 (Nat.leb_gt _ _)) by lia.
  rewrite (idx_drop plain 11 0 : idx plain 11 = _), H11. cbn [idx lookup list_lookup]. rewrite idx_cons_0. mred.
  rewrite <- drop_drop, H11. cbn [drop]. rewrite drop_0, Hdec. mred.
  rewrite (be_val_be_bytes_id 8 sid), (be_val_be_bytes_id 8 pid) by done.
  replace (11 + 1 + length body)%nat with (11 + (1 + length body))%nat by lia.
  rewrite <- drop_drop, H11. cbn [drop Nat.add]. by rewrite drop_app_length.
Qed.

(** A reply of a session is readable with the key alone; it names the session of the client. *)
Lemma decode_encode_server psk cid sid pid ts dest payload pkt :
  encode_server_packet_into psk (ServerUdpSession_new psk cid sid) pid ts dest payload = Ok pkt ->
  exists addr, write_socks5_address dest = Ok addr /\
    decode_server_packet pkt psk =
      Ok ([UDP_TYPE_SERVER] ++ be_bytes 8 ts ++ be_bytes 8 cid ++ [0; 0] ++ addr ++ payload).
Proof.
  unfold encode_server_packet_into. destruct (write_socks5_address dest) as [w| |]; [|done|done]. mred. intros <-%Ok_inj.
  exists w. split; [done|]. destruct (header_ids sid pid) as [Hi _]. unfold decode_server_packet.
  cbn [server_session_id client_session_id session_key ServerUdpSession_new].
  rewrite separate_header_decrypts. mred. rewrite Hi, length_app, header_length, sealed_length.
  unfold SEPARATE_HEADER_LEN, AEAD_TAG_LEN, TAG_LEN. case_match; bool_hyps; [lia|].
  rewrite drop_app_length' by (by rewrite header_length). by rewrite open_combined_sealed.
Qed.
End PacketFacts.

(** ** Eviction *)

Lemma delete_keys_lookup (l : list (Z * Z)) (ss : gmap Z SessionEntry) i :
  foldl (fun ss k => delete k.1 ss) ss l !! i = if decide (i ∈ l.*1) then None else ss !! i.
Proof.
  revert ss. induction l as [|k l IH]; intros ss; cbn [foldl fmap list_fmap]; [by rewrite decide_False by set_solver|].
  rewrite IH. destruct (decide (i ∈ l.*1)) as [Hi|Hi]; [by rewrite decide_True by set_solver|].
  destruct (decide (i = k.1)) as [->|Hne].
  - by rewrite lookup_delete_eq, decide_True by set_solver.
  - by rewrite lookup_delete_ne, decide_False by set_solver.
Qed.

Lemma delete_keys_size (l : list (Z * Z)) (ss : gmap Z SessionEntry) :
  NoDup l.*1 -> (forall k, k ∈ l.*1 -> is_Some (ss !! k)) ->
  size (foldl (fun ss k => delete k.1 ss) ss l) = (size ss - length l)%nat.
Proof.
  revert ss. induction l as [|k l IH]; intros ss Hnd Hin; cbn [foldl length]; [lia|].
  cbn in Hnd. apply NoDup_cons in Hnd as [Hk Hnd]. rewrite IH; [|done|].
  - rewrite map_size_delete_Some by (apply Hin; set_solver). lia.
  - intros j Hj. rewrite lookup_delete_ne by set_solver. apply Hin. set_solver.
Qed.

Definition by_age (ss : gmap Z SessionEntry) : list (Z * Z) :=
  merge_sort age_le ((fun e => (e.1, last_used e.2)) <$> map_to_list ss).

Lemma by_age_perm ss : by_age ss ≡ₚ (fun e => (e.1, last_used e.2)) <$> map_to_list ss.
Proof. apply merge_sort_Permutation. Qed.

Lemma by_age_keys ss : (by_age ss).*1 ≡ₚ (map_to_list ss).*1.
Proof. by rewrite by_age_perm, <- list_fmap_compose. Qed.

Lemma by_age_elem ss k t : (k, t) ∈ by_age ss <-> exists e, ss !! k = Some e /\ last_used e = t.
Proof.
  rewrite by_age_perm, list_elem_of_fmap. split.
  - intros ([k' e] & [= -> ->] & Hin%elem_of_map_to_list). eauto.
  - intros (e & He & <-). exists (k, e). split; [done|]. by apply elem_of_map_to_list.
Qed.

Lemma by_age_sorted ss : StronglySorted age_le (by_age ss).
Proof.
  apply StronglySorted_merge_sort; intros ? ?; unfold age_le; [intros ? ?; lia|lia].
Qed.

Lemma sorted_split {A} (R : A -> A -> Prop) l n x y :
  StronglySorted R l -> x ∈ take n l -> y ∈ drop n l -> R x y.
Proof.
  intros Hs. revert n. induction Hs as [|a l Hs IH Ha]; intros n Hx Hy; [by rewrite take_nil in Hx; apply not_elem_of_nil in Hx|].
  destruct n as [|n]; [by apply not_elem_of_nil in Hx|]. cbn in Hx, Hy.
  apply elem_of_cons in Hx as [->|Hx]; [|by apply (IH n)].
  rewrite Forall_forall in Ha. apply Ha. rewrite <- (take_drop n l). apply elem_of_app. by right.
Qed.

Definition oldest (ss : gmap Z SessionEntry) : list (Z * Z) := take (Z.to_nat (MAX_SESSIONS / 4)) (by_age ss).

Lemma by_age_nodup ss : NoDup (by_age ss).*1.
Proof. rewrite by_age_keys. apply NoDup_fst_map_to_list. Qed.

(** There is room afterwards. *)
Lemma evict_room now ss : Z.of_nat (size ss) <= MAX_SESSIONS -> Z.of_nat (size (evict_sessions now ss)) < MAX_SESSIONS.
Proof.
  intros Hs. unfold evict_sessions. case_match eqn:Hlt; bool_hyps; [done|].
  set (ss' := filter _ ss). assert (Hs' : (size ss' <= size ss)%nat) by apply map_subseteq_size, map_filter_subseteq.
  change (MAX_SESSIONS * 3 / 4) with 3072. case_match eqn:H34; bool_hyps; [change MAX_SESSIONS with 4096; lia|].
  fold (by_age ss'). fold (oldest ss'). rewrite delete_keys_size.
  - unfold oldest. rewrite length_take. rewrite (Permutation_length (by_age_perm ss')), length_fmap, length_map_to_list.
    change (MAX_SESSIONS / 4) with 1024. change MAX_SESSIONS with 4096 in *. lia.
  - unfold oldest. rewrite fmap_take. eapply sublist_NoDup; [apply by_age_nodup|apply sublist_take].
  - intros k. unfold oldest. rewrite fmap_take. intros Hk%elem_of_take. destruct Hk as (i & Hi & _).
    apply list_elem_of_lookup_2, list_elem_of_fmap in Hi as ([k' t] & -> & Hin). apply by_age_elem in Hin as (e & He & _). eauto.
Qed.

(** What is kept was in the table, and was used no earlier than what is not. *)
Lemma evict_lru now ss :
  evict_sessions now ss ⊆ ss /\
  forall k e k' e', evict_sessions now ss !! k = None -> ss !! k = Some e ->
    evict_sessions now ss !! k' = Some e' -> last_used e <= last_used e'.
Proof.
  unfold evict_sessions. case_match; [split; [done|congruence]|].
  set (P := fun e : Z * SessionEntry => now - UDP_SESSION_IDLE < last_used e.2). set (ss' := filter P ss).
  assert (Hidle : forall k e k' e', ss' !! k = None -> ss !! k = Some e -> ss' !! k' = Some e' -> last_used e <= last_used e').
  { intros k e k' e' Hn He He'. apply map_lookup_filter_Some in He' as [_ He']. unfold P in He'. cbn in He'.
    apply map_lookup_filter_None in Hn as [Hn|Hn]; [congruence|]. specialize (Hn e He). unfold P in Hn. cbn in Hn. lia. }
  case_match; [split; [apply map_filter_subseteq|done]|]. fold (by_age ss'). fold (oldest ss').
  assert (Hsub : forall k e, foldl (fun ss k => delete k.1 ss) ss' (oldest ss') !! k = Some e ->
    ss' !! k = Some e /\ k ∉ (oldest ss').*1).
  { intros k e. rewrite delete_keys_lookup. by case_decide. }
  split.
  - apply map_subseteq_spec. intros k e [Hk _]%Hsub. by apply map_lookup_filter_Some in Hk as [? _].
  - intros k e k' e' Hn He [He' Hnot]%Hsub. rewrite delete_keys_lookup in Hn. case_decide as Hd; [|by eapply Hidle].
    apply list_elem_of_fmap in Hd as ([k0 t] & [= ->] & Hin).
    assert (Hin' : (k', last_used e') ∈ by_age ss') by (apply by_age_elem; eauto).
    pose proof Hin as Hold. unfold oldest in Hin. rewrite <- (take_drop (Z.to_nat (MAX_SESSIONS / 4)) (by_age ss')) in Hin'.
    apply elem_of_app in Hin' as [Hin'|Hin']; [exfalso; apply Hnot, list_elem_of_fmap; by eexists (k', _)|].
    pose proof (sorted_split _ _ _ _ _ (by_age_sorted ss') Hin Hin') as Hle. unfold age_le in Hle. cbn in Hle.
    assert (Ht : (k0, t) ∈ by_age ss').
    { rewrite <- (take_drop (Z.to_nat (MAX_SESSIONS / 4)) (by_age ss')). apply elem_of_app. by left. }
    apply by_age_elem in Ht as (e0 & He0 & <-). apply map_lookup_filter_Some in He0 as [He0 _]. cbn in He. simplify_eq. done.
Qed.

(** ** The relay *)

Section RelayFacts.
Context `{HE : Aes256Laws} `{HB : Blake3} `{HA : AeadLaws}.
Context (resolve : Address -> res ProxyError SocketAddr).

(** Socket, cell and task of a session have one number; a task serves the session it was
    made for. *)
Record relay_ok (r : UdpRelay) : Prop := {
  ro_size : Z.of_nat (size (sessions r)) <= MAX_SESSIONS;
  ro_cells : length (addr_cells r) = length (reply_tasks r);
  ro_tasks i t : reply_tasks r !! i = Some t -> rt_upstream t = i /\ rt_client_addr t = i /\
    exists sid, rt_session t = ServerUdpSession_new (rt_psk t) (client_session_id (rt_session t)) sid;
  ro_entries id e : sessions r !! id = Some e -> client_addr e = upstream_sock e /\
    exists t, reply_tasks r !! upstream_sock e = Some t /\ client_session_id (rt_session t) = id
}.

Lemma relay_start_ok : relay_ok relay_start.
Proof. by split. Qed.

Lemma evicted_ok now r :
  relay_ok r -> relay_ok (mkUdpRelay (evict_sessions now (sessions r)) (addr_cells r) (reply_tasks r)).
Proof.
  intros [Hs Hc Ht He]. split; cbn; try done; [pose proof (evict_room now _ Hs); lia|].
  intros id e Hid. apply He. by eapply lookup_weaken, evict_lru.
Qed.

(** The entry that is used carries the sender's address, in its cell. *)
Lemma session_entry_ok psk a id from r r' oe :
  relay_ok r -> Z.of_nat (size (sessions r)) < MAX_SESSIONS -> session_entry psk a id from r = (r', oe) ->
  relay_ok r' /\
  match oe with
  | Some e => sessions r' !! id = Some e /\ addr_cells r' !! client_addr e = Some from /\ last_used e = at_instant a
  | None => r' = r /\ sessions r !! id = None /\ bind_ok a = false
  end.
Proof.
  intros [Hs Hc Ht He] Hlt. unfold session_entry. destruct (sessions r !! id) as [e|] eqn:Hid.
  - intros [= <- <-]. destruct (He _ _ Hid) as (Heq & t & Htk & Hcid).
    assert (Hlen : (client_addr e < length (addr_cells r))%nat) by (rewrite Hc, Heq; by eapply lookup_lt_Some).
    split; [|cbn; by rewrite lookup_insert_eq, list_lookup_insert_eq]. split; cbn.
    + rewrite map_size_insert_Some by eauto. lia.
    + by rewrite length_insert.
    + done.
    + intros id' e' [[<- <-]|[_ Hin]]%lookup_insert_Some; [by cbn; eauto|by apply He].
  - destruct (bind_ok a) eqn:Hb; intros [= <- <-]; [|done].
    split; [|cbn; by rewrite lookup_insert_eq, list_lookup_middle]. split; cbn.
    + rewrite map_size_insert_None by done. lia.
    + rewrite !length_app. cbn. lia.
    + intros i t. rewrite lookup_app_Some. intros [Hi|[Hl Hi]]; [by apply Ht|].
      apply list_lookup_singleton_Some in Hi as [Hz <-]. cbn. split_and!; [lia|rewrite Hc; lia|by eexists].
    + intros id' e' [[<- <-]|[_ Hin]]%lookup_insert_Some; cbn.
      * split; [done|]. eexists. by rewrite list_lookup_middle.
      * destruct (He _ _ Hin) as (? & t & Htk & ?). split; [done|]. exists t.
        by rewrite lookup_app_l by (by eapply lookup_lt_Some).
Qed.

Lemma process_ok auth a buf from r r' es :
  relay_ok r -> process_ss2022_packet resolve auth a buf from r = (r', es) -> relay_ok r'.
Proof.
  intros Hr. unfold process_ss2022_packet. destruct auth as [psk|]; [|by intros [= <- _]].
  destruct (decode_client_packet buf psk (at_secs a)) as [[[[id pid] dest] payload]|e|]; [|by intros [= <- _]..].
  case_match; [by intros [= <- _]|]. pose proof (evicted_ok (at_instant a) r Hr) as Hr1.
  destruct (session_entry psk a id from _) as [r2 oe] eqn:Hse.
  apply session_entry_ok in Hse as [Hr2 _]; [|done|by apply evict_room, Hr].
  destruct oe; [|by intros [= <- _]]. by destruct (resolve dest); intros [= <- _].
Qed.

Lemma set_task_ok r i t t' :
  relay_ok r -> reply_tasks r !! i = Some t -> rt_upstream t' = rt_upstream t -> rt_client_addr t' = rt_client_addr t ->
  rt_session t' = rt_session t -> rt_psk t' = rt_psk t -> relay_ok (set_task i t' r).
Proof.
  intros [Hs Hc Ht He] Hi E1 E2 E3 E4. assert (Hl : (i < length (reply_tasks r))%nat) by (by eapply lookup_lt_Some).
  split; cbn; try done.
  - by rewrite length_insert.
  - intros j u [(<- & <- & _)|[_ Hj]]%list_lookup_insert_Some; [|by apply Ht]. rewrite E1, E2, E3, E4. by apply Ht.
  - intros id e Hid. destruct (He _ _ Hid) as (? & u & Hu & Hcid). split; [done|].
    destruct (decide (i = upstream_sock e)) as [Heq|Hne].
    + subst i. exists t'. rewrite list_lookup_insert_eq by done. simplify_eq. by rewrite E3.
    + exists u. by rewrite list_lookup_insert_ne.
Qed.

Lemma relay_step_ok r es r' : relay_ok r -> relay_step resolve r es r' -> relay_ok r'.
Proof.
  intros Hr. inversion 1 as [auth a buf from ? ? ? Hp|now secs sends i payload src ? ? ? Hp|i ?]; subst.
  - by eapply process_ok.
  - unfold reply_task_recv in Hp. destruct (reply_tasks r !! i) as [t|] eqn:Hi; [|by injection Hp as <- _].
    destruct (rt_running t); cbn [negb] in Hp; [|by injection Hp as <- _].
    case_match; [injection Hp as <- _; by eapply set_task_ok|].
    repeat case_match; injection Hp as <- _; by eapply set_task_ok.
  - unfold reply_task_end. destruct (reply_tasks r !! i) as [t|] eqn:Hi; [|done]. by eapply set_task_ok.
Qed.

Lemma relay_reaches_ok r : relay_reaches resolve relay_start r -> relay_ok r.
Proof.
  remember relay_start as r0 eqn:E. induction 1 as [|r es r' r'' _ IH Hst]; subst; [apply relay_start_ok|].
  eapply relay_step_ok; [by apply IH|done].
Qed.

(** C9. The Shadowsocks-2022 UDP relay after any run of client packets, replies and
    ended tasks: the table is bounded, and evicting from it removes no session that was
    used later than one it keeps.  A packet of a client that knows the key, if the clocks
    agree to 30 seconds, a socket can be bound and its destination resolves, has its session
    in the table afterwards.  To an IPv4 address it goes out unchanged and is booked, from
    the socket of its session, if the system takes it; to an IPv6 address nothing ever goes
    out, as the socket is an IPv4 one.  While the task of that socket runs, a reply goes back to
    the address that the session's last packet came from, if the system takes it, with its
    payload, the address it came from and the client's session identifier. *)
Theorem ss2022_udp_relay r psk a sid pid ts dest payload pkt from upstream :
  relay_reaches resolve relay_start r ->
  in_u64 sid -> in_u64 pid -> in_u64 ts -> address_ok dest -> payload <> [] ->
  encode_client_packet psk sid pid ts dest payload = Ok pkt ->
  Z.abs (ts - at_secs a) <= UDP_MAX_TIME_DIFF -> bind_ok a = true -> resolve dest = Ok upstream ->
  Z.of_nat (size (sessions r)) <= MAX_SESSIONS /\
  (forall k e k' e', evict_sessions (at_instant a) (sessions r) !! k = None -> sessions r !! k = Some e ->
     evict_sessions (at_instant a) (sessions r) !! k' = Some e' -> last_used e <= last_used e') /\
  exists r' e t,
    process_ss2022_packet resolve (Some psk) a pkt from r =
      (r', match sa_ip upstream with
           | V4 _ => if send_ok a then [ToUpstream (upstream_sock e) payload upstream; Booked (zlen payload) 0] else []
           | V6 _ => []
           end) /\
    sessions r' !! sid = Some e /\ reply_tasks r' !! upstream_sock e = Some t /\
    (rt_running t = true -> forall now secs sends src answer addr, answer <> [] -> write_socks5_address (reply_dest src) = Ok addr ->
       exists r'' out, reply_task_recv now secs sends (upstream_sock e) answer src r' =
           (r'', if sends then [ToClient out from; Booked 0 (zlen answer)] else []) /\
         decode_server_packet out (rt_psk t) =
           Ok ([UDP_TYPE_SERVER] ++ be_bytes 8 secs ++ be_bytes 8 sid ++ [0; 0] ++ addr ++ answer)).
Proof.
  intros Hreach Hsid Hpid Hts Hd Hpay Hpkt Hnow Hbind Hres. pose proof (relay_reaches_ok r Hreach) as Hr.
  split; [apply Hr|]. split; [apply evict_lru|]. unfold process_ss2022_packet.
  rewrite (decode_encode_client psk sid pid ts (at_secs a) dest payload pkt) by done.
  rewrite (proj2 (Z.ltb_ge _ _)) by done. destruct (length payload =? 0)%nat eqn:Hl.
  { bool_hyps. by apply nil_length_inv in Hl. }
  destruct (session_entry psk a sid from _) as [r2 oe] eqn:Hse.
  apply session_entry_ok in Hse as [Hr2 Hoe]; [|by apply evicted_ok|by apply evict_room, Hr].
  destruct oe as [e|]; [|destruct Hoe as (_ & _ & ?); congruence]. destruct Hoe as (Hin & Hcell & _).
  rewrite Hres. destruct (ro_entries _ Hr2 _ _ Hin) as (Heq & t & Ht & Hcid).
  exists r2, e, t. split_and!; [unfold send_upstream; by destruct (sa_ip upstream)|done..|]. intros Hrun now secs sends src answer addr Ha Haddr. unfold reply_task_recv.
  destruct (ro_tasks _ Hr2 _ _ Ht) as (_ & Hca & sid' & Hsess). rewrite Ht, Hrun, Hca. cbn [negb].
  destruct (length answer =? 0)%nat eqn:Hla; [bool_hyps; by apply nil_length_inv in Hla|].
  rewrite Heq in Hcell. rewrite Hcell.
  destruct (encode_server_packet_into (rt_psk t) (rt_session t) (rt_packet_id t) secs (reply_dest src) answer) as [out| |] eqn:Henc.
  - eexists _, out. split; [done|]. rewrite Hsess in Henc. apply decode_encode_server in Henc as (addr' & Haddr' & Hdec).
    rewrite Hdec. rewrite Haddr in Haddr'. injection Haddr' as <-. by rewrite Hcid.
  - unfold encode_server_packet_into in Henc. by rewrite Haddr in Henc.
  - unfold encode_server_packet_into in Henc. by rewrite Haddr in Henc.
Qed.

(** The entry of a session outlives its task: as long as the table does not fill up, the
    client's packets go out and every reply is lost. *)
Lemma dead_session_stays r auth a buf from r' es id e t :
  relay_ok r -> sessions r !! id = Some e -> reply_tasks r !! upstream_sock e = Some t -> rt_running t = false ->
  Z.of_nat (size (sessions r)) < MAX_SESSIONS ->
  process_ss2022_packet resolve auth a buf from r = (r', es) ->
  (exists e', sessions r' !! id = Some e' /\ upstream_sock e' = upstream_sock e) /\
  reply_tasks r' !! upstream_sock e = Some t /\
  forall now secs sends answer src, (reply_task_recv now secs sends (upstream_sock e) answer src r').2 = [].
Proof.
  intros Hr He Ht Hdead Hsize Hp.
  assert (Hmain : (exists e', sessions r' !! id = Some e' /\ upstream_sock e' = upstream_sock e) /\
    reply_tasks r' !! upstream_sock e = Some t).
  { unfold process_ss2022_packet in Hp. destruct auth as [psk|]; [|injection Hp as <- _; eauto].
    destruct (decode_client_packet buf psk (at_secs a)) as [[[[id' pid] dest] payload]|x|]; [|injection Hp as <- _; eauto..].
    case_match; [injection Hp as <- _; eauto|].
    assert (Hev : evict_sessions (at_instant a) (sessions r) = sessions r).
    { unfold evict_sessions. by rewrite (proj2 (Z.ltb_lt _ _)). }
    rewrite Hev in Hp. destruct (session_entry psk a id' from _) as [r2 oe] eqn:Hse.
    assert (r' = r2) as -> by (repeat case_match; congruence). clear Hp.
    unfold session_entry in Hse. cbn in Hse. destruct (sessions r !! id') as [e'|] eqn:Hid'.
    - injection Hse as <- _. cbn. split; [|done]. destruct (decide (id' = id)) as [->|Hne].
      + rewrite lookup_insert_eq. simplify_eq. by eexists.
      + rewrite lookup_insert_ne by done. eauto.
    - destruct (bind_ok a); injection Hse as <- _; cbn; [|eauto].
      rewrite lookup_insert_ne by congruence. split; [eauto|]. rewrite lookup_app_l; [done|by eapply lookup_lt_Some]. }
  split; [apply Hmain|]. split; [apply Hmain|]. intros now secs sends answer src. unfold reply_task_recv.
  by rewrite (proj2 Hmain), Hdead.
Qed.
End RelayFacts.

(** ** A run on toy libraries *)

#[local] Existing Instance toy_blake3.

#[local] Instance toy_aes256 : Aes256 := {
  aes256_encrypt_block k b := Z.lxor (mix k) <$> b;
  aes256_decrypt_block k b := Z.lxor (mix k) <$> b
}.

#[local] Instance toy_aes256_laws : Aes256Laws.
Proof.
  split; intros; cbn; [|by rewrite length_fmap].
  rewrite <- list_fmap_compose. rewrite <- (list_fmap_id b) at 2. apply list_fmap_ext. intros _ x _. cbn.
  by rewrite <- Z.lxor_assoc, Z.lxor_nilpotent, Z.lxor_0_l.
Qed.

Definition toy_resolve : Address -> res ProxyError SocketAddr :=
  resolve_udp_dest None (fun _ port => Ok [mkSocketAddr (V4 [9; 9; 9; 9]) port]).
Definition toy_udp (pid : Z) (payload : bytes) : bytes :=
  match encode_client_packet toy_psk 77 pid 1000 toy_dest payload with Ok b => b | _ => [] end.
Definition toy_from : SocketAddr := mkSocketAddr (V4 [10; 0; 0; 1]) 5000.
Definition toy_roamed : SocketAddr := mkSocketAddr (V4 [10; 0; 0; 2]) 6000.
Definition toy_around (t : Z) : surroundings := mkAround t (1000 + t) true true 4242.
Definition toy_relay : UdpRelay :=
  (process_ss2022_packet toy_resolve (Some toy_psk) (toy_around 0) (toy_udp 1 [1]) toy_from relay_start).1.

Lemma toy_relay_reached : relay_reaches toy_resolve relay_start toy_relay.
Proof.
  eapply reaches_step; [apply reaches_refl|].
  apply (step_client _ (Some toy_psk) (toy_around 0) (toy_udp 1 [1]) toy_from _ _ [ToUpstream 0 [1] (mkSocketAddr (V4 [1; 2; 3; 4]) 443); Booked 1 0]).
  vm_compute. reflexivity.
Qed.

(** The client roams: the reply goes to where its second packet came from. *)
Lemma ss2022_udp_relay_witness :
  exists r' e t,
    process_ss2022_packet toy_resolve (Some toy_psk) (toy_around 5) (toy_udp 2 [7; 8]) toy_roamed toy_relay =
      (r', [ToUpstream (upstream_sock e) [7; 8] (mkSocketAddr (V4 [1; 2; 3; 4]) 443); Booked 2 0]) /\
    sessions r' !! 77 = Some e /\ reply_tasks r' !! upstream_sock e = Some t /\
    (rt_running t = true -> exists r'' out, reply_task_recv 6 1006 true (upstream_sock e) [9] (mkSocketAddr (V4 [1; 2; 3; 4]) 443) r' =
       (r'', [ToClient out toy_roamed; Booked 0 1])).
Proof.
  destruct (ss2022_udp_relay toy_resolve toy_relay toy_psk (toy_around 5) 77 2 1000 toy_dest [7; 8] (toy_udp 2 [7; 8]) toy_roamed
    (mkSocketAddr (V4 [1; 2; 3; 4]) 443)) as (_ & _ & r' & e & t & Hp & He & Ht & Hr).
  - apply toy_relay_reached.
  - vm_compute. split; [discriminate|reflexivity].
  - vm_compute. split; [discriminate|reflexivity].
  - vm_compute. split; [discriminate|reflexivity].
  - apply toy_dest_ok.
  - discriminate.
  - vm_compute. reflexivity.
  - vm_compute. discriminate.
  - reflexivity.
  - reflexivity.
  - exists r', e, t. split; [exact Hp|]. split; [exact He|]. split; [exact Ht|]. intros Hrun.
    destruct (Hr Hrun 6 1006 true (mkSocketAddr (V4 [1; 2; 3; 4]) 443) [9] [1; 1; 2; 3; 4; 1; 187]) as (r'' & out & Hout & _);
      [discriminate|vm_compute; reflexivity|]. exists r'', out. exact Hout.
Defined.

(** A session without a running task is reached as soon as its upstream is silent for 30
    seconds; its entry is still there. *)
Lemma dead_session_reached :
  let r := reply_task_end 0 toy_relay in
  relay_reaches toy_resolve relay_start r /\
  exists e t, sessions r !! 77 = Some e /\ reply_tasks r !! upstream_sock e = Some t /\ rt_running t = false.
Proof.
  split; [eapply reaches_step; [apply toy_relay_reached|apply step_end]|].
  eexists _, _. split_and!; vm_compute; reflexivity.
Qed.

(** The packet identifier is not looked at: a packet is relayed as often as it arrives. *)
Lemma replayed_packet_relayed :
  let '(r1, es1) := process_ss2022_packet toy_resolve (Some toy_psk) (toy_around 5) (toy_udp 1 [1]) toy_from toy_relay in
  es1 = [ToUpstream 0 [1] (mkSocketAddr (V4 [1; 2; 3; 4]) 443); Booked 1 0].
Proof. vm_compute. reflexivity. Qed.

(** A packet to an IPv6 address makes a session and goes nowhere. *)
Lemma ipv6_never_sent :
  match encode_client_packet toy_psk 78 1 1000 (Ipv6 (replicate 16 1) 443) [1] with
  | Ok pkt => let '(r1, es1) := process_ss2022_packet toy_resolve (Some toy_psk) (toy_around 5) pkt toy_from toy_relay in
      es1 = [] /\ is_Some (sessions r1 !! 78)
  | _ => False
  end.
Proof. vm_compute. split; [reflexivity|]. by eexists. Qed.
