(* ===== verification/Inbounds.v ===== *)
(** * Local inbounds

    [blackwire-protocol] [socks.rs] and [http_connect.rs]: the conversations with which a
    SOCKS5 and an HTTP CONNECT client name their destination.  A conversation is a
    function of the bytes that the client sends; it gives what the server writes, the
    result, and the bytes that are left.  What a buffered reader has read ahead of the
    end of the handshake is handed on in front of the stream, so that the bytes that are
    left are those that the client has sent behind its request. *)

From S2P Require Import Prelude Common DomainMatch IpText Router UploadQueue Sniff.

(** ** Conversations *)

Definition talk (A : Type) : Type := bytes -> bytes * res ProxyError (A * bytes).

#[export] Instance talk_ret : MRet talk := fun A a s => ([], Ok (a, s)).
#[export] Instance talk_bind : MBind talk := fun A B f m s =>
  match m s with
  | (w, Ok (a, s')) => let '(w', r) := f a s' in (w ++ w', r)
  | (w, Err e) => (w, Err e)
  | (w, Panic) => (w, Panic)
  end.

Definition hear {A} (m : reader ProxyError A) : talk A := fun s => ([], m s).
Definition say (b : bytes) : talk unit := fun s => (b, Ok (tt, s)).
Definition fail {A} (e : ProxyError) : talk A := fun s => ([], Err e).

(** ** SOCKS5 ([socks.rs]) *)

Definition SOCKS_VERSION : Z := 5.
Definition METHOD_NO_AUTH : Z := 0.
Definition METHOD_NO_ACCEPTABLE : Z := 255.
Definition CMD_CONNECT : Z := 1.
Definition CMD_UDP_ASSOCIATE : Z := 3.
Definition RSV : Z := 0.
Definition REP_SUCCESS : Z := 0.
Definition REP_CMD_NOT_SUPPORTED : Z := 7.

Inductive Socks5Request : Type :=
| Connect (dest : Address)
| UdpAssociate.

Definition send_bind_reply (rep : Z) (bind : SocketAddr) : talk unit :=
  let addr := match sa_ip bind with V4 ip => Ipv4 ip (sa_port bind) | V6 ip => Ipv6 ip (sa_port bind) end in
  match write_socks5_address addr with
  | Ok body => say ([SOCKS_VERSION; rep; RSV] ++ body)
  | Err e => fail e
  | Panic => fun s => ([], Panic)
  end.

Definition send_reply (rep : Z) : talk unit := send_bind_reply rep (mkSocketAddr (V4 [0; 0; 0; 0]) 0).

Definition perform_socks5_handshake : talk Socks5Request :=
  ver ← hear read_u8;
  if negb (ver =? SOCKS_VERSION) then fail (Protocol "SOCKS version not supported (expected 5)")
  else
    nmethods ← hear read_u8;
    if nmethods =? 0 then fail (Protocol "no auth methods offered")
    else
      offered ← hear (read_exact (Z.to_nat nmethods));
      if negb (bool_decide (METHOD_NO_AUTH ∈ offered))
      then _ ← say [SOCKS_VERSION; METHOD_NO_ACCEPTABLE]; fail AuthFailed
      else
        _ ← say [SOCKS_VERSION; METHOD_NO_AUTH];
        ver ← hear read_u8;
        if negb (ver =? SOCKS_VERSION) then fail (Protocol "bad version in request")
        else
          cmd ← hear read_u8;
          _ ← hear read_u8;
          atyp ← hear read_u8;
          dest ← hear (read_socks5_address atyp "SOCKS5");
          if cmd =? CMD_CONNECT then _ ← send_reply REP_SUCCESS; mret (Connect dest)
          else if cmd =? CMD_UDP_ASSOCIATE then mret UdpAssociate
          else _ ← send_reply REP_CMD_NOT_SUPPORTED; fail (Protocol "SOCKS5 CMD not supported").

(** [Socks5Inbound::handle] up to the dispatcher or the relay of the association; a UDP
    association answers with the address [bound] of the socket that was bound for it, if
    the system gave one. *)
Definition socks5_handle (bound : option SocketAddr) : talk Socks5Request :=
  request ← perform_socks5_handshake;
  match request with
  | Connect dest => mret (Connect dest)
  | UdpAssociate =>
      match bound with
      | Some addr => _ ← send_bind_reply REP_SUCCESS addr; mret UdpAssociate
      | None => fail (Transport "SOCKS5 UDP bind")
      end
  end.

(** ** HTTP CONNECT ([http_connect.rs]) *)

Definition MAX_HEADER_BYTES : nat := Z.to_nat 8192.

Definition block_ends (b : bytes) : bool :=
  bool_decide (drop (length b - 4) b = [13; 10; 13; 10]) || bool_decide (drop (length b - 2) b = [10; 10]).

(** The loop of [read_bounded_header_block]; it goes on for at most [MAX_HEADER_BYTES]
    rounds. *)
Fixpoint header_block_loop (fuel : nat) (header_block : bytes) : reader ProxyError bytes := fun s =>
  match fuel with
  | O => Err (Protocol "HTTP CONNECT: headers too large")
  | S fuel' =>
      match s with
      | [] => Err (Protocol (if (length header_block =? 0)%nat then "HTTP CONNECT: unexpected EOF"
                             else "HTTP CONNECT: unexpected EOF in headers"))
      | byte :: s' =>
          let header_block := header_block ++ [byte] in
          if block_ends header_block then Ok (header_block, s') else header_block_loop fuel' header_block s'
      end
  end.

Definition read_bounded_header_block : reader ProxyError bytes := header_block_loop MAX_HEADER_BYTES [].

(** [trim_matches] of the two brackets. *)
Definition is_bracket (c : Z) : bool := (c =? 91) || (c =? 93).

Fixpoint trim_brackets_start (s : bytes) : bytes :=
  match s with c :: s' => if is_bracket c then trim_brackets_start s' else s | [] => [] end.

Definition trim_brackets (s : bytes) : bytes := rev (trim_brackets_start (rev (trim_brackets_start s))).

(** The first two of the parts that [splitn(3, ' ')] gives. *)
Definition method_and_target (line : bytes) : bytes * option bytes :=
  match split_once 32 line with
  | Some (method, rest) =>
      (method, Some (match split_once 32 rest with Some (target, _) => target | None => rest end))
  | None => (line, None)
  end.

Definition parse_request_line (line : bytes) : res ProxyError Address :=
  let '(method, target) := method_and_target line in
  if negb (bool_decide (ascii_lower <$> method = ascii_lower <$> str "CONNECT"))
  then Err (Protocol "HTTP CONNECT: expected CONNECT method")
  else
    target ← of_option (Protocol "HTTP CONNECT: missing target") target;
    '(host, port_str) ← of_option (Protocol "HTTP CONNECT: malformed target (no port)") (rsplit_once 58 target);
    port ← of_option (Protocol "HTTP CONNECT: invalid port") (parse_u16 port_str);
    let host := trim_brackets host in
    if (length host =? 0)%nat then Err (Protocol "HTTP CONNECT: empty host in target")
    else
      match parse_ipv4_addr host with
      | Some ip4 => Ok (Ipv4 ip4 port)
      | None =>
          match parse_ipv6_addr host with
          | Some ip6 => Ok (Ipv6 ip6 port)
          | None => Ok (Domain host port)
          end
      end.

Definition parse_connect_request : reader ProxyError Address :=
  header_block ← read_bounded_header_block;
  header_text ← lift (from_utf8 header_block (Protocol "HTTP CONNECT: headers are not valid UTF-8"));
  first_line ← lift (of_option (Protocol "HTTP CONNECT: missing request line") (head (lines header_text)));
  lift (parse_request_line (trim first_line)).

(** [HttpConnectInbound::handle] up to the dispatcher. *)
Definition http_connect_handle : talk Address :=
  dest ← hear parse_connect_request;
  _ ← say (str "HTTP/1.1 200 Connection established" ++ [13; 10; 13; 10]);
  mret dest.

(** * Facts *)

(** ** SOCKS5 *)

Lemma hear_bind {A B} (m : reader ProxyError A) (f : A -> talk B) s a s' :
  m s = Ok (a, s') -> (hear m ≫= f) s = f a s'.
Proof. intros Hm. unfold mbind, talk_bind, hear. rewrite Hm. by destruct (f a s'). Qed.

Lemma hear_u8 {B} b (f : Z -> talk B) s : (hear read_u8 ≫= f) (b :: s) = f b s.
Proof. by apply hear_bind. Qed.

Lemma say_bind {B} w (f : unit -> talk B) s : (say w ≫= f) s = (w ++ (f tt s).1, (f tt s).2).
Proof. unfold mbind, talk_bind, say. by destruct (f tt s). Qed.

(** What the server says when the request is taken or not: an answer without an address,
    and the one with the address of a socket. *)
Definition socks5_reply (rep : Z) : bytes := [5; rep; 0; 1; 0; 0; 0; 0; 0; 0].

Definition bind_reply (a : SocketAddr) : bytes :=
  [5; 0; 0] ++ match sa_ip a with V4 ip => [1] ++ ip | V6 ip => [4] ++ ip end ++ be_bytes 2 (sa_port a).

Lemma send_reply_says rep : send_reply rep = say (socks5_reply rep).
Proof. reflexivity. Qed.

Lemma send_bind_reply_says a : send_bind_reply REP_SUCCESS a = say (bind_reply a).
Proof. unfold send_bind_reply, bind_reply. by destruct (sa_ip a). Qed.

(** The conversation of a client that offers to go without authentication. *)
Lemma socks5_request methods cmd rsv dest w rest :
  METHOD_NO_AUTH ∈ methods -> (length methods <= 255)%nat -> address_ok dest -> bytes_ok rest ->
  write_socks5_address dest = Ok w ->
  perform_socks5_handshake ([5; zlen methods] ++ methods ++ [5; cmd; rsv] ++ w ++ rest) =
    if cmd =? CMD_CONNECT then ([5; 0] ++ socks5_reply 0, Ok (Connect dest, rest))
    else if cmd =? CMD_UDP_ASSOCIATE then ([5; 0], Ok (UdpAssociate, rest))
    else ([5; 0] ++ socks5_reply 7, Err (Protocol "SOCKS5 CMD not supported")).
Proof.
  intros Hm Hl Hd Hr Hw. destruct (read_write_socks5_address dest w rest "SOCKS5" Hd Hr Hw) as (atyp & body & -> & Hread).
  unfold perform_socks5_handshake. cbn [app]. rewrite !hear_u8. cbn [Z.eqb Pos.eqb SOCKS_VERSION negb]. rewrite hear_u8.
  destruct (zlen methods =? 0) eqn:E; bool_hyps.
  { unfold zlen in E. destruct methods; [by apply not_elem_of_nil in Hm|done]. }
  erewrite hear_bind by (apply read_exact_app; by rewrite zlen_to_nat).
  rewrite bool_decide_eq_true_2 by done. cbn [negb]. rewrite say_bind, hear_u8. cbn [Z.eqb Pos.eqb negb SOCKS_VERSION].
  rewrite !hear_u8. erewrite !hear_bind by exact Hread. rewrite !send_reply_says.
  case_match; [by rewrite say_bind|]. case_match; [done|by rewrite say_bind].
Qed.

(** What the handshake has said, by its result. *)
Definition handshake_says (r : res ProxyError (Socks5Request * bytes)) (w : bytes) : Prop :=
  match r with
  | Ok (Connect _, _) => w = [5; 0] ++ socks5_reply 0
  | Ok (UdpAssociate, _) => w = [5; 0]
  | Err AuthFailed => w = [5; 255]
  | Err _ => w = [] \/ w = [5; 0] \/ w = [5; 0] ++ socks5_reply 7
  | Panic => False
  end.

(** Reading fails, if at all, with something else than a refusal. *)
Definition plain_failure {A} (r : res ProxyError A) : Prop :=
  match r with Ok _ => True | Err e => e <> AuthFailed | Panic => False end.

Lemma plain_read_exact n s : plain_failure (read_exact (E := ProxyError) n s).
Proof. unfold read_exact. by case_decide. Qed.

Lemma plain_read_u8 s : plain_failure (read_u8 (E := ProxyError) s).
Proof. by destruct s. Qed.

Lemma plain_bind {A B} (m : reader ProxyError A) (f : A -> reader ProxyError B) s :
  plain_failure (m s) -> (forall a s', plain_failure (f a s')) -> plain_failure ((m ≫= f) s).
Proof. unfold mbind, reader_bind. intros Hm Hf. destruct (m s) as [[a s']|e|]; auto. Qed.

Lemma plain_lift {A} (m : res ProxyError A) s : plain_failure m -> plain_failure (lift m s).
Proof. by destruct m. Qed.

Lemma plain_from_utf8 n msg : plain_failure (from_utf8 n (Protocol msg)).
Proof. unfold from_utf8. by case_match. Qed.

#[local] Hint Resolve plain_read_exact plain_read_u8 plain_from_utf8 : plain.
#[local] Hint Extern 1 (plain_failure (lift _ _)) => apply plain_lift : plain.
#[local] Hint Extern 1 (plain_failure (mret _ _)) => exact I : plain.

Lemma plain_read_u16 s : plain_failure (read_u16 (E := ProxyError) s).
Proof. apply plain_bind; intros; auto with plain. Qed.
#[local] Hint Resolve plain_read_u16 : plain.

Lemma plain_read_socks5_address atyp p s : plain_failure (read_socks5_address atyp p s).
Proof.
  unfold read_socks5_address. repeat case_match; repeat (apply plain_bind; intros); auto with plain. done.
Qed.

(** One question of the conversation: [P] of the rest, if it is answered. *)
Lemma hear_cases {A B} (m : reader ProxyError A) (f : A -> talk B) s (P : bytes * res ProxyError (B * bytes) -> Prop) :
  plain_failure (m s) -> (forall e, e <> AuthFailed -> P ([], Err e)) -> (forall a s', P (f a s')) -> P ((hear m ≫= f) s).
Proof.
  intros Hm He Hf. unfold mbind, talk_bind, hear. destruct (m s) as [[a s']|e|]; [|by apply He|done].
  specialize (Hf a s'). by destruct (f a s').
Qed.

Lemma handshake_always s : let '(w, r) := perform_socks5_handshake s in handshake_says r w.
Proof.
  set (P := fun x : bytes * res ProxyError (Socks5Request * bytes) => let '(w, r) := x in handshake_says r w).
  assert (He : forall w e, e <> AuthFailed -> w = [] \/ w = [5; 0] \/ w = [5; 0] ++ socks5_reply 7 -> P (w, Err e)).
  { intros w e Hne Hw. cbn. by destruct e. }
  change (P (perform_socks5_handshake s)). unfold perform_socks5_handshake.
  apply hear_cases; [auto with plain|eauto|]. intros ver s1. case_match; [apply He; [done|auto]|].
  apply hear_cases; [auto with plain|eauto|]. intros n s2. case_match; [apply He; [done|auto]|].
  apply hear_cases; [auto with plain|eauto|]. intros offered s3. case_match; [done|].
  rewrite say_bind. set (Q := fun x : bytes * res ProxyError (Socks5Request * bytes) => P ([5; 0] ++ x.1, x.2)).
  match goal with |- P (_ ++ (?x).1, _) => change (Q x) end.
  assert (Hq : forall e, e <> AuthFailed -> Q ([], Err e)) by (intros e Hne; apply He; auto).
  apply (hear_cases _ _ _ Q); [auto with plain|auto|]. intros ver' s4. case_match; [apply Hq; done|].
  do 3 (apply (hear_cases _ _ _ Q); [auto with plain|auto|]; intros ? ?).
  apply (hear_cases _ _ _ Q); [apply plain_read_socks5_address|auto|]. intros dest s5.
  rewrite !send_reply_says. case_match; [by rewrite say_bind|]. case_match; [done|]. rewrite say_bind.
  apply He; [done|]. by right; right.
Qed.

(** Whatever a client sends, the server says success exactly if it takes the request: a
    connection goes to the dispatcher, an association has its socket. *)
Definition socks5_says (bound : option SocketAddr) (r : res ProxyError (Socks5Request * bytes)) (w : bytes) : Prop :=
  match r with
  | Ok (Connect _, _) => w = [5; 0] ++ socks5_reply 0
  | Ok (UdpAssociate, _) => exists addr, bound = Some addr /\ w = [5; 0] ++ bind_reply addr
  | Err AuthFailed => w = [5; 255]
  | Err _ => w = [] \/ w = [5; 0] \/ w = [5; 0] ++ socks5_reply 7
  | Panic => False
  end.

Lemma socks5_always bound s : let '(w, r) := socks5_handle bound s in socks5_says bound r w.
Proof.
  pose proof (handshake_always s) as Hs. unfold socks5_handle, mbind at 1, talk_bind at 1.
  destruct (perform_socks5_handshake s) as [w [[[dest|] rest]|e|]]; [..|done].
  - cbn in *. by rewrite Hs.
  - cbn in Hs. subst w. destruct bound as [a|]; [|cbn; auto]. rewrite send_bind_reply_says, say_bind. cbn.
    exists a. by rewrite app_nil_r.
  - done.
Qed.

Lemma socks5_handles bound methods cmd rsv dest w rest :
  METHOD_NO_AUTH ∈ methods -> (length methods <= 255)%nat -> address_ok dest -> bytes_ok rest ->
  write_socks5_address dest = Ok w ->
  socks5_handle bound ([5; zlen methods] ++ methods ++ [5; cmd; rsv] ++ w ++ rest) =
    if cmd =? CMD_CONNECT then ([5; 0] ++ socks5_reply 0, Ok (Connect dest, rest))
    else if cmd =? CMD_UDP_ASSOCIATE then
      match bound with
      | Some a => ([5; 0] ++ bind_reply a, Ok (UdpAssociate, rest))
      | None => ([5; 0], Err (Transport "SOCKS5 UDP bind"))
      end
    else ([5; 0] ++ socks5_reply 7, Err (Protocol "SOCKS5 CMD not supported")).
Proof.
  intros Hm Hl Hd Hr Hw. unfold socks5_handle, mbind at 1, talk_bind at 1.
  rewrite (socks5_request methods cmd rsv dest w rest) by done. destruct (cmd =? CMD_CONNECT); [done|]. destruct (cmd =? CMD_UDP_ASSOCIATE); [|done].
  destruct bound as [a|]; [|done]. rewrite send_bind_reply_says, say_bind. cbn. by rewrite app_nil_r.
Qed.

(** ** HTTP CONNECT *)

(** Reading a header block or a request line does not panic. *)
Lemma plain_header_block fuel acc s : plain_failure (header_block_loop fuel acc s).
Proof.
  revert acc s. induction fuel as [|fuel IH]; intros acc s; [done|]. cbn [header_block_loop].
  destruct s as [|b s]; [done|]. case_match; [done|apply IH].
Qed.

Lemma plain_request_line line : plain_failure (parse_request_line line).
Proof.
  unfold parse_request_line. destruct (method_and_target line) as [m t]. case_match; [done|].
  destruct t as [t|]; [|done]. cbn [of_option mbind res_bind]. destruct (rsplit_once 58 t) as [[h p]|]; [|done].
  cbn [of_option mbind res_bind]. destruct (parse_u16 p); [|done]. cbn [of_option mbind res_bind]. by repeat case_match.
Qed.

Lemma plain_connect_request s : plain_failure (parse_connect_request s).
Proof.
  unfold parse_connect_request. apply plain_bind; [apply plain_header_block|]. intros block s'.
  apply plain_bind; [apply plain_lift, plain_from_utf8|]. intros text s''.
  apply plain_bind; [apply plain_lift; by destruct (head (lines text))|]. intros line s3. apply plain_lift, plain_request_line.
Qed.

(** What the server has said, by whether it read a destination. *)
Definition http_says (x : bytes * res ProxyError (Address * bytes)) : Prop :=
  match x.2 with
  | Ok _ => x.1 = str "HTTP/1.1 200 Connection established" ++ [13; 10; 13; 10]
  | Err _ => x.1 = []
  | Panic => False
  end.

Lemma http_always s : http_says (http_connect_handle s).
Proof.
  unfold http_connect_handle. apply hear_cases; [apply plain_connect_request|done|].
  intros dest s'. rewrite say_bind. unfold http_says. cbn [fst snd mret talk_ret]. by rewrite app_nil_r.
Qed.

Lemma split_on_at c a b : split_on c (a ++ c :: b) = split_on c a ++ split_on c b.
Proof.
  induction a as [|x a IH]; cbn [app split_on]; [by rewrite Z.eqb_refl|]. case_match; [by rewrite IH|].
  rewrite IH. by destruct (split_on_cons c a) as (p & ps & ->).
Qed.

Lemma split_on_single c z : split_on c z = [[]] -> z = [].
Proof.
  destruct z as [|y z]; cbn; [done|]. destruct (split_on_cons c z) as (p & ps & ->). by case_match.
Qed.

(** A header block: non-empty lines, and an empty one. *)
Definition block (ls : list bytes) : bytes := header_lines ls ++ CRLF.

Definition line_ok (l : bytes) : Prop := (10 ∉ l) /\ l <> [].

Lemma split_block ls : Forall line_ok ls -> split_on 10 (block ls) = ((fun l => l ++ [13]) <$> ls) ++ [[13]; []].
Proof.
  unfold block, header_lines. induction 1 as [|l ls [Hl _] _ IH]; [done|]. cbn [fmap list_fmap concat].
  rewrite <- app_assoc. unfold CRLF at 1. replace ((l ++ [13; 10]) ++ concat ((fun h => h ++ CRLF) <$> ls) ++ CRLF)
    with ((l ++ [13]) ++ 10 :: concat ((fun h => h ++ CRLF) <$> ls) ++ CRLF) by (by rewrite <- !app_assoc).
  rewrite split_on_app by (rewrite elem_of_app, list_elem_of_singleton; naive_solver). by rewrite IH.
Qed.

(** The only empty line of a block is its last. *)
Lemma block_blank ls q m z :
  Forall line_ok ls -> m = [] \/ m = [13] -> block ls = q ++ 10 :: m ++ 10 :: z -> z = [].
Proof.
  intros Hls Hm Heq. apply (f_equal (split_on 10)) in Heq. rewrite (split_block ls Hls), split_on_at in Heq.
  rewrite split_on_app in Heq by (destruct Hm as [->| ->]; set_solver).
  destruct (split_on_cons 10 z) as (p & ps & Hz). rewrite Hz in Heq.
  assert (Hlong : Forall (fun l => (2 <= length l)%nat) ((fun l => l ++ [13]) <$> ls)).
  { apply Forall_fmap, Forall_forall. intros l Hl. cbn. rewrite length_app. cbn.
    rewrite Forall_forall in Hls. destruct (Hls l Hl) as [_ Hne]. destruct l; [done|]. cbn. lia. }
  remember ((fun l => l ++ [13]) <$> ls) as pre eqn:Hpre. clear Hpre Hls.
  assert (Hd : pre ++ [[13]; []] = split_on 10 q ++ m :: p :: ps) by exact Heq. clear Heq.
  generalize dependent (split_on 10 q). induction pre as [|x pre IH]; intros qs Hd.
  - destruct qs as [|a [|b qs]]; cbn in Hd.
    + injection Hd as _ <- <-. by apply split_on_single in Hz.
    + injection Hd as _ Hd1 Hd2. done.
    + apply (f_equal length) in Hd. cbn in Hd. rewrite length_app in Hd. cbn in Hd. lia.
  - apply Forall_cons in Hlong as [Hx Hlong]. destruct qs as [|a qs]; cbn in Hd.
    + injection Hd as -> Hd. destruct Hm as [->| ->]; cbn in Hx; lia.
    + injection Hd as _ Hd. by apply (IH Hlong qs).
Qed.

Lemma block_ends_spec b : block_ends b = true -> exists q m, b = q ++ 10 :: m ++ [10] /\ (m = [] \/ m = [13]).
Proof.
  unfold block_ends. intros [H|H]%orb_true_iff; bool_hyps; pose proof (take_drop (length b - 4) b) as E4;
    pose proof (take_drop (length b - 2) b) as E2.
  - rewrite H in E4. exists (take (length b - 4) b ++ [13]), [13]. split; [|by right]. rewrite <- E4 at 1. by rewrite <- app_assoc.
  - rewrite H in E2. exists (take (length b - 2) b), []. split; [|by left]. by rewrite <- E2 at 1.
Qed.

Lemma block_ends_block ls : block_ends (block ls) = true \/ ls = [].
Proof.
  destruct ls as [|l ls] using rev_ind; [by right|left]. clear IHls. unfold block_ends, block, header_lines.
  rewrite fmap_app, concat_app. cbn. rewrite app_nil_r. set (a := concat _).
  replace ((a ++ l ++ CRLF) ++ CRLF) with ((a ++ l) ++ [13; 10; 13; 10]) by (by rewrite <- !app_assoc).
  rewrite length_app. cbn [length]. rewrite Nat.add_sub, drop_app_length. by rewrite bool_decide_eq_true_2.
Qed.

(** The loop reads a block, and not a byte of what follows. *)
Lemma header_block_loop_reads fuel acc blk rest :
  blk <> [] -> (length blk <= fuel)%nat -> block_ends (acc ++ blk) = true ->
  (forall p, p `prefix_of` blk -> p <> blk -> p <> [] -> block_ends (acc ++ p) = false) ->
  header_block_loop fuel acc (blk ++ rest) = Ok (acc ++ blk, rest).
Proof.
  revert acc blk. induction fuel as [|fuel IH]; intros acc [|x blk] Hne Hf He Hp; cbn in Hf; try done; [lia|].
  cbn [header_block_loop app]. destruct (decide (blk = [])) as [->|Hb]; [by rewrite He|].
  rewrite (Hp [x]); [|by eexists|by intros [= ?]|done].
  rewrite (IH (acc ++ [x]) blk); [by rewrite <- app_assoc|done|lia|by rewrite <- app_assoc|].
  intros p Hpre Hneq Hnil. rewrite <- app_assoc. cbn. apply Hp; [by apply prefix_cons|congruence|done].
Qed.

Lemma read_block ls rest :
  ls <> [] -> Forall line_ok ls -> (length (block ls) <= MAX_HEADER_BYTES)%nat ->
  read_bounded_header_block (block ls ++ rest) = Ok (block ls, rest).
Proof.
  intros Hne Hls Hlen. unfold read_bounded_header_block. apply (header_block_loop_reads _ []); try done.
  - unfold block. by destruct (header_lines ls).
  - cbn [app]. by destruct (block_ends_block ls).
  - intros p [z Hz] Hneq _. cbn [app]. destruct (block_ends p) eqn:He; [|done]. exfalso.
    apply block_ends_spec in He as (q & m & -> & Hm). rewrite <- !app_assoc in Hz. cbn in Hz. rewrite <- app_assoc in Hz.
    apply (block_blank ls q m z Hls Hm) in Hz as Hzn. subst z. cbn in Hz. congruence.
Qed.

(** The request line of a client. *)
Definition authority (dest : Address) : bytes :=
  match dest with
  | Ipv4 ip _ => show_ipv4 ip
  | Ipv6 ip _ => [91] ++ show_ipv6 ip ++ [93]
  | Domain d _ => d
  end ++ [58] ++ show_dec (port dest).

Definition connect_line (method : bytes) (dest : Address) : bytes :=
  method ++ [32] ++ authority dest ++ [32] ++ str "HTTP/1.1".

(** A name that is not read as an address and does not break the line. *)
Definition plain_name (d : bytes) : Prop :=
  d <> [] /\ (32 ∉ d) /\ (10 ∉ d) /\ trim_brackets d = d /\ parse_ipv4_addr d = None /\ parse_ipv6_addr d = None.

Definition http_dest (dest : Address) : Prop :=
  address_ok dest /\ match dest with Domain d _ => plain_name d | _ => True end.

Lemma trim_brackets_start_id c s : is_bracket c = false -> trim_brackets_start (c :: s) = c :: s.
Proof. cbn. by intros ->. Qed.

Lemma text_is_not_bracket c : text_char c -> is_bracket c = false.
Proof. unfold text_char, is_bracket. intros H. apply orb_false_iff. split; apply Z.eqb_neq; lia. Qed.

(** Brackets around a text without brackets are taken off. *)
Lemma trim_brackets_text s pre post :
  s <> [] -> Forall text_char s -> Forall (fun c => is_bracket c = true) pre -> Forall (fun c => is_bracket c = true) post ->
  trim_brackets (pre ++ s ++ post) = s.
Proof.
  intros Hne Hs Hpre Hpost. unfold trim_brackets.
  assert (Hskip : forall a b, Forall (fun c => is_bracket c = true) a -> trim_brackets_start (a ++ b) = trim_brackets_start b).
  { intros a b. induction 1 as [|c a Hc _ IH]; [done|]. cbn. by rewrite Hc. }
  rewrite Hskip by done. destruct s as [|c s]; [done|]. apply Forall_cons in Hs as [Hc Hs].
  cbn [app]. rewrite trim_brackets_start_id by (by apply text_is_not_bracket).
  change (c :: s ++ post) with ((c :: s) ++ post). rewrite rev_app_distr, Hskip by (by apply Forall_rev).
  destruct (rev (c :: s)) as [|e r] eqn:Er.
  { apply (f_equal length) in Er. rewrite length_rev in Er. done. }
  rewrite trim_brackets_start_id; [by rewrite <- Er, rev_involutive|].
  apply text_is_not_bracket. assert (Hin : e ∈ c :: s).
  { apply list_elem_of_In, in_rev. rewrite Er. by left. }
  apply elem_of_cons in Hin as [->|Hin]; [done|]. rewrite Forall_forall in Hs. by apply Hs.
Qed.

Lemma show_nonempty radix n : 2 <= radix -> show_radix radix n <> [].
Proof.
  intros _. unfold show_radix. cbn. case_match; [done|]. intros H0. apply (f_equal length) in H0.
  rewrite length_fmap, length_app in H0. cbn in H0. lia.
Qed.

Lemma show_ipv4_nonempty o : length o = 4%nat -> show_ipv4 o <> [].
Proof.
  intros Hl. destruct o as [|a [|b [|c [|e [|? ?]]]]]; try done. unfold show_ipv4. cbn [join fmap list_fmap].
  pose proof (show_nonempty 10 a ltac:(lia)) as Ha. unfold show_dec. by destruct (show_radix 10 a).
Qed.

Lemma show_ipv6_nonempty o : bytes_ok o -> length o = 16%nat -> show_ipv6 o <> [].
Proof. intros Ho Hl E. pose proof (parse_ipv6_show o Ho Hl) as H. by rewrite E in H. Qed.

(** An IPv6 address in text starts with a colon or with a group that a colon follows. *)
Lemma show_ipv6_not_ipv4 o : bytes_ok o -> length o = 16%nat -> parse_ipv4_addr (show_ipv6 o) = None.
Proof.
  intros Ho Hl.
  assert (Hnone : read_ipv4_addr (show_ipv6 o) = None); [|unfold parse_ipv4_addr, parse_with; rewrite Hnone; by case_match].
  assert (Hcolon : forall s, read_ipv4_addr (58 :: s) = None).
  { intros s. destruct (read_ipv4_addr (58 :: s)) as [[a r]|] eqn:E; [|done]. by destruct (read_ipv4_dot _ _ _ E) as [s' Hs']. }
  unfold show_ipv6. destruct (to_ipv4_mapped o); [apply Hcolon|].
  destruct (segments_spec 8 o Ho Hl) as (_ & Hlen & Hall). destruct (zero_span _ _ _ _) as [st ln].
  assert (Hjoin : forall l rest, Forall in_u16 l -> l <> [] -> colon_or_end rest -> read_ipv4_addr (join 58 (show_hex <$> l) ++ rest) = None).
  { intros l rest Hl' Hne Hr. destruct l as [|g [|h l]]; [done| |]; apply Forall_cons in Hl' as [Hg _].
    - by apply read_ipv4_hex.
    - cbn [fmap list_fmap join]. rewrite <- !app_assoc. by apply read_ipv4_hex. }
  case_match.
  - destruct (take st (segments o)) as [|g l] eqn:Et; [apply Hcolon|]. apply Hjoin; [|done|done].
    rewrite <- Et. by apply Forall_take.
  - rewrite <- (app_nil_r (join _ _)). apply Hjoin; [done| |done]. intros Hn. by rewrite Hn in Hlen.
Qed.

Lemma method_no_space m : ascii_lower <$> m = ascii_lower <$> str "CONNECT" -> 32 ∉ m.
Proof.
  intros Hm Hin. assert (H : ascii_lower 32 ∈ ascii_lower <$> m) by (by apply list_elem_of_fmap_2).
  rewrite Hm in H. vm_compute in H. by repeat (apply elem_of_cons in H as [H|H]; [done|]); apply not_elem_of_nil in H.
Qed.

Lemma text_no_space l : Forall text_char l -> 32 ∉ l /\ 10 ∉ l.
Proof. intros H. split; apply (text_char_not_in _ l H); unfold text_char; lia. Qed.

Lemma port_no_space p : in_u16 p -> (32 ∉ show_dec p) /\ (10 ∉ show_dec p).
Proof.
  intros Hp. apply text_no_space. unfold in_u16 in Hp. eapply Forall_impl; [apply (show_radix_text 10 p); lia|]. cbn. tauto.
Qed.

Definition host_text (dest : Address) : bytes :=
  match dest with Ipv4 ip _ => show_ipv4 ip | Ipv6 ip _ => [91] ++ show_ipv6 ip ++ [93] | Domain d _ => d end.

(** The host part, and that it is read as the address it was written for. *)
Lemma host_text_read dest : http_dest dest ->
  (32 ∉ host_text dest) /\ (10 ∉ host_text dest) /\ trim_brackets (host_text dest) <> [] /\
  forall p, port dest = p ->
    match parse_ipv4_addr (trim_brackets (host_text dest)) with
    | Some ip4 => Ipv4 ip4 p
    | None => match parse_ipv6_addr (trim_brackets (host_text dest)) with
              | Some ip6 => Ipv6 ip6 p
              | None => Domain (trim_brackets (host_text dest)) p
              end
    end = dest.
Proof.
  intros [[Hp Hd] Hn]. destruct dest as [i p|i p|d p]; cbn [host_text].
  - destruct Hd as [Hi Hl]. pose proof (show_ipv4_text i Hi) as Ht.
    pose proof (trim_brackets_text (show_ipv4 i) [] [] (show_ipv4_nonempty i Hl) Ht ltac:(done) ltac:(done)) as Htrim.
    rewrite app_nil_r in Htrim. cbn [app] in Htrim. rewrite Htrim.
    destruct (text_no_space _ Ht). split_and!; [done..|by apply show_ipv4_nonempty|].
    intros ? <-. by rewrite parse_ipv4_show.
  - destruct Hd as [Hi Hl]. pose proof (show_ipv6_text i Hi Hl) as Ht.
    pose proof (show_ipv6_nonempty i Hi Hl) as Hne. rewrite (trim_brackets_text (show_ipv6 i) [91] [93]); [|done|done|by repeat constructor..].
    destruct (text_no_space _ Ht). split_and!.
    + cbn. rewrite elem_of_cons, elem_of_app, list_elem_of_singleton. intros [?|[?|?]]; done.
    + cbn. rewrite elem_of_cons, elem_of_app, list_elem_of_singleton. intros [?|[?|?]]; done.
    + done.
    + intros ? <-. by rewrite show_ipv6_not_ipv4, parse_ipv6_show.
  - destruct Hn as (Hne & H32 & H10 & Htrim & H4 & H6). rewrite Htrim. split_and!; [done..|]. intros ? <-. by rewrite H4, H6.
Qed.

Lemma parse_connect_line method dest :
  ascii_lower <$> method = ascii_lower <$> str "CONNECT" -> http_dest dest ->
  parse_request_line (connect_line method dest) = Ok dest.
Proof.
  intros Hm Hd. destruct (host_text_read dest Hd) as (H32 & _ & Hne & Hread). destruct Hd as [[Hp Hok] _].
  destruct (port_no_space (port dest) Hp) as [Hp32 _]. pose proof (show_dec_no_colon (port dest) Hp) as Hcol.
  unfold parse_request_line, connect_line, method_and_target. cbn [app]. rewrite split_once_app by (by apply method_no_space).
  change (authority dest) with (host_text dest ++ 58 :: show_dec (port dest)).
  rewrite split_once_app.
  2: { rewrite elem_of_app, elem_of_cons. intros [?|[?|?]]; done. }
  rewrite bool_decide_eq_true_2 by done. cbn [negb of_option]. mred. rewrite rsplit_once_app by done. cbn [of_option]. mred.
  rewrite parse_u16_show by done. cbn [of_option]. mred.
  destruct (length (trim_brackets (host_text dest)) =? 0)%nat eqn:E; bool_hyps; [by apply nil_length_inv in E|].
  specialize (Hread _ eq_refl). repeat case_match; by rewrite Hread.
Qed.

Lemma trim_id b x y c : graphic b -> graphic c -> b :: x = y ++ [c] -> trim (b :: x) = b :: x.
Proof.
  intros Hb Hc Heq. unfold trim. rewrite trim_start_stop by (by apply whitespace_heads).
  assert (Hr : list_basics.list.reverse (b :: x) = c :: list_basics.list.reverse y) by (by rewrite Heq, reverse_app).
  rewrite Hr, trim_start_stop by (by apply whitespace_heads). by rewrite <- Hr, reverse_involutive.
Qed.

Lemma method_letters m : ascii_lower <$> m = ascii_lower <$> str "CONNECT" -> Forall graphic m /\ m <> [].
Proof.
  intros Hm. split; [|by intros ->].
  assert (H : Forall (fun b => 97 <= b <= 122) (ascii_lower <$> m)).
  { rewrite Hm. let l := eval vm_compute in (ascii_lower <$> str "CONNECT") in change (ascii_lower <$> str "CONNECT") with l.
    repeat (apply Forall_cons; split; [lia|]). apply Forall_nil. done. }
  apply Forall_fmap in H. eapply Forall_impl; [exact H|]. intros b. unfold compose, ascii_lower, is_ascii_uppercase, graphic.
  case_match; bool_hyps; lia.
Qed.

Lemma utf8_ascii l : Forall (fun c => c < 128) l -> utf8_valid l = true.
Proof. apply utf8_valid_ascii. Qed.

Lemma host_text_utf8 dest : http_dest dest -> utf8_valid (host_text dest) = true.
Proof.
  intros [[_ Hd] _].
  assert (Ht : forall l, Forall text_char l -> Forall (fun c => c < 128) l).
  { intros l Hl. eapply Forall_impl; [exact Hl|]. unfold text_char. intros. lia. }
  destruct dest as [i p|i p|d p]; cbn [host_text].
  - apply utf8_ascii, Ht, show_ipv4_text, Hd.
  - destruct Hd as [Hi Hl]. apply utf8_ascii, Forall_app. split; [by repeat constructor|]. apply Forall_app.
    split; [by apply Ht, show_ipv6_text|by repeat constructor].
  - apply Hd.
Qed.

Lemma connect_line_ok method dest :
  ascii_lower <$> method = ascii_lower <$> str "CONNECT" -> http_dest dest ->
  line_ok (connect_line method dest) /\ utf8_valid (connect_line method dest) = true /\
  trim (connect_line method dest) = connect_line method dest.
Proof.
  intros Hm Hd. destruct (method_letters method Hm) as [Hg Hne]. destruct (host_text_read dest Hd) as (_ & H10 & _).
  pose proof (host_text_utf8 dest Hd) as Hu. destruct Hd as [[Hp _] _]. destruct (port_no_space _ Hp) as [_ Hp10].
  unfold connect_line. change (authority dest) with (host_text dest ++ [58] ++ show_dec (port dest)).
  assert (Hport : Forall (fun c => c < 128) (show_dec (port dest))).
  { unfold in_u16 in Hp. eapply Forall_impl; [apply (show_radix_text 10 (port dest)); lia|]. unfold text_char. intros. lia. }
  split; [split|split].
  - assert (Hlit : forall l, Forall (fun c => 11 <= c) l -> 10 ∉ l).
    { intros l Hl Hin. rewrite Forall_forall in Hl. specialize (Hl _ Hin). cbn in Hl. lia. }
    repeat (apply not_elem_of_app; split); try done; apply Hlit;
      [eapply Forall_impl; [exact Hg|unfold graphic; intros; lia]| | | |].
    1, 2, 3: by repeat constructor.
    let l := eval vm_compute in (str "HTTP/1.1") in change (str "HTTP/1.1") with l.
    repeat (apply Forall_cons; split; [lia|]). apply Forall_nil. done.
  - by destruct method.
  - apply utf8_valid_app; [apply utf8_ascii; eapply Forall_impl; [exact Hg|unfold graphic; intros; lia]|].
    apply utf8_valid_app; [done|]. apply utf8_valid_app; [|done]. apply utf8_valid_app; [done|].
    apply utf8_valid_app; [done|]. by apply utf8_ascii.
  - destruct method as [|b m]; [done|]. apply Forall_cons in Hg as [Hb _]. cbn [app].
    eapply (trim_id b _ (b :: m ++ [32] ++ (host_text dest ++ [58] ++ show_dec (port dest)) ++ [32] ++ str "HTTP/1.") 49);
      [done|unfold graphic; lia|].
    change (str "HTTP/1.1") with (str "HTTP/1." ++ [49]). rewrite <- !app_comm_cons. repeat (rewrite <- app_assoc; cbn [app]). reflexivity.
Qed.


Definition sample_v6 : Address := Ipv6 ([32; 1; 13; 184] ++ replicate 11 0 ++ [1]) 443.

