(* ===== verification/Tuic.v ===== *)
(** * TUIC v5

    [blackwire-transport] [tuic.rs]: the commands and addresses on the wire, the
    authentication of a connection, the sessions of the client, and the relay of UDP
    packets with its workers, its table of sessions and the sockets they share.  A QUIC
    stream is the bytes it carries, a QUIC datagram a byte string.  The keying material
    exporter of TLS, name resolution, sockets and the clock are arguments. *)

From S2P Require Import Prelude Common Limits.

Definition TUIC_VERSION : Z := 5.
Definition CMD_AUTHENTICATE : Z := 0.
Definition CMD_CONNECT : Z := 1.
Definition CMD_PACKET : Z := 2.
Definition CMD_DISSOCIATE : Z := 3.
Definition CMD_HEARTBEAT : Z := 4.
Definition ADDR_DOMAIN : Z := 0.
Definition ADDR_IPV4 : Z := 1.
Definition ADDR_IPV6 : Z := 2.
Definition ADDR_NONE : Z := 255.
Definition UDP_SESSION_IDLE : Z := 60 * 10 ^ 9.
Definition MAX_CLIENT_SESSIONS : Z := 8.
Definition MAX_UDP_SESSIONS_PER_CONN : Z := 512.
Definition MAX_UDP_WORKERS_PER_CONN : Z := 256.
Definition MAX_PACKET_SIZE : nat := Z.to_nat (64 * 1024).

(** ** Commands *)

(** [recv.read_exact(..).map_err(|e| Transport(e.to_string()))] *)
Definition rx (n : nat) : reader ProxyError bytes := fun s =>
  map_err (fun _ => Transport "stream finished early") (read_exact (E:=ProxyError) n s).

Definition tuic_read_u16 : reader ProxyError Z := raw ← rx 2; mret (be_val raw).

Definition validate_header (header : bytes) (expected_type : Z) : res ProxyError unit :=
  v ← idx header 0;
  if negb (v =? TUIC_VERSION) then Err (Protocol "unsupported TUIC version")
  else
    c ← idx header 1;
    if negb (c =? expected_type) then Err (Protocol "unexpected TUIC command type") else Ok tt.

Definition encode_address (addr : option Address) : res ProxyError bytes :=
  match addr with
  | None => Ok [ADDR_NONE]
  | Some (Domain host port) =>
      if 255 <? zlen host then Err (Protocol "TUIC domain too long")
      else Ok ([ADDR_DOMAIN; as_u8 (zlen host)] ++ host ++ be_bytes 2 port)
  | Some (Ipv4 ip port) => Ok ([ADDR_IPV4] ++ ip ++ be_bytes 2 port)
  | Some (Ipv6 ip port) => Ok ([ADDR_IPV6] ++ ip ++ be_bytes 2 port)
  end.

Definition decode_address_from_stream (allow_none : bool) : reader ProxyError Address :=
  typ ← rx 1;
  t ← lift (idx typ 0);
  if (t =? ADDR_NONE) && allow_none then lift (Err (Protocol "TUIC address none"))
  else if t =? ADDR_DOMAIN then
    len ← rx 1;
    n ← lift (idx len 0);
    host ← rx (Z.to_nat n);
    port ← tuic_read_u16;
    host ← lift (from_utf8 host (Protocol "bad TUIC domain"));
    mret (Domain host port)
  else if t =? ADDR_IPV4 then
    octets ← rx 4; port ← tuic_read_u16; mret (Ipv4 octets port)
  else if t =? ADDR_IPV6 then
    octets ← rx 16; port ← tuic_read_u16; mret (Ipv6 octets port)
  else lift (Err (Protocol "unsupported TUIC address type")).

Definition write_connect_command (dest : Address) : res ProxyError bytes :=
  a ← encode_address (Some dest); Ok ([TUIC_VERSION; CMD_CONNECT] ++ a).

Definition read_connect_command : reader ProxyError Address :=
  header ← rx 2;
  _ ← lift (validate_header header CMD_CONNECT);
  decode_address_from_stream false.

Definition encode_dissociate (assoc_id : Z) : bytes := [TUIC_VERSION; CMD_DISSOCIATE] ++ be_bytes 2 assoc_id.
Definition encode_heartbeat : bytes := [TUIC_VERSION; CMD_HEARTBEAT].

(** ** Packets

    [Bytes::get_u8], [get_u16], [copy_to_bytes] and [copy_to_slice] take from the front
    and panic when there is too little. *)

Definition get {E} (n : nat) : reader E bytes := fun s =>
  if decide (n <= length s)%nat then Ok (take n s, drop n s) else Panic.
Definition get_u8 {E} : reader E Z := raw ← get 1; mret (be_val raw).
Definition get_u16 {E} : reader E Z := raw ← get 2; mret (be_val raw).
Definition remaining {E} : reader E nat := fun s => Ok (length s, s).

Record TuicUdpPacket : Type := mkPacket { assoc_id : Z; pkt_id : Z; pkt_addr : Address; pkt_data : bytes }.

Definition encode_udp_packet (packet : TuicUdpPacket) : res ProxyError bytes :=
  let buf := [TUIC_VERSION; CMD_PACKET] ++ be_bytes 2 (assoc_id packet) ++ be_bytes 2 (pkt_id packet) ++ [1; 0] in
  if 65535 <? zlen (pkt_data packet) then Err (Protocol "TUIC UDP packet too large")
  else
    let buf := buf ++ be_bytes 2 (as_u16 (zlen (pkt_data packet))) in
    a ← encode_address (Some (pkt_addr packet));
    Ok (buf ++ a ++ pkt_data packet).

Definition decode_address_from_buf (allow_none : bool) : reader ProxyError Address :=
  left ← remaining;
  if (left =? 0)%nat then lift (Err (Protocol "TUIC address missing"))
  else
    t ← get_u8;
    left ← remaining;
    if (t =? ADDR_NONE) && allow_none then lift (Err (Protocol "TUIC address none"))
    else if t =? ADDR_DOMAIN then
      if (left <? 1)%nat then lift (Err (Protocol "TUIC domain length missing"))
      else
        len ← get_u8;
        left ← remaining;
        if (left <? Z.to_nat len + 2)%nat then lift (Err (Protocol "TUIC domain address truncated"))
        else
          host ← get (Z.to_nat len);
          port ← get_u16;
          host ← lift (from_utf8 host (Protocol "bad TUIC domain"));
          mret (Domain host port)
    else if t =? ADDR_IPV4 then
      if (left <? 6)%nat then lift (Err (Protocol "TUIC IPv4 address truncated"))
      else octets ← get 4; port ← get_u16; mret (Ipv4 octets port)
    else if t =? ADDR_IPV6 then
      if (left <? 18)%nat then lift (Err (Protocol "TUIC IPv6 address truncated"))
      else octets ← get 16; port ← get_u16; mret (Ipv6 octets port)
    else lift (Err (Protocol "unsupported TUIC address type")).

Definition decode_packet_body : reader ProxyError TuicUdpPacket :=
  version ← get_u8;
  command ← get_u8;
  if negb (version =? TUIC_VERSION) || negb (command =? CMD_PACKET)
  then lift (Err (Protocol "not a TUIC packet command"))
  else
    assoc ← get_u16;
    pkt ← get_u16;
    frag_total ← get_u8;
    frag_id ← get_u8;
    size ← get_u16;
    if negb (frag_total =? 1) || negb (frag_id =? 0)
    then lift (Err (Protocol "fragmented TUIC UDP packets are not supported yet"))
    else
      addr ← decode_address_from_buf false;
      left ← remaining;
      if (left <? Z.to_nat size)%nat then lift (Err (Protocol "TUIC UDP payload truncated"))
      else data ← get (Z.to_nat size); mret (mkPacket assoc pkt addr data).

Definition decode_udp_packet (raw : bytes) : res ProxyError TuicUdpPacket :=
  if (length raw <? 10)%nat then Err (Protocol "TUIC UDP packet too short")
  else p ← decode_packet_body raw; Ok p.1.

(** ** Authentication *)

Record TuicUser : Type := mkUser { uuid : bytes; password : bytes; label : option bytes }.
Record TuicAuthUser : Type := mkAuthUser { au_password : bytes; au_label : option bytes }.

(** [TuicAuthStore]: the users as one atomic reference. *)
Record TuicAuthStore : Type := mkStore { users : list TuicUser }.
Definition replace_users (s : TuicAuthStore) (us : list TuicUser) : TuicAuthStore := mkStore us.
Definition snapshot (s : TuicAuthStore) : list TuicUser := users s.

(** The map that [serve_connection] collects: a later user replaces an earlier one. *)
Definition auth_map (us : list TuicUser) : gmap bytes TuicAuthUser :=
  foldl (fun m u => <[uuid u := mkAuthUser (password u) (label u)]> m) ∅ us.

(** Errors of [anyhow] are their first message. *)
#[local] Instance string_eof : EofError string := "stream finished early"%string.

(** One unidirectional stream of a client that is not authenticated yet: when it is
    accepted, what it carries, and when reading it came to an end (nothing, or the end of
    the stream, may never arrive); instants count from the start. *)
Record UniStream : Type := mkUni { opened : Z; carries : bytes; read_at : option Z }.

Section Authentication.
(** [conn.export_keying_material(.., label, context)] on the connection at hand; both
    ends of a TLS connection export the same. *)
Context (export_keying_material : bytes -> bytes -> option bytes).

Definition export_token (uuid password : bytes) : res unit bytes :=
  of_option tt (export_keying_material uuid password).

Definition write_authenticate_command (uuid password : bytes) : res ProxyError bytes :=
  token ← map_err (fun _ => Transport "export TUIC token") (export_token uuid password);
  Ok ([TUIC_VERSION; CMD_AUTHENTICATE] ++ uuid ++ token).

Definition read_authenticate_command (us : gmap bytes TuicAuthUser) : reader string bytes :=
  header ← read_exact 2;
  if negb (bool_decide (header = [TUIC_VERSION; CMD_AUTHENTICATE])) then lift (Err "expected authenticate command"%string)
  else
    body ← read_exact 48;
    let id := take 16 body in
    match us !! id with
    | None => lift (Err "unknown TUIC UUID"%string)
    | Some user =>
        expected ← lift (map_err (fun _ => "export TUIC token"%string) (export_token id (au_password user)));
        if negb (bool_decide (drop 16 body = expected)) then lift (Err "bad TUIC token"%string) else mret id
    end.

(** What becomes of the wait: a result, or a read that no timer bounds. *)
Inductive auth_outcome : Type :=
| Authenticated (id : bytes) (at_ : Z)
| Refused (msg : string) (at_ : Z)
| StillReading.

(** [auth_timeout] bounds the acceptance of a stream only. *)
Fixpoint accept_authentication_from (us : gmap bytes TuicAuthUser) (auth_timeout elapsed : Z)
    (streams : list UniStream) : auth_outcome :=
  let left := Z.max 0 (auth_timeout - elapsed) in
  if left =? 0 then Refused "authentication timed out" elapsed
  else
    match streams with
    | [] => Refused "accept TUIC authentication stream timed out" auth_timeout
    | s :: rest =>
        if elapsed + left <? opened s then Refused "accept TUIC authentication stream timed out" auth_timeout
        else
          match read_at s with
          | None => StillReading
          | Some t =>
              let now := Z.max (Z.max elapsed (opened s)) t in
              match read_authenticate_command us (carries s) with
              | Ok (id, _) => Authenticated id now
              | _ => accept_authentication_from us auth_timeout now rest
              end
          end
    end.

Definition accept_authentication (us : gmap bytes TuicAuthUser) (auth_timeout : Z) (streams : list UniStream) :
    auth_outcome :=
  accept_authentication_from us auth_timeout 0 streams.

(** The start of [serve_connection], if it gets past the authentication: the user's label
    and permit, or the reason to close. *)
Definition admit_connection (store : TuicAuthStore) (auth_timeout : Z) (streams : list UniStream)
    (limiter : option Limiter.UserConnectionLimiter) :
    option (option Limiter.UserConnectionLimiter * res string (option bytes * option Limiter.UserConnectionPermit)) :=
  let us := auth_map (snapshot store) in
  match accept_authentication us auth_timeout streams with
  | Authenticated id _ =>
      let user := us !! id ≫= au_label in
      match limiter, user with
      | Some l, Some u =>
          match Limiter.try_acquire l (Some u) with
          | (l', Some permit) => Some (Some l', Ok (user, Some permit))
          | (l', None) => Some (Some l', Err "per-user TUIC connection limit reached"%string)
          end
      | _, _ => Some (limiter, Ok (user, None))
      end
  | Refused msg _ => Some (limiter, Err msg)
  | StillReading => None
  end.
End Authentication.

(** ** Server endpoints *)

(** [server_endpoints]: the first endpoint has to bind, the others may fail. *)
Fixpoint bind_endpoints (build : nat -> res string nat) (idx count : nat) : res string (list nat) :=
  match count with
  | O => Ok []
  | S count' =>
      match build idx with
      | Ok e => es ← bind_endpoints build (S idx) count'; Ok (e :: es)
      | Err e => if (0 <? idx)%nat then Ok [] else Err e
      | Panic => Panic
      end
  end.

Definition server_endpoints (reuse_port : bool) (endpoint_count : nat) (build : nat -> res string nat) :
    res string (list nat) :=
  let requested := Nat.max endpoint_count 1 in
  let count := if reuse_port then requested else 1%nat in
  bind_endpoints build 0 count.

(** ** The client *)

(** [TuicClient]: a connection is a number; [next_session] is a wrapping [AtomicUsize]. *)
Record TuicClient : Type := mkClient { client_sessions : list (option nat); next_session : Z }.

Definition TuicClient_new (endpoint_shards : Z) : TuicClient :=
  let shard_count := Z.max 1 (Z.min endpoint_shards MAX_CLIENT_SESSIONS) in
  mkClient (replicate (Z.to_nat shard_count) None) 0.

(** [session(shard)]: the connection of the shard while it is open, or a new one.  [dial]
    is the outcome of connecting and authenticating. *)
Definition session (closed : nat -> bool) (dial : res ProxyError nat) (c : TuicClient) (shard : nat) :
    TuicClient * res ProxyError nat :=
  match client_sessions c !! shard with
  | None => (c, Panic)
  | Some cached =>
      let redial :=
        match dial with
        | Ok conn => (mkClient (<[shard := Some conn]> (client_sessions c)) (next_session c), Ok conn)
        | Err e => (c, Err e)
        | Panic => (c, Panic)
        end in
      match cached with
      | Some conn => if negb (closed conn) then (c, Ok conn) else redial
      | None => redial
      end
  end.

(** [connect_and_dial]: the connection that is used and the bytes at the start of the
    stream opened on it. *)
Definition connect_and_dial (closed : nat -> bool) (dial open_bi : res ProxyError nat) (c : TuicClient) (dest : Address) :
    TuicClient * res ProxyError (nat * bytes) :=
  let shard := Z.to_nat (next_session c mod zlen (client_sessions c)) in
  let c := mkClient (client_sessions c) (as_u64 (next_session c + 1)) in
  match session closed dial c shard with
  | (c, Ok conn) => (c, _ ← open_bi; w ← write_connect_command dest; Ok (conn, w))
  | (c, Err e) => (c, Err e)
  | (c, Panic) => (c, Panic)
  end.

(** [TuicUdpSession] *)
Record TuicUdpSession : Type := mkUdpClient { own_assoc_id : Z; next_packet_id : Z }.

Definition udp_send (s : TuicUdpSession) (dest : Address) (data : bytes) : TuicUdpSession * res ProxyError bytes :=
  (mkUdpClient (own_assoc_id s) (as_u16 (next_packet_id s + 1)),
   encode_udp_packet (mkPacket (own_assoc_id s) (next_packet_id s) dest data)).

(** [recv]: the first packet of the association among the datagrams that arrive, with the
    datagrams behind it; [None] while it still waits. *)
Fixpoint udp_recv (s : TuicUdpSession) (datagrams : list bytes) : option (res ProxyError TuicUdpPacket * list bytes) :=
  match datagrams with
  | [] => None
  | raw :: rest =>
      match decode_udp_packet raw with
      | Ok p => if assoc_id p =? own_assoc_id s then Some (Ok p, rest) else udp_recv s rest
      | Err e => Some (Err e, rest)
      | Panic => Some (Panic, rest)
      end
  end.

(** ** The relay of UDP packets *)

Fixpoint prefer_ipv4_from (first : option SocketAddr) (addrs : list SocketAddr) : option SocketAddr :=
  match addrs with
  | [] => first
  | a :: rest =>
      let first := match first with None => Some a | Some f => Some f end in
      if negb (is_ipv6 a) then Some a else prefer_ipv4_from first rest
  end.
Definition prefer_ipv4 (addrs : list SocketAddr) : option SocketAddr := prefer_ipv4_from None addrs.

Definition resolve_address (lookup_host : bytes -> Z -> res ProxyError (list SocketAddr)) (addr : Address) :
    res ProxyError SocketAddr :=
  match addr with
  | Ipv4 ip port => Ok (mkSocketAddr (V4 ip) port)
  | Ipv6 ip port => Ok (mkSocketAddr (V6 ip) port)
  | Domain host port =>
      addrs ← map_err (fun _ => Transport "lookup failed") (lookup_host host port);
      of_option (DnsResolutionFailed host) (prefer_ipv4 addrs)
  end.

Record UdpSession : Type := mkUdpSession { socket : nat; last_used : Z }.

(** A bound socket: its family, and the datagrams that have arrived and were not read. *)
Record UdpSocket : Type := mkSocket { sock_v6 : bool; inbox : list (bytes * SocketAddr) }.

(** Where a worker, a task that runs [handle_udp_packet], waits. *)
Inductive worker : Type :=
| Resolving (p : TuicUdpPacket)
| Binding (p : TuicUdpPacket) (dest : SocketAddr)
| Sending (p : TuicUdpPacket) (sock : nat) (dest : SocketAddr)
| Receiving (p : TuicUdpPacket) (sock : nat)
| Finished.

Record UdpState : Type := mkUdp {
  sessions : gmap (Z * bool) UdpSession;
  sockets : list UdpSocket;
  workers : list worker;
  permits : Z
}.

Definition udp_start : UdpState := mkUdp ∅ [] [] MAX_UDP_WORKERS_PER_CONN.

Inductive udp_effect : Type :=
| ToUpstream (sock : nat) (data : bytes) (dest : SocketAddr)
| ToClient (raw : bytes)
| RecordTraffic (up down : Z).

Definition cleanup_stale_udp_sessions (ss : gmap (Z * bool) UdpSession) (now : Z) : gmap (Z * bool) UdpSession :=
  let cutoff := now - UDP_SESSION_IDLE in
  filter (fun e => cutoff < last_used e.2) ss.

(** One round of [serve_udp_datagrams]: a datagram arrives on the connection. *)
Definition serve_datagram (now : Z) (raw : bytes) (st : UdpState) : UdpState :=
  match decode_udp_packet raw with
  | Ok packet =>
      let ss := if MAX_UDP_SESSIONS_PER_CONN <? Z.of_nat (size (sessions st))
                then cleanup_stale_udp_sessions (sessions st) now else sessions st in
      if permits st =? 0 then mkUdp ss (sockets st) (workers st) (permits st)
      else mkUdp ss (sockets st) (workers st ++ [Resolving packet]) (permits st - 1)
  | _ => st
  end.

(** What a worker can be woken with. *)
Inductive wakeup : Type :=
| Resolved (lookup_host : bytes -> Z -> res ProxyError (list SocketAddr)) (now : Z)
| Bound (ok : bool) (now : Z)
| Sent (ok : bool)
| Received (datagram_sent : bool)
| ReceiveFailed.

Definition set_worker (i : nat) (w : worker) (st : UdpState) : UdpState :=
  mkUdp (sessions st) (sockets st) (<[i := w]> (workers st)) (permits st).

(** The task ends and drops its permit. *)
Definition finish (i : nat) (st : UdpState) : UdpState :=
  mkUdp (sessions st) (sockets st) (<[i := Finished]> (workers st)) (permits st + 1).

(** [handle_udp_packet] of worker [i] from one [await] to the next; [None] when it does
    not wait for this. *)
Definition handle_udp_packet (i : nat) (w : worker) (ev : wakeup) (st : UdpState) : option (UdpState * list udp_effect) :=
  match w, ev with
  | Resolving p, Resolved lookup_host now =>
      match resolve_address lookup_host (pkt_addr p) with
      | Ok dest =>
          let session_key := (assoc_id p, is_ipv6 dest) in
          match sessions st !! session_key with
          | Some s =>
              let st := mkUdp (<[session_key := mkUdpSession (socket s) now]> (sessions st)) (sockets st) (workers st) (permits st) in
              Some (set_worker i (Sending p (socket s) dest) st, [])
          | None => Some (set_worker i (Binding p dest) st, [])
          end
      | _ => Some (finish i st, [])
      end
  | Binding p dest, Bound ok now =>
      if ok then
        let session_key := (assoc_id p, is_ipv6 dest) in
        let sock := length (sockets st) in
        let st := mkUdp (<[session_key := mkUdpSession sock now]> (sessions st))
                        (sockets st ++ [mkSocket (is_ipv6 dest) []]) (workers st) (permits st) in
        Some (set_worker i (Sending p sock dest) st, [])
      else Some (finish i st, [])
  | Sending p sock dest, Sent ok =>
      if ok then
        Some (set_worker i (Receiving p sock) st, [ToUpstream sock (pkt_data p) dest; RecordTraffic (zlen (pkt_data p)) 0])
      else Some (finish i st, [])
  | Receiving p sock, Received datagram_sent =>
      match sockets st !! sock with
      | Some (mkSocket v6 ((data, src) :: queue)) =>
          let data := take MAX_PACKET_SIZE data in
          let st := mkUdp (sessions st) (<[sock := mkSocket v6 queue]> (sockets st)) (workers st) (permits st) in
          let reply := mkPacket (assoc_id p) (pkt_id p) (from_socket_addr src) data in
          match encode_udp_packet reply with
          | Ok raw =>
              if datagram_sent then Some (finish i st, [ToClient raw; RecordTraffic 0 (zlen data)])
              else Some (finish i st, [])
          | _ => Some (finish i st, [])
          end
      | _ => None
      end
  | Receiving p sock, ReceiveFailed => Some (finish i st, [])
  | _, _ => None
  end.

(** A datagram reaches the socket [sock]. *)
Definition arrive (sock : nat) (data : bytes) (src : SocketAddr) (st : UdpState) : UdpState :=
  match sockets st !! sock with
  | Some s => mkUdp (sessions st) (<[sock := mkSocket (sock_v6 s) (inbox s ++ [(data, src)])]> (sockets st))
                    (workers st) (permits st)
  | None => st
  end.

(** The connection, its workers and the network take turns. *)
Inductive udp_step (st : UdpState) : list udp_effect -> UdpState -> Prop :=
| step_datagram now raw : bytes_ok raw -> udp_step st [] (serve_datagram now raw st)
| step_worker i w ev st' es :
    workers st !! i = Some w -> handle_udp_packet i w ev st = Some (st', es) -> udp_step st es st'
| step_arrive sock data src :
    bytes_ok data -> zlen data <= 65507 -> address_ok (from_socket_addr src) ->
    udp_step st [] (arrive sock data src st).

(** The states that a connection reaches, with everything that it did on the way. *)
Inductive udp_reaches : list udp_effect -> UdpState -> Prop :=
| reach_start : udp_reaches [] udp_start
| reach_step done st es st' : udp_reaches done st -> udp_step st es st' -> udp_reaches (done ++ es) st'.

(** The packet that a round of the connection hands to a new worker, if any. *)
Definition accepted (raw : bytes) (st : UdpState) : list TuicUdpPacket :=
  match decode_udp_packet raw with
  | Ok p => if permits st =? 0 then [] else [p]
  | _ => []
  end.

(** What a connection has been through: the packets that got a worker, in the order of
    the workers, and every wake-up of a worker with what the worker did on it. *)
Notation wake_log := (list (nat * wakeup * list udp_effect)).

Definition of_worker (i : nat) (log : wake_log) : wake_log := filter (fun x => x.1.1 = i) log.
Definition wakeups_of (i : nat) (log : wake_log) : list wakeup := (fun x => x.1.2) <$> of_worker i log.
Definition effects_of (i : nat) (log : wake_log) : list udp_effect := concat (snd <$> of_worker i log).

Inductive udp_runs : list TuicUdpPacket -> wake_log -> UdpState -> Prop :=
| run_start : udp_runs [] [] udp_start
| run_datagram ps log st now raw :
    udp_runs ps log st -> bytes_ok raw -> udp_runs (ps ++ accepted raw st) log (serve_datagram now raw st)
| run_worker ps log st i w ev st' es :
    udp_runs ps log st -> workers st !! i = Some w -> handle_udp_packet i w ev st = Some (st', es) ->
    udp_runs ps (log ++ [(i, ev, es)]) st'
| run_arrive ps log st sock data src :
    udp_runs ps log st -> bytes_ok data -> zlen data <= 65507 -> address_ok (from_socket_addr src) ->
    udp_runs ps log (arrive sock data src st).

(** * Facts *)

(** ** Taking from the front *)

Section Codec.
Lemma rx_ok n s : (n <= length s)%nat -> rx n s = Ok (take n s, drop n s).
Proof. intros Hn. unfold rx, read_exact. by rewrite decide_True. Qed.

Lemma rx_short n s : (length s < n)%nat -> rx n s = Err (Transport "stream finished early").
Proof. intros Hn. unfold rx, read_exact. by rewrite decide_False by lia. Qed.

Lemma get_ok {E} n s : (n <= length s)%nat -> get (E:=E) n s = Ok (take n s, drop n s).
Proof. intros Hn. unfold get. by rewrite decide_True. Qed.

Lemma bind_rx {A} n (f : bytes -> reader ProxyError A) s :
  (n <= length s)%nat -> (rx n ≫= f) s = f (take n s) (drop n s).
Proof. intros Hn. apply reader_bind_ok. by rewrite rx_ok. Qed.

Lemma bind_rx_short {A} n (f : bytes -> reader ProxyError A) s :
  (length s < n)%nat -> (rx n ≫= f) s = Err (Transport "stream finished early").
Proof. intros Hn. unfold mbind, reader_bind. by rewrite rx_short. Qed.

Lemma bind_get {E A} n (f : bytes -> reader E A) s :
  (n <= length s)%nat -> (get n ≫= f) s = f (take n s) (drop n s).
Proof. intros Hn. apply reader_bind_ok. by rewrite get_ok. Qed.

Lemma bind_get_u8 {E A} (f : Z -> reader E A) b s : (get_u8 ≫= f) (b :: s) = f b s.
Proof.
  apply reader_bind_ok. unfold get_u8. rewrite bind_get by (cbn; lia). cbn [take drop]. by rewrite be_val_1.
Qed.

Lemma bind_get_u16 {E A} (f : Z -> reader E A) s :
  (2 <= length s)%nat -> (get_u16 ≫= f) s = f (be_val (take 2 s)) (drop 2 s).
Proof. intros Hs. apply reader_bind_ok. unfold get_u16. by rewrite bind_get. Qed.

Lemma bind_read_u16 {A} (f : Z -> reader ProxyError A) s :
  (2 <= length s)%nat -> (tuic_read_u16 ≫= f) s = f (be_val (take 2 s)) (drop 2 s).
Proof. intros Hs. apply reader_bind_ok. unfold tuic_read_u16. by rewrite bind_rx. Qed.

Lemma bind_read_u16_short {A} (f : Z -> reader ProxyError A) s :
  (length s < 2)%nat -> (tuic_read_u16 ≫= f) s = Err (Transport "stream finished early").
Proof. intros Hs. unfold tuic_read_u16 at 1, mbind at 1, reader_bind at 1. by rewrite bind_rx_short. Qed.

Lemma idx_head {E} b (s : bytes) : idx (E:=E) (b :: s) 0 = Ok b.
Proof. done. Qed.

Lemma bind_get_app {E A} n (f : bytes -> reader E A) l s : n = length l -> (get n ≫= f) (l ++ s) = f l s.
Proof.
  intros ->. rewrite bind_get by (rewrite length_app; lia). by rewrite take_app_length, drop_app_length.
Qed.

Lemma bind_get_be16 {E A} (f : Z -> reader E A) x s :
  in_u16 x -> (get_u16 ≫= f) (be_bytes 2 x ++ s) = f x s.
Proof.
  intros Hx. rewrite bind_get_u16 by (rewrite length_app, length_be_bytes; lia).
  rewrite take_app_length', drop_app_length' by (by rewrite length_be_bytes). by rewrite be_val_be_bytes_id.
Qed.

Lemma bind_remaining {E A} (f : nat -> reader E A) s : (remaining ≫= f) s = f (length s) s.
Proof. done. Qed.

(** ** Addresses *)

(** The decoder of datagrams and the decoder of streams are the same partial function;
    the former does not panic. *)
Definition same_outcome {A} (a b : res ProxyError A) : Prop :=
  match a, b with Ok x, Ok y => x = y | Err _, Err _ => True | _, _ => False end.

Lemma fixed_address_agrees n (C : bytes -> Z -> Address) msg s :
  same_outcome
    ((octets ← rx n; port ← tuic_read_u16; mret (C octets port)) s)
    ((if (length s <? n + 2)%nat then lift (Err (Protocol msg)) else octets ← get n; port ← get_u16; mret (C octets port)) s).
Proof.
  destruct (Nat.ltb_spec (length s) (n + 2)) as [Hs|Hs].
  - destruct (decide (n <= length s)%nat) as [Hn|Hn].
    + rewrite bind_rx, bind_read_u16_short by (rewrite ?length_drop; lia). done.
    + by rewrite bind_rx_short by lia.
  - rewrite bind_rx, bind_read_u16, bind_get, bind_get_u16 by (rewrite ?length_drop; lia). done.
Qed.

Lemma address_decoders_agree allow s :
  same_outcome (decode_address_from_stream allow s) (decode_address_from_buf allow s).
Proof.
  unfold decode_address_from_stream, decode_address_from_buf. rewrite bind_remaining.
  destruct s as [|t s]; [by rewrite bind_rx_short by (cbn; lia)|]. cbn [length Nat.eqb].
  rewrite bind_rx, bind_get_u8 by (cbn; lia). cbn [take drop]. rewrite ?drop_0, bind_remaining. rewrite idx_head.
  rewrite bind_lift. destruct (_ && allow); [done|].
  destruct (t =? ADDR_DOMAIN).
  - destruct s as [|n s]; [by rewrite bind_rx_short by (cbn; lia)|].
    change (length (n :: s) <? 1)%nat with false. cbv iota. cbn [drop]. rewrite bind_rx, bind_get_u8 by (cbn; lia). cbn [take drop]. rewrite ?drop_0, bind_remaining. rewrite idx_head, bind_lift. destruct (Nat.ltb_spec (length s) (Z.to_nat n + 2)) as [Hs|Hs].
    + destruct (decide (Z.to_nat n <= length s)%nat).
      * by rewrite bind_rx, bind_read_u16_short by (rewrite ?length_drop; lia).
      * by rewrite bind_rx_short by lia.
    + rewrite bind_rx, bind_read_u16, bind_get, bind_get_u16 by (rewrite ?length_drop; lia).
      unfold from_utf8. by destruct (utf8_valid _).
  - destruct (t =? ADDR_IPV4); [apply (fixed_address_agrees 4 Ipv4)|].
    destruct (t =? ADDR_IPV6); [apply (fixed_address_agrees 16 Ipv6)|done].
Qed.

Lemma encode_address_total a :
  (name_fits a -> exists w, encode_address (Some a) = Ok w) /\
  (~ name_fits a -> encode_address (Some a) = Err (Protocol "TUIC domain too long")).
Proof.
  destruct a as [i p|i p|d p]; cbn [name_fits encode_address]; split; try done; try (by eexists); intros Hf; unfold zlen.
  - rewrite (proj2 (Z.ltb_ge _ _)) by lia. by eexists.
  - rewrite (proj2 (Z.ltb_lt _ _)) by lia. done.
Qed.

Lemma decode_encode_address a w rest :
  address_ok a -> encode_address (Some a) = Ok w -> decode_address_from_buf false (w ++ rest) = Ok (a, rest).
Proof.
  intros [Hp Ha] Hw. unfold decode_address_from_buf. rewrite bind_remaining.
  destruct a as [i p|i p|d p]; cbn [encode_address port] in *.
  - destruct Ha as [_ Hl]. injection Hw as <-. cbn [app length Nat.eqb]. rewrite bind_get_u8, bind_remaining.
    eval_eqb. cbn [andb]. rewrite <- !app_assoc. skip_guard.
    rewrite bind_get_app, bind_get_be16 by done. done.
  - destruct Ha as [_ Hl]. injection Hw as <-. cbn [app length Nat.eqb]. rewrite bind_get_u8, bind_remaining.
    eval_eqb. cbn [andb]. rewrite <- !app_assoc. skip_guard.
    rewrite bind_get_app, bind_get_be16 by done. done.
  - destruct Ha as [_ Hu]. case_match; [done|]. bool_hyps. injection Hw as <-.
    cbn [app length Nat.eqb]. rewrite bind_get_u8, bind_remaining. eval_eqb. cbn [andb].
    match goal with |- context [(?k <? 1)%nat] => change (k <? 1)%nat with false end.
    cbv iota. rewrite bind_get_u8, bind_remaining. rewrite <- !app_assoc.
    assert (Hn : Z.to_nat (as_u8 (zlen d)) = length d).
    { unfold as_u8, zlen in *. rewrite Z.mod_small by lia. lia. }
    rewrite Hn. skip_guard. rewrite bind_get_app, bind_get_be16 by done.
    unfold from_utf8. by rewrite Hu.
Qed.

Lemma stream_encode_address a w rest :
  address_ok a -> encode_address (Some a) = Ok w -> decode_address_from_stream false (w ++ rest) = Ok (a, rest).
Proof.
  intros Ha Hw. pose proof (address_decoders_agree false (w ++ rest)) as Hs.
  rewrite (decode_encode_address a w rest Ha Hw) in Hs. by destruct (decode_address_from_stream false (w ++ rest)); cbn in Hs; subst.
Qed.

Lemma connect_command_roundtrip dest w rest :
  address_ok dest -> write_connect_command dest = Ok w -> read_connect_command (w ++ rest) = Ok (dest, rest).
Proof.
  intros Hd Hw. unfold write_connect_command in Hw. destruct (encode_address (Some dest)) as [a| |] eqn:Ha; [|done..].
  injection Hw as <-. unfold read_connect_command. rewrite bind_rx by (cbn; lia). cbn [take drop app].
  rewrite (bind_lift _ tt). by apply stream_encode_address.
Qed.

(** ** Packets *)

Record packet_ok (p : TuicUdpPacket) : Prop := {
  po_assoc : in_u16 (assoc_id p);
  po_pkt : in_u16 (pkt_id p);
  po_addr : address_ok (pkt_addr p)
}.

Definition packet_fits (p : TuicUdpPacket) : Prop := name_fits (pkt_addr p) /\ zlen (pkt_data p) <= 65535.

Lemma encode_udp_packet_total p :
  (packet_fits p -> exists raw, encode_udp_packet p = Ok raw) /\
  (~ packet_fits p -> exists msg, encode_udp_packet p = Err (Protocol msg)).
Proof.
  unfold packet_fits, encode_udp_packet. destruct (encode_address_total (pkt_addr p)) as [Ht Hf]. split.
  - intros [Hn Hl]. rewrite (proj2 (Z.ltb_ge _ _)) by lia. destruct (Ht Hn) as [w ->]. by eexists.
  - intros Hno. destruct (Z.ltb_spec 65535 (zlen (pkt_data p))); [by eexists|].
    rewrite Hf by (intros ?; apply Hno; split; [done|lia]). by eexists.
Qed.

Lemma decode_encode_packet p raw : packet_ok p -> encode_udp_packet p = Ok raw -> decode_udp_packet raw = Ok p.
Proof.
  intros [Ha Hk Had] He. unfold encode_udp_packet in He. case_match; [done|]. bool_hyps.
  destruct (encode_address (Some (pkt_addr p))) as [w| |] eqn:Hw; [|done..].
  apply Ok_inj in He. subst raw. unfold decode_udp_packet. skip_guard. unfold decode_packet_body. cbn [app].
  rewrite !bind_get_u8. eval_eqb. cbn [negb orb]. rewrite <- !app_assoc, !bind_get_be16 by done.
  cbn [app]. rewrite !bind_get_u8. unfold as_u16. rewrite Z.mod_small by (unfold zlen in *; lia).
  rewrite bind_get_be16 by (unfold in_u16, zlen in *; lia).
  eval_eqb. cbn [negb orb]. rewrite (reader_bind_ok _ _ _ _ _ (decode_encode_address _ w (pkt_data p) Had Hw)).
  rewrite bind_remaining. unfold zlen. rewrite Nat2Z.id, Nat.ltb_irrefl.
  rewrite <- (app_nil_r (pkt_data p)) at 2. rewrite bind_get_app by done. by destruct p.
Qed.

Lemma bind_no_panic {E A B} (m : reader E A) (f : A -> reader E B) s :
  no_panic (m s) -> (forall a s', m s = Ok (a, s') -> no_panic (f a s')) -> no_panic ((m ≫= f) s).
Proof. unfold no_panic, mbind, reader_bind. intros Hm Hf. destruct (m s) as [[a s']| |]; [by apply Hf|done..]. Qed.

Lemma address_no_panic allow s : no_panic (decode_address_from_buf allow s).
Proof.
  pose proof (address_decoders_agree allow s) as Ha. intros Hp. rewrite Hp in Ha.
  by destruct (decode_address_from_stream allow s).
Qed.

(** Whatever a datagram holds, decoding it does not panic. *)
Lemma decode_udp_packet_no_panic raw : no_panic (decode_udp_packet raw).
Proof.
  unfold decode_udp_packet. destruct (Nat.ltb_spec (length raw) 10) as [|Hl]; [done|].
  do 10 (destruct raw as [|? raw]; [cbn in Hl; lia|]). clear Hl.
  apply no_panic_bind; [|done]. unfold decode_packet_body. rewrite !bind_get_u8. case_match; [done|].
  rewrite bind_get_u16 by (cbn; lia). cbn [take drop]. rewrite ?drop_0.
  rewrite bind_get_u16 by (cbn; lia). cbn [take drop]. rewrite ?drop_0, !bind_get_u8.
  rewrite bind_get_u16 by (cbn; lia). cbn [take drop]. rewrite ?drop_0. case_match; [done|].
  apply bind_no_panic; [apply address_no_panic|]. intros a s' _. rewrite bind_remaining.
  case_match; [done|]. bool_hyps. by rewrite bind_get by lia.
Qed.

Lemma be16_ok s : bytes_ok s -> (2 <= length s)%nat -> in_u16 (be_val (take 2 s)).
Proof.
  intros Hs Hl. destruct s as [|a [|b s]]; cbn in Hl; try lia. inv Hs. match goal with H : Forall _ (b :: s) |- _ => inv H end.
  by apply be_val_u16.
Qed.

Lemma fixed_address_ok n (C : bytes -> Z -> Address) msg s a s' :
  bytes_ok s -> (forall i p, bytes_ok i -> length i = n -> in_u16 p -> address_ok (C i p)) ->
  (if (length s <? n + 2)%nat then lift (Err (Protocol msg)) else octets ← get n; port ← get_u16; mret (C octets port)) s =
    Ok (a, s') -> address_ok a.
Proof.
  intros Hs HC. case_match; [done|]. bool_hyps. rewrite bind_get, bind_get_u16 by (rewrite ?length_drop; lia).
  intros [= <- _]. apply HC; [by apply bytes_ok_take|rewrite length_take; lia|].
  apply be16_ok; [by apply bytes_ok_drop|rewrite length_drop; lia].
Qed.

Lemma decoded_address_ok s a s' :
  bytes_ok s -> decode_address_from_buf false s = Ok (a, s') -> address_ok a.
Proof.
  intros Hs. unfold decode_address_from_buf. rewrite bind_remaining. destruct s as [|t s]; [done|]. cbn [length Nat.eqb].
  rewrite bind_get_u8, bind_remaining, andb_false_r. apply Forall_cons in Hs as [_ Hs].
  destruct (t =? ADDR_DOMAIN).
  - destruct s as [|n s]; [done|]. change (length (n :: s) <? 1)%nat with false. cbv iota.
    apply Forall_cons in Hs as [_ Hs]. rewrite bind_get_u8, bind_remaining. case_match; [done|]. bool_hyps.
    rewrite bind_get, bind_get_u16 by (rewrite ?length_drop; lia). unfold from_utf8.
    destruct (utf8_valid _) eqn:Hu; [|done]. intros [= <- _]. split; [|by split; [apply bytes_ok_take|]].
    apply be16_ok; [by apply bytes_ok_drop|rewrite length_drop; lia].
  - destruct (t =? ADDR_IPV4); [|destruct (t =? ADDR_IPV6); [|done]].
    + apply (fixed_address_ok 4 Ipv4); [done|]. by intros.
    + apply (fixed_address_ok 16 Ipv6); [done|]. by intros.
Qed.

(** What is decoded is well formed. *)
Lemma decoded_packet_ok raw p : bytes_ok raw -> decode_udp_packet raw = Ok p -> packet_ok p.
Proof.
  intros Hb. unfold decode_udp_packet. destruct (Nat.ltb_spec (length raw) 10) as [|Hl]; [done|].
  do 10 (destruct raw as [|? raw]; [cbn in Hl; lia|]). clear Hl.
  unfold bytes_ok in Hb. rewrite !Forall_cons in Hb. destruct_and! Hb.
  unfold decode_packet_body. rewrite !bind_get_u8. case_match; [done|].
  rewrite bind_get_u16 by (cbn; lia). cbn [take drop]. rewrite ?drop_0.
  rewrite bind_get_u16 by (cbn; lia). cbn [take drop]. rewrite ?drop_0, !bind_get_u8.
  rewrite bind_get_u16 by (cbn; lia). cbn [take drop]. rewrite ?drop_0. case_match; [done|].
  unfold mbind at 2, reader_bind at 1. destruct (decode_address_from_buf false raw) as [[a s']| |] eqn:Ha; [|done..].
  rewrite bind_remaining. case_match; [done|]. bool_hyps. rewrite bind_get by lia. intros [= <-].
  split; cbn [assoc_id pkt_id pkt_addr]; [by apply be_val_u16..|]. by eapply decoded_address_ok.
Qed.

(** Heartbeats and dissociations are not packets; as datagrams they are dropped. *)
Lemma other_commands_dropped id :
  decode_udp_packet encode_heartbeat = Err (Protocol "TUIC UDP packet too short") /\
  decode_udp_packet (encode_dissociate id) = Err (Protocol "TUIC UDP packet too short").
Proof. done. Qed.
End Codec.

(** ** Authentication *)

Section AuthFacts.
Context (export_keying_material : bytes -> bytes -> option bytes).

Lemma auth_map_snoc us u : auth_map (us ++ [u]) = <[uuid u := mkAuthUser (password u) (label u)]> (auth_map us).
Proof. unfold auth_map. by rewrite foldl_app. Qed.

(** The last user with an identifier counts. *)
Lemma auth_map_lookup us id a :
  auth_map us !! id = Some a <->
  exists us1 u us2, us = us1 ++ u :: us2 /\ uuid u = id /\ a = mkAuthUser (password u) (label u) /\
    Forall (fun v => uuid v <> id) us2.
Proof.
  induction us as [|u us IH] using rev_ind.
  - split; [done|]. intros (us1 & u & us2 & Heq & _). by destruct us1.
  - rewrite auth_map_snoc. destruct (decide (uuid u = id)) as [<-|Hne].
    + rewrite lookup_insert_eq. split.
      * intros [= <-]. exists us, u, []. done.
      * intros (us1 & v & us2 & Heq & Hv & -> & Hf). destruct us2 as [|w us2 _] using rev_ind.
        { apply app_inj_tail in Heq as [_ ->]. done. }
        rewrite app_comm_cons, app_assoc in Heq. apply app_inj_tail in Heq as [_ ->].
        apply Forall_app in Hf as [_ Hf]. by apply Forall_cons in Hf as [? _].
    + rewrite lookup_insert_ne by done. rewrite IH. split.
      * intros (us1 & v & us2 & -> & Hv & -> & Hf). exists us1, v, (us2 ++ [u]). split_and!; [|done..|].
        { by rewrite <- app_assoc. } apply Forall_app. by split; [|apply Forall_singleton].
      * intros (us1 & v & us2 & Heq & Hv & -> & Hf). destruct us2 as [|w us2 _] using rev_ind.
        { apply app_inj_tail in Heq as [_ ->]. done. }
        rewrite app_comm_cons, app_assoc in Heq. apply app_inj_tail in Heq as [-> ->].
        apply Forall_app in Hf as [Hf _]. by exists us1, v, us2.
Qed.

(** A stream authenticates a user exactly when it starts with the command, a known
    identifier and the token that this connection exports for the user's password. *)
Lemma read_authenticate_spec us s id rest :
  read_authenticate_command export_keying_material us s = Ok (id, rest) <->
  length id = 16%nat /\ exists user token, us !! id = Some user /\ length token = 32%nat /\
    export_keying_material id (au_password user) = Some token /\
    s = [TUIC_VERSION; CMD_AUTHENTICATE] ++ id ++ token ++ rest.
Proof.
  unfold read_authenticate_command. split.
  - intros Hr. destruct (decide (2 <= length s)%nat) as [Hl|Hl].
    2:{ unfold mbind, reader_bind in Hr. by rewrite read_exact_short in Hr by lia. }
    rewrite (reader_bind_ok (read_exact 2) _ s (take 2 s) (drop 2 s)) in Hr by (unfold read_exact; by rewrite decide_True).
    case_match eqn:Hh; [done|]. bool_hyps. destruct (decide (48 <= length (drop 2 s))%nat) as [Hb|Hb].
    2:{ unfold mbind, reader_bind in Hr. by rewrite read_exact_short in Hr by lia. }
    rewrite (reader_bind_ok (read_exact 48) _ (drop 2 s) (take 48 (drop 2 s)) (drop 48 (drop 2 s))) in Hr
      by (unfold read_exact; by rewrite decide_True).
    set (body := take 48 (drop 2 s)) in *. assert (Hlb : length body = 48%nat) by (unfold body; rewrite length_take; lia).
    destruct (us !! take 16 body) as [user|] eqn:Hu; [|done]. unfold export_token in Hr.
    destruct (export_keying_material (take 16 body) (au_password user)) as [token|] eqn:Ht; [|done].
    cbn [of_option map_err] in Hr. unfold mbind, reader_bind, lift in Hr. case_match eqn:Hd; [done|]. bool_hyps.
    injection Hr as <- <-. split; [rewrite length_take; lia|]. exists user, token. rewrite <- Hd.
    split_and!; [done|rewrite length_drop; lia|by rewrite Hd|].
    rewrite app_assoc, (app_assoc _ (drop 16 body)). rewrite <- (app_assoc _ (take 16 body)), take_drop.
    rewrite <- Hh. rewrite <- app_assoc. unfold body. by rewrite !take_drop.
  - intros (Hid & user & token & Hu & Hlt & Ht & ->).
    rewrite (reader_bind_ok (read_exact 2) _ _ [TUIC_VERSION; CMD_AUTHENTICATE] (id ++ token ++ rest)) by (by apply read_exact_app).
    rewrite bool_decide_eq_true_2 by done. cbn [negb]. rewrite (app_assoc id).
    rewrite (reader_bind_ok (read_exact 48) _ _ (id ++ token) rest)
      by (apply read_exact_app; rewrite length_app; lia).
    rewrite take_app_length', drop_app_length' by done. rewrite Hu. unfold export_token. rewrite Ht.
    cbn [of_option map_err]. unfold mbind, reader_bind, lift. by rewrite bool_decide_eq_true_2.
Qed.

(** Who is accepted has sent the token of his password on this connection. *)
Lemma accept_sound us auth_timeout elapsed streams id t :
  accept_authentication_from export_keying_material us auth_timeout elapsed streams = Authenticated id t ->
  exists s rest, s ∈ streams /\ read_authenticate_command export_keying_material us (carries s) = Ok (id, rest).
Proof.
  revert elapsed. induction streams as [|s streams IH]; intros elapsed; cbn; case_match; try done.
  case_match; [done|]. destruct (read_at s) as [ts|]; [|done].
  destruct (read_authenticate_command _ us (carries s)) as [[id' rest]|e|] eqn:Hr.
  - intros [= <- _]. exists s, rest. split; [apply list_elem_of_here|done].
  - intros (s' & rest & Hin & Hok)%IH. exists s', rest. split; [by apply list_elem_of_further|done].
  - intros (s' & rest & Hin & Hok)%IH. exists s', rest. split; [by apply list_elem_of_further|done].
Qed.

(** A client whose command is in time is accepted, whatever streams of other kinds came
    before it. *)
Lemma accept_complete us auth_timeout elapsed before s after id t rest :
  elapsed < auth_timeout ->
  Forall (fun b => opened b <= auth_timeout /\ (exists ts, read_at b = Some ts /\ Z.max (opened b) ts < auth_timeout) /\
    is_ok (read_authenticate_command export_keying_material us (carries b)) = false) before ->
  opened s <= auth_timeout -> read_at s = Some t ->
  read_authenticate_command export_keying_material us (carries s) = Ok (id, rest) ->
  exists at_, accept_authentication_from export_keying_material us auth_timeout elapsed (before ++ s :: after) =
    Authenticated id at_.
Proof.
  intros He Hb Ho Ht Hr. revert elapsed He.
  induction Hb as [|b before (Hbo & (ts & Hts & Hlt) & Hbad) _ IH]; intros elapsed He; cbn [app accept_authentication_from].
  - case_match; bool_hyps; [lia|]. case_match; bool_hyps; [lia|]. rewrite Ht, Hr. by eexists.
  - case_match; bool_hyps; [lia|]. case_match; bool_hyps; [lia|]. rewrite Hts.
    destruct (read_authenticate_command _ us (carries b)); [done|apply IH; lia..].
Qed.

(** The timeout does not bound the reading of a stream: a client that opens one and sends
    nothing stays unauthenticated for as long as it likes. *)
Lemma auth_deadline_missed us auth_timeout rest :
  0 < auth_timeout -> accept_authentication export_keying_material us auth_timeout (mkUni 0 [] None :: rest) = StillReading.
Proof. intros Ht. unfold accept_authentication. cbn. case_match; bool_hyps; [lia|]. by case_match; bool_hyps; [lia|]. Qed.

Lemma own_command_accepted us id user w rest :
  length id = 16%nat -> us !! id = Some user ->
  (forall token, export_keying_material id (au_password user) = Some token -> length token = 32%nat) ->
  write_authenticate_command export_keying_material id (au_password user) = Ok w ->
  read_authenticate_command export_keying_material us (w ++ rest) = Ok (id, rest).
Proof.
  intros Hid Hu Hlen Hw. unfold write_authenticate_command, export_token in Hw.
  destruct (export_keying_material id (au_password user)) as [token|] eqn:Ht; [|done]. apply Ok_inj in Hw. subst w.
  apply read_authenticate_spec. split; [done|]. exists user, token. split_and!; [done|by apply Hlen|done|].
  by rewrite <- !app_assoc.
Qed.
End AuthFacts.

(** ** The client *)

Section ClientFacts.
Context (closed : nat -> bool) (dial open_bi : res ProxyError nat).

Definition client_ok (c : TuicClient) : Prop := 1 <= zlen (client_sessions c) <= MAX_CLIENT_SESSIONS.

Lemma client_new_ok shards : client_ok (TuicClient_new shards).
Proof. unfold client_ok, zlen, TuicClient_new, MAX_CLIENT_SESSIONS. cbn. rewrite length_replicate. lia. Qed.

(** Dialling uses the next shard, keeps its connection while it is open, and replaces no
    other; it does not index out of range. *)
Lemma connect_and_dial_spec c dest :
  client_ok c ->
  let shard := Z.to_nat (next_session c mod zlen (client_sessions c)) in
  let '(c', r) := connect_and_dial closed dial open_bi c dest in
  client_ok c' /\ next_session c' = as_u64 (next_session c + 1) /\
  (forall j, j <> shard -> client_sessions c' !! j = client_sessions c !! j) /\
  (forall conn, client_sessions c !! shard = Some (Some conn) -> closed conn = false ->
     client_sessions c' = client_sessions c /\ forall conn' w, r = Ok (conn', w) -> conn' = conn) /\
  (no_panic dial -> no_panic open_bi -> no_panic r).
Proof.
  intros Hc shard. unfold connect_and_dial. fold shard. unfold session. cbn [client_sessions next_session].
  assert (Hs : (shard < length (client_sessions c))%nat).
  { unfold shard, client_ok, zlen in *. pose proof (Z.mod_pos_bound (next_session c) (Z.of_nat (length (client_sessions c)))). lia. }
  destruct (lookup_lt_is_Some_2 _ _ Hs) as [cached Hca]. rewrite Hca.
  assert (Hnp : no_panic open_bi -> forall conn : nat, no_panic (_ ← open_bi; w ← write_connect_command dest; Ok (conn, w))).
  { intros Ho conn. apply no_panic_bind; [done|]. intros _ _. apply no_panic_bind; [|done]. unfold write_connect_command.
    apply no_panic_bind; [|done]. unfold encode_address. by repeat case_match. }
  assert (Hin : forall (conn' conn : nat) w, (_ ← open_bi; w ← write_connect_command dest; Ok (conn, w)) = Ok (conn', w) -> conn' = conn).
  { intros conn' conn w. destruct open_bi; [|done..]. mred.
    destruct (write_connect_command dest); mred; congruence. }
  destruct cached as [conn|]; [destruct (closed conn) eqn:Hcl; cbn [negb]|].
  2:{ split_and!; [exact Hc|done|done| |by intros _ Ho; apply Hnp]. intros ? [= <-] _. split; [done|]. intros ? ?. apply Hin. }
  all: destruct dial as [conn'|e|]; (split; [|split; [|split; [|split]]]); try done; try (by intros); try congruence.
  all: try (unfold client_ok, zlen in *; cbn; by rewrite length_insert).
  all: try (intros j Hj; cbn; by rewrite list_lookup_insert_ne by done).
  all: intros _ Ho; by apply Hnp.
Qed.

(** Packets of other associations are passed over. *)
Lemma udp_recv_own s others p raw rest :
  Forall (fun o => exists q, decode_udp_packet o = Ok q /\ assoc_id q <> own_assoc_id s) others ->
  packet_ok p -> assoc_id p = own_assoc_id s -> encode_udp_packet p = Ok raw ->
  udp_recv s (others ++ raw :: rest) = Some (Ok p, rest).
Proof.
  intros Ho Hp Ha Hr. induction Ho as [|o others (q & Hq & Hne) _ IH]; cbn [app udp_recv].
  - rewrite (decode_encode_packet p raw Hp Hr), (proj2 (Z.eqb_eq _ _)) by done. done.
  - rewrite Hq, (proj2 (Z.eqb_neq _ _)) by done. done.
Qed.
End ClientFacts.

(** ** The relay *)

Section RelayFacts.

Definition live (w : worker) : Prop := w <> Finished.
#[local] Instance live_dec w : Decision (live w).
Proof. destruct w; first [by left | by right; intros Hn; apply Hn]. Defined.

Definition live_workers (st : UdpState) : Z := zlen (filter live (workers st)).

(** Every socket belongs to the association and family it was bound for. *)
Definition worker_ok (owner : list (Z * bool)) (w : worker) : Prop :=
  match w with
  | Resolving p => packet_ok p
  | Binding p _ => packet_ok p
  | Sending p s dest => packet_ok p /\ owner !! s = Some (assoc_id p, is_ipv6 dest)
  | Receiving p s => packet_ok p /\ exists v6, owner !! s = Some (assoc_id p, v6)
  | Finished => True
  end.

Definition datagram_ok (d : bytes * SocketAddr) : Prop :=
  bytes_ok d.1 /\ zlen d.1 <= 65507 /\ address_ok (from_socket_addr d.2).

Record relay_inv (owner : list (Z * bool)) (st : UdpState) : Prop := {
  ri_permits : 0 <= permits st /\ permits st + live_workers st = MAX_UDP_WORKERS_PER_CONN;
  ri_sockets : sock_v6 <$> sockets st = owner.*2;
  ri_inbox : Forall (fun s => Forall datagram_ok (inbox s)) (sockets st);
  ri_sessions k u : sessions st !! k = Some u -> owner !! socket u = Some k;
  ri_workers : Forall (worker_ok owner) (workers st)
}.

Lemma start_inv : relay_inv [] udp_start.
Proof. by split. Qed.

Lemma live_insert st i w w' :
  workers st !! i = Some w -> live w ->
  zlen (filter live (<[i := w']> (workers st))) = live_workers st - (if decide (live w') then 0 else 1).
Proof.
  intros Hi Hw. unfold live_workers, zlen. rewrite <- (take_drop_middle _ _ _ Hi) at 2.
  assert (Hl : (i < length (workers st))%nat) by (by eapply lookup_lt_Some).
  rewrite insert_take_drop by done. rewrite !filter_app, !filter_cons, !length_app.
  rewrite (decide_True (P:=live w)) by done. destruct (decide (live w')); cbn [length]; lia.
Qed.

Lemma worker_ok_weaken owner k w : worker_ok owner w -> worker_ok (owner ++ [k]) w.
Proof.
  destruct w; cbn; try done.
  - intros [? Hl]. split; [done|]. by rewrite lookup_app_l by (by eapply lookup_lt_Some).
  - intros [? [v6 Hl]]. split; [done|]. exists v6. by rewrite lookup_app_l by (by eapply lookup_lt_Some).
Qed.

(** The worker that ran keeps the invariant if its next state does. *)
Lemma inv_set_worker owner st i w w' :
  relay_inv owner st -> workers st !! i = Some w -> live w -> live w' -> worker_ok owner w' ->
  relay_inv owner (set_worker i w' st).
Proof.
  intros [Hp Hs Hb Hk Hw] Hi Hl Hl' Hok. split; cbn; try done.
  - unfold live_workers. cbn. rewrite (live_insert st i w w' Hi Hl), decide_True by done. lia.
  - by apply Forall_insert.
Qed.

Lemma inv_finish owner st i w :
  relay_inv owner st -> workers st !! i = Some w -> live w -> relay_inv owner (finish i st).
Proof.
  intros [Hp Hs Hb Hk Hw] Hi Hl. split; cbn; try done.
  - unfold live_workers. cbn. rewrite (live_insert st i w _ Hi Hl), decide_False by (intros Hn; by apply Hn). lia.
  - by apply Forall_insert.
Qed.

Lemma inv_sessions owner st ss :
  relay_inv owner st -> (forall k u, ss !! k = Some u -> owner !! socket u = Some k) ->
  relay_inv owner (mkUdp ss (sockets st) (workers st) (permits st)).
Proof. intros [Hp Hs Hb Hk Hw] Hss. by split. Qed.

Lemma inv_inbox owner st s u q :
  relay_inv owner st -> sockets st !! s = Some u -> Forall datagram_ok q ->
  relay_inv owner (mkUdp (sessions st) (<[s := mkSocket (sock_v6 u) q]> (sockets st)) (workers st) (permits st)).
Proof.
  intros [Hp Hs Hb Hk Hw] Hu Hq. split; cbn; try done.
  - rewrite list_fmap_insert. cbn. rewrite list_insert_id; [done|]. by rewrite list_lookup_fmap, Hu.
  - by apply Forall_insert.
Qed.

Lemma inv_bind owner st k now :
  relay_inv owner st ->
  relay_inv (owner ++ [k])
    (mkUdp (<[k := mkUdpSession (length (sockets st)) now]> (sessions st)) (sockets st ++ [mkSocket k.2 []]) (workers st) (permits st)) /\
  (owner ++ [k]) !! length (sockets st) = Some k.
Proof.
  intros [Hp Hs Hb Hk Hw].
  assert (Hlen : length (sockets st) = length owner).
  { apply (f_equal length) in Hs. by rewrite !length_fmap in Hs. }
  assert (Hnew : (owner ++ [k]) !! length (sockets st) = Some k) by (rewrite Hlen; by apply list_lookup_middle).
  split; [|done]. split; cbn; try done.
  - by rewrite !fmap_app, Hs.
  - apply Forall_app. split; [done|]. by apply Forall_singleton.
  - intros k' u [[<- <-]|[_ Hin]]%lookup_insert_Some; [done|].
    rewrite lookup_app_l; [by apply Hk|]. by eapply lookup_lt_Some, Hk.
  - eapply Forall_impl; [done|]. intros w. apply worker_ok_weaken.
Qed.

Lemma datagram_inv owner st now raw :
  bytes_ok raw -> relay_inv owner st -> relay_inv owner (serve_datagram now raw st).
Proof.
  intros Hraw Hi. unfold serve_datagram. destruct (decode_udp_packet raw) as [p| |] eqn:Hd; [|done..].
  set (ss := if MAX_UDP_SESSIONS_PER_CONN <? _ then _ else sessions st). assert (Hss : relay_inv owner (mkUdp ss (sockets st) (workers st) (permits st))).
  { apply inv_sessions; [done|]. intros k u Hk. apply (ri_sessions _ _ Hi). subst ss. case_match; [|done].
    by apply map_lookup_filter_Some in Hk as [? _]. }
  destruct (Z.eqb_spec (permits st) 0) as [|Hne]; [done|]. destruct Hss as [Hp Hs Hb Hk Hw]. split; cbn in *; try done.
  - unfold live_workers, zlen in *. cbn in *. rewrite filter_app, filter_cons, decide_True, length_app by done. cbn. lia.
  - apply Forall_app. split; [done|]. apply Forall_singleton. by eapply decoded_packet_ok.
Qed.

Lemma arrive_inv owner st s data src :
  datagram_ok (data, src) -> relay_inv owner st -> relay_inv owner (arrive s data src st).
Proof.
  intros Hd Hi. unfold arrive. destruct (sockets st !! s) as [u|] eqn:Hu; [|done].
  apply (inv_inbox owner st s u); [done|done|]. apply Forall_app. split; [|by apply Forall_singleton].
  by eapply (Forall_lookup_1 _ _ _ _ (ri_inbox _ _ Hi)).
Qed.

Lemma socket_of_owner owner st s k :
  relay_inv owner st -> owner !! s = Some k -> exists u, sockets st !! s = Some u /\ sock_v6 u = k.2.
Proof.
  intros Hi Ho. pose proof (ri_sockets _ _ Hi) as Hs. apply (f_equal (.!! s)) in Hs.
  rewrite !list_lookup_fmap, Ho in Hs. destruct (sockets st !! s) as [u|]; [|done]. injection Hs as <-. by exists u.
Qed.

(** A wake-up of a worker: the invariant holds again, and what it does is right. *)
Definition effect_ok (owner : list (Z * bool)) (st st' : UdpState) (w : worker) (e : udp_effect) : Prop :=
  match e with
  | ToUpstream s data dest =>
      exists p, w = Sending p s dest /\ data = pkt_data p /\ owner !! s = Some (assoc_id p, is_ipv6 dest)
  | ToClient raw =>
      exists p s v6 u data src q, w = Receiving p s /\ sockets st !! s = Some u /\ inbox u = (data, src) :: q /\
        (exists u', sockets st' !! s = Some u' /\ inbox u' = q) /\ owner !! s = Some (assoc_id p, v6) /\
        decode_udp_packet raw = Ok (mkPacket (assoc_id p) (pkt_id p) (from_socket_addr src) data)
  | RecordTraffic _ _ => True
  end.

Lemma reply_encodes p data src :
  packet_ok p -> datagram_ok (data, src) ->
  let reply := mkPacket (assoc_id p) (pkt_id p) (from_socket_addr src) (take MAX_PACKET_SIZE data) in
  take MAX_PACKET_SIZE data = data /\
  exists raw, encode_udp_packet reply = Ok raw /\
    decode_udp_packet raw = Ok (mkPacket (assoc_id p) (pkt_id p) (from_socket_addr src) data).
Proof.
  intros [Ha Hk _] (Hb & Hl & Had) reply. cbn in *.
  assert (Ht : take MAX_PACKET_SIZE data = data) by (apply take_ge; unfold MAX_PACKET_SIZE, zlen in *; lia).
  split; [done|]. subst reply. rewrite Ht.
  set (reply := mkPacket _ _ _ _). destruct (proj1 (encode_udp_packet_total reply)) as [raw Hraw].
  { split; cbn; [|lia]. unfold from_socket_addr. by destruct (sa_ip src). }
  exists raw. split; [done|]. by apply decode_encode_packet.
Qed.

Lemma worker_inv owner st i w ev st' es :
  relay_inv owner st -> workers st !! i = Some w -> handle_udp_packet i w ev st = Some (st', es) ->
  (exists owner', relay_inv owner' st') /\ Forall (effect_ok owner st st' w) es.
Proof.
  intros Hi Hw Hh. pose proof (Forall_lookup_1 _ _ _ _ (ri_workers _ _ Hi) Hw) as Hok.
  destruct w as [p|p dest|p s dest|p s|]; destruct ev as [lookup now|ok now|ok|ok|]; cbn in Hh, Hok; try done.
  - destruct (resolve_address lookup (pkt_addr p)) as [dest| |];
      [|injection Hh as <- <-; split; [exists owner; by eapply inv_finish|constructor]..].
    destruct (sessions st !! _) as [u|] eqn:Hu; injection Hh as <- <-; (split; [|constructor]); exists owner.
    + pose proof (ri_sessions _ _ Hi _ _ Hu) as Ho. eapply inv_set_worker; [|done|done..]. apply inv_sessions; [done|].
      intros k v [[<- <-]|[_ Hin]]%lookup_insert_Some; [done|by apply (ri_sessions _ _ Hi)].
    + by eapply inv_set_worker.
  - destruct ok; injection Hh as <- <-; (split; [|constructor]); [|exists owner; by eapply inv_finish].
    destruct (inv_bind owner st (assoc_id p, is_ipv6 dest) now Hi) as [Hi' Hnew].
    eexists. by eapply inv_set_worker.
  - destruct Hok as [Hp Ho]. destruct ok; injection Hh as <- <-; (split; [exists owner|]).
    + eapply inv_set_worker; try done. by split; [|eexists].
    + repeat constructor. by exists p.
    + by eapply inv_finish.
    + constructor.
  - destruct Hok as [Hp [v6 Ho]]. destruct (sockets st !! s) as [[v [|[data src] q]]|] eqn:Hs; [done| |done].
    pose proof (Forall_lookup_1 _ _ _ _ (ri_inbox _ _ Hi) Hs) as Hin. cbn in Hin. apply Forall_cons in Hin as [Hd Hq].
    destruct (reply_encodes p data src Hp Hd) as (Ht & raw & Henc & Hdec). rewrite Henc in Hh.
    pose proof (inv_inbox owner st s _ q Hi Hs Hq) as Hi'.
    destruct ok; injection Hh as <- <-; (split; [exists owner; by eapply inv_finish|]); [|constructor].
    repeat constructor. cbn. exists p, s, v6, (mkSocket v ((data, src) :: q)), data, src, q. split_and!; try done.
    exists (mkSocket v q). by rewrite list_lookup_insert_eq by (by eapply lookup_lt_Some).
  - injection Hh as <- <-. split; [exists owner; by eapply inv_finish|constructor].
Qed.

Lemma reaches_inv trace st : udp_reaches trace st -> exists owner, relay_inv owner st.
Proof.
  induction 1 as [|trace st es st' _ [owner Hi] Hst]; [exists ([] : list (Z * bool)); apply start_inv|].
  destruct Hst as [now raw Hraw|i w ev st' es Hw Hh|s data src Hb Hl Ha].
  - exists owner. by apply datagram_inv.
  - by eapply worker_inv.
  - exists owner. by apply arrive_inv.
Qed.

(** ** Serving a packet *)

Lemma serve_spawns st now raw p :
  decode_udp_packet raw = Ok p -> permits st <> 0 ->
  exists ss, serve_datagram now raw st = mkUdp ss (sockets st) (workers st ++ [Resolving p]) (permits st - 1).
Proof.
  intros Hd Hp. unfold serve_datagram. rewrite Hd, (proj2 (Z.eqb_neq _ _)) by done. by eexists.
Qed.

(** Whether the step of the worker that ends with this wake-up went well. *)
Definition succeeded (p : TuicUdpPacket) (ev : wakeup) : bool :=
  match ev with
  | Resolved lookup _ => is_ok (resolve_address lookup (pkt_addr p))
  | Bound ok _ => ok
  | Sent ok => ok
  | Received ok => ok
  | ReceiveFailed => false
  end.

(** The first wake-up of a worker says where its packet goes. *)
Definition resolved_to (p : TuicUdpPacket) (evs : list wakeup) (dest : SocketAddr) : Prop :=
  exists lookup now rest, evs = Resolved lookup now :: rest /\ resolve_address lookup (pkt_addr p) = Ok dest.

Definition sent (p : TuicUdpPacket) (s : nat) (dest : SocketAddr) : list udp_effect :=
  [ToUpstream s (pkt_data p) dest; RecordTraffic (zlen (pkt_data p)) 0].

(** What a worker has done for its packet, by where it stands: it sends the data of the
    packet once, when the resolution, the binding and the sending went well, and after
    that at most one reply, with the identifiers of the packet; when nothing failed it has
    done both at the end.  It is woken at most four times. *)
Definition served (p : TuicUdpPacket) (w : worker) (evs : list wakeup) (es : list udp_effect) : Prop :=
  match w with
  | Resolving p' => p' = p /\ evs = [] /\ es = []
  | Binding p' dest => p' = p /\ resolved_to p evs dest /\ length evs = 1%nat /\ es = []
  | Sending p' _ dest =>
      p' = p /\ resolved_to p evs dest /\ forallb (succeeded p) evs = true /\ (length evs <= 2)%nat /\ es = []
  | Receiving p' s =>
      p' = p /\ forallb (succeeded p) evs = true /\ (length evs <= 3)%nat /\
      exists dest, resolved_to p evs dest /\ es = sent p s dest
  | Finished =>
      (length evs <= 4)%nat /\
      if forallb (succeeded p) evs then
        exists s dest raw data src, resolved_to p evs dest /\ es = sent p s dest ++ [ToClient raw; RecordTraffic 0 (zlen data)] /\
          decode_udp_packet raw = Ok (mkPacket (assoc_id p) (pkt_id p) (from_socket_addr src) data)
      else es = [] \/ exists s dest, resolved_to p evs dest /\ es = sent p s dest
  end.

(** The wake-ups that a worker waits for. *)
Definition awaits (st : UdpState) (w : worker) (ev : wakeup) : Prop :=
  match w, ev with
  | Resolving _, Resolved _ _ | Binding _ _, Bound _ _ | Sending _ _ _, Sent _ | Receiving _ _, ReceiveFailed => True
  | Receiving _ s, Received _ => exists u, sockets st !! s = Some u /\ inbox u <> []
  | _, _ => False
  end.

Lemma resolved_to_snoc p evs dest ev : resolved_to p evs dest -> resolved_to p (evs ++ [ev]) dest.
Proof. intros (lookup & now & rest & -> & Hr). by exists lookup, now, (rest ++ [ev]). Qed.

Lemma resolved_succeeded p evs dest : resolved_to p evs dest -> length evs = 1%nat -> forallb (succeeded p) evs = true.
Proof. intros (lookup & now & [|] & -> & Hr) ?; [|done]. cbn. by rewrite Hr. Qed.

(** A wake-up takes the account of a worker to that of its next state. *)
Lemma served_step owner st i w ev st' es p evs done :
  relay_inv owner st -> workers st !! i = Some w -> handle_udp_packet i w ev st = Some (st', es) ->
  served p w evs done -> exists w', workers st' = <[i := w']> (workers st) /\ served p w' (evs ++ [ev]) (done ++ es).
Proof.
  intros Hi Hw Hh Hsv. pose proof (Forall_lookup_1 _ _ _ _ (ri_workers _ _ Hi) Hw) as Hok.
  destruct w as [q|q dest|q s dest|q s|]; destruct ev as [lookup now|ok now|ok|ok|]; cbn in Hh; try done; cbn in Hsv.
  - destruct Hsv as (-> & -> & ->). destruct (resolve_address lookup (pkt_addr p)) as [dest| |] eqn:Hr.
    + assert (Hto : resolved_to p [Resolved lookup now] dest) by (by exists lookup, now, []).
      destruct (sessions st !! _) as [u|]; injection Hh as <- <-; eexists; (split; [done|]); cbn; rewrite ?Hr; cbn; naive_solver lia.
    + injection Hh as <- <-. eexists. split; [done|]. cbn. rewrite Hr. cbn. split; [lia|by left].
    + injection Hh as <- <-. eexists. split; [done|]. cbn. rewrite Hr. cbn. split; [lia|by left].
  - destruct Hsv as (-> & Hto & Hl & ->). pose proof (resolved_succeeded _ _ _ Hto Hl) as Hsu.
    destruct ok; injection Hh as <- <-; eexists; (split; [done|]); cbn; rewrite length_app, forallb_app, Hsu, Hl; cbn.
    + split_and!; [done|by apply resolved_to_snoc|done..].
    + split; [lia|by left].
  - destruct Hsv as (-> & Hto & Hsu & Hl & ->).
    destruct ok; injection Hh as <- <-; eexists; (split; [done|]); cbn; rewrite length_app, forallb_app, Hsu; cbn.
    + split_and!; [done|done|lia|]. exists dest. by split; [apply resolved_to_snoc|].
    + split; [lia|by left].
  - destruct Hsv as (-> & Hsu & Hl & dest & Hto & ->). destruct Hok as [Hp [v6 Ho]].
    destruct (sockets st !! s) as [[v [|[data src] q']]|] eqn:Hs; [done| |done].
    pose proof (Forall_lookup_1 _ _ _ _ (ri_inbox _ _ Hi) Hs) as Hin. cbn in Hin. apply Forall_cons in Hin as [Hd _].
    destruct (reply_encodes p data src Hp Hd) as (Ht & raw & Henc & Hdec). rewrite Henc in Hh. rewrite Ht in Hh.
    destruct ok; injection Hh as <- <-; eexists; (split; [done|]); cbn; rewrite length_app, forallb_app, Hsu; cbn.
    + split; [lia|]. exists s, dest, raw, data, src. by split; [apply resolved_to_snoc|].
    + split; [lia|]. right. exists s, dest. by split; [apply resolved_to_snoc|].
  - destruct Hsv as (-> & Hsu & Hl & dest & Hto & ->). injection Hh as <- <-. eexists. split; [done|].
    cbn. rewrite length_app, forallb_app, Hsu. cbn. split; [lia|]. right. exists s, dest. by split; [apply resolved_to_snoc|].
Qed.

Lemma log_snoc_same i log ev es :
  wakeups_of i (log ++ [(i, ev, es)]) = wakeups_of i log ++ [ev] /\ effects_of i (log ++ [(i, ev, es)]) = effects_of i log ++ es.
Proof.
  unfold wakeups_of, effects_of, of_worker. rewrite !filter_app, !filter_cons, decide_True by done.
  by rewrite !fmap_app, concat_app; cbn; rewrite app_nil_r.
Qed.

Lemma log_snoc_other i j log ev es :
  i <> j -> wakeups_of j (log ++ [(i, ev, es)]) = wakeups_of j log /\ effects_of j (log ++ [(i, ev, es)]) = effects_of j log.
Proof.
  intros Hij. unfold wakeups_of, effects_of, of_worker. rewrite !filter_app, !filter_cons, decide_False by done.
  by rewrite !filter_nil, !app_nil_r.
Qed.

Lemma log_fresh n log : Forall (fun x => (x.1.1 < n)%nat) log -> of_worker n log = [].
Proof.
  intros Hf. unfold of_worker. induction Hf as [|x log Hx _ IH]; [done|]. rewrite filter_cons, decide_False by lia. done.
Qed.

Lemma runs_reaches ps log st : udp_runs ps log st -> udp_reaches (concat log.*2) st.
Proof.
  induction 1 as [|ps log st now raw _ IH ?|ps log st i w ev st' es _ IH ? ?|ps log st s data src _ IH ? ? ?]; [apply reach_start|..].
  - rewrite <- (app_nil_r (concat _)). eapply reach_step; [done|by apply step_datagram].
  - rewrite fmap_app, concat_app. cbn. rewrite app_nil_r. eapply reach_step; [done|by eapply step_worker].
  - rewrite <- (app_nil_r (concat _)). eapply reach_step; [done|by apply step_arrive].
Qed.

(** Every accepted packet has its worker, and the log of the worker is what the packet
    was due. *)
Definition accounts (ps : list TuicUdpPacket) (log : wake_log) (st : UdpState) : Prop :=
  Forall (fun x => (x.1.1 < length ps)%nat) log /\ length ps = length (workers st) /\
  forall i p w, ps !! i = Some p -> workers st !! i = Some w -> served p w (wakeups_of i log) (effects_of i log).

Lemma serve_accounts ps log st now raw :
  accounts ps log st -> accounts (ps ++ accepted raw st) log (serve_datagram now raw st).
Proof.
  intros (Hlog & Hlen & Hsv). unfold accepted, serve_datagram.
  destruct (decode_udp_packet raw) as [p| |]; [|by rewrite app_nil_r..].
  destruct (permits st =? 0); [by rewrite app_nil_r|]. split; [|split].
  - eapply Forall_impl; [done|]. cbn. intros x Hx. rewrite length_app. lia.
  - cbn. rewrite !length_app. cbn. lia.
  - intros i q w. cbn [workers]. intros [Hp|[Hi Hp]]%lookup_app_Some Hw.
    + rewrite lookup_app_l in Hw by (apply lookup_lt_Some in Hp; lia). by apply Hsv.
    + apply list_lookup_singleton_Some in Hp as [Hi0 <-].
      assert (i = length (workers st)) as -> by lia. rewrite list_lookup_middle in Hw by done. injection Hw as <-.
      unfold wakeups_of, effects_of. by rewrite log_fresh by (by rewrite <- Hlen).
Qed.

Lemma runs_accounts ps log st : udp_runs ps log st -> accounts ps log st.
Proof.
  induction 1 as [|ps log st now raw _ IH ?|ps log st i w ev st' es Hr IH Hw Hh|ps log st s data src _ IH ? ? ?].
  - split; [constructor|]. by split.
  - by apply serve_accounts.
  - destruct IH as (Hlog & Hlen & Hsv). destruct (reaches_inv _ _ (runs_reaches _ _ _ Hr)) as [owner Hi].
    assert (Hl : (i < length ps)%nat) by (rewrite Hlen; by eapply lookup_lt_Some).
    destruct (lookup_lt_is_Some_2 ps i Hl) as [p Hp].
    destruct (served_step owner st i w ev st' es p _ _ Hi Hw Hh (Hsv i p w Hp Hw)) as (w' & Hws & Hw').
    split; [|split].
    + apply Forall_app. split; [done|]. by apply Forall_singleton.
    + by rewrite Hws, length_insert.
    + intros j q v Hq. rewrite Hws. intros [(<- & <- & _)|[Hne Hv]]%list_lookup_insert_Some.
      * assert (q = p) as -> by congruence. by destruct (log_snoc_same i log ev es) as [-> ->].
      * destruct (log_snoc_other i j log ev es Hne) as [-> ->]. by apply Hsv.
  - unfold arrive. by destruct (sockets st !! s).
Qed.

(** C10. The UDP relay of a TUIC connection, for every interleaving of the packets of the
    client, the workers and the network: at most 256 workers run.  What any step sends
    upstream is the data of a packet, from a socket of the destination's family; what it
    sends to the client is the datagram at the head of the queue of a socket, taken off
    it, under the identifiers of the packet whose worker read it, and every session and
    worker that uses the socket is of that packet's association, so that associations are
    never mixed up.  Every packet that got a worker, and each one does that comes while
    fewer than 256 run, is accounted for as [served] says: it is sent at most once,
    unchanged and to what its destination resolved to, and gets at most one reply, after
    it was sent; when its worker ended and nothing failed, both have happened.  A worker
    is never stuck on what it waits for and is done after four wake-ups.  Which datagram
    is the reply is not decided by the packet: it is the one at the head of the queue,
    which can be a late answer to an earlier packet of the association
    ([late_answer_delivered]). *)
Theorem tuic_udp_relay ps log st :
  udp_runs ps log st ->
  (permits st + live_workers st = MAX_UDP_WORKERS_PER_CONN /\ 0 <= permits st) /\
  (forall es st' e, udp_step st es st' -> e ∈ es ->
     match e with
     | ToUpstream s data dest => exists i p u, workers st !! i = Some (Sending p s dest) /\ data = pkt_data p /\
         sockets st !! s = Some u /\ sock_v6 u = is_ipv6 dest
     | ToClient raw => exists i p s u data src q u', workers st !! i = Some (Receiving p s) /\
         sockets st !! s = Some u /\ inbox u = (data, src) :: q /\ sockets st' !! s = Some u' /\ inbox u' = q /\
         decode_udp_packet raw = Ok (mkPacket (assoc_id p) (pkt_id p) (from_socket_addr src) data) /\
         (forall k v, sessions st !! k = Some v -> socket v = s -> k.1 = assoc_id p) /\
         (forall j p', workers st !! j = Some (Receiving p' s) -> assoc_id p' = assoc_id p)
     | RecordTraffic _ _ => True
     end) /\
  (length ps = length (workers st) /\
   forall i p w, ps !! i = Some p -> workers st !! i = Some w -> served p w (wakeups_of i log) (effects_of i log)) /\
  (forall i w ev, workers st !! i = Some w -> awaits st w ev -> is_Some (handle_udp_packet i w ev st)) /\
  (forall p raw now, packet_ok p -> encode_udp_packet p = Ok raw -> live_workers st < MAX_UDP_WORKERS_PER_CONN ->
     accepted raw st = [p] /\ workers (serve_datagram now raw st) = workers st ++ [Resolving p]).
Proof.
  intros Hr. destruct (reaches_inv _ st (runs_reaches _ _ _ Hr)) as [owner Hi].
  destruct (ri_permits _ _ Hi) as [Hp0 Hpl]. split; [done|]. split; [|split; [|split]].
  - intros es st' e Hst He. destruct Hst as [now raw Hraw|i w ev st' es Hw Hh|s data src Hb Hl Ha]; [by apply elem_of_nil in He| |by apply elem_of_nil in He].
    destruct (worker_inv owner st i w ev st' es Hi Hw Hh) as [_ Hes]. rewrite Forall_forall in Hes. specialize (Hes e He).
    destruct e as [s data dest|raw|]; [| |done].
    + destruct Hes as (p & -> & -> & Ho). destruct (socket_of_owner owner st s _ Hi Ho) as (u & Hu & Hv). by exists i, p, u.
    + destruct Hes as (p & s & v6 & u & data & src & q & -> & Hu & Hin & (u' & Hu' & Hin') & Ho & Hd).
      exists i, p, s, u, data, src, q, u'. split_and!; [done..| |].
      * intros k v Hk <-. pose proof (ri_sessions _ _ Hi _ _ Hk) as Hk'. by rewrite Ho in Hk'; injection Hk' as <-.
      * intros j p' Hj. destruct (Forall_lookup_1 _ _ _ _ (ri_workers _ _ Hi) Hj) as [_ [v6' Ho']]. congruence.
  - by destruct (runs_accounts ps log st Hr) as (_ & ? & ?).
  - intros i w ev Hw Ha. pose proof (Forall_lookup_1 _ _ _ _ (ri_workers _ _ Hi) Hw) as Hok.
    destruct w, ev; try done; cbn in *; repeat case_match; try done; simplify_eq/=; naive_solver.
  - intros p raw now Hp Hraw Hlt. assert (Hd : decode_udp_packet raw = Ok p) by (by apply decode_encode_packet).
    destruct (serve_spawns st now raw p Hd) as [ss ->]; [lia|]. split; [|done].
    unfold accepted. by rewrite Hd, (proj2 (Z.eqb_neq _ _)) by lia.
Qed.

(** ** Limits of the relay *)

Fixpoint replies (es : list udp_effect) : Z :=
  match es with
  | [] => 0
  | ToClient _ :: es => 1 + replies es
  | _ :: es => replies es
  end.

Lemma replies_app es es' : replies (es ++ es') = replies es + replies es'.
Proof. induction es as [|[] es IH]; cbn [app replies]; lia. Qed.

(** A wake-up sends a reply only as it ends the worker. *)
Lemma worker_replies_once i w ev st st' es :
  workers st !! i = Some w -> handle_udp_packet i w ev st = Some (st', es) ->
  length (workers st') = length (workers st) /\ replies es <= live_workers st - live_workers st'.
Proof.
  intros Hw Hh.
  assert (Hset : forall st1 w', live w -> workers st1 = <[i := w']> (workers st) ->
    live_workers st1 = live_workers st - (if decide (live w') then 0 else 1)).
  { intros st1 w' Hl Hst. unfold live_workers at 1. rewrite Hst. by apply (live_insert st i w). }
  destruct w as [p|p dest|p s dest|p s|]; destruct ev as [lookup now|ok now|ok|ok|]; cbn in Hh; try done.
  all: repeat case_match; simplify_eq/=; rewrite ?length_insert; (split; [done|]).
  all: match goal with |- _ <= _ - live_workers ?x => erewrite (Hset x); [|done|reflexivity] end.
  all: case_decide as Hl; first [by exfalso; apply Hl | by exfalso; apply Hl; intros Hn | cbn; lia].
Qed.

(** Every packet of the client is answered at most once: datagrams that come in without
    a packet that waits for them stay in the queue of the socket. *)
Lemma one_reply_per_packet trace st : udp_reaches trace st -> replies trace + live_workers st <= zlen (workers st).
Proof.
  induction 1 as [|trace st es st' _ IH Hst]; [done|]. rewrite replies_app.
  destruct Hst as [now raw _|i w ev st' es Hw Hh|s data src _ _ _].
  - replace (replies []) with 0 by done. unfold serve_datagram. destruct (decode_udp_packet raw); [|lia..].
    unfold live_workers, zlen in *. case_match; cbn; [lia|]. rewrite filter_app, filter_cons, decide_True, !length_app by done. cbn. lia.
  - destruct (worker_replies_once i w ev st st' es Hw Hh) as [Hl Hr]. unfold zlen in *. lia.
  - replace (replies []) with 0 by done. unfold arrive. destruct (sockets st !! s); unfold live_workers in *; cbn; lia.
Qed.
End RelayFacts.

(** ** Runs *)

Definition ask (assoc pkt : Z) : bytes :=
  match encode_udp_packet (mkPacket assoc pkt (Ipv4 [1; 2; 3; 4] 53) [9]) with Ok raw => raw | _ => [] end.
Definition no_hosts : bytes -> Z -> res ProxyError (list SocketAddr) := fun _ _ => Ok [].

Lemma ask_eq assoc pkt :
  ask assoc pkt = [5; 2] ++ be_bytes 2 assoc ++ be_bytes 2 pkt ++ [1; 0; 0; 1; 1; 1; 2; 3; 4; 0; 53; 9].
Proof. reflexivity. Qed.

Lemma ask_ok assoc pkt : bytes_ok (ask assoc pkt).
Proof.
  rewrite ask_eq. repeat apply bytes_ok_app_2; try apply be_bytes_ok.
  all: repeat (apply bytes_ok_cons; [split; done|]); apply bytes_ok_nil.
Qed.

(** The wake-ups of a script, in order, with the packets that get a worker and the log. *)
Inductive script : Type :=
| Datagram (now : Z) (raw : bytes)
| Wake (i : nat) (ev : wakeup)
| Arrival (sock : nat) (data : bytes) (src : SocketAddr).

Fixpoint play (st : UdpState) (acts : list script) : option (UdpState * list TuicUdpPacket * wake_log) :=
  match acts with
  | [] => Some (st, [], [])
  | Datagram now raw :: acts =>
      r ← play (serve_datagram now raw st) acts;
      Some (r.1.1, accepted raw st ++ r.1.2, r.2)
  | Wake i ev :: acts =>
      w ← workers st !! i;
      r ← handle_udp_packet i w ev st;
      r' ← play r.1 acts;
      Some (r'.1.1, r'.1.2, (i, ev, r.2) :: r'.2)
  | Arrival sock data src :: acts => play (arrive sock data src st) acts
  end.

Definition script_ok (a : script) : Prop :=
  match a with Datagram _ raw => bytes_ok raw | Wake _ _ => True | Arrival _ data src => datagram_ok (data, src) end.

Lemma play_runs ps log st acts st' ps' log' :
  udp_runs ps log st -> Forall script_ok acts -> play st acts = Some (st', ps', log') ->
  udp_runs (ps ++ ps') (log ++ log') st'.
Proof.
  intros Hr Ha. revert ps log st ps' log' Hr. induction Ha as [|a acts Hok _ IH]; intros ps log st ps' log' Hr Hp.
  - injection Hp as <- <- <-. by rewrite !app_nil_r.
  - destruct a as [now raw|i ev|sock data src]; cbn in Hp.
    + destruct (play _ acts) as [[[st2 ps2] log2]|] eqn:Hp'; [|done]. injection Hp as <- <- <-. rewrite app_assoc.
      eapply IH; [|exact Hp']. by apply run_datagram.
    + destruct (workers st !! i) as [w|] eqn:Hw; [|done]. cbn in Hp.
      destruct (handle_udp_packet i w ev st) as [[st1 es1]|] eqn:Hh; [|done]. cbn in Hp.
      destruct (play st1 acts) as [[[st2 ps2] log2]|] eqn:Hp'; [|done]. injection Hp as <- <- <-.
      rewrite (cons_middle _ log log2), app_assoc. eapply IH; [|exact Hp']. by eapply run_worker.
    + destruct Hok as (? & ? & ?). eapply IH; [|exact Hp]. by apply run_arrive.
Qed.

Definition resolver : SocketAddr := mkSocketAddr (V4 [1; 2; 3; 4]) 53.

(** Two packets of one association at once: both workers bind, and the session of the
    first is replaced while its worker waits on a socket of its own. *)
Definition two_at_once : list script :=
  [Datagram 0 (ask 7 1); Datagram 0 (ask 7 2); Wake 0 (Resolved no_hosts 0); Wake 1 (Resolved no_hosts 0);
   Wake 0 (Bound true 0); Wake 1 (Bound true 0); Wake 0 (Sent true); Wake 1 (Sent true)].

Lemma sessions_race :
  exists st ps log, udp_runs ps log st /\ play udp_start two_at_once = Some (st, ps, log) /\
    map_to_list (sessions st) = [((7, false), mkUdpSession 1 0)] /\
    concat log.*2 = [ToUpstream 0 [9] resolver; RecordTraffic 1 0; ToUpstream 1 [9] resolver; RecordTraffic 1 0].
Proof.
  assert (Hs : Forall script_ok two_at_once) by (repeat (apply Forall_cons; split; [first [apply ask_ok|done]|]); apply Forall_nil_2).
  destruct (play udp_start two_at_once) as [[[st ps] log]|] eqn:Hp; [|by vm_compute in Hp].
  pose proof (play_runs [] [] udp_start two_at_once st ps log run_start Hs Hp) as Hr. clear Hs.
  vm_compute in Hp. injection Hp as <- <- <-. eexists _, _, _. split; [exact Hr|]. split_and!; vm_compute; reflexivity.
Qed.

Lemma answer_ok : datagram_ok ([42], resolver).
Proof.
  split; [|split; [done|split; [done|split; [|done]]]].
  all: cbn; repeat (apply bytes_ok_cons; [split; done|]); apply bytes_ok_nil.
Qed.

(** An answer that is late is handed out as the answer to the next packet. *)
Definition late_answer : list script :=
  [Datagram 0 (ask 7 1); Wake 0 (Resolved no_hosts 0); Wake 0 (Bound true 0); Wake 0 (Sent true); Wake 0 ReceiveFailed;
   Arrival 0 [42] resolver; Datagram 1 (ask 7 2); Wake 1 (Resolved no_hosts 1); Wake 1 (Sent true); Wake 1 (Received true)].

Lemma late_answer_ok : Forall script_ok late_answer.
Proof. repeat (apply Forall_cons; split; [first [apply ask_ok|done|apply answer_ok]|]). apply Forall_nil_2. Qed.

Lemma late_answer_delivered :
  exists st ps log raw, udp_runs ps log st /\ play udp_start late_answer = Some (st, ps, log) /\ ToClient raw ∈ effects_of 1 log /\
    decode_udp_packet raw = Ok (mkPacket 7 2 (Ipv4 [1; 2; 3; 4] 53) [42]).
Proof.
  destruct (play udp_start late_answer) as [[[st ps] log]|] eqn:Hp; [|by vm_compute in Hp].
  pose proof (play_runs [] [] udp_start late_answer st ps log run_start late_answer_ok Hp) as Hr.
  vm_compute in Hp. injection Hp as <- <- <-. eexists _, _, _, _. split; [exact Hr|]. split; [reflexivity|].
  split; [vm_compute; repeat (first [apply list_elem_of_here | apply list_elem_of_further])|vm_compute; reflexivity].
Qed.

(** The cap on sessions only removes idle ones: as many stay as there are associations
    in use within a minute. *)
Lemma more_sessions n trace st :
  udp_reaches trace st -> permits st = MAX_UDP_WORKERS_PER_CONN -> in_u16 n ->
  sessions st !! (n, false) = None -> map_Forall (fun _ u => last_used u = 0) (sessions st) ->
  exists trace' st', udp_reaches trace' st' /\ permits st' = MAX_UDP_WORKERS_PER_CONN /\
    sessions st' = <[(n, false) := mkUdpSession (length (sockets st)) 0]> (sessions st).
Proof.
  intros Hr Hp Hn Hnone Hall. destruct st as [ss so ws pe]. cbn in *. subst pe.
  set (p := mkPacket n 0 (Ipv4 [1; 2; 3; 4] 53) [9]).
  assert (Hd : decode_udp_packet (ask n 0) = Ok p).
  { apply decode_encode_packet; [|done]. split; [done|done|]. split; [done|]. split; [|done].
    repeat (apply bytes_ok_cons; [split; done|]). apply bytes_ok_nil. }
  assert (Hs : serve_datagram 0 (ask n 0) (mkUdp ss so ws MAX_UDP_WORKERS_PER_CONN) = mkUdp ss so (ws ++ [Resolving p]) 255).
  { unfold serve_datagram. rewrite Hd. cbn [sessions sockets workers permits]. f_equal. case_match; [|done].
    unfold cleanup_stale_udp_sessions. apply map_filter_id. intros k u Hk. cbn. rewrite (Hall k u Hk). done. }
  assert (Hstep : forall tr ss so pe w ev st1 es, udp_reaches tr (mkUdp ss so (ws ++ [w]) pe) ->
    handle_udp_packet (length ws) w ev (mkUdp ss so (ws ++ [w]) pe) = Some (st1, es) -> udp_reaches (tr ++ es) st1).
  { intros tr ss' so' pe w ev st1 es Htr Hh. eapply reach_step; [done|]. eapply step_worker; [by apply list_lookup_middle|done]. }
  assert (Hset : forall ss so pe w w', set_worker (length ws) w' (mkUdp ss so (ws ++ [w]) pe) = mkUdp ss so (ws ++ [w']) pe).
  { intros. unfold set_worker. cbn [workers]. by rewrite insert_app_r_alt, Nat.sub_diag by lia. }
  pose proof (reach_step _ _ _ _ Hr (step_datagram _ 0 (ask n 0) (ask_ok n 0))) as R1. rewrite Hs in R1.
  apply (Hstep _ _ _ _ _ (Resolved no_hosts 0) (mkUdp ss so (ws ++ [Binding p resolver]) 255) []) in R1.
  2:{ unfold handle_udp_packet. change (resolve_address no_hosts (pkt_addr p)) with (Ok (E:=ProxyError) resolver).
      cbn [sessions]. change (assoc_id p, is_ipv6 resolver) with (n, false). by rewrite Hnone, Hset. }
  eapply (Hstep _ _ _ _ _ (Bound true 0)) in R1; [|unfold handle_udp_packet; by cbn [sessions sockets workers permits]; rewrite Hset].
  eapply (Hstep _ _ _ _ _ (Sent true)) in R1; [|unfold handle_udp_packet; by rewrite Hset].
  eapply (Hstep _ _ _ _ _ ReceiveFailed) in R1; [|done]. eexists _, _. split; [exact R1|done].
Qed.

Lemma sessions_not_capped n :
  (Z.of_nat n <= 2 ^ 16) -> exists trace st, udp_reaches trace st /\ size (sessions st) = n.
Proof.
  intros Hn. enough (H : exists trace st, udp_reaches trace st /\ permits st = MAX_UDP_WORKERS_PER_CONN /\ size (sessions st) = n /\
    map_Forall (fun k u => last_used u = 0 /\ 0 <= k.1 < Z.of_nat n) (sessions st)).
  { destruct H as (trace & st & ? & _ & ? & _). by exists trace, st. }
  induction n as [|n IH].
  { exists [], udp_start. split_and!; [apply reach_start|done|done|]. apply map_Forall_empty. }
  destruct IH as (trace & st & Hr & Hp & Hs & Hall); [lia|].
  assert (Hnone : sessions st !! (Z.of_nat n, false) = None).
  { destruct (sessions st !! (Z.of_nat n, false)) as [u|] eqn:Hu; [|done]. apply Hall in Hu. cbn in Hu. lia. }
  destruct (more_sessions (Z.of_nat n) trace st) as (trace' & st' & Hr' & Hp' & Hss); [done|done|unfold in_u16; lia|done| |].
  { intros k u Hk. by apply Hall in Hk as [? _]. }
  exists trace', st'. split_and!; [done|done| |].
  - rewrite Hss, map_size_insert_None by done. lia.
  - rewrite Hss. apply map_Forall_insert_2; [cbn; lia|]. eapply map_Forall_impl; [done|]. intros k u [? ?]. split; [done|lia].
Qed.

(** The association of the run above: the second packet is sent and gets the answer that
    was late for the first, whose worker ended on a failure. *)
Lemma tuic_udp_relay_witness :
  exists st ps log, udp_runs ps log st /\ live_workers st <= 256 /\ workers st = [Finished; Finished] /\
    ps = [mkPacket 7 1 (Ipv4 [1; 2; 3; 4] 53) [9]; mkPacket 7 2 (Ipv4 [1; 2; 3; 4] 53) [9]] /\
    effects_of 0 log = [ToUpstream 0 [9] resolver; RecordTraffic 1 0] /\
    served (mkPacket 7 2 (Ipv4 [1; 2; 3; 4] 53) [9]) Finished (wakeups_of 1 log) (effects_of 1 log) /\
    (length (effects_of 1 log) = 4)%nat.
Proof.
  destruct (play udp_start late_answer) as [[[st ps] log]|] eqn:Hp; [|by vm_compute in Hp].
  pose proof (play_runs [] [] udp_start late_answer st ps log run_start late_answer_ok Hp) as Hr.
  change ([] ++ ps) with ps in Hr. change ([] ++ log) with log in Hr.
  destruct (tuic_udp_relay _ _ _ Hr) as (Hlive & _ & Hserved & _). exists st, ps, log. split; [exact Hr|]. split; [unfold MAX_UDP_WORKERS_PER_CONN in Hlive; lia|].
  vm_compute in Hp. injection Hp as Hst Hps Hlog.
  split_and!; [by subst|by subst|subst; by vm_compute| |subst; by vm_compute].
  destruct Hserved as [_ Hserved]. apply Hserved with (i := 1%nat); subst; reflexivity.
Defined.

(** ** Admission *)

Section Admission.
Context (export_keying_material : bytes -> bytes -> option bytes).

(** The user that counts for an identifier: the last one in the store. *)
Definition configured (store : TuicAuthStore) (v : TuicUser) : Prop :=
  exists us1 us2, users store = us1 ++ v :: us2 /\ Forall (fun w => uuid w <> uuid v) us2.

Lemma configured_lookup store v :
  configured store v -> auth_map (snapshot store) !! uuid v = Some (mkAuthUser (password v) (label v)).
Proof. intros (us1 & us2 & Hus & Hf). apply auth_map_lookup. by exists us1, v, us2. Qed.

Lemma lookup_configured store id a :
  auth_map (snapshot store) !! id = Some a ->
  exists v, configured store v /\ uuid v = id /\ au_password a = password v /\ au_label a = label v.
Proof.
  intros (us1 & v & us2 & Hus & <- & -> & Hf)%auth_map_lookup. exists v. split_and!; [|done..]. by exists us1, us2.
Qed.

(** C11. Admission to a TUIC server: a connection that is admitted has presented, on one
    of its streams, the identifier of a configured user with the token that the TLS
    connection exports for his password, and goes on under his label.  Conversely the
    command that the client writes for a configured user, on a stream that is opened by
    the deadline whenever that is and whenever its bytes come, is admitted, if the limiter
    has room, behind any streams that are read before the deadline and are not commands;
    and the stream that the client then opens for a destination is read as that
    destination, with nothing behind it lost. *)
Theorem tuic_admission store auth_timeout v w before opened_at t after closed dial open_bi client dest client' conn cmd payload :
  (forall id pw token, export_keying_material id pw = Some token -> length token = 32%nat) ->
  configured store v -> length (uuid v) = 16%nat -> address_ok dest ->
  write_authenticate_command export_keying_material (uuid v) (password v) = Ok w ->
  Forall (fun b => opened b <= auth_timeout /\ (exists ts, read_at b = Some ts /\ Z.max (opened b) ts < auth_timeout) /\
    is_ok (read_authenticate_command export_keying_material (auth_map (snapshot store)) (carries b)) = false) before ->
  0 < auth_timeout -> opened_at <= auth_timeout ->
  connect_and_dial closed dial open_bi client dest = (client', Ok (conn, cmd)) ->
  (forall streams lim lim' user permit,
     admit_connection export_keying_material store auth_timeout streams lim = Some (lim', Ok (user, permit)) ->
     exists s v' token rest, s ∈ streams /\ configured store v' /\ user = label v' /\
       export_keying_material (uuid v') (password v') = Some token /\
       carries s = [TUIC_VERSION; CMD_AUTHENTICATE] ++ uuid v' ++ token ++ rest) /\
  (forall extra lim, exists r,
     admit_connection export_keying_material store auth_timeout (before ++ mkUni opened_at (w ++ extra) (Some t) :: after) lim = Some r /\
     match lim, label v with
     | Some l, Some u => r.1 = Some (Limiter.try_acquire l (Some u)).1 /\
         (is_ok r.2 = true <-> is_Some (Limiter.try_acquire l (Some u)).2)
     | _, _ => r = (lim, Ok (label v, None))
     end) /\
  read_connect_command (cmd ++ payload) = Ok (dest, payload).
Proof.
  intros Hlen Hv Hid Hdest Hw Hbefore Ht Hopen Hdial. split_and!.
  - intros streams lim lim' user permit. unfold admit_connection, accept_authentication.
    destruct (accept_authentication_from _ _ _ _ _) as [id at_|msg at_|] eqn:Ha; [|done..].
    apply accept_sound in Ha as (s & rest & Hs & Hr). apply read_authenticate_spec in Hr as (Hl & a & token & Hu & Htl & Htok & Hc).
    rewrite Hu. apply lookup_configured in Hu as (v' & Hv' & <- & Hpw & Hlab). cbn [mbind option_bind]. rewrite Hlab.
    intros Hadm. exists s, v', token, rest. rewrite Hpw in Htok. split_and!; [done..| |done|done].
    destruct lim as [l|], (label v') as [u|]; try congruence. destruct (Limiter.try_acquire l (Some u)) as [l' [pm|]]; congruence.
  - intros extra lim. pose proof (configured_lookup store v Hv) as Hlook.
    assert (Hread : read_authenticate_command export_keying_material (auth_map (snapshot store)) (w ++ extra) = Ok (uuid v, extra)).
    { by eapply own_command_accepted; eauto. }
    destruct (accept_complete export_keying_material (auth_map (snapshot store)) auth_timeout 0 before
      (mkUni opened_at (w ++ extra) (Some t)) after (uuid v) t extra) as [at_ Hacc]; [done|done|cbn; lia|done|done|].
    unfold admit_connection, accept_authentication. rewrite Hacc, Hlook. cbn [mbind option_bind au_label].
    destruct lim as [l|], (label v) as [u|]; try (by eexists).
    destruct (Limiter.try_acquire l (Some u)) as [l' [pm|]]; eexists; (split; [done|]); cbn; (split; [done|]); split; try done.
    all: intros Hx; by destruct Hx.
  - unfold connect_and_dial in Hdial. destruct (session _ _ _ _) as [c' [n| |]]; [|done..].
    destruct open_bi; [|done..]. destruct (write_connect_command dest) as [cmd'| |] eqn:Hcmd; [|by injection Hdial..].
    injection Hdial as _ _ <-. by apply connect_command_roundtrip.
Qed.
End Admission.

Definition toy_export (id pw : bytes) : option bytes := Some (take 32 (pw ++ replicate 32 0)).
Definition toy_user : TuicUser := mkUser (replicate 16 7) [1; 2; 3] (Some [65]).

Lemma tuic_admission_witness :
  exists r, admit_connection toy_export (mkStore [toy_user]) 10 [mkUni 0 [9; 9] (Some 1);
      mkUni 4 ([5; 0] ++ replicate 16 7 ++ [1; 2; 3] ++ replicate 29 0) (Some 6)] None = Some r /\ r = (None, Ok (Some [65], None)).
Proof.
  destruct (tuic_admission toy_export (mkStore [toy_user]) 10 toy_user ([5; 0] ++ replicate 16 7 ++ [1; 2; 3] ++ replicate 29 0)
    [mkUni 0 [9; 9] (Some 1)] 4 6 [] (fun _ => false) (Ok 3%nat) (Ok 0%nat) (TuicClient_new 4) (Ipv4 [1; 2; 3; 4] 443)
    (mkClient [Some 3%nat; None; None; None] 1) 3 [5; 1; 1; 1; 2; 3; 4; 1; 187] []) as (_ & Hadm & _).
  - intros id pw token Ht. assert (token = take 32 (pw ++ replicate 32 0)) as -> by (unfold toy_export in Ht; congruence). rewrite length_take, length_app, length_replicate. lia.
  - exists [], []. split; [reflexivity|constructor].
  - reflexivity.
  - split; [by split|]. split; [|reflexivity]. repeat (apply bytes_ok_cons; [by split|]). apply bytes_ok_nil.
  - reflexivity.
  - constructor; [|constructor]. split; [discriminate|]. split; [exists 1; split; reflexivity|reflexivity].
  - reflexivity.
  - discriminate.
  - reflexivity.
  - destruct (Hadm [] None) as (r & Hr & Heq). exists r. split; [exact Hr|exact Heq].
Defined.
