(* ===== verification/Fec.v ===== *)
(** * Forward error correction of Hysteria2 datagrams

    [blackwire-transport] [hysteria2/udp.rs], feature [experimental-fec]: the policy, the
    encoder that adds a parity datagram to a group of datagrams, and the decoder that
    rebuilds one missing datagram of a group.  The Reed-Solomon crate is an interface.
    What [debug_assert!] evaluates is evaluated in debug builds only: the argument
    [debug_assertions] says which build it is. *)

From S2P Require Import Prelude Common IpText Hysteria2.
Import Hysteria2.

#[export] Instance Destination_eq_dec : EqDecision Destination.
Proof. solve_decision. Defined.

Definition FEC_MARKER_DOMAIN : bytes := str "__blackwire_fec_v1__".
Definition FEC_MARKER_V4 : bytes := [0; 0; 0; 0].
Definition FEC_MARKER_PORT : Z := 0.
Definition FEC_MAGIC : bytes := str "BWFEC1".
Definition FEC_FLAG_COMPACT_PAYLOAD : Z := 128.
Definition FEC_FLAG_FIXED_LENGTHS : Z := 64.
Definition MILLIS : Z := 10 ^ 6.
Definition FEC_GROUP_TTL : Z := 750 * MILLIS.
Definition FEC_RECOVERY_DEADLINE : Z := 100 * MILLIS.
Definition FEC_SEEN_LIMIT : Z := 4096.

(** ** Policy *)

Inductive FecMode : Type := Off | Xor1OfN | ReedSolomon | RaptorLike | Auto.

Definition effective (m : FecMode) (max_overhead_percent : Z) : FecMode :=
  match m with Auto => Off | mode => mode end.

Record FecPolicy : Type := mkPolicy {
  mode : FecMode;
  max_overhead_percent : Z;
  group_size : Z;
  disable_for_sequential_dns : bool;
  min_concurrency_for_block_fec : Z;
  max_generation_delay : Z;
  recovery_deadline : Z;
  dedup_window_packets : Z
}.

Definition enabled (p : FecPolicy) : bool :=
  match effective (mode p) (max_overhead_percent p) with
  | Xor1OfN | ReedSolomon | RaptorLike => true
  | _ => false
  end && (20 <=? max_overhead_percent p).

Definition div_ceil (a b : Z) : Z := (a + b - 1) / b.

Definition effective_group_size (p : FecPolicy) : Z :=
  let overhead := Z.max (max_overhead_percent p) 1 in
  let min_for_cap := Z.max (div_ceil 100 overhead) 2 in
  Z.max (group_size p) (as_u8 (Z.min min_for_cap 255)).

Definition estimate_parity_datagram_len (parity_len group_size : Z) (compact_dest_len : option Z) (fixed_lengths : bool) : Z :=
  let outer_header_len := 8 in
  let marker_dest_len := 1 + 4 + 2 in
  let fec_payload_header_len := zlen FEC_MAGIC + 1 + 2 + 1 + 2 in
  let length_bytes := if fixed_lengths then 2 else group_size * 2 in
  outer_header_len + marker_dest_len + fec_payload_header_len + length_bytes + default 0 compact_dest_len + parity_len.

Definition destination_encoded_len (d : Destination) : option Z :=
  match d with
  | DV4 _ _ => Some (1 + 4 + 2)
  | DV6 _ _ => Some (1 + 16 + 2)
  | DDomain name _ => if zlen name <=? 255 then Some (1 + 1 + zlen name + 2) else None
  end.

(** The loop of [effective_group_size_for]; [fuel] bounds its rounds. *)
Fixpoint grow_group (fuel : nat) (overhead payload_len encoded_len : Z) (d : Destination) (gs : Z) : Z :=
  match fuel with
  | O => gs
  | S fuel =>
      if gs <? 255 then
        let parity_len := Z.min (estimate_parity_datagram_len payload_len gs (destination_encoded_len d) true)
                                (estimate_parity_datagram_len encoded_len gs None false) in
        if parity_len * 100 <=? payload_len * gs * overhead then gs
        else grow_group fuel overhead payload_len encoded_len d (gs + 1)
      else gs
  end.

Definition effective_group_size_for (p : FecPolicy) (payload_len encoded_len : Z) (d : Destination) : Z :=
  let overhead := Z.max (max_overhead_percent p) 1 in
  as_u8 (grow_group 255 overhead (Z.max payload_len 1) encoded_len d (effective_group_size p)).

Definition is_dns_like (d : Destination) : bool :=
  let dns port := (port =? 53) || (port =? 5353) in
  match d with DV4 _ port | DV6 _ port | DDomain _ port => dns port end.

(** ** Compact destinations *)

(** What is written, and the result. *)
Definition encode_destination (d : Destination) : bytes * bool :=
  match d with
  | DV4 ip port => ([1] ++ ip ++ be_bytes 2 port, true)
  | DV6 ip port => ([2] ++ ip ++ be_bytes 2 port, true)
  | DDomain name port =>
      if 255 <? zlen name then ([], false)
      else ([3; as_u8 (zlen name)] ++ name ++ be_bytes 2 port, true)
  end.

(** [Option] results are [res unit], with [None] as [Err tt]. *)
Definition take_u8 (d : bytes) : res unit (Z * bytes) := b ← idx d 0; Ok (b, drop 1 d).
Definition take_u16 (d : bytes) : res unit (Z * bytes) := v ← idx16 d 0; Ok (v, drop 2 d).

Definition decode_destination (d : bytes) : res unit (Destination * bytes) :=
  _ ← ensure (negb (length d =? 0)%nat) tt;
  '(t, d) ← take_u8 d;
  if t =? 1 then
    _ ← ensure (negb (length d <? 6)%nat) tt;
    octets ← slice d 0 4;
    '(port, d) ← take_u16 (drop 4 d);
    Ok (DV4 octets port, d)
  else if t =? 2 then
    _ ← ensure (negb (length d <? 18)%nat) tt;
    octets ← slice d 0 16;
    '(port, d) ← take_u16 (drop 16 d);
    Ok (DV6 octets port, d)
  else if t =? 3 then
    _ ← ensure (negb (length d =? 0)%nat) tt;
    '(n, d) ← take_u8 d;
    let name_len := Z.to_nat n in
    _ ← ensure (negb (length d <? name_len + 2)%nat) tt;
    raw ← slice d 0 name_len;
    _ ← ensure (utf8_valid raw) tt;
    '(port, d) ← take_u16 (drop name_len d);
    Ok (DDomain raw port, d)
  else Err tt.

(** ** Parity *)

(** The [reed-solomon-erasure] crate with one parity shard. *)
Class ReedSolomonCrate : Type := {
  rs_new : nat -> bool;
  rs_encode : nat -> list bytes -> option bytes;
  rs_reconstruct : nat -> list (option bytes) -> option (list (option bytes))
}.

(** The code of a set of shards of one positive length rebuilds any one of them. *)
Class ReedSolomonLaws `{ReedSolomonCrate} : Prop := {
  rs_new_ok n : (0 < n < 256)%nat -> rs_new n = true;
  rs_rebuilds (shards : list bytes) (len : nat) :
    (0 < length shards < 256)%nat -> (0 < len)%nat -> Forall (fun s => length s = len) shards ->
    exists parity, rs_encode (length shards) shards = Some parity /\ length parity = len /\
      forall i, (i < length shards)%nat ->
        rs_reconstruct (length shards) (<[i := None]> (Some <$> shards) ++ [Some parity]) = Some (Some <$> (shards ++ [parity]))
}.

Fixpoint xor_zip (acc b : bytes) : bytes :=
  match acc, b with
  | x :: acc, y :: b => Z.lxor x y :: xor_zip acc b
  | _, _ => acc
  end.

(** [for (idx, byte) in b.iter().enumerate() { acc[idx] ^= byte }] *)
Definition xor_into (acc b : bytes) : res unit bytes :=
  if (length acc <? length b)%nat then Panic else Ok (xor_zip acc b).

(** [shard[..b.len()].copy_from_slice(b)] on a shard of [len] zeros. *)
Definition padded (len : nat) (b : bytes) : res unit bytes :=
  if (len <? length b)%nat then Panic else Ok (b ++ replicate (len - length b) 0).

Record FecParity : Type := mkParity {
  fp_session_id : Z;
  fp_base_packet_id : Z;
  fp_group_size : Z;
  fp_max_len : nat;
  fp_lengths : list nat;
  fp_parity : bytes;
  fp_mode : FecMode;
  fp_dest : option Destination
}.

Definition mode_byte (m : FecMode) : Z :=
  match m with Xor1OfN => 1 | ReedSolomon => 2 | RaptorLike => 3 | Auto | Off => 0 end.

Definition mode_from_byte (m : Z) : res unit FecMode :=
  if m =? 1 then Ok Xor1OfN else if m =? 2 then Ok ReedSolomon else if m =? 3 then Ok RaptorLike else Err tt.

Section Parity.
Context `{ReedSolomonCrate} (debug_assertions : bool).

Fixpoint build_xor_from (xor : bytes) (lengths : list nat) (slots : list (option bytes)) : res unit (list nat * bytes) :=
  match slots with
  | [] => Ok (lengths, xor)
  | slot :: slots =>
      b ← of_option tt slot;
      xor ← xor_into xor b;
      build_xor_from xor (lengths ++ [length b]) slots
  end.

Definition build_xor_parity (slots : list (option bytes)) (max_len : nat) : res unit (list nat * bytes) :=
  build_xor_from (replicate max_len 0) [] slots.

Fixpoint pad_slots (max_len : nat) (slots : list (option bytes)) : res unit (list bytes) :=
  match slots with
  | [] => Ok []
  | slot :: slots =>
      b ← of_option tt slot;
      s ← padded max_len b;
      ss ← pad_slots max_len slots;
      Ok (s :: ss)
  end.

Definition build_reed_solomon_parity (slots : list (option bytes)) (max_len : nat) : res unit (list nat * bytes) :=
  _ ← ensure (rs_new (length slots)) tt;
  shards ← pad_slots max_len slots;
  parity ← of_option tt (rs_encode (length slots) shards);
  Ok ((fun s => length (default [] s)) <$> slots, parity).

(** The payloads of the slots, when they are whole datagrams to one destination. *)
Fixpoint compact_slots_from (d : option Destination) (slots : list (option bytes)) :
    option (option Destination * list (option bytes)) :=
  match slots with
  | [] => Some (d, [])
  | slot :: slots =>
      raw ← slot;
      match decode_udp_datagram raw with
      | Ok dg =>
          if negb (frag_num dg =? 1) || negb (frag_id dg =? 0) then None
          else
            match d with
            | Some existing => if decide (existing = dest dg) then Some d else None
            | None => Some (Some (dest dg))
            end ≫= fun d =>
            r ← compact_slots_from d slots;
            Some (r.1, Some (data dg) :: r.2)
      | _ => None
      end
  end.

Definition compact_payload_slots (slots : list (option bytes)) : option (Destination * list (option bytes)) :=
  r ← compact_slots_from None slots; d ← r.1; Some (d, r.2).

(** [slots.iter().filter_map(len).max()] *)
Definition max_slot_len (slots : list (option bytes)) : option nat :=
  match omap (fmap length) slots with
  | [] => None
  | l :: ls => Some (foldl Nat.max l ls)
  end.

Fixpoint put_lengths (lengths : list nat) : bytes :=
  match lengths with
  | [] => []
  | len :: lengths => be_bytes 2 (as_u16 (Z.of_nat len)) ++ put_lengths lengths
  end.

Definition parity_payload (m : FecMode) (base : Z) (count : nat) (max_len : nat) (lengths : list nat) (parity : bytes)
    (compact_dest : option Destination) : bytes :=
  let fixed_lengths := bool_decide (is_Some compact_dest) && forallb (fun len => len =? max_len)%nat lengths in
  FEC_MAGIC ++
  [Z.lor (Z.lor (mode_byte m) (if bool_decide (is_Some compact_dest) then FEC_FLAG_COMPACT_PAYLOAD else 0))
         (if fixed_lengths then FEC_FLAG_FIXED_LENGTHS else 0)] ++
  be_bytes 2 base ++ [as_u8 (Z.of_nat count)] ++ be_bytes 2 (as_u16 (Z.of_nat max_len)) ++
  (if fixed_lengths then be_bytes 2 (as_u16 (Z.of_nat max_len))
   else put_lengths lengths) ++
  match compact_dest with
  | Some d => if debug_assertions then (encode_destination d).1 else []
  | None => []
  end ++
  parity.

Definition build_parity (m : FecMode) (sid base : Z) (slots : list (option bytes)) : res unit bytes :=
  let m := effective m 100 in
  let compact :=
    '(d, ss) ← compact_payload_slots slots; _ ← destination_encoded_len d; Some (d, ss) in
  let source_slots := match compact with Some (_, ss) => ss | None => slots end in
  let compact_dest := fst <$> compact in
  max_len ← of_option tt (max_slot_len source_slots);
  '(lengths, parity) ←
    match m with
    | Xor1OfN | RaptorLike => build_xor_parity source_slots max_len
    | ReedSolomon => build_reed_solomon_parity source_slots max_len
    | Auto | Off => Err tt
    end;
  let payload := parity_payload m base (length slots) max_len lengths parity compact_dest in
  match encode_udp_datagram (mkDatagram sid base 0 1 (DV4 FEC_MARKER_V4 FEC_MARKER_PORT) payload) with
  | Ok raw => Ok raw
  | _ => Panic
  end.
End Parity.

Fixpoint take_lengths (n : nat) (d : bytes) : res unit (list nat * bytes) :=
  match n with
  | O => Ok ([], d)
  | S n =>
      '(len, d) ← take_u16 d;
      '(lens, d) ← take_lengths n d;
      Ok (Z.to_nat len :: lens, d)
  end.

Definition is_fec_marker (d : Destination) : bool :=
  match d with
  | DV4 ip port => (port =? FEC_MARKER_PORT) && bool_decide (ip = FEC_MARKER_V4)
  | DDomain name port => (port =? FEC_MARKER_PORT) && bool_decide (name = FEC_MARKER_DOMAIN)
  | DV6 _ _ => false
  end.

Definition decode_xor_parity (dg : UdpDatagram) : res unit FecParity :=
  _ ← ensure (is_fec_marker (dest dg)) tt;
  let d := data dg in
  _ ← ensure (negb (length d <? length FEC_MAGIC + 6)%nat && bool_decide (take (length FEC_MAGIC) d = FEC_MAGIC)) tt;
  let d := drop (length FEC_MAGIC) d in
  '(mode_flags, d) ← take_u8 d;
  let compact := negb (Z.land mode_flags FEC_FLAG_COMPACT_PAYLOAD =? 0) in
  let fixed_lengths := negb (Z.land mode_flags FEC_FLAG_FIXED_LENGTHS =? 0) in
  m ← mode_from_byte (Z.land mode_flags (255 - (FEC_FLAG_COMPACT_PAYLOAD + FEC_FLAG_FIXED_LENGTHS)));
  '(base, d) ← take_u16 d;
  '(gs, d) ← take_u8 d;
  '(max_len, d) ← take_u16 d;
  let max_len := Z.to_nat max_len in
  let length_bytes := if fixed_lengths then 2%nat else (Z.to_nat gs * 2)%nat in
  _ ← ensure (negb ((gs <? 2) || (length d <? length_bytes + max_len)%nat)) tt;
  '(lengths, d) ←
    if fixed_lengths then '(len, d) ← take_u16 d; Ok (replicate (Z.to_nat gs) (Z.to_nat len), d)
    else take_lengths (Z.to_nat gs) d;
  '(dst, d) ← if compact then '(dst, d) ← decode_destination d; Ok (Some dst, d) else Ok (None, d);
  _ ← ensure (negb (length d <? max_len)%nat) tt;
  parity ← slice d 0 max_len;
  Ok (mkParity (session_id dg) base gs max_len lengths parity m dst).

(** ** Recovery *)

Record FecDecodeGroup : Type := mkDecodeGroup {
  dg_created : Z;
  dg_slots : list (option bytes);
  dg_parity : option FecParity
}.

Definition parity_source_bytes (raw : bytes) (p : FecParity) : res unit bytes :=
  match fp_dest p with
  | Some _ => match decode_udp_datagram raw with Ok dg => Ok (data dg) | Err _ => Err tt | Panic => Panic end
  | None => Ok raw
  end.

Fixpoint recover_xor_from (recovered : bytes) (slots : list (option bytes)) (p : FecParity) : res unit bytes :=
  match slots with
  | [] => Ok recovered
  | None :: slots => recover_xor_from recovered slots p
  | Some slot :: slots =>
      b ← parity_source_bytes slot p;
      recovered ← xor_into recovered (take (fp_max_len p) b);
      recover_xor_from recovered slots p
  end.

Definition recover_xor (g : FecDecodeGroup) (p : FecParity) : res unit bytes :=
  recover_xor_from (fp_parity p) (dg_slots g) p.

(** A slot that does not decode counts as missing. *)
Definition shard_of (p : FecParity) (slot : option bytes) : res unit (option bytes) :=
  match slot with
  | None => Ok None
  | Some raw =>
      match parity_source_bytes raw p with
      | Ok b => s ← padded (fp_max_len p) b; Ok (Some s)
      | Err _ => Ok None
      | Panic => Panic
      end
  end.

Fixpoint shards_of (p : FecParity) (slots : list (option bytes)) : res unit (list (option bytes)) :=
  match slots with
  | [] => Ok []
  | slot :: slots => s ← shard_of p slot; ss ← shards_of p slots; Ok (s :: ss)
  end.

Section Recovery.
Context `{ReedSolomonCrate}.

Definition recover_reed_solomon (g : FecDecodeGroup) (p : FecParity) (missing_idx : nat) : res unit bytes :=
  let data_shards := length (dg_slots g) in
  _ ← ensure (rs_new data_shards) tt;
  shards ← shards_of p (dg_slots g);
  shards ← of_option tt (rs_reconstruct data_shards (shards ++ [Some (fp_parity p)]));
  of_option tt (mjoin (shards !! missing_idx)).

Definition missing_indices (slots : list (option bytes)) : list nat :=
  omap (fun '(i, slot) => match slot with None => Some i | Some _ => None end) (imap pair slots).

Definition recover_one_missing (g : FecDecodeGroup) : res unit bytes :=
  p ← of_option tt (dg_parity g);
  match missing_indices (dg_slots g) with
  | [missing_idx] =>
      if negb (Z.of_nat (length (dg_slots g)) =? fp_group_size p) then Err tt
      else
        recovered ←
          match fp_mode p with
          | Xor1OfN | RaptorLike => recover_xor g p
          | ReedSolomon => recover_reed_solomon g p missing_idx
          | Auto | Off => Err tt
          end;
        len ← of_option tt (fp_lengths p !! missing_idx);
        let recovered := take len recovered in
        match fp_dest p with
        | Some d =>
            match encode_udp_datagram (mkDatagram (fp_session_id p)
                    (as_u16 (fp_base_packet_id p + as_u16 (Z.of_nat missing_idx))) 0 1 d recovered) with
            | Ok raw => Ok raw
            | _ => Panic
            end
        | None => Ok recovered
        end
  | _ => Err tt
  end.

(** ** Encoder *)

Record FecEncodeGroup : Type := mkEncodeGroup { eg_created : Z; eg_slots : list (option bytes) }.

Record FecEncoder : Type := mkEncoder {
  e_groups : gmap (Z * Z) FecEncodeGroup;
  active_dns_flows : gset Z;
  parity_packets : Z;
  overhead_bytes : Z;
  duplicate_safe_skips : Z
}.

Definition FecEncoder_new : FecEncoder := mkEncoder ∅ ∅ 0 0 0.

Definition encoder_expire_stale (p : FecPolicy) (now : Z) (e : FecEncoder) : FecEncoder :=
  let max_age := Z.max (max_generation_delay p) MILLIS in
  let gs := filter (fun kg => now - eg_created kg.2 <= max_age) (e_groups e) in
  mkEncoder gs (if decide (gs = ∅) then ∅ else active_dns_flows e) (parity_packets e) (overhead_bytes e) (duplicate_safe_skips e).

Definition should_skip_sequential_dns (p : FecPolicy) (original : UdpDatagram) (e : FecEncoder) : FecEncoder * bool :=
  if negb (disable_for_sequential_dns p) || negb (is_dns_like (dest original)) then (e, false)
  else
    let flows := {[session_id original]} ∪ active_dns_flows e in
    (mkEncoder (e_groups e) flows (parity_packets e) (overhead_bytes e) (duplicate_safe_skips e),
     Z.of_nat (size flows) <? Z.max (min_concurrency_for_block_fec p) 2).

Definition count_some (slots : list (option bytes)) : Z := zlen (omap id slots).

Definition set_group (k : Z * Z) (g : FecEncodeGroup) (e : FecEncoder) : FecEncoder :=
  mkEncoder (<[k := g]> (e_groups e)) (active_dns_flows e) (parity_packets e) (overhead_bytes e) (duplicate_safe_skips e).

Definition protect (debug_assertions : bool) (p : FecPolicy) (now : Z) (original : UdpDatagram) (encoded : bytes) (e : FecEncoder) :
    res unit (FecEncoder * option bytes) :=
  let e := encoder_expire_stale p now e in
  if negb (enabled p) || negb (frag_num original =? 1) then Ok (e, None)
  else
    match should_skip_sequential_dns p original e with
    | (e, true) =>
        Ok (mkEncoder (e_groups e) (active_dns_flows e) (parity_packets e) (overhead_bytes e) (as_u64 (duplicate_safe_skips e + 1)), None)
    | (e, false) =>
        let gs := effective_group_size_for p (zlen (data original)) (zlen encoded) (dest original) in
        let base := packet_id original - packet_id original mod gs in
        let i := Z.to_nat (packet_id original - base) in
        let key := (session_id original, base) in
        let g := default (mkEncodeGroup now (replicate (Z.to_nat gs) None)) (e_groups e !! key) in
        if (length (eg_slots g) <=? i)%nat then Ok (set_group key g e, None)
        else
          let slots := <[i := Some encoded]> (eg_slots g) in
          let e := set_group key (mkEncodeGroup (eg_created g) slots) e in
          if count_some slots <? Z.min (Z.max (min_concurrency_for_block_fec p) 1) gs then Ok (e, None)
          else if forallb (fun s => bool_decide (is_Some s)) slots then
            match build_parity debug_assertions (effective (mode p) (max_overhead_percent p)) (session_id original) base slots with
            | Ok parity =>
                Ok (mkEncoder (delete key (e_groups e)) (active_dns_flows e) (as_u64 (parity_packets e + 1))
                      (as_u64 (overhead_bytes e + zlen parity)) (duplicate_safe_skips e), Some parity)
            | Err _ => Ok (e, None)
            | Panic => Panic
            end
          else Ok (e, None)
    end.

(** ** Decoder *)

Record FecDecoder : Type := mkDecoder {
  d_groups : gmap (Z * Z) FecDecodeGroup;
  seen : gset (Z * Z);
  seen_order : list (Z * Z);
  recovered_packets : Z;
  stale_drops : Z
}.

Definition FecDecoder_new : FecDecoder := mkDecoder ∅ ∅ [] 0 0.

(** The loop of [mark_seen] pops the front until the window fits. *)
Fixpoint shrink_seen (limit : nat) (s : gset (Z * Z)) (order : list (Z * Z)) : gset (Z * Z) * list (Z * Z) :=
  match order with
  | old :: order' => if (limit <? length order)%nat then shrink_seen limit (s ∖ {[old]}) order' else (s, order)
  | [] => (s, order)
  end.

Definition mark_seen (p : FecPolicy) (key : Z * Z) (d : FecDecoder) : FecDecoder * bool :=
  if decide (key ∈ seen d) then (d, false)
  else
    let limit := Z.to_nat (Z.max 1 (Z.min (dedup_window_packets p) FEC_SEEN_LIMIT)) in
    let '(s, order) := shrink_seen limit ({[key]} ∪ seen d) (seen_order d ++ [key]) in
    (mkDecoder (d_groups d) s order (recovered_packets d) (stale_drops d), true).

Definition decoder_expire_stale (now : Z) (d : FecDecoder) : FecDecoder :=
  let gs := filter (fun kg => Z.max 0 (now - dg_created kg.2) <= FEC_GROUP_TTL) (d_groups d) in
  mkDecoder gs (seen d) (seen_order d) (recovered_packets d)
    (as_u64 (stale_drops d + Z.of_nat (size (d_groups d) - size gs))).

Definition put_group (k : Z * Z) (g : FecDecodeGroup) (d : FecDecoder) : FecDecoder :=
  mkDecoder (<[k := g]> (d_groups d)) (seen d) (seen_order d) (recovered_packets d) (stale_drops d).

(** The end of [accept_original] and [accept_parity]. *)
Definition deliver_recovered (p : FecPolicy) (recovered_raw : res unit bytes) (d : FecDecoder) :
    res unit (FecDecoder * list UdpDatagram) :=
  match recovered_raw with
  | Ok raw =>
      match decode_udp_datagram raw with
      | Ok recovered =>
          match mark_seen p (session_id recovered, packet_id recovered) d with
          | (d, false) => Ok (d, [])
          | (d, true) =>
              Ok (mkDecoder (d_groups d) (seen d) (seen_order d) (as_u64 (recovered_packets d + 1)) (stale_drops d), [recovered])
          end
      | Err _ => Ok (d, [])
      | Panic => Panic
      end
  | Err _ => Ok (d, [])
  | Panic => Panic
  end.

Definition accept_original (p : FecPolicy) (now : Z) (dg : UdpDatagram) (raw : bytes) (d : FecDecoder) :
    res unit (FecDecoder * list UdpDatagram) :=
  if negb (enabled p) || negb (frag_num dg =? 1) then Ok (d, [])
  else
    let gs := effective_group_size_for p (zlen (data dg)) (zlen raw) (dest dg) in
    let base := packet_id dg - packet_id dg mod gs in
    let i := Z.to_nat (packet_id dg - base) in
    let key := (session_id dg, base) in
    let g := default (mkDecodeGroup now (replicate (Z.to_nat gs) None) None) (d_groups d !! key) in
    let g := mkDecodeGroup (dg_created g) (<[i := Some raw]> (dg_slots g)) (dg_parity g) in
    let d := put_group key g d in
    let recovered_raw :=
      if bool_decide (is_Some (dg_parity g)) && (now - dg_created g <=? recovery_deadline p)
      then recover_one_missing g else Err tt in
    deliver_recovered p recovered_raw d.

Definition drop_stale (d : FecDecoder) : FecDecoder :=
  mkDecoder (d_groups d) (seen d) (seen_order d) (recovered_packets d) (as_u64 (stale_drops d + 1)).

Definition accept_parity (p : FecPolicy) (now : Z) (parity : FecParity) (d : FecDecoder) :
    res unit (FecDecoder * list UdpDatagram) :=
  let key := (fp_session_id parity, fp_base_packet_id parity) in
  let g := default (mkDecodeGroup now (replicate (Z.to_nat (fp_group_size parity)) None) None) (d_groups d !! key) in
  let g := mkDecodeGroup (dg_created g) (dg_slots g) (Some parity) in
  let d := put_group key g d in
  if FEC_RECOVERY_DEADLINE <? now - dg_created g then Ok (drop_stale d, [])
  else if recovery_deadline p <? now - dg_created g then Ok (drop_stale d, [])
  else deliver_recovered p (recover_one_missing g) d.

Definition decode (p : FecPolicy) (now : Z) (raw : bytes) (d : FecDecoder) : res unit (FecDecoder * list UdpDatagram) :=
  let d := decoder_expire_stale now d in
  match decode_udp_datagram raw with
  | Ok dg =>
      match decode_xor_parity dg with
      | Ok parity => if negb (enabled p) then Ok (d, []) else accept_parity p now parity d
      | Err _ =>
          match mark_seen p (session_id dg, packet_id dg) d with
          | (d, false) => Ok (d, [])
          | (d, true) => '(d, more) ← accept_original p now dg raw d; Ok (d, dg :: more)
          end
      | Panic => Panic
      end
  | Err _ => Ok (d, [])
  | Panic => Panic
  end.
End Recovery.

(** * Facts *)

(** ** Exclusive or *)

Lemma length_xor_zip acc b : length (xor_zip acc b) = length acc.
Proof. revert b. induction acc as [|x acc IH]; intros [|y b]; cbn; congruence. Qed.

Lemma xor_zip_comm acc a b : xor_zip (xor_zip acc a) b = xor_zip (xor_zip acc b) a.
Proof.
  revert a b. induction acc as [|x acc IH]; intros [|y a] [|z b]; cbn; try done. f_equal; [|apply IH].
  by rewrite !Z.lxor_assoc, (Z.lxor_comm y).
Qed.

Lemma xor_zip_twice acc a : xor_zip (xor_zip acc a) a = acc.
Proof.
  revert a. induction acc as [|x acc IH]; intros [|y a]; cbn; try done. f_equal; [|apply IH].
  by rewrite Z.lxor_assoc, Z.lxor_nilpotent, Z.lxor_0_r.
Qed.

Lemma xor_zip_zeros n b : (length b <= n)%nat -> xor_zip (replicate n 0) b = b ++ replicate (n - length b) 0.
Proof.
  revert n. induction b as [|x b IH]; intros n Hl; [by destruct n|]. destruct n as [|n]; [cbn in Hl; lia|].
  cbn. f_equal. apply IH. cbn in Hl. lia.
Qed.

Lemma xor_zip_self q s : length q = length s -> xor_zip q (xor_zip q s) = s.
Proof.
  revert s. induction q as [|x q IH]; intros [|y s] Hl; cbn in *; try lia; [done|]. f_equal; [|apply IH; lia].
  by rewrite <- Z.lxor_assoc, Z.lxor_nilpotent, Z.lxor_0_l.
Qed.

Lemma length_xor_all acc l : length (foldl xor_zip acc l) = length acc.
Proof. revert acc. induction l as [|b l IH]; intros acc; cbn; [done|]. by rewrite IH, length_xor_zip. Qed.

Lemma xor_all_out acc a l : foldl xor_zip (xor_zip acc a) l = xor_zip (foldl xor_zip acc l) a.
Proof. revert acc. induction l as [|b l IH]; intros acc; cbn; [done|]. by rewrite xor_zip_comm, IH. Qed.

Lemma xor_all_twice acc l : foldl xor_zip (foldl xor_zip acc l) l = acc.
Proof.
  revert acc. induction l as [|b l IH]; intros acc; cbn; [done|].
  by rewrite !xor_all_out, IH, xor_zip_twice.
Qed.

(** The parity of a group and all its members but one give that one. *)
Lemma xor_all_missing acc l1 b l2 : foldl xor_zip (foldl xor_zip acc (l1 ++ b :: l2)) (l1 ++ l2) = xor_zip acc b.
Proof.
  assert (Hout : foldl xor_zip acc (l1 ++ b :: l2) = xor_zip (foldl xor_zip acc (l1 ++ l2)) b).
  { rewrite !foldl_app. cbn. by rewrite xor_all_out. }
  by rewrite Hout, xor_all_out, xor_all_twice.
Qed.

Lemma build_xor_from_ok xor lens bs :
  Forall (fun b => (length b <= length xor)%nat) bs ->
  build_xor_from xor lens (Some <$> bs) = Ok (lens ++ (length <$> bs), foldl xor_zip xor bs).
Proof.
  revert xor lens. induction bs as [|b bs IH]; intros xor lens Hl; cbn; [by rewrite app_nil_r|].
  apply Forall_cons in Hl as [Hb Hl]. unfold xor_into. rewrite (proj2 (Nat.ltb_ge _ _)) by lia. mred.
  rewrite IH by (by rewrite length_xor_zip). by rewrite <- app_assoc.
Qed.

Lemma recover_xor_from_ok rec slots p bs :
  Forall2 (fun s b => parity_source_bytes s p = Ok b) (omap id slots) bs ->
  Forall (fun b => (length b <= fp_max_len p)%nat) bs -> length rec = fp_max_len p ->
  recover_xor_from rec slots p = Ok (foldl xor_zip rec bs).
Proof.
  revert rec bs. induction slots as [|[s|] slots IH]; intros rec bs Hs Hl Hr; cbn in *.
  - inv Hs. done.
  - inv Hs as [|? b ? bs' Hsb Hs']. apply Forall_cons in Hl as [Hb Hl]. rewrite Hsb. mred. rewrite take_ge by done.
    unfold xor_into. rewrite (proj2 (Nat.ltb_ge _ _)) by lia. mred. rewrite (IH _ bs'); [done|done|done|by rewrite length_xor_zip].
  - by apply IH.
Qed.

(** ** Shards *)

Definition pad (len : nat) (b : bytes) : bytes := b ++ replicate (len - length b) 0.

Lemma padded_ok len b : (length b <= len)%nat -> padded len b = Ok (pad len b).
Proof. intros Hl. unfold padded. by rewrite (proj2 (Nat.ltb_ge _ _)). Qed.

Lemma length_pad len b : (length b <= len)%nat -> length (pad len b) = len.
Proof. intros Hl. unfold pad. rewrite length_app, length_replicate. lia. Qed.

Lemma take_pad len b : take (length b) (pad len b) = b.
Proof. apply take_app_length. Qed.

Lemma pad_slots_ok len bs :
  Forall (fun b => (length b <= len)%nat) bs -> pad_slots len (Some <$> bs) = Ok (pad len <$> bs).
Proof.
  induction 1 as [|b bs Hb _ IH]; [done|]. cbn. rewrite padded_ok by done. mred. by rewrite IH.
Qed.

Lemma shards_of_app p s1 s2 r1 r2 :
  shards_of p s1 = Ok r1 -> shards_of p s2 = Ok r2 -> shards_of p (s1 ++ s2) = Ok (r1 ++ r2).
Proof.
  revert r1. induction s1 as [|s s1 IH]; intros r1 H1 H2; cbn in *; [by injection H1 as <-|].
  destruct (shard_of p s); [|done..]. mred in H1. mred. destruct (shards_of p s1) as [t1| |] eqn:Ht; [|done..].
  injection H1 as <-. by rewrite (IH t1).
Qed.

Lemma shards_of_some p raws bs :
  Forall2 (fun s b => parity_source_bytes s p = Ok b) raws bs -> Forall (fun b => (length b <= fp_max_len p)%nat) bs ->
  shards_of p (Some <$> raws) = Ok (Some <$> (pad (fp_max_len p) <$> bs)).
Proof.
  intros Hs. induction Hs as [|s b raws bs Hsb _ IH]; intros Hl; [done|]. apply Forall_cons in Hl as [Hb Hl].
  cbn. rewrite Hsb, padded_ok by done. mred. by rewrite IH.
Qed.

Lemma omap_id_some {A} (l : list A) : omap id (Some <$> l) = l.
Proof. induction l as [|x l IH]; cbn; congruence. Qed.

(** ** Parity rebuilds *)

Section RecoveryFacts.
Context `{HRS : ReedSolomonLaws}.

Definition parity_of (m : FecMode) (slots : list (option bytes)) (max_len : nat) : res unit (list nat * bytes) :=
  match m with
  | Xor1OfN | RaptorLike => build_xor_parity slots max_len
  | ReedSolomon => build_reed_solomon_parity slots max_len
  | Auto | Off => Err tt
  end.

Definition codes (m : FecMode) : Prop := m = Xor1OfN \/ m = ReedSolomon \/ m = RaptorLike.

(** The parity of a group exists, and any one member is rebuilt from the others. *)
Lemma parity_rebuilds m bs max_len :
  codes m -> (0 < length bs < 256)%nat -> (0 < max_len)%nat -> Forall (fun b => (length b <= max_len)%nat) bs ->
  exists par, parity_of m (Some <$> bs) max_len = Ok (length <$> bs, par) /\ length par = max_len /\
    forall p raws1 raws2 bs1 b bs2 g,
      bs = bs1 ++ b :: bs2 -> fp_parity p = par -> fp_max_len p = max_len -> dg_slots g = (Some <$> raws1) ++ None :: (Some <$> raws2) ->
      Forall2 (fun s b => parity_source_bytes s p = Ok b) raws1 bs1 ->
      Forall2 (fun s b => parity_source_bytes s p = Ok b) raws2 bs2 ->
      match m with
      | Xor1OfN | RaptorLike => recover_xor g p
      | ReedSolomon => recover_reed_solomon g p (length bs1)
      | Auto | Off => Err tt
      end = Ok (pad max_len b).
Proof.
  intros Hm Hn Hpos Hl.
  assert (Hxor : exists par, build_xor_parity (Some <$> bs) max_len = Ok (length <$> bs, par) /\ length par = max_len /\
    forall p raws1 raws2 bs1 b bs2 g,
      bs = bs1 ++ b :: bs2 -> fp_parity p = par -> fp_max_len p = max_len -> dg_slots g = (Some <$> raws1) ++ None :: (Some <$> raws2) ->
      Forall2 (fun s b => parity_source_bytes s p = Ok b) raws1 bs1 ->
      Forall2 (fun s b => parity_source_bytes s p = Ok b) raws2 bs2 -> recover_xor g p = Ok (pad max_len b)).
  { exists (foldl xor_zip (replicate max_len 0) bs). unfold build_xor_parity.
    rewrite build_xor_from_ok by (by rewrite length_replicate). split; [done|]. split; [by rewrite length_xor_all, length_replicate|].
    intros p raws1 raws2 bs1 b bs2 g -> Hp Hmax Hg H1 H2. apply Forall_app in Hl as [Hl1 [Hb Hl2]%Forall_cons].
    unfold recover_xor. rewrite (recover_xor_from_ok _ _ p (bs1 ++ bs2)).
    - by rewrite Hp, xor_all_missing, xor_zip_zeros.
    - rewrite Hg, omap_app. cbn. rewrite !omap_id_some. by apply Forall2_app.
    - rewrite Hmax. by apply Forall_app.
    - by rewrite Hp, length_xor_all, length_replicate. }
  destruct Hm as [->|[->| ->]]; [exact Hxor| |exact Hxor]. clear Hxor.
  destruct (rs_rebuilds (pad max_len <$> bs) max_len) as (par & Henc & Hlp & Hrec); [by rewrite length_fmap|done| |].
  { apply Forall_fmap. eapply Forall_impl; [exact Hl|]. intros b. apply length_pad. }
  rewrite length_fmap in Henc, Hrec. exists par. split_and!; [|done|].
  - cbn [parity_of]. unfold build_reed_solomon_parity. rewrite length_fmap, rs_new_ok by lia. cbn [ensure]. mred.
    rewrite pad_slots_ok by done. mred. rewrite Henc. cbn [of_option]. mred. f_equal. f_equal.
    by rewrite <- list_fmap_compose.
  - intros p raws1 raws2 bs1 b bs2 g -> Hp Hmax Hg H1 H2. apply Forall_app in Hl as [Hl1 [Hb Hl2]%Forall_cons].
    assert (Hlen : length (dg_slots g) = length (bs1 ++ b :: bs2)).
    { rewrite Hg, !length_app. cbn. rewrite !length_fmap, (Forall2_length _ _ _ H1), (Forall2_length _ _ _ H2). done. }
    unfold recover_reed_solomon. rewrite Hlen, rs_new_ok by lia. cbn [ensure]. mred.
    rewrite Hg, (shards_of_app p _ _ (Some <$> (pad max_len <$> bs1)) (None :: (Some <$> (pad max_len <$> bs2)))).
    2:{ rewrite <- Hmax. apply shards_of_some; [done|by rewrite Hmax]. }
    2:{ cbn. mred. rewrite <- Hmax. rewrite (shards_of_some p raws2 bs2) by (done || by rewrite Hmax). done. }
    mred. rewrite Hp. specialize (Hrec (length bs1)). rewrite length_app in Hrec. cbn in Hrec.
    rewrite fmap_app, fmap_cons, fmap_app, fmap_cons in Hrec.
    rewrite (insert_app_r_alt _ _ (length bs1)), !length_fmap, Nat.sub_diag in Hrec by (rewrite !length_fmap; lia).
    cbn in Hrec. rewrite length_app. cbn. rewrite Hrec by lia. cbn [of_option]. mred.
    rewrite !fmap_app, !fmap_cons, <- app_assoc.
    rewrite lookup_app_r by (rewrite !length_fmap; lia). rewrite !length_fmap, Nat.sub_diag. done.
Qed.
End RecoveryFacts.

(** ** The parity datagram *)

Lemma take_u16_be x rest : in_u16 x -> take_u16 (be_bytes 2 x ++ rest) = Ok (x, rest).
Proof.
  intros Hx. unfold take_u16. rewrite idx16_be_bytes_0 by done. mred.
  by rewrite drop_app_length' by (by rewrite length_be_bytes).
Qed.

Lemma take_u8_cons b rest : take_u8 (b :: rest) = Ok (b, rest).
Proof. unfold take_u8. cbn. by rewrite drop_0. Qed.

Definition dest_ok (d : Destination) : Prop :=
  address_ok (addr_of d) /\ match d with DDomain name _ => (length name <= 255)%nat | _ => True end.

Lemma encode_destination_len d : dest_ok d -> (encode_destination d).2 = true /\ is_Some (destination_encoded_len d).
Proof.
  intros [_ Hn]. destruct d as [i p|i p|name p]; cbn; [by eauto..|]. unfold zlen.
  rewrite (proj2 (Z.ltb_ge _ _)), (proj2 (Z.leb_le _ _)) by lia. cbn. eauto.
Qed.

Lemma decode_encode_destination d rest : dest_ok d -> decode_destination ((encode_destination d).1 ++ rest) = Ok (d, rest).
Proof.
  intros [[Hp Ha] Hn]. destruct d as [i p|i p|name p]; cbn [addr_of port] in *.
  - destruct Ha as [_ Hl]. unfold decode_destination. cbn [encode_destination fst app length Nat.eqb negb ensure]. mred. rewrite take_u8_cons. mred.
    cbn [Z.eqb Pos.eqb]. rewrite <- !app_assoc. rewrite (proj2 (Nat.ltb_ge _ _)) by len_solve. cbn [negb ensure]. mred.
    rewrite slice_prefix by done. mred. rewrite drop_app_length' by done. rewrite take_u16_be by done. done.
  - destruct Ha as [_ Hl]. unfold decode_destination. cbn [encode_destination fst app length Nat.eqb negb ensure]. mred. rewrite take_u8_cons. mred.
    cbn [Z.eqb Pos.eqb]. rewrite <- !app_assoc. rewrite (proj2 (Nat.ltb_ge _ _)) by len_solve. cbn [negb ensure]. mred.
    rewrite slice_prefix by done. mred. rewrite drop_app_length' by done. rewrite take_u16_be by done. done.
  - destruct Ha as [_ Hu]. unfold decode_destination, encode_destination. rewrite (proj2 (Z.ltb_ge _ _)) by (unfold zlen; lia).
    cbn [fst app length Nat.eqb negb ensure]. mred. rewrite take_u8_cons. mred. cbn [Z.eqb Pos.eqb length Nat.eqb negb ensure]. mred.
    rewrite take_u8_cons. mred. rewrite <- !app_assoc.
    assert (Hz : Z.to_nat (as_u8 (zlen name)) = length name) by (unfold as_u8, zlen; rewrite Z.mod_small by lia; lia).
    rewrite Hz, (proj2 (Nat.ltb_ge _ _)) by len_solve. cbn [negb ensure]. mred. rewrite slice_prefix by done. mred.
    rewrite Hu. cbn [ensure]. mred. rewrite drop_app_length' by done. rewrite take_u16_be by done. done.
Qed.

Lemma take_lengths_written lens rest :
  Forall (fun l => Z.of_nat l < 2 ^ 16) lens ->
  take_lengths (length lens) (put_lengths lens ++ rest) = Ok (lens, rest).
Proof.
  induction 1 as [|l lens Hl _ IH]; [done|]. cbn [length take_lengths put_lengths]. rewrite <- app_assoc.
  unfold as_u16. rewrite Z.mod_small by lia. rewrite take_u16_be by (unfold in_u16; lia). mred. rewrite IH. mred.
  by rewrite Nat2Z.id.
Qed.

Lemma mode_flags m (compact fixed : bool) :
  codes m ->
  let f := Z.lor (Z.lor (mode_byte m) (if compact then FEC_FLAG_COMPACT_PAYLOAD else 0)) (if fixed then FEC_FLAG_FIXED_LENGTHS else 0) in
  negb (Z.land f FEC_FLAG_COMPACT_PAYLOAD =? 0) = compact /\ negb (Z.land f FEC_FLAG_FIXED_LENGTHS =? 0) = fixed /\
  mode_from_byte (Z.land f (255 - (FEC_FLAG_COMPACT_PAYLOAD + FEC_FLAG_FIXED_LENGTHS))) = Ok m.
Proof. intros [->|[->| ->]]; destruct compact, fixed; done. Qed.

Section ParityWire.
Context (m : FecMode) (sid base : Z) (max_len : nat) (lengths : list nat) (par : bytes).
Context (Hm : codes m) (Hbase : in_u16 base) (Hcount : (2 <= length lengths <= 255)%nat).
Context (Hmax : Z.of_nat max_len < 2 ^ 16) (Hlens : Forall (fun l => (l <= max_len)%nat) lengths) (Hpar : length par = max_len).

Let marked (payload : bytes) : UdpDatagram := mkDatagram sid base 0 1 (DV4 FEC_MARKER_V4 FEC_MARKER_PORT) payload.

(** The header up to the lengths, whatever follows. *)
Lemma parity_header_decodes (compact fixed : bool) rest :
  (compact = false -> fixed = false) -> (fixed = true -> lengths = replicate (length lengths) max_len) ->
  (length par <= length rest)%nat ->
  decode_xor_parity (marked (FEC_MAGIC ++
      [Z.lor (Z.lor (mode_byte m) (if compact then FEC_FLAG_COMPACT_PAYLOAD else 0)) (if fixed then FEC_FLAG_FIXED_LENGTHS else 0)] ++
      be_bytes 2 base ++ [as_u8 (Z.of_nat (length lengths))] ++ be_bytes 2 (as_u16 (Z.of_nat max_len)) ++
      (if fixed then be_bytes 2 (as_u16 (Z.of_nat max_len))
       else put_lengths lengths) ++ rest)) =
  '(dst, d) ← if compact then '(dst, d) ← decode_destination rest; Ok (Some dst, d) else Ok (None, rest);
  _ ← ensure (negb (length d <? max_len)%nat) tt;
  parity ← slice d 0 max_len;
  Ok (mkParity sid base (Z.of_nat (length lengths)) max_len lengths parity m dst).
Proof.
  intros Hcf Hfix Hrest. pose proof (mode_flags m compact fixed Hm) as (Hf1 & Hf2 & Hf3).
  set (flags := Z.lor _ _) in *. unfold decode_xor_parity, marked. cbn [dest data session_id].
  change (is_fec_marker _) with true. cbn [ensure]. mred.
  rewrite take_app_length, drop_app_length, bool_decide_eq_true_2, andb_true_r by done.
  rewrite (proj2 (Nat.ltb_ge _ _)) by len_solve. cbn [negb ensure]. mred. cbn [app]. rewrite take_u8_cons. mred.
  rewrite Hf1, Hf2, Hf3. mred. rewrite take_u16_be by done. mred. rewrite take_u8_cons. mred.
  assert (Hgs : as_u8 (Z.of_nat (length lengths)) = Z.of_nat (length lengths)) by (unfold as_u8; rewrite Z.mod_small; lia).
  assert (Hml : as_u16 (Z.of_nat max_len) = Z.of_nat max_len) by (unfold as_u16; rewrite Z.mod_small; lia).
  rewrite Hgs, Hml, take_u16_be by (unfold in_u16; lia). mred. rewrite !Nat2Z.id.
  assert (Hjoin : length (put_lengths lengths) = (length lengths * 2)%nat).
  { clear. induction lengths as [|l ls IH]; cbn [length put_lengths]; [done|].
    rewrite length_app, length_be_bytes, IH. lia. }
  rewrite (proj2 (Z.ltb_ge _ _)) by lia. cbn [orb].
  destruct fixed.
  - rewrite (proj2 (Nat.ltb_ge _ _)) by len_solve. cbn [negb ensure]. mred.
    rewrite take_u16_be by (unfold in_u16; lia). mred. rewrite Nat2Z.id, <- Hfix by done. done.
  - rewrite (proj2 (Nat.ltb_ge _ _)) by (rewrite length_app, Hjoin; len_solve). cbn [negb ensure]. mred.
    rewrite take_lengths_written; [done|]. eapply Forall_impl; [exact Hlens|]. cbn. lia.
Qed.

Lemma all_fixed : forallb (fun len => len =? max_len)%nat lengths = true -> lengths = replicate (length lengths) max_len.
Proof.
  clear. intros Hf. induction lengths as [|l ls IH]; [done|]. cbn in *. apply andb_true_iff in Hf as [Hl Hf].
  apply Nat.eqb_eq in Hl. subst l. by rewrite <- IH.
Qed.

(** What the encoder writes is read back, in a debug build or without a destination. *)
Lemma parity_payload_decodes debug cd :
  match cd with Some d => dest_ok d /\ debug = true | None => True end ->
  decode_xor_parity (marked (parity_payload debug m base (length lengths) max_len lengths par cd)) =
    Ok (mkParity sid base (Z.of_nat (length lengths)) max_len lengths par m cd).
Proof.
  intros Hcd. unfold parity_payload. destruct cd as [d|].
  - destruct Hcd as [Hd ->]. rewrite bool_decide_eq_true_2 by eauto. cbn [andb].
    rewrite (parity_header_decodes true); [|done|apply all_fixed|len_solve].
    rewrite decode_encode_destination by done. mred. rewrite (proj2 (Nat.ltb_ge _ _)) by lia. cbn [negb ensure]. mred.
    rewrite <- (app_nil_r par) at 1. by rewrite slice_prefix.
  - rewrite bool_decide_eq_false_2 by (by intros [??]). cbn [andb]. rewrite (app_nil_l par).
    rewrite (parity_header_decodes false false); [|done|done|lia]. mred.
    rewrite (proj2 (Nat.ltb_ge _ _)) by lia. cbn [negb ensure]. mred. rewrite <- (app_nil_r par) at 1. by rewrite slice_prefix.
Qed.
End ParityWire.

Lemma take_u16_len d v d' : take_u16 d = Ok (v, d') -> (length d' < length d)%nat.
Proof.
  unfold take_u16, idx16, idx. destruct d as [|a [|b d]]; cbn; try done. rewrite drop_0. intros [= _ <-]. lia.
Qed.

(** Reading a destination takes bytes, and never panics. *)
Lemma decode_destination_len d :
  match decode_destination d with Ok (_, d') => (length d' < length d)%nat | Err _ => True | Panic => False end.
Proof.
  unfold decode_destination. destruct d as [|t d]; [done|]. cbn [length Nat.eqb negb ensure]. mred. rewrite take_u8_cons. mred.
  assert (Hfix : forall n (C : bytes -> Z -> Destination), match (_ ← ensure (negb (length d <? n + 2)%nat) tt; octets ← slice d 0 n;
      '(port, d) ← take_u16 (drop n d); Ok (C octets port, d)) with Ok (_, d') => (length d' < S (length d))%nat | Err _ => True | Panic => False end).
  { intros n C. destruct (Nat.ltb_spec (length d) (n + 2)); [done|]. cbn [negb ensure]. mred. rewrite slice_ok by lia. mred.
    destruct (take_u16 (drop n d)) as [[v d']|e|] eqn:Ht; mred; [|done|].
    - apply take_u16_len in Ht. rewrite length_drop in Ht. lia.
    - unfold take_u16 in Ht. destruct (idx16 (drop n d) 0) eqn:Hx; [done..|]. revert Hx. apply idx16_no_panic. rewrite length_drop. lia. }
  destruct (t =? 1); [apply (Hfix 4%nat DV4)|]. destruct (t =? 2); [apply (Hfix 16%nat DV6)|]. destruct (t =? 3); [|done].
  destruct d as [|n d]; [done|]. cbn [length Nat.eqb negb ensure]. mred. rewrite take_u8_cons. mred.
  destruct (Nat.ltb_spec (length d) (Z.to_nat n + 2)); [done|]. cbn [negb ensure]. mred. rewrite slice_ok by lia. mred.
  destruct (utf8_valid _); [|done]. cbn [ensure]. mred.
  destruct (take_u16 (drop (Z.to_nat n) d)) as [[v d']|e|] eqn:Ht; mred; [|done|].
  - apply take_u16_len in Ht. rewrite length_drop in Ht. lia.
  - unfold take_u16 in Ht. destruct (idx16 (drop (Z.to_nat n) d) 0) eqn:Hx; [done..|]. revert Hx. apply idx16_no_panic. rewrite length_drop. lia.
Qed.

(** In a release build the destination is missing from the parity of a compact group:
    the receiver takes the first bytes of the parity for it and finds the rest too short. *)
Lemma parity_payload_lost m sid base max_len lengths par d :
  codes m -> in_u16 base -> (2 <= length lengths <= 255)%nat -> Z.of_nat max_len < 2 ^ 16 ->
  Forall (fun l => (l <= max_len)%nat) lengths -> length par = max_len ->
  decode_xor_parity (mkDatagram sid base 0 1 (DV4 FEC_MARKER_V4 FEC_MARKER_PORT)
    (parity_payload false m base (length lengths) max_len lengths par (Some d))) = Err tt.
Proof.
  intros Hm Hb Hc Hmax Hl Hp. unfold parity_payload. rewrite bool_decide_eq_true_2 by eauto. cbn [andb]. rewrite (app_nil_l par).
  pose proof (parity_header_decodes m sid base max_len lengths par Hm Hb Hc Hmax Hl Hp true
    (forallb (fun len => len =? max_len)%nat lengths) par) as Hdec.
  rewrite Hdec; [|done|by apply all_fixed|lia].
  pose proof (decode_destination_len par) as Hlen. destruct (decode_destination par) as [[dst d']|[]|]; mred; [|done..].
  by rewrite (proj2 (Nat.ltb_lt _ _)) by lia.
Qed.

(** ** A group of datagrams *)

Record whole_datagram (sid base : Z) (k : nat) (d : UdpDatagram) : Prop := {
  wd_ok : datagram_ok d;
  wd_canonical : canonical_datagram d = d;
  wd_session : session_id d = sid;
  wd_packet : packet_id d = base + Z.of_nat k;
  wd_frag : frag_id d = 0 /\ frag_num d = 1;
  wd_plain : is_fec_marker (dest d) = false
}.

(** The datagrams of a group, in order, with their encodings. *)
Record fec_group (sid base : Z) (ds : list UdpDatagram) (raws : list bytes) : Prop := {
  fg_size : (2 <= length ds <= 255)%nat;
  fg_sid : in_u32 sid;
  fg_base : in_u16 base;
  fg_whole k d : ds !! k = Some d -> whole_datagram sid base k d;
  fg_raws : Forall2 (fun d raw => encode_udp_datagram d = Ok raw) ds raws;
  fg_short : Forall (fun raw => zlen raw < 2 ^ 16) raws;
  fg_data : Exists (fun d => data d <> []) ds
}.

Lemma whole_decodes sid base k d raw :
  whole_datagram sid base k d -> encode_udp_datagram d = Ok raw -> decode_udp_datagram raw = Ok d.
Proof.
  intros Hw He. destruct (udp_datagram_roundtrip d (wd_ok _ _ _ _ Hw)) as (w & Hw' & Hd). rewrite (wd_canonical _ _ _ _ Hw) in Hd. congruence.
Qed.

Lemma encoded_longer d raw : encode_udp_datagram d = Ok raw -> (length (data d) < length raw)%nat.
Proof.
  unfold encode_udp_datagram. destruct (write_varint _) as [n| |]; [|done..]. intros [= <-]. len_solve.
Qed.

(** The group is sent compactly exactly when all destinations are the same and short. *)
Definition common_dest (ds : list UdpDatagram) : option Destination :=
  match ds with
  | [] => None
  | d :: ds' => if forallb (fun x => bool_decide (dest d = dest x)) ds' then Some (dest d) else None
  end.

Definition whole_pair (d : UdpDatagram) (raw : bytes) : Prop :=
  decode_udp_datagram raw = Ok d /\ frag_id d = 0 /\ frag_num d = 1.

Lemma compact_slots_from_ok d0 ds raws :
  Forall2 whole_pair ds raws ->
  compact_slots_from (Some d0) (Some <$> raws) =
    if forallb (fun x => bool_decide (d0 = dest x)) ds then Some (Some d0, (fun d => Some (data d)) <$> ds) else None.
Proof.
  induction 1 as [|d raw ds raws (Hd & Hf0 & Hf1) _ IH]; [done|].
  cbn. rewrite Hd, Hf0, Hf1. cbn. destruct (decide (d0 = dest d)) as [Heq|Hne].
  - rewrite bool_decide_eq_true_2 by done. cbn. rewrite IH. by destruct (forallb _ ds).
  - by rewrite bool_decide_eq_false_2.
Qed.

Lemma compact_payload_slots_ok ds raws :
  Forall2 whole_pair ds raws ->
  compact_payload_slots (Some <$> raws) = d ← common_dest ds; Some (d, (fun d => Some (data d)) <$> ds).
Proof.
  intros Hp. destruct Hp as [|d raw ds raws (Hd & Hf0 & Hf1) Hp]; [done|].
  unfold compact_payload_slots. cbn. rewrite Hd, Hf0, Hf1. cbn. rewrite (compact_slots_from_ok (dest d) ds raws Hp).
  by destruct (forallb _ ds).
Qed.

Lemma common_dest_all ds d0 : common_dest ds = Some d0 -> Forall (fun d => dest d = d0) ds.
Proof.
  destruct ds as [|d ds]; [done|]. cbn. destruct (forallb _ ds) eqn:Hf; [|done]. intros [= <-].
  constructor; [done|]. rewrite forallb_forall in Hf. apply Forall_forall. intros x Hx. apply list_elem_of_In, Hf in Hx.
  by apply bool_decide_eq_true in Hx.
Qed.

Lemma foldl_max_ge l ls x : (x = l \/ x ∈ ls) -> (x <= foldl Nat.max l ls)%nat.
Proof.
  revert l x. induction ls as [|y ls IH]; intros l x Hx; cbn.
  - destruct Hx as [->|Hx]; [done|]. by apply elem_of_nil in Hx.
  - pose proof (IH (Nat.max l y) (Nat.max l y) (or_introl eq_refl)) as Hmax.
    destruct Hx as [->|Hx]; [lia|]. apply elem_of_cons in Hx as [->|Hx]; [lia|]. by apply IH; right.
Qed.

Lemma foldl_max_lt l ls b : (l < b)%nat -> Forall (fun x => (x < b)%nat) ls -> (foldl Nat.max l ls < b)%nat.
Proof. revert l. induction ls as [|y ls IH]; intros l Hl Hls; cbn; [done|]. apply Forall_cons in Hls as [? ?]. apply IH; [lia|done]. Qed.

Lemma max_slot_len_ok bs b :
  bs <> [] -> Forall (fun x => (length x < b)%nat) bs ->
  exists max, max_slot_len (Some <$> bs) = Some max /\ (max < b)%nat /\ Forall (fun x => (length x <= max)%nat) bs.
Proof.
  intros Hne Hb. destruct bs as [|x bs]; [done|]. clear Hne. exists (foldl Nat.max (length x) (length <$> bs)).
  assert (Hmap : omap (fmap length) (Some <$> bs) = length <$> bs) by (clear; induction bs; cbn; congruence).
  apply Forall_cons in Hb as [Hx Hb]. split; [unfold max_slot_len; cbn; by rewrite Hmap|]. split.
  - apply foldl_max_lt; [done|]. by apply Forall_fmap.
  - constructor; [by apply foldl_max_ge; left|]. apply Forall_forall. intros y Hy. apply foldl_max_ge. right.
    apply list_elem_of_fmap. by exists y.
Qed.

Lemma missing_indices_one l1 l2 : missing_indices ((Some <$> l1) ++ None :: (Some <$> l2)) = [length l1].
Proof.
  unfold missing_indices. rewrite imap_app, omap_app, length_fmap. cbn.
  assert (Hsome : forall (g : nat -> nat) (l : list bytes),
    omap (fun '(i, slot) => match slot with None => Some i | Some _ => None end) (imap (fun i x => (g i, x)) (Some <$> l)) = []).
  { intros g l. revert g. induction l as [|x l IH]; intros g; [done|]. cbn. apply (IH (g ∘ S)). }
  change (imap pair (Some <$> l1)) with (imap (fun i x => (id i, x)) (Some <$> l1)).
  match goal with |- context [imap ?f (Some <$> l2)] =>
    change (imap f (Some <$> l2)) with (imap (fun i x => ((length l1 + S i)%nat, x)) (Some <$> l2)) end.
  rewrite (Hsome id l1), (Hsome (fun i => length l1 + S i)%nat l2). cbn. by rewrite Nat.add_0_r.
Qed.

Section Group.
Context `{HRS : ReedSolomonLaws}.
Context (m : FecMode) (sid base : Z) (ds : list UdpDatagram) (raws : list bytes).
Context (Hm : codes m) (Hg : fec_group sid base ds raws).

Definition compact_dest : option Destination := d ← common_dest ds; _ ← destination_encoded_len d; Some d.

(** What the parity is computed from. *)
Definition sources : list bytes := match compact_dest with Some _ => data <$> ds | None => raws end.

Lemma group_pairs : Forall2 whole_pair ds raws.
Proof.
  apply Forall2_lookup. intros k. destruct (ds !! k) as [d|] eqn:Hd.
  - destruct (Forall2_lookup_l _ _ _ _ _ (fg_raws _ _ _ _ Hg) Hd) as (raw & Hr & He). rewrite Hr. constructor.
    pose proof (fg_whole _ _ _ _ Hg k d Hd) as Hw. split; [by eapply whole_decodes|by apply Hw].
  - rewrite (proj2 (lookup_ge_None _ _)); [constructor|].
    rewrite <- (Forall2_length _ _ _ (fg_raws _ _ _ _ Hg)). by apply lookup_ge_None.
Qed.

Lemma compact_dest_ok d0 : compact_dest = Some d0 -> dest_ok d0 /\ Forall (fun d => dest d = d0) ds.
Proof.
  unfold compact_dest. destruct (common_dest ds) as [d|] eqn:Hc; [|done]. cbn.
  destruct (destination_encoded_len d) as [n|] eqn:Hn; [|done]. intros [= <-]. pose proof (common_dest_all ds d Hc) as Hall.
  split; [|done]. destruct ds as [|x ds']; [done|]. apply Forall_cons in Hall as [<- _].
  pose proof (fg_whole _ _ _ _ Hg 0%nat x eq_refl) as Hw. split; [by apply (wd_ok _ _ _ _ Hw)|].
  destruct (dest x) as [| |name]; try done. cbn in Hn. case_match; [|done]. bool_hyps. unfold zlen in *. lia.
Qed.

Lemma length_sources : length sources = length ds.
Proof.
  unfold sources. destruct compact_dest; [by rewrite length_fmap|]. symmetry. apply (Forall2_length _ _ _ (fg_raws _ _ _ _ Hg)).
Qed.

Lemma sources_short : Forall (fun b => (length b < Z.to_nat (2 ^ 16))%nat) sources.
Proof.
  assert (Hr : Forall (fun b => (length b < Z.to_nat (2 ^ 16))%nat) raws).
  { eapply Forall_impl; [apply (fg_short _ _ _ _ Hg)|]. intros b. unfold zlen. lia. }
  unfold sources. destruct compact_dest as [cd|]; [|done]. apply Forall_fmap, Forall_lookup. intros k d Hd.
  destruct (Forall2_lookup_l _ _ _ _ _ (fg_raws _ _ _ _ Hg) Hd) as (raw & Hraw & He). apply encoded_longer in He.
  pose proof (Forall_lookup_1 _ _ _ _ Hr Hraw). cbn in *. lia.
Qed.

Lemma sources_some : Exists (fun b => b <> []) sources.
Proof.
  pose proof (fg_data _ _ _ _ Hg) as Hd. apply Exists_exists in Hd as (d & Hin & Hne). apply list_elem_of_lookup in Hin as [k Hk].
  destruct (Forall2_lookup_l _ _ _ _ _ (fg_raws _ _ _ _ Hg) Hk) as (raw & Hraw & He). apply encoded_longer in He.
  apply Exists_exists. unfold sources. destruct compact_dest as [cd|].
  - exists (data d). split; [|done]. apply list_elem_of_fmap. exists d. split; [done|]. by eapply list_elem_of_lookup_2.
  - exists raw. split; [by eapply list_elem_of_lookup_2|]. intros ->. cbn in He. lia.
Qed.

(** Where the parity is built from, and that it exists. *)
Lemma build_parity_ok debug :
  exists max par praw, let lens := length <$> sources in
    build_parity debug m sid base (Some <$> raws) = Ok praw /\
    decode_udp_datagram praw = Ok (mkDatagram sid base 0 1 (DV4 FEC_MARKER_V4 FEC_MARKER_PORT)
      (parity_payload debug m base (length lens) max lens par compact_dest)) /\
    Z.of_nat max < 2 ^ 16 /\ Forall (fun l => (l <= max)%nat) lens /\ length par = max /\
    forall p raws1 raws2 bs1 b bs2 g,
      sources = bs1 ++ b :: bs2 -> fp_parity p = par -> fp_max_len p = max -> dg_slots g = (Some <$> raws1) ++ None :: (Some <$> raws2) ->
      Forall2 (fun s b => parity_source_bytes s p = Ok b) raws1 bs1 ->
      Forall2 (fun s b => parity_source_bytes s p = Ok b) raws2 bs2 ->
      match m with
      | Xor1OfN | RaptorLike => recover_xor g p
      | ReedSolomon => recover_reed_solomon g p (length bs1)
      | Auto | Off => Err tt
      end = Ok (pad max b).
Proof.
  pose proof (fg_size _ _ _ _ Hg) as Hsize. pose proof length_sources as Hls.
  destruct (max_slot_len_ok sources (Z.to_nat (2 ^ 16))) as (max & Hmax & Hlt & Hle); [intros Hnil; rewrite Hnil in Hls; cbn in Hls; lia|apply sources_short|].
  assert (Hpos : (0 < max)%nat).
  { pose proof sources_some as Hs. apply Exists_exists in Hs as (b & Hin & Hne). rewrite Forall_forall in Hle. specialize (Hle b Hin).
    destruct b; [done|]. cbn in Hle. lia. }
  destruct (parity_rebuilds m sources max) as (par & Hpar & Hlp & Hreb); [done|lia|done|done|].
  set (payload := parity_payload debug m base (length ds) max (length <$> sources) par compact_dest).
  destruct (udp_datagram_roundtrip (mkDatagram sid base 0 1 (DV4 FEC_MARKER_V4 FEC_MARKER_PORT) payload)) as (praw & Henc & Hdec).
  { split; [apply Hg|]. split; [apply Hg|]. split; [done|]. split; [done|]. split; [|done]. split; [done|]. split; [|done].
    by repeat constructor. }
  exists max, par, praw. split_and!; [|by rewrite length_fmap, length_sources|lia|by apply Forall_fmap|done|done].
  unfold build_parity. rewrite (compact_payload_slots_ok ds raws group_pairs).
  assert (Heff : effective m 100 = m) by (destruct Hm as [->|[->| ->]]; done). rewrite Heff.
  assert (Hsrc : match ('(d, ss) ← d ← common_dest ds; Some (d, (fun d => Some (data d)) <$> ds); _ ← destination_encoded_len d; Some (d, ss)) with
                 | Some (_, ss) => ss | None => Some <$> raws end = Some <$> sources).
  { unfold sources, compact_dest. destruct (common_dest ds) as [d|]; [|done]. cbn. destruct (destination_encoded_len d); [|done]. cbn.
    by rewrite <- list_fmap_compose. }
  assert (Hcd : fst <$> ('(d, ss) ← d ← common_dest ds; Some (d, (fun d => Some (data d)) <$> ds); _ ← destination_encoded_len d; Some (d, ss)) = compact_dest).
  { unfold compact_dest. destruct (common_dest ds) as [d|]; [|done]. cbn. by destruct (destination_encoded_len d). }
  cbv zeta. rewrite Hsrc, Hcd, Hmax. cbn [of_option]. mred. unfold parity_of in Hpar. rewrite Hpar. mred.
  rewrite length_fmap, <- (Forall2_length _ _ _ (fg_raws _ _ _ _ Hg)). fold payload. by rewrite Henc.
Qed.

Lemma source_bytes p s b :
  fp_dest p = compact_dest -> (exists k d, ds !! k = Some d /\ raws !! k = Some s /\ sources !! k = Some b) ->
  parity_source_bytes s p = Ok b.
Proof.
  intros Hp (k & d & Hd & Hs & Hb). unfold parity_source_bytes, sources in *. rewrite Hp. destruct compact_dest as [d0|].
  - pose proof group_pairs as Hpairs. rewrite Forall2_lookup in Hpairs. specialize (Hpairs k). rewrite Hd, Hs in Hpairs.
    inv Hpairs as [? ? (Hdec & _)|]. rewrite Hdec. rewrite list_lookup_fmap, Hd in Hb. by injection Hb as <-.
  - congruence.
Qed.

(** Any one datagram of the group is rebuilt from the others and the parity. *)
Lemma group_recovers debug :
  debug = true \/ compact_dest = None ->
  exists praw dgp p, build_parity debug m sid base (Some <$> raws) = Ok praw /\ decode_udp_datagram praw = Ok dgp /\
    decode_xor_parity dgp = Ok p /\ fp_session_id p = sid /\ fp_base_packet_id p = base /\
    fp_group_size p = Z.of_nat (length ds) /\
    forall i raw g, raws !! i = Some raw -> dg_slots g = <[i := None]> (Some <$> raws) -> dg_parity g = Some p ->
      recover_one_missing g = Ok raw.
Proof.
  intros Hdebug. destruct (build_parity_ok debug) as (max & par & praw & Hbuild & Hdec & Hmax & Hlens & Hlp & Hreb).
  set (lens := length <$> sources) in *. pose proof (fg_size _ _ _ _ Hg) as Hsize.
  assert (Hll : length lens = length ds) by (unfold lens; rewrite length_fmap; apply length_sources).
  eexists praw, _, _. split; [done|]. split; [exact Hdec|]. split.
  { apply parity_payload_decodes; [done|apply Hg|lia|done|done|done|].
    destruct compact_dest as [d|] eqn:Hcd; [|done]. destruct (compact_dest_ok d Hcd) as [Hd _]. split; [done|]. by destruct Hdebug. }
  set (p := mkParity _ _ _ _ _ _ _ _). split_and!; [done|done|by cbn; rewrite Hll|].
  intros i raw g Hraw Hslots Hpar. assert (Hi : (i < length raws)%nat) by (by eapply lookup_lt_Some).
  assert (Hlr : length ds = length raws) by (apply (Forall2_length _ _ _ (fg_raws _ _ _ _ Hg))).
  destruct (lookup_lt_is_Some_2 ds i) as [d Hd]; [lia|]. destruct (lookup_lt_is_Some_2 sources i) as [b Hb]; [rewrite length_sources; lia|].
  assert (Hs : dg_slots g = (Some <$> take i raws) ++ None :: (Some <$> drop (S i) raws)).
  { rewrite Hslots, insert_take_drop by (by rewrite length_fmap). by rewrite <- fmap_take, <- fmap_drop. }
  assert (Hsrc : forall k s b, raws !! k = Some s -> sources !! k = Some b -> parity_source_bytes s p = Ok b).
  { intros k s b' Hk Hb'. apply source_bytes; [done|]. destruct (lookup_lt_is_Some_2 ds k) as [d' Hd']; [rewrite Hlr; by eapply lookup_lt_Some|].
    by exists k, d'. }
  assert (H1 : Forall2 (fun s b => parity_source_bytes s p = Ok b) (take i raws) (take i sources)).
  { apply Forall2_same_length_lookup. split; [rewrite !length_take, length_sources; lia|]. intros k s b' Hk Hb'.
    apply lookup_take_Some in Hk as [Hk _]. apply lookup_take_Some in Hb' as [Hb' _]. by eapply Hsrc. }
  assert (H2 : Forall2 (fun s b => parity_source_bytes s p = Ok b) (drop (S i) raws) (drop (S i) sources)).
  { apply Forall2_same_length_lookup. split; [rewrite !length_drop, length_sources; lia|]. intros k s b' Hk Hb'.
    rewrite lookup_drop in Hk, Hb'. by eapply Hsrc. }
  pose proof (Hreb p (take i raws) (drop (S i) raws) (take i sources) b (drop (S i) sources) g) as Hrec.
  assert (Hmid : sources = take i sources ++ b :: drop (S i) sources) by (symmetry; by apply take_drop_middle).
  assert (Hli : length (take i sources) = i) by (rewrite length_take, length_sources; lia). rewrite Hli in Hrec.
  specialize (Hrec Hmid eq_refl eq_refl Hs H1 H2).
  unfold recover_one_missing. rewrite Hpar. cbn [of_option]. mred. rewrite Hs, missing_indices_one, length_take, Nat.min_l by lia.
  rewrite <- Hs. rewrite (proj2 (Z.eqb_eq _ _)) by (rewrite Hslots, length_insert, length_fmap; cbn; lia). cbn [negb fp_mode p].
  rewrite Hrec. mred. cbn [fp_lengths p]. unfold lens. rewrite list_lookup_fmap, Hb. cbn [fmap option_fmap option_map of_option]. mred.
  rewrite take_pad. cbn [fp_dest p]. unfold sources in Hb. destruct compact_dest as [d0|] eqn:Hcd; [|congruence].
  destruct (compact_dest_ok d0 Hcd) as [_ Hall]. pose proof (fg_whole _ _ _ _ Hg i d Hd) as Hw.
  rewrite list_lookup_fmap, Hd in Hb. injection Hb as <-. cbn [fp_session_id fp_base_packet_id p].
  assert (Hid : as_u16 (base + as_u16 (Z.of_nat i)) = packet_id d).
  { rewrite (wd_packet _ _ _ _ Hw). unfold as_u16. rewrite (Z.mod_small (Z.of_nat i)) by lia. apply Z.mod_small.
    rewrite <- (wd_packet _ _ _ _ Hw). apply (wd_ok _ _ _ _ Hw). }
  assert (Hd' : mkDatagram sid (as_u16 (base + as_u16 (Z.of_nat i))) 0 1 d0 (data d) = d).
  { rewrite Hid, <- (Forall_lookup_1 _ _ _ _ Hall Hd), <- (wd_session _ _ _ _ Hw). destruct (wd_frag _ _ _ _ Hw) as [<- <-]. by destruct d. }
  rewrite Hd'. destruct (Forall2_lookup_l _ _ _ _ _ (fg_raws _ _ _ _ Hg) Hd) as (raw' & Hraw' & ->). congruence.
Qed.

(** In a release build the parity of a compact group is not recognised. *)
Lemma group_lost :
  is_Some compact_dest ->
  exists praw dgp, build_parity false m sid base (Some <$> raws) = Ok praw /\ decode_udp_datagram praw = Ok dgp /\
    decode_xor_parity dgp = Err tt /\ session_id dgp = sid /\ packet_id dgp = base /\ dest dgp = DV4 FEC_MARKER_V4 FEC_MARKER_PORT.
Proof.
  intros [d Hcd]. destruct (build_parity_ok false) as (max & par & praw & Hbuild & Hdec & Hmax & Hlens & Hlp & _).
  eexists praw, _. split; [done|]. split; [exact Hdec|]. split; [|done]. rewrite Hcd. pose proof (fg_size _ _ _ _ Hg).
  apply parity_payload_lost; [done|apply Hg| |done|done|done]. rewrite length_fmap, length_sources. lia.
Qed.
End Group.

Lemma missing_indices_elem slots i : i ∈ missing_indices slots <-> slots !! i = Some None.
Proof.
  unfold missing_indices. rewrite list_elem_of_omap. split.
  - intros ([j x] & Hin & Hx). apply elem_of_lookup_imap in Hin as (k & y & Heq & Hk). destruct x; [done|]. by simplify_eq.
  - intros Hi. exists (i, None). split; [|done]. apply elem_of_lookup_imap. by exists i, None.
Qed.

(** With two datagrams missing nothing is tried. *)
Lemma two_missing `{ReedSolomonCrate} g i j :
  dg_slots g !! i = Some None -> dg_slots g !! j = Some None -> i <> j -> recover_one_missing g = Err tt.
Proof.
  intros Hi Hj Hne. apply missing_indices_elem in Hi, Hj. unfold recover_one_missing. destruct (dg_parity g); [|done]. cbn [of_option]. mred.
  destruct (missing_indices (dg_slots g)) as [|x [|y l]]; [done| |done].
  apply list_elem_of_singleton in Hi, Hj. congruence.
Qed.

(** ** The encoder over a group *)

(** What both ends compute for the datagrams of a group of [n]. *)
Record fec_agreed (p : FecPolicy) (base : Z) (ds : list UdpDatagram) (raws : list bytes) : Prop := {
  fa_enabled : enabled p = true;
  fa_aligned : base mod Z.of_nat (length ds) = 0;
  fa_size : Forall2 (fun d raw => effective_group_size_for p (zlen (data d)) (zlen raw) (dest d) = Z.of_nat (length ds)) ds raws;
  fa_dns : Forall (fun d => disable_for_sequential_dns p = false \/ is_dns_like (dest d) = false) ds
}.

Lemma enabled_codes p : enabled p = true -> codes (effective (mode p) (max_overhead_percent p)).
Proof. unfold enabled, codes. destruct (mode p); cbn; try done; auto. Qed.

Lemma group_position base n k : 0 <= base -> base mod n = 0 -> 0 <= k < n -> base + k - (base + k) mod n = base.
Proof.
  intros Hb Hm Hk. rewrite <- Zplus_mod_idemp_l, Hm, Z.add_0_l, Z.mod_small by lia. lia.
Qed.

Section EncoderRun.
Context `{HRS : ReedSolomonLaws} (debug : bool) (p : FecPolicy).
Context (sid base : Z) (ds : list UdpDatagram) (raws : list bytes).
Context (Hg : fec_group sid base ds raws) (Ha : fec_agreed p base ds raws).

(** The calls of [protect] for a sequence of datagrams, with their results. *)
Fixpoint protect_all (e : FecEncoder) (l : list (UdpDatagram * bytes * Z)) : res unit (FecEncoder * list (option bytes)) :=
  match l with
  | [] => Ok (e, [])
  | (d, raw, now) :: l =>
      '(e, o) ← protect debug p now d raw e;
      '(e, os) ← protect_all e l;
      Ok (e, o :: os)
  end.

Definition encoding (t0 : Z) (e : FecEncoder) (done : list bytes) (todo : nat) : Prop :=
  default (mkEncodeGroup t0 (replicate (length ds) None)) (e_groups e !! (sid, base)) =
    mkEncodeGroup t0 ((Some <$> done) ++ replicate todo None).

Lemma count_some_partial (done : list bytes) todo : count_some ((Some <$> done) ++ replicate todo None) = zlen done.
Proof.
  unfold count_some. rewrite omap_app, omap_id_some. assert (Hnil : omap id (replicate todo (None (A:=bytes))) = []) by (by induction todo).
  by rewrite Hnil, app_nil_r.
Qed.

Lemma all_some_partial (done : list bytes) todo :
  forallb (fun s => bool_decide (is_Some s)) ((Some <$> done) ++ replicate todo None) = (todo =? 0)%nat.
Proof.
  rewrite forallb_app. replace (forallb _ (Some <$> done)) with true by (by induction done). by destruct todo.
Qed.

Lemma protect_one t0 now e (done : list bytes) todo d raw :
  ds !! length done = Some d -> raws !! length done = Some raw -> (length done + S todo = length ds)%nat ->
  take (length done) raws = done -> (e_groups e !! (sid, base) = None -> now = t0) ->
  encoding t0 e done (S todo) -> now - t0 <= Z.max (max_generation_delay p) MILLIS ->
  (todo = 0%nat -> exists praw, build_parity debug (effective (mode p) (max_overhead_percent p)) sid base (Some <$> raws) = Ok praw /\
     exists e', protect debug p now d raw e = Ok (e', Some praw)) /\
  (todo <> 0%nat -> exists e', protect debug p now d raw e = Ok (e', None) /\ e_groups e' !! (sid, base) <> None /\
     encoding t0 e' (done ++ [raw]) todo).
Proof.
  intros Hd Hraw Hlen Hdone Hfirst Henc Htime. pose proof (fg_whole _ _ _ _ Hg _ d Hd) as Hw. pose proof (fg_size _ _ _ _ Hg) as Hsize.
  pose proof (fa_size _ _ _ _ Ha) as Hgs. rewrite Forall2_lookup in Hgs. specialize (Hgs (length done)). rewrite Hd, Hraw in Hgs.
  inv Hgs as [? ? Hgs'|]. rename Hgs' into Hgs.
  unfold protect. set (e1 := encoder_expire_stale p now e).
  assert (Henc1 : default (mkEncodeGroup now (replicate (length ds) None)) (e_groups e1 !! (sid, base)) =
    mkEncodeGroup t0 ((Some <$> done) ++ replicate (S todo) None)).
  { unfold encoding in Henc. unfold e1, encoder_expire_stale. cbn [e_groups]. destruct (e_groups e !! (sid, base)) as [g|] eqn:Hk.
    - rewrite (map_lookup_filter_Some_2 _ _ _ _ Hk); [exact Henc|]. cbn in *. subst g. cbn. done.
    - rewrite map_lookup_filter_None_2 by (by left). cbn in *. by rewrite Hfirst. }
  rewrite (fa_enabled _ _ _ _ Ha). destruct (wd_frag _ _ _ _ Hw) as [_ Hfn]. rewrite Hfn. cbn [negb orb Z.eqb Pos.eqb].
  assert (Hskip : should_skip_sequential_dns p d e1 = (e1, false)).
  { unfold should_skip_sequential_dns. destruct (Forall_lookup_1 _ _ _ _ (fa_dns _ _ _ _ Ha) Hd) as [->| ->]; cbn; [done|].
    by rewrite orb_true_r. }
  rewrite Hskip, Hgs, (wd_packet _ _ _ _ Hw), (wd_session _ _ _ _ Hw).
  rewrite (group_position base (Z.of_nat (length ds)) (Z.of_nat (length done))) by (apply Ha || lia || (pose proof (fg_base _ _ _ _ Hg); unfold in_u16 in *; lia)).
  replace (Z.to_nat (base + Z.of_nat (length done) - base)) with (length done) by lia.
  rewrite Nat2Z.id, Henc1. cbn [eg_slots eg_created].
  rewrite (proj2 (Nat.leb_gt _ _)) by (rewrite length_app, length_fmap, length_replicate; lia).
  assert (Hins : <[length done := Some raw]> ((Some <$> done) ++ replicate (S todo) None) = (Some <$> (done ++ [raw])) ++ replicate todo None).
  { rewrite insert_app_r_alt by (rewrite length_fmap; lia). rewrite length_fmap, Nat.sub_diag. cbn [replicate]. cbn. by rewrite fmap_app, <- app_assoc. }
  rewrite Hins, count_some_partial, all_some_partial.
  assert (Hzl : zlen (done ++ [raw]) = Z.of_nat (length done) + 1) by (unfold zlen; rewrite length_app; cbn; lia).
  split.
  - intros ->. cbn [Nat.eqb]. assert (Hall : done ++ [raw] = raws).
    { rewrite <- Hdone at 1. rewrite <- take_S_r by done. apply take_ge. rewrite <- (Forall2_length _ _ _ (fg_raws _ _ _ _ Hg)). lia. }
    rewrite (proj2 (Z.ltb_ge _ _)) by (rewrite Hzl; lia). rewrite Hall. cbn [replicate]. rewrite app_nil_r.
    destruct (build_parity_ok _ sid base ds raws (enabled_codes p (fa_enabled _ _ _ _ Ha)) Hg debug) as (max & par & praw & Hb & _).
    exists praw. split; [done|]. rewrite Hb. by eexists.
  - intros Hne. destruct todo as [|todo]; [done|]. cbn [Nat.eqb].
    eexists. split; [by destruct (_ <? _)|]. unfold encoding, set_group. cbn [e_groups]. rewrite lookup_insert_eq. split; [done|]. done.
Qed.

Lemma protect_run t0 todo ts (done : list bytes) e :
  (length done + S todo = length ds)%nat -> length ts = S todo -> take (length done) raws = done ->
  encoding t0 e done (S todo) -> (e_groups e !! (sid, base) = None -> head ts = Some t0) ->
  Forall (fun now => now - t0 <= Z.max (max_generation_delay p) MILLIS) ts ->
  exists praw e', build_parity debug (effective (mode p) (max_overhead_percent p)) sid base (Some <$> raws) = Ok praw /\
    protect_all e (zip (zip (drop (length done) ds) (drop (length done) raws)) ts) = Ok (e', replicate todo None ++ [Some praw]).
Proof.
  revert ts done e. induction todo as [|todo IH]; intros ts done e Hlen Hts Hdone Henc Hfirst Htimes.
  all: destruct ts as [|now ts]; [done|]; apply Forall_cons in Htimes as [Htime Htimes].
  all: assert (Hlr : length ds = length raws) by (apply (Forall2_length _ _ _ (fg_raws _ _ _ _ Hg))).
  all: destruct (lookup_lt_is_Some_2 ds (length done)) as [d Hd]; [lia|].
  all: destruct (lookup_lt_is_Some_2 raws (length done)) as [raw Hraw]; [lia|].
  all: rewrite (drop_S _ _ _ Hd), (drop_S _ _ _ Hraw).
  - destruct (protect_one t0 now e done 0 d raw) as [Hlast _]; try done; [by intros Hn; specialize (Hfirst Hn); injection Hfirst|].
    destruct (Hlast eq_refl) as (praw & Hb & e' & Hp). exists praw, e'. split; [done|]. cbn. rewrite Hp. mred.
    rewrite (drop_ge ds) by lia. done.
  - destruct (protect_one t0 now e done (S todo) d raw) as [_ Hmore]; try done; [by intros Hn; specialize (Hfirst Hn); injection Hfirst|].
    destruct Hmore as (e' & Hp & Hsome & Henc'); [done|].
    destruct (IH ts (done ++ [raw]) e') as (praw & e'' & Hb & Hall); try done.
    + rewrite length_app. cbn. lia.
    + by injection Hts.
    + rewrite length_app, Nat.add_1_r. rewrite (take_S_r _ _ _ Hraw). by rewrite Hdone.
    + exists praw, e''. split; [done|]. cbn. rewrite Hp. mred. rewrite length_app, Nat.add_1_r in Hall. rewrite Hall. done.
Qed.
End EncoderRun.

(** ** The decoder over a group *)

Lemma shrink_seen_subseteq limit s order : (shrink_seen limit s order).1 ⊆ s.
Proof.
  revert s. induction order as [|old order IH]; intros s; cbn; [done|]. case_match; [|done].
  etransitivity; [apply IH|]. set_solver.
Qed.

Lemma mark_seen_fresh p key d :
  key ∉ seen d -> exists d', mark_seen p key d = (d', true) /\ d_groups d' = d_groups d /\ seen d' ⊆ {[key]} ∪ seen d.
Proof.
  intros Hk. unfold mark_seen. rewrite decide_False by done.
  pose proof (shrink_seen_subseteq (Z.to_nat (Z.max 1 (Z.min (dedup_window_packets p) FEC_SEEN_LIMIT))) ({[key]} ∪ seen d) (seen_order d ++ [key])) as Hs.
  destruct (shrink_seen _ _ _) as [s order]. eexists. split; [done|]. done.
Qed.

Section DecoderRun.
Context `{HRS : ReedSolomonLaws} (p : FecPolicy).
Context (sid base : Z) (ds : list UdpDatagram) (raws : list bytes).
Context (Hg : fec_group sid base ds raws) (Ha : fec_agreed p base ds raws).
Context (praw : bytes) (dgp : UdpDatagram) (par : FecParity).
Context (Hdgp : decode_udp_datagram praw = Ok dgp) (Hpar : decode_xor_parity dgp = Ok par).
Context (Hparid : fp_session_id par = sid /\ fp_base_packet_id par = base /\ fp_group_size par = Z.of_nat (length ds)).
Context (Hrec : forall i raw g, raws !! i = Some raw -> dg_slots g = <[i := None]> (Some <$> raws) -> dg_parity g = Some par ->
  recover_one_missing g = Ok raw).
Context (t0 : Z).

Definition in_time (now : Z) : Prop := 0 <= now - t0 /\ now - t0 <= recovery_deadline p /\ now - t0 <= FEC_RECOVERY_DEADLINE.

(** The slots when the datagrams [got] have arrived. *)
Definition slots_of (got : list nat) : list (option bytes) :=
  imap (fun k raw => if decide (k ∈ got) then Some raw else None) raws.

Definition par_of (has : bool) : option FecParity := if has then Some par else None.

Record decoding (d : FecDecoder) (got : list nat) (has : bool) : Prop := {
  de_group : d_groups d !! (sid, base) = Some (mkDecodeGroup t0 (slots_of got) (par_of has)) \/
             (d_groups d !! (sid, base) = None /\ got = [] /\ has = false);
  de_fresh k : (k < length ds)%nat -> k ∉ got -> (sid, base + Z.of_nat k) ∉ seen d
}.

Lemma len_raws : length raws = length ds.
Proof. symmetry. apply (Forall2_length _ _ _ (fg_raws _ _ _ _ Hg)). Qed.

Lemma slots_none : slots_of [] = replicate (length ds) None.
Proof.
  apply list_eq. intros k. unfold slots_of. rewrite list_lookup_imap. destruct (decide (k < length ds)%nat) as [Hk|Hk].
  - destruct (lookup_lt_is_Some_2 raws k) as [raw ->]; [rewrite len_raws; lia|]. cbn. rewrite decide_False by apply not_elem_of_nil.
    by rewrite lookup_replicate_2.
  - rewrite !(proj2 (lookup_ge_None _ _)); [done|rewrite length_replicate; lia|rewrite len_raws; lia].
Qed.

Lemma slots_insert got k raw : raws !! k = Some raw -> <[k := Some raw]> (slots_of got) = slots_of (k :: got).
Proof.
  intros Hk. apply list_eq. intros j. unfold slots_of. destruct (decide (j = k)) as [->|Hne].
  - rewrite list_lookup_insert_eq by (rewrite length_imap; by eapply lookup_lt_Some). rewrite list_lookup_imap, Hk. cbn.
    by rewrite decide_True by (apply list_elem_of_here).
  - rewrite list_lookup_insert_ne by done. rewrite !list_lookup_imap. destruct (raws !! j) as [r|]; [|done]. cbn. f_equal.
    apply decide_ext. rewrite elem_of_cons. naive_solver.
Qed.

Lemma slots_missing got k : (k < length ds)%nat -> k ∉ got -> slots_of got !! k = Some None.
Proof.
  intros Hk Hn. unfold slots_of. rewrite list_lookup_imap. destruct (lookup_lt_is_Some_2 raws k) as [raw ->]; [rewrite len_raws; lia|].
  cbn. by rewrite decide_False.
Qed.

Lemma slots_but_one got i :
  i ∉ got -> (i < length ds)%nat -> (forall k, (k < length ds)%nat -> k <> i -> k ∈ got) -> slots_of got = <[i := None]> (Some <$> raws).
Proof.
  intros Hi Hlt Hall. apply list_eq. intros k. destruct (decide (k = i)) as [->|Hne].
  - rewrite list_lookup_insert_eq by (rewrite length_fmap, len_raws; lia). by apply slots_missing.
  - rewrite list_lookup_insert_ne by done. unfold slots_of. rewrite list_lookup_imap, list_lookup_fmap.
    destruct (raws !! k) as [r|] eqn:Hk; [|done]. cbn. rewrite decide_True; [done|]. apply Hall; [|done].
    rewrite <- len_raws. by eapply lookup_lt_Some.
Qed.

Lemma decoding_expire now d got has :
  in_time now -> decoding d got has -> decoding (decoder_expire_stale now d) got has.
Proof.
  intros (H1 & H2 & H3) [Hd Hf]. split; [|done]. unfold decoder_expire_stale. cbn [d_groups]. destruct Hd as [Hd|(Hd & ? & ?)].
  - left. apply map_lookup_filter_Some_2; [done|]. cbn. unfold FEC_RECOVERY_DEADLINE, FEC_GROUP_TTL, MILLIS in *. lia.
  - right. split; [|done]. apply map_lookup_filter_None_2. by left.
Qed.

Lemma decoding_group now d got has :
  decoding d got has -> (d_groups d !! (sid, base) = None -> now = t0) ->
  default (mkDecodeGroup now (replicate (length ds) None) None) (d_groups d !! (sid, base)) = mkDecodeGroup t0 (slots_of got) (par_of has).
Proof.
  intros [Hd _] Hnow. destruct Hd as [->|(Hk & -> & ->)]; [done|]. rewrite Hk. cbn. by rewrite Hnow, slots_none.
Qed.

Lemma expired_none now d got has :
  in_time now -> decoding d got has -> d_groups (decoder_expire_stale now d) !! (sid, base) = None -> d_groups d !! (sid, base) = None.
Proof.
  intros Ht Hd Hn. destruct (de_group _ _ _ (decoding_expire now d got has Ht Hd)) as [Hs|(_ & Hgot & Hhas)]; [congruence|].
  destruct (de_group _ _ _ Hd) as [Hs|(? & _)]; [|done]. exfalso. unfold decoder_expire_stale in Hn. cbn [d_groups] in Hn.
  apply map_lookup_filter_None in Hn as [Hn|Hn]; [congruence|]. apply (Hn _ Hs). cbn. destruct Ht as (? & ? & ?).
  unfold FEC_RECOVERY_DEADLINE, FEC_GROUP_TTL, MILLIS in *. lia.
Qed.

(** An original datagram goes out, is entered, and may complete the group. *)
Lemma decode_original now d got has k dk raw :
  decoding d got has -> in_time now -> (d_groups d !! (sid, base) = None -> now = t0) ->
  ds !! k = Some dk -> raws !! k = Some raw -> k ∉ got ->
  exists d', decoding d' (k :: got) has /\ d_groups d' !! (sid, base) <> None /\
    decode p now raw d =
      '(d'', more) ← deliver_recovered p (if has then recover_one_missing (mkDecodeGroup t0 (slots_of (k :: got)) (par_of has)) else Err tt) d';
      Ok (d'', dk :: more).
Proof.
  intros Hd Ht Hnow Hk Hraw Hn. pose proof (fg_whole _ _ _ _ Hg k dk Hk) as Hw. assert (Hlt : (k < length ds)%nat) by (by eapply lookup_lt_Some).
  destruct (Forall2_lookup_l _ _ _ _ _ (fg_raws _ _ _ _ Hg) Hk) as (raw' & Hraw' & Henc). assert (raw' = raw) as -> by congruence.
  pose proof (decoding_expire now d got has Ht Hd) as He. set (d1 := decoder_expire_stale now d) in *.
  destruct (mark_seen_fresh p (sid, base + Z.of_nat k) d1) as (d2 & Hmark & Hgr & Hseen); [by apply (de_fresh _ _ _ He)|].
  unfold decode. fold d1. rewrite (whole_decodes _ _ _ _ _ Hw Henc). unfold decode_xor_parity at 1. rewrite (wd_plain _ _ _ _ Hw). cbn [ensure]. mred.
  rewrite (wd_session _ _ _ _ Hw), (wd_packet _ _ _ _ Hw), Hmark. unfold accept_original.
  rewrite (fa_enabled _ _ _ _ Ha). destruct (wd_frag _ _ _ _ Hw) as [_ ->]. cbn [negb orb Z.eqb Pos.eqb].
  pose proof (fa_size _ _ _ _ Ha) as Hgs. rewrite Forall2_lookup in Hgs. specialize (Hgs k). rewrite Hk, Hraw in Hgs. inv Hgs as [? ? Hgs'|].
  rewrite Hgs', (wd_session _ _ _ _ Hw), (wd_packet _ _ _ _ Hw).
  rewrite (group_position base (Z.of_nat (length ds)) (Z.of_nat k)) by (apply Ha || lia || (pose proof (fg_base _ _ _ _ Hg); unfold in_u16 in *; lia)).
  replace (Z.to_nat (base + Z.of_nat k - base)) with k by lia. rewrite Nat2Z.id, Hgr.
  rewrite (decoding_group now d1 got has He) by (intros Hnone; apply Hnow; by eapply expired_none).
  cbn [dg_created dg_slots dg_parity]. rewrite (slots_insert got k raw Hraw). destruct Ht as (Ht0 & Ht1 & Ht2).
  rewrite (proj2 (Z.leb_le _ _)) by lia. rewrite andb_true_r.
  exists (put_group (sid, base) (mkDecodeGroup t0 (slots_of (k :: got)) (par_of has)) d2). split_and!.
  - split; cbn [put_group d_groups seen].
    + left. by rewrite lookup_insert_eq.
    + intros j Hj Hnj Hin. apply Hseen in Hin. apply elem_of_union in Hin as [Hin|Hin].
      * apply elem_of_singleton in Hin. apply Hnj. injection Hin as Hin. assert (j = k) as -> by lia. apply list_elem_of_here.
      * revert Hin. apply (de_fresh _ _ _ He); [done|]. intros ?. by apply Hnj, list_elem_of_further.
  - cbn [put_group d_groups]. by rewrite lookup_insert_eq.
  - by destruct has; cbn [par_of]; [rewrite bool_decide_eq_true_2 by eauto|rewrite bool_decide_eq_false_2 by (by intros [??])].
Qed.

Lemma decode_parity now d got :
  decoding d got false -> in_time now -> (d_groups d !! (sid, base) = None -> now = t0) ->
  exists d', decoding d' got true /\ d_groups d' !! (sid, base) <> None /\
    decode p now praw d = deliver_recovered p (recover_one_missing (mkDecodeGroup t0 (slots_of got) (Some par))) d'.
Proof.
  intros Hd Ht Hnow. pose proof (decoding_expire now d got false Ht Hd) as He. destruct Hparid as (Hsid & Hbase & Hsize).
  exists (put_group (sid, base) (mkDecodeGroup t0 (slots_of got) (Some par)) (decoder_expire_stale now d)). split_and!.
  - split; [left; cbn [put_group d_groups]; by rewrite lookup_insert_eq|apply (de_fresh _ _ _ He)].
  - cbn [put_group d_groups]. by rewrite lookup_insert_eq.
  - unfold decode. rewrite Hdgp, Hpar, (fa_enabled _ _ _ _ Ha). cbn [negb]. unfold accept_parity.
    rewrite Hsid, Hbase, Hsize, Nat2Z.id.
    rewrite (decoding_group now _ got false He) by (intros Hnone; apply Hnow; by eapply expired_none).
    cbn [dg_created dg_slots]. destruct Ht as (Ht0 & Ht1 & Ht2). by rewrite !(proj2 (Z.ltb_ge _ _)) by lia.
Qed.

(** Whole runs: datagrams of the group and its parity in any order. *)
Inductive arrival : Type := Original (k : nat) | Parity.

Definition arrives (a : arrival) : bytes := match a with Original k => default [] (raws !! k) | Parity => praw end.
Definition original (a : arrival) : option UdpDatagram := match a with Original k => ds !! k | Parity => None end.

Fixpoint feed (d : FecDecoder) (l : list (arrival * Z)) : res unit (FecDecoder * list UdpDatagram) :=
  match l with
  | [] => Ok (d, [])
  | (a, now) :: l =>
      '(d, out) ← decode p now (arrives a) d;
      '(d, outs) ← feed d l;
      Ok (d, out ++ outs)
  end.

Lemma deliver_missing d got has i di raw :
  decoding d got has -> i ∉ got -> ds !! i = Some di -> raws !! i = Some raw ->
  exists d', deliver_recovered p (Ok raw) d = Ok (d', [di]).
Proof.
  intros Hd Hi Hdi Hraw. pose proof (fg_whole _ _ _ _ Hg i di Hdi) as Hw.
  destruct (Forall2_lookup_l _ _ _ _ _ (fg_raws _ _ _ _ Hg) Hdi) as (raw' & Hraw' & Henc). assert (raw' = raw) as -> by congruence.
  unfold deliver_recovered. rewrite (whole_decodes _ _ _ _ _ Hw Henc), (wd_session _ _ _ _ Hw), (wd_packet _ _ _ _ Hw).
  destruct (mark_seen_fresh p (sid, base + Z.of_nat i) d) as (d' & -> & _); [|by eexists].
  apply (de_fresh _ _ _ Hd); [by eapply lookup_lt_Some|done].
Qed.

(** What is still to come when [got] (and the parity, if [has]) have arrived. *)
Record to_come (i : nat) (got : list nat) (has : bool) (l : list arrival) : Prop := {
  tc_nodup : NoDup l;
  tc_new k : Original k ∈ l -> (k < length ds)%nat /\ k <> i /\ k ∉ got;
  tc_all k : (k < length ds)%nat -> k <> i -> k ∈ got \/ Original k ∈ l;
  tc_parity : Parity ∈ l <-> has = false
}.

Definition got_after (a : arrival) (got : list nat) : list nat := match a with Original k => k :: got | Parity => got end.
Definition has_after (a : arrival) (has : bool) : bool := match a with Original _ => has | Parity => true end.

Lemma to_come_tail i got has a l : to_come i got has (a :: l) -> to_come i (got_after a got) (has_after a has) l.
Proof.
  intros [Hn Hnew Hall Hp]. apply NoDup_cons in Hn as [Hna Hn]. split; [done| | |].
  - intros k Hk. destruct (Hnew k) as (? & ? & ?); [by apply list_elem_of_further|]. split_and!; [done..|].
    destruct a as [j|]; [|done]. cbn. rewrite elem_of_cons. intros [->|?]; done.
  - intros k Hk Hki. destruct (Hall k Hk Hki) as [?|Hin]; [left; by destruct a; [apply list_elem_of_further|]|].
    apply elem_of_cons in Hin as [<-|?]; [left; apply list_elem_of_here|by right].
  - destruct a as [j|]; cbn.
    + rewrite <- Hp, elem_of_cons. naive_solver.
    + split; [done|done].
Qed.

(** One arrival, whatever it is: the original, if it is one, and what the group gives. *)
Lemma decode_arrival now d got has i a l :
  to_come i got has (a :: l) -> decoding d got has -> in_time now -> (d_groups d !! (sid, base) = None -> now = t0) ->
  exists d', decoding d' (got_after a got) (has_after a has) /\ d_groups d' !! (sid, base) <> None /\
    decode p now (arrives a) d =
      '(d'', more) ← deliver_recovered p
          (if has_after a has then recover_one_missing (mkDecodeGroup t0 (slots_of (got_after a got)) (par_of (has_after a has))) else Err tt) d';
      Ok (d'', option_list (original a) ++ more).
Proof.
  intros Htc Hd Ht Hnow. destruct a as [k|]; cbn [got_after has_after arrives original].
  - destruct (tc_new _ _ _ _ Htc k) as (Hk & _ & Hn); [apply list_elem_of_here|].
    destruct (lookup_lt_is_Some_2 ds k) as [dk Hdk]; [done|]. destruct (lookup_lt_is_Some_2 raws k) as [raw Hraw]; [by rewrite len_raws|].
    destruct (decode_original now d got has k dk raw) as (d' & ? & ? & Heq); [done..|]. exists d'. split_and!; [done..|].
    rewrite Hdk, Hraw. exact Heq.
  - assert (has = false) as -> by (apply (tc_parity _ _ _ _ Htc), list_elem_of_here).
    destruct (decode_parity now d got) as (d' & ? & ? & Heq); [done..|]. exists d'. split_and!; [done..|]. rewrite Heq.
    destruct (deliver_recovered p _ d') as [[d'' more]| |]; done.
Qed.

Lemma feed_group i di raw l :
  ds !! i = Some di -> raws !! i = Some raw ->
  forall d got has, decoding d got has -> i ∉ got -> to_come i got has l.*1 -> l <> [] -> Forall in_time l.*2 ->
  (d_groups d !! (sid, base) = None -> head l.*2 = Some t0) ->
  exists d', feed d l = Ok (d', omap original l.*1 ++ [di]).
Proof.
  intros Hdi Hraw. induction l as [|[a now] l IH]; intros d got has Hd Hi Htc Hne Ht Hfirst; [done|]. clear Hne.
  cbn [fmap list_fmap fst snd] in *. apply Forall_cons in Ht as [Hnow Ht].
  destruct (decode_arrival now d got has i a l.*1) as (d1 & Hd1 & Hsome & Hdec); [done|done|done|by intros Hn; specialize (Hfirst Hn); injection Hfirst|].
  pose proof (to_come_tail i got has a l.*1 Htc) as Htl.
  assert (Hi' : i ∉ got_after a got).
  { destruct a as [k|]; [|done]. cbn. rewrite elem_of_cons. intros [->|?]; [|done].
    by destruct (tc_new _ _ _ _ Htc k) as (_ & ? & _); [apply list_elem_of_here|]. }
  assert (Hil : (i < length ds)%nat) by (by eapply lookup_lt_Some).
  cbn [feed]. rewrite Hdec. destruct l as [|[b now'] l].
  - assert (Hhas : has_after a has = true).
    { destruct (has_after a has) eqn:Hh; [done|]. pose proof (proj2 (tc_parity _ _ _ _ Htl) eq_refl) as Hx. by apply elem_of_nil in Hx. }
    assert (Hslots : slots_of (got_after a got) = <[i := None]> (Some <$> raws)).
    { apply slots_but_one; [done..|]. intros k Hk Hki. destruct (tc_all _ _ _ _ Htl k Hk Hki) as [?|Hx]; [done|by apply elem_of_nil in Hx]. }
    rewrite Hhas. cbn [par_of]. rewrite (Hrec i raw (mkDecodeGroup t0 (slots_of (got_after a got)) (Some par)) Hraw Hslots eq_refl).
    destruct (deliver_missing d1 (got_after a got) (has_after a has) i di raw) as [d2 ->]; [done..|]. mred. exists d2.
    cbn. rewrite app_nil_r. by destruct (original a).
  - assert (Hnone : (if has_after a has then recover_one_missing (mkDecodeGroup t0 (slots_of (got_after a got)) (par_of (has_after a has))) else Err tt) = Err tt).
    { destruct (has_after a has) eqn:Hh; [|done]. destruct b as [j|].
      - destruct (tc_new _ _ _ _ Htl j) as (Hj & Hji & Hjn); [apply list_elem_of_here|].
        apply (two_missing _ i j); [by apply slots_missing..|done].
      - assert (true = false) by (apply (tc_parity _ _ _ _ Htl), list_elem_of_here). done. }
    rewrite Hnone. cbn [deliver_recovered]. mred.
    destruct (IH d1 (got_after a got) (has_after a has)) as [d2 Hfeed]; [done..|].
    rewrite Hfeed. mred. exists d2. rewrite app_nil_r. cbn [omap list_omap]. by destruct (original a).
Qed.
End DecoderRun.

(** ** The two ends together *)

Section EndToEnd.
Context `{HRS : ReedSolomonLaws}.

(** C17. Forward error correction, in a debug build or for a group whose datagrams go to
    different destinations: when the datagrams of an aligned group are protected one
    after the other within the generation delay, the last call gives a parity datagram;
    and a receiver that gets the parity and all datagrams but one, in any order and
    within the recovery deadline, hands out those that arrived as they arrive and the
    missing one, exactly as it was sent, at the end.  This holds for exclusive or and for
    any code that keeps the promise of the Reed-Solomon crate. *)
Theorem fec_recovers debug p sid base ds raws e ts i di d l :
  fec_group sid base ds raws -> fec_agreed p base ds raws ->
  debug = true \/ compact_dest ds = None ->
  e_groups e !! (sid, base) = None -> length ts = length ds ->
  Forall (fun now => now - default 0 (head ts) <= Z.max (max_generation_delay p) MILLIS) ts ->
  ds !! i = Some di -> d_groups d !! (sid, base) = None -> (forall k, (k < length ds)%nat -> (sid, base + Z.of_nat k) ∉ seen d) ->
  to_come ds i [] false l.*1 -> Forall (in_time p (default 0 (head l.*2))) l.*2 ->
  exists praw e' d',
    protect_all debug p e (zip (zip ds raws) ts) = Ok (e', replicate (length ds - 1) None ++ [Some praw]) /\
    feed p raws praw d l = Ok (d', omap (original ds) l.*1 ++ [di]).
Proof.
  intros Hg Ha Hdebug He Hts Htimes Hdi Hd Hfresh Htc Ht. pose proof (fg_size _ _ _ _ Hg) as Hsize.
  pose proof (enabled_codes p (fa_enabled _ _ _ _ Ha)) as Hcodes.
  destruct (group_recovers _ sid base ds raws Hcodes Hg debug Hdebug) as (praw & dgp & par & Hbuild & Hdgp & Hpar & Hid1 & Hid2 & Hid3 & Hrec).
  assert (exists t0, head ts = Some t0) as [t0 Ht0] by (destruct ts; [cbn in Hts; lia|by eexists]). rewrite Ht0 in Htimes.
  destruct (protect_run debug p sid base ds raws Hg Ha t0 (length ds - 1) ts [] e) as (praw' & e' & Hb' & Hprot);
    [cbn; lia|lia|done| |done|done|].
  { unfold encoding. rewrite He. replace (S (length ds - 1)) with (length ds) by lia. done. }
  assert (praw' = praw) as -> by congruence. cbn [length drop] in Hprot. rewrite !drop_0 in Hprot.
  assert (Hne : l <> []).
  { intros ->. pose proof (proj2 (tc_parity _ _ _ _ _ Htc) eq_refl) as Hx. by apply elem_of_nil in Hx. }
  assert (exists now, head l.*2 = Some now) as [now Hnow] by (destruct l; [done|by eexists]). rewrite Hnow in Ht. destruct (lookup_lt_is_Some_2 raws i) as [raw Hraw].
  { rewrite <- (Forall2_length _ _ _ (fg_raws _ _ _ _ Hg)). by eapply lookup_lt_Some. }
  destruct (feed_group p sid base ds raws Hg Ha praw dgp par Hdgp Hpar (conj Hid1 (conj Hid2 Hid3)) Hrec now i di raw l Hdi Hraw d [] false)
    as [d' Hfeed]; [|apply not_elem_of_nil|done..|].
  { split; [by right|]. intros k Hk _. by apply Hfresh. }
  exists praw, e', d'. split; [done|exact Hfeed].
Qed.

(** C40. In a release build the parity of a group to one destination is taken for a datagram
    to 0.0.0.0:0: it is handed out, and the first datagram of the group, whose number it
    has, is dropped when it arrives behind it. *)
Theorem fec_release_parity p now now' sid base ds raws raw0 :
  fec_group sid base ds raws -> enabled p = true -> is_Some (compact_dest ds) -> raws !! 0%nat = Some raw0 ->
  exists praw dgp d' d'', build_parity false (effective (mode p) (max_overhead_percent p)) sid base (Some <$> raws) = Ok praw /\
    dest dgp = DV4 FEC_MARKER_V4 FEC_MARKER_PORT /\
    decode p now praw FecDecoder_new = Ok (d', [dgp]) /\ decode p now' raw0 d' = Ok (d'', []).
Proof.
  intros Hg Hen Hcd Hraw0. destruct (group_lost _ sid base ds raws (enabled_codes p Hen) Hg Hcd) as (praw & dgp & Hb & Hdec & Hpar & Hs & Hp & Hdst).
  assert (Hmark : exists g, mark_seen p (sid, base) (decoder_expire_stale now FecDecoder_new) = (mkDecoder ∅ {[(sid, base)]} [(sid, base)] 0 g, true)).
  { unfold mark_seen. rewrite decide_False by set_solver. cbn [seen_order decoder_expire_stale FecDecoder_new app shrink_seen length].
    rewrite (proj2 (Nat.ltb_ge _ _)) by lia. eexists. cbn. by rewrite (right_id_L ∅ (∪)), map_filter_empty. }
  destruct Hmark as [g Hmark].
  destruct (lookup_lt_is_Some_2 ds 0) as [d0 Hd0]; [pose proof (fg_size _ _ _ _ Hg); lia|].
  pose proof (fg_whole _ _ _ _ Hg 0%nat d0 Hd0) as Hw. destruct (Forall2_lookup_l _ _ _ _ _ (fg_raws _ _ _ _ Hg) Hd0) as (raw & Hraw & Henc).
  assert (raw = raw0) as -> by congruence.
  assert (Hacc : exists d', accept_original p now dgp praw (mkDecoder ∅ {[(sid, base)]} [(sid, base)] 0 g) = Ok (d', []) /\ (sid, base) ∈ seen d').
  { unfold accept_original. destruct (_ || _); [eexists; split; [done|]; cbn; set_solver|]. cbn [d_groups]. rewrite lookup_empty. cbn.
    eexists. split; [done|]. cbn. set_solver. }
  destruct Hacc as (d' & Hacc & Hseen). exists praw, dgp, d', (decoder_expire_stale now' d'). split_and!; [done|done| |].
  - unfold decode. rewrite Hdec, Hpar, Hs, Hp, Hmark, Hacc. done.
  - unfold decode. rewrite (whole_decodes _ _ _ _ _ Hw Henc). unfold decode_xor_parity. rewrite (wd_plain _ _ _ _ Hw). cbn [ensure]. mred.
    rewrite (wd_session _ _ _ _ Hw), (wd_packet _ _ _ _ Hw), Z.add_0_r. unfold mark_seen. by rewrite decide_True.
Qed.
End EndToEnd.

(** ** A run *)

(** Exclusive or keeps the promise of the crate. *)
#[local] Instance toy_rs : ReedSolomonCrate := {
  rs_new n := bool_decide (0 < n < 256)%nat;
  rs_encode n shards := Some (foldl xor_zip (replicate (length (default [] (head shards))) 0) shards);
  rs_reconstruct n shards :=
    let present := omap id shards in
    let rebuilt := foldl xor_zip (replicate (length (default [] (head present))) 0) present in
    Some ((fun s => match s with Some b => Some b | None => Some rebuilt end) <$> shards)
}.

#[local] Instance toy_rs_laws : ReedSolomonLaws.
Proof.
  split; [intros n Hn; by apply bool_decide_eq_true_2|].
  intros shards len Hn Hpos Hall. assert (Hhead : length (default [] (head shards)) = len).
  { destruct Hall as [|s shards Hs _]; [cbn in Hn; lia|done]. }
  cbn. rewrite Hhead. eexists. split; [done|]. split; [by rewrite length_xor_all, length_replicate|].
  intros i Hi. destruct (lookup_lt_is_Some_2 shards i Hi) as [s Hs]. rewrite <- (take_drop_middle shards i s Hs) in Hall |- *.
  set (l1 := take i shards) in *. set (l2 := drop (S i) shards) in *. apply Forall_app in Hall as [H1 [H2 H3]%Forall_cons].
  assert (Hl1 : length l1 = i) by (unfold l1; rewrite length_take; lia).
  rewrite !fmap_app, !fmap_cons, insert_app_r_alt by (rewrite length_fmap; lia). rewrite length_fmap, Hl1, Nat.sub_diag. cbn [insert list_insert].
  set (par := foldl xor_zip (replicate len 0) (l1 ++ s :: l2)).
  assert (Hpres : omap id (((Some <$> l1) ++ None :: (Some <$> l2)) ++ [Some par]) = (l1 ++ l2) ++ [par]).
  { rewrite !omap_app. cbn. rewrite !omap_id_some. done. }
  rewrite Hpres. assert (Hh : length (default [] (head ((l1 ++ l2) ++ [par]))) = len).
  { destruct l1 as [|x l1']; [|by apply Forall_cons in H1 as [? _]]. destruct l2 as [|x l2']; [|by apply Forall_cons in H3 as [? _]].
    cbn. by rewrite length_xor_zip, length_replicate. }
  rewrite Hh, foldl_app. cbn [foldl].
  assert (Hreb : xor_zip (foldl xor_zip (replicate len 0) (l1 ++ l2)) par = s).
  { assert (Hp : par = xor_zip (foldl xor_zip (replicate len 0) (l1 ++ l2)) s).
    { unfold par. rewrite !foldl_app. cbn. by rewrite xor_all_out. }
    rewrite Hp. apply xor_zip_self. by rewrite length_xor_all, length_replicate. }
  rewrite Hreb. f_equal. rewrite !fmap_app, !fmap_cons, <- !list_fmap_compose. cbn. f_equal.
Qed.

Definition toy_policy (m : FecMode) : FecPolicy := mkPolicy m 100 2 true 1 (20 * MILLIS) (100 * MILLIS) 1024.
Definition toy_datagram (pid b : Z) : UdpDatagram := mkDatagram 7 pid 0 1 (DV4 [8; 8; 8; 8] 99) (replicate 40 b).
Definition toy_raw (pid b : Z) : bytes := match encode_udp_datagram (toy_datagram pid b) with Ok raw => raw | _ => [] end.
Definition toy_ds : list UdpDatagram := [toy_datagram 4 1; toy_datagram 5 2].
Definition toy_raws : list bytes := [toy_raw 4 1; toy_raw 5 2].

Lemma toy_datagram_whole k pid b : pid = 4 + Z.of_nat k -> in_u16 pid -> whole_datagram 7 4 k (toy_datagram pid b).
Proof.
  intros -> Hp. split; try done. unfold datagram_ok. cbn [session_id packet_id frag_id frag_num dest toy_datagram addr_of].
  split_and!; try done; [apply Hp..|]. split; [done|]. split; [|done]. by repeat constructor.
Qed.

Lemma toy_group : fec_group 7 4 toy_ds toy_raws.
Proof.
  split; try done.
  - cbn. lia.
  - intros [|[|k]] d Hd; cbn in Hd; try done; injection Hd as <-; by apply toy_datagram_whole.
  - by repeat constructor.
  - by repeat constructor.
  - by left.
Qed.

Lemma toy_agreed m : codes m -> fec_agreed (toy_policy m) 4 toy_ds toy_raws.
Proof.
  intros Hm. split; try done.
  - by destruct Hm as [->|[->| ->]].
  - by repeat constructor.
  - repeat constructor; by right.
Qed.

(** The first of two datagrams is lost; the parity arrives before the other. *)
Lemma fec_recovers_witness :
  exists praw e' d', protect_all true (toy_policy ReedSolomon) FecEncoder_new (zip (zip toy_ds toy_raws) [0; 5]) = Ok (e', [None; Some praw]) /\
    feed (toy_policy ReedSolomon) toy_raws praw FecDecoder_new [(Parity, 10); (Original 1, 11)] = Ok (d', [toy_datagram 5 2; toy_datagram 4 1]).
Proof.
  apply (fec_recovers true (toy_policy ReedSolomon) 7 4 toy_ds toy_raws FecEncoder_new [0; 5] 0 (toy_datagram 4 1) FecDecoder_new
    [(Parity, 10); (Original 1, 11)]).
  - exact toy_group.
  - apply toy_agreed. right. left. reflexivity.
  - left. reflexivity.
  - reflexivity.
  - reflexivity.
  - by repeat constructor.
  - reflexivity.
  - reflexivity.
  - intros k _. cbn. apply not_elem_of_empty.
  - split.
    + apply NoDup_cons. split; [|apply NoDup_singleton]. rewrite list_elem_of_singleton. discriminate.
    + intros k Hk. apply elem_of_cons in Hk as [Hk|Hk]; [discriminate|]. apply list_elem_of_singleton in Hk. injection Hk as ->.
      split; [cbn; lia|]. split; [discriminate|apply not_elem_of_nil].
    + intros k Hk Hne. right. cbn in Hk. assert (k = 1%nat) as -> by lia. apply list_elem_of_further, list_elem_of_here.
    + split; [reflexivity|]. intros _. apply list_elem_of_here.
  - by repeat constructor.
Defined.

Lemma fec_release_parity_witness :
  exists praw dgp d' d'', build_parity false Xor1OfN 7 4 (Some <$> toy_raws) = Ok praw /\ dest dgp = DV4 FEC_MARKER_V4 FEC_MARKER_PORT /\
    decode (toy_policy Xor1OfN) 10 praw FecDecoder_new = Ok (d', [dgp]) /\ decode (toy_policy Xor1OfN) 11 (toy_raw 4 1) d' = Ok (d'', []).
Proof.
  apply (fec_release_parity (toy_policy Xor1OfN) 10 11 7 4 toy_ds toy_raws (toy_raw 4 1)).
  - exact toy_group.
  - reflexivity.
  - vm_compute. eexists. reflexivity.
  - reflexivity.
Defined.

(** A parity datagram that declares shards shorter than the datagrams of its group makes
    the Reed-Solomon decoder slice out of range. *)
Definition short_parity : bytes :=
  match encode_udp_datagram (mkDatagram 7 4 0 1 (DV4 FEC_MARKER_V4 FEC_MARKER_PORT)
    (FEC_MAGIC ++ [2] ++ be_bytes 2 4 ++ [2] ++ be_bytes 2 1 ++ be_bytes 2 1 ++ be_bytes 2 1 ++ [0])) with Ok raw => raw | _ => [] end.

Lemma short_parity_panics :
  ('(d, _) ← decode (toy_policy Xor1OfN) 10 (toy_raw 4 1) FecDecoder_new; decode (toy_policy Xor1OfN) 11 short_parity d) = Panic.
Proof. vm_compute. reflexivity. Qed.
