(* ===== verification/Freedom.v ===== *)
(** * Freedom, the direct outbound

    [blackwire-protocol] [freedom.rs]: the resolution and ordering of the addresses of a
    destination, the race over them, and the adaptive pool of connections made ahead.
    The pool is shared by all connections: its destinations are objects of a store (a
    connection may hold one that has been evicted), and connections and refill tasks are
    interleaved at their atomic operations and locks.  Resolvers, dialling and the
    liveness probe of a socket are arguments. *)

From S2P Require Import Prelude Common.

Inductive FreedomIpStrategy : Type := Auto | UseIp | PreferIpv4 | PreferIpv6 | UseIpv4 | UseIpv6.

Definition HAPPY_EYEBALLS_MAX_CONCURRENT : nat := 4.

Record PoolConfig : Type := mkConfig {
  max_per_dest : Z;
  max_global_idle : Z;
  max_dests : Z;
  idle_ttl : Z;
  hotness_window : Z;
  min_hotness_for_pool : Z
}.

Definition SECONDS : Z := 10 ^ 9.
Definition PoolConfig_default : PoolConfig := mkConfig 4 128 256 (5 * SECONDS) (10 * SECONDS) 32.
Definition fast_profile : PoolConfig := mkConfig 8 256 512 (8 * SECONDS) (12 * SECONDS) 8.
Definition USIZE_MAX : Z := 2 ^ 64 - 1.
Definition fixed (n : Z) : PoolConfig :=
  mkConfig n (Z.max (Z.min (n * 64) USIZE_MAX) n) (max_dests fast_profile) (idle_ttl fast_profile) (hotness_window fast_profile) 1.

(** ** Hotness *)

Record HotnessMeter : Type := mkMeter { current : Z; previous : Z; window_start : Z; window_duration : Z }.

Definition HotnessMeter_new (now window : Z) : HotnessMeter := mkMeter 0 0 now window.

(** [saturating_add] of [u64] *)
Definition sat_add (a b : Z) : Z := Z.min (a + b) (2 ^ 64 - 1).

Definition record_and_get (now : Z) (m : HotnessMeter) : HotnessMeter * Z :=
  let elapsed := Z.max 0 (now - window_start m) in
  let m :=
    if window_duration m * 2 <=? elapsed then mkMeter 1 0 now (window_duration m)
    else if window_duration m <=? elapsed then mkMeter 1 (current m) now (window_duration m)
    else mkMeter (as_u64 (current m + 1)) (previous m) (window_start m) (window_duration m) in
  (m, sat_add (previous m) (current m)).

Definition estimate (now : Z) (m : HotnessMeter) : Z :=
  let elapsed := Z.max 0 (now - window_start m) in
  if window_duration m * 2 <=? elapsed then 0
  else if window_duration m <=? elapsed then current m
  else sat_add (previous m) (current m).

Definition tier_from_count (count max min_hotness : Z) : Z :=
  if count <? min_hotness then 0
  else
    let tier :=
      if count =? 0 then 0
      else if count <=? 3 then 1
      else if count <=? 7 then 2
      else if count <=? 15 then 4
      else if count <=? 31 then 8
      else if count <=? 63 then 16
      else max in
    Z.min tier max.

(** ** Addresses *)

Fixpoint split_families (addrs : list SocketAddr) : list SocketAddr * list SocketAddr :=
  match addrs with
  | [] => ([], [])
  | a :: addrs => let '(v4, v6) := split_families addrs in if is_ipv6 a then (v4, a :: v6) else (a :: v4, v6)
  end.

(** One round takes from either queue; every round shortens the queues. *)
Fixpoint interleave_queues (fuel : nat) (first second : list SocketAddr) : list SocketAddr :=
  match fuel with
  | O => []
  | S fuel =>
      match first, second with
      | [], [] => []
      | _, _ => take 1 first ++ take 1 second ++ interleave_queues fuel (drop 1 first) (drop 1 second)
      end
  end.

Definition interleave_address_families (addrs : list SocketAddr) (prefer_ipv6 : bool) : list SocketAddr :=
  let '(ipv4, ipv6) := split_families addrs in
  let fuel := S (length addrs) in
  if prefer_ipv6 then interleave_queues fuel ipv6 ipv4 else interleave_queues fuel ipv4 ipv6.

Record FreedomOutbound : Type := mkFreedom {
  deny_loopback : bool;
  ip_strategy : FreedomIpStrategy;
  reject_ipv6_literal : bool
}.

Definition filter_resolved_addrs (o : FreedomOutbound) (name : bytes) (addrs : list SocketAddr) : res ProxyError (list SocketAddr) :=
  let addrs :=
    match ip_strategy o with
    | UseIpv4 => filter (fun a => Is_true (negb (is_ipv6 a))) addrs
    | UseIpv6 => filter (fun a => Is_true (is_ipv6 a)) addrs
    | _ => addrs
    end in
  match addrs with [] => Err (DnsResolutionFailed name) | _ => Ok addrs end.

Definition ordered_addrs (o : FreedomOutbound) (addrs : list SocketAddr) : list SocketAddr :=
  let prefer_ipv6 := match ip_strategy o with PreferIpv6 | UseIpv6 => true | _ => false end in
  interleave_address_families addrs prefer_ipv6.

(** [dns] is the DNS module, if there is one, and [lookup_host] the resolver of the
    system. *)
Definition resolve_all (o : FreedomOutbound) (dns : option (bytes -> res ProxyError (list IpAddr)))
    (lookup_host : bytes -> Z -> res ProxyError (list SocketAddr)) (dest : Address) : res ProxyError (list SocketAddr) :=
  match dest with
  | Ipv4 ip port => Ok [mkSocketAddr (V4 ip) port]
  | Ipv6 ip port =>
      if reject_ipv6_literal o then Err (Protocol "freedom outbound rejected literal IPv6 destination")
      else Ok [mkSocketAddr (V6 ip) port]
  | Domain name port =>
      match dns with
      | Some resolve =>
          ips ← resolve name;
          filter_resolved_addrs o name ((fun ip => mkSocketAddr ip port) <$> ips)
      | None =>
          addrs ← map_err (fun _ => DnsResolutionFailed name) (lookup_host name port);
          filter_resolved_addrs o name addrs
      end
  end.

(** [IpAddr::is_loopback]: 127.0.0.0/8, or exactly ::1. *)
Definition is_loopback (ip : IpAddr) : bool :=
  match ip with
  | V4 o => match o with a :: _ => a =? 127 | [] => false end
  | V6 o => bool_decide (o = replicate 15 0 ++ [1])
  end.

Section Connect.
Context {Stream : Type}.
(** What attempt [i] at getting a connection to an address gives, from the pool, which
    [thread_step] below models, or by dialling; every attempt has an outcome of its own. *)
Context (open_connection : nat -> SocketAddr -> res ProxyError Stream).

Definition connect_resolved (o : FreedomOutbound) (i : nat) (addr : SocketAddr) : res ProxyError Stream :=
  if deny_loopback o && is_loopback (sa_ip addr) then Err (Protocol "freedom outbound rejected loopback destination")
  else open_connection i addr.

Definition no_endpoints : ProxyError := Transport "TCP connect failed: address resolved to no endpoints".

(** The loops over attempts: the first success in the order of completion. *)
Fixpoint first_success (last_err : option ProxyError) (results : list (res ProxyError Stream)) (none : ProxyError) : res ProxyError Stream :=
  match results with
  | [] => Err (default none last_err)
  | Ok s :: _ => Ok s
  | Err e :: results => first_success (Some e) results none
  | Panic :: _ => Panic
  end.

(** [buffer_unordered(4)] starts the attempts in order, at most four at a time: the
    attempt that completes as number [j] is one of the first [j + 4]. *)
Definition completion_order (n : nat) (order : list nat) : Prop :=
  order ≡ₚ seq 0 n /\ forall j i, order !! j = Some i -> (i < j + HAPPY_EYEBALLS_MAX_CONCURRENT)%nat.

Definition connect_happy_eyeballs (o : FreedomOutbound) (addrs : list SocketAddr) (order : list nat) : res ProxyError Stream :=
  first_success None (omap (fun i => connect_resolved o i <$> addrs !! i) order) no_endpoints.

Definition connect (o : FreedomOutbound) dns lookup_host (dest : Address) (order : list nat) : res ProxyError Stream :=
  addrs ← resolve_all o dns lookup_host dest;
  let addrs := ordered_addrs o addrs in
  if (1 <? length addrs)%nat then connect_happy_eyeballs o addrs order
  else first_success None (imap (connect_resolved o) addrs) no_endpoints.
End Connect.

(** UDP goes to one address after the other. *)
Definition udp_roundtrip {Reply : Type} (exchange : SocketAddr -> res ProxyError Reply) (o : FreedomOutbound) dns lookup_host (dest : Address) :
    res ProxyError Reply :=
  addrs ← resolve_all o dns lookup_host dest;
  first_success None (exchange <$> ordered_addrs o addrs) (Transport "UDP send failed: address resolved to no endpoints").

(** ** The pool *)

(** A connection is its number in the table of all connections made for the pool. *)
Record DestPool : Type := mkDest {
  dp_addr : SocketAddr;
  hotness : HotnessMeter;
  in_flight : Z;
  idle : list (nat * Z);
  last_used_ms : Z
}.

Record AdaptivePool : Type := mkPool {
  config : PoolConfig;
  dests : gmap SocketAddr nat;
  pools : list DestPool;
  peers : list SocketAddr;
  global_idle : Z
}.

Definition AdaptivePool_new (cfg : PoolConfig) : AdaptivePool := mkPool cfg ∅ [] [] 0.

Definition now_ms (now : Z) : Z := now / 10 ^ 6.

Definition DestPool_new (addr : SocketAddr) (window now : Z) : DestPool :=
  mkDest addr (HotnessMeter_new now window) 0 [] (now_ms now).

Definition record_and_cap (now max min_hotness : Z) (d : DestPool) : DestPool * (Z * Z) :=
  let '(m, count) := record_and_get now (hotness d) in
  (mkDest (dp_addr d) m (in_flight d) (idle d) (last_used_ms d), (tier_from_count count max min_hotness, count)).

Definition current_cap (now max min_hotness : Z) (d : DestPool) : Z :=
  tier_from_count (estimate now (hotness d)) max min_hotness.

(** The loop of [try_take]: [alive] is the outcome of the two probes of a socket. *)
Fixpoint take_live (ttl now : Z) (alive : nat -> bool) (queue : list (nat * Z)) (stale : Z) : option nat * Z * list (nat * Z) :=
  match queue with
  | [] => (None, stale, [])
  | (stream, last_use) :: queue =>
      if ttl <? Z.max 0 (now - last_use) then take_live ttl now alive queue (stale + 1)
      else if alive stream then (Some stream, stale, queue)
      else take_live ttl now alive queue (stale + 1)
  end.

Definition try_take (ttl now : Z) (alive : nat -> bool) (d : DestPool) : DestPool * (option nat * Z) :=
  let '(taken, stale, queue) := take_live ttl now alive (idle d) 0 in
  (mkDest (dp_addr d) (hotness d) (in_flight d) queue (now_ms now), (taken, stale)).

Definition with_pools (p : AdaptivePool) (ps : list DestPool) : AdaptivePool :=
  mkPool (config p) (dests p) ps (peers p) (global_idle p).
Definition add_global (p : AdaptivePool) (k : Z) : AdaptivePool :=
  mkPool (config p) (dests p) (pools p) (peers p) (global_idle p + k).
Definition in_flight_add (d : DestPool) (k : Z) : DestPool :=
  mkDest (dp_addr d) (hotness d) (in_flight d + k) (idle d) (last_used_ms d).
Definition push_idle (d : DestPool) (s : nat) (now : Z) : DestPool :=
  mkDest (dp_addr d) (hotness d) (in_flight d) (idle d ++ [(s, now)]) (last_used_ms d).

(** Where a connection ([connect_resolved] with a pool) or a refill task is. *)
Inductive thread : Type :=
| Lookup
| CheckLen
| Scan
| Evict (key : SocketAddr)
| Removed (id : nat)
| Drained (idle_count : Z)
| Insert
| Record_ (id : nat)
| Take (id : nat)
| Stale (id : nat) (stale : Z) (taken : option nat)
| Replenish (id : nat) (taken : option nat)
| HaveCap (id : nat) (cap : Z) (taken : option nat)
| HaveIdle (id : nat) (cap used : Z) (taken : option nat)
| Reserve (id : nat) (needed : Z) (taken : option nat)
| Spawning (id : nat) (left : nat) (taken : option nat)
| Leave (taken : option nat)
| Pooled (s : nat)
| Dial
| Refill (id : nat)
| Landed (id : nat)
| Over.

(** [min_by_key] over the entries, in one scan. *)
Definition lru_key (p : AdaptivePool) (key : SocketAddr) : Prop :=
  exists id d, dests p !! key = Some id /\ pools p !! id = Some d /\
    forall k j e, dests p !! k = Some j -> pools p !! j = Some e -> last_used_ms d <= last_used_ms e.

Definition refill_landed (p : AdaptivePool) (id : nat) (d : DestPool) (now : Z) : AdaptivePool :=
  let stream := length (peers p) in
  let p := mkPool (config p) (dests p) (pools p) (peers p ++ [dp_addr d]) (global_idle p) in
  if zlen (idle d) <? max_per_dest (config p)
  then with_pools p (<[id := push_idle d stream now]> (pools p))
  else add_global p (-1).

(** One atomic operation of a connection to [addr] or of a refill task: [get_or_create]
    with [evict_lru], [record_and_cap], [try_take], [replenish] with its tasks, and the
    rest of [connect_resolved]; the last argument is the task it spawns. *)
Inductive thread_step (p : AdaptivePool) (addr : SocketAddr) : thread -> AdaptivePool -> thread -> option thread -> Prop :=
| st_lookup_hit id : dests p !! addr = Some id -> thread_step p addr Lookup p (Record_ id) None
| st_lookup_miss : dests p !! addr = None -> thread_step p addr Lookup p CheckLen None
| st_check :
    thread_step p addr CheckLen p (if max_dests (config p) <=? Z.of_nat (size (dests p)) then Scan else Insert) None
| st_scan key : lru_key p key -> thread_step p addr Scan p (Evict key) None
| st_scan_none : dests p = ∅ -> thread_step p addr Scan p Insert None
| st_evict key id : dests p !! key = Some id ->
    thread_step p addr (Evict key) (mkPool (config p) (delete key (dests p)) (pools p) (peers p) (global_idle p)) (Removed id) None
| st_evict_gone key : dests p !! key = None -> thread_step p addr (Evict key) p Insert None
| st_drain id d : pools p !! id = Some d -> thread_step p addr (Removed id) p (Drained (zlen (idle d))) None
| st_drained n : thread_step p addr (Drained n) (if 0 <? n then add_global p (- n) else p) Insert None
| st_insert_hit id : dests p !! addr = Some id -> thread_step p addr Insert p (Record_ id) None
| st_insert_new now : dests p !! addr = None ->
    thread_step p addr Insert
      (mkPool (config p) (<[addr := length (pools p)]> (dests p)) (pools p ++ [DestPool_new addr (hotness_window (config p)) now])
         (peers p) (global_idle p))
      (Record_ (length (pools p))) None
| st_record id d now : pools p !! id = Some d ->
    thread_step p addr (Record_ id)
      (with_pools p (<[id := (record_and_cap now (max_per_dest (config p)) (min_hotness_for_pool (config p)) d).1]> (pools p))) (Take id) None
| st_take id d now alive d' taken stale : pools p !! id = Some d -> try_take (idle_ttl (config p)) now alive d = (d', (taken, stale)) ->
    thread_step p addr (Take id) (with_pools p (<[id := d']> (pools p))) (Stale id stale taken) None
| st_stale id stale taken :
    thread_step p addr (Stale id stale taken) (if 0 <? stale then add_global p (- stale) else p) (Replenish id taken) None
| st_cap id d now taken : pools p !! id = Some d ->
    thread_step p addr (Replenish id taken) p
      (HaveCap id (current_cap now (max_per_dest (config p)) (min_hotness_for_pool (config p)) d) taken) None
| st_idle id d cap taken : pools p !! id = Some d ->
    thread_step p addr (HaveCap id cap taken) p (HaveIdle id cap (zlen (idle d) + in_flight d) taken) None
| st_needed id cap used taken :
    let global_budget := Z.max (max_global_idle (config p) - global_idle p) 0 in
    let needed := Z.min (Z.max (cap - used) 0) global_budget in
    thread_step p addr (HaveIdle id cap used taken) p (if needed =? 0 then Leave taken else Reserve id needed taken) None
| st_reserve id needed taken :
    let budget := Z.max (max_global_idle (config p) - global_idle p) 0 in
    let want := Z.min needed budget in
    thread_step p addr (Reserve id needed taken)
      (if want =? 0 then p else add_global p want)
      (if want =? 0 then Leave taken else Spawning id (Z.to_nat want) taken) None
| st_spawn id n d taken : pools p !! id = Some d ->
    thread_step p addr (Spawning id (S n) taken) (with_pools p (<[id := in_flight_add d 1]> (pools p)))
      (Spawning id n taken) (Some (Refill id))
| st_spawned id taken : thread_step p addr (Spawning id 0 taken) p (Leave taken) None
| st_pooled s : thread_step p addr (Leave (Some s)) (add_global p (-1)) (Pooled s) None
| st_miss : thread_step p addr (Leave None) p Dial None
| st_refill_ok id d now : pools p !! id = Some d -> thread_step p addr (Refill id) (refill_landed p id d now) (Landed id) None
| st_refill_err id : thread_step p addr (Refill id) (add_global p (-1)) (Landed id) None
| st_landed id d : pools p !! id = Some d ->
    thread_step p addr (Landed id) (with_pools p (<[id := in_flight_add d (-1)]> (pools p))) Over None.

(** A connection to [addr], or a refill task for it. *)
Record System : Type := mkSystem { pool : AdaptivePool; threads : list (SocketAddr * thread) }.

Inductive sys_step (s : System) : System -> Prop :=
| sys_connect addr : sys_step s (mkSystem (pool s) (threads s ++ [(addr, Lookup)]))
| sys_thread n addr t p' t' spawned :
    threads s !! n = Some (addr, t) -> thread_step (pool s) addr t p' t' spawned ->
    sys_step s (mkSystem p' (<[n := (addr, t')]> (threads s) ++ ((fun r => (addr, r)) <$> option_list spawned))).

Definition start (cfg : PoolConfig) : System := mkSystem (AdaptivePool_new cfg) [].
Definition reachable (cfg : PoolConfig) : System -> Prop := rtc sys_step (start cfg).

(** * Facts *)

(** ** Hotness *)

Definition hits (lo hi : Z) (h : list Z) : Z := zlen (filter (fun t => lo <= t < hi) h).

Lemma hits_app lo hi h h' : hits lo hi (h ++ h') = hits lo hi h + hits lo hi h'.
Proof. unfold hits, zlen. rewrite filter_app, length_app. lia. Qed.

Lemma hits_one lo hi t : hits lo hi [t] = if decide (lo <= t < hi) then 1 else 0.
Proof. unfold hits, zlen. rewrite filter_cons. by destruct (decide _). Qed.

Lemma hits_nonneg lo hi h : 0 <= hits lo hi h <= zlen h.
Proof. unfold hits, zlen. pose proof (length_filter (fun t => lo <= t < hi) h). lia. Qed.

Lemma hits_mono lo hi lo' hi' h :
  (forall t, t ∈ h -> lo <= t < hi -> lo' <= t < hi') -> hits lo hi h <= hits lo' hi' h.
Proof.
  induction h as [|t h IH]; intros Himp; [done|]. change (t :: h) with ([t] ++ h). rewrite !hits_app, !hits_one.
  assert (hits lo hi h <= hits lo' hi' h) by (apply IH; intros; apply Himp; [by apply list_elem_of_further|done]).
  destruct (decide (lo <= t < hi)) as [Ht|Ht]; [|case_decide; lia].
  rewrite decide_True by (apply Himp; [apply list_elem_of_here|done]). lia.
Qed.

Lemma hits_split lo mid hi h : lo <= mid <= hi -> hits lo hi h = hits lo mid h + hits mid hi h.
Proof.
  intros Hm. induction h as [|t h IH]; [done|]. change (t :: h) with ([t] ++ h). rewrite !hits_app, !hits_one, IH.
  repeat case_decide; lia.
Qed.

(** The meter after the hits [h], the last event being at [last]. *)
Record meter_ok (w : Z) (h : list Z) (last : Z) (m : HotnessMeter) : Prop := {
  mo_window : window_duration m = w;
  mo_last : window_start m <= last < window_start m + w;
  mo_hits : Forall (fun t => t <= last) h;
  mo_current : current m = hits (window_start m) (window_start m + w) h;
  mo_previous : exists lo, window_start m - 2 * w < lo <= window_start m - w /\ previous m = hits lo (window_start m) h;
  mo_hit : window_start m ∈ h \/ Forall (fun t => window_start m <= t) h
}.

Lemma meter_new_ok w now : 0 < w -> meter_ok w [] now (HotnessMeter_new now w).
Proof. intros Hw. split; cbn; try done; [lia| |by right]. exists (now - w). split; [lia|done]. Qed.

Lemma hits_none lo hi h last : Forall (fun t => t <= last) h -> last < lo -> hits lo hi h = 0.
Proof.
  intros Hh Hl. induction Hh as [|t h Ht _ IH]; [done|]. change (t :: h) with ([t] ++ h).
  rewrite hits_app, hits_one, IH, decide_False by lia. done.
Qed.

(** A hit moves the window on; the meter counts it. *)
Lemma meter_record_ok w h last m now :
  meter_ok w h last m -> last <= now -> zlen h < 2 ^ 63 -> 0 < w ->
  meter_ok w (h ++ [now]) now (record_and_get now m).1 /\
  (record_and_get now m).2 = previous (record_and_get now m).1 + current (record_and_get now m).1.
Proof.
  intros [Hw Hl Hh Hc (lo & Hlo & Hp) Hin] Hnow Hlen Hpos. unfold record_and_get. rewrite Hw, Z.max_r by lia.
  assert (Hh' : Forall (fun t => t <= now) (h ++ [now])).
  { apply Forall_app. split; [|by apply Forall_singleton]. eapply Forall_impl; [exact Hh|]. cbn. lia. }
  assert (Hsat : forall a b, 0 <= a <= zlen h -> 0 <= b <= zlen h + 1 -> sat_add a b = a + b) by (intros; unfold sat_add; lia).
  pose proof (hits_nonneg lo (window_start m) h). pose proof (hits_nonneg (window_start m) (window_start m + w) h).
  destruct (Z.leb_spec (w * 2) (now - window_start m)) as [H2|H2]; [|destruct (Z.leb_spec w (now - window_start m)) as [H1|H1]]; cbn.
  - split; [|apply Hsat; lia]. split; cbn; [done|lia|done| | |left; apply elem_of_app; right; by apply list_elem_of_singleton].
    + rewrite hits_app, (hits_none _ _ _ last) by (done || lia). by rewrite hits_one, decide_True by lia.
    + exists (now - w). split; [lia|]. rewrite hits_app, (hits_none _ _ _ last) by (done || lia). by rewrite hits_one, decide_False by lia.
  - split; [|rewrite Hc; apply Hsat; lia]. split; cbn; [done|lia|done| | |left; apply elem_of_app; right; by apply list_elem_of_singleton].
    + rewrite hits_app, (hits_none _ _ _ last) by (done || lia). by rewrite hits_one, decide_True by lia.
    + exists (window_start m). split; [lia|]. rewrite hits_app, hits_one, decide_False by lia.
      rewrite (hits_split (window_start m) (window_start m + w) now) by lia. rewrite (hits_none (window_start m + w) now h last) by (done || lia). lia.
  - assert (Hcur : as_u64 (current m + 1) = current m + 1) by (unfold as_u64; rewrite Z.mod_small; lia).
    rewrite Hcur. split; [|rewrite Hp; apply Hsat; lia]. split; cbn; [done|lia|done| | |].
    + rewrite hits_app, hits_one, decide_True by lia. lia.
    + exists lo. split; [done|]. rewrite hits_app, hits_one, decide_False by lia. lia.
    + destruct Hin as [Hin|Hin]; [left; apply elem_of_app; by left|]. right. apply Forall_app. split; [done|].
      apply Forall_singleton. lia.
Qed.

(** What the meter says lies between the hits of the last window and those of the last
    three; it is zero when two windows have passed without a hit. *)
Lemma estimate_bounds w h last m now :
  meter_ok w h last m -> last <= now -> zlen h < 2 ^ 63 -> 0 < w ->
  hits (now - w + 1) (now + 1) h <= estimate now m <= hits (now - 3 * w) (now + 1) h /\
  (hits (now - 2 * w) (now + 1) h = 0 -> estimate now m = 0).
Proof.
  intros [Hw Hl Hh Hc (lo & Hlo & Hp) Hin] Hnow Hlen Hpos. unfold estimate. rewrite Hw, Z.max_r by lia.
  assert (Hle : forall t, t ∈ h -> t <= last) by (by apply Forall_forall).
  pose proof (hits_nonneg (now - 3 * w) (now + 1) h).
  destruct (Z.leb_spec (w * 2) (now - window_start m)) as [H2|H2]; [|destruct (Z.leb_spec w (now - window_start m)) as [H1|H1]].
  - rewrite (hits_none (now - w + 1) (now + 1) h last) by (done || lia). lia.
  - rewrite Hc. split; [split; apply hits_mono; intros t Ht Hr; specialize (Hle t Ht); lia|].
    intros Hz. pose proof (hits_nonneg (window_start m) (window_start m + w) h).
    assert (hits (window_start m) (window_start m + w) h <= hits (now - 2 * w) (now + 1) h) by (apply hits_mono; intros t Ht Hr; specialize (Hle t Ht); lia). lia.
  - pose proof (hits_nonneg lo (window_start m) h). pose proof (hits_nonneg (window_start m) (window_start m + w) h).
    assert (Hsum : previous m + current m = hits lo (window_start m + w) h).
    { rewrite Hp, Hc. symmetry. apply hits_split. lia. }
    pose proof (hits_nonneg lo (window_start m + w) h).
    assert (Hsat : sat_add (previous m) (current m) = hits lo (window_start m + w) h) by (unfold sat_add; lia).
    rewrite Hsat. split; [split; apply hits_mono; intros t Ht Hr; specialize (Hle t Ht); lia|].
    intros Hz. destruct Hin as [Hin|Hin].
    2:{ assert (hits lo (window_start m + w) h <= hits (now - 2 * w) (now + 1) h); [|lia]. rewrite Forall_forall in Hin.
        apply hits_mono. intros t Ht Hr. specialize (Hle t Ht). specialize (Hin t Ht). lia. }
    exfalso. apply list_elem_of_split in Hin as (h1 & h2 & ->).
    change (window_start m :: h2) with ([window_start m] ++ h2) in Hz. rewrite !hits_app, hits_one, decide_True in Hz by lia.
    pose proof (hits_nonneg (now - 2 * w) (now + 1) h1). pose proof (hits_nonneg (now - 2 * w) (now + 1) h2). lia.
Qed.

(** Capacity grows with the count, from zero below the threshold up to the maximum. *)
Lemma tier_bounds count max min_hotness :
  0 <= max -> 0 <= tier_from_count count max min_hotness <= max /\ (count < min_hotness -> tier_from_count count max min_hotness = 0).
Proof. intros Hm. unfold tier_from_count. repeat case_match; bool_hyps; lia. Qed.

Lemma tier_mono a b max min_hotness :
  0 <= max -> 0 <= a <= b -> tier_from_count a max min_hotness <= tier_from_count b max min_hotness.
Proof. intros Hm Hab. unfold tier_from_count. repeat case_match; bool_hyps; lia. Qed.

(** ** Order of addresses *)

Definition v6s : list SocketAddr -> list SocketAddr := filter (fun a => Is_true (is_ipv6 a)).
Definition v4s : list SocketAddr -> list SocketAddr := filter (fun a => Is_true (negb (is_ipv6 a))).

Lemma split_families_spec addrs : split_families addrs = (v4s addrs, v6s addrs).
Proof.
  induction addrs as [|a addrs IH]; [done|]. cbn [split_families]. rewrite IH. unfold v4s, v6s. rewrite !filter_cons.
  destruct (is_ipv6 a); by rewrite ?decide_True, ?decide_False by (cbn; auto).
Qed.

Lemma interleave_queues_spec fuel (P : SocketAddr -> Prop) `{!forall a, Decision (P a)} first second :
  Forall P first -> Forall (fun a => ~ P a) second -> (length first + length second < fuel)%nat ->
  filter P (interleave_queues fuel first second) = first /\ filter (fun a => ~ P a) (interleave_queues fuel first second) = second.
Proof.
  revert first second. induction fuel as [|fuel IH]; intros first second Hf Hs Hl; [lia|].
  assert (Hrec : (length (drop 1 first) + length (drop 1 second) < fuel)%nat \/ first = [] /\ second = []).
  { destruct first, second; cbn in *; rewrite ?drop_0; auto; left; lia. }
  destruct Hrec as [Hrec|[-> ->]]; [|done].
  destruct (IH (drop 1 first) (drop 1 second)) as [IH1 IH2]; [by apply Forall_drop..|done|].
  assert (Hstep : interleave_queues (S fuel) first second = take 1 first ++ take 1 second ++ interleave_queues fuel (drop 1 first) (drop 1 second)).
  { destruct first, second; try done. cbn in *. by destruct fuel. }
  rewrite Hstep, !filter_app, IH1, IH2.
  assert (Hall : forall (Q R : SocketAddr -> Prop) `{!forall a, Decision (Q a), !forall a, Decision (R a)} l,
            (forall a, Q a -> R a) -> Forall Q l -> filter R (take 1 l) = take 1 l).
  { intros Q R ?? l HQR [|a l' Ha _]; [done|]. change (take 1 (a :: l')) with [a]. by rewrite filter_cons_True by auto. }
  assert (Hnone : forall (Q R : SocketAddr -> Prop) `{!forall a, Decision (Q a), !forall a, Decision (R a)} l,
            (forall a, Q a -> ~ R a) -> Forall Q l -> filter R (take 1 l) = []).
  { intros Q R ?? l HQR [|a l' Ha _]; [done|]. change (take 1 (a :: l')) with [a]. by rewrite filter_cons_False by auto. }
  rewrite (Hall P P _ _ first), (Hnone (fun a => ~ P a) P _ _ second), (Hnone P (fun a => ~ P a) _ _ first), (Hall (fun a => ~ P a) (fun a => ~ P a) _ _ second) by auto.
  cbn [app]. split; apply take_drop.
Qed.

Lemma v4s_not a : Is_true (negb (is_ipv6 a)) <-> ~ Is_true (is_ipv6 a).
Proof. by destruct (is_ipv6 a); cbn; split; auto. Qed.

(** The order of the attempts keeps the order of either family. *)
Lemma ordered_families o addrs : v4s (ordered_addrs o addrs) = v4s addrs /\ v6s (ordered_addrs o addrs) = v6s addrs.
Proof.
  unfold ordered_addrs, interleave_address_families. rewrite split_families_spec.
  assert (H6 : Forall (fun a => Is_true (is_ipv6 a)) (v6s addrs)) by (apply Forall_forall; intros a [Ha _]%list_elem_of_filter; done).
  assert (H4 : Forall (fun a => Is_true (negb (is_ipv6 a))) (v4s addrs)) by (apply Forall_forall; intros a [Ha _]%list_elem_of_filter; done).
  assert (Hlen : (length (v4s addrs) + length (v6s addrs) = length addrs)%nat).
  { clear. induction addrs as [|a addrs IH]; [done|]. unfold v4s, v6s in *. rewrite !filter_cons.
    destruct (is_ipv6 a); cbn; [rewrite decide_False, decide_True by auto|rewrite decide_True, decide_False by auto]; cbn; lia. }
  destruct (match ip_strategy o with PreferIpv6 | UseIpv6 => true | _ => false end).
  - destruct (interleave_queues_spec (S (length addrs)) (fun a => Is_true (is_ipv6 a)) (v6s addrs) (v4s addrs)) as [E1 E2]; [done| |lia|].
    + eapply Forall_impl; [exact H4|]. intros a. apply v4s_not.
    + split; [|exact E1]. etrans; [|exact E2]. apply list_filter_iff, v4s_not.
  - destruct (interleave_queues_spec (S (length addrs)) (fun a => Is_true (negb (is_ipv6 a))) (v4s addrs) (v6s addrs)) as [E1 E2]; [done| |lia|].
    + eapply Forall_impl; [exact H6|]. intros a. rewrite v4s_not. tauto.
    + split; [exact E1|]. etrans; [|exact E2]. apply list_filter_iff. intros a. rewrite v4s_not. destruct (is_ipv6 a); cbn; tauto.
Qed.

Lemma families_perm addrs : v4s addrs ++ v6s addrs ≡ₚ addrs.
Proof.
  induction addrs as [|a addrs IH]; [done|]. unfold v4s, v6s in *. rewrite !filter_cons.
  destruct (is_ipv6 a); cbn; [rewrite decide_False, decide_True by auto|rewrite decide_True, decide_False by auto].
  - by rewrite <- Permutation_middle, IH.
  - cbn. by rewrite IH.
Qed.

Lemma ordered_perm o addrs : ordered_addrs o addrs ≡ₚ addrs.
Proof. destruct (ordered_families o addrs) as [H4 H6]. by rewrite <- (families_perm (ordered_addrs o addrs)), H4, H6, families_perm. Qed.

(** The preferred family comes first when there is an address of it. *)
Lemma ordered_head o addrs a rest :
  ordered_addrs o addrs = a :: rest ->
  is_ipv6 a = match ip_strategy o with PreferIpv6 | UseIpv6 => bool_decide (v6s addrs <> []) | _ => bool_decide (v4s addrs = []) end.
Proof.
  destruct (ordered_families o addrs) as [H4 H6]. unfold ordered_addrs, interleave_address_families. rewrite split_families_spec.
  assert (Hin6 : forall x, x ∈ v6s addrs -> is_ipv6 x = true) by (intros x [Hx _]%list_elem_of_filter; by destruct (is_ipv6 x)).
  assert (Hin4 : forall x, x ∈ v4s addrs -> is_ipv6 x = false) by (intros x [Hx _]%list_elem_of_filter; by destruct (is_ipv6 x)).
  assert (Hq : forall (first second : list SocketAddr) n, interleave_queues (S n) first second = a :: rest ->
    a ∈ first /\ first <> [] \/ first = [] /\ a ∈ second).
  { intros [|x first] [|y second] n Hq; cbn in Hq; simplify_eq; [right|left|left]; repeat split; auto using list_elem_of_here. }
  destruct (ip_strategy o); intros [[Hin Hne]|[He Hin]]%Hq.
  all: try (rewrite (Hin6 _ Hin)); try (rewrite (Hin4 _ Hin)); symmetry.
  all: first [by apply bool_decide_eq_true_2|by apply bool_decide_eq_false_2; auto].
Qed.

(** ** Connecting *)

Lemma first_success_spec {Stream} last (results : list (res ProxyError Stream)) none :
  Panic ∉ results ->
  match first_success last results none with
  | Ok s => exists l r, results = l ++ Ok s :: r /\ Forall (fun x => exists e, x = Err e) l
  | Err e => Forall (fun x => exists e, x = Err e) results
  | Panic => False
  end.
Proof.
  revert last. induction results as [|[s|e|] results IH]; intros last Hp; cbn [first_success].
  - done.
  - exists [], results. auto.
  - specialize (IH (Some e)). assert (Hp' : Panic ∉ results) by (intros Hin; apply Hp; by apply list_elem_of_further). specialize (IH Hp').
    destruct (first_success (Some e) results none); [|by constructor; eauto|done].
    destruct IH as (l & r & -> & Hl). exists (Err e :: l), r. split; [done|]. constructor; eauto.
  - apply Hp, list_elem_of_here.
Qed.

Definition denied (o : FreedomOutbound) (a : SocketAddr) : bool := deny_loopback o && is_loopback (sa_ip a).

(** The addresses a destination stands for, and which of them the settings allow. *)
Definition endpoints (dns : option (bytes -> res ProxyError (list IpAddr)))
    (lookup_host : bytes -> Z -> res ProxyError (list SocketAddr)) (dest : Address) : res ProxyError (list SocketAddr) :=
  match dest with
  | Ipv4 ip port => Ok [mkSocketAddr (V4 ip) port]
  | Ipv6 ip port => Ok [mkSocketAddr (V6 ip) port]
  | Domain name port =>
      match dns with
      | Some resolve => match resolve name with Ok ips => Ok ((fun ip => mkSocketAddr ip port) <$> ips) | Err e => Err e | Panic => Panic end
      | None => lookup_host name port
      end
  end.

Definition allowed (o : FreedomOutbound) (dest : Address) (a : SocketAddr) : bool :=
  match dest with
  | Ipv4 _ _ => true
  | Ipv6 _ _ => negb (reject_ipv6_literal o)
  | Domain _ _ => match ip_strategy o with UseIpv4 => negb (is_ipv6 a) | UseIpv6 => is_ipv6 a | _ => true end
  end.

Lemma filter_resolved_spec o name addrs port :
  filter_resolved_addrs o name addrs =
  match filter (fun a => Is_true (allowed o (Domain name port) a)) addrs with [] => Err (DnsResolutionFailed name) | l => Ok l end.
Proof.
  unfold filter_resolved_addrs, allowed.
  assert (Hall : filter (fun _ => Is_true true) addrs = addrs) by (induction addrs as [|x l IH]; [done|]; rewrite filter_cons, IH; by rewrite decide_True).
  destruct (ip_strategy o); cbn [negb] in *; rewrite ?Hall; by repeat case_match.
Qed.

(** [resolve_all] keeps the addresses that are allowed, all of them and in their order,
    and fails when there is none. *)
Lemma resolve_all_spec o dns lookup_host dest :
  match endpoints dns lookup_host dest with
  | Ok all =>
      match filter (fun a => Is_true (allowed o dest a)) all with
      | [] => exists e, resolve_all o dns lookup_host dest = Err e
      | l => resolve_all o dns lookup_host dest = Ok l
      end
  | Err _ => exists e, resolve_all o dns lookup_host dest = Err e
  | Panic => resolve_all o dns lookup_host dest = Panic
  end.
Proof.
  destruct dest as [ip port|ip port|name port]; cbn [endpoints resolve_all].
  - done.
  - unfold allowed. rewrite filter_cons. destruct (reject_ipv6_literal o); cbn; [by eexists|done].
  - destruct dns as [resolve|].
    + destruct (resolve name) as [ips|e|]; cbn [mbind res_bind map_err]; [|by eexists|done]. rewrite (filter_resolved_spec _ _ _ port).
      case_match; [by eexists|done].
    + destruct (lookup_host name port) as [l|e|]; cbn [mbind res_bind map_err]; [|by eexists|done]. rewrite (filter_resolved_spec _ _ _ port).
      case_match; [by eexists|done].
Qed.

Section ConnectFacts.
Context {Stream : Type} (open_connection : nat -> SocketAddr -> res ProxyError Stream).
Hypothesis no_panic : forall i a, open_connection i a <> Panic.

Definition attempt (o : FreedomOutbound) (x : nat * SocketAddr) : res ProxyError Stream :=
  connect_resolved open_connection o x.1 x.2.

Lemma attempt_ok o i a s : attempt o (i, a) = Ok s <-> denied o a = false /\ open_connection i a = Ok s.
Proof. unfold attempt, connect_resolved, denied. cbn. destruct (deny_loopback o && is_loopback (sa_ip a)); naive_solver. Qed.

Lemma attempts_no_panic o (tried : list (nat * SocketAddr)) : (Panic : res ProxyError Stream) ∉ attempt o <$> tried.
Proof.
  intros ([i a] & Ha & _)%list_elem_of_fmap. unfold attempt, connect_resolved in Ha. cbn in Ha.
  destruct (_ && _); [done|]. by apply (no_panic i a).
Qed.

(** Attempts in any order: the first that succeeds wins. *)
Lemma attempts_spec o (tried : list (nat * SocketAddr)) :
  match first_success None (attempt o <$> tried) no_endpoints with
  | Ok s => exists i a l r, tried = l ++ (i, a) :: r /\ denied o a = false /\ open_connection i a = Ok s /\
      forall j b s', (j, b) ∈ l -> open_connection j b = Ok s' -> denied o b = true
  | Err _ => forall i a s, (i, a) ∈ tried -> open_connection i a = Ok s -> denied o a = true
  | Panic => False
  end.
Proof.
  assert (Hfail : forall l, Forall (fun x => exists e, x = Err e) (attempt o <$> l) ->
    forall j b s', (j, b) ∈ l -> open_connection j b = Ok s' -> denied o b = true).
  { intros l Hl j b s' Hb Hs. destruct (denied o b) eqn:Hd; [done|]. rewrite Forall_fmap, Forall_forall in Hl.
    destruct (Hl _ Hb) as [e He]. pose proof (proj2 (attempt_ok o j b s') (conj Hd Hs)). unfold compose in He. congruence. }
  pose proof (first_success_spec None (attempt o <$> tried) no_endpoints (attempts_no_panic o tried)) as Hs.
  destruct (first_success _ _ _) as [s|e|]; [|by apply Hfail|done]. destruct Hs as (l & r & Heq & Hl).
  apply fmap_app_inv in Heq as (l1 & [|[i a] l2] & -> & Hr & ->); [done|]. injection Hr as Ha _. symmetry in Ha.
  apply attempt_ok in Ha as [Hd Ho]. exists i, a, l1, l2. repeat split; eauto.
Qed.
End ConnectFacts.

(** The attempts in the order in which they complete. *)
Definition numbered (addrs : list SocketAddr) (order : list nat) : list (nat * SocketAddr) :=
  omap (fun i => pair i <$> addrs !! i) order.

Lemma numbered_seq addrs : numbered addrs (seq 0 (length addrs)) = imap pair addrs.
Proof.
  induction addrs as [|a addrs IH] using rev_ind; [done|]. unfold numbered in *.
  rewrite length_app, Nat.add_1_r, seq_S, omap_app, imap_app. cbn. rewrite list_lookup_middle by lia. cbn.
  rewrite Nat.add_0_r. f_equal. rewrite <- IH. apply list_omap_ext, Forall2_same_length_lookup. split; [done|].
  intros i x y Hx Hy. assert (x = y) as -> by congruence. apply lookup_seq in Hx as [-> Hi]. by rewrite lookup_app_l by lia.
Qed.

Lemma numbered_perm addrs order : order ≡ₚ seq 0 (length addrs) -> numbered addrs order ≡ₚ imap pair addrs.
Proof. intros Hp. unfold numbered. rewrite Hp. by rewrite <- numbered_seq. Qed.

Lemma numbered_fst addrs order : order ≡ₚ seq 0 (length addrs) -> (numbered addrs order).*1 = order.
Proof.
  intros Hp. assert (Hall : Forall (fun i => (i < length addrs)%nat) order).
  { rewrite Hp. apply Forall_forall. intros i Hi%elem_of_seq. lia. }
  clear Hp. induction Hall as [|i order Hi _ IH]; [done|]. unfold numbered in *. cbn.
  destruct (lookup_lt_is_Some_2 _ _ Hi) as [a ->]. cbn. by rewrite IH.
Qed.

Lemma attempts_numbered {Stream} (open_connection : nat -> SocketAddr -> res ProxyError Stream) o addrs order :
  omap (fun i => connect_resolved open_connection o i <$> addrs !! i) order =
  attempt open_connection o <$> numbered addrs order.
Proof.
  unfold numbered. induction order as [|i order IH]; [done|]. cbn. by destruct (addrs !! i); cbn; rewrite IH.
Qed.

Lemma imap_pair_snd {A} (l : list A) : (imap pair l).*2 = l.
Proof. induction l as [|x l IH] using rev_ind; [done|]. by rewrite imap_app, fmap_app, IH. Qed.

(** C20. A direct connection, with every attempt's own outcome and for every order in
    which the attempts can complete.  The candidates are the addresses that the
    destination stands for (a literal itself, a name what the DNS module or else the
    system's resolver returns, with its port) less those the settings exclude: the other
    family under "IPv4 only" or "IPv6 only" for a name, and a literal IPv6 address when
    those are rejected.  With a candidate every one of them is given one attempt and no
    other address any: the connection is that of the first attempt, in the order of
    completion, that succeeds and is not to a loopback address that is denied, and it
    fails only when there is none.  Without a candidate, or when the name does not
    resolve, it fails. *)
Theorem freedom_connect {Stream : Type} (open_connection : nat -> SocketAddr -> res ProxyError Stream) o dns lookup_host dest order :
  (forall i a, open_connection i a <> Panic) ->
  match endpoints dns lookup_host dest with
  | Ok all =>
      let candidates := filter (fun a => Is_true (allowed o dest a)) all in
      completion_order (length candidates) order ->
      exists tried, tried.*2 ≡ₚ candidates /\ tried.*1 = order /\
      match connect open_connection o dns lookup_host dest order with
      | Ok s => exists i a l r, tried = l ++ (i, a) :: r /\ denied o a = false /\ open_connection i a = Ok s /\
          forall j b s', (j, b) ∈ l -> open_connection j b = Ok s' -> denied o b = true
      | Err _ => forall i a s, (i, a) ∈ tried -> open_connection i a = Ok s -> denied o a = true
      | Panic => False
      end
  | Err _ => exists e, connect open_connection o dns lookup_host dest order = Err e
  | Panic => connect open_connection o dns lookup_host dest order = Panic
  end.
Proof.
  intros Hnp. pose proof (resolve_all_spec o dns lookup_host dest) as Hres. unfold connect.
  destruct (endpoints dns lookup_host dest) as [all|e|]; [|destruct Hres as [e' ->]; by eexists|by rewrite Hres].
  set (candidates := filter _ all) in *. intros [Hord _]. destruct candidates as [|c cs].
  { destruct Hres as [e ->]. exists []. cbn in Hord. symmetry in Hord. apply Permutation_nil in Hord as ->. split_and!; [done|done|]. by intros ??? ?%elem_of_nil. }
  rewrite Hres. cbn [mbind res_bind]. remember (c :: cs) as cands eqn:Hc.
  pose proof (ordered_perm o cands) as Hperm. rewrite <- Hperm in Hord.
  set (addrs := ordered_addrs o cands) in *. exists (numbered addrs order).
  assert (Hsnd : (numbered addrs order).*2 ≡ₚ cands).
  { by rewrite (numbered_perm _ _ Hord), imap_pair_snd. }
  split; [done|]. split; [by apply numbered_fst|].
  destruct (Nat.ltb_spec 1 (length addrs)) as [Hl|Hl].
  - unfold connect_happy_eyeballs. rewrite attempts_numbered. by apply attempts_spec.
  - assert (exists a, addrs = [a]) as [a Ha].
    { apply Permutation_length in Hperm. subst cands. destruct addrs as [|a [|? ?]]; cbn in *; [lia|by exists a|lia]. }
    rewrite Ha in *. symmetry in Hord. apply Permutation_length_1_inv in Hord as ->. by apply (attempts_spec open_connection Hnp o [(0%nat, a)]).
Qed.

(** A name with an IPv6 and an IPv4 address, the latter the loopback. *)
Definition two_addrs : list SocketAddr :=
  [mkSocketAddr (V4 [127; 0; 0; 1]) 443; mkSocketAddr (V6 (replicate 15 1 ++ [9])) 443].
Definition guarded : FreedomOutbound := mkFreedom true Auto false.

Lemma freedom_connect_witness :
  connect (fun _ a => Ok a) guarded None (fun _ _ => Ok two_addrs) (Domain [97] 443) [1%nat; 0%nat] = Ok (mkSocketAddr (V6 (replicate 15 1 ++ [9])) 443) /\
  exists tried, tried.*2 ≡ₚ two_addrs /\ tried.*1 = [1%nat; 0%nat] /\
    exists i l r, tried = l ++ (i, mkSocketAddr (V6 (replicate 15 1 ++ [9])) 443) :: r.
Proof.
  split; [reflexivity|].
  destruct (freedom_connect (fun _ a => Ok a) guarded None (fun _ _ => Ok two_addrs) (Domain [97] 443) [1%nat; 0%nat])
    as (tried & Hp & Ho & i & a & l & r & Ht & _ & [= ->] & _).
  - done.
  - split; [constructor|]. intros [|[|j]] i Hi; cbn in Hi; simplify_eq; unfold HAPPY_EYEBALLS_MAX_CONCURRENT; lia.
  - exists tried. split; [exact Hp|]. split; [exact Ho|]. exists i, l, r. exact Ht.
Defined.

(** "Use the resolved IP order": the addresses are interleaved all the same. *)
Lemma use_ip_reorders : exists addrs, ordered_addrs (mkFreedom false UseIp false) addrs <> addrs.
Proof. exists (reverse two_addrs). vm_compute. discriminate. Qed.

(** The loopback of the IPv4 space as an IPv4-mapped IPv6 address is dialled although
    loopback is denied. *)
Lemma mapped_loopback_dialled {Stream} (open_connection : nat -> SocketAddr -> res ProxyError Stream) dns lookup_host port order :
  let dest := Ipv6 (replicate 10 0 ++ [255; 255; 127; 0; 0; 1]) port in
  connect open_connection guarded dns lookup_host dest order =
  first_success None [open_connection 0%nat (mkSocketAddr (V6 (replicate 10 0 ++ [255; 255; 127; 0; 0; 1])) port)] no_endpoints.
Proof. reflexivity. Qed.

(** UDP to the loopback is sent although loopback is denied. *)
Lemma udp_loopback_sent {Reply} (exchange : SocketAddr -> res ProxyError Reply) dns lookup_host port reply :
  exchange (mkSocketAddr (V4 [127; 0; 0; 1]) port) = Ok reply ->
  udp_roundtrip exchange guarded dns lookup_host (Ipv4 [127; 0; 0; 1] port) = Ok reply.
Proof. intros H. cbn. by rewrite H. Qed.

(** ** Sums over pools and threads *)

Definition zsum {A} (f : A -> Z) (l : list A) : Z := foldr (fun x acc => f x + acc) 0 l.
Arguments zsum {A} f l : simpl never.

Lemma zsum_nil {A} (f : A -> Z) : zsum f [] = 0.
Proof. done. Qed.

Lemma zsum_cons {A} (f : A -> Z) x l : zsum f (x :: l) = f x + zsum f l.
Proof. done. Qed.

Lemma zsum_app {A} (f : A -> Z) l l' : zsum f (l ++ l') = zsum f l + zsum f l'.
Proof. induction l as [|x l IH]; [done|]. rewrite <- app_comm_cons, !zsum_cons. lia. Qed.

Lemma zsum_insert {A} (f : A -> Z) l n x y : l !! n = Some x -> zsum f (<[n := y]> l) = zsum f l - f x + f y.
Proof.
  intros (l1 & l2 & -> & ->)%list_elem_of_split_length.
  rewrite (insert_app_r_alt _ _ _ _ (Nat.le_refl _)), Nat.sub_diag. cbn [insert list_insert]. rewrite !zsum_app, !zsum_cons. lia.
Qed.

Lemma zsum_nonneg {A} (f : A -> Z) l : (forall x, 0 <= f x) -> 0 <= zsum f l.
Proof. intros Hf. induction l as [|x l IH]; [done|]. rewrite zsum_cons. specialize (Hf x). lia. Qed.

Lemma zsum_lookup {A} (f : A -> Z) l n x : (forall x, 0 <= f x) -> l !! n = Some x -> f x <= zsum f l.
Proof.
  intros Hf (l1 & l2 & -> & _)%list_elem_of_split_length.
  rewrite zsum_app, zsum_cons. pose proof (zsum_nonneg f l1 Hf). pose proof (zsum_nonneg f l2 Hf). lia.
Qed.

Lemma zsum_two {A} (f : A -> Z) l n m x y :
  (forall x, 0 <= f x) -> n <> m -> l !! n = Some x -> l !! m = Some y -> f x + f y <= zsum f l.
Proof.
  intros Hf Hnm. revert n m Hnm. induction l as [|z l IH]; intros [|n] [|m] Hnm Hx Hy; cbn in Hx, Hy; simplify_eq; rewrite zsum_cons.
  - pose proof (zsum_lookup f l m y Hf Hy). lia.
  - pose proof (zsum_lookup f l n x Hf Hx). lia.
  - pose proof (Hf z). assert (Hne : n <> m) by congruence. specialize (IH n m Hne Hx Hy). lia.
Qed.

(** ** Sockets *)

(** How often the socket [x] is in a queue. *)
Definition occ (x : nat) (q : list (nat * Z)) : Z := zsum (fun e => if decide (e.1 = x) then 1 else 0) q.

Lemma occ_nonneg x q : 0 <= occ x q.
Proof. apply zsum_nonneg. intros e. by case_decide. Qed.

Lemma occ_elem x q : x ∈ q.*1 <-> 1 <= occ x q.
Proof.
  induction q as [|[y t] q IH]; [split; [by intros ?%elem_of_nil|unfold occ; rewrite zsum_nil; lia]|]. rewrite fmap_cons, elem_of_cons, IH. pose proof (occ_nonneg x q).
  unfold occ in *. rewrite zsum_cons. cbn. case_decide; naive_solver lia.
Qed.

Definition held (t : thread) : option nat :=
  match t with
  | Stale _ _ o | Replenish _ o | HaveCap _ _ o | HaveIdle _ _ _ o | Reserve _ _ o | Spawning _ _ o | Leave o => o
  | Pooled s => Some s
  | _ => None
  end.

(** The destination a thread works on. *)
Definition tid (t : thread) : option nat :=
  match t with
  | Record_ id | Take id | Stale id _ _ | Replenish id _ | HaveCap id _ _ | HaveIdle id _ _ _ | Reserve id _ _
  | Spawning id _ _ | Refill id | Landed id => Some id
  | _ => None
  end.

Definition one (o : option nat) (x : nat) : Z := if decide (o = Some x) then 1 else 0.
Definition holds (x : nat) (at_ : SocketAddr * thread) : Z := one (held at_.2) x.
Definition is_some (o : option nat) : Z := match o with Some _ => 1 | None => 0 end.

Lemma one_nonneg o x : 0 <= one o x.
Proof. unfold one. by case_decide. Qed.

Lemma holds_nonneg x a : 0 <= holds x a.
Proof. apply one_nonneg. Qed.

Lemma take_live_spec ttl now alive q stale taken stale' q' :
  take_live ttl now alive q stale = (taken, stale', q') ->
  stale <= stale' /\ zlen q = zlen q' + (stale' - stale) + is_some taken /\
  (forall x, occ x q' + one taken x <= occ x q).
Proof.
  revert stale. induction q as [|[s t] q IH]; intros stale H; cbn in H.
  - injection H as <- <- <-. unfold occ, one, zlen. split_and!; [cbn; lia..|]. intros x. by rewrite zsum_nil.
  - assert (Hskip : take_live ttl now alive q (stale + 1) = (taken, stale', q') ->
      stale <= stale' /\ zlen ((s, t) :: q) = zlen q' + (stale' - stale) + is_some taken /\
      (forall x, occ x q' + one taken x <= occ x ((s, t) :: q))).
    { intros (Hs & Hl & Ho)%IH. split_and!; [lia|unfold zlen in *; cbn [length]; lia|]. intros x. specialize (Ho x).
      unfold occ in *. rewrite zsum_cons. cbn. case_decide; lia. }
    destruct (ttl <? Z.max 0 (now - t)); [by apply Hskip|]. destruct (alive s); [|by apply Hskip].
    injection H as <- <- <-. unfold zlen, is_some, occ, one. cbn [length]. split_and!; [lia..|]. intros x. rewrite zsum_cons. cbn.
    repeat case_decide; simplify_eq; lia.
Qed.

Record pool_le (p p' : AdaptivePool) : Prop := {
  le_pools : forall id d, pools p !! id = Some d -> exists d', pools p' !! id = Some d' /\ dp_addr d' = dp_addr d;
  le_peers : peers p `prefix_of` peers p'
}.

Definition thread_ok (p : AdaptivePool) (at_ : SocketAddr * thread) : Prop :=
  (forall id, tid at_.2 = Some id -> exists d, pools p !! id = Some d /\ dp_addr d = at_.1) /\
  (forall x, held at_.2 = Some x -> peers p !! x = Some at_.1).

Lemma thread_ok_mono p p' at_ : pool_le p p' -> thread_ok p at_ -> thread_ok p' at_.
Proof.
  intros [Hd Hp] [Ht Hh]. split.
  - intros id (d & Hid & Ha)%Ht. destruct (Hd id d Hid) as (d' & Hd' & He). exists d'. by rewrite He.
  - intros x Hx%Hh. by eapply prefix_lookup_Some.
Qed.

Lemma pool_le_refl p : pool_le p p.
Proof. split; [eauto|done]. Qed.

Lemma pool_le_insert p p' id d d' :
  pools p !! id = Some d -> dp_addr d' = dp_addr d -> pools p' = <[id := d']> (pools p) -> peers p `prefix_of` peers p' -> pool_le p p'.
Proof.
  intros Hd Ha Hp Hpre. split; [|done]. intros j e He. rewrite Hp. destruct (decide (j = id)) as [->|Hne].
  - exists d'. rewrite list_lookup_insert_eq by (by eapply lookup_lt_Some). split; [done|]. congruence.
  - exists e. by rewrite list_lookup_insert_ne.
Qed.

Lemma pool_le_same p p' : pools p' = pools p -> peers p `prefix_of` peers p' -> pool_le p p'.
Proof. intros Hp Hpre. split; [|done]. rewrite Hp. eauto. Qed.

Lemma try_take_spec ttl now alive d d' taken stale :
  try_take ttl now alive d = (d', (taken, stale)) ->
  dp_addr d' = dp_addr d /\ 0 <= stale /\ zlen (idle d) = zlen (idle d') + stale + is_some taken /\
  (forall x, occ x (idle d') + one taken x <= occ x (idle d)) /\ in_flight d' = in_flight d.
Proof.
  unfold try_take. destruct (take_live _ _ _ _ _) as [[o n] q] eqn:E. intros [= <- <- <-]. apply take_live_spec in E as (Hs & Hl & Ho).
  cbn. split_and!; try done; lia.
Qed.

Lemma record_keeps now m h d :
  dp_addr (record_and_cap now m h d).1 = dp_addr d /\ idle (record_and_cap now m h d).1 = idle d /\ in_flight (record_and_cap now m h d).1 = in_flight d.
Proof. unfold record_and_cap. by destruct (record_and_get now (hotness d)). Qed.

Lemma step_le p addr t p' t' sp : thread_step p addr t p' t' sp -> pool_le p p'.
Proof.
  intros H. inversion H; subst; try apply pool_le_refl.
  all: try (apply pool_le_same; [repeat case_match; done|repeat case_match; done]).
  - split; [|done]. intros id d Hd. exists d. split; [|done]. cbn. by apply lookup_app_l_Some.
  - eapply pool_le_insert; [done| |done..]. apply record_keeps.
  - eapply pool_le_insert; [done| |done..]. by eapply try_take_spec.
  - eapply pool_le_insert; [done| |reflexivity|done]; done.
  - unfold refill_landed. cbn. case_match; [eapply pool_le_insert; [done| |reflexivity|]|apply pool_le_same]; try done; cbn; by apply prefix_app_r.
  - eapply pool_le_insert; [done| |reflexivity|done]; done.
Qed.

Record pool_ok (p : AdaptivePool) : Prop := {
  po_dests : forall key id, dests p !! key = Some id -> exists d, pools p !! id = Some d /\ dp_addr d = key;
  po_idle : forall id d x, pools p !! id = Some d -> x ∈ (idle d).*1 -> peers p !! x = Some (dp_addr d)
}.

Lemma pool_ok_same p p' : pools p' = pools p -> peers p' = peers p -> (forall k i, dests p' !! k = Some i -> dests p !! k = Some i) -> pool_ok p -> pool_ok p'.
Proof. intros Hp Hpe Hd [H1 H2]. split; rewrite Hp; [eauto|]. rewrite Hpe. eauto. Qed.

(** A change of one destination that adds no socket but those connected to its address. *)
Lemma pool_ok_insert p p' id d d' :
  pools p !! id = Some d -> dp_addr d' = dp_addr d -> pools p' = <[id := d']> (pools p) -> dests p' = dests p -> peers p `prefix_of` peers p' ->
  (forall x, x ∈ (idle d').*1 -> x ∈ (idle d).*1 \/ peers p' !! x = Some (dp_addr d)) -> pool_ok p -> pool_ok p'.
Proof.
  intros Hd Ha Hp Hde Hpre Hidle [H1 H2]. pose proof (pool_le_insert p p' id d d' Hd Ha Hp Hpre) as [Hle _]. split.
  - rewrite Hde. intros key j (e & He & <-)%H1. destruct (Hle j e He) as (e' & He' & Hae). by exists e'.
  - intros j e x He Hx. rewrite Hp in He. destruct (decide (j = id)) as [->|Hne].
    + rewrite list_lookup_insert_eq in He by (by eapply lookup_lt_Some). injection He as <-. rewrite Ha.
      destruct (Hidle x Hx) as [Hin|]; [|done]. eapply prefix_lookup_Some; eauto.
    + rewrite list_lookup_insert_ne in He by done. eapply prefix_lookup_Some; eauto.
Qed.

Lemma pool_step_ok p addr t p' t' sp :
  pool_ok p -> thread_ok p (addr, t) -> thread_step p addr t p' t' sp ->
  pool_ok p' /\ thread_ok p' (addr, t') /\ (forall r, sp = Some r -> thread_ok p' (addr, r)).
Proof.
  intros Hok Hth Hst. pose proof (thread_ok_mono p p' (addr, t) (step_le _ _ _ _ _ _ Hst) Hth) as Hth'.
  assert (Hkeep : held t' = held t -> (forall id, tid t' = Some id -> tid t = Some id) -> thread_ok p' (addr, t')).
  { intros Hh Ht. destruct Hth' as [H1 H2]. split; cbn in *; [eauto|]. rewrite Hh. eauto. }
  assert (Hget : forall id, dests p !! addr = Some id -> thread_ok p (addr, Record_ id)).
  { intros id Hid. destruct (po_dests p Hok addr id Hid) as (d & Hd & Ha). split; cbn; [|done]. intros ? [= <-]. eauto. }
  inversion Hst; subst.
  all: try (split_and!; [done|first [by apply Hget|apply Hkeep; by repeat case_match]|done]).
  all: try (split_and!; [apply (pool_ok_same p); [by repeat case_match..|by repeat case_match|done]|apply Hkeep; by repeat case_match|done]).
  - split_and!; [|by apply Hkeep|done]. apply (pool_ok_same p); try done. cbn. by intros k i [_ ?]%lookup_delete_Some.
  - split_and!; [|split; cbn; [|done]|done].
    + destruct Hok as [H1 H2]. split; cbn.
      * intros key j [[<- <-]|[Hne Hj]]%lookup_insert_Some; [exists (DestPool_new addr (hotness_window (config p)) now); by rewrite list_lookup_middle|].
        destruct (H1 key j Hj) as (d & Hd & Ha). exists d. split; [by apply lookup_app_l_Some|done].
      * intros j d x [Hj|[Hj Hd]]%lookup_app_Some; [by eauto|]. destruct (j - length (pools p))%nat; cbn in Hd; [|done].
        injection Hd as <-. by intros ?%elem_of_nil.
    + intros ? [= <-]. exists (DestPool_new addr (hotness_window (config p)) now). by rewrite list_lookup_middle.
  - split_and!; [|by apply Hkeep|done]. destruct (record_keeps now (max_per_dest (config p)) (min_hotness_for_pool (config p)) d) as (Ha & Hi & _).
    eapply pool_ok_insert; [done| |reflexivity| | | |]; try done. rewrite Hi. auto.
  - match goal with H : try_take _ _ _ _ = _ |- _ => apply try_take_spec in H as (Ha & _ & _ & Ho & _) end.
    split_and!; [| |done].
    + eapply pool_ok_insert; [done| |reflexivity| | | |]; try done. intros x Hx%occ_elem. left. apply occ_elem.
      specialize (Ho x). unfold one in Ho. case_decide; lia.
    + destruct Hth' as [H1 _]. split; cbn; [exact H1|]. intros x ->. destruct Hth as [H2 _]. destruct (H2 id eq_refl) as (e & He & Hae).
      cbn in Hae. subst addr. simplify_eq. eapply po_idle; [done|done|]. apply occ_elem. specialize (Ho x). unfold one in Ho.
      rewrite decide_True in Ho by done. pose proof (occ_nonneg x (idle d')). lia.
  - split_and!; [|by apply Hkeep|].
    + eapply pool_ok_insert; [done| |reflexivity| | | |]; try done. auto.
    + intros r [= <-]. destruct Hth' as [H1 _]. split; [exact H1|done].
  - split_and!; [|by apply Hkeep|done]. unfold refill_landed. cbn. case_match.
    + eapply pool_ok_insert; [done| |reflexivity| | | |]; try done; [by apply prefix_app_r|]. cbn. intros x. rewrite fmap_app, elem_of_app. cbn.
      intros [Hx|Hx%list_elem_of_singleton]; [by left|]. subst x. right. by rewrite list_lookup_middle.
    + destruct Hok as [H1 H2]. split; cbn; [done|]. intros j e x He Hx. apply lookup_app_l_Some. eauto.
  - split_and!; [|by apply Hkeep|done]. eapply pool_ok_insert; [done| |reflexivity| | | |]; try done. auto.
Qed.

(** How often the socket [x] is idle; whether [x] has been made, or is made by a step. *)
Definition pcount (x : nat) (p : AdaptivePool) : Z := zsum (fun d => occ x (idle d)) (pools p).
Definition made (x : nat) (p : AdaptivePool) : Z := if decide (x < length (peers p))%nat then 1 else 0.

Lemma one_none x : one None x = 0.
Proof. done. Qed.

Lemma no_spawn x (addr : SocketAddr) : zsum (holds x) ((fun r => (addr, r)) <$> option_list None) = 0.
Proof. done. Qed.

Lemma refill_holds x (addr : SocketAddr) id : zsum (holds x) ((fun r => (addr, r)) <$> option_list (Some (Refill id))) = 0.
Proof. done. Qed.

(** A step moves a socket, drops it or makes a new one; it never copies one. *)
Lemma step_count x p addr t p' t' sp :
  thread_step p addr t p' t' sp ->
  pcount x p' + one (held t') x + zsum (holds x) ((fun r => (addr, r)) <$> option_list sp) + made x p <= pcount x p + one (held t) x + made x p'.
Proof.
  intros H.
  assert (Hsame : pools p' = pools p -> peers p' = peers p -> held t' = held t -> sp = None ->
    pcount x p' + one (held t') x + zsum (holds x) ((fun r => (addr, r)) <$> option_list sp) + made x p <= pcount x p + one (held t) x + made x p').
  { unfold pcount, made. intros -> -> -> ->. rewrite no_spawn. lia. }
  inversion H; subst; try (apply Hsame; by repeat case_match). all: clear Hsame; unfold pcount; rewrite ?no_spawn, ?refill_holds.
  - cbn [pools]. rewrite zsum_app, zsum_cons, zsum_nil. unfold made, occ. cbn. rewrite zsum_nil. lia.
  - cbn [pools with_pools]. destruct (record_keeps now (max_per_dest (config p)) (min_hotness_for_pool (config p)) d) as (_ & Hi & _).
    erewrite zsum_insert by done. rewrite Hi. unfold made. cbn [peers held with_pools]. lia.
  - cbn [pools with_pools]. erewrite zsum_insert by done.
    match goal with H : try_take _ _ _ _ = _ |- _ => apply try_take_spec in H as (_ & _ & _ & Ho & _) end.
    specialize (Ho x). unfold made. cbn [held peers with_pools]. rewrite one_none. lia.
  - cbn [pools with_pools]. erewrite zsum_insert by done. unfold made. cbn [held in_flight_add idle with_pools peers]. lia.
  - unfold refill_landed. cbn [config]. case_match; cbn [pools with_pools].
    + erewrite zsum_insert by done. cbn [push_idle idle held]. unfold occ. rewrite zsum_app, zsum_cons, zsum_nil. unfold made. cbn. rewrite length_app. cbn.
      repeat case_decide; lia.
    + unfold made. cbn [pools add_global peers held]. rewrite length_app. cbn [length]. repeat case_decide; lia.
  - cbn [pools with_pools]. erewrite zsum_insert by done. unfold made. cbn [held in_flight_add idle with_pools peers]. lia.
Qed.

(** Every socket is in one place. *)
Record sock_inv (s : System) : Prop := {
  sk_pool : pool_ok (pool s);
  sk_threads : Forall (thread_ok (pool s)) (threads s);
  sk_count : forall x, pcount x (pool s) + zsum (holds x) (threads s) <= made x (pool s)
}.

Lemma sock_inv_step s s' : sock_inv s -> sys_step s s' -> sock_inv s'.
Proof.
  intros [Hp Ht Hc] Hst. inversion Hst as [addr|n addr t p' t' sp Hn Hstep]; subst; cbn.
  - split; cbn; [done| |].
    + apply Forall_app. split; [done|]. apply Forall_singleton. split; cbn; naive_solver.
    + intros x. rewrite zsum_app, zsum_cons, zsum_nil. specialize (Hc x). unfold holds at 2. cbn [snd held]. rewrite one_none. lia.
  - pose proof (Forall_lookup_1 _ _ _ _ Ht Hn) as Htn. destruct (pool_step_ok _ _ _ _ _ _ Hp Htn Hstep) as (Hp' & Ht' & Hsp). split; cbn; [done| |].
    + apply Forall_app. split.
      * apply Forall_insert; [|done]. eapply Forall_impl; [exact Ht|]. intros at_. apply thread_ok_mono. by eapply step_le.
      * destruct sp as [r|]; cbn; [|done]. apply Forall_singleton. by apply Hsp.
    + intros x. rewrite zsum_app, (zsum_insert _ _ _ _ _ Hn). specialize (Hc x). pose proof (step_count x _ _ _ _ _ _ Hstep). unfold holds in *. cbn in *. lia.
Qed.

Lemma reachable_sock cfg s : reachable cfg s -> sock_inv s.
Proof.
  unfold reachable. intros H. assert (Hs : sock_inv (start cfg)) by (split; cbn; [split; cbn; set_solver|done|by intros x]).
  revert Hs. induction H as [|s1 s2 s3 Hst _ IH]; eauto using sock_inv_step.
Qed.

(** C18. Whatever connections, refills, failures and evictions are interleaved: the
    pooled socket a connection is given is connected to the address it asked for, is
    given to no other connection, and is in no queue of the pool. *)
Theorem freedom_pool_sockets cfg s n addr x :
  reachable cfg s -> threads s !! n = Some (addr, Pooled x) ->
  peers (pool s) !! x = Some addr /\
  (forall m addr' t, m <> n -> threads s !! m = Some (addr', t) -> held t <> Some x) /\
  (forall id d, pools (pool s) !! id = Some d -> x ∉ (idle d).*1).
Proof.
  intros [Hp Ht Hc]%reachable_sock Hn. specialize (Hc x). unfold made in Hc.
  pose proof (holds_nonneg x) as Hh.
  pose proof (Forall_lookup_1 _ _ _ _ Ht Hn) as [_ Htn].
  assert (Hone : holds x (addr, Pooled x) = 1) by (unfold holds, one; cbn; by rewrite decide_True).
  assert (Hq : forall d, 0 <= occ x (idle d)) by (intros; apply occ_nonneg).
  pose proof (zsum_nonneg _ (pools (pool s)) Hq). pose proof (zsum_lookup _ _ _ _ Hh Hn). unfold pcount in Hc.
  split; [by apply Htn|]. split.
  - intros m addr' t Hm Hl Ht'. pose proof (zsum_two _ _ _ _ _ _ Hh Hm Hl Hn) as Htwo.
    assert (Ho : holds x (addr', t) = 1) by (unfold holds, one; cbn; by rewrite decide_True). destruct (decide _) in Hc; lia.
  - intros id d Hd Hin%occ_elem. pose proof (zsum_lookup _ _ _ _ Hq Hd). cbn in *. destruct (decide _) in Hc; lia.
Qed.

(** ** Budget *)

(** The slots of the budget a thread stands for: stale sockets it has yet to give back,
    the socket it has taken, refills it has reserved. *)
Definition owed (t : thread) : Z :=
  match t with
  | Stale _ n o => n + is_some o
  | Replenish _ o | HaveCap _ _ o | HaveIdle _ _ _ o | Reserve _ _ o | Leave o => is_some o
  | Spawning _ n o => Z.of_nat n + is_some o
  | Refill _ => 1
  | _ => 0
  end.

Definition owed_at (at_ : SocketAddr * thread) : Z := owed at_.2.
Definition idle_total (p : AdaptivePool) : Z := zsum (fun d => zlen (idle d)) (pools p).

Definition evicting (t : thread) : bool := match t with Scan | Evict _ | Removed _ | Drained _ => true | _ => false end.
Definition counts_ok (t : thread) : Prop := match t with Stale _ n _ | Reserve _ n _ => 0 <= n | _ => True end.

Lemma is_some_nonneg o : 0 <= is_some o.
Proof. by destruct o. Qed.

Lemma owed_nonneg t : counts_ok t -> 0 <= owed t.
Proof. destruct t; cbn; try lia; intros; try (pose proof (is_some_nonneg taken); lia). Qed.

Definition plain (s : System) : Prop := Forall (fun at_ => evicting at_.2 = false /\ counts_ok at_.2) (threads s).

Lemma owed_sum_nonneg s : plain s -> 0 <= zsum owed_at (threads s).
Proof.
  unfold plain. induction 1 as [|a l [_ Ha] _ IH]; [done|]. rewrite zsum_cons. apply owed_nonneg in Ha. unfold owed_at at 1. lia.
Qed.

(** One step keeps the balance of the budget. *)
Lemma step_budget p addr t p' t' sp :
  evicting t = false -> evicting t' = false -> counts_ok t -> thread_step p addr t p' t' sp ->
  global_idle p' - idle_total p' - owed t' - zsum owed_at ((fun r => (addr, r)) <$> option_list sp) = global_idle p - idle_total p - owed t /\
  counts_ok t' /\ (global_idle p <= max_global_idle (config p) -> global_idle p' <= max_global_idle (config p)) /\ config p' = config p.
Proof.
  intros Hev Hev' Hok Hst. unfold idle_total.
  assert (Hnone : zsum owed_at ((fun r => (addr, r)) <$> option_list None) = 0) by done.
  inversion Hst; subst; try done; rewrite ?Hnone; cbn [owed counts_ok] in *.
  all: try (split_and!; [lia|done|done|done]).
  all: try (cbn [pools with_pools global_idle config]; erewrite zsum_insert by done).
  all: try (split_and!; [repeat case_match; bool_hyps; cbn; lia|by repeat case_match|repeat case_match; bool_hyps; cbn; lia|by repeat case_match]).
  - cbn [pools global_idle config]. rewrite zsum_app, zsum_cons, zsum_nil. change (zlen (idle (DestPool_new _ _ _))) with 0. split_and!; [lia|done|done|done].
  - match goal with H : try_take _ _ _ _ = _ |- _ => apply try_take_spec in H as (_ & Hn & Hl & _ & _) end.
    split_and!; [lia|done|done|done].
  - destruct (Z.eqb_spec needed 0) as [He|He]; cbn; split_and!; try done; unfold needed, global_budget; lia.
  - change (zsum owed_at _) with 1. cbn [in_flight_add idle]. split_and!; [lia|done|done|done].
  - unfold refill_landed. cbn [config]. destruct (zlen (idle d) <? max_per_dest (config p)); cbn [pools with_pools global_idle config add_global].
    + erewrite zsum_insert by done. cbn [push_idle idle]. rewrite zlen_app. change (zlen [_]) with 1. split_and!; [lia|done|done|done].
    + split_and!; [lia|done|lia|done].
Qed.

Definition asked (s : System) : gset SocketAddr := list_to_set (threads s).*1.

Record budget_inv (cfg : PoolConfig) (s : System) : Prop := {
  bi_config : config (pool s) = cfg;
  bi_plain : plain s;
  bi_dests : dom (dests (pool s)) ⊆ asked s;
  bi_balance : global_idle (pool s) = idle_total (pool s) + zsum owed_at (threads s);
  bi_global : global_idle (pool s) <= max_global_idle cfg;
  bi_idle : Forall (fun d => zlen (idle d) <= Z.max 0 (max_per_dest cfg)) (pools (pool s))
}.

Lemma asked_step s s' : sys_step s s' -> asked s ⊆ asked s'.
Proof.
  intros Hst. unfold asked. inversion Hst as [addr|n addr t p' t' sp Hn _]; subst; cbn; rewrite fmap_app, list_to_set_app_L; [set_solver|].
  rewrite list_fmap_insert. cbn. rewrite list_insert_id; [set_solver|]. by rewrite list_lookup_fmap, Hn.
Qed.

Lemma step_idle p addr t p' t' sp :
  thread_step p addr t p' t' sp -> Forall (fun d => zlen (idle d) <= Z.max 0 (max_per_dest (config p))) (pools p) ->
  Forall (fun d => zlen (idle d) <= Z.max 0 (max_per_dest (config p))) (pools p').
Proof.
  intros Hst Hf. inversion Hst; subst; try done; try (by repeat case_match); cbn [pools with_pools].
  - apply Forall_app. split; [done|]. apply Forall_singleton. unfold zlen. cbn. lia.
  - apply Forall_insert; [done|]. destruct (record_keeps now (max_per_dest (config p)) (min_hotness_for_pool (config p)) d) as (_ & -> & _).
    by eapply (Forall_lookup_1 _ _ _ _ Hf).
  - apply Forall_insert; [done|]. match goal with H : try_take _ _ _ _ = _ |- _ => apply try_take_spec in H as (_ & Hn & Hl & _ & _) end.
    match goal with H : pools p !! id = Some d |- _ => pose proof (Forall_lookup_1 _ _ _ _ Hf H) end. pose proof (is_some_nonneg taken). cbn in *. lia.
  - apply Forall_insert; [done|]. exact (Forall_lookup_1 _ _ _ _ Hf ltac:(eassumption)).
  - unfold refill_landed. cbn [config]. destruct (Z.ltb_spec (zlen (idle d)) (max_per_dest (config p))); cbn; [|done].
    apply Forall_insert; [done|]. cbn. rewrite zlen_app. change (zlen [_]) with 1. lia.
  - apply Forall_insert; [done|]. exact (Forall_lookup_1 _ _ _ _ Hf ltac:(eassumption)).
Qed.

Lemma step_dests p addr t p' t' sp : thread_step p addr t p' t' sp -> dom (dests p') ⊆ dom (dests p) ∪ {[addr]}.
Proof.
  intros Hst. inversion Hst; subst; cbn [dests with_pools]; try (by apply union_subseteq_l); try (repeat case_match; by apply union_subseteq_l).
  - rewrite dom_delete_L. set_solver.
  - rewrite dom_insert_L. set_solver.
  - unfold refill_landed. cbn. case_match; cbn; set_solver.
Qed.

(** With fewer destinations than the pool keeps, nothing is ever evicted. *)
Lemma step_no_evict p addr t p' t' sp :
  thread_step p addr t p' t' sp -> evicting t = false -> Z.of_nat (size (dests p)) < max_dests (config p) ->
  evicting t' = false /\ (forall r, sp = Some r -> evicting r = false /\ counts_ok r).
Proof.
  intros Hst Hev Hsz. inversion Hst; subst; try done; split; try done; try (by repeat case_match).
  - destruct (Z.leb_spec (max_dests (config p')) (Z.of_nat (size (dests p')))); [lia|done].
  - intros r [= <-]. done.
Qed.

Lemma budget_inv_step cfg s s' :
  Z.of_nat (size (asked s)) < max_dests cfg -> budget_inv cfg s -> sys_step s s' -> budget_inv cfg s'.
Proof.
  intros Hsz [Hcfg Hpl Hdom Hbal Hglob Hidle] Hst. pose proof (asked_step _ _ Hst) as Hask. rewrite <- Hcfg in Hsz.
  inversion Hst as [addr|n addr t p' t' sp Hn Hstep]; subst.
  - split; cbn; try done; [apply Forall_app; split; [done|by apply Forall_singleton]|set_solver|].
    rewrite zsum_app, zsum_cons, zsum_nil. cbn. unfold owed_at in *. cbn. lia.
  - unfold plain in Hpl. pose proof (Forall_lookup_1 _ _ _ _ Hpl Hn) as [Hev Hok]. cbn in Hev, Hok.
    assert (Hsmall : Z.of_nat (size (dests (pool s))) < max_dests (config (pool s))).
    { pose proof (subseteq_size _ _ Hdom). rewrite size_dom in *. lia. }
    destruct (step_no_evict _ _ _ _ _ _ Hstep Hev Hsmall) as [Hev' Hsp].
    destruct (step_budget _ _ _ _ _ _ Hev Hev' Hok Hstep) as (Hb & Hok' & Hg & Hc). split; cbn.
    + done.
    + apply Forall_app. split; [by apply Forall_insert|]. destruct sp as [r|]; cbn; [|done]. apply Forall_singleton. by apply Hsp.
    + etrans; [by eapply step_dests|]. apply union_subseteq. split; [set_solver|]. apply singleton_subseteq_l, Hask.
      unfold asked. apply elem_of_list_to_set, list_elem_of_fmap. exists (addr, t). split; [done|]. by eapply list_elem_of_lookup_2.
    + rewrite zsum_app, (zsum_insert _ _ _ _ _ Hn). unfold owed_at at 2 3. cbn [snd]. lia.
    + by apply Hg.
    + by eapply step_idle.
Qed.

Lemma reachable_budget cfg s :
  reachable cfg s -> 0 <= max_global_idle cfg -> Z.of_nat (size (asked s)) < max_dests cfg -> budget_inv cfg s.
Proof.
  intros Hr Hmax. revert s Hr. refine (rtc_ind_r (fun s => Z.of_nat (size (asked s)) < max_dests cfg -> budget_inv cfg s) _ _ _).
  - intros _. split; cbn; try done. by constructor.
  - intros s s' _ Hst IH Hsz. eapply budget_inv_step; [|apply IH|done].
    all: pose proof (subseteq_size _ _ (asked_step _ _ Hst)); lia.
Qed.

Definition settled (t : thread) : bool := match t with Pooled _ | Dial | Over => true | _ => false end.

Lemma settled_owed s : Forall (fun at_ => settled at_.2 = true) (threads s) -> zsum owed_at (threads s) = 0.
Proof. induction 1 as [|[a t] l Ha _ IH]; [done|]. rewrite zsum_cons, IH. by destruct t. Qed.

(** C19. As long as fewer destinations than [max_dests] have been asked for, in every
    interleaving: the idle and reserved sockets never exceed [max_global_idle], the
    counter is exactly the idle sockets plus what the threads hold or have reserved, no
    destination keeps more than [max_per_dest] idle sockets, and once all connections and
    refills are over the counter is the number of idle sockets. *)
Theorem freedom_pool_bounded cfg s :
  reachable cfg s -> 0 <= max_global_idle cfg -> Z.of_nat (size (asked s)) < max_dests cfg ->
  global_idle (pool s) = idle_total (pool s) + zsum owed_at (threads s) /\
  0 <= idle_total (pool s) <= global_idle (pool s) /\ global_idle (pool s) <= max_global_idle cfg /\
  (forall id d, pools (pool s) !! id = Some d -> zlen (idle d) <= Z.max 0 (max_per_dest cfg)) /\
  (Forall (fun at_ => settled at_.2 = true) (threads s) -> global_idle (pool s) = idle_total (pool s)).
Proof.
  intros Hr Hmax Hsz. destruct (reachable_budget cfg s Hr Hmax Hsz) as [_ Hpl _ Hbal Hglob Hidle].
  pose proof (owed_sum_nonneg s Hpl). assert (0 <= idle_total (pool s)) by (apply zsum_nonneg; intros; unfold zlen; lia).
  split_and!; [done|lia|lia|done| |].
  - intros id d Hd. exact (Forall_lookup_1 _ _ _ _ Hidle Hd).
  - intros Hs%settled_owed. lia.
Qed.

(** ** Runs *)

Definition older (p : AdaptivePool) (id j : nat) : bool :=
  match pools p !! id, pools p !! j with Some d, Some e => last_used_ms d <=? last_used_ms e | _, _ => false end.

Definition scan (p : AdaptivePool) : option SocketAddr :=
  fst <$> List.find (fun kv => forallb (fun e => older p kv.2 e.2) (map_to_list (dests p))) (map_to_list (dests p)).

(** The next step of a thread at time [now]; a probe or a refill succeeds when [good]. *)
Definition thread_next (now : Z) (good : bool) (p : AdaptivePool) (addr : SocketAddr) (t : thread) :
    option (AdaptivePool * thread * option thread) :=
  let cfg := config p in
  match t with
  | Lookup => Some (p, match dests p !! addr with Some id => Record_ id | None => CheckLen end, None)
  | CheckLen => Some (p, if max_dests cfg <=? Z.of_nat (size (dests p)) then Scan else Insert, None)
  | Scan => match scan p with
      | Some key => Some (p, Evict key, None)
      | None => if decide (dests p = ∅) then Some (p, Insert, None) else None
      end
  | Evict key => match dests p !! key with
      | Some id => Some (mkPool cfg (delete key (dests p)) (pools p) (peers p) (global_idle p), Removed id, None)
      | None => Some (p, Insert, None)
      end
  | Removed id => d ← pools p !! id; Some (p, Drained (zlen (idle d)), None)
  | Drained n => Some (if 0 <? n then add_global p (- n) else p, Insert, None)
  | Insert => match dests p !! addr with
      | Some id => Some (p, Record_ id, None)
      | None =>
          Some (mkPool cfg (<[addr := length (pools p)]> (dests p)) (pools p ++ [DestPool_new addr (hotness_window cfg) now]) (peers p) (global_idle p),
                Record_ (length (pools p)), None)
      end
  | Record_ id =>
      d ← pools p !! id;
      Some (with_pools p (<[id := (record_and_cap now (max_per_dest cfg) (min_hotness_for_pool cfg) d).1]> (pools p)), Take id, None)
  | Take id =>
      d ← pools p !! id;
      let '(d', (taken, stale)) := try_take (idle_ttl cfg) now (fun _ => good) d in
      Some (with_pools p (<[id := d']> (pools p)), Stale id stale taken, None)
  | Stale id stale taken => Some (if 0 <? stale then add_global p (- stale) else p, Replenish id taken, None)
  | Replenish id taken => d ← pools p !! id; Some (p, HaveCap id (current_cap now (max_per_dest cfg) (min_hotness_for_pool cfg) d) taken, None)
  | HaveCap id cap taken => d ← pools p !! id; Some (p, HaveIdle id cap (zlen (idle d) + in_flight d) taken, None)
  | HaveIdle id cap used taken =>
      let needed := Z.min (Z.max (cap - used) 0) (Z.max (max_global_idle cfg - global_idle p) 0) in
      Some (p, if needed =? 0 then Leave taken else Reserve id needed taken, None)
  | Reserve id needed taken =>
      let want := Z.min needed (Z.max (max_global_idle cfg - global_idle p) 0) in
      Some (if want =? 0 then p else add_global p want, if want =? 0 then Leave taken else Spawning id (Z.to_nat want) taken, None)
  | Spawning id (S n) taken => d ← pools p !! id; Some (with_pools p (<[id := in_flight_add d 1]> (pools p)), Spawning id n taken, Some (Refill id))
  | Spawning id 0 taken => Some (p, Leave taken, None)
  | Leave (Some s) => Some (add_global p (-1), Pooled s, None)
  | Leave None => Some (p, Dial, None)
  | Refill id => if good then d ← pools p !! id; Some (refill_landed p id d now, Landed id, None) else Some (add_global p (-1), Landed id, None)
  | Landed id => d ← pools p !! id; Some (with_pools p (<[id := in_flight_add d (-1)]> (pools p)), Over, None)
  | Pooled _ | Dial | Over => None
  end.

Lemma scan_sound p key : scan p = Some key -> lru_key p key.
Proof.
  unfold scan. destruct (List.find _ _) as [[k id]|] eqn:E; [|done]. intros [= <-]. apply List.find_some in E as [Hin Hall].
  apply list_elem_of_In, elem_of_map_to_list in Hin. cbn in Hall. rewrite List.forallb_forall in Hall.
  assert (Hold : forall k' j, dests p !! k' = Some j -> older p id j = true).
  { intros k' j Hj. apply (Hall (k', j)). apply list_elem_of_In, elem_of_map_to_list. exact Hj. }
  pose proof (Hold _ _ Hin) as Hself. unfold older in Hself. destruct (pools p !! id) as [d|] eqn:Hd; [|done].
  exists id, d. split_and!; try done. intros k' j e Hj He. specialize (Hold _ _ Hj). unfold older in Hold. rewrite Hd, He in Hold.
  by apply Z.leb_le.
Qed.

Lemma next_inj {A B C} (a a' : A) (b b' : B) (c c' : C) : Some (a, b, c) = Some (a', b', c') -> a' = a /\ b' = b /\ c' = c.
Proof. by intros [= -> -> ->]. Qed.

Ltac next H := apply next_inj in H as (-> & -> & ->).

Lemma thread_next_sound now good p addr t p' t' sp :
  thread_next now good p addr t = Some (p', t', sp) -> thread_step p addr t p' t' sp.
Proof.
  assert (Hb : forall id (f : DestPool -> option (AdaptivePool * thread * option thread)), (pools p !! id ≫= f) = Some (p', t', sp) ->
    exists d, pools p !! id = Some d /\ f d = Some (p', t', sp)).
  { intros id f (d & Hd & Hf)%bind_Some. eauto. }
  destruct t; cbn [thread_next]; intros H; try apply Hb in H as (d & Hd & H); try done.
  all: try (next H; by econstructor).
  - next H. destruct (dests p !! addr) eqn:E; by constructor.
  - destruct (scan p) eqn:E; [next H; by apply st_scan, scan_sound|]. case_decide; [|done]. next H. by apply st_scan_none.
  - destruct (dests p !! key) eqn:E; next H; by constructor.
  - destruct (dests p !! addr) eqn:E; next H; by constructor.
  - destruct (try_take _ _ _ _) as [d' [taken stale]] eqn:E. next H. by eapply st_take.
  - destruct left; [next H; by constructor|]. apply Hb in H as (d & Hd & H). next H. by constructor.
  - destruct taken; next H; by constructor.
  - destruct good; [apply Hb in H as (d & Hd & H)|]; next H; by constructor.
Qed.

Definition sys_next (s : System) (ev : SocketAddr + nat * Z * bool) : option System :=
  match ev with
  | inl addr => Some (mkSystem (pool s) (threads s ++ [(addr, Lookup)]))
  | inr (n, now, good) =>
      at_ ← threads s !! n;
      r ← thread_next now good (pool s) at_.1 at_.2;
      Some (mkSystem r.1.1 (<[n := (at_.1, r.1.2)]> (threads s) ++ ((fun r => (at_.1, r)) <$> option_list r.2)))
  end.

Definition run (cfg : PoolConfig) : list (SocketAddr + nat * Z * bool) -> option System :=
  foldl (fun s ev => s ≫= fun s => sys_next s ev) (Some (start cfg)).

Lemma sys_next_sound s ev s' : sys_next s ev = Some s' -> sys_step s s'.
Proof.
  destruct ev as [addr|[[n now] good]]; cbn; [intros [= <-]; constructor|].
  intros ([addr t] & Hn & ([[p' t'] sp] & Hs & H)%bind_Some)%bind_Some. apply (inj Some) in H as <-. econstructor; [exact Hn|]. by eapply thread_next_sound.
Qed.

Lemma run_reachable cfg evs s : run cfg evs = Some s -> reachable cfg s.
Proof.
  unfold run, reachable. revert s. induction evs as [|ev evs IH] using rev_ind; intros s; cbn; [by intros [= <-]|].
  rewrite foldl_app. cbn. intros (s1 & Hs1 & Hs)%bind_Some. eapply rtc_r; [by apply IH|]. by eapply sys_next_sound.
Qed.

Definition steps (n : nat) (k : nat) (now : Z) : list (SocketAddr + nat * Z * bool) := replicate k (inr (n, now, true)).
Definition addr_a : SocketAddr := mkSocketAddr (V4 [192; 0; 2; 1]) 443.
Definition addr_b : SocketAddr := mkSocketAddr (V4 [192; 0; 2; 2]) 443.

Definition small (n : Z) : PoolConfig := mkConfig 1 1 n (5 * SECONDS) (10 * SECONDS) 1.

(** A connection, the refill it causes, and a second connection that gets its socket. *)
Definition reuse : list (SocketAddr + nat * Z * bool) :=
  [inl addr_a] ++ steps 0 13 0 ++ steps 1 2 0 ++ [inl addr_a] ++ steps 2 8 1.

Lemma freedom_pool_sockets_witness :
  exists s, run (small 2) reuse = Some s /\ threads s !! 2%nat = Some (addr_a, Pooled 0) /\ peers (pool s) !! 0%nat = Some addr_a.
Proof.
  eexists. split; [vm_compute; reflexivity|]. split; [reflexivity|].
  refine (proj1 (freedom_pool_sockets (small 2) _ 2 addr_a 0 _ _)); [|reflexivity].
  apply (run_reachable _ reuse). vm_compute. reflexivity.
Defined.

Lemma freedom_pool_bounded_witness :
  exists s, run (small 2) (take 16 reuse) = Some s /\ idle_total (pool s) = 1 /\ global_idle (pool s) <= 1.
Proof.
  eexists. split; [vm_compute; reflexivity|]. split; [vm_compute; reflexivity|].
  refine (proj1 (proj2 (proj2 (freedom_pool_bounded (small 2) _ _ _ _)))).
  - apply (run_reachable _ (take 16 reuse)). vm_compute. reflexivity.
  - cbn. lia.
  - vm_compute. reflexivity.
Defined.

(** A refill that completes after its destination has been evicted keeps its slot for
    ever: here all threads are done, no destination has an idle socket, and the whole
    budget is used up. *)
Lemma eviction_leaks_budget :
  exists s, reachable (small 1) s /\ Forall (fun at_ => settled at_.2 = true) (threads s) /\
    (forall key id d, dests (pool s) !! key = Some id -> pools (pool s) !! id = Some d -> idle d = [] /\ in_flight d = 0) /\
    global_idle (pool s) = max_global_idle (small 1).
Proof.
  destruct (run (small 1) ([inl addr_a] ++ steps 0 13 0 ++ [inl addr_b] ++ steps 2 14 1 ++ steps 1 2 1)) as [s|] eqn:E; [|by vm_compute in E].
  exists s. split; [by eapply run_reachable|]. vm_compute in E. apply (inj Some) in E as <-. cbn [pool threads dests pools global_idle].
  split; [by repeat constructor|]. split; [|done]. intros key id d Hk Hd.
  change (({[addr_b := 1%nat]} : gmap SocketAddr nat) !! key = Some id) in Hk.
  apply lookup_singleton_Some in Hk as [<- <-]. by injection Hd as <-.
Qed.

(** A connection that holds a destination while it is evicted gives its sockets back a
    second time: the counter goes below zero, and the limit is lifted by as much. *)
Lemma eviction_double_release : exists s, reachable (small 1) s /\ global_idle (pool s) = -1.
Proof.
  destruct (run (small 1) ([inl addr_a] ++ steps 0 13 0 ++ steps 1 2 0 ++ [inl addr_a] ++ steps 2 1 1 ++ [inl addr_b] ++ steps 3 7 1 ++ steps 2 3 (6 * SECONDS)))
    as [s|] eqn:E; [|by vm_compute in E].
  exists s. split; [by eapply run_reachable|]. vm_compute in E. by apply (inj Some) in E as <-.
Qed.
