(* ===== verification/TunTcp.v ===== *)
(** * TCP over TUN

    [blackwire-transport] [tun/tcp.rs] with the parts of the packet loop of
    [tun/runtime.rs] that drive it, and the batches of packets for the device of
    [tun/batch.rs].  The loop handles one packet at a time; every flow has
    a task that carries its bytes to and from the local SOCKS listener.  Loop and tasks
    share atomic cells, a bounded channel per flow and the bounded channel of packets for
    the device, which the loop itself drains.  They are interleaved at these operations;
    a send to a full channel waits.  The histories of a flow ([accepted], [written],
    [incoming], [sent]) and of the device ([flushed], [intact]) are not in the code. *)

From S2P Require Import Prelude Common TunPacket FlowTables Inbounds.
Import Tun.

Definition TCP_FIN : Z := 1.
Definition TCP_SYN : Z := 2.
Definition TCP_RST : Z := 4.
Definition TCP_PSH : Z := 8.
Definition TCP_ACK : Z := 16.

Definition FLOW_CHAN_CAP : nat := 256.
Definition DEFAULT_MAX_TCP_ENTRIES : nat := 4096.
Definition SERVER_ISN : Z := 1112997889.
Definition TCP_SEND_WINDOW_CAP : Z := 4 * 1024 * 1024.
Definition TCP_WINDOW_SCALE : Z := 7.
Definition WRITE_CHAN_CAP : nat := 1024.
Definition READ_BUF : nat := Z.to_nat (16 * 1024).

Definition has (flags bit : Z) : bool := negb (Z.land flags bit =? 0).

Definition scaled_window (window scale : Z) : Z := as_u32 (Z.shiftl window (Z.min scale 14)).

(** The loop over the options; every round drops one byte at least. *)
Fixpoint window_scale_loop (fuel : nat) (options : bytes) : option Z :=
  match fuel with
  | O => None
  | S fuel =>
      match options with
      | [] => None
      | kind :: rest =>
          if kind =? 0 then None
          else if kind =? 1 then window_scale_loop fuel rest
          else
            match rest with
            | [] => None
            | len :: _ =>
                if (len <? 2) || (zlen options <? len) then None
                else if (kind =? 3) && (len =? 3) then options !! 2%nat
                else window_scale_loop fuel (drop (Z.to_nat len) options)
            end
      end
  end.

Definition parse_window_scale (options : bytes) : option Z := window_scale_loop (S (length options)) options.

Record TcpHeader : Type := mkHeader { seq : Z; ack : Z; flags : Z; window : Z; window_scale : option Z }.

Definition from_packet (packet : IpPacket) (raw : bytes) : option TcpHeader :=
  let tcp := transport_offset packet in
  if (payload_offset packet <? transport_offset packet)%nat then None else
  let header_len := (payload_offset packet - transport_offset packet)%nat in
  hi ← raw !! (tcp + 14)%nat;
  lo ← raw !! (tcp + 15)%nat;
  s ← tcp_seq packet;
  a ← tcp_ack packet;
  f ← tcp_flags packet;
  if has f TCP_SYN
  then options ← get_range raw (tcp + 20) (tcp + header_len); Some (mkHeader s a f (be_val [hi; lo]) (parse_window_scale options))
  else Some (mkHeader s a f (be_val [hi; lo]) None).

(** ** The conversation with the local SOCKS listener *)

Definition socks_request (remote : SocketAddr) : bytes :=
  [5; 1; 0] ++
  match sa_ip remote with
  | V4 ip => [1] ++ ip ++ be_bytes 2 (sa_port remote)
  | V6 ip => [4] ++ ip ++ be_bytes 2 (sa_port remote)
  end.

Definition read_socks_reply : reader ProxyError unit :=
  head ← read_exact 4;
  match head with
  | [ver; status; _; atyp] =>
      if negb (ver =? 5) || negb (status =? 0) then lift (Err (Protocol "SOCKS CONNECT failed"))
      else
        addr_len ← (if atyp =? 1 then mret 4%nat
                    else if atyp =? 3 then len ← read_u8; mret (Z.to_nat len)
                    else if atyp =? 4 then mret 16%nat
                    else lift (Err (Protocol "SOCKS CONNECT reply used unsupported ATYP")));
        _ ← read_exact (addr_len + 2);
        mret tt
  | _ => lift Panic
  end.

Definition connect_local_socks (remote : SocketAddr) : talk unit :=
  _ ← say [5; 1; 0];
  greeting ← hear (read_exact 2);
  if negb (bool_decide (greeting = [5; 0])) then fail (Protocol "TCP bridge: SOCKS listener rejected no-auth greeting")
  else
    _ ← say (socks_request remote);
    hear read_socks_reply.

(** ** Flows *)

(** Where the task of a flow is. *)
Inductive task_state : Type :=
| Connecting
| Selecting
| Writing (payload : bytes)
| Waiting (seq : Z) (data : bytes)
| Probing (seq : Z) (data : bytes) (ack : Z)
| Sending (seq : Z) (data : bytes)
| Sent (seq : Z) (data : bytes)
| Closing (seq : Z)
| FinSent (seq : Z)
| Resetting
| Ended.

(** The cells and the channel of a flow, and its task. *)
Record Flow : Type := mkBridge {
  client : SocketAddr;
  remote : SocketAddr;
  server_seq : Z;
  client_ack_seen : Z;
  client_window_seen : Z;
  queue : list bytes;
  task : task_state;
  client_ack : Z;
  accepted : bytes;
  written : bytes;
  incoming : bytes;
  sent : list (Z * bytes)
}.

Definition flow_new (client remote : SocketAddr) (isn window client_next_seq : Z) : Flow :=
  mkBridge client remote (as_u32 (isn + 1)) (as_u32 (isn + 1)) window [] Connecting client_next_seq [] [] [] [].

Definition set_task (f : Flow) (t : task_state) : Flow :=
  mkBridge (client f) (remote f) (server_seq f) (client_ack_seen f) (client_window_seen f) (queue f) t (client_ack f)
    (accepted f) (written f) (incoming f) (sent f).
Definition set_seq (f : Flow) (s : Z) (t : task_state) : Flow :=
  mkBridge (client f) (remote f) s (client_ack_seen f) (client_window_seen f) (queue f) t (client_ack f)
    (accepted f) (written f) (incoming f) (sent f).
Definition set_ack_seen (f : Flow) (a : Z) : Flow :=
  mkBridge (client f) (remote f) (server_seq f) a (client_window_seen f) (queue f) (task f) (client_ack f)
    (accepted f) (written f) (incoming f) (sent f).
Definition set_window_seen (f : Flow) (w : Z) : Flow :=
  mkBridge (client f) (remote f) (server_seq f) (client_ack_seen f) w (queue f) (task f) (client_ack f)
    (accepted f) (written f) (incoming f) (sent f).
Definition add_accepted (f : Flow) (b : bytes) : Flow :=
  mkBridge (client f) (remote f) (server_seq f) (client_ack_seen f) (client_window_seen f) (queue f) (task f) (client_ack f)
    (accepted f ++ b) (written f) (incoming f) (sent f).
Definition push_queue (f : Flow) (b : bytes) : Flow :=
  mkBridge (client f) (remote f) (server_seq f) (client_ack_seen f) (client_window_seen f) (queue f ++ [b]) (task f) (client_ack f)
    (accepted f) (written f) (incoming f) (sent f).
Definition recv_payload (f : Flow) (b : bytes) (q : list bytes) : Flow :=
  mkBridge (client f) (remote f) (server_seq f) (client_ack_seen f) (client_window_seen f) q (Writing b)
    (as_u32 (client_ack f + as_u32 (zlen b))) (accepted f) (written f) (incoming f) (sent f).
Definition add_written (f : Flow) (b : bytes) (t : task_state) : Flow :=
  mkBridge (client f) (remote f) (server_seq f) (client_ack_seen f) (client_window_seen f) (queue f) t (client_ack f)
    (accepted f) (written f ++ b) (incoming f) (sent f).
Definition add_incoming (f : Flow) (b : bytes) : Flow :=
  mkBridge (client f) (remote f) (server_seq f) (client_ack_seen f) (client_window_seen f) (queue f) (Waiting (server_seq f) b) (client_ack f)
    (accepted f) (written f) (incoming f ++ b) (sent f).
Definition add_sent (f : Flow) (s : Z) (b : bytes) : Flow :=
  mkBridge (client f) (remote f) (server_seq f) (client_ack_seen f) (client_window_seen f) (queue f) (Sent s b) (client_ack f)
    (accepted f) (written f) (incoming f) (sent f ++ [(s, b)]).

(** The condition of [wait_for_client_window] on the values it has loaded. *)
Definition window_open (seq ack window payload_len : Z) : bool :=
  let in_flight := as_u32 (seq - ack) in
  let recv_window := Z.min window TCP_SEND_WINDOW_CAP in
  Z.min (in_flight + payload_len) (2 ^ 32 - 1) <=? recv_window.

(** What happens to a task next: what the stream gives it is the event's choice. *)
Inductive task_event : Type :=
| TConnected (ok : bool)
| TRecv
| TWritten
| TWriteFailed (n : nat)
| TRead (data : bytes)
| TReadFailed
| TCancelled
| TNext.

(** [send_tcp]: waits while the channel is full; a packet that cannot be built is
    skipped. *)
Definition send_packet (chan : list bytes) (packet : res unit bytes) : option (list bytes) :=
  match packet with
  | Ok p => if (length chan <? WRITE_CHAN_CAP)%nat then Some (chan ++ [p]) else None
  | _ => Some chan
  end.

(** [flow_task]; [owned] while the table holds the sender of the channel and of the
    cancellation. *)
Definition flow_task (owned : bool) (chan : list bytes) (f : Flow) (ev : task_event) : option (list bytes * Flow) :=
  match task f, ev with
  | Connecting, TConnected ok => Some (chan, set_task f (if ok then Selecting else Resetting))
  | Selecting, TRecv => match queue f with b :: q => Some (chan, recv_payload f b q) | [] => None end
  | Selecting, TRead data =>
      if (READ_BUF <? length data)%nat then None
      else match data with
      | [] => Some (chan, set_task f (Closing (server_seq f)))
      | _ => Some (chan, add_incoming f data)
      end
  | Selecting, TReadFailed => Some (chan, set_task f Resetting)
  | Selecting, TCancelled => if owned then None else Some (chan, set_task f Ended)
  | Writing b, TWritten => Some (chan, add_written f b Selecting)
  | Writing b, TWriteFailed n => Some (chan, add_written f (take n b) Resetting)
  | Waiting s data, TNext => Some (chan, set_task f (Probing s data (client_ack_seen f)))
  | Probing s data a, TNext =>
      Some (chan, set_task f (if window_open (server_seq f) a (client_window_seen f) (zlen data) then Sending s data else Waiting s data))
  | Sending s data, TNext =>
      chan ← send_packet chan (build_tcp_packet (remote f) (client f) s (client_ack f) (TCP_PSH + TCP_ACK) data);
      Some (chan, add_sent f s data)
  | Sent s data, TNext => Some (chan, set_seq f (as_u32 (s + zlen data)) Selecting)
  | Closing s, TNext =>
      chan ← send_packet chan (build_tcp_packet (remote f) (client f) s (client_ack f) (TCP_FIN + TCP_ACK) []);
      Some (chan, set_task f (FinSent s))
  | FinSent s, TNext => Some (chan, set_seq f (as_u32 (s + 1)) Ended)
  | Resetting, TNext =>
      chan ← send_packet chan (build_tcp_packet (remote f) (client f) (server_seq f) (client_ack f) (TCP_RST + TCP_ACK) []);
      Some (chan, set_task f Ended)
  | _, _ => None
  end.

(** ** The table and the packet loop *)

Definition key : Type := SocketAddr * SocketAddr.

Record TcpEntry : Type := mkEntry { flow : nat; last_seen : Z; client_next_seq : Z; client_window_scale : Z }.

Record TcpBridgeTable : Type := mkTable {
  entries : gmap key TcpEntry;
  redirect_port : Z;
  idle_timeout : Z;
  max_entries : nat
}.

Definition TcpBridgeTable_new (port timeout : Z) (n : nat) : TcpBridgeTable := mkTable ∅ port timeout (Nat.max n 1).
Definition with_defaults (port timeout : Z) : TcpBridgeTable := TcpBridgeTable_new port timeout DEFAULT_MAX_TCP_ENTRIES.
Definition with_entries (t : TcpBridgeTable) (m : gmap key TcpEntry) : TcpBridgeTable :=
  mkTable m (redirect_port t) (idle_timeout t) (max_entries t).

(** What [forward] goes on with after a control packet. *)
Inductive after : Type :=
| Return
| Remove (k : key)
| Deliver (k : key) (payload : bytes).

(** Where the packet loop is: at its [select!], or inside [forward]. *)
Inductive loop_state : Type :=
| Idle
| StoreWindow (k : key) (tcp : TcpHeader) (payload : option bytes)
| Answer (k : key) (tcp : TcpHeader) (payload : option bytes)
| Control (packet : res unit bytes) (next : after)
| Push (k : key) (payload : bytes).

(** ** Batches of packets for the device ([batch.rs]) *)

Record TunBatchConfig : Type := mkBatchConfig {
  enabled : bool;
  max_packets : Z;
  max_delay : Z;
  latency_flush_bytes : Z
}.

Definition default_batch : TunBatchConfig := mkBatchConfig true 32 750000 256.

(** Times in nanoseconds. *)
Definition normalized (c : TunBatchConfig) : TunBatchConfig :=
  mkBatchConfig (enabled c) (Z.min (Z.max (max_packets c) 1) 256) (Z.min (max_delay c) 10000000)
    (if latency_flush_bytes c =? 0 then 0 else Z.min (Z.max (latency_flush_bytes c) 64) 4096).

Record TunPacketBatch : Type := mkBatch {
  batch_config : TunBatchConfig;
  packets : list bytes;
  first_packet_at : option Z
}.

Definition TunPacketBatch_new (c : TunBatchConfig) : TunPacketBatch := mkBatch (normalized c) [] None.

Definition batch_push (b : TunPacketBatch) (packet : bytes) (now : Z) : TunPacketBatch :=
  mkBatch (batch_config b) (packets b ++ [packet]) (match packets b with [] => Some now | _ => first_packet_at b end).

Definition should_flush (b : TunPacketBatch) (now : Z) : bool :=
  match packets b with
  | [] => false
  | first :: _ =>
      if negb (enabled (batch_config b)) || (max_packets (batch_config b) <=? zlen (packets b)) then true
      else if (0 <? latency_flush_bytes (batch_config b)) && (zlen first <=? latency_flush_bytes (batch_config b)) then true
      else match first_packet_at b with Some t => max_delay (batch_config b) <=? Z.max 0 (now - t) | None => false end
  end.

(** The batch and the device: what the device has taken, everything that was taken out
    of the batch for it, and whether no write has failed. *)
Record TunWriter : Type := mkWriter {
  batch : TunPacketBatch;
  device : list bytes;
  flushed : list bytes;
  intact : bool
}.

(** [flush_tun_batch]: the batch is emptied whatever happens, and the first write that
    fails, that of packet [failed], ends the loop. *)
Definition flush_tun_batch (w : TunWriter) (failed : option nat) : TunWriter :=
  let ps := packets (batch w) in
  let failed := match failed with Some k => if (k <? length ps)%nat then Some k else None | None => None end in
  mkWriter (mkBatch (batch_config (batch w)) [] None)
    (device w ++ match failed with Some k => take k ps | None => ps end) (flushed w ++ ps)
    (match failed with Some _ => false | None => intact w end).

(** The rest of the channel goes into the batch until it is due. *)
Fixpoint fill_batch (now : Z) (b : TunPacketBatch) (chan : list bytes) : TunPacketBatch * list bytes :=
  if should_flush b now then (b, chan)
  else match chan with [] => (b, []) | p :: chan => fill_batch now (batch_push b p now) chan end.

Definition flush_if_due (w : TunWriter) (now : Z) (failed : option nat) : TunWriter :=
  if should_flush (batch w) now then flush_tun_batch w failed else w.

(** The branch of the loop for a packet [p] from the channel, with [chan] behind it. *)
Definition write_packets (w : TunWriter) (p : bytes) (chan : list bytes) (now : Z) (failed : option nat) : TunWriter * list bytes :=
  let '(b, chan) := fill_batch now (batch_push (batch w) p now) chan in
  (flush_if_due (mkWriter b (device w) (flushed w) (intact w)) now failed, chan).

Record System : Type := mkSystem {
  table : TcpBridgeTable;
  flows : list Flow;
  chan : list bytes;
  loop : loop_state;
  writer : TunWriter
}.

Definition set_loop (s : System) (l : loop_state) : System := mkSystem (table s) (flows s) (chan s) l (writer s).
Definition set_entries (s : System) (m : gmap key TcpEntry) (l : loop_state) : System :=
  mkSystem (with_entries (table s) m) (flows s) (chan s) l (writer s).
Definition set_flow (s : System) (i : nat) (f : Flow) (l : loop_state) : System :=
  mkSystem (table s) (<[i := f]> (flows s)) (chan s) l (writer s).

Definition owned (s : System) (i : nat) : bool :=
  existsb (fun e => (flow e.2 =? i)%nat) (map_to_list (entries (table s))).

Definition control_packet (src dst : SocketAddr) (sq ak fl : Z) (options : bytes) : res unit bytes :=
  build_tcp_packet_with_options (mkSpec src dst sq ak fl 65535 options []).

Section Ops.
Context `{!HashOrder key TcpEntry}.

Definition evict_idle (t : TcpBridgeTable) (now : Z) : TcpBridgeTable :=
  with_entries t (retain_recent last_seen (entries t) now (idle_timeout t)).

Definition evict_oldest (t : TcpBridgeTable) : TcpBridgeTable := with_entries t (drop_oldest last_seen (entries t)).

(** A new flow: room for it, its cells and its task, its entry, and the answer. *)
Definition open_bridge (s : System) (k : key) (tcp : TcpHeader) (now now' : Z) : System :=
  let t := evict_idle (table s) now' in
  let t := if (max_entries t <=? size (entries t))%nat then evict_oldest t else t in
  if (max_entries t <=? size (entries t))%nat then mkSystem t (flows s) (chan s) Idle (writer s) else
  let client_next_seq := as_u32 (seq tcp + 1) in
  let isn := Z.lxor SERVER_ISN (sa_port k.1) in
  let scale := default 0 (window_scale tcp) in
  let f := flow_new k.1 k.2 isn (Z.max (scaled_window (window tcp) scale) 1) client_next_seq in
  mkSystem (with_entries t (<[k := mkEntry (length (flows s)) now client_next_seq scale]> (entries t))) (flows s ++ [f]) (chan s)
    (Control (control_packet k.2 k.1 isn client_next_seq (TCP_SYN + TCP_ACK) [1; 3; 3; TCP_WINDOW_SCALE]) Return) (writer s).

(** [dispatch] and [forward] up to their first wait or shared cell. *)
Definition forward (s : System) (raw : bytes) (now now' : Z) : option System :=
  match parse_ip_packet raw with
  | Ok packet =>
      if negb (bool_decide (protocol packet = PTcp)) then Some s
      else
        match from_packet packet raw with
        | None => Some s
        | Some tcp =>
            let k := (mkSocketAddr (src packet) (src_port packet), mkSocketAddr (dst packet) (dst_port packet)) in
            if has (flags tcp) TCP_RST then Some (set_entries s (delete k (entries (table s))) Idle)
            else if has (flags tcp) TCP_SYN && bool_decide (entries (table s) !! k = None) then Some (open_bridge s k tcp now now')
            else
              match entries (table s) !! k with
              | None => Some s
              | Some e =>
                  let s := set_entries s (<[k := mkEntry (flow e) now (client_next_seq e) (client_window_scale e)]> (entries (table s))) Idle in
                  if has (flags tcp) TCP_ACK
                  then f ← flows s !! flow e; Some (set_flow s (flow e) (set_ack_seen f (ack tcp)) (StoreWindow k tcp (payload packet raw)))
                  else Some (set_loop s (Answer k tcp (payload packet raw)))
              end
        end
  | Err _ => Some s
  | Panic => None
  end.

(** The rest of [forward], one operation at a time. *)
Definition forward_next (s : System) : option System :=
  match loop s with
  | Idle => None
  | StoreWindow k tcp body =>
      e ← entries (table s) !! k;
      f ← flows s !! flow e;
      Some (set_flow s (flow e) (set_window_seen f (Z.max (scaled_window (window tcp) (client_window_scale e)) 1)) (Answer k tcp body))
  | Answer k tcp body =>
      e ← entries (table s) !! k;
      f ← flows s !! flow e;
      let reply next_seq next :=
        set_entries s (<[k := mkEntry (flow e) (last_seen e) next_seq (client_window_scale e)]> (entries (table s)))
          (Control (control_packet k.2 k.1 (server_seq f) next_seq TCP_ACK []) next) in
      if has (flags tcp) TCP_FIN then Some (reply (as_u32 (seq tcp + 1)) (Remove k))
      else
        match body with
        | None | Some [] => Some (set_loop s Idle)
        | Some b =>
            let s' := reply (as_u32 (seq tcp + as_u32 (zlen b))) (Deliver k b) in
            Some (set_flow s' (flow e) (add_accepted f b) (loop s'))
        end
  | Control packet next =>
      c ← send_packet (chan s) packet;
      let s := mkSystem (table s) (flows s) c Idle (writer s) in
      Some (match next with
            | Return => s
            | Remove k => set_entries s (delete k (entries (table s))) Idle
            | Deliver k b => set_loop s (Push k b)
            end)
  | Push k b =>
      e ← entries (table s) !! k;
      f ← flows s !! flow e;
      match task f with
      | Ended => Some (set_entries s (delete k (entries (table s))) Idle)
      | _ => if (length (queue f) <? FLOW_CHAN_CAP)%nat then Some (set_flow s (flow e) (push_queue f b) Idle) else None
      end
  end.

Inductive event : Type :=
| EPacket (raw : bytes) (now now' : Z)
| EForward
| EWrite (now : Z) (failed : option nat)
| EFlush (now : Z) (failed : option nat)
| ETick (now : Z)
| EUdp (packet : bytes)
| ETask (i : nat) (ev : task_event).

(** One step of the loop, of a UDP task that has a packet for the device, or of a flow. *)
Definition exec (s : System) (ev : event) : option System :=
  match ev with
  | EPacket raw now now' => match loop s with Idle => forward s raw now now' | _ => None end
  | EForward => forward_next s
  | EWrite now failed =>
      match loop s, chan s with
      | Idle, p :: c => let '(w, c) := write_packets (writer s) p c now failed in Some (mkSystem (table s) (flows s) c Idle w)
      | _, _ => None
      end
  | EFlush now failed =>
      match loop s, packets (batch (writer s)) with
      | Idle, _ :: _ => Some (mkSystem (table s) (flows s) (chan s) Idle (flush_if_due (writer s) now failed))
      | _, _ => None
      end
  | ETick now => match loop s with Idle => Some (mkSystem (evict_idle (table s) now) (flows s) (chan s) Idle (writer s)) | _ => None end
  | EUdp packet =>
      if (length (chan s) <? WRITE_CHAN_CAP)%nat then Some (mkSystem (table s) (flows s) (chan s ++ [packet]) (loop s) (writer s)) else None
  | ETask i ev =>
      f ← flows s !! i;
      r ← flow_task (owned s i) (chan s) f ev;
      Some (mkSystem (table s) (<[i := r.2]> (flows s)) r.1 (loop s) (writer s))
  end.

Definition start (cfg : TunBatchConfig) (port timeout : Z) (n : nat) : System :=
  mkSystem (TcpBridgeTable_new port timeout n) [] [] Idle (mkWriter (TunPacketBatch_new cfg) [] [] true).

Definition run (s : System) : list event -> option System := foldl (fun s ev => s ≫= fun s => exec s ev) (Some s).
Definition reachable (cfg : TunBatchConfig) (port timeout : Z) (n : nat) (s : System) : Prop :=
  exists evs, run (start cfg port timeout n) evs = Some s.
End Ops.

(** * Facts *)

(** ** The SOCKS conversation *)

Definition dest_of (a : SocketAddr) : Address :=
  match sa_ip a with V4 ip => Ipv4 ip (sa_port a) | V6 ip => Ipv6 ip (sa_port a) end.

Lemma socks_request_address a : exists w, write_socks5_address (dest_of a) = Ok w /\ socks_request a = [5; 1; 0] ++ w.
Proof. unfold dest_of, socks_request. destruct (sa_ip a); eauto. Qed.

(** The bridge and the SOCKS inbound understand each other: the inbound is asked to
    connect to the address that the client of the TUN device dialled. *)
Lemma bridge_socks a rest rest' :
  address_ok (dest_of a) -> bytes_ok rest ->
  let reply := [5; 0] ++ socks5_reply 0 in
  connect_local_socks a (reply ++ rest') = ([5; 1; 0] ++ socks_request a, Ok (tt, rest')) /\
  perform_socks5_handshake ([5; 1; 0] ++ socks_request a ++ rest) = (reply, Ok (Connect (dest_of a), rest)).
Proof.
  intros Ha Hr reply. destruct (socks_request_address a) as (w & Hw & Hreq). split.
  - assert (Hrep : hear read_socks_reply (socks5_reply 0 ++ rest') = ([], Ok (tt, rest'))) by reflexivity.
    unfold connect_local_socks, reply. rewrite say_bind, <- app_assoc.
    rewrite (hear_bind _ _ _ [5; 0] (socks5_reply 0 ++ rest')) by reflexivity.
    rewrite bool_decide_eq_true_2 by done. cbn [negb]. rewrite say_bind, Hrep. cbn [fst snd]. by rewrite app_nil_r.
  - rewrite Hreq. exact (socks5_request [0] 1 0 (dest_of a) w rest ltac:(by apply list_elem_of_singleton) ltac:(cbn; lia) Ha Hr Hw).
Qed.

(** ** Flows *)

Definition base (f : Flow) : Z := Z.lxor SERVER_ISN (sa_port (client f)) + 1.
Definition data_of (l : list (Z * bytes)) : bytes := concat l.*2.
Arguments data_of l : simpl never.

(** Segments with consecutive sequence numbers from [from] on. *)
Fixpoint contiguous (from : Z) (l : list (Z * bytes)) : Prop :=
  match l with
  | [] => True
  | (s, b) :: l => s = as_u32 from /\ contiguous (from + zlen b) l
  end.

Lemma contiguous_snoc from l s b :
  contiguous from (l ++ [(s, b)]) <-> contiguous from l /\ s = as_u32 (from + zlen (data_of l)).
Proof.
  revert from. induction l as [|[s' b'] l IH]; intros from; cbn.
  - unfold zlen. cbn. rewrite Z.add_0_r. tauto.
  - rewrite IH. unfold data_of. cbn. rewrite zlen_app, Z.add_assoc. tauto.
Qed.

Lemma data_of_snoc l s b : data_of (l ++ [(s, b)]) = data_of l ++ b.
Proof. unfold data_of. rewrite fmap_app, concat_app. cbn. by rewrite app_nil_r. Qed.

Lemma as_u32_add x y : as_u32 (as_u32 x + y) = as_u32 (x + y).
Proof. unfold as_u32. by rewrite Zplus_mod_idemp_l. Qed.

Definition pending (t : task_state) : bytes := match t with Writing b => b | _ => [] end.
Definition live (t : task_state) : bool := match t with Resetting | Ended => false | _ => true end.

(** [hand] is the payload that [forward] is about to put into the channel of the flow. *)
Record flow_ok (hand : bytes) (f : Flow) : Prop := {
  fo_up : if live (task f) then accepted f = written f ++ pending (task f) ++ concat (queue f) ++ hand
          else written f `prefix_of` accepted f;
  fo_seqs : contiguous (base f) (sent f);
  fo_down : match task f with
    | Waiting s d | Probing s d _ | Sending s d =>
        incoming f = data_of (sent f) ++ d /\ s = as_u32 (base f + zlen (data_of (sent f))) /\ (length d <= READ_BUF)%nat
    | Sent s d => incoming f = data_of (sent f) /\ exists l, sent f = l ++ [(s, d)]
    | Closing _ | FinSent _ | Ended => incoming f = data_of (sent f)
    | _ => incoming f = data_of (sent f) /\ server_seq f = as_u32 (base f + zlen (data_of (sent f)))
    end
}.

Lemma send_packet_cases c p c' : send_packet c p = Some c' -> c' = c /\ (forall x, p <> Ok x) \/ exists x, p = Ok x /\ c' = c ++ [x].
Proof. unfold send_packet. destruct p; [case_match; [|done]; intros [= <-]; eauto|intros [= <-]; by left..]. Qed.

Lemma flow_task_ok own c f ev c' f' hand :
  flow_task own c f ev = Some (c', f') -> flow_ok hand f ->
  flow_ok hand f' /\ client f' = client f /\ remote f' = remote f /\ accepted f' = accepted f.
Proof.
  intros H [Hup Hseq Hdown]. unfold flow_task in H.
  assert (Hpre : forall a b x y : bytes, a = b ++ x ++ y -> b `prefix_of` a) by (intros a b x y ->; by apply prefix_app_r).
  destruct (task f) eqn:Ht, ev; try done; cbn [live pending app] in *.
  - injection H as <- <-. split; [|done]. split; cbn; [|done|by destruct ok]. destruct ok; cbn; [done|]. by eapply Hpre.
  - destruct (queue f) as [|b q] eqn:Hq; [done|]. injection H as <- <-. split; [|done]. split; cbn; [|done|done].
    rewrite Hup. cbn. by rewrite <- app_assoc.
  - destruct (Nat.ltb_spec READ_BUF (length data)); [done|]. destruct Hdown as [Hin Hss]. destruct data as [|b data]; injection H as <- <-; split; try done.
    split; cbn; [done|done|]. split; [by rewrite Hin|]. split; [done|]. cbn in *. lia.
  - injection H as <- <-. split; [|done]. split; cbn; [|done|done]. by eapply Hpre.
  - destruct own; [done|]. injection H as <- <-. split; [|done]. split; cbn; [|done|by destruct Hdown]. by eapply Hpre.
  - injection H as <- <-. split; [|done]. split; cbn; [|done|done]. by rewrite Hup, !app_assoc.
  - injection H as <- <-. split; [|done]. split; cbn; [|done|done]. rewrite Hup. apply prefix_app, prefix_app_r. eexists (drop n _). symmetry. apply take_drop.
  - injection H as <- <-. split; [|done]. by split.
  - destruct (window_open _ _ _ _); injection H as <- <-; (split; [|done]); by split.
  - destruct (send_packet _ _); [|done]. injection H as <- <-. split; [|done]. destruct Hdown as (Hin & Hss & Hl). split; cbn; [done| |].
    + by apply contiguous_snoc.
    + rewrite data_of_snoc. eauto.
  - injection H as <- <-. split; [|done]. destruct Hdown as (Hin & l & Hl). split; cbn; [done|done|]. split; [done|].
    rewrite Hl in Hseq. apply contiguous_snoc in Hseq as [_ ->]. rewrite as_u32_add, Hl, data_of_snoc, zlen_app. f_equal. unfold base. cbn. lia.
  - destruct (send_packet _ _); [|done]. injection H as <- <-. split; [|done]. by split.
  - injection H as <- <-. split; [|done]. split; cbn; [|done|done]. by eapply Hpre.
  - destruct (send_packet _ _); [|done]. injection H as <- <-. split; [|done]. split; cbn; [done|done|by destruct Hdown].
Qed.

Lemma parse_same_version raw p : parse_ip_packet raw = Ok p -> same_version (src p) (dst p).
Proof.
  unfold parse_ip_packet. intros Hp. case_match; [done|]. inv_res. case_match.
  - unfold parse_ipv4 in Hp. case_match; [done|]. inv_res. cbv zeta in Hp. case_match; [done|]. inv_res.
    case_match; [done|]. case_match; [done|]. inv_res. done.
  - case_match; [|done]. unfold parse_ipv6 in Hp. case_match; [done|]. inv_res. cbv zeta in Hp. case_match; [done|]. inv_res.
    case_match; inv_res; [|done]. cbv zeta in *. inv_res. case_match; [done|]. inv_res. done.
Qed.

(** ** The invariant *)

Definition in_hand (s : System) (i : nat) : bytes :=
  match loop s with
  | Control _ (Deliver k b) | Push k b =>
      match entries (table s) !! k with Some e => if decide (flow e = i) then b else [] | None => [] end
  | _ => []
  end.

(** The key that [forward] works on is in the table. *)
Definition loop_key (l : loop_state) : option key :=
  match l with
  | StoreWindow k _ _ | Answer k _ _ | Control _ (Remove k) | Control _ (Deliver k _) | Push k _ => Some k
  | _ => None
  end.

(** A packet that carries the segment of a flow to its client. *)
Definition carries (f : Flow) (seg : Z * bytes) (p : bytes) : Prop :=
  exists ak, build_tcp_packet (remote f) (client f) seg.1 ak (TCP_PSH + TCP_ACK) seg.2 = Ok p.

(** The packets for the device, in the order in which they were sent: those that were
    taken out for it, those in the batch, those in the channel. *)
Definition held (w : TunWriter) : list bytes := flushed w ++ packets (batch w).
Definition output (s : System) : list bytes := held (writer s) ++ chan s.

Definition writer_ok (w : TunWriter) : Prop :=
  device w `sublist_of` flushed w /\ (intact w = true -> device w = flushed w).

Lemma batch_flush_ok w now failed :
  writer_ok w -> writer_ok (flush_if_due w now failed) /\ held (flush_if_due w now failed) = held w.
Proof.
  intros [Hsub Hin]. unfold flush_if_due. destruct (should_flush _ _); [|done]. unfold held, flush_tun_batch, writer_ok.
  cbn [packets batch device flushed intact]. rewrite app_nil_r. split; [|done].
  destruct failed as [k|]; [destruct (k <? length (packets (batch w)))%nat|].
  - split; [apply sublist_app; [done|]; apply sublist_take|done].
  - split; [by apply sublist_app|]. intros Hi. by rewrite Hin.
  - split; [by apply sublist_app|]. intros Hi. by rewrite Hin.
Qed.

Lemma fill_batch_all now b c : packets (fill_batch now b c).1 ++ (fill_batch now b c).2 = packets b ++ c.
Proof.
  revert b. induction c as [|p c IH]; intros b; cbn [fill_batch]; case_match; try done. rewrite IH. cbn. by rewrite <- app_assoc.
Qed.

Lemma write_packets_ok w p c now failed w' c' :
  writer_ok w -> write_packets w p c now failed = (w', c') -> writer_ok w' /\ held w' ++ c' = held w ++ p :: c.
Proof.
  intros Hw. unfold write_packets. pose proof (fill_batch_all now (batch_push (batch w) p now) c) as Hall.
  destruct (fill_batch _ _ _) as [b c1]. intros [= <- <-].
  destruct (batch_flush_ok (mkWriter b (device w) (flushed w) (intact w)) now failed Hw) as [Hok Hheld]. split; [done|].
  rewrite Hheld. unfold held in *. cbn [flushed batch fst snd batch_push packets] in *.
  rewrite <- !app_assoc, Hall. by rewrite <- app_assoc.
Qed.

Record inv (n : nat) (s : System) : Prop := {
  iv_size : (size (entries (table s)) <= max_entries (table s))%nat /\ max_entries (table s) = Nat.max n 1;
  iv_entries : forall k e, entries (table s) !! k = Some e -> exists f, flows s !! flow e = Some f /\ client f = k.1 /\ remote f = k.2;
  iv_loop : forall k, loop_key (loop s) = Some k -> is_Some (entries (table s) !! k);
  iv_flow : forall i f, flows s !! i = Some f -> flow_ok (in_hand s i) f;
  iv_ver : forall i f, flows s !! i = Some f -> same_version (sa_ip (remote f)) (sa_ip (client f));
  iv_sent : forall i f, flows s !! i = Some f -> exists ps, Forall2 (carries f) (sent f) ps /\ ps `sublist_of` output s;
  iv_writer : writer_ok (writer s)
}.

Lemma data_packet_built f sq ak d :
  same_version (sa_ip (remote f)) (sa_ip (client f)) -> (length d <= READ_BUF)%nat ->
  exists p, build_tcp_packet (remote f) (client f) sq ak (TCP_PSH + TCP_ACK) d = Ok p.
Proof.
  intros Hv Hl. unfold build_tcp_packet. apply tcp_packet_built; [done|]. unfold tcp_fits. cbn [spec_options spec_payload spec_src].
  change (padded_options_len []) with 0%nat. unfold READ_BUF, zlen in *. case_match; lia.
Qed.

Lemma flow_task_sent own c f ev c' f' hand :
  flow_task own c f ev = Some (c', f') -> flow_ok hand f -> same_version (sa_ip (remote f)) (sa_ip (client f)) ->
  exists out, c' = c ++ out /\ (sent f' = sent f \/ exists seg p, sent f' = sent f ++ [seg] /\ out = [p] /\ carries f seg p).
Proof.
  intros H [_ _ Hdown] Hv. unfold flow_task in H.
  destruct (task f) eqn:Ht, ev; try done.
  all: try (repeat (case_match; try done); injection H as <- <-; exists []; rewrite app_nil_r; by auto).
  - destruct Hdown as (_ & _ & Hl). destruct (data_packet_built f seq0 (client_ack f) data Hv Hl) as [p Hp]. rewrite Hp in H.
    destruct (send_packet c (Ok p)) as [c1|] eqn:Hs; [|done]. injection H as <- <-.
    apply send_packet_cases in Hs as [[_ Hno]|(x & [= <-] & ->)]; [by destruct (Hno p)|]. exists [p]. split; [done|]. right.
    exists (seq0, data), p. split_and!; try done. by exists (client_ack f).
  - destruct (send_packet _ _) as [c1|] eqn:Hs; [|done]. injection H as <- <-.
    apply send_packet_cases in Hs as [[-> _]|(x & _ & ->)]; [exists []; rewrite app_nil_r; by auto|]. exists [x]. by auto.
  - destruct (send_packet _ _) as [c1|] eqn:Hs; [|done]. injection H as <- <-.
    apply send_packet_cases in Hs as [[-> _]|(x & _ & ->)]; [exists []; rewrite app_nil_r; by auto|]. exists [x]. by auto.
Qed.

Lemma carries_same f f' seg p : client f' = client f -> remote f' = remote f -> carries f seg p -> carries f' seg p.
Proof. unfold carries. by intros -> ->. Qed.

(** A step of the loop: what it must preserve. *)
Lemma inv_build n s s' out :
  inv n s -> writer_ok (writer s') ->
  (size (entries (table s')) <= max_entries (table s'))%nat /\ max_entries (table s') = max_entries (table s) ->
  (forall k e, entries (table s') !! k = Some e -> exists f, flows s' !! flow e = Some f /\ client f = k.1 /\ remote f = k.2) ->
  (forall k, loop_key (loop s') = Some k -> is_Some (entries (table s') !! k)) ->
  (forall i f', flows s' !! i = Some f' ->
     (exists f, flows s !! i = Some f /\ client f' = client f /\ remote f' = remote f /\ sent f' = sent f /\
        (flow_ok (in_hand s i) f -> flow_ok (in_hand s' i) f')) \/
     (flow_ok (in_hand s' i) f' /\ same_version (sa_ip (remote f')) (sa_ip (client f')) /\ sent f' = [])) ->
  output s' = output s ++ out ->
  inv n s'.
Proof.
  intros [[Hs Hm] He Hl Hf Hv Hp Hwr] Hwr' [Hs' Hm'] He' Hl' Hflows Hout. split; try done.
  - split; [done|]. by rewrite Hm'.
  - intros i f' Hi. destruct (Hflows i f' Hi) as [(f & Hfi & _ & _ & _ & Hok)|[Hok _]]; eauto.
  - intros i f' Hi. destruct (Hflows i f' Hi) as [(f & Hfi & -> & -> & _)|(_ & Hver & _)]; eauto.
  - intros i f' Hi. rewrite Hout. destruct (Hflows i f' Hi) as [(f & Hfi & Hc & Hr & -> & _)|(_ & _ & ->)].
    + destruct (Hp i f Hfi) as (ps & Hps & Hsub). exists ps. split; [|by apply sublist_inserts_r].
      eapply Forall2_impl; [exact Hps|]. intros seg p. by apply carries_same.
    + exists []. split; [constructor|apply sublist_nil_l].
Qed.

Lemma inv_task `{!HashOrder key TcpEntry} n s i ev s' : inv n s -> exec s (ETask i ev) = Some s' -> inv n s'.
Proof.
  intros [Hs He Hl Hf Hv Hp Hwr] H. cbn in H. destruct (flows s !! i) as [f|] eqn:Hi; [|done]. cbn in H.
  destruct (flow_task (owned s i) (chan s) f ev) as [[c' f']|] eqn:Ht; [|done]. cbn in H. injection H as <-.
  destruct (flow_task_ok _ _ _ _ _ _ _ Ht (Hf i f Hi)) as (Hok & Hc & Hr & _).
  destruct (flow_task_sent _ _ _ _ _ _ _ Ht (Hf i f Hi) (Hv i f Hi)) as (out & -> & Hsent).
  assert (Hlook : forall j g, <[i := f']> (flows s) !! j = Some g -> j = i /\ g = f' \/ j <> i /\ flows s !! j = Some g).
  { intros j g. destruct (decide (j = i)) as [->|Hne]; [|rewrite list_lookup_insert_ne by done; auto].
    rewrite list_lookup_insert_eq by (by eapply lookup_lt_Some). intros [= <-]. by auto. }
  split; cbn; try done.
  - intros k e (g & Hg & Hgc & Hgr)%He. destruct (decide (flow e = i)) as [Heq|Hne].
    + rewrite Heq in Hg |- *. exists f'. rewrite list_lookup_insert_eq by (by eapply lookup_lt_Some). rewrite Hi in Hg. injection Hg as ->. by rewrite Hc, Hr.
    + exists g. by rewrite list_lookup_insert_ne.
  - intros j g [[-> ->]|[_ Hg]]%Hlook; [done|by apply Hf].
  - intros j g [[-> ->]|[_ Hg]]%Hlook; [rewrite Hc, Hr; eauto|eauto].
  - intros j g Hg. unfold output. cbn. rewrite app_assoc. apply Hlook in Hg as [[-> ->]|[_ Hg]].
    + destruct (Hp i f Hi) as (ps & Hps & Hsub). destruct Hsent as [->|(seg & p & -> & -> & Hcar)].
      * exists ps. split; [eapply Forall2_impl; [exact Hps|]; intros ? ?; by apply carries_same|by apply sublist_inserts_r].
      * exists (ps ++ [p]). split; [|by apply sublist_app].
        apply Forall2_app; [eapply Forall2_impl; [exact Hps|]; intros ? ?; by apply carries_same|].
        constructor; [by eapply carries_same|constructor].
    + destruct (Hp j g Hg) as (ps & Hps & Hsub). exists ps. split; [done|by apply sublist_inserts_r].
Qed.

Definition points (m : gmap key TcpEntry) (fs : list Flow) : Prop :=
  forall k e, m !! k = Some e -> exists f, fs !! flow e = Some f /\ client f = k.1 /\ remote f = k.2.

Lemma points_flow m fs i f g :
  points m fs -> fs !! i = Some f -> client g = client f -> remote g = remote f -> points m (<[i := g]> fs).
Proof.
  intros Hp Hi Hc Hr k e (h & Hh & Hhc & Hhr)%Hp. destruct (decide (flow e = i)) as [Heq|Hne].
  - rewrite Heq in Hh |- *. exists g. rewrite list_lookup_insert_eq by (by eapply lookup_lt_Some). simplify_eq. by rewrite Hc, Hr.
  - exists h. by rewrite list_lookup_insert_ne.
Qed.

Lemma points_entry m fs k e e' : points m fs -> m !! k = Some e -> flow e' = flow e -> points (<[k := e']> m) fs.
Proof. intros Hp Hk Hf k' e'' [[<- <-]|[_ Hl]]%lookup_insert_Some; [rewrite Hf|]; eauto. Qed.

Lemma points_sub m m' fs : points m fs -> (forall k e, m' !! k = Some e -> m !! k = Some e) -> points m' fs.
Proof. intros Hp Hs k e Hk. eauto. Qed.

Lemma lookup_insert_flow (fs : list Flow) i f g j h :
  fs !! i = Some f -> <[i := g]> fs !! j = Some h -> j = i /\ h = g \/ j <> i /\ fs !! j = Some h.
Proof.
  intros Hi. destruct (decide (j = i)) as [->|Hne]; [|rewrite list_lookup_insert_ne by done; auto].
  rewrite list_lookup_insert_eq by (by eapply lookup_lt_Some). intros [= <-]. by auto.
Qed.

(** [flow_ok] does not see the cells that the loop writes. *)
Lemma flow_ok_cells hand f a w : flow_ok hand f -> flow_ok hand (set_ack_seen f a) /\ flow_ok hand (set_window_seen f w).
Proof. by intros [Hu Hs Hd]. Qed.

Lemma flow_ok_accept f b : flow_ok [] f -> flow_ok b (add_accepted f b).
Proof.
  intros [Hu Hs Hd]. split; [|done|done]. cbn. destruct (live (task f)).
  - by rewrite Hu, app_nil_r, <- !app_assoc.
  - by apply prefix_app_r.
Qed.

Lemma flow_ok_push f b : flow_ok b f -> flow_ok [] (push_queue f b).
Proof.
  intros [Hu Hs Hd]. split; [|done|done]. cbn. destruct (live (task f)); [|done].
  rewrite Hu, concat_app. cbn. by rewrite !app_nil_r.
Qed.

Lemma flow_ok_ended f b : task f = Ended -> flow_ok b f -> flow_ok [] f.
Proof. intros Ht [Hu Hs Hd]. rewrite Ht in *. split; by rewrite ?Ht. Qed.

(** The flows are left as they are. *)
Lemma same_flows s s' : flows s' = flows s -> (forall i, in_hand s' i = in_hand s i) -> forall i f', flows s' !! i = Some f' ->
     (exists f, flows s !! i = Some f /\ client f' = client f /\ remote f' = remote f /\ sent f' = sent f /\
        (flow_ok (in_hand s i) f -> flow_ok (in_hand s' i) f')) \/
     (flow_ok (in_hand s' i) f' /\ same_version (sa_ip (remote f')) (sa_ip (client f')) /\ sent f' = []).
Proof. intros Hf Hh i f' Hi. left. exists f'. rewrite Hf in Hi. by rewrite Hh. Qed.

(** One flow is changed. *)
Lemma one_flow s s' i f g : flows s !! i = Some f -> flows s' = <[i := g]> (flows s) ->
  (forall j, j <> i -> in_hand s' j = in_hand s j) ->
  client g = client f -> remote g = remote f -> sent g = sent f -> (flow_ok (in_hand s i) f -> flow_ok (in_hand s' i) g) ->
  forall j f', flows s' !! j = Some f' ->
     (exists f, flows s !! j = Some f /\ client f' = client f /\ remote f' = remote f /\ sent f' = sent f /\
        (flow_ok (in_hand s j) f -> flow_ok (in_hand s' j) f')) \/
     (flow_ok (in_hand s' j) f' /\ same_version (sa_ip (remote f')) (sa_ip (client f')) /\ sent f' = []).
Proof.
  intros Hi Hf Hh Hc Hr Hs Hok j f' Hj. left. rewrite Hf in Hj. destruct (lookup_insert_flow _ _ _ _ _ _ Hi Hj) as [[-> ->]|[Hne Hj']].
  - exists f. by auto.
  - exists f'. by rewrite (Hh j Hne).
Qed.

Lemma inv_next `{!HashOrder key TcpEntry} n s s' : inv n s -> forward_next s = Some s' -> inv n s'.
Proof.
  intros Hinv H. pose proof Hinv as [[Hs Hm] He Hl Hf Hv Hp Hwr]. unfold forward_next in H.
  assert (Hout : forall c, chan s = c -> output s = output s ++ []) by (intros; by rewrite app_nil_r).
  destruct (loop s) as [|k tcp body|k tcp body|packet next|k b] eqn:Hlp; [done|..].
  - destruct (Hl k eq_refl) as [e Hk]. rewrite Hk in H. cbn in H. destruct (He k e Hk) as (f & Hfl & Hc & Hr). rewrite Hfl in H. cbn in H.
    injection H as <-. eapply (inv_build n s _ []); [done|done|done|by eapply points_flow|cbn; intros ? [= <-]; by eauto| |by rewrite app_nil_r].
    eapply (one_flow s _ (flow e)); [done|done| |done..|].
    + intros j _. unfold in_hand. cbn. by rewrite Hlp.
    + unfold in_hand. cbn. rewrite Hlp. intros Hok. exact (proj2 (flow_ok_cells _ f 0 _ Hok)).
  - destruct (Hl k eq_refl) as [e Hk]. rewrite Hk in H. cbn in H. destruct (He k e Hk) as (f & Hfl & Hc & Hr). rewrite Hfl in H. cbn in H.
    assert (Hsz : forall e', (size (<[k := e']> (entries (table s))) <= max_entries (table s))%nat) by (intros; by rewrite (update_size _ _ _ _ Hk)).
    assert (Hin : forall j, in_hand s j = []) by (intros; unfold in_hand; by rewrite Hlp).
    destruct (has (flags tcp) TCP_FIN).
    + injection H as <-. eapply (inv_build n s _ []); [done|done|split; [apply Hsz|done]| | |apply same_flows; [done|by intros; rewrite Hin]|by rewrite app_nil_r].
      * by eapply points_entry.
      * cbn. intros ? [= <-]. rewrite lookup_insert_eq. eauto.
    + destruct body as [[|x b]|]; injection H as <-.
      * eapply (inv_build n s _ []); [done|done|by split|done|done|apply same_flows; [done|by intros; rewrite Hin]|by rewrite app_nil_r].
      * eapply (inv_build n s _ []); [done|done|split; [apply Hsz|done]| | | |by rewrite app_nil_r].
        -- cbn. eapply points_flow; [by eapply points_entry|done..].
        -- cbn. intros ? [= <-]. rewrite lookup_insert_eq. eauto.
        -- eapply (one_flow s _ (flow e) f); [done|done| |done..|].
           ++ intros j Hne. rewrite Hin. unfold in_hand. cbn. rewrite lookup_insert_eq. cbn. by rewrite decide_False by done.
           ++ rewrite Hin. unfold in_hand. cbn. rewrite lookup_insert_eq. cbn. rewrite decide_True by done. apply flow_ok_accept.
      * eapply (inv_build n s _ []); [done|done|by split|done|done|apply same_flows; [done|by intros; rewrite Hin]|by rewrite app_nil_r].
  - destruct (send_packet (chan s) packet) as [c|] eqn:Hc; [|done]. cbn in H. injection H as <-.
    assert (exists out, c = chan s ++ out) as [out ->].
    { apply send_packet_cases in Hc as [[-> _]|(x & _ & ->)]; [exists []; by rewrite app_nil_r|by exists [x]]. }
    assert (Hdel : forall k, (size (delete k (entries (table s))) <= max_entries (table s))%nat).
    { intros k. etrans; [|exact Hs]. apply map_subseteq_size, delete_subseteq. }
    destruct next as [|k|k b]; (eapply (inv_build n s _ out); [done|done|split; [first [exact Hs|apply Hdel]|done]| | |apply same_flows; [done|]|]); try (unfold output; cbn; by rewrite app_assoc).
    all: try done; try (intros j; unfold in_hand; cbn; by rewrite Hlp).
    cbn. eapply points_sub; [exact He|]. by intros ? ? [_ ?]%lookup_delete_Some.
  - destruct (Hl k eq_refl) as [e Hk]. rewrite Hk in H. cbn in H. destruct (He k e Hk) as (f & Hfl & Hc & Hr). rewrite Hfl in H. cbn in H.
    assert (Hin : forall j, in_hand s j = if decide (flow e = j) then b else []) by (intros j; unfold in_hand; by rewrite Hlp, Hk).
    assert (Hpush : (if (length (queue f) <? FLOW_CHAN_CAP)%nat then Some (set_flow s (flow e) (push_queue f b) Idle) else None) = Some s' -> inv n s').
    { destruct (length (queue f) <? FLOW_CHAN_CAP)%nat; [|done]. intros Hq. apply (inj Some) in Hq as <-. eapply (inv_build n s _ []); [done|done|done|by eapply points_flow|done| |by rewrite app_nil_r].
      eapply (one_flow s _ (flow e) f); [done|done| |done..|]; rewrite ?Hin.
      - intros j Hne. by rewrite Hin, decide_False by done.
      - rewrite decide_True by done. apply flow_ok_push. }
    destruct (task f) eqn:Ht; try (by apply Hpush). injection H as <-.
    eapply (inv_build n s _ []); [done|done| | |done| |by rewrite app_nil_r].
    + split; [|done]. etrans; [|exact Hs]. apply map_subseteq_size, delete_subseteq.
    + cbn. eapply points_sub; [exact He|]. by intros ? ? [_ ?]%lookup_delete_Some.
    + intros j f' Hj. left. exists f'. split_and!; try done. rewrite Hin. change (in_hand _ j) with (@nil Z). case_decide as Hd; [|done].
      subst j. cbn in Hj. rewrite Hfl in Hj. injection Hj as <-. by apply flow_ok_ended.
Qed.

Section Invariant.
Context `{!HashOrder key TcpEntry} `{!HashOrderLaws key TcpEntry}.

Definition room (t : TcpBridgeTable) (now' : Z) : gmap key TcpEntry :=
  make_room last_seen (max_entries t) (retain_recent last_seen (entries t) now' (idle_timeout t)).

(** The table is never full: a new flow finds its place. *)
Lemma open_bridge_eq n s k tcp now now' :
  inv n s ->
  let m := room (table s) now' in
  let next := as_u32 (seq tcp + 1) in
  let isn := Z.lxor SERVER_ISN (sa_port k.1) in
  let scale := default 0 (window_scale tcp) in
  (size m < max_entries (table s))%nat /\
  open_bridge s k tcp now now' =
    mkSystem (with_entries (table s) (<[k := mkEntry (length (flows s)) now next scale]> m))
      (flows s ++ [flow_new k.1 k.2 isn (Z.max (scaled_window (window tcp) scale) 1) next]) (chan s)
      (Control (control_packet k.2 k.1 isn next (TCP_SYN + TCP_ACK) [1; 3; 3; TCP_WINDOW_SCALE]) Return) (writer s).
Proof.
  intros [[Hs Hm] _ _ _ _ _ _] m next isn scale.
  assert (Hsz : (size m < max_entries (table s))%nat).
  { apply make_room_size; [lia|]. etrans; [apply retain_recent_size|done]. }
  split; [done|]. unfold open_bridge.
  set (t := evict_idle (table s) now').
  assert (Ht : (if (max_entries t <=? size (entries t))%nat then evict_oldest t else t) = with_entries (table s) m).
  { unfold m, room, make_room, evict_oldest, with_entries. cbn. by destruct (_ <=? _)%nat. }
  rewrite Ht. cbn [with_entries max_entries entries]. by rewrite (proj2 (Nat.leb_gt _ _) Hsz).
Qed.

Lemma inv_open n s k tcp now now' :
  inv n s -> loop s = Idle -> same_version (sa_ip k.2) (sa_ip k.1) -> inv n (open_bridge s k tcp now now').
Proof.
  intros Hinv Hlp Hver. destruct (open_bridge_eq n s k tcp now now' Hinv) as [Hsz ->]. pose proof Hinv as [[Hs Hm] He Hl Hf Hv Hp Hwr].
  eapply (inv_build n s _ []); [done|done| | |done| |by rewrite app_nil_r].
  - split; [|done]. cbn. by apply insert_size.
  - cbn. intros k' e [[<- <-]|[_ Hk]]%lookup_insert_Some; cbn.
    + rewrite list_lookup_middle by done. eauto.
    + apply make_room_sub, retain_recent_lookup in Hk as [Hk _]. destruct (He _ _ Hk) as (f & Hfl & Hcr). exists f. split; [by apply lookup_app_l_Some|done].
  - assert (Hin : forall i, in_hand s i = []) by (intros; unfold in_hand; by rewrite Hlp).
    intros i f' [Hi|[Hi Hi']]%lookup_app_Some.
    + left. exists f'. by rewrite Hin.
    + right. destruct (i - length (flows s))%nat; [|done]. injection Hi' as <-. split_and!; [|done|done]. split; cbn; [done|done|].
      split; [done|]. unfold data_of, base. cbn. by rewrite Z.add_0_r.
Qed.

Lemma inv_packet n s raw now now' s' : inv n s -> loop s = Idle -> forward s raw now now' = Some s' -> inv n s'.
Proof.
  intros Hinv Hlp H. pose proof Hinv as [[Hs Hm] He Hl Hf Hv Hp Hwr]. unfold forward in H.
  assert (Hin : forall i, in_hand s i = []) by (intros; unfold in_hand; by rewrite Hlp).
  destruct (parse_ip_packet raw) as [packet|e|] eqn:Hpk; [|by injection H as <-|done].
  destruct (negb _); [by injection H as <-|]. destruct (from_packet packet raw) as [tcp|]; [|by injection H as <-].
  set (k := (mkSocketAddr (src packet) (src_port packet), mkSocketAddr (dst packet) (dst_port packet))) in *. cbv zeta in H.
  destruct (has (flags tcp) TCP_RST).
  - injection H as <-. eapply (inv_build n s _ []); [done|done| | |done|by apply same_flows|by rewrite app_nil_r].
    + split; [|done]. etrans; [|exact Hs]. apply map_subseteq_size, delete_subseteq.
    + cbn. eapply points_sub; [exact He|]. by intros ? ? [_ ?]%lookup_delete_Some.
  - destruct (_ && _).
    { injection H as <-. apply inv_open; [done|done|]. cbn. pose proof (parse_same_version _ _ Hpk) as Hsv.
      unfold same_version in *. by destruct (src packet), (dst packet). }
    destruct (entries (table s) !! k) as [e|] eqn:Hk; [|by injection H as <-].
    destruct (He k e Hk) as (f & Hfl & Hc & Hr).
    assert (Hsz : forall e', (size (<[k := e']> (entries (table s))) <= max_entries (table s))%nat) by (intros; by rewrite (update_size _ _ _ _ Hk)).
    destruct (has (flags tcp) TCP_ACK).
    + cbn in H. rewrite Hfl in H. cbn in H. injection H as <-. eapply (inv_build n s _ []); [done|done|split; [apply Hsz|done]| | | |by rewrite app_nil_r].
      * cbn. eapply points_flow; [by eapply points_entry|done..].
      * cbn. intros ? [= <-]. rewrite lookup_insert_eq. eauto.
      * eapply (one_flow s _ (flow e) f); [done|done| |done..|]; rewrite ?Hin; [intros j _; by rewrite Hin|].
        intros Hok. exact (proj1 (flow_ok_cells _ f _ 0 Hok)).
    + injection H as <-. eapply (inv_build n s _ []); [done|done|split; [apply Hsz|done]| | |by apply same_flows|by rewrite app_nil_r].
      * cbn. by eapply points_entry.
      * cbn. intros ? [= <-]. rewrite lookup_insert_eq. eauto.
Qed.

Lemma inv_exec n s ev s' : inv n s -> exec s ev = Some s' -> inv n s'.
Proof.
  intros Hinv H. destruct ev as [raw now now'| |now failed|now failed|now|p|i ev]; [| | | | | |by eapply inv_task]; cbn in H.
  - destruct (loop s) eqn:Hlp; try done. by eapply inv_packet.
  - by eapply inv_next.
  - destruct (loop s) eqn:Hlp; try done. destruct (chan s) as [|p c] eqn:Hc; [done|]. pose proof Hinv as [[Hs Hm] He Hl Hf Hv Hp Hwr].
    destruct (write_packets _ _ _ _ _) as [w c'] eqn:Hw. injection H as <-. apply write_packets_ok in Hw as [Hok Hheld]; [|done].
    eapply (inv_build n s _ []); [done|done|done|done|done|apply same_flows; [done|intros; unfold in_hand; by rewrite Hlp]|].
    unfold output. cbn. by rewrite Hc, app_nil_r.
  - destruct (loop s) eqn:Hlp; try done. destruct (packets _) as [|p c] eqn:Hc; [done|]. injection H as <-. pose proof Hinv as [[Hs Hm] He Hl Hf Hv Hp Hwr].
    destruct (batch_flush_ok (writer s) now failed Hwr) as [Hok Hheld].
    eapply (inv_build n s _ []); [done|done|done|done|done|apply same_flows; [done|intros; unfold in_hand; by rewrite Hlp]|].
    unfold output. cbn. by rewrite Hheld, app_nil_r.
  - destruct (loop s) eqn:Hlp; try done. injection H as <-. pose proof Hinv as [[Hs Hm] He Hl Hf Hv Hp Hwr].
    eapply (inv_build n s _ []); [done|done| | |done|apply same_flows; [done|intros; unfold in_hand; by rewrite Hlp]|by rewrite app_nil_r].
    + split; [|done]. cbn. etrans; [apply retain_recent_size|done].
    + cbn. eapply points_sub; [exact He|]. by intros ? ? [? _]%retain_recent_lookup.
  - case_match; [|done]. injection H as <-. pose proof Hinv as [[Hs Hm] He Hl Hf Hv Hp Hwr].
    eapply (inv_build n s _ [p]); [done|done|done|done|done|by apply same_flows|]. unfold output. cbn. by rewrite app_assoc.
Qed.

Lemma reachable_inv cfg port timeout n s : reachable cfg port timeout n s -> inv n s.
Proof.
  intros [evs Hr]. unfold run in Hr. assert (Hs : inv n (start cfg port timeout n)).
  { split; cbn; try done. split; [rewrite map_size_empty; lia|done]. }
  revert s Hr. induction evs as [|ev evs IH] using rev_ind; intros s Hr; cbn in Hr; [by injection Hr as <-|].
  rewrite foldl_app in Hr. cbn in Hr. apply bind_Some in Hr as (s1 & Hs1 & Hex). eapply inv_exec; [by apply IH|done].
Qed.
End Invariant.

(** C21. In every interleaving of the packet loop, the flow tasks and UDP replies: the
    stream of a flow has been written a prefix of the payloads that the loop acknowledged
    for it, in order and once each, and all of them when the flow is at rest; towards the
    client its segments carry consecutive sequence numbers and a prefix of what was read
    from the stream, as packets that are in order among those flushed to the device, in
    the batch for it and in the channel; the device has taken the flushed packets in
    order, all of them unless a write to it failed; and the table never exceeds its
    bound. *)
Theorem tun_tcp_bridge `{!HashOrder key TcpEntry} `{!HashOrderLaws key TcpEntry} cfg port timeout n s i f :
  reachable cfg port timeout n s -> flows s !! i = Some f ->
  written f `prefix_of` accepted f /\
  contiguous (base f) (sent f) /\ data_of (sent f) `prefix_of` incoming f /\
  (exists ps, Forall2 (carries f) (sent f) ps /\
     ps `sublist_of` flushed (writer s) ++ packets (batch (writer s)) ++ chan s) /\
  (device (writer s) `sublist_of` flushed (writer s) /\ (intact (writer s) = true -> device (writer s) = flushed (writer s))) /\
  (task f = Selecting -> queue f = [] -> loop s = Idle -> written f = accepted f /\ data_of (sent f) = incoming f) /\
  (size (entries (table s)) <= Nat.max n 1)%nat.
Proof.
  intros Hr Hi. destruct (reachable_inv _ _ _ _ _ Hr) as [[Hs Hm] _ _ Hf _ Hp Hwr]. destruct (Hf i f Hi) as [Hup Hseq Hdown].
  split; [|split; [|split; [|split; [|split; [|split]]]]]; try done.
  - destruct (live (task f)); [|done]. rewrite Hup. by apply prefix_app_r.
  - destruct (task f); destruct_and?; try (match goal with H : incoming f = _ |- _ => rewrite H end); try done; by apply prefix_app_r.
  - destruct (Hp i f Hi) as (ps & Hps & Hsub). exists ps. split; [done|]. unfold output, held in Hsub. by rewrite <- app_assoc in Hsub.
  - intros Ht Hq Hlp. rewrite Ht, Hq in Hup. unfold in_hand in Hup. rewrite Hlp in Hup. cbn in Hup. rewrite app_nil_r in Hup. rewrite Ht in Hdown. by destruct Hdown.
  - by rewrite <- Hm.
Qed.

(** A write that fails takes the rest of its batch with it. *)
Lemma failed_flush_drops w k :
  (k < length (packets (batch w)))%nat ->
  packets (batch (flush_tun_batch w (Some k))) = [] /\ device (flush_tun_batch w (Some k)) = device w ++ take k (packets (batch w)).
Proof. intros Hk. unfold flush_tun_batch. by rewrite (proj2 (Nat.ltb_lt _ _) Hk). Qed.

(** ** Deadlocks *)

Lemma run_cons `{!HashOrder key TcpEntry} s ev evs : run s (ev :: evs) = exec s ev ≫= fun s => run s evs.
Proof.
  unfold run. cbn. destruct (exec s ev) as [s1|]; [done|]. cbn. induction evs; cbn; auto.
Qed.

(** A predicate that every step keeps. *)
Lemma run_stable `{!HashOrder key TcpEntry} (P : System -> Prop) s evs s' :
  (forall s ev s', P s -> exec s ev = Some s' -> P s') -> P s -> run s evs = Some s' -> P s'.
Proof.
  intros Hstep. revert s. induction evs as [|ev evs IH]; intros s HP Hr; [by injection Hr as <-|].
  rewrite run_cons in Hr. apply bind_Some in Hr as (s1 & H1 & Hr). eauto.
Qed.

Lemma flow_task_full own c f ev c' f' : (WRITE_CHAN_CAP <= length c)%nat -> flow_task own c f ev = Some (c', f') -> c' = c.
Proof.
  intros Hc H. assert (Hsend : forall p c1, send_packet c p = Some c1 -> c1 = c).
  { intros p c1. unfold send_packet. rewrite (proj2 (Nat.ltb_ge _ _) Hc). by destruct p; intros [= <-]. }
  unfold flow_task in H. destruct (task f), ev; try done; try (repeat (case_match; try done); by injection H as <- <-).
  all: destruct (send_packet c _) as [c1|] eqn:E; [|done]; injection H as <- <-; by eapply Hsend.
Qed.

(** C22. The packet loop is the receiver of the channel of packets for the device, and
    [forward] waits for room in that channel: when the channel is full as the loop has an
    acknowledgement to send, the loop never takes another step, whatever the flows do;
    no packet is read from or written to the device again, nor added to the batch. *)
Theorem tun_tcp_loop_deadlock `{!HashOrder key TcpEntry} s packet next evs s' :
  loop s = Control (Ok packet) next -> (WRITE_CHAN_CAP <= length (chan s))%nat ->
  run s evs = Some s' ->
  loop s' = Control (Ok packet) next /\ chan s' = chan s /\ writer s' = writer s /\ table s' = table s.
Proof.
  intros Hlp Hc. apply (run_stable (fun t => loop t = Control (Ok packet) next /\ chan t = chan s /\ writer t = writer s /\ table t = table s)); [|done].
  intros t ev t' (Hl & Hch & Hd & Ht) H. destruct ev as [raw now now'| |now failed|now failed|now|p|i ev]; cbn in H; rewrite ?Hl in H; try done.
  - unfold forward_next in H. rewrite Hl in H. unfold send_packet in H. rewrite Hch in H. by rewrite (proj2 (Nat.ltb_ge _ _) Hc) in H.
  - rewrite Hch in H. by rewrite (proj2 (Nat.ltb_ge _ _) Hc) in H.
  - apply bind_Some in H as (f & Hf & ([c' f'] & Htask & H)%bind_Some). injection H as <-. cbn. rewrite Hch in Htask.
    apply flow_task_full in Htask; [|done]. by subst c'.
Qed.

(** ** Runs *)

#[local] Instance key_order : HashOrder key TcpEntry := plain_order.
#[local] Instance key_order_laws : HashOrderLaws key TcpEntry := plain_order_laws.

Definition cl : SocketAddr := mkSocketAddr (V4 [10; 0; 0; 2]) 50000.
Definition rm : SocketAddr := mkSocketAddr (V4 [93; 184; 216; 34]) 443.
Definition packet_of (sq fl : Z) (body : bytes) : bytes :=
  match build_tcp_packet cl rm sq (as_u32 (Z.lxor SERVER_ISN 50000 + 1)) fl body with Ok p => p | _ => [] end.

(** A flow is opened and its task connects. *)
Definition open_events : list event := [EPacket (packet_of 100 TCP_SYN []) 0 0; EForward; ETask 0 (TConnected true)].
(** A segment of the client. *)
Definition segment (sq : Z) (body : bytes) : list event := EPacket (packet_of sq (TCP_PSH + TCP_ACK) body) 1 1 :: replicate 4 EForward.
(** The stream gives bytes for the client. *)
Definition download (body : bytes) : list event := ETask 0 (TRead body) :: replicate 4 (ETask 0 TNext).
Definition first_system : System := start default_batch 1080 (120 * 10 ^ 9) 4.

Definition bridge_events : list event :=
  open_events ++ segment 101 [1; 2] ++ [ETask 0 TRecv; ETask 0 TWritten] ++ [EWrite 5 None] ++ download [7; 8; 9].
Definition bridge_demo : System := default first_system (run first_system bridge_events).

Lemma tun_tcp_bridge_witness :
  exists f, flows bridge_demo !! 0%nat = Some f /\ device (writer bridge_demo) <> [] /\ written f = [1; 2] /\ sent f <> [] /\ written f = accepted f /\ data_of (sent f) = incoming f.
Proof.
  destruct (flows bridge_demo !! 0%nat) as [f|] eqn:Hf; [|vm_compute in Hf; discriminate Hf].
  exists f. split; [reflexivity|].
  assert (Hr : reachable default_batch 1080 (120 * 10 ^ 9) 4 bridge_demo) by (exists bridge_events; vm_compute; reflexivity).
  pose proof (proj1 (proj2 (proj2 (proj2 (proj2 (proj2 (tun_tcp_bridge _ _ _ _ _ _ _ Hr Hf))))))) as Hrest.
  vm_compute in Hf. injection Hf as <-. split; [vm_compute; discriminate|]. split; [reflexivity|]. split; [discriminate|]. apply Hrest; reflexivity.
Defined.

(** UDP replies fill the channel before the loop gets to write; then the client sends. *)
Definition flood_events : list event :=
  open_events ++ replicate 1023 (EUdp [69]) ++ [EPacket (packet_of 101 (TCP_PSH + TCP_ACK) [1]) 1 1; EForward; EForward].
Definition flooded : System := default first_system (run first_system flood_events).

Lemma tun_tcp_loop_deadlock_witness :
  exists packet next, reachable default_batch 1080 (120 * 10 ^ 9) 4 flooded /\ loop flooded = Control (Ok packet) next /\
    (forall evs s', run flooded evs = Some s' -> writer s' = writer flooded).
Proof.
  destruct (loop flooded) as [| | |[p| |] next|] eqn:Hl; try (vm_compute in Hl; discriminate Hl).
  exists p, next. split; [exists flood_events; vm_compute; reflexivity|]. split; [reflexivity|].
  intros evs s' Hr. refine (proj1 (proj2 (proj2 (tun_tcp_loop_deadlock flooded p next evs s' Hl _ Hr)))).
  apply Nat.leb_le. vm_compute. reflexivity.
Defined.

(** ** What a client cannot rely on *)

(** A chunk of the stream is sent whole or not at all: with a window below the chunk the
    flow waits, however much the client acknowledges. *)
Lemma small_window_stalls sq a w len : w < len -> len < 2 ^ 32 -> window_open sq a w len = false.
Proof.
  intros Hw Hl. unfold window_open. apply Z.leb_gt. unfold as_u32. pose proof (Z.mod_pos_bound (sq - a) (2 ^ 32) ltac:(lia)). lia.
Qed.

(** A flow waits for the window while the loop waits for room in the channel of the flow:
    neither goes on, since only the loop could learn of a larger window. *)
Definition push_blocked (k : key) (b : bytes) (i : nat) (s : System) : Prop :=
  loop s = Push k b /\ (exists e, entries (table s) !! k = Some e /\ flow e = i) /\
  exists f sq d, flows s !! i = Some f /\ (FLOW_CHAN_CAP <= length (queue f))%nat /\
    (task f = Waiting sq d \/ task f = Probing sq d (client_ack_seen f)) /\
    window_open (server_seq f) (client_ack_seen f) (client_window_seen f) (zlen d) = false.

Lemma push_deadlock k b i s evs s' : push_blocked k b i s -> run s evs = Some s' -> push_blocked k b i s'.
Proof.
  apply run_stable. clear. intros s ev s' (Hl & (e & He & Hfl) & f & sq & d & Hf & Hq & Ht & Hw) H.
  destruct ev as [raw now now'| |now failed|now failed|now|p|j ev]; cbn in H; rewrite ?Hl in H; try done.
  - unfold forward_next in H. rewrite Hl, He in H. cbn in H. rewrite Hfl, Hf in H. cbn in H. rewrite (proj2 (Nat.ltb_ge _ _) Hq) in H.
    by destruct Ht as [Ht|Ht]; rewrite Ht in H.
  - destruct (length (chan s) <? WRITE_CHAN_CAP)%nat; [|done]. injection H as <-. split; [done|]. split; [by exists e|]. by exists f, sq, d.
  - apply bind_Some in H as (g & Hg & ([c' g'] & Htask & H)%bind_Some). apply (inj Some) in H as <-. split; [done|]. split; [by exists e|]. cbn [fst snd].
    destruct (decide (j = i)) as [->|Hne]; [|exists f, sq, d; cbn; by rewrite list_lookup_insert_ne].
    rewrite Hf in Hg. injection Hg as <-. cbn. destruct Ht as [Ht|Ht]; unfold flow_task in Htask; rewrite Ht in Htask; destruct ev; try done; injection Htask as <- <-.
    + exists (set_task f (Probing sq d (client_ack_seen f))), sq, d. rewrite list_lookup_insert_eq by (by eapply lookup_lt_Some). by auto.
    + rewrite Hw. exists (set_task f (Waiting sq d)), sq, d. rewrite list_lookup_insert_eq by (by eapply lookup_lt_Some). by auto.
Qed.

Definition flow0 (evs : list event) : option Flow := s ← run first_system evs; flows s !! 0%nat.

(** A segment that is sent again is delivered again. *)
Lemma duplicate_delivered : written <$> flow0 (open_events ++ segment 101 [1; 2] ++ segment 101 [1; 2] ++
  [ETask 0 TRecv; ETask 0 TWritten; ETask 0 TRecv; ETask 0 TWritten]) = Some [1; 2; 1; 2].
Proof. vm_compute. reflexivity. Qed.

(** The end of the client's stream cancels the task before it has written what the loop
    has acknowledged. *)
Lemma fin_loses_data :
  exists f, flow0 (open_events ++ segment 101 [1; 2] ++
    EPacket (packet_of 103 (TCP_FIN + TCP_ACK) []) 2 2 :: replicate 3 EForward ++ [ETask 0 TCancelled]) = Some f /\
    task f = Ended /\ accepted f = [1; 2] /\ written f = [].
Proof. eexists. split; [vm_compute; reflexivity|]. done. Qed.

(** Bytes that arrive together with the end are dropped; the acknowledgement counts one. *)
Lemma fin_payload_dropped :
  exists s k, run first_system (open_events ++ EPacket (packet_of 101 (TCP_FIN + TCP_ACK) [1; 2]) 2 2 :: replicate 2 EForward) = Some s /\
    accepted <$> (flows s !! 0%nat) = Some [] /\ client_next_seq <$> (entries (table s) !! k) = Some 102.
Proof. eexists. exists (cl, rm). split; [vm_compute; reflexivity|]. vm_compute. done. Qed.
