(* ===== verification/Reality.v ===== *)
(** * REALITY: admission

    [blackwire-transport] [reality/client.rs] (the hello and its token), the reader of the
    ClientHello of [reality/tls13.rs] and [reality/server.rs]: who is let in, and what the
    cover site sees otherwise.  X25519 and HKDF-SHA256 are an interface; AES-256-GCM is
    that of [Aead].  A read of the server gives what it has mirrored to the cover
    connection and what it has left unread. *)

From S2P Require Import Prelude Common DomainMatch IpText Router Aead ClientHello.

Class RealityCrypto : Type := {
  x25519_public : bytes -> bytes;
  x25519 : bytes -> bytes -> bytes;
  hkdf_sha256 : bytes -> bytes -> bytes -> nat -> option bytes
}.

(** Key agreement, and keys of the length asked for. *)
Class RealityCryptoLaws `{RealityCrypto} : Prop := {
  x25519_agree a b : x25519 a (x25519_public b) = x25519 b (x25519_public a);
  x25519_public_length a : length (x25519_public a) = 32%nat;
  hkdf_sha256_ok salt ikm info : exists k, hkdf_sha256 salt ikm info 32 = Some k
}.

Definition REALITY_HKDF_INFO : bytes := str "REALITY".
Definition REALITY_TOKEN_PLAINTEXT_LEN : nat := 16.
Definition MAX_TIME_DIFF_SECS : Z := 120.
Definition SESSION_ID_OFFSET_IN_HANDSHAKE_BODY : nat := 39.
Definition MAX_CLIENT_HELLO_SIZE : Z := 64 * 1024.
Definition TLS_MAX_PLAINTEXT_RECORD : Z := 16 * 1024.
Definition READ_CHUNK : nat := Z.to_nat (8 * 1024).
Definition RT_HANDSHAKE : Z := 0x16.
Definition HS_CLIENT_HELLO : Z := 0x01.

(** [slice[pos..pos + 32].copy_from_slice(b)] *)
Definition patch (pos : nat) (b buf : bytes) : bytes := take pos buf ++ b ++ drop (pos + length b) buf.

(** ** The client *)

Record RealityClientConfig : Type := mkClientConfig {
  server_public_key : bytes;
  short_id : bytes;
  c_sni : bytes
}.

Section Client.
Context `{RealityCrypto} `{AeadCrate}.

Definition client_auth_key (shared random : bytes) : result bytes :=
  of_option (Protocol "HKDF expand failed") (hkdf_sha256 (take 20 random) shared REALITY_HKDF_INFO 32).

Definition token_plaintext (short_id : bytes) (now : Z) : bytes :=
  let sid := take 8 short_id in
  replicate 4 0 ++ be_bytes 4 (as_u32 now) ++ sid ++ replicate (8 - length sid) 0.

Definition encrypt_reality_token (short_id random auth_key aad : bytes) (now : Z) : result bytes :=
  let output := sealed (mkKey Aes256Gcm auth_key) (drop 20 random) aad (token_plaintext short_id now) in
  if (length output =? 32)%nat then Ok output else Err (Protocol "REALITY token encryption length mismatch").

(** [dial] up to the hello that it sends: [secret], [random], [draws] and the P-256 share
    are drawn, [now] is the clock of the client in seconds. *)
Definition dial_hello (cfg : RealityClientConfig) (secret random secp256r1_public : bytes) (draws : fin 16 * fin 16) (now : Z) :
    result (bytes * bytes) :=
  let auth_shared_secret := x25519 secret (server_public_key cfg) in
  auth_key ← client_auth_key auth_shared_secret random;
  let hello_bytes := build_with_additional_key_share chrome_131 (c_sni cfg) random (replicate 32 0)
    (Some (x25519_public secret)) (Some secp256r1_public) draws [] in
  token ← encrypt_reality_token (short_id cfg) random auth_key (drop 5 hello_bytes) now;
  Ok (patch (5 + SESSION_ID_OFFSET_IN_HANDSHAKE_BODY) token hello_bytes, auth_key).
End Client.

(** ** Reading a hello *)

(** What is mirrored, what is left, and the result. *)
Definition wire (A : Type) : Type := bytes -> bytes * bytes * result A.

#[export] Instance wire_ret : MRet wire := fun A a s => ([], s, Ok a).
#[export] Instance wire_bind : MBind wire := fun A B f m s =>
  match m s with
  | (w, s', Ok a) => let '(w', s'', r) := f a s' in (w ++ w', s'', r)
  | (w, s', Err e) => (w, s', Err e)
  | (w, s', Panic) => (w, s', Panic)
  end.

Definition refuse {A} (msg : string) : wire A := fun s => ([], s, Err (Protocol msg)).

Definition stuck {A} : wire A := fun s => ([], s, Panic).

(** [read_exact] and, with a mirror, [write_all] of what was read: when the stream ends
    or stops inside, what had been read is gone. *)
Definition pull (mirror : bool) (n : nat) : wire bytes := fun s =>
  if (length s <? n)%nat then ([], [], Err (Io UnexpectedEof))
  else (if mirror then take n s else [], drop n s, Ok (take n s)).

(** The expected length, once the first four bytes are there. *)
Definition learn_length (message : bytes) (expected_len : option Z) : wire (option Z) :=
  match expected_len, message with
  | None, b0 :: b1 :: b2 :: b3 :: _ =>
      if negb (b0 =? HS_CLIENT_HELLO) then refuse "expected ClientHello handshake"
      else
        let total := be_val [b1; b2; b3] + 4 in
        if MAX_CLIENT_HELLO_SIZE <? total then refuse "ClientHello length exceeds" else mret (Some total)
  | _, _ => mret expected_len
  end.

(** The loop over one record: chunks of at most [READ_CHUNK] bytes. *)
Fixpoint read_record_chunks (fuel : nat) (mirror : bool) (remaining : nat) (message : bytes) (expected_len : option Z) :
    wire (bytes * option Z) :=
  match fuel with
  | O => stuck
  | S fuel =>
      if (remaining =? 0)%nat then mret (message, expected_len)
      else
        let take := Nat.min remaining READ_CHUNK in
        chunk ← pull mirror take;
        if MAX_CLIENT_HELLO_SIZE <? zlen message + Z.of_nat take then refuse "ClientHello exceeds"
        else
          let message := message ++ chunk in
          expected_len ← learn_length message expected_len;
          read_record_chunks fuel mirror (remaining - take) message expected_len
  end.

(** The loop over the records. *)
Fixpoint read_hello_records (fuel : nat) (mirror : bool) (message : bytes) (expected_len : option Z) : wire bytes :=
  match fuel with
  | O => stuck
  | S fuel =>
      header ← pull mirror 5;
      match header with
      | [ty; _; _; hi; lo] =>
          if negb (ty =? RT_HANDSHAKE) then refuse "expected ClientHello TLS record"
          else
            let record_len := be_val [hi; lo] in
            if (record_len =? 0) || (TLS_MAX_PLAINTEXT_RECORD <? record_len) then refuse "invalid ClientHello TLS record length"
            else
              let n := Z.to_nat record_len in
              r ← read_record_chunks (S n) mirror n message expected_len;
              match r.2 with
              | Some expected =>
                  if zlen r.1 =? expected then mret r.1
                  else if expected <? zlen r.1 then refuse "ClientHello record contains trailing handshake bytes"
                  else read_hello_records fuel mirror r.1 r.2
              | None => read_hello_records fuel mirror r.1 r.2
              end
      | _ => stuck
      end
  end.

(** Every record adds a byte to a message that is bounded. *)
Definition read_client_hello_message (mirror : bool) : wire bytes :=
  read_hello_records (S (S (Z.to_nat MAX_CLIENT_HELLO_SIZE))) mirror [] None.

Fixpoint encode_records (fuel : nat) (handshake : bytes) : bytes :=
  match fuel with
  | O => []
  | S fuel =>
      match handshake with
      | [] => []
      | _ =>
          let chunk := take (Z.to_nat TLS_MAX_PLAINTEXT_RECORD) handshake in
          [0x16; 0x03; 0x03] ++ put_u16 (as_u16 (zlen chunk)) ++ chunk ++
          encode_records fuel (drop (Z.to_nat TLS_MAX_PLAINTEXT_RECORD) handshake)
      end
  end.

Definition encode_handshake_records (handshake : bytes) : bytes := encode_records (length handshake) handshake.

(** ** The server *)

Record RealityServerConfig : Type := mkServerConfig {
  private_key : bytes;
  short_ids : list bytes;
  server_names : list bytes;
  max_time_diff : Z
}.

(** [RealityServer::new]; sorting and removing repetitions, which no operation can tell,
    is left out. *)
Definition RealityServer_new (cfg : RealityServerConfig) : RealityServerConfig :=
  mkServerConfig (private_key cfg) (short_ids cfg)
    (filter (fun name => name <> []) ((fun name => ascii_lower <$> trim name) <$> server_names cfg))
    (if max_time_diff cfg <=? 0 then MAX_TIME_DIFF_SECS else max_time_diff cfg).

Fixpoint drop_zeros (l : bytes) : bytes := match l with b :: l' => if b =? 0 then drop_zeros l' else l | [] => [] end.

Definition strip_zero_padding (short_id : bytes) : bytes := reverse (drop_zeros (reverse short_id)).

Definition validate_reality_token (plaintext : bytes) (allowed_short_ids : list bytes) (max_time_diff now : Z) : bool :=
  if (length plaintext <? 16)%nat then false
  else
    let ts := be_val (take 4 (drop 4 plaintext)) in
    let short_id := take 8 (drop 8 plaintext) in
    if max_time_diff <? Z.abs (now - ts) then false
    else bool_decide (strip_zero_padding short_id ∈ allowed_short_ids).

Definition xray_zeroed_session_id_aad (handshake_body : bytes) : result bytes :=
  let sid_start := SESSION_ID_OFFSET_IN_HANDSHAKE_BODY in
  if (length handshake_body <? sid_start + 32)%nat then Err (Protocol "handshake body too short to contain session_id")
  else Ok (patch sid_start (replicate 32 0) handshake_body).

Inductive ReplayMode : Type := PrependClientHello | ConsumeClientHello.

Section Server.
Context `{RealityCrypto} `{AeadCrate}.

Definition derive_reality_auth_key (private peer_pub client_random : bytes) : option bytes :=
  hkdf_sha256 (take 20 client_random) (x25519 private peer_pub) REALITY_HKDF_INFO 32.

Definition decrypt_reality_session_id (fields : ClientHelloFields) (auth_key aad : bytes) : option bytes :=
  open_combined (mkKey Aes256Gcm auth_key) (drop 20 (f_random fields)) aad (f_session_id fields).

Definition encrypt_session_id (fields : ClientHelloFields) (auth_key aad plaintext16 : bytes) : option bytes :=
  let output := sealed (mkKey Aes256Gcm auth_key) (drop 20 (f_random fields)) aad plaintext16 in
  if (length output =? 32)%nat then Some output else None.

Definition reality_auth_roundtrip_matches (fields : ClientHelloFields) (auth_key aad plaintext : bytes) : bool :=
  if (length plaintext <? 16)%nat then false
  else
    match encrypt_session_id fields auth_key aad (take 16 plaintext) with
    | Some enc => bool_decide (enc = f_session_id fields)
    | None => false
    end.

Definition decrypt_and_validate_reality_token (fields : ClientHelloFields) (auth_key aad : bytes) (short_ids : list bytes)
    (max_time_diff now : Z) : option bytes :=
  plaintext ← decrypt_reality_session_id fields auth_key aad;
  if validate_reality_token plaintext short_ids max_time_diff now && reality_auth_roundtrip_matches fields auth_key aad plaintext
  then Some plaintext else None.

Fixpoint try_peer_keys (cfg : RealityServerConfig) (now : Z) (fields : ClientHelloFields) (aads : list bytes) (peer_keys : list bytes) : result bytes :=
  match peer_keys with
  | [] => Err (Protocol "REALITY authentication failed")
  | peer_pub :: peer_keys =>
      match derive_reality_auth_key (private_key cfg) peer_pub (f_random fields) with
      | None => try_peer_keys cfg now fields aads peer_keys
      | Some auth_key =>
          if existsb (fun aad => bool_decide (is_Some (decrypt_and_validate_reality_token fields auth_key aad (short_ids cfg) (max_time_diff cfg) now))) aads
          then Ok auth_key
          else try_peer_keys cfg now fields aads peer_keys
      end
  end.

Definition derive_auth_key (cfg : RealityServerConfig) (now : Z) (fields : ClientHelloFields) (handshake_body : bytes) : result bytes :=
  keys ← reality_auth_peer_public_keys handshake_body;
  let peer_keys := match keys with [] => [x25519_key_share fields] | _ => keys end in
  zeroed_aad ← xray_zeroed_session_id_aad handshake_body;
  try_peer_keys cfg now fields [zeroed_aad; handshake_body] peer_keys.

(** The hello of a client that is let in, and its key. *)
Definition authenticate (cfg : RealityServerConfig) (now : Z) (handshake_body : bytes) : result bytes :=
  fields ← parse_client_hello handshake_body;
  if negb (existsb (fun name => bool_decide (ascii_lower <$> name = ascii_lower <$> f_sni fields)) (server_names cfg))
  then Err (Protocol "ClientHello SNI not in REALITY allow-list")
  else derive_auth_key cfg now fields handshake_body.

(** [accept_inner]: the stream with what is put in front of it and the key, or the cover
    relay, which goes on with what is left. *)
Inductive accepted : Type :=
| Authenticated (prefix auth_key : bytes)
| Fallback.

Definition accept_inner (cfg : RealityServerConfig) (mode : ReplayMode) (now : Z) (input : bytes) : bytes * bytes * accepted :=
  match read_client_hello_message true input with
  | (mirrored, rest, Ok handshake_body) =>
      (mirrored, rest,
       match authenticate cfg now handshake_body with
       | Ok auth_key =>
           Authenticated (match mode with PrependClientHello => encode_handshake_records handshake_body | ConsumeClientHello => [] end) auth_key
       | _ => Fallback
       end)
  | (mirrored, rest, _) => (mirrored, rest, Fallback)
  end.
End Server.

(** * Facts *)

(** ** Reading a hello *)

(** What is mirrored and what is left are the input, unless it ended inside a read. *)
Definition mirrors {A} (m : wire A) : Prop := forall s,
  let '(w, l, r) := m s in w ++ l = s \/ r = Err (Io UnexpectedEof) /\ l = [] /\ w `prefix_of` s.

Lemma mirrors_bind {A B} (m : wire A) (f : A -> wire B) : mirrors m -> (forall a, mirrors (f a)) -> mirrors (m ≫= f).
Proof.
  intros Hm Hf s. unfold mbind, wire_bind. specialize (Hm s). destruct (m s) as [[w l] [a|e|]].
  - destruct Hm as [<-|[? _]]; [|done]. specialize (Hf a l). destruct (f a l) as [[w' l'] r].
    destruct Hf as [<-|(-> & -> & Hp)]; [left; by rewrite app_assoc|]. right. split_and!; try done. by apply prefix_app.
  - destruct Hm as [?|([= ->] & ? & ?)]; [by left|by right].
  - destruct Hm as [?|[? _]]; [by left|done].
Qed.

Lemma mirrors_ret {A} (a : A) : mirrors (mret a).
Proof. intros s. by left. Qed.
Lemma mirrors_refuse {A} msg : mirrors (refuse (A := A) msg).
Proof. intros s. by left. Qed.
Lemma mirrors_stuck {A} : mirrors (stuck (A := A)).
Proof. intros s. by left. Qed.
Lemma mirrors_pull n : mirrors (pull true n).
Proof.
  intros s. unfold pull. destruct (length s <? n)%nat; [right; split_and!; try done; apply prefix_nil|]. left. apply take_drop.
Qed.

#[local] Hint Resolve mirrors_ret mirrors_refuse mirrors_stuck mirrors_pull : core.

Lemma mirrors_learn m e : mirrors (learn_length m e).
Proof. unfold learn_length. repeat case_match; auto. Qed.

Lemma mirrors_chunks fuel n m e : mirrors (read_record_chunks fuel true n m e).
Proof.
  revert n m e. induction fuel as [|fuel IH]; intros n m e; cbn [read_record_chunks]; [auto|]. case_match; [auto|].
  apply mirrors_bind; [auto|]. intros c. case_match; [auto|]. apply mirrors_bind; [apply mirrors_learn|auto].
Qed.

Lemma mirrors_records fuel m e : mirrors (read_hello_records fuel true m e).
Proof.
  revert m e. induction fuel as [|fuel IH]; intros m e; cbn [read_hello_records]; [auto|].
  apply mirrors_bind; [auto|]. intros h. repeat (case_match; auto). cbv zeta.
  apply mirrors_bind; [apply mirrors_chunks|]. intros r. repeat (case_match; auto).
Qed.

(** *** The reader finishes without a panic *)

Definition calm {A} (m : wire A) (P : A -> Prop) : Prop := forall s, bytes_ok s ->
  match (m s).2 with Ok a => P a | Err _ => True | Panic => False end /\ bytes_ok (m s).1.2.

Lemma calm_bind {A B} (m : wire A) (f : A -> wire B) P Q : calm m P -> (forall a, P a -> calm (f a) Q) -> calm (m ≫= f) Q.
Proof.
  intros Hm Hf s Hs. unfold mbind, wire_bind. specialize (Hm s Hs). destruct (m s) as [[w l] [a|e|]]; try done.
  destruct Hm as [Ha Hl]. specialize (Hf a Ha l Hl). by destruct (f a l) as [[w' l'] r].
Qed.

Lemma calm_ret {A} (a : A) (P : A -> Prop) : P a -> calm (mret a) P.
Proof. by intros Ha s Hs. Qed.
Lemma calm_refuse {A} msg (P : A -> Prop) : calm (refuse msg) P.
Proof. by intros s Hs. Qed.

Lemma calm_pull mirror n : calm (pull mirror n) (fun b => length b = n /\ bytes_ok b).
Proof.
  intros s Hs. unfold pull. destruct (Nat.ltb_spec (length s) n); cbn; [split; [done|constructor]|]. split; [|by apply Forall_drop].
  rewrite length_take. split; [lia|by apply Forall_take].
Qed.

Lemma calm_learn m e : calm (learn_length m e) (fun _ => True).
Proof. unfold learn_length. repeat case_match; auto using calm_ret, calm_refuse. Qed.

Lemma calm_chunks fuel mirror n m e :
  (n < fuel)%nat -> zlen m <= MAX_CLIENT_HELLO_SIZE ->
  calm (read_record_chunks fuel mirror n m e) (fun r => zlen r.1 = zlen m + Z.of_nat n /\ zlen r.1 <= MAX_CLIENT_HELLO_SIZE).
Proof.
  revert n m e. induction fuel as [|fuel IH]; intros n m e Hn Hm; [lia|]. cbn [read_record_chunks].
  destruct (Nat.eqb_spec n 0) as [->|Hn0]; [apply calm_ret; cbn; lia|]. assert (Hr : (0 < READ_CHUNK)%nat) by (unfold READ_CHUNK; lia).
  eapply calm_bind; [apply calm_pull|]. intros c [Hc _].
  destruct (Z.ltb_spec MAX_CLIENT_HELLO_SIZE (zlen m + Z.of_nat (Nat.min n READ_CHUNK))) as [Hbig|Hok]; [apply calm_refuse|].
  eapply calm_bind; [apply calm_learn|]. intros e' _.
  assert (Hlen : zlen (m ++ c) = zlen m + Z.of_nat (Nat.min n READ_CHUNK)) by (rewrite zlen_app; unfold zlen; lia).
  intros s Hs. specialize (IH (n - Nat.min n READ_CHUNK)%nat (m ++ c) e' ltac:(lia) ltac:(lia) s Hs) as [H1 H2]. split; [|done].
  destruct (read_record_chunks _ _ _ _ _ s).2; try done. rewrite Hlen in H1. lia.
Qed.

Lemma calm_records fuel mirror m e :
  zlen m <= MAX_CLIENT_HELLO_SIZE -> MAX_CLIENT_HELLO_SIZE - zlen m < Z.of_nat fuel -> calm (read_hello_records fuel mirror m e) (fun _ => True).
Proof.
  revert m e. induction fuel as [|fuel IH]; intros m e Hm Hf; [lia|]. cbn [read_hello_records].
  eapply calm_bind; [apply calm_pull|]. intros h [Hh Hb]. destruct h as [|a [|b [|c [|x [|y [|]]]]]]; try done.
  destruct (negb _); [apply calm_refuse|]. cbv zeta. destruct (_ || _) eqn:Eg; [apply calm_refuse|]. apply orb_false_iff in Eg as [Ez _]. apply Z.eqb_neq in Ez.
  assert (Hpos : 0 < be_val [x; y]).
  { do 3 apply Forall_cons in Hb as [_ Hb]. apply Forall_cons in Hb as [Hx Hb]. apply Forall_cons in Hb as [Hy _].
    unfold be_val, in_u8 in *. cbn in *. lia. }
  eapply calm_bind; [apply calm_chunks; [lia|done]|]. intros r [Hr1 Hr2].
  assert (Hrec : calm (read_hello_records fuel mirror r.1 r.2) (fun _ => True)) by (apply IH; lia).
  destruct r.2; [|done]. repeat case_match; auto using calm_ret, calm_refuse.
Qed.

Lemma mirrors_reader : mirrors (read_client_hello_message true).
Proof. apply mirrors_records. Qed.

Lemma calm_reader mirror : calm (read_client_hello_message mirror) (fun _ => True).
Proof. apply calm_records; unfold MAX_CLIENT_HELLO_SIZE, zlen; cbn [length]; lia. Qed.

(** *** A hello in records *)

Definition expected_of (m : bytes) : option Z :=
  match m with _ :: b1 :: b2 :: b3 :: _ => Some (be_val [b1; b2; b3] + 4) | _ => None end.

(** A ClientHello message: its type and its length. *)
Definition hello_message (m : bytes) : Prop :=
  head m = Some HS_CLIENT_HELLO /\ expected_of m = Some (zlen m) /\ zlen m <= MAX_CLIENT_HELLO_SIZE.

(** Once four bytes are there the length is that of the whole message. *)
Lemma learn_step m p c : hello_message m -> p ++ c `prefix_of` m ->
  forall s, learn_length (p ++ c) (expected_of p) s = ([], s, Ok (expected_of (p ++ c))).
Proof.
  intros (Hh & He & Hm) [t Ht] s. unfold learn_length. destruct (expected_of p) as [e|] eqn:Ep.
  - destruct p as [|a0 [|a1 [|a2 [|a3 p]]]]; try done. cbn. by rewrite <- Ep.
  - destruct (p ++ c) as [|a0 [|a1 [|a2 [|a3 q]]]]; try done. rewrite Ht in Hh, He, Hm. cbn [app head expected_of] in Hh, He, Hm. injection Hh as ->. injection He as He.
    assert (Hle : (MAX_CLIENT_HELLO_SIZE <? be_val [a1; a2; a3] + 4) = false) by (apply Z.ltb_ge; lia).
    cbn [negb Z.eqb Pos.eqb HS_CLIENT_HELLO]. by rewrite Hle.
Qed.

Lemma wire_bind_ok {A B} (m : wire A) (f : A -> wire B) s w l a : m s = (w, l, Ok a) ->
  (m ≫= f) s = (w ++ (f a l).1.1, (f a l).1.2, (f a l).2).
Proof. intros H. unfold mbind, wire_bind. rewrite H. by destruct (f a l) as [[w' l'] r]. Qed.

Lemma pull_app mirror (b s : bytes) n : n = length b -> pull mirror n (b ++ s) = (if mirror then b else [], s, Ok b).
Proof.
  intros ->. unfold pull. rewrite length_app. rewrite (proj2 (Nat.ltb_ge _ _)) by lia.
  by rewrite take_app_length, drop_app_length.
Qed.

Lemma chunks_read m fuel mirror p c s :
  hello_message m -> p ++ c `prefix_of` m -> (length c < fuel)%nat ->
  read_record_chunks fuel mirror (length c) p (expected_of p) (c ++ s) = (if mirror then c else [], s, Ok (p ++ c, expected_of (p ++ c))).
Proof.
  intros Hm. revert p c. induction fuel as [|fuel IH]; intros p c Hp Hf; [lia|]. cbn [read_record_chunks].
  destruct (Nat.eqb_spec (length c) 0) as [Hc|Hc].
  { apply nil_length_inv in Hc as ->. rewrite app_nil_r. by destruct mirror. }
  set (k := Nat.min (length c) READ_CHUNK). assert (Hk : (0 < k <= length c)%nat) by (unfold k, READ_CHUNK; lia).
  replace (c ++ s) with (take k c ++ drop k c ++ s) by (by rewrite app_assoc, take_drop).
  erewrite wire_bind_ok by (apply pull_app; rewrite length_take; lia).
  assert (Hle : zlen (p ++ c) <= zlen m) by (destruct Hp as [t ->]; rewrite (zlen_app _ t); pose proof (zlen_nonneg t); lia).
  destruct Hm as (Hh & He & Hmax). rewrite zlen_app in Hle.
  rewrite (proj2 (Z.ltb_ge _ _)) by (unfold zlen in *; lia).
  assert (Hp1 : p ++ take k c `prefix_of` m).
  { etrans; [|exact Hp]. apply prefix_app. exists (drop k c). by rewrite take_drop. }
  erewrite wire_bind_ok by (by apply (learn_step m)). rewrite <- length_drop.
  rewrite (IH (p ++ take k c) (drop k c)).
  2:{ by rewrite <- app_assoc, take_drop. }
  2:{ rewrite length_drop. lia. }
  cbn. rewrite <- app_assoc, take_drop. destruct mirror; [by rewrite take_drop|done].
Qed.

(** A record on the wire. *)
Definition record_of (r : Z * Z * bytes) : bytes := [RT_HANDSHAKE; r.1.1; r.1.2] ++ put_u16 (zlen r.2) ++ r.2.
Definition record_fits (r : Z * Z * bytes) : Prop := 0 < zlen r.2 <= TLS_MAX_PLAINTEXT_RECORD.

Lemma records_read m fuel mirror p rs s :
  hello_message m -> p ++ concat rs.*2 = m -> rs <> [] -> Forall record_fits rs -> (length rs <= fuel)%nat ->
  read_hello_records fuel mirror p (expected_of p) (concat (record_of <$> rs) ++ s) =
    (if mirror then concat (record_of <$> rs) else [], s, Ok m).
Proof.
  intros Hm. revert p rs. induction fuel as [|fuel IH]; intros p rs Hp Hne Hfit Hf; [destruct rs; cbn in Hf; [done|lia]|].
  destruct rs as [|[[v1 v2] c] rs]; [done|]. apply Forall_cons in Hfit as [Hc Hfit]. unfold record_fits in Hc. cbn in Hc.
  cbn [read_hello_records fmap list_fmap concat]. unfold record_of at 1 3. cbn [fst snd]. rewrite <- !app_assoc.
  assert (Hhd : exists hi lo, put_u16 (zlen c) = [hi; lo] /\ be_val [hi; lo] = zlen c).
  { pose proof (be_val_be_bytes_id 2 (zlen c)) as Hv. unfold put_u16. destruct (be_bytes 2 (zlen c)) as [|hi [|lo [|x l]]] eqn:E; try done.
    exists hi, lo. split; [done|]. apply Hv. unfold TLS_MAX_PLAINTEXT_RECORD in Hc. lia. }
  destruct Hhd as (hi & lo & -> & Hbe).
  change ([RT_HANDSHAKE; v1; v2] ++ [hi; lo] ++ c ++ concat (record_of <$> rs) ++ s)
    with ([RT_HANDSHAKE; v1; v2; hi; lo] ++ c ++ concat (record_of <$> rs) ++ s).
  erewrite wire_bind_ok by (by apply pull_app). cbn [negb Z.eqb Pos.eqb RT_HANDSHAKE]. rewrite Hbe.
  rewrite (proj2 (Z.eqb_neq _ _)), (proj2 (Z.ltb_ge _ _)) by lia. cbn [orb]. cbv zeta.
  assert (Hn : Z.to_nat (zlen c) = length c) by (unfold zlen; lia). rewrite Hn.
  assert (Hpc : p ++ c `prefix_of` m) by (exists (concat rs.*2); by rewrite <- Hp, <- app_assoc).
  erewrite wire_bind_ok by (apply (chunks_read m); [done|done|lia]). cbn [fst snd].
  destruct rs as [|r rs].
  - assert (Hpm : p ++ c = m) by (rewrite <- Hp; cbn; by rewrite app_nil_r). pose proof Hm as (_ & He & _). rewrite Hpm, He, Z.eqb_refl.
    destruct mirror; cbn; by rewrite ?app_nil_r.
  - assert (Hlt : zlen (p ++ c) < zlen m).
    { rewrite <- Hp. cbn. apply Forall_cons in Hfit as [Hr _]. unfold record_fits in Hr. rewrite !zlen_app. pose proof (zlen_nonneg (concat rs.*2)). lia. }
    assert (Hexp : expected_of (p ++ c) = None \/ expected_of (p ++ c) = Some (zlen m)).
    { destruct Hm as (_ & He & _). rewrite <- He. destruct Hpc as [t ->]. destruct (p ++ c) as [|a0 [|a1 [|a2 [|a3 q]]]]; auto. }
    assert (Hrec := IH (p ++ c) (r :: rs) ltac:(by rewrite <- app_assoc) ltac:(done) Hfit ltac:(cbn in *; lia)).
    destruct Hexp as [Hexp|Hexp]; rewrite Hexp in Hrec |- *; [|rewrite (proj2 (Z.eqb_neq _ _)), (proj2 (Z.ltb_ge _ _)) by lia].
    all: rewrite Hrec; cbn [fst snd]; destruct mirror; by rewrite <- ?app_assoc.
Qed.

Lemma encode_records_split fuel h : (length h <= fuel)%nat ->
  exists rs, encode_records fuel h = concat (record_of <$> rs) /\ concat rs.*2 = h /\ Forall record_fits rs /\ (length rs <= length h)%nat.
Proof.
  revert h. induction fuel as [|fuel IH]; intros h Hl; [destruct h; [by exists []|cbn in Hl; lia]|].
  destruct h as [|b h]; [by exists []|]. cbn [encode_records]. set (n := Z.to_nat TLS_MAX_PLAINTEXT_RECORD).
  assert (Hn : (0 < n)%nat) by (unfold n, TLS_MAX_PLAINTEXT_RECORD; lia).
  destruct (IH (drop n (b :: h))) as (rs & Hrs & Hc & Hf & Hlen); [rewrite length_drop; cbn in *; lia|].
  assert (Hfit : 0 < zlen (take n (b :: h)) <= TLS_MAX_PLAINTEXT_RECORD).
  { unfold zlen. rewrite length_take. cbn [length]. unfold n. unfold TLS_MAX_PLAINTEXT_RECORD in *. lia. }
  exists ((3, 3, take n (b :: h)) :: rs). split_and!.
  - cbn [fmap list_fmap concat]. rewrite Hrs. unfold record_of at 2. cbn [fst snd]. unfold RT_HANDSHAKE. rewrite <- !app_assoc.
    rewrite as_u16_id by (unfold TLS_MAX_PLAINTEXT_RECORD in Hfit; lia). done.
  - cbn [fmap list_fmap concat snd]. by rewrite Hc, take_drop.
  - by constructor.
  - rewrite length_drop in Hlen. cbn [length] in *. lia.
Qed.

(** What is put in front of an admitted stream reads as the hello. *)
Lemma replay_read m mirror s :
  hello_message m ->
  read_client_hello_message mirror (encode_handshake_records m ++ s) = (if mirror then encode_handshake_records m else [], s, Ok m).
Proof.
  intros Hm. destruct (encode_records_split (length m) m) as (rs & Hrs & Hc & Hf & Hl); [done|].
  unfold encode_handshake_records. rewrite Hrs. pose proof Hm as (Hh & _ & Hmax).
  apply (records_read m _ mirror [] rs s); [done|done| |done|unfold zlen in Hmax; lia].
  intros ->. by rewrite <- Hc in Hh.
Qed.

(** ** The hello of the client *)

Lemma put_u24_val v : 0 <= v < 2 ^ 24 -> be_val (put_u24 v) = v.
Proof.
  intros Hv. unfold put_u24, be_val. cbn [foldl]. rewrite !Z.shiftr_div_pow2 by lia.
  unfold as_u8. change (2 ^ 16) with (256 * 256). change (2 ^ 8) with 256. rewrite <- Z.div_div by lia.
  change (2 ^ 24) with 16777216 in Hv. rewrite (Z.mod_small (v / 256 / 256)) by (rewrite Z.div_div by lia; split; [apply Z.div_pos|apply Z.div_lt_upper_bound]; lia).
  pose proof (Z.div_mod v 256). pose proof (Z.div_mod (v / 256) 256). lia.
Qed.

Lemma put_u24_expected b v rest : 0 <= v < 2 ^ 24 -> expected_of ([b] ++ put_u24 v ++ rest) = Some (v + 4).
Proof. intros Hv. rewrite <- (put_u24_val v Hv) at 2. reflexivity. Qed.

Section DialHello.
Context (cfg_sni random pub secp : bytes) (draws : fin 16 * fin 16).
Context (Hran : length random = 32%nat).
Let hello (sid : bytes) : bytes := build_with_additional_key_share chrome_131 cfg_sni random sid (Some pub) (Some secp) draws [].

Definition hello_tail : bytes :=
  let exts := build_extensions chrome_131 cfg_sni (grease_u16 draws.1) (grease_u16 draws.2) pub (Some secp) in
  put_u16 (as_u16 ((1 + zlen (cipher_suites chrome_131)) * 2)) ++
  (put_u16 (grease_u16 draws.1) ++ concat (put_u16 <$> cipher_suites chrome_131)) ++
  [0x01; 0x00] ++ put_u16 (as_u16 (zlen exts)) ++ exts.

(** Everything in front of the session id. *)
Definition hello_front : bytes :=
  [0x01] ++ put_u24 (as_u32 (67 + zlen hello_tail)) ++ put_u16 0x0303 ++ random ++ [0x20].

Lemma hello_front_length : length hello_front = 39%nat.
Proof. unfold hello_front. rewrite !length_app, Hran. reflexivity. Qed.

Lemma hello_parts s : length s = 32%nat ->
  hello s = [0x16; 0x03; 0x01] ++ put_u16 (as_u16 (71 + zlen hello_tail)) ++ hello_front ++ s ++ hello_tail.
Proof.
  intros Hs. unfold hello, build_with_additional_key_share. cbn [default from_option].
  set (body := build_client_hello_body _ _ _ _ _ _ _ _).
  assert (Hb : body = put_u16 0x0303 ++ random ++ [0x20] ++ s ++ hello_tail) by reflexivity.
  assert (Hz : zlen body = 67 + zlen hello_tail).
  { rewrite Hb. unfold zlen, put_u16. rewrite !length_app, length_be_bytes, Hran, Hs. cbn [length]. lia. }
  assert (Hz' : zlen ([0x01] ++ put_u24 (as_u32 (zlen body)) ++ body) = 71 + zlen hello_tail).
  { unfold zlen in *. rewrite !length_app. cbn [length put_u24 app]. lia. }
  rewrite Hz', Hz, Hb. unfold hello_front. by rewrite <- !app_assoc.
Qed.

Lemma patch_app (a b c d : bytes) n : n = length a -> length b = length d -> patch n b (a ++ d ++ c) = a ++ b ++ c.
Proof.
  intros -> Hd. unfold patch. rewrite take_app_length, Hd. by rewrite drop_app_add, drop_app_length.
Qed.

Lemma hello_drop s : length s = 32%nat -> drop 5 (hello s) = hello_front ++ s ++ hello_tail.
Proof. intros Hs. by rewrite (hello_parts s Hs). Qed.

(** The session id can be put in afterwards, or taken out. *)
Lemma hello_patch s s' : length s = 32%nat -> length s' = 32%nat -> patch 44 s' (hello s) = hello s'.
Proof.
  intros Hs Hs'. rewrite (hello_parts s Hs), (hello_parts s' Hs').
  rewrite !(app_assoc [0x16; 0x03; 0x01]), !(app_assoc _ hello_front). apply patch_app; [|lia].
  rewrite !length_app, hello_front_length. unfold put_u16. rewrite length_be_bytes. reflexivity.
Qed.

Lemma hello_patch_body s s' : length s = 32%nat -> length s' = 32%nat -> patch 39 s' (drop 5 (hello s)) = drop 5 (hello s').
Proof. intros Hs Hs'. rewrite (hello_drop s Hs), (hello_drop s' Hs'). apply patch_app; [by rewrite hello_front_length|lia]. Qed.

Lemma hello_is_message s : length s = 32%nat -> zlen (hello s) <= TLS_MAX_PLAINTEXT_RECORD ->
  hello_message (drop 5 (hello s)) /\ hello s = record_of (3, 1, drop 5 (hello s)) /\ record_fits (3, 1, drop 5 (hello s)).
Proof.
  intros Hs Hz. rewrite (hello_parts s Hs) in Hz. rewrite (hello_drop s Hs).
  assert (Hl : zlen (hello_front ++ s ++ hello_tail) = 71 + zlen hello_tail).
  { unfold zlen. rewrite !length_app, hello_front_length, Hs. lia. }
  assert (Hz' : 71 + zlen hello_tail < TLS_MAX_PLAINTEXT_RECORD).
  { rewrite !zlen_app in Hz. unfold zlen, put_u16 in *. rewrite !length_app, hello_front_length, Hs, ?length_be_bytes in *. cbn [length] in *. lia. }
  pose proof (zlen_nonneg hello_tail). unfold TLS_MAX_PLAINTEXT_RECORD in Hz'. split_and!.
  - split_and!; [done| |rewrite Hl; unfold MAX_CLIENT_HELLO_SIZE; lia].
    rewrite Hl. unfold hello_front. rewrite <- !app_assoc, put_u24_expected; unfold as_u32; rewrite Z.mod_small; f_equal; lia.
  - rewrite (hello_parts s Hs). unfold record_of. cbn [fst snd]. by rewrite Hl, as_u16_id by lia.
  - unfold record_fits. cbn [snd]. unfold TLS_MAX_PLAINTEXT_RECORD. lia.
Qed.

(** Its size. *)
Lemma hello_size s : length s = 32%nat -> length pub = 32%nat ->
  zlen (hello s) = 297 + zlen cfg_sni + zlen secp.
Proof.
  intros Hs Hpub. rewrite (hello_parts s Hs). unfold hello_tail, build_extensions.
  cbn [fmap list_fmap concat extensions chrome_131 cipher_suites]. unfold build_extension. cbn [Z.eqb Pos.eqb].
  unfold ext_server_name, ext_supported_groups, ext_alpn, ext_signature_algorithms, ext_key_share, put_extension. cbv zeta.
  cbn [fmap list_fmap concat supported_groups alpn signature_algorithms chrome_131].
  unfold zlen. repeat rewrite length_app. unfold put_u16. repeat rewrite length_be_bytes. rewrite hello_front_length, Hs, Hpub. cbn [length].
  change (length ext_extended_master_secret) with 4%nat. change (length ext_renegotiation_info) with 5%nat. change (length ext_ec_point_formats) with 6%nat.
  change (length ext_session_ticket) with 4%nat. change (length ext_status_request) with 9%nat. change (length ext_signed_cert_timestamp) with 4%nat.
  change (length ext_psk_key_exchange_modes) with 6%nat. change (length ext_supported_versions) with 13%nat. change (length ext_compress_certificate) with 7%nat.
  change (length ext_padding) with 5%nat. change (length (str "h2")) with 2%nat. change (length (str "http/1.1")) with 8%nat. lia.
Qed.
End DialHello.

(** ** Short ids *)

Lemma drop_zeros_head l : head (drop_zeros l) <> Some 0.
Proof. induction l as [|b l IH]; [done|]. cbn. destruct (Z.eqb_spec b 0); [done|]. cbn. congruence. Qed.

Lemma strip_zero_last l : last (strip_zero_padding l) <> Some 0.
Proof. unfold strip_zero_padding. rewrite last_reverse. apply drop_zeros_head. Qed.

(** A short id that ends in a zero byte lets nobody in. *)
Lemma zero_short_id_refused id plaintext diff now : last id = Some 0 -> validate_reality_token plaintext [id] diff now = false.
Proof.
  intros Hid. unfold validate_reality_token. repeat case_match; try done. apply bool_decide_eq_false_2.
  intros He%list_elem_of_singleton. rewrite <- He in Hid. by apply (strip_zero_last _ Hid).
Qed.

Lemma drop_zeros_app n l : drop_zeros (replicate n 0 ++ l) = drop_zeros l.
Proof. induction n; by cbn. Qed.

Lemma strip_padded id n : last id <> Some 0 -> strip_zero_padding (id ++ replicate n 0) = id.
Proof.
  intros Hid. unfold strip_zero_padding. rewrite reverse_app, reverse_replicate, drop_zeros_app. destruct (reverse id) as [|b l] eqn:E; [by rewrite <- (reverse_involutive id), E|].
  assert (b <> 0). { intros ->. apply Hid. rewrite <- (reverse_involutive id), E. by rewrite last_reverse. }
  cbn [drop_zeros]. rewrite (proj2 (Z.eqb_neq _ _)) by done. by rewrite <- E, reverse_involutive.
Qed.

(** ** Who is let in *)

Section Admission.
Context `{RealityCrypto} `{AeadCrate}.

(** What a hello shows that is let in with [key]. *)
Definition entitled (cfg : RealityServerConfig) (now : Z) (body key : bytes) : Prop :=
  exists fields peer aad token,
    parse_client_hello body = Ok fields /\
    (exists name, name ∈ server_names cfg /\ ascii_lower <$> name = ascii_lower <$> f_sni fields) /\
    (peer = x25519_key_share fields \/ exists keys, reality_auth_peer_public_keys body = Ok keys /\ peer ∈ keys) /\
    hkdf_sha256 (take 20 (f_random fields)) (x25519 (private_key cfg) peer) REALITY_HKDF_INFO 32 = Some key /\
    (aad = body \/ xray_zeroed_session_id_aad body = Ok aad) /\
    open_combined (mkKey Aes256Gcm key) (drop 20 (f_random fields)) aad (f_session_id fields) = Some token /\
    Z.abs (now - be_val (take 4 (drop 4 token))) <= max_time_diff cfg /\
    strip_zero_padding (take 8 (drop 8 token)) ∈ short_ids cfg.

Lemma validated plaintext ids diff now : validate_reality_token plaintext ids diff now = true ->
  Z.abs (now - be_val (take 4 (drop 4 plaintext))) <= diff /\ strip_zero_padding (take 8 (drop 8 plaintext)) ∈ ids.
Proof.
  unfold validate_reality_token. destruct (length plaintext <? 16)%nat; [done|]. destruct (Z.ltb_spec diff (Z.abs (now - be_val (take 4 (drop 4 plaintext))))); [done|].
  intros ?%bool_decide_eq_true. split; [lia|done].
Qed.

Lemma try_peer_keys_sound cfg now fields aads keys key :
  try_peer_keys cfg now fields aads keys = Ok key ->
  exists peer aad, peer ∈ keys /\ aad ∈ aads /\
    derive_reality_auth_key (private_key cfg) peer (f_random fields) = Some key /\
    is_Some (decrypt_and_validate_reality_token fields key aad (short_ids cfg) (max_time_diff cfg) now).
Proof.
  induction keys as [|peer keys IH]; [done|]. cbn [try_peer_keys].
  assert (Hrest : try_peer_keys cfg now fields aads keys = Ok key -> exists peer' aad, peer' ∈ peer :: keys /\ aad ∈ aads /\
    derive_reality_auth_key (private_key cfg) peer' (f_random fields) = Some key /\
    is_Some (decrypt_and_validate_reality_token fields key aad (short_ids cfg) (max_time_diff cfg) now)).
  { intros (peer' & aad & ? & ?)%IH. exists peer', aad. split; [by right|done]. }
  destruct (derive_reality_auth_key _ _ _) as [k|] eqn:Ek; [|done]. destruct (existsb _ _) eqn:Ee; [|done]. intros <-%Ok_inj.
  apply existsb_exists in Ee as (aad & Hin%list_elem_of_In & Hd%bool_decide_eq_true). exists peer, aad. split_and!; [left|done..].
Qed.

Lemma authenticate_sound cfg now body key : authenticate cfg now body = Ok key -> entitled cfg now body key.
Proof.
  unfold authenticate, derive_auth_key. destruct (parse_client_hello body) as [fields| |] eqn:Ep; [|done..]. cbn [mbind res_bind].
  destruct (existsb _ _) eqn:Es; [|done]. cbn [negb]. destruct (reality_auth_peer_public_keys body) as [keys| |] eqn:Ek; [|done..]. cbn [mbind res_bind].
  destruct (xray_zeroed_session_id_aad body) as [zeroed| |] eqn:Ez; [|done..]. cbn [mbind res_bind].
  intros (peer & aad & Hpeer & Haad & Hk & token & Ht)%try_peer_keys_sound.
  apply existsb_exists in Es as (name & Hname%list_elem_of_In & Hn%bool_decide_eq_true).
  unfold decrypt_and_validate_reality_token in Ht. destruct (decrypt_reality_session_id _ _ _) as [plain|] eqn:Eo; [|done]. cbn [mbind option_bind] in Ht.
  destruct (validate_reality_token _ _ _ _) eqn:Ev; [|done]. apply validated in Ev as [??].
  exists fields, peer, aad, plain. split_and!; try done.
  - by exists name.
  - destruct keys as [|k keys]; [left; by apply list_elem_of_singleton in Hpeer|right; by exists (k :: keys)].
  - apply elem_of_cons in Haad as [->|Haad]; [by right|]. left. by apply list_elem_of_singleton in Haad.
Qed.

Lemma try_peer_keys_no_panic cfg now fields aads keys : no_panic (try_peer_keys cfg now fields aads keys).
Proof. induction keys; cbn; [done|]. by repeat case_match. Qed.

Lemma authenticate_no_panic cfg now body : no_panic (authenticate cfg now body).
Proof.
  unfold authenticate, derive_auth_key. pose proof (parse_client_hello_no_panic body). destruct (parse_client_hello body); try done. cbn [mbind res_bind].
  destruct (negb _); [done|]. pose proof (reality_auth_no_panic body). destruct (reality_auth_peer_public_keys body); try done. cbn [mbind res_bind].
  unfold xray_zeroed_session_id_aad. destruct (_ <? _)%nat; [done|]. apply try_peer_keys_no_panic.
Qed.

(** *** The client of the crate *)

Context `{!RealityCryptoLaws} `{!AeadLaws}.

Lemma token_length id now : length (token_plaintext id now) = 16%nat.
Proof. unfold token_plaintext. rewrite !length_app, !length_replicate, length_be_bytes, length_take. lia. Qed.

Lemma token_valid id now_c now ids diff :
  in_u32 now_c -> Z.abs (now - now_c) <= diff -> take 8 id ∈ ids -> last (take 8 id) <> Some 0 ->
  validate_reality_token (token_plaintext id now_c) ids diff now = true.
Proof.
  intros Hc Hd Hin Hlast. unfold validate_reality_token. rewrite token_length. change (16 <? 16)%nat with false. cbv iota zeta.
  assert (Hts : take 4 (drop 4 (token_plaintext id now_c)) = be_bytes 4 (as_u32 now_c)).
  { unfold token_plaintext. change (drop 4 (replicate 4 0 ++ ?x)) with x. by rewrite take_app_length' by (by rewrite length_be_bytes). }
  assert (Hid : take 8 (drop 8 (token_plaintext id now_c)) = take 8 id ++ replicate (8 - length (take 8 id)) 0).
  { unfold token_plaintext. change (drop 8 (replicate 4 0 ++ ?x)) with (drop 4 x). rewrite drop_app_length' by (by rewrite length_be_bytes).
    apply take_ge. rewrite length_app, length_replicate, length_take. lia. }
  unfold as_u32 in Hts. rewrite Z.mod_small in Hts by (unfold in_u32 in Hc; lia).
  rewrite Hts, Hid, be_val_be_bytes_id, strip_padded by (try done; unfold in_u32 in Hc; lia).
  rewrite (proj2 (Z.ltb_ge _ _)) by lia. by apply bool_decide_eq_true_2.
Qed.

(** What [dial] builds, as one hello with the token for its session id. *)
Lemma dial_builds cfg secret random secp draws now :
  length random = 32%nat ->
  exists key, hkdf_sha256 (take 20 random) (x25519 secret (server_public_key cfg)) REALITY_HKDF_INFO 32 = Some key /\
  let hello sid := build_with_additional_key_share chrome_131 (c_sni cfg) random sid (Some (x25519_public secret)) (Some secp) draws [] in
  let token := sealed (mkKey Aes256Gcm key) (drop 20 random) (drop 5 (hello (replicate 32 0))) (token_plaintext (short_id cfg) now) in
  length token = 32%nat /\ dial_hello cfg secret random secp draws now = Ok (hello token, key).
Proof.
  intros Hran. destruct (hkdf_sha256_ok (take 20 random) (x25519 secret (server_public_key cfg)) REALITY_HKDF_INFO) as [key Hk].
  exists key. split; [done|]. intros hello token.
  assert (Ht : length token = 32%nat) by (unfold token; by rewrite sealed_length, token_length).
  split; [done|]. unfold dial_hello, client_auth_key. rewrite Hk. cbn [of_option mbind res_bind]. unfold encrypt_reality_token. fold (hello (replicate 32 0)). fold token.
  rewrite Ht. cbn [Nat.eqb mbind res_bind]. unfold hello in token, Ht |- *. change (5 + SESSION_ID_OFFSET_IN_HANDSHAKE_BODY)%nat with 44%nat.
  by rewrite (hello_patch (c_sni cfg) random (x25519_public secret) secp draws Hran (replicate 32 0) token eq_refl Ht).
Qed.

Lemma session_opens fields key zeroed p ids diff now :
  f_session_id fields = sealed (mkKey Aes256Gcm key) (drop 20 (f_random fields)) zeroed p -> length p = 16%nat ->
  validate_reality_token p ids diff now = true ->
  decrypt_and_validate_reality_token fields key zeroed ids diff now = Some p.
Proof.
  intros Hs Hp Hv. unfold decrypt_and_validate_reality_token, decrypt_reality_session_id. rewrite Hs, open_combined_sealed. cbn [mbind option_bind].
  rewrite Hv. unfold reality_auth_roundtrip_matches, encrypt_session_id. rewrite Hp. change (16 <? 16)%nat with false. cbv iota.
  rewrite (take_ge p) by lia. rewrite <- Hs. rewrite Hs at 1. rewrite sealed_length, Hp. cbn [Nat.eqb Nat.add TAG_LEN]. by rewrite bool_decide_eq_true_2.
Qed.

Lemma chrome_profile : Forall in_u16 (extensions chrome_131) /\ 0x0000 ∈ extensions chrome_131 /\ 0x0033 ∈ extensions chrome_131.
Proof.
  split_and!; [refine (bool_decide_unpack (Forall _ _) _)|refine (bool_decide_unpack (_ ∈ _) _)..]; vm_compute; exact I.
Qed.

Lemma dial_authenticated cfg scfg secret random secp draws now_c now hello key :
  server_public_key cfg = x25519_public (private_key scfg) ->
  length random = 32%nat -> utf8_valid (c_sni cfg) = true ->
  (exists name, name ∈ server_names scfg /\ ascii_lower <$> name = ascii_lower <$> c_sni cfg) ->
  in_u32 now_c -> Z.abs (now - now_c) <= max_time_diff scfg ->
  take 8 (short_id cfg) ∈ short_ids scfg -> last (take 8 (short_id cfg)) <> Some 0 ->
  dial_hello cfg secret random secp draws now_c = Ok (hello, key) -> zlen hello <= TLS_MAX_PLAINTEXT_RECORD ->
  hello_message (drop 5 hello) /\ hello = record_of (3, 1, drop 5 hello) /\ record_fits (3, 1, drop 5 hello) /\
  authenticate scfg now (drop 5 hello) = Ok key.
Proof.
  intros Hpub Hran Hutf Hsni Hnow Hskew Hid Hlast Hdial Hz. destruct Hsni as (name & Hname & Hsni).
  destruct (dial_builds cfg secret random secp draws now_c Hran) as (k & Hk & Ht & Hd). rewrite Hd in Hdial. apply Ok_inj in Hdial. apply pair_equal_spec in Hdial as [<- <-].
  set (token := sealed _ _ _ _) in *.
  destruct (hello_is_message (c_sni cfg) random (x25519_public secret) secp draws Hran token Ht Hz) as (Hm & Hrec & Hfit).
  split_and!; [done..|]. destruct chrome_profile as (Hp1 & Hp2 & Hp3).
  destruct (hello_read_back chrome_131 (c_sni cfg) random token (Some (x25519_public secret)) (Some secp) draws []) as (Hparse & Hkeys & _);
    [done|done|done|done|done|apply x25519_public_length|done|unfold TLS_MAX_PLAINTEXT_RECORD in Hz; lia|]. cbn [default from_option id] in Hparse, Hkeys.
  unfold authenticate. rewrite Hparse. cbn [mbind res_bind f_sni].
  replace (existsb _ _) with true. 2:{ symmetry. apply existsb_exists. exists name. split; [by apply list_elem_of_In|by apply bool_decide_eq_true_2]. }
  cbn [negb]. unfold derive_auth_key. rewrite Hkeys. cbn [mbind res_bind]. unfold xray_zeroed_session_id_aad.
  change SESSION_ID_OFFSET_IN_HANDSHAKE_BODY with 39%nat. rewrite (proj2 (Nat.ltb_ge _ _)) by (rewrite hello_drop, !length_app, hello_front_length by done; lia).
  cbn [mbind res_bind]. rewrite hello_patch_body by done. cbn [try_peer_keys f_random]. unfold derive_reality_auth_key.
  rewrite x25519_agree, <- Hpub, Hk. cbn [existsb]. rewrite (session_opens _ k _ (token_plaintext (short_id cfg) now_c));
    [|done|apply token_length|by apply token_valid].
  by rewrite bool_decide_eq_true_2.
Qed.

Lemma accept_authentic cfg mode now input mirrored rest body key :
  read_client_hello_message true input = (mirrored, rest, Ok body) -> authenticate cfg now body = Ok key ->
  accept_inner cfg mode now input =
    (mirrored, rest, Authenticated (match mode with PrependClientHello => encode_handshake_records body | ConsumeClientHello => [] end) key).
Proof. intros Hr Ha. unfold accept_inner. by rewrite Hr, Ha. Qed.

(** The hello of the client of the crate is accepted, whatever follows it. *)
Lemma dial_accepted cfg scfg secret random secp draws now_c now :
  server_public_key cfg = x25519_public (private_key scfg) ->
  length random = 32%nat -> utf8_valid (c_sni cfg) = true -> zlen (c_sni cfg) + zlen secp <= 16000 ->
  (exists name, name ∈ server_names scfg /\ ascii_lower <$> name = ascii_lower <$> c_sni cfg) ->
  in_u32 now_c -> Z.abs (now - now_c) <= max_time_diff scfg ->
  take 8 (short_id cfg) ∈ short_ids scfg -> last (take 8 (short_id cfg)) <> Some 0 ->
  exists hello key, dial_hello cfg secret random secp draws now_c = Ok (hello, key) /\ hello_message (drop 5 hello) /\
    zlen hello <= TLS_MAX_PLAINTEXT_RECORD /\
    forall mode rest, accept_inner scfg mode now (hello ++ rest) =
      (hello, rest, Authenticated (match mode with PrependClientHello => encode_handshake_records (drop 5 hello) | ConsumeClientHello => [] end) key).
Proof.
  intros Hpub Hran Hutf Hsz Hsni Hnow Hskew Hid Hlast.
  destruct (dial_builds cfg secret random secp draws now_c Hran) as (key & _ & Ht & Hd). set (hello := build_with_additional_key_share _ _ _ _ _ _ _ _) in Hd.
  assert (Hz : zlen hello <= TLS_MAX_PLAINTEXT_RECORD).
  { unfold hello. rewrite hello_size by (done || apply x25519_public_length). unfold TLS_MAX_PLAINTEXT_RECORD. lia. }
  destruct (dial_authenticated cfg scfg secret random secp draws now_c now hello key) as (Hm & Hrec & Hfit & Hauth); [done..|].
  exists hello, key. split_and!; [done..|]. intros mode rest. apply (accept_authentic _ _ _ _ _ _ (drop 5 hello)); [|done].
  assert (Hr := records_read (drop 5 hello) (S (S (Z.to_nat MAX_CLIENT_HELLO_SIZE))) true [] [(3, 1, drop 5 hello)] rest Hm).
  cbn [fmap list_fmap concat] in Hr. rewrite !app_nil_r, <- Hrec in Hr. apply Hr; [done|done|by constructor|cbn; lia].
Qed.

(** C12. Who is let in, and what the cover site sees of the others.
    For every input the server reads the ClientHello without a panic within the bounds of
    the reader and authenticates what it has read without one.  What was mirrored to the
    cover connection followed by what is left for the cover relay is the input exactly,
    unless the input stopped inside a read, when a prefix of it was mirrored.  A
    connection is let in only with a hello that parses, names a listed server (ignoring
    case) and carries a session id that opens, under a key agreed with one of the key
    shares of the hello, to a token whose time is within [max_time_diff] of the clock and
    whose short id without its padding is listed.  Conversely a client of the crate that
    knows the public key, with a listed name, a listed short id that does not end in a
    zero byte and a clock within the window, builds a hello that is let in with the
    client's own key, whatever follows it; the bytes after it stay unread, and the replay
    put in front of them reads as the same hello. *)
Theorem reality_admission :
  (forall cfg mode now input,
    bytes_ok input ->
    let '(mirrored, rest, out) := accept_inner cfg mode now input in
    no_panic (read_client_hello_message true input).2 /\
    (forall body, no_panic (authenticate cfg now body)) /\
    (mirrored ++ rest = input \/ out = Fallback /\ rest = [] /\ mirrored `prefix_of` input) /\
    (forall prefix key, out = Authenticated prefix key ->
       exists body, (read_client_hello_message true input).2 = Ok body /\ entitled cfg now body key)) /\
  (forall cfg scfg mode secret random secp draws now_c now rest,
    server_public_key cfg = x25519_public (private_key scfg) ->
    length random = 32%nat -> utf8_valid (c_sni cfg) = true -> zlen (c_sni cfg) + zlen secp <= 16000 ->
    (exists name, name ∈ server_names scfg /\ ascii_lower <$> name = ascii_lower <$> c_sni cfg) ->
    in_u32 now_c -> Z.abs (now - now_c) <= max_time_diff scfg ->
    take 8 (short_id cfg) ∈ short_ids scfg -> last (take 8 (short_id cfg)) <> Some 0 ->
    exists hello key prefix, dial_hello cfg secret random secp draws now_c = Ok (hello, key) /\
      accept_inner scfg mode now (hello ++ rest) = (hello, rest, Authenticated prefix key) /\
      match mode with
      | PrependClientHello => read_client_hello_message false (prefix ++ rest) = ([], rest, Ok (drop 5 hello))
      | ConsumeClientHello => prefix = []
      end).
Proof.
  split.
  - intros cfg mode now input Hin. unfold accept_inner.
    assert (Hmir := mirrors_reader input). destruct (calm_reader true input Hin) as [Hcalm _].
    destruct (read_client_hello_message true input) as [[w l] [body|e|]] eqn:Er; [..|done];
      (split_and!; [done|intros; apply authenticate_no_panic| |]).
    + left. by destruct Hmir as [?|[? _]].
    + intros prefix key Hout. exists body. split; [done|]. apply authenticate_sound. destruct (authenticate cfg now body); by simplify_eq.
    + by destruct Hmir as [?|(_ & ? & ?)]; [left|right].
    + done.
  - intros cfg scfg mode secret random secp draws now_c now rest Hpub Hran Hutf Hsz Hsni Hnow Hskew Hid Hlast.
    destruct (dial_accepted cfg scfg secret random secp draws now_c now) as (hello & key & Hd & Hm & _ & Ha); [done..|].
    eexists hello, key, _. split; [done|]. split; [apply Ha|]. destruct mode; [|done]. by apply (replay_read _ false).
Qed.

End Admission.

(** *** A concrete connection *)

#[local] Instance toy_reality : RealityCrypto := {
  x25519_public a := replicate 32 (mix a);
  x25519 a p := replicate 32 (mix a * default 0 (head p));
  hkdf_sha256 salt ikm info n := Some (replicate n (as_u8 (mix (salt ++ ikm))))
}.

#[local] Instance toy_reality_laws : RealityCryptoLaws.
Proof.
  split; intros; cbn.
  - by rewrite Z.mul_comm.
  - done.
  - by eexists.
Qed.

Definition sample_client : RealityClientConfig :=
  mkClientConfig (x25519_public [7; 9; 11]) [0xaa; 0xbb; 0; 1] (str "www.Example.com").
Definition sample_server : RealityServerConfig :=
  RealityServer_new (mkServerConfig [7; 9; 11] [[1; 2]; [0xaa; 0xbb; 0; 1]] [str "  WWW.example.com "; []] 0).

(** The clocks differ by 120 seconds, the default window. *)
Lemma reality_admission_witness :
  max_time_diff sample_server = 120 /\
  exists hello key prefix,
    dial_hello sample_client [3; 4] (replicate 32 0x11) (replicate 65 0x44) (3%fin, 7%fin) 1700000000 = Ok (hello, key) /\
    accept_inner sample_server PrependClientHello 1700000120 (hello ++ [1; 2; 3]) = (hello, [1; 2; 3], Authenticated prefix key) /\
    read_client_hello_message false (prefix ++ [1; 2; 3]) = ([], [1; 2; 3], Ok (drop 5 hello)).
Proof.
  split; [reflexivity|].
  apply (proj2 reality_admission sample_client sample_server PrependClientHello [3; 4] (replicate 32 0x11) (replicate 65 0x44)
    (3%fin, 7%fin) 1700000000 1700000120 [1; 2; 3]); try reflexivity.
  - vm_compute. discriminate.
  - exists (str "www.example.com"). split; [|reflexivity]. refine (bool_decide_unpack (_ ∈ _) _). vm_compute. exact I.
  - unfold in_u32. lia.
  - refine (bool_decide_unpack (_ ∈ _) _). vm_compute. exact I.
  - vm_compute. discriminate.
Defined.

(** The hello of a client whose clock is a second further off goes to the cover site whole. *)
Example late_client_refused :
  match dial_hello sample_client [3; 4] (replicate 32 0x11) (replicate 65 0x44) (3%fin, 7%fin) 1700000000 with
  | Ok (hello, _) => accept_inner sample_server ConsumeClientHello 1700000121 (hello ++ [1]) = (hello, [1], Fallback)
  | _ => False
  end.
Proof. vm_compute. reflexivity. Qed.

(** What was read of a chunk that does not complete is not mirrored: of a record cut after
    its header the cover site gets the header alone. *)
Example cut_record_lost : accept_inner sample_server ConsumeClientHello 0 [0x16; 3; 1; 1; 0; 0x01; 0; 0] = ([0x16; 3; 1; 1; 0], [], Fallback).
Proof. vm_compute. reflexivity. Qed.
