(* ===== verification/Tls13.v ===== *)
(** * REALITY: the TLS 1.3 handshake

    [blackwire-transport] [reality/tls13.rs] (key schedule, records, client handshake),
    [reality/tls13_server.rs] (server handshake, the shape of the cover site) and
    [reality/cert.rs] (the certificate that proves the server).  SHA-2, HKDF, P-256,
    Ed25519 and X.509 are an interface.  A handshake is a conversation in [wire]: a
    function of what the peer sends that also gives what is written and what is left. *)

From S2P Require Import Prelude Common DomainMatch Aead ClientHello Reality.

Definition RT_CHANGE_CIPHER_SPEC : Z := 0x14.
Definition RT_ALERT : Z := 0x15.
Definition RT_APPLICATION_DATA : Z := 0x17.
Definition HS_SERVER_HELLO : Z := 0x02.
Definition HS_ENCRYPTED_EXTENSIONS : Z := 0x08.
Definition HS_CERTIFICATE : Z := 0x0b.
Definition HS_CERTIFICATE_VERIFY : Z := 0x0f.
Definition HS_FINISHED : Z := 0x14.

(** ** Cipher suites *)

Inductive CipherSuite : Type := Aes128GcmSha256 | Aes256GcmSha384.

#[export] Instance CipherSuite_eq_dec : EqDecision CipherSuite.
Proof. solve_decision. Defined.

Definition from_u16 (v : Z) : result CipherSuite :=
  if v =? 0x1301 then Ok Aes128GcmSha256
  else if v =? 0x1302 then Ok Aes256GcmSha384
  else Err (Protocol "unsupported TLS 1.3 cipher suite").

Definition to_u16 (cs : CipherSuite) : Z :=
  match cs with Aes128GcmSha256 => 0x1301 | Aes256GcmSha384 => 0x1302 end.

Definition hash_len (cs : CipherSuite) : nat := match cs with Aes128GcmSha256 => 32 | Aes256GcmSha384 => 48 end.

Definition key_len (cs : CipherSuite) : nat := match cs with Aes128GcmSha256 => 16 | Aes256GcmSha384 => 32 end.

(** ** The libraries *)

Inductive Sha : Type := Sha256 | Sha384.

Definition sha_len (h : Sha) : nat := match h with Sha256 => 32 | Sha384 => 48 end.

(** What is read of a certificate: the OID of its key, the key and the signature. *)
Record X509 : Type := mkX509 { spki_algorithm : string; spki_key : bytes; signature_value : bytes }.

(** [hkdf_from_prk] and [hmac_new] are the fallible constructors. *)
Class Tls13Crypto : Type := {
  sha_digest : Sha -> bytes -> bytes;
  hkdf_extract_with : Sha -> bytes -> bytes -> bytes;
  hkdf_from_prk : Sha -> bytes -> option bytes;
  hkdf_expand_with : Sha -> bytes -> bytes -> nat -> option bytes;
  hmac_new : Sha -> bytes -> option bytes;
  hmac_finalize : Sha -> bytes -> bytes -> bytes;
  hmac_sha512 : bytes -> bytes -> bytes;
  p256_diffie_hellman : bytes -> bytes -> option bytes;
  ed25519_sign : bytes -> bytes -> bytes;
  x509_from_der : bytes -> option X509
}.

Section KeySchedule.
Context `{Tls13Crypto}.

Definition hkdf_extract (cs : CipherSuite) (salt ikm : bytes) : bytes :=
  match cs with
  | Aes128GcmSha256 => hkdf_extract_with Sha256 salt ikm
  | Aes256GcmSha384 => hkdf_extract_with Sha384 salt ikm
  end.

Definition expand_label (cs : CipherSuite) (prk : bytes) (label : string) (context : bytes) (len : nat) : result bytes :=
  let full_label := str ("tls13 " +:+ label) in
  let info := be_bytes 2 (as_u16 (Z.of_nat len)) ++ [as_u8 (zlen full_label)] ++ full_label ++
              [as_u8 (zlen context)] ++ context in
  match cs with
  | Aes128GcmSha256 =>
      hkdf ← of_option (Tls "TLS 1.3 HKDF-Expand: invalid SHA-256 PRK") (hkdf_from_prk Sha256 prk);
      of_option (Tls "TLS 1.3 HKDF-Expand: SHA-256 output length") (hkdf_expand_with Sha256 hkdf info len)
  | Aes256GcmSha384 =>
      hkdf ← of_option (Tls "TLS 1.3 HKDF-Expand: invalid SHA-384 PRK") (hkdf_from_prk Sha384 prk);
      of_option (Tls "TLS 1.3 HKDF-Expand: SHA-384 output length") (hkdf_expand_with Sha384 hkdf info len)
  end.

Definition derive_secret (cs : CipherSuite) (prk : bytes) (label : string) (transcript_hash : bytes) : result bytes :=
  expand_label cs prk label transcript_hash (hash_len cs).

Definition hash (cs : CipherSuite) (data : bytes) : bytes :=
  match cs with Aes128GcmSha256 => sha_digest Sha256 data | Aes256GcmSha384 => sha_digest Sha384 data end.

Definition hmac (cs : CipherSuite) (key data : bytes) : result bytes :=
  match cs with
  | Aes128GcmSha256 =>
      mac ← of_option (Tls "TLS 1.3 HMAC: invalid SHA-256 key length") (hmac_new Sha256 key);
      Ok (hmac_finalize Sha256 mac data)
  | Aes256GcmSha384 =>
      mac ← of_option (Tls "TLS 1.3 HMAC: invalid SHA-384 key length") (hmac_new Sha384 key);
      Ok (hmac_finalize Sha384 mac data)
  end.

Record HsKeys : Type := mkHsKeys {
  hs_client_key : bytes;
  hs_client_iv : bytes;
  client_finished_key : bytes;
  hs_server_key : bytes;
  hs_server_iv : bytes;
  server_finished_key : bytes;
  master_secret : bytes
}.

Record AppKeys : Type := mkAppKeys {
  app_cs : CipherSuite;
  client_key : bytes;
  client_iv : bytes;
  server_key : bytes;
  server_iv : bytes
}.

Definition iv_from_label (cs : CipherSuite) (traffic_secret : bytes) : result bytes :=
  raw ← expand_label cs traffic_secret "iv" [] 12;
  if (length raw =? 12)%nat then Ok raw else Err (Tls "TLS 1.3 IV derivation length mismatch").

Definition derive_handshake_keys (cs : CipherSuite) (dhe transcript_hash : bytes) : result HsKeys :=
  let zero := replicate (hash_len cs) 0 in
  let early_secret := hkdf_extract cs zero zero in
  let empty_hash := hash cs [] in
  derived ← derive_secret cs early_secret "derived" empty_hash;
  let hs_secret := hkdf_extract cs derived dhe in
  c_hs_traffic ← derive_secret cs hs_secret "c hs traffic" transcript_hash;
  s_hs_traffic ← derive_secret cs hs_secret "s hs traffic" transcript_hash;
  derived2 ← derive_secret cs hs_secret "derived" empty_hash;
  let master_secret := hkdf_extract cs derived2 zero in
  c_key ← expand_label cs c_hs_traffic "key" [] (key_len cs);
  c_iv ← iv_from_label cs c_hs_traffic;
  s_key ← expand_label cs s_hs_traffic "key" [] (key_len cs);
  s_iv ← iv_from_label cs s_hs_traffic;
  c_fin ← expand_label cs c_hs_traffic "finished" [] (hash_len cs);
  s_fin ← expand_label cs s_hs_traffic "finished" [] (hash_len cs);
  Ok (mkHsKeys c_key c_iv c_fin s_key s_iv s_fin master_secret).

Definition derive_app_keys (cs : CipherSuite) (master_secret transcript_hash : bytes) : result AppKeys :=
  c_app ← derive_secret cs master_secret "c ap traffic" transcript_hash;
  s_app ← derive_secret cs master_secret "s ap traffic" transcript_hash;
  c_key ← expand_label cs c_app "key" [] (key_len cs);
  c_iv ← iv_from_label cs c_app;
  s_key ← expand_label cs s_app "key" [] (key_len cs);
  s_iv ← iv_from_label cs s_app;
  Ok (mkAppKeys cs c_key c_iv s_key s_iv).
End KeySchedule.

(** ** Records *)

(** IV XOR the sequence number in its last eight bytes. *)
Definition compute_nonce (iv : bytes) (seq : Z) : bytes :=
  take 4 iv ++ zip_with Z.lxor (drop 4 iv) (be_bytes 8 seq).

Definition record_alg (cs : CipherSuite) : AeadAlgorithm :=
  match cs with Aes128GcmSha256 => Aes128Gcm | Aes256GcmSha384 => Aes256Gcm end.

(** [RecordCrypter::new] *)
Definition crypter_new (cs : CipherSuite) (key : bytes) : result AeadKey :=
  of_option (Protocol "bad TLS 1.3 record key length") (AeadKey_new (record_alg cs) key).

(** The place of the last byte that is not zero. *)
Fixpoint rposition_nonzero (l : bytes) : option nat :=
  match l with
  | [] => None
  | b :: l =>
      match rposition_nonzero l with
      | Some i => Some (S i)
      | None => if b =? 0 then None else Some O
      end
  end.

Definition record_header (ct_len : Z) : bytes := [RT_APPLICATION_DATA; 0x03; 0x03; as_u8 (Z.shiftr ct_len 8); as_u8 ct_len].

Section Records.
Context `{AeadCrate}.

Definition decrypt_app_record_with (crypter : AeadKey) (iv : bytes) (seq : Z) (ciphertext header : bytes) : result (bytes * Z) :=
  let nonce := compute_nonce iv seq in
  plaintext ← of_option (Protocol "TLS 1.3 record decrypt failed") (open_combined crypter nonce header ciphertext);
  type_pos ← of_option (Protocol "decrypted TLS record has no inner content type") (rposition_nonzero plaintext);
  inner_type ← idx plaintext type_pos;
  Ok (take type_pos plaintext, inner_type).

Definition decrypt_app_record (cs : CipherSuite) (key iv : bytes) (seq : Z) (ciphertext header : bytes) : result (bytes * Z) :=
  crypter ← crypter_new cs key;
  decrypt_app_record_with crypter iv seq ciphertext header.

Definition encrypt_app_record_with (crypter : AeadKey) (iv : bytes) (seq : Z) (inner_plaintext : bytes) (inner_type : Z) : bytes :=
  let msg := inner_plaintext ++ [inner_type] in
  let header := record_header (zlen msg + 16) in
  header ++ sealed crypter (compute_nonce iv seq) header msg.

Definition encrypt_app_record (cs : CipherSuite) (key iv : bytes) (seq : Z) (inner_plaintext : bytes) (inner_type : Z) : result bytes :=
  crypter ← crypter_new cs key;
  Ok (encrypt_app_record_with crypter iv seq inner_plaintext inner_type).

(** Zero bytes after the content type fill the record up to [ciphertext_len]. *)
Definition encrypt_app_record_padded (cs : CipherSuite) (key iv : bytes) (seq : Z) (inner_plaintext : bytes) (inner_type : Z)
    (ciphertext_len : nat) : result bytes :=
  let minimum_len := (length inner_plaintext + 1 + TAG_LEN)%nat in
  if (ciphertext_len <? minimum_len)%nat || (65535 <? Z.of_nat ciphertext_len) then Err (Protocol "invalid padded TLS record length")
  else
    let msg := inner_plaintext ++ [inner_type] in
    let msg := msg ++ replicate (ciphertext_len - TAG_LEN - length msg) 0 in
    let header := record_header (Z.of_nat ciphertext_len) in
    crypter ← crypter_new cs key;
    Ok (header ++ sealed crypter (compute_nonce iv seq) header msg).
End Records.

(** ** The conversation *)

Definition say (b : bytes) : wire unit := fun s => (b, s, Ok tt).

(** [?] on a result. *)
Definition try {A} (m : result A) : wire A := fun s => ([], s, m).

(** A loop whose rounds are bounded by the length of what arrives. *)
Definition bounded {A} (loop : nat -> wire A) : wire A := fun s => loop (S (length s)) s.

Definition read_record : wire (bytes * bytes) :=
  header ← pull false 5;
  hi ← try (idx header 3);
  lo ← try (idx header 4);
  body ← pull false (Z.to_nat (be_val [hi; lo]));
  mret (header, body).

Definition write_handshake_record (body : bytes) : bytes := [RT_HANDSHAKE; 0x03; 0x03] ++ put_u16 (as_u16 (zlen body)) ++ body.

(** [CCS]: the record that middleboxes expect. *)
Definition change_cipher_spec : bytes := [RT_CHANGE_CIPHER_SPEC; 0x03; 0x03; 0x00; 0x01; 0x01].

(** ** The ServerHello *)

(** The loop over the extensions: the last usable key share. *)
Fixpoint server_extension_loop (fuel : nat) (hs_body : bytes) (pos ext_end : nat) (server_share : option (Z * bytes)) :
    result (option (Z * bytes)) :=
  match fuel with
  | O => Panic
  | S fuel =>
      if (pos + 4 <=? ext_end)%nat then
        ext_type ← idx16 hs_body pos;
        ext_len ← idx16 hs_body (pos + 2);
        let ext_len := Z.to_nat ext_len in
        let pos := (pos + 4)%nat in
        if (length hs_body <? pos + ext_len)%nat then Ok server_share
        else
          ext_data ← slice hs_body pos (pos + ext_len);
          let pos := (pos + ext_len)%nat in
          if (ext_type =? 0x0033) && (4 <=? length ext_data)%nat then
            group ← idx16 ext_data 0;
            key_len ← idx16 ext_data 2;
            let key_len := Z.to_nat key_len in
            if (4 + key_len <=? length ext_data)%nat then
              key ← slice ext_data 4 (4 + key_len);
              server_extension_loop fuel hs_body pos ext_end (Some (group, key))
            else server_extension_loop fuel hs_body pos ext_end server_share
          else server_extension_loop fuel hs_body pos ext_end server_share
      else Ok server_share
  end.

Definition parse_server_hello (hs_body : bytes) : result (CipherSuite * Z * bytes) :=
  if (length hs_body <? 4)%nat then Err (Protocol "ServerHello body too short") else
  ty ← idx hs_body 0;
  if negb (ty =? HS_SERVER_HELLO) then Err (Protocol "expected ServerHello (0x02)") else
  let random_start := (4 + 2)%nat in
  let random_end := (random_start + 32)%nat in
  random ← slice hs_body random_start random_end;
  let pos := random_end in
  if (length hs_body <=? pos)%nat then Err (Protocol "ServerHello: truncated at session_id") else
  sid_len ← idx hs_body pos;
  let pos := (pos + (1 + Z.to_nat sid_len))%nat in
  if (length hs_body <? pos + 3)%nat then Err (Protocol "ServerHello: truncated at cipher_suite") else
  raw_cs ← idx16 hs_body pos;
  cs ← from_u16 raw_cs;
  let pos := (pos + 2 + 1)%nat in
  if (length hs_body <? pos + 2)%nat then Err (Protocol "ServerHello: no extensions length") else
  ext_total ← idx16 hs_body pos;
  let pos := (pos + 2)%nat in
  let ext_end := Nat.min (pos + Z.to_nat ext_total) (length hs_body) in
  share ← server_extension_loop (S (length hs_body)) hs_body pos ext_end None;
  match share with
  | Some (group, key) => Ok (cs, group, key)
  | None => Err (Protocol "no usable key_share")
  end.

(** The whole messages at the front; what does not complete one is dropped. *)
Fixpoint split_loop (fuel : nat) (data : bytes) (pos : nat) : result (list (Z * bytes)) :=
  match fuel with
  | O => Panic
  | S fuel =>
      if (pos + 4 <=? length data)%nat then
        hs_type ← idx data pos;
        len ← slice data (pos + 1) (pos + 4);
        let msg_end := (pos + 4 + Z.to_nat (be_val len))%nat in
        if (length data <? msg_end)%nat then Ok []
        else
          msg ← slice data pos msg_end;
          rest ← split_loop fuel data msg_end;
          Ok ((hs_type, msg) :: rest)
      else Ok []
  end.

Definition split_handshake_messages (data : bytes) : result (list (Z * bytes)) := split_loop (S (length data)) data 0.

(** ** The certificate *)

Section Cert.
Context `{Tls13Crypto}.

Definition reality_cert_hmac (auth_key ed25519_public_key : bytes) : bytes := hmac_sha512 auth_key ed25519_public_key.

Definition ed25519_public_key_from_cert (cert : X509) : result bytes :=
  if negb (spki_algorithm cert =? "1.3.101.112")%string then Err (Tls "REALITY cert: expected ed25519 subject public key")
  else
    let key := spki_key cert in
    if (length key =? 32)%nat then Ok key
    else if (length key =? 33)%nat && bool_decide (head key = Some 0) then Ok (drop 1 key)
    else Err (Tls "REALITY cert: unexpected ed25519 SPKI length").

Definition signature_matches_go_hmac (signature_field hmac : bytes) : bool :=
  let n := length signature_field in
  if (n =? 64)%nat then bool_decide (signature_field = hmac)
  else if (n =? 65)%nat && bool_decide (head signature_field = Some 0) then bool_decide (drop 1 signature_field = hmac)
  else if (64 <? n)%nat then bool_decide (drop (n - 64) signature_field = hmac)
  else false.

Definition verify_reality_cert_hmac (auth_key cert_der : bytes) : result unit :=
  cert ← of_option (Tls "REALITY cert parse") (x509_from_der cert_der);
  pubkey ← ed25519_public_key_from_cert cert;
  let expected := reality_cert_hmac auth_key pubkey in
  if signature_matches_go_hmac (signature_value cert) expected then Ok tt
  else Err (Tls "REALITY cert signature does not match HMAC-SHA512(auth_key, public_key)").

Definition read_u24 (bs : bytes) : result Z :=
  match bs with
  | a :: b :: c :: _ => Ok (Z.lor (Z.lor (Z.shiftl a 16) (Z.shiftl b 8)) c)
  | _ => Err (Tls "TLS uint24: truncated")
  end.

Definition parse_certificate_message_der (msg : bytes) : result bytes :=
  if negb (bool_decide (head msg = Some HS_CERTIFICATE)) then Err (Tls "TLS Certificate message: bad handshake type") else
  if (length msg <? 4 + 1 + 3 + 3)%nat then Err (Tls "TLS Certificate message: truncated header") else
  ctx_len ← idx msg 4;
  let ctx_len := Z.to_nat ctx_len in
  let pos := 5%nat in
  if (length msg <? pos + ctx_len + 3)%nat then Err (Tls "TLS Certificate message: truncated context") else
  let pos := (pos + ctx_len)%nat in
  list_len ← slice msg pos (pos + 3) ≫= read_u24;
  let pos := (pos + 3)%nat in
  let list_end := (pos + Z.to_nat list_len)%nat in
  if (length msg <? list_end)%nat then Err (Tls "TLS Certificate message: certificate_list truncated") else
  if (list_end <? pos + 3)%nat then Err (Tls "TLS Certificate message: empty certificate_list") else
  cert_data_len ← slice msg pos (pos + 3) ≫= read_u24;
  let pos := (pos + 3)%nat in
  if (list_end <? pos + Z.to_nat cert_data_len)%nat then Err (Tls "TLS Certificate message: cert_data truncated") else
  slice msg pos (pos + Z.to_nat cert_data_len).

(** *** The template of a name *)

Record CertTemplate : Type := mkTemplate { signing_key : bytes; verifying_key : bytes; cert_der : bytes }.

Definition normalize_sni (cover_sni : bytes) : bytes := match cover_sni with [] => str "localhost" | _ => cover_sni end.

Definition cache_key (sni : bytes) (mlkem : bool) : bytes := if mlkem then sni ++ str ":mlkem768" else sni.

(** The signature takes the last 64 bytes. *)
Definition go_reality_signature_range (der : bytes) : result nat :=
  if (length der <? 64)%nat then Err (Tls "REALITY cert DER too short") else Ok (length der - 64)%nat.

(** [generated] is what the libraries make for a name that is not cached. *)
Definition get_template (cache : gmap bytes CertTemplate) (sni : bytes) (mlkem_client : bool) (generated : result CertTemplate) :
    gmap bytes CertTemplate * result CertTemplate :=
  let key := cache_key sni mlkem_client in
  match cache !! key with
  | Some template => (cache, Ok template)
  | None =>
      match generated with
      | Ok template =>
          match go_reality_signature_range (cert_der template) with
          | Ok _ => (<[key := template]> cache, Ok template)
          | Err e => (cache, Err e)
          | Panic => (cache, Panic)
          end
      | Err e => (cache, Err e)
      | Panic => (cache, Panic)
      end
  end.

Definition patch_cert_der (template : CertTemplate) (auth_key : bytes) : result bytes :=
  let signature := reality_cert_hmac auth_key (verifying_key template) in
  start ← go_reality_signature_range (cert_der template);
  Ok (patch start signature (cert_der template)).

Definition tls_cert_for_auth_key (cache : gmap bytes CertTemplate) (auth_key cover_sni : bytes) (mlkem_client : bool)
    (generated : result CertTemplate) : gmap bytes CertTemplate * result (bytes * bytes) :=
  let '(cache, template) := get_template cache (normalize_sni cover_sni) mlkem_client generated in
  (cache, template ← template; der ← patch_cert_der template auth_key; Ok (der, signing_key template)).
End Cert.

(** ** The client *)

Definition finished_message (verify_data : bytes) : bytes := [HS_FINISHED] ++ put_u24 (as_u32 (zlen verify_data)) ++ verify_data.

Section Client.
Context `{RealityCrypto} `{Tls13Crypto} `{AeadCrate}.

(** The messages of one record: the transcript, and whether a Finished was among them. *)
Fixpoint server_messages (cs : CipherSuite) (hs_keys : HsKeys) (auth_key : bytes) (msgs : list (Z * bytes)) (transcript : bytes) (found_finished : bool) :
    result (bytes * bool) :=
  match msgs with
  | [] => Ok (transcript, found_finished)
  | (hs_type, msg_bytes) :: msgs =>
      if hs_type =? HS_CERTIFICATE then
        cert_der ← parse_certificate_message_der msg_bytes;
        _ ← verify_reality_cert_hmac auth_key cert_der;
        server_messages cs hs_keys auth_key msgs (transcript ++ msg_bytes) found_finished
      else if (hs_type =? HS_ENCRYPTED_EXTENSIONS) || (hs_type =? HS_CERTIFICATE_VERIFY) then
        server_messages cs hs_keys auth_key msgs (transcript ++ msg_bytes) found_finished
      else if hs_type =? HS_FINISHED then
        let transcript_hash := hash cs transcript in
        expected ← hmac cs (server_finished_key hs_keys) transcript_hash;
        verify_data ← slice msg_bytes 4 (length msg_bytes);
        if negb (bool_decide (verify_data = expected)) then Err (Protocol "server Finished HMAC mismatch")
        else server_messages cs hs_keys auth_key msgs (transcript ++ msg_bytes) true
      else server_messages cs hs_keys auth_key msgs transcript found_finished
  end.

Fixpoint read_server_flight (fuel : nat) (cs : CipherSuite) (hs_keys : HsKeys) (auth_key : bytes) (srv_seq : Z) (transcript : bytes) : wire bytes :=
  match fuel with
  | O => stuck
  | S fuel =>
      rec ← read_record;
      ty ← try (idx rec.1 0);
      if ty =? RT_CHANGE_CIPHER_SPEC then read_server_flight fuel cs hs_keys auth_key srv_seq transcript
      else if ty =? RT_ALERT then refuse "TLS alert from server during handshake"
      else if ty =? RT_APPLICATION_DATA then
        inner ← try (decrypt_app_record cs (hs_server_key hs_keys) (hs_server_iv hs_keys) srv_seq rec.2 rec.1);
        let srv_seq := as_u64 (srv_seq + 1) in
        if negb (inner.2 =? RT_HANDSHAKE) then read_server_flight fuel cs hs_keys auth_key srv_seq transcript
        else
          msgs ← try (split_handshake_messages inner.1);
          st ← try (server_messages cs hs_keys auth_key msgs transcript false);
          if st.2 : bool then mret st.1 else read_server_flight fuel cs hs_keys auth_key srv_seq st.1
      else refuse "unexpected TLS record type during handshake"
  end.

Definition key_agreement (selected_group : Z) (server_pub_bytes client_x25519_secret : bytes) (client_p256_secret : option bytes) : result bytes :=
  if selected_group =? 29 then
    if negb (length server_pub_bytes =? 32)%nat then Err (Protocol "ServerHello x25519 key_share length mismatch")
    else Ok (x25519 client_x25519_secret server_pub_bytes)
  else if selected_group =? 23 then
    client_p256_secret ← of_option (Protocol "ServerHello selected secp256r1 but client has no P-256 key share") client_p256_secret;
    of_option (Protocol "invalid secp256r1 ServerHello key_share") (p256_diffie_hellman client_p256_secret server_pub_bytes)
  else Err (Protocol "unsupported ServerHello key_share group").

(** A record takes at least five bytes, so that the length of what arrives bounds the
    rounds of the loop. *)
Definition complete_tls13_handshake (client_hello_hs_body client_x25519_secret : bytes) (client_p256_secret : option bytes) (auth_key : bytes) : wire AppKeys :=
  sh ← read_record;
  ty ← try (idx sh.1 0);
  if negb (ty =? RT_HANDSHAKE) then refuse "expected TLS Handshake (0x16)" else
  hello ← try (parse_server_hello sh.2);
  let '(cs, selected_group, server_pub_bytes) := hello in
  let transcript := client_hello_hs_body ++ sh.2 in
  tls_dhe ← try (key_agreement selected_group server_pub_bytes client_x25519_secret client_p256_secret);
  let transcript_hash_after_sh := hash cs transcript in
  if negb (length tls_dhe =? 32)%nat then refuse "TLS key agreement secret length mismatch" else
  hs_keys ← try (derive_handshake_keys cs tls_dhe transcript_hash_after_sh);
  transcript ← bounded (fun fuel => read_server_flight fuel cs hs_keys auth_key 0 transcript);
  let app_transcript_hash := hash cs transcript in
  app_keys ← try (derive_app_keys cs (master_secret hs_keys) app_transcript_hash);
  _ ← say change_cipher_spec;
  client_finished_data ← try (hmac cs (client_finished_key hs_keys) app_transcript_hash);
  finished_record ← try (encrypt_app_record cs (hs_client_key hs_keys) (hs_client_iv hs_keys) 0 (finished_message client_finished_data) RT_HANDSHAKE);
  _ ← say finished_record;
  mret app_keys.
End Client.

(** ** The server *)

Definition SIG_ED25519 : Z := 0x0807.
Definition TLS13_SERVER_CERT_VERIFY_CONTEXT : bytes := str "TLS 1.3, server CertificateVerify" ++ [0].

Record CoverHandshakeProfile : Type := mkCover {
  cipher_suite : CipherSuite;
  selected_group : Z;
  sends_ccs : bool;
  encrypted_record_lengths : list nat
}.

(** Only a cover that selects X25519 is imitated. *)
Definition x25519_cover (cover_profile : option CoverHandshakeProfile) : option CoverHandshakeProfile :=
  cover_profile ≫= fun profile => if selected_group profile =? GROUP_X25519 then Some profile else None.

(** [as_chunks::<2>] *)
Fixpoint chunks2 (l : bytes) : list Z :=
  match l with a :: b :: l => be_val [a; b] :: chunks2 l | _ => [] end.

Definition pick_cipher_suite (ch_body : bytes) (cover_preference : option CipherSuite) : result CipherSuite :=
  list ← client_hello_cipher_suites ch_body;
  let offered v := existsb (Z.eqb v) (chunks2 list) in
  let standard :=
    if offered 0x1301 then from_u16 0x1301
    else if offered 0x1302 then from_u16 0x1302
    else Err (Protocol "ClientHello offers no supported TLS 1.3 cipher suite") in
  match cover_preference with
  | Some preferred => if offered (to_u16 preferred) then from_u16 (to_u16 preferred) else standard
  | None => standard
  end.

Definition build_server_hello (cs : CipherSuite) (server_pub session_id random : bytes) : bytes :=
  let extensions := [0x00; 0x2b; 0x00; 0x02; 0x03; 0x04] ++ [0x00; 0x33; 0x00; 0x24] ++ be_bytes 2 29 ++ be_bytes 2 32 ++ server_pub in
  let body_len := 2 + 32 + 1 + zlen session_id + 2 + 1 + 2 + zlen extensions in
  [HS_SERVER_HELLO] ++ put_u24 body_len ++ [0x03; 0x03] ++ random ++ [as_u8 (zlen session_id)] ++ session_id ++
  be_bytes 2 (to_u16 cs) ++ [0] ++ be_bytes 2 (as_u16 (zlen extensions)) ++ extensions.

Definition build_encrypted_extensions : bytes := [HS_ENCRYPTED_EXTENSIONS] ++ put_u24 2 ++ [0; 0].

Definition build_certificate (cert_der : bytes) : bytes :=
  let entry := put_u24 (zlen cert_der) ++ cert_der ++ [0x00; 0x00] in
  let cert_list := put_u24 (zlen entry) ++ entry in
  let payload_len := 1 + zlen cert_list in
  [HS_CERTIFICATE] ++ put_u24 payload_len ++ [0] ++ cert_list.

Section Server.
Context `{RealityCrypto} `{Tls13Crypto} `{AeadCrate}.

Definition build_certificate_verify (cs : CipherSuite) (signing_key transcript : bytes) : bytes :=
  let content := replicate 64 0x20 ++ TLS13_SERVER_CERT_VERIFY_CONTEXT ++ hash cs transcript in
  let sig_bytes := ed25519_sign signing_key content in
  let payload_len := 2 + 2 + zlen sig_bytes in
  [HS_CERTIFICATE_VERIFY] ++ put_u24 payload_len ++ be_bytes 2 SIG_ED25519 ++ be_bytes 2 (as_u16 (zlen sig_bytes)) ++ sig_bytes.

(** The records that have the lengths of the cover's, as long as there is something
    to send: what is left of the flight and the next sequence number. *)
Fixpoint write_shaped (cs : CipherSuite) (hs_keys : HsKeys) (lengths : list nat) (flight : bytes) (seq : Z) : wire (bytes * Z) :=
  match lengths with
  | [] => mret (flight, seq)
  | ciphertext_len :: lengths =>
      if (length flight =? 0)%nat then mret (flight, seq)
      else
        let content_capacity := (ciphertext_len - 17)%nat in
        if (content_capacity =? 0)%nat then write_shaped cs hs_keys lengths flight seq
        else
          let n := Nat.min (length flight) content_capacity in
          record ← try (encrypt_app_record_padded cs (hs_server_key hs_keys) (hs_server_iv hs_keys) seq (take n flight) RT_HANDSHAKE ciphertext_len);
          _ ← say record;
          write_shaped cs hs_keys lengths (drop n flight) (as_u64 (seq + 1))
  end.

Definition FLIGHT_CHUNK : nat := Z.to_nat (16 * 1024 - 1).

Fixpoint write_plain (fuel : nat) (cs : CipherSuite) (hs_keys : HsKeys) (flight : bytes) (seq : Z) : wire unit :=
  match fuel with
  | O => stuck
  | S fuel =>
      if (length flight =? 0)%nat then mret tt
      else
        let n := Nat.min (length flight) FLIGHT_CHUNK in
        record ← try (encrypt_app_record cs (hs_server_key hs_keys) (hs_server_iv hs_keys) seq (take n flight) RT_HANDSHAKE);
        _ ← say record;
        write_plain fuel cs hs_keys (drop n flight) (as_u64 (seq + 1))
  end.

Definition write_encrypted_flight (cs : CipherSuite) (hs_keys : HsKeys) (flight : bytes) (cover_profile : option CoverHandshakeProfile) : wire unit :=
  st ← match cover_profile with
       | Some profile => write_shaped cs hs_keys (encrypted_record_lengths profile) flight 0
       | None => mret (flight, 0)
       end;
  write_plain (S (length st.1)) cs hs_keys st.1 st.2.

(** The messages of a record of the client: whether its Finished was among them. *)
Fixpoint client_messages (cs : CipherSuite) (hs_keys : HsKeys) (app_transcript_hash : bytes) (msgs : list (Z * bytes)) : result bool :=
  match msgs with
  | [] => Ok false
  | (hs_type, msg_bytes) :: msgs =>
      if hs_type =? HS_FINISHED then
        verify_data ← slice msg_bytes 4 (length msg_bytes);
        expected ← hmac cs (client_finished_key hs_keys) app_transcript_hash;
        if negb (bool_decide (verify_data = expected)) then Err (Protocol "client Finished HMAC mismatch") else Ok true
      else client_messages cs hs_keys app_transcript_hash msgs
  end.

Fixpoint read_client_finished (fuel : nat) (cs : CipherSuite) (hs_keys : HsKeys) (app_transcript_hash : bytes) (cli_seq : Z) : wire unit :=
  match fuel with
  | O => stuck
  | S fuel =>
      rec ← read_record;
      ty ← try (idx rec.1 0);
      if ty =? RT_CHANGE_CIPHER_SPEC then read_client_finished fuel cs hs_keys app_transcript_hash cli_seq
      else if ty =? RT_ALERT then refuse "TLS alert from client during handshake"
      else if ty =? RT_APPLICATION_DATA then
        inner ← try (decrypt_app_record cs (hs_client_key hs_keys) (hs_client_iv hs_keys) cli_seq rec.2 rec.1);
        let cli_seq := as_u64 (cli_seq + 1) in
        if negb (inner.2 =? RT_HANDSHAKE) then read_client_finished fuel cs hs_keys app_transcript_hash cli_seq
        else
          msgs ← try (split_handshake_messages inner.1);
          finished ← try (client_messages cs hs_keys app_transcript_hash msgs);
          if finished : bool then mret tt else read_client_finished fuel cs hs_keys app_transcript_hash cli_seq
      else refuse "unexpected TLS record waiting for client Finished"
  end.

(** [cert] is the result of [tls_cert_for_auth_key]; [server_tls_secret] and [random]
    are drawn. *)
Definition complete_tls13_server_handshake (auth_key : bytes) (cert : result (bytes * bytes)) (cover_profile : option CoverHandshakeProfile)
    (server_tls_secret random : bytes) : wire AppKeys :=
  ch_body ← read_client_hello_message false;
  let cover_profile := x25519_cover cover_profile in
  cs ← try (pick_cipher_suite ch_body (cipher_suite <$> cover_profile));
  fields ← try (parse_client_hello ch_body);
  let client_share := x25519_key_share fields in
  cert ← try cert;
  let '(cert_der, signing_key) := cert in
  _ ← try (map_err (fun _ => Tls "REALITY cert self-check before send") (verify_reality_cert_hmac auth_key cert_der));
  let server_pub_bytes := x25519_public server_tls_secret in
  session_id ← try (client_hello_session_id ch_body);
  let sh_body := build_server_hello cs server_pub_bytes session_id random in
  _ ← say (write_handshake_record sh_body);
  let transcript := ch_body ++ sh_body in
  let tls_dhe := x25519 server_tls_secret client_share in
  if negb (length tls_dhe =? 32)%nat then refuse "TLS DHE secret length mismatch" else
  hs_keys ← try (derive_handshake_keys cs tls_dhe (hash cs transcript));
  _ ← if from_option sends_ccs true cover_profile then say change_cipher_spec else mret tt;
  let ee_msg := build_encrypted_extensions in
  let transcript := transcript ++ ee_msg in
  let cert_msg := build_certificate cert_der in
  let transcript := transcript ++ cert_msg in
  let cv_msg := build_certificate_verify cs signing_key transcript in
  let transcript := transcript ++ cv_msg in
  server_finished_data ← try (hmac cs (server_finished_key hs_keys) (hash cs transcript));
  let finished_msg := finished_message server_finished_data in
  let transcript := transcript ++ finished_msg in
  let flight := ee_msg ++ cert_msg ++ cv_msg ++ finished_msg in
  _ ← write_encrypted_flight cs hs_keys flight cover_profile;
  let app_transcript_hash := hash cs transcript in
  app_keys ← try (derive_app_keys cs (master_secret hs_keys) app_transcript_hash);
  _ ← bounded (fun fuel => read_client_finished fuel cs hs_keys app_transcript_hash 0);
  mret app_keys.
End Server.

(** ** The shape of the cover site *)

Definition read_tcp_record : wire (bytes * bytes) :=
  header ← pull false 5;
  hi ← try (idx header 3);
  lo ← try (idx header 4);
  let body_len := be_val [hi; lo] in
  if 18 * 1024 <? body_len then refuse "cover TLS record too large"
  else
    body ← pull false (Z.to_nat body_len);
    mret (header, body).

Definition MAX_PROFILE_BYTES : Z := 64 * 1024.
Definition MAX_PROFILE_RECORDS : nat := 8.

Fixpoint profile_loop (fuel : nat) (total : Z) (ccs : bool) (lengths : list nat) : wire (bool * list nat) :=
  match fuel with
  | O => stuck
  | S fuel =>
      if (length lengths <? MAX_PROFILE_RECORDS)%nat && (total <? MAX_PROFILE_BYTES) then
        rec ← read_tcp_record;
        let total := total + (zlen rec.1 + zlen rec.2) in
        ty ← try (idx rec.1 0);
        if ty =? RT_CHANGE_CIPHER_SPEC then profile_loop fuel total true lengths
        else if ty =? RT_APPLICATION_DATA then
          let lengths := lengths ++ [length rec.2] in
          if zlen rec.2 <? 16 * 1024 then mret (ccs, lengths) else profile_loop fuel total ccs lengths
        else mret (ccs, lengths)
      else mret (ccs, lengths)
  end.

Definition read_cover_handshake_profile : wire CoverHandshakeProfile :=
  sh ← read_tcp_record;
  ty ← try (idx sh.1 0);
  if negb (ty =? RT_HANDSHAKE) then refuse "cover did not return a TLS ServerHello" else
  hello ← try (parse_server_hello sh.2);
  let '(cs, group, _) := hello in
  r ← profile_loop (S (Z.to_nat MAX_PROFILE_BYTES)) (zlen sh.1 + zlen sh.2) false [];
  match r.2 with
  | [] => refuse "cover returned no encrypted TLS handshake record"
  | _ => mret (mkCover cs group r.1 r.2)
  end.

(** * Facts *)

(** What the libraries document: lengths, and when they refuse. *)
Class Tls13Laws `{RealityCrypto} `{Tls13Crypto} : Prop := {
  x25519_length a b : length (x25519 a b) = 32%nat;
  digest_length h d : length (sha_digest h d) = sha_len h;
  extract_length h salt ikm : length (hkdf_extract_with h salt ikm) = sha_len h;
  from_prk_ok h prk : (sha_len h <= length prk)%nat -> is_Some (hkdf_from_prk h prk);
  expand_ok h p info len : (len <= 255 * sha_len h)%nat -> exists k, hkdf_expand_with h p info len = Some k /\ length k = len;
  hmac_new_ok h key : is_Some (hmac_new h key);
  hmac_length h m d : length (hmac_finalize h m d) = sha_len h;
  hmac_sha512_length k d : length (hmac_sha512 k d) = 64%nat;
  ed25519_length k d : length (ed25519_sign k d) = 64%nat
}.

(** A certificate of the libraries for an Ed25519 key: whatever signature is put at its
    end, it parses, with that signature. *)
Definition template_ok `{Tls13Crypto} (t : CertTemplate) : Prop :=
  length (verifying_key t) = 32%nat /\ (64 <= length (cert_der t))%nat /\
  forall sig, length sig = 64%nat ->
    x509_from_der (patch (length (cert_der t) - 64) sig (cert_der t)) = Some (mkX509 "1.3.101.112" (verifying_key t) sig).

(** ** Conversations *)

Lemma wire_try {A B} (a : A) (f : A -> wire B) s : (try (Ok a) ≫= f) s = f a s.
Proof. unfold mbind, wire_bind, try. by destruct (f a s) as [[w l] r]. Qed.

Lemma wire_say {B} b (f : unit -> wire B) s : (say b ≫= f) s = (b ++ (f tt s).1.1, (f tt s).1.2, (f tt s).2).
Proof. unfold mbind, wire_bind, say. by destruct (f tt s) as [[w l] r]. Qed.

Lemma wire_heard {A B} (m : wire A) (f : A -> wire B) s l a : m s = ([], l, Ok a) -> (m ≫= f) s = f a l.
Proof. intros Hm. unfold mbind, wire_bind. rewrite Hm. by destruct (f a l) as [[w l'] r]. Qed.

Lemma wire_pure {A B} (a : A) (f : A -> wire B) s : (mret a ≫= f) s = f a s.
Proof. by apply wire_heard. Qed.

(** ** Keys *)

Section Keys.
Context `{HL : Tls13Laws}.

Lemma hash_length cs d : length (hash cs d) = hash_len cs.
Proof. destruct cs; apply digest_length. Qed.

Lemma hkdf_extract_length cs salt ikm : length (hkdf_extract cs salt ikm) = hash_len cs.
Proof. destruct cs; apply extract_length. Qed.

Lemma expand_label_ok cs prk label ctx len : (hash_len cs <= length prk)%nat -> (len <= 48)%nat ->
  exists k, expand_label cs prk label ctx len = Ok k /\ length k = len.
Proof.
  intros Hp Hl. unfold expand_label. cbv zeta. destruct cs; cbn [hash_len] in Hp.
  - destruct (from_prk_ok Sha256 prk Hp) as [p ->]. cbn [of_option]. mred.
    edestruct (expand_ok Sha256 p) as (k & -> & Hk); [cbn; lia|]. by exists k.
  - destruct (from_prk_ok Sha384 prk Hp) as [p ->]. cbn [of_option]. mred.
    edestruct (expand_ok Sha384 p) as (k & -> & Hk); [cbn; lia|]. by exists k.
Qed.

Lemma derive_secret_ok cs prk label th : (hash_len cs <= length prk)%nat ->
  exists k, derive_secret cs prk label th = Ok k /\ length k = hash_len cs.
Proof. intros Hp. apply expand_label_ok; [done|]. destruct cs; cbn; lia. Qed.

Lemma iv_ok cs prk : (hash_len cs <= length prk)%nat -> exists iv, iv_from_label cs prk = Ok iv /\ length iv = 12%nat.
Proof.
  intros Hp. unfold iv_from_label. destruct (expand_label_ok cs prk "iv" [] 12 Hp) as (iv & -> & Hiv); [lia|]. mred. rewrite Hiv. by exists iv.
Qed.

Lemma traffic_key_ok cs prk : (hash_len cs <= length prk)%nat -> exists k, expand_label cs prk "key" [] (key_len cs) = Ok k /\ length k = key_len cs.
Proof. intros Hp. apply expand_label_ok; [done|]. destruct cs; cbn; lia. Qed.

Lemma hmac_ok cs key d : exists m, hmac cs key d = Ok m /\ length m = hash_len cs.
Proof.
  unfold hmac. destruct cs; [destruct (hmac_new_ok Sha256 key) as [m ->]|destruct (hmac_new_ok Sha384 key) as [m ->]];
    cbn [of_option]; mred; eexists; (split; [done|apply hmac_length]).
Qed.

Record hs_keys_fit (cs : CipherSuite) (k : HsKeys) : Prop := {
  fit_client_key : length (hs_client_key k) = key_len cs;
  fit_client_iv : length (hs_client_iv k) = 12%nat;
  fit_server_key : length (hs_server_key k) = key_len cs;
  fit_server_iv : length (hs_server_iv k) = 12%nat;
  fit_master : length (master_secret k) = hash_len cs
}.

(** Takes one step of the key schedule. *)
Ltac schedule :=
  match goal with
  | |- context [derive_secret ?cs ?p ?l ?t] =>
      destruct (derive_secret_ok cs p l t) as (? & -> & ?); [rewrite ?hkdf_extract_length; lia|]; mred
  | |- context [iv_from_label ?cs ?p] => destruct (iv_ok cs p) as (? & -> & ?); [lia|]; mred
  | |- context [expand_label ?cs ?p "key" [] _] => destruct (traffic_key_ok cs p) as (? & -> & ?); [lia|]; mred
  | |- context [expand_label ?cs ?p ?l [] (hash_len _)] => destruct (expand_label_ok cs p l [] (hash_len cs)) as (? & -> & ?); [lia|destruct cs; cbn; lia|]; mred
  end.

Lemma derive_handshake_keys_ok cs dhe th : exists k, derive_handshake_keys cs dhe th = Ok k /\ hs_keys_fit cs k.
Proof.
  unfold derive_handshake_keys. cbv zeta. repeat schedule. eexists. split; [done|].
  split; cbn; try done. apply hkdf_extract_length.
Qed.

Record app_keys_fit (cs : CipherSuite) (k : AppKeys) : Prop := {
  fit_cs : app_cs k = cs;
  fit_app_client_key : length (client_key k) = key_len cs;
  fit_app_client_iv : length (client_iv k) = 12%nat;
  fit_app_server_key : length (server_key k) = key_len cs;
  fit_app_server_iv : length (server_iv k) = 12%nat
}.

Lemma derive_app_keys_ok cs ms th : length ms = hash_len cs -> exists k, derive_app_keys cs ms th = Ok k /\ app_keys_fit cs k.
Proof. intros Hm. unfold derive_app_keys. repeat schedule. eexists. split; [done|]. by split. Qed.
End Keys.

(** ** Records *)

Lemma rposition_zeros n : rposition_nonzero (replicate n 0) = None.
Proof. induction n as [|n IH]; cbn; [done|]. by rewrite IH. Qed.

(** The content type is found behind any padding. *)
Lemma rposition_inner p ty n : ty <> 0 -> rposition_nonzero (p ++ [ty] ++ replicate n 0) = Some (length p).
Proof.
  intros Hty. induction p as [|b p IH]; cbn in *; [|by rewrite IH]. rewrite rposition_zeros. by rewrite (proj2 (Z.eqb_neq _ _)).
Qed.

Lemma u16_halves n : 0 <= n < 2 ^ 16 -> be_val [as_u8 (Z.shiftr n 8); as_u8 n] = n.
Proof.
  intros Hn. rewrite be_val_2, Z.shiftr_div_pow2 by lia. unfold as_u8. change (2 ^ 16) with 65536 in Hn. change (2 ^ 8) with 256.
  rewrite (Z.mod_small (n / 256)) by (split; [apply Z.div_pos|apply Z.div_lt_upper_bound]; lia). pose proof (Z.div_mod n 256). lia.
Qed.

Lemma read_record_parts ty hi lo b s : Z.to_nat (be_val [hi; lo]) = length b ->
  read_record ([ty; 3; 3; hi; lo] ++ b ++ s) = ([], s, Ok ([ty; 3; 3; hi; lo], b)).
Proof.
  intros Hb. unfold read_record. erewrite wire_heard by (by apply pull_app). change (idx (E := ProxyError) [ty; 3; 3; hi; lo] 3) with (Ok (E := ProxyError) hi). rewrite wire_try.
  change (idx (E := ProxyError) [ty; 3; 3; hi; lo] 4) with (Ok (E := ProxyError) lo). rewrite wire_try, Hb.
  by erewrite wire_heard by (by apply pull_app).
Qed.

Lemma read_app_record ct s : zlen ct < 2 ^ 16 ->
  read_record (record_header (zlen ct) ++ ct ++ s) = ([], s, Ok (record_header (zlen ct), ct)).
Proof.
  intros Hct. apply read_record_parts. rewrite u16_halves by (pose proof (zlen_nonneg ct); lia). apply zlen_to_nat.
Qed.

Lemma read_handshake_record b s : zlen b < 2 ^ 16 ->
  exists h, read_record (write_handshake_record b ++ s) = ([], s, Ok (h, b)) /\ idx (E := ProxyError) h 0 = Ok RT_HANDSHAKE.
Proof.
  intros Hb. pose proof (zlen_nonneg b). unfold write_handshake_record, put_u16. rewrite as_u16_id by lia.
  pose proof (be_val_be_bytes_id 2 (zlen b)) as Hv. destruct (be_bytes 2 (zlen b)) as [|hi [|lo [|x l]]] eqn:E; try (pose proof (length_be_bytes 2 (zlen b)) as Hl; rewrite E in Hl; discriminate).
  eexists. rewrite <- !app_assoc. change ([RT_HANDSHAKE; 3; 3] ++ [hi; lo] ++ b ++ s) with ([RT_HANDSHAKE; 3; 3; hi; lo] ++ b ++ s).
  rewrite read_record_parts; [done|]. rewrite Hv by lia. apply zlen_to_nat.
Qed.

Lemma read_ccs s : exists h b, read_record (change_cipher_spec ++ s) = ([], s, Ok (h, b)) /\ idx (E := ProxyError) h 0 = Ok RT_CHANGE_CIPHER_SPEC.
Proof. eexists _, _. split; [by apply (read_record_parts RT_CHANGE_CIPHER_SPEC 0 1 [1])|done]. Qed.

Section RecordCrypto.
Context `{HA : AeadLaws}.

Lemma crypter_ok cs key : length key = key_len cs -> crypter_new cs key = Ok (mkKey (record_alg cs) key).
Proof.
  intros Hk. unfold crypter_new, AeadKey_new. replace (length key =? Aead.key_len (record_alg cs))%nat with true; [done|].
  symmetry. apply Nat.eqb_eq. rewrite Hk. by destruct cs.
Qed.

Lemma open_record k iv seq p ty n header : ty <> 0 ->
  decrypt_app_record_with k iv seq (sealed k (compute_nonce iv seq) header (p ++ [ty] ++ replicate n 0)) header = Ok (p, ty).
Proof.
  intros Hty. unfold decrypt_app_record_with. cbv zeta. rewrite open_combined_sealed. cbn [of_option]. mred. rewrite rposition_inner by done.
  cbn [of_option]. mred. change (p ++ [ty] ++ replicate n 0) with (p ++ ty :: replicate n 0). rewrite (idx_app_mid p ty _ (length p)) by done. mred. by rewrite take_app_length.
Qed.

(** What [decrypt_app_record] makes of a record on the wire. *)
Definition carries (cs : CipherSuite) (key iv : bytes) (seq : Z) (record p : bytes) (ty : Z) : Prop :=
  exists header ct, record = header ++ ct /\ header = record_header (zlen ct) /\ zlen ct < 2 ^ 16 /\
    decrypt_app_record cs key iv seq ct header = Ok (p, ty).

Lemma sealed_zlen k nonce aad p : zlen (sealed k nonce aad p) = zlen p + 16.
Proof. unfold zlen. rewrite sealed_length. unfold TAG_LEN. lia. Qed.

Lemma encrypt_carries cs key iv seq p ty : length key = key_len cs -> ty <> 0 -> zlen p < 2 ^ 16 - 17 ->
  exists record, encrypt_app_record cs key iv seq p ty = Ok record /\ carries cs key iv seq record p ty.
Proof.
  intros Hk Hty Hp. unfold encrypt_app_record. rewrite crypter_ok by done. mred. eexists. split; [done|]. unfold encrypt_app_record_with. cbv zeta.
  eexists _, _. split; [done|]. rewrite sealed_zlen. split; [done|]. split; [rewrite zlen_app; change (zlen [ty]) with 1; lia|].
  unfold decrypt_app_record. rewrite crypter_ok by done. mred. apply (open_record _ _ _ p ty 0 _ Hty).
Qed.

Lemma padded_carries cs key iv seq p ty len : length key = key_len cs -> ty <> 0 -> (length p + 17 <= len)%nat -> Z.of_nat len < 2 ^ 16 ->
  exists record, encrypt_app_record_padded cs key iv seq p ty len = Ok record /\ carries cs key iv seq record p ty.
Proof.
  intros Hk Hty Hp Hl. unfold encrypt_app_record_padded. cbv zeta. rewrite (proj2 (Nat.ltb_ge _ _)) by (unfold TAG_LEN; lia).
  rewrite (proj2 (Z.ltb_ge _ _)) by lia. cbn [orb]. rewrite crypter_ok by done. mred. eexists. split; [done|]. eexists _, _. split; [done|].
  rewrite <- app_assoc. set (n := (len - TAG_LEN - length (p ++ [ty]))%nat).
  assert (Hz : zlen (p ++ [ty] ++ replicate n 0) + 16 = Z.of_nat len).
  { unfold n, zlen. rewrite !length_app, length_replicate. cbn [length]. unfold TAG_LEN. lia. }
  rewrite sealed_zlen, Hz. split; [done|]. split; [done|]. unfold decrypt_app_record. rewrite crypter_ok by done. mred. by apply open_record.
Qed.

Lemma read_carried cs key iv seq record p ty s : carries cs key iv seq record p ty ->
  exists h ct, read_record (record ++ s) = ([], s, Ok (h, ct)) /\ idx (E := ProxyError) h 0 = Ok RT_APPLICATION_DATA /\
    decrypt_app_record cs key iv seq ct h = Ok (p, ty).
Proof.
  intros (h & ct & -> & -> & Hct & Hd). eexists _, _. rewrite <- app_assoc. split; [by apply read_app_record|]. done.
Qed.
End RecordCrypto.

(** ** Handshake messages *)

Definition message (ty : Z) (body : bytes) : bytes := [ty] ++ put_u24 (zlen body) ++ body.

Lemma message_length ty body : length (message ty body) = (4 + length body)%nat.
Proof. reflexivity. Qed.

Definition small (body : bytes) : Prop := zlen body < 2 ^ 24.

Lemma split_loop_ok ms fuel pre : Forall (fun m => small m.2) ms -> (length ms < fuel)%nat ->
  split_loop fuel (pre ++ concat ((fun m => message m.1 m.2) <$> ms)) (length pre) = Ok ((fun m => (m.1, message m.1 m.2)) <$> ms).
Proof.
  intros Hms. revert fuel pre. induction Hms as [|[ty body] ms Hb Hms IH]; intros [|fuel] pre Hf; try (cbn in Hf; lia); cbn [split_loop].
  { rewrite app_nil_r. by rewrite (proj2 (Nat.leb_gt _ _)) by lia. }
  cbn [fmap list_fmap concat fst snd]. unfold small in Hb. cbn [snd] in Hb. set (rest := concat _).
  rewrite (proj2 (Nat.leb_le _ _)) by (rewrite !length_app, message_length; lia).
  assert (Hidx : idx (E := ProxyError) (pre ++ message ty body ++ rest) (length pre) = Ok ty) by (by apply idx_app_mid).
  assert (Hlen : slice (E := ProxyError) (pre ++ message ty body ++ rest) (length pre + 1) (length pre + 4) = Ok (put_u24 (zlen body))).
  { replace (pre ++ message ty body ++ rest) with ((pre ++ [ty]) ++ put_u24 (zlen body) ++ body ++ rest) by (unfold message; by rewrite <- !app_assoc).
    apply slice_mid; rewrite ?length_app; cbn [length put_u24]; lia. }
  rewrite Hidx. mred. rewrite Hlen. mred. rewrite put_u24_val, zlen_to_nat by (pose proof (zlen_nonneg body); lia).
  rewrite (proj2 (Nat.ltb_ge _ _)) by (rewrite !length_app, message_length; lia).
  rewrite slice_mid by (rewrite ?message_length; lia). mred.
  replace (pre ++ message ty body ++ rest) with ((pre ++ message ty body) ++ rest) by (by rewrite app_assoc).
  replace (length pre + 4 + length body)%nat with (length (pre ++ message ty body)) by (rewrite length_app, message_length; lia).
  unfold rest. rewrite IH by (cbn in Hf; lia). done.
Qed.

Lemma split_messages ms : Forall (fun m => small m.2) ms ->
  split_handshake_messages (concat ((fun m => message m.1 m.2) <$> ms)) = Ok ((fun m => (m.1, message m.1 m.2)) <$> ms).
Proof.
  intros Hms. apply (split_loop_ok ms _ []); [done|]. enough (length ms <= length (concat ((fun m => message m.1 m.2) <$> ms)))%nat by lia.
  clear. induction ms as [|m ms IH]; cbn [fmap list_fmap concat length]; [lia|]. rewrite length_app, message_length. lia.
Qed.

Lemma finished_is_message v : zlen v < 2 ^ 24 -> finished_message v = message HS_FINISHED v.
Proof. intros Hv. unfold finished_message, as_u32. rewrite Z.mod_small; [done|]. pose proof (zlen_nonneg v). lia. Qed.

(** *** The certificate *)

Lemma read_u24_put v : 0 <= v < 2 ^ 24 -> read_u24 (put_u24 v) = Ok v.
Proof.
  intros Hv. rewrite <- (put_u24_val v Hv) at 2. unfold put_u24, read_u24, be_val. cbn [foldl]. f_equal.
  set (a := as_u8 (Z.shiftr v 16)). set (b := as_u8 (Z.shiftr v 8)). set (c := as_u8 v).
  assert (0 <= a < 256 /\ 0 <= b < 256 /\ 0 <= c < 256) as (Ha & Hb & Hc) by (unfold a, b, c, as_u8; split_and!; apply Z.mod_pos_bound; lia).
  rewrite !Z.shiftl_mul_pow2 by lia. rewrite <- Z.lor_assoc, (Z.lor_comm (b * _) c), (lor_shiftl_add c b) by lia.
  rewrite Z.lor_comm, lor_shiftl_add by lia. lia.
Qed.

Definition certificate_body (der : bytes) : bytes := [0] ++ put_u24 (zlen der + 5) ++ put_u24 (zlen der) ++ der ++ [0; 0].

Lemma build_certificate_message der : build_certificate der = message HS_CERTIFICATE (certificate_body der).
Proof.
  unfold build_certificate, message, certificate_body. cbv zeta.
  assert (He : zlen (put_u24 (zlen der) ++ der ++ [0; 0]) = zlen der + 5) by (unfold zlen; rewrite !length_app; cbn [length put_u24]; lia).
  rewrite He. assert (Hl : 1 + zlen (put_u24 (zlen der + 5) ++ put_u24 (zlen der) ++ der ++ [0; 0]) = zlen ([0] ++ put_u24 (zlen der + 5) ++ put_u24 (zlen der) ++ der ++ [0; 0])).
  { unfold zlen. rewrite !length_app. cbn [length]. lia. }
  by rewrite Hl.
Qed.

Lemma certificate_body_length der : length (certificate_body der) = (9 + length der)%nat.
Proof. unfold certificate_body. rewrite !length_app. cbn [length put_u24]. lia. Qed.

(** The certificate that the server sends is the one the client reads. *)
Lemma parse_certificate_build der : zlen der + 9 < 2 ^ 24 -> parse_certificate_message_der (build_certificate der) = Ok der.
Proof.
  intros Hd. rewrite build_certificate_message. pose proof (zlen_nonneg der). unfold parse_certificate_message_der. change (head (message HS_CERTIFICATE (certificate_body der))) with (Some HS_CERTIFICATE).
  rewrite bool_decide_eq_true_2 by done. cbn [negb]. rewrite message_length, certificate_body_length. rewrite (proj2 (Nat.ltb_ge _ _)) by lia.
  change (idx (message HS_CERTIFICATE (certificate_body der)) 4) with (Ok (E := ProxyError) 0). mred. change (Z.to_nat 0) with 0%nat. cbv zeta.
  rewrite (proj2 (Nat.ltb_ge _ _)) by lia.
  set (msg := message HS_CERTIFICATE (certificate_body der)).
  assert (H1 : slice (E := ProxyError) msg (5 + 0) (5 + 0 + 3) = Ok (put_u24 (zlen der + 5))).
  { apply (slice_mid ([HS_CERTIFICATE] ++ put_u24 (zlen (certificate_body der)) ++ [0]) (put_u24 (zlen der + 5)) (put_u24 (zlen der) ++ der ++ [0; 0])); done. }
  assert (H2 : slice (E := ProxyError) msg (5 + 0 + 3) (5 + 0 + 3 + 3) = Ok (put_u24 (zlen der))).
  { apply (slice_mid ([HS_CERTIFICATE] ++ put_u24 (zlen (certificate_body der)) ++ [0] ++ put_u24 (zlen der + 5)) (put_u24 (zlen der)) (der ++ [0; 0])); done. }
  assert (H3 : slice (E := ProxyError) msg (5 + 0 + 3 + 3) (5 + 0 + 3 + 3 + length der) = Ok der).
  { apply (slice_mid ([HS_CERTIFICATE] ++ put_u24 (zlen (certificate_body der)) ++ [0] ++ put_u24 (zlen der + 5) ++ put_u24 (zlen der)) der [0; 0]); done. }
  rewrite H1. mred. rewrite read_u24_put by lia. mred. rewrite H2.
  assert (Hn : Z.to_nat (zlen der + 5) = (length der + 5)%nat) by (unfold zlen; lia). rewrite Hn.
  rewrite !(proj2 (Nat.ltb_ge _ _)) by lia. mred. rewrite read_u24_put by lia. mred. rewrite zlen_to_nat, (proj2 (Nat.ltb_ge _ _)) by lia. done.
Qed.

Section CertFacts.
Context `{HL : Tls13Laws}.

(** The certificate of a template carries the HMAC that the client looks for. *)
Lemma cert_verifies t auth_key : template_ok t ->
  exists der, patch_cert_der t auth_key = Ok der /\ length der = length (cert_der t) /\ verify_reality_cert_hmac auth_key der = Ok tt.
Proof.
  intros (Hv & Hl & Hx). unfold patch_cert_der, go_reality_signature_range, reality_cert_hmac. rewrite (proj2 (Nat.ltb_ge _ _)) by lia. mred.
  set (sig := hmac_sha512 auth_key (verifying_key t)). assert (Hs : length sig = 64%nat) by apply hmac_sha512_length.
  eexists. split; [done|]. split.
  { unfold patch. rewrite !length_app, length_take, length_drop. lia. }
  unfold verify_reality_cert_hmac, reality_cert_hmac. rewrite (Hx sig Hs). cbn [of_option]. mred. unfold ed25519_public_key_from_cert. cbn [spki_algorithm spki_key].
  rewrite String.eqb_refl, Hv. cbn [negb Nat.eqb]. mred. unfold signature_matches_go_hmac. cbn [signature_value]. cbv zeta. rewrite Hs. cbn [Nat.eqb].
  fold sig. by rewrite bool_decide_eq_true_2.
Qed.

(** A cached template is found again. *)
Lemma template_cached cache sni mlkem generated cache' t :
  get_template cache sni mlkem generated = (cache', Ok t) -> forall g, get_template cache' sni mlkem g = (cache', Ok t).
Proof.
  unfold get_template. cbv zeta. destruct (cache !! cache_key sni mlkem) as [t'|] eqn:E.
  - intros [= <- <-] g. by rewrite E.
  - destruct generated as [t'| |]; [|done..]. destruct (go_reality_signature_range _); [|done..]. intros [= <- <-] g. by rewrite lookup_insert_eq.
Qed.
End CertFacts.

(** ** The ServerHello *)

Ltac explode l := do 32 (destruct l as [|? l]; [discriminate|]); destruct l as [|? l]; [|discriminate].

Lemma parse_server_hello_build cs pub sid random :
  length pub = 32%nat -> length sid = 32%nat -> length random = 32%nat ->
  parse_server_hello (build_server_hello cs pub sid random) = Ok (cs, 29, pub) /\ length (build_server_hello cs pub sid random) = 122%nat.
Proof.
  intros Hp Hs Hr. explode pub. explode sid. explode random. destruct cs; vm_compute; split; reflexivity.
Qed.

Lemma server_extension_loop_no_panic fuel b pos e share : (e <= length b)%nat -> (e - pos < fuel)%nat ->
  no_panic (server_extension_loop fuel b pos e share).
Proof.
  revert pos share. induction fuel as [|fuel IH]; intros pos share He Hf; cbn [server_extension_loop]; [lia|].
  destruct (Nat.leb_spec (pos + 4) e); [|apply no_panic_ok].
  apply no_panic_bind; [apply idx16_no_panic; lia|]. intros ty _. apply no_panic_bind; [apply idx16_no_panic; lia|]. intros len _. cbv zeta.
  destruct (Nat.ltb_spec (length b) (pos + 4 + Z.to_nat len)); [apply no_panic_ok|].
  apply no_panic_bind; [apply slice_no_panic; lia|]. intros d _. 
  destruct (_ && _) eqn:E; [|apply IH; lia]. apply andb_true_iff in E as [_ E%Nat.leb_le].
  apply no_panic_bind; [apply idx16_no_panic; lia|]. intros g _. apply no_panic_bind; [apply idx16_no_panic; lia|]. intros kl _. cbv zeta.
  destruct (Nat.leb_spec (4 + Z.to_nat kl) (length d)); [|apply IH; lia].
  apply no_panic_bind; [apply slice_no_panic; lia|]. intros k _. apply IH; lia.
Qed.

(** It panics on exactly the bodies that begin as a ServerHello and end before the end of
    its random. *)
Lemma parse_server_hello_panics b :
  parse_server_hello b = Panic <-> (4 <= length b < 38)%nat /\ head b = Some HS_SERVER_HELLO.
Proof.
  unfold parse_server_hello. destruct (Nat.ltb_spec (length b) 4); [split; [done|lia]|].
  destruct b as [|b0 b]; [cbn in *; lia|]. rewrite idx_cons_0. mred. destruct (Z.eqb_spec b0 HS_SERVER_HELLO) as [->|Hne]; cbn [negb].
  2:{ split; [done|]. intros [_ [= ?]]. done. }
  cbn [head]. change (4 + 2 + 32)%nat with 38%nat. change (4 + 2)%nat with 6%nat. set (l := HS_SERVER_HELLO :: b) in *.
  destruct (Nat.le_gt_cases 38 (length l)) as [Hl|Hl].
  2:{ split; [intros _; split; [lia|done]|]. intros _. unfold slice. by rewrite decide_False by lia. }
  split; [|intros [? _]; lia]. intros Hp. exfalso. revert Hp. match goal with |- ?m = Panic -> False => change (no_panic m) end.
  apply no_panic_bind; [apply slice_no_panic; lia|]. intros r _.
  destruct (Nat.leb_spec (length l) 38); [apply no_panic_err|]. apply no_panic_bind; [apply idx_no_panic; lia|]. intros sl _. cbv zeta.
  destruct (Nat.ltb_spec (length l) (38 + (1 + Z.to_nat sl) + 3)); [apply no_panic_err|]. apply no_panic_bind; [apply idx16_no_panic; lia|]. intros raw _.
  apply no_panic_bind; [unfold from_u16; by repeat case_match|]. intros cs _.
  destruct (Nat.ltb_spec (length l) (38 + (1 + Z.to_nat sl) + 2 + 1 + 2)); [apply no_panic_err|]. apply no_panic_bind; [apply idx16_no_panic; lia|]. intros et _.
  apply no_panic_bind; [apply server_extension_loop_no_panic; lia|]. intros [[g k]|] _; [apply no_panic_ok|apply no_panic_err].
Qed.

(** ** The client *)

Section ClientFacts.
Context `{HL : Tls13Laws} `{HA : AeadLaws}.

Lemma flight_ccs fuel cs hs auth seq tr s :
  read_server_flight (S fuel) cs hs auth seq tr (change_cipher_spec ++ s) = read_server_flight fuel cs hs auth seq tr s.
Proof.
  destruct (read_ccs s) as (h & b & Hr & Hi). cbn [read_server_flight]. erewrite wire_heard by exact Hr. cbn [fst snd]. rewrite Hi, wire_try. done.
Qed.

Lemma flight_record fuel cs hs auth seq tr record p msgs tr' s :
  carries cs (hs_server_key hs) (hs_server_iv hs) seq record p RT_HANDSHAKE ->
  split_handshake_messages p = Ok msgs -> server_messages cs hs auth msgs tr false = Ok (tr', true) ->
  read_server_flight (S fuel) cs hs auth seq tr (record ++ s) = ([], s, Ok tr').
Proof.
  intros Hc Hs Hm. destruct (read_carried _ _ _ _ _ _ _ s Hc) as (h & ct & Hr & Hi & Hd). cbn [read_server_flight]. erewrite wire_heard by exact Hr.
  cbn [fst snd]. rewrite Hi, wire_try. cbn [Z.eqb Pos.eqb RT_APPLICATION_DATA RT_CHANGE_CIPHER_SPEC RT_ALERT]. rewrite Hd, wire_try. cbn [fst snd]. cbv zeta.
  rewrite Z.eqb_refl. cbn [negb]. by rewrite Hs, wire_try, Hm, wire_try.
Qed.

(** A Finished that matches ends the flight, whatever came before it. *)
Lemma finished_accepted cs hs auth tr v : hmac cs (server_finished_key hs) (hash cs tr) = Ok v ->
  server_messages cs hs auth [(HS_FINISHED, message HS_FINISHED v)] tr false = Ok (tr ++ message HS_FINISHED v, true).
Proof.
  intros Hv. cbn [server_messages]. eval_eqb. cbn [orb negb]. rewrite Hv. mred.
  assert (Hs : slice (E := ProxyError) (message HS_FINISHED v) 4 (length (message HS_FINISHED v)) = Ok v) by (by apply (slice_tail ([HS_FINISHED] ++ put_u24 (zlen v)) v)).
  rewrite Hs. mred. by rewrite bool_decide_eq_true_2.
Qed.

(** The flight of the server of the crate. *)
Lemma flight_accepted cs hs auth tr ee der cv v :
  zlen der + 9 < 2 ^ 24 -> verify_reality_cert_hmac auth der = Ok tt ->
  hmac cs (server_finished_key hs) (hash cs (tr ++ ee ++ build_certificate der ++ cv)) = Ok v ->
  server_messages cs hs auth [(HS_ENCRYPTED_EXTENSIONS, ee); (HS_CERTIFICATE, build_certificate der); (HS_CERTIFICATE_VERIFY, cv); (HS_FINISHED, message HS_FINISHED v)] tr false =
    Ok (tr ++ ee ++ build_certificate der ++ cv ++ message HS_FINISHED v, true).
Proof.
  intros Hd Hver Hv. cbn [server_messages]. eval_eqb. cbn [orb negb].
  rewrite parse_certificate_build by done. mred. rewrite Hver. mred.
  pose proof (finished_accepted cs hs auth (tr ++ ee ++ build_certificate der ++ cv) v Hv) as Hf. cbn [server_messages] in Hf. revert Hf. eval_eqb. cbn [orb negb]. intros Hf.
  rewrite <- !app_assoc. rewrite <- !app_assoc in Hf. exact Hf.
Qed.

Lemma client_completes cs sh flight tr hs app v frec ch secret p256 auth pub s :
  zlen sh < 2 ^ 16 -> parse_server_hello sh = Ok (cs, 29, pub) -> length pub = 32%nat ->
  derive_handshake_keys cs (x25519 secret pub) (hash cs (ch ++ sh)) = Ok hs ->
  (forall fuel s, (1 < fuel)%nat -> read_server_flight fuel cs hs auth 0 (ch ++ sh) (flight ++ s) = ([], s, Ok tr)) -> flight <> [] ->
  derive_app_keys cs (master_secret hs) (hash cs tr) = Ok app ->
  hmac cs (client_finished_key hs) (hash cs tr) = Ok v ->
  encrypt_app_record cs (hs_client_key hs) (hs_client_iv hs) 0 (finished_message v) RT_HANDSHAKE = Ok frec ->
  complete_tls13_handshake ch secret p256 auth (write_handshake_record sh ++ flight ++ s) = (change_cipher_spec ++ frec, s, Ok app).
Proof.
  intros Hz Hp Hl Hk Hfl Hne Ha Hv Hf. destruct (read_handshake_record sh (flight ++ s) Hz) as (h & Hr & Hi).
  unfold complete_tls13_handshake. erewrite wire_heard by exact Hr. cbn [fst snd]. rewrite Hi, wire_try. rewrite Z.eqb_refl. cbn [negb].
  rewrite Hp, wire_try. cbv zeta. unfold key_agreement. rewrite Hl. cbn [Z.eqb Pos.eqb Nat.eqb negb]. rewrite wire_try, x25519_length. cbn [Nat.eqb negb].
  rewrite Hk, wire_try. erewrite wire_heard by (unfold bounded; apply Hfl; destruct flight; [done|cbn; lia]).
  rewrite Ha, wire_try, wire_say, Hv, wire_try, Hf, wire_try, wire_say. cbn [mret wire_ret fst snd]. by rewrite app_nil_r.
Qed.
End ClientFacts.

(** ** The server *)

(** When the flight goes into one record: below the size of a record, or below that of
    the first record of the cover that can hold anything. *)
Definition cover_fits (cover : option CoverHandshakeProfile) (n : nat) : Prop :=
  match filter (fun l => (17 < l)%nat) (from_option encrypted_record_lengths [] cover) with
  | [] => (n <= FLIGHT_CHUNK)%nat
  | l :: _ => (n + 17 <= l)%nat /\ Z.of_nat l < 2 ^ 16
  end.

Section ServerFacts.
Context `{HL : Tls13Laws} `{HA : AeadLaws}.

Lemma plain_done fuel cs hs seq s : write_plain (S fuel) cs hs [] seq s = ([], s, Ok tt).
Proof. done. Qed.

Lemma plain_one cs hs flight : hs_keys_fit cs hs -> flight <> [] -> (length flight <= FLIGHT_CHUNK)%nat ->
  exists record, carries cs (hs_server_key hs) (hs_server_iv hs) 0 record flight RT_HANDSHAKE /\
    forall s, write_plain (S (length flight)) cs hs flight 0 s = (record, s, Ok tt).
Proof.
  intros Hk Hne Hl.
  destruct (encrypt_carries cs (hs_server_key hs) (hs_server_iv hs) 0 flight RT_HANDSHAKE) as (record & He & Hc); [apply Hk|done|unfold zlen, FLIGHT_CHUNK in *; lia|].
  exists record. split; [done|]. intros s. destruct flight as [|b flight]; [done|]. set (f := b :: flight) in *. cbn [write_plain].
  replace (length f =? 0)%nat with false by done. cbv zeta. rewrite Nat.min_l by lia. rewrite take_ge by lia. rewrite He, wire_try, wire_say.
  rewrite drop_ge by lia. change (length f) with (S (length flight)). rewrite plain_done. cbn [fst snd]. by rewrite app_nil_r.
Qed.

Lemma shaped_one cs hs lengths flight l ls : hs_keys_fit cs hs -> flight <> [] ->
  filter (fun l => (17 < l)%nat) lengths = l :: ls -> (length flight + 17 <= l)%nat -> Z.of_nat l < 2 ^ 16 ->
  exists record, carries cs (hs_server_key hs) (hs_server_iv hs) 0 record flight RT_HANDSHAKE /\
    forall s, write_shaped cs hs lengths flight 0 s = (record, s, Ok ([], 1)).
Proof.
  intros Hk Hne Hf Hl Hz. induction lengths as [|k lengths IH]; [done|]. cbn [write_shaped].
  assert (Hn : (length flight =? 0)%nat = false) by (by destruct flight). rewrite Hn. cbv zeta. rewrite filter_cons in Hf. destruct (decide (17 < k)%nat) as [Hk17|Hk17].
  - injection Hf as Hkl _. subst k. replace (l - 17 =? 0)%nat with false by (symmetry; apply Nat.eqb_neq; lia).
    destruct (padded_carries cs (hs_server_key hs) (hs_server_iv hs) 0 flight RT_HANDSHAKE l) as (record & He & Hc); [apply Hk|done|lia|done|].
    exists record. split; [done|]. intros s. rewrite Nat.min_l by lia. rewrite take_ge, drop_ge by lia. rewrite He, wire_try, wire_say.
    destruct lengths; cbn; by rewrite app_nil_r.
  - replace (k - 17 =? 0)%nat with true by (symmetry; apply Nat.eqb_eq; lia). by apply IH.
Qed.

Lemma shaped_none cs hs lengths flight s : filter (fun l => (17 < l)%nat) lengths = [] -> flight <> [] ->
  write_shaped cs hs lengths flight 0 s = ([], s, Ok (flight, 0)).
Proof.
  intros Hf Hne. assert (Hn : (length flight =? 0)%nat = false) by (by destruct flight). induction lengths as [|k lengths IH]; [done|]. cbn [write_shaped]. rewrite Hn. cbv zeta.
  rewrite filter_cons in Hf. destruct (decide (17 < k)%nat) as [|Hk17]; [done|]. replace (k - 17 =? 0)%nat with true by (symmetry; apply Nat.eqb_eq; lia). by apply IH.
Qed.

Lemma flight_one cs hs cover flight : hs_keys_fit cs hs -> flight <> [] -> cover_fits cover (length flight) ->
  exists record, carries cs (hs_server_key hs) (hs_server_iv hs) 0 record flight RT_HANDSHAKE /\
    forall s, write_encrypted_flight cs hs flight cover s = (record, s, Ok tt).
Proof.
  intros Hk Hne Hc. unfold write_encrypted_flight. unfold cover_fits in Hc.
  destruct (filter _ _) as [|l ls] eqn:Ef.
  - destruct (plain_one cs hs flight Hk Hne Hc) as (record & Hr & Hw). exists record. split; [done|]. intros s.
    rewrite (wire_heard _ _ s s (flight, 0)); [apply Hw|]. destruct cover as [p|]; [by apply shaped_none|done].
  - destruct cover as [p|]; [|done]. destruct Hc as [Hl Hz]. destruct (shaped_one cs hs _ flight l ls Hk Hne Ef Hl Hz) as (record & Hr & Hw).
    exists record. split; [done|]. intros s. erewrite wire_bind_ok by apply Hw. cbn. by rewrite app_nil_r.
Qed.

Lemma finished_read fuel cs hs th v frec s :
  carries cs (hs_client_key hs) (hs_client_iv hs) 0 frec (message HS_FINISHED v) RT_HANDSHAKE -> small v -> hmac cs (client_finished_key hs) th = Ok v ->
  (1 < fuel)%nat -> read_client_finished fuel cs hs th 0 (change_cipher_spec ++ frec ++ s) = ([], s, Ok tt).
Proof.
  intros Hc Hs Hv Hf. destruct fuel as [|[|fuel]]; try lia. cbn [read_client_finished].
  destruct (read_ccs (frec ++ s)) as (h & b & Hr & Hi). erewrite wire_heard by exact Hr. cbn [fst snd]. rewrite Hi, wire_try. eval_eqb.
  destruct (read_carried _ _ _ _ _ _ _ s Hc) as (h' & ct & Hr' & Hi' & Hd). erewrite wire_heard by exact Hr'. cbn [fst snd]. rewrite Hi', wire_try. eval_eqb.
  rewrite Hd, wire_try. cbn [fst snd]. cbv zeta. rewrite Z.eqb_refl. cbn [negb].
  pose proof (split_messages [(HS_FINISHED, v)] ltac:(by constructor)) as Hsp. cbn [fmap list_fmap concat fst snd] in Hsp. rewrite app_nil_r in Hsp.
  rewrite Hsp, wire_try. cbn [client_messages]. rewrite Z.eqb_refl.
  assert (Hsl : slice (E := ProxyError) (message HS_FINISHED v) 4 (length (message HS_FINISHED v)) = Ok v) by (by apply (slice_tail ([HS_FINISHED] ++ put_u24 (zlen v)) v)).
  rewrite Hsl. mred. rewrite Hv. mred. rewrite bool_decide_eq_true_2 by done. cbn [negb]. by rewrite wire_try.
Qed.
End ServerFacts.

(** ** The two sides together *)

Section Agreement.
Context `{HC : RealityCryptoLaws} `{!Tls13Crypto} `{HL : !Tls13Laws} `{HA : AeadLaws}.

(** The length of the encrypted flight. *)
Definition flight_length (cs : CipherSuite) (der : bytes) : nat := (95 + length der + hash_len cs)%nat.

Definition verify_body (cs : CipherSuite) (skey tr : bytes) : bytes :=
  let sig_bytes := ed25519_sign skey (replicate 64 0x20 ++ TLS13_SERVER_CERT_VERIFY_CONTEXT ++ hash cs tr) in
  be_bytes 2 SIG_ED25519 ++ be_bytes 2 (as_u16 (zlen sig_bytes)) ++ sig_bytes.

Lemma verify_body_length cs skey tr : length (verify_body cs skey tr) = 68%nat.
Proof. unfold verify_body. cbv zeta. by rewrite !length_app, !length_be_bytes, ed25519_length. Qed.

Lemma certificate_verify_message cs skey tr :
  build_certificate_verify cs skey tr = message HS_CERTIFICATE_VERIFY (verify_body cs skey tr).
Proof.
  unfold message. replace (zlen (verify_body cs skey tr)) with 68 by (unfold zlen; by rewrite verify_body_length).
  unfold build_certificate_verify. cbv zeta. unfold zlen at 1. by rewrite ed25519_length.
Qed.

(** The messages of the flight, as the client reads them. *)
Lemma flight_split cs der skey tr v : zlen der + 9 < 2 ^ 24 -> length v = hash_len cs ->
  let flight := build_encrypted_extensions ++ build_certificate der ++ build_certificate_verify cs skey tr ++ finished_message v in
  length flight = flight_length cs der /\
  split_handshake_messages flight =
    Ok [(HS_ENCRYPTED_EXTENSIONS, build_encrypted_extensions); (HS_CERTIFICATE, build_certificate der);
        (HS_CERTIFICATE_VERIFY, build_certificate_verify cs skey tr); (HS_FINISHED, message HS_FINISHED v)].
Proof.
  intros Hd Hv. assert (Hsv : small v) by (unfold small, zlen; rewrite Hv; destruct cs; cbn; lia).
  rewrite finished_is_message by done. rewrite build_certificate_message, certificate_verify_message. cbv zeta. split.
  { rewrite !length_app, !message_length, certificate_body_length, verify_body_length, Hv. unfold flight_length. change (length build_encrypted_extensions) with 6%nat. lia. }
  pose proof (split_messages [(HS_ENCRYPTED_EXTENSIONS, [0; 0]); (HS_CERTIFICATE, certificate_body der); (HS_CERTIFICATE_VERIFY, verify_body cs skey tr); (HS_FINISHED, v)]) as Hs.
  cbn [fmap list_fmap concat fst snd] in Hs. rewrite app_nil_r in Hs. apply Hs.
  repeat constructor; unfold small; cbn [snd]; try done; unfold zlen; rewrite ?certificate_body_length, ?verify_body_length; unfold zlen in Hd; lia.
Qed.

Context (prefix ch : bytes) (Hread : forall x, read_client_hello_message false (prefix ++ x) = ([], x, Ok ch)).
Context (secret : bytes) (fields : ClientHelloFields) (Hfields : parse_client_hello ch = Ok fields) (Hshare : x25519_key_share fields = x25519_public secret).
Context (sid : bytes) (Hsid : client_hello_session_id ch = Ok sid) (Hsidlen : length sid = 32%nat).
Context (cover : option CoverHandshakeProfile) (cs : CipherSuite) (Hcs : pick_cipher_suite ch (cipher_suite <$> x25519_cover cover) = Ok cs).
Context (auth_key der skey : bytes) (Hder : zlen der + 9 < 2 ^ 24) (Hverify : verify_reality_cert_hmac auth_key der = Ok tt).
Context (Hfits : cover_fits (x25519_cover cover) (flight_length cs der)).
Context (e random : bytes) (Hrandom : length random = 32%nat).

Let sh : bytes := build_server_hello cs (x25519_public e) sid random.
Let signed : bytes := ((ch ++ sh) ++ build_encrypted_extensions) ++ build_certificate der.
Let checked : bytes := signed ++ build_certificate_verify cs skey signed.
Let ccs : bytes := if from_option sends_ccs true (x25519_cover cover) then change_cipher_spec else [].
Let flight (v : bytes) : bytes := build_encrypted_extensions ++ build_certificate der ++ build_certificate_verify cs skey signed ++ finished_message v.

(** What the server does with the hello and any further input [x]. *)
Lemma server_answers hs v record keys x :
  derive_handshake_keys cs (x25519 e (x25519_public secret)) (hash cs (ch ++ sh)) = Ok hs ->
  hmac cs (server_finished_key hs) (hash cs checked) = Ok v ->
  (forall s, write_encrypted_flight cs hs (flight v) (x25519_cover cover) s = (record, s, Ok tt)) ->
  derive_app_keys cs (master_secret hs) (hash cs (checked ++ finished_message v)) = Ok keys ->
  complete_tls13_server_handshake auth_key (Ok (der, skey)) cover e random (prefix ++ x) =
    match bounded (fun fuel => read_client_finished fuel cs hs (hash cs (checked ++ finished_message v)) 0) x with
    | (w, l, r) => (write_handshake_record sh ++ ccs ++ record ++ w, l, match r with Ok _ => Ok keys | Err er => Err er | Panic => Panic end)
    end.
Proof.
  intros Hhs Hv Hw Hk. unfold complete_tls13_server_handshake. erewrite wire_heard by apply Hread. rewrite Hcs, wire_try, Hfields, wire_try, wire_try. cbv zeta.
  rewrite Hverify. cbn [map_err]. rewrite wire_try, Hsid, wire_try, wire_say. fold sh. rewrite Hshare, x25519_length. cbn [Nat.eqb negb]. rewrite Hhs, wire_try.
  fold signed. fold checked.
  assert (Hccs : forall B (f : unit -> wire B) s, ((if from_option sends_ccs true (x25519_cover cover) then say change_cipher_spec else mret tt) ≫= f) s =
    (ccs ++ (f tt s).1.1, (f tt s).1.2, (f tt s).2)).
  { intros B f s. unfold ccs. destruct (from_option _ _ _); [apply wire_say|]. rewrite wire_pure. by destruct (f tt s) as [[??]?]. }
  rewrite Hccs, Hv, wire_try. erewrite wire_bind_ok by apply Hw. rewrite Hk, wire_try. cbn [fst snd].
  unfold mbind, wire_bind. destruct (bounded _ x) as [[w l] [[]|er|]]; cbn [fst snd mret wire_ret]; by rewrite ?app_nil_r.
Qed.

Lemma flight_read hs v record fuel s :
  carries cs (hs_server_key hs) (hs_server_iv hs) 0 record (flight v) RT_HANDSHAKE -> length v = hash_len cs ->
  hmac cs (server_finished_key hs) (hash cs checked) = Ok v -> (1 < fuel)%nat ->
  read_server_flight fuel cs hs auth_key 0 (ch ++ sh) ((ccs ++ record) ++ s) = ([], s, Ok (checked ++ finished_message v)).
Proof.
  intros Hc Hvl Hv Hfuel. destruct fuel as [|[|fuel]]; try lia. rewrite <- app_assoc.
  destruct (flight_split cs der skey signed v Hder Hvl) as [_ Hsplit]. fold (flight v) in Hsplit.
  assert (Hsv : small v) by (unfold small, zlen; rewrite Hvl; destruct cs; cbn; lia).
  assert (Hm := flight_accepted cs hs auth_key (ch ++ sh) build_encrypted_extensions der (build_certificate_verify cs skey signed) v Hder Hverify).
  assert (Htr : checked = (ch ++ sh) ++ build_encrypted_extensions ++ build_certificate der ++ build_certificate_verify cs skey signed) by (unfold checked, signed; by rewrite <- !app_assoc).
  rewrite <- Htr in Hm. specialize (Hm Hv). rewrite finished_is_message by done.
  replace (checked ++ message HS_FINISHED v) with ((ch ++ sh) ++ build_encrypted_extensions ++ build_certificate der ++ build_certificate_verify cs skey signed ++ message HS_FINISHED v)
    by (rewrite Htr; by rewrite <- !app_assoc).
  unfold ccs. destruct (from_option _ _ _); [rewrite flight_ccs|change ([] ++ record ++ s) with (record ++ s)]; by eapply flight_record.
Qed.

Lemma handshake_agrees p256 : exists c_out s_out keys, app_keys_fit cs keys /\
  (forall rest, complete_tls13_server_handshake auth_key (Ok (der, skey)) cover e random (prefix ++ c_out ++ rest) = (s_out, rest, Ok keys)) /\
  (forall rest, complete_tls13_handshake ch secret p256 auth_key (s_out ++ rest) = (c_out, rest, Ok keys)) /\
  complete_tls13_server_handshake auth_key (Ok (der, skey)) cover e random prefix = (s_out, [], Err (Io UnexpectedEof)).
Proof.
  destruct (parse_server_hello_build cs (x25519_public e) sid random (x25519_public_length e) Hsidlen Hrandom) as [Hparse Hshl]. fold sh in Hparse, Hshl.
  destruct (derive_handshake_keys_ok cs (x25519 e (x25519_public secret)) (hash cs (ch ++ sh))) as (hs & Hhs & Hfit).
  destruct (hmac_ok cs (server_finished_key hs) (hash cs checked)) as (v & Hv & Hvl).
  destruct (flight_split cs der skey signed v Hder Hvl) as [Hfl Hsplit]. fold (flight v) in Hfl, Hsplit. set (tr := checked ++ finished_message v).
  destruct (derive_app_keys_ok cs (master_secret hs) (hash cs tr)) as (keys & Hkeys & Hkfit); [apply Hfit|].
  destruct (hmac_ok cs (client_finished_key hs) (hash cs tr)) as (u & Hu & Hul).
  assert (Hsv : small v /\ small u) by (unfold small, zlen; rewrite Hvl, Hul; destruct cs; cbn; lia). destruct Hsv as [Hsv Hsu].
  destruct (encrypt_carries cs (hs_client_key hs) (hs_client_iv hs) 0 (finished_message u) RT_HANDSHAKE) as (frec & Hfrec & Hcf); [apply Hfit|done| |].
  { rewrite finished_is_message by done. unfold zlen. rewrite message_length, Hul. destruct cs; cbn; lia. }
  destruct (flight_one cs hs (x25519_cover cover) (flight v) Hfit) as (record & Hcr & Hwrite); [done|by rewrite Hfl|].
  exists (change_cipher_spec ++ frec), (write_handshake_record sh ++ ccs ++ record), keys. split_and!; [done|..].
  - intros rest. rewrite (server_answers hs v record keys _ Hhs Hv Hwrite Hkeys). unfold bounded. rewrite <- app_assoc.
    rewrite (finished_read _ cs hs _ u frec rest); [by rewrite app_nil_r|by rewrite <- finished_is_message|done|done|cbn; lia].
  - intros rest. rewrite <- !app_assoc, (app_assoc ccs record).
    apply (client_completes cs sh _ tr hs keys u frec ch secret p256 auth_key (x25519_public e)); try done.
    + unfold zlen. rewrite Hshl. done.
    + apply x25519_public_length.
    + by rewrite x25519_agree.
    + intros fuel s Hfuel. apply (flight_read hs v record fuel s); [done..|lia].
    + destruct ccs; [|done]. intros Hn. by destruct Hcr as (h & ct & -> & -> & _).
  - rewrite <- (app_nil_r prefix) at 1. rewrite (server_answers hs v record keys _ Hhs Hv Hwrite Hkeys).
    transitivity (write_handshake_record sh ++ ccs ++ record ++ [], [] : bytes, Err (A := AppKeys) (Io UnexpectedEof)); [reflexivity|by rewrite app_nil_r].
Qed.
End Agreement.

(** ** The suite *)

Lemma chunks2_u16 l : Forall in_u16 l -> chunks2 (concat (put_u16 <$> l)) = l.
Proof.
  induction 1 as [|x l Hx Hl IH]; [done|]. cbn [fmap list_fmap concat]. unfold put_u16 at 1.
  pose proof (be_bytes_2_val x Hx) as Hv. pose proof (length_be_bytes 2 x) as Hlen.
  destruct (be_bytes 2 x) as [|a [|b [|c m]]]; try discriminate. cbn [app chunks2]. by rewrite Hv, IH.
Qed.

(** The suite of the cover when it is imitated, AES-128 otherwise. *)
Definition session_suite (cover : option CoverHandshakeProfile) : CipherSuite := default Aes128GcmSha256 (cipher_suite <$> x25519_cover cover).

Lemma chrome_picks ch draw cover :
  client_hello_cipher_suites ch = Ok (put_u16 (grease_u16 draw) ++ concat (put_u16 <$> cipher_suites chrome_131)) ->
  pick_cipher_suite ch (cipher_suite <$> x25519_cover cover) = Ok (session_suite cover).
Proof.
  intros Hc. unfold pick_cipher_suite. rewrite Hc. mred. change (put_u16 ?g ++ concat (put_u16 <$> ?l)) with (concat (put_u16 <$> g :: l)).
  rewrite chunks2_u16.
  2:{ constructor; [apply grease_u16_other|]. refine (bool_decide_unpack (Forall _ _) _). vm_compute. exact I. }
  assert (Ho : forall cs, existsb (Z.eqb (to_u16 cs)) (grease_u16 draw :: cipher_suites chrome_131) = true).
  { intros cs. cbn [existsb]. apply orb_true_iff. right. by destruct cs. }
  pose proof (Ho Aes128GcmSha256) as H128. cbn [to_u16] in H128. unfold session_suite. destruct (cipher_suite <$> x25519_cover cover) as [cs|]; cbv zeta.
  - rewrite Ho. by destruct cs.
  - by rewrite H128.
Qed.

Section Session.
Context `{HC : RealityCryptoLaws} `{!Tls13Crypto} `{HL : !Tls13Laws} `{HA : AeadLaws}.

Lemma cover_fits_small cover cs der : cover_fits cover (flight_length cs der) -> zlen der + 9 < 2 ^ 24.
Proof. unfold cover_fits, flight_length, zlen, FLIGHT_CHUNK. case_match; lia. Qed.

(** C13. A REALITY session.
    For a client of the crate that the server admits (see [Reality]): the hello is
    accepted, its replay gives the server handshake its hello, the server answers with its
    whole flight before it hears anything more, and the client handshake accepts the
    flight: both sides end with the same application keys, what each wrote is what the
    other read, and whatever the peer sends after it stays unread for the stream.  This
    holds for any certificate template of the libraries, for every cover profile whose
    first usable record holds the flight, and without one. *)
Theorem reality_session cfg scfg secret random secp draws now_c now cover_sni cache generated cache' t cover e server_random p256 :
  server_public_key cfg = x25519_public (private_key scfg) ->
  length random = 32%nat -> utf8_valid (c_sni cfg) = true -> zlen (c_sni cfg) + zlen secp <= 16000 ->
  (exists name, name ∈ server_names scfg /\ ascii_lower <$> name = ascii_lower <$> c_sni cfg) ->
  in_u32 now_c -> Z.abs (now - now_c) <= max_time_diff scfg ->
  take 8 (short_id cfg) ∈ short_ids scfg -> last (take 8 (short_id cfg)) <> Some 0 ->
  get_template cache (normalize_sni cover_sni) false generated = (cache', Ok t) -> template_ok t ->
  length server_random = 32%nat -> cover_fits (x25519_cover cover) (flight_length (session_suite cover) (cert_der t)) ->
  exists hello auth_key prefix c_out s_out keys,
    let cert := (tls_cert_for_auth_key cache auth_key cover_sni false generated).2 in
    let server := complete_tls13_server_handshake auth_key cert cover e server_random in
    dial_hello cfg secret random secp draws now_c = Ok (hello, auth_key) /\
    (forall rest, accept_inner scfg PrependClientHello now (hello ++ rest) = (hello, rest, Authenticated prefix auth_key)) /\
    server prefix = (s_out, [], Err (Io UnexpectedEof)) /\
    (forall rest, complete_tls13_handshake (drop 5 hello) secret p256 auth_key (s_out ++ rest) = (c_out, rest, Ok keys)) /\
    (forall rest, server (prefix ++ c_out ++ rest) = (s_out, rest, Ok keys)).
Proof.
  intros Hpub Hran Hutf Hsz Hsni Hnow Hskew Hid Hlast Hget Ht Hsr Hfits.
  destruct (dial_accepted cfg scfg secret random secp draws now_c now) as (hello & key & Hd & Hm & Hz & Ha); [done..|].
  destruct (cert_verifies t key Ht) as (der & Hder & Hlen & Hver).
  assert (Hcert : (tls_cert_for_auth_key cache key cover_sni false generated).2 = Ok (der, signing_key t)).
  { unfold tls_cert_for_auth_key. rewrite Hget. cbn [snd]. mred. by rewrite Hder. }
  assert (Hfits' : cover_fits (x25519_cover cover) (flight_length (session_suite cover) der)) by (unfold flight_length in *; by rewrite Hlen).
  destruct (dial_builds cfg secret random secp draws now_c Hran) as (key' & _ & Htok & Hd'). rewrite Hd' in Hd. apply Ok_inj, pair_equal_spec in Hd as [Hhello Hkey].
  set (token := sealed _ _ _ _) in *. destruct chrome_profile as (Hp1 & Hp2 & Hp3).
  destruct (hello_read_back chrome_131 (c_sni cfg) random token (Some (x25519_public secret)) (Some secp) draws []) as (Hparse & _ & Hsid & Hcs);
    [done|done|done|done|done|apply x25519_public_length|done|rewrite Hhello; unfold TLS_MAX_PLAINTEXT_RECORD in Hz; lia|]. rewrite Hhello in Hparse, Hsid, Hcs.
  destruct (handshake_agrees (encode_handshake_records (drop 5 hello)) (drop 5 hello) (fun x => replay_read _ false x Hm) secret _ Hparse eq_refl token Hsid Htok
    cover (session_suite cover) (chrome_picks _ _ cover Hcs) key der (signing_key t) (cover_fits_small _ _ _ Hfits') Hver Hfits' e server_random Hsr p256)
    as (c_out & s_out & keys & _ & Hs & Hc & He).
  exists hello, key, (encode_handshake_records (drop 5 hello)), c_out, s_out, keys. cbv zeta. rewrite Hcert. split_and!; try done.
  - by rewrite Hd', Hhello, Hkey.
Qed.

(** *** Without the certificate *)

(** What somebody between the two can send who knows neither the private key of the
    server nor the authentication key: a ServerHello of its own and a Finished. *)
Definition impostor (cs : CipherSuite) (e random sid ch client_pub : bytes) : result (bytes * AppKeys) :=
  let sh := build_server_hello cs (x25519_public e) sid random in
  hs ← derive_handshake_keys cs (x25519 e client_pub) (hash cs (ch ++ sh));
  v ← hmac cs (server_finished_key hs) (hash cs (ch ++ sh));
  record ← encrypt_app_record cs (hs_server_key hs) (hs_server_iv hs) 0 (finished_message v) RT_HANDSHAKE;
  keys ← derive_app_keys cs (master_secret hs) (hash cs ((ch ++ sh) ++ finished_message v));
  Ok (write_handshake_record sh ++ record, keys).

(** C14. The client does not insist on the certificate.
    The HMAC in the certificate is all that proves the server to the client, and the
    client checks it when a Certificate message comes.  A flight without one is accepted
    as well: from the public hello alone anybody on the path builds a flight that the
    client handshake completes on, for every authentication key, ending with the keys of
    the impostor. *)
Theorem tls13_impostor_accepted cs e random sid ch secret p256 auth_key rest :
  length random = 32%nat -> length sid = 32%nat ->
  exists flight keys c_out, impostor cs e random sid ch (x25519_public secret) = Ok (flight, keys) /\
    complete_tls13_handshake ch secret p256 auth_key (flight ++ rest) = (c_out, rest, Ok keys).
Proof.
  intros Hr Hs. unfold impostor. set (sh := build_server_hello cs (x25519_public e) sid random). cbv zeta.
  destruct (parse_server_hello_build cs (x25519_public e) sid random (x25519_public_length e) Hs Hr) as [Hparse Hshl]. fold sh in Hparse, Hshl.
  destruct (derive_handshake_keys_ok cs (x25519 e (x25519_public secret)) (hash cs (ch ++ sh))) as (hs & Hhs & Hfit). rewrite Hhs. mred.
  destruct (hmac_ok cs (server_finished_key hs) (hash cs (ch ++ sh))) as (v & Hv & Hvl). rewrite Hv. mred.
  assert (Hfin : forall u, length u = hash_len cs -> finished_message u = message HS_FINISHED u /\ small u /\ zlen (finished_message u) < 2 ^ 16 - 17).
  { intros u Hu. assert (Hsu : zlen u < 2 ^ 24) by (unfold zlen; rewrite Hu; destruct cs; cbn; lia). rewrite finished_is_message by done.
    split_and!; [done..|]. unfold zlen. rewrite message_length, Hu. destruct cs; cbn; lia. }
  destruct (Hfin v Hvl) as (Hfv & Hsv & Hzv).
  destruct (encrypt_carries cs (hs_server_key hs) (hs_server_iv hs) 0 (finished_message v) RT_HANDSHAKE) as (record & -> & Hc); [apply Hfit|done..|]. mred.
  destruct (derive_app_keys_ok cs (master_secret hs) (hash cs ((ch ++ sh) ++ finished_message v))) as (keys & Hk & _); [apply Hfit|]. rewrite Hk. mred.
  destruct (hmac_ok cs (client_finished_key hs) (hash cs ((ch ++ sh) ++ finished_message v))) as (u & Hu & Hul). destruct (Hfin u Hul) as (_ & _ & Hzu).
  destruct (encrypt_carries cs (hs_client_key hs) (hs_client_iv hs) 0 (finished_message u) RT_HANDSHAKE) as (frec & Hf & _); [apply Hfit|done..|].
  eexists _, keys, _. split; [done|]. rewrite <- app_assoc.
  eapply (client_completes cs sh record ((ch ++ sh) ++ finished_message v) hs keys u frec ch secret p256 auth_key (x25519_public e)); try done.
  - unfold zlen. by rewrite Hshl.
  - apply x25519_public_length.
  - by rewrite x25519_agree.
  - intros [|fuel] s Hfuel; [lia|]. pose proof (split_messages [(HS_FINISHED, v)] ltac:(by constructor)) as Hsp. cbn [fmap list_fmap concat fst snd] in Hsp.
    rewrite app_nil_r, <- Hfv in Hsp. eapply flight_record; [exact Hc|exact Hsp|]. rewrite Hfv. by apply finished_accepted.
  - by destruct Hc as (h & ct & -> & -> & _).
Qed.
End Session.

(** *** A concrete session *)

#[local] Existing Instance toy_reality.
#[local] Existing Instance toy_reality_laws.

#[local] Instance toy_tls : Tls13Crypto := {
  sha_digest h d := replicate (sha_len h) (mix d);
  hkdf_extract_with h salt ikm := replicate (sha_len h) (mix (salt ++ ikm));
  hkdf_from_prk h prk := if (sha_len h <=? length prk)%nat then Some prk else None;
  hkdf_expand_with h p info len := if (len <=? 255 * sha_len h)%nat then Some (replicate len (mix (p ++ info))) else None;
  hmac_new h key := Some key;
  hmac_finalize h m d := replicate (sha_len h) (mix (m ++ d));
  hmac_sha512 k d := replicate 64 (mix (k ++ d));
  p256_diffie_hellman _ _ := None;
  ed25519_sign k d := replicate 64 (mix (k ++ d));
  x509_from_der der := if (length der =? 96)%nat then Some (mkX509 "1.3.101.112" (take 32 der) (drop 32 der)) else None
}.

#[local] Instance toy_tls_laws : Tls13Laws.
Proof.
  split; intros; cbn [sha_digest hkdf_extract_with hkdf_from_prk hkdf_expand_with hmac_new hmac_finalize hmac_sha512 ed25519_sign toy_tls]; try (by rewrite length_replicate); try done.
  - rewrite (proj2 (Nat.leb_le _ _)) by done. done.
  - rewrite (proj2 (Nat.leb_le _ _)) by done. eexists. split; [done|]. apply length_replicate.
Qed.

Definition toy_template : CertTemplate := mkTemplate [1; 2] (replicate 32 5) (replicate 32 5 ++ replicate 64 0).

Lemma toy_template_ok : template_ok toy_template.
Proof.
  split_and!; [done|cbn; lia|]. intros sig Hs. unfold patch. rewrite Hs. cbn [verifying_key cert_der toy_template].
  change (length (replicate 32 5 ++ replicate 64 0) - 64)%nat with 32%nat. rewrite take_app_length' by done. rewrite (drop_ge _ (32 + 64)) by (cbn; lia). rewrite app_nil_r.
  cbn [x509_from_der toy_tls]. rewrite length_app, Hs. cbn [Nat.eqb Nat.add length_replicate]. rewrite length_replicate. by rewrite take_app_length', drop_app_length'.
Qed.

(** A cover that sends no ChangeCipherSpec and one record of 600 bytes. *)
Definition toy_cover : CoverHandshakeProfile := mkCover Aes256GcmSha384 29 false [17%nat; 600%nat].

Lemma reality_session_witness :
  exists hello auth_key prefix c_out s_out keys,
    let cert := (tls_cert_for_auth_key ∅ auth_key [] false (Ok toy_template)).2 in
    let server := complete_tls13_server_handshake auth_key cert (Some toy_cover) [8; 9] (replicate 32 0x55) in
    dial_hello sample_client [3; 4] (replicate 32 0x11) (replicate 65 0x44) (3%fin, 7%fin) 1700000000 = Ok (hello, auth_key) /\
    (forall rest, accept_inner sample_server PrependClientHello 1700000120 (hello ++ rest) = (hello, rest, Authenticated prefix auth_key)) /\
    server prefix = (s_out, [], Err (Io UnexpectedEof)) /\
    (forall rest, complete_tls13_handshake (drop 5 hello) [3; 4] None auth_key (s_out ++ rest) = (c_out, rest, Ok keys)) /\
    (forall rest, server (prefix ++ c_out ++ rest) = (s_out, rest, Ok keys)).
Proof.
  eapply (reality_session sample_client sample_server [3; 4] (replicate 32 0x11) (replicate 65 0x44) (3%fin, 7%fin) 1700000000 1700000120
    [] ∅ (Ok toy_template) _ toy_template (Some toy_cover) [8; 9] (replicate 32 0x55) None); try reflexivity.
  - vm_compute. discriminate.
  - exists (str "www.example.com"). split; [|reflexivity]. refine (bool_decide_unpack (_ ∈ _) _). vm_compute. exact I.
  - unfold in_u32. lia.
  - refine (bool_decide_unpack (_ ∈ _) _). vm_compute. exact I.
  - vm_compute. discriminate.
  - exact toy_template_ok.
  - split; [vm_compute; lia|reflexivity].
Defined.

Lemma tls13_impostor_accepted_witness :
  exists flight keys c_out, impostor Aes128GcmSha256 [66] (replicate 32 0x55) (replicate 32 0x77) chrome_hello (x25519_public [3; 4]) = Ok (flight, keys) /\
    complete_tls13_handshake chrome_hello [3; 4] None (replicate 32 0x99) (flight ++ [1]) = (c_out, [1], Ok keys).
Proof. apply (tls13_impostor_accepted Aes128GcmSha256 [66] (replicate 32 0x55) (replicate 32 0x77) chrome_hello [3; 4] None (replicate 32 0x99) [1]); reflexivity. Defined.

Definition toy_hello : bytes :=
  drop 5 (build_with_additional_key_share chrome_131 (str "a") (replicate 32 1) (replicate 32 2) (Some (x25519_public [3; 4])) None (3%fin, 7%fin) []).

(** A cover whose records are smaller than the flight splits a message over two
    records: the client of the crate drops both parts and waits for a Finished that
    has already come. *)
Example split_flight_lost :
  let cover := mkCover Aes128GcmSha256 29 true [120%nat; 120%nat] in
  match (tls_cert_for_auth_key ∅ [7] [] false (Ok toy_template)).2 with
  | Ok cert =>
      let s_out := (complete_tls13_server_handshake [7] (Ok cert) (Some cover) [8; 9] (replicate 32 0x55) (encode_handshake_records toy_hello)).1.1 in
      complete_tls13_handshake toy_hello [3; 4] None [7] s_out = ([], [], Err (Io UnexpectedEof))
  | _ => False
  end.
Proof. vm_compute. reflexivity. Qed.
