(* ===== verification/Tls13Stream.v ===== *)
(** * REALITY: the TLS 1.3 stream

    [Tls13Stream] of [blackwire-transport] [reality/tls13.rs], poll by poll: records are
    read and decrypted in phases, and a write that is not finished keeps its record until
    it is tried again.  The stream keeps the contract of writers of [AsyncIo]. *)

From S2P Require Import Prelude Aead Reality Tls13 AsyncIo.

Inductive ReadPhase : Type := RPHASE_PLAINTEXT | RPHASE_HEADER | RPHASE_BODY.

Record Tls13Stream (S : Type) : Type := mkTls {
  t_inner : S;
  t_cs : CipherSuite;
  client_crypter : AeadKey;
  t_client_iv : bytes;
  client_seq : Z;
  server_crypter : AeadKey;
  t_server_iv : bytes;
  server_seq : Z;
  plain_buf : bytes;
  plain_pos : nat;
  header_buf : bytes;
  header_pos : nat;
  body_buf : bytes;
  body_pos : nat;
  read_phase : ReadPhase;
  t_write_buf : bytes;
  write_pos : nat;
  write_chunk_len : nat;
  is_server : bool
}.
Arguments mkTls {S} _ _ _ _ _ _ _ _ _ _ _ _ _ _ _ _ _ _ _.
Arguments t_inner {S} _.
Arguments t_cs {S} _.
Arguments client_crypter {S} _.
Arguments t_client_iv {S} _.
Arguments client_seq {S} _.
Arguments server_crypter {S} _.
Arguments t_server_iv {S} _.
Arguments server_seq {S} _.
Arguments plain_buf {S} _.
Arguments plain_pos {S} _.
Arguments header_buf {S} _.
Arguments header_pos {S} _.
Arguments body_buf {S} _.
Arguments body_pos {S} _.
Arguments read_phase {S} _.
Arguments t_write_buf {S} _.
Arguments write_pos {S} _.
Arguments write_chunk_len {S} _.
Arguments is_server {S} _.

Section Stream.
Context {S : Type}.
Implicit Types s : Tls13Stream S.

(** [with_role]: the two [expect]s are panics. *)
Definition with_role (inner : S) (keys : AppKeys) (server : bool) : res io_error (Tls13Stream S) :=
  match crypter_new (app_cs keys) (client_key keys), crypter_new (app_cs keys) (server_key keys) with
  | Ok client, Ok srv =>
      Ok (mkTls inner (app_cs keys) client (client_iv keys) 0 srv (server_iv keys) 0 [] 0 (replicate 5 0) 0 [] 0 RPHASE_HEADER [] 0 0 server)
  | _, _ => Panic
  end.

Definition with_inner (i : S) s : Tls13Stream S :=
  mkTls i (t_cs s) (client_crypter s) (t_client_iv s) (client_seq s) (server_crypter s) (t_server_iv s) (server_seq s)
    (plain_buf s) (plain_pos s) (header_buf s) (header_pos s) (body_buf s) (body_pos s) (read_phase s)
    (t_write_buf s) (write_pos s) (write_chunk_len s) (is_server s).

Definition with_plain (buf : bytes) (pos : nat) s : Tls13Stream S :=
  mkTls (t_inner s) (t_cs s) (client_crypter s) (t_client_iv s) (client_seq s) (server_crypter s) (t_server_iv s) (server_seq s)
    buf pos (header_buf s) (header_pos s) (body_buf s) (body_pos s) (read_phase s)
    (t_write_buf s) (write_pos s) (write_chunk_len s) (is_server s).

Definition with_header (buf : bytes) (pos : nat) s : Tls13Stream S :=
  mkTls (t_inner s) (t_cs s) (client_crypter s) (t_client_iv s) (client_seq s) (server_crypter s) (t_server_iv s) (server_seq s)
    (plain_buf s) (plain_pos s) buf pos (body_buf s) (body_pos s) (read_phase s)
    (t_write_buf s) (write_pos s) (write_chunk_len s) (is_server s).

Definition with_body (buf : bytes) (pos : nat) s : Tls13Stream S :=
  mkTls (t_inner s) (t_cs s) (client_crypter s) (t_client_iv s) (client_seq s) (server_crypter s) (t_server_iv s) (server_seq s)
    (plain_buf s) (plain_pos s) (header_buf s) (header_pos s) buf pos (read_phase s)
    (t_write_buf s) (write_pos s) (write_chunk_len s) (is_server s).

Definition with_phase (p : ReadPhase) s : Tls13Stream S :=
  mkTls (t_inner s) (t_cs s) (client_crypter s) (t_client_iv s) (client_seq s) (server_crypter s) (t_server_iv s) (server_seq s)
    (plain_buf s) (plain_pos s) (header_buf s) (header_pos s) (body_buf s) (body_pos s) p
    (t_write_buf s) (write_pos s) (write_chunk_len s) (is_server s).

Definition with_write (buf : bytes) (pos chunk : nat) s : Tls13Stream S :=
  mkTls (t_inner s) (t_cs s) (client_crypter s) (t_client_iv s) (client_seq s) (server_crypter s) (t_server_iv s) (server_seq s)
    (plain_buf s) (plain_pos s) (header_buf s) (header_pos s) (body_buf s) (body_pos s) (read_phase s) buf pos chunk (is_server s).

Definition with_seqs (client srv : Z) s : Tls13Stream S :=
  mkTls (t_inner s) (t_cs s) (client_crypter s) (t_client_iv s) client (server_crypter s) (t_server_iv s) srv
    (plain_buf s) (plain_pos s) (header_buf s) (header_pos s) (body_buf s) (body_pos s) (read_phase s)
    (t_write_buf s) (write_pos s) (write_chunk_len s) (is_server s).

(** The direction that is read and the one that is written, by role. *)
Definition in_crypter s : AeadKey := if is_server s then client_crypter s else server_crypter s.
Definition in_iv s : bytes := if is_server s then t_client_iv s else t_server_iv s.
Definition in_seq s : Z := if is_server s then client_seq s else server_seq s.
Definition out_crypter s : AeadKey := if is_server s then server_crypter s else client_crypter s.
Definition out_iv s : bytes := if is_server s then t_server_iv s else t_client_iv s.
Definition out_seq s : Z := if is_server s then server_seq s else client_seq s.

Definition next_in s : Tls13Stream S :=
  if is_server s then with_seqs (as_u64 (client_seq s + 1)) (server_seq s) s else with_seqs (client_seq s) (as_u64 (server_seq s + 1)) s.
Definition next_out s : Tls13Stream S :=
  if is_server s then with_seqs (client_seq s) (as_u64 (server_seq s + 1)) s else with_seqs (as_u64 (client_seq s + 1)) (server_seq s) s.

(** [Vec::resize(n, 0)] *)
Definition resize (n : nat) (b : bytes) : bytes := take n b ++ replicate (n - length b) 0.

Section Reading.
Context `{AsyncRead S} `{AeadCrate}.

(** The loops that fill the header and the body; every round that goes on reads
    something. *)
Fixpoint fill_header (fuel : nat) s : Tls13Stream S * poll (res io_error unit) :=
  if (5 <=? header_pos s)%nat then (s, Ready (Ok tt))
  else
    match fuel with
    | O => (s, Ready Panic)
    | Datatypes.S fuel =>
        match poll_read (t_inner s) (5 - header_pos s) with
        | (i, Pending) => (with_inner i s, Pending)
        | (i, Ready (Err e)) => (with_inner i s, Ready (Err e))
        | (i, Ready Panic) => (with_inner i s, Ready Panic)
        | (i, Ready (Ok [])) => (with_inner i s, Ready (Err UnexpectedEof))
        | (i, Ready (Ok filled)) =>
            fill_header fuel (with_header (patch (header_pos s) filled (header_buf s)) (header_pos s + length filled) (with_inner i s))
        end
    end.

Fixpoint fill_body (fuel : nat) s : Tls13Stream S * poll (res io_error unit) :=
  if (length (body_buf s) <=? body_pos s)%nat then (s, Ready (Ok tt))
  else
    match fuel with
    | O => (s, Ready Panic)
    | Datatypes.S fuel =>
        match poll_read (t_inner s) (length (body_buf s) - body_pos s) with
        | (i, Pending) => (with_inner i s, Pending)
        | (i, Ready (Err e)) => (with_inner i s, Ready (Err e))
        | (i, Ready Panic) => (with_inner i s, Ready Panic)
        | (i, Ready (Ok [])) => (with_inner i s, Ready (Err UnexpectedEof))
        | (i, Ready (Ok filled)) =>
            fill_body fuel (with_body (patch (body_pos s) filled (body_buf s)) (body_pos s + length filled) (with_inner i s))
        end
    end.

(** [level = warning, description = close_notify] *)
Definition is_close_notify (alert : bytes) : bool :=
  match alert with 1 :: 0 :: _ => true | _ => false end.

Definition skip_record s : Tls13Stream S := with_phase RPHASE_HEADER (with_header (header_buf s) 0 s).

(** A complete record: [None] when the loop goes on. *)
Definition process_record s : Tls13Stream S * option (res io_error bytes) :=
  match idx (E := io_error) (header_buf s) 0 with
  | Ok rec_type =>
      if rec_type =? RT_APPLICATION_DATA then
        match decrypt_app_record_with (in_crypter s) (in_iv s) (in_seq s) (body_buf s) (header_buf s) with
        | Err _ => (s, Some (Err InvalidData))
        | Panic => (s, Some Panic)
        | Ok (inner, inner_type) =>
            let s := next_in s in
            if inner_type =? RT_APPLICATION_DATA then (with_phase RPHASE_PLAINTEXT (with_plain inner 0 s), None)
            else if inner_type =? RT_ALERT then
              if is_close_notify inner then (s, Some (Ok [])) else (s, Some (Err ConnectionReset))
            else (skip_record s, None)
        end
      else if rec_type =? RT_CHANGE_CIPHER_SPEC then (skip_record s, None)
      else if rec_type =? RT_ALERT then
        if is_close_notify (body_buf s) then (s, Some (Ok [])) else (s, Some (Err ConnectionReset))
      else (s, Some (Err InvalidData))
  | _ => (s, Some Panic)
  end.

Definition start_body s : Tls13Stream S * res io_error unit :=
  match idx (E := io_error) (header_buf s) 3, idx (E := io_error) (header_buf s) 4 with
  | Ok hi, Ok lo => (with_phase RPHASE_BODY (with_body (resize (Z.to_nat (be_val [hi; lo])) (body_buf s)) 0 s), Ok tt)
  | _, _ => (s, Panic)
  end.

(** Step 2: read the body and process the record. *)
Definition body_step s : Tls13Stream S * option (poll (res io_error bytes)) :=
  match fill_body (length (body_buf s)) s with
  | (s, Pending) => (s, Some Pending)
  | (s, Ready (Err e)) => (s, Some (Ready (Err e)))
  | (s, Ready Panic) => (s, Some (Ready Panic))
  | (s, Ready (Ok _)) => let '(s, r) := process_record s in (s, Ready <$> r)
  end.

(** Steps 1 and 2. *)
Definition header_step s : Tls13Stream S * option (poll (res io_error bytes)) :=
  match fill_header 5 s with
  | (s, Pending) => (s, Some Pending)
  | (s, Ready (Err e)) => (s, Some (Ready (Err e)))
  | (s, Ready Panic) => (s, Some (Ready Panic))
  | (s, Ready (Ok _)) =>
      match start_body s with
      | (s, Ok _) => body_step s
      | (s, _) => (s, Some (Ready Panic))
      end
  end.

(** One round of the loop of [poll_read]. *)
Definition read_round s (n : nat) : Tls13Stream S * option (poll (res io_error bytes)) :=
  match read_phase s with
  | RPHASE_PLAINTEXT =>
      if (plain_pos s <? length (plain_buf s))%nat then
        let available := drop (plain_pos s) (plain_buf s) in
        let k := Nat.min (length available) n in
        let pos := (plain_pos s + k)%nat in
        (if (length (plain_buf s) <=? pos)%nat then with_plain [] 0 s else with_plain (plain_buf s) pos s, Some (Ready (Ok (take k available))))
      else header_step (skip_record s)
  | RPHASE_HEADER => header_step s
  | RPHASE_BODY => body_step s
  end.

(** The loop; [None] after [fuel] rounds. *)
Fixpoint tls_read_loop (fuel : nat) s (n : nat) : option (Tls13Stream S * poll (res io_error bytes)) :=
  match fuel with
  | O => None
  | Datatypes.S fuel =>
      match read_round s n with
      | (s, Some r) => Some (s, r)
      | (s, None) => tls_read_loop fuel s n
      end
  end.
End Reading.

Section Writing.
Context `{AsyncWrite S} `{AeadCrate}.

(** The loop that writes out a record. *)
Fixpoint drain_record (fuel : nat) s : Tls13Stream S * poll (res io_error unit) :=
  if (length (t_write_buf s) <=? write_pos s)%nat then (s, Ready (Ok tt))
  else
    match fuel with
    | O => (s, Ready Panic)
    | Datatypes.S fuel =>
        match poll_write (t_inner s) (drop (write_pos s) (t_write_buf s)) with
        | (i, Pending) => (with_inner i s, Pending)
        | (i, Ready (Err e)) => (with_inner i s, Ready (Err e))
        | (i, Ready Panic) => (with_inner i s, Ready Panic)
        | (i, Ready (Ok O)) => (with_inner i s, Ready (Err WriteZero))
        | (i, Ready (Ok n)) => drain_record fuel (with_write (t_write_buf s) (write_pos s + n) (write_chunk_len s) (with_inner i s))
        end
    end.

(** The record is written out: how much plaintext it was made of. *)
Definition finish_record s : Tls13Stream S * poll (res io_error nat) :=
  match drain_record (length (t_write_buf s)) s with
  | (s, Pending) => (s, Pending)
  | (s, Ready (Err e)) => (s, Ready (Err e))
  | (s, Ready Panic) => (s, Ready Panic)
  | (s, Ready (Ok _)) => (with_write [] 0 0 s, Ready (Ok (write_chunk_len s)))
  end.

Definition MAX_CHUNK : nat := Z.to_nat 16384.

Definition tls_poll_write s (buf : bytes) : Tls13Stream S * poll (res io_error nat) :=
  match t_write_buf s, buf with
  | _ :: _, _ => finish_record s
  | [], [] => (s, Ready (Ok O))
  | [], _ =>
      let chunk_len := Nat.min (length buf) MAX_CHUNK in
      let record := encrypt_app_record_with (out_crypter s) (out_iv s) (out_seq s) (take chunk_len buf) RT_APPLICATION_DATA in
      finish_record (with_write record 0 chunk_len (next_out s))
  end.

Definition tls_poll_flush s : Tls13Stream S * poll (res io_error unit) := let '(i, r) := poll_flush (t_inner s) in (with_inner i s, r).

Definition tls_poll_shutdown s : Tls13Stream S * poll (res io_error unit) := let '(i, r) := poll_shutdown (t_inner s) in (with_inner i s, r).
End Writing.

(** ** Giving the transport back *)

Definition direct_copy_ready s : bool :=
  match t_write_buf s with
  | _ :: _ => false
  | [] =>
      match read_phase s with
      | RPHASE_PLAINTEXT => true
      | RPHASE_HEADER => (header_pos s =? 0)%nat
      | RPHASE_BODY => false
      end
  end.

(** The transport and the plaintext that was not read, or the stream. *)
Definition try_unwrap_direct s : (S * bytes) + Tls13Stream S :=
  if direct_copy_ready s then
    inl (t_inner s,
         match read_phase s with
         | RPHASE_PLAINTEXT => if (plain_pos s <? length (plain_buf s))%nat then drop (plain_pos s) (plain_buf s) else []
         | _ => []
         end)
  else inr s.
End Stream.

(** * What the stream carries *)

Section Wire.
Context `{HA : AeadLaws}.

(** A record of application data, and the records of a list of chunks. *)
Definition app_record (k : AeadKey) (iv : bytes) (c : Z) (d : bytes) : bytes := encrypt_app_record_with k iv c d RT_APPLICATION_DATA.

Fixpoint app_records (k : AeadKey) (iv : bytes) (c : Z) (ds : list bytes) : bytes :=
  match ds with [] => [] | d :: ds => app_record k iv c d ++ app_records k iv (as_u64 (c + 1)) ds end.

Fixpoint seq_after (c : Z) (ds : list bytes) : Z :=
  match ds with [] => c | _ :: ds => seq_after (as_u64 (c + 1)) ds end.

Definition chunk_ok (d : bytes) : Prop := (0 < length d <= MAX_CHUNK)%nat.

Lemma app_records_snoc k iv c ds d : app_records k iv c (ds ++ [d]) = app_records k iv c ds ++ app_record k iv (seq_after c ds) d.
Proof. revert c. induction ds as [|x ds IH]; intros c; cbn; [by rewrite app_nil_r|]. by rewrite IH, app_assoc. Qed.

Lemma seq_after_snoc c ds d : seq_after c (ds ++ [d]) = as_u64 (seq_after c ds + 1).
Proof. revert c. induction ds as [|x ds IH]; intros c; cbn; [done|]. apply IH. Qed.

(** The header tells the length of the rest. *)
Lemma app_record_parts k iv c d : chunk_ok d ->
  exists ct, app_record k iv c d = record_header (zlen ct) ++ ct /\ zlen ct < 2 ^ 16 /\
    decrypt_app_record_with k iv c ct (record_header (zlen ct)) = Ok (d, RT_APPLICATION_DATA).
Proof.
  intros [_ Hd]. unfold app_record, encrypt_app_record_with. cbv zeta. eexists. rewrite sealed_zlen. split; [done|]. split.
  - rewrite zlen_app. change (zlen [RT_APPLICATION_DATA]) with 1. unfold zlen, MAX_CHUNK in *. lia.
  - by apply (open_record _ _ _ d RT_APPLICATION_DATA 0).
Qed.

Lemma app_record_nonempty k iv c d : app_record k iv c d <> [].
Proof. done. Qed.
End Wire.

(** ** The writer *)

Section Writer.
Context `{HA : AeadLaws} {W : Type} `{WriteSpec W}.
Implicit Types s : Tls13Stream W.

(** [acc] has been accepted since the stream was made on [sent0]; [infl] is the chunk
    whose record is not written out. *)
Record tls_writes (k : AeadKey) (iv : bytes) (c0 : Z) (sent0 acc : bytes) (infl : option bytes) (ds : list bytes) s : Prop := {
  tw_key : out_crypter s = k;
  tw_iv : out_iv s = iv;
  tw_chunks : Forall chunk_ok ds;
  tw_acc : concat ds = acc;
  tw_chunk : from_option chunk_ok True infl;
  tw_seq : out_seq s = seq_after c0 (ds ++ option_list infl);
  tw_pos : (write_pos s <= length (t_write_buf s))%nat;
  tw_len : write_chunk_len s = from_option length O infl;
  tw_buf : t_write_buf s = from_option (app_record k iv (seq_after c0 ds)) [] infl;
  tw_wire : sent (t_inner s) ++ drop (write_pos s) (t_write_buf s) = sent0 ++ app_records k iv c0 (ds ++ option_list infl);
  tw_grows : sent0 `prefix_of` sent (t_inner s)
}.

Definition tls_accepted k iv c0 sent0 s acc infl : Prop := exists ds, tls_writes k iv c0 sent0 acc infl ds s.

Lemma tls_writes_sent k iv c0 sent0 acc infl ds s i pos :
  tls_writes k iv c0 sent0 acc infl ds s -> (pos <= length (t_write_buf s))%nat -> sent (t_inner s) `prefix_of` sent i ->
  sent i ++ drop pos (t_write_buf s) = sent (t_inner s) ++ drop (write_pos s) (t_write_buf s) ->
  tls_writes k iv c0 sent0 acc infl ds (with_write (t_write_buf s) pos (write_chunk_len s) (with_inner i s)).
Proof. intros [] Hpos Hpre Hs. split; cbn; try done; [by rewrite Hs|by etrans]. Qed.

Lemma tls_writes_inner k iv c0 sent0 acc infl ds s i :
  tls_writes k iv c0 sent0 acc infl ds s -> sent i = sent (t_inner s) -> tls_writes k iv c0 sent0 acc infl ds (with_inner i s).
Proof. intros [] Hi. split; cbn; rewrite ?Hi; done. Qed.

Lemma drain_record_ok k iv c0 sent0 acc infl ds fuel s s' r :
  tls_writes k iv c0 sent0 acc infl ds s -> (length (t_write_buf s) - write_pos s <= fuel)%nat -> drain_record fuel s = (s', r) ->
  tls_writes k iv c0 sent0 acc infl ds s' /\ r <> Ready Panic /\ (r = Ready (Ok tt) -> (length (t_write_buf s') <= write_pos s')%nat).
Proof.
  revert s. induction fuel as [|fuel IH]; intros s Hs Hf; cbn [drain_record]; destruct (Nat.leb_spec (length (t_write_buf s)) (write_pos s)).
  1,3: by intros [= <- <-]. { lia. }
  destruct (poll_write (t_inner s) (drop (write_pos s) (t_write_buf s))) as [i [[[|n]|e|]|]] eqn:Hw.
  - intros [= <- <-]. split_and!; [|done..]. apply tls_writes_inner; [done|]. apply poll_write_ok in Hw as [_ Hw]. by rewrite Hw, take_0, app_nil_r.
  - apply poll_write_ok in Hw as [Hn Hw]. rewrite length_drop in Hn. apply IH; [|cbn; lia].
    apply tls_writes_sent; [done|lia|rewrite Hw; by eexists|]. rewrite Hw, <- app_assoc. f_equal. rewrite <- drop_drop. apply take_drop.
  - intros [= <- <-]. split_and!; [|done..]. apply tls_writes_inner; [done|]. by eapply poll_write_not_ok.
  - by apply poll_write_no_panic in Hw.
  - intros [= <- <-]. split_and!; [|done..]. apply tls_writes_inner; [done|]. by eapply poll_write_not_ok.
Qed.

(** The chunk in flight is accepted once its record is written out. *)
Lemma finish_record_ok k iv c0 sent0 acc d ds s s' r :
  tls_writes k iv c0 sent0 acc (Some d) ds s -> finish_record s = (s', r) ->
  match r with
  | Ready (Ok n) => n = length d /\ tls_accepted k iv c0 sent0 s' (acc ++ d) None
  | Ready (Err _) => True
  | Ready Panic => False
  | Pending => tls_accepted k iv c0 sent0 s' acc (Some d)
  end.
Proof.
  intros Hs. unfold finish_record. destruct (drain_record _ s) as [s1 r1] eqn:Hd.
  apply (drain_record_ok _ _ _ _ _ _ _ _ _ _ _ Hs) in Hd as (Hs1 & Hnp & Hdone); [|lia].
  destruct r1 as [[[]|e|]|]; [|by intros [= <- <-]|done|intros [= <- <-]; by exists ds].
  intros [= <- <-]. destruct Hs1 as [Hk Hiv Hds Ha Hc Hq Hp Hl Hb Hw Hg]. split; [done|]. exists (ds ++ [d]).
  rewrite (drop_ge _ (write_pos s1)), app_nil_r in Hw by auto. cbn [option_list] in Hw, Hq.
  split; cbn; rewrite ?app_nil_r; try done.
  - apply Forall_app. split; [done|]. by apply Forall_singleton.
  - rewrite concat_app, Ha. cbn. by rewrite app_nil_r.
Qed.

Lemma tls_poll_write_ok k iv c0 sent0 acc infl s buf s' r :
  tls_accepted k iv c0 sent0 s acc infl -> retries infl buf -> tls_poll_write s buf = (s', r) ->
  write_post (tls_accepted k iv c0 sent0) buf acc s' r.
Proof.
  intros [ds Hs] Hr. unfold tls_poll_write, write_post. pose proof (tw_buf _ _ _ _ _ _ _ _ Hs) as Hb.
  assert (Hfin : forall d s1, d `prefix_of` buf -> tls_writes k iv c0 sent0 acc (Some d) ds s1 -> finish_record s1 = (s', r) ->
    match r with
    | Ready (Ok n) => (n <= length buf)%nat /\ tls_accepted k iv c0 sent0 s' (acc ++ take n buf) None
    | Ready (Err _) => True
    | Ready Panic => False
    | Pending => exists infl, tls_accepted k iv c0 sent0 s' acc infl /\ retries infl buf
    end).
  { intros d s1 [t Ht] Hs1 Hf. apply (finish_record_ok _ _ _ _ _ _ _ _ _ _ Hs1) in Hf. destruct r as [[n|e|]|]; try done.
    - destruct Hf as [-> Hf]. rewrite Ht, length_app, take_app_length. split; [lia|done].
    - exists (Some d). split; [done|]. intros b [= <-]. by exists t. }
  destruct infl as [d|]; cbn [from_option] in Hb.
  - rewrite Hb. destruct (app_record _ _ _ d) as [|x l] eqn:E; [by apply app_record_nonempty in E|]. apply (Hfin d); [by apply Hr|done].
  - rewrite Hb. destruct buf as [|x buf].
    { intros [= <- <-]. split; [cbn; lia|]. exists ds. by rewrite take_nil, app_nil_r. }
    set (b := x :: buf) in *. cbv zeta. set (n := Nat.min (length b) MAX_CHUNK). apply (Hfin (take n b)); [apply prefix_take|].
    assert (Hok : chunk_ok (take n b)) by (unfold chunk_ok; rewrite length_take; unfold n, b, MAX_CHUNK; cbn [length]; lia).
    destruct Hs as [Hk Hiv Hds Ha Hc Hq Hp Hl _ Hw Hg]. rewrite Hb, drop_nil, app_nil_r in Hw. cbn [option_list] in Hw, Hq. rewrite app_nil_r in Hw, Hq.
    assert (Hnext : out_seq (next_out s) = as_u64 (out_seq s + 1) /\ out_crypter (next_out s) = out_crypter s /\ out_iv (next_out s) = out_iv s).
    { unfold out_seq, out_crypter, out_iv, next_out. destruct (is_server s) eqn:E; cbn; by rewrite E. }
    destruct Hnext as (Hn1 & Hn2 & Hn3).
    split; cbn [t_inner t_write_buf write_pos write_chunk_len with_write from_option option_list]; try done.
    + by change (out_crypter (next_out s) = k); rewrite Hn2.
    + by change (out_iv (next_out s) = iv); rewrite Hn3.
    + change (out_seq (next_out s) = seq_after c0 (ds ++ [take n b])). by rewrite Hn1, Hq, seq_after_snoc.
    + lia.
    + rewrite length_take. unfold n. lia.
    + by rewrite Hk, Hiv, Hq.
    + change (option_list (Some (take n b))) with [take n b]. rewrite drop_0, Hk, Hiv, Hq, app_records_snoc. unfold next_out. destruct (is_server s); cbn; by rewrite Hw, app_assoc.
    + unfold next_out. by destruct (is_server s).
Qed.

#[export] Instance tls_async_write : AsyncWrite (Tls13Stream W) :=
  {| poll_write := tls_poll_write; poll_flush := tls_poll_flush; poll_shutdown := tls_poll_shutdown |}.

(** The stream keeps the contract of a writer that holds on to a pending write. *)
Program Definition tls_contract (k : AeadKey) (iv : bytes) (c0 : Z) (sent0 : bytes) : WriterContract (Tls13Stream W) := {|
  accepted := tls_accepted k iv c0 sent0;
  fits _ := True
|}.
Next Obligation. intros k iv c0 sent0 w acc infl buf w' r Ha Hr _ Hw. by eapply tls_poll_write_ok. Qed.
Next Obligation.
  intros k iv c0 sent0 w acc w' r [ds Hs]. cbn. unfold tls_poll_flush. destruct (poll_flush (t_inner w)) as [i r'] eqn:Hf. apply poll_flush_sent in Hf.
  intros [= <- <-]. exists ds. by apply tls_writes_inner.
Qed.
Next Obligation.
  intros k iv c0 sent0 w acc w' _. cbn. unfold tls_poll_flush. destruct (poll_flush (t_inner w)) as [i r'] eqn:Hf. intros [= _ ->]. by apply poll_flush_no_panic in Hf.
Qed.
Next Obligation.
  intros k iv c0 sent0 w acc w' r [ds Hs]. cbn. unfold tls_poll_shutdown. destruct (poll_shutdown (t_inner w)) as [i r'] eqn:Hf. apply poll_shutdown_sent in Hf.
  intros [= <- <-]. exists ds. by apply tls_writes_inner.
Qed.
Next Obligation.
  intros k iv c0 sent0 w acc w' _. cbn. unfold tls_poll_shutdown. destruct (poll_shutdown (t_inner w)) as [i r'] eqn:Hf. intros [= _ ->]. by apply poll_shutdown_no_panic in Hf.
Qed.
End Writer.

(** ** The reader *)

Section Reader.
Context `{HA : AeadLaws} {R : Type} `{ReadSpec R}.
Implicit Types s : Tls13Stream R.

(** The bytes of the next record that are there. *)
Definition partial s : bytes :=
  match read_phase s with
  | RPHASE_PLAINTEXT => []
  | RPHASE_HEADER => take (header_pos s) (header_buf s)
  | RPHASE_BODY => header_buf s ++ take (body_pos s) (body_buf s)
  end.

(** The plaintext that is there. *)
Definition unread s : bytes := match read_phase s with RPHASE_PLAINTEXT => drop (plain_pos s) (plain_buf s) | _ => [] end.

Definition body_length (header : bytes) : nat := match header with [_; _; _; hi; lo] => Z.to_nat (be_val [hi; lo]) | _ => O end.

Record shaped s : Prop := {
  sh_header : length (header_buf s) = 5%nat;
  sh_header_pos : read_phase s = RPHASE_HEADER -> (header_pos s <= 5)%nat;
  sh_body : read_phase s = RPHASE_BODY -> length (body_buf s) = body_length (header_buf s);
  sh_body_pos : (body_pos s <= length (body_buf s))%nat \/ read_phase s <> RPHASE_BODY
}.

(** [acc] is what the peer has written, [out] what was read of it; with [full] all of the
    peer's wire is on its way. *)
Record tls_reads (k : AeadKey) (iv : bytes) (full : bool) (acc out : bytes) (ds : list bytes) s : Prop := {
  tr_key : in_crypter s = k;
  tr_iv : in_iv s = iv;
  tr_shape : shaped s;
  tr_chunks : Forall chunk_ok ds;
  tr_acc : acc = out ++ unread s ++ concat ds;
  tr_wire : partial s ++ incoming (t_inner s) `prefix_of` app_records k iv (in_seq s) ds;
  tr_full : full = true -> partial s ++ incoming (t_inner s) = app_records k iv (in_seq s) ds
}.

Definition tls_reading k iv full acc out s : Prop := exists ds, tls_reads k iv full acc out ds s.

(** A change of the state that moves bytes from the transport into the record. *)
Lemma tls_reads_move k iv full acc out ds s s' :
  tls_reads k iv full acc out ds s -> shaped s' -> in_crypter s' = in_crypter s -> in_iv s' = in_iv s -> in_seq s' = in_seq s ->
  unread s' = unread s -> partial s' ++ incoming (t_inner s') = partial s ++ incoming (t_inner s) ->
  tls_reads k iv full acc out ds s'.
Proof. intros [Hk Hiv Hsh Hds Ha Hw Hf] Hs' Ek Eiv Eq Eu Ep. split; rewrite ?Ek, ?Eiv, ?Eq, ?Eu, ?Ep; done. Qed.

Lemma patch_fill (buf filled : bytes) pos : (pos + length filled <= length buf)%nat ->
  take (pos + length filled) (patch pos filled buf) = take pos buf ++ filled /\ length (patch pos filled buf) = length buf.
Proof.
  intros Hl. unfold patch. split.
  - rewrite app_assoc. rewrite take_app_length'; [done|]. rewrite length_app, length_take. lia.
  - rewrite !length_app, length_take, length_drop. lia.
Qed.

(** A complete header is that of the next record. *)
Lemma header_matches k iv c ds header x : length header = 5%nat -> Forall chunk_ok ds -> header ++ x `prefix_of` app_records k iv c ds ->
  exists d ds' ct, ds = d :: ds' /\ chunk_ok d /\ header = record_header (zlen ct) /\ body_length header = length ct /\
    app_records k iv c ds = header ++ ct ++ app_records k iv (as_u64 (c + 1)) ds' /\
    decrypt_app_record_with k iv c ct header = Ok (d, RT_APPLICATION_DATA).
Proof.
  intros Hl Hds [t Ht]. destruct ds as [|d ds].
  { cbn in Ht. symmetry in Ht. rewrite <- app_assoc in Ht. apply app_eq_nil in Ht as [-> _]. done. }
  apply Forall_cons in Hds as [Hd Hds]. destruct (app_record_parts k iv c d Hd) as (ct & Hrec & Hz & Hdec). cbn [app_records] in Ht. rewrite Hrec, <- !app_assoc in Ht.
  apply app_inj_1 in Ht as [Hh _]; [|by rewrite Hl]. exists d, ds, ct. rewrite <- Hh. split_and!; try done.
  - cbn [body_length record_header]. rewrite u16_halves by (pose proof (zlen_nonneg ct); lia). apply zlen_to_nat.
  - cbn [app_records]. by rewrite Hrec, <- app_assoc.
Qed.

(** Why a read fails: the peer is gone, or the transport failed. *)
Definition read_failed (full : bool) (acc out : bytes) s (e : io_error) : Prop :=
  (e = UnexpectedEof /\ incoming (t_inner s) = [] /\ (full = true -> out = acc)) \/ exists i n i', poll_read (S := R) i n = (i', Ready (Err e)).

Lemma header_eof k iv acc out ds s :
  tls_reads k iv true acc out ds s -> read_phase s = RPHASE_HEADER -> (header_pos s < 5)%nat -> incoming (t_inner s) = [] -> out = acc.
Proof.
  intros [Hk Hiv Hsh Hds Ha Hw Hf] Hp Hpos Hin. specialize (Hf eq_refl). unfold partial, unread in *. rewrite Hp, Hin, ?app_nil_r in *.
  destruct ds as [|d ds]; [by rewrite Ha, !app_nil_r|]. apply Forall_cons in Hds as [Hd _]. destruct (app_record_parts k iv (in_seq s) d Hd) as (ct & Hrec & _).
  cbn [app_records] in Hf. rewrite Hrec in Hf. apply (f_equal length) in Hf. rewrite length_take, !length_app in Hf. cbn [length record_header] in Hf. lia.
Qed.

Lemma fill_header_ok k iv full acc out ds fuel s s' r :
  tls_reads k iv full acc out ds s -> read_phase s = RPHASE_HEADER -> (5 - header_pos s <= fuel)%nat -> fill_header fuel s = (s', r) ->
  match r with
  | Ready (Ok _) => tls_reads k iv full acc out ds s' /\ read_phase s' = RPHASE_HEADER /\ header_pos s' = 5%nat /\
      (length (incoming (t_inner s')) + (5 - header_pos s) = length (incoming (t_inner s)))%nat
  | Ready (Err e) => read_failed full acc out s' e
  | Ready Panic => False
  | Pending => tls_reads k iv full acc out ds s'
  end.
Proof.
  revert s. induction fuel as [|fuel IH]; intros s Hs Hp Hf; cbn [fill_header]; pose proof (tr_shape _ _ _ _ _ _ _ Hs) as [Hh Hhp Hb Hbp]; specialize (Hhp Hp);
    destruct (Nat.leb_spec 5 (header_pos s)).
  1,3: intros [= <- <-]; split_and!; [done|done|lia..]. { lia. }
  destruct (poll_read (t_inner s) (5 - header_pos s)) as [i [[filled|e|]|]] eqn:Hr.
  - apply poll_read_ok in Hr as (Hn & Hin & Hnil). destruct filled as [|x l].
    + intros [= <- <-]. left. cbn in Hin. destruct Hnil as [?|Hnil]; [done|lia|]. cbn. split_and!; [done|congruence|]. intros ->. by eapply header_eof.
    + remember (x :: l) as filled eqn:Hfl. assert (Hpos : (0 < length filled)%nat) by (subst filled; cbn; lia). intros Hl. destruct (patch_fill (header_buf s) filled (header_pos s)) as [Ht Hlen]; [lia|].
      eapply (IH (with_header (patch (header_pos s) filled (header_buf s)) (header_pos s + length filled) (with_inner i s))) in Hl; [| |done|cbn; lia].
      * cbn in Hl. cbn [t_inner with_header with_inner header_pos] in Hl. destruct r as [[[]|e|]|]; try done.
        destruct Hl as (? & ? & ? & Hl). split_and!; [done..|]. rewrite Hin, length_app. lia.
      * eapply tls_reads_move; [exact Hs| |done..| |].
        { split; cbn; [by rewrite Hlen|intros _; lia|by rewrite Hp|by right; rewrite Hp]. }
        { unfold unread. cbn. by rewrite Hp. }
        unfold partial. cbn [read_phase with_header with_inner header_pos header_buf t_inner]. rewrite Hp, Ht, Hin. by rewrite <- app_assoc.
  - intros [= <- <-]. right. eauto.
  - by apply poll_read_no_panic in Hr.
  - intros [= <- <-]. apply poll_read_pending in Hr. eapply tls_reads_move; [exact Hs|by split|done..|]. unfold partial. cbn. by rewrite Hr.
Qed.

Lemma body_eof k iv acc out ds s :
  tls_reads k iv true acc out ds s -> read_phase s = RPHASE_BODY -> (body_pos s < length (body_buf s))%nat -> incoming (t_inner s) <> [].
Proof.
  intros [Hk Hiv Hsh Hds Ha Hw Hf] Hp Hpos Hin. specialize (Hf eq_refl). unfold partial in *. rewrite Hp in *. rewrite <- app_assoc in Hw, Hf.
  destruct (header_matches k iv (in_seq s) ds (header_buf s) _ (sh_header _ Hsh) Hds Hw) as (d & ds' & ct & -> & _ & _ & Hbl & Hrec & _).
  rewrite Hrec in Hf. apply app_inv_head in Hf. rewrite Hin, app_nil_r in Hf. apply (f_equal length) in Hf. rewrite length_take, length_app in Hf.
  rewrite <- (sh_body _ Hsh Hp) in Hbl. lia.
Qed.

Lemma fill_body_ok k iv full acc out ds fuel s s' r :
  tls_reads k iv full acc out ds s -> read_phase s = RPHASE_BODY -> (length (body_buf s) - body_pos s <= fuel)%nat -> fill_body fuel s = (s', r) ->
  match r with
  | Ready (Ok _) => tls_reads k iv full acc out ds s' /\ read_phase s' = RPHASE_BODY /\ (length (body_buf s') <= body_pos s')%nat /\
      (length (incoming (t_inner s')) <= length (incoming (t_inner s)))%nat
  | Ready (Err e) => read_failed full acc out s' e
  | Ready Panic => False
  | Pending => tls_reads k iv full acc out ds s'
  end.
Proof.
  revert s. induction fuel as [|fuel IH]; intros s Hs Hp Hf; cbn [fill_body]; pose proof (tr_shape _ _ _ _ _ _ _ Hs) as [Hh Hhp Hb Hbp];
    destruct (Nat.leb_spec (length (body_buf s)) (body_pos s)).
  1,3: intros [= <- <-]; split_and!; [done|done|lia..]. { lia. }
  destruct (poll_read (t_inner s) (length (body_buf s) - body_pos s)) as [i [[filled|e|]|]] eqn:Hr.
  - apply poll_read_ok in Hr as (Hn & Hin & Hnil). destruct filled as [|x l].
    + intros [= <- <-]. left. cbn in Hin. destruct Hnil as [?|Hnil]; [done|lia|]. cbn. split_and!; [done|congruence|]. intros ->. by destruct (body_eof _ _ _ _ _ _ Hs Hp).
    + remember (x :: l) as filled eqn:Hfl. assert (Hpos : (0 < length filled)%nat) by (subst filled; cbn; lia). intros Hl.
      destruct (patch_fill (body_buf s) filled (body_pos s)) as [Ht Hlen]; [lia|].
      eapply (IH (with_body (patch (body_pos s) filled (body_buf s)) (body_pos s + length filled) (with_inner i s))) in Hl; [| |done|cbn; lia].
      * cbn [t_inner with_body with_inner] in Hl. destruct r as [[[]|e|]|]; try done. destruct Hl as (? & ? & ? & Hl). split_and!; [done..|]. rewrite Hin, length_app. lia.
      * eapply tls_reads_move; [exact Hs| |done..| |].
        { split; cbn; [done|by rewrite Hp|by rewrite Hlen|left; lia]. }
        { unfold unread. cbn. by rewrite Hp. }
        unfold partial. cbn [read_phase with_body with_inner body_pos body_buf header_buf t_inner]. rewrite Hp, Ht, Hin. by rewrite <- !app_assoc.
  - intros [= <- <-]. right. eauto.
  - by apply poll_read_no_panic in Hr.
  - intros [= <- <-]. apply poll_read_pending in Hr. eapply tls_reads_move; [exact Hs|by split|done..|]. unfold partial. cbn. by rewrite Hr.
Qed.

(** A record that is there is decrypted, and is the next chunk. *)
Lemma process_record_ok k iv full acc out ds s :
  tls_reads k iv full acc out ds s -> read_phase s = RPHASE_BODY -> (length (body_buf s) <= body_pos s)%nat ->
  exists s' d ds', process_record s = (s', None) /\ ds = d :: ds' /\ read_phase s' = RPHASE_PLAINTEXT /\ unread s' <> [] /\ t_inner s' = t_inner s /\
    tls_reads k iv full acc out ds' s'.
Proof.
  intros [Hk Hiv Hsh Hds Ha Hw Hf] Hp Hpos. unfold partial in Hw, Hf. rewrite Hp in Hw, Hf. rewrite take_ge in Hw, Hf by done. rewrite <- app_assoc in Hw, Hf.
  destruct (header_matches k iv (in_seq s) ds (header_buf s) _ (sh_header _ Hsh) Hds Hw) as (d & ds' & ct & -> & Hd & Hh & Hbl & Hrec & Hdec).
  rewrite Hrec in Hw, Hf. apply prefix_app_inv in Hw. rewrite <- (sh_body _ Hsh Hp) in Hbl.
  assert (Hct : body_buf s = ct). { destruct Hw as [t Ht]. rewrite <- app_assoc in Ht. by apply app_inj_1 in Ht as [-> _]. }
  rewrite Hct in Hw, Hf. apply prefix_app_inv in Hw. apply Forall_cons in Hds as [_ Hds].
  assert (Hidx : idx (E := io_error) (header_buf s) 0 = Ok RT_APPLICATION_DATA) by (by rewrite Hh). unfold process_record. rewrite Hidx, Z.eqb_refl.
  rewrite Hk, Hiv, Hct, Hdec. cbv zeta. rewrite Z.eqb_refl.
  assert (Hnext : in_seq (next_in s) = as_u64 (in_seq s + 1) /\ in_crypter (next_in s) = in_crypter s /\ in_iv (next_in s) = in_iv s /\
    t_inner (next_in s) = t_inner s /\ header_buf (next_in s) = header_buf s /\ body_buf (next_in s) = body_buf s).
  { unfold in_seq, in_crypter, in_iv, next_in. destruct (is_server s) eqn:E; cbn; by rewrite ?E. }
  destruct Hnext as (Hn1 & Hn2 & Hn3 & Hn4 & Hn5 & Hn6). eexists _, d, ds'. split_and!; try done.
  - cbn. rewrite drop_0. intros ->. unfold chunk_ok in Hd. cbn in Hd. lia.
  - assert (Hu : unread s = []) by (unfold unread; by rewrite Hp).
    split; cbn; try done.
    + change (in_crypter (next_in s) = k). by rewrite Hn2.
    + change (in_iv (next_in s) = iv). by rewrite Hn3.
    + split; cbn; [by rewrite Hn5; apply Hsh|done|done|by right].
    + rewrite Ha, Hu. cbn. by rewrite drop_0.
    + change (in_seq (with_phase RPHASE_PLAINTEXT (with_plain d 0 (next_in s)))) with (in_seq (next_in s)). by rewrite Hn1, Hn4.
    + intros Hfull. specialize (Hf Hfull). apply app_inv_head, app_inv_head in Hf. change (in_seq (with_phase RPHASE_PLAINTEXT (with_plain d 0 (next_in s)))) with (in_seq (next_in s)). by rewrite Hn1, Hn4.
Qed.

(** The loop goes on only with the next chunk in hand. *)
Definition step_post k iv full acc out s' (o : option (poll (res io_error bytes))) : Prop :=
  match o with
  | None => tls_reading k iv full acc out s' /\ read_phase s' = RPHASE_PLAINTEXT /\ unread s' <> []
  | Some (Ready (Ok _)) | Some (Ready Panic) => False
  | Some (Ready (Err e)) => read_failed full acc out s' e
  | Some Pending => tls_reading k iv full acc out s'
  end.

Lemma body_step_ok k iv full acc out s s' o :
  tls_reading k iv full acc out s -> read_phase s = RPHASE_BODY -> body_step s = (s', o) -> step_post k iv full acc out s' o.
Proof.
  intros [ds Hs] Hp. unfold body_step. destruct (fill_body _ s) as [s1 r] eqn:Hf.
  apply (fill_body_ok _ _ _ _ _ _ _ _ _ _ Hs Hp) in Hf; [|lia]. destruct r as [[[]|e|]|]; [|by intros [= <- <-]|done|intros [= <- <-]; by exists ds].
  destruct Hf as (Hs1 & Hp1 & Hpos & _). destruct (process_record_ok _ _ _ _ _ _ _ Hs1 Hp1 Hpos) as (s2 & d & ds' & -> & _ & Hp2 & Hu & _ & Hs2).
  intros [= <- <-]. split_and!; [by exists ds'|done..].
Qed.

Lemma length_resize n b : length (resize n b) = n.
Proof. unfold resize. rewrite length_app, length_take, length_replicate. lia. Qed.

Lemma header_step_ok k iv full acc out s s' o :
  tls_reading k iv full acc out s -> read_phase s = RPHASE_HEADER -> header_step s = (s', o) -> step_post k iv full acc out s' o.
Proof.
  intros [ds Hs] Hp. unfold header_step. destruct (fill_header 5 s) as [s1 r] eqn:Hf.
  apply (fill_header_ok _ _ _ _ _ _ _ _ _ _ Hs Hp) in Hf; [|lia]. destruct r as [[[]|e|]|]; [|by intros [= <- <-]|done|intros [= <- <-]; by exists ds].
  destruct Hf as (Hs1 & Hp1 & Hpos & _). pose proof (tr_shape _ _ _ _ _ _ _ Hs1) as [Hh _ _ _].
  unfold start_body. destruct (header_buf s1) as [|a [|b [|c [|hi [|lo [|x l]]]]]] eqn:Eh; try (cbn in Hh; lia).
  change (idx (E := io_error) [a; b; c; hi; lo] 3) with (Ok (E := io_error) hi). change (idx (E := io_error) [a; b; c; hi; lo] 4) with (Ok (E := io_error) lo).
  apply body_step_ok; [|done]. exists ds. eapply tls_reads_move; [exact Hs1| |done..| |].
  - split; cbn; [by rewrite Eh|done|by rewrite Eh, length_resize|left; lia].
  - unfold unread. cbn. by rewrite Hp1.
  - unfold partial. cbn [read_phase with_phase with_body header_buf body_pos body_buf t_inner]. rewrite Hp1, Hpos, Eh, take_0, app_nil_r. by rewrite take_ge by (cbn; lia).
Qed.

Definition tls_read_post k iv full acc out n s' (r : poll (res io_error bytes)) : Prop :=
  match r with
  | Ready (Ok c) => tls_reading k iv full acc (out ++ c) s' /\ (c = [] -> n = 0%nat)
  | Ready (Err e) => read_failed full acc out s' e
  | Ready Panic => False
  | Pending => tls_reading k iv full acc out s'
  end.

Lemma tls_reads_serve k iv full acc out ds s c buf pos :
  tls_reads k iv full acc out ds s -> read_phase s = RPHASE_PLAINTEXT -> c ++ drop pos buf = unread s ->
  tls_reads k iv full acc (out ++ c) ds (with_plain buf pos s).
Proof.
  intros [Hk Hiv [Hh Hhp Hb Hbp] Hds Ha Hw Hf] Hp Hc. unfold partial in *. rewrite Hp in *. split.
  - exact Hk.
  - exact Hiv.
  - split; cbn; [done|by rewrite Hp|by rewrite Hp|right; by rewrite Hp].
  - done.
  - unfold unread at 1. cbn [read_phase with_plain plain_pos plain_buf]. rewrite Hp, Ha, <- Hc. by rewrite <- !app_assoc.
  - unfold partial. cbn. by rewrite Hp.
  - unfold partial. cbn. by rewrite Hp.
Qed.

Lemma serve_ok k iv full acc out s n s' o :
  tls_reading k iv full acc out s -> read_phase s = RPHASE_PLAINTEXT -> unread s <> [] -> read_round s n = (s', o) ->
  exists r, o = Some r /\ tls_read_post k iv full acc out n s' r.
Proof.
  intros [ds Hs] Hp Hu. unfold read_round. rewrite Hp. unfold unread in Hu. rewrite Hp in Hu.
  destruct (Nat.ltb_spec (plain_pos s) (length (plain_buf s))) as [Hlt|Hge]; [|by rewrite drop_ge in Hu]. cbv zeta.
  set (avail := drop (plain_pos s) (plain_buf s)) in *. set (j := Nat.min (length avail) n). intros [= <- <-]. eexists. split; [done|].
  assert (Hla : length avail = (length (plain_buf s) - plain_pos s)%nat) by (unfold avail; apply length_drop). split.
  - exists ds. destruct (Nat.leb_spec (length (plain_buf s)) (plain_pos s + j)); apply tls_reads_serve; try done; unfold unread; rewrite Hp; fold avail.
    + rewrite take_ge by (unfold j in *; lia). by rewrite app_nil_r.
    + rewrite <- drop_drop. fold avail. apply take_drop.
  - intros Hn. apply (f_equal length) in Hn. rewrite length_take in Hn. cbn in Hn. unfold j in Hn. lia.
Qed.

(** A round ends the read or leaves the next chunk in hand. *)
Lemma read_round_ok k iv full acc out s n s' o :
  tls_reading k iv full acc out s -> read_round s n = (s', o) ->
  match o with
  | Some r => tls_read_post k iv full acc out n s' r
  | None => tls_reading k iv full acc out s' /\ read_phase s' = RPHASE_PLAINTEXT /\ unread s' <> []
  end.
Proof.
  intros Hs Hr. assert (Hstep : step_post k iv full acc out s' o -> match o with
    | Some r => tls_read_post k iv full acc out n s' r
    | None => tls_reading k iv full acc out s' /\ read_phase s' = RPHASE_PLAINTEXT /\ unread s' <> [] end).
  { by destruct o as [[[c|e|]|]|]. }
  destruct (read_phase s) eqn:Hp.
  - destruct (decide (unread s = [])) as [Hu|Hu].
    + apply Hstep. unfold read_round in Hr. rewrite Hp in Hr. unfold unread in Hu. rewrite Hp in Hu. apply drop_nil_inv in Hu.
      destruct (Nat.ltb_spec (plain_pos s) (length (plain_buf s))); [lia|]. apply (header_step_ok _ _ _ _ _ (skip_record s)); [|done|exact Hr].
      destruct Hs as [ds Hs]. exists ds. eapply tls_reads_move; [exact Hs| |done..| |].
      * destruct (tr_shape _ _ _ _ _ _ _ Hs) as [Hh _ _ _]. split; cbn; [done|intros _; lia|discriminate|right; discriminate].
      * unfold unread. cbn. rewrite Hp. by rewrite drop_ge.
      * unfold partial. cbn. by rewrite Hp.
    + destruct (serve_ok _ _ _ _ _ _ _ _ _ Hs Hp Hu Hr) as (r & -> & Hpost). done.
  - apply Hstep. unfold read_round in Hr. rewrite Hp in Hr. by eapply header_step_ok.
  - apply Hstep. unfold read_round in Hr. rewrite Hp in Hr. by eapply body_step_ok.
Qed.

(** Two rounds are enough. *)
Lemma tls_read_loop_ok k iv full acc out fuel s n : tls_reading k iv full acc out s -> (2 <= fuel)%nat ->
  exists s' r, tls_read_loop fuel s n = Some (s', r) /\ tls_read_post k iv full acc out n s' r.
Proof.
  intros Hs Hf. destruct fuel as [|[|fuel]]; try lia. cbn [tls_read_loop]. destruct (read_round s n) as [s1 o1] eqn:Hr1.
  apply (read_round_ok _ _ _ _ _ _ _ _ _ Hs) in Hr1. destruct o1 as [r|]; [eauto|]. destruct Hr1 as (Hs1 & Hp1 & Hu1).
  destruct (read_round s1 n) as [s2 o2] eqn:Hr2. destruct (serve_ok _ _ _ _ _ _ _ _ _ Hs1 Hp1 Hu1 Hr2) as (r & -> & Hpost). eauto.
Qed.
End Reader.

(** ** Both ends *)

Section Session.
Context `{HA : AeadLaws} {W R : Type} `{WriteSpec W} `{ReadSpec R}.

(** A writer in use: [acc] has been accepted, [pend] is the buffer of a write that is to
    be tried again. *)
Inductive tls_writing (w0 : Tls13Stream W) : Tls13Stream W -> bytes -> option bytes -> Prop :=
| tls_writing_start : tls_writing w0 w0 [] None
| tls_writing_write w acc pend buf w' n :
    tls_writing w0 w acc pend -> retries pend buf -> tls_poll_write w buf = (w', Ready (Ok n)) -> tls_writing w0 w' (acc ++ take n buf) None
| tls_writing_wait w acc pend buf w' :
    tls_writing w0 w acc pend -> retries pend buf -> tls_poll_write w buf = (w', Pending) -> tls_writing w0 w' acc (Some buf)
| tls_writing_flush w acc w' r : tls_writing w0 w acc None -> tls_poll_flush w = (w', r) -> tls_writing w0 w' acc None
| tls_writing_shutdown w acc w' r : tls_writing w0 w acc None -> tls_poll_shutdown w = (w', r) -> tls_writing w0 w' acc None.

(** A reader in use: [out] has been read. *)
Inductive tls_read_from (r0 : Tls13Stream R) : Tls13Stream R -> bytes -> Prop :=
| tls_read_start : tls_read_from r0 r0 []
| tls_read_some r out fuel n r' c :
    tls_read_from r0 r out -> (2 <= fuel)%nat -> tls_read_loop fuel r n = Some (r', Ready (Ok c)) -> tls_read_from r0 r' (out ++ c)
| tls_read_wait r out fuel n r' :
    tls_read_from r0 r out -> (2 <= fuel)%nat -> tls_read_loop fuel r n = Some (r', Pending) -> tls_read_from r0 r' out.

Lemma tls_writing_accepted w0 k iv w acc pend :
  tls_accepted k iv 0 (sent (t_inner w0)) w0 [] None -> tls_writing w0 w acc pend ->
  exists infl, tls_accepted k iv 0 (sent (t_inner w0)) w acc infl /\ forall d, infl = Some d -> exists b, pend = Some b /\ d `prefix_of` b.
Proof.
  intros Hw0. assert (Hretry : forall (infl pend : option bytes) buf, (forall d, infl = Some d -> exists b, pend = Some b /\ d `prefix_of` b) -> retries pend buf -> retries infl buf).
  { intros infl pend0 buf Hi Hr d Hd. destruct (Hi d Hd) as (b & Hb & Hdb). etrans; [exact Hdb|]. by apply Hr. }
  induction 1 as [|w acc pend buf w' n _ (infl & Ha & Hi) Hr Hw|w acc pend buf w' _ (infl & Ha & Hi) Hr Hw|w acc w' r _ (infl & Ha & Hi) Hw|w acc w' r _ (infl & Ha & Hi) Hw].
  - by exists None.
  - apply (tls_poll_write_ok _ _ _ _ _ _ _ _ _ _ Ha (Hretry _ _ _ Hi Hr)) in Hw as [_ Hw]. by exists None.
  - apply (tls_poll_write_ok _ _ _ _ _ _ _ _ _ _ Ha (Hretry _ _ _ Hi Hr)) in Hw as (infl' & Ha' & Hr'). exists infl'. split; [done|]. intros d Hd. exists buf. split; [done|]. by apply Hr'.
  - destruct infl as [d|]; [by destruct (Hi d eq_refl) as (? & ? & _)|]. exists None. split; [|done].
    by apply (contract_flush (WriterContract := tls_contract k iv 0 (sent (t_inner w0))) w acc w' r).
  - destruct infl as [d|]; [by destruct (Hi d eq_refl) as (? & ? & _)|]. exists None. split; [|done].
    by apply (contract_shutdown (WriterContract := tls_contract k iv 0 (sent (t_inner w0))) w acc w' r).
Qed.

(** The direction that the server ([b]) or the client writes. *)
Definition direction_key (keys : AppKeys) (b : bool) : AeadKey := mkKey (record_alg (app_cs keys)) (if b then server_key keys else client_key keys).
Definition direction_iv (keys : AppKeys) (b : bool) : bytes := if b then server_iv keys else client_iv keys.

Lemma with_role_ok {S} (i : S) cs keys b : app_keys_fit cs keys ->
  exists s, with_role i keys b = Ok s /\ t_inner s = i /\ t_write_buf s = [] /\ write_pos s = 0%nat /\ write_chunk_len s = 0%nat /\
    read_phase s = RPHASE_HEADER /\ header_pos s = 0%nat /\ length (header_buf s) = 5%nat /\
    out_crypter s = direction_key keys b /\ out_iv s = direction_iv keys b /\ out_seq s = 0 /\
    in_crypter s = direction_key keys (negb b) /\ in_iv s = direction_iv keys (negb b) /\ in_seq s = 0.
Proof.
  intros [Hcs Hck _ Hsk _]. unfold with_role. rewrite Hcs, !crypter_ok by done. eexists. split; [done|].
  unfold out_crypter, out_iv, out_seq, in_crypter, in_iv, in_seq, direction_key, direction_iv. cbn. rewrite Hcs. by destruct b.
Qed.

Lemma tls_peer_reading k iv sent0 acc infl w wire (j : R) r0 :
  tls_accepted k iv 0 sent0 w acc infl -> sent (t_inner w) = sent0 ++ wire -> incoming j = wire ->
  t_inner r0 = j -> read_phase r0 = RPHASE_HEADER -> header_pos r0 = 0%nat -> length (header_buf r0) = 5%nat ->
  in_crypter r0 = k -> in_iv r0 = iv -> in_seq r0 = 0 ->
  tls_reading k iv (bool_decide (infl = None)) (acc ++ default [] infl) [] r0.
Proof.
  intros [ds [Hk Hiv Hds Ha Hc Hq Hp Hl Hb Hw Hg]] Hs Hj Hi Hph Hhp Hh Ek Eiv Eq. rewrite Hs, <- app_assoc in Hw. apply app_inv_head in Hw.
  assert (Hpart : partial r0 = []) by (unfold partial; by rewrite Hph, Hhp). assert (Hun : unread r0 = []) by (unfold unread; by rewrite Hph).
  exists (ds ++ option_list infl). split; rewrite ?Hpart, ?Hun, ?Hi, ?Hj, ?Eq; try done.
  - split; [done|intros _; lia|by rewrite Hph|right; by rewrite Hph].
  - apply Forall_app. split; [done|]. destruct infl; [by apply Forall_singleton|constructor].
  - rewrite concat_app, Ha. destruct infl; cbn; by rewrite ?app_nil_r.
  - cbn [app]. rewrite <- Hw. by eexists.
  - intros Hfull. bool_hyps. subst infl. rewrite Hb in Hw. cbn [from_option] in Hw. rewrite drop_nil, app_nil_r in Hw. exact Hw.
Qed.

Lemma tls_read_from_reading r0 r out k iv full acc :
  tls_reading k iv full acc [] r0 -> tls_read_from r0 r out -> tls_reading k iv full acc out r.
Proof.
  intros Hr0. induction 1 as [|r out fuel n r' c _ IH Hf Hr|r out fuel n r' _ IH Hf Hr]; [done|..].
  - destruct (tls_read_loop_ok _ _ _ _ _ _ _ n IH Hf) as (s' & x & Hx & Hp). rewrite Hr in Hx. injection Hx as <- <-. apply Hp.
  - destruct (tls_read_loop_ok _ _ _ _ _ _ _ n IH Hf) as (s' & x & Hx & Hp). rewrite Hr in Hx. injection Hx as <- <-. apply Hp.
Qed.

(** C15. The TLS 1.3 stream carries bytes.
    Let one side ([b], client or server) write with the keys of a handshake over any
    transport, with partial and pending writes, retrying a pending write with the same
    bytes, and let the other side read what arrived.  Construction does not panic; every
    read ends within two records, and gives the bytes that were accepted, in order and
    once (of a pending write those of its first record).  A read fails only when the
    transport does, or with an unexpected end of file when the transport is at its end,
    all that was accepted having been read if no write was pending; no read reports a clean
    end, because the writer sends no close_notify. *)
Theorem tls13_stream_delivers cs keys b (i0 : W) :
  app_keys_fit cs keys ->
  exists w0, with_role i0 keys b = Ok w0 /\ forall w acc pend, tls_writing w0 w acc pend ->
  exists wire, sent (t_inner w) = sent i0 ++ wire /\ forall j : R, incoming j = wire ->
  exists r0, with_role j keys (negb b) = Ok r0 /\ forall r out n fuel, tls_read_from r0 r out -> (2 <= fuel)%nat ->
  exists r' x, tls_read_loop fuel r n = Some (r', x) /\
  match x with
  | Ready (Ok c) => out ++ c `prefix_of` acc ++ default [] pend /\ (c = [] -> n = 0%nat)
  | Ready (Err e) => (e = UnexpectedEof /\ incoming (t_inner r') = [] /\ (pend = None -> out = acc)) \/ exists i m i', poll_read (S := R) i m = (i', Ready (Err e))
  | Ready Panic => False
  | Pending => out `prefix_of` acc ++ default [] pend
  end.
Proof.
  intros Hfit. destruct (with_role_ok i0 cs keys b Hfit) as (w0 & Hw0 & Hi0 & Hb & Hpos & Hlen & _ & _ & _ & Hok & Hoiv & Hoq & _). exists w0. split; [done|]. intros w acc pend Hw.
  assert (H0' : tls_accepted (direction_key keys b) (direction_iv keys b) 0 (sent (t_inner w0)) w0 [] None).
  { exists []. split; cbn; rewrite ?Hb, ?Hpos, ?Hlen; try done. }
  destruct (tls_writing_accepted _ _ _ _ _ _ H0' Hw) as (infl & Ha & Hi). pose proof Ha as [ds Hds]. destruct (tw_grows _ _ _ _ _ _ _ _ Hds) as [wire Hwire].
  exists wire. rewrite <- Hi0. split; [done|]. intros j Hj.
  destruct (with_role_ok j cs keys (negb b) Hfit) as (r0 & Hr0 & Hij & _ & _ & _ & Hph & Hhp & Hh & _ & _ & _ & Hik & Hiiv & Hiq). rewrite negb_involutive in Hik, Hiiv.
  exists r0. split; [done|]. intros r out n fuel Hr Hf.
  pose proof (tls_peer_reading _ _ _ _ _ _ wire j r0 Ha Hwire Hj Hij Hph Hhp Hh Hik Hiiv Hiq) as Hrd. apply (tls_read_from_reading _ _ _ _ _ _ _ Hrd) in Hr.
  destruct (tls_read_loop_ok _ _ _ _ _ fuel r n Hr Hf) as (r' & x & Hx & Hpost). exists r', x. split; [done|].
  assert (Hpre : forall o s, tls_reading (direction_key keys b) (direction_iv keys b) (bool_decide (infl = None)) (acc ++ default [] infl) o s -> o `prefix_of` acc ++ default [] pend).
  { intros o s [ds' Hs]. etrans; [rewrite (tr_acc _ _ _ _ _ _ _ Hs) in *; by eexists|]. rewrite <- (tr_acc _ _ _ _ _ _ _ Hs). apply prefix_app.
    destruct infl as [d|]; [|apply prefix_nil]. by destruct (Hi d eq_refl) as (b' & -> & Hp). }
  destruct x as [[c|e|]|]; cbn in Hpost; try done.
  - destruct Hpost as [Hs Hn]. split; [by eapply Hpre|done].
  - destruct Hpost as [(-> & Hin & Hfull)|He]; [left|by right]. split_and!; [done..|]. intros ->.
    destruct infl as [d|]; [by destruct (Hi d eq_refl) as (? & ? & _)|]. cbn in Hfull. rewrite app_nil_r in Hfull. by apply Hfull.
  - by eapply Hpre.
Qed.
End Session.

(** ** A concrete stream *)

Definition toy_keys : AppKeys := mkAppKeys Aes128GcmSha256 (replicate 16 1) (replicate 12 2) (replicate 16 3) (replicate 12 4).

Lemma toy_keys_fit : app_keys_fit Aes128GcmSha256 toy_keys.
Proof. by split. Qed.

Definition toy_stream (i : Script) (server : bool) : Tls13Stream Script :=
  mkTls i Aes128GcmSha256 (mkKey Aes128Gcm (replicate 16 1)) (replicate 12 2) 0 (mkKey Aes128Gcm (replicate 16 3)) (replicate 12 4) 0
    [] 0 (replicate 5 0) 0 [] 0 RPHASE_HEADER [] 0 0 server.

(** A transport that takes three bytes, stops, takes five and then the rest. *)
Definition toy_transport : Script := mkScript [] [Some 3%nat; None; Some 5%nat] [].
Definition toy_pending : Tls13Stream Script := (tls_poll_write (toy_stream toy_transport false) [7; 8; 9]).1.
Definition toy_done : Tls13Stream Script := (tls_poll_write toy_pending [7; 8; 9; 10]).1.

Lemma tls13_stream_delivers_witness :
  exists wire, sent (t_inner toy_done) = wire /\ forall j : Script, incoming j = wire ->
  exists r0, with_role j toy_keys true = Ok r0 /\ exists r' x, tls_read_loop 2 r0 100 = Some (r', x) /\
    match x with
    | Ready (Ok c) => [] ++ c `prefix_of` [7; 8; 9] ++ [] /\ (c = [] -> 100%nat = 0%nat)
    | Ready (Err e) => (e = UnexpectedEof /\ incoming (t_inner r') = [] /\ (@None bytes = None -> [] = [7; 8; 9])) \/ exists i m i', poll_read (S := Script) i m = (i', Ready (Err e))
    | Ready Panic => False
    | Pending => [] `prefix_of` [7; 8; 9] ++ []
    end.
Proof.
  destruct (tls13_stream_delivers (R := Script) Aes128GcmSha256 toy_keys false toy_transport toy_keys_fit) as (w0 & Hw0 & Hall).
  assert (Hw : w0 = toy_stream toy_transport false) by (vm_compute in Hw0; injection Hw0 as <-; reflexivity). subst w0.
  destruct (Hall toy_done [7; 8; 9] None) as (wire & Hwire & Hread).
  { apply (tls_writing_write _ toy_pending [] (Some [7; 8; 9]) [7; 8; 9; 10] toy_done 3%nat).
    - apply (tls_writing_wait _ (toy_stream toy_transport false) [] None [7; 8; 9]); [apply tls_writing_start|intros ? [=]|vm_compute; reflexivity].
    - intros x [= <-]. exists [10]. reflexivity.
    - vm_compute. reflexivity. }
  exists wire. split; [exact Hwire|]. intros j Hj. destruct (Hread j Hj) as (r0 & Hr0 & Hr). exists r0. split; [exact Hr0|].
  apply (Hr r0 [] 100%nat 2%nat); [apply tls_read_start|lia].
Defined.

(** What the reader makes of it, in two pieces. *)
Example toy_read :
  match tls_read_loop 2 (toy_stream (mkScript [Some (take 9 (AsyncIo.wire (t_inner toy_done))); Some (drop 9 (AsyncIo.wire (t_inner toy_done)))] [] []) true) 100 with
  | Some (_, Ready (Ok c)) => c = [7; 8; 9]
  | _ => False
  end.
Proof. vm_compute. reflexivity. Qed.

(** A close_notify is read as the end of the stream once; the record stays in place,
    and the next read decrypts it again, with the next sequence number. *)
Example closed_twice :
  let alert := encrypt_app_record_with (mkKey Aes128Gcm (replicate 16 1)) (replicate 12 2) 0 [1; 0] RT_ALERT in
  match tls_read_loop 2 (toy_stream (mkScript [Some alert] [] []) true) 100 with
  | Some (s, Ready (Ok c)) => c = [] /\
      match tls_read_loop 2 s 100 with Some (_, Ready (Err e)) => e = InvalidData | _ => False end
  | _ => False
  end.
Proof. vm_compute. split; reflexivity. Qed.

(** A write that is given up after [Pending] and followed by another one: the new bytes
    are reported as written, and the old ones were. *)
Example abandoned_write :
  match tls_poll_write toy_pending [1; 2; 3] with
  | (s, Ready (Ok n)) => n = 3%nat /\ AsyncIo.wire (t_inner s) = AsyncIo.wire (t_inner toy_done)
  | _ => False
  end.
Proof. vm_compute. split; reflexivity. Qed.

(** A stream whose transport can be given back loses nothing: what it hands out are the
    bytes that it still would have delivered and the transport at the next record. *)
Lemma unwrap_lossless {R} `{HA : AeadLaws} `{ReadSpec R} k iv full acc out ds (s : Tls13Stream R) i prefix :
  tls_reads k iv full acc out ds s -> try_unwrap_direct s = inl (i, prefix) ->
  acc = out ++ prefix ++ concat ds /\ incoming i `prefix_of` app_records k iv (in_seq s) ds.
Proof.
  intros [Hk Hiv Hsh Hds Ha Hw Hf]. unfold try_unwrap_direct, direct_copy_ready, unread, partial in *.
  destruct (t_write_buf s); [|done]. destruct (read_phase s); [|destruct (Nat.eqb_spec (header_pos s) 0) as [Hz|]; [|done]|done].
  - intros [= <- <-]. split; [|done]. rewrite Ha. case_match eqn:E; bool_hyps; [done|]. by rewrite drop_ge.
  - intros [= <- <-]. rewrite Hz in Hw. cbn in Hw. by split.
Qed.
