(* ===== verification/Grpc.v ===== *)
(** * The gRPC transport

    [blackwire-transport] [grpc.rs]: the frames of the Gun protocol (a gRPC length prefix
    around a protobuf message with one field) and [GrpcStream], poll by poll, over a byte
    stream or over a stream of the [h2] crate, which is an interface. *)

From S2P Require Import Prelude Common AsyncIo.

Definition MAX_MESSAGE_SIZE : Z := 16 * 1024 * 1024.
Definition FRAME_HEADER_LEN : nat := 5.
Definition BRIDGE_READ_CHUNK : nat := Z.to_nat (64 * 1024).
Definition COALESCE_TARGET_BYTES : nat := Z.to_nat (16 * 1024).

(** ** Frames *)

(** A function that appends to [buf] is the bytes it appends. *)
Definition append_grpc_frame (payload : bytes) : bytes := [0x00] ++ be_bytes 4 (as_u32 (zlen payload)) ++ payload.

Definition encode_grpc_frame (payload : bytes) : bytes := append_grpc_frame payload.

Definition append_grpc_frame_prefix (payload_len : Z) : bytes := [0x00] ++ be_bytes 4 (as_u32 payload_len).

(** The loop of [put_varint]: a [u64] has at most ten groups of seven bits. *)
Fixpoint put_groups (fuel : nat) (val : Z) : bytes :=
  match fuel with
  | O => []
  | S fuel =>
      let byte := as_u8 (Z.land val 0x7F) in
      let val := Z.shiftr val 7 in
      if val =? 0 then [byte] else Z.lor byte 0x80 :: put_groups fuel val
  end.

Definition put_varint (val : Z) : bytes := put_groups 10 val.

Fixpoint get_groups (buf : bytes) (i : nat) (val shift : Z) : option (Z * nat) :=
  match buf with
  | [] => None
  | byte :: buf =>
      if 64 <=? shift then None
      else
        let val := Z.lor val (as_u64 (Z.shiftl (Z.land byte 0x7F) shift)) in
        if Z.land byte 0x80 =? 0 then Some (val, S i) else get_groups buf (S i) val (shift + 7)
  end.

Definition get_varint (buf : bytes) : option (Z * nat) := get_groups buf 0 0 0.

Definition append_hunk (data : bytes) : bytes := [0x0A] ++ put_varint (zlen data) ++ data.

(** The end of the data is computed in a [usize]. *)
Definition decode_hunk (payload : bytes) : res ProxyError bytes :=
  match payload with
  | [] => Ok []
  | tag :: rest =>
      if negb (tag =? 0x0A) then Err (Protocol "gRPC Gun: expected Hunk field tag 0x0A") else
      '(data_len, varint_len) ← of_option (Protocol "gRPC Gun: truncated or oversized Hunk varint") (get_varint rest);
      let offset := (1 + varint_len)%nat in
      let end_ := as_u64 (Z.of_nat offset + data_len) in
      if zlen payload <? end_ then Err (Protocol "gRPC Gun: Hunk data extends past message boundary")
      else slice payload offset (Z.to_nat end_)
  end.

(** The payload of the next frame and what follows it. *)
Definition decode_grpc_frame (buf : bytes) : res ProxyError (option (bytes * bytes)) :=
  if (length buf <? FRAME_HEADER_LEN)%nat then Ok None else
  compressed ← idx buf 0;
  if negb (compressed =? 0x00) then Err (Transport "gRPC: compressed frames not supported") else
  len_bytes ← slice buf 1 5;
  let len := be_val len_bytes in
  if MAX_MESSAGE_SIZE <? len then Err (Transport "gRPC: message too large") else
  let total := (FRAME_HEADER_LEN + Z.to_nat len)%nat in
  if (length buf <? total)%nat then Ok None
  else
    let buf := drop FRAME_HEADER_LEN buf in
    Ok (Some (take (Z.to_nat len) buf, drop (Z.to_nat len) buf)).

(** ** The streams of [h2] *)

Class H2Stream (H : Type) : Type := {
  reserve_capacity : H -> nat -> H;
  poll_capacity : H -> H * poll (option (res io_error nat));
  send_data : H -> bytes -> H * res io_error unit;
  poll_data : H -> H * poll (option (res io_error bytes));
  release_capacity : H -> nat -> H;
  send_trailers : H -> H * res io_error unit
}.

(** What it promises: data arrives in order until the stream ends, in finitely many
    frames, which may be empty, and data that was accepted for sending is sent. *)
Class H2Spec (H : Type) `{H2Stream H} : Type := {
  h2_incoming : H -> bytes;
  h2_frames : H -> nat;
  h2_sent : H -> bytes;
  poll_data_chunk h h' c : poll_data h = (h', Ready (Some (Ok c))) -> h2_incoming h = c ++ h2_incoming h' /\ (h2_frames h' < h2_frames h)%nat;
  poll_data_end h h' : poll_data h = (h', Ready None) -> h2_incoming h = [] /\ h2_incoming h' = [];
  poll_data_pending h h' : poll_data h = (h', Pending) -> h2_incoming h' = h2_incoming h;
  poll_data_no_panic h h' : poll_data h <> (h', Ready (Some Panic));
  release_incoming h n : h2_incoming (release_capacity h n) = h2_incoming h /\ h2_frames (release_capacity h n) = h2_frames h;
  reserve_sent h n : h2_sent (reserve_capacity h n) = h2_sent h;
  poll_capacity_sent h h' r : poll_capacity h = (h', r) -> h2_sent h' = h2_sent h;
  poll_capacity_no_panic h h' : poll_capacity h <> (h', Ready (Some Panic));
  send_data_ok h h' c : send_data h c = (h', Ok tt) -> h2_sent h' = h2_sent h ++ c;
  send_data_no_panic h h' c : send_data h c <> (h', Panic);
  send_trailers_sent h h' r : send_trailers h = (h', r) -> h2_sent h' = h2_sent h;
  send_trailers_no_panic h h' : send_trailers h <> (h', Panic)
}.

Inductive GrpcInner (S H : Type) : Type :=
| Io_ (inner : S)
| H2 (h : H).
Arguments Io_ {S H} _.
Arguments H2 {S H} _.

Record GrpcStream (S H : Type) : Type := mkGrpc {
  g_inner : GrpcInner S H;
  recv_buf : bytes;
  g_read_buf : bytes;
  pending_plain : bytes;
  pending_plain_pos : nat;
  g_write_buf : bytes;
  g_write_buf_pos : nat
}.
Arguments mkGrpc {S H} _ _ _ _ _ _ _.
Arguments g_inner {S H} _.
Arguments recv_buf {S H} _.
Arguments g_read_buf {S H} _.
Arguments pending_plain {S H} _.
Arguments pending_plain_pos {S H} _.
Arguments g_write_buf {S H} _.
Arguments g_write_buf_pos {S H} _.

Section Stream.
Context {S H : Type}.
Implicit Types s : GrpcStream S H.

(** [with_inner] *)
Definition grpc_new (inner : GrpcInner S H) : GrpcStream S H := mkGrpc inner [] [] [] 0 [] 0.

Definition set_inner (i : GrpcInner S H) s : GrpcStream S H :=
  mkGrpc i (recv_buf s) (g_read_buf s) (pending_plain s) (pending_plain_pos s) (g_write_buf s) (g_write_buf_pos s).
Definition set_reading (recv read : bytes) s : GrpcStream S H :=
  mkGrpc (g_inner s) recv read (pending_plain s) (pending_plain_pos s) (g_write_buf s) (g_write_buf_pos s).
Definition set_pending (plain : bytes) (pos : nat) s : GrpcStream S H :=
  mkGrpc (g_inner s) (recv_buf s) (g_read_buf s) plain pos (g_write_buf s) (g_write_buf_pos s).
Definition set_write (buf : bytes) (pos : nat) s : GrpcStream S H :=
  mkGrpc (g_inner s) (recv_buf s) (g_read_buf s) (pending_plain s) (pending_plain_pos s) buf pos.

Definition ingest_h2_chunk (chunk : bytes) s : GrpcStream S H := set_reading (recv_buf s ++ chunk) (g_read_buf s) s.

(** *** Reading *)

(** [Ok (Some c)]: [c] was copied into the buffer of the caller, which has room for [n]
    bytes.  Every round but the last takes a frame. *)
Fixpoint serve_loop (fuel : nat) (n : nat) s : GrpcStream S H * res io_error (option bytes) :=
  match fuel with
  | O => (s, Panic)
  | Datatypes.S fuel =>
      match g_read_buf s with
      | _ :: _ =>
          let k := Nat.min (length (g_read_buf s)) n in
          (set_reading (recv_buf s) (drop k (g_read_buf s)) s, Ok (Some (take k (g_read_buf s))))
      | [] =>
          match decode_grpc_frame (recv_buf s) with
          | Err _ => (s, Err InvalidData)
          | Panic => (s, Panic)
          | Ok (Some (payload, rest)) =>
              let s := set_reading rest [] s in
              match payload with
              | [] => (s, Ok None)
              | _ :: _ =>
                  match decode_hunk payload with
                  | Ok data => serve_loop fuel n (set_reading rest data s)
                  | Err _ => (s, Err InvalidData)
                  | Panic => (s, Panic)
                  end
              end
          | Ok None => (s, Ok None)
          end
      end
  end.

Definition serve_decoded_frames (n : nat) s : GrpcStream S H * res io_error (option bytes) :=
  serve_loop (2 + length (recv_buf s)) n s.

Section Reading.
Context `{AsyncRead S} `{H2Stream H}.

(** The loop of [poll_read]; [None] after [fuel] rounds. *)
Fixpoint grpc_read_loop (fuel : nat) s (n : nat) : option (GrpcStream S H * poll (res io_error bytes)) :=
  match fuel with
  | O => None
  | Datatypes.S fuel =>
      match serve_decoded_frames n s with
      | (s, Ok (Some c)) => Some (s, Ready (Ok c))
      | (s, Err e) => Some (s, Ready (Err e))
      | (s, Panic) => Some (s, Ready Panic)
      | (s, Ok None) =>
          match g_inner s with
          | Io_ inner =>
              match poll_read inner BRIDGE_READ_CHUNK with
              | (i, Pending) => Some (set_inner (Io_ i) s, Pending)
              | (i, Ready (Err e)) => Some (set_inner (Io_ i) s, Ready (Err e))
              | (i, Ready Panic) => Some (set_inner (Io_ i) s, Ready Panic)
              | (i, Ready (Ok [])) => Some (set_inner (Io_ i) s, Ready (Ok []))
              | (i, Ready (Ok tmp)) => grpc_read_loop fuel (ingest_h2_chunk tmp (set_inner (Io_ i) s)) n
              end
          | H2 h =>
              match poll_data h with
              | (h, Pending) => Some (set_inner (H2 h) s, Pending)
              | (h, Ready None) => Some (set_inner (H2 h) s, Ready (Ok []))
              | (h, Ready (Some (Err e))) => Some (set_inner (H2 h) s, Ready (Err e))
              | (h, Ready (Some Panic)) => Some (set_inner (H2 h) s, Ready Panic)
              | (h, Ready (Some (Ok chunk))) =>
                  grpc_read_loop fuel (ingest_h2_chunk chunk (set_inner (H2 (release_capacity h (length chunk))) s)) n
              end
          end
      end
  end.
End Reading.

(** *** Writing *)

(** The bytes of the varint of a length: a [u64] is shifted at most nine times. *)
Fixpoint varint_len_loop (fuel : nat) (remaining : Z) (varint_len : nat) : nat :=
  match fuel with
  | O => varint_len
  | Datatypes.S fuel => if 0x80 <=? remaining then varint_len_loop fuel (Z.shiftr remaining 7) (varint_len + 1) else varint_len
  end.

(** The loop over [pending_plain]: every round takes at least a byte. *)
Fixpoint encode_loop (fuel : nat) (force : bool) s : GrpcStream S H :=
  match fuel with
  | O => s
  | Datatypes.S fuel =>
      let available := (length (pending_plain s) - pending_plain_pos s)%nat in
      if ((pending_plain_pos s <? length (pending_plain s))%nat && (force || (COALESCE_TARGET_BYTES <=? available)%nat)) then
        let payload_len := Z.to_nat (Z.min (Z.of_nat available) MAX_MESSAGE_SIZE) in
        let varint_len := varint_len_loop 9 (Z.of_nat payload_len) 1 in
        let hunk_len := (1 + varint_len + payload_len)%nat in
        let start := pending_plain_pos s in
        let data := take payload_len (drop start (pending_plain s)) in
        let s := set_pending (pending_plain s) (start + payload_len) s in
        encode_loop fuel force
          (set_write (g_write_buf s ++ append_grpc_frame_prefix (Z.of_nat hunk_len) ++ append_hunk data) (g_write_buf_pos s) s)
      else s
  end.

Definition encode_pending_plain_into_frames (force : bool) s : GrpcStream S H :=
  let s := encode_loop (length (pending_plain s)) force s in
  if (length (pending_plain s) <=? pending_plain_pos s)%nat then set_pending [] 0 s else s.

(** A buffer that is written out is emptied. *)
Definition clear_written s : GrpcStream S H :=
  if (length (g_write_buf s) <=? g_write_buf_pos s)%nat then set_write [] 0 s else s.

Section Writing.
Context `{AsyncWrite S} `{H2Stream H}.

(** The loop that writes out [write_buf] on a byte stream. *)
Fixpoint drain_io (fuel : nat) (inner : S) s : GrpcStream S H * poll (res io_error unit) :=
  if (length (g_write_buf s) <=? g_write_buf_pos s)%nat then (s, Ready (Ok tt))
  else
    match fuel with
    | O => (s, Ready Panic)
    | Datatypes.S fuel =>
        match poll_write inner (drop (g_write_buf_pos s) (g_write_buf s)) with
        | (i, Pending) => (set_inner (Io_ i) s, Pending)
        | (i, Ready (Err e)) => (set_inner (Io_ i) s, Ready (Err e))
        | (i, Ready Panic) => (set_inner (Io_ i) s, Ready Panic)
        | (i, Ready (Ok O)) => (set_inner (Io_ i) s, Ready (Err WriteZero))
        | (i, Ready (Ok n)) => drain_io fuel i (set_write (g_write_buf s) (g_write_buf_pos s + n) (set_inner (Io_ i) s))
        end
    end.

(** The loop of [flush_h2_send]. *)
Fixpoint drain_h2 (fuel : nat) (h : H) s : GrpcStream S H * poll (res io_error unit) :=
  if (length (g_write_buf s) <=? g_write_buf_pos s)%nat then (s, Ready (Ok tt))
  else
    match fuel with
    | O => (s, Ready Panic)
    | Datatypes.S fuel =>
        let pending := (length (g_write_buf s) - g_write_buf_pos s)%nat in
        match poll_capacity (reserve_capacity h pending) with
        | (h, Pending) => (set_inner (H2 h) s, Pending)
        | (h, Ready None) => (set_inner (H2 h) s, Ready (Err WriteZero))
        | (h, Ready (Some (Err e))) => (set_inner (H2 h) s, Ready (Err e))
        | (h, Ready (Some Panic)) => (set_inner (H2 h) s, Ready Panic)
        | (h, Ready (Some (Ok O))) => (set_inner (H2 h) s, Pending)
        | (h, Ready (Some (Ok cap))) =>
            let n := Nat.min cap pending in
            let chunk := take n (drop (g_write_buf_pos s) (g_write_buf s)) in
            let s := set_write (g_write_buf s) (g_write_buf_pos s + n) s in
            match send_data h chunk with
            | (h, Ok _) => drain_h2 fuel h (set_inner (H2 h) s)
            | (h, Err e) => (set_inner (H2 h) s, Ready (Err e))
            | (h, Panic) => (set_inner (H2 h) s, Ready Panic)
            end
        end
    end.

Definition flush_h2_send s : GrpcStream S H * poll (res io_error unit) :=
  match g_inner s with
  | Io_ _ => (s, Ready (Ok tt))
  | H2 h =>
      match drain_h2 (length (g_write_buf s)) h s with
      | (s, Ready (Ok _)) => (clear_written s, Ready (Ok tt))
      | r => r
      end
  end.

Definition grpc_poll_write s (buf : bytes) : GrpcStream S H * poll (res io_error nat) :=
  let n := Z.to_nat (Z.min (zlen buf) MAX_MESSAGE_SIZE) in
  let s := encode_pending_plain_into_frames true (set_pending (pending_plain s ++ take n buf) (pending_plain_pos s) s) in
  match g_inner s with
  | Io_ inner =>
      match drain_io (length (g_write_buf s)) inner s with
      | (s, Ready (Err e)) => (s, Ready (Err e))
      | (s, Ready Panic) => (s, Ready Panic)
      | (s, Pending) | (s, Ready (Ok _)) => (clear_written s, Ready (Ok n))
      end
  | H2 _ =>
      match flush_h2_send s with
      | (s, Ready (Err e)) => (s, Ready (Err e))
      | (s, Ready Panic) => (s, Ready Panic)
      | (s, Pending) | (s, Ready (Ok _)) => (s, Ready (Ok n))
      end
  end.

Definition grpc_poll_flush s : GrpcStream S H * poll (res io_error unit) :=
  let s := encode_pending_plain_into_frames true s in
  match g_inner s with
  | Io_ inner =>
      match drain_io (length (g_write_buf s)) inner s with
      | (s, Ready (Ok _)) =>
          let s := clear_written s in
          match g_inner s with
          | Io_ inner => let '(i, r) := poll_flush inner in (set_inner (Io_ i) s, r)
          | H2 _ => (s, Ready (Ok tt))
          end
      | r => r
      end
  | H2 _ => flush_h2_send s
  end.

Definition grpc_poll_shutdown s : GrpcStream S H * poll (res io_error unit) :=
  let s := encode_pending_plain_into_frames true s in
  match g_inner s with
  | Io_ inner => let '(i, r) := poll_shutdown inner in (set_inner (Io_ i) s, r)
  | H2 _ =>
      match flush_h2_send s with
      | (s, Ready (Ok _)) =>
          match g_inner s with
          | H2 h => let '(h, r) := send_trailers h in (set_inner (H2 h) s, Ready r)
          | Io_ _ => (s, Ready (Ok tt))
          end
      | r => r
      end
  end.
End Writing.
End Stream.

(** * Facts *)

(** ** Varints *)

Lemma get_put_groups fuel v rest i val shift :
  (0 < fuel)%nat -> 0 <= v < 2 ^ (7 * Z.of_nat fuel) -> 0 <= shift -> v * 2 ^ shift < 2 ^ 64 -> 0 <= val < 2 ^ shift -> shift < 64 ->
  get_groups (put_groups fuel v ++ rest) i val shift = Some (val + v * 2 ^ shift, (i + length (put_groups fuel v))%nat).
Proof.
  revert v i val shift. induction fuel as [|fuel IH]; intros v i val shift Hf Hv Hs Hmax Hval Hs64; [lia|]. cbn [put_groups]. cbv zeta.
  assert (Hp : 0 < 2 ^ shift) by (apply Z.pow_pos_nonneg; lia).
  change (Z.land v 127) with (Z.land v (Z.ones 7)). rewrite Z.land_ones, Z.shiftr_div_pow2 by lia. change (2 ^ 7) with 128.
  pose proof (Z.mod_pos_bound v 128 ltac:(lia)) as Hm. pose proof (Z.div_mod v 128 ltac:(lia)) as Hdm.
  replace (as_u8 (v mod 128)) with (v mod 128) by (unfold as_u8; rewrite (Z.mod_small (v mod 128)); lia).
  assert (Hlor : Z.lor val (as_u64 (Z.shiftl (v mod 128) shift)) = val + (v mod 128) * 2 ^ shift).
  { rewrite Z.shiftl_mul_pow2 by lia. unfold as_u64. rewrite (Z.mod_small (_ * _)); [by apply lor_shiftl_add|]. split; [nia|]. assert (v mod 128 <= v) by (apply Z.mod_le; lia). nia. }
  destruct (Z.eqb_spec (v / 128) 0) as [Hz|Hnz]; cbn [app get_groups length]; rewrite (proj2 (Z.leb_gt 64 shift)) by lia.
  - rewrite byte_low7, byte_high_clear, Z.mod_mod by (unfold in_u8; lia). rewrite Hlor, (proj2 (Z.ltb_lt _ _)) by lia.
    do 2 f_equal; [|lia]. f_equal. f_equal. lia.
  - rewrite byte_set_high, Z.mod_mod by (unfold in_u8; lia). rewrite byte_low7, byte_high_clear by (unfold in_u8; lia).
    replace ((v mod 128 + 128) mod 128) with (v mod 128) by (rewrite <- (Z.mul_1_l 128) at 3; rewrite Z.mod_add, Z.mod_mod by lia; done).
    rewrite Hlor, (proj2 (Z.ltb_ge _ _)) by lia.
    assert (Hs7 : shift + 7 < 64).
    { apply (Z.pow_lt_mono_r_iff 2); [lia..|]. rewrite Z.pow_add_r by lia. change (2 ^ 7) with 128. nia. }
    replace (7 * Z.of_nat (S fuel)) with (7 + 7 * Z.of_nat fuel) in Hv by lia. rewrite Z.pow_add_r in Hv by lia. change (2 ^ 7) with 128 in Hv.
    rewrite IH; [|destruct fuel; [|lia]; cbn in Hv; lia|split; [apply Z.div_pos; lia|apply Z.div_lt_upper_bound; lia]|lia| | |done].
    2,3: rewrite Z.pow_add_r by lia; change (2 ^ 7) with 128; nia.
    do 2 f_equal; [|lia]. rewrite Z.pow_add_r by lia. change (2 ^ 7) with 128. nia.
Qed.

Lemma get_put_varint v rest : 0 <= v < 2 ^ 64 -> get_varint (put_varint v ++ rest) = Some (v, length (put_varint v)).
Proof.
  intros Hv. unfold get_varint, put_varint. rewrite get_put_groups; [|lia..]. do 2 f_equal. lia.
Qed.

Lemma varint_len_groups fuel v k : 0 <= v -> (varint_len_loop fuel v k + 1 = k + length (put_groups (S fuel) v))%nat.
Proof.
  revert v k. induction fuel as [|fuel IH]; intros v k Hv; cbn [varint_len_loop put_groups]; cbv zeta.
  { case_match; cbn; lia. }
  rewrite Z.shiftr_div_pow2 by lia. change (2 ^ 7) with 128. destruct (Z.leb_spec 128 v) as [Hb|Hs].
  - assert (0 < v / 128) by (apply Z.div_str_pos; lia). rewrite IH by lia. destruct (Z.eqb_spec (v / 128) 0); [lia|]. cbn [length put_groups]. lia.
  - rewrite Z.div_small by lia. cbn. lia.
Qed.

Lemma varint_len v : 0 <= v -> varint_len_loop 9 v 1 = length (put_varint v).
Proof. intros Hv. pose proof (varint_len_groups 9 v 1 Hv). unfold put_varint. lia. Qed.

Lemma put_groups_length fuel v : 0 <= v < 2 ^ (7 * Z.of_nat fuel) -> (length (put_groups 10 v) <= Nat.max 1 fuel)%nat.
Proof.
  enough (Hg : forall n, 0 <= v < 2 ^ (7 * Z.of_nat fuel) -> (length (put_groups n v) <= Nat.max 1 fuel)%nat) by apply Hg.
  revert v. induction fuel as [|fuel IH]; intros v [|n] Hv; cbn [put_groups]; cbv zeta; try (cbn; lia).
  { change (2 ^ (7 * Z.of_nat 0)) with 1 in Hv. replace v with 0 by lia. rewrite Z.shiftr_0_l. cbn. lia. }
  rewrite Z.shiftr_div_pow2 by lia. change (2 ^ 7) with 128. destruct (Z.eqb_spec (v / 128) 0) as [|Hnz]; [cbn; lia|]. cbn [length].
  replace (7 * Z.of_nat (S fuel)) with (7 + 7 * Z.of_nat fuel) in Hv by lia. rewrite Z.pow_add_r in Hv by lia. change (2 ^ 7) with 128 in Hv.
  destruct fuel as [|fuel]; [cbn in Hv; exfalso; apply Hnz, Z.div_small; lia|].
  pose proof (IH (v / 128) n) as Hl. specialize (Hl ltac:(split; [apply Z.div_pos; lia|apply Z.div_lt_upper_bound; lia])). lia.
Qed.

(** ** Frames *)

Lemma decode_hunk_append data : zlen data < 2 ^ 63 -> decode_hunk (append_hunk data) = Ok data.
Proof.
  intros Hd. unfold decode_hunk, append_hunk. cbn [app]. cbn [Z.eqb Pos.eqb negb].
  assert (Hz : 0 <= zlen data) by (unfold zlen; lia). rewrite get_put_varint by lia. cbn [of_option]. mred.
  pose proof (put_groups_length 10 (zlen data) ltac:(lia)) as Hl. fold (put_varint (zlen data)) in Hl. set (vi := put_varint (zlen data)) in *.
  assert (He : as_u64 (Z.of_nat (1 + length vi) + zlen data) = Z.of_nat (1 + length vi + length data)).
  { unfold as_u64, zlen in *. rewrite Z.mod_small; lia. }
  rewrite He, (proj2 (Z.ltb_ge _ _)), Nat2Z.id by (unfold zlen; cbn [length]; rewrite !length_app; lia).
  rewrite (slice_drop (10 :: vi ++ data) 1 (length vi) (length vi + length data)) by (cbn; lia). cbn [drop].
  rewrite <- (app_nil_r (vi ++ data)), <- app_assoc. by rewrite (slice_mid vi data []).
Qed.

(** The decoder on a frame whose header is complete. *)
Lemma decode_grpc_header len y : 0 <= len < 2 ^ 32 ->
  decode_grpc_frame ([0] ++ be_bytes 4 (as_u32 len) ++ y) =
  if MAX_MESSAGE_SIZE <? len then Err (Transport "gRPC: message too large")
  else if (length y <? Z.to_nat len)%nat then Ok None else Ok (Some (take (Z.to_nat len) y, drop (Z.to_nat len) y)).
Proof.
  intros Hz. replace (as_u32 len) with len by (unfold as_u32; rewrite Z.mod_small; lia). unfold decode_grpc_frame.
  rewrite (proj2 (Nat.ltb_ge _ _)) by (rewrite !length_app, length_be_bytes; unfold FRAME_HEADER_LEN; cbn; lia).
  cbn [app]. rewrite idx_cons_0. mred. cbn [Z.eqb negb]. rewrite (slice_mid [0] (be_bytes 4 len) y) by (by rewrite ?length_be_bytes). mred.
  rewrite be_bytes_4_val by done. destruct (_ <? len); [done|].
  assert (Hl : length ([0] ++ be_bytes 4 len) = FRAME_HEADER_LEN) by (cbn [app length]; by rewrite length_be_bytes).
  rewrite (app_comm_cons (be_bytes 4 len) y 0). change (0 :: be_bytes 4 len) with ([0] ++ be_bytes 4 len). rewrite length_app, Hl, <- Hl, drop_app_length.
  destruct (Nat.ltb_spec (length y) (Z.to_nat len)), (Nat.ltb_spec (length ([0] ++ be_bytes 4 len) + length y) (length ([0] ++ be_bytes 4 len) + Z.to_nat len)); done || lia.
Qed.

Lemma decode_frame payload rest : zlen payload <= MAX_MESSAGE_SIZE -> decode_grpc_frame (append_grpc_frame payload ++ rest) = Ok (Some (payload, rest)).
Proof.
  intros Hp. unfold append_grpc_frame. rewrite <- !app_assoc, decode_grpc_header by (unfold zlen, MAX_MESSAGE_SIZE in *; lia).
  rewrite (proj2 (Z.ltb_ge _ _)) by done. unfold zlen. rewrite Nat2Z.id, length_app, (proj2 (Nat.ltb_ge _ _)) by lia. by rewrite take_app_length, drop_app_length.
Qed.

(** The decoder waits for the rest of a frame. *)
Lemma decode_partial payload x : zlen payload <= MAX_MESSAGE_SIZE -> x `prefix_of` append_grpc_frame payload -> (length x < length (append_grpc_frame payload))%nat ->
  decode_grpc_frame x = Ok None.
Proof.
  intros Hp [y Hx] Hl. destruct (Nat.ltb_spec (length x) FRAME_HEADER_LEN) as [Hs|Hh]; [unfold decode_grpc_frame; by rewrite (proj2 (Nat.ltb_lt _ _))|].
  unfold append_grpc_frame, FRAME_HEADER_LEN in *. rewrite !length_app, length_be_bytes in Hl. cbn [length] in Hl.
  assert (Hpre : take 5 x = [0] ++ be_bytes 4 (as_u32 (zlen payload))).
  { rewrite <- (take_app_le x y 5), <- Hx, app_assoc by lia. by rewrite take_app_length' by (by rewrite length_app, length_be_bytes). }
  rewrite <- (take_drop 5 x), Hpre, <- app_assoc, decode_grpc_header by (unfold zlen, MAX_MESSAGE_SIZE in *; lia).
  rewrite (proj2 (Z.ltb_ge _ _)), (proj2 (Nat.ltb_lt _ _)); [done|rewrite length_drop; unfold zlen; lia|done].
Qed.

Lemma decode_large payload rest : MAX_MESSAGE_SIZE < zlen payload < 2 ^ 32 -> decode_grpc_frame (append_grpc_frame payload ++ rest) = Err (Transport "gRPC: message too large").
Proof.
  intros Hp. unfold append_grpc_frame. rewrite <- !app_assoc, decode_grpc_header by (unfold MAX_MESSAGE_SIZE in *; lia). by rewrite (proj2 (Z.ltb_lt _ _)) by lia.
Qed.

(** ** What a stream carries *)

Definition frame (d : bytes) : bytes := encode_grpc_frame (append_hunk d).
Definition frames (ds : list bytes) : bytes := concat (frame <$> ds).

(** The payloads that fit into a message together with the tag and the length. *)
Definition frame_fits (d : bytes) : Prop := (0 < length d)%nat /\ zlen d <= MAX_MESSAGE_SIZE - 5.

Lemma length_hunk d : length (append_hunk d) = (1 + length (put_varint (zlen d)) + length d)%nat.
Proof. unfold append_hunk. rewrite !length_app. cbn. lia. Qed.

Lemma hunk_fits d : frame_fits d -> zlen (append_hunk d) <= MAX_MESSAGE_SIZE.
Proof.
  intros [_ Hd]. unfold zlen at 1. rewrite length_hunk. pose proof (put_groups_length 4 (zlen d)) as Hl. unfold put_varint, MAX_MESSAGE_SIZE, zlen in *. lia.
Qed.

(** The frames that are written in place are those of [encode_grpc_frame]. *)
Lemma frame_in_place d :
  append_grpc_frame_prefix (Z.of_nat (1 + varint_len_loop 9 (Z.of_nat (length d)) 1 + length d)) ++ append_hunk d = frame d.
Proof.
  rewrite varint_len by lia. unfold frame, encode_grpc_frame, append_grpc_frame, append_grpc_frame_prefix. fold (zlen d).
  rewrite <- length_hunk. by rewrite <- app_assoc.
Qed.

Lemma frame_nonempty d : (0 < length (frame d))%nat.
Proof. unfold frame, encode_grpc_frame, append_grpc_frame. cbn. lia. Qed.

Lemma grpc_frames_snoc ds d : frames (ds ++ [d]) = frames ds ++ frame d.
Proof. unfold frames. rewrite fmap_app, concat_app. cbn. by rewrite app_nil_r. Qed.

Lemma prefix_split {A} (x a b : list A) : x `prefix_of` a ++ b ->
  ((length x < length a)%nat /\ x `prefix_of` a) \/ exists y, x = a ++ y /\ y `prefix_of` b.
Proof.
  intros [z Hx]. destruct (Nat.lt_ge_cases (length x) (length a)) as [Hl|Hl]; [left|right].
  - split; [done|]. exists (drop (length x) a). rewrite <- (take_drop (length x) a) at 1. f_equal.
    rewrite <- (take_app_le a b), Hx by lia. apply take_app_length.
  - exists (drop (length a) x). rewrite <- (take_drop (length a) x) in Hx at 1. rewrite <- app_assoc in Hx.
    apply app_inj_1 in Hx as [Ha Hb]; [|rewrite length_take; lia]. split; [by rewrite Ha at 1; rewrite take_drop|]. by exists z.
Qed.

(** ** The writer *)

Section Writer.
Context {W G : Type} `{HW : WriteSpec W} `{HG : H2Spec G}.
Implicit Types s : GrpcStream W G.

Definition inner_sent (i : GrpcInner W G) : bytes := match i with Io_ w => sent w | H2 h => h2_sent h end.

(** What was handed to the transport and what still waits for it. *)
Definition handed s : bytes := inner_sent (g_inner s) ++ drop (g_write_buf_pos s) (g_write_buf s).

Record grpc_writes (sent0 acc : bytes) (ds : list bytes) s : Prop := {
  gw_plain : pending_plain s = [];
  gw_plain_pos : pending_plain_pos s = 0%nat;
  gw_fits : Forall frame_fits ds;
  gw_acc : concat ds = acc;
  gw_handed : handed s = sent0 ++ frames ds;
  gw_pos : (g_write_buf_pos s <= length (g_write_buf s))%nat;
  gw_grows : sent0 `prefix_of` inner_sent (g_inner s)
}.

Definition grpc_accepted (sent0 acc : bytes) s : Prop := exists ds, grpc_writes sent0 acc ds s.

Definition drained s : Prop := g_write_buf s = [] /\ g_write_buf_pos s = 0%nat.

(** The loops that hand over [write_buf]. *)
Definition hand_post s s' (r : poll (res io_error unit)) : Prop :=
  match r with
  | Ready (Err _) => True
  | Ready Panic => False
  | _ => pending_plain s' = pending_plain s /\ pending_plain_pos s' = pending_plain_pos s /\ handed s' = handed s /\
         (g_write_buf_pos s' <= length (g_write_buf s'))%nat /\ (r = Ready (Ok tt) -> (length (g_write_buf s') <= g_write_buf_pos s')%nat) /\
         inner_sent (g_inner s) `prefix_of` inner_sent (g_inner s')
  end.

Lemma hand_post_step s s1 s' r :
  pending_plain s1 = pending_plain s -> pending_plain_pos s1 = pending_plain_pos s -> handed s1 = handed s ->
  inner_sent (g_inner s) `prefix_of` inner_sent (g_inner s1) -> hand_post s1 s' r -> hand_post s s' r.
Proof.
  intros Hp Hpp Hh Hi. unfold hand_post. destruct r as [[?|?|]|]; try done; rewrite Hp, Hpp, Hh; intros (?&?&?&?&?&?); split_and!; try done; by etrans.
Qed.

Lemma handed_advance s i n : (n <= length (drop (g_write_buf_pos s) (g_write_buf s)))%nat ->
  inner_sent i = inner_sent (g_inner s) ++ take n (drop (g_write_buf_pos s) (g_write_buf s)) ->
  handed (set_write (g_write_buf s) (g_write_buf_pos s + n) (set_inner i s)) = handed s.
Proof. intros Hn Hi. unfold handed. cbn. rewrite Hi, <- drop_drop, <- app_assoc, take_drop. done. Qed.

Lemma drain_io_ok fuel i s s' r :
  g_inner s = Io_ i -> (g_write_buf_pos s <= length (g_write_buf s) <= g_write_buf_pos s + fuel)%nat ->
  drain_io fuel i s = (s', r) -> hand_post s s' r.
Proof.
  revert i s. induction fuel as [|fuel IH]; intros i s Hi Hp; cbn [drain_io];
    (destruct (Nat.leb_spec (length (g_write_buf s)) (g_write_buf_pos s)) as [Hd|Hd]; [intros [= <- <-]; cbn; by split_and!; try lia|]); [lia|].
  destruct (poll_write i _) as [i' [[[|n]|e|]|]] eqn:Hw; try (by intros [= <- <-]).
  - apply poll_write_ok in Hw as [Hn Hs]. rewrite length_drop in Hn. intros Hr. apply IH in Hr; [|done|cbn; lia].
    assert (Hsent : inner_sent (Io_ i') = inner_sent (g_inner s) ++ take (Datatypes.S n) (drop (g_write_buf_pos s) (g_write_buf s))) by (rewrite Hi; cbn; by rewrite Hs).
    eapply hand_post_step, Hr; [done..|apply handed_advance; [rewrite length_drop; lia|done]|]. cbn [g_inner set_inner set_write]. rewrite Hsent. by eexists.
  - by apply poll_write_no_panic in Hw.
  - intros [= <- <-]. apply poll_write_not_ok in Hw; [|done]. cbn. unfold handed. cbn. rewrite Hi, Hw. split_and!; try done; lia.
Qed.

Lemma drain_h2_ok fuel h s s' r :
  g_inner s = H2 h -> (g_write_buf_pos s <= length (g_write_buf s) <= g_write_buf_pos s + fuel)%nat ->
  drain_h2 fuel h s = (s', r) -> hand_post s s' r.
Proof.
  revert h s. induction fuel as [|fuel IH]; intros h s Hi Hp; cbn [drain_h2]; cbv zeta;
    (destruct (Nat.leb_spec (length (g_write_buf s)) (g_write_buf_pos s)) as [Hd|Hd]; [intros [= <- <-]; cbn; by split_and!; try lia|]); [lia|].
  set (pending := (length (g_write_buf s) - g_write_buf_pos s)%nat).
  destruct (poll_capacity _) as [h1 r1] eqn:Hc. assert (Hcs : h2_sent h1 = h2_sent h) by (erewrite poll_capacity_sent, reserve_sent; done).
  assert (Hwait : hand_post s (set_inner (H2 h1) s) Pending) by (unfold hand_post, handed; cbn; rewrite Hi; cbn; rewrite Hcs; split_and!; try done; lia).
  destruct r1 as [[[[|cap]|e|]|]|]; try (by intros [= <- <-]); [|by apply poll_capacity_no_panic in Hc].
  set (n := Nat.min _ pending). destruct (send_data h1 _) as [h2 [[]|e|]] eqn:Hsd; try (by intros [= <- <-]); [|by apply send_data_no_panic in Hsd].
  apply send_data_ok in Hsd. intros Hr. apply IH in Hr; [|done|cbn [g_write_buf g_write_buf_pos set_inner set_write]; lia].
  assert (Hsent : inner_sent (H2 h2) = inner_sent (g_inner s) ++ take n (drop (g_write_buf_pos s) (g_write_buf s))) by (rewrite Hi; cbn; by rewrite Hsd, Hcs).
  eapply hand_post_step, Hr; [done..|apply (handed_advance s (H2 h2)); [rewrite length_drop; unfold n, pending; lia|done]|]. cbn [g_inner set_inner set_write]. rewrite Hsent. by eexists.
Qed.

(** A payload that is accepted becomes one frame. *)
Lemma encode_one s :
  pending_plain_pos s = 0%nat -> zlen (pending_plain s) <= MAX_MESSAGE_SIZE ->
  encode_pending_plain_into_frames true s =
  set_pending [] 0 (set_write (g_write_buf s ++ match pending_plain s with [] => [] | d => frame d end) (g_write_buf_pos s) s).
Proof.
  destruct s as [i rv rd d p wb wp]; cbn. intros -> Hm. unfold encode_pending_plain_into_frames. cbn [pending_plain].
  destruct d as [|x d]; [cbn; by rewrite app_nil_r|]. remember (x :: d) as y eqn:Hy.
  assert (Hstep : encode_loop (length y) true (mkGrpc i rv rd y 0 wb wp) = mkGrpc (S := W) (H := G) i rv rd y (length y) (wb ++ frame y) wp).
  { rewrite Hy at 1. cbn [length encode_loop pending_plain pending_plain_pos]. cbv zeta. rewrite (proj2 (Nat.ltb_lt 0 (length y))) by (rewrite Hy; cbn; lia).
    cbn [andb orb]. rewrite Nat.sub_0_r, Z.min_l by done. rewrite Nat2Z.id. cbn [drop Nat.add g_write_buf g_write_buf_pos set_pending set_write g_inner recv_buf g_read_buf pending_plain pending_plain_pos].
    rewrite firstn_all. rewrite <- frame_in_place.
    destruct d as [|x' d]; [done|]. cbn [encode_loop length pending_plain pending_plain_pos set_pending set_write g_inner recv_buf g_read_buf g_write_buf g_write_buf_pos].
    by rewrite (proj2 (Nat.ltb_ge (length y) (length y))) by lia. }
  rewrite Hstep. cbn. by rewrite Nat.leb_refl, Hy.
Qed.

Lemma clear_written_ok s s' r : hand_post s s' r -> (forall e, r <> Ready (Err e)) ->
  hand_post s (clear_written s') r /\ (r = Ready (Ok tt) -> drained (clear_written s')).
Proof.
  intros Hp He. unfold clear_written, drained. destruct (Nat.leb_spec (length (g_write_buf s')) (g_write_buf_pos s')) as [Hl|Hl]; destruct r as [[[]|e|]|]; cbn in *; try done.
  - split; [|done]. unfold handed in *. cbn. destruct Hp as (? & ? & Hh & ? & ? & ?). rewrite drop_ge in Hh by done. done.
  - split; [|done]. unfold handed in *. cbn. destruct Hp as (? & ? & Hh & ? & ? & ?). rewrite drop_ge in Hh by done. split_and!; done || lia.
  - destruct Hp as (_ & _ & _ & _ & Hd & _). specialize (Hd eq_refl). lia.
Qed.

Lemma flush_h2_send_ok s s' r h : g_inner s = H2 h -> (g_write_buf_pos s <= length (g_write_buf s))%nat ->
  flush_h2_send s = (s', r) -> hand_post s s' r /\ (r = Ready (Ok tt) -> drained s').
Proof.
  intros Hi Hp. unfold flush_h2_send. rewrite Hi. destruct (drain_h2 _ _ _) as [s1 r1] eqn:Hd. apply drain_h2_ok in Hd; [|done|lia].
  destruct r1 as [[[]|e|]|]; intros [= <- <-]; [by apply clear_written_ok|by split..].
Qed.

(** What is handed over stays accepted. *)
Lemma writes_handed sent0 acc ds s s' r : grpc_writes sent0 acc ds s -> hand_post s s' r ->
  match r with Ready (Err _) => True | Ready Panic => False | _ => grpc_writes sent0 acc ds s' end.
Proof.
  intros [H1 H2' H3 H4 H5 H6 H7]. destruct r as [[?|?|]|]; cbn; try done; intros (Hp & Hpp & Hh & Hl & _ & Hi);
    (split; [by rewrite Hp|by rewrite Hpp|done|done|by rewrite Hh|done|by etrans]).
Qed.

Lemma writes_encoded sent0 acc ds s d : grpc_writes sent0 acc ds s -> zlen d <= MAX_MESSAGE_SIZE - 5 ->
  let s' := encode_pending_plain_into_frames true (set_pending (pending_plain s ++ d) (pending_plain_pos s) s) in
  g_inner s' = g_inner s /\ exists ds', grpc_writes sent0 (acc ++ d) ds' s'.
Proof.
  intros [H1 H2' H3 H4 H5 H6 H7] Hd s'. subst s'. rewrite H1, H2'. rewrite encode_one; [|done|cbn; unfold MAX_MESSAGE_SIZE in *; lia]. cbn [app pending_plain set_pending].
  split; [done|]. destruct d as [|x d].
  - exists ds. split; cbn; try done; [by rewrite app_nil_r|unfold handed in *; cbn; by rewrite app_nil_r|by rewrite app_nil_r].
  - exists (ds ++ [x :: d]). split; cbn [pending_plain pending_plain_pos set_pending set_write g_inner g_write_buf g_write_buf_pos]; try done.
    + apply Forall_app. split; [done|]. constructor; [|done]. split; [cbn; lia|done].
    + rewrite concat_app, H4. cbn. by rewrite app_nil_r.
    + unfold handed in *. cbn [g_inner g_write_buf g_write_buf_pos set_pending set_write]. rewrite drop_app_le, app_assoc, H5, grpc_frames_snoc by done. by rewrite app_assoc.
    + rewrite length_app. lia.
Qed.

Lemma nothing_pending sent0 acc ds s : grpc_writes sent0 acc ds s -> encode_pending_plain_into_frames true s = s.
Proof. intros [Hp Hpp _ _ _ _ _]. destruct s; cbn in *; subst. reflexivity. Qed.

(** [poll_write] takes the whole buffer, whatever the transport does. *)
Lemma grpc_poll_write_ok sent0 acc s buf s' r : grpc_accepted sent0 acc s -> zlen buf <= MAX_MESSAGE_SIZE - 5 -> grpc_poll_write s buf = (s', r) ->
  match r with
  | Ready (Ok n) => n = length buf /\ grpc_accepted sent0 (acc ++ buf) s'
  | Ready (Err _) => True
  | _ => False
  end.
Proof.
  intros [ds Hw] Hb. unfold grpc_poll_write. cbv zeta. replace (Z.to_nat (Z.min (zlen buf) MAX_MESSAGE_SIZE)) with (length buf) by (unfold zlen, MAX_MESSAGE_SIZE in *; lia). rewrite firstn_all.
  destruct (writes_encoded sent0 acc ds s buf Hw Hb) as (Hi & ds' & He). cbv zeta in *. set (s1 := encode_pending_plain_into_frames _ _) in *.
  pose proof (gw_pos _ _ _ _ He) as Hpos. destruct (g_inner s1) as [i|h] eqn:Hi1.
  - destruct (drain_io _ _ _) as [s2 r2] eqn:Hd. apply drain_io_ok in Hd; [|done|lia].
    destruct r2 as [[[]|e|]|]; [|by intros [= <- <-]|done|]; intros [= <- <-]; (split; [done|]; exists ds'; apply clear_written_ok in Hd as [Hd _]; [|done]; exact (writes_handed _ _ _ _ _ _ He Hd)).
  - destruct (flush_h2_send s1) as [s2 r2] eqn:Hd. apply (flush_h2_send_ok _ _ _ h) in Hd as [Hd _]; [|done..].
    destruct r2 as [[[]|e|]|]; [|by intros [= <- <-]|done|]; intros [= <- <-]; (split; [done|]; exists ds'; exact (writes_handed _ _ _ _ _ _ He Hd)).
Qed.

Lemma inner_moved sent0 acc ds s i : grpc_writes sent0 acc ds s -> inner_sent i = inner_sent (g_inner s) -> grpc_accepted sent0 acc (set_inner i s).
Proof. intros [? ? ? ? Hh ? Hg] Hi. exists ds. split; try done; [unfold handed in *; cbn in *; by rewrite Hi|cbn; by rewrite Hi]. Qed.

Lemma grpc_poll_flush_ok sent0 acc s s' r : grpc_accepted sent0 acc s -> grpc_poll_flush s = (s', r) ->
  match r with
  | Ready (Ok _) => grpc_accepted sent0 acc s' /\ drained s'
  | Ready (Err _) => True
  | Ready Panic => False
  | Pending => grpc_accepted sent0 acc s'
  end.
Proof.
  intros [ds Hw]. unfold grpc_poll_flush. cbv zeta. rewrite (nothing_pending _ _ _ _ Hw). pose proof (gw_pos _ _ _ _ Hw) as Hpos. destruct (g_inner s) as [i|h] eqn:Hi.
  - destruct (drain_io _ _ _) as [s2 r2] eqn:Hd. apply drain_io_ok in Hd; [|done|lia].
    destruct r2 as [[[]|e|]|]; [|by intros [= <- <-]|done|]; [|intros [= <- <-]; exists ds; exact (writes_handed _ _ _ _ _ _ Hw Hd)].
    apply clear_written_ok in Hd as [Hd Hdr]; [|done]. specialize (Hdr eq_refl). pose proof (writes_handed _ _ _ _ _ _ Hw Hd) as Hc. cbn in Hc.
    destruct (g_inner (clear_written s2)) as [j|h] eqn:Hj; [|intros [= <- <-]; split; [by exists ds|done]].
    destruct (poll_flush j) as [j' r3] eqn:Hf. intros [= <- <-]. pose proof (poll_flush_sent _ _ _ Hf) as Hs.
    pose proof (inner_moved _ _ _ _ (Io_ j') Hc ltac:(rewrite Hj; done)) as Ha.
    destruct r3 as [[[]|e|]|]; try done. by apply poll_flush_no_panic in Hf.
  - intros Hd. apply (flush_h2_send_ok _ _ _ h) in Hd as [Hd Hdr]; [|done..]. pose proof (writes_handed _ _ _ _ _ _ Hw Hd) as Hc.
    destruct r as [[[]|e|]|]; try done; [split; [by exists ds|by apply Hdr]|by exists ds].
Qed.

(** Over HTTP/2 a shutdown hands over everything first; over a byte stream it does not. *)
Lemma grpc_poll_shutdown_ok sent0 acc s s' r : grpc_accepted sent0 acc s -> grpc_poll_shutdown s = (s', r) ->
  match r with
  | Ready (Ok _) => grpc_accepted sent0 acc s' /\ (forall h, g_inner s = H2 h -> drained s')
  | Ready (Err _) => True
  | Ready Panic => False
  | Pending => grpc_accepted sent0 acc s'
  end.
Proof.
  intros [ds Hw]. unfold grpc_poll_shutdown. cbv zeta. rewrite (nothing_pending _ _ _ _ Hw). pose proof (gw_pos _ _ _ _ Hw) as Hpos. destruct (g_inner s) as [i|h] eqn:Hi.
  - destruct (poll_shutdown i) as [i' r1] eqn:Hs. intros [= <- <-]. pose proof (poll_shutdown_sent _ _ _ Hs) as Hsent.
    pose proof (inner_moved _ _ _ _ (Io_ i') Hw ltac:(rewrite Hi; done)) as Ha. destruct r1 as [[[]|e|]|]; try done. by apply poll_shutdown_no_panic in Hs.
  - destruct (flush_h2_send s) as [s2 r2] eqn:Hd. apply (flush_h2_send_ok _ _ _ h) in Hd as [Hd Hdr]; [|done..]. pose proof (writes_handed _ _ _ _ _ _ Hw Hd) as Hc.
    destruct r2 as [[[]|e|]|]; try (by intros [= <- <-]); [|by intros [= <- <-]; exists ds]. specialize (Hdr eq_refl).
    destruct (g_inner s2) as [j|g] eqn:Hj; [intros [= <- <-]; split; [by exists ds|done]|].
    destruct (send_trailers g) as [g' r3] eqn:Ht. intros [= <- <-]. pose proof (send_trailers_sent _ _ _ Ht) as Hsent.
    pose proof (inner_moved _ _ _ _ (H2 g') Hc ltac:(rewrite Hj; done)) as Ha. destruct r3 as [[]|e|]; try done. by apply send_trailers_no_panic in Ht.
Qed.
End Writer.

(** ** The reader *)

Section Reader.
Context {R G : Type} `{HR : ReadSpec R} `{HG : H2Spec G}.
Implicit Types s : GrpcStream R G.

Definition inner_incoming (i : GrpcInner R G) : bytes := match i with Io_ r => incoming r | H2 h => h2_incoming h end.

(** The rounds that the transport can give to the loop of [poll_read]. *)
Definition inner_left (i : GrpcInner R G) : nat := match i with Io_ r => length (incoming r) | H2 h => h2_frames h end.

Definition transport_error (e : io_error) : Prop :=
  (exists (i i' : R) n, poll_read i n = (i', Ready (Err e))) \/ exists h h' : G, poll_data h = (h', Ready (Some (Err e))).

(** [out] was read of [acc], and the frames of the rest are coming: all of them if [full]. *)
Record grpc_reads (full : bool) (acc out : bytes) (ds : list bytes) s : Prop := {
  gr_fits : Forall frame_fits ds;
  gr_acc : acc = out ++ g_read_buf s ++ concat ds;
  gr_coming : recv_buf s ++ inner_incoming (g_inner s) `prefix_of` frames ds;
  gr_full : full = true -> recv_buf s ++ inner_incoming (g_inner s) = frames ds
}.

Definition grpc_reading (full : bool) (acc out : bytes) s : Prop := exists ds, grpc_reads full acc out ds s.

Lemma serve_buffered fuel n s : g_read_buf s <> [] -> serve_loop (S fuel) n s =
  (set_reading (recv_buf s) (drop n (g_read_buf s)) s, Ok (Some (take n (g_read_buf s)))).
Proof.
  intros Hb. cbn [serve_loop]. destruct (g_read_buf s) as [|x b] eqn:E; [done|]. rewrite <- E.
  destruct (Nat.le_ge_cases (length (g_read_buf s)) n); [rewrite Nat.min_l by done|rewrite Nat.min_r by done; done].
  by rewrite firstn_all, drop_all, take_ge, drop_ge.
Qed.

Lemma serve_frame fuel n s payload rest data :
  g_read_buf s = [] -> decode_grpc_frame (recv_buf s) = Ok (Some (payload, rest)) -> payload <> [] -> decode_hunk payload = Ok data ->
  serve_loop (S fuel) n s = serve_loop fuel n (set_reading rest data s).
Proof. intros Hb Hf Hne Hd. cbn [serve_loop]. rewrite Hb, Hf. destruct payload; [done|]. by rewrite Hd. Qed.

Lemma serve_wait fuel n s : g_read_buf s = [] -> decode_grpc_frame (recv_buf s) = Ok None -> serve_loop (S fuel) n s = (s, Ok None).
Proof. intros Hb Hf. cbn [serve_loop]. by rewrite Hb, Hf. Qed.

(** Serving what was buffered. *)
Lemma reads_buffered full acc out ds n s : grpc_reads full acc out ds s ->
  grpc_reads full acc (out ++ take n (g_read_buf s)) ds (set_reading (recv_buf s) (drop n (g_read_buf s)) s).
Proof. intros [H1 H2' H3 H4]. split; cbn; try done. by rewrite H2', <- app_assoc, (app_assoc (take _ _)), take_drop. Qed.

Lemma take_nil_inv {A} n (l : list A) : take n l = [] -> l <> [] -> n = 0%nat.
Proof. by destruct n, l. Qed.

(** What [serve_decoded_frames] did: served [c], or not. *)
Definition serve_post full acc out n s s' (r : res io_error (option bytes)) : Prop :=
  match r with
  | Ok (Some c) => (length c <= n)%nat /\ (c = [] -> n = 0%nat) /\ grpc_reading full acc (out ++ c) s' /\ g_inner s' = g_inner s
  | Ok None => grpc_reading full acc out s' /\ g_inner s' = g_inner s /\ (full = true -> inner_incoming (g_inner s') = [] -> out = acc)
  | _ => False
  end.

Lemma serve_buffered_ok full acc out ds fuel n s s' r : grpc_reads full acc out ds s -> g_read_buf s <> [] ->
  serve_loop (S fuel) n s = (s', r) -> serve_post full acc out n s s' r.
Proof.
  intros Hs Hb. rewrite serve_buffered by done. intros [= <- <-]. cbn [serve_post]. rewrite length_take.
  split_and!; [lia|intros Ht; by eapply take_nil_inv|exists ds; by apply reads_buffered|done].
Qed.

Lemma grpc_serve_ok full acc out s n s' r : grpc_reading full acc out s -> serve_decoded_frames n s = (s', r) -> serve_post full acc out n s s' r.
Proof.
  intros [ds Hs]. unfold serve_decoded_frames. cbn [Nat.add]. destruct (decide (g_read_buf s = [])) as [Hb|Hb]; [|by apply (serve_buffered_ok _ _ _ ds)].
  pose proof Hs as [Hfit Hacc Hcome Hfull]. rewrite Hb in Hacc. destruct ds as [|d ds].
  { assert (He : recv_buf s ++ inner_incoming (g_inner s) = []) by (by apply prefix_nil_inv). apply app_nil in He as [He _].
    rewrite serve_wait by (done || by rewrite He). intros [= <- <-]. split_and!; [by exists []|done|]. intros _ _. rewrite Hacc. cbn. by rewrite app_nil_r. }
  inversion_clear Hfit as [|? ? Hd Hds]. pose proof (hunk_fits d Hd) as Hh. change (frames (d :: ds)) with (frame d ++ frames ds) in *.
  destruct (prefix_split (recv_buf s) (frame d) (frames ds)) as [[Hl Hp]|(y & Hy & Hp)]; [etrans; [by eexists|done]|..].
  - rewrite serve_wait by (done || by apply (decode_partial (append_hunk d))). intros [= <- <-]. split_and!; [by exists (d :: ds)|done|].
    intros Hf Hi. rewrite Hi, app_nil_r in Hfull. rewrite (Hfull Hf), length_app in Hl. lia.
  - rewrite (serve_frame _ _ _ (append_hunk d) y d); [|done|rewrite Hy; by apply decode_frame|done|apply decode_hunk_append; unfold frame_fits, MAX_MESSAGE_SIZE in *; lia].
    set (s1 := set_reading _ d _). assert (Hs1 : grpc_reads full acc out ds s1).
    { rewrite Hy, <- app_assoc in Hcome, Hfull. split; cbn; [done|by rewrite Hacc|by apply prefix_app_inv in Hcome|]. intros Hf. by apply app_inv_head in Hfull. }
    assert (Hne : g_read_buf s1 <> []) by (cbn; destruct Hd as [Hd _]; by destruct d; cbn in Hd; [lia|]).
    intros Hr. exact (serve_buffered_ok _ _ _ ds _ n s1 s' r Hs1 Hne Hr).
Qed.

(** More of the transport in the buffer. *)
Lemma reads_ingest full acc out s i c : grpc_reading full acc out s -> inner_incoming (g_inner s) = c ++ inner_incoming i ->
  grpc_reading full acc out (ingest_h2_chunk c (set_inner i s)).
Proof. intros [ds [H1 H2' H3 H4]] Hi. rewrite Hi in *. exists ds. split; cbn; rewrite <- ?app_assoc; done. Qed.

Lemma reads_moved full acc out s i : grpc_reading full acc out s -> inner_incoming i = inner_incoming (g_inner s) ->
  grpc_reading full acc out (set_inner i s).
Proof. intros [ds [H1 H2' H3 H4]] Hi. rewrite <- Hi in *. exists ds. by split. Qed.

Definition read_post full acc out n s' (x : poll (res io_error bytes)) : Prop :=
  match x with
  | Ready (Ok c) => (length c <= n)%nat /\ grpc_reading full acc (out ++ c) s' /\ (c = [] -> n = 0%nat \/ (inner_incoming (g_inner s') = [] /\ (full = true -> out = acc)))
  | Ready (Err e) => transport_error e
  | Ready Panic => False
  | Pending => grpc_reading full acc out s'
  end.

(** The end of the transport: nothing is left if all frames were coming. *)
Lemma read_end full acc out n s i : grpc_reading full acc out s -> (full = true -> inner_incoming (g_inner s) = [] -> out = acc) ->
  inner_incoming (g_inner s) = [] -> inner_incoming i = [] -> read_post full acc out n (set_inner i s) (Ready (Ok [])).
Proof.
  intros Hs Hout He Hi. cbn. split; [lia|]. rewrite app_nil_r. split; [apply reads_moved; [done|congruence]|]. intros _. right. split; [done|]. intros Hf. by apply Hout.
Qed.

Lemma grpc_read_loop_ok full acc out n fuel s : grpc_reading full acc out s -> (inner_left (g_inner s) < fuel)%nat ->
  exists s' x, grpc_read_loop fuel s n = Some (s', x) /\ read_post full acc out n s' x.
Proof.
  revert s. induction fuel as [|fuel IH]; intros s Hs Hf; [lia|]. cbn [grpc_read_loop].
  destruct (serve_decoded_frames n s) as [s1 r1] eqn:Hr. apply (grpc_serve_ok _ _ _ _ _ _ _ Hs) in Hr.
  destruct r1 as [[c|]|e|]; cbn in Hr; try done.
  { destruct Hr as (Hl & Hz & Hr & _). eexists _, _. split; [done|]. cbn. split_and!; auto. }
  destruct Hr as (Hr & Hi & Hout). rewrite <- Hi in Hf. destruct (g_inner s1) as [i|h] eqn:Hi1.
  - destruct (poll_read i BRIDGE_READ_CHUNK) as [i' x] eqn:Hp. destruct x as [[c|e|]|].
    + apply poll_read_ok in Hp as (_ & Hin & Hnil). destruct c as [|b c].
      * eexists _, _. split; [done|]. destruct (Hnil eq_refl) as [Hz|He]; [unfold BRIDGE_READ_CHUNK in Hz; lia|]. cbn in Hin. apply read_end; rewrite ?Hi1; try done. cbn. congruence.
      * apply IH; [apply reads_ingest; [done|by rewrite Hi1]|]. cbn in Hf |- *. rewrite Hin, length_app in Hf. cbn in Hf. lia.
    + eexists _, _. split; [done|]. left. by eexists _, _, _.
    + by apply poll_read_no_panic in Hp.
    + eexists _, _. split; [done|]. apply reads_moved; [done|]. rewrite Hi1. cbn. by eapply poll_read_pending.
  - destruct (poll_data h) as [h' x] eqn:Hp. destruct x as [[[c|e|]|]|].
    + apply poll_data_chunk in Hp as [Hin Hfr]. destruct (release_incoming h' (length c)) as [Hri Hrf].
      apply IH; [apply reads_ingest; [done|rewrite Hi1; cbn; by rewrite Hri]|]. cbn in Hf |- *. rewrite Hrf. lia.
    + eexists _, _. split; [done|]. right. by eexists _, _.
    + by apply poll_data_no_panic in Hp.
    + apply poll_data_end in Hp as [He He']. eexists _, _. split; [done|]. apply read_end; rewrite ?Hi1; done.
    + eexists _, _. split; [done|]. apply reads_moved; [done|]. rewrite Hi1. cbn. by eapply poll_data_pending.
Qed.
End Reader.

(** ** Both ends *)

Section Session.
Context {W R G K : Type} `{HW : WriteSpec W} `{HR : ReadSpec R} `{HG : H2Spec G} `{HK : H2Spec K}.

(** What a client of the writer does; the flag tells that everything was flushed. *)
Inductive grpc_writing (w0 : GrpcStream W G) : GrpcStream W G -> bytes -> bool -> Prop :=
| grpc_writing_start : grpc_writing w0 w0 [] true
| grpc_writing_write w acc done buf w' n :
    grpc_writing w0 w acc done -> zlen buf <= MAX_MESSAGE_SIZE - 5 -> grpc_poll_write w buf = (w', Ready (Ok n)) ->
    grpc_writing w0 w' (acc ++ take n buf) false
| grpc_writing_flush w acc done w' :
    grpc_writing w0 w acc done -> grpc_poll_flush w = (w', Ready (Ok tt)) -> grpc_writing w0 w' acc true
| grpc_writing_wait w acc done w' :
    grpc_writing w0 w acc done -> grpc_poll_flush w = (w', Pending) -> grpc_writing w0 w' acc false.

Inductive grpc_read_from (r0 : GrpcStream R K) : GrpcStream R K -> bytes -> Prop :=
| grpc_read_start : grpc_read_from r0 r0 []
| grpc_read_some r out n fuel r' c :
    grpc_read_from r0 r out -> (inner_left (g_inner r) < fuel)%nat -> grpc_read_loop fuel r n = Some (r', Ready (Ok c)) ->
    grpc_read_from r0 r' (out ++ c)
| grpc_read_wait r out n fuel r' :
    grpc_read_from r0 r out -> (inner_left (g_inner r) < fuel)%nat -> grpc_read_loop fuel r n = Some (r', Pending) ->
    grpc_read_from r0 r' out.

Lemma grpc_writing_accepted i0 w acc done : grpc_writing (grpc_new i0) w acc done ->
  grpc_accepted (inner_sent i0) acc w /\ (done = true -> drained w).
Proof.
  induction 1 as [|w acc done buf w' n _ [IH _] Hb Hw|w acc done w' _ [IH _] Hw|w acc done w' _ [IH _] Hw].
  - split; [|done]. exists []. split; cbn; try done.
  - apply (grpc_poll_write_ok _ _ _ _ _ _ IH Hb) in Hw as [-> Hw]. by rewrite firstn_all.
  - by apply (grpc_poll_flush_ok _ _ _ _ _ IH) in Hw as [Ha Hd].
  - by apply (grpc_poll_flush_ok _ _ _ _ _ IH) in Hw.
Qed.

Lemma grpc_read_from_reading r0 r out full acc : grpc_reading full acc [] r0 -> grpc_read_from r0 r out -> grpc_reading full acc out r.
Proof.
  intros Hr0. induction 1 as [|r out n fuel r' c _ IH Hf Hr|r out n fuel r' _ IH Hf Hr]; [done|..];
    destruct (grpc_read_loop_ok _ _ _ n _ _ IH Hf) as (s' & x & Hx & Hp); rewrite Hr in Hx; injection Hx as <- <-; [apply Hp|done].
Qed.

(** A stream at the other end of what was written. *)
Lemma grpc_peer_reading (i0 : GrpcInner W G) (j : GrpcInner R K) acc (w : GrpcStream W G) wire full :
  grpc_accepted (inner_sent i0) acc w -> inner_sent (g_inner w) = inner_sent i0 ++ wire -> inner_incoming j = wire ->
  (full = true -> drained w) -> grpc_reading full acc [] (grpc_new j).
Proof.
  intros [ds [_ _ Hfit Hacc Hh _ _]] Hw Hj Hd. unfold handed in Hh. rewrite Hw, <- app_assoc in Hh. apply app_inv_head in Hh.
  exists ds. split; cbn; rewrite ?Hj; try done; [by eexists|]. intros Hf. destruct (Hd Hf) as [Hb Hp]. rewrite Hb, Hp in Hh. by rewrite <- Hh, app_nil_r.
Qed.

(** C16. The gRPC stream carries bytes.
    Let one side write payloads that fit into a message, over a byte stream or over
    HTTP/2, with partial and pending writes and flushes, and let the other side read what
    arrived, over either, cut into chunks in any way, empty ones included.  Every read ends
    after as many rounds as the transport has data for, without a panic, and gives the
    bytes that were accepted, in order and once.  A read fails only when the transport does,
    and reports the end only when the transport is at its end, with everything read if the
    writer had flushed. *)
Theorem grpc_stream_delivers (i0 : GrpcInner W G) w acc done :
  grpc_writing (grpc_new i0) w acc done ->
  exists wire, inner_sent (g_inner w) = inner_sent i0 ++ wire /\ forall j : GrpcInner R K, inner_incoming j = wire ->
  forall r out n fuel, grpc_read_from (grpc_new j) r out -> (inner_left (g_inner r) < fuel)%nat ->
  exists r' x, grpc_read_loop fuel r n = Some (r', x) /\
  match x with
  | Ready (Ok c) => (length c <= n)%nat /\ out ++ c `prefix_of` acc /\
      (c = [] -> n = 0%nat \/ (inner_incoming (g_inner r') = [] /\ (done = true -> out = acc)))
  | Ready (Err e) => transport_error (R := R) (G := K) e
  | Ready Panic => False
  | Pending => out `prefix_of` acc
  end.
Proof.
  intros Hw. apply grpc_writing_accepted in Hw as [Ha Hd]. pose proof Ha as [ds Hds]. destruct (gw_grows _ _ _ _ Hds) as [wire Hwire].
  exists wire. split; [done|]. intros j Hj r out n fuel Hr Hf.
  assert (H0' : grpc_reading done acc [] (grpc_new j)) by exact (grpc_peer_reading i0 j acc w wire done Ha Hwire Hj Hd).
  apply (grpc_read_from_reading _ _ _ _ _ H0') in Hr. destruct (grpc_read_loop_ok _ _ _ n _ _ Hr Hf) as (r' & x & Hx & Hp). exists r', x. split; [done|].
  assert (Hpre : forall o s, grpc_reading done acc o s -> o `prefix_of` acc) by (intros o s [ds' [_ -> _ _]]; by eexists).
  destruct x as [[c|e|]|]; cbn in Hp; try done; [|by eapply Hpre]. destruct Hp as (Hl & Hs & He). split_and!; [done|by eapply Hpre|done].
Qed.
End Session.

(** ** A scripted HTTP/2 stream *)

Record H2Script : Type := mkH2Script {
  h2_chunks : list (option bytes);
  h2_capacity : list (option nat);
  h2_wire : bytes
}.

#[export] Instance H2Script_stream : H2Stream H2Script := {
  reserve_capacity h _ := h;
  poll_capacity h :=
    match h2_capacity h with
    | [] => (h, Ready (Some (Ok 1000%nat)))
    | None :: cs => (mkH2Script (h2_chunks h) cs (h2_wire h), Pending)
    | Some n :: cs => (mkH2Script (h2_chunks h) cs (h2_wire h), Ready (Some (Ok n)))
    end;
  send_data h c := (mkH2Script (h2_chunks h) (h2_capacity h) (h2_wire h ++ c), Ok tt);
  poll_data h :=
    match h2_chunks h with
    | [] => (h, Ready None)
    | None :: cs => (mkH2Script cs (h2_capacity h) (h2_wire h), Pending)
    | Some c :: cs => (mkH2Script cs (h2_capacity h) (h2_wire h), Ready (Some (Ok c)))
    end;
  release_capacity h _ := h;
  send_trailers h := (h, Ok tt)
}.

#[export] Program Instance H2Script_spec : H2Spec H2Script := {
  h2_incoming h := concat (default [] <$> h2_chunks h);
  h2_frames h := length (h2_chunks h);
  h2_sent := h2_wire
}.
Next Obligation. intros [[|[x|] cs] k w] h' c; cbn; intros [= <- <-]; cbn; split; [done|lia]. Qed.
Next Obligation. intros [[|[x|] cs] k w] h'; cbn; intros [= <-]; done. Qed.
Next Obligation. intros [[|[x|] cs] k w] h'; cbn; intros [= <-]; done. Qed.
Next Obligation. intros [[|[x|] cs] k w] h'; cbn; intros [=]. Qed.
Next Obligation. done. Qed.
Next Obligation. done. Qed.
Next Obligation. intros [cs [|[x|] k] w] h' r; cbn; intros [= <- _]; done. Qed.
Next Obligation. intros [cs [|[x|] k] w] h'; cbn; intros [=]. Qed.
Next Obligation. intros h h' c; cbn; intros [= <-]; done. Qed.
Next Obligation. intros h h' c; cbn; intros [=]. Qed.
Next Obligation. intros h h' r; cbn; intros [= <- _]; done. Qed.
Next Obligation. intros h h'; cbn; intros [=]. Qed.

(** Two writes over HTTP/2 whose window opens late, read from a byte stream in pieces. *)
Definition toy_h2 : GrpcInner Script H2Script := H2 (mkH2Script [] [Some 3%nat; None; None; Some 4%nat] []).
Definition toy_written : GrpcStream Script H2Script := (grpc_poll_write (grpc_poll_write (grpc_new toy_h2) [7; 8; 9]).1 [10; 11]).1.
Definition toy_flushed : GrpcStream Script H2Script := (grpc_poll_flush toy_written).1.
Definition toy_wire : bytes := inner_sent (g_inner toy_flushed).
Definition toy_peer : GrpcInner Script H2Script := Io_ (mkScript [Some (take 6 toy_wire); None; Some (drop 6 toy_wire)] [] []).

Lemma grpc_stream_delivers_witness :
  inner_incoming toy_peer = toy_wire /\ exists r' x, grpc_read_loop 100 (grpc_new toy_peer) 100 = Some (r', x) /\
  match x with
  | Ready (Ok c) => (length c <= 100)%nat /\ [] ++ c `prefix_of` [7; 8; 9; 10; 11] /\
      (c = [] -> 100%nat = 0%nat \/ (inner_incoming (g_inner r') = [] /\ (true = true -> [] = [7; 8; 9; 10; 11])))
  | Ready (Err e) => transport_error (R := Script) (G := H2Script) e
  | Ready Panic => False
  | Pending => [] `prefix_of` [7; 8; 9; 10; 11]
  end.
Proof.
  split; [vm_compute; reflexivity|].
  destruct (grpc_stream_delivers (R := Script) (K := H2Script) toy_h2 toy_flushed [7; 8; 9; 10; 11] true) as (wire & Hwire & Hread).
  { apply (grpc_writing_flush _ toy_written [7; 8; 9; 10; 11] false); [|vm_compute; reflexivity].
    apply (grpc_writing_write _ (grpc_poll_write (grpc_new toy_h2) [7; 8; 9]).1 [7; 8; 9] false [10; 11] toy_written 2%nat); [|vm_compute; discriminate|vm_compute; reflexivity].
    apply (grpc_writing_write _ (grpc_new toy_h2) [] true [7; 8; 9] _ 3%nat); [apply grpc_writing_start|vm_compute; discriminate|vm_compute; reflexivity]. }
  apply (Hread toy_peer) with (out := []); [|apply grpc_read_start|apply Nat.ltb_lt; vm_compute; reflexivity].
  transitivity toy_wire; [vm_compute; reflexivity|exact Hwire].
Defined.

(** ** Limits *)

(** The rounds of [serve_decoded_frames] are enough: more of them change nothing. *)
Lemma decode_shorter buf payload rest : decode_grpc_frame buf = Ok (Some (payload, rest)) -> (length rest < length buf)%nat.
Proof.
  unfold decode_grpc_frame. destruct (Nat.ltb_spec (length buf) FRAME_HEADER_LEN) as [|Hl]; [done|]. unfold FRAME_HEADER_LEN in *. intros Hd. inv_res. case_match; [done|]. inv_res.
  case_match; [done|]. case_match; [done|]. injection Hd as _ <-. rewrite !length_drop. lia.
Qed.

Lemma serve_fuel {S H} fuel n (s : GrpcStream S H) : (2 + length (recv_buf s) <= fuel)%nat -> serve_loop fuel n s = serve_decoded_frames n s.
Proof.
  unfold serve_decoded_frames. enough (Hg : forall f f' (s : GrpcStream S H), (2 + length (recv_buf s) <= f)%nat -> (2 + length (recv_buf s) <= f')%nat -> serve_loop f n s = serve_loop f' n s) by (intros; apply Hg; lia).
  clear fuel s. induction f as [|f IH]; intros [|f'] s Hf Hf'; try lia. cbn [serve_loop]. destruct (g_read_buf s); [|done].
  destruct (decode_grpc_frame (recv_buf s)) as [[[payload rest]|]|e|] eqn:Hd; try done. apply decode_shorter in Hd.
  destruct payload; [done|]. destruct (decode_hunk _) as [[|x data]|e|]; try done.
  - apply IH; cbn; lia.
  - destruct f, f'; cbn in *; try lia. done.
Qed.

(** The length of a varint from below. *)
Lemma put_groups_long k m v : 2 ^ (7 * Z.of_nat k) <= v -> (k < m)%nat -> (k < length (put_groups m v))%nat.
Proof.
  revert m v. induction k as [|k IH]; intros [|m] v Hv Hm; try lia; cbn [put_groups]; cbv zeta; [case_match; cbn; lia|].
  replace (7 * Z.of_nat (S k)) with (7 + 7 * Z.of_nat k) in Hv by lia. rewrite Z.pow_add_r in Hv by lia. change (2 ^ 7) with 128 in Hv.
  assert (0 < 2 ^ (7 * Z.of_nat k)) by (apply Z.pow_pos_nonneg; lia).
  rewrite Z.shiftr_div_pow2 by lia. change (2 ^ 7) with 128. assert (Hq : 2 ^ (7 * Z.of_nat k) <= v / 128) by (apply Z.div_le_lower_bound; lia).
  destruct (Z.eqb_spec (v / 128) 0); [lia|]. cbn [length]. specialize (IH m (v / 128) Hq). lia.
Qed.

(** A write of the largest length that [poll_write] accepts makes a message that no reader
    of this transport takes: the tag and the length do not count against the limit. *)
Lemma own_frame_refused d rest : MAX_MESSAGE_SIZE - 5 < zlen d <= MAX_MESSAGE_SIZE ->
  decode_grpc_frame (frame d ++ rest) = Err (Transport "gRPC: message too large").
Proof.
  intros Hd. unfold frame, encode_grpc_frame. apply decode_large.
  pose proof (put_groups_long 3 10 (zlen d) ltac:(change (2 ^ (7 * Z.of_nat 3)) with 2097152; unfold MAX_MESSAGE_SIZE in *; lia) ltac:(lia)) as Hlo.
  pose proof (put_groups_length 4 (zlen d) ltac:(change (2 ^ (7 * Z.of_nat 4)) with 268435456; unfold zlen, MAX_MESSAGE_SIZE in *; lia)) as Hhi.
  unfold zlen at 1 2. rewrite length_hunk. unfold put_varint, zlen, MAX_MESSAGE_SIZE in *. lia.
Qed.

(** There is no back-pressure: over a byte stream that takes nothing every write is accepted
    and stays in memory. *)
Lemma stalled_write_accepted {W G} `{WriteSpec W} `{H2Spec G} sent0 acc (s : GrpcStream W G) i buf :
  grpc_accepted sent0 acc s -> g_inner s = Io_ i -> (forall b, poll_write i b = (i, Pending)) -> (0 < length buf)%nat -> zlen buf <= MAX_MESSAGE_SIZE - 5 ->
  exists s', grpc_poll_write s buf = (s', Ready (Ok (length buf))) /\ g_inner s' = Io_ i /\
    (length (g_write_buf s) + length buf < length (g_write_buf s'))%nat.
Proof.
  intros [ds Hw] Hi Hstall Hb Hfit. unfold grpc_poll_write. cbv zeta.
  replace (Z.to_nat (Z.min (zlen buf) MAX_MESSAGE_SIZE)) with (length buf) by (unfold zlen, MAX_MESSAGE_SIZE in *; lia). rewrite firstn_all.
  rewrite (gw_plain _ _ _ _ Hw), (gw_plain_pos _ _ _ _ Hw). pose proof (gw_pos _ _ _ _ Hw) as Hp.
  rewrite encode_one; [|done|cbn [app pending_plain set_pending]; unfold MAX_MESSAGE_SIZE in *; lia]. cbn [app pending_plain set_pending set_write g_inner g_write_buf g_write_buf_pos].
  rewrite Hi. destruct buf as [|x buf]; [cbn in Hb; lia|]. set (d := x :: buf) in *.
  assert (Hl : (length d < length (frame d))%nat) by (unfold frame, encode_grpc_frame, append_grpc_frame; cbn [app length]; rewrite length_app, length_be_bytes, length_hunk; lia).
  destruct (length (g_write_buf s ++ frame d)) as [|k] eqn:Ek; [rewrite length_app in Ek; lia|]. cbn [drain_io g_write_buf g_write_buf_pos set_pending set_write].
  rewrite (proj2 (Nat.leb_gt _ _)), Hstall by (rewrite length_app; lia). eexists. split; [done|]. unfold clear_written. cbn [g_write_buf g_write_buf_pos set_inner set_pending set_write].
  rewrite (proj2 (Nat.leb_gt _ _)) by (rewrite length_app; lia). cbn [g_write_buf g_inner set_inner set_pending set_write]. rewrite length_app. split; [done|lia].
Qed.

(** A message with the length 2^64 - 1 in it: the end of the data wraps around, and the
    bytes are cut from 11 to 10. *)
Example wrapped_length_panics :
  let hostile := encode_grpc_frame ([0x0A] ++ replicate 9 0xFF ++ [1]) in
  match grpc_read_loop (H := H2Script) 9 (grpc_new (Io_ (mkScript [Some hostile] [] []))) 100 with
  | Some (_, Ready Panic) => True
  | _ => False
  end.
Proof. vm_compute. exact I. Qed.

(** An empty message hides the complete one behind it: the reader waits for the transport
    with data at hand. *)
Example empty_message_stalls :
  match grpc_read_loop (H := H2Script) 9 (grpc_new (Io_ (mkScript [Some (encode_grpc_frame [] ++ frame [7; 8])] [] []))) 100 with
  | Some (s, Ready (Ok c)) => c = [] /\ recv_buf s = frame [7; 8]
  | _ => False
  end.
Proof. vm_compute. split; reflexivity. Qed.

(** A shutdown over a byte stream forgets what was not yet handed over. *)
Example shutdown_forgets :
  let w := grpc_poll_write (grpc_new (H := H2Script) (Io_ (mkScript [] [None] []))) [7; 8] in
  w.2 = Ready (Ok 2%nat) /\ (grpc_poll_shutdown w.1).2 = Ready (Ok tt) /\ inner_sent (g_inner (grpc_poll_shutdown w.1).1) = [].
Proof. vm_compute. split_and!; reflexivity. Qed.
